(* ===== verification/_CoqProject ===== *)
-Q . S2P
Prelude.v
Order.v
Text.v
Json.v
Core.v
Budget.v
Packages.v
Schema.v
Evaluate.v
Operation.v
Invocation.v
Catalog.v
Preparation.v
Charge.v
Projection.v
Legacy.v
Conform.v
Effects.v
Analysis.v
Codec.v
Response.v
Device.v
Archive.v
Tar.v
Gzip.v
Member.v
Inflate.v
Program.v
Ports.v
Cache.v
Dispatcher.v
Protocol.v
Requests.v
Audited.v
Serving.v
Parallel.v
Sealing.v
Sealed.v
Builtins.v
Installed.v
Backups.v
Ciphertext.v
Store.v
Image.v
Vault.v
Protection.v
Workflow.v
Custody.v
Zip.v
Registry.v
Policy.v
Runner.v
Session.v
Local.v
Answers.v
Capture.v
Tunnel.v
Traffic.v
Linux.v
Rotation.v
Reading.v
Framing.v
Mcp.v
Printable.v
Delivered.v
Age.v
Provider.v
Trail.v
Worker.v
Config.v
Startup.v
Windows.v
Ntfs.v
Spec.v
Syntax.v
Portable.v
Evidence.v
Contract.v
Sources.v
Workspace.v
