(* ===== verification/Prelude.v ===== *)
(** * Verification of openwrt-mcp

    openwrt-mcp is a Model Context Protocol server that lets an agent operate
    an OpenWrt device through a fixed set of reviewed operations.  An operator
    installs a catalog of operations and a policy; the dispatcher authorizes a
    call, validates and prepares its arguments, checks that the device was
    observed to offer the method, compiles the action to a local or remote
    command, and projects the device's JSON answer to a bounded, redacted
    result.  This library is a shallow embedding of the crates under
    [src/crates/] and [src/tools/]: every definition is a Rocq function that follows the code
    line by line, and the theorems are about those functions.

    ** Conventions

    A Rust [Result] is [result], [?] is [let? x := .. in ..] and an early return
    of an error is [fail_if .. with .. in ..] (this file).  Methods on
    [&mut self] that may fail thread the state beside the result ([ST]).  A
    machine integer is a [Z] with its overflow check written out
    ([checked_add] and so on); a [Vec<u8>] is a [list Z] of bytes, a [String]
    the string of its UTF-8 bytes (Text.v, with lines and slices), a [BTreeMap] a strictly sorted
    association list ([bt_insert], [bt_get] in Order.v), a [HashMap] a [gmap].
    [serde_json::Value] is [value] in Json.v, with the compact encoding that
    the budgets of the program count.

    ** The parts and their files

    - Errors, categories, grants, identifiers ([core/src/error.rs],
      [policy.rs], lexical checks of [operation.rs]): Core.v.
    - The output budget ([projection/budget.rs]): Budget.v, a state monad over
      the [Budget] record, and [check_normalized_result].
    - Response schemas and typed projection ([projection.rs],
      [projection/evaluate.rs]): Schema.v (the schemas and their validation),
      Evaluate.v (the single budgeted pass, and the same projection with no
      budget); Charge.v is the simulation relation between budgeted and plain
      computations, Projection.v proves the refinement, Conform.v that results
      obey their schema and the guarantees of [PreparedInvocation::project].
    - Package inventories ([core/src/packages.rs]): Packages.v.
    - Operations, capabilities, UCI reads ([operation.rs], [capability.rs],
      [uci.rs]): Operation.v; validation, preparation and the legacy projection
      ([projection/legacy.rs]): Invocation.v, with concrete operations; their
      guarantees: Preparation.v and Legacy.v.
    - The catalog and the policy ([catalog.rs], [policy.rs]): Catalog.v.
    - The analysis of management effects ([core/src/management/]): Effects.v;
      Analysis.v proves what it decides.
    - Device codecs ([device-codec/src/]): Codec.v (command templates and the
      remote shell); Response.v (duplicate-free bounded JSON); Device.v (ubus
      descriptions and package manager outputs); Archive.v (the streaming tar validator) with Tar.v; Gzip.v (the
      wrapper of the inflate backend) with Member.v and Inflate.v.
    - The runtime ([runtime/src/]): Program.v (asynchronous code as a tree of
      calls to its ports, its runs, monitors with a weakest-precondition
      calculus, handlers, awaits that a deadline drops, and what had happened
      before a call), Ports.v (errors, limits, audit events and the calls),
      Cache.v ([capability.rs] and [packages.rs]), Dispatcher.v
      ([dispatcher.rs]).  Protocol.v and Requests.v show that every request
      obeys a protocol monitor; Audited.v states what follows for each request
      under every behaviour of its environment.  Serving.v interleaves requests
      and audit workers over the state they share and proves its invariant,
      Parallel.v what it implies.
    - Sealing ([runtime/src/sealing/]): Sealing.v, the workflow with its
      checked streams and its cleanup; Sealed.v, its monitor and theorems.
    - The built-in operations ([features/src/]): Builtins.v (the constructors,
      the 55 definitions as data and their assembly), Installed.v (the wire
      form of a definition, and what is installed).
    - Backups ([runtime/src/backups/], [protection/], [mutation_ports/] and
      [adapters/src/backups/]): Backups.v (bindings, captures, tickets),
      Protection.v (limits, key and cipher sessions, source locations),
      Ciphertext.v (the append-only file of [host-platform/src/ciphertext/mod.rs]),
      Store.v (the record store) with Image.v and Vault.v (which holds the
      record authentication of crypto-age); Workflow.v (sealing a capture,
      inspecting a record) with Custody.v; Worker.v ([backups/worker.rs], the
      one background job, and the token source).
    - Keys ([key-sources/src/]): Zip.v ([archive.rs] and its container),
      Registry.v ([registry.rs], [file.rs], [secrets/]).
    - The age provider ([crypto-age/src/]): Age.v (the bounded streams, keys,
      encryption and decryption), Provider.v (its limits).
    - The device backends: Runner.v (the operations of both, against a command
      runner that is a class), Session.v ([backend-ssh/src/session.rs],
      [options.rs] and [lib.rs]: one connection, its guard, the channel),
      Local.v ([adapters/src/backend.rs]: one child), Answers.v (what an answer
      of either stands for); Capture.v and Tunnel.v ([backend-ssh/src/transactions/]:
      the archive stream), Traffic.v (what goes over the connection).
    - The host ([host-platform/src/]): Linux.v ([linux.rs]: protected files,
      private logs, the system log, the target's marker) over a directory that
      may fail, Rotation.v (what a private log keeps), Reading.v (what a read
      returns), Policy.v ([windows/policy.rs]), Windows.v ([windows.rs] and
      [windows/native.rs]: reads, logs and their handles over the system
      calls), Ntfs.v (a directory whose calls may fail, and what a Windows log
      keeps in it).
    - The audit trail ([adapters/src/audit.rs]): Trail.v.
    - The MCP server ([mcp/src/]): Framing.v (bounded input), Mcp.v (tools,
      calls and results), Printable.v and Delivered.v (what a caller reads).
    - The process ([server/src/]): Config.v ([config.rs], [protection.rs],
      [target.rs]) and Startup.v ([main.rs]).
    - The repository checks ([tools/xtask/src/], which decide whether a change
      keeps the architecture): Spec.v ([spec.rs]: the contract, its sections
      and who owns a path), Syntax.v (syntax trees as syn's traversals go through
      them, and the traversals that collect names), Portable.v ([portability.rs]:
      portable sources, suites and targets, and the CI workflow), Evidence.v
      ([capability.rs]: artifacts, the registry and the compatibility
      evidence), Contract.v (the validation of
      every section, and [change.rs]: what a new version has to bring),
      Sources.v ([source.rs]: aliases, paths, macro tokens and attributes of a
      file, with the rules the other files add for reserved namespaces),
      Workspace.v ([metadata.rs] and [lib.rs]: Cargo's packages, the walk over
      the tree, modules, public exports and the whole check).  The expansion of
      a path gets fuel for every push of the 1023 paths that may push, two
      pops more than there can be.

    ** What the theorems show

    Projection: the budgeted evaluator computes the reference projection or
    fails with the output limit exactly when the budget does not suffice; a
    result obeys its schema, and passes the code's own final check.
    Authorization: a call is authorized exactly when the policy allows it, and
    preparation transmits only declared, validated arguments; a compatible
    verdict means that the observed signature has every transmitted argument.
    Effects: the analysis decides exactly whether a change can reach a
    protected resource in the union of both graphs.  Codecs: a remote command
    is split by the target's shell into exactly the compiled words; responses
    decode without duplicate keys and within their budget; package listings,
    cursors and pages round-trip.  Archives: a chunked stream is accepted
    exactly when the whole stream is an archive of the manifest, the gzip
    header automaton accepts exactly the RFC 1952 headers, and every accepted
    source byte went through the inflate backend once and in order.
    Runtime: no request reaches the device before its authorized start is on
    record; an action runs at most once, on current evidence; values are
    audited from start to success; guards are always released.  Under every
    interleaving a failed audit write is the last one and concurrency is
    bounded; every run without new arrivals is finite, and while nothing is
    dropped or given up it goes on until all requests have returned and every
    guard is free.  Sealing publishes only what was
    read completely, checked and ciphered, and reports what happened.  The
    built-in definitions are valid and their calls are the reviewed ones.
    Backups: a record file that survives a crash at any write opens to the
    records acknowledged before it, and what was synchronized also survives a
    loss of power (the disk of Store.v knows how much of the file is on the
    medium; the rest may be cut or replaced); an inspected record is the capture that was
    sealed; at most one worker holds the slot.  Keys: a container that yields a
    key has one reading, every header field read from its bytes, and a key read
    touches its configured location only; the age streams stay within their
    limits, and every call follows a reading of the clock that found the
    deadline open, whatever the library does.
    Backends: one SSH connection is made, with the pinned host and the
    configured key, and none after a failure; an answer of a backend is the
    complete output of one command that succeeded; no child outlives its
    request; a captured archive is the stream that was announced.  Host: a
    secret is read exactly, from a file that only the operator can write; a
    private log keeps the newest records through rotation and faults, and the
    log of Windows is the same abstract log; the lines of the audit trail are
    whole and well formed.  A descriptor the
    Windows policy accepts gives strangers no right that the policy denies.
    Server: a frame passes exactly when it is within its bound; the tools that
    are listed are the authorized operations with their schemas; what a caller
    reads is what the dispatcher returned; nothing happens before the
    configuration is valid, and the target is the selected one.
    Repository checks: the alias expansion of a source check returns and hides
    no reachable name; a workspace that passes has exactly the members, targets
    and dependencies that its contract declares; a
    path has at most one owner ([owner_exact]); a changed contract brings its
    documents and a newer version ([evolution_evidenced]); a supported claim
    has an executed record ([claims_supported]); and the workflow that is
    accepted runs every suite ([workflow_runs_suites]).

    ** Bounds and fuel

    Structural recursion is used wherever the code recurses on data.  The other
    loops take fuel, and a lemma shows that the fuel suffices: the feeding loop
    of the archive takes the chunk's length (every round consumes a byte), the
    graph merges take the lengths of both lists plus one, the walk takes the
    number of nodes (each is taken once), the binary search takes the length
    of the slice, the decoder of numerals twenty digits, the client that
    follows package cursors 257 pages, and the drain loop of the gzip wrapper
    two to the power 27 rounds, which the archive limit cannot exceed.  The
    record store splits and reads by chunks, its fuel being the number of
    bytes or chunks plus one; its scan takes one round more than the records a
    file may hold; the extra fields of a ZIP header take their length, and key
    aliases chain at most once (an archive in a file or a variable), so that
    resolution takes two rounds.

    Loops that wait for a peer have no bound of their own: the messages of an
    SSH channel, the events of a child and the chunks of a captured archive
    arrive until the deadline.  Their fuel counts the arrivals before it; out
    of fuel is the elapsed deadline, and the theorems hold for every fuel.  A
    stream of the age library that answers [Interrupted] is retried by the
    standard library: [attempts] bounds the retries, and running out of them is
    a spinning call, not an answer.

    ** Parameters

    Code outside the repository is an argument of the definitions that use it:
    the size of a serialized definition and [Value::pointer] and [from_str] of
    serde_json ([definition_size], [json_pointer], [from_str]), the JSON
    scanner that drives the response visitor ([scan]), and the inflate backend
    ([new_gzip], [total_in], [total_out], [decompress]); HMAC-SHA-256 and the
    record authenticator, the encryption and decryption providers, the sealing
    ports, and the reader of the zip library ([zip_open]); the private keys and
    fingerprints of the SSH library ([from_openssh], [fingerprint_text]), the
    age library ([AgeLibrary]), the writers of the MCP library, and the derived
    deserializer behind [toml::from_str].  Sockets, files, clocks, children and
    the messages of a peer are calls of a program, answered in any way.
    Hypotheses on parameters are stated in the theorems that need them and
    instantiated in the witnesses.

    ** Not modelled

    The libraries behind the parameters above, and the system calls themselves:
    the host model states what the program does with each answer a call may
    give.  The operations of [host-platform/src/unsupported.rs] only answer
    that they are unsupported.  In the repository checks parsing and
    printing Rust are syn's (a record of operations; the trees are data);
    [tools/xtask/src/main.rs] only prints.  The derived serializers and deserializers
    of serde are modelled where the program depends on their bytes (the wire form of a definition, audit
    lines, limits); the parsing of TOML is a parameter.  Test code, examples,
    benchmarks and fixtures are not part of the program.
*)
From Stdlib Require Export ZArith Lia Ascii.
From stdpp Require Export base tactics strings numbers option list.

(** ** Fallible code

    Rust's [Result<A, E>] with the error type first; [?] is [bind]. *)
Inductive result (E A : Type) : Type :=
| Ok (a : A)
| Err (e : E).
Arguments Ok {E A} a.
Arguments Err {E A} e.

#[export] Instance result_eq_dec `{EqDecision E, EqDecision A} : EqDecision (result E A).
Proof. solve_decision. Defined.

Definition rbind {E A B} (m : result E A) (f : A -> result E B) : result E B :=
  match m with
  | Ok a => f a
  | Err e => Err e
  end.

(** [option.ok_or(e)] *)
Definition ok_or {E A} (o : option A) (e : E) : result E A :=
  match o with
  | Some a => Ok a
  | None => Err e
  end.

(** [result.map_err(f)] *)
Definition map_err {E F A} (f : E -> F) (m : result E A) : result F A :=
  match m with
  | Ok a => Ok a
  | Err e => Err (f e)
  end.

Definition is_ok {E A} (m : result E A) : bool :=
  match m with Ok _ => true | Err _ => false end.

Declare Scope rust_scope.
Delimit Scope rust_scope with rust.
Open Scope rust_scope.

Notation "'let?' x ':=' m 'in' k" := (rbind m (fun x => k))
  (at level 10, x pattern, m at level 100, k at level 200,
   format "'[v' 'let?'  x  ':='  m  'in' '/' k ']'") : rust_scope.
(** [if cond { return Err(e) }] *)
Notation "'fail_if' c 'with' e 'in' k" := (if c then Err e else k)
  (at level 10, c at level 100, e at level 100, k at level 200,
   format "'[v' 'fail_if'  c  'with'  e  'in' '/' k ']'") : rust_scope.

Section result_lemmas.
Context {E A B : Type}.
Implicit Types (m : result E A) (f : A -> result E B).

Lemma rbind_ok m f b : rbind m f = Ok b <-> exists a, m = Ok a /\ f a = Ok b.
Proof.
  split.
  - destruct m as [a | e]; simpl; intros H; [by exists a | discriminate].
  - intros (a & -> & H). exact H.
Qed.

Lemma rbind_assoc {C} m f (g : B -> result E C) :
  rbind (rbind m f) g = rbind m (fun a => rbind (f a) g).
Proof. by destruct m. Qed.

Lemma rbind_err m f e :
  rbind m f = Err e <-> m = Err e \/ exists a, m = Ok a /\ f a = Err e.
Proof.
  destruct m as [a | e']; simpl; split.
  - intros H. right. by exists a.
  - intros [H | (a' & [= <-] & H)]; [discriminate | done].
  - intros [= ->]. by left.
  - intros [[= ->] | (a' & H & _)]; [done | discriminate].
Qed.

Lemma ok_or_ok (o : option A) (e : E) a : ok_or o e = Ok a <-> o = Some a.
Proof. destruct o; simpl; split; congruence. Qed.

Lemma ok_or_err (o : option A) (e e' : E) : ok_or o e = Err e' <-> o = None /\ e = e'.
Proof. destruct o; simpl; split; intuition congruence. Qed.

Lemma is_ok_true m : is_ok m = true <-> exists a, m = Ok a.
Proof. destruct m; simpl; split; [by eexists | done | done | by intros [? ?]]. Qed.
End result_lemmas.

Lemma fail_if_ok {E A} (c : bool) (e : E) (k : result E A) a :
  (fail_if c with e in k) = Ok a <-> c = false /\ k = Ok a.
Proof. destruct c; intuition congruence. Qed.

Lemma map_err_ok {E F A} (f : E -> F) (m : result E A) a :
  map_err f m = Ok a <-> m = Ok a.
Proof. destruct m; simpl; split; congruence. Qed.

(** ** Stateful fallible code

    [&mut self] methods keep the state they reached when they return an error:
    the state is threaded beside the result. *)
Definition ST (S E A : Type) : Type := S -> S * result E A.

Definition st_ret {S E A} (a : A) : ST S E A := fun s => (s, Ok a).
Definition st_err {S E A} (e : E) : ST S E A := fun s => (s, Err e).
Definition st_bind {S E A B} (m : ST S E A) (f : A -> ST S E B) : ST S E B :=
  fun s => match m s with
           | (s', Ok a) => f a s'
           | (s', Err e) => (s', Err e)
           end.

(** ** Tactics *)

(** Split a successful chain of [?] and early returns into its steps. *)
Ltac inv_ok_step H :=
  lazymatch type of H with
  | rbind _ _ = Ok _ =>
      let a := fresh "a" in let H1 := fresh H in
      apply rbind_ok in H as (a & H1 & H); simpl in H
  | (if _ then Err _ else _) = Ok _ =>
      let H1 := fresh "Hg" in
      apply fail_if_ok in H as [H1 H]
  | ok_or _ _ = Ok _ => apply ok_or_ok in H
  | map_err _ _ = Ok _ => apply map_err_ok in H
  | Ok _ = Ok _ => injection H as H
  | Err _ = Ok _ => discriminate H
  end.
Ltac inv_ok H := repeat inv_ok_step H.

(** Case analysis on the boolean tests of hypotheses and goal. *)
Ltac bool_prop :=
  repeat match goal with
  | H : (_ && _)%bool = true |- _ => apply andb_true_iff in H as [? ?]
  | H : (_ || _)%bool = false |- _ => apply orb_false_iff in H as [? ?]
  | H : negb _ = true |- _ => apply negb_true_iff in H
  | H : negb _ = false |- _ => apply negb_false_iff in H
  | H : bool_decide _ = true |- _ => apply bool_decide_eq_true in H
  | H : bool_decide _ = false |- _ => apply bool_decide_eq_false in H
  | H : (_ <=? _)%Z = true |- _ => apply Z.leb_le in H
  | H : (_ <=? _)%Z = false |- _ => apply Z.leb_gt in H
  | H : (_ <? _)%Z = true |- _ => apply Z.ltb_lt in H
  | H : (_ <? _)%Z = false |- _ => apply Z.ltb_ge in H
  | H : (_ =? _)%Z = true |- _ => apply Z.eqb_eq in H
  | H : (_ =? _)%Z = false |- _ => apply Z.eqb_neq in H
  | H : (_ <=? _)%nat = true |- _ => apply Nat.leb_le in H
  | H : (_ <=? _)%nat = false |- _ => apply Nat.leb_gt in H
  | H : (_ <? _)%nat = true |- _ => apply Nat.ltb_lt in H
  | H : (_ <? _)%nat = false |- _ => apply Nat.ltb_ge in H
  | H : (_ =? _)%nat = true |- _ => apply Nat.eqb_eq in H
  | H : (_ =? _)%nat = false |- _ => apply Nat.eqb_neq in H
  | H : String.eqb _ _ = true |- _ => apply String.eqb_eq in H
  | H : String.eqb _ _ = false |- _ => apply String.eqb_neq in H
  end.

(** ** Machine integers

    [usize] and [u64] are 64 bits wide on the modelled hosts. *)
Definition U64_MAX : Z := 18446744073709551615.
Definition I64_MAX : Z := 9223372036854775807.
Definition I64_MIN : Z := -9223372036854775808.

(** [a.checked_add(b)] and friends on an unsigned 64-bit integer. *)
Definition checked_add (a b : Z) : option Z :=
  if (a + b <=? U64_MAX)%Z then Some (a + b)%Z else None.
Definition checked_mul (a b : Z) : option Z :=
  if (a * b <=? U64_MAX)%Z then Some (a * b)%Z else None.
Definition checked_sub (a b : Z) : option Z :=
  if (b <=? a)%Z then Some (a - b)%Z else None.
(** [a.saturating_mul(b)] *)
Definition saturating_mul (a b : Z) : Z := Z.min (a * b) U64_MAX.

Lemma checked_add_Some a b c :
  checked_add a b = Some c <-> (c = a + b /\ a + b <= U64_MAX)%Z.
Proof. unfold checked_add. destruct (Z.leb_spec (a + b) U64_MAX); split; intuition (congruence || lia). Qed.

Lemma checked_mul_Some a b c :
  checked_mul a b = Some c <-> (c = a * b /\ a * b <= U64_MAX)%Z.
Proof. unfold checked_mul. destruct (Z.leb_spec (a * b) U64_MAX); split; intuition (congruence || lia). Qed.

Lemma checked_sub_Some a b c :
  checked_sub a b = Some c <-> (c = a - b /\ b <= a)%Z.
Proof. unfold checked_sub. destruct (Z.leb_spec b a); split; intuition (congruence || lia). Qed.

(** ** Lists *)

(** [slice.len()] as a machine integer. *)
Abbreviation zlen l := (Z.of_nat (length l)).

(** [slice.windows(2).any(p)] *)
Fixpoint windows2_any {A} (p : A -> A -> bool) (l : list A) : bool :=
  match l with
  | x :: (y :: _) as tl => p x y || windows2_any p tl
  | _ => false
  end.

Lemma windows2_any_false {A} (p : A -> A -> bool) l :
  windows2_any p l = false <->
  forall i x y, l !! i = Some x -> l !! S i = Some y -> p x y = false.
Proof.
  induction l as [| x [| y tl] IH].
  - split; [by intros _ [| i] |done].
  - split; [by intros _ [| i] | done].
  - simpl in *. rewrite orb_false_iff, IH. split.
    + intros [Hxy H] [| i] a b Ha Hb; [naive_solver | eauto].
    + intros H. split; [by apply (H 0) | intros i a b Ha Hb; by apply (H (S i))].
Qed.

(** Boolean all/any tests as [Forall]/[Exists]. *)
Lemma forallb_Forall {A} (p : A -> bool) l : forallb p l = true <-> Forall (fun x => p x = true) l.
Proof.
  induction l as [| x l IH]; simpl; [by split |].
  by rewrite andb_true_iff, IH, Forall_cons.
Qed.

Lemma existsb_false_Forall {A} (p : A -> bool) l :
  existsb p l = false <-> Forall (fun x => p x = false) l.
Proof.
  induction l as [| x l IH]; simpl; [by split |].
  by rewrite orb_false_iff, IH, Forall_cons.
Qed.

(** A list whose images are distinct. *)
Lemma fmap_inj_in {A B} (f : A -> B) (l : list A) x y : NoDup (f <$> l) -> x ∈ l -> y ∈ l -> f x = f y -> x = y.
Proof.
  intros Hn Hx Hy He. apply list_elem_of_lookup in Hx as [i Hi], Hy as [j Hj].
  assert (i = j) as ->; [| congruence]. apply (NoDup_lookup (f <$> l) i j (f x) Hn); rewrite list_lookup_fmap; [by rewrite Hi | by rewrite Hj, He].
Qed.
