(* ===== verification/Order.v ===== *)
(** * Orders, sorting and ordered maps of the Rust standard library

    [Ord] is Rust's trait: a decidable total order.  [sort_by] is the stable
    [slice::sort_by], [binary_search_by] the halving search of
    [slice::binary_search_by], and the [bt_] operations model [BTreeMap] (and
    [serde_json::Map], which is a [BTreeMap] in this build) as an association
    list in increasing key order, because the code iterates over it in that
    order. *)
From S2P Require Import Prelude.
From Stdlib Require Import Sorted.
From stdpp Require Import sorting.

Class Ord (A : Type) : Type := {
  cmp : A -> A -> comparison;
  cmp_eq : forall x y, cmp x y = Eq <-> x = y;
  cmp_opp : forall x y, cmp y x = CompOpp (cmp x y);
  cmp_trans : forall x y z, cmp x y = Lt -> cmp y z = Lt -> cmp x z = Lt
}.

Arguments cmp : simpl never.

Section ord_facts.
Context `{Ord A}.
Implicit Types x y z : A.

Definition lt x y : Prop := cmp x y = Lt.
Definition leb x y : bool := match cmp x y with Gt => false | _ => true end.
Definition eqb x y : bool := match cmp x y with Eq => true | _ => false end.

Lemma cmp_refl x : cmp x x = Eq.
Proof. by apply cmp_eq. Qed.

Lemma eqb_eq x y : eqb x y = true <-> x = y.
Proof. unfold eqb. rewrite <- cmp_eq. destruct (cmp x y); intuition congruence. Qed.

Lemma eqb_refl x : eqb x x = true.
Proof. by apply eqb_eq. Qed.

Lemma eqb_neq x y : eqb x y = false <-> x <> y.
Proof. rewrite <- eqb_eq. destruct (eqb x y); intuition congruence. Qed.

Lemma cmp_gt x y : cmp x y = Gt <-> lt y x.
Proof. unfold lt. rewrite (cmp_opp x y). destruct (cmp x y); simpl; intuition congruence. Qed.

Lemma lt_irrefl x : ~ lt x x.
Proof. unfold lt. by rewrite cmp_refl. Qed.

Lemma lt_trans x y z : lt x y -> lt y z -> lt x z.
Proof. apply cmp_trans. Qed.

Lemma lt_neq x y : lt x y -> x <> y.
Proof. intros Hl ->. by apply (lt_irrefl y). Qed.

Lemma lt_asym x y : lt x y -> lt y x -> False.
Proof. intros H1 H2. by apply (lt_irrefl x), (lt_trans x y x). Qed.

Lemma leb_lt_eq x y : leb x y = true <-> lt x y \/ x = y.
Proof.
  unfold leb, lt. rewrite <- cmp_eq. destruct (cmp x y); intuition congruence.
Qed.

Lemma leb_false x y : leb x y = false <-> lt y x.
Proof. rewrite <- cmp_gt. unfold leb. destruct (cmp x y); intuition congruence. Qed.

Lemma leb_refl x : leb x x = true.
Proof. apply leb_lt_eq. by right. Qed.

Lemma leb_trans x y z : leb x y = true -> leb y z = true -> leb x z = true.
Proof.
  rewrite !leb_lt_eq. intros [H1 | ->] [H2 | ->]; eauto using lt_trans.
Qed.

Lemma leb_total x y : leb x y = true \/ leb y x = true.
Proof.
  destruct (leb x y) eqn:E; [by left | right].
  apply leb_false in E. apply leb_lt_eq. by left.
Qed.

Lemma leb_antisym x y : leb x y = true -> leb y x = true -> x = y.
Proof.
  rewrite !leb_lt_eq. intros [H1 | ->] [H2 | Heq]; try done.
  exfalso. eauto using lt_asym.
Qed.

Lemma lt_total x y : lt x y \/ x = y \/ lt y x.
Proof.
  rewrite <- (cmp_gt x y). unfold lt. rewrite <- cmp_eq. destruct (cmp x y); auto.
Qed.

#[export] Instance ord_eq_dec : EqDecision A.
Proof.
  intros x y. destruct (eqb x y) eqn:E.
  - left. by apply eqb_eq.
  - right. by apply eqb_neq.
Defined.
End ord_facts.
#[export] Hint Resolve lt_irrefl lt_trans leb_refl leb_trans : ord.

(** ** Instances *)
#[export] Program Instance Z_ord : Ord Z := {| cmp := Z.compare |}.
Next Obligation. intros. apply Z.compare_eq_iff. Qed.
Next Obligation. intros. apply Z.compare_antisym. Qed.
Next Obligation. intros x y z. rewrite !Z.compare_lt_iff. lia. Qed.

#[export] Program Instance nat_ord : Ord nat := {| cmp := Nat.compare |}.
Next Obligation. intros. apply Nat.compare_eq_iff. Qed.
Next Obligation. intros. apply Nat.compare_antisym. Qed.
Next Obligation. intros x y z. rewrite !Nat.compare_lt_iff. lia. Qed.

(** An order pulled back along an injection: derived [Ord] of a fieldless enum
    compares the positions of its variants. *)
Program Definition ord_by {A K} `{Ord K} (f : A -> K)
    (inj : forall x y, f x = f y -> x = y) : Ord A :=
  {| cmp x y := cmp (f x) (f y) |}.
Next Obligation. intros A K ? f inj x y. rewrite cmp_eq. split; [apply inj | by intros ->]. Qed.
Next Obligation. intros. apply cmp_opp. Qed.
Next Obligation. intros A K ? f inj x y z. apply cmp_trans. Qed.

#[export] Instance ascii_ord : Ord Ascii.ascii.
Proof.
  refine (ord_by Ascii.nat_of_ascii _).
  intros x y E. by rewrite <- (Ascii.ascii_nat_embedding x), E, Ascii.ascii_nat_embedding.
Defined.

Definition cmp_then (c d : comparison) : comparison :=
  match c with Eq => d | _ => c end.

#[export] Program Instance pair_ord {A B} `{Ord A, Ord B} : Ord (A * B) :=
  {| cmp p q := cmp_then (cmp p.1 q.1) (cmp p.2 q.2) |}.
Next Obligation.
  intros A B ? ? [a b] [a' b']. unfold cmp_then; simpl.
  destruct (cmp a a') eqn:E.
  - apply cmp_eq in E as ->. rewrite cmp_eq. split; congruence.
  - split; [done | intros [= -> ->]]. by rewrite cmp_refl in E.
  - split; [done | intros [= -> ->]]. by rewrite cmp_refl in E.
Qed.
Next Obligation.
  intros A B ? ? [a b] [a' b']. unfold cmp_then; simpl.
  rewrite (cmp_opp a a'). destruct (cmp a a'); simpl; [apply cmp_opp | done | done].
Qed.
Next Obligation.
  intros A B ? ? [a b] [a' b'] [a2 b2]. unfold cmp_then; simpl.
  destruct (cmp a a') eqn:E1, (cmp a' a2) eqn:E2; try done.
  - apply cmp_eq in E1 as ->. rewrite E2. apply cmp_trans.
  - apply cmp_eq in E1 as ->. by rewrite E2.
  - apply cmp_eq in E2 as ->. by rewrite E1.
  - by rewrite (cmp_trans _ _ _ E1 E2).
Qed.

(** Lexicographic order on sequences: [Vec<T>], slices and (bytewise) [str]. *)
Fixpoint list_cmp {A} `{Ord A} (l k : list A) : comparison :=
  match l, k with
  | [], [] => Eq
  | [], _ :: _ => Lt
  | _ :: _, [] => Gt
  | x :: l, y :: k => cmp_then (cmp x y) (list_cmp l k)
  end.

#[export] Program Instance list_ord {A} `{Ord A} : Ord (list A) := {| cmp := list_cmp |}.
Next Obligation.
  intros A ? l. induction l as [| x l IH]; intros [| y k]; simpl; try by split.
  unfold cmp_then. destruct (cmp x y) eqn:E.
  - apply cmp_eq in E as ->. rewrite IH. split; congruence.
  - split; [done | intros [= -> ->]]. by rewrite cmp_refl in E.
  - split; [done | intros [= -> ->]]. by rewrite cmp_refl in E.
Qed.
Next Obligation.
  intros A ? l. induction l as [| x l IH]; intros [| y k]; simpl; try done.
  unfold cmp_then. rewrite (cmp_opp x y). by destruct (cmp x y); simpl.
Qed.
Next Obligation.
  intros A ? l. induction l as [| x l IH]; intros [| y k] [| z m]; simpl; try done.
  unfold cmp_then.
  destruct (cmp x y) eqn:E1, (cmp y z) eqn:E2; try done.
  - apply cmp_eq in E1 as ->. rewrite E2. apply IH.
  - apply cmp_eq in E1 as ->. by rewrite E2.
  - apply cmp_eq in E2 as ->. by rewrite E1.
  - by rewrite (cmp_trans _ _ _ E1 E2).
Qed.

#[export] Instance string_ord : Ord string.
Proof.
  refine (ord_by String.list_ascii_of_string _).
  intros x y E.
  by rewrite <- (String.string_of_list_ascii_of_string x), E,
    String.string_of_list_ascii_of_string.
Defined.

(** ** Stable sorting by a key *)
Section sorting.
Context {A K : Type} `{Ord K} (key : A -> K).

Fixpoint insert_by (x : A) (l : list A) : list A :=
  match l with
  | [] => [x]
  | y :: tl => if leb (key x) (key y) then x :: l else y :: insert_by x tl
  end.

(** [l.sort_by(|a, b| key(a).cmp(&key(b)))]: stable, so elements with equal
    keys keep their order. *)
Fixpoint sort_by (l : list A) : list A :=
  match l with
  | [] => []
  | x :: tl => insert_by x (sort_by tl)
  end.

Definition key_le (x y : A) : Prop := leb (key x) (key y) = true.
Definition key_lt (x y : A) : Prop := lt (key x) (key y).

(** Strictly increasing keys. *)
Definition strict (l : list A) : Prop := StronglySorted key_lt l.

Lemma insert_by_perm x l : insert_by x l ≡ₚ x :: l.
Proof.
  induction l as [| y tl IH]; simpl; [done |].
  destruct (leb (key x) (key y)); [done |]. rewrite IH. apply Permutation_swap.
Qed.

Lemma sort_by_perm l : sort_by l ≡ₚ l.
Proof. induction l as [| x tl IH]; simpl; [done |]. by rewrite insert_by_perm, IH. Qed.

Lemma sort_by_length l : length (sort_by l) = length l.
Proof. by rewrite sort_by_perm. Qed.

Lemma elem_of_sort_by x l : x ∈ sort_by l <-> x ∈ l.
Proof. by rewrite sort_by_perm. Qed.

Lemma insert_by_sorted x l :
  StronglySorted key_le l -> StronglySorted key_le (insert_by x l).
Proof.
  induction 1 as [| y tl Hs IH Hall]; simpl; [by repeat constructor |].
  destruct (leb (key x) (key y)) eqn:E.
  - constructor; [by constructor |]. constructor; [done |].
    eapply Forall_impl; [exact Hall |]. intros z Hz. unfold key_le in *. eauto using leb_trans.
  - constructor; [done |]. rewrite insert_by_perm. constructor; [| done].
    unfold key_le. destruct (leb_total (key x) (key y)); congruence.
Qed.

Lemma sort_by_sorted l : StronglySorted key_le (sort_by l).
Proof. induction l; simpl; [constructor | by apply insert_by_sorted]. Qed.

(** [windows(2).any(|p| key(p[0]) == key(p[1]))] *)
Definition adjacent_equal (l : list A) : bool :=
  windows2_any (fun x y => eqb (key x) (key y)) l.

Lemma strict_NoDup_keys l : strict l -> NoDup (key <$> l).
Proof.
  induction 1 as [| x l Hs IH Hall]; simpl; constructor; [| done].
  intros (y & Heq & Hy)%list_elem_of_fmap.
  rewrite Forall_forall in Hall. specialize (Hall y Hy). unfold key_lt in Hall.
  rewrite Heq in Hall. by apply lt_irrefl in Hall.
Qed.

Lemma strict_lookup l i j x y :
  strict l -> l !! i = Some x -> l !! j = Some y -> (i < j)%nat -> lt (key x) (key y).
Proof.
  intros Hs. revert i j. induction Hs as [| z l Hs IH Hall]; intros i j Hi Hj Hij; [done |].
  destruct j as [| j]; [lia |]. simpl in Hj. destruct i as [| i].
  - simpl in Hi. injection Hi as ->. rewrite Forall_forall in Hall. apply Hall.
    by apply list_elem_of_lookup_2 in Hj.
  - apply (IH i j); [done | done | lia].
Qed.

Lemma strict_inj l i j x y :
  strict l -> l !! i = Some x -> l !! j = Some y -> key x = key y -> i = j.
Proof.
  intros Hs Hi Hj Heq. destruct (Nat.lt_total i j) as [Hlt | [-> | Hlt]]; [| done |].
  - pose proof (strict_lookup l i j x y Hs Hi Hj Hlt) as Hl. rewrite Heq in Hl.
    by apply lt_irrefl in Hl.
  - pose proof (strict_lookup l j i y x Hs Hj Hi Hlt) as Hl. rewrite Heq in Hl.
    by apply lt_irrefl in Hl.
Qed.

Lemma adjacent_equal_strict l :
  StronglySorted key_le l -> adjacent_equal l = false <-> strict l.
Proof.
  unfold adjacent_equal, strict. induction 1 as [| x [| y tl] Hs IH Hall].
  - split; [constructor | done].
  - split; [by repeat constructor | done].
  - simpl in *. rewrite orb_false_iff, IH, eqb_neq. split.
    + intros [Hne Hst]. constructor; [done |].
      assert (lt (key x) (key y)) as Hxy.
      { inversion Hall as [| ? ? Hle]; subst. apply leb_lt_eq in Hle as [? | ?]; done. }
      constructor; [done |]. inversion Hst as [| ? ? ? Hall']; subst.
      eapply Forall_impl; [exact Hall' |]. intros z Hz. unfold key_lt in *.
      by eapply lt_trans.
    + intros Hst. inversion Hst as [| ? ? Hst' Hall']; subst. split; [| done].
      inversion Hall'; subst. by apply lt_neq.
Qed.

(** Sorting and then rejecting adjacent duplicates accepts exactly the inputs
    whose keys are pairwise distinct. *)
Lemma sorted_distinct l :
  adjacent_equal (sort_by l) = false <-> NoDup (key <$> l).
Proof.
  rewrite adjacent_equal_strict by apply sort_by_sorted. split.
  - intros Hs%strict_NoDup_keys. by rewrite sort_by_perm in Hs.
  - intros Hnd. assert (NoDup (key <$> sort_by l)) as Hnd' by by rewrite sort_by_perm.
    pose proof (sort_by_sorted l) as Hs. unfold strict.
    induction Hs as [| x tl Hs IH Hall]; [constructor |].
    simpl in Hnd'. apply NoDup_cons in Hnd' as [Hnin Hnd'].
    constructor; [by apply IH |]. rewrite Forall_forall in Hall |- *. intros y Hy.
    specialize (Hall y Hy). apply leb_lt_eq in Hall as [? | Heq]; [done |].
    exfalso. apply Hnin. rewrite Heq. by apply list_elem_of_fmap_2.
Qed.

Lemma sort_by_strict l : NoDup (key <$> l) -> strict (sort_by l).
Proof. intros Hnd. apply adjacent_equal_strict, sorted_distinct; [apply sort_by_sorted | done]. Qed.

(** A strictly sorted list is determined by its elements. *)
Lemma strict_perm_eq l k : strict l -> strict k -> l ≡ₚ k -> l = k.
Proof.
  unfold strict. intros Hl Hk Hp. revert k Hk Hp.
  induction Hl as [| x l Hs IH Hall]; intros [| y k] Hk Hp; [done | | |].
  - by apply Permutation_nil_l in Hp.
  - by apply Permutation_nil_r in Hp.
  - inversion Hk as [| ? ? Hk' Hall']; subst. rewrite Forall_forall in Hall, Hall'.
    assert (x = y) as ->.
    { assert (x ∈ y :: k) as Hx by (rewrite <- Hp; left).
      assert (y ∈ x :: l) as Hy by (rewrite Hp; left).
      apply list_elem_of_In in Hx as [-> | Hx%list_elem_of_In]; [done |].
      apply list_elem_of_In in Hy as [-> | Hy%list_elem_of_In]; [done |].
      exfalso. eapply lt_asym; [by apply Hall' | by apply Hall]. }
    f_equal. apply IH; [done |]. by apply Permutation_cons_inv in Hp.
Qed.
End sorting.

(** ** Binary search *)
Section binary_search.
Context {A : Type} (f : A -> comparison).

(** The halving loop of [slice::binary_search_by]: [base] moves to [mid]
    unless the element there compares greater. *)
Fixpoint search_loop (fuel : nat) (l : list A) (base size : nat) : nat :=
  match fuel with
  | O => base
  | S fuel =>
      if (size <=? 1)%nat then base
      else
        let half := (size / 2)%nat in
        let mid := (base + half)%nat in
        let base' := match f <$> l !! mid with Some Gt => base | _ => mid end in
        search_loop fuel l base' (size - half)
  end.

(** [l.binary_search_by(f).ok()] *)
Definition binary_search_by (l : list A) : option nat :=
  let base := search_loop (length l) l 0 (length l) in
  match f <$> l !! base with
  | Some Eq => Some base
  | _ => None
  end.
End binary_search.

Section binary_search_spec.
Context {A K : Type} `{Ord K} (key : A -> K) (k : K).
Local Abbreviation f := (fun x : A => cmp (key x) k).

Lemma search_loop_window fuel l base size :
  strict key l -> (size <= fuel)%nat -> (base + size <= length l)%nat ->
  (forall j x, l !! j = Some x -> key x = k -> (base <= j < base + size)%nat) ->
  (1 <= size)%nat ->
  forall j x, l !! j = Some x -> key x = k -> j = search_loop f fuel l base size.
Proof.
  revert base size. induction fuel as [| fuel IH]; intros base size Hs Hf Hb Hw H1 j x Hj Hk; [lia |].
  cbn [search_loop]. cbv zeta. destruct (Nat.leb_spec size 1) as [Hle | Hgt].
  { specialize (Hw j x Hj Hk). lia. }
  pose proof (Nat.div_lt size 2 ltac:(lia) ltac:(lia)) as Hhalf.
  assert (1 <= size / 2)%nat as Hhalf1 by (apply Nat.div_le_lower_bound; lia).
  set (half := (size / 2)%nat) in *.
  destruct (lookup_lt_is_Some_2 l (base + half)) as [y Hy]; [lia |].
  rewrite Hy. cbn [fmap option_fmap option_map].
  destruct (cmp (key y) k) eqn:Ef; (eapply IH; [done | lia | | | lia | exact Hj | exact Hk]);
    try lia; intros i z Hi Hz; specialize (Hw i z Hi Hz); split; try lia.
  - (* Eq: the element at mid is the one sought *)
    apply cmp_eq in Ef. assert (i = base + half)%nat as ->; [| lia].
    eapply (strict_inj key); [done | exact Hi | exact Hy | congruence].
  - (* Lt *)
    destruct (decide (i < base + half)%nat) as [Hlt |]; [| lia].
    pose proof (strict_lookup key l i (base + half) z y Hs Hi Hy Hlt) as Hl.
    rewrite Hz in Hl. exfalso. eapply lt_asym; [exact Hl | exact Ef].
  - (* Gt *)
    apply cmp_gt in Ef. destruct (decide (i < base + half)%nat) as [| Hge].
    + pose proof (Nat.div_mod_eq size 2). pose proof (Nat.mod_upper_bound size 2 ltac:(lia)).
      fold half in H0. lia.
    + destruct (decide (i = base + half)%nat) as [-> | Hne].
      * rewrite Hy in Hi. injection Hi as <-. rewrite Hz in Ef. by apply lt_irrefl in Ef.
      * pose proof (strict_lookup key l (base + half) i y z Hs Hy Hi ltac:(lia)) as Hl.
        rewrite Hz in Hl. exfalso. eapply lt_asym; [exact Hl | exact Ef].
Qed.

(** On strictly sorted data binary search finds the key exactly when it is
    there. *)
Lemma binary_search_spec l i :
  strict key l ->
  binary_search_by f l = Some i <-> exists x, l !! i = Some x /\ key x = k.
Proof.
  intros Hs. unfold binary_search_by. split.
  - destruct (l !! search_loop f (length l) l 0 (length l)) as [x |] eqn:El; simpl; [| done].
    destruct (cmp (key x) k) eqn:Ef; intros [= <-]. exists x. split; [done | by apply cmp_eq].
  - intros (x & Hi & Hk). pose proof (lookup_lt_Some _ _ _ Hi) as Hlt.
    assert (i = search_loop f (length l) l 0 (length l)) as <-.
    { eapply search_loop_window; [done | lia | lia | | lia | exact Hi | exact Hk].
      intros j y Hj _. apply lookup_lt_Some in Hj. lia. }
    rewrite Hi. simpl. by rewrite Hk, cmp_refl.
Qed.

Lemma binary_search_None l :
  strict key l -> binary_search_by f l = None <-> k ∉ (key <$> l).
Proof.
  intros Hs. split.
  - intros Hn (x & Hk & Hx)%list_elem_of_fmap. apply list_elem_of_lookup in Hx as [i Hi].
    enough (binary_search_by f l = Some i) by congruence.
    apply binary_search_spec; [done | by exists x].
  - intros Hnin. destruct (binary_search_by f l) as [i |] eqn:E; [| done].
    apply binary_search_spec in E as (x & Hx & Hk); [| done].
    exfalso. apply Hnin. rewrite <- Hk. apply list_elem_of_fmap_2. by apply list_elem_of_lookup_2 in Hx.
Qed.
End binary_search_spec.

(** ** Ordered maps *)
Section btree.
Context {K V : Type} `{Ord K}.
Implicit Types (m : list (K * V)) (k : K) (v : V).

Definition bt_wf m : Prop := strict fst m.

(** [map.get(k)] *)
Fixpoint bt_get k m : option V :=
  match m with
  | [] => None
  | (k', v) :: tl => if eqb k k' then Some v else bt_get k tl
  end.

Definition bt_contains k m : bool :=
  match bt_get k m with Some _ => true | None => false end.

(** [map.insert(k, v)], replacing an existing value *)
Fixpoint bt_insert k v m : list (K * V) :=
  match m with
  | [] => [(k, v)]
  | (k', v') :: tl =>
      match cmp k k' with
      | Lt => (k, v) :: m
      | Eq => (k, v) :: tl
      | Gt => (k', v') :: bt_insert k v tl
      end
  end.

(** [iter.collect::<BTreeMap<_, _>>()] *)
Definition bt_of_list (l : list (K * V)) : list (K * V) :=
  foldl (fun m p => bt_insert p.1 p.2 m) [] l.

Lemma bt_get_elem k v m : bt_get k m = Some v -> (k, v) ∈ m.
Proof.
  induction m as [| [k' v'] tl IH]; simpl; [done |].
  destruct (eqb k k') eqn:E.
  - apply eqb_eq in E as ->. intros [= ->]. left.
  - intros ?%IH. by right.
Qed.

Lemma bt_elem_get k v m : bt_wf m -> (k, v) ∈ m -> bt_get k m = Some v.
Proof.
  intros Hwf. induction Hwf as [| [k' v'] tl Hs IH Hall]; [by intros ?%not_elem_of_nil |].
  intros Hin. simpl. destruct (eqb k k') eqn:E.
  - apply eqb_eq in E as ->. apply elem_of_cons in Hin as [[= ->] | Hin]; [done |].
    rewrite Forall_forall in Hall. specialize (Hall _ Hin). by apply lt_irrefl in Hall.
  - apply eqb_neq in E. apply elem_of_cons in Hin as [[= -> ->] | Hin]; [done | by apply IH].
Qed.

Lemma bt_get_None k m : bt_get k m = None <-> k ∉ m.*1.
Proof.
  induction m as [| [k' v'] tl IH]; simpl.
  { split; [intros _; apply not_elem_of_nil | done]. }
  rewrite not_elem_of_cons. destruct (eqb k k') eqn:E.
  - apply eqb_eq in E as ->. split; [done | by intros []].
  - apply eqb_neq in E. rewrite IH. naive_solver.
Qed.

Lemma bt_contains_true k m : bt_contains k m = true <-> k ∈ m.*1.
Proof.
  unfold bt_contains. pose proof (bt_get_None k m) as Hn.
  destruct (bt_get k m) as [v |] eqn:E.
  - split; [intros _ | done]. apply bt_get_elem in E.
    by apply (list_elem_of_fmap_2 fst) in E.
  - split; [done |]. intros Hin. by destruct (proj1 Hn eq_refl).
Qed.

Lemma bt_insert_elem k v m p : p ∈ bt_insert k v m -> p = (k, v) \/ p ∈ m.
Proof.
  induction m as [| [k' v'] tl IH]; simpl; [by intros ->%list_elem_of_singleton; left |].
  destruct (cmp k k'); rewrite !elem_of_cons; naive_solver.
Qed.

Lemma bt_insert_wf k v m : bt_wf m -> bt_wf (bt_insert k v m).
Proof.
  intros Hwf. induction Hwf as [| [k' v'] tl Hs IH Hall]; simpl; [by repeat constructor |].
  destruct (cmp k k') eqn:E.
  - apply cmp_eq in E as ->. by constructor.
  - constructor; [by constructor |]. constructor; [done |].
    eapply Forall_impl; [exact Hall |]. intros [k2 v2] ?. unfold key_lt in *. simpl in *.
    by eapply lt_trans.
  - apply cmp_gt in E. constructor; [done |]. rewrite Forall_forall in Hall |- *.
    intros p [-> | Hp]%bt_insert_elem; [done | by apply Hall].
Qed.

Lemma bt_get_insert_eq k v m : bt_get k (bt_insert k v m) = Some v.
Proof.
  induction m as [| [k' v'] tl IH]; simpl; [by rewrite eqb_refl |].
  destruct (cmp k k') eqn:E; simpl.
  - by rewrite eqb_refl.
  - by rewrite eqb_refl.
  - unfold eqb. by rewrite E.
Qed.

Lemma bt_get_insert_ne k k2 v m : k <> k2 -> bt_get k2 (bt_insert k v m) = bt_get k2 m.
Proof.
  intros Hne. assert (eqb k2 k = false) as E2 by by apply eqb_neq.
  induction m as [| [k' v'] tl IH]; simpl; [by rewrite E2 |].
  destruct (cmp k k') eqn:E; simpl; rewrite ?E2.
  - apply cmp_eq in E as <-. by rewrite E2.
  - done.
  - by destruct (eqb k2 k').
Qed.

Lemma bt_insert_length_new k v m :
  bt_get k m = None -> length (bt_insert k v m) = S (length m).
Proof.
  induction m as [| [k' v'] tl IH]; simpl; [done |].
  destruct (cmp k k') eqn:E; unfold eqb; rewrite E; simpl; [done | done |].
  intros Hn. by rewrite IH.
Qed.

Lemma bt_insert_perm_new k v m : bt_get k m = None -> bt_insert k v m ≡ₚ (k, v) :: m.
Proof.
  induction m as [| [k' v'] tl IH]; simpl; [done |]. unfold eqb.
  destruct (cmp k k') eqn:E; [done | done |].
  intros Hn. rewrite (IH Hn). apply Permutation_swap.
Qed.

Lemma bt_of_list_wf l : bt_wf (bt_of_list l).
Proof.
  unfold bt_of_list. assert (forall m, bt_wf m ->
    bt_wf (foldl (fun m (p : K * V) => bt_insert p.1 p.2 m) m l)) as Haux.
  { induction l as [| p l IH]; simpl; [done |]. intros m Hm. by apply IH, bt_insert_wf. }
  apply Haux. constructor.
Qed.

(** Inserting entries with fresh, distinct keys one after the other. *)
Lemma bt_inserts_perm (l acc : list (K * V)) :
  NoDup l.*1 -> (forall k, k ∈ l.*1 -> k ∉ acc.*1) ->
  foldl (fun m (p : K * V) => bt_insert p.1 p.2 m) acc l ≡ₚ acc ++ l.
Proof.
  revert acc. induction l as [| [k v] l IH]; intros acc Hd Hf; cbn [foldl]; [by rewrite app_nil_r |].
  rewrite fmap_cons in Hd, Hf. cbn [fst snd] in *. apply NoDup_cons in Hd as [Hk Hd].
  assert (bt_get k acc = None) as Hg by (apply bt_get_None, Hf; left).
  rewrite IH; [| done |].
  - rewrite (bt_insert_perm_new k v acc Hg). apply Permutation_middle.
  - intros k' Hk'. rewrite (bt_insert_perm_new k v acc Hg), fmap_cons, elem_of_cons. intros [-> | Hin]; [done |].
    by apply (Hf k'); [right |].
Qed.

Lemma bt_of_list_perm (l : list (K * V)) : NoDup l.*1 -> bt_of_list l ≡ₚ l.
Proof. intros Hd. apply (bt_inserts_perm l []); [done | by intros ? _ ?%elem_of_nil]. Qed.

(** Two ordered maps with the same lookups are equal. *)
Lemma bt_ext m1 m2 :
  bt_wf m1 -> bt_wf m2 -> (forall k, bt_get k m1 = bt_get k m2) -> m1 = m2.
Proof.
  intros H1 H2 Hget. apply (strict_perm_eq fst); [done | done |].
  apply NoDup_Permutation.
  - eapply NoDup_fmap_1, (strict_NoDup_keys fst); exact H1.
  - eapply NoDup_fmap_1, (strict_NoDup_keys fst); exact H2.
  - intros [k v]. split; intros Hin; apply bt_get_elem.
    + rewrite <- Hget. by apply bt_elem_get.
    + rewrite Hget. by apply bt_elem_get.
Qed.
End btree.
#[export] Hint Resolve bt_insert_wf bt_of_list_wf : ord.
