(* ===== verification/Text.v ===== *)
(** * Rust strings, byte buffers and numerals

    A Rust [String] is a sequence of UTF-8 bytes, here the [string] of those
    bytes; a [Vec<u8>] is a [list Z] of byte values.  The functions are the
    methods of [str], [u8] and the integer types that the code calls. *)
From S2P Require Import Prelude.
Open Scope Z_scope.

(** ** Bytes *)
Definition byte_of (a : ascii) : Z := Z.of_N (N_of_ascii a).
Definition ascii_of_byte (b : Z) : ascii := ascii_of_N (Z.to_N b).

(** [s.as_bytes()], [String::from_utf8(bytes)] without its validity check *)
Definition str_bytes (s : string) : list Z := byte_of <$> String.list_ascii_of_string s.
Definition bytes_str (l : list Z) : string :=
  String.string_of_list_ascii (ascii_of_byte <$> l).

(** [s.len()] *)
Definition slen (s : string) : Z := Z.of_nat (String.length s).

Definition is_empty (s : string) : bool := match s with EmptyString => true | _ => false end.

Definition in_range (lo hi b : Z) : bool := (lo <=? b)%Z && (b <=? hi)%Z.
Definition is_ascii_digit (b : Z) : bool := in_range 48 57 b.
Definition is_ascii_upper (b : Z) : bool := in_range 65 90 b.
Definition is_ascii_lower (b : Z) : bool := in_range 97 122 b.
Definition is_ascii_alphabetic (b : Z) : bool := is_ascii_upper b || is_ascii_lower b.
Definition is_ascii_alphanumeric (b : Z) : bool := is_ascii_alphabetic b || is_ascii_digit b.
Definition is_ascii_graphic (b : Z) : bool := in_range 33 126 b.
Definition is_ascii_hexdigit (b : Z) : bool :=
  is_ascii_digit b || in_range 65 70 b || in_range 97 102 b.

(** [set.contains(&byte)] for a byte-string literal *)
Definition byte_in (set : string) (b : Z) : bool := existsb (Z.eqb b) (str_bytes set).

(** [s.bytes().all(p)] *)
Definition all_bytes (p : Z -> bool) (s : string) : bool := forallb p (str_bytes s).
(** [s.as_bytes()[0]] of a nonempty string, tested by [p] *)
Definition first_byte (p : Z -> bool) (s : string) : bool :=
  match s with EmptyString => false | String a _ => p (byte_of a) end.
(** [s.contains('\0')] *)
Definition contains_nul (s : string) : bool := existsb (Z.eqb 0) (str_bytes s).

(** [s.starts_with(p)], [s.strip_prefix(p)] *)
Fixpoint strip_prefix (p s : string) : option string :=
  match p, s with
  | EmptyString, _ => Some s
  | String a p, String b s => if Ascii.eqb a b then strip_prefix p s else None
  | String _ _, EmptyString => None
  end.
Definition starts_with (p s : string) : bool :=
  match strip_prefix p s with Some _ => true | None => false end.

(** [s.strip_suffix(c)] for a one-byte suffix *)
Fixpoint strip_suffix_char (c : ascii) (s : string) : option string :=
  match s with
  | EmptyString => None
  | String a EmptyString => if Ascii.eqb a c then Some EmptyString else None
  | String a s => String a <$> strip_suffix_char c s
  end.
Definition ends_with_char (c : ascii) (s : string) : bool :=
  match strip_suffix_char c s with Some _ => true | None => false end.

(** [s.contains(needle)] *)
Fixpoint contains_sub (needle s : string) : bool :=
  starts_with needle s ||
  match s with EmptyString => false | String _ s => contains_sub needle s end.

(** [s.ends_with(suffix)] *)
Fixpoint ends_with (suffix s : string) : bool :=
  String.eqb suffix s ||
  match s with EmptyString => false | String _ s => ends_with suffix s end.

(** [s.split(c)]: always at least one part *)
Fixpoint split_on (c : ascii) (s : string) : list string :=
  match s with
  | EmptyString => [EmptyString]
  | String a s =>
      match split_on c s with
      | part :: rest => if Ascii.eqb a c then EmptyString :: part :: rest else String a part :: rest
      | [] => []
      end
  end.

(** [s.split_once(c)] *)
Fixpoint split_once (c : ascii) (s : string) : option (string * string) :=
  match s with
  | EmptyString => None
  | String a s =>
      if Ascii.eqb a c then Some (EmptyString, s)
      else '(l, r) ← split_once c s; Some (String a l, r)
  end.

(** [s.replace("ab", r)] for a two-byte pattern *)
Fixpoint replace2 (a b : ascii) (r s : string) : string :=
  match s with
  | String x ((String y rest) as tl) =>
      if Ascii.eqb x a && Ascii.eqb y b then (r +:+ replace2 a b r rest)
      else String x (replace2 a b r tl)
  | _ => s
  end.

(** [c.to_ascii_lowercase()] *)
Definition to_lower (a : ascii) : ascii :=
  if is_ascii_upper (byte_of a) then ascii_of_byte (byte_of a + 32) else a.
Fixpoint filter_map_str (f : ascii -> option ascii) (s : string) : string :=
  match s with
  | EmptyString => EmptyString
  | String a s => match f a with Some b => String b (filter_map_str f s) | None => filter_map_str f s end
  end.
Definition to_ascii_lowercase (s : string) : string := filter_map_str (fun a => Some (to_lower a)) s.

(** [s.chars().any(char::is_control)]: the C0 controls and DEL are single
    bytes; the C1 controls U+0080..U+009F are the pairs C2 80..9F. *)
Fixpoint control_bytes (l : list Z) : bool :=
  match l with
  | [] => false
  | b :: tl =>
      (b <? 32)%Z || (b =? 127)%Z ||
      ((b =? 194)%Z && match tl with c :: _ => in_range 128 159 c | [] => false end) ||
      control_bytes tl
  end.
Definition has_control (s : string) : bool := control_bytes (str_bytes s).

(** ** Decimal numerals *)
Definition digit_char (d : Z) : ascii := ascii_of_byte (48 + d).

(** [n.to_string()]: at most 20 digits for a 64-bit integer. *)
Fixpoint dec_go (fuel : nat) (n : Z) (acc : string) : string :=
  match fuel with
  | O => acc
  | S fuel =>
      let acc := String (digit_char (n mod 10)) acc in
      if (n / 10 =? 0)%Z then acc else dec_go fuel (n / 10) acc
  end.
Definition dec (n : Z) : string := dec_go 20 n EmptyString.
Definition dec_signed (n : Z) : string := if (n <? 0)%Z then String "-" (dec (- n)) else dec n.

Fixpoint parse_digits (acc : Z) (s : string) : option Z :=
  match s with
  | EmptyString => Some acc
  | String a s =>
      if is_ascii_digit (byte_of a) then parse_digits (10 * acc + (byte_of a - 48)) s else None
  end.

(** [s.parse::<u64>()] and narrower unsigned types: an optional [+], at least
    one digit, no overflow. *)
Definition parse_unsigned (max : Z) (s : string) : option Z :=
  let digits := match s with String "+" tl => tl | _ => s end in
  if is_empty digits then None
  else n ← parse_digits 0 digits; if (n <=? max)%Z then Some n else None.

(** [s.parse::<i64>()] and narrower signed types *)
Definition parse_signed (min max : Z) (s : string) : option Z :=
  match s with
  | String "-" digits =>
      if is_empty digits then None
      else n ← parse_digits 0 digits; if (min <=? - n)%Z then Some (- n)%Z else None
  | _ => parse_unsigned max s
  end.

(** ** Fixed-width integers in byte buffers *)
Fixpoint from_be (acc : Z) (l : list Z) : Z :=
  match l with
  | [] => acc
  | b :: tl => from_be (256 * acc + b) tl
  end.
(** [uN::from_be_bytes], [uN::from_le_bytes] *)
Definition be_value (l : list Z) : Z := from_be 0 l.
Definition le_value (l : list Z) : Z := from_be 0 (reverse l).
(** [n.to_be_bytes()], [n.to_le_bytes()] with [w] bytes *)
Fixpoint to_le (w : nat) (n : Z) : list Z :=
  match w with
  | O => []
  | S w => (n mod 256)%Z :: to_le w (n / 256)
  end.
Definition to_be (w : nat) (n : Z) : list Z := reverse (to_le w n).

Definition is_byte (b : Z) : Prop := (0 <= b < 256)%Z.

(** ** Facts *)
Lemma byte_of_range a : is_byte (byte_of a).
Proof.
  unfold is_byte, byte_of. pose proof (N_ascii_bounded a). lia.
Qed.

Lemma ascii_of_byte_of a : ascii_of_byte (byte_of a) = a.
Proof. unfold ascii_of_byte, byte_of. rewrite N2Z.id. apply ascii_N_embedding. Qed.

Lemma byte_of_ascii_of b : is_byte b -> byte_of (ascii_of_byte b) = b.
Proof.
  unfold is_byte. intros Hb. unfold ascii_of_byte, byte_of. rewrite N_ascii_embedding by lia. lia.
Qed.

Lemma bytes_str_bytes s : bytes_str (str_bytes s) = s.
Proof.
  unfold bytes_str, str_bytes. rewrite <- list_fmap_compose.
  rewrite (list_fmap_ext _ id) by (intros ? ? ?; apply ascii_of_byte_of).
  rewrite list_fmap_id. apply String.string_of_list_ascii_of_string.
Qed.

Lemma str_bytes_bytes l : Forall is_byte l -> str_bytes (bytes_str l) = l.
Proof.
  intros Hl. unfold bytes_str, str_bytes.
  rewrite String.list_ascii_of_string_of_list_ascii, <- list_fmap_compose.
  rewrite <- (list_fmap_id l) at 2. apply list_fmap_ext. intros i b Hb.
  apply byte_of_ascii_of. by eapply Forall_lookup_1 in Hb.
Qed.

Lemma str_bytes_inj s t : str_bytes s = str_bytes t -> s = t.
Proof. intros E. by rewrite <- (bytes_str_bytes s), E, bytes_str_bytes. Qed.

Lemma str_bytes_cons a s : str_bytes (String a s) = byte_of a :: str_bytes s.
Proof. reflexivity. Qed.

Lemma str_bytes_app s t : str_bytes (s +:+ t) = str_bytes s ++ str_bytes t.
Proof.
  induction s as [| a s IH]; [done |]. change (String a s +:+ t) with (String a (s +:+ t)).
  by rewrite !str_bytes_cons, IH.
Qed.

Lemma str_bytes_length s : length (str_bytes s) = String.length s.
Proof. induction s as [| a s IH]; [done |]. rewrite str_bytes_cons. simpl. by rewrite IH. Qed.

Lemma slen_bytes s : slen s = zlen (str_bytes s).
Proof. unfold slen. by rewrite str_bytes_length. Qed.

Lemma slen_app s t : slen (s +:+ t) = (slen s + slen t)%Z.
Proof. rewrite !slen_bytes, str_bytes_app, length_app. lia. Qed.

Lemma slen_cons a s : slen (String a s) = (1 + slen s)%Z.
Proof. unfold slen. simpl. lia. Qed.

Lemma slen_nonneg s : (0 <= slen s)%Z.
Proof. unfold slen. lia. Qed.

Lemma str_bytes_is_byte s : Forall is_byte (str_bytes s).
Proof. induction s; constructor; [apply byte_of_range | done]. Qed.

Lemma byte_of_inj a b : byte_of a = byte_of b -> a = b.
Proof. intros E. by rewrite <- (ascii_of_byte_of a), E, ascii_of_byte_of. Qed.

Lemma string_app_cons a s t : String a s +:+ t = String a (s +:+ t).
Proof. reflexivity. Qed.

Lemma string_app_nil_r s : s +:+ EmptyString = s.
Proof. induction s as [| a s IH]; [done |]. by rewrite string_app_cons, IH. Qed.

Lemma string_app_assoc s t u : (s +:+ t) +:+ u = s +:+ (t +:+ u).
Proof. induction s as [| a s IH]; [done |]. by rewrite !string_app_cons, IH. Qed.

Lemma strip_prefix_spec p s t : strip_prefix p s = Some t <-> s = p +:+ t.
Proof.
  revert s. induction p as [| a p IH]; intros s.
  - cbn. split; [by intros [= ->] | by intros ->].
  - destruct s as [| b s]; [by split |]. rewrite string_app_cons. cbn [strip_prefix]. destruct (Ascii.eqb a b) eqn:E.
    + apply Ascii.eqb_eq in E as ->. rewrite IH. split; [by intros -> | by intros [= ->]].
    + split; [done |]. intros [= -> _]. by rewrite Ascii.eqb_refl in E.
Qed.

Lemma starts_with_spec p s : starts_with p s = true <-> exists t, s = p +:+ t.
Proof.
  unfold starts_with. destruct (strip_prefix p s) as [t |] eqn:E; split; try done.
  - intros _. exists t. by apply strip_prefix_spec.
  - intros [t Ht]. apply strip_prefix_spec in Ht. by rewrite Ht in E.
Qed.

Create Rewrite HintDb text.
#[export] Hint Rewrite str_bytes_app str_bytes_cons slen_app slen_cons : text.

(** *** Decimal numerals *)
Lemma digit_byte d : (0 <= d < 10)%Z -> byte_of (digit_char d) = (48 + d)%Z.
Proof. intros Hd. apply byte_of_ascii_of. unfold is_byte. lia. Qed.

Lemma parse_digits_char acc d s :
  (0 <= d < 10)%Z -> parse_digits acc (String (digit_char d) s) = parse_digits (10 * acc + d) s.
Proof.
  intros Hd. cbn [parse_digits]. rewrite digit_byte by done.
  unfold is_ascii_digit, in_range.
  rewrite (proj2 (Z.leb_le 48 _)), (proj2 (Z.leb_le _ 57)) by lia. simpl. f_equal. lia.
Qed.

Lemma parse_dec_go fuel n acc :
  (0 <= n < 10 ^ Z.of_nat fuel)%Z -> (0 < fuel)%nat ->
  parse_digits 0 (dec_go fuel n acc) = parse_digits n acc.
Proof.
  revert n acc. induction fuel as [| fuel IH]; intros n acc Hn Hf; [lia |].
  cbn [dec_go]. cbv zeta. pose proof (Z.mod_pos_bound n 10 ltac:(lia)).
  pose proof (Z.div_mod n 10 ltac:(lia)).
  destruct (Z.eqb_spec (n / 10) 0) as [E | E].
  - rewrite parse_digits_char by lia. f_equal. lia.
  - rewrite Nat2Z.inj_succ, Z.pow_succ_r in Hn by lia.
    assert (0 < n / 10)%Z by (pose proof (Z.div_pos n 10); lia).
    assert (0 < fuel)%nat as Hf'.
    { destruct fuel; [| lia]. simpl in Hn. lia. }
    rewrite IH; [| split; [lia | apply Z.div_lt_upper_bound; lia] | done].
    rewrite parse_digits_char by lia. f_equal. lia.
Qed.

(** Printing and parsing a 64-bit unsigned integer round-trips. *)
Lemma parse_dec n : (0 <= n <= U64_MAX)%Z -> parse_digits 0 (dec n) = Some n.
Proof. intros Hn. unfold dec. rewrite parse_dec_go by (unfold U64_MAX in Hn; lia). done. Qed.

Lemma dec_go_not_nil fuel n acc : (0 < fuel)%nat -> dec_go fuel n acc <> EmptyString.
Proof.
  revert n acc. induction fuel as [| fuel IH]; intros n acc Hf; [lia |].
  cbn [dec_go]. cbv zeta. destruct (n / 10 =? 0)%Z; [done |].
  destruct fuel; [done |]. apply IH. lia.
Qed.

Lemma dec_not_nil n : dec n <> EmptyString.
Proof. apply dec_go_not_nil. lia. Qed.

Lemma dec_inj n m :
  (0 <= n <= U64_MAX)%Z -> (0 <= m <= U64_MAX)%Z -> dec n = dec m -> n = m.
Proof. intros Hn Hm E. apply parse_dec in Hn, Hm. congruence. Qed.

Lemma parse_digits_ge acc s n : (0 <= acc)%Z -> parse_digits acc s = Some n -> (acc <= n)%Z.
Proof.
  revert acc. induction s as [| a s IH]; intros acc Hacc; cbn [parse_digits]; [intros [= ->]; lia |].
  destruct (is_ascii_digit (byte_of a)) eqn:E; [| done].
  unfold is_ascii_digit, in_range in E. bool_prop. intros ?%IH; lia.
Qed.

Lemma dec_go_app fuel n acc : dec_go fuel n acc = dec_go fuel n EmptyString +:+ acc.
Proof.
  revert n acc. induction fuel as [| fuel IH]; intros n acc; [done |].
  cbn [dec_go]. cbv zeta. destruct (n / 10 =? 0)%Z; [done |].
  rewrite (IH _ (String _ acc)), (IH _ (String _ EmptyString)), string_app_assoc. done.
Qed.

Lemma dec_go_fuel f1 f2 n :
  (0 <= n < 10 ^ Z.of_nat f1)%Z -> (n < 10 ^ Z.of_nat f2)%Z -> (0 < f1)%nat -> (0 < f2)%nat ->
  dec_go f1 n EmptyString = dec_go f2 n EmptyString.
Proof.
  revert f2 n. induction f1 as [| f1 IH]; intros [| f2] n H1 H2 P1 P2; try lia.
  cbn [dec_go]. cbv zeta. destruct (Z.eqb_spec (n / 10) 0) as [E | E]; [done |].
  rewrite Nat2Z.inj_succ, Z.pow_succ_r in H1, H2 by lia.
  assert (0 < n / 10)%Z by (pose proof (Z.div_pos n 10); lia).
  rewrite (dec_go_app f1), (dec_go_app f2). f_equal. apply IH.
  - split; [lia | apply Z.div_lt_upper_bound; lia].
  - apply Z.div_lt_upper_bound; lia.
  - destruct f1; [exfalso | lia]. change (10 ^ Z.of_nat 0)%Z with 1%Z in *.
    rewrite Z.div_small in E by lia. lia.
  - destruct f2; [exfalso | lia]. change (10 ^ Z.of_nat 0)%Z with 1%Z in *.
    rewrite Z.div_small in E by lia. lia.
Qed.

Lemma dec_go_S fuel n acc :
  dec_go (S fuel) n acc =
    if (n / 10 =? 0)%Z then String (digit_char (n mod 10)) acc
    else dec_go fuel (n / 10) (String (digit_char (n mod 10)) acc).
Proof. reflexivity. Qed.

Lemma dec_snoc n d :
  (0 < n)%Z -> (10 * n + d <= U64_MAX)%Z -> (0 <= d < 10)%Z ->
  dec (10 * n + d) = dec n +:+ String (digit_char d) EmptyString.
Proof.
  intros Hn Hm Hd. unfold dec at 1. rewrite (dec_go_S 19).
  replace ((10 * n + d) / 10)%Z with n by (apply Z.div_unique with d; lia).
  replace ((10 * n + d) mod 10)%Z with d by (apply Z.mod_unique with n; lia).
  destruct (Z.eqb_spec n 0); [lia |]. rewrite dec_go_app.
  assert (dec_go 19 n EmptyString = dec n) as E19; [| by rewrite E19].
  unfold dec, U64_MAX in *. apply dec_go_fuel; lia.
Qed.

Lemma parse_digits_canonical acc s n :
  (0 < acc)%Z -> (n <= U64_MAX)%Z -> parse_digits acc s = Some n -> dec n = dec acc +:+ s.
Proof.
  intros Hacc Hn. revert acc Hacc. induction s as [| a s IH]; intros acc Hacc Hp.
  - injection Hp as ->. by rewrite string_app_nil_r.
  - cbn [parse_digits] in Hp. destruct (is_ascii_digit (byte_of a)) eqn:E; [| done].
    unfold is_ascii_digit, in_range in E. bool_prop.
    assert (0 < 10 * acc + (byte_of a - 48))%Z as Hpos by lia.
    assert (10 * acc + (byte_of a - 48) <= n)%Z by (eapply parse_digits_ge; [| exact Hp]; lia).
    rewrite (IH _ Hpos Hp), dec_snoc by lia. rewrite string_app_assoc.
    simpl. unfold digit_char. rewrite Z.add_sub_assoc, Z.add_simpl_l.
    rewrite ascii_of_byte_of. done.
Qed.

(** A digit string without a superfluous leading zero is the canonical
    printing of its value. *)
Lemma dec_canonical s n :
  s <> EmptyString -> starts_with "0" s = false \/ String.length s = 1%nat ->
  (n <= U64_MAX)%Z -> parse_digits 0 s = Some n -> dec n = s.
Proof.
  destruct s as [| a s]; [done |]. intros _ Hz Hn Hp. cbn [parse_digits] in Hp.
  destruct (is_ascii_digit (byte_of a)) eqn:E; [| done].
  unfold is_ascii_digit, in_range in E. bool_prop.
  assert (dec (byte_of a - 48) = String a EmptyString) as Hd.
  { unfold dec. rewrite (dec_go_S 19).
    rewrite Z.div_small, Z.mod_small by lia. rewrite Z.eqb_refl.
    unfold digit_char. rewrite Z.add_sub_assoc, Z.add_simpl_l, ascii_of_byte_of. done. }
  destruct (decide (byte_of a = 48%Z)) as [E0 | E0].
  - destruct Hz as [Hz | Hl].
    + assert (a = "0"%char) as -> by (apply byte_of_inj; by rewrite E0). discriminate Hz.
    + destruct s; [| simpl in Hl; lia]. injection Hp as <-. by rewrite <- Hd.
  - rewrite (parse_digits_canonical (10 * 0 + (byte_of a - 48)) s n); [| lia | done | done].
    rewrite Z.mul_0_r, Z.add_0_l, Hd. done.
Qed.

(** ** Further string operations *)

(** [s.rsplit_once(p)] for a nonempty pattern *)
Fixpoint rsplit_once (p s : string) : option (string * string) :=
  match s with
  | EmptyString => None
  | String a tl =>
      match rsplit_once p tl with
      | Some (l, r) => Some (String a l, r)
      | None => (fun r => (EmptyString, r)) <$> strip_prefix p s
      end
  end.

(** [s.trim().is_empty()]: every character is Unicode [White_Space]. *)
Fixpoint all_white (l : list Z) : bool :=
  match l with
  | [] => true
  | b :: l1 =>
      if in_range 9 13 b || (b =? 32)%Z then all_white l1
      else match l1 with
           | [] => false
           | c :: l2 =>
               if (b =? 194)%Z && ((c =? 133)%Z || (c =? 160)%Z) then all_white l2
               else match l2 with
                    | [] => false
                    | d :: l3 =>
                        (((b =? 225)%Z && (c =? 154)%Z && (d =? 128)%Z)
                         || ((b =? 226)%Z && (c =? 128)%Z && (in_range 128 138 d || in_range 168 169 d || (d =? 175)%Z))
                         || ((b =? 226)%Z && (c =? 129)%Z && (d =? 159)%Z)
                         || ((b =? 227)%Z && (c =? 128)%Z && (d =? 128)%Z))
                        && all_white l3
                    end
           end
  end.
Definition trimmed_empty (s : string) : bool := all_white (str_bytes s).

(** [format!("{byte:02x}")] and [u8::from_str_radix(s, 16)] on two digits *)
Definition hex_nibble (d : Z) : ascii := ascii_of_byte (if (d <? 10)%Z then 48 + d else 87 + d).
Definition hex_byte (b : Z) : string := String (hex_nibble (b / 16)) (String (hex_nibble (b mod 16)) EmptyString).
Fixpoint hex_text (l : list Z) : string :=
  match l with
  | [] => EmptyString
  | b :: l => hex_byte b +:+ hex_text l
  end.
Definition hex_value (a : ascii) : option Z :=
  let b := byte_of a in
  if is_ascii_digit b then Some (b - 48)%Z
  else if in_range 97 102 b then Some (b - 87)%Z
  else if in_range 65 70 b then Some (b - 55)%Z
  else None.
Fixpoint hex_parse (s : string) : option (list Z) :=
  match s with
  | EmptyString => Some []
  | String a (String b tl) =>
      hi ← hex_value a; lo ← hex_value b; rest ← hex_parse tl; Some ((16 * hi + lo)%Z :: rest)
  | _ => None
  end.
Definition is_lower_hex (b : Z) : bool := is_ascii_digit b || in_range 97 102 b.

Lemma hex_nibble_value d : (0 <= d < 16)%Z -> hex_value (hex_nibble d) = Some d.
Proof.
  intros Hd. assert (d = 0 \/ d = 1 \/ d = 2 \/ d = 3 \/ d = 4 \/ d = 5 \/ d = 6 \/ d = 7 \/ d = 8 \/ d = 9
    \/ d = 10 \/ d = 11 \/ d = 12 \/ d = 13 \/ d = 14 \/ d = 15)%Z as Hc by lia.
  repeat (destruct Hc as [-> | Hc]; [reflexivity |]). subst. reflexivity.
Qed.

Lemma hex_parse_text l : Forall is_byte l -> hex_parse (hex_text l) = Some l.
Proof.
  induction 1 as [| b l Hb Hl IH]; [done |]. unfold is_byte in Hb.
  cbn [hex_text]. unfold hex_byte. rewrite !string_app_cons. cbn [hex_parse].
  change (EmptyString +:+ hex_text l) with (hex_text l).
  pose proof (Z.mod_pos_bound b 16 ltac:(lia)).
  pose proof (Z.div_pos b 16 ltac:(lia) ltac:(lia)). assert (b / 16 < 16)%Z by (apply Z.div_lt_upper_bound; lia).
  rewrite !hex_nibble_value by lia. simpl. rewrite IH. simpl. do 2 f_equal.
  pose proof (Z.div_mod b 16 ltac:(lia)). lia.
Qed.

Lemma hex_text_app l k : hex_text (l ++ k) = hex_text l +:+ hex_text k.
Proof. induction l as [| b l IH]; [done |]. cbn [app hex_text]. by rewrite IH, string_app_assoc. Qed.

Lemma hex_text_length l : slen (hex_text l) = (2 * zlen l)%Z.
Proof. induction l as [| b l IH]; [done |]. cbn [hex_text length]. rewrite slen_app, IH. change (slen (hex_byte b)) with 2%Z. lia. Qed.

Lemma hex_value_nibble a d :
  is_lower_hex (byte_of a) = true -> hex_value a = Some d -> (0 <= d < 16)%Z /\ hex_nibble d = a.
Proof.
  unfold is_lower_hex, hex_value, is_ascii_digit, in_range, hex_nibble. intros Hl. cbv zeta.
  destruct ((48 <=? byte_of a)%Z && (byte_of a <=? 57)%Z) eqn:E1.
  - intros [= <-]. bool_prop. split; [lia |]. destruct (Z.ltb_spec (byte_of a - 48) 10); [| lia].
    apply byte_of_inj. rewrite byte_of_ascii_of; unfold is_byte; lia.
  - destruct ((97 <=? byte_of a)%Z && (byte_of a <=? 102)%Z) eqn:E2; [| done].
    intros [= <-]. bool_prop. split; [lia |]. destruct (Z.ltb_spec (byte_of a - 87) 10); [lia |].
    apply byte_of_inj. rewrite byte_of_ascii_of; unfold is_byte; lia.
Qed.

Lemma hex_text_parse s l : all_bytes is_lower_hex s = true -> hex_parse s = Some l -> hex_text l = s /\ Forall is_byte l.
Proof.
  revert l. assert (forall n s l, (String.length s <= n)%nat -> all_bytes is_lower_hex s = true ->
    hex_parse s = Some l -> hex_text l = s /\ Forall is_byte l) as Haux; [| intros l; by eapply Haux].
  clear s. induction n as [| n IH]; intros s l Hn Ha Hp.
  - destruct s; [| simpl in Hn; lia]. injection Hp as <-. by split.
  - destruct s as [| a [| b s]]; [injection Hp as <-; by split | done |].
    cbn [hex_parse] in Hp. destruct (hex_value a) as [hi |] eqn:Eh; simpl in Hp; [| done].
    destruct (hex_value b) as [lo |] eqn:El; simpl in Hp; [| done].
    destruct (hex_parse s) as [rest |] eqn:Er; simpl in Hp; [| done]. injection Hp as <-.
    unfold all_bytes in Ha. rewrite !str_bytes_cons in Ha. simpl in Ha. bool_prop.
    apply hex_value_nibble in Eh as [Hhi Eh]; [| done]. apply hex_value_nibble in El as [Hlo El]; [| done].
    destruct (IH s rest ltac:(simpl in Hn; lia) ltac:(done) Er) as [Ht Hb].
    cbn [hex_text]. unfold hex_byte.
    replace ((16 * hi + lo) / 16)%Z with hi by (apply Z.div_unique with lo; lia).
    replace ((16 * hi + lo) mod 16)%Z with lo by (apply Z.mod_unique with hi; lia).
    rewrite Eh, El, !string_app_cons, Ht. split; [done | constructor; [unfold is_byte; lia | done]].
Qed.

(** ** Slices of byte buffers

    Facts about the big-endian encodings above, and the slices that binary
    formats are read with. *)

Lemma length_to_le w n : length (to_le w n) = w.
Proof. revert n. induction w as [| w IH]; intros n; cbn [to_le length]; [done | by rewrite IH]. Qed.
Lemma length_to_be w n : length (to_be w n) = w.
Proof. unfold to_be. by rewrite length_reverse, length_to_le. Qed.

Lemma from_be_app acc l k : from_be acc (l ++ k) = from_be (from_be acc l) k.
Proof. revert acc. induction l as [| b l IH]; intros acc; cbn [from_be app]; [done | apply IH]. Qed.

Lemma be_value_app_one l b : be_value (l ++ [b]) = 256 * be_value l + b.
Proof. unfold be_value. by rewrite from_be_app. Qed.

Lemma be_value_to_be w n : 0 <= n < 256 ^ Z.of_nat w -> be_value (to_be w n) = n.
Proof.
  unfold to_be. revert n. induction w as [| w IH]; intros n Hn.
  { cbn in *. lia. }
  cbn [to_le]. rewrite reverse_cons, be_value_app_one, IH.
  - pose proof (Z.div_mod n 256). lia.
  - rewrite Nat2Z.inj_succ, Z.pow_succ_r in Hn by lia. split; [apply Z.div_pos; lia |]. apply Z.div_lt_upper_bound; lia.
Qed.

Lemma be_value_range l : Forall is_byte l -> 0 <= be_value l < 256 ^ zlen l.
Proof.
  induction l as [| b l IH] using rev_ind; intros Hl; [cbn; lia |].
  apply Forall_app in Hl as [Hl [Hb _]%Forall_cons]. rewrite be_value_app_one, length_app.
  specialize (IH Hl). unfold is_byte in Hb. cbn [length]. rewrite Nat.add_1_r, Nat2Z.inj_succ, Z.pow_succ_r by lia. lia.
Qed.

Lemma to_be_snoc w n : to_be (S w) n = to_be w (n / 256) ++ [n mod 256].
Proof. unfold to_be. cbn [to_le]. by rewrite reverse_cons. Qed.

Lemma to_be_be_value l : Forall is_byte l -> to_be (length l) (be_value l) = l.
Proof.
  induction l as [| b l IH] using rev_ind; intros Hl; [done |].
  apply Forall_app in Hl as [Hl [Hb _]%Forall_cons]. unfold is_byte in Hb.
  rewrite length_app. cbn [length]. rewrite Nat.add_1_r, to_be_snoc, be_value_app_one.
  rewrite (Z.mul_comm 256), Z.div_add_l, (Z.div_small b), Z.add_0_r, IH by (done || lia).
  f_equal. f_equal. rewrite Z.add_comm, Z_mod_plus_full. by apply Z.mod_small.
Qed.

Lemma to_be_bytes w n : Forall is_byte (to_be w n).
Proof.
  unfold to_be. apply Forall_reverse. revert n. induction w as [| w IH]; intros n; cbn [to_le]; [constructor |].
  constructor; [unfold is_byte; pose proof (Z.mod_pos_bound n 256); lia | apply IH].
Qed.

(** ** Slices *)

(** [&bytes[start..start + len]] of a long enough buffer. *)
Definition slice {A} (start len : nat) (bytes : list A) : list A := take len (drop start bytes).

Lemma length_slice {A} start len (l : list A) : (start + len <= length l)%nat -> length (slice start len l) = len.
Proof. unfold slice. rewrite length_take, length_drop. lia. Qed.

Lemma slice_app_l {A} len (l k : list A) : length l = len -> slice 0 len (l ++ k) = l.
Proof. intros <-. unfold slice. by rewrite drop_0, take_app_length. Qed.
Lemma slice_app_r {A} start len (l k : list A) : (length l <= start)%nat -> slice start len (l ++ k) = slice (start - length l) len k.
Proof. intros Hl. unfold slice. rewrite drop_app. by rewrite drop_ge by lia. Qed.

Lemma slice_split {A} n (l : list A) : l = slice 0 n l ++ drop n l.
Proof. unfold slice. rewrite drop_0. by rewrite take_drop. Qed.
Lemma drop_slice {A} start len (l : list A) : drop start l = slice start len l ++ drop (start + len) l.
Proof. unfold slice. rewrite <- drop_drop. by rewrite take_drop. Qed.
Lemma slice_cat {A} start n m (l : list A) : slice start (n + m) l = slice start n l ++ slice (start + n) m l.
Proof.
  unfold slice. rewrite <- drop_drop. set (k := drop start l). rewrite <- (take_drop n (take (n + m) k)).
  rewrite take_take, Nat.min_l by lia. f_equal. by rewrite take_drop_commute, Nat.add_comm.
Qed.

Lemma bytes_checked l : forallb (fun b => in_range 0 255 b) l = true -> Forall is_byte l.
Proof.
  intros Hl. apply Forall_forall. intros b Hb. apply list_elem_of_In in Hb. rewrite forallb_forall in Hl.
  specialize (Hl b Hb). unfold in_range in Hl. apply andb_true_iff in Hl as [H1%Z.leb_le H2%Z.leb_le]. unfold is_byte. lia.
Qed.

(** ** UTF-8 and lines

    [str::from_utf8], [str::lines] and [str::split_terminator] of the Rust
    standard library. *)

Definition continuation (b : Z) : bool := in_range 128 191 b.

(** Well-formed byte sequences (Unicode, table 3-7). *)
Fixpoint valid_utf8 (l : list Z) : bool :=
  match l with
  | [] => true
  | a :: l1 =>
      if a <? 128 then valid_utf8 l1
      else match l1 with
           | [] => false
           | b :: l2 =>
               if in_range 194 223 a then continuation b && valid_utf8 l2
               else match l2 with
                    | [] => false
                    | c :: l3 =>
                        if in_range 224 239 a then
                          (if a =? 224 then in_range 160 191 b else if a =? 237 then in_range 128 159 b else continuation b)
                          && continuation c && valid_utf8 l3
                        else match l3 with
                             | [] => false
                             | d :: l4 =>
                                 in_range 240 244 a
                                 && (if a =? 240 then in_range 144 191 b else if a =? 244 then in_range 128 143 b else continuation b)
                                 && continuation c && continuation d && valid_utf8 l4
                             end
                    end
           end
  end.

Definition from_utf8 (bytes : list Z) : option string :=
  if valid_utf8 bytes then Some (bytes_str bytes) else None.

(** [s.split_terminator(c)]: like [split], without a trailing empty part. *)
Definition split_terminator (c : ascii) (s : string) : list string :=
  let parts := split_on c s in
  match last parts with
  | Some EmptyString => removelast parts
  | _ => parts
  end.

(** One line of [s.lines()]: a line that ended in a newline also loses a
    carriage return before it. *)
Definition strip_cr (line : string) : string := default line (strip_suffix_char "013" line).
Definition lines (s : string) : list string :=
  let parts := split_on "010" s in
  match last parts with
  | Some EmptyString => strip_cr <$> removelast parts
  | Some tail => (strip_cr <$> removelast parts) ++ [tail]
  | None => []
  end.

(** [s.trim()]: white characters go at both ends. *)
Fixpoint trim_start (l : list Z) : list Z :=
  match l with
  | [] => []
  | b :: l1 =>
      if in_range 9 13 b || (b =? 32) then trim_start l1
      else match l1 with
           | [] => l
           | c :: l2 =>
               if (b =? 194) && ((c =? 133) || (c =? 160)) then trim_start l2
               else match l2 with
                    | [] => l
                    | d :: l3 =>
                        if ((b =? 225) && (c =? 154) && (d =? 128))
                           || ((b =? 226) && (c =? 128) && (in_range 128 138 d || in_range 168 169 d || (d =? 175)))
                           || ((b =? 226) && (c =? 129) && (d =? 159))
                           || ((b =? 227) && (c =? 128) && (d =? 128))
                        then trim_start l3 else l
                    end
           end
  end.
Fixpoint trim_end (l : list Z) : list Z :=
  match l with [] => [] | b :: l1 => if all_white l then [] else b :: trim_end l1 end.
Definition trim (s : string) : string := bytes_str (trim_end (trim_start (str_bytes s))).

Lemma from_utf8_bytes bytes s : Forall is_byte bytes -> from_utf8 bytes = Some s -> str_bytes s = bytes.
Proof. unfold from_utf8. case_match; [| done]. intros Hb [= <-]. by apply str_bytes_bytes. Qed.

Lemma valid_utf8_ascii l : Forall (fun b => b < 128) l -> valid_utf8 l = true.
Proof. induction 1 as [| b l Hb Hl IH]; [done |]. cbn [valid_utf8]. by rewrite (proj2 (Z.ltb_lt _ _)). Qed.

Lemma split_on_nonempty c s : split_on c s <> [].
Proof. induction s as [| a s IH]; [done |]. cbn [split_on]. destruct (split_on c s); [done |]. by destruct (Ascii.eqb a c). Qed.

(** Splitting a text built from terminated lines gives the lines back. *)
Lemma split_on_line c l rest :
  (forall a, a ∈ String.list_ascii_of_string l -> a <> c) ->
  split_on c (l +:+ String c rest) = l :: split_on c rest.
Proof.
  induction l as [| a l IH]; intros Hl.
  - change (EmptyString +:+ String c rest) with (String c rest). cbn [split_on]. rewrite Ascii.eqb_refl.
    pose proof (split_on_nonempty c rest). by destruct (split_on c rest).
  - rewrite string_app_cons. cbn [split_on]. rewrite IH by (intros b Hb; apply Hl; by right).
    rewrite (proj2 (Ascii.eqb_neq a c)); [done |]. apply Hl. left.
Qed.

Definition terminated (c : ascii) (ls : list string) : string := foldr (fun l t => l +:+ String c t) EmptyString ls.

Lemma split_terminator_lines c ls :
  Forall (fun l => forall a, a ∈ String.list_ascii_of_string l -> a <> c) ls ->
  split_terminator c (terminated c ls) = ls.
Proof.
  intros Hall. unfold split_terminator. assert (split_on c (terminated c ls) = ls ++ [EmptyString]) as ->.
  { induction Hall as [| l ls Hl Hall IH]; [done |]. cbn [terminated foldr]. fold (terminated c ls).
    by rewrite split_on_line, IH. }
  cbv zeta. rewrite last_snoc. apply removelast_last.
Qed.
