(* ===== verification/Json.v ===== *)
(** * JSON values

    [serde_json::Value] as data: numbers keep the three representations of
    [serde_json::Number] (a float is known by its printed text), objects are
    ordered maps.  [json_text] is the compact JSON encoding that the byte
    budgets of the program are defined against. *)
From S2P Require Import Prelude Order Text.

#[local] Set Warnings "-register-all".

Inductive number : Type :=
| PosInt (n : Z)
| NegInt (n : Z)
| Float (text : string).

Inductive value : Type :=
| VNull
| VBool (b : bool)
| VNum (n : number)
| VStr (s : string)
| VArr (items : list value)
| VObj (fields : list (string * value)).

Section value_induction.
Context (P : value -> Prop).
Hypothesis Hnull : P VNull.
Hypothesis Hbool : forall b, P (VBool b).
Hypothesis Hnum : forall n, P (VNum n).
Hypothesis Hstr : forall s, P (VStr s).
Hypothesis Harr : forall l, Forall P l -> P (VArr l).
Hypothesis Hobj : forall m, Forall (fun p : string * value => P p.2) m -> P (VObj m).

Fixpoint value_nested_ind (v : value) : P v :=
  match v with
  | VNull => Hnull
  | VBool b => Hbool b
  | VNum n => Hnum n
  | VStr s => Hstr s
  | VArr l =>
      Harr l ((fix go l := match l return Forall P l with
                           | [] => Forall_nil_2 P
                           | v :: tl => Forall_cons_2 P v tl (value_nested_ind v) (go tl)
                           end) l)
  | VObj m =>
      Hobj m ((fix go m := match m return Forall (fun p : string * value => P p.2) m with
                           | [] => Forall_nil_2 _
                           | p :: tl => Forall_cons_2 _ p tl (value_nested_ind p.2) (go tl)
                           end) m)
  end.
End value_induction.

(** ** Accessors of [serde_json::Value] *)
Definition as_bool (v : value) : option bool := match v with VBool b => Some b | _ => None end.
Definition as_str (v : value) : option string := match v with VStr s => Some s | _ => None end.
Definition as_array (v : value) : option (list value) := match v with VArr l => Some l | _ => None end.
Definition as_object (v : value) : option (list (string * value)) :=
  match v with VObj m => Some m | _ => None end.
Definition as_i64 (v : value) : option Z :=
  match v with
  | VNum (PosInt n) => if (n <=? I64_MAX)%Z then Some n else None
  | VNum (NegInt n) => Some n
  | _ => None
  end.
Definition as_u64 (v : value) : option Z :=
  match v with VNum (PosInt n) => Some n | _ => None end.
Definition is_some {A} (o : option A) : bool := match o with Some _ => true | None => false end.
Definition is_boolean (v : value) : bool := is_some (as_bool v).
Definition is_object (v : value) : bool := is_some (as_object v).
Definition is_array (v : value) : bool := is_some (as_array v).

(** [Value::from(n)] for an [i64] *)
Definition value_of_i64 (n : Z) : value := VNum (if (n <? 0)%Z then NegInt n else PosInt n).

(** [number.to_string()] *)
Definition number_text (n : number) : string :=
  match n with
  | PosInt n => dec n
  | NegInt n => dec_signed n
  | Float t => t
  end.

(** ** The compact encoding *)
Definition DQUOTE : ascii := ascii_of_byte 34.
Definition BACKSLASH : ascii := ascii_of_byte 92.
Definition hex_digit (d : Z) : ascii := ascii_of_byte (if (d <? 10)%Z then 48 + d else 87 + d).

Definition escape_byte (a : ascii) : string :=
  let b := byte_of a in
  if (b =? 34)%Z || (b =? 92)%Z then String BACKSLASH (String a EmptyString)
  else if (b =? 8)%Z then String BACKSLASH "b"
  else if (b =? 9)%Z then String BACKSLASH "t"
  else if (b =? 10)%Z then String BACKSLASH "n"
  else if (b =? 12)%Z then String BACKSLASH "f"
  else if (b =? 13)%Z then String BACKSLASH "r"
  else if (b <? 32)%Z then
    String BACKSLASH ("u00" +:+ String (hex_digit (b / 16)) (String (hex_digit (b mod 16)) EmptyString))
  else String a EmptyString.

Fixpoint escape (s : string) : string :=
  match s with
  | EmptyString => EmptyString
  | String a s => escape_byte a +:+ escape s
  end.
Definition quote (s : string) : string :=
  String DQUOTE (escape s +:+ String DQUOTE EmptyString).

Fixpoint join (sep : string) (l : list string) : string :=
  match l with
  | [] => EmptyString
  | [x] => x
  | x :: tl => x +:+ sep +:+ join sep tl
  end.

Fixpoint json_text (v : value) : string :=
  match v with
  | VNull => "null"
  | VBool true => "true"
  | VBool false => "false"
  | VNum n => number_text n
  | VStr s => quote s
  | VArr l => "[" +:+ join "," (json_text <$> l) +:+ "]"
  | VObj m => "{" +:+ join "," ((fun p => quote p.1 +:+ ":" +:+ json_text p.2) <$> m) +:+ "}"
  end.
Definition json_size (v : value) : Z := slen (json_text v).

(** Nesting depth of the deepest value (the root is at depth 0) and number of
    values; object keys are not values. *)
Fixpoint json_depth (v : value) : Z :=
  match v with
  | VArr l => foldr (fun v d => Z.max (1 + json_depth v) d) 0%Z l
  | VObj m => foldr (fun p d => Z.max (1 + json_depth p.2) d) 0%Z m
  | _ => 0%Z
  end.
Fixpoint json_nodes (v : value) : Z :=
  match v with
  | VArr l => (1 + foldr (fun v d => json_nodes v + d) 0 l)%Z
  | VObj m => (1 + foldr (fun p d => json_nodes p.2 + d) 0 m)%Z
  | _ => 1%Z
  end.

(** Numbers in range, or printed without control characters, objects in key
    order: what the decoder and [Map] guarantee. *)
Definition number_wf (n : number) : Prop :=
  match n with
  | PosInt n => (0 <= n <= U64_MAX)%Z
  | NegInt n => (I64_MIN <= n < 0)%Z
  | Float t => t <> EmptyString /\ Forall (fun b => 32 <= b)%Z (str_bytes t)
  end.
Fixpoint value_wf (v : value) : Prop :=
  match v with
  | VNum n => number_wf n
  | VArr l => foldr (fun v P => value_wf v /\ P) True l
  | VObj m => bt_wf m /\ foldr (fun p P => value_wf p.2 /\ P) True m
  | _ => True
  end.

(** ** Sizes *)
Definition quote_size (s : string) : Z := slen (quote s).
(** Sizes joined by one-byte separators. *)
Definition sep_sum (l : list Z) : Z := (foldr Z.add 0 l + Z.max 0 (zlen l - 1))%Z.
Definition entry_size (p : string * value) : Z := (quote_size p.1 + 1 + json_size p.2)%Z.

Lemma join_size sep l : slen sep = 1%Z -> slen (join sep l) = sep_sum (slen <$> l).
Proof.
  intros Hsep. unfold sep_sum. rewrite length_fmap.
  induction l as [| x [| y tl] IH]; [done | simpl; lia |].
  change (join sep (x :: y :: tl)) with (x +:+ sep +:+ join sep (y :: tl)).
  rewrite !slen_app, IH, Hsep. simpl. lia.
Qed.

Lemma json_size_arr l : json_size (VArr l) = (2 + sep_sum (json_size <$> l))%Z.
Proof.
  unfold json_size at 1. cbn [json_text]. rewrite !slen_app, join_size by done.
  rewrite <- list_fmap_compose. change (slen "[") with 1%Z. change (slen "]") with 1%Z.
  unfold json_size, compose. lia.
Qed.

Lemma json_size_obj m : json_size (VObj m) = (2 + sep_sum (entry_size <$> m))%Z.
Proof.
  unfold json_size at 1. cbn [json_text]. rewrite !slen_app, join_size by done.
  rewrite <- list_fmap_compose. change (slen "{") with 1%Z. change (slen "}") with 1%Z.
  enough (((slen ∘ (fun p : string * value => quote p.1 +:+ ":" +:+ json_text p.2)) <$> m)
    = (entry_size <$> m)) as -> by lia.
  apply list_fmap_ext. intros i p _. unfold compose, entry_size, quote_size, json_size.
  rewrite !slen_app. change (slen ":") with 1%Z. lia.
Qed.

Lemma sep_sum_snoc l x :
  sep_sum (l ++ [x]) = (sep_sum l + (if decide (l = []) then 0 else 1) + x)%Z.
Proof.
  unfold sep_sum. rewrite foldr_app, length_app. simpl.
  assert (forall a l, foldr Z.add a l = (foldr Z.add 0 l + a)%Z) as Hf.
  { clear. intros a l. induction l as [| y l IH]; simpl; lia. }
  rewrite (Hf (x + 0)%Z). destruct (decide (l = [])) as [-> | Hne]; simpl; [lia |].
  destruct l; [done |]. simpl. lia.
Qed.

Lemma sep_sum_perm l k : l ≡ₚ k -> sep_sum l = sep_sum k.
Proof.
  intros Hp. unfold sep_sum. rewrite (Permutation_length Hp). f_equal.
  induction Hp; simpl in *; lia.
Qed.

(** Inserting a new key adds the entry and, unless it is the first, one
    comma. *)
Lemma json_size_insert k v m :
  bt_get k m = None ->
  json_size (VObj (bt_insert k v m)) =
    (json_size (VObj m) + (if decide (m = []) then 0 else 1) + entry_size (k, v))%Z.
Proof.
  intros Hn. rewrite !json_size_obj.
  rewrite (sep_sum_perm (entry_size <$> bt_insert k v m) ((entry_size <$> m) ++ [entry_size (k, v)])).
  - rewrite sep_sum_snoc. destruct m; simpl; lia.
  - rewrite (bt_insert_perm_new k v m Hn). simpl. apply Permutation_cons_append.
Qed.

Lemma json_size_arr_snoc l v :
  json_size (VArr (l ++ [v])) =
    (json_size (VArr l) + (if decide (l = []) then 0 else 1) + json_size v)%Z.
Proof.
  rewrite !json_size_arr, fmap_app. simpl. rewrite sep_sum_snoc. destruct l; simpl; lia.
Qed.

(** ** Escaping *)
Definition escape_cost (b : Z) : Z :=
  if (b =? 34)%Z || (b =? 92)%Z || (b =? 8)%Z || (b =? 9)%Z || (b =? 10)%Z || (b =? 12)%Z || (b =? 13)%Z
  then 2 else if (b <=? 31)%Z then 6 else 1.

Lemma escape_byte_size a : slen (escape_byte a) = escape_cost (byte_of a).
Proof.
  unfold escape_byte, escape_cost.
  destruct (byte_of a =? 34)%Z; [done |]. destruct (byte_of a =? 92)%Z; [done |].
  destruct (byte_of a =? 8)%Z; [done |]. destruct (byte_of a =? 9)%Z; [done |].
  destruct (byte_of a =? 10)%Z; [done |]. destruct (byte_of a =? 12)%Z; [done |].
  destruct (byte_of a =? 13)%Z; [done |]. cbn [orb].
  destruct (Z.ltb_spec (byte_of a) 32), (Z.leb_spec (byte_of a) 31); try lia; done.
Qed.

Lemma quote_size_sum s : quote_size s = (2 + foldr (fun b n => escape_cost b + n) 0 (str_bytes s))%Z.
Proof.
  unfold quote_size, quote. rewrite slen_cons, slen_app. change (slen (String DQUOTE "")) with 1%Z.
  enough (slen (escape s) = foldr (fun b n => escape_cost b + n)%Z 0%Z (str_bytes s)) by lia.
  induction s as [| a s IH]; [done |]. cbn [escape]. rewrite slen_app, escape_byte_size, IH. done.
Qed.

Lemma escape_cost_pos b : (1 <= escape_cost b <= 6)%Z.
Proof. unfold escape_cost. repeat case_match; lia. Qed.

Lemma quote_size_bounds s : (2 + slen s <= quote_size s <= 2 + 6 * slen s)%Z.
Proof.
  rewrite quote_size_sum, slen_bytes. induction (str_bytes s) as [| b l IH]; simpl; [lia |].
  pose proof (escape_cost_pos b). lia.
Qed.
