(* ===== verification/Core.v ===== *)
(** * Stable errors and the permission model

    [crates/core/src/error.rs] and the enums, requirements and grants of
    [crates/core/src/policy.rs]. *)
From S2P Require Import Prelude Order Text.
From stdpp Require Import countable list.

Inductive CoreError : Type :=
| PermissionDenied
| InvalidDefinition
| DuplicateOperation
| CatalogLimitExceeded
| UnknownOperationReference
| InvalidArguments
| MissingArgument
| UnknownArgument
| InvalidOutput
| OutputLimit
| SelectionNotObserved.

#[export] Instance CoreError_eq_dec : EqDecision CoreError.
Proof. solve_decision. Defined.

Definition code (e : CoreError) : string :=
  match e with
  | PermissionDenied => "permission_denied"
  | InvalidDefinition => "invalid_definition"
  | DuplicateOperation => "duplicate_operation"
  | CatalogLimitExceeded => "catalog_limit_exceeded"
  | UnknownOperationReference => "unknown_operation_reference"
  | InvalidArguments => "invalid_arguments"
  | MissingArgument => "missing_argument"
  | UnknownArgument => "unknown_argument"
  | InvalidOutput => "invalid_output"
  | OutputLimit => "output_limit"
  | SelectionNotObserved => "selection_not_observed"
  end.

Inductive Category : Type :=
| System | Network | Wireless | Firewall | DhcpDns | Services
| Packages | Storage | Vpn | Firmware | Diagnostics | Extensions.

#[export] Instance Category_eq_dec : EqDecision Category.
Proof. solve_decision. Defined.

Definition category_index (c : Category) : nat :=
  match c with
  | System => 0 | Network => 1 | Wireless => 2 | Firewall => 3 | DhcpDns => 4 | Services => 5
  | Packages => 6 | Storage => 7 | Vpn => 8 | Firmware => 9 | Diagnostics => 10 | Extensions => 11
  end.
Definition all_categories : list Category :=
  [System; Network; Wireless; Firewall; DhcpDns; Services;
   Packages; Storage; Vpn; Firmware; Diagnostics; Extensions].

#[export] Instance Category_countable : Countable Category.
Proof.
  refine (inj_countable category_index (fun n => all_categories !! n) _). by intros [].
Defined.

Inductive Access : Type := Deny | ReadOnly | ReadWrite.
Inductive Permission : Type := Read | Write | Execute.

#[export] Instance Access_eq_dec : EqDecision Access.
Proof. solve_decision. Defined.
#[export] Instance Permission_eq_dec : EqDecision Permission.
Proof. solve_decision. Defined.

Record Requirement : Type := { category : Category; permission : Permission }.

#[export] Instance Requirement_eq_dec : EqDecision Requirement.
Proof. solve_decision. Defined.

Record Grant : Type := { access : Access; execute : bool }.

(** [Grant::default()] *)
Definition Grant_default : Grant := {| access := Deny; execute := false |}.

Definition permits (g : Grant) (p : Permission) : bool :=
  if decide (access g = Deny) then false
  else match p with
       | Read => true
       | Write => bool_decide (access g = ReadWrite)
       | Execute => execute g
       end.

(** ** Identifiers and shared lexical checks ([operation.rs]) *)
Definition identifier (value : string) : bool :=
  negb (is_empty value)
  && (slen value <=? 64)%Z
  && first_byte is_ascii_alphabetic value
  && all_bytes (fun byte => is_ascii_alphanumeric byte || byte_in "_" byte) value.

Definition bounded_string (value : string) (max : Z) : bool :=
  (slen value <=? max)%Z && negb (contains_nul value).

Definition ubus_identifier (value : string) : bool :=
  negb (is_empty value)
  && (slen value <=? 128)%Z
  && first_byte is_ascii_alphabetic value
  && all_bytes (fun byte => is_ascii_alphanumeric byte || byte_in "_.-" byte) value.

Definition parameter_reference (value : string) : option string :=
  inner ← Text.strip_prefix "{" value; strip_suffix_char "}" inner.

(** The tilde-escape scan of a JSON pointer. *)
Fixpoint tildes_valid (bytes : list Z) : bool :=
  match bytes with
  | [] => true
  | byte :: bytes =>
      if (byte =? 126)%Z then
        match bytes with
        | escaped :: bytes => ((escaped =? 48)%Z || (escaped =? 49)%Z) && tildes_valid bytes
        | [] => false
        end
      else tildes_valid bytes
  end.

(** [part.replace("~1", "/").replace("~0", "~")] *)
Definition unescape (part : string) : string :=
  replace2 "~" "0" "~" (replace2 "~" "1" "/" part).

(** [pointer.split('/').skip(1).map(unescape)] *)
Definition pointer_parts (pointer : string) : list string := tail (split_on "/" pointer).

Definition valid_pointer (pointer : string) : bool :=
  starts_with "/" pointer && bounded_string pointer 512 && tildes_valid (str_bytes pointer).

(** [slice.starts_with(&prefix)] *)
Fixpoint slice_starts_with (l prefix : list string) : bool :=
  match prefix, l with
  | [], _ => true
  | _ :: _, [] => false
  | p :: prefix, x :: l => String.eqb p x && slice_starts_with l prefix
  end.

(** [BTreeSet::insert] on a set that is only tested for membership: [None] when
    the element was already there. *)
Definition fresh_insert {A} `{EqDecision A} (x : A) (s : list A) : option (list A) :=
  if bool_decide (x ∈ s) then None else Some (x :: s).

(** [iter.collect::<BTreeSet<_>>().len() == len] *)
Definition all_distinct {A} `{EqDecision A} (l : list A) : bool :=
  Nat.eqb (length (remove_dups l)) (length l).

Lemma remove_dups_le {A} `{EqDecision A} (l : list A) : (length (remove_dups l) <= length l)%nat.
Proof. induction l as [| x l IH]; simpl; [done |]. case_decide; simpl; lia. Qed.

Lemma remove_dups_distinct {A} `{EqDecision A} (l : list A) :
  length (remove_dups l) = length l <-> NoDup l.
Proof.
  induction l as [| x l IH]; simpl; [by split; [intros _; constructor |] |].
  pose proof (remove_dups_le l) as Hle. split.
  - case_decide as Hx; simpl; intros Hl; [lia |]. constructor; [done |]. apply IH. lia.
  - intros [Hx Hl]%NoDup_cons. case_decide; [done |]. simpl. f_equal. by apply IH.
Qed.

Lemma all_distinct_NoDup {A} `{EqDecision A} (l : list A) : all_distinct l = true <-> NoDup l.
Proof.
  unfold all_distinct. split; intros Hd.
  - by apply remove_dups_distinct, Nat.eqb_eq.
  - by apply Nat.eqb_eq, remove_dups_distinct.
Qed.
