(* ===== verification/Budget.v ===== *)
(** * The output budget

    [crates/core/src/projection/budget.rs].  A [Budget] counts the bytes of the
    compact encoding of a result while it is built, the collection items
    scanned and emitted, and the values visited.  Every method fails closed
    with [OutputLimit]; a failed computation is abandoned by every caller, so
    the budget of an error is dropped. *)
From S2P Require Import Prelude Order Text Json Core.
Open Scope Z_scope.

Definition MAX_NORMALIZED_BYTES : Z := 65536.
Definition MAX_VALUE_DEPTH : Z := 32.
Definition MAX_VALUE_NODES : Z := 65536.
Definition MAX_COLLECTION_ITEMS : Z := 256.

Record Budget : Type := {
  used_bytes : Z;
  scanned : Z;
  emitted : Z;
  nodes : Z
}.
Definition Budget_default : Budget := {| used_bytes := 0; scanned := 0; emitted := 0; nodes := 0 |}.

(** Computations on a [&mut Budget]. *)
Definition BM (A : Type) : Type := Budget -> result CoreError (A * Budget).
Definition bret {A} (a : A) : BM A := fun b => Ok (a, b).
Definition berr {A} (e : CoreError) : BM A := fun _ => Err e.
Definition bbind {A B} (m : BM A) (f : A -> BM B) : BM B :=
  fun b => match m b with Ok (a, b') => f a b' | Err e => Err e end.
Definition blift {A} (m : result CoreError A) : BM A :=
  fun b => match m with Ok a => Ok (a, b) | Err e => Err e end.

Notation "'let*' x ':=' m 'in' k" := (bbind m (fun x => k))
  (at level 10, x pattern, m at level 100, k at level 200,
   format "'[v' 'let*'  x  ':='  m  'in' '/' k ']'") : rust_scope.

Definition set_bytes (n : Z) (b : Budget) : Budget :=
  {| used_bytes := n; scanned := scanned b; emitted := emitted b; nodes := nodes b |}.
Definition set_scanned (n : Z) (b : Budget) : Budget :=
  {| used_bytes := used_bytes b; scanned := n; emitted := emitted b; nodes := nodes b |}.
Definition set_emitted (n : Z) (b : Budget) : Budget :=
  {| used_bytes := used_bytes b; scanned := scanned b; emitted := n; nodes := nodes b |}.
Definition set_nodes (n : Z) (b : Budget) : Budget :=
  {| used_bytes := used_bytes b; scanned := scanned b; emitted := emitted b; nodes := n |}.

(** [usize::from(flag)] *)
Definition usize_from (flag : bool) : Z := if flag then 1 else 0.

Definition bytes (count : Z) : BM unit := fun b =>
  match checked_add (used_bytes b) count with
  | None => Err OutputLimit
  | Some n => if MAX_NORMALIZED_BYTES <? n then Err OutputLimit else Ok (tt, set_bytes n b)
  end.

Definition scan (count max : Z) : BM unit := fun b =>
  if max <? count then Err OutputLimit
  else match checked_add (scanned b) count with
       | None => Err OutputLimit
       | Some n => if MAX_COLLECTION_ITEMS <? n then Err OutputLimit else Ok (tt, set_scanned n b)
       end.

Definition emit : BM unit := fun b =>
  let n := emitted b + 1 in
  if MAX_COLLECTION_ITEMS <? n then Err OutputLimit else Ok (tt, set_emitted n b).

Definition node (depth : Z) : BM unit := fun b =>
  let n := nodes b + 1 in
  if (MAX_VALUE_DEPTH <? depth) || (MAX_VALUE_NODES <? n) then Err OutputLimit
  else Ok (tt, set_nodes n b).

(** The cost of one byte inside a JSON string literal. *)
Definition text_cost (byte : Z) : Z :=
  if (byte =? 34) || (byte =? 92) || (byte =? 8) || (byte =? 9) || (byte =? 10) ||
     (byte =? 12) || (byte =? 13) then 2
  else if in_range 0 31 byte then 6
  else 1.

(** The counting loop of [Budget::text]. *)
Fixpoint text_count (count : Z) (l : list Z) : result CoreError Z :=
  match l with
  | [] => Ok count
  | byte :: l =>
      let? n := ok_or (checked_add count (text_cost byte)) OutputLimit in
      fail_if (MAX_NORMALIZED_BYTES <? n) with OutputLimit in
      text_count n l
  end.

Definition text (value : string) : BM unit :=
  if MAX_NORMALIZED_BYTES <? slen value then berr OutputLimit
  else let* count := blift (text_count 2 (str_bytes value)) in
       bytes count.

Definition key (value : string) (previous : bool) : BM unit :=
  let* _ := text value in
  bytes (1 + usize_from previous).

Definition scalar (v : value) : BM unit :=
  match v with
  | VNull => bytes 4
  | VBool b => bytes (if b then 4 else 5)
  | VNum n => bytes (slen (number_text n))
  | VStr s => text s
  | VArr _ | VObj _ => berr InvalidOutput
  end.

(** [for (index, x) in l.iter().enumerate()], where the body only tests
    [index != 0]. *)
Definition for_enumerate {X} (step : bool -> X -> BM unit) : nat -> list X -> BM unit :=
  fix go index l :=
    match l with
    | [] => bret tt
    | x :: l => let* _ := step (negb (Nat.eqb index 0)) x in go (S index) l
    end.

(** The recursive [visit] of [check_normalized_result]. *)
Fixpoint visit (v : value) (depth : Z) : BM unit :=
  let* _ := node depth in
  match v with
  | VArr items =>
      let* _ := bytes 2 in
      for_enumerate (fun later item =>
        let* _ := bytes (usize_from later) in
        visit item (depth + 1)) 0%nat items
  | VObj fields =>
      let* _ := bytes 2 in
      for_enumerate (fun later p =>
        let* _ := key (fst p) later in
        visit (snd p) (depth + 1)) 0%nat fields
  | _ => scalar v
  end.

Definition check_normalized_result (v : value) : result CoreError unit :=
  let? r := visit v 0 Budget_default in Ok (fst r).

(** ** Exact accounting *)
Definition budget_ok (b : Budget) : Prop :=
  0 <= used_bytes b <= MAX_NORMALIZED_BYTES /\ 0 <= nodes b <= MAX_VALUE_NODES.

Lemma budget_ok_default : budget_ok Budget_default.
Proof. unfold budget_ok, MAX_NORMALIZED_BYTES, MAX_VALUE_NODES. simpl. lia. Qed.

Lemma bytes_eq n b :
  bytes n b = if MAX_NORMALIZED_BYTES <? used_bytes b + n then Err OutputLimit
              else Ok (tt, set_bytes (used_bytes b + n) b).
Proof.
  unfold bytes, checked_add, MAX_NORMALIZED_BYTES, U64_MAX.
  destruct (Z.leb_spec (used_bytes b + n) 18446744073709551615); [done |].
  destruct (Z.ltb_spec 65536 (used_bytes b + n)); [done | lia].
Qed.

Lemma bytes_Ok n b u b' :
  bytes n b = Ok (u, b') <->
  used_bytes b + n <= MAX_NORMALIZED_BYTES /\ b' = set_bytes (used_bytes b + n) b.
Proof.
  rewrite bytes_eq. destruct u.
  destruct (Z.ltb_spec MAX_NORMALIZED_BYTES (used_bytes b + n)); split; intuition (congruence || lia).
Qed.

Lemma text_cost_escape b : 0 <= b -> text_cost b = escape_cost b.
Proof.
  intros Hb. unfold text_cost, escape_cost, in_range.
  rewrite (proj2 (Z.leb_le 0 b)) by done. done.
Qed.

Lemma text_count_eq c l :
  Forall is_byte l -> c <= MAX_NORMALIZED_BYTES ->
  text_count c l =
    let total := c + foldr (fun b n => escape_cost b + n) 0 l in
    if MAX_NORMALIZED_BYTES <? total then Err OutputLimit else Ok total.
Proof.
  intros Hl. revert c. induction Hl as [| x l Hx Hl IH]; intros c Hc; cbn [text_count foldr].
  - rewrite Z.add_0_r. by destruct (Z.ltb_spec MAX_NORMALIZED_BYTES c); [lia |].
  - rewrite text_cost_escape by (unfold is_byte in Hx; lia).
    pose proof (escape_cost_pos x) as Hp.
    assert (0 <= foldr (fun b n => escape_cost b + n) 0 l) as Hnn.
    { clear. induction l as [| y l IH]; simpl; [lia |]. pose proof (escape_cost_pos y). lia. }
    unfold checked_add. rewrite (proj2 (Z.leb_le _ U64_MAX))
      by (unfold U64_MAX, MAX_NORMALIZED_BYTES in *; lia).
    cbn [ok_or rbind]. cbv zeta.
    destruct (Z.ltb_spec MAX_NORMALIZED_BYTES (c + escape_cost x)).
    + destruct (Z.ltb_spec MAX_NORMALIZED_BYTES
        (c + (escape_cost x + foldr (fun b n => escape_cost b + n) 0 l))); [done | lia].
    + rewrite IH by lia. cbv zeta. by rewrite Z.add_assoc.
Qed.

(** [Budget::text] charges exactly the length of the quoted, escaped literal. *)
Lemma text_eq s b : 0 <= used_bytes b -> text s b = bytes (quote_size s) b.
Proof.
  intros Hb. unfold text, berr. pose proof (quote_size_bounds s) as Hq.
  destruct (Z.ltb_spec MAX_NORMALIZED_BYTES (slen s)).
  { rewrite bytes_eq. destruct (Z.ltb_spec MAX_NORMALIZED_BYTES (used_bytes b + quote_size s)); [done | lia]. }
  unfold bbind, blift. rewrite text_count_eq;
    [| apply str_bytes_is_byte | unfold MAX_NORMALIZED_BYTES; lia].
  cbv zeta. rewrite <- quote_size_sum.
  destruct (Z.ltb_spec MAX_NORMALIZED_BYTES (quote_size s)); [| done].
  rewrite bytes_eq. destruct (Z.ltb_spec MAX_NORMALIZED_BYTES (used_bytes b + quote_size s)); [done | lia].
Qed.

Lemma bytes_bytes n m b :
  0 <= m -> (let* _ := bytes n in bytes m) b = bytes (n + m) b.
Proof.
  intros Hm. unfold bbind. rewrite !bytes_eq.
  destruct (Z.ltb_spec MAX_NORMALIZED_BYTES (used_bytes b + n)),
    (Z.ltb_spec MAX_NORMALIZED_BYTES (used_bytes b + (n + m))); try lia; [done | |];
    rewrite bytes_eq; simpl; rewrite <- Z.add_assoc.
  - destruct (Z.ltb_spec MAX_NORMALIZED_BYTES (used_bytes b + (n + m))); [done | lia].
  - destruct (Z.ltb_spec MAX_NORMALIZED_BYTES (used_bytes b + (n + m))); [lia | done].
Qed.

Lemma key_eq s previous b :
  0 <= used_bytes b -> key s previous b = bytes (quote_size s + (1 + usize_from previous)) b.
Proof.
  intros Hb. rewrite <- bytes_bytes by (destruct previous; simpl; lia).
  unfold key, bbind. by rewrite text_eq.
Qed.

(** Charging [n] bytes and [k] values at depth at most [d]. *)
Definition spend (n k : Z) (b : Budget) : Budget :=
  {| used_bytes := used_bytes b + n; scanned := scanned b; emitted := emitted b; nodes := nodes b + k |}.
Definition spend_if (d n k : Z) : BM unit := fun b =>
  if (d <=? MAX_VALUE_DEPTH) && (nodes b + k <=? MAX_VALUE_NODES)
     && (used_bytes b + n <=? MAX_NORMALIZED_BYTES)
  then Ok (tt, spend n k b) else Err OutputLimit.

(** Equality of budgeted computations on well-formed budgets, which they
    preserve. *)
Definition bm_equiv {A} (m1 m2 : BM A) : Prop :=
  forall b, budget_ok b -> m1 b = m2 b /\ forall a b', m2 b = Ok (a, b') -> budget_ok b'.
Infix "≡b" := bm_equiv (at level 70).

#[export] Instance bm_equiv_sym {A} : Symmetric (@bm_equiv A).
Proof. intros m1 m2 H b Hb. destruct (H b Hb) as [E Hp]. rewrite E in *. by split. Qed.
#[export] Instance bm_equiv_trans {A} : Transitive (@bm_equiv A).
Proof.
  intros m1 m2 m3 H1 H2 b Hb. destruct (H1 b Hb) as [E1 _], (H2 b Hb) as [E2 Hp].
  split; [congruence | done].
Qed.
#[export] Instance bbind_proper {A B} :
  Proper (bm_equiv ==> pointwise_relation A bm_equiv ==> bm_equiv) (@bbind A B).
Proof.
  intros m1 m2 Hm f1 f2 Hf b Hb. destruct (Hm b Hb) as [E Hp]. unfold bbind. rewrite E.
  destruct (m2 b) as [[a b'] | e]; [apply Hf, (Hp a b' eq_refl) | done].
Qed.

Lemma spend_if_refl d n k : 0 <= n -> 0 <= k -> spend_if d n k ≡b spend_if d n k.
Proof.
  intros Hn Hk b [Hb1 Hb2]. split; [done |]. unfold spend_if. intros a b'.
  destruct (_ && _)%bool eqn:E; [| done]. intros [= <- <-]. bool_prop.
  unfold budget_ok. simpl. lia.
Qed.

Lemma spend_if_seq d n k d' n' k' :
  0 <= n -> 0 <= k -> 0 <= n' -> 0 <= k' ->
  (let* _ := spend_if d n k in spend_if d' n' k') ≡b spend_if (Z.max d d') (n + n') (k + k').
Proof.
  intros ? ? ? ? b Hb. split; [| intros a b' He; eapply spend_if_refl; [| | done | exact He]; lia].
  unfold bbind, spend_if. simpl.
  destruct (Z.leb_spec d MAX_VALUE_DEPTH), (Z.leb_spec d' MAX_VALUE_DEPTH),
    (Z.leb_spec (Z.max d d') MAX_VALUE_DEPTH),
    (Z.leb_spec (nodes b + k) MAX_VALUE_NODES), (Z.leb_spec (nodes b + (k + k')) MAX_VALUE_NODES),
    (Z.leb_spec (used_bytes b + n) MAX_NORMALIZED_BYTES),
    (Z.leb_spec (used_bytes b + (n + n')) MAX_NORMALIZED_BYTES); simpl; try lia; try done;
    destruct (Z.leb_spec (nodes b + k + k') MAX_VALUE_NODES),
      (Z.leb_spec (used_bytes b + n + n') MAX_NORMALIZED_BYTES); simpl; try lia; try done;
    unfold spend; simpl; do 3 f_equal; lia.
Qed.

Lemma node_spend depth : node depth ≡b spend_if depth 0 1.
Proof.
  intros b Hb. split; [| by apply spend_if_refl].
  destruct Hb as [Hb1 Hb2]. unfold node, spend_if. cbv zeta.
  destruct (Z.ltb_spec MAX_VALUE_DEPTH depth), (Z.leb_spec depth MAX_VALUE_DEPTH); try lia; [done |].
  destruct (Z.ltb_spec MAX_VALUE_NODES (nodes b + 1)),
    (Z.leb_spec (nodes b + 1) MAX_VALUE_NODES); try lia; [done |].
  destruct (Z.leb_spec (used_bytes b + 0) MAX_NORMALIZED_BYTES); [| lia]. simpl.
  unfold spend, set_nodes. do 3 f_equal. lia.
Qed.

Lemma bytes_spend n : 0 <= n -> bytes n ≡b spend_if 0 n 0.
Proof.
  intros Hn b Hb. split; [| by apply spend_if_refl].
  destruct Hb as [Hb1 Hb2]. rewrite bytes_eq. unfold spend_if.
  destruct (Z.leb_spec (nodes b + 0) MAX_VALUE_NODES); [| lia].
  destruct (Z.ltb_spec MAX_NORMALIZED_BYTES (used_bytes b + n)),
    (Z.leb_spec (used_bytes b + n) MAX_NORMALIZED_BYTES); try lia; [done |]. simpl.
  unfold spend, set_bytes. do 3 f_equal. lia.
Qed.

Lemma text_spend s : text s ≡b spend_if 0 (quote_size s) 0.
Proof.
  intros b Hb. pose proof (quote_size_bounds s). pose proof (slen_nonneg s).
  rewrite text_eq by apply Hb. apply bytes_spend; [lia | done].
Qed.

Lemma key_spend s previous : key s previous ≡b spend_if 0 (quote_size s + (1 + usize_from previous)) 0.
Proof.
  intros b Hb. pose proof (quote_size_bounds s). pose proof (slen_nonneg s).
  rewrite key_eq by apply Hb. apply bytes_spend; [destruct previous; simpl; lia | done].
Qed.

Lemma json_size_pos v : 0 <= json_size v.
Proof. apply slen_nonneg. Qed.

Lemma json_depth_nonneg v : 0 <= json_depth v.
Proof. destruct v as [| | | | l | m]; simpl; try lia; [induction l | induction m]; simpl; lia. Qed.

Lemma json_nodes_pos v : 1 <= json_nodes v.
Proof.
  induction v as [| | | | l IH | m IH] using value_nested_ind; simpl; try lia;
    induction IH; simpl in *; lia.
Qed.

Lemma scalar_spend v :
  is_array v = false -> is_object v = false -> scalar v ≡b spend_if 0 (json_size v) 0.
Proof.
  destruct v as [| [] | n | s | l | m]; try done; intros _ _; simpl.
  - by apply bytes_spend.
  - by apply bytes_spend.
  - by apply bytes_spend.
  - apply bytes_spend, slen_nonneg.
  - apply text_spend.
Qed.

(** The shared shape of the two loops: each element costs a separator (but for
    the first) and its own charge. *)
Section loop.
Context {X : Type} (step : bool -> X -> BM unit) (d n k : X -> Z).
Hypothesis n_pos : forall x, 0 <= n x.
Hypothesis k_pos : forall x, 0 <= k x.

Definition tail_sum (l : list X) : Z := foldr (fun x s => 1 + n x + s) 0 l.

Lemma tail_sum_pos l : 0 <= tail_sum l.
Proof. induction l as [| x l IH]; simpl; [lia |]. specialize (n_pos x). lia. Qed.

Lemma for_enumerate_spend base index l :
  base <= MAX_VALUE_DEPTH ->
  Forall (fun x => forall sep, step sep x ≡b spend_if (d x) (usize_from sep + n x) (k x)) l ->
  for_enumerate step index l ≡b
    spend_if (foldr (fun x m => Z.max (d x) m) base l)
      (match index with O => Z.max 0 (tail_sum l - 1) | _ => tail_sum l end)
      (foldr (fun x s => k x + s) 0 l).
Proof.
  intros Hbase Hstep. revert index. induction Hstep as [| x l Hx Hl IH]; intros index.
  - cbn [for_enumerate foldr tail_sum]. intros b Hb. split.
    + unfold bret, spend_if. destruct Hb.
      rewrite (proj2 (Z.leb_le base _)) by done.
      rewrite (proj2 (Z.leb_le (nodes b + 0) _)) by lia.
      replace (match index with O => Z.max 0 (0 - 1) | _ => 0 end) with 0 by by destruct index.
      rewrite (proj2 (Z.leb_le (used_bytes b + 0) _)) by lia. simpl.
      unfold spend. rewrite !Z.add_0_r. by destruct b.
    + apply spend_if_refl; [by destruct index | done | done].
  - assert (0 <= foldr (fun x s => k x + s) 0 l) as Hk.
    { clear -k_pos. induction l as [| y l IH]; simpl; [lia |]. specialize (k_pos y). lia. }
    pose proof (n_pos x). pose proof (k_pos x). pose proof (tail_sum_pos l).
    cbn [for_enumerate]. etransitivity; [apply bbind_proper; [apply Hx | intros ?; apply (IH (S index))] |].
    etransitivity; [apply spend_if_seq; try done; destruct index; simpl; lia |].
    cbn [foldr tail_sum].
    match goal with |- spend_if _ ?u _ ≡b spend_if _ ?w _ => replace w with u end;
      [apply spend_if_refl; [destruct index; simpl; lia | lia] |].
    unfold tail_sum. cbn [foldr]. fold (tail_sum l). destruct index; simpl; lia.
Qed.
End loop.

Lemma sum_tail {X} (f : X -> Z) l : foldr Z.add 0 (f <$> l) + zlen l = tail_sum f l.
Proof.
  unfold tail_sum. induction l as [| x l IH]; [done |].
  rewrite fmap_cons. cbn [foldr length]. rewrite Nat2Z.inj_succ. lia.
Qed.

Lemma sep_sum_tail {X} (f : X -> Z) l :
  (forall x, 0 <= f x) -> sep_sum (f <$> l) = Z.max 0 (tail_sum f l - 1).
Proof.
  intros Hf. pose proof (sum_tail f l) as Hs. unfold sep_sum. rewrite length_fmap.
  destruct l as [| x l]; [done |]. assert (0 <= foldr Z.add 0 (f <$> x :: l)).
  { clear Hs. induction (x :: l) as [| y k IH]; [done |]. rewrite fmap_cons. cbn [foldr].
    specialize (Hf y). lia. }
  cbn [length] in *. lia.
Qed.

Lemma foldr_max_shift {X} (f : X -> Z) (c : Z) l :
  foldr (fun x m => Z.max (c + 1 + f x) m) c l = c + foldr (fun x m => Z.max (1 + f x) m) 0 l.
Proof. induction l as [| x l IH]; cbn [foldr]; lia. Qed.

Lemma spend_if_cast d n k d' n' k' :
  0 <= n -> 0 <= k -> d = d' -> n = n' -> k = k' -> spend_if d n k ≡b spend_if d' n' k'.
Proof. intros ? ? -> -> ->. by apply spend_if_refl. Qed.

Lemma sum_nonneg {X} (f : X -> Z) l : (forall x, 0 <= f x) -> 0 <= foldr (fun x s => f x + s) 0 l.
Proof. intros Hf. induction l as [| x l IH]; cbn [foldr]; [lia |]. specialize (Hf x). lia. Qed.

Lemma sep_sum_nonneg {X} (f : X -> Z) l : (forall x, 0 <= f x) -> 0 <= sep_sum (f <$> l).
Proof. intros Hf. rewrite sep_sum_tail by done. lia. Qed.

Lemma foldr_max_cond {X} (f : X -> Z) d l :
  0 <= d -> (forall x, 0 <= f x) ->
  foldr (fun x m => Z.max (f x) m) d l = Z.max d (foldr (fun x m => Z.max (f x) m) 0 l).
Proof. intros Hd Hf. induction l as [| x l IH]; cbn [foldr]; lia. Qed.

(** Both containers: the value itself, its two brackets, then the elements. *)
Lemma container_spend {X} (step : bool -> X -> BM unit) (size cnt dep : X -> Z) depth l :
  (forall x, 0 <= size x) -> (forall x, 0 <= cnt x) -> (forall x, 0 <= dep x) -> 0 <= depth ->
  Forall (fun x => forall sep,
    step sep x ≡b spend_if (depth + (1 + dep x)) (usize_from sep + size x) (cnt x)) l ->
  (let* _ := node depth in let* _ := bytes 2 in for_enumerate step 0%nat l) ≡b
    spend_if (depth + foldr (fun x m => Z.max (1 + dep x) m) 0 l) (2 + sep_sum (size <$> l))
      (1 + foldr (fun x s => cnt x + s) 0 l).
Proof.
  intros Hs Hc Hd Hdepth Hl.
  pose proof (sum_nonneg cnt l Hc). pose proof (sep_sum_nonneg size l Hs).
  assert (0 <= foldr (fun x m => Z.max (1 + dep x) m) 0 l) as Hm.
  { clear. induction l; cbn [foldr]; lia. }
  etransitivity; [apply bbind_proper; [apply node_spend | intros ?; apply bbind_proper;
    [by apply bytes_spend | intros ?; apply for_enumerate_spend with (base := 0)
       (d := fun x => depth + (1 + dep x)) (n := size) (k := cnt); done]] |].
  rewrite <- sep_sum_tail by done.
  etransitivity; [apply bbind_proper; [apply spend_if_refl; lia | intros ?; apply spend_if_seq; lia] |].
  etransitivity; [apply spend_if_seq; lia |].
  apply spend_if_cast; try lia.
  enough (Z.max depth (foldr (fun x m => Z.max (depth + (1 + dep x)) m) 0 l)
    = depth + foldr (fun x m => Z.max (1 + dep x) m) 0 l) by lia.
  clear -Hd Hdepth. induction l as [| x l IH]; cbn [foldr]; [lia |]. specialize (Hd x). lia.
Qed.

(** [visit] charges the exact encoding size and counts every value. *)
Lemma visit_spend v depth :
  0 <= depth -> visit v depth ≡b spend_if (depth + json_depth v) (json_size v) (json_nodes v).
Proof.
  revert depth. induction v as [| b | n | s | l IH | m IH] using value_nested_ind; intros depth Hd.
  1-4: cbn [json_depth json_nodes];
    etransitivity; [apply bbind_proper; [apply node_spend | intros ?; by apply scalar_spend] |];
    (etransitivity; [apply spend_if_seq; try lia; apply json_size_pos |]);
    apply spend_if_cast; try lia; apply json_size_pos.
  - cbn [visit]. rewrite json_size_arr. cbn [json_depth json_nodes].
    apply container_spend; [apply json_size_pos | | apply json_depth_nonneg | done |].
    { intros v. pose proof (json_nodes_pos v). lia. }
    eapply Forall_impl; [exact IH |]. intros v Hv sep.
    pose proof (json_size_pos v). pose proof (json_nodes_pos v). pose proof (json_depth_nonneg v).
    etransitivity; [apply bbind_proper; [apply bytes_spend; by destruct sep | intros ?; apply Hv; lia] |].
    etransitivity; [apply spend_if_seq; first [lia | by destruct sep] |].
    apply spend_if_cast; try lia. destruct sep; simpl; lia.
  - cbn [visit]. rewrite json_size_obj. cbn [json_depth json_nodes].
    assert (forall p, 0 <= entry_size p) as Hes.
    { intros [s v]. unfold entry_size. pose proof (json_size_pos v).
      pose proof (quote_size_bounds s). pose proof (slen_nonneg s). simpl. lia. }
    apply container_spend; [done | | intros ?; apply json_depth_nonneg | done |].
    { intros p. pose proof (json_nodes_pos p.2). lia. }
    eapply Forall_impl; [exact IH |]. intros [s v] Hv sep. simpl in Hv |- *.
    pose proof (json_size_pos v). pose proof (json_nodes_pos v). pose proof (json_depth_nonneg v).
    pose proof (quote_size_bounds s). pose proof (slen_nonneg s).
    etransitivity; [apply bbind_proper; [apply key_spend | intros ?; apply Hv; lia] |].
    etransitivity; [apply spend_if_seq; first [lia | destruct sep; simpl; lia] |].
    apply spend_if_cast; try lia; [destruct sep; simpl; lia |].
    unfold entry_size. simpl. lia.
Qed.

(** What the check accepts, as a predicate on the value alone. *)
Definition normalized (v : value) : bool :=
  (json_depth v <=? MAX_VALUE_DEPTH) && (json_nodes v <=? MAX_VALUE_NODES)
  && (json_size v <=? MAX_NORMALIZED_BYTES).

Lemma check_normalized_eq v :
  check_normalized_result v = if normalized v then Ok tt else Err OutputLimit.
Proof.
  unfold check_normalized_result.
  destruct (visit_spend v 0 ltac:(lia) Budget_default budget_ok_default) as [-> _].
  unfold spend_if, normalized. rewrite Z.add_0_l. simpl. by destruct (_ && _)%bool.
Qed.

(** ** Values with few nodes for their size *)
(** Few values for its size, and shallow. *)
Definition compact (d : Z) (v : value) : Prop := json_nodes v <= json_size v /\ json_depth v <= d.

Lemma quote_size_nonneg s : 0 <= quote_size s.
Proof. pose proof (quote_size_bounds s). pose proof (slen_nonneg s). lia. Qed.

Lemma compact_mono d d' v : d <= d' -> compact d v -> compact d' v.
Proof. unfold compact. lia. Qed.

Lemma text_is_compact t : compact 0 (VStr t).
Proof. unfold compact. cbn [json_nodes json_depth]. pose proof (quote_size_nonneg t). pose proof (quote_size_bounds t).
  pose proof (slen_nonneg t). change (json_size (VStr t)) with (quote_size t). lia. Qed.

Lemma number_is_compact n : number_text n <> EmptyString -> compact 0 (VNum n).
Proof.
  intros Hn. unfold compact, json_size. cbn [json_nodes json_depth json_text].
  destruct (number_text n); [done |]. rewrite slen_cons. pose proof (slen_nonneg s). lia.
Qed.

Lemma bool_is_compact b : compact 0 (VBool b).
Proof. by destruct b. Qed.

Lemma array_compact d vs : 0 <= d -> Forall (compact d) vs -> compact (d + 1) (VArr vs).
Proof.
  intros Hd Hvs. unfold compact. rewrite json_size_arr. unfold sep_sum. cbn [json_nodes json_depth].
  assert (foldr (fun v s => json_nodes v + s) 0 vs <= foldr Z.add 0 (json_size <$> vs)
    /\ foldr (fun v m => Z.max (1 + json_depth v) m) 0 vs <= d + 1) as [? ?]; [| lia].
  induction Hvs as [| v vs [H1 H2] Hvs IH]; cbn [foldr]; [simpl; lia |]. rewrite fmap_cons. cbn [foldr]. lia.
Qed.

Lemma object_compact d m :
  0 <= d -> Forall (fun e : string * value => compact d (snd e)) m -> compact (d + 1) (VObj m).
Proof.
  intros Hd Hm. unfold compact. rewrite json_size_obj. unfold sep_sum. cbn [json_nodes json_depth].
  assert (foldr (fun p s => json_nodes p.2 + s) 0 m <= foldr Z.add 0 (entry_size <$> m)
    /\ foldr (fun p n => Z.max (1 + json_depth p.2) n) 0 m <= d + 1) as [? ?]; [| lia].
  induction Hm as [| [k v] m [H1 H2] Hm IH]; cbn [foldr]; [simpl; lia |]. rewrite fmap_cons. cbn [foldr].
  unfold entry_size at 1. cbn [fst snd] in *. pose proof (quote_size_nonneg k). lia.
Qed.

(** A compact value of small depth passes the normalized-result check whenever
    its encoding fits. *)
Lemma compact_normalized d v :
  d <= MAX_VALUE_DEPTH -> compact d v -> json_size v <= MAX_NORMALIZED_BYTES -> normalized v = true.
Proof.
  intros Hd [H1 H2] Hs. unfold normalized.
  rewrite (proj2 (Z.leb_le (json_depth v) _)) by lia.
  rewrite (proj2 (Z.leb_le (json_nodes v) _)) by (unfold MAX_NORMALIZED_BYTES, MAX_VALUE_NODES in *; lia).
  by rewrite (proj2 (Z.leb_le (json_size v) _)).
Qed.

