(* ===== verification/Packages.v ===== *)
(** * Package observations and their pages

    [crates/core/src/packages.rs]: a complete, validated and sorted inventory of
    one package source, served in pages of sixteen records through an opaque
    cursor. *)
From S2P Require Import Prelude Order Text Json Core Budget.
Open Scope Z_scope.

Definition MAX_PACKAGE_SOURCE_BYTES : Z := 4 * 1024 * 1024.
Definition MAX_PACKAGE_RECORDS : Z := 4096.
Definition MAX_PACKAGE_RETAINED_BYTES : Z := 2 * 1024 * 1024.
Definition PACKAGE_PAGE_RECORDS : Z := 16.
Definition PACKAGE_RESPONSE_CONTRACT : string := "packages_apk_installed.v1".
Definition OPKG_RESPONSE_CONTRACT : string := "packages_opkg_status.v1".
Definition MAX_OPKG_STATUS_BYTES : Z := 128.

Inductive PackageProfile : Type := Apk3_0_5 | Opkg38eccbb1RootStatus.
#[export] Instance PackageProfile_eq_dec : EqDecision PackageProfile.
Proof. solve_decision. Defined.

Record PackageRecord : Type := { pr_name : string; pr_version : string; pr_arch : string; pr_layer : Z }.
Record OpkgStatusRecord : Type := { os_name : string; os_version : string; os_arch : string; os_status : string }.

Inductive Records : Type :=
| Apk (rows : list PackageRecord)
| Opkg (rows : list OpkgStatusRecord).

(** [PackageObservation], whose only field is private. *)
Record PackageObservation : Type := { records : Records }.

(** The loop over one record's texts and their maxima. *)
Fixpoint retain (retained : Z) (texts : list (string * Z)) : result CoreError Z :=
  match texts with
  | [] => Ok retained
  | (text, maximum) :: texts =>
      fail_if is_empty text || (maximum <? slen text) || has_control text with InvalidOutput in
      let? retained := ok_or (checked_add retained (slen text)) OutputLimit in
      fail_if MAX_PACKAGE_RETAINED_BYTES <? retained with OutputLimit in
      retain retained texts
  end.

Fixpoint retain_apk (retained : Z) (rows : list PackageRecord) : result CoreError unit :=
  match rows with
  | [] => Ok tt
  | row :: rows =>
      let? retained := retain retained [(pr_name row, 256); (pr_version row, 256); (pr_arch row, 64)] in
      fail_if 1 <? pr_layer row with InvalidOutput in
      retain_apk retained rows
  end.

Fixpoint retain_opkg (retained : Z) (rows : list OpkgStatusRecord) : result CoreError unit :=
  match rows with
  | [] => Ok tt
  | row :: rows =>
      let? retained := retain retained
        [(os_name row, 256); (os_version row, 256); (os_arch row, 64); (os_status row, MAX_OPKG_STATUS_BYTES)] in
      retain_opkg retained rows
  end.

Definition apk_key (row : PackageRecord) : Z * string := (pr_layer row, pr_name row).

Definition new_apk (rows : list PackageRecord) : result CoreError PackageObservation :=
  fail_if MAX_PACKAGE_RECORDS <? zlen rows with OutputLimit in
  let? _ := retain_apk 0 rows in
  let rows := sort_by apk_key rows in
  fail_if windows2_any (fun x y => (pr_layer x =? pr_layer y) && String.eqb (pr_name x) (pr_name y)) rows
    with InvalidOutput in
  Ok {| records := Apk rows |}.

Definition new_opkg_status (rows : list OpkgStatusRecord) : result CoreError PackageObservation :=
  fail_if MAX_PACKAGE_RECORDS <? zlen rows with OutputLimit in
  let? _ := retain_opkg 0 rows in
  let rows := sort_by os_name rows in
  fail_if windows2_any (fun x y => String.eqb (os_name x) (os_name y)) rows with InvalidOutput in
  Ok {| records := Opkg rows |}.

Definition profile (o : PackageObservation) : PackageProfile :=
  match records o with Apk _ => Apk3_0_5 | Opkg _ => Opkg38eccbb1RootStatus end.

(** ** Cursors *)
Record PackageCursor : Type := { nonce_of : list Z; offset_of : Z }.

Definition zero_nonce : list Z := replicate 16 0.

(** [n.is_multiple_of(16)] *)
Definition is_multiple_of (n m : Z) : bool := n mod m =? 0.

Definition cursor_parse (value : string) : result CoreError PackageCursor :=
  fail_if 37 <? slen value with InvalidArguments in
  let? parts := ok_or (split_once "." value) InvalidArguments in
  let '(hex, offset) := parts in
  fail_if negb (slen hex =? 32) || negb (all_bytes is_lower_hex hex) with InvalidArguments in
  let? nonce := ok_or (hex_parse hex) InvalidArguments in
  let? number := ok_or (parse_unsigned U64_MAX offset) InvalidArguments in
  fail_if bool_decide (nonce = zero_nonce) || (number =? 0) || (MAX_PACKAGE_RECORDS <=? number)
       || negb (is_multiple_of number PACKAGE_PAGE_RECORDS) || negb (String.eqb (dec number) offset)
    with InvalidArguments in
  Ok {| nonce_of := nonce; offset_of := number |}.

Definition cursor_encode (nonce : list Z) (offset : Z) : string :=
  hex_text nonce +:+ String "." (dec offset).

(** ** Pages *)

(** A serialized record: [serde_json] objects are ordered maps. *)
Definition apk_json (row : PackageRecord) : value :=
  VObj (bt_of_list [("name", VStr (pr_name row)); ("version", VStr (pr_version row));
                    ("arch", VStr (pr_arch row)); ("layer", VNum (PosInt (pr_layer row)))]).
Definition opkg_json (row : OpkgStatusRecord) : value :=
  VObj (bt_of_list [("name", VStr (os_name row)); ("version", VStr (os_version row));
                    ("arch", VStr (os_arch row)); ("status", VStr (os_status row))]).

Definition record_values (o : PackageObservation) : list value :=
  match records o with Apk rows => apk_json <$> rows | Opkg rows => opkg_json <$> rows end.

(** [&rows[start..stop]] *)
Definition slice {A} (start stop : Z) (l : list A) : list A :=
  take (Z.to_nat (stop - start)) (drop (Z.to_nat start) l).

Definition page (o : PackageObservation) (nonce : list Z) (offset : Z) : result CoreError value :=
  let count := match records o with Apk rows => zlen rows | Opkg rows => zlen rows end in
  fail_if bool_decide (nonce = zero_nonce) || negb (is_multiple_of offset PACKAGE_PAGE_RECORDS)
       || (negb (offset =? 0) && (count <=? offset)) with InvalidArguments in
  let stop := Z.min (Z.min (offset + PACKAGE_PAGE_RECORDS) U64_MAX) count in
  let '(source, scope, items) :=
    match records o with
    | Apk rows => ("apk_3_0_5", "apk_query_installed_visible", VArr (apk_json <$> slice offset stop rows))
    | Opkg rows => ("opkg_38eccbb1", "opkg_root_status_file", VArr (opkg_json <$> slice offset stop rows))
    end in
  let out := bt_of_list
    [("source", VStr source); ("scope", VStr scope);
     ("consistency", VStr "non_atomic_observation"); ("whole_device_complete", VBool false);
     ("captured_count", VNum (PosInt count)); ("offset", VNum (PosInt offset))] in
  let out := bt_insert "items" items out in
  let out := if stop <? count then bt_insert "next_cursor" (VStr (cursor_encode nonce stop)) out else out in
  let? _ := check_normalized_result (VObj out) in
  Ok (VObj out).

(** ** Specification *)

(** The fields of a served page that a client follows. *)
Definition page_items (v : value) : list value :=
  match (m ← as_object v; items ← bt_get "items" m; as_array items) with Some l => l | None => [] end.
Definition page_next (v : value) : option string :=
  m ← as_object v; cursor ← bt_get "next_cursor" m; as_str cursor.

(** A client that follows the cursors from the first page to the last. *)
Fixpoint follow (fuel : nat) (o : PackageObservation) (nonce : list Z) (offset : Z) :
    result CoreError (list value) :=
  match fuel with
  | O => Err OutputLimit
  | S fuel =>
      let? v := page o nonce offset in
      match page_next v with
      | None => Ok (page_items v)
      | Some cursor =>
          let? c := cursor_parse cursor in
          let? rest := follow fuel o (nonce_of c) (offset_of c) in
          Ok (page_items v ++ rest)
      end
  end.

(** ** Cursors round-trip and are canonical *)
Lemma split_once_hex h d : all_bytes is_lower_hex h = true -> split_once "." (h +:+ String "." d) = Some (h, d).
Proof.
  unfold all_bytes. induction h as [| a h IH]; [done |]. rewrite str_bytes_cons. cbn [forallb]. intros Hb. bool_prop.
  rewrite string_app_cons. cbn [split_once]. rewrite IH by done.
  destruct (Ascii.eqb_spec a "."%char) as [-> | Hne]; [| done].
  match goal with H : is_lower_hex _ = true |- _ => discriminate H end.
Qed.

Lemma split_once_eq c s l r : split_once c s = Some (l, r) -> s = l +:+ String c r.
Proof.
  revert l. induction s as [| a s IH]; intros l Hs; [done |]. cbn [split_once] in Hs.
  destruct (Ascii.eqb_spec a c) as [-> | Hne]; [by injection Hs as <- <- |].
  destruct (split_once c s) as [[l' r'] |] eqn:E; simpl in Hs; [| done]. injection Hs as <- <-.
  by rewrite (IH l' eq_refl).
Qed.

Lemma hex_nibble_lower d : 0 <= d < 16 -> is_lower_hex (byte_of (hex_nibble d)) = true.
Proof.
  intros Hd. unfold hex_nibble, is_lower_hex, is_ascii_digit, in_range.
  destruct (Z.ltb_spec d 10); rewrite byte_of_ascii_of by (unfold is_byte; lia).
  - rewrite (proj2 (Z.leb_le 48 _)), (proj2 (Z.leb_le _ 57)) by lia. done.
  - rewrite (proj2 (Z.leb_le 97 _)), (proj2 (Z.leb_le _ 102)) by lia. by rewrite orb_true_r.
Qed.

Lemma hex_text_lower l : Forall is_byte l -> all_bytes is_lower_hex (hex_text l) = true.
Proof.
  unfold all_bytes. induction 1 as [| b l Hb Hl IH]; [done |]. unfold is_byte in Hb.
  cbn [hex_text]. unfold hex_byte. rewrite !string_app_cons, !str_bytes_cons. cbn [forallb].
  pose proof (Z.mod_pos_bound b 16 ltac:(lia)).
  pose proof (Z.div_pos b 16 ltac:(lia) ltac:(lia)). assert (b / 16 < 16) by (apply Z.div_lt_upper_bound; lia).
  rewrite !hex_nibble_lower by lia. exact IH.
Qed.

Lemma is_empty_false s : s <> EmptyString -> is_empty s = false.
Proof. by destruct s. Qed.

Lemma dec_first_digit n : 0 <= n <= U64_MAX ->
  match dec n with String a _ => is_ascii_digit (byte_of a) = true | EmptyString => False end.
Proof.
  intros Hn. pose proof (parse_dec n Hn) as Hp. pose proof (dec_not_nil n) as Hne.
  destruct (dec n) as [| a s]; [done |]. cbn [parse_digits] in Hp.
  by destruct (is_ascii_digit (byte_of a)).
Qed.

Lemma parse_unsigned_dec max n : 0 <= n <= max -> max <= U64_MAX -> parse_unsigned max (dec n) = Some n.
Proof.
  intros Hn Hm. pose proof (dec_first_digit n ltac:(lia)) as Hd. pose proof (parse_dec n ltac:(lia)) as Hp.
  unfold parse_unsigned. destruct (dec n) as [| a s] eqn:E; [done |].
  assert (match String a s with String "+" tl => tl | _ => String a s end = String a s) as ->.
  { destruct a as [[] [] [] [] [] [] [] []]; try done; discriminate Hd. }
  cbn [is_empty]. rewrite Hp. simpl. by rewrite (proj2 (Z.leb_le n max)) by lia.
Qed.

Lemma dec_short n : 0 <= n < 4096 -> slen (dec n) <= 4.
Proof.
  intros Hn. assert (dec n = dec_go 4 n EmptyString) as ->.
  { unfold dec. apply dec_go_fuel; lia. }
  assert (forall k m acc, slen (dec_go k m acc) <= Z.of_nat k + slen acc) as Hk.
  { clear. induction k as [| k IH]; intros m acc; [simpl; lia |]. cbn [dec_go]. cbv zeta.
    destruct (m / 10 =? 0); [rewrite slen_cons; lia |]. specialize (IH (m / 10) (String (digit_char (m mod 10)) acc)).
    rewrite slen_cons in IH. lia. }
  specialize (Hk 4%nat n EmptyString). exact Hk.
Qed.

Lemma cursor_parse_encode_eq nc n :
  length nc = 16%nat -> Forall is_byte nc -> nc <> zero_nonce -> 0 < n < MAX_PACKAGE_RECORDS ->
  n mod PACKAGE_PAGE_RECORDS = 0 ->
  cursor_parse (cursor_encode nc n) = Ok {| nonce_of := nc; offset_of := n |}.
Proof.
  intros Hl Hb Hz Hn Hm. unfold cursor_parse, cursor_encode. unfold MAX_PACKAGE_RECORDS in Hn.
  assert (slen (hex_text nc) = 32) as Hh by (rewrite hex_text_length, Hl; reflexivity).
  pose proof (dec_short n ltac:(lia)) as Hd.
  rewrite slen_app, slen_cons, Hh. destruct (Z.ltb_spec 37 (32 + (1 + slen (dec n)))); [lia |].
  rewrite split_once_hex by by apply hex_text_lower. cbn [ok_or rbind].
  rewrite Hh, hex_text_lower, hex_parse_text by done. simpl negb. cbn [orb ok_or rbind Z.eqb].
  rewrite parse_unsigned_dec by (unfold U64_MAX; lia). cbn [ok_or rbind].
  rewrite bool_decide_eq_false_2 by done. unfold is_multiple_of. rewrite Hm.
  destruct (Z.eqb_spec n 0); [lia |]. unfold MAX_PACKAGE_RECORDS. destruct (Z.leb_spec 4096 n); [lia |].
  by rewrite String.eqb_refl.
Qed.

Lemma cursor_parse_inv s c :
  cursor_parse s = Ok c ->
  cursor_encode (nonce_of c) (offset_of c) = s /\ length (nonce_of c) = 16%nat /\ Forall is_byte (nonce_of c)
  /\ nonce_of c <> zero_nonce /\ 0 < offset_of c < MAX_PACKAGE_RECORDS
  /\ offset_of c mod PACKAGE_PAGE_RECORDS = 0.
Proof.
  unfold cursor_parse. intros Hp. apply fail_if_ok in Hp as [_ Hp].
  apply rbind_ok in Hp as ([hex off] & Hs & Hp). apply ok_or_ok in Hs. apply split_once_eq in Hs as ->.
  apply fail_if_ok in Hp as [Hh Hp]. bool_prop.
  apply rbind_ok in Hp as (nc & Hn & Hp). apply ok_or_ok in Hn.
  apply rbind_ok in Hp as (n & Hn2 & Hp). apply ok_or_ok in Hn2.
  apply fail_if_ok in Hp as [Hc Hp]. injection Hp as <-. bool_prop. cbn [nonce_of offset_of].
  apply hex_text_parse in Hn as [Ht Hb]; [| done].
  assert (0 <= n).
  { unfold parse_unsigned in Hn2. destruct (is_empty _); [done |].
    destruct (parse_digits 0 _) as [m |] eqn:Ed; simpl in Hn2; [| done].
    apply parse_digits_ge in Ed; [| lia]. destruct (m <=? U64_MAX); [| done]. by injection Hn2 as <-. }
  unfold cursor_encode. rewrite Ht.
  match goal with H : dec n = off |- _ => rewrite H end.
  split; [done |]. split.
  { pose proof (hex_text_length nc) as Hlen. rewrite Ht in Hlen. lia. }
  split; [done |]. split; [done |]. split; [lia |].
  unfold is_multiple_of in *. bool_prop. done.
Qed.

(** ** What validation accepts *)
Definition text_valid (t : string * Z) : bool :=
  negb (is_empty t.1) && (slen t.1 <=? t.2) && negb (has_control t.1).
Definition texts_size (ts : list (string * Z)) : Z := foldr (fun t n => slen t.1 + n) 0 ts.
Definition apk_texts (row : PackageRecord) : list (string * Z) :=
  [(pr_name row, 256); (pr_version row, 256); (pr_arch row, 64)].
Definition opkg_texts (row : OpkgStatusRecord) : list (string * Z) :=
  [(os_name row, 256); (os_version row, 256); (os_arch row, 64); (os_status row, MAX_OPKG_STATUS_BYTES)].

Lemma texts_size_nonneg ts : 0 <= texts_size ts.
Proof. unfold texts_size. induction ts as [| t ts IH]; simpl; [lia |]. pose proof (slen_nonneg t.1). lia. Qed.

Lemma retain_ok r ts r' :
  0 <= r <= MAX_PACKAGE_RETAINED_BYTES ->
  retain r ts = Ok r' <->
  forallb text_valid ts = true /\ r' = r + texts_size ts /\ r' <= MAX_PACKAGE_RETAINED_BYTES.
Proof.
  revert r. induction ts as [| [t m] ts IH]; intros r Hr; cbn [retain forallb texts_size foldr fst].
  - rewrite Z.add_0_r. split; [intros [= <-]; lia | intros (_ & -> & _); done].
  - fold (texts_size ts). pose proof (slen_nonneg t). pose proof (texts_size_nonneg ts).
    unfold text_valid at 1. cbn [fst snd].
    destruct (is_empty t); simpl; [split; [done | by intros (? & _)] |].
    destruct (Z.ltb_spec m (slen t)), (Z.leb_spec (slen t) m); try lia; simpl; [split; [done | by intros (? & _)] |].
    destruct (has_control t); simpl; [split; [done | by intros (? & _)] |].
    unfold checked_add. destruct (Z.leb_spec (r + slen t) U64_MAX); simpl.
    + destruct (Z.ltb_spec MAX_PACKAGE_RETAINED_BYTES (r + slen t)).
      * split; [done | intros (_ & -> & ?); lia].
      * rewrite IH by lia. rewrite Z.add_assoc. done.
    + split; [done | intros (_ & -> & ?)]. unfold MAX_PACKAGE_RETAINED_BYTES, U64_MAX in *. lia.
Qed.

Definition apk_valid (row : PackageRecord) : bool :=
  forallb text_valid (apk_texts row) && (pr_layer row <=? 1).
Definition total_size {A} (texts : A -> list (string * Z)) (rows : list A) : Z :=
  foldr (fun row n => texts_size (texts row) + n) 0 rows.

Lemma total_size_nonneg {A} (texts : A -> list (string * Z)) rows : 0 <= total_size texts rows.
Proof. unfold total_size. induction rows as [| r rows IH]; simpl; [lia |]. pose proof (texts_size_nonneg (texts r)). lia. Qed.

Lemma retain_apk_ok r rows :
  0 <= r <= MAX_PACKAGE_RETAINED_BYTES ->
  retain_apk r rows = Ok tt <->
  forallb apk_valid rows = true /\ r + total_size apk_texts rows <= MAX_PACKAGE_RETAINED_BYTES.
Proof.
  revert r. induction rows as [| row rows IH]; intros r Hr; cbn [retain_apk forallb total_size foldr]; [split; [lia | done] |].
  fold (total_size apk_texts rows). pose proof (total_size_nonneg apk_texts rows).
  pose proof (texts_size_nonneg (apk_texts row)). unfold apk_valid at 1. fold (apk_texts row).
  destruct (retain r (apk_texts row)) as [r' | e] eqn:E; cbn [rbind].
  - apply retain_ok in E as (Hv & -> & Hle); [| done]. rewrite Hv. cbn [andb].
    destruct (Z.ltb_spec 1 (pr_layer row)), (Z.leb_spec (pr_layer row) 1); try lia; cbn [andb]; [split; [done | by intros []] |].
    rewrite IH by lia. rewrite Z.add_assoc. done.
  - split; [done |]. intros [Hv Ht]. bool_prop.
    enough (retain r (apk_texts row) = Ok (r + texts_size (apk_texts row))) by congruence.
    apply retain_ok; [done |]. split; [done | split; [done | lia]].
Qed.

Lemma retain_opkg_ok r rows :
  0 <= r <= MAX_PACKAGE_RETAINED_BYTES ->
  retain_opkg r rows = Ok tt <->
  forallb (fun row => forallb text_valid (opkg_texts row)) rows = true
  /\ r + total_size opkg_texts rows <= MAX_PACKAGE_RETAINED_BYTES.
Proof.
  revert r. induction rows as [| row rows IH]; intros r Hr; cbn [retain_opkg forallb total_size foldr]; [split; [lia | done] |].
  fold (total_size opkg_texts rows). pose proof (total_size_nonneg opkg_texts rows).
  pose proof (texts_size_nonneg (opkg_texts row)). fold (opkg_texts row).
  destruct (retain r (opkg_texts row)) as [r' | e] eqn:E; cbn [rbind].
  - apply retain_ok in E as (Hv & -> & Hle); [| done]. rewrite Hv. cbn [andb]. rewrite IH by lia. rewrite Z.add_assoc. done.
  - split; [done |]. intros [Hv Ht]. bool_prop.
    enough (retain r (opkg_texts row) = Ok (r + texts_size (opkg_texts row))) by congruence.
    apply retain_ok; [done |]. split; [done | split; [done | lia]].
Qed.

Lemma windows2_any_ext {A} (p q : A -> A -> bool) l :
  (forall x y, p x y = q x y) -> windows2_any p l = windows2_any q l.
Proof.
  intros Hpq. induction l as [| x [| y tl] IH]; [done | done |].
  cbn [windows2_any] in *. by rewrite Hpq, IH.
Qed.

(** Sorting by the key and rejecting adjacent equal keys rejects exactly the
    inputs with a repeated key. *)
Lemma apk_adjacent rows :
  windows2_any (fun x y => (pr_layer x =? pr_layer y) && String.eqb (pr_name x) (pr_name y)) (sort_by apk_key rows)
    = negb (bool_decide (NoDup (apk_key <$> rows))).
Proof.
  rewrite (windows2_any_ext _ (fun x y => eqb (apk_key x) (apk_key y))).
  - change (adjacent_equal apk_key (sort_by apk_key rows) = negb (bool_decide (NoDup (apk_key <$> rows)))).
    pose proof (sorted_distinct apk_key rows) as Hd.
    destruct (adjacent_equal _ _); case_bool_decide as Hn; try done.
    + by apply Hd in Hn.
    + destruct Hn. by apply Hd.
  - intros x y. destruct (Z.eqb_spec (pr_layer x) (pr_layer y)) as [E1 | E1],
      (String.eqb_spec (pr_name x) (pr_name y)) as [E2 | E2]; simpl; symmetry;
      rewrite ?eqb_eq, ?eqb_neq; unfold apk_key; congruence.
Qed.

Lemma opkg_adjacent rows :
  windows2_any (fun x y => String.eqb (os_name x) (os_name y)) (sort_by os_name rows)
    = negb (bool_decide (NoDup (os_name <$> rows))).
Proof.
  rewrite (windows2_any_ext _ (fun x y => eqb (os_name x) (os_name y))).
  - change (adjacent_equal os_name (sort_by os_name rows) = negb (bool_decide (NoDup (os_name <$> rows)))).
    pose proof (sorted_distinct os_name rows) as Hd.
    destruct (adjacent_equal _ _); case_bool_decide as Hn; try done.
    + by apply Hd in Hn.
    + destruct Hn. by apply Hd.
  - intros x y. destruct (String.eqb_spec (os_name x) (os_name y)) as [E | E]; symmetry;
      [by apply eqb_eq | by apply eqb_neq].
Qed.

Lemma new_apk_ok rows o :
  new_apk rows = Ok o <->
  zlen rows <= MAX_PACKAGE_RECORDS /\ forallb apk_valid rows = true
  /\ total_size apk_texts rows <= MAX_PACKAGE_RETAINED_BYTES /\ NoDup (apk_key <$> rows)
  /\ o = {| records := Apk (sort_by apk_key rows) |}.
Proof.
  unfold new_apk. cbv zeta. rewrite apk_adjacent, fail_if_ok, rbind_ok, Z.ltb_ge.
  setoid_rewrite fail_if_ok. split.
  - intros (Hc & [] & Hr & Hn & [= <-]). apply retain_apk_ok in Hr as [Hv Ht];
      [| unfold MAX_PACKAGE_RETAINED_BYTES; lia]. bool_prop. done.
  - intros (Hc & Hv & Ht & Hn & ->). split; [done |]. exists tt.
    split; [apply retain_apk_ok; [unfold MAX_PACKAGE_RETAINED_BYTES; lia | done] |].
    by rewrite bool_decide_eq_true_2.
Qed.

Lemma new_opkg_ok rows o :
  new_opkg_status rows = Ok o <->
  zlen rows <= MAX_PACKAGE_RECORDS /\ forallb (fun row => forallb text_valid (opkg_texts row)) rows = true
  /\ total_size opkg_texts rows <= MAX_PACKAGE_RETAINED_BYTES /\ NoDup (os_name <$> rows)
  /\ o = {| records := Opkg (sort_by os_name rows) |}.
Proof.
  unfold new_opkg_status. cbv zeta. rewrite opkg_adjacent, fail_if_ok, rbind_ok, Z.ltb_ge.
  setoid_rewrite fail_if_ok. split.
  - intros (Hc & [] & Hr & Hn & [= <-]). apply retain_opkg_ok in Hr as [Hv Ht];
      [| unfold MAX_PACKAGE_RETAINED_BYTES; lia]. bool_prop. done.
  - intros (Hc & Hv & Ht & Hn & ->). split; [done |]. exists tt.
    split; [apply retain_opkg_ok; [unfold MAX_PACKAGE_RETAINED_BYTES; lia | done] |].
    by rewrite bool_decide_eq_true_2.
Qed.

(** ** Serving pages *)
Definition built (o : PackageObservation) : Prop :=
  (exists rows, new_apk rows = Ok o) \/ (exists rows, new_opkg_status rows = Ok o).

Lemma no_control_quote s : has_control s = false -> quote_size s <= 2 + 2 * slen s.
Proof.
  unfold has_control. rewrite quote_size_sum, slen_bytes. induction (str_bytes s) as [| b l IH]; [simpl; lia |].
  cbn [control_bytes foldr length]. intros Hc. bool_prop. specialize (IH ltac:(done)).
  enough (escape_cost b <= 2) by lia. unfold escape_cost. destruct (_ || _); [lia |].
  destruct (Z.leb_spec b 31); lia.
Qed.

Lemma text_valid_quote t m : text_valid (t, m) = true -> quote_size t <= 2 + 2 * m.
Proof. unfold text_valid. simpl. intros Hv. bool_prop. pose proof (no_control_quote t ltac:(done)). lia. Qed.

Lemma dec_size n : slen (dec n) <= 20.
Proof.
  assert (forall k m acc, slen (dec_go k m acc) <= Z.of_nat k + slen acc) as Hk.
  { induction k as [| k IH]; intros m acc; [simpl; lia |]. cbn [dec_go]. cbv zeta.
    destruct (m / 10 =? 0); [rewrite slen_cons; lia |]. specialize (IH (m / 10) (String (digit_char (m mod 10)) acc)).
    rewrite slen_cons in IH. lia. }
  exact (Hk 20%nat n EmptyString).
Qed.

Lemma num_is_compact n : compact 0 (VNum (PosInt n)).
Proof. apply number_is_compact, dec_not_nil. Qed.

(** A record's encoding is small and flat. *)
Definition small_row (v : value) : Prop := compact 1 v /\ json_size v <= 1800.

Lemma apk_json_eq row :
  apk_json row = VObj [("arch", VStr (pr_arch row)); ("layer", VNum (PosInt (pr_layer row)));
                       ("name", VStr (pr_name row)); ("version", VStr (pr_version row))].
Proof. reflexivity. Qed.

Lemma opkg_json_eq row :
  opkg_json row = VObj [("arch", VStr (os_arch row)); ("name", VStr (os_name row));
                        ("status", VStr (os_status row)); ("version", VStr (os_version row))].
Proof. reflexivity. Qed.

Lemma apk_small row : apk_valid row = true -> small_row (apk_json row).
Proof.
  unfold apk_valid, apk_texts. cbn [forallb]. intros Hv. bool_prop.
  repeat match goal with H : text_valid _ = true |- _ => apply text_valid_quote in H end.
  rewrite apk_json_eq. split.
  - apply (object_compact 0); [done |]. repeat constructor; first [apply text_is_compact | apply num_is_compact].
  - rewrite json_size_obj. unfold sep_sum, entry_size. cbn [fmap list_fmap foldr fst snd length].
    change (quote_size "arch") with 6. change (quote_size "layer") with 7. change (quote_size "name") with 6.
    change (quote_size "version") with 9.
    change (json_size (VStr (pr_arch row))) with (quote_size (pr_arch row)).
    change (json_size (VStr (pr_name row))) with (quote_size (pr_name row)).
    change (json_size (VStr (pr_version row))) with (quote_size (pr_version row)).
    change (json_size (VNum (PosInt (pr_layer row)))) with (slen (dec (pr_layer row))).
    pose proof (dec_size (pr_layer row)). lia.
Qed.

Lemma opkg_small row : forallb text_valid (opkg_texts row) = true -> small_row (opkg_json row).
Proof.
  unfold opkg_texts, MAX_OPKG_STATUS_BYTES. cbn [forallb]. intros Hv. bool_prop.
  repeat match goal with H : text_valid _ = true |- _ => apply text_valid_quote in H end.
  rewrite opkg_json_eq. split.
  - apply (object_compact 0); [done |]. repeat constructor; apply text_is_compact.
  - rewrite json_size_obj. unfold sep_sum, entry_size. cbn [fmap list_fmap foldr fst snd length].
    change (quote_size "arch") with 6. change (quote_size "status") with 8. change (quote_size "name") with 6.
    change (quote_size "version") with 9.
    change (json_size (VStr (os_arch row))) with (quote_size (os_arch row)).
    change (json_size (VStr (os_name row))) with (quote_size (os_name row)).
    change (json_size (VStr (os_version row))) with (quote_size (os_version row)).
    change (json_size (VStr (os_status row))) with (quote_size (os_status row)). lia.
Qed.

Lemma built_small o : built o -> zlen (record_values o) <= MAX_PACKAGE_RECORDS /\ Forall small_row (record_values o).
Proof.
  intros [[rows Hn] | [rows Hn]].
  - apply new_apk_ok in Hn as (Hc & Hv & _ & _ & ->). unfold record_values. simpl.
    rewrite length_fmap, sort_by_length. split; [done |]. apply Forall_fmap. rewrite sort_by_perm.
    apply forallb_Forall in Hv. eapply Forall_impl; [exact Hv |]. apply apk_small.
  - apply new_opkg_ok in Hn as (Hc & Hv & _ & _ & ->). unfold record_values. simpl.
    rewrite length_fmap, sort_by_length. split; [done |]. apply Forall_fmap. rewrite sort_by_perm.
    apply forallb_Forall in Hv. eapply Forall_impl; [exact Hv |]. apply opkg_small.
Qed.

(** The page's object, in key order. *)
Definition page_object (count offset : Z) (source scope : string) (items : value) (next : option string) : value :=
  VObj ([("captured_count", VNum (PosInt count)); ("consistency", VStr "non_atomic_observation");
         ("items", items)] ++
        match next with Some c => [("next_cursor", VStr c)] | None => [] end ++
        [("offset", VNum (PosInt offset)); ("scope", VStr scope); ("source", VStr source);
         ("whole_device_complete", VBool false)]).

Definition page_labels (o : PackageObservation) : string * string :=
  match records o with
  | Apk _ => ("apk_3_0_5", "apk_query_installed_visible")
  | Opkg _ => ("opkg_38eccbb1", "opkg_root_status_file")
  end.

Lemma slice_fmap {A B} (f : A -> B) a b l : f <$> slice a b l = slice a b (f <$> l).
Proof. unfold slice. by rewrite fmap_take, fmap_drop. Qed.

Lemma page_object_normalized count offset source scope items next :
  slen source <= 64 -> slen scope <= 64 -> match next with Some c => slen c <= 64 | None => True end ->
  compact 2 items -> json_size items <= 60000 ->
  check_normalized_result (page_object count offset source scope items next) = Ok tt.
Proof.
  intros Hso Hsc Hn Hi Hs. rewrite check_normalized_eq. unfold page_object.
  rewrite (compact_normalized 3); [done | done | |].
  - apply (object_compact 2); [done |].
    assert (forall v, compact 0 v -> compact 2 v) as Hm by (intros v; by apply compact_mono).
    destruct next; repeat (apply Forall_cons; split); try apply Forall_nil_2; cbn [snd]; try exact Hi;
      apply Hm; first [apply text_is_compact | apply num_is_compact | apply bool_is_compact].
  - rewrite json_size_obj, fmap_app, fmap_app. unfold sep_sum, entry_size.
    pose proof (quote_size_bounds source). pose proof (quote_size_bounds scope).
    pose proof (dec_size count). pose proof (dec_size offset).
    destruct next as [c |]; cbn [fmap list_fmap foldr fst snd length app];
      change (quote_size "captured_count") with 16; change (quote_size "consistency") with 13;
      change (quote_size "items") with 7; change (quote_size "offset") with 8; change (quote_size "scope") with 7;
      change (quote_size "source") with 8; change (quote_size "whole_device_complete") with 23;
      change (json_size (VStr "non_atomic_observation")) with 24; change (json_size (VBool false)) with 5;
      change (json_size (VStr source)) with (quote_size source);
      change (json_size (VStr scope)) with (quote_size scope);
      change (json_size (VNum (PosInt count))) with (slen (dec count));
      change (json_size (VNum (PosInt offset))) with (slen (dec offset));
      unfold MAX_NORMALIZED_BYTES.
    + change (quote_size "next_cursor") with 13. change (json_size (VStr c)) with (quote_size c).
      pose proof (quote_size_bounds c). lia.
    + lia.
Qed.

Lemma rows_array_small l : Forall small_row l -> zlen l <= 16 -> compact 2 (VArr l) /\ json_size (VArr l) <= 60000.
Proof.
  intros Hl Hn. split.
  - apply (array_compact 1); [done |]. eapply Forall_impl; [exact Hl |]. by intros v [? _].
  - rewrite json_size_arr. unfold sep_sum. rewrite length_fmap.
    enough (foldr Z.add 0 (json_size <$> l) <= 1800 * zlen l) by lia.
    clear Hn. induction Hl as [| v l [_ Hv] Hl IH]; [simpl; lia |]. rewrite fmap_cons. cbn [foldr length]. lia.
Qed.

(** The end of the page that starts at [offset]. *)
Definition page_stop (o : PackageObservation) (offset : Z) : Z :=
  Z.min (offset + PACKAGE_PAGE_RECORDS) (zlen (record_values o)).
Definition next_cursor (o : PackageObservation) (nonce : list Z) (offset : Z) : option string :=
  if page_stop o offset <? zlen (record_values o) then Some (cursor_encode nonce (page_stop o offset)) else None.

Definition good_offset (o : PackageObservation) (offset : Z) : Prop :=
  0 <= offset /\ offset mod PACKAGE_PAGE_RECORDS = 0 /\ (offset = 0 \/ offset < zlen (record_values o)).

Lemma count_values o :
  match records o with Apk rows => zlen rows | Opkg rows => zlen rows end = zlen (record_values o).
Proof. unfold record_values. destruct (records o); by rewrite length_fmap. Qed.

Lemma cursor_size nc n : length nc = 16%nat -> 0 <= n < 4096 -> slen (cursor_encode nc n) <= 64.
Proof.
  intros Hl Hn. unfold cursor_encode. rewrite slen_app, slen_cons, hex_text_length, Hl.
  pose proof (dec_short n Hn). lia.
Qed.

Lemma slice_length {A} a b (l : list A) : 0 <= a -> a <= b -> zlen (slice a b l) <= b - a.
Proof. intros. unfold slice. rewrite length_take. lia. Qed.

Lemma slice_Forall {A} (P : A -> Prop) a b l : Forall P l -> Forall P (slice a b l).
Proof. intros Hl. unfold slice. by apply Forall_take, Forall_drop. Qed.

Lemma page_eq o nc offset :
  built o -> length nc = 16%nat -> nc <> zero_nonce -> good_offset o offset ->
  page o nc offset =
    Ok (page_object (zlen (record_values o)) offset (page_labels o).1 (page_labels o).2
          (VArr (slice offset (page_stop o offset) (record_values o))) (next_cursor o nc offset)).
Proof.
  intros Hb Hl Hz (H0 & Hm & Hr). destruct (built_small o Hb) as [Hc Hs]. unfold MAX_PACKAGE_RECORDS in Hc.
  unfold page. rewrite count_values. rewrite bool_decide_eq_false_2 by done.
  unfold is_multiple_of. rewrite Hm. cbn [orb negb Z.eqb].
  assert (negb (offset =? 0) && (zlen (record_values o) <=? offset) = false) as ->.
  { destruct Hr as [-> | Hr]; [done |]. by rewrite (proj2 (Z.leb_gt _ _) Hr), andb_false_r. }
  assert (0 <= page_stop o offset <= zlen (record_values o) /\ page_stop o offset - offset <= 16) as Hstop.
  { unfold page_stop, PACKAGE_PAGE_RECORDS. lia. }
  assert (Z.min (Z.min (offset + PACKAGE_PAGE_RECORDS) U64_MAX) (zlen (record_values o)) = page_stop o offset) as ->.
  { unfold page_stop, PACKAGE_PAGE_RECORDS, U64_MAX. lia. }
  cbv zeta.
  destruct (rows_array_small (slice offset (page_stop o offset) (record_values o))) as [Hi1 Hi2].
  { by apply slice_Forall. }
  { unfold slice. rewrite length_take. lia. }
  pose proof (page_object_normalized (zlen (record_values o)) offset (page_labels o).1 (page_labels o).2
    (VArr (slice offset (page_stop o offset) (record_values o))) (next_cursor o nc offset)) as Hnorm.
  assert (check_normalized_result (page_object (zlen (record_values o)) offset (page_labels o).1 (page_labels o).2
    (VArr (slice offset (page_stop o offset) (record_values o))) (next_cursor o nc offset)) = Ok tt) as Hok.
  { apply Hnorm; [unfold page_labels; destruct (records o); done | unfold page_labels; destruct (records o); done
      | | done | done].
    unfold next_cursor. destruct (_ <? _) eqn:E; [| done]. bool_prop. apply cursor_size; [done | lia]. }
  assert (forall v, check_normalized_result v = Ok tt ->
    (let? _ := check_normalized_result v in Ok v) = Ok v) as Hret by (by intros v ->).
  apply Hret in Hok. clear Hnorm Hi1 Hi2 Hret. unfold next_cursor, page_labels in *.
  assert (forall {A} (f : A -> value) rows, VArr (f <$> slice offset (page_stop o offset) rows)
    = VArr (slice offset (page_stop o offset) (f <$> rows))) as Hsl by (intros; by rewrite slice_fmap).
  generalize dependent (page_stop o offset). intros stop Hstop Hok Hsl.
  unfold record_values in *. destruct (records o) as [rows | rows]; cbn [fst snd] in *; rewrite Hsl;
    destruct (stop <? _); exact Hok.
Qed.

Lemma page_object_items count offset source scope items next :
  page_items (page_object count offset source scope (VArr items) next) = items
  /\ page_next (page_object count offset source scope (VArr items) next) = next.
Proof. by destruct next. Qed.

Lemma slice_drop {A} a b (l : list A) :
  0 <= a -> a <= b -> slice a b l ++ drop (Z.to_nat b) l = drop (Z.to_nat a) l.
Proof.
  intros Ha Hb. unfold slice. rewrite <- (take_drop (Z.to_nat (b - a)) (drop (Z.to_nat a) l)) at 2.
  f_equal. rewrite drop_drop. f_equal. lia.
Qed.

(** Following the cursors from [offset] yields every record from there on. *)
Lemma follow_eq fuel o nc offset :
  built o -> length nc = 16%nat -> Forall is_byte nc -> nc <> zero_nonce -> good_offset o offset ->
  zlen (record_values o) - offset <= PACKAGE_PAGE_RECORDS * Z.of_nat fuel -> (0 < fuel)%nat ->
  follow fuel o nc offset = Ok (drop (Z.to_nat offset) (record_values o)).
Proof.
  intros Hb Hl Hby Hz. revert offset. induction fuel as [| fuel IH]; intros offset Hg Hf Hp; [lia |].
  cbn [follow]. rewrite page_eq by done. cbn [rbind].
  destruct (page_object_items (zlen (record_values o)) offset (page_labels o).1 (page_labels o).2
    (slice offset (page_stop o offset) (record_values o)) (next_cursor o nc offset)) as [-> ->].
  destruct (built_small o Hb) as [Hc _]. unfold MAX_PACKAGE_RECORDS in Hc. destruct Hg as (H0 & Hm & Hr).
  pose proof (slice_drop offset (page_stop o offset) (record_values o)) as Hsd.
  unfold next_cursor. destruct (Z.ltb_spec (page_stop o offset) (zlen (record_values o))) as [Hlt | Hge].
  - assert (page_stop o offset = offset + PACKAGE_PAGE_RECORDS) as Hst by (unfold page_stop in *; lia).
    assert (page_stop o offset mod PACKAGE_PAGE_RECORDS = 0) as Hsm.
    { rewrite Hst. unfold PACKAGE_PAGE_RECORDS in *. by rewrite <- Zplus_mod_idemp_r, Z_mod_same_full, Z.add_0_r. }
    unfold PACKAGE_PAGE_RECORDS in Hst.
    rewrite cursor_parse_encode_eq; [| done | done | done | unfold MAX_PACKAGE_RECORDS; lia | done].
    cbn [rbind nonce_of offset_of]. rewrite IH.
    + cbn [rbind]. f_equal. apply Hsd; lia.
    + split; [lia | split; [done | by right]].
    + unfold PACKAGE_PAGE_RECORDS in *. lia.
    + destruct fuel; [unfold PACKAGE_PAGE_RECORDS in *; lia | lia].
  - f_equal. assert (offset <= page_stop o offset \/ page_stop o offset = 0 /\ offset = 0) as Hle.
    { unfold page_stop, PACKAGE_PAGE_RECORDS in *. lia. }
    rewrite <- Hsd by lia.
    rewrite (drop_ge (record_values o) (Z.to_nat (page_stop o offset))) by lia. by rewrite app_nil_r.
Qed.

(** *** Properties *)

(** C19: A client that follows the page cursors of a built observation from the
    first page receives every record exactly once, in order: each page is
    served (it never exceeds the output limit), each cursor parses back to the
    next offset, and the pages concatenate to the whole inventory. *)
Theorem pages_concatenate o nc :
  built o -> length nc = 16%nat -> Forall is_byte nc -> nc <> zero_nonce ->
  follow 257 o nc 0 = Ok (record_values o).
Proof.
  intros Hb Hl Hby Hz. rewrite follow_eq; [by rewrite drop_0 | done | done | done | done | | | lia].
  - split; [done | split; [done | by left]].
  - destruct (built_small o Hb) as [Hc _]. unfold MAX_PACKAGE_RECORDS, PACKAGE_PAGE_RECORDS in *. lia.
Qed.

(** Page cursors round-trip and are canonical: encoding a nonzero nonce
    and a page offset parses back to them, and every accepted text is the
    encoding of what it parses to, so no two texts name the same page. *)
Theorem cursor_roundtrip :
  (forall nc n, length nc = 16%nat -> Forall is_byte nc -> nc <> zero_nonce ->
     0 < n < MAX_PACKAGE_RECORDS -> n mod PACKAGE_PAGE_RECORDS = 0 ->
     cursor_parse (cursor_encode nc n) = Ok {| nonce_of := nc; offset_of := n |})
  /\ (forall s c, cursor_parse s = Ok c -> s = cursor_encode (nonce_of c) (offset_of c)
       /\ nonce_of c <> zero_nonce /\ 0 < offset_of c < MAX_PACKAGE_RECORDS
       /\ offset_of c mod PACKAGE_PAGE_RECORDS = 0).
Proof.
  split; [exact cursor_parse_encode_eq |]. intros s c Hp.
  destruct (cursor_parse_inv s c Hp) as (He & _ & _ & Hz & Hn & Hm). by rewrite He.
Qed.

(** Building an APK inventory accepts exactly the inputs of at most 4096
    records with valid fields, at most 2 MiB of retained text and no repeated
    (layer, name), and keeps all the records in increasing (layer, name)
    order. *)
Theorem new_apk_spec rows o :
  new_apk rows = Ok o <->
  zlen rows <= MAX_PACKAGE_RECORDS /\ forallb apk_valid rows = true
  /\ total_size apk_texts rows <= MAX_PACKAGE_RETAINED_BYTES /\ NoDup (apk_key <$> rows)
  /\ exists sorted, o = {| records := Apk sorted |} /\ sorted ≡ₚ rows /\ strict apk_key sorted.
Proof.
  rewrite new_apk_ok. split; intros (Hc & Hv & Ht & Hn & Ho); (split; [done | split; [done | split; [done | split; [done |]]]]).
  - exists (sort_by apk_key rows). split; [done | split; [apply sort_by_perm | by apply sort_by_strict]].
  - destruct Ho as (sorted & -> & Hp & Hs). do 2 f_equal.
    apply (strict_perm_eq apk_key); [done | by apply sort_by_strict | by rewrite sort_by_perm].
Qed.

Definition demo_rows : list PackageRecord :=
  [ {| pr_name := "zlib"; pr_version := "1.3"; pr_arch := "noarch"; pr_layer := 0 |};
    {| pr_name := "busybox"; pr_version := "1.36"; pr_arch := "noarch"; pr_layer := 0 |} ].
Definition demo_nonce : list Z := replicate 16 7.
Definition demo_observation : PackageObservation := {| records := Apk (sort_by apk_key demo_rows) |}.

Lemma pages_concatenate_witness : follow 257 demo_observation demo_nonce 0 = Ok (record_values demo_observation).
Proof.
  apply (pages_concatenate demo_observation demo_nonce);
    [left; by exists demo_rows | done | by repeat constructor | done].
Defined.
