(* ===== verification/Schema.v ===== *)
(** * Response schemas

    [crates/core/src/projection.rs]: the finite response shapes of the reviewed
    operations and their validation.  A schema is a record of scalar fields
    and collections, nested to a fixed depth by its type; [RecordShape] is the
    source's trait, implemented by leaf records and by records of collections. *)
From S2P Require Import Prelude Order Text Json Core Budget.
Open Scope Z_scope.

Definition SAFE_INTEGER_MAX : Z := 9007199254740991.
Definition MAX_COLLECTION_NODES : Z := 8.
Definition MAX_RECORD_FIELDS : Z := 64.
Definition MAX_TEXT_BYTES : Z := 1024.
Definition MAX_TEXT_ENUM_VALUES : Z := 16.
Definition MAX_TEXT_OPTION_ITEMS : Z := 128.
Definition MAX_SCHEMA_DEPTH : Z := 8.
Definition MAX_POINTER_DEPTH : Z := 8.
Definition MAX_POINTER_BYTES : Z := 512.
Definition MAX_ROOT_GUARDS : Z := 4.

Inductive Presence : Type := Required | Optional.
Inductive CounterSource : Type := JsonInteger | DecimalText.

#[export] Instance Presence_eq_dec : EqDecision Presence.
Proof. solve_decision. Defined.

Inductive ScalarKind : Type :=
| Boolean
| Text (max_bytes : Z)
| TextEnum (max_bytes : Z) (values : list string)
| SafeInteger (min max : Z)
| FalseOrSafeInteger (min max : Z)
| DecimalCounter (source : CounterSource).

Record ScalarField : Type := {
  name : string;
  source : string;
  presence : Presence;
  kind : ScalarKind
}.

Record TextIdentity : Type := { id_name : string; id_max_bytes : Z }.

Record LeafRecord : Type := { leaf_fields : list ScalarField }.

Record CollectionField (C : Type) : Type := {
  c_name : string;
  c_presence : Presence;
  collection : C
}.
Arguments c_name {C} _.
Arguments c_presence {C} _.
Arguments collection {C} _.

Record SchemaRecord (C : Type) : Type := {
  fields : list ScalarField;
  collections : list (CollectionField C)
}.
Arguments fields {C} _.
Arguments collections {C} _.

Inductive Collection (R : Type) : Type :=
| TextOption (source : string) (max_items max_bytes : Z)
| RowArray (source : string) (max_items : Z) (record : R)
| ObjectArray (source : string) (max_items : Z) (identity : string) (record : R)
| ObjectEntries (source : string) (max_items : Z) (key : TextIdentity) (record : R)
| ScalarArray (source : string) (max_items : Z) (name : string) (value : ScalarKind) (unique : bool).
Arguments TextOption {R} _ _ _.
Arguments RowArray {R} _ _ _.
Arguments ObjectArray {R} _ _ _ _.
Arguments ObjectEntries {R} _ _ _ _.
Arguments ScalarArray {R} _ _ _ _ _.

Definition InnerRecord : Type := SchemaRecord (Collection LeafRecord).
Definition RootRecord : Type := SchemaRecord (Collection InnerRecord).

Inductive Selection : Type :=
| All
| ExactOne (parameter : string).

Inductive TypedProjection : Type :=
| ProjectRecord (reject_if_present : list string) (record : RootRecord)
| ProjectCollection (reject_if_present : list string) (collection : Collection InnerRecord)
    (selection : Selection).

(** The source's trait.  [validate_record] threads the [nodes] counter; the
    byte budget of [project_record] is the state of [BM]. *)
Class RecordShape (R : Type) : Type := {
  shape_fields : R -> list ScalarField;
  validate_record : R -> Z -> Z -> option TextIdentity -> result CoreError Z;
  project_record : R -> value -> option (TextIdentity * string) -> bool -> BM (option value)
}.

Definition valid_identity (value : string) (max : Z) : bool :=
  negb (is_empty value) && (slen value <=? max) && negb (contains_nul value).

Definition ScalarKind_valid (k : ScalarKind) : bool :=
  match k with
  | Boolean | DecimalCounter _ => true
  | Text max_bytes => in_range 1 MAX_TEXT_BYTES max_bytes
  | TextEnum max_bytes values =>
      in_range 1 MAX_TEXT_BYTES max_bytes
      && in_range 1 MAX_TEXT_ENUM_VALUES (zlen values)
      && forallb (fun value => valid_identity value max_bytes) values
      && all_distinct values
  | SafeInteger min max | FalseOrSafeInteger min max =>
      (min <=? max) && (- SAFE_INTEGER_MAX <=? min) && (max <=? SAFE_INTEGER_MAX)
  end.
Definition ScalarKind_validate (k : ScalarKind) : result CoreError unit :=
  if ScalarKind_valid k then Ok tt else Err InvalidDefinition.

(** The segment loop of [pointer_segments]; [acc] is the reversed [result]. *)
Fixpoint segments_loop (acc parts : list string) : result CoreError (list string) :=
  match parts with
  | [] => Ok (reverse acc)
  | part :: parts =>
      fail_if (zlen acc =? MAX_POINTER_DEPTH) with InvalidDefinition in
      fail_if negb (tildes_valid (str_bytes part)) with InvalidDefinition in
      segments_loop (unescape part :: acc) parts
  end.

Definition pointer_segments (pointer : string) (root_allowed : bool) : result CoreError (list string) :=
  if (is_empty pointer && root_allowed) || starts_with "/" pointer then
    fail_if (MAX_POINTER_BYTES <? slen pointer) || contains_nul pointer with InvalidDefinition in
    segments_loop [] (pointer_parts pointer)
  else Err InvalidDefinition.

(** [paths.windows(2).any(|pair| pair[1].starts_with(&pair[0]))] on the sorted
    paths. *)
Definition adjacent_prefix (paths : list (list string)) : bool :=
  windows2_any (fun x y => slice_starts_with y x) (sort_by id paths).

(** The two loops of [validate_fields]: names already taken and paths so far. *)
Fixpoint scan_fields (names : list string) (paths : list (list string)) (l : list ScalarField) :
    result CoreError (list string * list (list string)) :=
  match l with
  | [] => Ok (names, paths)
  | field :: l =>
      fail_if negb (identifier (name field)) with InvalidDefinition in
      let? names := ok_or (fresh_insert (name field) names) InvalidDefinition in
      let? _ := ScalarKind_validate (kind field) in
      let? path := pointer_segments (source field) false in
      scan_fields names (paths ++ [path]) l
  end.

Fixpoint scan_collections (names : list string) (paths : list (list string)) (l : list (string * string)) :
    result CoreError (list string * list (list string)) :=
  match l with
  | [] => Ok (names, paths)
  | (name, source) :: l =>
      fail_if negb (identifier name) with InvalidDefinition in
      let? names := ok_or (fresh_insert name names) InvalidDefinition in
      let? path := pointer_segments source true in
      scan_collections names (paths ++ [path]) l
  end.

Definition validate_fields (fields : list ScalarField) (collections : list (string * string))
    (count : Z) (key : option TextIdentity) (depth : Z) : result CoreError unit :=
  fail_if (MAX_SCHEMA_DEPTH <? depth)
       || match checked_add count (usize_from (is_some key)) with
          | None => true
          | Some count => MAX_RECORD_FIELDS <? count
          end with InvalidDefinition in
  fail_if match key with
       | Some key => negb (identifier (id_name key)) || negb (in_range 1 MAX_TEXT_BYTES (id_max_bytes key))
       | None => false
       end with InvalidDefinition in
  let names := match key with Some key => [id_name key] | None => [] end in
  let? st := scan_fields names [] fields in
  let? st := scan_collections (fst st) (snd st) collections in
  fail_if adjacent_prefix (snd st) with InvalidDefinition in
  Ok tt.

Definition c_source {R} (c : Collection R) : string :=
  match c with
  | ObjectArray source _ _ _ | RowArray source _ _ | ObjectEntries source _ _ _
  | TextOption source _ _ | ScalarArray source _ _ _ _ => source
  end.

(** [iter.find_map(f)] *)
Fixpoint find_map {A B} (f : A -> option B) (l : list A) : option B :=
  match l with
  | [] => None
  | x :: l => match f x with Some y => Some y | None => find_map f l end
  end.

Section collection.
  Context {R : Type} `{RecordShape R}.

Definition identity_limit (c : Collection R) : option Z :=
  match c with
  | ObjectArray _ _ identity record =>
      find_map (fun field =>
        if String.eqb (name field) identity && bool_decide (presence field = Required) then
          match kind field with Text max_bytes => Some max_bytes | _ => None end
        else None) (shape_fields record)
  | ObjectEntries _ _ key _ => Some (id_max_bytes key)
  | ScalarArray _ _ _ _ _ | RowArray _ _ _ | TextOption _ _ _ => None
  end.

Definition validate_collection (c : Collection R) (depth nodes : Z) : result CoreError Z :=
  let nodes := nodes + 1 in
  fail_if (MAX_COLLECTION_NODES <? nodes) || (MAX_SCHEMA_DEPTH <? depth) with InvalidDefinition in
  let? _ := pointer_segments (c_source c) true in
  let? r :=
    match c with
    | TextOption _ max_items max_bytes =>
        fail_if (depth =? 1) || negb (in_range 1 MAX_TEXT_BYTES max_bytes)
             || negb (in_range 1 MAX_TEXT_OPTION_ITEMS max_items) with InvalidDefinition in
        Ok (max_items, nodes)
    | RowArray _ max_items record =>
        let? nodes := validate_record record (depth + 1) nodes None in
        Ok (max_items, nodes)
    | ObjectArray _ max_items _ record =>
        fail_if negb (is_some (identity_limit c)) with InvalidDefinition in
        let? nodes := validate_record record (depth + 1) nodes None in
        Ok (max_items, nodes)
    | ObjectEntries _ max_items key record =>
        let? nodes := validate_record record (depth + 1) nodes (Some key) in
        Ok (max_items, nodes)
    | ScalarArray _ max_items name value _ =>
        fail_if negb (identifier name) with InvalidDefinition in
        let? _ := ScalarKind_validate value in
        Ok (max_items, nodes)
    end in
  fail_if negb (in_range 1 MAX_COLLECTION_ITEMS (fst r)) with InvalidDefinition in
  Ok (snd r).

(** The loop [for field in &self.collections] of a record's validation. *)
Fixpoint validate_collections (l : list (CollectionField (Collection R))) (depth nodes : Z) :
    result CoreError Z :=
  match l with
  | [] => Ok nodes
  | field :: l =>
      let? nodes := validate_collection (collection field) (depth + 1) nodes in
      validate_collections l depth nodes
  end.

Definition validate_nested (r : SchemaRecord (Collection R)) (depth nodes : Z)
    (key : option TextIdentity) : result CoreError Z :=
  let? count := ok_or (checked_add (zlen (fields r)) (zlen (collections r))) InvalidDefinition in
  let? _ := validate_fields (fields r)
              ((fun f => (c_name f, c_source (collection f))) <$> collections r) count key depth in
  validate_collections (collections r) depth nodes.
End collection.

Definition validate_leaf (r : LeafRecord) (depth nodes : Z) (key : option TextIdentity) :
    result CoreError Z :=
  let? _ := validate_fields (leaf_fields r) [] (zlen (leaf_fields r)) key depth in
  Ok nodes.
