(* ===== verification/Evaluate.v ===== *)
(** * Projection of device output

    [crates/core/src/projection/evaluate.rs]: the single pass that checks a
    device's JSON output against a schema and builds the bounded result, and
    the schema validation of [TypedProjection].  The definitions thread the
    [Budget] of the source; [Projection.v] proves what they compute. *)
From S2P Require Import Prelude Order Text Json Core Budget Schema.
Open Scope Z_scope.

(** [key.parse::<usize>().ok().and_then(|index| items.get(index))] *)
Definition item_at (key : string) (items : list value) : option value :=
  index ← parse_unsigned U64_MAX key; items !! Z.to_nat index.

Fixpoint lookup_parts (current : value) (parts : list string) : result CoreError (option value) :=
  match parts with
  | [] => Ok (Some current)
  | part :: parts =>
      let key := unescape part in
      let? next :=
        match current with
        | VObj fields => Ok (bt_get key fields)
        | VArr items =>
            fail_if is_empty key || ((1 <? slen key) && starts_with "0" key)
                 || negb (all_bytes is_ascii_digit key) with InvalidOutput in
            Ok (item_at key items)
        | _ => Err InvalidOutput
        end in
      match next with
      | None => Ok None
      | Some next => lookup_parts next parts
      end
  end.

Definition lookup (source : value) (pointer : string) : result CoreError (option value) :=
  lookup_parts source (pointer_parts pointer).

Inductive Scalar : Type :=
| SBoolean (b : bool)
| SText (t : string)
| SInteger (n : Z)
| SCounter (n : Z).

#[export] Instance Scalar_eq_dec : EqDecision Scalar.
Proof. solve_decision. Defined.

(** [v == &Value::Bool(false)] *)
Definition is_false (v : value) : bool := match v with VBool false => true | _ => false end.

Definition read_integer (min max : Z) (v : value) : result CoreError Scalar :=
  let? integer := ok_or (as_i64 v) InvalidOutput in
  fail_if (integer <? min) || (max <? integer) with InvalidOutput in
  Ok (SInteger integer).

Definition read (k : ScalarKind) (v : value) : result CoreError Scalar :=
  match k with
  | Boolean => let? b := ok_or (as_bool v) InvalidOutput in Ok (SBoolean b)
  | Text max_bytes =>
      let? text := ok_or (as_str v) InvalidOutput in
      fail_if (max_bytes <? slen text) || contains_nul text with InvalidOutput in
      Ok (SText text)
  | TextEnum max_bytes values =>
      let? text := ok_or (as_str v) InvalidOutput in
      fail_if negb (valid_identity text max_bytes) || negb (existsb (fun v => String.eqb v text) values)
        with InvalidOutput in
      Ok (SText text)
  | FalseOrSafeInteger min max =>
      if is_false v then Ok (SBoolean false) else read_integer min max v
  | SafeInteger min max => read_integer min max v
  | DecimalCounter source =>
      let? integer :=
        match source with
        | JsonInteger => ok_or (as_u64 v) InvalidOutput
        | DecimalText =>
            let? text := ok_or (as_str v) InvalidOutput in
            fail_if is_empty text || (20 <? slen text)
                 || ((1 <? slen text) && starts_with "0" text)
                 || negb (all_bytes is_ascii_digit text) with InvalidOutput in
            ok_or (parse_unsigned U64_MAX text) InvalidOutput
        end in
      Ok (SCounter integer)
  end.

Definition to_value (s : Scalar) : BM value :=
  match s with
  | SBoolean b => let* _ := bytes (if b then 4 else 5) in bret (VBool b)
  | SText t => let* _ := text t in bret (VStr t)
  | SInteger n => let* _ := bytes (slen (dec_signed n)) in bret (value_of_i64 n)
  | SCounter n => let* _ := text (dec n) in bret (VStr (dec n))
  end.

Definition bwhen (c : bool) (m : BM unit) : BM unit := if c then m else bret tt.

(** The result map under construction. *)
Definition obj : Type := list (string * value).
Definition nonempty {A} (l : list A) : bool := match l with [] => false | _ => true end.

Fixpoint record_fields_loop (src : value) (emits : bool) (out : obj) (l : list ScalarField) : BM obj :=
  match l with
  | [] => bret out
  | field :: l =>
      let* found := blift (lookup src (source field)) in
      match found with
      | None =>
          if decide (presence field = Required) then berr InvalidOutput
          else record_fields_loop src emits out l
      | Some v =>
          let* scalar := blift (read (kind field) v) in
          if emits then
            let* _ := key (name field) (nonempty out) in
            let* v := to_value scalar in
            record_fields_loop src emits (bt_insert (name field) v out) l
          else record_fields_loop src emits out l
      end
  end.

Definition record_fields (fields : list ScalarField) (src : value)
    (k : option (TextIdentity * string)) (emits : bool) : BM obj :=
  if negb (is_object src) then berr InvalidOutput
  else
    let* _ := bwhen emits (bytes 2) in
    let* out :=
      match k with
      | None => bret []
      | Some (identity, v) =>
          if negb (valid_identity v (id_max_bytes identity)) then berr InvalidOutput
          else if emits then
            let* _ := key (id_name identity) false in
            let* v := to_value (SText v) in
            bret (bt_insert (id_name identity) v [])
          else bret []
      end in
    record_fields_loop src emits out fields.

Definition project_leaf (r : LeafRecord) (src : value) (k : option (TextIdentity * string))
    (emits : bool) : BM (option value) :=
  let* out := record_fields (leaf_fields r) src k emits in
  bret (if emits then Some (VObj out) else None).

#[export] Instance LeafRecord_shape : RecordShape LeafRecord := {|
  shape_fields := leaf_fields;
  validate_record := validate_leaf;
  project_record := project_leaf
|}.

(** The projected values of a [TextOption]. *)
Fixpoint text_option_loop (max_bytes : Z) (emits : bool) (projected : list value) (l : list value) :
    BM (list value) :=
  match l with
  | [] => bret projected
  | v :: l =>
      let* scalar := blift (read (Text max_bytes) v) in
      if emits then
        let* _ := emit in
        let* _ := bytes (usize_from (nonempty projected)) in
        let* v := to_value scalar in
        text_option_loop max_bytes emits (projected ++ [v]) l
      else text_option_loop max_bytes emits projected l
  end.

Definition project_text_option (src : value) (max_items max_bytes : Z) (emits : bool) :
    BM (option value) :=
  let* shape :=
    match src with
    | VStr _ => bret ("string", [src])
    | VArr values => bret ("list", values)
    | _ => berr InvalidOutput
    end in
  let '(k, values) := shape in
  let* _ := scan (zlen values) max_items in
  let* _ := bwhen emits (
    let* _ := bytes 2 in
    let* _ := key "kind" false in
    let* _ := text k in
    let* _ := key "values" true in
    bytes 2) in
  let* projected := text_option_loop max_bytes emits [] values in
  bret (if emits then
          Some (VObj (bt_of_list [("kind", VStr k); ("values", VArr projected)]))
        else None).

(** The variables of [project_at] that its row loops update. *)
Record Rows : Type := { rows : list value; selected : option value; observed : bool }.
Definition Rows_new : Rows := {| rows := []; selected := None; observed := false |}.

(** A row's result and whether it matched the selector. *)
Definition add_row (selecting matches : bool) (r : option value) (st : Rows) : Rows :=
  match r with
  | Some v =>
      if selecting then {| rows := rows st; selected := Some v; observed := observed st || matches |}
      else {| rows := rows st ++ [v]; selected := selected st; observed := observed st || matches |}
  | None => {| rows := rows st; selected := selected st; observed := observed st || matches |}
  end.

(** [selector.is_none_or(|selector| selector == identity)] *)
Definition selects (selector : option string) (identity : string) : bool :=
  match selector with None => true | Some s => String.eqb s identity end.

Section project_at.
  Context {R : Type} `{RecordShape R}.

Fixpoint row_array_loop (record : R) (emits : bool) (out : list value) (l : list value) :
    BM (list value) :=
  match l with
  | [] => bret out
  | v :: l =>
      let* _ := bwhen emits (let* _ := emit in bytes (usize_from (nonempty out))) in
      let* r := project_record record v None emits in
      row_array_loop record emits (match r with Some r => out ++ [r] | None => out end) l
  end.

(** The charges of an emitted row of an identified collection. *)
Definition row_charge (emit_row selecting : bool) (st : Rows) : BM unit :=
  bwhen emit_row (
    let* _ := emit in
    bwhen (negb selecting) (bytes (usize_from (nonempty (rows st))))).

Fixpoint object_array_loop (record : R) (identity_source : string) (max : Z)
    (selector : option string) (emits : bool) (identities : list string) (st : Rows) (l : list value) :
    BM Rows :=
  match l with
  | [] => bret st
  | v :: l =>
      let* found := blift (lookup v identity_source) in
      let* identity := blift (ok_or (found ≫= as_str) InvalidOutput) in
      if negb (valid_identity identity max) then berr InvalidOutput
      else
        let* identities := blift (ok_or (fresh_insert identity identities) InvalidOutput) in
        let matches := selects selector identity in
        let emit_row := emits && matches in
        let* _ := row_charge emit_row (is_some selector) st in
        let* r := project_record record v None emit_row in
        object_array_loop record identity_source max selector emits identities
          (add_row (is_some selector) matches r st) l
  end.

Fixpoint object_entries_loop (record : R) (k : TextIdentity)
    (selector : option string) (emits : bool) (st : Rows) (l : list (string * value)) : BM Rows :=
  match l with
  | [] => bret st
  | (identity, v) :: l =>
      if negb (valid_identity identity (id_max_bytes k)) then berr InvalidOutput
      else
        let matches := selects selector identity in
        let emit_row := emits && matches in
        let* _ := row_charge emit_row (is_some selector) st in
        let* r := project_record record v (Some (k, identity)) emit_row in
        object_entries_loop record k selector emits (add_row (is_some selector) matches r st) l
  end.

Fixpoint scalar_array_loop (name : string) (k : ScalarKind) (unique emits : bool)
    (identities : list Scalar) (out : list value) (l : list value) : BM (list value) :=
  match l with
  | [] => bret out
  | v :: l =>
      let* scalar := blift (read k v) in
      if unique && bool_decide (scalar = SText EmptyString) then berr InvalidOutput
      else
        let* out :=
          if emits then
            let* _ := emit in
            let* _ := bytes (2 + usize_from (nonempty out)) in
            let* _ := key name false in
            let* v := to_value scalar in
            bret (out ++ [VObj (bt_insert name v [])])
          else bret out in
        if unique then
          let* identities := blift (ok_or (fresh_insert scalar identities) InvalidOutput) in
          scalar_array_loop name k unique emits identities out l
        else scalar_array_loop name k unique emits identities out l
  end.

(** What follows the row loops of [project_at]. *)
Definition finish_rows (selecting emits : bool) (st : Rows) : BM (option value) :=
  if selecting && negb (observed st) then berr SelectionNotObserved
  else if negb emits then bret None
  else bret (if selecting then selected st else Some (VArr (rows st))).

Definition project_at (c : Collection R) (src : value) (selector : option string) (emits : bool) :
    BM (option value) :=
  match c with
  | TextOption _ max_items max_bytes =>
      if is_some selector then berr InvalidDefinition
      else project_text_option src max_items max_bytes emits
  | _ =>
      let* _ := bwhen (emits && negb (is_some selector)) (bytes 2) in
      let* st :=
        match c with
        | TextOption _ _ _ => berr InvalidDefinition
        | RowArray _ max_items record =>
            if is_some selector then berr InvalidDefinition
            else
              let* values := blift (ok_or (as_array src) InvalidOutput) in
              let* _ := scan (zlen values) max_items in
              let* out := row_array_loop record emits [] values in
              bret {| rows := out; selected := None; observed := false |}
        | ObjectArray _ max_items identity record =>
            let* values := blift (ok_or (as_array src) InvalidOutput) in
            let* _ := scan (zlen values) max_items in
            let* field := blift (ok_or (List.find (fun field => String.eqb (name field) identity)
                                         (shape_fields record)) InvalidDefinition) in
            let* max := blift (ok_or (identity_limit c) InvalidDefinition) in
            object_array_loop record (source field) max selector emits [] Rows_new values
        | ObjectEntries _ max_items k record =>
            let* values := blift (ok_or (as_object src) InvalidOutput) in
            let* _ := scan (zlen values) max_items in
            object_entries_loop record k selector emits Rows_new values
        | ScalarArray _ max_items name k unique =>
            if is_some selector then berr InvalidDefinition
            else
              let* values := blift (ok_or (as_array src) InvalidOutput) in
              let* _ := scan (zlen values) max_items in
              let* out := scalar_array_loop name k unique emits [] [] values in
              bret {| rows := out; selected := None; observed := false |}
        end in
      finish_rows (is_some selector) emits st
  end.

Fixpoint record_collections_loop (src : value) (emits : bool) (out : obj)
    (l : list (CollectionField (Collection R))) : BM obj :=
  match l with
  | [] => bret out
  | field :: l =>
      let* found := blift (lookup src (c_source (collection field))) in
      match found with
      | None =>
          if decide (c_presence field = Required) then berr InvalidOutput
          else record_collections_loop src emits out l
      | Some v =>
          let* _ := bwhen emits (key (c_name field) (nonempty out)) in
          let* r := project_at (collection field) v None emits in
          record_collections_loop src emits
            (match r with Some v => bt_insert (c_name field) v out | None => out end) l
      end
  end.

Definition project_nested (r : SchemaRecord (Collection R)) (src : value)
    (k : option (TextIdentity * string)) (emits : bool) : BM (option value) :=
  let* out := record_fields (fields r) src k emits in
  let* out := record_collections_loop src emits out (collections r) in
  bret (if emits then Some (VObj out) else None).
End project_at.

#[export] Instance SchemaRecord_shape `{RecordShape R} : RecordShape (SchemaRecord (Collection R)) := {|
  shape_fields := fields;
  validate_record := validate_nested;
  project_record := project_nested
|}.

(** ** [TypedProjection] *)
Definition reject_if_present (p : TypedProjection) : list string :=
  match p with
  | ProjectRecord guards _ => guards
  | ProjectCollection guards _ _ => guards
  end.

Fixpoint collect {E A B} (f : A -> result E B) (l : list A) : result E (list B) :=
  match l with
  | [] => Ok []
  | x :: l => let? y := f x in let? ys := collect f l in Ok (y :: ys)
  end.

Inductive ParameterKind : Type := PString | PInteger | PBoolean.
#[export] Instance ParameterKind_eq_dec : EqDecision ParameterKind.
Proof. solve_decision. Defined.

(** [Parameter] (a Rocq keyword) *)
Record ParamSpec : Type := {
  p_kind : ParameterKind;
  p_required : bool;
  allowed_values : list string
}.

Definition validate_selection (c : Collection InnerRecord) (s : Selection)
    (parameters : list (string * ParamSpec)) : result CoreError unit :=
  match s with
  | All => Ok tt
  | ExactOne parameter =>
      let? max := ok_or (identity_limit c) InvalidDefinition in
      let? p := ok_or (bt_get parameter parameters) InvalidDefinition in
      fail_if negb (p_required p) || negb (bool_decide (p_kind p = PString))
           || existsb (fun v => negb (valid_identity v max)) (allowed_values p) with InvalidDefinition in
      Ok tt
  end.

Definition validate_projection (p : TypedProjection) (parameters : list (string * ParamSpec)) :
    result CoreError unit :=
  let guards := reject_if_present p in
  fail_if MAX_ROOT_GUARDS <? zlen guards with InvalidDefinition in
  let? paths := collect (fun path => pointer_segments path false) guards in
  fail_if adjacent_prefix paths with InvalidDefinition in
  match p with
  | ProjectRecord _ record => let? _ := validate_record record 1 0 None in Ok tt
  | ProjectCollection _ collection selection =>
      let? _ := validate_collection collection 1 0 in
      validate_selection collection selection parameters
  end.

Definition projection_selector (p : TypedProjection) : option (string * Z) :=
  match p with
  | ProjectCollection _ collection (ExactOne parameter) =>
      max ← identity_limit collection; Some (parameter, max)
  | _ => None
  end.

Fixpoint reject_guards (src : value) (guards : list string) : result CoreError unit :=
  match guards with
  | [] => Ok tt
  | pointer :: guards =>
      let? found := lookup src pointer in
      fail_if is_some found with InvalidOutput in
      reject_guards src guards
  end.

Definition selection_is_one (s : Selection) : bool :=
  match s with ExactOne _ => true | All => false end.

Definition project (definition : TypedProjection) (selector : option string) (src : value) :
    result CoreError value :=
  let? _ := reject_guards src (reject_if_present definition) in
  let? r :=
    match definition with
    | ProjectRecord _ record => project_record record src None true Budget_default
    | ProjectCollection _ collection selection =>
        fail_if negb (Bool.eqb (selection_is_one selection) (is_some selector)) with InvalidDefinition in
        let? found := lookup src (c_source collection) in
        let? v := ok_or found InvalidOutput in
        (let* _ := bwhen (negb (is_some selector)) (
           let* _ := bytes 2 in key "items" false) in
         let* r := project_at collection v selector true in
         if is_some selector then bret r
         else
           let* items := blift (ok_or r InvalidOutput) in
           bret (Some (VObj (bt_insert "items" items [])))) Budget_default
    end in
  ok_or (fst r) InvalidOutput.

(** * Reference semantics of projection

    What a validated projection of a device's output is, without budgets and
    without the single-pass bookkeeping: each record is the ordered map of the
    fields it reads, each collection the array of its rows, and [Z] counts the
    collection items scanned.  [Projection.v] proves that the program's
    budgeted evaluator computes exactly this, or fails with [OutputLimit]. *)

Definition scalar_value (s : Scalar) : value :=
  match s with
  | SBoolean b => VBool b
  | SText t => VStr t
  | SInteger n => value_of_i64 n
  | SCounter n => VStr (dec n)
  end.

Definition read_field (src : value) (field : ScalarField) : result CoreError obj :=
  let? found := lookup src (source field) in
  match found with
  | None => if decide (presence field = Required) then Err InvalidOutput else Ok []
  | Some v => let? s := read (kind field) v in Ok [(name field, scalar_value s)]
  end.

Fixpoint concat_results {A B} (f : A -> result CoreError (list B)) (l : list A) :
    result CoreError (list B) :=
  match l with
  | [] => Ok []
  | x :: l => let? y := f x in let? ys := concat_results f l in Ok (y ++ ys)
  end.

Definition key_entry (k : option (TextIdentity * string)) : result CoreError obj :=
  match k with
  | None => Ok []
  | Some (identity, v) =>
      fail_if negb (valid_identity v (id_max_bytes identity)) with InvalidOutput in
      Ok [(id_name identity, VStr v)]
  end.

(** The entries contributed by the key and the scalar fields. *)
Definition fields_value (fields : list ScalarField) (src : value)
    (k : option (TextIdentity * string)) : result CoreError obj :=
  fail_if negb (is_object src) with InvalidOutput in
  let? head := key_entry k in
  let? tl := concat_results (read_field src) fields in
  Ok (head ++ tl).

(** A reference value with the number of items scanned to produce it. *)
Definition counted (A : Type) : Type := result CoreError (A * Z).

Definition check_count (count max : Z) : result CoreError unit :=
  fail_if max <? count with OutputLimit in Ok tt.

Class RecordSpec (R : Type) : Type :=
  record_value : R -> value -> option (TextIdentity * string) -> counted value.

Definition leaf_value (r : LeafRecord) (src : value) (k : option (TextIdentity * string)) : counted value :=
  let? entries := fields_value (leaf_fields r) src k in
  Ok (VObj (bt_of_list entries), 0).
#[export] Instance LeafRecord_spec : RecordSpec LeafRecord := leaf_value.

Fixpoint counted_list {A B} (f : A -> counted B) (l : list A) : counted (list B) :=
  match l with
  | [] => Ok ([], 0)
  | x :: l =>
      let? y := f x in
      let? ys := counted_list f l in
      Ok (fst y :: fst ys, snd y + snd ys)
  end.

(** Rows labelled with their identity. *)
Definition idrow : Type := string * (value * Z).
Definition row_values (rs : list idrow) : list value := (fun r => fst (snd r)) <$> rs.
Definition row_scans (rs : list idrow) : Z := foldr (fun r n => snd (snd r) + n) 0 rs.

Section collections.
  Context {R : Type} `{RecordShape R} `{RecordSpec R}.

Fixpoint array_rows (record : R) (identity_source : string) (max : Z) (identities : list string)
    (l : list value) : result CoreError (list idrow) :=
  match l with
  | [] => Ok []
  | v :: l =>
      let? found := lookup v identity_source in
      let? identity := ok_or (found ≫= as_str) InvalidOutput in
      fail_if negb (valid_identity identity max) with InvalidOutput in
      let? identities := ok_or (fresh_insert identity identities) InvalidOutput in
      let? r := record_value record v None in
      let? rest := array_rows record identity_source max identities l in
      Ok ((identity, r) :: rest)
  end.

Fixpoint entry_rows (record : R) (k : TextIdentity) (l : obj) : result CoreError (list idrow) :=
  match l with
  | [] => Ok []
  | (identity, v) :: l =>
      fail_if negb (valid_identity identity (id_max_bytes k)) with InvalidOutput in
      let? r := record_value record v (Some (k, identity)) in
      let? rest := entry_rows record k l in
      Ok ((identity, r) :: rest)
  end.

(** The items of a [ScalarArray]. *)
Fixpoint scalar_rows (name : string) (k : ScalarKind) (unique : bool) (identities : list Scalar)
    (l : list value) : result CoreError (list value) :=
  match l with
  | [] => Ok []
  | v :: l =>
      let? s := read k v in
      fail_if unique && bool_decide (s = SText EmptyString) with InvalidOutput in
      let? identities :=
        if unique then ok_or (fresh_insert s identities) InvalidOutput else Ok identities in
      let? rest := scalar_rows name k unique identities l in
      Ok (VObj [(name, scalar_value s)] :: rest)
  end.

(** The identified rows of a collection that has identities. *)
Definition collection_rows (c : Collection R) (src : value) : result CoreError (list idrow) :=
  match c with
  | ObjectArray _ max_items identity record =>
      let? values := ok_or (as_array src) InvalidOutput in
      let? _ := check_count (zlen values) max_items in
      let? field := ok_or (List.find (fun field => String.eqb (name field) identity)
                             (shape_fields record)) InvalidDefinition in
      let? max := ok_or (identity_limit c) InvalidDefinition in
      array_rows record (source field) max [] values
  | ObjectEntries _ max_items k record =>
      let? values := ok_or (as_object src) InvalidOutput in
      let? _ := check_count (zlen values) max_items in
      entry_rows record k values
  | _ => Err InvalidDefinition
  end.

Definition text_option_parts (src : value) : result CoreError (string * list value) :=
  match src with
  | VStr _ => Ok ("string", [src])
  | VArr values => Ok ("list", values)
  | _ => Err InvalidOutput
  end.

Definition collection_value (c : Collection R) (src : value) : counted value :=
  match c with
  | TextOption _ max_items max_bytes =>
      let? shape := text_option_parts src in
      let? _ := check_count (zlen (snd shape)) max_items in
      let? ts := collect (fun v => let? s := read (Text max_bytes) v in Ok (scalar_value s)) (snd shape) in
      Ok (VObj [("kind", VStr (fst shape)); ("values", VArr ts)], zlen (snd shape))
  | RowArray _ max_items record =>
      let? values := ok_or (as_array src) InvalidOutput in
      let? _ := check_count (zlen values) max_items in
      let? rs := counted_list (fun v => record_value record v None) values in
      Ok (VArr (fst rs), zlen values + snd rs)
  | ScalarArray _ max_items name k unique =>
      let? values := ok_or (as_array src) InvalidOutput in
      let? _ := check_count (zlen values) max_items in
      let? rs := scalar_rows name k unique [] values in
      Ok (VArr rs, zlen values)
  | _ =>
      let? rs := collection_rows c src in
      Ok (VArr (row_values rs), zlen rs + row_scans rs)
  end.

(** One row, selected by its identity; all rows are still checked. *)
Definition collection_selected (c : Collection R) (src : value) (selector : string) : counted value :=
  let? rs := collection_rows c src in
  let? r := ok_or (List.find (fun r => String.eqb selector (fst r)) rs) SelectionNotObserved in
  Ok (fst (snd r), zlen rs + row_scans rs).

Definition collection_entry (src : value) (field : CollectionField (Collection R)) : counted obj :=
  let? found := lookup src (c_source (collection field)) in
  match found with
  | None => if decide (c_presence field = Required) then Err InvalidOutput else Ok ([], 0)
  | Some v =>
      let? r := collection_value (collection field) v in
      Ok ([(c_name field, fst r)], snd r)
  end.

Definition nested_value (r : SchemaRecord (Collection R)) (src : value)
    (k : option (TextIdentity * string)) : counted value :=
  let? head := fields_value (fields r) src k in
  let? tl := counted_list (collection_entry src) (collections r) in
  Ok (VObj (bt_of_list (head ++ mjoin (fst tl))), snd tl).
End collections.

#[export] Instance SchemaRecord_spec `{RecordShape R, RecordSpec R} :
  RecordSpec (SchemaRecord (Collection R)) := nested_value.

(** The projection of an output, with the number of items it scanned. *)
Definition reference (definition : TypedProjection) (selector : option string) (src : value) :
    counted value :=
  let? _ := reject_guards src (reject_if_present definition) in
  match definition with
  | ProjectRecord _ record => record_value record src None
  | ProjectCollection _ collection selection =>
      fail_if negb (Bool.eqb (selection_is_one selection) (is_some selector)) with InvalidDefinition in
      let? found := lookup src (c_source collection) in
      let? v := ok_or found InvalidOutput in
      match selector with
      | Some s => collection_selected collection v s
      | None =>
          let? r := collection_value collection v in
          Ok (VObj [("items", fst r)], snd r)
      end
  end.
