(* ===== verification/Operation.v ===== *)
(** * Operations

    The operator's metadata of one tool: [crates/core/src/operation.rs], with
    its capability prerequisites ([capability.rs]) and the closed UCI read
    recipes ([uci.rs]) that its validation consults.

    Three functions of [serde_json] are parameters: the length of the
    serialized definition ([to_vec]), [Value::pointer] and [from_str]. *)
From S2P Require Import Prelude Order Text Json Core Budget Packages Schema Evaluate.
Open Scope Z_scope.

Definition MAX_PARAMETERS : Z := 32.
Definition MAX_ARGUMENTS : Z := 64.
Definition MAX_OUTPUT_FIELDS : Z := 64.
Definition MAX_VALUE_BYTES : Z := 1024.
Definition MAX_DEFINITION_BYTES : Z := 16 * 1024.
Definition CAPABILITY_TOOL_NAME : string := "operation_capability".
Definition MAX_OBSERVED_METHODS : Z := 128.
Definition MAX_OBSERVED_ARGUMENTS : Z := 64.
Definition MAX_OBSERVED_METHOD_NAME_BYTES : Z := 128.
Definition MAX_OBSERVED_ARGUMENT_NAME_BYTES : Z := 64.
Definition UBUS_INTEGER_MIN : Z := -2147483648.
Definition UBUS_INTEGER_MAX : Z := 2147483647.

Inductive Action : Type :=
| ApkInstalledPage
| OpkgStatusPage
| Ubus (object method : string) (arguments : list (string * value))
| Process (program : string) (args : list string).

Inductive OutputMode : Type :=
| Scalars
| Structured
| Typed (projection : TypedProjection).

Inductive PreparedAction : Type :=
| PreparedOpkg (cursor : option string)
| PreparedApk (cursor : option string)
| PreparedUbus (object method : string) (arguments : value)
| PreparedProcess (program : string) (args : list string).

Definition package_profile (a : Action) : option PackageProfile :=
  match a with
  | ApkInstalledPage => Some Apk3_0_5
  | OpkgStatusPage => Some Opkg38eccbb1RootStatus
  | _ => None
  end.

Definition package_page (a : PreparedAction) : option (PackageProfile * option string) :=
  match a with
  | PreparedApk cursor => Some (Apk3_0_5, cursor)
  | PreparedOpkg cursor => Some (Opkg38eccbb1RootStatus, cursor)
  | _ => None
  end.

(** ** Capabilities *)
Inductive ReviewedObject : Type :=
| ROSystem | RONetworkDevice | RONetworkInterface | RONetworkInterfaceLan | RONetworkInterfaceWan
| ROIwinfo | ROService | ROLuci | ROLuciRpc | ROUci.

#[export] Instance ReviewedObject_eq_dec : EqDecision ReviewedObject.
Proof. solve_decision. Defined.

Definition ReviewedObject_ALL : list ReviewedObject :=
  [ROSystem; RONetworkDevice; RONetworkInterface; RONetworkInterfaceLan; RONetworkInterfaceWan;
   ROIwinfo; ROService; ROLuci; ROLuciRpc; ROUci].

Definition as_name (o : ReviewedObject) : string :=
  match o with
  | ROSystem => "system"
  | RONetworkDevice => "network.device"
  | RONetworkInterface => "network.interface"
  | RONetworkInterfaceLan => "network.interface.lan"
  | RONetworkInterfaceWan => "network.interface.wan"
  | ROIwinfo => "iwinfo"
  | ROService => "service"
  | ROLuci => "luci"
  | ROLuciRpc => "luci-rpc"
  | ROUci => "uci"
  end.

Definition from_name (name : string) : option ReviewedObject :=
  List.find (fun o => String.eqb (as_name o) name) ReviewedObject_ALL.

Inductive CapabilityRequirement : Type :=
| ApkInstalledQuery
| OpkgRootStatusFile
| UbusMethod (object method : string) (arguments : list (string * ParameterKind)) (response_contract : string)
| Unverified.

Inductive UbusArgumentType : Type := UString | UInteger | UBoolean | UArray | UTable | UUnknown.
#[export] Instance UbusArgumentType_eq_dec : EqDecision UbusArgumentType.
Proof. solve_decision. Defined.

Record MethodSignature : Type := { sig_arguments : list (string * UbusArgumentType) }.

Record ObjectObservation : Type := {
  ob_object : ReviewedObject;
  ob_methods : list (string * MethodSignature)
}.

Definition observation_validate (o : ObjectObservation) : result CoreError unit :=
  fail_if MAX_OBSERVED_METHODS <? zlen (ob_methods o) with InvalidDefinition in
  fail_if existsb (fun p : string * MethodSignature =>
      (MAX_OBSERVED_METHOD_NAME_BYTES <? slen (fst p))
      || negb (ubus_identifier (fst p))
      || (MAX_OBSERVED_ARGUMENTS <? zlen (sig_arguments (snd p)))
      || existsb (fun a : string * UbusArgumentType =>
           (MAX_OBSERVED_ARGUMENT_NAME_BYTES <? slen (fst a)) || negb (ubus_identifier (fst a)))
           (sig_arguments (snd p))) (ob_methods o) with InvalidDefinition in
  Ok tt.

Inductive UnknownReason : Type :=
| NotObservedOrHidden | IncompleteSignature | UnrecognizedType | UnreviewedProbe
| ProbeUnavailable | InvalidObservation | StaleObservation.
#[export] Instance UnknownReason_eq_dec : EqDecision UnknownReason.
Proof. solve_decision. Defined.

Definition unknown_code (r : UnknownReason) : string :=
  match r with
  | NotObservedOrHidden => "not_observed_or_hidden"
  | IncompleteSignature => "incomplete_signature"
  | UnrecognizedType => "unrecognized_type"
  | UnreviewedProbe => "unreviewed_probe"
  | ProbeUnavailable => "probe_unavailable"
  | InvalidObservation => "invalid_observation"
  | StaleObservation => "stale_observation"
  end.

Inductive CapabilityObservation : Type :=
| ObservedUnknown (reason : UnknownReason)
| ObservedUbus (observation : ObjectObservation).

Inductive IncompatibilityReason : Type := ArgumentTypeMismatch | InvalidPreparedAction.

Definition incompatible_code (r : IncompatibilityReason) : string :=
  match r with
  | ArgumentTypeMismatch => "argument_type_mismatch"
  | InvalidPreparedAction => "invalid_prepared_action"
  end.

Inductive Verdict : Type :=
| Compatible
| Incompatible (reason : IncompatibilityReason)
| Unknown (reason : UnknownReason).

Definition response_identifier (value : string) : bool :=
  match rsplit_once ".v" value with
  | None => false
  | Some (name, version) =>
      (slen value <=? 128)
      && ubus_identifier name
      && negb (is_empty version)
      && negb (starts_with "0" version)
      && all_bytes is_ascii_digit version
      && is_some (parse_unsigned 4294967295 version)
  end.

Definition checked_integer (v : value) : bool :=
  match as_i64 v with
  | Some number => in_range UBUS_INTEGER_MIN UBUS_INTEGER_MAX number
  | None => false
  end.

Definition value_matches (v : value) (k : ParameterKind) : bool :=
  match k with
  | PString => match as_str v with Some t => (slen t <=? 1024) && negb (contains_nul t) | None => false end
  | PInteger => checked_integer v
  | PBoolean => is_boolean v
  end.

Definition probe_object (c : CapabilityRequirement) : option ReviewedObject :=
  match c with
  | UbusMethod object _ _ _ => from_name object
  | Unverified => None
  | ApkInstalledQuery | OpkgRootStatusFile => None
  end.

Definition response_contract (c : CapabilityRequirement) : option string :=
  match c with
  | UbusMethod _ _ _ contract => Some contract
  | Unverified => None
  | ApkInstalledQuery => Some PACKAGE_RESPONSE_CONTRACT
  | OpkgRootStatusFile => Some OPKG_RESPONSE_CONTRACT
  end.

Definition valid_shape (c : CapabilityRequirement) : bool :=
  match c with
  | Unverified => true
  | ApkInstalledQuery | OpkgRootStatusFile => true
  | UbusMethod object method arguments contract =>
      ubus_identifier object
      && ubus_identifier method
      && (zlen arguments <=? MAX_OBSERVED_ARGUMENTS)
      && forallb (fun a => identifier (fst a)) arguments
      && response_identifier contract
  end.

(** The loop over the action's arguments in [validate_for]. *)
Fixpoint validate_arguments (arguments : list (string * ParameterKind))
    (parameters : list (string * ParamSpec)) (l : list (string * value)) : result CoreError unit :=
  match l with
  | [] => Ok tt
  | (name, v) :: l =>
      let? kind :=
        match v with
        | VStr t =>
            match parameter_reference t with
            | Some parameter =>
                let? p := ok_or (bt_get parameter parameters) InvalidDefinition in Ok (p_kind p)
            | None => Ok PString
            end
        | VBool _ => Ok PBoolean
        | VNum _ => if checked_integer v then Ok PInteger else Err InvalidDefinition
        | _ => Err InvalidDefinition
        end in
      fail_if negb (bool_decide (bt_get name arguments = Some kind)) with InvalidDefinition in
      validate_arguments arguments parameters l
  end.

Definition validate_for (c : CapabilityRequirement) (a : Action) (parameters : list (string * ParamSpec)) :
    result CoreError unit :=
  fail_if negb (valid_shape c) with InvalidDefinition in
  match c, a with
  | ApkInstalledQuery, ApkInstalledPage => Ok tt
  | OpkgRootStatusFile, OpkgStatusPage => Ok tt
  | Unverified, Process _ _ => Ok tt
  | UbusMethod object method arguments _, Ubus action_object action_method action_arguments =>
      if String.eqb object action_object && String.eqb method action_method
         && Nat.eqb (length arguments) (length action_arguments)
      then validate_arguments arguments parameters action_arguments
      else Err InvalidDefinition
  | _, _ => Err InvalidDefinition
  end.

(** The loop over the declared arguments in [evaluate]: the flags found so
    far, or the mismatch that ends it. *)
Fixpoint evaluate_arguments (actual : option (list (string * value))) (signature : MethodSignature)
    (incomplete unknown_type : bool) (l : list (string * ParameterKind)) : Verdict :=
  match l with
  | [] =>
      if incomplete then Unknown IncompleteSignature
      else if unknown_type then Unknown UnrecognizedType
      else Compatible
  | (name, kind) :: l =>
      if match actual with Some values => negb (bt_contains name values) | None => false end
      then evaluate_arguments actual signature incomplete unknown_type l
      else
        match bt_get name (sig_arguments signature) with
        | None => evaluate_arguments actual signature true unknown_type l
        | Some observed =>
            let expected := match kind with PString => UString | PInteger => UInteger | PBoolean => UBoolean end in
            if decide (observed = UUnknown) then evaluate_arguments actual signature incomplete true l
            else if decide (observed <> expected) then Incompatible ArgumentTypeMismatch
            else evaluate_arguments actual signature incomplete unknown_type l
        end
  end.

(** The prepared action's transmitted fields: [Err] is the early return. *)
Definition transmitted (object method : string) (arguments : list (string * ParameterKind))
    (prepared : option PreparedAction) : result Verdict (option (list (string * value))) :=
  match prepared with
  | None => Ok None
  | Some (PreparedUbus actual_object actual_method actual_arguments) =>
      if String.eqb actual_object object && String.eqb actual_method method then
        match as_object actual_arguments with
        | None => Err (Incompatible InvalidPreparedAction)
        | Some actual =>
            if (zlen arguments <? zlen actual)
               || existsb (fun p : string * value =>
                    negb match bt_get (fst p) arguments with
                         | Some kind => value_matches (snd p) kind
                         | None => false
                         end) actual
            then Err (Incompatible InvalidPreparedAction)
            else Ok (Some actual)
        end
      else Err (Incompatible InvalidPreparedAction)
  | Some _ => Err (Incompatible InvalidPreparedAction)
  end.

Definition evaluate (c : CapabilityRequirement) (observation : CapabilityObservation)
    (prepared : option PreparedAction) : Verdict :=
  match c with
  | UbusMethod object method arguments _ =>
      if negb (valid_shape c) then Unknown InvalidObservation
      else
        match probe_object c with
        | None => Unknown UnreviewedProbe
        | Some reviewed =>
            match transmitted object method arguments prepared with
            | Err verdict => verdict
            | Ok actual =>
                match observation with
                | ObservedUnknown reason => Unknown reason
                | ObservedUbus o =>
                    if negb (bool_decide (ob_object o = reviewed)) || negb (is_ok (observation_validate o))
                    then Unknown InvalidObservation
                    else
                      match bt_get method (ob_methods o) with
                      | None => Unknown NotObservedOrHidden
                      | Some signature => evaluate_arguments actual signature false false arguments
                      end
                end
            end
        end
  | _ => Unknown UnreviewedProbe
  end.

(** ** Operations *)
Record Operation : Type := {
  op_name : string;
  description : string;
  requirements : list Requirement;
  parameters : list (string * ParamSpec);
  action : Action;
  capability : CapabilityRequirement;
  output_fields : list string;
  output_mode : OutputMode
}.

(** ** The closed UCI recipes *)
Inductive UciReadProfile : Type :=
| USystem | UNetworkInterfaces | UWirelessRadios | UFirewallDefaults | UDnsmasq | UMounts | UTimeservers
| UNetworkDevices | UBridgeVlans | URoutesV4 | URoutesV6 | URulesV4 | URulesV6 | UFirewallZones
| UFirewallForwardings | UFirewallRules | UFirewallRedirects | UFirewallNats | UDhcpPools | UDhcpHosts
| UDnsDomains | UDnsCnames | UStorageGlobals | USwaps | ULeds | UDropbear | UUhttpd | UOdhcpd.

Definition UciReadProfile_ALL : list UciReadProfile :=
  [USystem; UNetworkInterfaces; UWirelessRadios; UFirewallDefaults; UDnsmasq; UMounts; UTimeservers;
   UNetworkDevices; UBridgeVlans; URoutesV4; URoutesV6; URulesV4; URulesV6; UFirewallZones;
   UFirewallForwardings; UFirewallRules; UFirewallRedirects; UFirewallNats; UDhcpPools; UDhcpHosts;
   UDnsDomains; UDnsCnames; UStorageGlobals; USwaps; ULeds; UDropbear; UUhttpd; UOdhcpd].

Definition config (p : UciReadProfile) : string :=
  match p with
  | USystem | UTimeservers | ULeds => "system"
  | UDropbear => "dropbear"
  | UUhttpd => "uhttpd"
  | UNetworkInterfaces | UNetworkDevices | UBridgeVlans | URoutesV4 | URoutesV6 | URulesV4 | URulesV6 => "network"
  | UWirelessRadios => "wireless"
  | UFirewallDefaults | UFirewallZones | UFirewallForwardings | UFirewallRules | UFirewallRedirects
  | UFirewallNats => "firewall"
  | UDnsmasq | UDhcpPools | UDhcpHosts | UDnsDomains | UDnsCnames | UOdhcpd => "dhcp"
  | UMounts | UStorageGlobals | USwaps => "fstab"
  end.

Definition section_type (p : UciReadProfile) : string :=
  match p with
  | USystem => "system"
  | UNetworkInterfaces => "interface"
  | UWirelessRadios => "wifi-device"
  | UFirewallDefaults => "defaults"
  | UDnsmasq => "dnsmasq"
  | UMounts => "mount"
  | UTimeservers => "timeserver"
  | UNetworkDevices => "device"
  | UBridgeVlans => "bridge-vlan"
  | URoutesV4 => "route"
  | URoutesV6 => "route6"
  | URulesV4 | UFirewallRules => "rule"
  | URulesV6 => "rule6"
  | UFirewallZones => "zone"
  | UFirewallForwardings => "forwarding"
  | UFirewallRedirects => "redirect"
  | UFirewallNats => "nat"
  | UDhcpPools => "dhcp"
  | UDhcpHosts => "host"
  | UDnsDomains => "domain"
  | UDnsCnames => "cname"
  | UStorageGlobals => "global"
  | USwaps => "swap"
  | ULeds => "led"
  | UDropbear => "dropbear"
  | UUhttpd => "uhttpd"
  | UOdhcpd => "odhcpd"
  end.

Definition uci_category (p : UciReadProfile) : Category :=
  match p with
  | USystem | UTimeservers | ULeds | UDropbear | UUhttpd => System
  | UNetworkInterfaces | UNetworkDevices | UBridgeVlans | URoutesV4 | URoutesV6 | URulesV4 | URulesV6 => Network
  | UWirelessRadios => Wireless
  | UFirewallDefaults | UFirewallZones | UFirewallForwardings | UFirewallRules | UFirewallRedirects
  | UFirewallNats => Firewall
  | UDnsmasq | UDhcpPools | UDhcpHosts | UDnsDomains | UDnsCnames | UOdhcpd => DhcpDns
  | UMounts | UStorageGlobals | USwaps => Storage
  end.

(** [arguments.get(name).and_then(Value::as_str) == Some(text)] *)
Definition argument_is (name text : string) (arguments : list (string * value)) : bool :=
  match bt_get name arguments with
  | Some v => match as_str v with Some t => String.eqb t text | None => false end
  | None => false
  end.

Definition uci_profile (arguments : list (string * value)) : option UciReadProfile :=
  List.find (fun p => argument_is "config" (config p) arguments && argument_is "type" (section_type p) arguments)
    UciReadProfile_ALL.

Definition is_text_option {R} (c : Collection R) : bool := match c with TextOption _ _ _ => true | _ => false end.

Definition uci_type_field (p : UciReadProfile) (field : ScalarField) : bool :=
  String.eqb (source field) "/.type"
  && bool_decide (presence field = Required)
  && match kind field with
     | TextEnum _ values => bool_decide (values = [section_type p])
     | _ => false
     end.

Definition validate_read (o : Operation) : result CoreError unit :=
  match action o with
  | Ubus object method arguments =>
      if negb (String.eqb object "uci") then Ok tt
      else
        let? profile := ok_or (uci_profile arguments) InvalidDefinition in
        fail_if negb (String.eqb method "get") || negb (Nat.eqb (length arguments) 2)
             || negb (Nat.eqb (length (parameters o)) 0)
             || negb (bool_decide ({| category := uci_category profile; permission := Read |} ∈ requirements o))
          with InvalidDefinition in
        match output_mode o with
        | Typed (ProjectCollection reject_if_present (ObjectEntries source max_items key record) All) =>
            fail_if negb (String.eqb source "/values")
                 || negb (in_range 1 128 max_items)
                 || negb (in_range 1 256 (id_max_bytes key))
                 || existsb (fun f => negb (is_text_option (collection f))) (collections record)
                 || negb (existsb (fun path => String.eqb path "/error") reject_if_present)
                 || negb (existsb (uci_type_field profile) (fields record)) with InvalidDefinition in
            Ok tt
        | _ => Err InvalidDefinition
        end
  | _ => Ok tt
  end.
