(* ===== verification/Invocation.v ===== *)
(** * Validation, preparation and projection of an operation

    [Operation::validate], [prepare], [input_schema] and [project]
    ([crates/core/src/operation.rs]), the legacy projection
    ([projection/legacy.rs]) and the immutable [PreparedInvocation] that binds
    an action to its projection ([projection.rs]). *)
From S2P Require Import Prelude Order Text Json Core Budget Packages Schema Evaluate Operation.
Open Scope Z_scope.

(** [disjoint_output_fields]: the loop that decodes the pointers. *)
Fixpoint decode_pointers (pointers : list string) : option (list (list string)) :=
  match pointers with
  | [] => Some []
  | pointer :: pointers =>
      if negb (valid_pointer pointer) then None
      else
        rest ← decode_pointers pointers;
        Some ((unescape <$> pointer_parts pointer) :: rest)
  end.
Definition disjoint_output_fields (pointers : list string) : bool :=
  if MAX_OUTPUT_FIELDS <? zlen pointers then false
  else match decode_pointers pointers with
       | None => false
       | Some paths => negb (adjacent_prefix paths)
       end.

Definition bool_text (b : bool) : string := if b then "true" else "false".

Definition scalar_text (v : value) : option string :=
  match v with
  | VStr t => Some t
  | VNum n => if is_some (as_i64 v) || is_some (as_u64 v) then Some (number_text n) else None
  | VBool b => Some (bool_text b)
  | _ => None
  end.

Definition normalize_key (key : string) : string :=
  filter_map_str (fun a => if is_ascii_alphanumeric (byte_of a) then Some (to_lower a) else None) key.
Definition sensitive_key (key : string) : bool :=
  let normalized := normalize_key key in
  ends_with "key" normalized
  || contains_sub "psk" normalized
  || String.eqb normalized "pin"
  || String.eqb normalized "pwd"
  || String.eqb normalized "sae"
  || contains_sub "password" normalized
  || contains_sub "passwd" normalized
  || contains_sub "secret" normalized
  || contains_sub "token" normalized
  || contains_sub "privatekey" normalized
  || contains_sub "presharedkey" normalized
  || contains_sub "credential" normalized
  || contains_sub "qrcode" normalized
  || contains_sub "qrpayload" normalized
  || contains_sub "identity" normalized
  || contains_sub "authorization" normalized
  || contains_sub "cookie" normalized.

Fixpoint redact (v : value) : value :=
  match v with
  | VObj fields =>
      VObj ((fix go l := match l with
                         | [] => []
                         | (k, v) :: l => if sensitive_key k then go l else (k, redact v) :: go l
                         end) fields)
  | VArr values => VArr ((fix go l := match l with [] => [] | v :: l => redact v :: go l end) values)
  | other => other
  end.

(** The pointer names a sensitive key. *)
Definition sensitive_pointer (pointer : string) : bool :=
  existsb (fun part => sensitive_key (unescape part)) (pointer_parts pointer).

(** An allowed integer is the canonical printing of an integer in range. *)
Definition canonical_signed (lo hi : Z) (t : string) : bool :=
  match parse_signed lo hi t with Some n => String.eqb (dec_signed n) t | None => false end.
Definition canonical_unsigned (t : string) : bool :=
  match parse_unsigned U64_MAX t with Some n => String.eqb (dec n) t | None => false end.

Definition is_ubus (a : Action) : bool := match a with Ubus _ _ _ => true | _ => false end.

Definition allowed_value_invalid (a : Action) (k : ParameterKind) (t : string) : bool :=
  match k with
  | PString => false
  | PInteger =>
      if is_ubus a then negb (canonical_signed UBUS_INTEGER_MIN UBUS_INTEGER_MAX t)
      else negb (canonical_signed I64_MIN I64_MAX t) && negb (canonical_unsigned t)
  | PBoolean => negb (String.eqb t "true") && negb (String.eqb t "false")
  end.

Definition parameter_invalid (a : Action) (p : string * ParamSpec) : bool :=
  negb (identifier (fst p))
  || (64 <? zlen (allowed_values (snd p)))
  || existsb (fun v => negb (bounded_string v MAX_VALUE_BYTES)) (allowed_values (snd p))
  || negb (all_distinct (allowed_values (snd p)))
  || existsb (allowed_value_invalid a (p_kind (snd p))) (allowed_values (snd p)).

(** [validate_reference]: the names used so far, or an error. *)
Definition validate_reference (params : list (string * ParamSpec)) (v : string) (used : list string) :
    result CoreError (list string) :=
  fail_if negb (bounded_string v MAX_VALUE_BYTES) with InvalidDefinition in
  match parameter_reference v with
  | Some name =>
      fail_if negb (identifier name) || negb (bt_contains name params) with InvalidDefinition in
      Ok (name :: used)
  | None => Ok used
  end.

Fixpoint validate_ubus_arguments (params : list (string * ParamSpec)) (used : list string)
    (l : list (string * value)) : result CoreError (list string) :=
  match l with
  | [] => Ok used
  | (key, v) :: l =>
      fail_if negb (identifier key) with InvalidDefinition in
      let? used :=
        match v with
        | VStr t => validate_reference params t used
        | VBool _ => Ok used
        | VNum _ => if checked_integer v then Ok used else Err InvalidDefinition
        | _ => Err InvalidDefinition
        end in
      validate_ubus_arguments params used l
  end.

Fixpoint validate_process_args (params : list (string * ParamSpec)) (used : list string) (l : list string) :
    result CoreError (list string) :=
  match l with
  | [] => Ok used
  | arg :: l =>
      let? used := validate_reference params arg used in
      fail_if match (name ← parameter_reference arg; bt_get name params) with
           | Some p => negb (p_required p)
           | None => false
           end with InvalidDefinition in
      validate_process_args params used l
  end.

Definition is_scalars (m : OutputMode) : bool := match m with Scalars => true | _ => false end.

Definition validate_action (o : Operation) (used : list string) : result CoreError (list string) :=
  match action o with
  | ApkInstalledPage | OpkgStatusPage =>
      let? cursor := ok_or (bt_get "cursor" (parameters o)) InvalidDefinition in
      fail_if negb (Nat.eqb (length (parameters o)) 1) || p_required cursor
           || negb (bool_decide (p_kind cursor = PString)) || negb (Nat.eqb (length (allowed_values cursor)) 0)
           || negb (Nat.eqb (length (output_fields o)) 0) || negb (is_scalars (output_mode o))
           || negb (bool_decide ({| category := Packages; permission := Read |} ∈ requirements o))
        with InvalidDefinition in
      Ok ("cursor" :: used)
  | Ubus object method arguments =>
      fail_if negb (ubus_identifier object) || negb (ubus_identifier method)
           || (MAX_ARGUMENTS <? zlen arguments) with InvalidDefinition in
      validate_ubus_arguments (parameters o) used arguments
  | Process program args =>
      fail_if negb (starts_with "/" program) || ends_with_char "/" program
           || negb (bounded_string program 256)
           || negb (all_bytes (fun b => is_ascii_alphanumeric b || byte_in "/_.-" b) program)
           || existsb (fun part => String.eqb part "." || String.eqb part "..") (split_on "/" program)
           || (MAX_ARGUMENTS <? zlen args) with InvalidDefinition in
      validate_process_args (parameters o) used args
  end.

Section invocation.
  Context (definition_size : Operation -> option Z).
  Context (json_pointer : value -> string -> option value).
  Context (from_str : string -> option value).

Definition validate (o : Operation) : result CoreError unit :=
  fail_if negb (identifier (op_name o))
       || String.eqb (op_name o) CAPABILITY_TOOL_NAME
       || trimmed_empty (description o)
       || negb (bounded_string (description o) 512)
       || Nat.eqb (length (requirements o)) 0
       || (36 <? zlen (requirements o))
       || (MAX_PARAMETERS <? zlen (parameters o))
       || negb (all_distinct (requirements o))
       || negb (disjoint_output_fields (output_fields o)) with InvalidDefinition in
  fail_if existsb (parameter_invalid (action o)) (parameters o) with InvalidDefinition in
  let? used :=
    match output_mode o with
    | Typed projection =>
        fail_if negb (Nat.eqb (length (output_fields o)) 0) with InvalidDefinition in
        let? _ := validate_projection projection (parameters o) in
        Ok match projection_selector projection with Some (name, _) => [name] | None => [] end
    | _ => Ok []
    end in
  let? used := validate_action o used in
  fail_if existsb (fun p : string * ParamSpec => negb (bool_decide (fst p ∈ used))) (parameters o)
    with InvalidDefinition in
  let? _ := validate_read o in
  let? _ := validate_for (capability o) (action o) (parameters o) in
  let? size := ok_or (definition_size o) InvalidDefinition in
  fail_if MAX_DEFINITION_BYTES <? size with InvalidDefinition in
  Ok tt.

(** ** Preparation *)
Definition argument_type_valid (a : Action) (k : ParameterKind) (v : value) : bool :=
  match k with
  | PString => match as_str v with Some t => bounded_string t MAX_VALUE_BYTES | None => false end
  | PInteger => if is_ubus a then checked_integer v else is_some (as_i64 v) || is_some (as_u64 v)
  | PBoolean => is_boolean v
  end.

Fixpoint check_inputs (a : Action) (values : list (string * value)) (l : list (string * ParamSpec)) :
    result CoreError unit :=
  match l with
  | [] => Ok tt
  | (name, p) :: l =>
      match bt_get name values with
      | None => fail_if p_required p with MissingArgument in check_inputs a values l
      | Some v =>
          fail_if negb (argument_type_valid a (p_kind p) v) with InvalidArguments in
          let? _ :=
            if Nat.eqb (length (allowed_values p)) 0 then Ok tt
            else
              let? t := ok_or (scalar_text v) InvalidArguments in
              fail_if negb (bool_decide (t ∈ allowed_values p)) with InvalidArguments in
              Ok tt in
          check_inputs a values l
      end
  end.

(** Substitution of the transmitted ubus arguments. *)
Fixpoint prepare_arguments (values : list (string * value)) (prepared : list (string * value))
    (l : list (string * value)) : list (string * value) :=
  match l with
  | [] => prepared
  | (key, v) :: l =>
      match (t ← as_str v; parameter_reference t) with
      | Some name =>
          match bt_get name values with
          | Some v => prepare_arguments values (bt_insert key v prepared) l
          | None => prepare_arguments values prepared l
          end
      | None => prepare_arguments values (bt_insert key v prepared) l
      end
  end.

Fixpoint prepare_args (values : list (string * value)) (l : list string) : result CoreError (list string) :=
  match l with
  | [] => Ok []
  | arg :: l =>
      let? t :=
        match parameter_reference arg with
        | Some name =>
            let? v := ok_or (bt_get name values) MissingArgument in
            ok_or (scalar_text v) InvalidArguments
        | None => Ok arg
        end in
      let? rest := prepare_args values l in
      Ok (t :: rest)
  end.

Definition prepare (o : Operation) (input : value) : result CoreError PreparedAction :=
  let? _ := validate o in
  let? values := ok_or (as_object input) InvalidArguments in
  fail_if existsb (fun p : string * value => negb (bt_contains (fst p) (parameters o))) values
    with UnknownArgument in
  let? _ := check_inputs (action o) values (parameters o) in
  let? _ :=
    match output_mode o with
    | Typed projection =>
        match projection_selector projection with
        | Some (name, max) =>
            let? t := ok_or (v ← bt_get name values; as_str v) InvalidArguments in
            fail_if is_empty t || negb (bounded_string t max) with InvalidArguments in
            Ok tt
        | None => Ok tt
        end
    | _ => Ok tt
    end in
  match action o with
  | ApkInstalledPage | OpkgStatusPage =>
      let cursor := v ← bt_get "cursor" values; as_str v in
      let? _ :=
        match cursor with
        | Some cursor => let? _ := cursor_parse cursor in Ok tt
        | None => Ok tt
        end in
      Ok match action o with ApkInstalledPage => PreparedApk cursor | _ => PreparedOpkg cursor end
  | Ubus object method arguments => Ok (PreparedUbus object method (VObj (prepare_arguments values [] arguments)))
  | Process program args =>
      let? args := prepare_args values args in
      Ok (PreparedProcess program args)
  end.

(** ** The published input schema *)
Definition obj_of (l : list (string * value)) : value := VObj (bt_of_list l).
Definition num (n : Z) : value := value_of_i64 n.

Definition allowed_json (k : ParameterKind) (t : string) : value :=
  match k with
  | PString => VStr t
  | PInteger => match from_str t with Some v => v | None => VNull end
  | PBoolean => VBool (String.eqb t "true")
  end.

Definition selector_limit (o : Operation) (name : string) : option Z :=
  match output_mode o with
  | Typed projection =>
      '(parameter, max) ← projection_selector projection;
      if String.eqb parameter name then Some max else None
  | _ => None
  end.

Definition is_page (o : Operation) : bool := is_some (package_profile (action o)).

Definition parameter_schema (o : Operation) (p : string * ParamSpec) : value :=
  let '(name, spec) := p in
  let schema := [("type", VStr match p_kind spec with
                               | PString => "string" | PInteger => "integer" | PBoolean => "boolean" end)] in
  let schema :=
    if decide (p_kind spec = PString) then
      let limit := selector_limit o name in
      let max := if is_page o then 37 else default MAX_VALUE_BYTES limit in
      let schema := bt_insert "maxLength" (num max) schema in
      let schema := if is_some limit then bt_insert "minLength" (num 1) schema else schema in
      let schema :=
        if is_page o then
          bt_insert "pattern" (VStr "^[0-9a-f]{32}\.[1-9][0-9]{0,3}$") (bt_insert "minLength" (num 34) schema)
        else schema in
      bt_insert "description" (VStr ("At most " +:+ dec max +:+ " UTF-8 bytes; NUL is not permitted.")) schema
    else schema in
  let schema :=
    if bool_decide (p_kind spec = PInteger) && is_ubus (action o) then
      bt_insert "maximum" (num UBUS_INTEGER_MAX) (bt_insert "minimum" (num UBUS_INTEGER_MIN) schema)
    else schema in
  let schema :=
    if Nat.eqb (length (allowed_values spec)) 0 then schema
    else bt_insert "enum" (VArr (allowed_json (p_kind spec) <$> allowed_values spec)) schema in
  VObj schema.

Definition input_schema (o : Operation) : value :=
  let properties := obj_of ((fun p => (fst p, parameter_schema o p)) <$> parameters o) in
  let required := (fun p : string * ParamSpec => VStr (fst p)) <$> filter (fun p => p_required (snd p) = true) (parameters o) in
  obj_of [("type", VStr "object"); ("properties", properties); ("required", VArr required);
          ("additionalProperties", VBool false)].

(** ** Legacy projection *)
Definition legacy_skips (o : Operation) (v : value) : bool :=
  is_scalars (output_mode o) && (is_array v || is_object v).

Fixpoint project_fields (o : Operation) (output : value) (projected : list (string * value)) (l : list string) :
    list (string * value) :=
  match l with
  | [] => projected
  | pointer :: l =>
      if negb (valid_pointer pointer) || sensitive_pointer pointer then project_fields o output projected l
      else
        match json_pointer output pointer with
        | Some v =>
            if legacy_skips o v then project_fields o output projected l
            else project_fields o output (bt_insert pointer (redact v) projected) l
        | None => project_fields o output projected l
        end
  end.

Definition operation_project (o : Operation) (output : value) : value :=
  match output_mode o with
  | Typed _ => VObj []
  | _ =>
      if negb (disjoint_output_fields (output_fields o)) then VObj []
      else VObj (project_fields o output [] (output_fields o))
  end.

(** [legacy.rs]: the budgeted redaction. *)
Fixpoint redact_budgeted (v : value) (depth : Z) : BM value :=
  let* _ := node depth in
  match v with
  | VObj fields =>
      let* _ := bytes 2 in
      let* out :=
        (fix go (out : list (string * value)) (l : list (string * value)) : BM (list (string * value)) :=
           match l with
           | [] => bret out
           | (k, v) :: l =>
               let* _ := node (depth + 1) in
               if MAX_NORMALIZED_BYTES <? slen k then berr OutputLimit
               else if sensitive_key k then go out l
               else
                 let* _ := key k (nonempty out) in
                 let* v := redact_budgeted v (depth + 1) in
                 go (bt_insert k v out) l
           end) [] fields in
      bret (VObj out)
  | VArr values =>
      let* _ := bytes 2 in
      let* out :=
        (fix go (out : list value) (l : list value) : BM (list value) :=
           match l with
           | [] => bret out
           | v :: l =>
               let* _ := bytes (usize_from (nonempty out)) in
               let* v := redact_budgeted v (depth + 1) in
               go (out ++ [v]) l
           end) [] values in
      bret (VArr out)
  | _ => let* _ := scalar v in bret v
  end.

Fixpoint legacy_loop (o : Operation) (src : value) (out : list (string * value)) (l : list string) :
    BM (list (string * value)) :=
  match l with
  | [] => bret out
  | pointer :: l =>
      if sensitive_pointer pointer then legacy_loop o src out l
      else
        match json_pointer src pointer with
        | None => legacy_loop o src out l
        | Some v =>
            if legacy_skips o v then legacy_loop o src out l
            else
              let* _ := key pointer (nonempty out) in
              let* v := redact_budgeted v 1 in
              legacy_loop o src (bt_insert pointer v out) l
        end
  end.

Definition legacy_project (o : Operation) (src : value) : result CoreError value :=
  let? r := (let* _ := bytes 2 in legacy_loop o src [] (output_fields o)) Budget_default in
  Ok (VObj (fst r)).

(** ** [PreparedInvocation] *)
Inductive BoundProjection : Type :=
| Legacy (operation : Operation)
| BoundTyped (definition : TypedProjection) (selector : option string).

Record PreparedInvocation : Type := { inv_action : PreparedAction; inv_projection : BoundProjection }.

Definition prepare_invocation (o : Operation) (input : value) : result CoreError PreparedInvocation :=
  let? action := prepare o input in
  let? projection :=
    match output_mode o with
    | Scalars | Structured => Ok (Legacy o)
    | Typed definition =>
        let? selector :=
          match projection_selector definition with
          | Some (name, _) =>
              let? t := ok_or (m ← as_object input; v ← bt_get name m; as_str v) InvalidArguments in
              Ok (Some t)
          | None => Ok None
          end in
        Ok (BoundTyped definition selector)
    end in
  Ok {| inv_action := action; inv_projection := projection |}.

Definition invocation_project (i : PreparedInvocation) (output : value) : result CoreError value :=
  fail_if is_some (package_page (inv_action i)) with InvalidDefinition in
  match inv_projection i with
  | Legacy operation => legacy_project operation output
  | BoundTyped definition selector => project definition selector output
  end.
End invocation.

(** * Concrete operations

    Small operations of each kind, on which the theorems are instantiated. *)

Definition demo_op : Operation :=
  {| op_name := "board"; description := "Board facts";
     requirements := [{| category := System; permission := Read |}]; parameters := [];
     action := Ubus "system" "board" [];
     capability := UbusMethod "system" "board" [] "system_board.v1";
     output_fields := ["/model"; "/release"]; output_mode := Structured |}.
(** A ubus operation with a parameter, for the preparation theorems. *)
Definition demo_call : Operation :=
  {| op_name := "device_status"; description := "Status of one device";
     requirements := [{| category := Network; permission := Read |}];
     parameters := [("device", {| p_kind := PString; p_required := true; allowed_values := [] |})];
     action := Ubus "network.device" "status" [("name", VStr "{device}")];
     capability := UbusMethod "network.device" "status" [("name", PString)] "network_device.v1";
     output_fields := ["/up"]; output_mode := Scalars |}.
Definition demo_input : value := VObj [("device", VStr "br-lan")].
(** A reviewed uci read, as the catalog installs it. *)
Definition demo_uci : Operation :=
  {| op_name := "uci_system"; description := "System sections";
     requirements := [{| category := System; permission := Read |}]; parameters := [];
     action := Ubus "uci" "get" [("config", VStr "system"); ("type", VStr "system")];
     capability := UbusMethod "uci" "get" [("config", PString); ("type", PString)] "uci_system.v1";
     output_fields := [];
     output_mode := Typed (ProjectCollection ["/error"]
       (ObjectEntries "/values" 16 {| id_name := "section"; id_max_bytes := 64 |}
         {| fields := [ {| name := "type"; source := "/.type"; presence := Required;
                           kind := TextEnum 16 ["system"] |};
                        {| name := "hostname"; source := "/hostname"; presence := Optional; kind := Text 64 |} ];
            collections := [] |}) All) |}.

(** An operator's extension: a process with a mandatory positional argument. *)
Definition demo_process : Operation :=
  {| op_name := "ping_host"; description := "Ping";
     requirements := [{| category := Diagnostics; permission := Execute |}];
     parameters := [("host", {| p_kind := PString; p_required := true; allowed_values := [] |})];
     action := Process "/bin/ping" ["-c"; "1"; "{host}"];
     capability := Unverified; output_fields := []; output_mode := Scalars |}.

Definition demo_size (_ : Operation) : option Z := Some 512.

