(* ===== verification/Catalog.v ===== *)
(** * The catalog of operations and the policy

    [crates/core/src/catalog.rs] and [policy.rs]: the immutable, validated
    metadata the operator installs, and the deny-by-default authorization of
    each operation by category grants and exact operation names. *)
From S2P Require Import Prelude Order Text Json Core Budget Packages Schema Evaluate Operation Invocation.
From stdpp Require Import gmap.
Open Scope Z_scope.

Definition MAX_CUSTOM_OPERATIONS : Z := 1024.

Record Catalog : Type := { operations : list Operation; index : gmap string nat }.

Definition is_structured (m : OutputMode) : bool := match m with Structured => true | _ => false end.

(** [matches!(&operation.action, Action::Ubus { object, .. } if object == "uci")] *)
Definition targets_uci (a : Action) : bool :=
  match a with Ubus object _ _ => String.eqb object "uci" | _ => false end.

Definition push_requirement (r : Requirement) (o : Operation) : Operation :=
  if bool_decide (r ∈ requirements o) then o
  else {| op_name := op_name o; description := description o; requirements := requirements o ++ [r];
          parameters := parameters o; action := action o; capability := capability o;
          output_fields := output_fields o; output_mode := output_mode o |}.

(** The permissions injected into every extension. *)
Definition inject (o : Operation) : Operation :=
  foldl (fun o p => push_requirement {| category := Extensions; permission := p |} o) o [Write; Execute].

Section catalog.
  Context (definition_size : Operation -> option Z).

Fixpoint install (names : list string) (installed : list Operation) (custom : list Operation) :
    result CoreError (list Operation) :=
  match custom with
  | [] => Ok installed
  | o :: custom =>
      fail_if targets_uci (action o) with InvalidDefinition in
      let? names := ok_or (fresh_insert (op_name o) names) DuplicateOperation in
      let? _ := validate definition_size o in
      let o := inject o in
      let? _ := validate definition_size o in
      install names (installed ++ [o]) custom
  end.

Fixpoint validate_all (l : list Operation) : result CoreError unit :=
  match l with
  | [] => Ok tt
  | o :: l => let? _ := validate definition_size o in validate_all l
  end.

(** [operations.iter().enumerate().map(..).collect()]: later entries win. *)
Fixpoint index_from (i : nat) (m : gmap string nat) (l : list Operation) : gmap string nat :=
  match l with
  | [] => m
  | o :: l => index_from (S i) (<[op_name o := i]> m) l
  end.

Definition with_builtins (builtins custom : list Operation) : result CoreError Catalog :=
  fail_if MAX_CUSTOM_OPERATIONS <? zlen custom with CatalogLimitExceeded in
  fail_if existsb (fun o => is_structured (output_mode o)) builtins with InvalidDefinition in
  let names := op_name <$> builtins in
  fail_if negb (Nat.eqb (length (remove_dups names)) (length builtins)) with DuplicateOperation in
  let? operations := install (remove_dups names) builtins custom in
  let? _ := validate_all operations in
  Ok {| operations := operations; index := index_from 0 ∅ operations |}.

Definition Catalog_new (custom : list Operation) : result CoreError Catalog := with_builtins [] custom.
End catalog.

(** [None] here is absence; an index past the end would panic. *)
Definition Catalog_get (c : Catalog) (name : string) : option Operation :=
  i ← index c !! name; operations c !! i.

(** ** Policy *)
Record Policy : Type := {
  categories : gmap Category Grant;
  allow_operations : option (gset string);
  deny_operations : gset string
}.

Definition policy_validate (p : Policy) (c : Catalog) : result CoreError unit :=
  fail_if existsb (fun name => negb (is_some (Catalog_get c name)))
       (elements (deny_operations p) ++ match allow_operations p with Some s => elements s | None => [] end)
    with UnknownOperationReference in
  Ok tt.

Fixpoint check_requirements (grants : gmap Category Grant) (l : list Requirement) : result CoreError unit :=
  match l with
  | [] => Ok tt
  | r :: l =>
      let grant := default Grant_default (grants !! category r) in
      fail_if negb (permits grant (permission r)) with PermissionDenied in
      check_requirements grants l
  end.

Definition authorize (p : Policy) (o : Operation) : result CoreError unit :=
  fail_if Nat.eqb (length (requirements o)) 0
       || bool_decide (op_name o ∈ deny_operations p)
       || match allow_operations p with
          | Some allowed => negb (bool_decide (op_name o ∈ allowed))
          | None => false
          end with PermissionDenied in
  check_requirements (categories p) (requirements o).

(** ** Authorization *)

(** What a grant of the given access and execution right permits. *)
Definition granted (p : Policy) (r : Requirement) : Prop :=
  exists g, categories p !! category r = Some g /\ access g <> Deny /\
    match permission r with
    | Read => True
    | Write => access g = ReadWrite
    | Execute => execute g = true
    end.

Lemma permits_granted p r : permits (default Grant_default (categories p !! category r)) (permission r) = true <-> granted p r.
Proof.
  unfold granted, permits. destruct (categories p !! category r) as [g |]; simpl.
  - case_decide as Ha; [split; [done | intros (g' & [= <-] & Hn & _); done] |].
    destruct (permission r); simpl.
    + split; [by exists g | done].
    + rewrite bool_decide_eq_true. split; [by exists g | by intros (g' & [= <-] & _ & ?)].
    + split; [by exists g | by intros (g' & [= <-] & _ & ?)].
  - split; [done | by intros (g & ? & _)].
Qed.

Lemma check_requirements_ok p l :
  check_requirements (categories p) l = Ok tt <-> Forall (granted p) l.
Proof.
  induction l as [| r l IH]; cbn [check_requirements]; [by split |].
  cbv zeta. rewrite fail_if_ok, negb_false_iff, permits_granted, IH, Forall_cons. done.
Qed.

Lemma check_requirements_err p l e : check_requirements (categories p) l = Err e -> e = PermissionDenied.
Proof.
  induction l as [| r l IH]; cbn [check_requirements]; [done |]. cbv zeta.
  destruct (negb _); [by intros [= <-] | done].
Qed.

Lemma authorize_ok p o :
  authorize p o = Ok tt <->
  requirements o <> [] /\ op_name o ∉ deny_operations p
  /\ (forall allowed, allow_operations p = Some allowed -> op_name o ∈ allowed)
  /\ Forall (granted p) (requirements o).
Proof.
  unfold authorize. rewrite fail_if_ok, check_requirements_ok, !orb_false_iff, bool_decide_eq_false.
  assert (Nat.eqb (length (requirements o)) 0 = false <-> requirements o <> []) as ->
    by (destruct (requirements o); simpl; split; congruence).
  assert (match allow_operations p with Some allowed => negb (bool_decide (op_name o ∈ allowed)) | None => false end = false
    <-> (forall allowed, allow_operations p = Some allowed -> op_name o ∈ allowed)) as ->; [| tauto].
  destruct (allow_operations p) as [s |].
  - rewrite negb_false_iff, bool_decide_eq_true. split; [by intros ? ? [= <-] | auto].
  - split; [done | done].
Qed.

(** C11: Authorization is exactly deny-by-default: an operation is authorized
    if and only if it declares requirements, is not denied by name, is on the
    allow list when there is one, and every one of its requirements is met by
    an explicit grant of its category. *)
Theorem authorize_spec p o :
  authorize p o = Ok tt <->
  requirements o <> [] /\ op_name o ∉ deny_operations p
  /\ (forall allowed, allow_operations p = Some allowed -> op_name o ∈ allowed)
  /\ Forall (granted p) (requirements o).
Proof. apply authorize_ok. Qed.

(** ** The catalog *)
Lemma push_requirement_mem r r' o : r' ∈ requirements (push_requirement r o) <-> r' = r \/ r' ∈ requirements o.
Proof.
  unfold push_requirement. case_bool_decide as Hin; simpl.
  - split; [by right | by intros [-> | ?]].
  - rewrite elem_of_app, list_elem_of_singleton. tauto.
Qed.

(** Injection only adds the two extension permissions. *)
Lemma inject_spec o :
  op_name (inject o) = op_name o /\ action (inject o) = action o /\ parameters (inject o) = parameters o /\
  (forall r, r ∈ requirements (inject o) <->
     r = {| category := Extensions; permission := Write |} \/
     r = {| category := Extensions; permission := Execute |} \/ r ∈ requirements o).
Proof.
  unfold inject. cbn [foldl]. split; [| split; [| split]].
  1-3: unfold push_requirement; repeat case_bool_decide; reflexivity.
  intros r. rewrite !push_requirement_mem. tauto.
Qed.

Lemma index_from_lookup (i : nat) m l name :
  NoDup (op_name <$> l) ->
  index_from i m l !! name =
    match list_find (fun o => op_name o = name) l with
    | Some (j, _) => Some (i + j)%nat
    | None => m !! name
    end.
Proof.
  revert i m. induction l as [| o l IH]; intros i m Hnd; [done |].
  rewrite fmap_cons in Hnd. apply NoDup_cons in Hnd as [Hno Hnd]. cbn [index_from]. rewrite IH by done.
  cbn [list_find]. destruct (decide (op_name o = name)) as [<- | Hne].
  - destruct (list_find (fun o' => op_name o' = op_name o) l) as [[j o'] |] eqn:E.
    + apply list_find_Some in E as (Hj & Hn & _). destruct Hno. rewrite <- Hn.
      apply list_elem_of_fmap_2. by apply list_elem_of_lookup_2 in Hj.
    + rewrite lookup_insert_eq. f_equal. lia.
  - destruct (list_find _ l) as [[j o'] |]; simpl; [f_equal; lia |]. by apply lookup_insert_ne.
Qed.

Section catalog_facts.
  Context (definition_size : Operation -> option Z).

Lemma validate_all_Forall l :
  validate_all definition_size l = Ok tt <-> Forall (fun o => validate definition_size o = Ok tt) l.
Proof.
  induction l as [| o l IH]; cbn [validate_all]; [by split |].
  rewrite rbind_ok, Forall_cons, <- IH. split; [by intros ([] & ? & ?) | by intros []; exists tt].
Qed.

Lemma install_ok names installed custom ops :
  install definition_size names installed custom = Ok ops ->
  ops = installed ++ (inject <$> custom)
  /\ NoDup (op_name <$> custom) /\ (forall o, o ∈ custom -> op_name o ∉ names /\ targets_uci (action o) = false
       /\ validate definition_size o = Ok tt).
Proof.
  revert names installed. induction custom as [| o custom IH]; intros names installed Hi; cbn [install] in Hi.
  - injection Hi as <-. rewrite app_nil_r. split; [done | split; [constructor | by intros ? ?%not_elem_of_nil]].
  - apply fail_if_ok in Hi as [Hu Hi]. apply rbind_ok in Hi as (names' & Hn & Hi). apply ok_or_ok in Hn.
    unfold fresh_insert in Hn. case_bool_decide as Hfresh; [done |]. injection Hn as <-.
    apply rbind_ok in Hi as ([] & Hv & Hi). apply rbind_ok in Hi as ([] & _ & Hi).
    apply IH in Hi as (-> & Hnd & Hall). rewrite fmap_cons, <- app_assoc. split; [done |]. split.
    + rewrite fmap_cons. constructor; [| done]. intros (o' & Ho' & Hin)%list_elem_of_fmap.
      destruct (Hall o' Hin) as [Hno _]. apply Hno. rewrite <- Ho'. left.
    + intros o' [-> | Hin]%elem_of_cons; [done |]. destruct (Hall o' Hin) as (Hno & ? & ?).
      split; [| done]. intros Hc. apply Hno. by right.
Qed.

Lemma with_builtins_ok builtins custom c :
  with_builtins definition_size builtins custom = Ok c ->
  operations c = builtins ++ (inject <$> custom) /\ index c = index_from 0 ∅ (operations c)
  /\ NoDup (op_name <$> operations c) /\ Forall (fun o => validate definition_size o = Ok tt) (operations c)
  /\ Forall (fun o => targets_uci (action o) = false) custom.
Proof.
  unfold with_builtins. intros Hc. apply fail_if_ok in Hc as [_ Hc]. apply fail_if_ok in Hc as [_ Hc].
  apply fail_if_ok in Hc as [Hd Hc]. apply rbind_ok in Hc as (ops & Hi & Hc).
  apply rbind_ok in Hc as ([] & Hv & [= <-]). cbn [operations index]. apply validate_all_Forall in Hv.
  apply install_ok in Hi as (-> & Hnd & Hall). split; [done | split; [done | split; [| split; [done |]]]].
  - rewrite fmap_app, <- list_fmap_compose.
    rewrite (list_fmap_ext (op_name ∘ inject) op_name)
      by (intros ? o _; unfold compose; by destruct (inject_spec o) as [-> _]).
    apply NoDup_app. split; [| split; [| done]].
    + bool_prop. apply remove_dups_distinct. by rewrite length_fmap.
    + intros x Hx (o & -> & Ho)%list_elem_of_fmap. destruct (Hall o Ho) as [Hno _]. apply Hno.
      by apply elem_of_remove_dups.
  - apply Forall_forall. intros o Ho. by destruct (Hall o Ho) as (_ & ? & _).
Qed.

Lemma catalog_get_iff builtins custom c :
  with_builtins definition_size builtins custom = Ok c ->
  forall name o, Catalog_get c name = Some o <-> o ∈ operations c /\ op_name o = name.
Proof.
  intros Hc. apply with_builtins_ok in Hc as (Ho & Hi & Hnd & Hv & Hu).
  intros name o. unfold Catalog_get. rewrite Hi, index_from_lookup by done. split.
  + destruct (list_find _ _) as [[j o'] |] eqn:E; simpl; [| by rewrite lookup_empty].
    apply list_find_Some in E as (Hj & Hn & _). rewrite Hj. intros [= <-].
    split; [by apply list_elem_of_lookup_2 in Hj | done].
  + intros [Hin Hn]. destruct (list_find _ _) as [[j o'] |] eqn:E; simpl.
    * apply list_find_Some in E as (Hj & Hn' & _). rewrite Hj. f_equal.
      apply list_elem_of_lookup in Hin as [k Hk].
      assert (j = k) as ->; [| congruence].
      eapply (NoDup_lookup (op_name <$> operations c)); [done | |]; rewrite list_lookup_fmap.
      -- by rewrite Hj.
      -- rewrite Hk. simpl. by rewrite Hn', Hn.
    * apply list_find_None in E. rewrite Forall_forall in E. by destruct (E o Hin).
Qed.
End catalog_facts.

(** A built catalog is well-formed: names are unique, every operation
    passes validation, [get] finds exactly the installed operation of that
    name (so the index never points outside the list), and every operator
    extension requires both extension permissions and never targets the uci
    object. *)
Theorem catalog_wellformed definition_size builtins custom c :
  with_builtins definition_size builtins custom = Ok c ->
  NoDup (op_name <$> operations c)
  /\ Forall (fun o => validate definition_size o = Ok tt) (operations c)
  /\ (forall name o, Catalog_get c name = Some o <-> o ∈ operations c /\ op_name o = name)
  /\ (forall o, o ∈ operations c -> o ∈ builtins \/
       ({| category := Extensions; permission := Write |} ∈ requirements o
        /\ {| category := Extensions; permission := Execute |} ∈ requirements o
        /\ targets_uci (action o) = false)).
Proof.
  intros Hc. pose proof Hc as Hget. apply with_builtins_ok in Hc as (Ho & Hi & Hnd & Hv & Hu).
  split; [done | split; [done | split]].
  - by eapply catalog_get_iff.
  - intros o Hin. rewrite Ho in Hin. apply elem_of_app in Hin as [? | (o' & -> & Ho')%list_elem_of_fmap]; [by left | right].
    destruct (inject_spec o') as (_ & -> & _ & Hr). split; [apply Hr; by left | split; [apply Hr; by right; left |]].
    rewrite Forall_forall in Hu. by apply Hu.
Qed.

Definition demo_catalog : Catalog :=
  {| operations := [demo_uci; inject demo_process];
     index := <["ping_host" := 1%nat]> (<["uci_system" := 0%nat]> ∅) |}.

Lemma catalog_wellformed_witness :
  with_builtins demo_size [demo_uci] [demo_process] = Ok demo_catalog
  /\ inject demo_process ∈ operations demo_catalog /\ op_name (inject demo_process) = "ping_host"%string.
Proof.
  assert (with_builtins demo_size [demo_uci] [demo_process] = Ok demo_catalog) as Hc by (vm_compute; reflexivity).
  split; [exact Hc |]. destruct (catalog_wellformed demo_size [demo_uci] [demo_process] demo_catalog Hc) as (_ & _ & Hget & _).
  apply Hget. vm_compute. reflexivity.
Defined.
