(* ===== verification/Preparation.v ===== *)
(** * Guarantees of operation validation, preparation and legacy projection *)
From Stdlib Require Import Sorted.
From stdpp Require Import sorting list.
From S2P Require Import Prelude Order Text Json Core Budget Packages Schema Evaluate Operation Invocation.
Open Scope Z_scope.

(** ** Prefix-free paths

    The code sorts the decoded paths and compares neighbours only. *)
Lemma starts_with_prefix (l p : list string) : slice_starts_with l p = true <-> p `prefix_of` l.
Proof.
  revert l. induction p as [| a p IH]; intros l; [split; [intros _; apply prefix_nil | by destruct l] |].
  destruct l as [| b l]; cbn [slice_starts_with].
  - split; [done | by intros ?%prefix_nil_not].
  - rewrite andb_true_iff, String.eqb_eq, IH. split.
    + intros [-> Hp]. by apply prefix_cons.
    + intros Hp. split; [by eapply prefix_cons_inv_1 | by eapply prefix_cons_inv_2].
Qed.

(** A list between [p] and an extension of [p] extends [p]. *)
Lemma prefix_between (p r q : list string) :
  leb p r = true -> leb r q = true -> p `prefix_of` q -> p `prefix_of` r.
Proof.
  revert r q. induction p as [| a p IH]; intros r q Hpr Hrq Hpq; [apply prefix_nil |].
  destruct q as [| b q]; [by apply prefix_nil_not in Hpq |].
  pose proof (prefix_cons_inv_1 _ _ _ _ Hpq) as ->. apply prefix_cons_inv_2 in Hpq.
  unfold leb in *. cbn [cmp list_ord list_cmp] in *.
  destruct r as [| c r]; [done |]. change (cmp (b :: p) (c :: r)) with (cmp_then (cmp b c) (list_cmp p r)) in Hpr.
  change (cmp (c :: r) (b :: q)) with (cmp_then (cmp c b) (list_cmp r q)) in Hrq.
  rewrite (cmp_opp b c) in Hrq. destruct (cmp b c) eqn:Ebc; simpl in Hpr, Hrq; [| done | done].
  apply cmp_eq in Ebc as ->. apply prefix_cons. by apply (IH r q).
Qed.

Lemma prefix_leb (p q : list string) : p `prefix_of` q -> leb p q = true.
Proof.
  intros [k ->]. unfold leb. induction p as [| a p IH]; [by destruct k |].
  change (cmp (a :: p) ((a :: p) ++ k)) with (cmp_then (cmp a a) (list_cmp p (p ++ k))).
  rewrite cmp_refl. exact IH.
Qed.

Lemma sorted_lookup_leb (l : list (list string)) i j x y :
  StronglySorted (key_le id) l -> l !! i = Some x -> l !! j = Some y -> (i <= j)%nat -> leb x y = true.
Proof.
  intros Hs. revert i j. induction Hs as [| z l Hs IH Hall]; intros i j Hi Hj Hij; [done |].
  destruct j as [| j].
  - assert (i = 0%nat) as -> by lia. rewrite Hi in Hj. injection Hj as ->. apply leb_refl.
  - simpl in Hj. destruct i as [| i].
    + simpl in Hi. injection Hi as ->. rewrite Forall_forall in Hall. apply (Hall y).
      by apply list_elem_of_lookup_2 in Hj.
    + apply (IH i j); [done | done | lia].
Qed.

(** Comparing neighbours of the sorted paths finds every prefix pair. *)
Definition prefix_free (paths : list (list string)) : Prop :=
  NoDup paths /\ forall p q, p ∈ paths -> q ∈ paths -> p `prefix_of` q -> p = q.

Lemma prefix_free_perm paths paths' : paths ≡ₚ paths' -> prefix_free paths -> prefix_free paths'.
Proof.
  intros Hp [Hnd Hf]. split; [by rewrite <- Hp |]. intros p q Hpi Hqi. rewrite <- Hp in Hpi, Hqi. by apply Hf.
Qed.

Lemma adjacent_prefix_false paths : adjacent_prefix paths = false <-> prefix_free paths.
Proof.
  unfold adjacent_prefix. rewrite windows2_any_false. pose proof (sort_by_sorted id paths) as Hs.
  pose proof (sort_by_perm id paths) as Hp. set (l := sort_by id paths) in *. clearbody l. split.
  - intros Hadj. apply (prefix_free_perm l); [done |].
    assert (forall i j p q, (i < j)%nat -> l !! i = Some p -> l !! j = Some q -> ~ p `prefix_of` q) as Hpair.
    { intros i j p q Hij Hi Hj Hpq. destruct (lookup_lt_is_Some_2 l (S i)) as [r Hr].
      { apply lookup_lt_Some in Hj. lia. }
      specialize (Hadj i p r Hi Hr). apply not_true_iff_false in Hadj. apply Hadj, starts_with_prefix.
      apply (prefix_between p r q); [eapply (sorted_lookup_leb l i (S i)) | eapply (sorted_lookup_leb l (S i) j) |]; first [done | lia]. }
    split.
    + apply NoDup_alt. intros i j x Hi Hj. destruct (Nat.lt_total i j) as [Hlt | [-> | Hlt]]; [| done |].
      * by destruct (Hpair i j x x Hlt Hi Hj).
      * by destruct (Hpair j i x x Hlt Hj Hi).
    + intros p q [i Hi]%list_elem_of_lookup [j Hj]%list_elem_of_lookup Hpq.
      destruct (Nat.lt_total i j) as [Hlt | [-> | Hlt]]; [by destruct (Hpair i j p q Hlt Hi Hj) | congruence |].
      pose proof (sorted_lookup_leb l j i q p Hs Hj Hi ltac:(lia)) as Hqp.
      apply leb_antisym; [by apply prefix_leb | done].
  - intros Hf%(prefix_free_perm _ l); [| done]. destruct Hf as [Hnd Hf]. intros i p q Hi Hj.
    apply not_true_iff_false. intros Hpq%starts_with_prefix.
    assert (p = q) as <- by (apply Hf; [by apply list_elem_of_lookup_2 in Hi | by apply list_elem_of_lookup_2 in Hj | done]).
    pose proof (NoDup_lookup l i (S i) p Hnd Hi Hj). lia.
Qed.

Lemma decode_pointers_Some l paths :
  decode_pointers l = Some paths <->
  forallb valid_pointer l = true /\ paths = (fun p => unescape <$> pointer_parts p) <$> l.
Proof.
  revert paths. induction l as [| p l IH]; intros paths; cbn [decode_pointers forallb].
  - split; [by intros [= <-] | by intros [_ ->]].
  - destruct (valid_pointer p); simpl; [| split; [done | by intros []]].
    destruct (decode_pointers l) as [ps |] eqn:E; simpl.
    + destruct (proj1 (IH ps) eq_refl) as [-> ->]. split; [by intros [= <-] | by intros [_ ->]].
    + split; [done |]. intros [Hl ->]. discriminate (proj2 (IH _) (conj Hl eq_refl)).
Qed.

(** The overlap check of output fields is complete although it compares
    only neighbours after sorting: it accepts exactly the lists of at most 64
    syntactically valid pointers whose decoded paths are distinct and none of
    which is a prefix of another. *)
Theorem disjoint_output_fields_spec pointers :
  disjoint_output_fields pointers = true <->
  zlen pointers <= MAX_OUTPUT_FIELDS /\ forallb valid_pointer pointers = true
  /\ prefix_free ((fun p => unescape <$> pointer_parts p) <$> pointers).
Proof.
  unfold disjoint_output_fields. destruct (Z.ltb_spec MAX_OUTPUT_FIELDS (zlen pointers)).
  { split; [done | intros (? & _); lia]. }
  destruct (decode_pointers pointers) as [paths |] eqn:E.
  - apply decode_pointers_Some in E as [Hv ->]. rewrite negb_true_iff, adjacent_prefix_false. tauto.
  - split; [done |]. intros (_ & Hv & _). by rewrite (proj2 (decode_pointers_Some _ _) (conj Hv eq_refl)) in E.
Qed.

(** ** Prepared ubus calls *)

(** Rust's [BTreeMap]s of an operation are ordered. *)
Definition operation_wf (o : Operation) : Prop :=
  bt_wf (parameters o) /\ match action o with Ubus _ _ arguments => bt_wf arguments | _ => True end.

Lemma omap_length_le {A B} (f : A -> option B) l : (length (omap f l) <= length l)%nat.
Proof. induction l as [| x l IH]; cbn in *; [done |]. destruct (f x); cbn; lia. Qed.

(** The transmitted value of one declared argument. *)
Definition resolve (values : list (string * value)) (p : string * value) : option (string * value) :=
  match (t ← as_str (snd p); parameter_reference t) with
  | Some name => (fun v => (fst p, v)) <$> bt_get name values
  | None => Some p
  end.

Lemma bt_insert_last {V} (k : string) (v : V) m :
  Forall (fun p => lt (fst p) k) m -> bt_insert k v m = m ++ [(k, v)].
Proof.
  induction 1 as [| [k' v'] m Hk Hm IH]; [done |]. cbn [bt_insert app fst] in *.
  unfold lt in Hk. rewrite (cmp_opp k' k), Hk. simpl. by rewrite IH.
Qed.

Lemma prepare_arguments_resolve values prepared l :
  bt_wf l -> Forall (fun p => Forall (fun q => lt (fst p) (fst q)) l) prepared ->
  prepare_arguments values prepared l = prepared ++ omap (resolve values) l.
Proof.
  unfold bt_wf, strict. intros Hl. revert prepared. induction Hl as [| [k v] l Hl IH Hall]; intros prepared Hp.
  { simpl. by rewrite app_nil_r. }
  assert (forall w, Forall (fun p => Forall (fun q => lt (fst p) (fst q)) l) (prepared ++ [(k, w)])) as Hnext.
  { intros w. apply Forall_app. split; [| repeat constructor; exact Hall].
    eapply Forall_impl; [exact Hp |]. intros p Hq. by apply Forall_cons in Hq as [_ ?]. }
  assert (forall w, bt_insert k w prepared = prepared ++ [(k, w)]) as Hins.
  { intros w. apply bt_insert_last. eapply Forall_impl; [exact Hp |]. intros p Hq. by apply Forall_cons in Hq as [? _]. }
  cbn [prepare_arguments omap list_omap]. unfold resolve at 1. cbn [fst snd].
  destruct (t ← as_str v; parameter_reference t) as [name |].
  - destruct (bt_get name values) as [w |]; simpl.
    + rewrite Hins, IH by apply Hnext. by rewrite <- app_assoc.
    + apply IH. eapply Forall_impl; [exact Hp |]. intros p Hq. by apply Forall_cons in Hq as [_ ?].
  - rewrite Hins, IH by apply Hnext. by rewrite <- app_assoc.
Qed.

(** What the declared kind of an argument means for the value transmitted. *)
Lemma validate_arguments_ok carguments params l :
  validate_arguments carguments params l = Ok tt ->
  Forall (fun p : string * value => exists k, bt_get (fst p) carguments = Some k /\
    match snd p with
    | VStr t => match parameter_reference t with
                | Some name => exists spec, bt_get name params = Some spec /\ k = p_kind spec
                | None => k = PString
                end
    | VBool _ => k = PBoolean
    | VNum _ => k = PInteger /\ checked_integer (snd p) = true
    | _ => False
    end) l.
Proof.
  induction l as [| [name v] l IH]; intros Hv; cbn [validate_arguments] in Hv; [constructor |].
  apply rbind_ok in Hv as (k & Hk & Hv). apply fail_if_ok in Hv as [Hg Hv]. bool_prop.
  constructor; [| by apply IH]. exists k. split; [done |]. cbn [snd].
  destruct v as [| b | n | t | |]; try done.
  - by injection Hk as <-.
  - destruct (checked_integer (VNum n)); [by injection Hk as <- | done].
  - destruct (parameter_reference t) as [r |]; [| by injection Hk as <-].
    apply rbind_ok in Hk as (spec & Hs & [= <-]). apply ok_or_ok in Hs. by exists spec.
Qed.

Lemma validate_reference_bounded params t used used' :
  validate_reference params t used = Ok used' -> bounded_string t MAX_VALUE_BYTES = true.
Proof. unfold validate_reference. intros Hv. apply fail_if_ok in Hv as [Hb _]. by bool_prop. Qed.

Lemma validate_ubus_arguments_bounded params l used used' :
  validate_ubus_arguments params used l = Ok used' ->
  Forall (fun p : string * value => match snd p with VStr t => bounded_string t MAX_VALUE_BYTES = true | _ => True end) l.
Proof.
  revert used. induction l as [| [k v] l IH]; intros used Hv; cbn [validate_ubus_arguments] in Hv; [constructor |].
  apply fail_if_ok in Hv as [_ Hv]. apply rbind_ok in Hv as (u & Hu & Hv).
  constructor; [| by eapply IH]. destruct v; try done. by eapply validate_reference_bounded.
Qed.

Lemma check_inputs_typed a values l u :
  check_inputs a values l = Ok u ->
  Forall (fun p : string * ParamSpec =>
    match bt_get (fst p) values with
    | None => p_required (snd p) = false
    | Some v => argument_type_valid a (p_kind (snd p)) v = true /\
        (allowed_values (snd p) <> [] -> exists t, scalar_text v = Some t /\ t ∈ allowed_values (snd p))
    end) l.
Proof.
  induction l as [| [name p] l IH]; intros Hc; cbn [check_inputs] in Hc; [constructor |].
  constructor; cbn [fst snd]; destruct (bt_get name values) as [v |].
  - apply fail_if_ok in Hc as [Ht Hc]. apply rbind_ok in Hc as ([] & Ha & _). bool_prop. split; [done |].
    intros Hne. destruct (allowed_values p) as [| x tl]; [done |]. simpl in Ha.
    apply rbind_ok in Ha as (t & Hs & Ha). apply ok_or_ok in Hs. apply fail_if_ok in Ha as [Hb _].
    bool_prop. by exists t.
  - by apply fail_if_ok in Hc as [? _].
  - apply fail_if_ok in Hc as [_ Hc]. apply rbind_ok in Hc as ([] & _ & Hc). by apply IH.
  - apply fail_if_ok in Hc as [_ Hc]. by apply IH.
Qed.

Section prepared.
  Context (definition_size : Operation -> option Z).

Lemma validate_parts o :
  validate definition_size o = Ok tt ->
  (exists used used', validate_action o used = Ok used') /\ validate_read o = Ok tt
  /\ validate_for (capability o) (action o) (parameters o) = Ok tt.
Proof.
  unfold validate. intros Hv. apply fail_if_ok in Hv as [_ Hv]. apply fail_if_ok in Hv as [_ Hv].
  apply rbind_ok in Hv as (used & _ & Hv). apply rbind_ok in Hv as (used' & Ha & Hv).
  apply fail_if_ok in Hv as [_ Hv]. apply rbind_ok in Hv as ([] & Hr & Hv).
  apply rbind_ok in Hv as ([] & Hf & _). split; [by exists used, used' | done].
Qed.

Lemma prepare_ok_parts o input a :
  prepare definition_size o input = Ok a ->
  exists values, input = VObj values /\ validate definition_size o = Ok tt
    /\ Forall (fun p : string * value => bt_contains (fst p) (parameters o) = true) values
    /\ check_inputs (action o) values (parameters o) = Ok tt
    /\ (forall object method arguments, action o = Ubus object method arguments ->
          a = PreparedUbus object method (VObj (prepare_arguments values [] arguments)))
    /\ (forall program args, action o = Process program args ->
          exists args', prepare_args values args = Ok args' /\ a = PreparedProcess program args').
Proof.
  unfold prepare. intros Hp. apply rbind_ok in Hp as ([] & Hv & Hp).
  apply rbind_ok in Hp as (values & Hi & Hp). apply ok_or_ok in Hi.
  apply fail_if_ok in Hp as [Hk Hp]. apply rbind_ok in Hp as ([] & Hc & Hp).
  apply rbind_ok in Hp as ([] & _ & Hp). exists values.
  assert (input = VObj values) as -> by (destruct input; try done; by injection Hi as ->).
  split; [done | split; [done | split; [| split; [done | split]]]].
  - apply existsb_false_Forall in Hk. eapply Forall_impl; [exact Hk |]. intros p Hb. by apply negb_false_iff in Hb.
  - intros object method arguments E. rewrite E in Hp. by injection Hp as <-.
  - intros program args E. rewrite E in Hp. apply rbind_ok in Hp as (args' & Ha & [= <-]). by exists args'.
Qed.

(** Every transmitted argument has the kind the capability declares for it. *)
Lemma transmitted_matches o values object method arguments carguments contract v :
  operation_wf o -> action o = Ubus object method arguments ->
  capability o = UbusMethod object method carguments contract ->
  validate definition_size o = Ok tt -> check_inputs (action o) values (parameters o) = Ok tt ->
  v ∈ omap (resolve values) arguments ->
  exists k, bt_get (fst v) carguments = Some k /\ value_matches (snd v) k = true.
Proof.
  intros [Hwp Hwa] Ea Ec Hval Hci Hv. apply validate_parts in Hval as ((used & used' & Hact) & _ & Hfor).
  unfold validate_action in Hact. rewrite Ea in Hact. apply fail_if_ok in Hact as [_ Hact].
  apply validate_ubus_arguments_bounded in Hact.
  unfold validate_for in Hfor. rewrite Ec, Ea in Hfor. apply fail_if_ok in Hfor as [_ Hfor].
  destruct (_ && _)%bool; [| done]. apply validate_arguments_ok in Hfor. apply check_inputs_typed in Hci.
  apply list_elem_of_omap in Hv as ([k0 x] & Hin & Hr). rewrite Forall_forall in Hact. rewrite Forall_forall in Hfor. rewrite Forall_forall in Hci.
  specialize (Hact _ Hin). destruct (Hfor _ Hin) as (k & Hk & Hkind). unfold resolve in Hr. cbn [fst snd] in *.
  destruct x as [| b | n | t | |]; try done; simpl in Hr.
  - injection Hr as <-. exists k. split; [done |]. by subst.
  - injection Hr as <-. exists k. split; [done |]. by destruct Hkind as [-> ?].
  - destruct (parameter_reference t) as [name |].
    + destruct (bt_get name values) as [w |] eqn:Ew; simpl in Hr; [| done]. injection Hr as <-.
      exists k. split; [done |]. destruct Hkind as (spec & Hs & ->). apply bt_get_elem in Hs.
      specialize (Hci _ Hs). cbn [fst snd] in Hci. rewrite Ew in Hci. destruct Hci as [Ht _].
      rewrite Ea in Ht. by destruct (p_kind spec).
    + injection Hr as <-. exists k. split; [done |]. by subst.
Qed.

Lemma prepared_transmitted o input a object method carguments contract :
  operation_wf o -> prepare definition_size o input = Ok a ->
  capability o = UbusMethod object method carguments contract ->
  exists m, a = PreparedUbus object method (VObj m) /\ transmitted object method carguments (Some a) = Ok (Some m).
Proof.
  intros Hwf Hp Ec. destruct (prepare_ok_parts o input a Hp) as (values & -> & Hval & _ & Hci & Hub & _).
  pose proof (validate_parts o Hval) as (_ & _ & Hfor). unfold validate_for in Hfor. rewrite Ec in Hfor.
  apply fail_if_ok in Hfor as [_ Hfor]. destruct (action o) as [| | aobject amethod arguments | program args] eqn:Ea; try done.
  destruct (_ && _)%bool eqn:Eg; [| done]. bool_prop. subst aobject amethod.
  rewrite (Hub object method arguments eq_refl). eexists. split; [reflexivity |].
  unfold transmitted. rewrite !String.eqb_refl. cbn [andb as_object].
  assert (bt_wf arguments) as Hwa by (destruct Hwf as [_ Hw]; by rewrite Ea in Hw).
  rewrite prepare_arguments_resolve by first [done | apply Forall_nil_2]. cbn [app].
  match goal with H : length carguments = length arguments |- _ => pose proof H as Hlen end.
  assert (zlen (omap (resolve values) arguments) <= zlen carguments) as Hle.
  { rewrite Hlen. pose proof (omap_length_le (resolve values) arguments). lia. }
  rewrite (proj2 (Z.ltb_ge _ _) Hle). cbn [orb].
  assert (existsb (fun p : string * value => negb match bt_get (fst p) carguments with
      | Some kind => value_matches (snd p) kind | None => false end) (omap (resolve values) arguments) = false) as ->; [| done].
  apply existsb_false_Forall, Forall_forall. intros v Hv.
  rewrite <- Ea in Hci.
  destruct (transmitted_matches o values object method arguments carguments contract v Hwf Ea Ec Hval Hci Hv) as (k & -> & ->).
  done.
Qed.
End prepared.

Lemma evaluate_arguments_mismatch actual sig inc unk l :
  evaluate_arguments actual sig inc unk l <> Incompatible InvalidPreparedAction.
Proof.
  revert inc unk. induction l as [| [n k] l IH]; intros inc unk; cbn [evaluate_arguments].
  - by destruct inc, unk.
  - destruct (match actual with Some values => _ | None => false end); [apply IH |].
    destruct (bt_get n (sig_arguments sig)); [| apply IH]. cbv zeta.
    case_decide; [apply IH |]. case_decide; [done | apply IH].
Qed.

(** A prepared call is always well-typed for its own capability: whatever
    input a client sends, an action that [prepare] returns is never judged an
    invalid prepared action by the operation's capability evaluation. *)
Theorem prepare_respects_capability definition_size o input a observation :
  operation_wf o -> prepare definition_size o input = Ok a ->
  evaluate (capability o) observation (Some a) <> Incompatible InvalidPreparedAction.
Proof.
  intros Hwf Hp. destruct (capability o) as [| | object method carguments contract |] eqn:Ec; try done.
  destruct (prepared_transmitted definition_size o input a _ _ _ _ Hwf Hp Ec) as (m & _ & Ht).
  unfold evaluate. destruct (negb _); [done |]. destruct (probe_object _); [| done]. rewrite Ht.
  destruct observation as [reason | ob]; [done |]. destruct (_ || _)%bool; [done |].
  destruct (bt_get method (ob_methods ob)); [| done]. apply evaluate_arguments_mismatch.
Qed.

(** ** Compatible verdicts *)
Definition expected_type (k : ParameterKind) : UbusArgumentType :=
  match k with PString => UString | PInteger => UInteger | PBoolean => UBoolean end.

Lemma evaluate_arguments_compatible actual sig inc unk l :
  evaluate_arguments actual sig inc unk l = Compatible ->
  inc = false /\ unk = false /\
  Forall (fun p : string * ParameterKind =>
    match actual with Some values => bt_contains (fst p) values = true | None => True end ->
    bt_get (fst p) (sig_arguments sig) = Some (expected_type (snd p))) l.
Proof.
  revert inc unk. induction l as [| [n k] l IH]; intros inc unk He; cbn [evaluate_arguments] in He.
  { by destruct inc, unk. }
  destruct (match actual with Some values => _ | None => false end) eqn:Ea.
  { apply IH in He as (-> & -> & Hl). split; [done | split; [done |]]. constructor; [| done].
    destruct actual as [values |]; [| done]. apply negb_true_iff in Ea. cbn [fst]. by rewrite Ea. }
  destruct (bt_get n (sig_arguments sig)) as [t |] eqn:Et; [| by apply IH in He as (? & _)].
  cbv zeta in He. case_decide as Hu; [by apply IH in He as (_ & ? & _) |].
  case_decide as Hn; [done |]. apply IH in He as (-> & -> & Hl). split; [done | split; [done |]].
  constructor; [| done]. intros _. cbn [fst snd]. rewrite Et. f_equal. by destruct (decide (t = expected_type k)).
Qed.

(** A compatible verdict for a prepared call means that the device's own
    object description was observed for the reviewed object, lists the method,
    and declares every transmitted argument with the type of the value that is
    sent; unknown or mistyped arguments never count as compatible. *)
Theorem compatible_call_observed c observation object method actual :
  evaluate c observation (Some (PreparedUbus object method (VObj actual))) = Compatible ->
  exists arguments contract o signature,
    c = UbusMethod object method arguments contract
    /\ observation = ObservedUbus o /\ from_name object = Some (ob_object o)
    /\ observation_validate o = Ok tt /\ bt_get method (ob_methods o) = Some signature
    /\ Forall (fun p => exists k, bt_get (fst p) arguments = Some k /\ value_matches (snd p) k = true
         /\ bt_get (fst p) (sig_arguments signature) = Some (expected_type k)) actual.
Proof.
  destruct c as [| | cobject cmethod arguments contract |]; try done. unfold evaluate.
  destruct (negb (valid_shape _)); [done |]. cbn [probe_object].
  destruct (from_name cobject) as [reviewed |] eqn:Eo; [| done]. cbn [transmitted as_object].
  destruct (String.eqb_spec object cobject) as [<- |]; [| done].
  destruct (String.eqb_spec method cmethod) as [<- |]; [| done]. cbn [andb].
  destruct (_ || existsb _ actual) eqn:Eb; [done |]. apply orb_false_iff in Eb as [_ Hall].
  destruct observation as [reason | o]; [done |].
  destruct (negb (bool_decide (ob_object o = reviewed))) eqn:Er; [done |]. bool_prop.
  destruct (observation_validate o) as [[] |] eqn:Ev; [| done]. cbn [is_ok negb orb].
  destruct (bt_get method (ob_methods o)) as [signature |] eqn:Em; [| done].
  intros He%evaluate_arguments_compatible. destruct He as (_ & _ & Hargs). cbn beta iota in Hargs.
  exists arguments, contract, o, signature. subst reviewed.
  split; [done | split; [done | split; [done | split; [done | split; [done |]]]]].
  apply existsb_false_Forall in Hall. rewrite Forall_forall in Hall. rewrite Forall_forall in Hargs.
  apply Forall_forall. intros [n v] Hin. specialize (Hall _ Hin). cbn [fst snd] in *. apply negb_false_iff in Hall.
  destruct (bt_get n arguments) as [k |] eqn:Ek; [| done]. exists k. split; [done | split; [done |]].
  apply bt_get_elem in Ek. apply (Hargs _ Ek). cbn [fst]. apply bt_contains_true.
  by apply (list_elem_of_fmap_2 fst _ (n, v)).
Qed.

(** ** The closed UCI reads *)
Lemma argument_is_get n t l : argument_is n t l = true -> bt_get n l = Some (VStr t).
Proof.
  unfold argument_is. destruct (bt_get n l) as [[] |]; simpl; try done. by intros ->%String.eqb_eq.
Qed.

Lemma two_entries {V} (m : list (string * V)) k1 k2 v1 v2 :
  bt_wf m -> length m = 2%nat -> lt k1 k2 -> bt_get k1 m = Some v1 -> bt_get k2 m = Some v2 ->
  m = [(k1, v1); (k2, v2)].
Proof.
  intros Hwf Hl Hlt H1 H2. apply bt_ext; [done | by repeat constructor |].
  destruct m as [| [a x] [| [b y] [| ]]]; try done. intros k. cbn [bt_get] in *.
  apply strict_NoDup_keys in Hwf. cbn in Hwf. apply NoDup_cons in Hwf as [Hab%not_elem_of_cons _].
  destruct Hab as [Hab _]. pose proof (lt_neq k1 k2 Hlt) as Hne.
  destruct (eqb k1 a) eqn:E1; [apply eqb_eq in E1 as <- |].
  - injection H1 as ->. rewrite (proj2 (eqb_neq k2 k1)) in H2 by done.
    destruct (eqb k2 b) eqn:E2; [| done]. apply eqb_eq in E2 as <-. by injection H2 as ->.
  - destruct (eqb k1 b) eqn:E2; [| done]. apply eqb_eq in E2 as <-. injection H1 as ->.
    destruct (eqb k2 a) eqn:E3.
    + apply eqb_eq in E3 as <-. injection H2 as ->.
      destruct (eqb k k2) eqn:E4, (eqb k k1) eqn:E5; try done.
      apply eqb_eq in E4 as ->. by apply eqb_eq in E5.
    + by rewrite (proj2 (eqb_neq k2 k1)) in H2.
Qed.

(** An accepted operation on the uci object is one of the closed reads:
    its method is get, it passes exactly a reviewed (config, section type)
    pair and no parameters, it requires read permission of that recipe's
    category, and its output is a typed collection of the sections of that
    type that refuses error replies. No other uci call passes validation. *)
Theorem uci_operations_closed definition_size o object method arguments :
  operation_wf o -> validate definition_size o = Ok tt ->
  action o = Ubus object method arguments -> object = "uci" ->
  exists p guards max_items key record,
    method = "get" /\ arguments = [("config", VStr (config p)); ("type", VStr (section_type p))]
    /\ parameters o = [] /\ {| category := uci_category p; permission := Read |} ∈ requirements o
    /\ output_mode o = Typed (ProjectCollection guards (ObjectEntries "/values" max_items key record) All)
    /\ 1 <= max_items <= 128 /\ 1 <= id_max_bytes key <= 256 /\ "/error" ∈ guards
    /\ (exists f, f ∈ fields record /\ source f = "/.type" /\ presence f = Required
          /\ exists mb, kind f = TextEnum mb [section_type p]).
Proof.
  intros [_ Hwa] (_ & Hr & _)%validate_parts Ea ->. unfold validate_read in Hr. rewrite Ea in Hr, Hwa.
  change (negb (String.eqb "uci" "uci")) with false in Hr. cbv iota in Hr.
  apply rbind_ok in Hr as (p & Hp & Hr). apply ok_or_ok in Hp.
  apply find_some in Hp as [_ Hp]. apply andb_true_iff in Hp as [Hc Ht].
  apply argument_is_get in Hc. apply argument_is_get in Ht.
  apply fail_if_ok in Hr as [Hg Hr]. bool_prop.
  destruct (output_mode o) as [| | [| guards [| | | sp mi key record |] []]] eqn:Em; try done.
  apply fail_if_ok in Hr as [Hb _]. bool_prop.
  exists p, guards, mi, key, record. subst.
  split; [done | split].
  { apply two_entries; done. }
  split; [by destruct (parameters o) | split; [done | split; [done |]]].
  unfold in_range in *. bool_prop. split; [lia | split; [lia | split]].
  - match goal with H : existsb _ guards = true |- _ => apply existsb_exists in H as (g & Hg' & ->%String.eqb_eq) end.
    by apply list_elem_of_In.
  - match goal with H : existsb _ (fields record) = true |- _ => apply existsb_exists in H as (f & Hf & Hf') end.
    exists f. split; [by apply list_elem_of_In |]. unfold uci_type_field in Hf'. bool_prop. split; [done | split; [done |]].
    destruct (kind f) as [| | mb vs | | |]; try done. bool_prop. subst. by exists mb.
Qed.

(** ** Witnesses *)
Definition demo_prepared : PreparedAction := PreparedUbus "network.device" "status" (VObj [("name", VStr "br-lan")]).
Definition demo_observed (t : UbusArgumentType) : CapabilityObservation :=
  ObservedUbus {| ob_object := RONetworkDevice;
                  ob_methods := [("status", {| sig_arguments := [("name", t)] |})] |}.
Lemma demo_call_wf : operation_wf demo_call.
Proof. split; repeat constructor. Defined.

Lemma prepare_respects_capability_witness :
  evaluate (capability demo_call) (demo_observed UInteger) (Some demo_prepared) <> Incompatible InvalidPreparedAction.
Proof.
  apply (prepare_respects_capability demo_size demo_call demo_input demo_prepared (demo_observed UInteger) demo_call_wf).
  vm_compute. reflexivity.
Defined.

Lemma compatible_call_observed_witness :
  exists arguments contract o signature,
    capability demo_call = UbusMethod "network.device" "status" arguments contract
    /\ demo_observed UString = ObservedUbus o /\ from_name "network.device" = Some (ob_object o)
    /\ observation_validate o = Ok tt /\ bt_get "status" (ob_methods o) = Some signature
    /\ Forall (fun p => exists k, bt_get (fst p) arguments = Some k /\ value_matches (snd p) k = true
         /\ bt_get (fst p) (sig_arguments signature) = Some (expected_type k)) [("name", VStr "br-lan")].
Proof.
  apply (compatible_call_observed (capability demo_call) (demo_observed UString)).
  vm_compute. reflexivity.
Defined.

Lemma demo_uci_wf : operation_wf demo_uci.
Proof. split; repeat constructor. Defined.

Lemma uci_operations_closed_witness :
  exists p guards max_items key record,
    "get" = "get" /\ [("config", VStr "system"); ("type", VStr "system")] = [("config", VStr (config p)); ("type", VStr (section_type p))]
    /\ parameters demo_uci = [] /\ {| category := uci_category p; permission := Read |} ∈ requirements demo_uci
    /\ output_mode demo_uci = Typed (ProjectCollection guards (ObjectEntries "/values" max_items key record) All)
    /\ 1 <= max_items <= 128 /\ 1 <= id_max_bytes key <= 256 /\ "/error" ∈ guards
    /\ (exists f, f ∈ fields record /\ source f = "/.type" /\ presence f = Required
          /\ exists mb, kind f = TextEnum mb [section_type p]).
Proof.
  apply (uci_operations_closed demo_size demo_uci "uci" "get" _ demo_uci_wf);
    [vm_compute; reflexivity | reflexivity | reflexivity].
Defined.
