(* ===== verification/Charge.v ===== *)
(** * Simulation of budgeted computations

    [sim m s]: on every well-formed budget the computation [m] returns the
    value of [s] and spends exactly its cost, or fails with [OutputLimit]
    exactly when the cost does not fit; when [s] is an error, [m] fails with
    it unless a budget failed first. *)
From S2P Require Import Prelude Order Text Json Core Budget.
Open Scope Z_scope.

Record Cost : Type := { k_bytes : Z; k_scans : Z; k_emits : Z }.
Definition cost0 : Cost := {| k_bytes := 0; k_scans := 0; k_emits := 0 |}.
Definition cost_add (c d : Cost) : Cost :=
  {| k_bytes := k_bytes c + k_bytes d; k_scans := k_scans c + k_scans d;
     k_emits := k_emits c + k_emits d |}.
Definition cost_ok (c : Cost) : Prop := 0 <= k_bytes c /\ 0 <= k_scans c /\ 0 <= k_emits c.

Definition charge (c : Cost) (b : Budget) : Budget :=
  {| used_bytes := used_bytes b + k_bytes c; scanned := scanned b + k_scans c;
     emitted := emitted b + k_emits c; nodes := nodes b |}.
Definition within (c : Cost) (b : Budget) : bool :=
  (used_bytes b + k_bytes c <=? MAX_NORMALIZED_BYTES)
  && (scanned b + k_scans c <=? MAX_COLLECTION_ITEMS)
  && (emitted b + k_emits c <=? MAX_COLLECTION_ITEMS).

Definition well_budgeted (b : Budget) : Prop :=
  0 <= used_bytes b <= MAX_NORMALIZED_BYTES /\ 0 <= scanned b <= MAX_COLLECTION_ITEMS
  /\ 0 <= emitted b <= MAX_COLLECTION_ITEMS.

Lemma well_budgeted_default : well_budgeted Budget_default.
Proof. unfold well_budgeted, MAX_NORMALIZED_BYTES, MAX_COLLECTION_ITEMS. simpl. lia. Qed.

Definition sim {A} (m : BM A) (s : result CoreError (A * Cost)) : Prop :=
  forall b, well_budgeted b ->
    match s with
    | Ok (a, c) => cost_ok c /\ m b = if within c b then Ok (a, charge c b) else Err OutputLimit
    | Err e => m b = Err e \/ m b = Err OutputLimit
    end.

Definition fits (c : Cost) (b : Budget) : Prop :=
  used_bytes b + k_bytes c <= MAX_NORMALIZED_BYTES
  /\ scanned b + k_scans c <= MAX_COLLECTION_ITEMS
  /\ emitted b + k_emits c <= MAX_COLLECTION_ITEMS.

Lemma within_spec c b : BoolSpec (fits c b) (~ fits c b) (within c b).
Proof.
  unfold within, fits.
  destruct (Z.leb_spec (used_bytes b + k_bytes c) MAX_NORMALIZED_BYTES),
    (Z.leb_spec (scanned b + k_scans c) MAX_COLLECTION_ITEMS),
    (Z.leb_spec (emitted b + k_emits c) MAX_COLLECTION_ITEMS); simpl; constructor; lia.
Qed.

Lemma charge_add c d b : charge d (charge c b) = charge (cost_add c d) b.
Proof. unfold charge, cost_add. simpl. f_equal; lia. Qed.

Lemma sim_ok {A} (m : BM A) a c :
  cost_ok c ->
  (forall b, well_budgeted b -> m b = if within c b then Ok (a, charge c b) else Err OutputLimit) ->
  sim m (Ok (a, c)).
Proof. intros Hc Hm b Hb. split; [done | by apply Hm]. Qed.

Lemma sim_bind {A B} (m : BM A) a c (f : A -> BM B) (s : result CoreError (B * Cost)) :
  sim m (Ok (a, c)) -> sim (f a) s ->
  sim (bbind m f) (match s with Ok (x, d) => Ok (x, cost_add c d) | Err e => Err e end).
Proof.
  intros Hm Hf b Hb. destruct (Hm b Hb) as [Hc Em]. unfold bbind. rewrite Em.
  destruct (within_spec c b) as [Hw | Hw].
  - assert (well_budgeted (charge c b)) as Hb'.
    { unfold well_budgeted, cost_ok, fits in *. simpl. lia. }
    specialize (Hf _ Hb'). destruct s as [[x d] | e]; [| done].
    destruct Hf as [Hd ->]. split; [unfold cost_ok in *; simpl; lia |].
    destruct (within_spec d (charge c b)) as [H1 | H1], (within_spec (cost_add c d) b) as [H2 | H2];
      unfold fits in *; simpl in *; try lia; [by rewrite charge_add | done].
  - destruct s as [[x d] | e]; [| by right].
    destruct (Hf Budget_default well_budgeted_default) as [Hd _].
    split; [unfold cost_ok in *; simpl; lia |].
    destruct (within_spec (cost_add c d) b) as [H2 | H2]; [| done].
    unfold cost_ok, fits in *. simpl in *. lia.
Qed.

Lemma sim_bind_err {A B} (m : BM A) e (f : A -> BM B) : sim m (Err e) -> sim (bbind m f) (Err e).
Proof. intros Hm b Hb. unfold bbind. by destruct (Hm b Hb) as [-> | ->]; [left | right]. Qed.

Lemma sim_cast {A} (m : BM A) s s' : sim m s -> s = s' -> sim m s'.
Proof. by intros ? <-. Qed.

Lemma sim_eq {A} (m m' : BM A) s : (forall b, m b = m' b) -> sim m s -> sim m' s.
Proof. intros E H b Hb. rewrite <- E. by apply H. Qed.

Lemma within_cost0 b : well_budgeted b -> within cost0 b = true.
Proof. intros Hb. destruct (within_spec cost0 b) as [| H]; [done |]. unfold well_budgeted in Hb. unfold fits in H. simpl in H. lia. Qed.

Lemma charge_cost0 b : charge cost0 b = b.
Proof. unfold charge, cost0. simpl. rewrite !Z.add_0_r. by destruct b. Qed.

Lemma cost_add_0_l c : cost_add cost0 c = c.
Proof. unfold cost_add, cost0. destruct c; simpl; f_equal; lia. Qed.

Lemma sim_ret {A} (a : A) : sim (bret a) (Ok (a, cost0)).
Proof.
  apply sim_ok; [unfold cost_ok; simpl; lia |]. intros b Hb.
  by rewrite within_cost0, charge_cost0.
Qed.

Lemma sim_err {A} e : sim (A := A) (berr e) (Err e).
Proof. intros b Hb. by left. Qed.

(** A pure step: its error, or the rest with its value. *)
Lemma sim_lift {A B} (r : result CoreError A) (f : A -> BM B) (g : A -> result CoreError (B * Cost)) :
  (forall a, r = Ok a -> sim (f a) (g a)) -> sim (bbind (blift r) f) (rbind r g).
Proof. destruct r as [a | e]; simpl; intros H b Hb; [by apply H | by left]. Qed.

Definition cost_bytes (n : Z) : Cost := {| k_bytes := n; k_scans := 0; k_emits := 0 |}.
Definition cost_scans (n : Z) : Cost := {| k_bytes := 0; k_scans := n; k_emits := 0 |}.
Definition cost_emit : Cost := {| k_bytes := 0; k_scans := 0; k_emits := 1 |}.

Lemma sim_bytes n : 0 <= n -> sim (bytes n) (Ok (tt, cost_bytes n)).
Proof.
  intros Hn. apply sim_ok; [unfold cost_ok; simpl; lia |]. intros b Hb. rewrite bytes_eq.
  unfold well_budgeted in Hb.
  destruct (Z.ltb_spec MAX_NORMALIZED_BYTES (used_bytes b + n)),
    (within_spec (cost_bytes n) b); unfold fits in *; simpl in *; try lia; [done |].
  unfold charge, set_bytes. simpl. by rewrite !Z.add_0_r.
Qed.

Lemma sim_text s : sim (text s) (Ok (tt, cost_bytes (quote_size s))).
Proof.
  pose proof (quote_size_bounds s) as Hq. pose proof (slen_nonneg s).
  intros b Hb. rewrite text_eq by apply Hb. by apply sim_bytes; [lia |].
Qed.

Lemma sim_key s previous : sim (key s previous) (Ok (tt, cost_bytes (quote_size s + (1 + usize_from previous)))).
Proof.
  pose proof (quote_size_bounds s) as Hq. pose proof (slen_nonneg s).
  intros b Hb. rewrite key_eq by apply Hb. apply sim_bytes; [destruct previous; simpl; lia | done].
Qed.

Lemma sim_emit : sim emit (Ok (tt, cost_emit)).
Proof.
  apply sim_ok; [unfold cost_ok; simpl; lia |]. intros b Hb. unfold emit. cbv zeta.
  unfold well_budgeted in Hb.
  destruct (Z.ltb_spec MAX_COLLECTION_ITEMS (emitted b + 1)), (within_spec cost_emit b);
    unfold fits in *; simpl in *; try lia; [done |].
  unfold charge, set_emitted. simpl. by rewrite !Z.add_0_r.
Qed.

Lemma sim_scan count max :
  0 <= count ->
  sim (scan count max) (if max <? count then Err OutputLimit else Ok (tt, cost_scans count)).
Proof.
  intros Hn b Hb. unfold scan. destruct (max <? count) eqn:Em; [by left |].
  split; [unfold cost_ok; simpl; lia |].
  unfold checked_add. unfold well_budgeted in Hb.
  destruct (Z.leb_spec (scanned b + count) U64_MAX);
    [destruct (Z.ltb_spec MAX_COLLECTION_ITEMS (scanned b + count)) |];
    destruct (within_spec (cost_scans count) b); unfold fits in *; simpl in *; try lia; try done.
  - unfold charge, set_scanned. simpl. by rewrite !Z.add_0_r.
  - unfold MAX_COLLECTION_ITEMS, U64_MAX in *. lia.
Qed.

(** Stepping through a chain: the first computation succeeds with a known cost
    that is the head of the whole cost. *)
Lemma sim_step {A B} (m : BM A) a c (f : A -> BM B) x d e :
  sim m (Ok (a, c)) -> sim (f a) (Ok (x, d)) -> e = cost_add c d -> sim (bbind m f) (Ok (x, e)).
Proof. intros Hm Hf ->. exact (sim_bind m a c f (Ok (x, d)) Hm Hf). Qed.

Lemma sim_step_err {A B} (m : BM A) a c (f : A -> BM B) e :
  sim m (Ok (a, c)) -> sim (f a) (Err e) -> sim (bbind m f) (Err e).
Proof. intros Hm Hf. exact (sim_bind m a c f (Err e) Hm Hf). Qed.

(** Equality of costs, componentwise. *)
Ltac cost :=
  unfold cost_add, cost_bytes, cost_scans, cost_emit, cost0;
  cbn [k_bytes k_scans k_emits usize_from negb fst snd]; f_equal; lia.
