(* ===== verification/Projection.v ===== *)
(** * The budgeted evaluator refines the reference projection *)
From S2P Require Import Prelude Order Text Json Core Budget Schema Evaluate Charge.
Open Scope Z_scope.

Lemma entry_size_pos p : 0 <= entry_size p.
Proof.
  destruct p as [s v]. unfold entry_size. simpl. pose proof (json_size_pos v).
  pose proof (quote_size_bounds s). pose proof (slen_nonneg s). lia.
Qed.

Lemma sim_to_value s : sim (to_value s) (Ok (scalar_value s, cost_bytes (json_size (scalar_value s)))).
Proof.
  destruct s as [[] | t | n | n]; simpl;
    (eapply sim_step; [| apply sim_ret |]).
  1,3: by apply sim_bytes.
  1,2: cost.
  1: apply sim_text. 1: cost.
  1: apply sim_bytes, slen_nonneg.
  2: apply sim_text. 2: cost.
  unfold value_of_i64, json_size. simpl. unfold dec_signed.
  destruct (n <? 0) eqn:En; simpl; unfold dec_signed; rewrite ?En; cost.
Qed.

Lemma sim_bwhen (e : bool) m n :
  sim m (Ok (tt, n)) -> sim (bwhen e m) (Ok (tt, if e then n else cost0)).
Proof. destruct e; [done | intros _; apply sim_ret]. Qed.

Lemma json_size_grow k v m :
  bt_get k m = None ->
  json_size (VObj (bt_insert k v m)) - json_size (VObj m)
    = quote_size k + (1 + usize_from (nonempty m)) + json_size v.
Proof.
  intros Hn. rewrite json_size_insert by done. unfold entry_size. simpl.
  destruct m; simpl; lia.
Qed.

(** The result map after inserting the entries [kvs] in order. *)
Definition insert_all (out kvs : obj) : obj := foldl (fun m p => bt_insert p.1 p.2 m) out kvs.

Lemma insert_all_app out l k : insert_all out (l ++ k) = insert_all (insert_all out l) k.
Proof. apply foldl_app. Qed.

(** The cost of growing the result map. *)
Definition cost_grow (emits : bool) (out out' : obj) : Cost :=
  if emits then cost_bytes (json_size (VObj out') - json_size (VObj out)) else cost0.

Definition absent (names : list string) (out : obj) : Prop := Forall (fun k => bt_get k out = None) names.

Lemma absent_insert k v names out :
  k ∉ names -> absent names out -> absent names (bt_insert k v out).
Proof.
  unfold absent. rewrite !Forall_forall. intros Hk Hout x Hx. rewrite bt_get_insert_ne; [by apply Hout |].
  by intros ->.
Qed.

Lemma absent_insert_all kvs names out :
  (forall k, k ∈ kvs.*1 -> k ∉ names) -> absent names out -> absent names (insert_all out kvs).
Proof.
  revert out. induction kvs as [| [k v] kvs IH]; intros out Hk Hout; [done |].
  cbn [insert_all foldl]. apply IH.
  - intros x Hx. apply Hk. by right.
  - apply absent_insert; [apply Hk; left | done].
Qed.

(** The names the fields of a record may contribute. *)
Lemma read_field_names src f kvs :
  read_field src f = Ok kvs -> kvs = [] \/ exists s, kvs = [(name f, scalar_value s)].
Proof.
  unfold read_field. intros H. apply rbind_ok in H as (found & _ & H). destruct found as [v |].
  - inv_ok H. subst. right. by eexists.
  - case_decide; [done |]. injection H as <-. by left.
Qed.

Lemma sim_record_fields_loop src emits l : forall out,
  NoDup (name <$> l) -> absent (name <$> l) out ->
  sim (record_fields_loop src emits out l)
    (let? kvs := concat_results (read_field src) l in
     let out' := if emits then insert_all out kvs else out in
     Ok (out', cost_grow emits out out')).
Proof.
  induction l as [| f l IH]; intros out Hnd Hab; cbn [record_fields_loop concat_results].
  - simpl. eapply sim_cast; [apply sim_ret |]. unfold cost_grow, insert_all. simpl.
    destruct emits; [| done]. do 2 f_equal. unfold cost0, cost_bytes. f_equal. lia.
  - rewrite fmap_cons in Hnd, Hab. apply NoDup_cons in Hnd as [Hf Hnd]. apply Forall_cons in Hab as [Hab1 Hab].
    unfold read_field at 1. destruct (lookup src (source f)) as [found | e] eqn:El;
      [| by apply sim_bind_err; intros b Hb; left].
    cbn [rbind]. apply (sim_eq (match found with
      | None => if decide (presence f = Required) then berr InvalidOutput else record_fields_loop src emits out l
      | Some v => let* scalar := blift (read (kind f) v) in
          if emits then
            let* _ := key (name f) (nonempty out) in
            let* v := to_value scalar in
            record_fields_loop src emits (bt_insert (name f) v out) l
          else record_fields_loop src emits out l end)); [done |].
    destruct found as [v |].
    + destruct (read (kind f) v) as [s | e]; cbn [rbind]; [| by apply sim_bind_err; intros b Hb; left].
      apply (sim_eq (if emits then
            let* _ := key (name f) (nonempty out) in
            let* v := to_value s in
            record_fields_loop src emits (bt_insert (name f) v out) l
          else record_fields_loop src emits out l)); [done |].
      destruct emits.
      * pose proof (IH (bt_insert (name f) (scalar_value s) out) Hnd (absent_insert _ _ _ _ Hf Hab)) as IH'.
        pose proof (json_size_grow _ (scalar_value s) _ Hab1) as Hg.
        destruct (concat_results (read_field src) l) as [kvs | e]; cbn [rbind] in *.
        -- eapply sim_step; [apply sim_key | eapply sim_step; [apply sim_to_value | exact IH' | reflexivity] |].
           unfold cost_grow. cbn [insert_all foldl app fst snd]. fold (insert_all (bt_insert (name f) (scalar_value s) out) kvs). cost.
        -- eapply sim_step_err; [apply sim_key | eapply sim_step_err; [apply sim_to_value | exact IH']].
      * specialize (IH out Hnd Hab). by destruct (concat_results (read_field src) l) as [kvs | e].
    + case_decide; [apply sim_err |]. specialize (IH out Hnd Hab).
      by destruct (concat_results (read_field src) l) as [kvs | e].
Qed.

Definition key_names (k : option TextIdentity) : list string :=
  match k with Some k => [id_name k] | None => [] end.
Definition key_id (k : option (TextIdentity * string)) : option TextIdentity := fst <$> k.

(** A chain of charges followed by a value. *)
Lemma sim_record_fields fs src k emits :
  NoDup (key_names (key_id k) ++ (name <$> fs)) ->
  sim (record_fields fs src k emits)
    (let? entries := fields_value fs src k in
     let out := if emits then bt_of_list entries else [] in
     Ok (out, if emits then cost_bytes (json_size (VObj out)) else cost0)).
Proof.
  intros Hnd. unfold record_fields, fields_value. destruct (is_object src); simpl; [| apply sim_err].
  pose proof (sim_bwhen emits _ _ (sim_bytes 2 ltac:(lia))) as Hb2.
  destruct k as [[identity v] |]; simpl in Hnd |- *.
  - destruct (valid_identity v (id_max_bytes identity)) eqn:Ev; simpl;
      [| eapply sim_step_err; [exact Hb2 | by apply sim_bind_err, sim_err]].
    apply NoDup_cons in Hnd as [Hid Hnd].
    set (out0 := if emits then bt_insert (id_name identity) (VStr v) [] else []).
    assert (absent (name <$> fs) out0) as Hab.
    { unfold out0. destruct emits; [apply absent_insert; [done |] |]; apply Forall_forall; intros ? _; done. }
    pose proof (sim_record_fields_loop src emits fs out0 Hnd Hab) as Hl.
    assert (sim (if emits then
              let* _ := key (id_name identity) false in
              let* v := (let* _ := text v in bret (VStr v)) in bret (bt_insert (id_name identity) v [])
            else bret []) (Ok (out0, if emits then cost_bytes (json_size (VObj out0) - 2) else cost0))) as Hk.
    { unfold out0. destruct emits; [| apply sim_ret].
      eapply sim_step; [apply sim_key | eapply sim_step; [apply (sim_to_value (SText v)) | apply sim_ret | reflexivity] |].
      pose proof (json_size_grow (id_name identity) (VStr v) [] eq_refl) as Hg.
      change (json_size (VObj [])) with 2 in Hg. simpl usize_from in Hg |- *. cbn [scalar_value]. cost. }
    destruct (concat_results (read_field src) fs) as [kvs | e]; cbn [rbind] in Hl |- *.
    + unfold out0 in *. clear out0. destruct emits.
      * eapply sim_step; [exact Hb2 | eapply sim_step; [exact Hk | exact Hl | reflexivity] |].
        unfold cost_grow, bt_of_list. cbn [foldl fst snd app].
        fold (insert_all (bt_insert (id_name identity) (VStr v) []) kvs). cost.
      * eapply sim_step; [exact Hb2 | eapply sim_step; [exact Hk | exact Hl | reflexivity] | reflexivity].
    + eapply sim_step_err; [exact Hb2 | eapply sim_step_err; [exact Hk | exact Hl]].
  - pose proof (sim_record_fields_loop src emits fs [] Hnd ltac:(apply Forall_forall; done)) as Hl.
    destruct (concat_results (read_field src) fs) as [kvs | e]; cbn [rbind] in Hl |- *.
    + destruct emits.
      * eapply sim_step; [exact Hb2 | eapply sim_step; [apply sim_ret | exact Hl | reflexivity] |].
        unfold cost_grow, bt_of_list. cbn [foldl fst snd app].
        change (json_size (VObj [])) with 2. fold (insert_all [] kvs). cost.
      * eapply sim_step; [exact Hb2 | eapply sim_step; [apply sim_ret | exact Hl | reflexivity] | reflexivity].
    + eapply sim_step_err; [exact Hb2 | eapply sim_step_err; [apply sim_ret | exact Hl]].
Qed.

(** ** The interface a record promises to its collections *)

(** The schema was accepted, at some depth and node count. *)
Definition accepted {R} `{RecordShape R} (r : R) (k : option TextIdentity) : Prop :=
  exists depth nodes nodes', validate_record r depth nodes k = Ok nodes'.

(** The cost of a projected value that scanned [n] items. *)
Definition cost_of (emits : bool) (v : value) (n : Z) : Cost :=
  if emits then {| k_bytes := json_size v; k_scans := n; k_emits := n |} else cost_scans n.
Definition emitted_value (emits : bool) (v : value) : option value := if emits then Some v else None.

Class RecordLaws (R : Type) `{RecordShape R, RecordSpec R} : Prop := {
  record_sim : forall (r : R) src k emits, accepted r (key_id k) ->
    sim (project_record r src k emits)
      (let? v := record_value r src k in
       Ok (emitted_value emits (fst v), cost_of emits (fst v) (snd v)));
  record_scans : forall (r : R) src k v n, record_value r src k = Ok (v, n) -> 0 <= n
}.

(** What validation guarantees of names. *)
Lemma fresh_insert_Some {A} `{EqDecision A} (x : A) s s' :
  fresh_insert x s = Some s' <-> x ∉ s /\ s' = x :: s.
Proof. unfold fresh_insert. case_bool_decide; naive_solver. Qed.

Lemma scan_fields_names names paths l names' paths' :
  scan_fields names paths l = Ok (names', paths') ->
  names' = reverse (name <$> l) ++ names /\ (NoDup names -> NoDup names').
Proof.
  revert names paths. induction l as [| f l IH]; intros names paths Hs; cbn [scan_fields] in Hs.
  - by injection Hs as <- <-.
  - apply fail_if_ok in Hs as [_ Hs]. apply rbind_ok in Hs as (ns & Hn & Hs).
    apply ok_or_ok, fresh_insert_Some in Hn as [Hnew ->].
    apply rbind_ok in Hs as (? & _ & Hs). apply rbind_ok in Hs as (? & _ & Hs).
    apply IH in Hs as [-> Hnd]. rewrite fmap_cons, reverse_cons, <- app_assoc. split; [done |].
    intros Hnd'. apply Hnd. by constructor.
Qed.

Lemma scan_collections_names names paths l names' paths' :
  scan_collections names paths l = Ok (names', paths') ->
  names' = reverse (l.*1) ++ names /\ (NoDup names -> NoDup names').
Proof.
  revert names paths. induction l as [| [nm src] l IH]; intros names paths Hs; cbn [scan_collections] in Hs.
  - by injection Hs as <- <-.
  - apply fail_if_ok in Hs as [_ Hs]. apply rbind_ok in Hs as (ns & Hn & Hs).
    apply ok_or_ok, fresh_insert_Some in Hn as [Hnew ->].
    apply rbind_ok in Hs as (? & _ & Hs).
    apply IH in Hs as [-> Hnd]. rewrite fmap_cons, reverse_cons, <- app_assoc. split; [done |].
    intros Hnd'. apply Hnd. by constructor.
Qed.

Lemma validate_fields_names fs cs count k depth :
  validate_fields fs cs count k depth = Ok tt ->
  NoDup (key_names k ++ (name <$> fs) ++ cs.*1).
Proof.
  unfold validate_fields. intros Hv. apply fail_if_ok in Hv as [_ Hv]. apply fail_if_ok in Hv as [_ Hv].
  apply rbind_ok in Hv as ([n1 p1] & H1 & Hv). apply rbind_ok in Hv as ([n2 p2] & H2 & _).
  apply scan_fields_names in H1 as [-> Hd1]. simpl in H2. apply scan_collections_names in H2 as [-> Hd2].
  fold (key_names k) in *.
  assert (NoDup (key_names k)) as Hk by (destruct k; simpl; [apply NoDup_singleton | constructor]).
  specialize (Hd2 (Hd1 Hk)). rewrite !reverse_Permutation in Hd2.
  assert (key_names k ++ (name <$> fs) ++ cs.*1 ≡ₚ cs.*1 ++ (name <$> fs) ++ key_names k) as Hp
    by solve_Permutation.
  by rewrite Hp.
Qed.

#[export] Instance LeafRecord_laws : RecordLaws LeafRecord.
Proof.
  split.
  - intros r src k emits (depth & nodes & nodes' & Hv). simpl in Hv. unfold validate_leaf in Hv.
    apply rbind_ok in Hv as ([] & Hv & _). apply validate_fields_names in Hv.
    simpl in Hv. rewrite app_nil_r in Hv.
    pose proof (sim_record_fields (leaf_fields r) src k emits Hv) as Hs.
    change (record_value r src k) with (leaf_value r src k). unfold leaf_value.
    change (project_record r src k emits) with (project_leaf r src k emits). unfold project_leaf.
    destruct (fields_value (leaf_fields r) src k) as [entries | e]; cbn [rbind] in Hs |- *.
    + destruct emits; (eapply sim_step; [exact Hs | apply sim_ret |]); unfold cost_of; cost.
    + by apply sim_bind_err.
  - intros r src k v n Hv. cbn in Hv. unfold leaf_value in Hv.
    by apply rbind_ok in Hv as (? & _ & [= _ <-]).
Qed.

(** ** Arrays under construction *)

(** The cost of growing a result array from [out] to [out'] while [n] nested
    items were scanned. *)
Definition cost_rows (emits : bool) (out out' : list value) (n : Z) : Cost :=
  if emits then {| k_bytes := json_size (VArr out') - json_size (VArr out); k_scans := n;
                   k_emits := n + (zlen out' - zlen out) |}
  else cost_scans n.
Definition extend (emits : bool) (out vs : list value) : list value :=
  if emits then out ++ vs else out.

Lemma extend_cons emits out v vs : extend emits (extend emits out [v]) vs = extend emits out (v :: vs).
Proof. destruct emits; [| done]. unfold extend. by rewrite <- app_assoc. Qed.

Lemma cost_rows_refl emits out : cost_rows emits out (extend emits out []) 0 = cost0.
Proof.
  destruct emits; [| done]. unfold cost_rows, cost0, extend. rewrite app_nil_r. f_equal; lia.
Qed.

(** One more element: its emission, its separator and its own cost. *)
Definition cost_item (emits : bool) (out : list value) (v : value) (n : Z) : Cost :=
  if emits then {| k_bytes := usize_from (nonempty out) + json_size v; k_scans := n; k_emits := 1 + n |}
  else cost_scans n.

Lemma cost_rows_cons emits out v vs n m :
  cost_rows emits out (extend emits out (v :: vs)) (n + m)
    = cost_add (cost_item emits out v n)
        (cost_rows emits (extend emits out [v]) (extend emits out (v :: vs)) m).
Proof.
  destruct emits; unfold cost_rows, cost_item, extend; [| cost].
  pose proof (json_size_arr_snoc out v) as Hs. rewrite !length_app.
  unfold cost_add. cbn [k_bytes k_scans k_emits length]. rewrite Hs.
  destruct out; simpl nonempty; cbn [usize_from]; case_decide; try done; f_equal; lia.
Qed.

Lemma sim_cons {A} (m : BM A) out v vs n k emits (a : A) :
  sim m (Ok (a, cost_item emits out v n)) ->
  forall B (f : A -> BM B) (x : B),
    sim (f a) (Ok (x, cost_rows emits (extend emits out [v]) (extend emits out (v :: vs)) k)) ->
    sim (bbind m f) (Ok (x, cost_rows emits out (extend emits out (v :: vs)) (n + k))).
Proof. intros Hm B f x Hf. eapply sim_step; [exact Hm | exact Hf |]. apply cost_rows_cons. Qed.

Lemma sim_text_option_loop max emits l : forall out,
  sim (text_option_loop max emits out l)
    (let? ts := collect (fun v => let? s := read (Text max) v in Ok (scalar_value s)) l in
     Ok (extend emits out ts, cost_rows emits out (extend emits out ts) 0)).
Proof.
  induction l as [| v l IH]; intros out; cbn [text_option_loop collect].
  { cbn [rbind]. rewrite cost_rows_refl. unfold extend. rewrite app_nil_r.
    destruct emits; apply sim_ret. }
  destruct (read (Text max) v) as [s | e]; cbn [rbind]; [| by apply sim_bind_err; intros b Hb; left].
  specialize (IH (extend emits out [scalar_value s])).
  apply (sim_eq (let* out := (if emits then
        let* _ := emit in
        let* _ := bytes (usize_from (nonempty out)) in
        let* v := to_value s in bret (out ++ [v]) else bret out) in
      text_option_loop max emits out l)).
  { intros b. destruct emits; [| done]. unfold bbind, blift, bret.
    destruct (emit b) as [[? b1] |]; [| done]. destruct (bytes _ b1) as [[? b2] |]; [| done].
    by destruct (to_value s b2) as [[? b3] |]. }
  assert (sim (if emits then
        let* _ := emit in
        let* _ := bytes (usize_from (nonempty out)) in
        let* v := to_value s in bret (out ++ [v]) else bret out)
      (Ok (extend emits out [scalar_value s], cost_item emits out (scalar_value s) 0))) as Hitem.
  { destruct emits; [| apply sim_ret].
    eapply sim_step; [apply sim_emit | eapply sim_step; [apply sim_bytes; by destruct (nonempty out) |
      eapply sim_step; [apply sim_to_value | apply sim_ret | reflexivity] | reflexivity] |].
    unfold cost_item. cost. }
  destruct (collect _ l) as [ts | e]; cbn [rbind] in IH |- *.
  - rewrite !extend_cons in IH. change 0 with (0 + 0).
    eapply sim_cons; [exact Hitem | exact IH].
  - eapply sim_step_err; [exact Hitem | exact IH].
Qed.

(** The value of a successful result. *)
Definition result_value {E A} (r : result E A) : option A :=
  match r with Ok a => Some a | Err _ => None end.

Lemma collect_length {E A B} (f : A -> result E B) l ys : collect f l = Ok ys -> length ys = length l.
Proof.
  revert ys. induction l as [| x l IH]; intros ys Hc; cbn [collect] in Hc; [by injection Hc as <- |].
  apply rbind_ok in Hc as (y & _ & Hc). apply rbind_ok in Hc as (tl & Htl & [= <-]).
  simpl. by rewrite (IH tl Htl).
Qed.

Section collections.
  Context {R : Type} `{RecordLaws R}.

Lemma sim_row_array_loop record emits l : forall out,
  accepted record None ->
  sim (row_array_loop record emits out l)
    (let? rs := counted_list (fun v => record_value record v None) l in
     Ok (extend emits out (fst rs), cost_rows emits out (extend emits out (fst rs)) (snd rs))).
Proof.
  induction l as [| v l IH]; intros out Hr; cbn [row_array_loop counted_list].
  { cbn [rbind fst snd]. rewrite cost_rows_refl. unfold extend. rewrite app_nil_r.
    destruct emits; apply sim_ret. }
  assert (sim (bwhen emits (let* _ := emit in bytes (usize_from (nonempty out))))
    (Ok (tt, if emits then cost_add cost_emit (cost_bytes (usize_from (nonempty out))) else cost0))) as Hc.
  { apply sim_bwhen. eapply sim_step; [apply sim_emit | apply sim_bytes; by destruct (nonempty out) | done]. }
  pose proof (record_sim record v None emits Hr) as Hrec.
  destruct (record_value record v None) as [[x n] | e]; cbn [rbind fst snd] in Hrec |- *.
  - specialize (IH (extend emits out [x]) Hr).
    destruct (counted_list _ l) as [[vs m] | e]; cbn [rbind fst snd] in IH |- *.
    + rewrite !extend_cons in IH. rewrite cost_rows_cons.
      eapply sim_step; [exact Hc | eapply sim_step; [exact Hrec | | reflexivity] |].
      * eapply sim_cast; [by destruct emits; exact IH | reflexivity].
      * destruct emits; unfold cost_item, cost_of; [| cost].
        unfold cost_add, cost_bytes, cost_emit, cost_rows. cbn [k_bytes k_scans k_emits]. f_equal; lia.
    + eapply sim_step_err; [exact Hc | eapply sim_step_err; [exact Hrec |]]. by destruct emits; exact IH.
  - eapply sim_step_err; [exact Hc | by apply sim_bind_err].
Qed.

(** A one-field object. *)
Lemma json_size_single k v : json_size (VObj [(k, v)]) = 2 + (quote_size k + 1 + json_size v).
Proof. rewrite json_size_obj. unfold sep_sum, entry_size. simpl. lia. Qed.

Lemma sim_scalar_array_loop nm k unique emits l : forall ids out,
  sim (scalar_array_loop nm k unique emits ids out l)
    (let? vs := scalar_rows nm k unique ids l in
     Ok (extend emits out vs, cost_rows emits out (extend emits out vs) 0)).
Proof.
  induction l as [| v l IH]; intros ids out; cbn [scalar_array_loop scalar_rows].
  { cbn [rbind]. rewrite cost_rows_refl. unfold extend. rewrite app_nil_r.
    destruct emits; apply sim_ret. }
  destruct (read k v) as [s | e]; cbn [rbind]; [| by apply sim_bind_err; intros b Hb; left].
  set (item := VObj [(nm, scalar_value s)]).
  assert (sim (if emits then
        let* _ := emit in
        let* _ := bytes (2 + usize_from (nonempty out)) in
        let* _ := key nm false in
        let* v := to_value s in bret (out ++ [VObj (bt_insert nm v [])]) else bret out)
      (Ok (extend emits out [item], cost_item emits out item 0))) as Hitem.
  { destruct emits; [| apply sim_ret].
    eapply sim_step; [apply sim_emit | eapply sim_step; [apply sim_bytes; by destruct (nonempty out) |
      eapply sim_step; [apply sim_key | eapply sim_step; [apply sim_to_value | apply sim_ret | reflexivity]
        | reflexivity] | reflexivity] |].
    unfold cost_item, item. rewrite json_size_single. cost. }
  apply (sim_eq (if unique && bool_decide (s = SText EmptyString) then berr InvalidOutput
      else
        let* out := (if emits then
            let* _ := emit in
            let* _ := bytes (2 + usize_from (nonempty out)) in
            let* _ := key nm false in
            let* v := to_value s in bret (out ++ [VObj (bt_insert nm v [])]) else bret out) in
        if unique then
          let* ids := blift (ok_or (fresh_insert s ids) InvalidOutput) in
          scalar_array_loop nm k unique emits ids out l
        else scalar_array_loop nm k unique emits ids out l)); [done |].
  destruct (unique && _)%bool; [apply sim_err |].
  destruct unique.
  - destruct (fresh_insert s ids) as [ids' |]; cbn [ok_or rbind].
    + specialize (IH ids' (extend emits out [item])).
      destruct (scalar_rows nm k true ids' l) as [vs | e]; cbn [rbind] in IH |- *.
      * rewrite !extend_cons in IH. change 0 with (0 + 0). eapply sim_cons; [exact Hitem | exact IH].
      * eapply sim_step_err; [exact Hitem | exact IH].
    + eapply sim_step_err; [exact Hitem | by intros b Hb; left].
  - specialize (IH ids (extend emits out [item])). cbn [rbind].
    destruct (scalar_rows nm k false ids l) as [vs | e]; cbn [rbind] in IH |- *.
    + rewrite !extend_cons in IH. change 0 with (0 + 0). eapply sim_cons; [exact Hitem | exact IH].
    + eapply sim_step_err; [exact Hitem | exact IH].
Qed.

(** *** Identified rows *)

(** What the row loops do with an already checked row. *)
Definition row_step (sel : option string) (emits : bool) (st : Rows) (r : idrow) : Rows :=
  let matches := selects sel (fst r) in
  add_row (is_some sel) matches (emitted_value (emits && matches) (fst (snd r))) st.
Definition row_cost (sel : option string) (emits : bool) (st : Rows) (r : idrow) : Cost :=
  let emit_row := emits && selects sel (fst r) in
  cost_add
    (if emit_row then cost_add cost_emit
       (if is_some sel then cost0 else cost_bytes (usize_from (nonempty (rows st)))) else cost0)
    (cost_of emit_row (fst (snd r)) (snd (snd r))).
Definition rows_steps sel emits (st : Rows) (rs : list idrow) : Rows := foldl (row_step sel emits) st rs.
Fixpoint rows_cost sel emits (st : Rows) (rs : list idrow) : Cost :=
  match rs with
  | [] => cost0
  | r :: rs => cost_add (row_cost sel emits st r) (rows_cost sel emits (row_step sel emits st r) rs)
  end.

Lemma sim_row_charge (emit_row : bool) sel st :
  sim (row_charge emit_row (is_some sel) st)
    (Ok (tt, if emit_row then cost_add cost_emit
       (if is_some (A := string) sel then cost0 else cost_bytes (usize_from (nonempty (rows st)))) else cost0)).
Proof.
  unfold row_charge. apply sim_bwhen. eapply sim_step; [apply sim_emit | | reflexivity].
  destruct sel; simpl; [apply sim_ret | apply sim_bytes; by destruct (nonempty (rows st))].
Qed.

(** One checked row of either loop. *)
Lemma sim_row {B} record v k sel emits st id (f : Rows -> BM B) (s : result CoreError (list idrow))
    (g : list idrow -> B) :
  accepted record (key_id k) ->
  (forall r, record_value record v k = Ok r ->
    sim (f (row_step sel emits st (id, r)))
      (let? rs := s in Ok (g rs, rows_cost sel emits (row_step sel emits st (id, r)) rs))) ->
  sim (let* _ := row_charge (emits && selects sel id) (is_some sel) st in
       let* r := project_record record v k (emits && selects sel id) in
       f (add_row (is_some sel) (selects sel id) r st))
    (let? r := record_value record v k in
     let? rs := s in
     Ok (g rs, rows_cost sel emits st ((id, r) :: rs))).
Proof.
  intros Hr Hf. pose proof (sim_row_charge (emits && selects sel id) sel st) as Hc.
  pose proof (record_sim record v k (emits && selects sel id) Hr) as Hrec.
  destruct (record_value record v k) as [[x n] | e]; cbn [rbind fst snd] in Hrec |- *.
  - specialize (Hf _ eq_refl). destruct s as [rs | e]; cbn [rbind] in Hf |- *.
    + eapply sim_step; [exact Hc | eapply sim_step; [exact Hrec | exact Hf | reflexivity] |].
      cbn [rows_cost]. unfold row_cost. cbn [fst snd].
      unfold cost_add. cbn [k_bytes k_scans k_emits]. f_equal; lia.
    + eapply sim_step_err; [exact Hc | eapply sim_step_err; [exact Hrec | exact Hf]].
  - eapply sim_step_err; [exact Hc | by apply sim_bind_err].
Qed.

Lemma sim_object_array_loop record idsrc max sel emits l : forall ids st,
  accepted record None ->
  sim (object_array_loop record idsrc max sel emits ids st l)
    (let? rs := array_rows record idsrc max ids l in
     Ok (rows_steps sel emits st rs, rows_cost sel emits st rs)).
Proof.
  induction l as [| v l IH]; intros ids st Hr; cbn [object_array_loop array_rows]; [apply sim_ret |].
  rewrite rbind_assoc. apply sim_lift. intros found _.
  rewrite rbind_assoc. apply sim_lift. intros identity _.
  destruct (valid_identity identity max); cbn [negb]; [| apply sim_err].
  rewrite rbind_assoc. apply sim_lift. intros ids' _. cbv zeta.
  eapply sim_cast; [apply (sim_row record v None sel emits st identity
    (fun st => object_array_loop record idsrc max sel emits ids' st l) (array_rows record idsrc max ids' l)
    (fun rs => rows_steps sel emits st ((identity, default (VNull, 0) (result_value (record_value record v None))) :: rs))); [exact Hr |] |].
  - intros r Er. rewrite Er. exact (IH ids' _ Hr).
  - destruct (record_value record v None); [| done]. by destruct (array_rows record idsrc max ids' l).
Qed.

Lemma sim_object_entries_loop record k sel emits l : forall st,
  accepted record (Some k) ->
  sim (object_entries_loop record k sel emits st l)
    (let? rs := entry_rows record k l in
     Ok (rows_steps sel emits st rs, rows_cost sel emits st rs)).
Proof.
  induction l as [| [identity v] l IH]; intros st Hr; cbn [object_entries_loop entry_rows]; [apply sim_ret |].
  destruct (valid_identity identity (id_max_bytes k)); cbn [negb]; [| apply sim_err]. cbv zeta.
  eapply sim_cast; [apply (sim_row record v (Some (k, identity)) sel emits st identity
    (fun st => object_entries_loop record k sel emits st l) (entry_rows record k l)
    (fun rs => rows_steps sel emits st ((identity, default (VNull, 0) (result_value (record_value record v (Some (k, identity))))) :: rs)));
    [exact Hr |] |].
  - intros r Er. rewrite Er. exact (IH _ Hr).
  - destruct (record_value record v (Some (k, identity))); [| done]. by destruct (entry_rows record k l).
Qed.

(** Without a selector every row is collected. *)
Lemma rows_steps_all emits st rs :
  rows (rows_steps None emits st rs) = extend emits (rows st) (row_values rs).
Proof.
  revert st. induction rs as [| [id [v n]] rs IH]; intros st.
  { unfold extend. rewrite app_nil_r. by destruct emits. }
  cbn [rows_steps foldl]. fold (rows_steps None emits (row_step None emits st (id, (v, n))) rs).
  rewrite IH. unfold row_values. rewrite fmap_cons. cbn [fst snd]. rewrite <- extend_cons.
  f_equal. by destruct emits.
Qed.

Lemma rows_cost_all emits st rs :
  rows_cost None emits st rs
    = cost_rows emits (rows st) (extend emits (rows st) (row_values rs)) (row_scans rs).
Proof.
  revert st. induction rs as [| [id [v n]] rs IH]; intros st.
  { by rewrite cost_rows_refl. }
  cbn [rows_cost]. rewrite IH. unfold row_values. rewrite fmap_cons. cbn [row_scans foldr fst snd].
  fold (row_scans rs). rewrite cost_rows_cons.
  assert (rows (row_step None emits st (id, (v, n))) = extend emits (rows st) [v]) as -> by by destruct emits.
  rewrite extend_cons. fold (row_values rs). f_equal.
  unfold row_cost, cost_item, cost_of. cbn [selects fst snd is_some]. rewrite andb_true_r.
  destruct emits; cost.
Qed.

(** With a selector, over distinct identities, exactly the selected row is
    kept and paid for. *)
Definition find_row (s : string) (rs : list idrow) : option idrow :=
  List.find (fun r => String.eqb s (fst r)) rs.
Definition cost_selected (r : idrow) (n : Z) : Cost :=
  {| k_bytes := json_size (fst (snd r)); k_scans := n; k_emits := 1 + snd (snd r) |}.

Lemma find_row_None s rs : s ∉ rs.*1 -> find_row s rs = None.
Proof.
  induction rs as [| [id r] rs IH]; [done |]. rewrite fmap_cons, not_elem_of_cons. simpl.
  intros [Hne Hin]. rewrite (proj2 (String.eqb_neq s id) Hne). by apply IH.
Qed.

Lemma rows_steps_selected s st rs :
  NoDup rs.*1 ->
  observed (rows_steps (Some s) true st rs) = observed st || is_some (find_row s rs) /\
  selected (rows_steps (Some s) true st rs) =
    match find_row s rs with Some r => Some (fst (snd r)) | None => selected st end /\
  rows_cost (Some s) true st rs =
    match find_row s rs with Some r => cost_selected r (row_scans rs) | None => cost_scans (row_scans rs) end.
Proof.
  revert st. induction rs as [| [id [v n]] rs IH]; intros st Hnd.
  { simpl. rewrite orb_false_r. done. }
  rewrite fmap_cons in Hnd. apply NoDup_cons in Hnd as [Hid Hnd].
  cbn [rows_steps foldl rows_cost]. fold (rows_steps (Some s) true (row_step (Some s) true st (id, (v, n))) rs).
  destruct (IH (row_step (Some s) true st (id, (v, n))) Hnd) as (-> & -> & ->). clear IH.
  unfold row_step, row_cost, find_row. cbn [List.find fst snd selects is_some andb row_scans foldr].
  fold (row_scans rs). fold (find_row s rs). cbn [fst] in Hid.
  destruct (String.eqb_spec s id) as [-> | Hne]; cbn [emitted_value add_row observed selected is_some].
  - rewrite (find_row_None id rs Hid). rewrite orb_true_r. repeat split.
    unfold cost_selected, cost_of. cost.
  - rewrite orb_false_r. repeat split. unfold cost_of.
    destruct (find_row s rs); unfold cost_selected; cost.
Qed.

Lemma array_rows_NoDup record idsrc max l : forall ids rs,
  array_rows record idsrc max ids l = Ok rs -> NoDup ids -> NoDup (rs.*1 ++ ids).
Proof.
  induction l as [| v l IH]; intros ids rs Hr Hnd; cbn [array_rows] in Hr; [by injection Hr as <- |].
  apply rbind_ok in Hr as (found & _ & Hr). apply rbind_ok in Hr as (id & _ & Hr).
  apply fail_if_ok in Hr as [_ Hr]. apply rbind_ok in Hr as (ids' & Hf & Hr).
  apply ok_or_ok, fresh_insert_Some in Hf as [Hid ->].
  apply rbind_ok in Hr as (r & _ & Hr). apply rbind_ok in Hr as (rest & Hrest & [= <-]).
  apply IH in Hrest; [| by constructor]. rewrite fmap_cons. simpl.
  by rewrite <- Permutation_middle in Hrest.
Qed.

Lemma array_rows_length record idsrc max l : forall ids rs,
  array_rows record idsrc max ids l = Ok rs -> length rs = length l.
Proof.
  induction l as [| v l IH]; intros ids rs Hr; cbn [array_rows] in Hr; [by injection Hr as <- |].
  apply rbind_ok in Hr as (found & _ & Hr). apply rbind_ok in Hr as (id & _ & Hr).
  apply fail_if_ok in Hr as [_ Hr]. apply rbind_ok in Hr as (ids' & Hf & Hr).
  apply rbind_ok in Hr as (r & _ & Hr). apply rbind_ok in Hr as (rest & Hrest & [= <-]).
  simpl. by rewrite (IH ids' rest Hrest).
Qed.

Lemma entry_rows_ids record k l rs : entry_rows record k l = Ok rs -> rs.*1 = l.*1.
Proof.
  revert rs. induction l as [| [id v] l IH]; intros rs Hr; cbn [entry_rows] in Hr; [by injection Hr as <- |].
  apply fail_if_ok in Hr as [_ Hr]. apply rbind_ok in Hr as (r & _ & Hr).
  apply rbind_ok in Hr as (rest & Hrest & [= <-]). rewrite !fmap_cons. by rewrite (IH rest Hrest).
Qed.

Lemma collection_rows_NoDup c src rs :
  value_wf src -> collection_rows c src = Ok rs -> NoDup rs.*1.
Proof.
  intros Hwf. destruct c; simpl; try done; intros Hr;
    apply rbind_ok in Hr as (vs & Hvs & Hr); apply ok_or_ok in Hvs;
    apply rbind_ok in Hr as (? & _ & Hr).
  - apply rbind_ok in Hr as (f & _ & Hr). apply rbind_ok in Hr as (max & _ & Hr).
    apply array_rows_NoDup in Hr; [| constructor]. by rewrite app_nil_r in Hr.
  - apply entry_rows_ids in Hr as ->. destruct src; try done. injection Hvs as ->.
    destruct Hwf as [Hwf _]. by apply strict_NoDup_keys in Hwf.
Qed.

(** ** [project_at] *)
Definition accepted_collection (c : Collection R) : Prop :=
  exists depth nodes nodes', validate_collection c depth nodes = Ok nodes'.

Lemma accepted_collection_record c :
  accepted_collection c ->
  match c with
  | RowArray _ _ record | ObjectArray _ _ _ record => accepted record None
  | ObjectEntries _ _ k record => accepted record (Some k)
  | _ => True
  end.
Proof.
  intros (depth & nodes & nodes' & Hv). unfold validate_collection in Hv. cbv zeta in Hv.
  apply fail_if_ok in Hv as [_ Hv]. apply rbind_ok in Hv as (? & _ & Hv).
  apply rbind_ok in Hv as ([mi n'] & Hv & _).
  destruct c; try done.
  - apply rbind_ok in Hv as (n & Hv & _). by exists (depth + 1), (nodes + 1), n.
  - apply fail_if_ok in Hv as [_ Hv]. apply rbind_ok in Hv as (n & Hv & _). by exists (depth + 1), (nodes + 1), n.
  - apply rbind_ok in Hv as (n & Hv & _). by exists (depth + 1), (nodes + 1), n.
Qed.

Lemma sim_scan_step {B} count max (m : BM B) s :
  0 <= count -> sim m s ->
  sim (let* _ := scan count max in m)
    (let? _ := check_count count max in
     match s with Ok (x, d) => Ok (x, cost_add (cost_scans count) d) | Err e => Err e end).
Proof.
  intros Hc Hm. pose proof (sim_scan count max Hc) as Hs. unfold check_count.
  destruct (max <? count); cbn [rbind]; [by apply sim_bind_err |].
  exact (sim_bind _ _ _ (fun _ => m) s Hs Hm).
Qed.

(** The two array brackets, the rows, and the result. *)
Definition cost_array (emits : bool) (vs : list value) (n : Z) : Cost :=
  if emits then {| k_bytes := json_size (VArr vs) - 2; k_scans := n; k_emits := n |} else cost_scans n.

Lemma sim_array {C} (m : BM Rows) (s : result CoreError C) (G : C -> Rows) (vs : C -> list value)
    (n : C -> Z) emits :
  sim m (let? r := s in Ok (G r, cost_array emits (vs r) (n r))) ->
  (forall r, s = Ok r -> emits = true -> rows (G r) = vs r) ->
  sim (let* _ := bwhen (emits && negb (is_some (None : option string))) (bytes 2) in
       let* st := m in finish_rows false emits st)
    (let? r := s in
     Ok (emitted_value emits (VArr (vs r)), cost_of emits (VArr (vs r)) (n r))).
Proof.
  intros Hm Hrows. cbn [is_some negb]. rewrite andb_true_r.
  pose proof (sim_bwhen emits _ _ (sim_bytes 2 ltac:(lia))) as Hb.
  destruct s as [r | e]; cbn [rbind] in Hm |- *.
  - specialize (Hrows r eq_refl). eapply sim_step; [exact Hb | eapply sim_step; [exact Hm | | reflexivity] |].
    + unfold finish_rows. cbn [andb]. destruct emits; cbn [negb]; [rewrite Hrows by done |]; apply sim_ret.
    + unfold cost_array, cost_of. destruct emits; cost.
  - eapply sim_step_err; [exact Hb | by apply sim_bind_err].
Qed.

Lemma cost_rows_array emits vs n :
  cost_add (cost_scans (zlen vs)) (cost_rows emits [] (extend emits [] vs) n)
    = cost_array emits vs (zlen vs + n).
Proof.
  unfold cost_rows, cost_array, extend. change (json_size (VArr [])) with 2.
  destruct emits; cbn [app length]; cost.
Qed.

Lemma counted_list_length {A B} (f : A -> counted B) l vs n :
  counted_list f l = Ok (vs, n) -> length vs = length l.
Proof.
  revert vs n. induction l as [| x l IH]; intros vs n Hc; cbn [counted_list] in Hc; [by injection Hc as <- _ |].
  apply rbind_ok in Hc as (y & _ & Hc). apply rbind_ok in Hc as ([ys m] & Hys & [= <- _]).
  simpl. by rewrite (IH ys m Hys).
Qed.

Lemma scalar_rows_length nm k unique l : forall ids vs,
  scalar_rows nm k unique ids l = Ok vs -> length vs = length l.
Proof.
  induction l as [| x l IH]; intros ids vs Hc; cbn [scalar_rows] in Hc; [by injection Hc as <- |].
  apply rbind_ok in Hc as (y & _ & Hc). apply fail_if_ok in Hc as [_ Hc].
  apply rbind_ok in Hc as (ids' & _ & Hc). apply rbind_ok in Hc as (ys & Hys & [= <-]).
  simpl. by rewrite (IH ids' ys Hys).
Qed.

Lemma sim_project_rows src_path max_items record src emits :
  accepted record None ->
  sim (project_at (RowArray src_path max_items record) src None emits)
    (let? v := collection_value (RowArray src_path max_items record) src in
     Ok (emitted_value emits (fst v), cost_of emits (fst v) (snd v))).
Proof.
  intros Hr. cbn [collection_value project_at is_some].
  assert ((let? v := (let? vs := ok_or (as_array src) InvalidOutput in
                let? _ := check_count (zlen vs) max_items in
                let? rs := counted_list (fun v => record_value record v None) vs in
                Ok (VArr (fst rs), zlen vs + snd rs)) in
     Ok (emitted_value emits (fst v), cost_of emits (fst v) (snd v)))
    = (let? r := (let? vs := ok_or (as_array src) InvalidOutput in
                let? _ := check_count (zlen vs) max_items in
                counted_list (fun v => record_value record v None) vs) in
       Ok (emitted_value emits (VArr (fst r)), cost_of emits (VArr (fst r)) (zlen (fst r) + snd r)))) as ->.
  { destruct (as_array src) as [vs |]; [| done]. cbn [ok_or rbind].
    destruct (check_count _ _); [| done]. cbn [rbind].
    destruct (counted_list _ vs) as [[rs n] | e] eqn:E; [| done]. cbn [rbind fst snd].
    by rewrite (counted_list_length _ _ _ _ E). }
  eapply sim_array with (G := fun r => {| rows := extend emits [] (fst r); selected := None; observed := false |}).
  - rewrite rbind_assoc. apply sim_lift. intros vs _. rewrite rbind_assoc.
    eapply sim_cast; [apply sim_scan_step; [lia |] |].
    + pose proof (sim_row_array_loop record emits vs [] Hr) as Hl.
      eapply (sim_cast _ (let? rs := counted_list (fun v => record_value record v None) vs in
        Ok ({| rows := extend emits [] (fst rs); selected := None; observed := false |},
            cost_rows emits [] (extend emits [] (fst rs)) (snd rs)))); [| reflexivity].
      destruct (counted_list _ vs) as [rs | e]; cbn [rbind] in Hl |- *.
      * eapply sim_step; [exact Hl | apply sim_ret |]. unfold cost_rows. destruct emits; cost.
      * by apply sim_bind_err.
    + destruct (check_count _ _); cbn [rbind]; [| done].
      destruct (counted_list _ vs) as [[rs n] | e] eqn:E; cbn [rbind fst snd]; [| done].
      by rewrite <- (counted_list_length _ _ _ _ E), cost_rows_array.
  - intros r _ ->. done.
Qed.

Lemma sim_project_scalars src_path max_items nm k unique src emits :
  sim (project_at (ScalarArray (R := R) src_path max_items nm k unique) src None emits)
    (let? v := collection_value (ScalarArray (R := R) src_path max_items nm k unique) src in
     Ok (emitted_value emits (fst v), cost_of emits (fst v) (snd v))).
Proof.
  cbn [collection_value project_at is_some].
  assert ((let? v := (let? vs := ok_or (as_array src) InvalidOutput in
                let? _ := check_count (zlen vs) max_items in
                let? rs := scalar_rows nm k unique [] vs in Ok (VArr rs, zlen vs)) in
     Ok (emitted_value emits (fst v), cost_of emits (fst v) (snd v)))
    = (let? rs := (let? vs := ok_or (as_array src) InvalidOutput in
                let? _ := check_count (zlen vs) max_items in scalar_rows nm k unique [] vs) in
       Ok (emitted_value emits (VArr rs), cost_of emits (VArr rs) (zlen rs + 0)))) as ->.
  { destruct (as_array src) as [vs |]; [| done]. cbn [ok_or rbind].
    destruct (check_count _ _); [| done]. cbn [rbind].
    destruct (scalar_rows _ _ _ _ vs) as [rs | e] eqn:E; [| done]. cbn [rbind fst snd].
    by rewrite (scalar_rows_length _ _ _ _ _ _ E), Z.add_0_r. }
  eapply sim_array with (G := fun r => {| rows := extend emits [] r; selected := None; observed := false |}).
  - rewrite rbind_assoc. apply sim_lift. intros vs _. rewrite rbind_assoc.
    eapply sim_cast; [apply sim_scan_step; [lia |] |].
    + pose proof (sim_scalar_array_loop nm k unique emits vs [] []) as Hl.
      eapply (sim_cast _ (let? rs := scalar_rows nm k unique [] vs in
        Ok ({| rows := extend emits [] rs; selected := None; observed := false |},
            cost_rows emits [] (extend emits [] rs) 0))); [| reflexivity].
      destruct (scalar_rows _ _ _ _ vs) as [rs | e]; cbn [rbind] in Hl |- *.
      * eapply sim_step; [exact Hl | apply sim_ret |]. unfold cost_rows. destruct emits; cost.
      * by apply sim_bind_err.
    + destruct (check_count _ _); cbn [rbind]; [| done].
      destruct (scalar_rows _ _ _ _ vs) as [rs | e] eqn:E; cbn [rbind fst snd]; [| done].
      by rewrite <- (scalar_rows_length _ _ _ _ _ _ E), cost_rows_array.
  - intros r _ ->. done.
Qed.

(** The identified collections, whose rows are those of [collection_rows]. *)
Lemma sim_collection_rows c src sel emits (m : BM Rows) :
  accepted_collection c ->
  match c with
  | ObjectArray _ max_items identity record =>
      m = (let* values := blift (ok_or (as_array src) InvalidOutput) in
           let* _ := scan (zlen values) max_items in
           let* field := blift (ok_or (List.find (fun field => String.eqb (name field) identity)
                                        (shape_fields record)) InvalidDefinition) in
           let* max := blift (ok_or (identity_limit c) InvalidDefinition) in
           object_array_loop record (source field) max sel emits [] Rows_new values)
  | ObjectEntries _ max_items k record =>
      m = (let* values := blift (ok_or (as_object src) InvalidOutput) in
           let* _ := scan (zlen values) max_items in
           object_entries_loop record k sel emits Rows_new values)
  | _ => False
  end ->
  sim m (let? rs := collection_rows c src in
         Ok (rows_steps sel emits Rows_new rs,
             cost_add (cost_scans (zlen rs)) (rows_cost sel emits Rows_new rs))).
Proof.
  intros Hacc%accepted_collection_record. destruct c as [| | sp mi identity record | sp mi k record |]; try done;
    intros ->; unfold collection_rows; rewrite rbind_assoc; apply sim_lift; intros vs _; rewrite rbind_assoc.
  - eapply sim_cast; [apply sim_scan_step; [lia |] |].
    + apply sim_lift. intros f _. apply sim_lift. intros max _. apply sim_object_array_loop, Hacc.
    + destruct (check_count _ _); cbn [rbind]; [| done].
      destruct (ok_or (List.find _ _) _) as [f |]; cbn [rbind]; [| done].
      destruct (ok_or (identity_limit _) _) as [max |]; cbn [rbind]; [| done].
      destruct (array_rows record (source f) max [] vs) as [rs |] eqn:E; cbn [rbind]; [| done].
      by rewrite (array_rows_length _ _ _ _ _ _ E).
  - eapply sim_cast; [apply sim_scan_step; [lia |] |].
    + apply sim_object_entries_loop, Hacc.
    + destruct (check_count _ _); cbn [rbind]; [| done].
      destruct (entry_rows record k vs) as [rs |] eqn:E; cbn [rbind]; [| done].
      apply entry_rows_ids, (f_equal length) in E. rewrite !length_fmap in E.
      by assert (zlen rs = zlen vs) as -> by (f_equal; exact E).
Qed.

Lemma sim_project_identified c src emits :
  accepted_collection c ->
  match c with ObjectArray _ _ _ _ | ObjectEntries _ _ _ _ => True | _ => False end ->
  sim (project_at c src None emits)
    (let? v := collection_value c src in
     Ok (emitted_value emits (fst v), cost_of emits (fst v) (snd v))).
Proof.
  intros Hacc Hc.
  assert ((let? v := collection_value c src in
     Ok (emitted_value emits (fst v), cost_of emits (fst v) (snd v)))
    = (let? rs := collection_rows c src in
       Ok (emitted_value emits (VArr (row_values rs)),
           cost_of emits (VArr (row_values rs)) (zlen rs + row_scans rs)))) as ->.
  { destruct c; try done; unfold collection_value; by rewrite rbind_assoc. }
  assert (forall r : list idrow, cost_add (cost_scans (zlen r)) (rows_cost None emits Rows_new r)
    = cost_array emits (row_values r) (zlen r + row_scans r)) as Hcost.
  { intros r. rewrite rows_cost_all. cbn [rows Rows_new].
    replace (zlen r) with (zlen (row_values r)) by (unfold row_values; by rewrite length_fmap).
    apply cost_rows_array. }
  destruct c as [| | sp mi identity record | sp mi k record |]; try done; cbn [project_at is_some];
    (eapply sim_array with (G := rows_steps None emits Rows_new);
      [ eapply sim_cast; [by apply sim_collection_rows |]
      | intros r _ ->; apply rows_steps_all]).
  - destruct (collection_rows _ src) as [r |]; cbn [rbind]; [by rewrite Hcost | done].
  - destruct (collection_rows _ src) as [r |]; cbn [rbind]; [by rewrite Hcost | done].
Qed.

Lemma sim_selected_rows c src s (m : BM Rows) :
  value_wf src ->
  sim m (let? rs := collection_rows c src in
         Ok (rows_steps (Some s) true Rows_new rs,
             cost_add (cost_scans (zlen rs)) (rows_cost (Some s) true Rows_new rs))) ->
  sim (let* _ := bwhen false (bytes 2) in let* st := m in finish_rows true true st)
    (let? rs := collection_rows c src in
     let? r := ok_or (find_row s rs) SelectionNotObserved in
     Ok (Some (fst (snd r)), cost_selected r (zlen rs + row_scans rs))).
Proof.
  intros Hwf Hm. apply (sim_eq (let* st := m in finish_rows true true st)); [done |].
  destruct (collection_rows c src) as [rs | e] eqn:Er; cbn [rbind] in Hm |- *; [| by apply sim_bind_err].
  destruct (rows_steps_selected s Rows_new rs (collection_rows_NoDup c src rs Hwf Er)) as (Ho & Hs & Hk).
  rewrite Hk in Hm. cbn [observed Rows_new orb selected] in Ho, Hs.
  destruct (find_row s rs) as [r |]; cbn [ok_or rbind is_some] in Ho, Hs |- *.
  - eapply sim_step; [exact Hm | |].
    + unfold finish_rows. rewrite Ho, Hs. apply sim_ret.
    + unfold cost_selected. cost.
  - eapply sim_step_err; [exact Hm |]. unfold finish_rows. rewrite Ho. apply sim_err.
Qed.

Lemma sim_project_selected c src s :
  accepted_collection c -> value_wf src ->
  sim (project_at c src (Some s) true)
    (let? rs := collection_rows c src in
     let? r := ok_or (find_row s rs) SelectionNotObserved in
     Ok (Some (fst (snd r)), cost_selected r (zlen rs + row_scans rs))).
Proof.
  intros Hacc Hwf.
  destruct c as [| | sp mi identity record | sp mi k record |]; try (intros b Hb; by left);
    cbn [project_at is_some negb andb];
    (apply sim_selected_rows; [exact Hwf |]; by apply sim_collection_rows).
Qed.

Definition text_entries (k : string) (ts : list value) : obj := [("kind", VStr k); ("values", VArr ts)].

Definition text_head (k : string) : BM unit :=
  let* _ := bytes 2 in
  let* _ := key "kind" false in
  let* _ := text k in
  let* _ := key "values" true in
  bytes 2.
Definition text_head_size (k : string) : Z :=
  2 + (quote_size "kind" + 1) + quote_size k + (quote_size "values" + 2) + 2.

Lemma sim_project_text sp max_items max_bytes src emits :
  sim (project_at (TextOption (R := R) sp max_items max_bytes) src None emits)
    (let? v := collection_value (TextOption (R := R) sp max_items max_bytes) src in
     Ok (emitted_value emits (fst v), cost_of emits (fst v) (snd v))).
Proof.
  cbn [project_at is_some collection_value]. unfold project_text_option.
  apply (sim_eq (let* shape := blift (text_option_parts src) in
    let '(k, values) := shape in
    let* _ := scan (zlen values) max_items in
    let* _ := bwhen emits (text_head k) in
    let* projected := text_option_loop max_bytes emits [] values in
    bret (if emits then Some (VObj (bt_of_list [("kind", VStr k); ("values", VArr projected)])) else None))).
  { intros b. by destruct src. }
  rewrite rbind_assoc. apply sim_lift. intros [k values] _. cbn [fst snd]. rewrite rbind_assoc.
  eapply sim_cast; [apply sim_scan_step with (s := let? ts := collect (fun v => let? s := read (Text max_bytes) v in Ok (scalar_value s)) values in
    Ok (emitted_value emits (VObj (text_entries k ts)),
        if emits then {| k_bytes := json_size (VObj (text_entries k ts)); k_scans := 0; k_emits := zlen ts |}
        else cost0)); [lia |] |].
  - pose proof (sim_text_option_loop max_bytes emits values []) as Hl.
    assert (sim (bwhen emits (text_head k)) (Ok (tt, if emits then cost_bytes (text_head_size k) else cost0))) as Hhead.
    { apply sim_bwhen. eapply sim_step; [by apply sim_bytes | eapply sim_step; [apply sim_key |
        eapply sim_step; [apply sim_text | eapply sim_step; [apply sim_key | by apply sim_bytes | reflexivity]
          | reflexivity] | reflexivity] |]. unfold text_head_size. cost. }
    destruct (collect _ values) as [ts | e]; cbn [rbind] in Hl |- *.
    + eapply sim_step; [exact Hhead | eapply sim_step; [exact Hl | | reflexivity] |].
      * destruct emits; apply sim_ret.
      * unfold cost_rows, extend, text_head_size. destruct emits; [| cost]. cbn [app length].
        unfold text_entries. rewrite json_size_obj. unfold sep_sum, entry_size.
        cbn [fmap list_fmap foldr fst snd length]. change (json_size (VArr [])) with 2.
        change (json_size (VStr k)) with (quote_size k). cost.
    + eapply sim_step_err; [exact Hhead | by apply sim_bind_err].
  - destruct (check_count _ _); cbn [rbind]; [| done].
    destruct (collect _ values) as [ts | e] eqn:Ec; cbn [rbind fst snd]; [| done].
    assert (length ts = length values) as Hlen by (by apply collect_length in Ec).
    rewrite <- Hlen. unfold cost_of, emitted_value, text_entries. destruct emits; [| do 2 f_equal; cost].
    do 2 f_equal. cost.
Qed.

Lemma sim_project_at c src emits :
  accepted_collection c ->
  sim (project_at c src None emits)
    (let? v := collection_value c src in
     Ok (emitted_value emits (fst v), cost_of emits (fst v) (snd v))).
Proof.
  intros Hacc. pose proof (accepted_collection_record c Hacc) as Hr. destruct c.
  - apply sim_project_text.
  - by apply sim_project_rows.
  - by apply sim_project_identified.
  - by apply sim_project_identified.
  - apply sim_project_scalars.
Qed.

(** ** Records of collections *)
Definition cost_fields (emits : bool) (out out' : obj) (n : Z) : Cost :=
  if emits then {| k_bytes := json_size (VObj out') - json_size (VObj out); k_scans := n; k_emits := n |}
  else cost_scans n.

Lemma sim_record_collections_loop src emits l : forall out,
  Forall (fun f => accepted_collection (collection f)) l ->
  NoDup (c_name <$> l) -> absent (c_name <$> l) out ->
  sim (record_collections_loop src emits out l)
    (let? r := counted_list (collection_entry src) l in
     let out' := if emits then insert_all out (mjoin (fst r)) else out in
     Ok (out', cost_fields emits out out' (snd r))).
Proof.
  induction l as [| f l IH]; intros out Hacc Hnd Hab; cbn [record_collections_loop counted_list].
  { simpl. eapply sim_cast; [apply sim_ret |]. unfold cost_fields, insert_all. simpl.
    destruct emits; [| done]. do 2 f_equal. unfold cost0. f_equal; lia. }
  apply Forall_cons in Hacc as [Hf Hacc].
  rewrite fmap_cons in Hnd, Hab. apply NoDup_cons in Hnd as [Hfn Hnd]. apply Forall_cons in Hab as [Hab1 Hab].
  unfold collection_entry at 1. rewrite rbind_assoc. rewrite rbind_assoc. apply sim_lift. intros found _.
  destruct found as [v |].
  - pose proof (sim_project_at (collection f) v emits Hf) as Hat.
    pose proof (sim_bwhen emits _ _ (sim_key (c_name f) (nonempty out))) as Hk.
    destruct (collection_value (collection f) v) as [[x n] | e]; cbn [rbind fst snd] in Hat |- *;
      [| eapply sim_step_err; [exact Hk | by apply sim_bind_err]].
    set (out1 := if emits then bt_insert (c_name f) x out else out).
    assert (absent (c_name <$> l) out1) as Hab'.
    { unfold out1. destruct emits; [by apply absent_insert | done]. }
    specialize (IH out1 Hacc Hnd Hab').
    assert (forall t, sim (record_collections_loop src emits out1 l) t ->
      sim (record_collections_loop src emits
        (match emitted_value emits x with Some v => bt_insert (c_name f) v out | None => out end) l) t) as Eo
      by (unfold out1; by destruct emits).
    destruct (counted_list (collection_entry src) l) as [[es m] | e]; cbn [rbind fst snd] in IH |- *.
    + pose proof (json_size_grow (c_name f) x out Hab1) as Hg. unfold cost_fields, cost_of in *.
      destruct emits; (eapply sim_step; [exact Hk | eapply sim_step; [exact Hat | apply Eo; exact IH | reflexivity] |]);
        unfold out1; [| cost].
      cbn [mjoin list_join app].
      change (insert_all out ((c_name f, x) :: mjoin es)) with (insert_all (bt_insert (c_name f) x out) (mjoin es)).
      cost.
    + eapply sim_step_err; [exact Hk | eapply sim_step_err; [exact Hat | by apply Eo]].
  - case_decide; [apply sim_err |]. specialize (IH out Hacc Hnd Hab).
    destruct (counted_list (collection_entry src) l) as [[es m] | e]; cbn [rbind fst snd] in IH |- *; [| done].
    eapply sim_cast; [exact IH |]. by rewrite Z.add_0_l.
Qed.

Lemma validate_collections_accepted l depth nodes nodes' :
  validate_collections l depth nodes = Ok nodes' -> Forall (fun f => accepted_collection (collection f)) l.
Proof.
  revert nodes. induction l as [| f l IH]; intros nodes Hv; [constructor |].
  cbn [validate_collections] in Hv. apply rbind_ok in Hv as (n & Hf & Hv).
  constructor; [by exists (depth + 1), nodes, n | by eapply IH].
Qed.

Lemma key_entry_names k kvs : key_entry k = Ok kvs -> kvs.*1 = key_names (key_id k).
Proof.
  destruct k as [[identity v] |]; simpl; [| by intros [= <-]].
  intros Hk. by apply fail_if_ok in Hk as [_ [= <-]].
Qed.

Lemma concat_read_names src fs kvs k :
  concat_results (read_field src) fs = Ok kvs -> k ∈ kvs.*1 -> k ∈ name <$> fs.
Proof.
  revert kvs. induction fs as [| f fs IH]; intros kvs Hc Hk; cbn [concat_results] in Hc;
    [by injection Hc as <- |].
  apply rbind_ok in Hc as (a & Ha & Hc). apply rbind_ok in Hc as (tl & Htl & [= <-]).
  rewrite fmap_app, elem_of_app in Hk. rewrite fmap_cons, elem_of_cons.
  destruct Hk as [Hk | Hk]; [| right; by apply (IH tl)].
  apply read_field_names in Ha as [-> | [s ->]]; [by apply not_elem_of_nil in Hk |].
  left. by apply list_elem_of_singleton in Hk.
Qed.

Lemma fields_value_names fs src k kvs x :
  fields_value fs src k = Ok kvs -> x ∈ kvs.*1 -> x ∈ key_names (key_id k) ++ (name <$> fs).
Proof.
  unfold fields_value. intros Hv. apply fail_if_ok in Hv as [_ Hv].
  apply rbind_ok in Hv as (h & Hh & Hv). apply rbind_ok in Hv as (t & Ht & [= <-]).
  rewrite fmap_app, !elem_of_app, (key_entry_names k h Hh). intros [? | Hx]; [by left | right].
  by eapply concat_read_names.
Qed.

Lemma sim_project_nested r src k emits :
  accepted r (key_id k) ->
  sim (project_nested r src k emits)
    (let? v := nested_value r src k in
     Ok (emitted_value emits (fst v), cost_of emits (fst v) (snd v))).
Proof.
  intros (depth & nodes & nodes' & Hv). cbn [validate_record SchemaRecord_shape] in Hv.
  unfold validate_nested in Hv. apply rbind_ok in Hv as (count & _ & Hv).
  apply rbind_ok in Hv as ([] & Hnames & Hv). apply validate_fields_names in Hnames.
  apply validate_collections_accepted in Hv. rewrite <- list_fmap_compose in Hnames.
  change (fst ∘ (fun f : CollectionField (Collection R) => (c_name f, c_source (collection f)))) with
    (c_name (C := Collection R)) in Hnames.
  assert (NoDup (key_names (key_id k) ++ (name <$> fields r))) as Hn1.
  { rewrite app_assoc in Hnames. by apply NoDup_app in Hnames as [? _]. }
  pose proof (sim_record_fields (fields r) src k emits Hn1) as Hs.
  unfold project_nested, nested_value.
  destruct (fields_value (fields r) src k) as [kvs | e] eqn:Ek; cbn [rbind] in Hs |- *; [| by apply sim_bind_err].
  set (out0 := if emits then bt_of_list kvs else []) in *.
  assert (absent (c_name <$> collections r) out0) as Hab.
  { unfold out0. destruct emits; [| apply Forall_forall; done].
    apply (absent_insert_all kvs _ []); [| apply Forall_forall; done].
    intros x Hx Hc. eapply fields_value_names in Hx; [| exact Ek].
    rewrite app_assoc in Hnames. apply NoDup_app in Hnames as (_ & Hdis & _). by apply (Hdis x). }
  assert (NoDup (c_name <$> collections r)) as Hnc.
  { rewrite app_assoc in Hnames. by apply NoDup_app in Hnames as (_ & _ & ?). }
  pose proof (sim_record_collections_loop src emits (collections r) out0 Hv Hnc Hab) as Hc.
  destruct (counted_list (collection_entry src) (collections r)) as [[es m] | e];
    cbn [rbind fst snd] in Hc |- *.
  - unfold out0 in *. clear out0 Hab. unfold cost_of, emitted_value, cost_fields in *.
    change (bt_of_list (kvs ++ mjoin es)) with (insert_all [] (kvs ++ mjoin es)). rewrite insert_all_app.
    destruct emits; (eapply sim_step; [exact Hs | eapply sim_step; [exact Hc | apply sim_ret | reflexivity] |]).
    + change (bt_of_list kvs) with (insert_all [] kvs). cost.
    + cost.
  - eapply sim_step_err; [exact Hs | by apply sim_bind_err].
Qed.
End collections.

Lemma counted_list_scans {A B} (f : A -> counted B) l vs n :
  (forall x v k, f x = Ok (v, k) -> 0 <= k) -> counted_list f l = Ok (vs, n) -> 0 <= n.
Proof.
  intros Hf. revert vs n. induction l as [| x l IH]; intros vs n Hc; cbn [counted_list] in Hc;
    [by injection Hc as _ <- |].
  apply rbind_ok in Hc as ([y k] & Hy & Hc). apply rbind_ok in Hc as ([ys m] & Hys & [= _ <-]).
  specialize (Hf _ _ _ Hy). specialize (IH _ _ Hys). simpl. lia.
Qed.

Lemma collection_rows_scans `{RecordLaws R} (c : Collection R) src rs :
  collection_rows c src = Ok rs -> Forall (fun r : idrow => 0 <= snd (snd r)) rs.
Proof.
  destruct c as [| | sp mi identity record | sp mi k record |]; simpl; try done; intros Hr;
    apply rbind_ok in Hr as (vs & _ & Hr); apply rbind_ok in Hr as (? & _ & Hr).
  - apply rbind_ok in Hr as (f & _ & Hr). apply rbind_ok in Hr as (max & _ & Hr).
    revert Hr. generalize (@nil string). revert rs. induction vs as [| v vs IH]; intros rs ids Hr; cbn [array_rows] in Hr.
    + by injection Hr as <-.
    + apply rbind_ok in Hr as (? & _ & Hr). apply rbind_ok in Hr as (? & _ & Hr).
      apply fail_if_ok in Hr as [_ Hr]. apply rbind_ok in Hr as (ids' & _ & Hr).
      apply rbind_ok in Hr as ([w n] & Hw & Hr). apply rbind_ok in Hr as (rest & Hrest & [= <-]).
      constructor; [by apply record_scans in Hw | by eapply IH].
  - revert rs Hr. induction vs as [| [id v] vs IH]; intros rs Hr; cbn [entry_rows] in Hr; [by injection Hr as <- |].
    apply fail_if_ok in Hr as [_ Hr]. apply rbind_ok in Hr as ([w n] & Hw & Hr).
    apply rbind_ok in Hr as (rest & Hrest & [= <-]).
    constructor; [by apply record_scans in Hw | by apply IH].
Qed.

Lemma row_scans_nonneg rs : Forall (fun r : idrow => 0 <= snd (snd r)) rs -> 0 <= row_scans rs.
Proof. unfold row_scans. induction 1; simpl; lia. Qed.

Lemma collection_scans `{RecordLaws R} (c : Collection R) src v n :
  collection_value c src = Ok (v, n) -> 0 <= n.
Proof.
  assert (forall c, (let? rs := collection_rows c src in Ok (VArr (row_values rs), zlen rs + row_scans rs)) = Ok (v, n)
    -> 0 <= n) as Hid.
  { intros c' Hc. apply rbind_ok in Hc as (rs & Hrs & [= _ <-]).
    pose proof (row_scans_nonneg rs (collection_rows_scans c' src rs Hrs)). lia. }
  destruct c; cbn [collection_value]; [| | apply Hid | apply Hid |]; intros Hc;
    apply rbind_ok in Hc as (? & _ & Hc); apply rbind_ok in Hc as (? & _ & Hc);
    apply rbind_ok in Hc as (y & Hy & [= _ <-]); [lia | | lia].
  destruct y as [ys m]. apply counted_list_scans in Hy; [simpl; lia |].
  intros u w k Hu. by apply record_scans in Hu.
Qed.

#[export] Instance SchemaRecord_laws `{RecordLaws R} : RecordLaws (SchemaRecord (Collection R)).
Proof.
  split; [intros r src k emits Ha; by apply sim_project_nested |].
  intros r src k v n Hv. cbn in Hv. unfold nested_value in Hv.
  apply rbind_ok in Hv as (? & _ & Hv). apply rbind_ok in Hv as ([es m] & Hc & [= _ <-]).
  eapply counted_list_scans; [| exact Hc]. intros f u j Hf. unfold collection_entry in Hf.
  apply rbind_ok in Hf as ([found |] & _ & Hf).
  - apply rbind_ok in Hf as ([w i] & Hw & [= _ <-]). by eapply collection_scans.
  - case_decide; [done |]. by injection Hf as _ <-.
Qed.

(** ** The whole projection *)

(** The nesting guards of a typed projection's top-level schema. *)
Lemma validate_projection_accepted p params :
  validate_projection p params = Ok tt ->
  match p with
  | ProjectRecord _ record => accepted record None
  | ProjectCollection _ c _ => accepted_collection c
  end.
Proof.
  unfold validate_projection. cbv zeta. intros Hv. apply fail_if_ok in Hv as [_ Hv].
  apply rbind_ok in Hv as (paths & _ & Hv). apply fail_if_ok in Hv as [_ Hv].
  destruct p; apply rbind_ok in Hv as (n & Hv & _); by exists 1, 0, n.
Qed.

(** The selected row's own scans are among all the scans. *)
Lemma find_row_scans s rs r :
  Forall (fun r : idrow => 0 <= snd (snd r)) rs -> find_row s rs = Some r ->
  1 + snd (snd r) <= zlen rs + row_scans rs.
Proof.
  unfold row_scans. induction 1 as [| [id [v n]] rs Hn Hrs IH]; [done |].
  cbn [find_row List.find fst snd foldr length] in *. rewrite Nat2Z.inj_succ.
  pose proof (row_scans_nonneg rs Hrs) as Hp. unfold row_scans in Hp.
  destruct (String.eqb s id); [intros [= <-]; simpl; lia | intros Hf; specialize (IH Hf); lia].
Qed.

(** Running a simulated computation from the empty budget. *)
Lemma sim_default {A} (m : BM A) a c :
  sim m (Ok (a, c)) -> k_emits c <= k_scans c ->
  m Budget_default =
    if (k_bytes c <=? MAX_NORMALIZED_BYTES) && (k_scans c <=? MAX_COLLECTION_ITEMS)
    then Ok (a, charge c Budget_default) else Err OutputLimit.
Proof.
  intros Hm Hes. destruct (Hm _ well_budgeted_default) as [Hc ->]. unfold within. simpl.
  rewrite !Z.add_0_l.
  destruct (Z.leb_spec (k_scans c) MAX_COLLECTION_ITEMS), (Z.leb_spec (k_emits c) MAX_COLLECTION_ITEMS);
    rewrite ?andb_true_r, ?andb_false_r; first [done | lia].
Qed.

Lemma project_record_root record src :
  accepted (R := RootRecord) record None ->
  match record_value record src None with
  | Ok (v, n) =>
      project_record record src None true Budget_default =
        if (json_size v <=? MAX_NORMALIZED_BYTES) && (n <=? MAX_COLLECTION_ITEMS)
        then Ok (Some v, charge (cost_of true v n) Budget_default) else Err OutputLimit
  | Err e => project_record record src None true Budget_default = Err e
             \/ project_record record src None true Budget_default = Err OutputLimit
  end.
Proof.
  intros Ha. pose proof (record_sim record src None true Ha) as Hs.
  destruct (record_value record src None) as [[v n] | e]; cbn [rbind fst snd emitted_value] in Hs.
  - rewrite (sim_default _ _ _ Hs); [done | reflexivity].
  - exact (Hs _ well_budgeted_default).
Qed.

Lemma sim_project_items c src :
  accepted_collection (R := InnerRecord) c ->
  sim (let* _ := bwhen true (let* _ := bytes 2 in key "items" false) in
       let* r := project_at c src None true in
       let* items := blift (ok_or r InvalidOutput) in
       bret (Some (VObj (bt_insert "items" items []))))
    (let? r := collection_value c src in
     Ok (Some (VObj [("items", fst r)]), cost_of true (VObj [("items", fst r)]) (snd r))).
Proof.
  intros Ha. pose proof (sim_project_at c src true Ha) as Hat.
  assert (sim (bwhen true (let* _ := bytes 2 in key "items" false))
    (Ok (tt, cost_bytes (2 + (quote_size "items" + (1 + 0)))))) as Hh.
  { eapply sim_step; [by apply sim_bytes | apply sim_key |]. cost. }
  destruct (collection_value c src) as [[v n] | e]; cbn [rbind fst snd emitted_value] in Hat |- *.
  - eapply sim_step; [exact Hh | eapply sim_step; [exact Hat | apply sim_ret | reflexivity] |].
    unfold cost_of. rewrite json_size_single. cost.
  - eapply sim_step_err; [exact Hh | by apply sim_bind_err].
Qed.

Lemma value_wf_item l i v : value_wf (VArr l) -> l !! i = Some v -> value_wf v.
Proof.
  revert i. induction l as [| x l IH]; intros i Hwf Hi; [done |]. cbn in Hwf. destruct Hwf as [Hx Hl].
  destruct i as [| i]; [by injection Hi as -> | by apply (IH i)].
Qed.

Lemma value_wf_entry m k v : value_wf (VObj m) -> bt_get k m = Some v -> value_wf v.
Proof.
  intros [_ Hwf] Hk%bt_get_elem. revert Hwf Hk. induction m as [| p m IH]; [by intros _ ?%not_elem_of_nil |].
  cbn. intros [Hp Hm] [<- | Hk]%elem_of_cons; [done | by apply IH].
Qed.

Lemma lookup_wf src path v : lookup src path = Ok (Some v) -> value_wf src -> value_wf v.
Proof.
  unfold lookup. generalize (pointer_parts path) as parts. intros parts. revert src.
  induction parts as [| part parts IH]; intros src Hl Hwf; cbn [lookup_parts] in Hl; [by injection Hl as <- |].
  cbv zeta in Hl. apply rbind_ok in Hl as ([next |] & Hn & Hl); [| done]. apply (IH next Hl).
  destruct src as [| | | | items | m]; try done.
  - apply fail_if_ok in Hn as [_ [= Hn]]. unfold item_at in Hn.
    destruct (parse_unsigned U64_MAX (unescape part)); [| done]. simpl in Hn. by eapply value_wf_item.
  - injection Hn as Hn. by eapply value_wf_entry.
Qed.

(** The body of [project] after its guards. *)
Definition project_unguarded (definition : TypedProjection) (selector : option string) (src : value) :
    result CoreError value :=
  project (match definition with
           | ProjectRecord _ r => ProjectRecord [] r
           | ProjectCollection _ c s => ProjectCollection [] c s
           end) selector src.

Definition limited (v : value) (n : Z) : bool :=
  (json_size v <=? MAX_NORMALIZED_BYTES) && (n <=? MAX_COLLECTION_ITEMS).

Lemma project_guarded p sel src :
  project p sel src =
    let? _ := reject_guards src (reject_if_present p) in project_unguarded p sel src.
Proof. by destruct p. Qed.

Lemma project_items_eq c src :
  accepted_collection (R := InnerRecord) c ->
  forall r, r = project_unguarded (ProjectCollection [] c All) None src ->
  match (let? found := lookup src (c_source c) in let? v := ok_or found InvalidOutput in
         let? r := collection_value c v in Ok (VObj [("items", fst r)], snd r)) with
  | Ok (v, n) => r = if limited v n then Ok v else Err OutputLimit
  | Err e => r = Err e \/ r = Err OutputLimit
  end.
Proof.
  intros Ha r ->. unfold project_unguarded, project. cbn [reject_if_present reject_guards rbind].
  cbn [is_some selection_is_one Bool.eqb negb].
  destruct (lookup src (c_source c)) as [[v |] | e]; cbn [rbind ok_or]; [| by left | by left].
  pose proof (sim_project_items c v Ha) as Hs.
  destruct (collection_value c v) as [[w n] | e]; cbn [rbind fst snd] in Hs |- *.
  - rewrite (sim_default _ _ _ Hs) by reflexivity. unfold limited, cost_of. cbn [k_bytes k_scans].
    by destruct (_ && _)%bool.
  - destruct (Hs _ well_budgeted_default) as [-> | ->]; [by left | by right].
Qed.

Lemma project_selected_eq c parameter s src :
  accepted_collection (R := InnerRecord) c -> value_wf src ->
  forall r, r = project_unguarded (ProjectCollection [] c (ExactOne parameter)) (Some s) src ->
  match (let? found := lookup src (c_source c) in let? v := ok_or found InvalidOutput in
         collection_selected c v s) with
  | Ok (v, n) => r = if limited v n then Ok v else Err OutputLimit
  | Err e => r = Err e \/ r = Err OutputLimit
  end.
Proof.
  intros Ha Hwf r ->. unfold project_unguarded, project. cbn [reject_if_present reject_guards rbind].
  cbn [is_some selection_is_one Bool.eqb negb].
  destruct (lookup src (c_source c)) as [[v |] | e] eqn:El; cbn [rbind ok_or]; [| by left | by left].
  apply lookup_wf in El; [| done].
  pose proof (sim_project_selected c v s Ha El) as Hs. unfold collection_selected.
  destruct (collection_rows c v) as [rs | e] eqn:Er; cbn [rbind] in Hs |- *.
  - fold (find_row s rs). destruct (find_row s rs) as [row |] eqn:Ef; cbn [ok_or rbind] in Hs |- *.
    + pose proof (find_row_scans s rs row (collection_rows_scans c v rs Er) Ef) as Hn.
      cbn [bwhen]. unfold bbind at 1, bret at 1. unfold bbind.
      rewrite (sim_default _ _ _ Hs) by exact Hn.
      unfold limited, cost_selected. cbn [k_bytes k_scans]. by destruct (_ && _)%bool.
    + cbn [bwhen]. unfold bbind, bret. destruct (Hs _ well_budgeted_default) as [-> | ->]; [by left | by right].
  - cbn [bwhen]. unfold bbind, bret. destruct (Hs _ well_budgeted_default) as [-> | ->]; [by left | by right].
Qed.

Lemma project_reference_cases p params sel src :
  validate_projection p params = Ok tt -> value_wf src ->
  match reference p sel src with
  | Ok (v, n) => project p sel src = if limited v n then Ok v else Err OutputLimit
  | Err e => project p sel src = Err e \/ project p sel src = Err OutputLimit
  end.
Proof.
  intros Ha%validate_projection_accepted Hwf. rewrite project_guarded. unfold reference.
  destruct (reject_guards src (reject_if_present p)) as [[] | e]; cbn [rbind]; [| by left].
  destruct p as [guards record | guards c selection].
  - unfold project_unguarded, project. cbn [reject_if_present reject_guards rbind].
    pose proof (project_record_root record src Ha) as Hr.
    destruct (record_value record src None) as [[v n] | e].
    + rewrite Hr. unfold limited. by destruct (_ && _)%bool.
    + by destruct Hr as [-> | ->]; [left | right].
  - destruct selection as [| parameter], sel as [s |]; cbn [selection_is_one is_some Bool.eqb negb];
      try (by left).
    + by apply project_items_eq.
    + by apply project_selected_eq with (parameter := parameter).
Qed.
