(* ===== verification/Legacy.v ===== *)
(** * Legacy projection: redaction within the budget

    [crates/core/src/projection/legacy.rs] against the unbudgeted
    [Operation::project]. *)
From S2P Require Import Prelude Order Text Json Core Budget Packages Schema Evaluate Operation Invocation Preparation.
From S2P Require Import Charge Projection.
Open Scope Z_scope.

(** No object, at any depth, has a key the heuristic calls sensitive. *)
Fixpoint no_sensitive (v : value) : bool :=
  match v with
  | VObj m => forallb (fun p => negb (sensitive_key (fst p)) && no_sensitive (snd p)) m
  | VArr l => forallb no_sensitive l
  | _ => true
  end.

Definition redact_fields : obj -> obj :=
  fix go l := match l with
              | [] => []
              | (k, v) :: l => if sensitive_key k then go l else (k, redact v) :: go l
              end.

Lemma redact_obj m : redact (VObj m) = VObj (redact_fields m).
Proof. reflexivity. Qed.
Lemma redact_arr l : redact (VArr l) = VArr (redact <$> l).
Proof. reflexivity. Qed.

Lemma redact_clean v : no_sensitive (redact v) = true.
Proof.
  induction v as [| | | | l IH | m IH] using value_nested_ind; try done.
  - rewrite redact_arr. cbn [no_sensitive]. apply forallb_Forall, Forall_fmap. exact IH.
  - rewrite redact_obj. cbn [no_sensitive]. induction IH as [| [k v] m Hv Hm IHm]; [done |].
    cbn [redact_fields]. destruct (sensitive_key k) eqn:Ek; [done |].
    cbn [forallb fst snd]. rewrite Ek. cbn [snd] in Hv. by rewrite Hv.
Qed.

(** ** The budgeted pass *)
Definition redact_entries (depth : Z) : obj -> obj -> BM obj :=
  fix go out l :=
    match l with
    | [] => bret out
    | (k, v) :: l =>
        let* _ := node (depth + 1) in
        if MAX_NORMALIZED_BYTES <? slen k then berr OutputLimit
        else if sensitive_key k then go out l
        else
          let* _ := key k (nonempty out) in
          let* v := redact_budgeted v (depth + 1) in
          go (bt_insert k v out) l
    end.
Definition redact_items (depth : Z) : list value -> list value -> BM (list value) :=
  fix go out l :=
    match l with
    | [] => bret out
    | v :: l =>
        let* _ := bytes (usize_from (nonempty out)) in
        let* v := redact_budgeted v (depth + 1) in
        go (out ++ [v]) l
    end.

Lemma redact_budgeted_eq v depth :
  redact_budgeted v depth =
    let* _ := node depth in
    match v with
    | VObj fields => let* _ := bytes 2 in let* out := redact_entries depth [] fields in bret (VObj out)
    | VArr values => let* _ := bytes 2 in let* out := redact_items depth [] values in bret (VArr out)
    | _ => let* _ := scalar v in bret v
    end.
Proof. by destruct v. Qed.

Lemma bbind_ok {A B} (m : BM A) (f : A -> BM B) b x b' :
  bbind m f b = Ok (x, b') <-> exists a b1, m b = Ok (a, b1) /\ f a b1 = Ok (x, b').
Proof.
  unfold bbind. destruct (m b) as [[a b1] | e]; split.
  - intros H. by exists a, b1.
  - by intros (? & ? & [= <- <-] & ?).
  - done.
  - by intros (? & ? & ? & _).
Qed.

Lemma node_ok d b u b' : node d b = Ok (u, b') -> d <= MAX_VALUE_DEPTH /\ used_bytes b' = used_bytes b.
Proof.
  unfold node. cbv zeta. destruct (_ || _)%bool eqn:E; [done |]. intros [= _ <-]. bool_prop. simpl. lia.
Qed.

Lemma bytes_used n b u b' :
  bytes n b = Ok (u, b') -> used_bytes b' = used_bytes b + n /\ used_bytes b' <= MAX_NORMALIZED_BYTES.
Proof. intros [? ->]%bytes_Ok. simpl. lia. Qed.

Lemma key_used k p b u b' :
  0 <= used_bytes b -> key k p b = Ok (u, b') ->
  used_bytes b' = used_bytes b + (quote_size k + (1 + usize_from p)) /\ used_bytes b' <= MAX_NORMALIZED_BYTES.
Proof. intros Hb. rewrite key_eq by done. apply bytes_used. Qed.

(** What a successful pass returns and spends, from depth [depth]. *)
Definition redacted (depth : Z) (v v' : value) (b b' : Budget) : Prop :=
  v' = redact v /\ used_bytes b' = used_bytes b + json_size v'
  /\ used_bytes b' <= MAX_NORMALIZED_BYTES /\ depth + json_depth v' <= MAX_VALUE_DEPTH
  /\ json_nodes v' <= json_size v'.

Definition pass_ok (v : value) : Prop :=
  forall depth b v' b', value_wf v -> 0 <= used_bytes b -> 0 <= depth ->
    redact_budgeted v depth b = Ok (v', b') -> redacted depth v v' b b'.

Lemma scalar_pass v : is_array v = false -> is_object v = false -> pass_ok v.
Proof.
  intros Ha Ho depth b v' b' Hwf Hb Hd. rewrite redact_budgeted_eq.
  intros Hr. assert ((let* _ := node depth in let* _ := scalar v in bret v) b = Ok (v', b')) as Hr'
    by (destruct v; done). clear Hr.
  apply bbind_ok in Hr' as (u & b1 & [Hdp Hu]%node_ok & Hr). apply bbind_ok in Hr as (u2 & b2 & Hs & [= <- <-]).
  assert (used_bytes b2 = used_bytes b1 + json_size v /\ used_bytes b2 <= MAX_NORMALIZED_BYTES
    /\ json_depth v = 0 /\ json_nodes v <= json_size v) as (H1 & H2 & H3 & H4).
  { destruct v as [| [] | n | s | |]; try done; simpl in Hs.
    1-3: apply bytes_used in Hs; change (json_size VNull) with 4; change (json_size (VBool true)) with 4;
      change (json_size (VBool false)) with 5; simpl; lia.
    - apply bytes_used in Hs as [? ?]. change (json_size (VNum n)) with (slen (number_text n)).
      split; [done | split; [done | split; [done |]]].
      apply number_is_compact. destruct n as [n | n | t]; simpl in *; [apply dec_not_nil | | by destruct Hwf].
      unfold dec_signed. rewrite (proj2 (Z.ltb_lt n 0)) by lia. done.
    - rewrite text_eq in Hs by lia. apply bytes_used in Hs as [? ?].
      split; [done | split; [done | split; [done |]]]. apply (text_is_compact s). }
  unfold redacted. split; [by destruct v | lia].
Qed.

Lemma items_pass depth l :
  Forall pass_ok l -> Forall value_wf l -> 0 <= depth <= MAX_VALUE_DEPTH ->
  forall out b out' b', 0 <= used_bytes b ->
    Forall (fun v => 1 + depth + json_depth v <= MAX_VALUE_DEPTH /\ json_nodes v <= json_size v) out ->
    redact_items depth out l b = Ok (out', b') ->
    out' = out ++ (redact <$> l) /\ used_bytes b' = used_bytes b + (json_size (VArr out') - json_size (VArr out))
    /\ Forall (fun v => 1 + depth + json_depth v <= MAX_VALUE_DEPTH /\ json_nodes v <= json_size v) out'
    /\ (used_bytes b <= MAX_NORMALIZED_BYTES -> used_bytes b' <= MAX_NORMALIZED_BYTES).
Proof.
  intros Hp Hwf Hd. induction Hp as [| v l Hv Hp IH]; intros out b out' b' Hb Hout Hr.
  - injection Hr as <- <-. rewrite app_nil_r. split; [done | split; [lia | done]].
  - apply Forall_cons in Hwf as [Hwv Hwf]. cbn [redact_items] in Hr.
    apply bbind_ok in Hr as (u & b1 & [Hu _]%bytes_used & Hr). apply bbind_ok in Hr as (v' & b2 & Hv' & Hr).
    apply Hv in Hv' as (-> & Hu2 & Hm2 & Hdv & Hnv); [| done | destruct (nonempty out); simpl in Hu; lia | lia].
    pose proof (json_size_pos (redact v)).
    apply IH in Hr as (-> & Hu' & Hout' & Hm'); [| done | destruct (nonempty out); simpl in Hu; lia |].
    + assert ((out ++ [redact v]) ++ (redact <$> l) = out ++ (redact <$> v :: l)) as E by by rewrite <- app_assoc.
      rewrite E in *. split; [done | split; [| split; [done | auto]]].
      pose proof (json_size_arr_snoc out (redact v)) as Hs.
      destruct out; simpl nonempty in Hu; cbn [usize_from] in Hu; case_decide; try done; lia.
    + apply Forall_app. split; [done |]. constructor; [| constructor]. split; [lia | done].
Qed.

Lemma entries_pass depth l :
  Forall (fun p => pass_ok (snd p)) l -> bt_wf l -> Forall (fun p => value_wf (snd p)) l -> 0 <= depth <= MAX_VALUE_DEPTH ->
  forall out b out' b', 0 <= used_bytes b ->
    Forall (fun p => Forall (fun q => lt (fst p) (fst q)) l) out ->
    Forall (fun p => 1 + depth + json_depth (snd p) <= MAX_VALUE_DEPTH /\ json_nodes (snd p) <= json_size (snd p)) out ->
    redact_entries depth out l b = Ok (out', b') ->
    out' = out ++ redact_fields l /\ used_bytes b' = used_bytes b + (json_size (VObj out') - json_size (VObj out))
    /\ Forall (fun p => 1 + depth + json_depth (snd p) <= MAX_VALUE_DEPTH /\ json_nodes (snd p) <= json_size (snd p)) out'
    /\ (used_bytes b <= MAX_NORMALIZED_BYTES -> used_bytes b' <= MAX_NORMALIZED_BYTES).
Proof.
  intros Hp Hwf. revert Hp. unfold bt_wf, strict in Hwf.
  induction Hwf as [| [k v] l Hwl IH Hall]; intros Hp Hwv Hd out b out' b' Hb Hlt Hout Hr.
  { injection Hr as <- <-. rewrite app_nil_r. split; [done | split; [lia | done]]. }
  apply Forall_cons in Hp as [Hv Hp]. apply Forall_cons in Hwv as [Hwv Hwl']. cbn [snd] in Hv, Hwv.
  cbn [redact_entries redact_fields] in Hr |- *.
  apply bbind_ok in Hr as (u & b1 & [Hdp Hu]%node_ok & Hr).
  destruct (MAX_NORMALIZED_BYTES <? slen k); [done |].
  assert (Forall (fun p => Forall (fun q => lt (fst p) (fst q)) l) out) as Hlt'.
  { eapply Forall_impl; [exact Hlt |]. intros p Hq. by apply Forall_cons in Hq as [_ ?]. }
  destruct (sensitive_key k); [rewrite <- Hu; apply IH in Hr; (done || lia) |].
  apply bbind_ok in Hr as (u2 & b2 & [Hu2 _]%key_used & Hr); [| lia].
  apply bbind_ok in Hr as (v' & b3 & Hv' & Hr).
  pose proof (quote_size_nonneg k) as Hq.
  assert (0 <= usize_from (nonempty out)) as Hne by by destruct (nonempty out).
  apply Hv in Hv' as (-> & Hu3 & Hm3 & Hdv & Hnv); [| done | lia | lia].
  pose proof (json_size_pos (redact v)).
  assert (bt_insert k (redact v) out = out ++ [(k, redact v)]) as Hins.
  { apply bt_insert_last. eapply Forall_impl; [exact Hlt |]. intros p Hq'. by apply Forall_cons in Hq' as [? _]. }
  assert (bt_get k out = None) as Hnone.
  { apply bt_get_None. intros (p & -> & Hpin)%list_elem_of_fmap. rewrite Forall_forall in Hlt.
    specialize (Hlt p Hpin). apply Forall_cons in Hlt as [Hl _]. by apply lt_irrefl in Hl. }
  pose proof (json_size_grow k (redact v) out Hnone) as Hg. rewrite Hins in Hg, Hr.
  apply IH in Hr as (-> & Hu' & Hout' & Hm'); [| done | done | done | lia | |].
  - assert ((out ++ [(k, redact v)]) ++ redact_fields l = out ++ (k, redact v) :: redact_fields l) as E
      by by rewrite <- app_assoc.
    rewrite E in *. split; [done | split; [lia | split; [done | auto]]].
  - apply Forall_app. split; [done |]. constructor; [| constructor].
    eapply Forall_impl; [exact Hall |]. by intros [k2 v2].
  - apply Forall_app. split; [done |]. constructor; [| constructor]. cbn [snd]. split; [lia | done].
Qed.

Lemma array_bounds depth l :
  0 <= depth <= MAX_VALUE_DEPTH ->
  Forall (fun v => 1 + depth + json_depth v <= MAX_VALUE_DEPTH /\ json_nodes v <= json_size v) l ->
  depth + json_depth (VArr l) <= MAX_VALUE_DEPTH /\ json_nodes (VArr l) <= json_size (VArr l).
Proof.
  intros Hd Hl. destruct (decide (l = [])) as [-> | Hne]; [cbn; unfold MAX_VALUE_DEPTH in *; split; [lia | done] |].
  assert (depth < MAX_VALUE_DEPTH).
  { destruct Hl as [| v l [Hv _] _]; [done |]. pose proof (json_depth_nonneg v). lia. }
  destruct (array_compact (MAX_VALUE_DEPTH - depth - 1) l) as [? ?]; [lia | | lia].
  eapply Forall_impl; [exact Hl |]. intros v [? ?]. split; [done | lia].
Qed.

Lemma object_bounds depth m :
  0 <= depth <= MAX_VALUE_DEPTH ->
  Forall (fun p : string * value => 1 + depth + json_depth (snd p) <= MAX_VALUE_DEPTH /\ json_nodes (snd p) <= json_size (snd p)) m ->
  depth + json_depth (VObj m) <= MAX_VALUE_DEPTH /\ json_nodes (VObj m) <= json_size (VObj m).
Proof.
  intros Hd Hl. destruct (decide (m = [])) as [-> | Hne]; [cbn; unfold MAX_VALUE_DEPTH in *; split; [lia | done] |].
  assert (depth < MAX_VALUE_DEPTH).
  { destruct Hl as [| v l [Hv _] _]; [done |]. pose proof (json_depth_nonneg (snd v)). lia. }
  destruct (object_compact (MAX_VALUE_DEPTH - depth - 1) m) as [? ?]; [lia | | lia].
  eapply Forall_impl; [exact Hl |]. intros v [? ?]. split; [done | lia].
Qed.

Lemma value_wf_all l : value_wf (VArr l) -> Forall value_wf l.
Proof. intros Hwf. apply Forall_forall. intros v [i Hi]%list_elem_of_lookup. by eapply value_wf_item. Qed.

Lemma value_wf_obj m : value_wf (VObj m) -> bt_wf m /\ Forall (fun p => value_wf (snd p)) m.
Proof.
  intros [Hwf Hall]. split; [done |]. clear Hwf. induction m as [| p m IH]; [constructor |].
  destruct Hall as [Hp Hm]. constructor; [done | by apply IH].
Qed.

Lemma redact_pass v : pass_ok v.
Proof.
  induction v as [| b | n | s | l IH | m IH] using value_nested_ind; try (by apply scalar_pass).
  - intros depth b v' b' Hwf Hb Hd. rewrite redact_budgeted_eq. intros Hr.
    apply bbind_ok in Hr as (u & b1 & [Hdp Hu]%node_ok & Hr).
    apply bbind_ok in Hr as (u2 & b2 & [Hu2 Hm2]%bytes_used & Hr).
    apply bbind_ok in Hr as (out & b3 & Hr & [= <- <-]).
    apply (items_pass depth l) in Hr as (Ho & Hu3 & Hall & Hm3);
      [| done | by apply value_wf_all | lia | lia | constructor].
    cbn [app] in Ho. change (json_size (VArr [])) with 2 in Hu3.
    destruct (array_bounds depth out) as [? ?]; [lia | done |].
    unfold redacted. rewrite redact_arr, <- Ho. split; [done | lia].
  - intros depth b v' b' Hwf Hb Hd. rewrite redact_budgeted_eq. intros Hr.
    apply bbind_ok in Hr as (u & b1 & [Hdp Hu]%node_ok & Hr).
    apply bbind_ok in Hr as (u2 & b2 & [Hu2 Hm2]%bytes_used & Hr).
    apply bbind_ok in Hr as (out & b3 & Hr & [= <- <-]). apply value_wf_obj in Hwf as [Hbw Hwf].
    apply (entries_pass depth m) in Hr as (Ho & Hu3 & Hall & Hm3);
      [| done | done | done | lia | lia | constructor | constructor].
    cbn [app] in Ho. change (json_size (VObj [])) with 2 in Hu3.
    destruct (object_bounds depth out) as [? ?]; [lia | done |].
    unfold redacted. rewrite redact_obj, <- Ho. split; [done | lia].
Qed.

(** ** The selected fields *)
Section legacy.
  Context (json_pointer : value -> string -> option value).
  Hypothesis json_pointer_wf : forall v p w, value_wf v -> json_pointer v p = Some w -> value_wf w.

(** An entry of the projected object. *)
Definition entry_clean (fields : list string) (p : string * value) : Prop :=
  fst p ∈ fields /\ sensitive_pointer (fst p) = false /\ no_sensitive (snd p) = true
  /\ 1 + json_depth (snd p) <= MAX_VALUE_DEPTH /\ json_nodes (snd p) <= json_size (snd p).

Lemma legacy_loop_ok o src fs l :
  value_wf src -> forallb valid_pointer l = true -> NoDup l -> (forall p, p ∈ l -> p ∈ fs) ->
  forall out b out' b', 0 <= used_bytes b <= MAX_NORMALIZED_BYTES -> absent l out -> Forall (entry_clean fs) out ->
    legacy_loop json_pointer o src out l b = Ok (out', b') ->
    out' = project_fields json_pointer o src out l
    /\ used_bytes b' = used_bytes b + (json_size (VObj out') - json_size (VObj out))
    /\ used_bytes b' <= MAX_NORMALIZED_BYTES /\ Forall (entry_clean fs) out'.
Proof.
  intros Hwf. induction l as [| p l IH]; intros Hv Hnd Hin out b out' b' Hb Hab Hout Hr.
  { injection Hr as <- <-. split; [done | split; [lia | split; [lia | done]]]. }
  cbn [forallb] in Hv. apply andb_true_iff in Hv as [Hvp Hv]. apply NoDup_cons in Hnd as [Hpl Hnd].
  apply Forall_cons in Hab as [Habp Hab].
  specialize (IH Hv Hnd (fun q Hq => Hin q (proj2 (elem_of_cons _ _ _) (or_intror Hq)))).
  cbn [legacy_loop project_fields] in Hr |- *. rewrite Hvp. cbn [negb orb].
  destruct (sensitive_pointer p) eqn:Es; [by apply (IH out b) |].
  destruct (json_pointer src p) as [v |] eqn:Ep; [| by apply (IH out b)].
  destruct (legacy_skips o v); [by apply (IH out b) |].
  apply bbind_ok in Hr as (u & b1 & [Hu1 Hm1]%key_used & Hr); [| lia].
  apply bbind_ok in Hr as (v' & b2 & Hv' & Hr). pose proof (quote_size_nonneg p).
  apply redact_pass in Hv' as (-> & Hu2 & Hm2 & Hd & Hn);
    [| by eapply json_pointer_wf | destruct (nonempty out); simpl in Hu1; lia | lia].
  pose proof (json_size_grow p (redact v) out Habp) as Hg. pose proof (json_size_pos (redact v)).
  apply (IH (bt_insert p (redact v) out)) in Hr as (-> & Hu' & Hm' & Hall).
  - split; [done | split; [lia | done]].
  - destruct (nonempty out); simpl in Hu1; lia.
  - by apply absent_insert.
  - apply Forall_forall. intros q [-> | Hq]%bt_insert_elem.
    + unfold entry_clean. cbn [fst snd]. split; [apply Hin; left |]. split; [done |].
      split; [apply redact_clean | done].
    + rewrite Forall_forall in Hout. by apply Hout.
Qed.
End legacy.

Lemma legacy_project_ok json_pointer o src v
    (json_pointer_wf : forall v p w, value_wf v -> json_pointer v p = Some w -> value_wf w) :
  disjoint_output_fields (output_fields o) = true -> value_wf src ->
  match output_mode o with Typed _ => False | _ => True end ->
  legacy_project json_pointer o src = Ok v ->
  v = operation_project json_pointer o src /\ check_normalized_result v = Ok tt
  /\ exists m, v = VObj m /\
       Forall (fun p => fst p ∈ output_fields o /\ sensitive_pointer (fst p) = false /\ no_sensitive (snd p) = true) m.
Proof.
  intros Hdis Hwf Hmode Hp. pose proof Hdis as Hspec. unfold disjoint_output_fields in Hspec.
  destruct (_ <? _); [done |]. destruct (decode_pointers (output_fields o)) as [paths |] eqn:Ed; [| done].
  apply decode_pointers_Some in Ed as [Hv ->]. apply negb_true_iff, adjacent_prefix_false in Hspec as [Hnd _].
  apply NoDup_fmap_1 in Hnd. unfold legacy_project in Hp. apply rbind_ok in Hp as ([out b'] & Hp & [= <-]).
  apply bbind_ok in Hp as (u & b1 & [Hu Hm]%bytes_used & Hp). cbn [fst]. simpl in Hu.
  apply (legacy_loop_ok json_pointer json_pointer_wf o src (output_fields o)) in Hp as (Ho & Hu' & Hm' & Hall);
    [| done | done | done | done | lia | apply Forall_forall; done | constructor].
  change (json_size (VObj [])) with 2 in Hu'. split; [| split].
  - unfold operation_project. rewrite Hdis. cbn [negb]. rewrite <- Ho. by destruct (output_mode o).
  - rewrite check_normalized_eq.
    destruct (object_bounds 0 out) as [H1 H2]; [unfold MAX_VALUE_DEPTH; lia | |].
    + eapply Forall_impl; [exact Hall |]. intros p (_ & _ & _ & ? & ?). split; [lia | done].
    + rewrite (compact_normalized MAX_VALUE_DEPTH); [done | done | split; [done | lia] | lia].
  - exists out. split; [done |]. eapply Forall_impl; [exact Hall |]. intros p (? & ? & ? & _). done.
Qed.

(** The budgeted legacy projection and the unbudgeted one agree: when an
    operation with an accepted field list projects an output within its
    budget, the result is exactly [Operation::project]'s; it fits the
    normalized-result limits; and it holds only selected, non-sensitive
    pointers whose values contain no key the redaction heuristic flags, at any
    depth. *)
Theorem legacy_projection_safe json_pointer o src v
    (json_pointer_wf : forall v p w, value_wf v -> json_pointer v p = Some w -> value_wf w) :
  disjoint_output_fields (output_fields o) = true -> value_wf src ->
  match output_mode o with Typed _ => False | _ => True end ->
  legacy_project json_pointer o src = Ok v ->
  v = operation_project json_pointer o src /\ check_normalized_result v = Ok tt
  /\ exists m, v = VObj m /\
       Forall (fun p => fst p ∈ output_fields o /\ sensitive_pointer (fst p) = false /\ no_sensitive (snd p) = true) m.
Proof. exact (legacy_project_ok json_pointer o src v json_pointer_wf). Qed.

(** ** A concrete operation *)
Definition pointer_of (v : value) (p : string) : option value :=
  match lookup v p with Ok o => o | Err _ => None end.
Lemma pointer_of_wf v p w : value_wf v -> pointer_of v p = Some w -> value_wf w.
Proof.
  unfold pointer_of. intros Hwf. destruct (lookup v p) as [o |] eqn:E; [| done]. intros ->.
  by eapply lookup_wf.
Qed.

Definition demo_board : value :=
  VObj [("model", VStr "AX"); ("release", VObj [("token", VStr "t"); ("version", VStr "24.10")])].
Definition demo_projected : value :=
  VObj [("/model", VStr "AX"); ("/release", VObj [("version", VStr "24.10")])].

Lemma demo_board_wf : value_wf demo_board.
Proof. cbn. unfold bt_wf, strict. repeat (split || constructor). Defined.

Lemma legacy_projection_safe_witness : demo_projected = operation_project pointer_of demo_op demo_board.
Proof.
  exact (proj1 (legacy_projection_safe pointer_of demo_op demo_board demo_projected pointer_of_wf
    ltac:(vm_compute; reflexivity) demo_board_wf I ltac:(vm_compute; reflexivity))).
Defined.
