(* ===== verification/Conform.v ===== *)
(** * What a projected value may contain

    A projection never returns a subtree of the device's output: every key of
    its result is a name of the schema and every scalar obeys its kind. *)
From S2P Require Import Prelude Order Text Json Core Budget Schema Evaluate Charge Projection.
Open Scope Z_scope.

Definition kind_conforms (k : ScalarKind) (v : value) : Prop :=
  match k with
  | Boolean => exists b, v = VBool b
  | Text max => exists t, v = VStr t /\ slen t <= max /\ contains_nul t = false
  | TextEnum max values => exists t, v = VStr t /\ t ∈ values /\ valid_identity t max = true
  | SafeInteger lo hi => exists n, v = value_of_i64 n /\ lo <= n <= hi
  | FalseOrSafeInteger lo hi => v = VBool false \/ exists n, v = value_of_i64 n /\ lo <= n <= hi
  | DecimalCounter _ => exists n, v = VStr (dec n) /\ 0 <= n <= U64_MAX
  end.

(** Every entry of the object is accounted for by the schema. *)
Definition entry_allowed {C} (fields : list ScalarField) (collections : list (CollectionField C))
    (col : C -> value -> Prop) (k : option (TextIdentity * string)) (e : string * value) : Prop :=
  (exists identity v, k = Some (identity, v) /\ e = (id_name identity, VStr v))
  \/ (exists f, f ∈ fields /\ fst e = name f /\ kind_conforms (kind f) (snd e))
  \/ (exists f, f ∈ collections /\ fst e = c_name f /\ col (collection f) (snd e)).

Definition object_conforms {C} (fields : list ScalarField) (collections : list (CollectionField C))
    (col : C -> value -> Prop) (k : option (TextIdentity * string)) (v : value) : Prop :=
  exists m, v = VObj m /\ bt_wf m /\ Forall (entry_allowed fields collections col k) m
    /\ Forall (fun f => presence f = Required -> name f ∈ m.*1) fields
    /\ Forall (fun f => c_presence f = Required -> c_name f ∈ m.*1) collections.

(** The object says which one it is: its entry [name] is the identity. *)
Definition carries (name id : string) (v : value) : Prop := exists m, v = VObj m /\ bt_get name m = Some (VStr id).

Class RecordConform (R : Type) : Type := {
  record_conforms : R -> option (TextIdentity * string) -> value -> Prop;
  record_depth : Z
}.

Class RecordConformLaws (R : Type) `{RecordShape R, RecordSpec R, RecordConform R} : Prop := {
  record_value_conforms : forall (r : R) src k v n,
    accepted r (key_id k) -> value_wf src -> record_value r src k = Ok (v, n) ->
    record_conforms r k v /\ compact record_depth v;
  record_fields_unique : forall (r : R) k, accepted r k -> NoDup (name <$> shape_fields r);
  record_entries_kept : forall (r : R) src k v n,
    accepted r (key_id k) -> record_value r src k = Ok (v, n) ->
    exists m, v = VObj m
      /\ (forall i t, k = Some (i, t) -> bt_get (id_name i) m = Some (VStr t))
      /\ (forall f, f ∈ shape_fields r ->
            exists kvs, read_field src f = Ok kvs /\ forall e, e ∈ kvs -> bt_get (fst e) m = Some (snd e));
  record_depth_pos : 1 <= record_depth
}.

#[export] Instance LeafRecord_conform : RecordConform LeafRecord := {|
  record_conforms r := object_conforms (leaf_fields r) [] (fun (_ : unit) _ => False);
  record_depth := 1
|}.

Definition collection_conforms `{RecordConform R} (c : Collection R) (v : value) : Prop :=
  match c with
  | TextOption _ max_items max_bytes =>
      exists k ts, v = VObj [("kind", VStr k); ("values", VArr ts)]
        /\ (k = "string" /\ length ts = 1%nat \/ k = "list")
        /\ zlen ts <= max_items /\ Forall (kind_conforms (Text max_bytes)) ts
  | RowArray _ max_items r =>
      exists vs, v = VArr vs /\ zlen vs <= max_items /\ Forall (record_conforms r None) vs
  | ObjectArray _ max_items identity r =>
      exists ids vs, v = VArr vs /\ zlen vs <= max_items /\ NoDup ids
        /\ Forall2 (fun id v => record_conforms r None v /\ carries identity id v) ids vs
  | ObjectEntries _ max_items k r =>
      exists ids vs, v = VArr vs /\ zlen vs <= max_items /\ NoDup ids
        /\ Forall2 (fun id v => record_conforms r (Some (k, id)) v /\ carries (id_name k) id v) ids vs
  | ScalarArray _ max_items nm k unique =>
      exists vs, v = VArr ((fun x => VObj [(nm, x)]) <$> vs) /\ zlen vs <= max_items
        /\ Forall (kind_conforms k) vs
  end.

#[export] Instance SchemaRecord_conform `{RecordConform R} : RecordConform (SchemaRecord (Collection R)) := {|
  record_conforms r := object_conforms (fields r) (collections r) collection_conforms;
  record_depth := record_depth (R := R) + 2
|}.

Definition projection_conforms (p : TypedProjection) (sel : option string) (v : value) : Prop :=
  match p, sel with
  | ProjectRecord _ r, _ => record_conforms r None v
  | ProjectCollection _ c _, None => exists w, v = VObj [("items", w)] /\ collection_conforms c w
  | ProjectCollection _ c _, Some s =>
      match c with
      | ObjectArray _ _ identity r => record_conforms r None v /\ carries identity s v
      | ObjectEntries _ _ k r => record_conforms r (Some (k, s)) v /\ carries (id_name k) s v
      | _ => False
      end
  end.

(** ** Scalars *)
Lemma as_i64_range v n : as_i64 v = Some n -> value_wf v -> I64_MIN <= n <= I64_MAX.
Proof.
  destruct v as [| | [m | m | t] | | |]; simpl; try done; unfold I64_MIN, I64_MAX, U64_MAX.
  - destruct (Z.leb_spec m 9223372036854775807); [intros [= <-]; lia | done].
  - intros [= <-]; lia.
Qed.

Lemma read_conforms k v s : value_wf v -> read k v = Ok s -> kind_conforms k (scalar_value s).
Proof.
  intros Hwf. assert (forall lo hi, read_integer lo hi v = Ok s ->
    exists n, scalar_value s = value_of_i64 n /\ lo <= n <= hi) as Hint.
  { unfold read_integer. intros lo hi Hr. apply rbind_ok in Hr as (n & _ & Hr).
    apply fail_if_ok in Hr as [Hb [= <-]]. bool_prop. exists n. split; [done | lia]. }
  destruct k as [| mb | mb vs | lo hi | lo hi | cs]; simpl; intros Hr.
  - apply rbind_ok in Hr as (b & _ & [= <-]). by exists b.
  - apply rbind_ok in Hr as (t & _ & Hr). apply fail_if_ok in Hr as [Hb [= <-]]. bool_prop. by exists t.
  - apply rbind_ok in Hr as (t & _ & Hr). apply fail_if_ok in Hr as [Hb [= <-]]. bool_prop.
    exists t. split; [done | split; [| done]].
    match goal with H : existsb _ _ = true |- _ => apply existsb_exists in H as (x & Hx & He) end.
    apply String.eqb_eq in He as ->. by apply list_elem_of_In.
  - by apply Hint.
  - destruct (is_false v); [injection Hr as <-; by left | right; by apply Hint].
  - apply rbind_ok in Hr as (n & Hn & [= <-]). exists n. split; [done |]. destruct cs.
    + apply ok_or_ok in Hn. destruct v as [| | [m | m | t] | | |]; try done. simpl in *. by injection Hn as <-.
    + apply rbind_ok in Hn as (t & _ & Hn). apply fail_if_ok in Hn as [_ Hn]. apply ok_or_ok in Hn.
      unfold parse_unsigned in Hn. destruct (is_empty _); [done |].
      destruct (parse_digits 0 _) as [m |] eqn:Ed; simpl in Hn; [| done].
      apply parse_digits_ge in Ed; [| lia]. destruct (Z.leb_spec m U64_MAX); [| done].
      injection Hn as <-. lia.
Qed.

Lemma scalar_compact s : json_nodes (scalar_value s) <= json_size (scalar_value s) /\ json_depth (scalar_value s) = 0.
Proof.
  assert (forall t, 1 <= slen t \/ t = EmptyString) as Hne.
  { intros t. destruct t; [by right | left]. rewrite slen_cons. pose proof (slen_nonneg t). lia. }
  assert (forall t, 1 <= json_size (VStr t)) as Hq.
  { intros t. change (json_size (VStr t)) with (quote_size t). pose proof (quote_size_bounds t).
    pose proof (slen_nonneg t). lia. }
  destruct s as [[] | t | n | n]; simpl; split; try done; try apply Hq.
  unfold value_of_i64, json_size. simpl. destruct (n <? 0) eqn:En; simpl.
  - unfold dec_signed. rewrite En, slen_cons. pose proof (slen_nonneg (dec (- n))). lia.
  - destruct (Hne (dec n)) as [? | E]; [lia | by destruct (dec_not_nil n)].
Qed.

Lemma scalar_is_compact s : compact 0 (scalar_value s).
Proof. destruct (scalar_compact s). unfold compact. lia. Qed.

(** ** The entries of a record *)
Lemma insert_all_elem kvs out e : e ∈ insert_all out kvs -> e ∈ out \/ e ∈ kvs.
Proof.
  revert out. induction kvs as [| [k v] kvs IH]; intros out He; [by left |].
  cbn [insert_all foldl] in He. apply IH in He as [He | He]; [| right; by right].
  apply bt_insert_elem in He as [-> | He]; [right; left | by left].
Qed.

Lemma bt_insert_keys (k : string) (v : value) m x : x ∈ (bt_insert k v m).*1 <-> x = k \/ x ∈ m.*1.
Proof.
  destruct (decide (x = k)) as [-> | Hne].
  - split; [by left |]. intros _. apply bt_contains_true. unfold bt_contains. by rewrite bt_get_insert_eq.
  - rewrite <- !bt_contains_true. unfold bt_contains. rewrite bt_get_insert_ne by congruence. naive_solver.
Qed.

Lemma insert_all_keys kvs out x : x ∈ (insert_all out kvs).*1 <-> x ∈ out.*1 \/ x ∈ kvs.*1.
Proof.
  revert out. induction kvs as [| [k v] kvs IH]; intros out; cbn [insert_all foldl].
  - split; [by left | intros [? | ?%not_elem_of_nil]; done].
  - fold (insert_all (bt_insert k v out) kvs). rewrite IH, bt_insert_keys, fmap_cons, elem_of_cons. simpl. tauto.
Qed.

Lemma of_list_elem (kvs : obj) e : e ∈ bt_of_list kvs -> e ∈ kvs.
Proof. intros He. apply (insert_all_elem kvs [] e) in He as [?%not_elem_of_nil | ?]; done. Qed.

Lemma of_list_keys (kvs : obj) x : x ∈ (bt_of_list kvs).*1 <-> x ∈ kvs.*1.
Proof. pose proof (insert_all_keys kvs [] x) as Hk. rewrite Hk. simpl. split; [intros [?%not_elem_of_nil | ?]; done | by right]. Qed.

Lemma concat_results_elem {A B} (f : A -> result CoreError (list B)) l ys y :
  concat_results f l = Ok ys -> y ∈ ys -> exists x k, x ∈ l /\ f x = Ok k /\ y ∈ k.
Proof.
  revert ys. induction l as [| x l IH]; intros ys Hc Hy; cbn [concat_results] in Hc;
    [injection Hc as <-; by apply not_elem_of_nil in Hy |].
  apply rbind_ok in Hc as (a & Ha & Hc). apply rbind_ok in Hc as (tl & Htl & [= <-]).
  apply elem_of_app in Hy as [Hy | Hy].
  - exists x, a. split; [left | done].
  - destruct (IH tl Htl Hy) as (x' & k & Hx & Hk). exists x', k. split; [by right | done].
Qed.

Lemma concat_results_each {A B} (f : A -> result CoreError (list B)) l ys x :
  concat_results f l = Ok ys -> x ∈ l -> exists k, f x = Ok k /\ (forall y, y ∈ k -> y ∈ ys).
Proof.
  revert ys. induction l as [| z l IH]; intros ys Hc Hx; [by apply not_elem_of_nil in Hx |].
  cbn [concat_results] in Hc.
  apply rbind_ok in Hc as (a & Ha & Hc). apply rbind_ok in Hc as (tl & Htl & [= <-]).
  apply elem_of_cons in Hx as [-> | Hx].
  - exists a. split; [done |]. intros y Hy. apply elem_of_app. by left.
  - destruct (IH tl Htl Hx) as (k & Hk & Hin). exists k. split; [done |]. intros y Hy.
    apply elem_of_app. right. by apply Hin.
Qed.

(** A field read from the output conforms, and a required one is there. *)
Lemma read_field_entry src f kvs e :
  value_wf src -> read_field src f = Ok kvs -> e ∈ kvs ->
  fst e = name f /\ kind_conforms (kind f) (snd e) /\ compact 0 (snd e).
Proof.
  unfold read_field. intros Hwf Hr He. apply rbind_ok in Hr as (found & Hl & Hr). destruct found as [v |].
  - apply rbind_ok in Hr as (s & Hs & [= <-]). apply list_elem_of_singleton in He as ->. simpl.
    split; [done | split; [| apply scalar_is_compact]].
    eapply read_conforms; [| exact Hs]. by eapply lookup_wf.
  - case_decide; [done |]. injection Hr as <-. by apply not_elem_of_nil in He.
Qed.

Lemma read_field_required src f kvs :
  read_field src f = Ok kvs -> presence f = Required -> name f ∈ kvs.*1.
Proof.
  unfold read_field. intros Hr Hp. apply rbind_ok in Hr as (found & Hl & Hr). destruct found as [v |].
  - apply rbind_ok in Hr as (s & Hs & [= <-]). left.
  - by case_decide.
Qed.

Lemma fields_value_entry {C} fs (cs : list (CollectionField C)) col src k kvs e :
  value_wf src -> fields_value fs src k = Ok kvs -> e ∈ kvs ->
  entry_allowed fs cs col k e /\ compact 0 (snd e).
Proof.
  unfold fields_value. intros Hwf Hv He. apply fail_if_ok in Hv as [_ Hv].
  apply rbind_ok in Hv as (h & Hh & Hv). apply rbind_ok in Hv as (t & Ht & [= <-]).
  apply elem_of_app in He as [He | He].
  - destruct k as [[identity v] |]; simpl in Hh.
    + apply fail_if_ok in Hh as [_ [= <-]]. apply list_elem_of_singleton in He as ->. split; [| apply text_is_compact].
      left. by exists identity, v.
    + injection Hh as <-. by apply not_elem_of_nil in He.
  - destruct (concat_results_elem _ _ _ _ Ht He) as (f & ks & Hf & Hk & Hin).
    destruct (read_field_entry src f ks e Hwf Hk Hin) as (H1 & H2 & H3). split; [| done].
    right; left. by exists f.
Qed.

Lemma fields_value_required fs src k kvs :
  fields_value fs src k = Ok kvs -> Forall (fun f => presence f = Required -> name f ∈ kvs.*1) fs.
Proof.
  unfold fields_value. intros Hv. apply fail_if_ok in Hv as [_ Hv].
  apply rbind_ok in Hv as (h & Hh & Hv). apply rbind_ok in Hv as (t & Ht & [= <-]).
  apply Forall_forall. intros f Hf Hp. rewrite fmap_app, elem_of_app. right.
  destruct (concat_results_each _ _ _ _ Ht Hf) as (ks & Hk & Hin).
  pose proof (read_field_required src f ks Hk Hp) as Hn.
  apply list_elem_of_fmap in Hn as (e & -> & He). apply list_elem_of_fmap_2, Hin, He.
Qed.

(** *** The entries that are kept *)
Lemma insert_all_get kvs out e :
  (e ∈ kvs \/ bt_get (fst e) out = Some (snd e)) -> (forall e', e' ∈ kvs -> fst e' = fst e -> e' = e) ->
  bt_get (fst e) (insert_all out kvs) = Some (snd e).
Proof.
  revert out. induction kvs as [| [k v] kvs IH]; intros out He Hu; cbn [insert_all foldl];
    [destruct He as [?%not_elem_of_nil | ?]; done |].
  fold (insert_all (bt_insert k v out) kvs). apply IH; [| intros e' Hin; apply Hu; by right].
  destruct (decide (k = fst e)) as [Hk | Hk].
  - right. assert ((k, v) = e) as <- by (apply Hu; [left | done]). apply bt_get_insert_eq.
  - destruct He as [[-> | Hin]%elem_of_cons | Hget]; [done | by left | right].
    cbn. by rewrite bt_get_insert_ne by congruence.
Qed.

Lemma of_list_get (kvs : obj) e :
  e ∈ kvs -> (forall e', e' ∈ kvs -> fst e' = fst e -> e' = e) -> bt_get (fst e) (bt_of_list kvs) = Some (snd e).
Proof. intros He Hu. apply (insert_all_get kvs []); [by left | done]. Qed.

Lemma read_field_single src f kvs e : read_field src f = Ok kvs -> e ∈ kvs -> kvs = [e] /\ fst e = name f.
Proof.
  intros Hr He. destruct (read_field_names _ _ _ Hr) as [-> | (s & ->)]; [by apply not_elem_of_nil in He |].
  by apply list_elem_of_singleton in He as ->.
Qed.

(** Two entries of the key and the fields with one name are one entry. *)
Lemma fields_value_functional fs src k kvs e e' :
  NoDup (key_names (key_id k) ++ (name <$> fs)) -> fields_value fs src k = Ok kvs ->
  e ∈ kvs -> e' ∈ kvs -> fst e' = fst e -> e' = e.
Proof.
  unfold fields_value. intros Hnd Hv He He' Hfst. apply fail_if_ok in Hv as [_ Hv].
  apply rbind_ok in Hv as (h & Hh & Hv). apply rbind_ok in Hv as (t & Ht & [= <-]).
  apply NoDup_app in Hnd as (_ & Hdis & Hnd). pose proof (key_entry_names k h Hh) as Hkey.
  assert (Hfield : forall x, x ∈ t -> exists f, f ∈ fs /\ read_field src f = Ok [x] /\ fst x = name f).
  { intros x Hx. destruct (concat_results_elem _ _ _ _ Ht Hx) as (f & ks & Hf & Hk & Hin).
    destruct (read_field_single _ _ _ _ Hk Hin) as [-> Hname]. by exists f. }
  assert (Hcross : forall x y, x ∈ h -> y ∈ t -> fst x <> fst y).
  { intros x y Hx Hy Hxy. destruct (Hfield y Hy) as (f & Hf & _ & Hname). apply (Hdis (fst x)).
    - rewrite <- Hkey. by apply list_elem_of_fmap_2.
    - rewrite Hxy, Hname. by apply list_elem_of_fmap_2. }
  apply elem_of_app in He as [He | He], He' as [He' | He'].
  - destruct k as [[i v] |]; cbn in Hh.
    + apply fail_if_ok in Hh as [_ [= <-]]. apply list_elem_of_singleton in He, He'. congruence.
    + injection Hh as <-. by apply not_elem_of_nil in He.
  - by destruct (Hcross e e').
  - by destruct (Hcross e' e).
  - destruct (Hfield e He) as (f & Hf & Hr & Hname), (Hfield e' He') as (f' & Hf' & Hr' & Hname').
    assert (f' = f) as ->; [| congruence]. by apply (fmap_inj_in name fs); [| | | congruence].
Qed.

(** What a record keeps of the entries it reads. *)
Lemma fields_value_kept fs src k kvs (m : obj) :
  fields_value fs src k = Ok kvs -> (forall e, e ∈ kvs -> bt_get (fst e) m = Some (snd e)) ->
  (forall i t, k = Some (i, t) -> bt_get (id_name i) m = Some (VStr t))
  /\ (forall f, f ∈ fs -> exists ks, read_field src f = Ok ks /\ forall e, e ∈ ks -> bt_get (fst e) m = Some (snd e)).
Proof.
  unfold fields_value. intros Hv Hget. apply fail_if_ok in Hv as [_ Hv].
  apply rbind_ok in Hv as (h & Hh & Hv). apply rbind_ok in Hv as (t & Ht & [= <-]). split.
  - intros i s ->. cbn in Hh. apply fail_if_ok in Hh as [_ [= <-]]. apply (Hget (id_name i, VStr s)). left.
  - intros f Hf. destruct (concat_results_each _ _ _ _ Ht Hf) as (ks & Hk & Hin). exists ks. split; [done |].
    intros e He. apply Hget, elem_of_app. right. by apply Hin.
Qed.

#[export] Instance LeafRecord_conform_laws : RecordConformLaws LeafRecord.
Proof.
  split; [| | | done].
  2: { intros r k (depth & nodes & nodes' & Hv). cbn in Hv. unfold validate_leaf in Hv. apply rbind_ok in Hv as ([] & Hv & _).
       apply validate_fields_names in Hv. rewrite app_nil_r in Hv. by apply NoDup_app in Hv as (_ & _ & ?). }
  2: { intros r src k v n (depth & nodes & nodes' & Hval) Hv. cbn in Hv, Hval. unfold leaf_value in Hv. unfold validate_leaf in Hval.
       apply rbind_ok in Hval as ([] & Hval & _). apply validate_fields_names in Hval. cbn in Hval. rewrite app_nil_r in Hval.
       apply rbind_ok in Hv as (kvs & Hk & [= <- _]). exists (bt_of_list kvs). split; [done |].
       apply (fields_value_kept _ _ _ kvs); [done |]. intros e He. apply of_list_get; [done |].
       intros e' He'. by eapply fields_value_functional. }
  intros r src k v n _ Hwf Hv. cbn in Hv. unfold leaf_value in Hv.
  apply rbind_ok in Hv as (kvs & Hk & [= <- _]). split.
  - exists (bt_of_list kvs). split; [done | split; [apply bt_of_list_wf |]]. split; [| split; [| constructor]].
    + apply Forall_forall. intros e He%of_list_elem. by eapply (fields_value_entry _ []) in Hk as [? _].
    + eapply Forall_impl; [by eapply fields_value_required |]. intros f Hf Hp. by apply of_list_keys, Hf.
  - apply (object_compact 0); [done |]. apply Forall_forall. intros e He%of_list_elem.
    by eapply (fields_value_entry (C := unit) _ [] (fun _ _ => False)) in Hk as [_ ?].
Qed.

Section collections.
  Context {R : Type} `{RecordConformLaws R}.

Lemma check_count_ok n max u : check_count n max = Ok u -> n <= max.
Proof. unfold check_count. intros Hc. apply fail_if_ok in Hc as [Hb _]. by bool_prop. Qed.

Lemma collect_Forall {A B} (f : A -> result CoreError B) (P : B -> Prop) l ys :
  (forall x y, x ∈ l -> f x = Ok y -> P y) -> collect f l = Ok ys -> Forall P ys.
Proof.
  revert ys. induction l as [| x l IH]; intros ys Hf Hc; cbn [collect] in Hc; [by injection Hc as <- |].
  apply rbind_ok in Hc as (y & Hy & Hc). apply rbind_ok in Hc as (tl & Htl & [= <-]).
  constructor; [eapply Hf; [left | done] |]. apply IH; [| done]. intros z w Hz. apply Hf. by right.
Qed.

Lemma counted_list_Forall {A B} (f : A -> counted B) (P : B -> Prop) l ys n :
  (forall x y k, x ∈ l -> f x = Ok (y, k) -> P y) -> counted_list f l = Ok (ys, n) -> Forall P ys.
Proof.
  revert ys n. induction l as [| x l IH]; intros ys n Hf Hc; cbn [counted_list] in Hc; [by injection Hc as <- _ |].
  apply rbind_ok in Hc as ([y k] & Hy & Hc). apply rbind_ok in Hc as ([tl m] & Htl & [= <- _]).
  constructor; [eapply Hf; [left | done] |]. eapply IH; [| done]. intros z w j Hz. apply Hf. by right.
Qed.

Lemma value_wf_items src l : as_array src = Some l -> value_wf src -> Forall value_wf l.
Proof.
  destruct src; try done. intros [= ->] Hwf. apply Forall_forall. intros v [i Hi]%list_elem_of_lookup.
  by eapply value_wf_item.
Qed.

Lemma value_wf_fields src m : as_object src = Some m -> value_wf src -> Forall (fun e => value_wf (snd e)) m.
Proof.
  destruct src; try done. intros [= ->] [_ Hwf]. induction m as [| p m IH]; [constructor |].
  destruct Hwf as [Hp Hm]. constructor; [done | by apply IH].
Qed.

(** The identified rows: each conforms as a row of its identity. *)
Definition row_fits (c : Collection R) (r : idrow) : Prop :=
  compact (record_depth (R := R)) (fst (snd r)) /\
  match c with
  | ObjectArray _ _ identity record => record_conforms record None (fst (snd r)) /\ carries identity (fst r) (fst (snd r))
  | ObjectEntries _ _ k record =>
      record_conforms record (Some (k, fst r)) (fst (snd r)) /\ carries (id_name k) (fst r) (fst (snd r))
  | _ => False
  end.

(** The field that identifies a row is the text field that was validated. *)
Lemma identity_limit_field sp mi identity (record : R) max f :
  NoDup (name <$> shape_fields record) -> identity_limit (ObjectArray sp mi identity record) = Some max ->
  List.find (fun field => String.eqb (name field) identity) (shape_fields record) = Some f ->
  f ∈ shape_fields record /\ name f = identity /\ exists n, kind f = Text n.
Proof.
  cbn [identity_limit]. generalize (shape_fields record) as l. induction l as [| g l IH]; [done |].
  rewrite fmap_cons, NoDup_cons. intros [Hg Hnd] Hl Hf. cbn [find_map] in Hl. cbn [List.find] in Hf.
  destruct (String.eqb_spec (name g) identity) as [He | He].
  - injection Hf as <-. split; [left |]. split; [done |]. cbn [andb] in Hl. case_bool_decide as Hp; [destruct (kind g); try by eexists |].
    all: exfalso; clear IH Hp; apply Hg; rewrite He.
    all: induction l as [| x l IHl]; [done |]; rewrite fmap_cons, NoDup_cons in *; cbn [find_map] in Hl.
    all: destruct (String.eqb_spec (name x) identity) as [<- | Hx]; [left | right].
    all: apply IHl; [intros Hin; apply Hg; by right | apply Hnd | exact Hl].
  - destruct (IH Hnd Hl Hf) as (? & ? & ?). split; [by right | done].
Qed.

(** The row's identity is the text of the field that identifies it. *)
Lemma row_carries (record : R) v w n f max id :
  accepted record None -> record_value record v None = Ok (w, n) -> f ∈ shape_fields record -> kind f = Text max ->
  (exists x, lookup v (source f) = Ok (Some x) /\ as_str x = Some id) -> carries (name f) id w.
Proof.
  intros Ha Hv Hf Hk (x & Hx & Hid). destruct (record_entries_kept record v None w n Ha Hv) as (m & -> & _ & Hkept). exists m. split; [done |].
  destruct (Hkept f Hf) as (kvs & Hr & Hget). unfold read_field in Hr. rewrite Hx in Hr. cbn [rbind] in Hr. rewrite Hk in Hr.
  apply rbind_ok in Hr as (s & Hs & [= <-]). cbn [read] in Hs. rewrite Hid in Hs. cbn [ok_or rbind] in Hs.
  apply fail_if_ok in Hs as [_ [= <-]]. apply (Hget (name f, VStr id)). left.
Qed.

Lemma array_rows_fit sp mi identity record f n max vs : 
  accepted record None -> f ∈ shape_fields record -> name f = identity -> kind f = Text n -> Forall value_wf vs ->
  forall ids rs, array_rows record (source f) max ids vs = Ok rs -> Forall (row_fits (ObjectArray sp mi identity record)) rs.
Proof.
  intros Ha Hf Hname Hk Hall. induction Hall as [| v vs Hv Hall IH]; intros ids rs Hr; cbn [array_rows] in Hr; [by injection Hr as <- |].
  apply rbind_ok in Hr as (found & Hl & Hr). apply rbind_ok in Hr as (id & Hid & Hr). apply ok_or_ok in Hid.
  apply fail_if_ok in Hr as [_ Hr]. apply rbind_ok in Hr as (ids' & _ & Hr).
  apply rbind_ok in Hr as ([w j] & Hw & Hr). apply rbind_ok in Hr as (rest & Hrest & [= <-]).
  constructor; [| by eapply IH]. pose proof Hw as Hc. apply record_value_conforms in Hc as [Hc1 Hc2]; [| done | done].
  split; [done |]. split; [done |]. cbn [fst snd]. rewrite <- Hname. apply (row_carries record v w j f n); [done | done | done | done |].
  destruct found as [x |]; [| done]. by exists x.
Qed.

Lemma entry_rows_fit sp mi k record vs :
  accepted record (Some k) -> Forall (fun e => value_wf (snd e)) vs ->
  forall rs, entry_rows record k vs = Ok rs -> Forall (row_fits (ObjectEntries sp mi k record)) rs.
Proof.
  intros Ha Hall. induction Hall as [| [id v] vs Hv Hall IH]; intros rs Hr; cbn [entry_rows] in Hr; [by injection Hr as <- |].
  apply fail_if_ok in Hr as [_ Hr]. apply rbind_ok in Hr as ([w n] & Hw & Hr).
  apply rbind_ok in Hr as (rest & Hrest & [= <-]). constructor; [| by apply IH].
  destruct (record_entries_kept record v (Some (k, id)) w n Ha Hw) as (m & Hm & Hkey & _).
  apply record_value_conforms in Hw as [Hc1 Hc2]; [| done | done]. split; [done |]. split; [done |]. exists m. split; [done |]. by apply Hkey.
Qed.

Lemma collection_rows_fit c src rs :
  accepted_collection c -> value_wf src -> collection_rows c src = Ok rs -> Forall (row_fits c) rs.
Proof.
  intros Ha%accepted_collection_record Hwf. destruct c as [| | sp mi identity record | sp mi k record |]; simpl; try done; intros Hr;
    apply rbind_ok in Hr as (vs & Hvs & Hr); apply ok_or_ok in Hvs; apply rbind_ok in Hr as (? & _ & Hr).
  - apply rbind_ok in Hr as (f & Hf & Hr). apply ok_or_ok in Hf. apply rbind_ok in Hr as (max & Hmax & Hr). apply ok_or_ok in Hmax.
    destruct (identity_limit_field sp mi identity record max f (record_fields_unique record None Ha) Hmax Hf) as (Hin & Hname & n & Hk).
    eapply (array_rows_fit sp mi identity record f n); [done | done | done | done | | exact Hr]. by eapply value_wf_items.
  - eapply (entry_rows_fit sp mi k record); [done | | exact Hr]. by eapply value_wf_fields.
Qed.

Lemma collection_rows_count c src rs :
  collection_rows c src = Ok rs ->
  match c with ObjectArray _ max_items _ _ | ObjectEntries _ max_items _ _ => zlen rs <= max_items | _ => False end.
Proof.
  destruct c as [| | sp mi identity record | sp mi k record |]; simpl; try done; intros Hr;
    apply rbind_ok in Hr as (vs & Hvs & Hr); apply rbind_ok in Hr as (u & Hc%check_count_ok & Hr).
  - apply rbind_ok in Hr as (f & _ & Hr). apply rbind_ok in Hr as (max & _ & Hr).
    apply array_rows_length in Hr. unfold idrow in *. lia.
  - apply entry_rows_ids, (f_equal length) in Hr. rewrite !length_fmap in Hr. unfold idrow in *. lia.
Qed.

Lemma rows_compact c rs : Forall (row_fits c) rs -> compact (record_depth (R := R) + 1) (VArr (row_values rs)).
Proof.
  intros Hrs. apply array_compact; [pose proof (record_depth_pos (R := R)); lia |].
  apply Forall_fmap. eapply Forall_impl; [exact Hrs |]. by intros r [? _].
Qed.

Lemma collection_value_conforms c src v n :
  accepted_collection c -> value_wf src -> collection_value c src = Ok (v, n) ->
  collection_conforms c v /\ compact (record_depth (R := R) + 1) v.
Proof.
  intros Hacc Hwf. pose proof (record_depth_pos (R := R)) as Hd. pose proof (accepted_collection_record c Hacc) as Ha.
  destruct c as [sp mi mb | sp mi record | sp mi identity record | sp mi k record | sp mi nm k unique];
    intros Hv; cbn [collection_value] in Hv.
  - apply rbind_ok in Hv as ([k vs] & Hp & Hv). apply rbind_ok in Hv as (u & Hc%check_count_ok & Hv).
    apply rbind_ok in Hv as (ts & Hts & [= <- _]). cbn [fst snd] in *.
    assert (Forall value_wf vs) as Hvs.
    { destruct src; try done; injection Hp as <- <-; [by constructor | by apply (value_wf_items (VArr items))]. }
    assert (Forall (fun t => kind_conforms (Text mb) t /\ compact 0 t) ts) as Hall.
    { eapply collect_Forall; [| exact Hts]. intros x y Hx Hy. apply rbind_ok in Hy as (s & Hs & [= <-]).
      split; [| apply scalar_is_compact]. eapply read_conforms; [| exact Hs].
      rewrite Forall_forall in Hvs. by apply Hvs. }
    pose proof (collect_length _ _ _ Hts) as Hlen. split.
    + exists k, ts. split; [done | split; [| split; [by rewrite Hlen | eapply Forall_impl; [exact Hall | by intros ? [? _]]]]].
      destruct src; try done; injection Hp as <- <-; [by left | by right].
    + apply (compact_mono 2); [lia |]. apply (object_compact 1); [lia |].
      constructor; [| constructor; [| constructor]]; cbn [snd].
      * apply (compact_mono 0); [lia | apply text_is_compact].
      * apply (array_compact 0); [done |]. eapply Forall_impl; [exact Hall | by intros ? [_ ?]].
  - apply rbind_ok in Hv as (vs & Hvs & Hv). apply ok_or_ok in Hvs.
    apply rbind_ok in Hv as (u & Hc%check_count_ok & Hv).
    apply rbind_ok in Hv as ([rs m] & Hrs & [= <- _]).
    pose proof (value_wf_items src vs Hvs Hwf) as Hall. rewrite Forall_forall in Hall.
    assert (Forall (fun w => record_conforms record None w /\ compact (record_depth (R := R)) w) rs) as Hf.
    { eapply counted_list_Forall; [| exact Hrs]. intros x y j Hx Hy. eapply record_value_conforms; [exact Ha | | exact Hy]. by apply Hall. }
    split; [| apply array_compact; [lia |]; eapply Forall_impl; [exact Hf | by intros ? [_ ?]]].
    exists rs. split; [done | split; [by rewrite (counted_list_length _ _ _ _ Hrs) |]].
    eapply Forall_impl; [exact Hf | by intros ? [? _]].
  - apply rbind_ok in Hv as (rs & Hrs & [= <- _]).
    pose proof (collection_rows_fit _ _ _ Hacc Hwf Hrs) as Hfit. split; [| by eapply rows_compact].
    pose proof (collection_rows_NoDup _ _ _ Hwf Hrs) as Hnd.
    apply collection_rows_count in Hrs. exists rs.*1, (row_values rs).
    split; [done | split; [unfold row_values; by rewrite length_fmap | split; [done |]]].
    unfold row_values. clear Hnd Hrs. induction Hfit as [| r rs [_ Hr] Hrs IH]; [constructor |].
    rewrite !fmap_cons. by constructor.
  - apply rbind_ok in Hv as (rs & Hrs & [= <- _]).
    pose proof (collection_rows_fit _ _ _ Hacc Hwf Hrs) as Hfit. split; [| by eapply rows_compact].
    pose proof (collection_rows_NoDup _ _ _ Hwf Hrs) as Hnd.
    apply collection_rows_count in Hrs. exists rs.*1, (row_values rs).
    split; [done | split; [unfold row_values; by rewrite length_fmap | split; [done |]]].
    unfold row_values. clear Hnd Hrs. induction Hfit as [| r rs [_ Hr] Hrs IH]; [constructor |].
    rewrite !fmap_cons. by constructor.
  - apply rbind_ok in Hv as (vs & Hvs & Hv). apply ok_or_ok in Hvs.
    apply rbind_ok in Hv as (u & Hc%check_count_ok & Hv). apply rbind_ok in Hv as (rs & Hrs & [= <- _]).
    pose proof (value_wf_items src vs Hvs Hwf) as Hall. pose proof (scalar_rows_length _ _ _ _ _ _ Hrs) as Hlen.
    assert (exists xs, rs = ((fun x => VObj [(nm, x)]) <$> xs) /\ Forall (fun x => kind_conforms k x /\ compact 0 x) xs)
      as (xs & -> & Hxs).
    { clear Hlen Hc Hvs Hwf. revert Hrs. generalize (@nil Scalar). revert rs.
      induction Hall as [| x vs Hx Hall IH]; intros rs ids Hrs; cbn [scalar_rows] in Hrs; [injection Hrs as <-; by exists [] |].
      apply rbind_ok in Hrs as (s & Hs & Hrs). apply fail_if_ok in Hrs as [_ Hrs].
      apply rbind_ok in Hrs as (ids' & _ & Hrs). apply rbind_ok in Hrs as (tl & Htl & [= <-]).
      destruct (IH tl ids' Htl) as (xs & -> & Hxs). exists (scalar_value s :: xs). split; [done |].
      constructor; [| done]. split; [by eapply read_conforms | apply scalar_is_compact]. }
    rewrite length_fmap in Hlen. split.
    + exists xs. split; [done | split; [by rewrite Hlen | eapply Forall_impl; [exact Hxs | by intros ? [? _]]]].
    + apply (compact_mono 2); [lia |]. apply (array_compact 1); [lia |]. apply Forall_fmap.
      eapply Forall_impl; [exact Hxs |]. intros x [_ Hx]. apply (object_compact 0); [done |].
      constructor; [done | constructor].
Qed.

Lemma collection_entry_conforms src f es n e :
  accepted_collection (collection f) -> value_wf src -> collection_entry src f = Ok (es, n) -> e ∈ es ->
  fst e = c_name f /\ collection_conforms (collection f) (snd e) /\ compact (record_depth (R := R) + 1) (snd e).
Proof.
  unfold collection_entry. intros Ha Hwf Hc He. apply rbind_ok in Hc as ([found |] & Hl & Hc).
  - apply rbind_ok in Hc as ([w m] & Hw & [= <- _]). apply list_elem_of_singleton in He as ->.
    split; [done |]. eapply collection_value_conforms; [exact Ha | | exact Hw]. by eapply lookup_wf.
  - case_decide; [done |]. injection Hc as <- _. by apply not_elem_of_nil in He.
Qed.
End collections.

Lemma counted_entries_elem {A B} (f : A -> counted (list B)) l yss n y :
  counted_list f l = Ok (yss, n) -> y ∈ mjoin yss -> exists x ys k, x ∈ l /\ f x = Ok (ys, k) /\ y ∈ ys.
Proof.
  revert yss n. induction l as [| x l IH]; intros yss n Hc Hy; cbn [counted_list] in Hc.
  - injection Hc as <- _. by apply not_elem_of_nil in Hy.
  - apply rbind_ok in Hc as ([ys k] & Hx & Hc). apply rbind_ok in Hc as ([tl m] & Htl & [= <- _]).
    cbn [fst mjoin list_join] in Hy. apply elem_of_app in Hy as [Hy | Hy].
    + exists x, ys, k. split; [left | done].
    + destruct (IH tl m Htl Hy) as (x' & ys' & k' & Hin & ?). exists x', ys', k'. split; [by right | done].
Qed.

Lemma counted_entries_each {A B} (f : A -> counted (list B)) l yss n x :
  counted_list f l = Ok (yss, n) -> x ∈ l -> exists ys k, f x = Ok (ys, k) /\ (forall y, y ∈ ys -> y ∈ mjoin yss).
Proof.
  revert yss n. induction l as [| z l IH]; intros yss n Hc Hx; [by apply not_elem_of_nil in Hx |].
  cbn [counted_list] in Hc.
  apply rbind_ok in Hc as ([ys k] & Hz & Hc). apply rbind_ok in Hc as ([tl m] & Htl & [= <- _]).
  apply elem_of_cons in Hx as [-> | Hx].
  - exists ys, k. split; [done |]. intros y Hy. cbn [fst mjoin list_join]. apply elem_of_app. by left.
  - destruct (IH tl m Htl Hx) as (ys' & k' & Hf & Hin). exists ys', k'. split; [done |]. intros y Hy.
    cbn [fst mjoin list_join]. apply elem_of_app. right. by apply Hin.
Qed.

Section nested.
Context {R : Type} `{RecordConformLaws R}.

Lemma validate_nested_names (r : SchemaRecord (Collection R)) depth nodes nodes' k :
  validate_nested r depth nodes k = Ok nodes' ->
  NoDup (key_names k ++ (name <$> fields r) ++ (c_name <$> collections r))
  /\ Forall (fun f => accepted_collection (collection f)) (collections r).
Proof.
  unfold validate_nested. intros Hv. apply rbind_ok in Hv as (count & _ & Hv). apply rbind_ok in Hv as ([] & Hnames & Hv).
  apply validate_fields_names in Hnames. rewrite <- list_fmap_compose in Hnames. split; [exact Hnames |].
  by apply validate_collections_accepted in Hv.
Qed.

Lemma nested_entries_kept (r : SchemaRecord (Collection R)) src k v n :
  accepted r (key_id k) -> nested_value r src k = Ok (v, n) ->
  exists m, v = VObj m
    /\ (forall i t, k = Some (i, t) -> bt_get (id_name i) m = Some (VStr t))
    /\ (forall f, f ∈ fields r -> exists kvs, read_field src f = Ok kvs /\ forall e, e ∈ kvs -> bt_get (fst e) m = Some (snd e)).
Proof.
  intros (depth & nodes & nodes' & Hval) Hv. apply validate_nested_names in Hval as [Hnd _]. unfold nested_value in Hv.
  apply rbind_ok in Hv as (kvs & Hk & Hv). apply rbind_ok in Hv as ([es j] & Hes & [= <- _]). cbn [fst].
  exists (bt_of_list (kvs ++ mjoin es)). split; [done |]. apply (fields_value_kept _ _ _ kvs); [done |].
  rewrite app_assoc in Hnd. apply NoDup_app in Hnd as (Hnd & Hdis & _).
  intros e He. apply of_list_get; [apply elem_of_app; by left |]. intros e' [He' | He']%elem_of_app Hfst; [by eapply fields_value_functional |].
  destruct (counted_entries_elem _ _ _ _ _ Hes He') as (f & ys & i & Hf & Hy & Hin). exfalso.
  apply (Hdis (fst e)); [eapply fields_value_names; [exact Hk | by apply list_elem_of_fmap_2] |]. rewrite <- Hfst.
  unfold collection_entry in Hy. apply rbind_ok in Hy as ([found |] & _ & Hy).
  - apply rbind_ok in Hy as (w & _ & [= <- _]). apply list_elem_of_singleton in Hin as ->. cbn [fst].
    by apply (list_elem_of_fmap_2 (c_name (C := Collection R))).
  - case_decide; [done |]. injection Hy as <- _. by apply not_elem_of_nil in Hin.
Qed.
End nested.

#[export] Instance SchemaRecord_conform_laws `{RecordConformLaws R} :
  RecordConformLaws (SchemaRecord (Collection R)).
Proof.
  pose proof (record_depth_pos (R := R)) as Hd.
  split; [| | | cbn; lia].
  2: { intros r k (depth & nodes & nodes' & Hv). apply validate_nested_names in Hv as [Hv _].
       rewrite app_assoc in Hv. apply NoDup_app in Hv as (Hv & _). by apply NoDup_app in Hv as (_ & _ & ?). }
  2: { exact nested_entries_kept. }
  intros r src k v n (depth & nodes & nodes' & Hval) Hwf Hv. cbn in Hv. unfold nested_value in Hv.
  apply validate_nested_names in Hval as [_ Hacc]. rewrite Forall_forall in Hacc.
  apply rbind_ok in Hv as (kvs & Hk & Hv). apply rbind_ok in Hv as ([es m] & Hes & [= <- _]). cbn [fst].
  assert (forall e, e ∈ bt_of_list (kvs ++ mjoin es) ->
    entry_allowed (fields r) (collections r) collection_conforms k e
    /\ compact (record_depth (R := R) + 1) (snd e)) as Hall.
  { intros e He%of_list_elem. apply elem_of_app in He as [He | He].
    - destruct (fields_value_entry (fields r) (collections r) collection_conforms src k kvs e Hwf Hk He) as [Ha Hb].
      split; [done | by apply (compact_mono 0); [lia |]].
    - destruct (counted_entries_elem _ _ _ _ _ Hes He) as (f & ys & j & Hf & Hy & Hin).
      destruct (collection_entry_conforms src f ys j e (Hacc f Hf) Hwf Hy Hin) as (Ha & Hb & Hc). split; [| done].
      right; right. by exists f. }
  split.
  - exists (bt_of_list (kvs ++ mjoin es)). split; [done | split; [apply bt_of_list_wf |]].
    split; [apply Forall_forall; intros e He; by apply Hall |]. split.
    + eapply Forall_impl; [by eapply fields_value_required |]. intros f Hf Hp. apply of_list_keys.
      rewrite fmap_app, elem_of_app. left. by apply Hf.
    + apply Forall_forall. intros f Hf Hp. apply of_list_keys. rewrite fmap_app, elem_of_app. right.
      destruct (counted_entries_each _ _ _ _ _ Hes Hf) as (ys & j & Hy & Hin).
      unfold collection_entry in Hy. apply rbind_ok in Hy as ([found |] & _ & Hy).
      * apply rbind_ok in Hy as (w & _ & [= <- _]).
        change (c_name f) with (fst (c_name f, fst w)). apply list_elem_of_fmap_2, Hin. left.
      * by case_decide.
  - cbn [record_depth SchemaRecord_conform].
    replace (record_depth (R := R) + 2) with (record_depth (R := R) + 1 + 1) by lia.
    apply object_compact; [lia |]. apply Forall_forall. intros e He. by apply Hall.
Qed.

(** ** The whole projection *)
Lemma reference_conforms p sel src v n :
  match p with ProjectRecord _ record => accepted record None | ProjectCollection _ c _ => accepted_collection c end ->
  value_wf src -> reference p sel src = Ok (v, n) -> projection_conforms p sel v /\ compact 6 v.
Proof.
  unfold reference. intros Ha Hwf Hr. apply rbind_ok in Hr as (u & _ & Hr).
  destruct p as [guards record | guards c selection].
  - apply record_value_conforms in Hr as [H1 H2]; [| done | done]. split; [exact H1 |].
    apply (compact_mono 5); [lia | exact H2].
  - apply fail_if_ok in Hr as [_ Hr]. apply rbind_ok in Hr as (found & Hl & Hr).
    apply rbind_ok in Hr as (w & Hw & Hr). apply ok_or_ok in Hw as ->. apply lookup_wf in Hl; [| done].
    destruct sel as [s |].
    + unfold collection_selected in Hr. apply rbind_ok in Hr as (rs & Hrs & Hr).
      apply rbind_ok in Hr as (row & Hrow & [= <- _]). apply ok_or_ok in Hrow.
      pose proof (collection_rows_fit _ _ _ Ha Hl Hrs) as Hfit.
      apply find_some in Hrow as [Hin Hs%String.eqb_eq]. apply list_elem_of_In in Hin.
      rewrite Forall_forall in Hfit. destruct (Hfit row Hin) as [Hc Hr1]. split.
      * destruct c; try done; cbn [projection_conforms]; by rewrite Hs.
      * apply (compact_mono 3); [lia | exact Hc].
    + apply rbind_ok in Hr as ([x m] & Hx & [= <- _]).
      apply collection_value_conforms in Hx as [H1 H2]; [| done | done]. split; [by exists x |].
      apply (compact_mono (4 + 1)); [lia |]. apply object_compact; [lia |].
      constructor; [exact H2 | constructor].
Qed.

(** * Guarantees of typed projection

    The properties that a caller of [PreparedInvocation::project] relies on,
    from the refinement of [Projection.v] and the conformance of [Conform.v]. *)

(** C1: Projecting a device's output with a validated schema computes exactly
    the reference projection: when the reference has a value, the evaluator
    returns that value if its compact encoding fits 65536 bytes and at most 256
    collection items were scanned, and fails with the output limit otherwise;
    when the reference fails, so does the evaluator. *)
Theorem project_refines_reference definition params selector src :
  validate_projection definition params = Ok tt -> value_wf src ->
  match reference definition selector src with
  | Ok (v, scans) =>
      project definition selector src =
        if (json_size v <=? MAX_NORMALIZED_BYTES) && (scans <=? MAX_COLLECTION_ITEMS)
        then Ok v else Err OutputLimit
  | Err e => project definition selector src = Err e \/ project definition selector src = Err OutputLimit
  end.
Proof. exact (project_reference_cases definition params selector src). Qed.

Lemma project_ok_reference definition params selector src v :
  validate_projection definition params = Ok tt -> value_wf src ->
  project definition selector src = Ok v ->
  exists n, reference definition selector src = Ok (v, n) /\ json_size v <= MAX_NORMALIZED_BYTES.
Proof.
  intros Hv Hwf Hp. pose proof (project_reference_cases definition params selector src Hv Hwf) as Hr.
  destruct (reference definition selector src) as [[w n] | e]; [| destruct Hr; congruence].
  rewrite Hp in Hr. unfold limited in Hr.
  destruct (Z.leb_spec (json_size w) MAX_NORMALIZED_BYTES); [| done].
  destruct (n <=? MAX_COLLECTION_ITEMS); [| done]. injection Hr as ->. by exists n.
Qed.

(** C10: Nothing outside the schema is returned: every key of a projected
    result is a declared name, required names are present, every scalar obeys
    its declared kind and bound, row arrays respect their declared limits, and
    the rows of a collection with identities carry distinct ones under the
    declared name; in particular a selected row carries the requested one. *)
Theorem project_conforms_to_schema definition params selector src v :
  validate_projection definition params = Ok tt -> value_wf src ->
  project definition selector src = Ok v -> projection_conforms definition selector v.
Proof.
  intros Hv Hwf Hp. destruct (project_ok_reference _ _ _ _ _ Hv Hwf Hp) as (n & Hr & _).
  apply validate_projection_accepted in Hv. by apply reference_conforms in Hr as [? _].
Qed.

(** A projected result always passes the runtime's final check of
    normalized results: its encoding, its nesting and its number of values are
    within the published limits. *)
Theorem project_passes_normalized_check definition params selector src v :
  validate_projection definition params = Ok tt -> value_wf src ->
  project definition selector src = Ok v -> check_normalized_result v = Ok tt.
Proof.
  intros Hv Hwf Hp. destruct (project_ok_reference _ _ _ _ _ Hv Hwf Hp) as (n & Hr & Hs).
  apply validate_projection_accepted in Hv. apply reference_conforms in Hr as [_ Hc]; [| done | done]. rewrite check_normalized_eq.
  by rewrite (compact_normalized 6 v).
Qed.

(** The normalized-result check, which walks the value with a byte, depth
    and node budget, accepts exactly the values whose compact JSON encoding has
    at most 65536 bytes, whose depth is at most 32 and which hold at most 65536
    values. *)
Theorem check_normalized_exact v :
  check_normalized_result v = Ok tt <->
  slen (json_text v) <= 65536 /\ json_depth v <= 32 /\ json_nodes v <= 65536.
Proof.
  rewrite check_normalized_eq. unfold normalized, json_size.
  destruct (Z.leb_spec (json_depth v) MAX_VALUE_DEPTH), (Z.leb_spec (json_nodes v) MAX_VALUE_NODES),
    (Z.leb_spec (slen (json_text v)) MAX_NORMALIZED_BYTES); simpl; unfold MAX_VALUE_DEPTH, MAX_VALUE_NODES,
    MAX_NORMALIZED_BYTES in *; split; intros ?; try done; lia.
Qed.

(** ** A concrete schema and output *)
Definition demo_leaf : LeafRecord :=
  {| leaf_fields :=
       [ {| name := "mac"; source := "/mac"; presence := Required; kind := Text 17 |};
         {| name := "rx"; source := "/stats/rx"; presence := Optional; kind := DecimalCounter DecimalText |} ] |}.
Definition demo_inner : InnerRecord :=
  {| fields := [ {| name := "name"; source := "/name"; presence := Required; kind := Text 16 |} ];
     collections := [ {| c_name := "clients"; c_presence := Optional;
                         collection := ObjectArray "/clients" 4 "mac" demo_leaf |} ] |}.
Definition demo_projection : TypedProjection :=
  ProjectCollection ["/error"] (ObjectArray "/radios" 8 "name" demo_inner) (ExactOne "radio").
Definition demo_params : list (string * ParamSpec) :=
  [("radio", {| p_kind := PString; p_required := true; allowed_values := ["radio0"] |})].
Definition demo_radio (n : string) : value :=
  VObj [("clients", VArr [VObj [("mac", VStr "aa:bb"); ("psk", VStr "hidden");
                                 ("stats", VObj [("rx", VStr "18446744073709551615")])]]);
        ("key", VStr "secret"); ("name", VStr n)].
Definition demo_output : value := VObj [("radios", VArr [demo_radio "radio0"; demo_radio "radio1"])].
Definition demo_result : value :=
  VObj [("clients", VArr [VObj [("mac", VStr "aa:bb"); ("rx", VStr "18446744073709551615")]]);
        ("name", VStr "radio1")].

Lemma demo_output_wf : value_wf demo_output.
Proof. cbn. unfold bt_wf, strict. repeat (split || constructor). Defined.

Lemma project_refines_reference_witness :
  project demo_projection (Some "radio1") demo_output = Ok demo_result.
Proof.
  exact (project_refines_reference demo_projection demo_params (Some "radio1") demo_output
    ltac:(vm_compute; reflexivity) demo_output_wf).
Defined.

Lemma project_conforms_to_schema_witness :
  projection_conforms demo_projection (Some "radio1") demo_result.
Proof.
  exact (project_conforms_to_schema demo_projection demo_params (Some "radio1") demo_output demo_result
    ltac:(vm_compute; reflexivity) demo_output_wf ltac:(vm_compute; reflexivity)).
Defined.

Lemma project_passes_normalized_check_witness : check_normalized_result demo_result = Ok tt.
Proof.
  exact (project_passes_normalized_check demo_projection demo_params (Some "radio1") demo_output demo_result
    ltac:(vm_compute; reflexivity) demo_output_wf ltac:(vm_compute; reflexivity)).
Defined.
