(* ===== verification/Effects.v ===== *)
(** * Influence graphs and their analysis

    [crates/core/src/management/]: the conservative analysis of a proposed
    change.  Resources are nodes of two influence graphs, before and after the
    change; the analysis merges them and walks everything a change can reach. *)
From Stdlib Require Import Sorted.
From stdpp Require Import relations sorting list.
From S2P Require Import Prelude Order Text.
Open Scope Z_scope.

Open Scope nat_scope.

Definition MAX_EFFECT_NODES : nat := 64 * 64.
Definition MAX_EFFECT_EDGES : nat := 64 * 128.
Definition MAX_CHANGE_ROOTS : nat := 256.
Definition MAX_PROTECTED_RESOURCES : nat := 128.
Definition MAX_RESOURCE_ID_BYTES : Z := 128.

Inductive EffectAssessment : Type := NoKnownProtectedImpact (affected_resources : nat).

Inductive EffectError : Type :=
| InvalidIdentity | InvalidGraph | InvalidSelection | LimitExceeded | MissingRoot
| MissingProtectedResource | GlobalEffects | ProtectedImpact | IncompleteEffects.
#[export] Instance EffectError_eq_dec : EqDecision EffectError.
Proof. solve_decision. Defined.

Definition effect_code (e : EffectError) : string :=
  match e with
  | InvalidIdentity => "invalid_resource_identity"
  | InvalidGraph => "invalid_effect_graph"
  | InvalidSelection => "invalid_effect_selection"
  | LimitExceeded => "effect_limit_exceeded"
  | MissingRoot => "effect_root_missing"
  | MissingProtectedResource => "protected_resource_missing"
  | GlobalEffects => "global_effects_denied"
  | ProtectedImpact => "protected_resource_affected"
  | IncompleteEffects => "incomplete_effects"
  end.

(** ** The model *)
Inductive ResourceKind : Type :=
| PhysicalPort | NetworkDevice | Bridge | Vlan | Interface | Routing | Firewall | DhcpDns
| Multicast | Service | Storage | Vpn | System | Packages | Firmware.

Definition kind_rank (k : ResourceKind) : nat :=
  match k with
  | PhysicalPort => 0 | NetworkDevice => 1 | Bridge => 2 | Vlan => 3 | Interface => 4 | Routing => 5
  | Firewall => 6 | DhcpDns => 7 | Multicast => 8 | Service => 9 | Storage => 10 | Vpn => 11
  | System => 12 | Packages => 13 | Firmware => 14
  end.

#[export] Instance ResourceKind_ord : Ord ResourceKind.
Proof. refine (ord_by kind_rank _). by intros [] []. Defined.

Record ResourceId : Type := { rid_kind : ResourceKind; rid_label : string }.

#[export] Instance ResourceId_ord : Ord ResourceId.
Proof.
  refine (ord_by (fun r => (rid_kind r, rid_label r)) _).
  intros [k l] [k' l'] [= -> ->]. reflexivity.
Defined.

Definition ResourceId_new (kind : ResourceKind) (label : string) : result EffectError ResourceId :=
  fail_if is_empty label || (MAX_RESOURCE_ID_BYTES <? slen label)%Z
       || negb (all_bytes (fun b => is_ascii_alphanumeric b || byte_in "_-./:@" b) label) with InvalidIdentity in
  Ok {| rid_kind := kind; rid_label := label |}.

Inductive EffectKnowledge : Type := Complete | Unknown.
#[export] Instance EffectKnowledge_eq_dec : EqDecision EffectKnowledge.
Proof. solve_decision. Defined.

Record Node : Type := { resource : ResourceId; knowledge : EffectKnowledge }.
Record Influence : Type := { from : ResourceId; to : ResourceId }.

Definition selection (ids : list ResourceId) (maximum : nat) : result EffectError (list ResourceId) :=
  fail_if maximum <? length ids with LimitExceeded in
  fail_if length ids =? 0 with InvalidSelection in
  let ids := sort_by id ids in
  fail_if windows2_any eqb ids with InvalidSelection in
  Ok ids.

Record ProtectedResources : Type := { protected_ids : list ResourceId }.
Definition ProtectedResources_new (ids : list ResourceId) : result EffectError ProtectedResources :=
  let? ids := selection ids MAX_PROTECTED_RESOURCES in Ok {| protected_ids := ids |}.

Record ChangeScope : Type := { roots : option (list ResourceId) }.
Definition ChangeScope_local (ids : list ResourceId) : result EffectError ChangeScope :=
  let? ids := selection ids MAX_CHANGE_ROOTS in Ok {| roots := Some ids |}.
Definition ChangeScope_global : ChangeScope := {| roots := None |}.

(** ** The graph *)
Record EffectGraph : Type := { nodes : list Node; edges : list (nat * nat) }.

Definition find_index {A} (key : A -> ResourceId) (l : list A) (r : ResourceId) : option nat :=
  binary_search_by (fun x => cmp (key x) r) l.

Fixpoint index_edges (nodes : list Node) (indexed : list (nat * nat)) (l : list Influence) :
    result EffectError (list (nat * nat)) :=
  match l with
  | [] => Ok indexed
  | edge :: l =>
      let? from := ok_or (find_index resource nodes (from edge)) InvalidGraph in
      let? to := ok_or (find_index resource nodes (to edge)) InvalidGraph in
      index_edges nodes (indexed ++ [(from, to)]) l
  end.

Definition EffectGraph_new (input : list Node) (influences : list Influence) : result EffectError EffectGraph :=
  fail_if (MAX_EFFECT_NODES <? length input) || (MAX_EFFECT_EDGES <? length influences) with LimitExceeded in
  let nodes := sort_by resource input in
  fail_if windows2_any (fun a b => eqb (resource a) (resource b)) nodes with InvalidGraph in
  let? indexed := index_edges nodes [] influences in
  let indexed := sort_by id indexed in
  fail_if windows2_any eqb indexed with InvalidGraph in
  Ok {| nodes := nodes; edges := indexed |}.

Definition graph_index (g : EffectGraph) (r : ResourceId) : option nat := find_index resource (nodes g) r.

(** ** The combined graph *)

(** [next_order]: a missing side is exhausted, not smaller. *)
Definition next_order {A} `{Ord A} (left right : option A) : option comparison :=
  match left, right with
  | Some x, Some y => Some (cmp x y)
  | Some _, None => Some Lt
  | None, Some _ => Some Gt
  | None, None => None
  end.

Definition UnionNode : Type := ResourceId * EffectKnowledge.
Record Merge : Type := { union_nodes : list UnionNode; before_map : list nat; after_map : list nat }.

Definition join_knowledge (a b : EffectKnowledge) : EffectKnowledge :=
  match a, b with Complete, Complete => Complete | _, _ => Unknown end.

Fixpoint merge_nodes (fuel : nat) (left right : list Node) (m : Merge) : result EffectError Merge :=
  match fuel with
  | O => Err InvalidGraph
  | S fuel =>
      match next_order (resource <$> head left) (resource <$> head right) with
      | None => Ok m
      | Some order =>
          fail_if length (union_nodes m) =? MAX_EFFECT_NODES with LimitExceeded in
          let position := length (union_nodes m) in
          match order with
          | Lt =>
              let? node := ok_or (head left) InvalidGraph in
              merge_nodes fuel (tail left) right
                {| union_nodes := union_nodes m ++ [(resource node, knowledge node)];
                   before_map := before_map m ++ [position]; after_map := after_map m |}
          | Gt =>
              let? node := ok_or (head right) InvalidGraph in
              merge_nodes fuel left (tail right)
                {| union_nodes := union_nodes m ++ [(resource node, knowledge node)];
                   before_map := before_map m; after_map := after_map m ++ [position] |}
          | Eq =>
              let? a := ok_or (head left) InvalidGraph in
              let? b := ok_or (head right) InvalidGraph in
              merge_nodes fuel (tail left) (tail right)
                {| union_nodes := union_nodes m ++ [(resource a, join_knowledge (knowledge a) (knowledge b))];
                   before_map := before_map m ++ [position]; after_map := after_map m ++ [position] |}
          end
      end
  end.

Fixpoint merge_edges (fuel : nat) (left right out : list (nat * nat)) : result EffectError (list (nat * nat)) :=
  match fuel with
  | O => Err InvalidGraph
  | S fuel =>
      match next_order (head left) (head right) with
      | None => Ok out
      | Some order =>
          fail_if length out =? MAX_EFFECT_EDGES with LimitExceeded in
          match order with
          | Lt => let? e := ok_or (head left) InvalidGraph in merge_edges fuel (tail left) right (out ++ [e])
          | Gt => let? e := ok_or (head right) InvalidGraph in merge_edges fuel left (tail right) (out ++ [e])
          | Eq => let? e := ok_or (head left) InvalidGraph in merge_edges fuel (tail left) (tail right) (out ++ [e])
          end
      end
  end.

(** [map[*i]], which panics out of range; the maps cover every index. *)
Definition at_index (l : list nat) (i : nat) : nat := default 0 (l !! i).
Definition translate (map : list nat) (l : list (nat * nat)) : list (nat * nat) :=
  (fun e => (at_index map (fst e), at_index map (snd e))) <$> l.

Record CombinedGraph : Type := { c_nodes : list UnionNode; c_edges : list (nat * nat) }.

Definition combined_graph (before after : EffectGraph) : result EffectError CombinedGraph :=
  let? m := merge_nodes (S (length (nodes before) + length (nodes after))) (nodes before) (nodes after)
              {| union_nodes := []; before_map := []; after_map := [] |} in
  let left := translate (before_map m) (edges before) in
  let right := translate (after_map m) (edges after) in
  let? out := merge_edges (S (length left + length right)) left right [] in
  Ok {| c_nodes := union_nodes m; c_edges := out |}.

Definition union_index (l : list UnionNode) (r : ResourceId) : option nat := find_index fst l r.

(** ** The analysis *)
Fixpoint mark (l : list UnionNode) (e : EffectError) (flags : list bool) (stack : list nat) (ids : list ResourceId) :
    result EffectError (list bool * list nat) :=
  match ids with
  | [] => Ok (flags, stack)
  | r :: ids =>
      let? node := ok_or (union_index l r) e in
      mark l e (<[node := true]> flags) (node :: stack) ids
  end.

(** Counting the edges of each source: [offsets[from + 1] += 1]. *)
Fixpoint count_sources (offsets : list nat) (l : list (nat * nat)) : list nat :=
  match l with
  | [] => offsets
  | e :: l => count_sources (alter S (S (fst e)) offsets) l
  end.
(** [for i in 1..offsets.len() { offsets[i] += offsets[i - 1] }] *)
Fixpoint accumulate (acc : nat) (l : list nat) : list nat :=
  match l with
  | [] => []
  | x :: l => (acc + x) :: accumulate (acc + x) l
  end.
Definition offsets_of (n : nat) (l : list (nat * nat)) : list nat :=
  accumulate 0 (count_sources (replicate (S n) 0) l).
(** [&targets[offsets[node]..offsets[node + 1]]] *)
Definition dependents (targets offsets : list nat) (node : nat) : list nat :=
  take (at_index offsets (S node) - at_index offsets node) (drop (at_index offsets node) targets).

Record Walk : Type := { stack : list nat; visited : list bool; affected : nat; hit : bool; incomplete : bool }.

Fixpoint push_unvisited (stack : list nat) (visited : list bool) (l : list nat) : list nat * list bool :=
  match l with
  | [] => (stack, visited)
  | d :: l =>
      if default false (visited !! d) then push_unvisited stack visited l
      else push_unvisited (d :: stack) (<[d := true]> visited) l
  end.

Definition walk_step (c_nodes : list UnionNode) (flags : list bool) (deps : nat -> list nat) (w : Walk) : option Walk :=
  match stack w with
  | [] => None
  | node :: rest =>
      let '(stack, visited) := push_unvisited rest (visited w) (deps node) in
      Some {| stack := stack; visited := visited; affected := S (affected w);
              hit := hit w || default false (flags !! node);
              incomplete := incomplete w || bool_decide ((snd <$> c_nodes !! node) = Some Unknown) |}
  end.

(** The [while let] loop; [None] only when the fuel runs out. *)
Fixpoint walk (fuel : nat) (c_nodes : list UnionNode) (flags : list bool) (deps : nat -> list nat) (w : Walk) : option Walk :=
  match walk_step c_nodes flags deps w with
  | None => Some w
  | Some w => match fuel with O => None | S fuel => walk fuel c_nodes flags deps w end
  end.

Definition analyze_effects (before after : EffectGraph) (protected : ProtectedResources) (scope : ChangeScope) :
    result EffectError EffectAssessment :=
  let? g := combined_graph before after in
  fail_if existsb (fun r => negb (bool_decide (is_Some (graph_index before r)))
                           || negb (bool_decide (is_Some (graph_index after r)))) (protected_ids protected)
    with MissingProtectedResource in
  let? roots := ok_or (roots scope) GlobalEffects in
  let n := length (c_nodes g) in
  let? marked := mark (c_nodes g) MissingRoot (replicate n false) [] roots in
  let? flags := mark (c_nodes g) MissingProtectedResource (replicate n false) [] (protected_ids protected) in
  let offsets := offsets_of n (c_edges g) in
  let deps := dependents (snd <$> c_edges g) offsets in
  let? w := ok_or (walk n (c_nodes g) (fst flags) deps
                     {| stack := snd marked; visited := fst marked; affected := 0; hit := false; incomplete := false |})
              InvalidGraph in
  if hit w then Err ProtectedImpact
  else if incomplete w then Err IncompleteEffects
  else Ok (NoKnownProtectedImpact (affected w)).

(** * What the effect analysis decides

    The merged graph represents the union of both influence relations, its
    compact adjacency lists exactly the successors, and the walk visits exactly
    the reachable resources. *)

Open Scope nat_scope.

(** ** Graphs *)
Definition in_range_edges (n : nat) (l : list (nat * nat)) : Prop := Forall (fun e => fst e < n /\ snd e < n) l.
Definition graph_wf (g : EffectGraph) : Prop :=
  strict resource (nodes g) /\ strict id (edges g) /\ in_range_edges (length (nodes g)) (edges g).

Definition node_at (g : EffectGraph) (i : nat) : option ResourceId := resource <$> nodes g !! i.
(** One graph's influence relation, on resources. *)
Definition edge (g : EffectGraph) (r s : ResourceId) : Prop :=
  exists i j, (i, j) ∈ edges g /\ node_at g i = Some r /\ node_at g j = Some s.

Lemma find_index_spec {A} (key : A -> ResourceId) l r i :
  strict key l -> find_index key l r = Some i <-> exists x, l !! i = Some x /\ key x = r.
Proof. intros Hs. unfold find_index. by apply (binary_search_spec key r). Qed.

Lemma find_index_None {A} (key : A -> ResourceId) l r :
  strict key l -> find_index key l r = None <-> r ∉ key <$> l.
Proof. intros Hs. unfold find_index. by apply (binary_search_None key r). Qed.

Lemma index_edges_ok ns acc l out :
  strict resource ns -> index_edges ns acc l = Ok out ->
  exists tl, out = acc ++ tl /\
    Forall2 (fun (e : nat * nat) (inf : Influence) =>
      (resource <$> ns !! fst e) = Some (from inf) /\ (resource <$> ns !! snd e) = Some (to inf)) tl l.
Proof.
  intros Hs. revert acc. induction l as [| inf l IH]; intros acc Hi; cbn [index_edges] in Hi.
  - injection Hi as <-. exists []. by rewrite app_nil_r.
  - apply rbind_ok in Hi as (i & Hf & Hi). apply ok_or_ok in Hf. apply find_index_spec in Hf as (x & Hx & Hxr); [| done].
    apply rbind_ok in Hi as (j & Ht & Hi). apply ok_or_ok in Ht. apply find_index_spec in Ht as (y & Hy & Hyr); [| done].
    apply IH in Hi as (tl & -> & Htl). exists ((i, j) :: tl). split; [by rewrite <- app_assoc |].
    constructor; [| done]. cbn [fst snd]. rewrite Hx, Hy. simpl. by rewrite Hxr, Hyr.
Qed.

Lemma adjacent_strict {A K} `{Ord K} (key : A -> K) l :
  windows2_any (fun x y => eqb (key x) (key y)) (sort_by key l) = false -> strict key (sort_by key l).
Proof. intros Ha. apply adjacent_equal_strict; [apply sort_by_sorted | exact Ha]. Qed.

(** A constructed graph is well-formed and represents exactly its input. *)
Lemma graph_new_ok input infs g :
  EffectGraph_new input infs = Ok g ->
  graph_wf g /\ nodes g ≡ₚ input /\
  (forall r s, edge g r s <-> {| from := r; to := s |} ∈ infs).
Proof.
  unfold EffectGraph_new. intros Hg. apply fail_if_ok in Hg as [_ Hg]. cbv zeta in Hg.
  apply fail_if_ok in Hg as [Hd Hg]. apply rbind_ok in Hg as (idx & Hi & Hg).
  apply fail_if_ok in Hg as [He Hg]. injection Hg as <-.
  apply adjacent_strict in Hd. apply (adjacent_strict id) in He.
  destruct (index_edges_ok _ _ _ _ Hd Hi) as (tl & -> & Htl). cbn [app] in *.
  split; [| split; [apply sort_by_perm |]].
  - split; [done | split; [done |]]. unfold in_range_edges. cbn [nodes edges]. apply Forall_forall. intros e He0. apply elem_of_sort_by in He0. revert e He0. apply Forall_forall.
    clear -Htl. induction Htl as [| [i j] inf tl l [Hi Hj] Htl IH]; [constructor |].
    constructor; [| exact IH]. cbn [fst snd] in *.
    destruct (sort_by resource input !! i) eqn:Ei; [| done]. destruct (sort_by resource input !! j) eqn:Ej; [| done].
    split; by eapply lookup_lt_Some.
  - intros r s. unfold edge, node_at. cbn [nodes edges]. split.
    + intros (i & j & Hin & Hi' & Hj'). apply elem_of_sort_by, list_elem_of_lookup in Hin as [k Hk].
      destruct (Forall2_lookup_l _ _ _ _ _ Htl Hk) as (inf & Hinf & H1 & H2). cbn [fst snd] in *.
      destruct inf as [a b]. cbn [from to] in *. assert (a = r /\ b = s) as [-> ->] by (split; congruence).
      by apply list_elem_of_lookup_2 in Hinf.
    + intros [k Hk]%list_elem_of_lookup. destruct (Forall2_lookup_r _ _ _ _ _ Htl Hk) as ([i j] & He' & H1 & H2).
      exists i, j. split; [by apply elem_of_sort_by; apply list_elem_of_lookup_2 in He' | done].
Qed.

(** ** Merging sorted streams *)
Lemma strict_app_cons {A K} `{Ord K} (key : A -> K) (l : list A) x :
  strict key l -> Forall (fun y => lt (key y) (key x)) l -> strict key (l ++ [x]).
Proof.
  intros Hs Hall. induction Hs as [| y l Hs IH Hy]; [by repeat constructor |].
  apply Forall_cons in Hall as [Hyx Hall]. constructor; [by apply IH |]. apply Forall_app. split; [done |].
  constructor; [done | constructor].
Qed.

Lemma strict_cons {A K} `{Ord K} (key : A -> K) x (l : list A) :
  strict key (x :: l) -> strict key l /\ Forall (fun y => lt (key x) (key y)) l.
Proof. intros Hs. inversion Hs; subst. by split. Qed.

(** Everything in [l] is below everything in [r]. *)
Definition below {A B K} `{Ord K} (ka : A -> K) (kb : B -> K) (l : list A) (r : list B) : Prop :=
  Forall (fun x => Forall (fun y => lt (ka x) (kb y)) r) l.

Lemma below_snoc {A B K} `{Ord K} (ka : A -> K) (kb : B -> K) l x r :
  below ka kb l r -> Forall (fun y => lt (ka x) (kb y)) r -> below ka kb (l ++ [x]) r.
Proof. intros Hl Hx. apply Forall_app. split; [done |]. by constructor. Qed.

Lemma below_tail {A B K} `{Ord K} (ka : A -> K) (kb : B -> K) l y r :
  below ka kb l (y :: r) -> below ka kb l r /\ Forall (fun x => lt (ka x) (kb y)) l.
Proof.
  intros Hl. split; eapply Forall_impl; try exact Hl; intros x Hx; by apply Forall_cons in Hx as [? ?].
Qed.

Lemma lt_all {A K} `{Ord K} (key : A -> K) k k' (l : list A) :
  lt k k' -> Forall (fun y => lt k' (key y)) l -> Forall (fun y => lt k (key y)) l.
Proof. intros Hk Hl. eapply Forall_impl; [exact Hl |]. intros y Hy. by apply (lt_trans k k'). Qed.

Lemma merge_edges_spec fuel left right out :
  length left + length right < fuel -> strict id left -> strict id right -> strict id out ->
  below id id out left -> below id id out right ->
  merge_edges fuel left right out = Err LimitExceeded \/
  exists res, merge_edges fuel left right out = Ok res /\ strict id res
    /\ (forall e, e ∈ res <-> e ∈ out \/ e ∈ left \/ e ∈ right).
Proof.
  revert left right out. induction fuel as [| fuel IH]; intros left right out Hf Hl Hr Ho Hbl Hbr; [lia |].
  cbn [merge_edges]. destruct left as [| x left], right as [| y right]; cbn [head next_order].
  - right. exists out. split; [done | split; [done |]]. intros e. split; [by left |].
    intros [? | [?%not_elem_of_nil | ?%not_elem_of_nil]]; done.
  - case_match eqn:Elim; [by left |]. cbn [ok_or rbind tail].
    apply strict_cons in Hr as [Hr Hyr]. apply below_tail in Hbr as [Hbr Hoy].
    destruct (IH [] right (out ++ [y])) as [-> | (res & -> & Hres & Hin)]; [simpl in *; lia | done | done
      | by apply strict_app_cons | by apply below_snoc | by apply below_snoc | by left | right].
    exists res. split; [done | split; [done |]]. intros e. rewrite Hin, elem_of_app, list_elem_of_singleton, elem_of_cons. tauto.
  - case_match eqn:Elim; [by left |]. cbn [ok_or rbind tail].
    apply strict_cons in Hl as [Hl Hxl]. apply below_tail in Hbl as [Hbl Hox].
    destruct (IH left [] (out ++ [x])) as [-> | (res & -> & Hres & Hin)]; [simpl in *; lia | done | done
      | by apply strict_app_cons | by apply below_snoc | by apply below_snoc | by left | right].
    exists res. split; [done | split; [done |]]. intros e. rewrite Hin, elem_of_app, list_elem_of_singleton, elem_of_cons. tauto.
  - case_match eqn:Elim; [by left |].
    pose proof Hl as Hl0. pose proof Hr as Hr0. pose proof Hbl as Hbl0. pose proof Hbr as Hbr0.
    apply strict_cons in Hr as [Hr Hyr]. apply below_tail in Hbr as [Hbr Hoy].
    apply strict_cons in Hl as [Hl Hxl]. apply below_tail in Hbl as [Hbl Hox].
    unfold id in *. destruct (cmp x y) eqn:Exy; cbn [ok_or rbind tail].
    + apply cmp_eq in Exy as ->.
      destruct (IH left right (out ++ [y])) as [-> | (res & -> & Hres & Hin)]; [simpl in *; lia | done | done
        | by apply strict_app_cons | by apply below_snoc | by apply below_snoc | by left | right].
      exists res. split; [done | split; [done |]]. intros e. rewrite Hin, elem_of_app, list_elem_of_singleton, !elem_of_cons. tauto.
    + destruct (IH left (y :: right) (out ++ [x])) as [-> | (res & -> & Hres & Hin)]; [simpl in *; lia | done | done
        | by apply strict_app_cons | by apply below_snoc | | by left | right].
      { apply below_snoc; [done |]. constructor; [done |]. by apply (lt_all _ x y). }
      exists res. split; [done | split; [done |]]. intros e. rewrite Hin, elem_of_app, list_elem_of_singleton, !elem_of_cons. tauto.
    + apply cmp_gt in Exy.
      destruct (IH (x :: left) right (out ++ [y])) as [-> | (res & -> & Hres & Hin)]; [simpl in *; lia | done | done
        | by apply strict_app_cons | | by apply below_snoc | by left | right].
      { apply below_snoc; [done |]. constructor; [done |]. by apply (lt_all _ y x). }
      exists res. split; [done | split; [done |]]. intros e. rewrite Hin, elem_of_app, list_elem_of_singleton, !elem_of_cons. tauto.
Qed.

(** ** Merging the node lists *)

(** Each entry of an index map points at the union node of its resource. *)
Definition maps_to (un : list UnionNode) (mp : list nat) (ns : list Node) : Prop :=
  Forall2 (fun p n => fst <$> un !! p = Some (resource n)) mp ns.

Lemma maps_to_grow un x mp ns : maps_to un mp ns -> maps_to (un ++ [x]) mp ns.
Proof.
  intros Hm. eapply Forall2_impl; [exact Hm |]. intros p n Hp. cbv beta in *.
  destruct (un !! p) eqn:E; [| done]. by rewrite (lookup_app_l_Some _ _ _ _ E).
Qed.

Lemma maps_to_push un r k mp ns n :
  resource n = r -> maps_to un mp ns -> maps_to (un ++ [(r, k)]) (mp ++ [length un]) (ns ++ [n]).
Proof.
  intros <- Hm. apply Forall2_app; [by apply maps_to_grow |]. constructor; [| constructor].
  by rewrite list_lookup_middle.
Qed.

(** The state between two steps: [dl] and [dr] were consumed. *)
Record merging (m : Merge) (dl dr left right : list Node) : Prop := {
  merging_strict : strict fst (union_nodes m);
  merging_left : strict resource left;
  merging_right : strict resource right;
  merging_below_left : below fst resource (union_nodes m) left;
  merging_below_right : below fst resource (union_nodes m) right;
  merging_before : maps_to (union_nodes m) (before_map m) dl;
  merging_after : maps_to (union_nodes m) (after_map m) dr
}.

Lemma merging_push_left m dl dr x left right :
  merging m dl dr (x :: left) right -> Forall (fun y => lt (resource x) (resource y)) right ->
  merging {| union_nodes := union_nodes m ++ [(resource x, knowledge x)];
             before_map := before_map m ++ [length (union_nodes m)]; after_map := after_map m |}
    (dl ++ [x]) dr left right.
Proof.
  intros [Hs Hl Hr Hbl Hbr Hb Ha] Hx. apply strict_cons in Hl as [Hl Hxl]. apply below_tail in Hbl as [Hbl Hox].
  constructor; cbn [union_nodes before_map after_map]; auto using strict_app_cons, below_snoc, maps_to_push, maps_to_grow.
Qed.

Lemma merging_push_right m dl dr y left right :
  merging m dl dr left (y :: right) -> Forall (fun x => lt (resource y) (resource x)) left ->
  merging {| union_nodes := union_nodes m ++ [(resource y, knowledge y)];
             before_map := before_map m; after_map := after_map m ++ [length (union_nodes m)] |}
    dl (dr ++ [y]) left right.
Proof.
  intros [Hs Hl Hr Hbl Hbr Hb Ha] Hy. apply strict_cons in Hr as [Hr Hyr]. apply below_tail in Hbr as [Hbr Hoy].
  constructor; cbn [union_nodes before_map after_map]; auto using strict_app_cons, below_snoc, maps_to_push, maps_to_grow.
Qed.

Lemma merging_push_both m dl dr x y k left right :
  merging m dl dr (x :: left) (y :: right) -> resource x = resource y ->
  merging {| union_nodes := union_nodes m ++ [(resource x, k)];
             before_map := before_map m ++ [length (union_nodes m)];
             after_map := after_map m ++ [length (union_nodes m)] |}
    (dl ++ [x]) (dr ++ [y]) left right.
Proof.
  intros [Hs Hl Hr Hbl Hbr Hb Ha] Hxy. apply strict_cons in Hl as [Hl Hxl]. apply below_tail in Hbl as [Hbl Hox].
  apply strict_cons in Hr as [Hr Hyr]. apply below_tail in Hbr as [Hbr Hoy].
  constructor; cbn [union_nodes before_map after_map]; rewrite ?Hxy in *;
    auto using strict_app_cons, below_snoc, maps_to_push, maps_to_grow.
Qed.

Lemma join_unknown a b : join_knowledge a b = Unknown <-> a = Unknown \/ b = Unknown.
Proof. destruct a, b; naive_solver. Qed.

(** What the merge adds to the nodes already emitted. *)
Definition unions (un : list UnionNode) (left right : list Node) (un' : list UnionNode) : Prop :=
  (forall r, r ∈ fst <$> un' <-> r ∈ fst <$> un \/ r ∈ resource <$> left \/ r ∈ resource <$> right) /\
  (forall r, (r, Unknown) ∈ un' <-> (r, Unknown) ∈ un \/ {| resource := r; knowledge := Unknown |} ∈ left
                                    \/ {| resource := r; knowledge := Unknown |} ∈ right).

Lemma unions_left un x left right un' :
  unions (un ++ [(resource x, knowledge x)]) left right un' -> unions un (x :: left) right un'.
Proof.
  intros [H1 H2]. split; intros r; [rewrite H1 | rewrite H2].
  - rewrite fmap_app, elem_of_app, !fmap_cons, fmap_nil, !elem_of_cons, elem_of_nil. cbn [fst]. tauto.
  - rewrite elem_of_app, !elem_of_cons, elem_of_nil. destruct x as [rx kx]. cbn [resource knowledge]. naive_solver.
Qed.

Lemma unions_right un y left right un' :
  unions (un ++ [(resource y, knowledge y)]) left right un' -> unions un left (y :: right) un'.
Proof.
  intros [H1 H2]. split; intros r; [rewrite H1 | rewrite H2].
  - rewrite fmap_app, elem_of_app, !fmap_cons, fmap_nil, !elem_of_cons, elem_of_nil. cbn [fst]. tauto.
  - rewrite elem_of_app, !elem_of_cons, elem_of_nil. destruct y as [ry ky]. cbn [resource knowledge]. naive_solver.
Qed.

Lemma unions_both un x y left right un' :
  resource x = resource y ->
  unions (un ++ [(resource x, join_knowledge (knowledge x) (knowledge y))]) left right un' ->
  unions un (x :: left) (y :: right) un'.
Proof.
  destruct x as [rx kx], y as [ry ky]. cbn [resource knowledge]. intros -> [H1 H2]. split; intros r; [rewrite H1 | rewrite H2].
  - rewrite fmap_app, elem_of_app, !fmap_cons, fmap_nil, !elem_of_cons, elem_of_nil. cbn [fst resource]. tauto.
  - rewrite elem_of_app, !elem_of_cons, elem_of_nil.
    pose proof (join_unknown kx ky) as Hj. destruct kx, ky; cbn in *; naive_solver.
Qed.

Lemma merge_nodes_spec fuel left right m dl dr :
  length left + length right < fuel -> merging m dl dr left right ->
  merge_nodes fuel left right m = Err LimitExceeded \/
  exists m', merge_nodes fuel left right m = Ok m' /\ strict fst (union_nodes m')
    /\ maps_to (union_nodes m') (before_map m') (dl ++ left) /\ maps_to (union_nodes m') (after_map m') (dr ++ right)
    /\ unions (union_nodes m) left right (union_nodes m').
Proof.
  revert left right m dl dr. induction fuel as [| fuel IH]; intros left right m dl dr Hf Hm; [lia |].
  cbn [merge_nodes]. destruct left as [| x left], right as [| y right]; cbn [head next_order fmap option_fmap option_map].
  - right. exists m. destruct Hm. rewrite !app_nil_r. repeat (split; [done |]). split; intros r; cbn [fmap list_fmap];
      rewrite !elem_of_nil; tauto.
  - case_match eqn:Elim; [by left |]. cbn [ok_or rbind tail].
    apply merging_push_right in Hm; [| constructor].
    destruct (IH [] right _ _ _ ltac:(simpl in *; lia) Hm) as [-> | (m' & -> & H1 & H2 & H3 & H4)]; [by left | right].
    exists m'. rewrite <- app_assoc in H3. repeat (split; [done |]). by apply unions_right.
  - case_match eqn:Elim; [by left |]. cbn [ok_or rbind tail].
    apply merging_push_left in Hm; [| constructor].
    destruct (IH left [] _ _ _ ltac:(simpl in *; lia) Hm) as [-> | (m' & -> & H1 & H2 & H3 & H4)]; [by left | right].
    exists m'. rewrite <- app_assoc in H2. repeat (split; [done |]). by apply unions_left.
  - case_match eqn:Elim; [by left |].
    pose proof (strict_cons _ _ _ (merging_left _ _ _ _ _ Hm)) as [_ Hxl].
    pose proof (strict_cons _ _ _ (merging_right _ _ _ _ _ Hm)) as [_ Hyr].
    destruct (cmp (resource x) (resource y)) eqn:Exy; cbn [ok_or rbind tail].
    + apply cmp_eq in Exy. apply (merging_push_both _ _ _ _ _ (join_knowledge (knowledge x) (knowledge y))) in Hm; [| done].
      destruct (IH left right _ _ _ ltac:(simpl in *; lia) Hm) as [-> | (m' & -> & H1 & H2 & H3 & H4)]; [by left | right].
      exists m'. rewrite <- app_assoc in H2, H3. repeat (split; [done |]). by apply unions_both.
    + apply merging_push_left in Hm; [| constructor; [done |]; by eapply lt_all].
      destruct (IH left (y :: right) _ _ _ ltac:(simpl in *; lia) Hm) as [-> | (m' & -> & H1 & H2 & H3 & H4)]; [by left | right].
      exists m'. rewrite <- app_assoc in H2. repeat (split; [done |]). by apply unions_left.
    + apply cmp_gt in Exy. apply merging_push_right in Hm; [| constructor; [done |]; by eapply lt_all].
      destruct (IH (x :: left) right _ _ _ ltac:(simpl in *; lia) Hm) as [-> | (m' & -> & H1 & H2 & H3 & H4)]; [by left | right].
      exists m'. rewrite <- app_assoc in H3. repeat (split; [done |]). by apply unions_right.
Qed.

(** ** Merging the edge lists *)
Lemma maps_to_at (un : list UnionNode) mp ns i n :
  maps_to un mp ns -> ns !! i = Some n -> fst <$> un !! at_index mp i = Some (resource n).
Proof.
  intros Hm Hi. destruct (Forall2_lookup_r _ _ _ _ _ Hm Hi) as (p & Hp & Hr). unfold at_index. by rewrite Hp.
Qed.

Lemma strict_lookup_lt {A K} `{Ord K} (key : A -> K) l i j x y :
  strict key l -> l !! i = Some x -> l !! j = Some y -> lt (key x) (key y) -> i < j.
Proof.
  intros Hs Hi Hj Hlt. destruct (decide (i < j)) as [? | Hge]; [done |]. exfalso.
  destruct (decide (i = j)) as [-> | Hne].
  - rewrite Hi in Hj. injection Hj as <-. by apply lt_irrefl in Hlt.
  - pose proof (strict_lookup key l j i y x Hs Hj Hi ltac:(lia)). by eapply lt_asym.
Qed.

(** An index map is increasing. *)
Lemma maps_to_mono (un : list UnionNode) mp ns i j :
  strict fst un -> strict resource ns -> maps_to un mp ns -> i < j -> j < length ns ->
  at_index mp i < at_index mp j.
Proof.
  intros Hu Hn Hm Hij Hj. destruct (lookup_lt_is_Some_2 ns j Hj) as [b Hb].
  destruct (lookup_lt_is_Some_2 ns i ltac:(lia)) as [a Ha].
  pose proof (maps_to_at _ _ _ _ _ Hm Ha) as Pa. pose proof (maps_to_at _ _ _ _ _ Hm Hb) as Pb.
  destruct (un !! at_index mp i) as [u |] eqn:Eu; [| done]. destruct (un !! at_index mp j) as [v |] eqn:Ev; [| done].
  injection Pa as Pa. injection Pb as Pb. apply (strict_lookup_lt fst un _ _ u v); [done | done | done |].
  rewrite Pa, Pb. exact (strict_lookup resource ns i j a b Hn Ha Hb Hij).
Qed.

Lemma nat_lt_iff (i j : nat) : lt i j <-> i < j.
Proof. apply Nat.compare_lt_iff. Qed.

Lemma pair_lt (i j i' j' : nat) : lt (i, j) (i', j') <-> i < i' \/ i = i' /\ j < j'.
Proof.
  unfold lt. change (cmp (i, j) (i', j')) with (cmp_then (i ?= i') (j ?= j')). unfold cmp_then.
  destruct (Nat.compare_spec i i'); rewrite ?Nat.compare_lt_iff; [lia | |]; (split; [| done || lia]); [by left | done].
Qed.

Lemma translate_strict (un : list UnionNode) mp g :
  strict fst un -> graph_wf g -> maps_to un mp (nodes g) -> strict id (translate mp (edges g)).
Proof.
  intros Hu (Hn & He & Hr) Hm. unfold translate, strict, in_range_edges in *.
  induction He as [| [i j] l Hs IH Hall]; cbn [fmap list_fmap]; [constructor |].
  apply Forall_cons in Hr as [[Hi Hj] Hr]. cbn [fst snd] in *. constructor; [by apply IH |].
  apply Forall_fmap, Forall_forall. intros [i' j'] Hin. unfold compose. cbn [fst snd].
  rewrite Forall_forall in Hall, Hr. specialize (Hall _ Hin). destruct (Hr _ Hin) as [Hi' Hj']. cbn [fst snd] in *.
  unfold key_lt, id in *. apply pair_lt. apply pair_lt in Hall as [Hlt | [-> Hlt]].
  - left. by apply (maps_to_mono un mp (nodes g)).
  - right. split; [done |]. by apply (maps_to_mono un mp (nodes g)).
Qed.

(** ** The combined graph *)
Definition union_at (g : CombinedGraph) (i : nat) : option ResourceId := fst <$> c_nodes g !! i.
Definition cedge (g : CombinedGraph) (r s : ResourceId) : Prop :=
  exists i j, (i, j) ∈ c_edges g /\ union_at g i = Some r /\ union_at g j = Some s.
Definition combined_wf (g : CombinedGraph) : Prop :=
  strict fst (c_nodes g) /\ strict id (c_edges g) /\ in_range_edges (length (c_nodes g)) (c_edges g).

Lemma node_at_lt g i : i < length (nodes g) -> is_Some (node_at g i).
Proof. intros Hi. unfold node_at. destruct (lookup_lt_is_Some_2 _ _ Hi) as [x ->]. by eexists. Qed.

Lemma node_at_maps (un : list UnionNode) mp g i r :
  maps_to un mp (nodes g) -> node_at g i = Some r -> fst <$> un !! at_index mp i = Some r.
Proof.
  intros Hm Hr. unfold node_at in Hr. destruct (nodes g !! i) eqn:E; [| done]. injection Hr as <-. by eapply maps_to_at.
Qed.

Lemma fmap_lookup_lt {A B} (f : A -> B) l i y : f <$> l !! i = Some y -> i < length l.
Proof. destruct (l !! i) eqn:E; [| done]. intros _. by eapply lookup_lt_Some. Qed.

(** Every translated edge relates the resources of an original one. *)
Lemma translate_edge (un : list UnionNode) mp g p q :
  graph_wf g -> maps_to un mp (nodes g) -> (p, q) ∈ translate mp (edges g) ->
  p < length un /\ q < length un /\
  exists r s, fst <$> un !! p = Some r /\ fst <$> un !! q = Some s /\ edge g r s.
Proof.
  intros (Hn & He & Hr) Hm Hin. apply list_elem_of_fmap in Hin as ([i j] & [= -> ->] & Hin). cbn [fst snd].
  unfold in_range_edges in Hr. rewrite Forall_forall in Hr. destruct (Hr _ Hin) as [Hi Hj]. cbn [fst snd] in *.
  destruct (node_at_lt g i Hi) as [r Hir]. destruct (node_at_lt g j Hj) as [s Hjs].
  pose proof (node_at_maps _ _ _ _ _ Hm Hir) as Pr. pose proof (node_at_maps _ _ _ _ _ Hm Hjs) as Ps.
  split; [by eapply fmap_lookup_lt |]. split; [by eapply fmap_lookup_lt |]. exists r, s. split; [done |]. split; [done |]. by exists i, j.
Qed.

Lemma edge_translate (un : list UnionNode) mp g r s :
  maps_to un mp (nodes g) -> edge g r s ->
  exists p q, (p, q) ∈ translate mp (edges g) /\ fst <$> un !! p = Some r /\ fst <$> un !! q = Some s.
Proof.
  intros Hm (i & j & Hin & Hr & Hs). exists (at_index mp i), (at_index mp j).
  split; [| split; by eapply node_at_maps]. apply list_elem_of_fmap. by exists (i, j).
Qed.

Lemma strict_fst_unique (un : list UnionNode) i j r :
  strict fst un -> fst <$> un !! i = Some r -> fst <$> un !! j = Some r -> i = j.
Proof.
  intros Hs Hi Hj. destruct (un !! i) as [x |] eqn:Ei; [| done]. destruct (un !! j) as [y |] eqn:Ej; [| done].
  injection Hi as Hi. injection Hj as Hj. eapply (strict_inj fst); [done | done | done | congruence].
Qed.

(** The merge fails only on a limit; otherwise it is the union of both graphs. *)
Lemma combined_graph_spec before after :
  graph_wf before -> graph_wf after ->
  combined_graph before after = Err LimitExceeded \/
  exists g, combined_graph before after = Ok g /\ combined_wf g
    /\ unions [] (nodes before) (nodes after) (c_nodes g)
    /\ (forall r s, cedge g r s <-> edge before r s \/ edge after r s).
Proof.
  intros Hb Ha. unfold combined_graph.
  assert (merging {| union_nodes := []; before_map := []; after_map := [] |} [] [] (nodes before) (nodes after)) as Hm.
  { destruct Hb as [? _], Ha as [? _]. by constructor; try constructor. }
  destruct (merge_nodes_spec _ _ _ _ _ _ (Nat.lt_succ_diag_r _) Hm) as [-> | (m & -> & Hu & Hmb & Hma & Hun)]; [by left |].
  cbn [rbind app] in *. cbv zeta.
  pose proof (translate_strict _ _ _ Hu Hb Hmb) as Hl. pose proof (translate_strict _ _ _ Hu Ha Hma) as Hr.
  destruct (merge_edges_spec _ _ _ [] (Nat.lt_succ_diag_r _) Hl Hr) as [-> | (out & -> & Ho & Hin)];
    [constructor | constructor | constructor | by left | right].
  cbn [rbind]. eexists. split; [done |]. unfold combined_wf, cedge, union_at. cbn [c_nodes c_edges].
  split; [split; [done |]; split; [done |] |].
  - apply Forall_forall. intros [p q] [? | [Hpq | Hpq]]%Hin; [by rewrite elem_of_nil in * | |];
      (apply translate_edge with (un := union_nodes m) in Hpq as (? & ? & _); [| done | done]); done.
  - split; [done |]. intros r s. split.
    + intros (p & q & [? | [Hpq | Hpq]]%Hin & Hp & Hq); [by rewrite elem_of_nil in * | left | right];
      (apply translate_edge with (un := union_nodes m) in Hpq as (_ & _ & r' & s' & Hr' & Hs' & He); [| done | done]);
      replace r with r' by congruence; replace s with s' by congruence; done.
    + intros [He | He]; [apply (edge_translate (union_nodes m) (before_map m)) in He as (p & q & Hpq & Hp & Hq)
        | apply (edge_translate (union_nodes m) (after_map m)) in He as (p & q & Hpq & Hp & Hq)]; try done;
      exists p, q; rewrite Hin; tauto.
Qed.
