(* ===== verification/Analysis.v ===== *)
(** * The walk of the effect analysis

    The compact adjacency lists hold exactly the successors of a node, the walk
    visits exactly the nodes reachable from the roots, each once, and stops
    within as many steps as there are nodes. *)
From Stdlib Require Import Sorted.
From stdpp Require Import relations sorting list.
From S2P Require Import Prelude Order Text Effects.
Open Scope Z_scope.

Open Scope nat_scope.

(** ** Compact adjacency *)
Section adjacency.
Implicit Types l : list (nat * nat).

Definition upto l k : list (nat * nat) := filter (fun e => fst e < k) l.
Definition of_source l k : list (nat * nat) := filter (fun e => fst e = k) l.

Lemma upto_S l k : length (upto l (S k)) = length (upto l k) + length (of_source l k).
Proof.
  unfold upto, of_source. induction l as [| e l IH]; [done |]. rewrite !filter_cons.
  repeat case_decide; simpl; lia.
Qed.

Lemma upto_0 l : length (upto l 0) = 0.
Proof. unfold upto. induction l as [| e l IH]; [done |]. rewrite filter_cons. case_decide; [lia | done]. Qed.

Lemma at_index_alter f offsets i k :
  i < length offsets -> at_index (alter f i offsets) k = if decide (k = i) then f (at_index offsets k) else at_index offsets k.
Proof.
  intros Hi. unfold at_index. case_decide; [subst | by rewrite list_lookup_alter_ne by congruence].
  rewrite list_lookup_alter_eq. destruct (lookup_lt_is_Some_2 _ _ Hi) as [x Hx]. by rewrite Hx.
Qed.

Lemma count_sources_spec l offsets :
  Forall (fun e => S (fst e) < length offsets) l ->
  length (count_sources offsets l) = length offsets /\
  at_index (count_sources offsets l) 0 = at_index offsets 0 /\
  forall i, at_index (count_sources offsets l) (S i) = at_index offsets (S i) + length (of_source l i).
Proof.
  revert offsets. induction l as [| e l IH]; intros offsets Hl; cbn [count_sources].
  { split; [done | split; [done |]]. intros i. simpl. lia. }
  apply Forall_cons in Hl as [He Hl].
  destruct (IH (alter S (S (fst e)) offsets)) as (H1 & H2 & H3); [by rewrite length_alter |].
  rewrite H1, H2, length_alter, at_index_alter by done. split; [done |]. split; [by case_decide |].
  intros i. rewrite H3, at_index_alter by done. unfold of_source. rewrite filter_cons.
  repeat case_decide; simpl; lia.
Qed.

Lemma accumulate_spec (l : list nat) acc k :
  k < length l -> at_index (accumulate acc l) (S k) = at_index (accumulate acc l) k + at_index l (S k)
                  \/ length l = S k.
Proof.
  revert acc k. induction l as [| x [| y l] IH]; intros acc k Hk; [simpl in Hk; lia | simpl in *; lia |].
  destruct k as [| k]; [left; cbn; lia |].
  destruct (IH (acc + x) k) as [IH' | IH']; [simpl in *; lia | left | right; simpl in *; lia].
  cbn [accumulate] in *. exact IH'.
Qed.

Lemma accumulate_length acc (l : list nat) : length (accumulate acc l) = length l.
Proof. revert acc. induction l as [| x l IH]; intros acc; [done |]. cbn. by rewrite IH. Qed.

Lemma offsets_spec n l k :
  Forall (fun e => fst e < n) l -> k <= n -> at_index (offsets_of n l) k = length (upto l k).
Proof.
  intros Hl Hk. unfold offsets_of.
  destruct (count_sources_spec l (replicate (S n) 0)) as (H1 & H2 & H3).
  { rewrite length_replicate. eapply Forall_impl; [exact Hl |]. intros e ?. cbv beta in *. lia. }
  rewrite length_replicate in H1. set (cs := count_sources _ _) in *.
  assert (forall i, at_index (replicate (S n) 0) i = 0) as Hz.
  { intros i. unfold at_index. destruct (decide (i < S n)).
    - by rewrite lookup_replicate_2.
    - by rewrite (proj1 (lookup_replicate_None _ _ _)) by lia. }
  induction k as [| k IH].
  - rewrite upto_0. rewrite Hz in H2. destruct cs as [| x cs]; [done |]. cbn in *. lia.
  - destruct (accumulate_spec cs 0 k) as [-> | ?]; [lia | | lia]. rewrite IH, H3, Hz, upto_S by lia. lia.
Qed.

Lemma sorted_split l k :
  StronglySorted (fun a b => fst a <= fst b) l -> l = upto l k ++ of_source l k ++ filter (fun e => k < fst e) l.
Proof.
  unfold upto, of_source. induction 1 as [| e l Hs IH Hall]; [done |]. rewrite !filter_cons.
  assert (forall (P : nat -> Prop) (HP : forall x, Decision (P x)), (forall j, fst e <= j -> ~ P j) ->
    filter (fun e => P (fst e)) l = []) as Hnil.
  { intros P HP Hno. clear IH Hs. induction Hall as [| e' l He Hall IH]; [done |]. rewrite filter_cons.
    case_decide as Hd; [by destruct (Hno _ He) | exact IH]. }
  destruct (Nat.lt_trichotomy (fst e) k) as [Hlt | [Heq | Hgt]].
  - rewrite decide_True by done. rewrite (decide_False (P := fst e = k)) by lia.
    rewrite (decide_False (P := k < fst e)) by lia. cbn. by f_equal.
  - rewrite (decide_False (P := fst e < k)) by lia. rewrite (decide_True (P := fst e = k)) by done.
    rewrite (decide_False (P := k < fst e)) by lia.
    pose proof (Hnil (fun j => j < k) _ ltac:(cbv beta; intros; lia)) as E1. cbv beta in E1. rewrite E1 in IH |- *. cbn. by f_equal.
  - rewrite (decide_False (P := fst e < k)) by lia. rewrite (decide_False (P := fst e = k)) by lia.
    rewrite (decide_True (P := k < fst e)) by done.
    pose proof (Hnil (fun j => j < k) _ ltac:(cbv beta; intros; lia)) as E1. pose proof (Hnil (fun j => j = k) _ ltac:(cbv beta; intros; lia)) as E2.
    cbv beta in E1, E2. rewrite E1, E2 in IH |- *. cbn. by f_equal.
Qed.

Lemma dependents_spec n l k :
  StronglySorted (fun a b => fst a <= fst b) l -> Forall (fun e => fst e < n) l -> k < n ->
  dependents (snd <$> l) (offsets_of n l) k = snd <$> of_source l k.
Proof.
  intros Hs Hl Hk. unfold dependents. rewrite !offsets_spec by (done || lia). rewrite upto_S.
  replace (_ + _ - _) with (length (of_source l k)) by lia.
  rewrite (sorted_split l k Hs) at 3. rewrite !fmap_app, drop_app_length'; [| by rewrite length_fmap].
  by rewrite take_app_length' by by rewrite length_fmap.
Qed.

Lemma elem_of_source l i j : j ∈ snd <$> of_source l i <-> (i, j) ∈ l.
Proof.
  unfold of_source. rewrite list_elem_of_fmap. split.
  - intros ([i' j'] & -> & [Heq Hin]%list_elem_of_filter). cbn [fst] in Heq. by subst.
  - intros Hin. exists (i, j). split; [done |]. by apply list_elem_of_filter.
Qed.
End adjacency.

(** ** The walk *)
Section walking.
Context (c_nodes : list UnionNode) (flags : list bool) (deps : nat -> list nat) (starts : list nat).
Local Abbreviation n := (length c_nodes).
Hypothesis deps_range : forall i j, i < n -> j ∈ deps i -> j < n.

Definition reachable (i : nat) : Prop := exists s, s ∈ starts /\ rtc (fun i j => j ∈ deps i) s i.
Definition flagged (i : nat) : Prop := flags !! i = Some true.
Definition is_unknown (i : nat) : Prop := snd <$> c_nodes !! i = Some Unknown.

(** The flags mark exactly the listed positions. *)
Definition tracks (v : list bool) (l : list nat) : Prop :=
  NoDup l /\ length v = n /\ Forall (fun i => i < n) l /\ forall i, default false (v !! i) = true <-> i ∈ l.

Lemma tracks_mark v l i :
  tracks v l -> i < n -> i ∉ l -> tracks (<[i := true]> v) (i :: l).
Proof.
  intros (Hd & Hn & Hr & Hv) Hi Hnin. split; [by constructor |]. split; [by rewrite length_insert |].
  split; [by constructor |]. intros j. rewrite elem_of_cons, <- Hv. destruct (decide (i = j)) as [-> | Hne].
  - rewrite list_lookup_insert_eq by lia. simpl. tauto.
  - rewrite list_lookup_insert_ne by done. naive_solver.
Qed.

Lemma tracks_perm v l k : l ≡ₚ k -> tracks v l -> tracks v k.
Proof.
  intros Hp (Hd & Hn & Hr & Hv). split; [by rewrite <- Hp |]. split; [done |]. split; [by rewrite <- Hp |].
  intros i. by rewrite <- Hp.
Qed.

Lemma push_unvisited_spec l stack visited done :
  Forall (fun i => i < n) l -> tracks visited (done ++ stack) ->
  exists stack' visited', push_unvisited stack visited l = (stack', visited') /\ tracks visited' (done ++ stack')
    /\ forall i, i ∈ done ++ stack' <-> i ∈ done ++ stack \/ i ∈ l.
Proof.
  revert stack visited. induction l as [| d l IH]; intros stack visited Hl Ht; cbn [push_unvisited].
  { exists stack, visited. split; [done |]. split; [done |]. intros i. rewrite elem_of_nil. tauto. }
  apply Forall_cons in Hl as [Hd Hl]. destruct (default false (visited !! d)) eqn:Ev.
  - destruct (IH stack visited Hl Ht) as (s' & v' & -> & Ht' & Hi). exists s', v'. split; [done |]. split; [done |].
    intros i. rewrite Hi, elem_of_cons. destruct Ht as (_ & _ & _ & Hv). apply Hv in Ev. naive_solver.
  - destruct (IH (d :: stack) (<[d := true]> visited) Hl) as (s' & v' & -> & Ht' & Hi).
    { apply (tracks_perm _ (d :: done ++ stack)); [by rewrite Permutation_middle |]. apply tracks_mark; [done | done |].
      destruct Ht as (_ & _ & _ & Hv). rewrite <- Hv, Ev. done. }
    exists s', v'. split; [done |]. split; [done |]. intros i. rewrite Hi, elem_of_cons, !elem_of_app, elem_of_cons. tauto.
Qed.

(** The loop invariant: [visited_nodes] have been popped, the rest of what is
    marked is on the stack. *)
Record walking (popped : list nat) (w : Walk) : Prop := {
  walking_tracks : tracks (visited w) (popped ++ stack w);
  walking_starts : forall i, i ∈ starts -> i ∈ popped ++ stack w;
  walking_closed : forall i j, i ∈ popped -> j ∈ deps i -> j ∈ popped ++ stack w;
  walking_reachable : forall i, i ∈ popped ++ stack w -> reachable i;
  walking_affected : affected w = length popped;
  walking_hit : hit w = true <-> exists i, i ∈ popped /\ flagged i;
  walking_incomplete : incomplete w = true <-> exists i, i ∈ popped /\ is_unknown i
}.

Lemma walking_step popped w w' :
  walking popped w -> walk_step c_nodes flags deps w = Some w' ->
  exists node, walking (popped ++ [node]) w'.
Proof.
  intros [Ht Hst Hcl Hre Haf Hhit Hinc]. unfold walk_step. destruct (stack w) as [| node rest] eqn:Es; [done |].
  assert (node < n) as Hnode.
  { destruct Ht as (_ & _ & Hr & _). rewrite Forall_forall in Hr. apply Hr, elem_of_app. right. left. }
  destruct (push_unvisited_spec (deps node) rest (visited w) (popped ++ [node])) as (s' & v' & -> & Ht' & Hin).
  { apply Forall_forall. intros j Hj. by eapply deps_range. }
  { by rewrite <- app_assoc. }
  intros [= <-]. exists node. assert (forall i, i ∈ popped ++ node :: rest <-> i ∈ (popped ++ [node]) ++ rest) as Hshift.
  { intros i. by rewrite <- app_assoc. }
  constructor; cbn [stack visited affected hit incomplete]; [done | | | | | |].
  - intros i Hi. apply Hin. left. by apply Hshift, Hst.
  - intros i j [Hi | ->%list_elem_of_singleton]%elem_of_app Hj; apply Hin; [left | by right]. by eapply Hshift, Hcl.
  - intros i [Hi%Hshift | Hi]%Hin; [by apply Hre |]. destruct (Hre node) as (s & Hs & Hr).
    { apply elem_of_app. right. left. }
    exists s. split; [done |]. by eapply rtc_r.
  - rewrite Haf, length_app. simpl. lia.
  - rewrite orb_true_iff, Hhit. setoid_rewrite elem_of_app. setoid_rewrite list_elem_of_singleton. unfold flagged.
    destruct (flags !! node) as [[] |] eqn:Ef; simpl; naive_solver.
  - rewrite orb_true_iff, Hinc. setoid_rewrite elem_of_app. setoid_rewrite list_elem_of_singleton.
    rewrite bool_decide_eq_true. unfold is_unknown. naive_solver.
Qed.

Lemma tracks_le v l : tracks v l -> length l <= n.
Proof.
  intros (Hd & _ & Hr & _). rewrite <- (length_seq n 0). apply submseteq_length, NoDup_submseteq; [done |].
  intros i Hi. rewrite Forall_forall in Hr. apply elem_of_seq. specialize (Hr i Hi). lia.
Qed.

(** The fuel is enough, and what was popped is what is reachable. *)
Lemma walk_spec fuel popped w :
  walking popped w -> n <= length popped + fuel ->
  exists w' all, walk fuel c_nodes flags deps w = Some w' /\ walking all w' /\ stack w' = [].
Proof.
  revert popped w. induction fuel as [| fuel IH]; intros popped w Hw Hf; cbn [walk];
    destruct (walk_step c_nodes flags deps w) as [w' |] eqn:E.
  - destruct (walking_step _ _ _ Hw E) as [node [Ht _ _ _ _ _ _]]. apply tracks_le in Ht.
    rewrite !length_app in Ht. simpl in Ht. lia.
  - exists w, popped. unfold walk_step in E. destruct (stack w) eqn:Es; [done |]. by destruct push_unvisited.
  - destruct (walking_step _ _ _ Hw E) as [node Hw']. apply (IH _ _ Hw'). rewrite length_app. simpl. lia.
  - exists w, popped. unfold walk_step in E. destruct (stack w) eqn:Es; [done |]. by destruct push_unvisited.
Qed.

Lemma walking_finished popped w :
  walking popped w -> stack w = [] -> NoDup popped /\ forall i, i ∈ popped <-> reachable i.
Proof.
  intros [(Hd & _) Hst Hcl Hre _ _ _] Es. rewrite Es, app_nil_r in *. split; [done |]. intros i. split; [apply Hre |].
  intros (s & Hs & Hr). specialize (Hst s Hs). clear Hs. induction Hr as [| i j k Hij Hjk IH]; [done |].
  apply IH. by eapply Hcl.
Qed.
End walking.

(** * Soundness of the effect analysis

    The verdict of [analyze_effects], on every branch, stated over the
    resources and influences the two graphs were built from. *)

Open Scope nat_scope.

(** ** Selections *)
Lemma selection_ok ids maximum out :
  selection ids maximum = Ok out -> NoDup out /\ forall r, r ∈ out <-> r ∈ ids.
Proof.
  unfold selection. intros Hs. apply fail_if_ok in Hs as [_ Hs]. apply fail_if_ok in Hs as [_ Hs].
  cbv zeta in Hs. apply fail_if_ok in Hs as [Hw Hs]. injection Hs as <-.
  apply (adjacent_strict id) in Hw. apply strict_NoDup_keys in Hw. rewrite list_fmap_id in Hw.
  split; [done |]. intros r. by rewrite elem_of_sort_by.
Qed.

Lemma union_index_spec l r i : strict fst l -> union_index l r = Some i <-> fst <$> l !! i = Some r.
Proof.
  intros Hs. unfold union_index. rewrite find_index_spec by done. split.
  - intros (x & Hx & <-). by rewrite Hx.
  - destruct (l !! i) as [x |] eqn:E; [| done]. intros [= <-]. by exists x.
Qed.

(** Marking a selection fails on an absent resource, else marks exactly it. *)
Lemma mark_spec l e ids v st :
  strict fst l -> NoDup ids -> tracks l v st -> (forall r i, r ∈ ids -> i ∈ st -> fst <$> l !! i <> Some r) ->
  (mark l e v st ids = Err e /\ exists r, r ∈ ids /\ r ∉ fst <$> l) \/
  exists v' st', mark l e v st ids = Ok (v', st') /\ tracks l v' st' /\ (forall r, r ∈ ids -> r ∈ fst <$> l)
    /\ forall i, i ∈ st' <-> i ∈ st \/ exists r, r ∈ ids /\ fst <$> l !! i = Some r.
Proof.
  intros Hs. revert v st. induction ids as [| r ids IH]; intros v st Hd Ht Hfresh; cbn [mark].
  { right. exists v, st. split; [done |]. split; [done |]. split; [by intros ? ?%elem_of_nil |].
    intros i. split; [by left |]. intros [? | (? & ?%elem_of_nil & _)]; done. }
  apply NoDup_cons in Hd as [Hr Hd]. destruct (union_index l r) as [i |] eqn:Ei; cbn [ok_or rbind].
  - apply union_index_spec in Ei; [| done]. destruct (l !! i) as [x |] eqn:Ex; [| done]. injection Ei as Ei.
    assert (fst <$> l !! i = Some r) as Hi by by rewrite Ex, <- Ei.
    destruct (IH (<[i := true]> v) (i :: st)) as [[-> (r' & Hr' & Hn)] | (v' & st' & -> & Ht' & Hp & Hin)]; [done | | | left | right].
    + apply tracks_mark; [done | by eapply lookup_lt_Some |]. intros Hin. by apply (Hfresh r i); [left | |].
    + intros r' j Hr' [-> | Hj]%elem_of_cons Heq; [| by apply (Hfresh r' j); [right | |]].
      rewrite Hi in Heq. injection Heq as <-. done.
    + split; [done |]. exists r'. split; [by right | done].
    + exists v', st'. split; [done |]. split; [done |]. split.
      { intros r' [-> | ?]%elem_of_cons; [| by apply Hp]. rewrite <- Ei. apply list_elem_of_fmap_2. by eapply list_elem_of_lookup_2. }
      intros j. rewrite Hin, elem_of_cons. setoid_rewrite elem_of_cons. split.
      * intros [[-> | ?] | (r' & ? & ?)]; [right; exists r; auto | by left | right; exists r'; auto].
      * intros [? | (r' & [-> | ?] & Heq)]; [by left; right | left; left; by apply (strict_fst_unique l j i r) | right; by exists r'].
  - left. split; [done |]. exists r. split; [left |]. unfold union_index in Ei. by apply find_index_None in Ei.
Qed.

Lemma tracks_nil (l : list UnionNode) : tracks l (replicate (length l) false) [].
Proof.
  split; [constructor |]. split; [apply length_replicate |]. split; [constructor |]. intros i. split; [| by intros ?%elem_of_nil].
  destruct (replicate (length l) false !! i) as [b |] eqn:E; [| done]. apply lookup_replicate in E as [-> _]. done.
Qed.

(** ** From positions to resources *)
Section transfer.
Context (g : CombinedGraph) (Hwf : combined_wf g).
Definition next (i j : nat) : Prop := (i, j) ∈ c_edges g.

Lemma next_range i j : next i j -> i < length (c_nodes g) /\ j < length (c_nodes g).
Proof. destruct Hwf as (_ & _ & Hr). unfold in_range_edges in Hr. rewrite Forall_forall in Hr. intros Hn. by apply (Hr (i, j)). Qed.

Lemma union_at_lt i : i < length (c_nodes g) -> exists r, union_at g i = Some r.
Proof.
  intros Hi. destruct (lookup_lt_is_Some_2 _ _ Hi) as [x Hx]. exists (fst x). exact (f_equal (fmap (M := option) fst) Hx).
Qed.

Lemma union_at_inj i j r : union_at g i = Some r -> union_at g j = Some r -> i = j.
Proof. destruct Hwf as [Hs _]. by apply strict_fst_unique. Qed.

Lemma rtc_resources i j r : rtc next i j -> union_at g i = Some r -> exists s, union_at g j = Some s /\ rtc (cedge g) r s.
Proof.
  intros Hr. revert r. induction Hr as [i | i k j Hik Hkj IH]; intros r Hi; [exists r; by split |].
  destruct (next_range _ _ Hik) as [_ Hk]. destruct (union_at_lt k Hk) as [t Ht].
  destruct (IH t Ht) as (s & Hs & Hts). exists s. split; [done |]. eapply rtc_l; [| done]. by exists i, k.
Qed.

Lemma rtc_positions i r s : rtc (cedge g) r s -> union_at g i = Some r -> exists j, union_at g j = Some s /\ rtc next i j.
Proof.
  intros Hr. revert i. induction Hr as [r | r t s (a & b & Hin & Ha & Hb) Hts IH]; intros i Hi; [exists i; by split |].
  rewrite (union_at_inj i a r Hi Ha) in *. destruct (IH b Hb) as (j & Hj & Hbj). exists j. split; [done |]. by eapply rtc_l.
Qed.
End transfer.

(** ** The verdict *)

(** A resource the change can influence: reached from a root through the
    union of both influence relations. *)
Definition influences (before after : list Influence) (r s : ResourceId) : Prop :=
  {| from := r; to := s |} ∈ before \/ {| from := r; to := s |} ∈ after.
Definition impacted (before after : list Influence) (ids : list ResourceId) (r : ResourceId) : Prop :=
  exists root, root ∈ ids /\ rtc (influences before after) root r.
Definition present (ns : list Node) (r : ResourceId) : Prop := r ∈ resource <$> ns.
(** Its effects are not completely known in one of the two graphs. *)
Definition opaque (before after : list Node) (r : ResourceId) : Prop :=
  {| resource := r; knowledge := Unknown |} ∈ before \/ {| resource := r; knowledge := Unknown |} ∈ after.

Section verdict.
Context (bn an : list Node) (bi ai : list Influence) (before after : EffectGraph) (g : CombinedGraph).
Hypothesis before_new : EffectGraph_new bn bi = Ok before.
Hypothesis after_new : EffectGraph_new an ai = Ok after.
Hypothesis merged : combined_wf g.
Hypothesis merged_nodes : unions [] (nodes before) (nodes after) (c_nodes g).
Hypothesis merged_edges : forall r s, cedge g r s <-> edge before r s \/ edge after r s.

Lemma graph_index_present input infs gr r :
  EffectGraph_new input infs = Ok gr -> is_Some (graph_index gr r) <-> present input r.
Proof.
  intros (Hwf & Hp & _)%graph_new_ok. destruct Hwf as [Hs _]. unfold graph_index, present. rewrite <- Hp.
  pose proof (find_index_None resource (nodes gr) r Hs) as Hn. destruct (find_index _ _ _).
  - split; [intros _ | by eexists]. apply dec_stable. intros Hnot. by apply Hn in Hnot.
  - split; [by intros [? ?] |]. intros Hin. by apply Hn in Hin.
Qed.

Lemma merged_present r : r ∈ fst <$> c_nodes g <-> present bn r \/ present an r.
Proof.
  destruct merged_nodes as [H1 _]. rewrite H1. apply graph_new_ok in before_new as (_ & Hb & _).
  apply graph_new_ok in after_new as (_ & Ha & _). unfold present. rewrite Hb, Ha. cbn. rewrite elem_of_nil. tauto.
Qed.

Lemma merged_opaque r : (r, Unknown) ∈ c_nodes g <-> opaque bn an r.
Proof.
  destruct merged_nodes as [_ H2]. rewrite H2. apply graph_new_ok in before_new as (_ & Hb & _).
  apply graph_new_ok in after_new as (_ & Ha & _). unfold opaque. rewrite Hb, Ha, elem_of_nil. tauto.
Qed.

Lemma merged_influences r s : cedge g r s <-> influences bi ai r s.
Proof.
  rewrite merged_edges. apply graph_new_ok in before_new as (_ & _ & Hb). apply graph_new_ok in after_new as (_ & _ & Ha).
  by rewrite Hb, Ha.
Qed.

Lemma merged_impacted ids (starts : list nat) r i :
  (forall i, i ∈ starts <-> exists r, r ∈ ids /\ union_at g i = Some r) ->
  (forall r, r ∈ ids -> r ∈ fst <$> c_nodes g) -> union_at g i = Some r ->
  (exists s, s ∈ starts /\ rtc (next g) s i) <-> impacted bi ai ids r.
Proof.
  intros Hst Hpres Hi. split.
  - intros (s & (root & Hroot & Hs)%Hst & Hr). exists root. split; [done |].
    destruct (rtc_resources g merged _ _ _ Hr Hs) as (t & Ht & Hrt). rewrite Hi in Ht. injection Ht as <-.
    eapply rtc_subrel; [| exact Hrt]. intros x y. apply merged_influences.
  - intros (root & Hroot & Hr). apply Hpres in Hroot as Hin. apply list_elem_of_fmap in Hin as (u & Hu & Hin).
    apply list_elem_of_lookup in Hin as [s Hs]. assert (union_at g s = Some root) as Hat.
    { rewrite Hu. exact (f_equal (fmap (M := option) fst) Hs). }
    destruct (rtc_positions g merged s root r) as (j & Hj & Hsj); [| done |].
    { eapply rtc_subrel; [| exact Hr]. intros x y. apply merged_influences. }
    rewrite (union_at_inj g merged i j r Hi Hj). exists s. split; [| done]. apply Hst. by exists root.
Qed.
End verdict.

(** The compact adjacency of a combined graph lists its successors. *)
Definition adjacency (g : CombinedGraph) (i : nat) : list nat :=
  dependents (snd <$> c_edges g) (offsets_of (length (c_nodes g)) (c_edges g)) i.

Lemma edges_by_source (l : list (nat * nat)) : strict id l -> StronglySorted (fun a b => fst a <= fst b) l.
Proof.
  intros Hs. eapply StronglySorted_ind with (P := StronglySorted (fun a b : nat * nat => fst a <= fst b)); [constructor | | exact Hs].
  intros [i j] k _ Hk Hall. constructor; [done |]. eapply Forall_impl; [exact Hall |].
  intros [i' j'] Hlt. unfold key_lt, id in Hlt. apply pair_lt in Hlt. cbn. lia.
Qed.

Lemma adjacency_spec g i j : combined_wf g -> i < length (c_nodes g) -> j ∈ adjacency g i <-> next g i j.
Proof.
  intros (Hn & He & Hr) Hi. unfold adjacency. rewrite dependents_spec, elem_of_source; [done | by apply edges_by_source | | done].
  eapply Forall_impl; [exact Hr |]. by intros e [? _].
Qed.

Lemma adjacency_reach g s i : combined_wf g -> s < length (c_nodes g) ->
  rtc (fun i j => j ∈ adjacency g i) s i <-> rtc (next g) s i.
Proof.
  intros Hwf Hs. split; intros Hr.
  - induction Hr as [| s k i Hsk Hki IH]; [done |]. apply adjacency_spec in Hsk; [| done | done].
    eapply rtc_l; [exact Hsk |]. apply IH. by eapply next_range.
  - induction Hr as [| s k i Hsk Hki IH]; [done |]. apply rtc_l with k; [by apply adjacency_spec |].
    apply IH. by eapply next_range.
Qed.

(** The walk over a combined graph, started at marked roots. *)
Lemma adjacency_walk g flags vis starts :
  combined_wf g -> tracks (c_nodes g) vis starts ->
  exists w all, walk (length (c_nodes g)) (c_nodes g) flags (adjacency g)
      {| stack := starts; visited := vis; affected := 0; hit := false; incomplete := false |} = Some w
    /\ NoDup all /\ affected w = length all
    /\ (forall i, i ∈ all <-> exists s, s ∈ starts /\ rtc (next g) s i)
    /\ (forall i, i ∈ all -> i < length (c_nodes g))
    /\ (hit w = true <-> exists i, i ∈ all /\ flags !! i = Some true)
    /\ (incomplete w = true <-> exists i, i ∈ all /\ snd <$> c_nodes g !! i = Some Unknown).
Proof.
  intros Hwf Ht. assert (forall i j, i < length (c_nodes g) -> j ∈ adjacency g i -> j < length (c_nodes g)) as Hrange.
  { intros i j Hi Hj%adjacency_spec; [| done | done]. by eapply next_range. }
  destruct (walk_spec (c_nodes g) flags (adjacency g) starts Hrange (length (c_nodes g)) []
    {| stack := starts; visited := vis; affected := 0; hit := false; incomplete := false |})
    as (w & all & Hw & Hall & Hstack); [| simpl; lia |].
  { constructor; cbn [stack visited affected hit incomplete app length]; [done | done | by intros ? ? ?%elem_of_nil | | done | |].
    - intros i Hi. exists i. by split.
    - split; [done | by intros (? & ?%elem_of_nil & _)].
    - split; [done | by intros (? & ?%elem_of_nil & _)]. }
  exists w, all. split; [exact Hw |]. destruct (walking_finished _ _ _ _ _ _ Hall Hstack) as [Hd Hin].
  destruct Hall as [(_ & _ & Hr & _) _ _ _ Haf Hhit Hinc]. rewrite Hstack, app_nil_r, Forall_forall in Hr.
  destruct Ht as (_ & _ & Hst & _). rewrite Forall_forall in Hst.
  do 2 (split; [done |]). split; [| by split]. intros i. rewrite Hin. unfold reachable.
  split; intros (s & Hs & Hr'); exists s; (split; [done |]); by apply (adjacency_reach g s i Hwf (Hst s Hs)).
Qed.

(** The meaning of each verdict, on the inputs of the four constructors. *)
Definition verdict_meaning (bn an : list Node) (bi ai : list Influence) (pids ids : list ResourceId)
    (v : result EffectError EffectAssessment) : Prop :=
  match v with
  | Ok (NoKnownProtectedImpact n) =>
      (forall r, r ∈ pids -> present bn r /\ present an r /\ ~ impacted bi ai ids r)
      /\ (forall r, r ∈ ids -> present bn r \/ present an r)
      /\ (forall r, impacted bi ai ids r -> ~ opaque bn an r)
      /\ exists l, NoDup l /\ (forall r, r ∈ l <-> impacted bi ai ids r) /\ n = length l
  | Err ProtectedImpact => exists r, r ∈ pids /\ impacted bi ai ids r
  | Err IncompleteEffects =>
      (forall r, r ∈ pids -> ~ impacted bi ai ids r) /\ exists r, impacted bi ai ids r /\ opaque bn an r
  | Err MissingProtectedResource => exists r, r ∈ pids /\ ~ (present bn r /\ present an r)
  | Err MissingRoot => exists r, r ∈ ids /\ ~ present bn r /\ ~ present an r
  | Err LimitExceeded => True
  | Err _ => False
  end.

Section final.
Context (bn an : list Node) (bi ai : list Influence) (before after : EffectGraph) (g : CombinedGraph) (pids ids : list ResourceId).
Hypothesis before_new : EffectGraph_new bn bi = Ok before.
Hypothesis after_new : EffectGraph_new an ai = Ok after.
Hypothesis merged : combined_wf g.
Hypothesis merged_nodes : unions [] (nodes before) (nodes after) (c_nodes g).
Hypothesis merged_edges : forall r s, cedge g r s <-> edge before r s \/ edge after r s.
Hypothesis roots_present : forall r, r ∈ ids -> r ∈ fst <$> c_nodes g.
Hypothesis protected_present : forall r, r ∈ pids -> present bn r /\ present an r.
Context (starts marked : list nat) (flags : list bool) (w : Walk) (all : list nat).
Hypothesis starts_ids : forall i, i ∈ starts <-> exists r, r ∈ ids /\ union_at g i = Some r.
Hypothesis marked_ids : forall i, flags !! i = Some true <-> exists r, r ∈ pids /\ union_at g i = Some r.
Hypothesis all_NoDup : NoDup all.
Hypothesis all_reached : forall i, i ∈ all <-> exists s, s ∈ starts /\ rtc (next g) s i.
Hypothesis all_range : forall i, i ∈ all -> i < length (c_nodes g).
Hypothesis w_affected : affected w = length all.
Hypothesis w_hit : hit w = true <-> exists i, i ∈ all /\ flags !! i = Some true.
Hypothesis w_incomplete : incomplete w = true <-> exists i, i ∈ all /\ snd <$> c_nodes g !! i = Some Unknown.

Lemma all_impacted i r : union_at g i = Some r -> i ∈ all <-> impacted bi ai ids r.
Proof. intros Hi. rewrite all_reached. by eapply merged_impacted. Qed.

Lemma impacted_position r : impacted bi ai ids r -> exists i, i ∈ all /\ union_at g i = Some r.
Proof.
  intros Himp. pose proof Himp as (root & Hroot & Hr).
  apply roots_present, list_elem_of_fmap in Hroot as (u & -> & [s Hs]%list_elem_of_lookup).
  destruct (rtc_positions g merged s (fst u) r) as (j & Hj & _).
  { eapply rtc_subrel; [| exact Hr]. intros x y. by eapply merged_influences. }
  { exact (f_equal (fmap (M := option) fst) Hs). }
  exists j. split; [by eapply all_impacted | done].
Qed.

Lemma hit_meaning : hit w = true <-> exists r, r ∈ pids /\ impacted bi ai ids r.
Proof.
  rewrite w_hit. split.
  - intros (i & Hi & (r & Hr & Hat)%marked_ids). exists r. split; [done |]. by apply (all_impacted i).
  - intros (r & Hr & (i & Hi & Hat)%impacted_position). exists i. split; [done |]. apply marked_ids. by exists r.
Qed.

Lemma incomplete_meaning : incomplete w = true <-> exists r, impacted bi ai ids r /\ opaque bn an r.
Proof.
  rewrite w_incomplete. split.
  - intros (i & Hi & Hu). destruct (c_nodes g !! i) as [[r k] |] eqn:E; [| done]. injection Hu as ->. exists r. split.
    + apply (all_impacted i r); [exact (f_equal (fmap (M := option) fst) E) | done].
    + eapply merged_opaque; [exact before_new | exact after_new | exact merged_nodes |]. by eapply list_elem_of_lookup_2.
  - intros (r & (i & Hi & Hat)%impacted_position & Hop). exists i. split; [done |].
    eapply merged_opaque in Hop; [| exact before_new | exact after_new | exact merged_nodes].
    apply list_elem_of_lookup in Hop as [j Hj].
    rewrite (union_at_inj g merged i j r Hat (f_equal (fmap (M := option) fst) Hj)).
    exact (f_equal (fmap (M := option) snd) Hj).
Qed.

Lemma all_resources : exists l, NoDup l /\ (forall r, r ∈ l <-> impacted bi ai ids r) /\ affected w = length l.
Proof.
  set (at_ i := default {| rid_kind := System; rid_label := EmptyString |} (union_at g i)).
  assert (forall i, i ∈ all -> union_at g i = Some (at_ i)) as Hat.
  { intros i Hi. destruct (union_at_lt g i (all_range i Hi)) as [r Hr]. unfold at_. by rewrite Hr. }
  exists (at_ <$> all). split; [| split].
  - apply NoDup_fmap_2_strong; [| done]. intros i j Hi Hj Heq. apply (union_at_inj g merged i j (at_ i)); [by apply Hat |].
    rewrite Heq. by apply Hat.
  - intros r. rewrite list_elem_of_fmap. split.
    + intros (i & -> & Hi). apply (all_impacted i); [by apply Hat | done].
    + intros (i & Hi & Hr)%impacted_position. exists i. split; [| done]. rewrite (Hat i Hi) in Hr. congruence.
  - by rewrite length_fmap.
Qed.

Lemma walk_verdict :
  verdict_meaning bn an bi ai pids ids
    (if hit w then Err ProtectedImpact
     else if incomplete w then Err IncompleteEffects else Ok (NoKnownProtectedImpact (affected w))).
Proof.
  pose proof hit_meaning as Hhit. pose proof incomplete_meaning as Hinc.
  assert (hit w = false -> forall r, r ∈ pids -> ~ impacted bi ai ids r) as Hno.
  { intros Hf r Hr Himp. assert (hit w = true) by (apply Hhit; by exists r). congruence. }
  destruct (hit w); [by apply Hhit |]. destruct (incomplete w).
  - split; [by apply Hno | by apply Hinc].
  - split; [| split; [| split; [| apply all_resources]]].
    + intros r Hr. destruct (protected_present r Hr). by pose proof (Hno eq_refl r Hr).
    + intros r Hr. eapply merged_present; [exact before_new | exact after_new | exact merged_nodes | by apply roots_present].
    + intros r Himp Hop. enough (false = true) by done. apply Hinc. by exists r.
Qed.
End final.

(** C7: The effect analysis is exact. On graphs, selections and scopes built
    by their constructors it always returns a verdict; an accepted change
    reaches, through the union of both influence relations, exactly the
    counted resources, none of them protected and none with unknown effects;
    each rejection has the stated cause, and the internal graph error never
    occurs. *)
Theorem analyze_effects_spec bn an bi ai pids ids before after protected scope :
  EffectGraph_new bn bi = Ok before -> EffectGraph_new an ai = Ok after ->
  ProtectedResources_new pids = Ok protected -> ChangeScope_local ids = Ok scope ->
  verdict_meaning bn an bi ai pids ids (analyze_effects before after protected scope).
Proof.
  intros Hb Ha Hp Hs. unfold ProtectedResources_new in Hp. apply rbind_ok in Hp as (pl & Hp & [= <-]).
  unfold ChangeScope_local in Hs. apply rbind_ok in Hs as (rl & Hs & [= <-]).
  apply selection_ok in Hp as [Hpd Hp]. apply selection_ok in Hs as [Hsd Hs].
  unfold analyze_effects. cbn [protected_ids roots].
  destruct (combined_graph_spec before after) as [-> | (g & -> & Hwf & Hun & He)]; [by eapply graph_new_ok | by eapply graph_new_ok | done |].
  cbn [rbind ok_or]. case_match eqn:Emiss.
  { apply existsb_exists in Emiss as (r & Hr%list_elem_of_In & Hor). exists r. split; [by apply Hp |].
    rewrite orb_true_iff, !negb_true_iff, !bool_decide_eq_false, (graph_index_present bn bi), (graph_index_present an ai) in Hor by done. tauto. }
  assert (forall r, r ∈ pids -> present bn r /\ present an r) as Hpp.
  { intros r Hr%Hp%list_elem_of_In. rewrite <- not_true_iff_false, existsb_exists in Emiss.
    rewrite <- (graph_index_present bn bi before), <- (graph_index_present an ai after) by done.
    split; apply dec_stable; intros Hnot; apply Emiss; exists r; (split; [done |]);
      rewrite orb_true_iff, !negb_true_iff, !bool_decide_eq_false; tauto. }
  cbv zeta. pose proof Hwf as (Hstrict & _ & _).
  destruct (mark_spec (c_nodes g) MissingRoot rl _ _ Hstrict Hsd (tracks_nil _)) as [[-> (r & Hr & Hn)] | (vis & st & -> & Hvis & Hrp & Hst)].
  { by intros ? ? _ ?%elem_of_nil. }
  { exists r. split; [by apply Hs |]. rewrite (merged_present bn an bi ai before after g Hb Ha Hun) in Hn. tauto. }
  cbn [rbind fst snd].
  destruct (mark_spec (c_nodes g) MissingProtectedResource pl _ _ Hstrict Hpd (tracks_nil _))
    as [[-> (r & Hr & Hn)] | (flags & ms & -> & (_ & _ & _ & Hflags) & _ & Hms)].
  { by intros ? ? _ ?%elem_of_nil. }
  { rewrite (merged_present bn an bi ai before after g Hb Ha Hun) in Hn. exists r. split; [by apply Hp | tauto]. }
  cbn [rbind fst snd].
  destruct (adjacency_walk g flags vis st Hwf Hvis) as (w & all & Hw & Hd & Haf & Hall & Hrange & Hhit & Hinc).
  unfold adjacency in Hw. change (fun i => dependents ?a ?b i) with (dependents a b) in Hw. rewrite Hw. cbn [ok_or rbind].
  eapply walk_verdict; try eassumption.
  - intros r Hr%Hs. by apply Hrp.
  - intros i. rewrite Hst, elem_of_nil. setoid_rewrite Hs. unfold union_at. tauto.
  - intros i. destruct (flags !! i) as [b |] eqn:Ef; specialize (Hflags i); rewrite Ef in Hflags; simpl in Hflags.
    + transitivity (i ∈ ms); [rewrite <- Hflags; split; congruence |]. rewrite Hms, elem_of_nil. setoid_rewrite Hp. unfold union_at. tauto.
    + transitivity (i ∈ ms); [rewrite <- Hflags; split; congruence |]. rewrite Hms, elem_of_nil. setoid_rewrite Hp. unfold union_at. tauto.
Qed.

Lemma analyze_effects_spec_witness :
  let port := {| rid_kind := PhysicalPort; rid_label := "lan1" |} in
  let bridge := {| rid_kind := Bridge; rid_label := "br-lan" |} in
  let wan := {| rid_kind := Interface; rid_label := "wan" |} in
  let ns := (fun r => {| resource := r; knowledge := Complete |}) <$> [wan; port; bridge] in
  exists before after protected scope n,
    analyze_effects before after protected scope = Ok (NoKnownProtectedImpact n) /\
    verdict_meaning ns ns [] [{| from := port; to := bridge |}] [wan] [port] (analyze_effects before after protected scope).
Proof.
  cbv zeta. eexists _, _, _, _, 2. split; [| eapply analyze_effects_spec; vm_compute; reflexivity]. vm_compute. reflexivity.
Defined.
