(* ===== verification/Codec.v ===== *)
(** * Device codecs: command templates

    [crates/device-codec/src/command.rs] and the closed command templates of
    [packages.rs] and [packages/opkg.rs].  A [String] buffer models the
    [CommandBuffer] of bytes. *)
From S2P Require Import Prelude Order Text Json Core Packages Operation.
Open Scope Z_scope.

Inductive CodecError : Type := InvalidAction | CodecOutputLimit | InvalidObservation | InvalidResponse.
#[export] Instance CodecError_eq_dec : EqDecision CodecError.
Proof. solve_decision. Defined.

Definition MAX_COMMAND_BYTES : Z := 256 * 1024.

Record CommandSpec : Type := { program : string; arguments : list string }.

Definition QUOTE : ascii := "'".

(** [value.split_inclusive(c)] *)
Fixpoint split_inclusive (c : ascii) (s : string) : list string :=
  match s with
  | EmptyString => []
  | String a s =>
      if Ascii.eqb a c then String a EmptyString :: split_inclusive c s
      else match split_inclusive c s with
           | [] => [String a EmptyString]
           | part :: parts => String a part :: parts
           end
  end.

(** ** The bounded buffer *)
Definition append (buffer bytes : string) : result CodecError string :=
  fail_if MAX_COMMAND_BYTES - slen buffer <? slen bytes with InvalidAction in Ok (buffer +:+ bytes).

Fixpoint append_parts (buffer : string) (parts : list string) : result CodecError string :=
  match parts with
  | [] => Ok buffer
  | part :: parts =>
      let? buffer :=
        match strip_suffix_char QUOTE part with
        | Some part => let? buffer := append buffer part in append buffer "'\''"
        | None => append buffer part
        end in
      append_parts buffer parts
  end.

Definition argument (buffer value : string) : result CodecError string :=
  let? buffer := append buffer " '" in
  let? buffer := append_parts buffer (split_inclusive QUOTE value) in
  append buffer "'".

(** ** Validation *)
Definition codec_identifier (value : string) (maximum : Z) : bool :=
  negb (is_empty value) && (slen value <=? maximum) && first_byte is_ascii_alphabetic value
  && all_bytes (fun b => is_ascii_alphanumeric b || byte_in "_.-" b) value.

Definition argument_name (value : string) : bool :=
  codec_identifier value 64 && all_bytes (fun b => is_ascii_alphanumeric b || (b =? 95)) value.

Definition argument_value_valid (v : value) : bool :=
  match v with
  | VStr s => (slen s <=? 1024) && negb (contains_nul s)
  | VNum _ => match as_i64 v with Some n => in_range UBUS_INTEGER_MIN UBUS_INTEGER_MAX n | None => false end
  | VBool _ => true
  | _ => false
  end.

Definition arguments_valid (v : value) : bool :=
  match as_object v with
  | None => false
  | Some m => (zlen m <=? 64) && forallb (fun p => argument_name (fst p) && argument_value_valid (snd p)) m
  end.

Definition program_path (value : string) : bool :=
  starts_with "/" value && negb (ends_with_char "/" value) && (slen value <=? 256)
  && all_bytes (fun b => is_ascii_alphanumeric b || byte_in "/_.-" b) value
  && negb (existsb (fun part => String.eqb part "." || String.eqb part "..") (split_on "/" value)).

(** ** Compilation *)
Definition quotes (value : string) : Z := zlen (filter (fun b => b = 39) (str_bytes value)).

Fixpoint command_size (total : Z) (l : list string) : option Z :=
  match l with
  | [] => Some total
  | value :: l =>
      match (n ← checked_add total (slen value); n ← checked_add n 3; q ← checked_mul (quotes value) 3; checked_add n q) with
      | Some total => command_size total l
      | None => None
      end
  end.

Definition build_command (action : PreparedAction) : result CodecError CommandSpec :=
  match action with
  | PreparedApk _ | PreparedOpkg _ => Err InvalidAction
  | PreparedUbus object method arguments =>
      fail_if negb (codec_identifier object 128) || negb (codec_identifier method 128) || negb (arguments_valid arguments)
        with InvalidAction in
      let? json := append EmptyString (json_text arguments) in
      Ok {| program := "/bin/ubus"; arguments := ["-S"; "call"; object; method; json] |}
  | PreparedProcess program args =>
      fail_if negb (program_path program) || (64 <? zlen args)
           || existsb (fun value => (1024 <? slen value) || contains_nul value) args with InvalidAction in
      Ok {| program := program; arguments := args |}
  end.

Definition compile_action (action : PreparedAction) : result CodecError CommandSpec :=
  let? command := build_command action in
  match command_size 4 (program command :: arguments command) with
  | Some size => fail_if MAX_COMMAND_BYTES <? size with InvalidAction in Ok command
  | None => Err InvalidAction
  end.

Definition compile_probe (object : ReviewedObject) : CommandSpec :=
  {| program := "/bin/ubus"; arguments := ["-v"; "list"; as_name object] |}.

Fixpoint append_arguments (buffer : string) (l : list string) : result CodecError string :=
  match l with
  | [] => Ok buffer
  | value :: l => let? buffer := argument buffer value in append_arguments buffer l
  end.

Definition encode_remote (command : CommandSpec) : result CodecError string :=
  append_arguments "exec" (program command :: arguments command).

(** ** The closed package commands *)
Definition MAX_APK_VERSION_BYTES : Z := 256.

Definition apk (args : list string) : CommandSpec :=
  {| program := "/usr/bin/env";
     arguments := ["-i"; "PATH=/usr/sbin:/usr/bin:/sbin:/bin"; "LANG=C"; "APK_CONFIG=/dev/null"; "/usr/bin/apk";
                   "--no-network"; "--no-cache"; "--no-logfile"] ++ args |}.
Definition apk_version_command : CommandSpec := apk ["--version"].
Definition apk_installed_command : CommandSpec :=
  apk ["query"; "--from"; "installed"; "--installed"; "--all-matches"; "--format"; "json"; "--fields";
       "name,version,arch,layer"; "*"].

Definition opkg_command (program argument : string) : CommandSpec :=
  {| program := "/usr/bin/env"; arguments := ["-i"; "PATH=/usr/sbin:/usr/bin:/sbin:/bin"; "LANG=C"; program; argument] |}.
Definition opkg_version_command : CommandSpec := opkg_command "/bin/opkg" "--version".
Definition opkg_status_command : CommandSpec := opkg_command "/bin/cat" "/usr/lib/opkg/status".

(** * Remote commands are literal

    The bytes sent to an SSH server are split by the target's shell into
    exactly the program and arguments that were compiled. *)

(** ** POSIX word splitting

    The fragment of the shell grammar the encoder relies on (POSIX.1-2017
    2.2): blanks separate words, characters between single quotes are literal,
    a backslash quotes the next character.  A character that the shell could
    interpret in another way is refused. *)
Definition plain_char (a : ascii) : bool :=
  let b := byte_of a in is_ascii_alphanumeric b || byte_in "_./:@%+=,-" b.

Definition finish (cur : option string) (words : list string) : list string :=
  match cur with Some w => words ++ [w] | None => words end.
Definition extend (cur : option string) (a : ascii) : option string :=
  Some (default EmptyString cur +:+ String a EmptyString).

Inductive sh_mode : Type := Bare | Quoted | Escaped.

Fixpoint shell_go (mode : sh_mode) (cur : option string) (words : list string) (s : string) : option (list string) :=
  match s with
  | EmptyString => match mode with Bare => Some (finish cur words) | _ => None end
  | String a s =>
      match mode with
      | Quoted => if Ascii.eqb a QUOTE then shell_go Bare cur words s else shell_go Quoted (extend cur a) words s
      | Escaped => if Ascii.eqb a "010" then None else shell_go Bare (extend cur a) words s
      | Bare =>
          if Ascii.eqb a " " then shell_go Bare None (finish cur words) s
          else if Ascii.eqb a QUOTE then shell_go Quoted (Some (default EmptyString cur)) words s
          else if Ascii.eqb a "\" then shell_go Escaped cur words s
          else if plain_char a then shell_go Bare (extend cur a) words s
          else None
      end
  end.
Definition shell_words (s : string) : option (list string) := shell_go Bare None [] s.

(** ** What the encoder writes *)
Fixpoint escape_quotes (s : string) : string :=
  match s with
  | EmptyString => EmptyString
  | String a s => if Ascii.eqb a QUOTE then "'\''" +:+ escape_quotes s else String a (escape_quotes s)
  end.
Definition argument_text (value : string) : string := " '" +:+ escape_quotes value +:+ "'".
Definition command_text (l : list string) : string := foldr (fun v t => argument_text v +:+ t) EmptyString l.

(** Appending succeeds exactly while the limit allows. *)
Definition bounded (buffer text : string) : result CodecError string :=
  fail_if MAX_COMMAND_BYTES <? slen buffer + slen text with InvalidAction in Ok (buffer +:+ text).

Lemma append_bounded buffer bytes : append buffer bytes = bounded buffer bytes.
Proof. unfold append, bounded. repeat case_match; bool_prop; try done; lia. Qed.

Lemma bounded_app buffer s t :
  rbind (bounded buffer s) (fun b => bounded b t) = bounded buffer (s +:+ t).
Proof.
  unfold bounded. pose proof (slen_nonneg t). rewrite slen_app. destruct (Z.ltb_spec MAX_COMMAND_BYTES (slen buffer + slen s)); cbn [rbind].
  - by rewrite (proj2 (Z.ltb_lt _ _)) by lia.
  - rewrite slen_app, string_app_assoc, Z.add_assoc. done.
Qed.

Lemma append_append buffer s t : rbind (append buffer s) (fun b => append b t) = bounded buffer (s +:+ t).
Proof. rewrite append_bounded, <- bounded_app. destruct (bounded buffer s); [apply append_bounded | done]. Qed.

(** One part of [split_inclusive]: it may end with the quote. *)
Definition part_text (part : string) : string :=
  match strip_suffix_char QUOTE part with Some p => p +:+ "'\''" | None => part end.

Lemma append_parts_bounded parts buffer :
  slen buffer <= MAX_COMMAND_BYTES ->
  append_parts buffer parts = bounded buffer (foldr (fun p t => part_text p +:+ t) EmptyString parts).
Proof.
  revert buffer. induction parts as [| part parts IH]; intros buffer Hb; cbn [append_parts foldr].
  { unfold bounded. rewrite string_app_nil_r. change (slen EmptyString) with 0. rewrite Z.add_0_r.
    by rewrite (proj2 (Z.ltb_ge _ _)) by lia. }
  rewrite <- bounded_app. assert (forall b, bounded buffer (part_text part) = Ok b -> slen b <= MAX_COMMAND_BYTES) as Hlen.
  { unfold bounded. intros b Hok. apply fail_if_ok in Hok as [Hl [= <-]]. bool_prop. rewrite slen_app. lia. }
  unfold part_text in *. destruct (strip_suffix_char QUOTE part) as [p |].
  - rewrite append_append.
    destruct (bounded buffer (p +:+ "'\''")) eqn:E; cbn [rbind]; [by apply IH, Hlen | done].
  - rewrite append_bounded. destruct (bounded buffer part) eqn:E; cbn [rbind]; [by apply IH, Hlen | done].
Qed.

(** The parts of [split_inclusive] spell the escaped text. *)
Lemma part_text_cons a part : part <> EmptyString -> part_text (String a part) = String a (part_text part).
Proof.
  unfold part_text. intros Hne. destruct part as [| b part]; [done |].
  change (strip_suffix_char QUOTE (String a (String b part))) with
    (match strip_suffix_char QUOTE (String b part) with Some t => Some (String a t) | None => None end).
  by destruct (strip_suffix_char QUOTE (String b part)).
Qed.

Lemma split_inclusive_nonempty c s : Forall (fun p => p <> EmptyString) (split_inclusive c s).
Proof.
  induction s as [| a s IH]; cbn [split_inclusive]; [constructor |]. destruct (Ascii.eqb a c); [by constructor |].
  destruct IH; by repeat constructor.
Qed.

Lemma split_inclusive_text s :
  foldr (fun p t => part_text p +:+ t) EmptyString (split_inclusive QUOTE s) = escape_quotes s.
Proof.
  induction s as [| a s IH]; [done |]. cbn [split_inclusive escape_quotes].
  pose proof (split_inclusive_nonempty QUOTE s) as Hne. destruct (Ascii.eqb a QUOTE) eqn:Ea.
  - apply Ascii.eqb_eq in Ea as ->. cbn [foldr]. by rewrite IH.
  - rewrite <- IH. destruct (split_inclusive QUOTE s) as [| p ps]; cbn [foldr].
    + unfold part_text. cbn [strip_suffix_char]. by rewrite Ea.
    + apply Forall_cons in Hne as [Hp _]. by rewrite part_text_cons.
Qed.

Lemma argument_bounded buffer value :
  slen buffer <= MAX_COMMAND_BYTES -> argument buffer value = bounded buffer (argument_text value).
Proof.
  intros Hb. unfold argument, argument_text. rewrite append_bounded, <- bounded_app.
  destruct (bounded buffer " '") as [b |] eqn:E; [cbn [rbind] | done].
  unfold bounded in E. apply fail_if_ok in E as [Hl [= <-]]. bool_prop. set (b := buffer +:+ " '") in *.
  rewrite append_parts_bounded by (unfold b; rewrite slen_app; lia). rewrite split_inclusive_text, <- bounded_app.
  destruct (bounded b (escape_quotes value)); cbn [rbind]; [apply append_bounded | done].
Qed.

Lemma append_arguments_bounded l buffer :
  slen buffer <= MAX_COMMAND_BYTES -> append_arguments buffer l = bounded buffer (command_text l).
Proof.
  revert buffer. induction l as [| v l IH]; intros buffer Hb; cbn [append_arguments command_text foldr].
  { unfold bounded. rewrite string_app_nil_r. change (slen EmptyString) with 0. rewrite Z.add_0_r.
    by rewrite (proj2 (Z.ltb_ge _ _)) by lia. }
  fold (command_text l). rewrite argument_bounded, <- bounded_app by done.
  destruct (bounded buffer (argument_text v)) eqn:E; cbn [rbind]; [| done].
  apply IH. unfold bounded in E. apply fail_if_ok in E as [Hl [= <-]]. bool_prop. rewrite slen_app. lia.
Qed.

(** ** Decoding *)
Lemma shell_quoted value cur words rest :
  shell_go Quoted cur words (escape_quotes value +:+ String QUOTE rest)
  = shell_go Bare (match value with EmptyString => cur | _ => Some (default EmptyString cur +:+ value) end) words rest.
Proof.
  revert cur. induction value as [| a value IH]; intros cur; [done |]. cbn [escape_quotes]. destruct (Ascii.eqb a QUOTE) eqn:Ea.
  - apply Ascii.eqb_eq in Ea as ->. transitivity (shell_go Quoted (extend cur QUOTE) words (escape_quotes value +:+ String QUOTE rest)).
    { reflexivity. }
    rewrite IH. unfold extend. destruct value; [done |]. cbn [default from_option id]. by rewrite string_app_assoc.
  - rewrite string_app_cons. cbn [shell_go]. rewrite Ea, IH. unfold extend. destruct value; [done |].
    cbn [default from_option id]. by rewrite string_app_assoc.
Qed.

Lemma shell_argument value cur words rest :
  shell_go Bare cur words (argument_text value +:+ rest) = shell_go Bare (Some value) (finish cur words) rest.
Proof.
  unfold argument_text. rewrite !string_app_assoc.
  transitivity (shell_go Quoted (Some EmptyString) (finish cur words) (escape_quotes value +:+ String QUOTE rest)); [done |].
  rewrite shell_quoted. by destruct value.
Qed.

Lemma shell_command l cur words :
  shell_go Bare cur words (command_text l) = Some (finish cur words ++ l).
Proof.
  revert cur words. induction l as [| v l IH]; intros cur words; cbn [command_text foldr].
  - by rewrite app_nil_r.
  - fold (command_text l). rewrite shell_argument, IH. cbn [finish]. by rewrite <- app_assoc.
Qed.

(** ** The size bound *)
Lemma escape_quotes_size s : slen (escape_quotes s) = slen s + 3 * quotes s.
Proof.
  unfold quotes. induction s as [| a s IH]; [done |]. cbn [escape_quotes]. rewrite str_bytes_cons, filter_cons.
  destruct (Ascii.eqb a QUOTE) eqn:Ea.
  - apply Ascii.eqb_eq in Ea as ->. rewrite decide_True by done. rewrite slen_app.
    change (slen "'\''") with 4. rewrite IH, slen_cons. cbn [length]. lia.
  - rewrite decide_False; [rewrite !slen_cons, IH; lia |]. intros Hb. apply Ascii.eqb_neq in Ea. apply Ea.
    by apply byte_of_inj.
Qed.

Lemma argument_text_size v : slen (argument_text v) = slen v + 3 + 3 * quotes v.
Proof.
  unfold argument_text. rewrite !slen_app, escape_quotes_size. change (slen " '") with 2. change (slen "'") with 1. lia.
Qed.

Lemma quotes_nonneg v : 0 <= quotes v.
Proof. unfold quotes. lia. Qed.

Lemma command_size_bound l total n : command_size total l = Some n -> n = total + slen (command_text l).
Proof.
  revert total. induction l as [| v l IH]; intros total Hs; cbn [command_size command_text foldr] in *.
  { injection Hs as <-. change (slen EmptyString) with 0. lia. }
  fold (command_text l). rewrite slen_app, argument_text_size.
  destruct (checked_add total (slen v)) as [a |] eqn:E1; [cbn [mbind option_bind] in Hs | done].
  destruct (checked_add a 3) as [b |] eqn:E2; [cbn [mbind option_bind] in Hs | done].
  destruct (checked_mul (quotes v) 3) as [c |] eqn:E3; [cbn [mbind option_bind] in Hs | done].
  destruct (checked_add b c) as [d |] eqn:E4; [cbn [mbind option_bind] in Hs | done].
  apply checked_add_Some in E1 as [-> _], E2 as [-> _], E4 as [-> _]. apply checked_mul_Some in E3 as [-> _].
  rewrite (IH _ Hs). lia.
Qed.

(** C8: Every compiled action is sent to the target literally: the encoder
    never fails on it, its output fits the command limit, and the target's
    shell splits that output into [exec], the program and exactly the compiled
    arguments, whatever quotes, blanks or shell metacharacters they contain. *)
Theorem encode_remote_literal action command :
  compile_action action = Ok command ->
  exists bytes, encode_remote command = Ok bytes /\ slen bytes <= MAX_COMMAND_BYTES
    /\ shell_words bytes = Some ("exec"%string :: program command :: arguments command).
Proof.
  unfold compile_action. intros Hc. apply rbind_ok in Hc as (c & _ & Hc).
  destruct (command_size 4 (program c :: arguments c)) as [n |] eqn:Es; [| done].
  apply fail_if_ok in Hc as [Hn [= <-]]. bool_prop. apply command_size_bound in Es.
  unfold encode_remote. rewrite append_arguments_bounded by done. unfold bounded. change (slen "exec") with 4.
  rewrite (proj2 (Z.ltb_ge _ _)) by lia. eexists. split; [done |]. rewrite slen_app. change (slen "exec") with 4. split; [lia |].
  unfold shell_words. transitivity (shell_go Bare (Some "exec"%string) [] (command_text (program c :: arguments c))); [done |].
  by rewrite shell_command.
Qed.

Lemma encode_remote_literal_witness :
  let action := PreparedProcess "/sbin/logread" ["-e"; "it's $(reboot); `x`"] in
  exists command bytes, compile_action action = Ok command /\ encode_remote command = Ok bytes
    /\ shell_words bytes = Some ["exec"; "/sbin/logread"; "-e"; "it's $(reboot); `x`"]%string.
Proof.
  cbv zeta. eexists {| program := "/sbin/logread"; arguments := _ |}.
  destruct (encode_remote_literal (PreparedProcess "/sbin/logread" ["-e"; "it's $(reboot); `x`"]) {| program := "/sbin/logread"; arguments := ["-e"; "it's $(reboot); `x`"] |})
    as (bytes & Hb & _ & Hs); [vm_compute; reflexivity |].
  exists bytes. split; [vm_compute; reflexivity |]. split; [exact Hb | exact Hs].
Defined.
