(* ===== verification/Response.v ===== *)
(** * Decoding action responses

    [crates/device-codec/src/response.rs]: the visitor that turns what the JSON
    parser delivers into a [Value], with its node and depth budget and its
    duplicate-key check.  The parser itself is [serde_json]'s: a parameter
    [scan] gives, for the bytes, what the parser delivers and whether nothing
    but whitespace follows. *)
From stdpp Require Import gmap.
From S2P Require Import Prelude Order Text Json Core Packages Operation Codec.
Open Scope Z_scope.

Definition MAX_ACTION_BYTES : Z := 16777216.
Definition MAX_ACTION_DEPTH : Z := 32.
Definition MAX_ACTION_NODES : Z := 65536.

(** What the parser delivers, in order.  [SBad] is a value at which it fails;
    [closed = false] a container in which it fails after the last entry. *)
Inductive syntax : Type :=
| SNull
| SBool (b : bool)
| SNum (n : number)
| SStr (s : string)
| SSeq (items : list syntax) (closed : bool)
| SMap (entries : list (string * syntax)) (closed : bool)
| SBad.

Section syntax_induction.
Context (P : syntax -> Prop).
Hypothesis Hnull : P SNull.
Hypothesis Hbool : forall b, P (SBool b).
Hypothesis Hnum : forall n, P (SNum n).
Hypothesis Hstr : forall s, P (SStr s).
Hypothesis Hseq : forall l c, Forall P l -> P (SSeq l c).
Hypothesis Hmap : forall m c, Forall (fun p : string * syntax => P p.2) m -> P (SMap m c).
Hypothesis Hbad : P SBad.

Fixpoint syntax_nested_ind (s : syntax) : P s :=
  match s with
  | SNull => Hnull
  | SBool b => Hbool b
  | SNum n => Hnum n
  | SStr t => Hstr t
  | SSeq l c =>
      Hseq l c ((fix go l := match l return Forall P l with
                             | [] => Forall_nil_2 P
                             | x :: tl => Forall_cons_2 P x tl (syntax_nested_ind x) (go tl)
                             end) l)
  | SMap m c =>
      Hmap m c ((fix go m := match m return Forall (fun p : string * syntax => P p.2) m with
                             | [] => Forall_nil_2 _
                             | p :: tl => Forall_cons_2 _ p tl (syntax_nested_ind p.2) (go tl)
                             end) m)
  | SBad => Hbad
  end.
End syntax_induction.

(** [Exhausted] is the failure the budget records; every other error is the
    parser's or a duplicate key. *)
Inductive DecodeError : Type := Exhausted | Malformed.

Definition charge : ST Z DecodeError unit :=
  fun remaining => if remaining =? 0 then (remaining, Err Exhausted) else (remaining - 1, Ok tt).

Section containers.
Context (decode : syntax -> ST Z DecodeError value).

(** [visit_seq] and [visit_map] after their depth check. *)
Fixpoint visit_seq (values : list value) (items : list syntax) (closed : bool) : ST Z DecodeError value :=
  match items with
  | [] => if closed then st_ret (VArr values) else st_err Malformed
  | item :: items => st_bind (decode item) (fun value => visit_seq (values ++ [value]) items closed)
  end.

Fixpoint visit_map (values : list (string * value)) (entries : list (string * syntax)) (closed : bool) :
    ST Z DecodeError value :=
  match entries with
  | [] => if closed then st_ret (VObj values) else st_err Malformed
  | (key, item) :: entries =>
      if bt_contains key values then st_err Malformed
      else st_bind (decode item) (fun value => visit_map (bt_insert key value values) entries closed)
  end.
End containers.

Fixpoint decode (depth : Z) (s : syntax) : ST Z DecodeError value :=
  st_bind charge (fun _ =>
    match s with
    | SNull => st_ret VNull
    | SBool b => st_ret (VBool b)
    | SNum n => st_ret (VNum n)
    | SStr s => st_ret (VStr s)
    | SSeq items closed =>
        if depth =? MAX_ACTION_DEPTH then st_err Exhausted else visit_seq (decode (depth + 1)) [] items closed
    | SMap entries closed =>
        if depth =? MAX_ACTION_DEPTH then st_err Exhausted else visit_map (decode (depth + 1)) [] entries closed
    | SBad => st_err Malformed
    end).

Definition json_blank (bytes : list Z) : bool := forallb (byte_in (String " " (String "009" (String "013" (String "010" EmptyString))))) bytes.

Section parse.
Context (scan : list Z -> syntax * bool).

Definition parse_action_response (bytes : list Z) (configured_limit : Z) : result CodecError value :=
  fail_if (configured_limit =? 0) || (Z.min configured_limit MAX_ACTION_BYTES <? zlen bytes) with CodecOutputLimit in
  if json_blank bytes then Ok VNull else
  let '(parsed, at_end) := scan bytes in
  match snd (decode 0 parsed MAX_ACTION_NODES) with
  | Err Exhausted => Err CodecOutputLimit
  | Err Malformed => Err InvalidResponse
  | Ok v => if at_end then Ok v else Err InvalidResponse
  end.
End parse.

(** ** The value a complete text denotes *)

(** Arrays and objects on the deepest path, the root included. *)
Fixpoint container_depth (v : value) : Z :=
  match v with
  | VArr l => 1 + foldr (fun v d => Z.max (container_depth v) d) 0 l
  | VObj m => 1 + foldr (fun p d => Z.max (container_depth p.2) d) 0 m
  | _ => 0
  end.

(** The denoted value: defined for complete texts without repeated keys. *)
Fixpoint denotes (s : syntax) : option value :=
  match s with
  | SNull => Some VNull
  | SBool b => Some (VBool b)
  | SNum n => Some (VNum n)
  | SStr s => Some (VStr s)
  | SSeq items closed => if closed then VArr <$> mapM denotes items else None
  | SMap entries closed =>
      if closed && all_distinct entries.*1 then
        (fun vs => VObj (bt_of_list (zip entries.*1 vs))) <$> mapM (fun p => denotes p.2) entries
      else None
  | SBad => None
  end.

(** ** Correctness of the visitor *)
Definition fails (r : Z * result DecodeError value) : Prop := exists remaining e, r = (remaining, Err e).
(** Success within the budget, the budget's failure outside it. *)
Definition meets (nodes depth remaining : Z) (v : value) (r : Z * result DecodeError value) : Prop :=
  if bool_decide (nodes <= remaining /\ depth <= MAX_ACTION_DEPTH) then r = (remaining - nodes, Ok v)
  else exists remaining', r = (remaining', Err Exhausted).

Definition decodes (s : syntax) : Prop := forall depth remaining,
  0 <= remaining -> depth <= MAX_ACTION_DEPTH ->
  match denotes s with
  | Some v => meets (json_nodes v) (depth + container_depth v) remaining v (decode depth s remaining)
  | None => fails (decode depth s remaining)
  end.

Definition sum_nodes (vs : list value) : Z := foldr (fun v d => json_nodes v + d) 0 vs.
Definition max_depth (vs : list value) : Z := foldr (fun v d => Z.max (container_depth v) d) 0 vs.

Lemma container_depth_nonneg v : 0 <= container_depth v.
Proof. destruct v as [| | | | l | m]; simpl; try lia; [induction l | induction m]; simpl; lia. Qed.
Lemma max_depth_nonneg vs : 0 <= max_depth vs.
Proof. induction vs; simpl; lia. Qed.
Lemma nodes_pos v : 1 <= json_nodes v.
Proof.
  induction v as [| | | | l IH | m IH] using value_nested_ind; simpl; try lia; clear -IH; induction IH; simpl; lia.
Qed.
Lemma sum_nodes_nonneg vs : 0 <= sum_nodes vs.
Proof. induction vs as [| v vs IH]; simpl; [lia |]. pose proof (nodes_pos v). lia. Qed.

Lemma meets_ok nodes depth remaining v r :
  nodes <= remaining -> depth <= MAX_ACTION_DEPTH -> meets nodes depth remaining v r -> r = (remaining - nodes, Ok v).
Proof. intros Hn Hd. unfold meets. by rewrite bool_decide_true. Qed.
Lemma meets_no nodes depth remaining v r :
  ~ (nodes <= remaining /\ depth <= MAX_ACTION_DEPTH) -> meets nodes depth remaining v r -> exists r', r = (r', Err Exhausted).
Proof. intros Hn. unfold meets. by rewrite bool_decide_false. Qed.

(** One decoded entry followed by the rest of a container. *)
Lemma meets_bind item v depth (k : value -> ST Z DecodeError value) nodes rest remaining out :
  decodes item -> denotes item = Some v -> 0 <= remaining -> depth <= MAX_ACTION_DEPTH ->
  0 <= nodes -> 0 <= rest ->
  (json_nodes v <= remaining -> meets nodes (depth + rest) (remaining - json_nodes v) out (k v (remaining - json_nodes v))) ->
  meets (json_nodes v + nodes) (depth + Z.max (container_depth v) rest) remaining out (st_bind (decode depth item) k remaining).
Proof.
  intros Hd Hv Hr Hdep Hn Hrest Hk. specialize (Hd depth remaining Hr Hdep). rewrite Hv in Hd. unfold st_bind.
  destruct (decide (json_nodes v <= remaining /\ depth + container_depth v <= MAX_ACTION_DEPTH)) as [[H1 H2] | Hno].
  - apply meets_ok in Hd; [| done | done]. rewrite Hd. specialize (Hk H1). unfold meets in *.
    case_bool_decide as Hc; case_bool_decide as Hc'; [| lia | lia | done]. rewrite Hk. f_equal. lia.
  - apply meets_no in Hd as [r' ->]; [| done]. unfold meets. rewrite bool_decide_false by lia. by exists r'.
Qed.

Lemma fails_bind item depth k remaining :
  decodes item -> denotes item = None -> 0 <= remaining -> depth <= MAX_ACTION_DEPTH ->
  fails (st_bind (decode depth item) k remaining).
Proof.
  intros Hd Hv Hr Hdep. specialize (Hd depth remaining Hr Hdep). rewrite Hv in Hd. destruct Hd as (r & e & Hd).
  unfold st_bind. rewrite Hd. by exists r, e.
Qed.

Lemma exhausted_fails (r : Z * result DecodeError value) r' : r = (r', Err Exhausted) -> fails r.
Proof. intros ->. by exists r', Exhausted. Qed.

(** Entries that all denote values either leave the budget for what follows or
    exhaust it. *)
Lemma bind_fails item v depth (k : value -> ST Z DecodeError value) remaining :
  decodes item -> denotes item = Some v -> 0 <= remaining -> depth <= MAX_ACTION_DEPTH ->
  (forall r, 0 <= r -> fails (k v r)) -> fails (st_bind (decode depth item) k remaining).
Proof.
  intros Hd Hv Hr Hdep Hk. specialize (Hd depth remaining Hr Hdep). rewrite Hv in Hd. unfold st_bind. pose proof (nodes_pos v).
  destruct (decide (json_nodes v <= remaining /\ depth + container_depth v <= MAX_ACTION_DEPTH)) as [[H1 H2] | Hno].
  - apply meets_ok in Hd; [| done | done]. rewrite Hd. apply Hk. lia.
  - apply meets_no in Hd as [r' ->]; [| done]. by exists r', Exhausted.
Qed.

Lemma visit_seq_spec items depth : Forall decodes items -> depth <= MAX_ACTION_DEPTH -> forall acc remaining closed,
  0 <= remaining ->
  match mapM denotes items with
  | Some vs => if (closed : bool) then meets (sum_nodes vs) (depth + max_depth vs) remaining (VArr (acc ++ vs))
                                     (visit_seq (decode depth) acc items closed remaining)
               else fails (visit_seq (decode depth) acc items closed remaining)
  | None => fails (visit_seq (decode depth) acc items closed remaining)
  end.
Proof.
  intros Hall Hdep. induction Hall as [| item items Hi Hall IH]; intros acc remaining closed Hr; cbn [mapM visit_seq mret option_ret].
  { destruct closed; [| by exists remaining, Malformed]. unfold meets, sum_nodes, max_depth. cbn [foldr]. rewrite app_nil_r.
    rewrite bool_decide_true by lia. unfold st_ret. by rewrite Z.sub_0_r. }
  destruct (denotes item) as [v |] eqn:Ev; cbn [mbind option_bind]; [| by apply fails_bind].
  destruct (mapM denotes items) as [vs |] eqn:Evs; cbn [mbind option_bind mret option_ret]; [destruct closed |].
  - pose proof (sum_nodes_nonneg vs). pose proof (max_depth_nonneg vs).
    replace (acc ++ v :: vs) with ((acc ++ [v]) ++ vs) by by rewrite <- app_assoc.
    apply meets_bind; try done. intros Hle. specialize (IH (acc ++ [v]) (remaining - json_nodes v) true ltac:(lia)). exact IH.
  - eapply bind_fails; try done. intros r H0. exact (IH (acc ++ [v]) r false H0).
  - eapply bind_fails; try done. intros r H0. exact (IH (acc ++ [v]) r closed H0).
Qed.

(** ** Objects *)
Definition insert_all (acc : list (string * value)) (l : list (string * value)) : list (string * value) :=
  foldl (fun m p => bt_insert p.1 p.2 m) acc l.

Lemma insert_new_keys k (v : value) m : bt_get k m = None -> (bt_insert k v m).*1 ≡ₚ k :: m.*1.
Proof. intros Hn. by rewrite (bt_insert_perm_new k v m Hn). Qed.

(** No repeated key, neither in the text nor with what was read before. *)
Definition fresh_keys (keys seen : list string) : bool :=
  all_distinct keys && forallb (fun k => negb (bool_decide (k ∈ seen))) keys.

Lemma fresh_keys_spec keys seen : fresh_keys keys seen = true <-> NoDup keys /\ forall k, k ∈ keys -> k ∉ seen.
Proof.
  unfold fresh_keys. rewrite andb_true_iff, all_distinct_NoDup, forallb_Forall, Forall_forall.
  setoid_rewrite negb_true_iff. setoid_rewrite bool_decide_eq_false. done.
Qed.

Lemma fresh_keys_cons k keys (v : value) acc :
  bt_get k acc = None -> fresh_keys (k :: keys) acc.*1 = fresh_keys keys (bt_insert k v acc).*1.
Proof.
  intros Hget. apply eq_true_iff_eq. rewrite !fresh_keys_spec. setoid_rewrite (insert_new_keys k v acc Hget).
  setoid_rewrite elem_of_cons. rewrite NoDup_cons. apply bt_get_None in Hget. naive_solver.
Qed.

Lemma visit_map_spec entries depth :
  Forall (fun p : string * syntax => decodes p.2) entries -> depth <= MAX_ACTION_DEPTH -> forall acc remaining closed,
  0 <= remaining ->
  match mapM (fun p : string * syntax => denotes p.2) entries with
  | Some vs => if (closed : bool) && fresh_keys entries.*1 acc.*1 then
                 meets (sum_nodes vs) (depth + max_depth vs) remaining (VObj (insert_all acc (zip entries.*1 vs)))
                   (visit_map (decode depth) acc entries closed remaining)
               else fails (visit_map (decode depth) acc entries closed remaining)
  | None => fails (visit_map (decode depth) acc entries closed remaining)
  end.
Proof.
  intros Hall Hdep. induction Hall as [| [k item] entries Hi Hall IH]; intros acc remaining closed Hr; cbn [mapM visit_map mret option_ret].
  { destruct closed; [| by exists remaining, Malformed]. unfold meets, sum_nodes, max_depth. cbn [foldr zip].
    cbn. rewrite bool_decide_true by lia. unfold st_ret. by rewrite Z.sub_0_r. }
  cbn [snd] in *. destruct (bt_contains k acc) eqn:Ek.
  { apply bt_contains_true in Ek.
    assert (fresh_keys ((k, item) :: entries).*1 acc.*1 = false) as Hf.
    { apply not_true_iff_false. rewrite fresh_keys_spec. intros [_ Hn]. by apply (Hn k (list_elem_of_here _ _)). }
    rewrite Hf, andb_false_r. destruct (_ ≫= _); by exists remaining, Malformed. }
  assert (bt_get k acc = None) as Hget. { apply bt_get_None. intros Hin. apply bt_contains_true in Hin. congruence. }
  destruct (denotes item) as [v |] eqn:Ev; cbn [mbind option_bind]; [| by apply fails_bind].
  rewrite fmap_cons. cbn [fst]. rewrite (fresh_keys_cons k entries.*1 v acc Hget).
  destruct (mapM _ entries) as [vs |] eqn:Evs; cbn [mbind option_bind mret option_ret].
  - pose proof (sum_nodes_nonneg vs). pose proof (max_depth_nonneg vs). destruct (closed && _) eqn:Ec.
    + apply meets_bind; try done. intros Hle. specialize (IH (bt_insert k v acc) (remaining - json_nodes v) closed ltac:(lia)).
      rewrite Ec in IH. exact IH.
    + eapply bind_fails; try done. intros r H1. specialize (IH (bt_insert k v acc) r closed H1). by rewrite Ec in IH.
  - eapply bind_fails; try done. intros r H0. exact (IH (bt_insert k v acc) r closed H0).
Qed.

(** Inserting fresh keys keeps the node count and the depth. *)
Lemma nodes_obj (m : list (string * value)) : json_nodes (VObj m) = 1 + sum_nodes m.*2.
Proof. cbn [json_nodes]. f_equal. unfold sum_nodes. induction m as [| p m IH]; [done |]. cbn. by rewrite IH. Qed.
Lemma depth_obj (m : list (string * value)) : container_depth (VObj m) = 1 + max_depth m.*2.
Proof. cbn [container_depth]. f_equal. unfold max_depth. induction m as [| p m IH]; [done |]. cbn. by rewrite IH. Qed.

Lemma sum_nodes_perm l k : l ≡ₚ k -> sum_nodes l = sum_nodes k.
Proof. unfold sum_nodes. induction 1; cbn; lia. Qed.
Lemma max_depth_perm l k : l ≡ₚ k -> max_depth l = max_depth k.
Proof. unfold max_depth. induction 1; cbn; lia. Qed.

Lemma mapM_length {A B} (f : A -> option B) l k : mapM f l = Some k -> length k = length l.
Proof. intros Hm%mapM_Some. by apply Forall2_length in Hm. Qed.

(** Opening a container charges a node and checks the depth. *)
Definition opened (depth : Z) (body : ST Z DecodeError value) : ST Z DecodeError value :=
  st_bind charge (fun _ => if depth =? MAX_ACTION_DEPTH then st_err Exhausted else body).

Lemma opened_fails depth body remaining :
  0 <= remaining -> depth <= MAX_ACTION_DEPTH ->
  (depth < MAX_ACTION_DEPTH -> 0 <= remaining - 1 -> fails (body (remaining - 1))) -> fails (opened depth body remaining).
Proof.
  intros Hr Hd Hb. unfold opened, st_bind, charge. destruct (Z.eqb_spec remaining 0); [by eexists _, _ |].
  destruct (Z.eqb_spec depth MAX_ACTION_DEPTH); [by eexists _, _ | apply Hb; lia].
Qed.

Lemma opened_meets depth body remaining nodes d v :
  0 <= remaining -> depth <= MAX_ACTION_DEPTH -> 0 <= nodes -> 0 <= d ->
  (depth < MAX_ACTION_DEPTH -> 0 <= remaining - 1 -> meets nodes (depth + 1 + d) (remaining - 1) v (body (remaining - 1))) ->
  meets (1 + nodes) (depth + (1 + d)) remaining v (opened depth body remaining).
Proof.
  intros Hr Hd Hn Hd0 Hb. unfold opened, st_bind, charge. destruct (Z.eqb_spec remaining 0).
  { unfold meets. rewrite bool_decide_false by lia. by eexists. }
  destruct (Z.eqb_spec depth MAX_ACTION_DEPTH).
  { unfold meets. rewrite bool_decide_false by lia. by eexists. }
  specialize (Hb ltac:(lia) ltac:(lia)). unfold meets in *. case_bool_decide; case_bool_decide; try lia; [rewrite Hb; f_equal; lia | done].
Qed.

(** The visitor computes the denoted value, within its two limits. *)
Lemma decode_spec s : decodes s.
Proof.
  assert (forall remaining depth v, json_nodes v = 1 -> container_depth v = 0 -> 0 <= remaining -> depth <= MAX_ACTION_DEPTH ->
    meets (json_nodes v) (depth + container_depth v) remaining v (st_bind charge (fun _ => st_ret v) remaining)) as Hscalar.
  { intros remaining depth v -> -> Hr Hd. unfold st_bind, charge, meets. case_bool_decide; destruct (Z.eqb_spec remaining 0); try lia; [done | by eexists]. }
  induction s as [| b | n | t | l closed IH | m closed IH |] using syntax_nested_ind; intros depth remaining Hr Hd;
    cbn [denotes]; try by apply Hscalar.
  - change (decode depth (SSeq l closed)) with (opened depth (visit_seq (decode (depth + 1)) [] l closed)).
    destruct (if closed then VArr <$> mapM denotes l else None) as [v |] eqn:Ev.
    + destruct closed; [| done]. destruct (mapM denotes l) as [vs |] eqn:Evs; [| done]. injection Ev as <-.
      change (json_nodes (VArr vs)) with (1 + sum_nodes vs). change (container_depth (VArr vs)) with (1 + max_depth vs).
      apply opened_meets; auto using sum_nodes_nonneg, max_depth_nonneg. intros Hlt Hrem.
      pose proof (visit_seq_spec l (depth + 1) IH ltac:(lia) [] (remaining - 1) true Hrem) as Hs. by rewrite Evs in Hs.
    + apply opened_fails; [done | done |]. intros Hlt Hrem.
      pose proof (visit_seq_spec l (depth + 1) IH ltac:(lia) [] (remaining - 1) closed Hrem) as Hs.
      destruct (mapM denotes l); [| done]. by destruct closed.
  - change (decode depth (SMap m closed)) with (opened depth (visit_map (decode (depth + 1)) [] m closed)).
    assert (all_distinct m.*1 = fresh_keys m.*1 ([] : list (string * value)).*1) as ->.
    { apply eq_true_iff_eq. rewrite fresh_keys_spec, all_distinct_NoDup. split; [intros Hn; split; [done | by intros ? _ ?%elem_of_nil] | by intros []]. }
    pose proof (fun Hlt Hrem => visit_map_spec m (depth + 1) IH Hlt [] (remaining - 1) closed Hrem) as Hs.
    destruct (closed && fresh_keys _ _) eqn:Ec; [destruct (mapM (fun p : string * syntax => denotes p.2) m) as [vs |] eqn:Evs |].
    + pose proof (mapM_length _ _ _ Evs) as Hlen. apply andb_prop in Ec as [_ [Hnd _]%fresh_keys_spec].
      assert ((bt_of_list (zip m.*1 vs)).*2 ≡ₚ vs) as Hvs.
      { rewrite bt_of_list_perm; [by rewrite snd_zip by (rewrite length_fmap; lia) |]. by rewrite fst_zip by (rewrite length_fmap; lia). }
      cbn [fmap option_fmap option_map]. rewrite nodes_obj, depth_obj, (sum_nodes_perm _ _ Hvs), (max_depth_perm _ _ Hvs).
      apply opened_meets; auto using sum_nodes_nonneg, max_depth_nonneg. intros Hlt Hrem. apply Hs; lia.
    + apply opened_fails; [done | done |]. intros Hlt Hrem. apply Hs; lia.
    + apply opened_fails; [done | done |]. intros Hlt Hrem. specialize (Hs ltac:(lia) Hrem). by destruct (mapM (fun p : string * syntax => denotes p.2) m).
  - cbn [decode]. unfold st_bind, charge. destruct (remaining =? 0); by eexists _, _.
Qed.

(** C16: Decoding an action response is exact: nonblank bytes within the
    configured limit decode to a value exactly when they are one complete JSON
    text without repeated object keys whose value has at most 65536 nodes and
    container depth 32, and they decode to that value; a text that is complete
    and has unique keys but is larger fails with the output limit, and any
    other text fails with one of the two errors. *)
Theorem parse_action_response_spec (scan : list Z -> syntax * bool) bytes limit :
  0 < limit -> zlen bytes <= Z.min limit MAX_ACTION_BYTES -> json_blank bytes = false ->
  match (if snd (scan bytes) then denotes (fst (scan bytes)) else None) with
  | Some v =>
      if bool_decide (json_nodes v <= MAX_ACTION_NODES /\ container_depth v <= MAX_ACTION_DEPTH)
      then parse_action_response scan bytes limit = Ok v
      else parse_action_response scan bytes limit = Err CodecOutputLimit
  | None => parse_action_response scan bytes limit = Err InvalidResponse
            \/ parse_action_response scan bytes limit = Err CodecOutputLimit
  end.
Proof.
  intros Hl Hb Hblank. unfold parse_action_response. rewrite (proj2 (Z.eqb_neq limit 0)) by lia.
  rewrite (proj2 (Z.ltb_ge _ _)) by done. cbn [orb]. rewrite Hblank. destruct (scan bytes) as [s at_end]. cbn [fst snd].
  pose proof (decode_spec s 0 MAX_ACTION_NODES ltac:(done) ltac:(done)) as Hs. destruct (denotes s) as [v |].
  - unfold meets in Hs. rewrite Z.add_0_l in Hs. destruct at_end; case_bool_decide as Hfit.
    + by rewrite Hs.
    + destruct Hs as [r ->]. done.
    + rewrite Hs. by left.
    + destruct Hs as [r ->]. by right.
  - destruct Hs as (r & [] & ->); destruct at_end; cbn; auto.
Qed.

Lemma parse_action_response_spec_witness :
  let scan := fun _ : list Z => (SMap [("uptime"%string, SNum (PosInt 5)); ("load"%string, SSeq [SBool true] true)] true, true) in
  parse_action_response scan (str_bytes "{...}") 1024
    = Ok (VObj [("load"%string, VArr [VBool true]); ("uptime"%string, VNum (PosInt 5))]).
Proof.
  cbv zeta. pose proof (parse_action_response_spec
    (fun _ => (SMap [("uptime"%string, SNum (PosInt 5)); ("load"%string, SSeq [SBool true] true)] true, true)) (str_bytes "{...}") 1024
    ltac:(lia) ltac:(vm_compute; done) ltac:(vm_compute; reflexivity)) as Hspec.
  vm_compute in Hspec |- *. exact Hspec.
Defined.
