(* ===== verification/Device.v ===== *)
(** * Observations of the device

    [crates/device-codec/src/describe.rs], [packages.rs] and
    [packages/opkg.rs]: what is read from ubus object descriptions and from the
    two package managers. *)
From stdpp Require Import gmap.
From S2P Require Import Prelude Order Text Json Core Packages Operation Codec Response.
Open Scope Z_scope.

Definition MAX_PROBE_BYTES : Z := 65536.

(** ** ubus object descriptions *)
Definition type_label (label : string) : UbusArgumentType :=
  if String.eqb label "String" then UString
  else if String.eqb label "Integer" then UInteger
  else if String.eqb label "Boolean" then UBoolean
  else if String.eqb label "Array" then UArray
  else if String.eqb label "Table" then UTable
  else UUnknown.

(** [ArgumentsVisitor::visit_map] *)
Fixpoint read_arguments (arguments : list (string * UbusArgumentType)) (entries : list (string * syntax)) (closed : bool) :
    option (list (string * UbusArgumentType)) :=
  match entries with
  | [] => if closed then Some arguments else None
  | (name, value) :: entries =>
      if (zlen arguments =? 64) || negb (codec_identifier name 64) || bt_contains name arguments then None
      else match value with
           | SStr label =>
               if is_empty label || (64 <? slen label) || has_control label then None
               else read_arguments (bt_insert name (type_label label) arguments) entries closed
           | _ => None
           end
  end.

(** [MethodVisitor::visit_map] *)
Definition read_method (s : syntax) : option (string * MethodSignature) :=
  match s with
  | SMap ((name, arguments) :: entries) closed =>
      if negb (codec_identifier name 128) then None
      else match arguments with
           | SMap args args_closed =>
               arguments ← read_arguments [] args args_closed;
               match entries with
               | [] => if closed then Some (name, {| sig_arguments := arguments |}) else None
               | _ :: _ => None
               end
           | _ => None
           end
  | _ => None
  end.

Section describe.
Context (scan : list Z -> syntax * bool).

(** [serde_json::from_str(&format!("{{{fragment}}}"))] *)
Definition method_fragment (fragment : string) : option (string * MethodSignature) :=
  let '(parsed, at_end) := scan (str_bytes ("{" +:+ fragment +:+ "}")) in
  m ← read_method parsed; if at_end then Some m else None.

Fixpoint read_lines (methods : list (string * MethodSignature)) (l : list string) :
    result CodecError (list (string * MethodSignature)) :=
  match l with
  | [] => Ok methods
  | line :: l =>
      fail_if zlen methods =? 128 with InvalidObservation in
      let? fragment := ok_or (strip_prefix (String "009" EmptyString) line) InvalidObservation in
      let? m := ok_or (method_fragment fragment) InvalidObservation in
      fail_if bt_contains (fst m) methods with InvalidObservation in
      read_lines (bt_insert (fst m) (snd m) methods) l
  end.

Definition parse_ubus_describe (object : ReviewedObject) (bytes : list Z) (maximum : Z) :
    result CodecError CapabilityObservation :=
  fail_if (maximum =? 0) || (Z.min maximum MAX_PROBE_BYTES <? zlen bytes) with CodecOutputLimit in
  match last bytes with
  | None => Ok (ObservedUnknown NotObservedOrHidden)
  | Some b =>
      fail_if negb (b =? 10) with InvalidObservation in
      let? text := ok_or (from_utf8 bytes) InvalidObservation in
      match lines text with
      | [] => Err InvalidObservation
      | header :: ls =>
          let? id := ok_or (strip_prefix ("'" +:+ as_name object +:+ "' @") header) InvalidObservation in
          fail_if negb (slen id =? 8) || negb (all_bytes is_ascii_hexdigit id) with InvalidObservation in
          let? methods := read_lines [] ls in
          let observation := {| ob_object := object; ob_methods := methods |} in
          let? _ := map_err (fun _ => InvalidObservation) (observation_validate observation) in
          Ok (ObservedUbus observation)
      end
  end.
End describe.

(** ** apk *)
Definition validate_apk_version (bytes : list Z) : result CodecError unit :=
  fail_if MAX_APK_VERSION_BYTES <? zlen bytes with CodecOutputLimit in
  let? banner := ok_or (from_utf8 bytes) InvalidObservation in
  let? rest := ok_or (strip_prefix "apk-tools 3.0.5, compiled for " banner) InvalidObservation in
  let? dotted := ok_or (strip_suffix_char "010" rest) InvalidObservation in
  let? arch := ok_or (strip_suffix_char "." dotted) InvalidObservation in
  fail_if is_empty arch || (64 <? slen arch) || negb (all_bytes (fun b => is_ascii_alphanumeric b || byte_in "_-" b) arch)
    with InvalidObservation in
  Ok tt.

(** The derived decoder of [PackageRecord]: an object without unknown fields,
    or an array of the fields in order; [layer] is a [u8] with default 0. *)
Definition layer_value (v : value) : option Z :=
  match v with
  | VNum (PosInt n) => if n <=? 255 then Some n else None
  | _ => None
  end.
Definition apk_row (v : value) : option PackageRecord :=
  match v with
  | VObj m =>
      if forallb (fun k => existsb (String.eqb k) ["name"; "version"; "arch"; "layer"]) m.*1 then
        name ← bt_get "name" m ≫= as_str;
        version ← bt_get "version" m ≫= as_str;
        arch ← bt_get "arch" m ≫= as_str;
        layer ← match bt_get "layer" m with Some v => layer_value v | None => Some 0 end;
        Some {| pr_name := name; pr_version := version; pr_arch := arch; pr_layer := layer |}
      else None
  | VArr [VStr name; VStr version; VStr arch] =>
      Some {| pr_name := name; pr_version := version; pr_arch := arch; pr_layer := 0 |}
  | VArr [VStr name; VStr version; VStr arch; layer] =>
      layer ← layer_value layer; Some {| pr_name := name; pr_version := version; pr_arch := arch; pr_layer := layer |}
  | _ => None
  end.

Definition package_error (e : CoreError) : CodecError :=
  match e with OutputLimit => CodecOutputLimit | _ => InvalidResponse end.

Definition parse_apk_installed (scan : list Z -> syntax * bool) (bytes : list Z) (maximum : Z) :
    result CodecError PackageObservation :=
  let? value := parse_action_response scan bytes (Z.min maximum MAX_PACKAGE_SOURCE_BYTES) in
  let? rows := ok_or (as_array value) InvalidResponse in
  fail_if MAX_PACKAGE_RECORDS <? zlen rows with CodecOutputLimit in
  let? records := ok_or (mapM apk_row rows) InvalidResponse in
  map_err package_error (new_apk records).

(** ** opkg *)
Definition MAX_OPKG_VERSION_BYTES : Z := 256.
Definition MAX_LINE_BYTES : Z := 8192.
Definition MAX_FIELDS : Z := 64.
Definition MAX_FIELD_NAME_BYTES : Z := 64.

Definition opkg_banner : string :=
  "opkg version 38eccbb1fd694d4798ac1baf88f9ba83d1eac616 (2024-10-16)" +:+ String "010" EmptyString.
Definition validate_opkg_version (bytes : list Z) : result CodecError unit :=
  fail_if MAX_OPKG_VERSION_BYTES <? zlen bytes with CodecOutputLimit in
  fail_if negb (bool_decide (bytes = str_bytes opkg_banner)) with InvalidObservation in
  Ok tt.

(** The four reported fields in the order of the [selected] array. *)
Record Selected : Type := {
  sel_package : option string; sel_version : option string; sel_architecture : option string; sel_status : option string
}.
Definition selected_none : Selected := {| sel_package := None; sel_version := None; sel_architecture := None; sel_status := None |}.

(** [position] and the bound of the field at that position. *)
Definition select (name value : string) (s : Selected) : option (Z * Selected) :=
  if String.eqb name "package" then
    Some (256, {| sel_package := Some value; sel_version := sel_version s; sel_architecture := sel_architecture s; sel_status := sel_status s |})
  else if String.eqb name "version" then
    Some (256, {| sel_package := sel_package s; sel_version := Some value; sel_architecture := sel_architecture s; sel_status := sel_status s |})
  else if String.eqb name "architecture" then
    Some (64, {| sel_package := sel_package s; sel_version := sel_version s; sel_architecture := Some value; sel_status := sel_status s |})
  else if String.eqb name "status" then
    Some (MAX_OPKG_STATUS_BYTES, {| sel_package := sel_package s; sel_version := sel_version s; sel_architecture := sel_architecture s; sel_status := Some value |})
  else None.

(** The loop's variables. *)
Record Stanza : Type := {
  rows : list OpkgStatusRecord; fields : list string; selected : Selected; previous_selected : bool
}.
Definition stanza_start : Stanza := {| rows := []; fields := []; selected := selected_none; previous_selected := false |}.

(** The blank line that ends a stanza. *)
Definition finish_stanza (s : Stanza) : result CodecError Stanza :=
  match fields s with
  | [] => Ok s
  | _ :: _ =>
      fail_if MAX_PACKAGE_RECORDS <=? zlen (rows s) with CodecOutputLimit in
      match selected s with
      | {| sel_package := Some name; sel_version := Some version; sel_architecture := Some arch; sel_status := Some status |} =>
          Ok {| rows := rows s ++ [{| os_name := name; os_version := version; os_arch := arch; os_status := status |}];
                fields := []; selected := selected_none; previous_selected := false |}
      | _ => Err InvalidResponse
      end
  end.

Definition field_line (s : Stanza) (line : string) : result CodecError Stanza :=
  let? p := ok_or (split_once ":" line) InvalidResponse in
  let '(name, raw) := p in
  fail_if is_empty name || (MAX_FIELD_NAME_BYTES <? slen name) || negb (first_byte is_ascii_alphabetic name)
       || negb (all_bytes (fun b => is_ascii_alphanumeric b || (b =? 45)) name) with InvalidResponse in
  fail_if MAX_FIELDS <=? zlen (fields s) with CodecOutputLimit in
  let name := to_ascii_lowercase name in
  let? value := match raw with EmptyString => Ok raw | _ => ok_or (strip_prefix " " raw) InvalidResponse end in
  let? next :=
    match select name value (selected s) with
    | Some (bound, selected) =>
        fail_if is_empty value || (bound <? slen value) || has_control value with InvalidResponse in Ok (selected, true)
    | None => Ok (selected s, false)
    end in
  fail_if bool_decide (name ∈ fields s) with InvalidResponse in
  Ok {| rows := rows s; fields := name :: fields s; selected := fst next; previous_selected := snd next |}.

Definition status_line (s : Stanza) (line : string) : result CodecError Stanza :=
  fail_if MAX_LINE_BYTES <? slen line with CodecOutputLimit in
  if is_empty line then finish_stanza s
  else if starts_with " " line || starts_with (String "009" EmptyString) line then
    fail_if bool_decide (fields s = []) || previous_selected s with InvalidResponse in Ok s
  else field_line s line.

Fixpoint status_lines (s : Stanza) (l : list string) : result CodecError Stanza :=
  match l with
  | [] => Ok s
  | line :: l => let? s := status_line s line in status_lines s l
  end.

(** Controls other than newline and tab. *)
Definition drop_layout (l : list Z) : list Z := filter (fun b => b <> 10 /\ b <> 9) l.

Definition parse_opkg_status (bytes : list Z) (maximum : Z) : result CodecError PackageObservation :=
  fail_if Z.min maximum MAX_PACKAGE_SOURCE_BYTES <? zlen bytes with CodecOutputLimit in
  let? text := ok_or (from_utf8 bytes) InvalidResponse in
  fail_if (negb (is_empty text) && negb (ends_with (String "010" (String "010" EmptyString)) text))
       || control_bytes (drop_layout bytes) with InvalidResponse in
  let? s := status_lines stanza_start (split_terminator "010" text) in
  map_err package_error (new_opkg_status (rows s)).

(** * What device observations mean

    A decoded object description holds exactly the methods its lines list, and
    its defensive validation never fails; the opkg status parser inverts the
    format it reads. *)

(** ** Object descriptions *)
Lemma read_arguments_ok acc entries closed out :
  read_arguments acc entries closed = Some out ->
  zlen acc <= 64 -> Forall (fun a : string * UbusArgumentType => codec_identifier a.1 64 = true) acc ->
  zlen out <= 64 /\ Forall (fun a : string * UbusArgumentType => codec_identifier a.1 64 = true) out.
Proof.
  revert acc. induction entries as [| [name v] entries IH]; intros acc Hr Hl Hall; cbn [read_arguments] in Hr.
  { destruct closed; [by injection Hr as <- | done]. }
  destruct (_ || _) eqn:Eg; [done |]. bool_prop. destruct v as [| | | label | | |]; try done. destruct (_ || _) eqn:Eg2; [done |].
  assert (bt_get name acc = None) as Hn.
  { apply bt_get_None. intros Hin. apply bt_contains_true in Hin. congruence. }
  assert (bt_insert name (type_label label) acc ≡ₚ (name, type_label label) :: acc) as Hp by by apply bt_insert_perm_new.
  apply IH in Hr; [done | |].
  - rewrite (bt_insert_length_new _ _ _ Hn). lia.
  - rewrite Hp. by constructor.
Qed.

Definition signature_ok (m : string * MethodSignature) : Prop :=
  codec_identifier m.1 128 = true /\ zlen (sig_arguments m.2) <= 64
  /\ Forall (fun a : string * UbusArgumentType => codec_identifier a.1 64 = true) (sig_arguments m.2).

Lemma read_method_ok s m : read_method s = Some m -> signature_ok m.
Proof.
  destruct s as [| | | | | entries closed |]; try done. destruct entries as [| [name v] entries]; [done |]. cbn [read_method].
  destruct (negb _) eqn:En; [done |]. apply negb_false_iff in En. destruct v as [| | | | | args ac |]; try done.
  destruct (read_arguments [] args ac) as [arguments |] eqn:Ea; [| done]. cbn [mbind option_bind].
  apply read_arguments_ok in Ea as [Hl Ha]; [| done | constructor]. destruct entries, closed; try done. by intros [= <-].
Qed.

Lemma codec_identifier_ubus v n : n <= 128 -> codec_identifier v n = true -> ubus_identifier v = true /\ slen v <= n.
Proof.
  intros Hn. unfold codec_identifier, ubus_identifier. intros Hc. bool_prop. split; [| done].
  rewrite !andb_true_iff. repeat split; try done; try (apply Z.leb_le; lia). by apply negb_true_iff.
Qed.

(** The lines that list methods. *)
Definition lists_method (scan : list Z -> syntax * bool) (line : string) (m : string * MethodSignature) : Prop :=
  exists fragment, line = String "009" fragment /\ method_fragment scan fragment = Some m.

Section read_lines.
Context (scan : list Z -> syntax * bool).

Lemma method_fragment_ok f m : method_fragment scan f = Some m -> signature_ok m.
Proof.
  unfold method_fragment. destruct (scan _) as [s e]. destruct (read_method s) as [m' |] eqn:Em; [| done]. cbn.
  destruct e; [| done]. intros [= <-]. by eapply read_method_ok.
Qed.

Definition insert_methods (acc ms : list (string * MethodSignature)) : list (string * MethodSignature) :=
  foldl (fun m p => bt_insert p.1 p.2 m) acc ms.

Lemma read_lines_spec ls acc out :
  zlen acc <= 128 ->
  read_lines scan acc ls = Ok out <->
  exists ms, Forall2 (lists_method scan) ls ms /\ NoDup ms.*1 /\ (forall k, k ∈ ms.*1 -> k ∉ acc.*1)
    /\ zlen acc + zlen ms <= 128 /\ out = insert_methods acc ms.
Proof.
  revert acc. induction ls as [| line ls IH]; intros acc Hacc; cbn [read_lines].
  { split.
    - intros [= <-]. exists []. split; [constructor |]. split; [constructor |]. split; [by intros ? ?%elem_of_nil |]. simpl. split; [lia | done].
    - intros (ms & Hf & _ & _ & _ & ->). inversion Hf. done. }
  assert (forall k (v : MethodSignature), bt_get k acc = None -> zlen (bt_insert k v acc) = zlen acc + 1) as Hlen.
  { intros k v Hk. rewrite (bt_insert_length_new _ _ _ Hk). lia. }
  assert (forall k (v : MethodSignature), bt_get k acc = None -> (bt_insert k v acc).*1 ≡ₚ k :: acc.*1) as Hkeys.
  { intros k v Hk. by rewrite (bt_insert_perm_new _ _ _ Hk). }
  split.
  - intros Hr. apply fail_if_ok in Hr as [Hfull Hr]. apply rbind_ok in Hr as (f & Hf & Hr). apply ok_or_ok, strip_prefix_spec in Hf as ->.
    apply rbind_ok in Hr as ([k v] & Hm & Hr). apply ok_or_ok in Hm. apply fail_if_ok in Hr as [Hdup Hr]. bool_prop. cbn [fst snd] in *.
    assert (bt_get k acc = None) as Hk. { apply bt_get_None. intros Hin. apply bt_contains_true in Hin. congruence. }
    apply IH in Hr as (ms & Hms & Hd & Hfr & Hl & ->); [| rewrite Hlen by done; lia]. rewrite Hlen in Hl by done.
    exists ((k, v) :: ms). split; [constructor; [by exists f | done] |]. setoid_rewrite (Hkeys k v Hk) in Hfr. setoid_rewrite elem_of_cons in Hfr.
    apply bt_get_None in Hk. rewrite fmap_cons, NoDup_cons. setoid_rewrite elem_of_cons. cbn [fst length].
    split; [naive_solver |]. split; [naive_solver |]. split; [lia | done].
  - intros (ms & Hf & Hd & Hfr & Hl & ->). inversion Hf as [| ? [k v] ? ms' (f & -> & Hm) Hms]; subst. clear Hf.
    rewrite fmap_cons in Hd, Hfr. cbn [fst length] in *. apply NoDup_cons in Hd as [Hk Hd].
    assert (bt_get k acc = None) as Hkn by (apply bt_get_None, Hfr; left).
    rewrite (proj2 (Z.eqb_neq _ _)) by lia.
    assert (strip_prefix (String "009" EmptyString) (String "009" f) = Some f) as -> by done. cbn [ok_or rbind].
    rewrite Hm. cbn [ok_or rbind fst snd]. destruct (bt_contains k acc) eqn:Ec; [by apply bt_contains_true, bt_get_None in Ec |].
    apply IH; [rewrite Hlen by done; lia |]. exists ms'. setoid_rewrite (Hkeys k v Hkn). setoid_rewrite elem_of_cons. rewrite Hlen by done.
    split; [done |]. split; [done |]. split; [| split; [lia | done]].
    intros k' Hk' [-> | Hin]; [done |]. apply (Hfr k'); [by right | done].
Qed.

Lemma listed_valid object ls ms :
  Forall2 (lists_method scan) ls ms -> NoDup ms.*1 -> zlen ms <= 128 ->
  observation_validate {| ob_object := object; ob_methods := bt_of_list ms |} = Ok tt.
Proof.
  intros Hf Hd Hl. pose proof (bt_of_list_perm ms Hd) as Hp.
  assert (Forall signature_ok ms) as Hok.
  { clear Hp Hd Hl. induction Hf as [| l m ls ms (f & _ & Hm) Hf IH]; constructor; [by eapply method_fragment_ok | done]. }
  unfold observation_validate. cbn [ob_methods].
  replace (length (bt_of_list ms)) with (length ms) by by rewrite Hp.
  unfold MAX_OBSERVED_METHODS. rewrite (proj2 (Z.ltb_ge 128 _)) by done.
  rewrite (proj2 (existsb_false_Forall _ _)); [done |]. rewrite <- Hp in Hok.
  eapply Forall_impl; [exact Hok |]. intros [name sig] (Hn & Ha & Hargs). cbn [fst snd] in *.
  apply codec_identifier_ubus in Hn as [Hu Hn]; [| done]. unfold MAX_OBSERVED_METHOD_NAME_BYTES, MAX_OBSERVED_ARGUMENTS.
  rewrite Hu, (proj2 (Z.ltb_ge 128 _)), (proj2 (Z.ltb_ge 64 _)) by done. cbn [negb orb]. apply existsb_false_Forall.
  eapply Forall_impl; [exact Hargs |]. intros [a t] Hc. cbn [fst] in *. apply codec_identifier_ubus in Hc as [Hau Han]; [| done].
  unfold MAX_OBSERVED_ARGUMENT_NAME_BYTES. by rewrite Hau, (proj2 (Z.ltb_ge 64 _)).
Qed.
End read_lines.

(** A complete description: the header names the object and its id, and each
    further line lists one method. *)
Definition describes (scan : list Z -> syntax * bool) (object : ReviewedObject) (text : string)
    (ms : list (string * MethodSignature)) : Prop :=
  exists id ls, lines text = ("'" +:+ as_name object +:+ "' @" +:+ id) :: ls
    /\ slen id = 8 /\ all_bytes is_ascii_hexdigit id = true
    /\ Forall2 (lists_method scan) ls ms.

(** Object descriptions decode exactly: the result is an observation of
    the methods of a complete newline-terminated UTF-8 description of the
    requested object, within the byte limit, with at most 128 methods and no
    repeated name. The defensive validation of the result never rejects one. *)
Theorem parse_ubus_describe_spec scan object bytes maximum o :
  parse_ubus_describe scan object bytes maximum = Ok (ObservedUbus o) <->
  zlen bytes <= Z.min maximum MAX_PROBE_BYTES /\ last bytes = Some 10 /\ valid_utf8 bytes = true /\
  exists ms, describes scan object (bytes_str bytes) ms /\ NoDup ms.*1 /\ zlen ms <= 128
    /\ o = {| ob_object := object; ob_methods := bt_of_list ms |}.
Proof.
  unfold parse_ubus_describe, from_utf8, describes. split.
  - intros Hp. apply fail_if_ok in Hp as [Hlen Hp]. bool_prop. destruct (last bytes) as [b |]; [| done].
    apply fail_if_ok in Hp as [Hb Hp]. bool_prop. subst b. apply rbind_ok in Hp as (text & Ht & Hp). apply ok_or_ok in Ht.
    destruct (valid_utf8 bytes); [injection Ht as <- | done]. destruct (lines _) as [| header ls]; [done |].
    apply rbind_ok in Hp as (id & Hid & Hp). apply ok_or_ok, strip_prefix_spec in Hid as ->.
    apply fail_if_ok in Hp as [Hhex Hp]. bool_prop. apply rbind_ok in Hp as (methods & Hm & Hp).
    apply rbind_ok in Hp as (u & _ & [= <-]). apply read_lines_spec in Hm as (ms & Hf & Hd & _ & Hl & ->); [| done].
    split; [done |]. split; [done |]. split; [done |]. exists ms. split; [| split; [done | split; [simpl in Hl; lia | done]]].
    exists id, ls. rewrite !string_app_assoc. done.
  - intros (Hlen & Hb & -> & ms & (id & ls & Hlines & Hid & Hhex & Hf) & Hd & Hl & ->). rewrite Hb. cbn [ok_or rbind]. rewrite Hlines.
    assert (bytes <> []) as Hne by by intros ->. assert (0 < zlen bytes) by (destruct bytes; [done | simpl; lia]).
    rewrite (proj2 (Z.eqb_neq maximum 0)), (proj2 (Z.ltb_ge _ _)) by (unfold MAX_PROBE_BYTES in *; lia). cbn [orb negb Z.eqb Pos.eqb ok_or rbind].
    rewrite (proj2 (strip_prefix_spec ("'" +:+ as_name object +:+ "' @") _ id)) by by rewrite !string_app_assoc.
    cbn [ok_or rbind]. rewrite Hid, Hhex. cbn [negb orb Z.eqb Pos.eqb].
    rewrite (proj2 (read_lines_spec scan ls [] (bt_of_list ms) ltac:(done))).
    + cbn [rbind]. by rewrite (listed_valid scan object ls ms Hf Hd Hl).
    + exists ms. split; [done |]. split; [done |]. split; [by intros ? _ ?%elem_of_nil |]. simpl. split; [lia | done].
Qed.

(** ** The opkg status file *)
Definition NL : string := String "010" EmptyString.

(** The stanza of a record as opkg prints it, here with the reported fields. *)
Definition stanza_lines (r : OpkgStatusRecord) : list string :=
  ["Package: " +:+ os_name r; "Version: " +:+ os_version r; "Status: " +:+ os_status r;
   "Architecture: " +:+ os_arch r; EmptyString].
Definition status_text (l : list OpkgStatusRecord) : string := terminated "010" (l ≫= stanza_lines).

(** A text the parser keeps: within its bound, without controls. *)
Definition field_valid (bound : Z) (v : string) : Prop := is_empty v = false /\ slen v <= bound /\ has_control v = false.
Definition record_valid (r : OpkgStatusRecord) : Prop :=
  field_valid 256 (os_name r) /\ field_valid 256 (os_version r) /\ field_valid 64 (os_arch r)
  /\ field_valid MAX_OPKG_STATUS_BYTES (os_status r).

Lemma all_bytes_chars (p : Z -> bool) s :
  all_bytes p s = true -> forall a, a ∈ String.list_ascii_of_string s -> p (byte_of a) = true.
Proof.
  unfold all_bytes, str_bytes. intros Ha a Hin. apply forallb_Forall in Ha. rewrite Forall_forall in Ha.
  by apply Ha, list_elem_of_fmap_2.
Qed.

Lemma control_bytes_small l b : control_bytes l = false -> b ∈ l -> 32 <= b.
Proof.
  induction l as [| c l IH]; [by intros _ ?%elem_of_nil |]. cbn [control_bytes]. intros Hc Hin. bool_prop.
  apply elem_of_cons in Hin as [-> | Hin]; [done | by apply IH].
Qed.

Lemma no_newline v a : has_control v = false -> a ∈ String.list_ascii_of_string v -> a <> "010"%char.
Proof.
  intros Hc Hin ->. apply (list_elem_of_fmap_2 byte_of) in Hin. fold (str_bytes v) in Hin.
  by apply (control_bytes_small _ _ Hc) in Hin.
Qed.

Lemma chars_app s t : String.list_ascii_of_string (s +:+ t) = String.list_ascii_of_string s ++ String.list_ascii_of_string t.
Proof. induction s as [| a s IH]; [done |]. rewrite string_app_cons. cbn [String.list_ascii_of_string app]. by rewrite IH. Qed.

Lemma stanza_newlines r : record_valid r ->
  Forall (fun l => forall a, a ∈ String.list_ascii_of_string l -> a <> "010"%char) (stanza_lines r).
Proof.
  intros ((_ & _ & H1) & (_ & _ & H2) & (_ & _ & H3) & (_ & _ & H4)).
  assert (forall k v a, has_control k = false -> has_control v = false ->
    a ∈ String.list_ascii_of_string (k +:+ v) -> a <> "010"%char) as Haux.
  { intros k v a Hk Hv. rewrite chars_app, elem_of_app. intros [Hin | Hin]; [exact (no_newline _ _ Hk Hin) | exact (no_newline _ _ Hv Hin)]. }
  unfold stanza_lines. do 4 (constructor; [intros a; by apply Haux |]).
  constructor; [intros a Ha; cbn in Ha; by apply elem_of_nil in Ha | constructor].
Qed.

(** One reported field is read back. *)
Lemma field_line_read s key value bound sel :
  split_once ":" (key +:+ ": " +:+ value) = Some (key, String " " value) ->
  is_empty key = false -> slen key <= 64 -> first_byte is_ascii_alphabetic key = true ->
  all_bytes (fun b => is_ascii_alphanumeric b || (b =? 45)) key = true ->
  zlen (fields s) < MAX_FIELDS -> to_ascii_lowercase key ∉ fields s ->
  select (to_ascii_lowercase key) value (selected s) = Some (bound, sel) -> field_valid bound value ->
  field_line s (key +:+ ": " +:+ value)
    = Ok {| rows := rows s; fields := to_ascii_lowercase key :: fields s; selected := sel; previous_selected := true |}.
Proof.
  intros Hsp Hne Hlen Hfb Hall Hf Hfresh Hsel (Hv1 & Hv2 & Hv3). unfold field_line. rewrite Hsp. cbn [ok_or rbind].
  rewrite Hne, Hfb, Hall. unfold MAX_FIELD_NAME_BYTES. rewrite (proj2 (Z.ltb_ge 64 _)), (proj2 (Z.leb_gt MAX_FIELDS _)) by done.
  cbn [orb negb]. assert (strip_prefix " " (String " " value) = Some value) as -> by done. cbn [ok_or rbind].
  rewrite Hsel, Hv1, Hv3, (proj2 (Z.ltb_ge bound _)) by done. cbn [orb rbind fst snd]. by rewrite bool_decide_false.
Qed.

Lemma status_line_field s key value :
  slen (key +:+ ": " +:+ value) <= MAX_LINE_BYTES -> first_byte is_ascii_alphabetic key = true ->
  status_line s (key +:+ ": " +:+ value) = field_line s (key +:+ ": " +:+ value).
Proof.
  intros Hl Hk. unfold status_line. rewrite (proj2 (Z.ltb_ge _ _)) by done. destruct key as [| a key]; [done |].
  rewrite string_app_cons. cbn [is_empty]. unfold first_byte in Hk. cbn in Hk.
  assert (forall c : ascii, byte_of c < 65 -> starts_with (String c EmptyString) (String a (key +:+ ": " +:+ value)) = false) as Hs.
  { intros c Hc. unfold starts_with. cbn [strip_prefix]. destruct (Ascii.eqb_spec c a) as [-> |]; [| done]. exfalso.
    unfold is_ascii_alphabetic, is_ascii_upper, is_ascii_lower, in_range in Hk.
    apply orb_true_iff in Hk as [Hk | Hk]; bool_prop; lia. }
  rewrite !Hs by done. done.
Qed.

(** One whole stanza. *)
Lemma stanza_read s r rest :
  record_valid r -> fields s = [] -> selected s = selected_none -> zlen (rows s) < MAX_PACKAGE_RECORDS ->
  status_lines s (stanza_lines r ++ rest)
  = status_lines {| rows := rows s ++ [r]; fields := []; selected := selected_none; previous_selected := false |} rest.
Proof.
  intros Hr Hf Hs Hn. pose proof Hr as (H1 & H2 & H3 & H4). destruct s as [rw fs sel ps]. cbn [fields selected rows] in *. subst.
  assert (forall k v b, field_valid b v -> b <= 256 -> slen k <= 64 -> slen (k +:+ ": " +:+ v) <= MAX_LINE_BYTES) as Hline.
  { intros k v b (_ & Hb & _) Hb2 Hk. rewrite !slen_app. change (slen ": ") with 2. unfold MAX_LINE_BYTES. lia. }
  unfold stanza_lines. cbn [app status_lines].
  change ("Package: " +:+ os_name r) with ("Package" +:+ ": " +:+ os_name r).
  change ("Version: " +:+ os_version r) with ("Version" +:+ ": " +:+ os_version r).
  change ("Status: " +:+ os_status r) with ("Status" +:+ ": " +:+ os_status r).
  change ("Architecture: " +:+ os_arch r) with ("Architecture" +:+ ": " +:+ os_arch r).
  rewrite status_line_field by (done || by eapply Hline).
  erewrite (field_line_read _ "Package") by (done || exact H1 || apply not_elem_of_nil || reflexivity). cbn [rbind].
  rewrite status_line_field by (done || by eapply Hline).
  erewrite (field_line_read _ "Version") by (done || exact H2 || (cbn; set_solver) || reflexivity). cbn [rbind].
  rewrite status_line_field by (done || by eapply Hline).
  erewrite (field_line_read _ "Status") by (done || exact H4 || (cbn; set_solver) || reflexivity). cbn [rbind].
  rewrite status_line_field by (done || by eapply Hline).
  erewrite (field_line_read _ "Architecture") by (done || exact H3 || (cbn; set_solver) || reflexivity). cbn [rbind].
  unfold status_line at 1. cbn [is_empty]. change (MAX_LINE_BYTES <? slen EmptyString) with false. cbv iota.
  unfold finish_stanza. cbn [fields rows selected sel_package sel_version sel_status sel_architecture].
  rewrite (proj2 (Z.leb_gt _ _)) by done. destruct r. reflexivity.
Qed.

Lemma stanzas_read l s :
  Forall record_valid l -> fields s = [] -> selected s = selected_none -> previous_selected s = false ->
  zlen (rows s) + zlen l <= MAX_PACKAGE_RECORDS ->
  status_lines s (l ≫= stanza_lines)
  = Ok {| rows := rows s ++ l; fields := []; selected := selected_none; previous_selected := false |}.
Proof.
  intros Hall. revert s. induction Hall as [| r l Hr Hall IH]; intros s Hf Hs Hp Hn.
  - rewrite app_nil_r. destruct s. cbn in *. by subst.
  - rewrite bind_cons, (stanza_read s r (l ≫= stanza_lines)) by (done || (simpl in Hn; lia)).
    rewrite IH; [| done | done | done |]; cbn [rows]; [by rewrite <- app_assoc | rewrite length_app; simpl in *; lia].
Qed.

(** *** Layout and controls *)
Definition starts_ascii (l : list Z) : Prop := match l with [] => True | c :: _ => in_range 128 159 c = false end.

Lemma control_bytes_app a b :
  last a <> Some 194 \/ starts_ascii b -> control_bytes (a ++ b) = control_bytes a || control_bytes b.
Proof.
  intros Hab. induction a as [| x a IH]; [done |]. rewrite <- app_comm_cons. cbn [control_bytes].
  rewrite IH by (destruct Hab as [Hl | Hb]; [left; by destruct a | by right]).
  destruct a as [| y a]; [| by rewrite !orb_assoc]. cbn [app]. destruct b as [| c b]; [by rewrite !orb_false_r |].
  assert ((x =? 194) && in_range 128 159 c = false) as ->.
  { destruct Hab as [Hl | Hb]; [| cbn in Hb; by rewrite Hb, andb_false_r]. destruct (Z.eqb_spec x 194) as [-> |]; [done | done]. }
  by rewrite !orb_false_r, andb_false_r, orb_false_r.
Qed.

Lemma drop_layout_text l : control_bytes l = false -> drop_layout l = l.
Proof.
  intros Hc. assert (Forall (fun b => 32 <= b) l) as Hall.
  { apply Forall_forall. intros b Hb. by apply (control_bytes_small l b Hc). }
  unfold drop_layout. clear Hc. induction Hall as [| b l Hb Hall IH]; [done |]. rewrite filter_cons, decide_True by lia. by rewrite IH.
Qed.

Lemma line_controls key value rest :
  has_control key = false -> starts_ascii (str_bytes key) -> str_bytes key <> [] -> last (str_bytes key) <> Some 194 ->
  has_control value = false -> starts_ascii (drop_layout rest) -> control_bytes (drop_layout rest) = false ->
  starts_ascii (drop_layout (str_bytes ((key +:+ value) +:+ NL) ++ rest))
  /\ control_bytes (drop_layout (str_bytes ((key +:+ value) +:+ NL) ++ rest)) = false.
Proof.
  intros Hk Hka Hkn Hkl Hv Hra Hr. rewrite !str_bytes_app. unfold drop_layout. rewrite !filter_app.
  fold (drop_layout (str_bytes key)) (drop_layout (str_bytes value)) (drop_layout rest).
  rewrite (drop_layout_text (str_bytes key)), (drop_layout_text (str_bytes value)) by done.
  change (filter (fun b => b <> 10 /\ b <> 9) (str_bytes NL)) with ([] : list Z). rewrite app_nil_r. split.
  - destruct (str_bytes key); [done | exact Hka].
  - rewrite control_bytes_app by by right. rewrite control_bytes_app by by left. unfold has_control in *. by rewrite Hk, Hv, Hr.
Qed.

Lemma status_text_cons r l :
  status_text (r :: l) =
    ((("Package: " +:+ os_name r) +:+ NL) +:+ (("Version: " +:+ os_version r) +:+ NL)
     +:+ (("Status: " +:+ os_status r) +:+ NL) +:+ (("Architecture: " +:+ os_arch r) +:+ NL) +:+ NL +:+ status_text l).
Proof. unfold status_text. rewrite bind_cons. unfold terminated, stanza_lines. cbn [foldr app]. by rewrite !string_app_assoc. Qed.

Lemma status_controls l : Forall record_valid l ->
  starts_ascii (drop_layout (str_bytes (status_text l))) /\ control_bytes (drop_layout (str_bytes (status_text l))) = false.
Proof.
  induction 1 as [| r l ((_ & _ & H1) & (_ & _ & H2) & (_ & _ & H3) & (_ & _ & H4)) Hl [IHa IHc]]; [done |].
  rewrite status_text_cons, 4!(str_bytes_app (_ +:+ NL)).
  assert (drop_layout (str_bytes (NL +:+ status_text l)) = drop_layout (str_bytes (status_text l))) as Hnl by done.
  rewrite <- Hnl in IHa, IHc.
  pose proof (line_controls "Architecture: " (os_arch r) (str_bytes (NL +:+ status_text l)) eq_refl eq_refl ltac:(done) ltac:(done) H3 IHa IHc) as [Ha Hc].
  pose proof (line_controls "Status: " (os_status r) _ eq_refl eq_refl ltac:(done) ltac:(done) H4 Ha Hc) as [Hsa Hsc].
  pose proof (line_controls "Version: " (os_version r) _ eq_refl eq_refl ltac:(done) ltac:(done) H2 Hsa Hsc) as [Hva Hvc].
  apply (line_controls "Package: " (os_name r) _ eq_refl eq_refl ltac:(done) ltac:(done) H1 Hva Hvc).
Qed.

Lemma ends_with_app s t : ends_with t (s +:+ t) = true.
Proof.
  induction s as [| a s IH].
  - change (EmptyString +:+ t) with t. destruct t; cbn [ends_with]; by rewrite String.eqb_refl.
  - rewrite string_app_cons. cbn [ends_with]. by rewrite IH, orb_true_r.
Qed.

Lemma status_text_end l : l <> [] -> ends_with (NL +:+ NL) (status_text l) = true.
Proof.
  intros Hl. assert (exists s, status_text l = s +:+ (NL +:+ NL)) as [s ->]; [| apply ends_with_app].
  destruct l as [| r l]; [done | clear Hl]. revert r. induction l as [| r' l IH]; intros r; rewrite status_text_cons.
  - change (status_text []) with EmptyString. rewrite string_app_nil_r. eexists. rewrite <- !string_app_assoc. reflexivity.
  - destruct (IH r') as [s ->]. eexists. rewrite <- !string_app_assoc. reflexivity.
Qed.

(** C20: Reading a status file inverts writing it: the stanzas of any valid
    records, in any order, are read back as exactly those records and handed
    to the inventory constructor; nothing is dropped, merged or misread. *)
Theorem parse_opkg_status_roundtrip l maximum :
  Forall record_valid l -> zlen l <= MAX_PACKAGE_RECORDS -> valid_utf8 (str_bytes (status_text l)) = true ->
  slen (status_text l) <= Z.min maximum MAX_PACKAGE_SOURCE_BYTES ->
  parse_opkg_status (str_bytes (status_text l)) maximum = map_err package_error (new_opkg_status l).
Proof.
  intros Hl Hn Hu Hs. unfold parse_opkg_status, from_utf8. rewrite <- slen_bytes, (proj2 (Z.ltb_ge _ _)) by done.
  rewrite Hu. cbn [ok_or rbind]. rewrite bytes_str_bytes. destruct (status_controls l Hl) as [_ ->].
  assert (negb (is_empty (status_text l)) && negb (ends_with (String "010" (String "010" EmptyString)) (status_text l)) = false) as ->.
  { destruct l as [| r l]; [done |]. change (String "010" (String "010" EmptyString)) with (NL +:+ NL). rewrite status_text_end by done. apply andb_false_r. }
  cbn [orb]. unfold status_text at 1. rewrite split_terminator_lines.
  - rewrite stanzas_read; [done | done | done | done | done |]. simpl. lia.
  - apply Forall_bind. eapply Forall_impl; [exact Hl |]. apply stanza_newlines.
Qed.

Lemma parse_opkg_status_roundtrip_witness :
  let l := [{| os_name := "zlib"; os_version := "1.3"; os_arch := "x86_64"; os_status := "install user installed" |};
            {| os_name := "apk"; os_version := "2"; os_arch := "all"; os_status := "install ok installed" |}] in
  parse_opkg_status (str_bytes (status_text l)) 4096 = map_err package_error (new_opkg_status l)
  /\ is_ok (map_err package_error (new_opkg_status l)) = true.
Proof.
  cbv zeta. split; [| reflexivity]. apply parse_opkg_status_roundtrip.
  - repeat constructor; vm_compute; congruence.
  - vm_compute. congruence.
  - reflexivity.
  - vm_compute. congruence.
Defined.
