(* ===== verification/Archive.v ===== *)
(** * The streaming tar validator

    [crates/device-codec/src/archive/]: a supplied byte stream is checked,
    chunk by chunk, against a supplied manifest.  The 512-byte header buffer
    with its fill count is the list of the bytes filled in so far; scrubbing
    it empties the list. *)
From S2P Require Import Prelude Order Text.
Open Scope Z_scope.

Definition MAX_CHUNK_BYTES : Z := 65536.
Definition MAX_ARCHIVE_BYTES : Z := 72 * 1024 * 1024.
Definition MAX_PAYLOAD_BYTES : Z := 64 * 1024 * 1024.
Definition MAX_FILE_BYTES : Z := 8 * 1024 * 1024.
Definition MAX_FILES : Z := 4096.
Definition MAX_PATH_BYTES : Z := 256.
Definition MAX_PATH_COMPONENTS : Z := 32.
Definition MAX_COMPONENT_BYTES : Z := 100.
Definition MAX_TAIL_BYTES : Z := 32768.
Definition BLOCK_BYTES : Z := 512.

Record ArchiveSummary : Type := { sum_files : Z; sum_payload_bytes : Z; sum_archive_bytes : Z }.

Inductive ArchiveError : Type :=
| InvalidPath | InvalidManifest | InvalidHeader | UnsupportedEntry | ManifestMismatch | LimitExceeded
| IncompleteArchive | InvalidPadding.
#[export] Instance ArchiveError_eq_dec : EqDecision ArchiveError.
Proof. solve_decision. Defined.

Definition archive_code (e : ArchiveError) : string :=
  match e with
  | InvalidPath => "invalid_archive_path"
  | InvalidManifest => "invalid_archive_manifest"
  | InvalidHeader => "invalid_archive_header"
  | UnsupportedEntry => "unsupported_archive_entry"
  | ManifestMismatch => "archive_manifest_mismatch"
  | LimitExceeded => "archive_limit_exceeded"
  | IncompleteArchive => "incomplete_archive"
  | InvalidPadding => "invalid_archive_padding"
  end.

(** ** Paths and the manifest *)

(** [path.split(|b| *b == sep)] *)
Fixpoint split_bytes (sep : Z) (l : list Z) : list (list Z) :=
  match l with
  | [] => [[]]
  | b :: l =>
      match split_bytes sep l with
      | part :: parts => if b =? sep then [] :: part :: parts else (b :: part) :: parts
      | [] => []
      end
  end.

Definition path_byte (b : Z) : bool := is_ascii_alphanumeric b || byte_in "_-.+@/" b.

Fixpoint components_valid (count : Z) (components : list (list Z)) : bool :=
  match components with
  | [] => true
  | component :: components =>
      let count := count + 1 in
      negb (bool_decide (component = []) || (MAX_COMPONENT_BYTES <? zlen component)
            || bool_decide (component = str_bytes ".") || bool_decide (component = str_bytes "..")
            || (MAX_PATH_COMPONENTS <? count))
      && components_valid count components
  end.

Definition validate_path (path : list Z) : result ArchiveError unit :=
  fail_if bool_decide (path = []) || (MAX_PATH_BYTES <? zlen path) with InvalidPath in
  fail_if negb (forallb path_byte path) with InvalidPath in
  fail_if negb (components_valid 0 (split_bytes 47 path)) with InvalidPath in
  Ok tt.

Record ExpectedFile : Type := { f_path : list Z; f_size : Z }.

Definition ExpectedFile_new (path : string) (size : Z) : result ArchiveError ExpectedFile :=
  let? _ := validate_path (str_bytes path) in
  fail_if MAX_FILE_BYTES <? size with LimitExceeded in
  Ok {| f_path := str_bytes path; f_size := size |}.

Record ExpectedArchive : Type := { e_files : list ExpectedFile; e_payload_bytes : Z }.

Fixpoint payload_total (total : Z) (files : list ExpectedFile) : result ArchiveError Z :=
  match files with
  | [] => Ok total
  | file :: files =>
      let? total := ok_or (n ← checked_add total (f_size file); if n <=? MAX_PAYLOAD_BYTES then Some n else None) LimitExceeded in
      payload_total total files
  end.

Definition find_path (files : list ExpectedFile) (path : list Z) : option nat :=
  binary_search_by (fun f => cmp (f_path f) path) files.

(** Some separator of the path has a listed file before it. *)
Definition under_file (files : list ExpectedFile) (path : list Z) : bool :=
  existsb (fun i => match path !! i with
                    | Some b => (b =? 47) && bool_decide (is_Some (find_path files (take i path)))
                    | None => false
                    end) (seq 0 (length path)).

Definition ExpectedArchive_new (files : list ExpectedFile) : result ArchiveError ExpectedArchive :=
  fail_if bool_decide (files = []) with InvalidManifest in
  fail_if MAX_FILES <? zlen files with LimitExceeded in
  let? payload := payload_total 0 files in
  let sorted := sort_by f_path files in
  fail_if windows2_any (fun a b => eqb (f_path a) (f_path b)) sorted with InvalidManifest in
  fail_if existsb (fun f => under_file sorted (f_path f)) sorted with InvalidManifest in
  Ok {| e_files := sorted; e_payload_bytes := payload |}.

(** ** Headers *)
Definition field (first last : nat) (block : list Z) : list Z := take (last - first) (drop first block).

Fixpoint skip_spaces (l : list Z) : option (list Z) :=
  match l with
  | [] => None
  | b :: tl => if b =? 32 then skip_spaces tl else Some l
  end.

Fixpoint octal_digits (value : Z) (l : list Z) : result ArchiveError (Z * list Z) :=
  match l with
  | [] => Ok (value, [])
  | b :: tl =>
      if in_range 48 55 b then
        let? value := ok_or (n ← checked_mul value 8; checked_add n (b - 48)) InvalidHeader in
        octal_digits value tl
      else Ok (value, l)
  end.

Definition octal (f : list Z) : result ArchiveError Z :=
  let? digits := ok_or (skip_spaces f) InvalidHeader in
  let? p := octal_digits 0 digits in
  fail_if Nat.eqb (length (snd p)) (length digits) || negb (forallb (fun b => (b =? 32) || (b =? 0)) (snd p))
    with InvalidHeader in
  Ok (fst p).

Definition all_zero (l : list Z) : bool := forallb (Z.eqb 0) l.

Fixpoint before_nul (l : list Z) : list Z :=
  match l with
  | [] => []
  | b :: l => if b =? 0 then [] else b :: before_nul l
  end.

Definition text (f : list Z) : result ArchiveError (list Z) :=
  let t := before_nul f in
  fail_if negb (all_zero (drop (length t) f)) with InvalidHeader in Ok t.

(** The checksum counts its own field as spaces. *)
Definition checksum (block : list Z) : Z :=
  foldr Z.add 0 (imap (fun i b => if (148 <=? i)%nat && (i <? 156)%nat then 32 else b) block).

Record Header : Type := { h_path : list Z; h_size : Z }.

Definition device_number (f : list Z) : result ArchiveError unit :=
  if all_zero f then Ok tt
  else let? n := octal f in fail_if negb (n =? 0) with InvalidHeader in Ok tt.
Definition owner_name (f : list Z) : result ArchiveError unit :=
  let? t := text f in fail_if negb (forallb is_ascii_graphic t) with InvalidHeader in Ok tt.

Definition header_prefix (block : list Z) : result ArchiveError (list Z) :=
  let magic := field 257 265 block in
  if bool_decide (magic = str_bytes "ustar" ++ [0; 48; 48]) then
    fail_if negb (all_zero (drop 500 block)) with InvalidHeader in text (field 345 500 block)
  else if bool_decide (magic = str_bytes "ustar  " ++ [0]) then
    fail_if negb (all_zero (drop 345 block)) with InvalidHeader in Ok []
  else Err InvalidHeader.

Definition parse (block : list Z) : result ArchiveError Header :=
  let? sum := octal (field 148 156 block) in
  fail_if negb (checksum block =? sum) with InvalidHeader in
  let? prefix := header_prefix block in
  fail_if negb (existsb (Z.eqb (default 0 (block !! 156%nat))) [48; 0]) with UnsupportedEntry in
  fail_if negb (all_zero (field 157 257 block)) with InvalidHeader in
  let? mode := octal (field 100 108 block) in
  fail_if 511 <? mode with InvalidHeader in
  let? uid := octal (field 108 116 block) in
  fail_if 4294967295 <? uid with InvalidHeader in
  let? gid := octal (field 116 124 block) in
  fail_if 4294967295 <? gid with InvalidHeader in
  let? size := octal (field 124 136 block) in
  fail_if MAX_FILE_BYTES <? size with LimitExceeded in
  let? _ := octal (field 136 148 block) in
  let? _ := device_number (field 329 337 block) in
  let? _ := device_number (field 337 345 block) in
  let? _ := owner_name (field 265 297 block) in
  let? _ := owner_name (field 297 329 block) in
  let? name := text (take 100 block) in
  let length := zlen prefix + (if bool_decide (prefix = []) then 0 else 1) + zlen name in
  fail_if (MAX_PATH_BYTES <? length) || bool_decide (name = []) with InvalidPath in
  let path := prefix ++ (if bool_decide (prefix = []) then [] else [47]) ++ name in
  let? _ := validate_path path in
  Ok {| h_path := path; h_size := size |}.

(** ** The stream *)
Inductive Stage : Type :=
| InHeader
| InBody (remaining padding : Z)
| InPadding (remaining : Z)
| InEnd (bytes : Z).

Record ArchiveValidator : Type := {
  expected : ExpectedArchive; seen : list bool; header : list Z; stage : Stage; total : Z; failure : option ArchiveError
}.

Definition ArchiveValidator_new (e : ExpectedArchive) : ArchiveValidator :=
  {| expected := e; seen := replicate (length (e_files e)) false; header := []; stage := InHeader; total := 0; failure := None |}.

Definition with_header (h : list Z) (v : ArchiveValidator) : ArchiveValidator :=
  {| expected := expected v; seen := seen v; header := h; stage := stage v; total := total v; failure := failure v |}.
Definition with_stage (s : Stage) (v : ArchiveValidator) : ArchiveValidator :=
  {| expected := expected v; seen := seen v; header := header v; stage := s; total := total v; failure := failure v |}.
Definition with_seen (i : nat) (v : ArchiveValidator) : ArchiveValidator :=
  {| expected := expected v; seen := <[i := true]> (seen v); header := header v; stage := stage v; total := total v; failure := failure v |}.
Definition with_total (n : Z) (v : ArchiveValidator) : ArchiveValidator :=
  {| expected := expected v; seen := seen v; header := header v; stage := stage v; total := n; failure := failure v |}.
Definition with_failure (e : ArchiveError) (v : ArchiveValidator) : ArchiveValidator :=
  {| expected := expected v; seen := seen v; header := []; stage := stage v; total := total v; failure := Some e |}.

(** [(BLOCK_BYTES - size % BLOCK_BYTES) % BLOCK_BYTES] *)
Definition padding_of (size : Z) : Z := (BLOCK_BYTES - size mod BLOCK_BYTES) mod BLOCK_BYTES.

Definition accept_header : ST ArchiveValidator ArchiveError unit := fun v =>
  if all_zero (header v) then (with_header [] (with_stage (InEnd BLOCK_BYTES) v), Ok tt)
  else match parse (header v) with
       | Err e => (v, Err e)
       | Ok entry =>
           match find_path (e_files (expected v)) (h_path entry) with
           | None => (v, Err ManifestMismatch)
           | Some index =>
               if default false (seen v !! index)
                  || negb (bool_decide ((f_size <$> e_files (expected v) !! index) = Some (h_size entry)))
               then (v, Err ManifestMismatch)
               else
                 let v := with_seen index v in
                 let v := if 0 <? h_size entry then with_stage (InBody (h_size entry) (padding_of (h_size entry))) v else v in
                 (with_header [] v, Ok tt)
           end
       end.

(** One round of the [while] loop: what is left of the input. *)
Definition feed_round (input : list Z) : ST ArchiveValidator ArchiveError (list Z) := fun v =>
  match stage v with
  | InHeader =>
      let take_ := Z.min (zlen input) (BLOCK_BYTES - zlen (header v)) in
      let v := with_header (header v ++ take (Z.to_nat take_) input) v in
      let input := drop (Z.to_nat take_) input in
      if zlen (header v) =? BLOCK_BYTES then st_bind accept_header (fun _ => st_ret input) v
      else (v, Ok input)
  | InBody remaining padding =>
      let take_ := Z.min remaining (zlen input) in
      let remaining := remaining - take_ in
      (with_stage (if 0 <? remaining then InBody remaining padding else if 0 <? padding then InPadding padding else InHeader) v,
       Ok (drop (Z.to_nat take_) input))
  | InPadding remaining =>
      let take_ := Z.min remaining (zlen input) in
      if negb (all_zero (take (Z.to_nat take_) input)) then (v, Err InvalidPadding)
      else (with_stage (if remaining =? take_ then InHeader else InPadding (remaining - take_)) v,
            Ok (drop (Z.to_nat take_) input))
  | InEnd bytes =>
      match (n ← checked_add bytes (zlen input); if n <=? MAX_TAIL_BYTES then Some n else None) with
      | None => (v, Err LimitExceeded)
      | Some bytes => if negb (all_zero input) then (v, Err InvalidPadding) else (with_stage (InEnd bytes) v, Ok [])
      end
  end.

(** Every round consumes a byte: the input's length is enough fuel. *)
Fixpoint feed_loop (fuel : nat) (input : list Z) : ST ArchiveValidator ArchiveError unit :=
  match input, fuel with
  | [], _ => st_ret tt
  | _ :: _, O => st_err InvalidHeader
  | _ :: _, S fuel => st_bind (feed_round input) (fun input => feed_loop fuel input)
  end.

Definition feed_inner (input : list Z) : ST ArchiveValidator ArchiveError unit := fun v =>
  if MAX_CHUNK_BYTES <? zlen input then (v, Err LimitExceeded)
  else match (n ← checked_add (total v) (zlen input); if n <=? MAX_ARCHIVE_BYTES then Some n else None) with
       | None => (v, Err LimitExceeded)
       | Some n => feed_loop (length input) input (with_total n v)
       end.

Definition feed (input : list Z) : ST ArchiveValidator ArchiveError unit := fun v =>
  match failure v with
  | Some e => (v, Err e)
  | None => match feed_inner input v with
            | (v, Err e) => (with_failure e v, Err e)
            | (v, Ok tt) => (v, Ok tt)
            end
  end.

Definition finish (v : ArchiveValidator) : result ArchiveError ArchiveSummary :=
  match failure v with
  | Some e => Err e
  | None =>
      match stage v with
      | InEnd bytes =>
          fail_if negb ((2 * BLOCK_BYTES <=? bytes) && (bytes mod BLOCK_BYTES =? 0)) with IncompleteArchive in
          fail_if existsb negb (seen v) with ManifestMismatch in
          Ok {| sum_files := zlen (e_files (expected v)); sum_payload_bytes := e_payload_bytes (expected v); sum_archive_bytes := total v |}
      | _ => Err IncompleteArchive
      end
  end.

(** A caller that feeds the chunks of a stream and then finishes. *)
Fixpoint feed_all (chunks : list (list Z)) : ST ArchiveValidator ArchiveError unit :=
  match chunks with
  | [] => st_ret tt
  | chunk :: chunks => st_bind (feed chunk) (fun _ => feed_all chunks)
  end.
Definition validate_stream (e : ExpectedArchive) (chunks : list (list Z)) : result ArchiveError ArchiveSummary :=
  match feed_all chunks (ArchiveValidator_new e) with
  | (v, Ok tt) => finish v
  | (_, Err e) => Err e
  end.

(** * Chunked validation is validation of the stream

    The round-by-round loop over chunks accepts exactly what a byte-by-byte
    automaton accepts on the concatenated stream. *)

(** ** The byte automaton *)
Definition accepted (v : ArchiveValidator) : option ArchiveValidator :=
  match accept_header v with (v, Ok _) => Some v | (_, Err _) => None end.

Definition after_body (remaining padding : Z) : Stage :=
  if 0 <? remaining then InBody remaining padding else if 0 <? padding then InPadding padding else InHeader.

Definition step (v : ArchiveValidator) (b : Z) : option ArchiveValidator :=
  match stage v with
  | InHeader =>
      let v := with_header (header v ++ [b]) v in
      if zlen (header v) =? BLOCK_BYTES then accepted v else Some v
  | InBody remaining padding => Some (with_stage (after_body (remaining - 1) padding) v)
  | InPadding remaining =>
      if b =? 0 then Some (with_stage (if remaining =? 1 then InHeader else InPadding (remaining - 1)) v) else None
  | InEnd bytes => if (b =? 0) && (bytes + 1 <=? MAX_TAIL_BYTES) then Some (with_stage (InEnd (bytes + 1)) v) else None
  end.

Fixpoint steps (l : list Z) (v : ArchiveValidator) : option ArchiveValidator :=
  match l with
  | [] => Some v
  | b :: l => step v b ≫= steps l
  end.

Lemma steps_app l k v : steps (l ++ k) v = steps l v ≫= steps k.
Proof. revert v. induction l as [| b l IH]; intros v; [done |]. cbn [app steps]. destruct (step v b); [apply IH | done]. Qed.

(** Only a header being filled holds bytes; counts are in range. *)
Definition stage_ok (s : Stage) (header : list Z) : Prop :=
  match s with
  | InHeader => zlen header < BLOCK_BYTES
  | InBody remaining padding => header = [] /\ 0 < remaining /\ 0 <= padding
  | InPadding remaining => header = [] /\ 0 < remaining
  | InEnd bytes => header = [] /\ 0 <= bytes <= MAX_TAIL_BYTES
  end.
Definition validator_ok (v : ArchiveValidator) : Prop := stage_ok (stage v) (header v).

Lemma accepted_ok v v' : accepted v = Some v' -> stage v = InHeader -> validator_ok v' /\ header v' = [].
Proof.
  unfold accepted, accept_header. intros Ha Hs. destruct (all_zero (header v)).
  { injection Ha as <-. by repeat split. }
  destruct (parse (header v)) as [entry |]; [| done]. destruct (find_path _ _) as [i |]; [| done].
  destruct (_ || _); [done |]. injection Ha as <-. destruct v as [e sn h s t f]. cbn [stage] in Hs. subst s. split; [| by destruct (0 <? h_size entry)].
  unfold validator_ok. destruct (Z.ltb_spec 0 (h_size entry)); cbn; [| done].
  split; [done | split; [done |]]. unfold padding_of. apply Z.mod_pos_bound. done.
Qed.

Lemma step_ok v b v' : validator_ok v -> step v b = Some v' -> validator_ok v'.
Proof.
  unfold validator_ok, step. destruct v as [e sn h s t f]. cbn [stage header]. destruct s as [| r p | r | n]; cbn; intros Hok Hs.
  - destruct (Z.eqb_spec (zlen (h ++ [b])) BLOCK_BYTES) as [| Hne]; [by apply accepted_ok in Hs as [? _] |].
    injection Hs as <-. cbn. rewrite length_app in *. simpl in *. lia.
  - injection Hs as <-. destruct Hok as (-> & Hr & Hp). cbn. unfold after_body.
    destruct (Z.ltb_spec 0 (r - 1)); [done |]. destruct (Z.ltb_spec 0 p); cbn; done.
  - destruct (b =? 0); [| done]. injection Hs as <-. destruct Hok as (-> & Hr). cbn. destruct (Z.eqb_spec r 1); cbn; [done | split; [done | lia]].
  - destruct ((b =? 0) && _) eqn:E; [| done]. injection Hs as <-. bool_prop. destruct Hok as (-> & Hn). cbn. split; [done | lia].
Qed.

Lemma steps_ok l v v' : validator_ok v -> steps l v = Some v' -> validator_ok v'.
Proof.
  revert v. induction l as [| b l IH]; intros v Hok Hs; [by injection Hs as <- |]. cbn [steps] in Hs.
  destruct (step v b) as [w |] eqn:E; [| done]. apply (IH w); [by eapply step_ok | done].
Qed.

(** ** Runs within one stage *)
Lemma with_header_id v : with_header (header v) v = v.
Proof. by destruct v. Qed.
Lemma with_stage_id v : with_stage (stage v) v = v.
Proof. by destruct v. Qed.

Lemma steps_fill l v :
  stage v = InHeader -> zlen (header v) + zlen l < BLOCK_BYTES -> steps l v = Some (with_header (header v ++ l) v).
Proof.
  revert v. induction l as [| b l IH]; intros v Hs Hl; cbn [steps].
  { by rewrite app_nil_r, with_header_id. }
  unfold step. rewrite Hs. cbn zeta. destruct v as [e sn h s t f]. cbn [header stage with_header] in *. subst s.
  rewrite (proj2 (Z.eqb_neq _ _)) by (rewrite length_app; simpl in *; lia). cbn [mbind option_bind].
  rewrite IH; cbn [header stage with_header]; [by rewrite <- app_assoc | done | rewrite length_app; cbn [length] in *; lia].
Qed.

Lemma steps_full l v :
  stage v = InHeader -> l <> [] -> zlen (header v) + zlen l = BLOCK_BYTES ->
  steps l v = accepted (with_header (header v ++ l) v).
Proof.
  intros Hs Hne Hl. destruct (exists_last Hne) as (l' & b & ->). rewrite length_app in Hl. simpl in Hl.
  rewrite steps_app, steps_fill by (done || lia). cbn [mbind option_bind steps]. unfold step.
  destruct v as [e sn h s t f]. cbn [header stage with_header] in *. subst s.
  rewrite (proj2 (Z.eqb_eq _ _)) by (rewrite !length_app; simpl; lia). rewrite <- app_assoc.
  by destruct (accepted _).
Qed.

Lemma steps_body l v r p :
  stage v = InBody r p -> 0 < zlen l <= r -> steps l v = Some (with_stage (after_body (r - zlen l) p) v).
Proof.
  revert v r. induction l as [| b l IH]; intros v r Hs Hl; [simpl in Hl; lia |]. cbn [steps]. unfold step. rewrite Hs.
  cbn [mbind option_bind]. destruct l as [| c l]; [done |].
  rewrite (IH _ (r - 1)).
  - replace (r - 1 - zlen (c :: l)) with (r - zlen (b :: c :: l)) by (cbn [length]; lia). by destruct v.
  - destruct v; cbn in *. unfold after_body. rewrite (proj2 (Z.ltb_lt _ _)); [done | simpl in *; lia].
  - simpl in *. lia.
Qed.

Lemma steps_padding l v r :
  stage v = InPadding r -> 0 < zlen l <= r ->
  steps l v = if all_zero l then Some (with_stage (if r =? zlen l then InHeader else InPadding (r - zlen l)) v) else None.
Proof.
  revert v r. induction l as [| b l IH]; intros v r Hs Hl; [simpl in Hl; lia |]. cbn [steps]. unfold step. rewrite Hs.
  unfold all_zero in *. cbn [forallb]. rewrite (Z.eqb_sym 0 b). destruct (b =? 0); [cbn [mbind option_bind andb] | done].
  destruct l as [| c l].
  { cbn [forallb length]. change (Z.of_nat 1) with 1. by destruct (Z.eqb_spec r 1). }
  rewrite (proj2 (Z.eqb_neq r 1)) by (simpl in *; lia). rewrite (IH _ (r - 1)); [| by destruct v | simpl in *; lia].
  destruct (forallb _ _); [| done].
  replace (r - zlen (b :: c :: l)) with (r - 1 - zlen (c :: l)) by (cbn [length]; lia).
  replace (r =? zlen (b :: c :: l)) with (r - 1 =? zlen (c :: l)); [by destruct v |].
  destruct (Z.eqb_spec (r - 1) (zlen (c :: l))), (Z.eqb_spec r (zlen (b :: c :: l))); cbn [length] in *; lia.
Qed.

Lemma steps_end l v n :
  stage v = InEnd n -> n <= MAX_TAIL_BYTES ->
  steps l v = if all_zero l && (n + zlen l <=? MAX_TAIL_BYTES) then Some (with_stage (InEnd (n + zlen l)) v) else None.
Proof.
  revert v n. induction l as [| b l IH]; intros v n Hs Hn; cbn [steps].
  { cbn [all_zero forallb andb length]. rewrite Z.add_0_r, (proj2 (Z.leb_le _ _)), <- Hs, with_stage_id by done. done. }
  unfold step. rewrite Hs. unfold all_zero in *. cbn [forallb]. rewrite (Z.eqb_sym 0 b). destruct (b =? 0); [cbn [andb] | done].
  destruct (Z.leb_spec (n + 1) MAX_TAIL_BYTES).
  - cbn [mbind option_bind]. rewrite (IH _ (n + 1)); [| by destruct v | done].
    replace (n + 1 + zlen l) with (n + zlen (b :: l)) by (simpl; lia). destruct v; done.
  - rewrite (proj2 (Z.leb_gt _ _)) by (simpl; lia). by rewrite andb_false_r.
Qed.

(** ** Rounds, chunks and streams *)

(** One round runs the automaton over a nonempty prefix of the input. *)
Lemma feed_round_steps input v :
  validator_ok v -> input <> [] ->
  match feed_round input v with
  | (v', Ok rest) => exists chunk, input = chunk ++ rest /\ chunk <> [] /\ steps chunk v = Some v'
  | (_, Err _) => steps input v = None
  end.
Proof.
  unfold validator_ok. intros Hok Hne. assert (0 < zlen input) as Hpos by (destruct input; [done | simpl; lia]).
  assert (forall k, 0 < k <= zlen input -> take (Z.to_nat k) input <> [] /\ zlen (take (Z.to_nat k) input) = k) as Htake.
  { intros k Hk. assert (zlen (take (Z.to_nat k) input) = k) as E by (rewrite length_take; lia). split; [| done].
    intros Hn. rewrite Hn in E. simpl in E. lia. }
  unfold feed_round. destruct (stage v) as [| r p | r | n] eqn:Es; cbn [stage_ok] in Hok; cbv zeta.
  - destruct (Htake (Z.min (zlen input) (BLOCK_BYTES - zlen (header v)))) as [Hn Hl]; [lia |].
    set (k := Z.to_nat (Z.min _ _)) in *. cbn [header with_header].
    rewrite length_app, Nat2Z.inj_add, Hl. destruct (Z.eqb_spec (zlen (header v) + Z.min (zlen input) (BLOCK_BYTES - zlen (header v))) BLOCK_BYTES) as [Hfull | Hpart].
    + unfold st_bind, st_ret. pose proof (steps_full (take k input) v Es Hn ltac:(lia)) as Hs. unfold accepted in Hs.
      destruct (accept_header _) as [v' [u | e]].
      * exists (take k input). by rewrite take_drop.
      * rewrite <- (take_drop k input), steps_app. by rewrite Hs.
    + exists (take k input). rewrite take_drop. split; [done | split; [done |]]. apply steps_fill; [done | lia].
  - destruct Hok as (Hh & Hr & Hp). destruct (Htake (Z.min r (zlen input))) as [Hn Hl]; [lia |].
    exists (take (Z.to_nat (Z.min r (zlen input))) input). rewrite take_drop. split; [done | split; [done |]].
    rewrite (steps_body _ v r p Es), Hl by lia. done.
  - destruct Hok as (Hh & Hr). destruct (Htake (Z.min r (zlen input))) as [Hn Hl]; [lia |].
    pose proof (steps_padding (take (Z.to_nat (Z.min r (zlen input))) input) v r Es ltac:(lia)) as Hs. rewrite Hl in Hs.
    destruct (all_zero (take _ input)) eqn:Ez; cbn [negb].
    + exists (take (Z.to_nat (Z.min r (zlen input))) input). by rewrite take_drop.
    + rewrite <- (take_drop (Z.to_nat (Z.min r (zlen input))) input), steps_app. by rewrite Hs.
  - destruct Hok as (Hh & Hn). pose proof (steps_end input v n Es ltac:(lia)) as Hs.
    assert ((m ← checked_add n (zlen input); if m <=? MAX_TAIL_BYTES then Some m else None)
      = if n + zlen input <=? MAX_TAIL_BYTES then Some (n + zlen input) else None) as ->.
    { unfold checked_add. destruct (Z.leb_spec (n + zlen input) U64_MAX); [done |]. unfold U64_MAX, MAX_TAIL_BYTES in *.
      by rewrite (proj2 (Z.leb_gt _ _)) by lia. }
    destruct (n + zlen input <=? MAX_TAIL_BYTES); [| by rewrite andb_false_r in Hs].
    destruct (all_zero input); cbn [negb andb] in *; [| done]. exists input. by rewrite app_nil_r.
Qed.

Lemma feed_loop_steps fuel input v :
  validator_ok v -> (length input <= fuel)%nat ->
  match feed_loop fuel input v with
  | (v', Ok _) => steps input v = Some v'
  | (_, Err _) => steps input v = None
  end.
Proof.
  revert input v. induction fuel as [| fuel IH]; intros input v Hok Hf.
  { destruct input; [done | simpl in Hf; lia]. }
  destruct input as [| b input]; [done |]. cbn [feed_loop]. unfold st_bind.
  pose proof (feed_round_steps (b :: input) v Hok ltac:(done)) as Hr. destruct (feed_round (b :: input) v) as [v' [rest | e]]; [| done].
  destruct Hr as (chunk & Heq & Hne & Hs). rewrite Heq in Hf |- *. rewrite length_app in Hf. assert (0 < length chunk)%nat by (destruct chunk; [done | simpl; lia]).
  specialize (IH rest v' (steps_ok _ _ _ Hok Hs) ltac:(lia)). rewrite steps_app, Hs. cbn [mbind option_bind].
  by destruct (feed_loop fuel rest v') as [w [u | e]].
Qed.

(** The automaton neither reads nor writes the byte count and the latch. *)
Lemma accepted_total n v : accepted (with_total n v) = with_total n <$> accepted v.
Proof.
  unfold accepted, accept_header. destruct v as [e sn h s t f]. cbn [header expected seen with_total].
  destruct (all_zero h); [done |]. destruct (parse h) as [entry |]; [| done]. destruct (find_path _ _) as [i |]; [| done].
  destruct (_ || _); [done |]. by destruct (0 <? h_size entry).
Qed.

Lemma step_total n v b : step (with_total n v) b = with_total n <$> step v b.
Proof.
  unfold step. destruct v as [e sn h s t f]. cbn [header stage with_total]. destruct s as [| r p | r | m]; cbn [with_header with_stage header]; try done.
  - destruct (_ =? BLOCK_BYTES); [| done]. exact (accepted_total n {| expected := e; seen := sn; header := h ++ [b]; stage := InHeader; total := t; failure := f |}).
  - by destruct (b =? 0).
  - by destruct (_ && _).
Qed.

Lemma steps_total n l v : steps l (with_total n v) = with_total n <$> steps l v.
Proof.
  revert v. induction l as [| b l IH]; intros v; [done |]. cbn [steps]. rewrite step_total.
  destruct (step v b); cbn [mbind option_bind fmap option_fmap option_map]; [apply IH | done].
Qed.

Lemma accepted_failure v v' : accepted v = Some v' -> failure v' = failure v /\ expected v' = expected v.
Proof.
  unfold accepted, accept_header. destruct (all_zero (header v)); [by intros [= <-] |].
  destruct (parse (header v)) as [entry |]; [| done]. destruct (find_path _ _) as [i |]; [| done].
  destruct (_ || _); [done |]. intros [= <-]. by destruct (0 <? h_size entry).
Qed.

Lemma steps_failure l v v' : steps l v = Some v' -> failure v' = failure v /\ expected v' = expected v.
Proof.
  revert v. induction l as [| b l IH]; intros v Hs; [by injection Hs as <- |]. cbn [steps] in Hs.
  destruct (step v b) as [w |] eqn:E; [| done]. apply IH in Hs as [-> ->]. clear IH.
  unfold step in E. destruct (stage v) as [| r p | r | n].
  - destruct (_ =? BLOCK_BYTES); [| by injection E as <-]. by apply accepted_failure in E as [-> ->].
  - by injection E as <-.
  - destruct (b =? 0); [by injection E as <- | done].
  - destruct (_ && _); [by injection E as <- | done].
Qed.

(** A chunk is accepted when it fits and the automaton accepts its bytes. *)
Lemma feed_steps chunk v :
  validator_ok v -> failure v = None -> 0 <= total v <= MAX_ARCHIVE_BYTES ->
  match feed chunk v with
  | (v', Ok _) => zlen chunk <= MAX_CHUNK_BYTES /\ total v + zlen chunk <= MAX_ARCHIVE_BYTES
                  /\ with_total (total v + zlen chunk) <$> steps chunk v = Some v'
  | (_, Err _) => MAX_CHUNK_BYTES < zlen chunk \/ MAX_ARCHIVE_BYTES < total v + zlen chunk \/ steps chunk v = None
  end.
Proof.
  intros Hok Hf Ht. unfold feed, feed_inner. rewrite Hf. destruct (Z.ltb_spec MAX_CHUNK_BYTES (zlen chunk)); [by left |].
  unfold checked_add. destruct (Z.leb_spec (total v + zlen chunk) U64_MAX) as [Hu | Hu]; cbn [mbind option_bind].
  2:{ right. left. unfold U64_MAX, MAX_ARCHIVE_BYTES in *. lia. }
  destruct (Z.leb_spec (total v + zlen chunk) MAX_ARCHIVE_BYTES) as [Ha | Ha]; [| right; by left].
  pose proof (feed_loop_steps (length chunk) chunk (with_total (total v + zlen chunk) v)) as Hl.
  rewrite steps_total in Hl. specialize (Hl ltac:(by destruct v) (Nat.le_refl _)).
  destruct (feed_loop _ _ _) as [v' [[] | e]]; [done |]. right. right. by destruct (steps chunk v).
Qed.

Lemma feed_latched chunk v e : failure v = Some e -> feed chunk v = (v, Err e).
Proof. unfold feed. by intros ->. Qed.

Lemma feed_failure chunk v v' e : feed chunk v = (v', Err e) -> failure v' = Some e.
Proof.
  unfold feed. destruct (failure v) as [e' |] eqn:Ef; [by intros [= <- <-] |].
  destruct (feed_inner chunk v) as [w [[] | e']]; [done |]. by intros [= <- <-].
Qed.
