(* ===== verification/Tar.v ===== *)
(** * What an accepted archive contains

    The grammar of the accepted streams, and the theorem that the validator
    accepts exactly the archives of the manifest. *)
From Stdlib Require Import Sorted.
From stdpp Require Import sorting.
From S2P Require Import Prelude Order Text Archive.
Open Scope Z_scope.

(** ** Streams *)
Lemma feed_all_steps chunks v :
  validator_ok v -> failure v = None -> 0 <= total v <= MAX_ARCHIVE_BYTES ->
  match feed_all chunks v with
  | (v', Ok _) => Forall (fun c => zlen c <= MAX_CHUNK_BYTES) chunks /\ total v + zlen (mjoin chunks) <= MAX_ARCHIVE_BYTES
                  /\ with_total (total v + zlen (mjoin chunks)) <$> steps (mjoin chunks) v = Some v'
  | (_, Err _) => ~ (Forall (fun c => zlen c <= MAX_CHUNK_BYTES) chunks /\ total v + zlen (mjoin chunks) <= MAX_ARCHIVE_BYTES
                     /\ is_Some (steps (mjoin chunks) v))
  end.
Proof.
  revert v. induction chunks as [| c chunks IH]; intros v Hok Hf Ht; cbn [feed_all mjoin list_join foldr].
  { cbn. split; [constructor | split; [lia |]]. rewrite Z.add_0_r. by destruct v. }
  unfold st_bind. pose proof (feed_steps c v Hok Hf Ht) as Hc. change (mjoin (c :: chunks)) with (c ++ mjoin chunks).
  rewrite steps_app, length_app, Nat2Z.inj_add. destruct (feed c v) as [w [u | e]].
  - destruct Hc as (Hlen & Htot & Hs). destruct (steps c v) as [w' |] eqn:Es; [| done]. injection Hs as <-.
    cbn [mbind option_bind]. pose proof (steps_ok _ _ _ Hok Es) as Hok'. pose proof (steps_failure _ _ _ Es) as [Hf' _].
    specialize (IH (with_total (total v + zlen c) w') ltac:(by destruct w') ltac:(by destruct w'; cbn in *; congruence) ltac:(cbn; lia)).
    rewrite steps_total in IH. cbn [total with_total] in IH. rewrite <- Z.add_assoc in IH. destruct (feed_all chunks _) as [v' [u' | e]].
    + destruct IH as (Hall & Htot' & Hs'). split; [by constructor | split; [done |]]. by destruct (steps (mjoin chunks) w').
    + intros (Hall & Htot' & Hs'). apply Forall_cons in Hall as [_ Hall]. apply IH. split; [done | split; [done |]].
      by apply fmap_is_Some.
  - intros (Hall & Htot & Hs). apply Forall_cons in Hall as [Hlen _].
    destruct Hc as [? | [? | Hn]]; [lia | lia |]. rewrite Hn in Hs. by destruct Hs.
Qed.

(** ** The grammar *)

(** One member: a header block for the file, its contents, zero padding. *)
Definition member (bytes : list Z) (f : ExpectedFile) : Prop :=
  exists block body, bytes = block ++ body ++ replicate (Z.to_nat (padding_of (f_size f))) 0
    /\ zlen block = BLOCK_BYTES /\ all_zero block = false
    /\ parse block = Ok {| h_path := f_path f; h_size := f_size f |} /\ zlen body = f_size f.

(** The members of the files in some order, then the zero blocks of the end. *)
Definition archive_of (fs : list ExpectedFile) (bytes : list Z) : Prop :=
  exists members tail, bytes = mjoin members ++ replicate (Z.to_nat tail) 0 /\ Forall2 member members fs
    /\ 2 * BLOCK_BYTES <= tail <= MAX_TAIL_BYTES /\ tail mod BLOCK_BYTES = 0.

(** ** Headers carry bounded sizes *)
Lemma octal_digits_nonneg n l v rest : 0 <= n -> octal_digits n l = Ok (v, rest) -> 0 <= v.
Proof.
  revert n. induction l as [| b l IH]; intros n Hn Ho; cbn [octal_digits] in Ho; [by injection Ho as <- _ |].
  unfold in_range in Ho. destruct (Z.leb_spec 48 b); [| by injection Ho as <- _].
  destruct (Z.leb_spec b 55); [cbn [andb] in Ho | by injection Ho as <- _].
  apply rbind_ok in Ho as (m & Hm & Ho). apply ok_or_ok in Hm. destruct (checked_mul n 8) as [k |] eqn:Ek; [| done].
  cbn [mbind option_bind] in Hm. apply checked_mul_Some in Ek as [-> _]. apply checked_add_Some in Hm as [-> _].
  eapply IH; [| exact Ho]. lia.
Qed.

Lemma octal_nonneg f v : octal f = Ok v -> 0 <= v.
Proof.
  unfold octal. intros Ho. apply rbind_ok in Ho as (digits & _ & Ho). apply rbind_ok in Ho as ([w rest] & Hd & Ho).
  apply fail_if_ok in Ho as [_ [= <-]]. by apply octal_digits_nonneg in Hd.
Qed.

Lemma parse_size block h : parse block = Ok h -> 0 <= h_size h <= MAX_FILE_BYTES.
Proof.
  unfold parse. intros Hp.
  repeat match type of Hp with
  | rbind (octal (field 124 136 _)) _ = Ok _ => apply rbind_ok in Hp as (size & Hsize & Hp)
  | (if MAX_FILE_BYTES <? _ then _ else _) = Ok _ => apply fail_if_ok in Hp as [Hmax Hp]
  | rbind _ _ = Ok _ => apply rbind_ok in Hp as (? & _ & Hp)
  | (if _ then Err _ else _) = Ok _ => apply fail_if_ok in Hp as [_ Hp]
  end.
  injection Hp as <-. cbn [h_size]. apply octal_nonneg in Hsize. bool_prop. lia.
Qed.

(** ** The manifest's index *)
Lemma find_path_spec files path i :
  strict f_path files -> find_path files path = Some i <-> exists f, files !! i = Some f /\ f_path f = path.
Proof. intros Hs. by apply (binary_search_spec f_path path). Qed.

Lemma index_inj files i j f : strict f_path files -> files !! i = Some f -> files !! j = Some f -> i = j.
Proof. intros Hs Hi Hj. by eapply (strict_inj f_path). Qed.

(** ** Running the automaton over a member *)
Definition boundary (v : ArchiveValidator) : Prop := stage v = InHeader /\ header v = [].

Lemma padding_bounds size : 0 <= padding_of size < BLOCK_BYTES.
Proof. by apply Z.mod_pos_bound. Qed.

Lemma all_zero_spec l : all_zero l = true <-> l = replicate (length l) 0.
Proof.
  unfold all_zero. induction l as [| b l IH]; [done |]. cbn [forallb length replicate]. rewrite andb_true_iff, IH, Z.eqb_eq.
  split; [intros [<- <-]; done | intros [= -> <-]; done].
Qed.
Lemma all_zero_replicate n : all_zero (replicate n 0) = true.
Proof. apply all_zero_spec. by rewrite length_replicate. Qed.

(** The state after an accepted header. *)
Definition after_header (f : ExpectedFile) (i : nat) (v : ArchiveValidator) : ArchiveValidator :=
  let v := with_seen i v in
  with_header [] (if 0 <? f_size f then with_stage (InBody (f_size f) (padding_of (f_size f))) v else v).

Lemma header_steps v block f i :
  boundary v -> strict f_path (e_files (expected v)) -> zlen block = BLOCK_BYTES -> all_zero block = false ->
  parse block = Ok {| h_path := f_path f; h_size := f_size f |} ->
  e_files (expected v) !! i = Some f -> default false (seen v !! i) = false ->
  steps block v = Some (after_header f i v).
Proof.
  intros [Hst Hh] Hs Hlen Hz Hp Hi Hseen. rewrite steps_full; [| done | by intros -> | by rewrite Hh].
  rewrite Hh. cbn [app]. unfold accepted, accept_header. cbn [header with_header expected seen]. rewrite Hz, Hp. cbn [h_path h_size].
  rewrite (proj2 (find_path_spec _ _ i Hs)) by by exists f. rewrite Hseen, Hi. cbn [fmap option_fmap option_map].
  rewrite bool_decide_true by done. cbn [orb negb]. unfold after_header. destruct v. by destruct (0 <? f_size f).
Qed.

Lemma with_header_nil v : header v = [] -> with_header [] v = v.
Proof. intros Hh. by rewrite <- Hh, with_header_id. Qed.

Lemma payload_steps v f i body :
  boundary v -> 0 <= f_size f -> zlen body = f_size f ->
  steps (body ++ replicate (Z.to_nat (padding_of (f_size f))) 0) (after_header f i v) = Some (with_seen i v).
Proof.
  intros [Hst Hh] Hsize Hbody. destruct v as [e sn h s t fl]. cbn [stage header] in *. subst. unfold after_header.
  pose proof (padding_bounds (f_size f)) as Hpad. destruct (Z.ltb_spec 0 (f_size f)) as [Hpos | Hz].
  - rewrite steps_app, (steps_body body _ (f_size f) (padding_of (f_size f))) by (done || lia). cbn [mbind option_bind].
    replace (f_size f - zlen body) with 0 by lia. unfold after_body. cbn [Z.ltb Z.compare].
    destruct (Z.ltb_spec 0 (padding_of (f_size f))) as [Hp | Hp].
    + rewrite (steps_padding _ _ (padding_of (f_size f))) by (done || (rewrite length_replicate; lia)).
      rewrite all_zero_replicate, length_replicate, Z2Nat.id by lia. by rewrite Z.eqb_refl.
    + by replace (Z.to_nat (padding_of (f_size f))) with 0%nat by lia.
  - assert (f_size f = 0) as E by lia. rewrite E in *. destruct body; [| simpl in Hbody; lia]. done.
Qed.

Lemma member_steps v bytes f i :
  boundary v -> strict f_path (e_files (expected v)) -> member bytes f ->
  e_files (expected v) !! i = Some f -> default false (seen v !! i) = false ->
  steps bytes v = Some (with_seen i v).
Proof.
  intros Hb Hs (block & body & -> & Hlen & Hz & Hp & Hbody) Hi Hseen.
  rewrite steps_app, (header_steps v block f i) by done. cbn [mbind option_bind].
  apply payload_steps; [done | | done]. apply parse_size in Hp. cbn in Hp. lia.
Qed.

(** ** Reading a run backwards *)
Lemma some_eq {A} (x y : A) : Some x = Some y -> x = y.
Proof. by intros [=]. Qed.

Lemma firstn_split (n : Z) (l : list Z) :
  0 <= n <= zlen l -> exists a b, l = a ++ b /\ zlen a = n.
Proof.
  intros Hn. exists (take (Z.to_nat n) l), (drop (Z.to_nat n) l). rewrite take_drop. split; [done |]. rewrite length_take. lia.
Qed.

Lemma short_header v l v' n :
  boundary v -> zlen l < BLOCK_BYTES -> steps l v = Some v' -> stage v' <> InEnd n.
Proof.
  intros [Hst Hh] Hl Hs. rewrite steps_fill in Hs by (done || (rewrite Hh; simpl; lia)). apply some_eq in Hs as <-.
  destruct v. cbn in *. by subst.
Qed.

(** Past an accepted header of a file the run needs its whole payload. *)
Lemma payload_inv v f i rest v' n :
  boundary v -> 0 <= f_size f -> steps rest (after_header f i v) = Some v' -> stage v' = InEnd n ->
  exists body rest', rest = body ++ replicate (Z.to_nat (padding_of (f_size f))) 0 ++ rest' /\ zlen body = f_size f
    /\ steps rest' (with_seen i v) = Some v'.
Proof.
  intros Hb Hsize Hs Hend. pose proof (padding_bounds (f_size f)) as Hpad. destruct (Z.ltb_spec 0 (f_size f)) as [Hpos | Hzero].
  2:{ exists [], rest. assert (f_size f = 0) as E by lia. pose proof (payload_steps v f i [] Hb Hsize (eq_sym E)) as Hp.
      rewrite E in *. cbn in Hp. apply some_eq in Hp. rewrite Hp in Hs. done. }
  assert (stage (after_header f i v) = InBody (f_size f) (padding_of (f_size f))) as Hst.
  { unfold after_header. rewrite (proj2 (Z.ltb_lt _ _)) by done. by destruct v. }
  destruct (Z.le_gt_cases (f_size f) (zlen rest)) as [Hle | Hgt].
  2:{ exfalso. destruct (decide (rest = [])) as [-> | Hne].
      - apply some_eq in Hs as <-. congruence.
      - assert (0 < zlen rest) by (destruct rest; [done | simpl; lia]). rewrite (steps_body _ _ _ _ Hst) in Hs by lia. apply some_eq in Hs as <-.
        cbn in Hend. unfold after_body in Hend. rewrite (proj2 (Z.ltb_lt _ _)) in Hend by lia. done. }
  destruct (firstn_split (f_size f) rest) as (body & rest1 & -> & Hbody); [lia |].
  destruct (Z.le_gt_cases (padding_of (f_size f)) (zlen rest1)) as [Hle1 | Hgt1].
  - destruct (firstn_split (padding_of (f_size f)) rest1) as (pad & rest2 & -> & Hplen); [lia |].
    assert (pad = replicate (Z.to_nat (padding_of (f_size f))) 0) as ->.
    { rewrite <- Hplen, Nat2Z.id. apply all_zero_spec. destruct (decide (pad = [])) as [-> | Hne]; [done |].
      assert (0 < zlen pad) by (destruct pad; [done | simpl; lia]).
      rewrite steps_app, (steps_body _ _ _ _ Hst) in Hs by lia. cbn [mbind option_bind] in Hs. rewrite steps_app in Hs.
      rewrite (steps_padding _ _ (padding_of (f_size f))) in Hs; [by destruct (all_zero pad) | | lia].
      cbn. unfold after_body. rewrite Hbody, Z.sub_diag. cbn. by rewrite (proj2 (Z.ltb_lt _ _)) by lia. }
    exists body, rest2. split; [done | split; [done |]]. rewrite app_assoc, steps_app, payload_steps in Hs by done. exact Hs.
  - exfalso. rewrite steps_app, (steps_body _ _ _ _ Hst) in Hs by lia. cbn [mbind option_bind] in Hs.
    assert (forall w, stage w = InPadding (padding_of (f_size f)) -> steps rest1 w = Some v' -> False) as Haux.
    { intros w Hw Hs'. destruct (decide (rest1 = [])) as [-> | Hne]; [apply some_eq in Hs' as <-; congruence |].
      assert (0 < zlen rest1) by (destruct rest1; [done | simpl; lia]). rewrite (steps_padding _ _ _ Hw) in Hs' by lia.
      destruct (all_zero rest1); [apply some_eq in Hs' as <- | done]. cbn in Hend. by rewrite (proj2 (Z.eqb_neq _ _)) in Hend by lia. }
    eapply Haux; [| exact Hs]. cbn. unfold after_body. rewrite Hbody, Z.sub_diag. cbn. by rewrite (proj2 (Z.ltb_lt _ _)) by lia.
Qed.

Lemma accepted_inv v block w :
  stage v = InHeader -> strict f_path (e_files (expected v)) -> accepted (with_header block v) = Some w ->
  (all_zero block = true /\ w = with_header [] (with_stage (InEnd BLOCK_BYTES) v)) \/
  (all_zero block = false /\ exists f i, e_files (expected v) !! i = Some f /\ default false (seen v !! i) = false
     /\ parse block = Ok {| h_path := f_path f; h_size := f_size f |} /\ w = after_header f i v).
Proof.
  intros Hst Hs. unfold accepted, accept_header. destruct v as [e sn h s t fl]. cbn [header with_header expected seen stage] in *. subst s.
  destruct (all_zero block); [intros <-%some_eq; by left |]. destruct (parse block) as [entry |] eqn:Hp; [| done].
  destruct (find_path _ _) as [i |] eqn:Hi; [| done]. apply find_path_spec in Hi as (f & Hi & Hpath); [| done].
  destruct (_ || _) eqn:Eg; [done |]. intros <-%some_eq. bool_prop. right. split; [done |]. exists f, i.
  rewrite Hi in *. cbn [fmap option_fmap option_map] in *.
  assert (f_size f = h_size entry) as Hsz. { match goal with H : Some _ = Some _ |- _ => by injection H end. }
  split; [done | split; [done |]]. unfold after_header. rewrite <- Hsz. split; [destruct entry; cbn in *; by rewrite Hpath, Hsz | by destruct (0 <? f_size f)].
Qed.

(** A finished run from a boundary either reads one more member or is in the
    closing zero blocks. *)
Lemma boundary_inv v bytes v' n :
  boundary v -> strict f_path (e_files (expected v)) -> steps bytes v = Some v' -> stage v' = InEnd n ->
  (bytes = replicate (Z.to_nat n) 0 /\ BLOCK_BYTES <= n <= MAX_TAIL_BYTES /\ seen v' = seen v) \/
  exists m rest f i, bytes = m ++ rest /\ member m f /\ m <> [] /\ e_files (expected v) !! i = Some f
    /\ default false (seen v !! i) = false /\ steps rest (with_seen i v) = Some v'.
Proof.
  intros Hb Hs Hrun Hend. pose proof Hb as [Hst Hh]. destruct (Z.le_gt_cases BLOCK_BYTES (zlen bytes)) as [Hle | Hgt].
  2:{ exfalso. by eapply short_header. }
  destruct (firstn_split BLOCK_BYTES bytes) as (block & rest & -> & Hlen); [unfold BLOCK_BYTES in *; lia |].
  rewrite steps_app in Hrun. destruct (steps block v) as [w |] eqn:Eb; [cbn [mbind option_bind] in Hrun | done].
  rewrite steps_full in Eb; [| done | by intros -> | by rewrite Hh]. rewrite Hh in Eb. cbn [app] in Eb.
  apply accepted_inv in Eb as [[Hz ->] | (Hz & f & i & Hi & Hseen & Hp & ->)]; [left | right | done | done].
  - rewrite (steps_end rest _ BLOCK_BYTES) in Hrun by (by destruct v).
    destruct (all_zero rest) eqn:Hzr; [| done]. destruct (Z.leb_spec (BLOCK_BYTES + zlen rest) MAX_TAIL_BYTES); [| done].
    apply some_eq in Hrun as <-. cbn [stage with_stage] in Hend. injection Hend as <-. apply all_zero_spec in Hz, Hzr. split; [| split; [lia | by destruct v]].
    rewrite Hz, Hzr, <- replicate_add, ?length_replicate. f_equal. unfold BLOCK_BYTES in *. lia.
  - pose proof (parse_size _ _ Hp) as Hsize. cbn [h_size] in Hsize.
    destruct (payload_inv v f i rest v' n Hb ltac:(lia) Hrun Hend) as (body & rest' & -> & Hbody & Hrun').
    exists (block ++ body ++ replicate (Z.to_nat (padding_of (f_size f))) 0), rest', f, i.
    split; [by rewrite <- !app_assoc |]. split; [by exists block, body |].
    split; [| done]. intros Hnil. apply app_eq_nil in Hnil as [-> _]. done.
Qed.

(** ** Whole streams *)
Definition at_positions (files : list ExpectedFile) (is_ : list nat) (fs : list ExpectedFile) : Prop :=
  Forall2 (fun i f => files !! i = Some f) is_ fs.
Definition unseen (v : ArchiveValidator) (i : nat) : Prop := default false (seen v !! i) = false.
Definition ready (v : ArchiveValidator) : Prop :=
  boundary v /\ strict f_path (e_files (expected v)) /\ length (seen v) = length (e_files (expected v)).

Lemma ready_seen v i : ready v -> ready (with_seen i v).
Proof. intros (Hb & Hs & Hl). destruct v. split; [done | split; [done |]]. cbn in *. by rewrite length_insert. Qed.

Lemma unseen_seen v i j : (i < length (seen v))%nat -> unseen (with_seen i v) j <-> unseen v j /\ j <> i.
Proof.
  intros Hi. unfold unseen. destruct v as [e sn h s t fl]. cbn [seen with_seen] in *. destruct (decide (i = j)) as [-> | Hne].
  - rewrite list_lookup_insert_eq by done. cbn. naive_solver.
  - rewrite list_lookup_insert_ne by done. naive_solver.
Qed.

Lemma runs_sound bytes v v' n :
  ready v -> steps bytes v = Some v' -> stage v' = InEnd n ->
  exists members fs is_, bytes = mjoin members ++ replicate (Z.to_nat n) 0 /\ Forall2 member members fs
    /\ at_positions (e_files (expected v)) is_ fs /\ NoDup is_ /\ Forall (unseen v) is_
    /\ BLOCK_BYTES <= n <= MAX_TAIL_BYTES /\ forall j, unseen v j -> unseen v' j \/ j ∈ is_.
Proof.
  remember (length bytes) as len eqn:Hlen. revert bytes v Hlen. induction (lt_wf len) as [len _ IH].
  intros bytes v -> Hr Hrun Hend. pose proof Hr as (Hb & Hs & Hl).
  destruct (boundary_inv v bytes v' n Hb Hs Hrun Hend) as [(-> & Hn & Hseen) | (m & rest & f & i & -> & Hm & Hne & Hi & Hu & Hrun')].
  { exists [], [], []. split; [done |]. split; [constructor |]. split; [constructor |]. split; [constructor |]. split; [constructor |].
    split; [done |]. intros j Hj. left. unfold unseen in *. by rewrite Hseen. }
  assert (i < length (seen v))%nat as Hilt by (rewrite Hl; by eapply lookup_lt_Some).
  assert (length rest < length (m ++ rest))%nat as Hlt by (rewrite length_app; destruct m; [done | simpl; lia]).
  destruct (IH _ Hlt rest (with_seen i v) eq_refl (ready_seen v i Hr) Hrun' Hend)
    as (ms & fs & is_ & -> & Hms & Hpos & Hnd & Hun & Hn & Hfin).
  rewrite Forall_forall in Hun. setoid_rewrite (unseen_seen v i) in Hun; [| done]. setoid_rewrite (unseen_seen v i) in Hfin; [| done].
  exists (m :: ms), (f :: fs), (i :: is_). split; [by rewrite app_assoc |]. split; [by constructor |]. split; [by constructor |].
  split; [constructor; [intros Hin; by apply Hun in Hin as [_ ?] | done] |].
  split; [constructor; [done |]; apply Forall_forall; intros j Hj; by apply Hun |]. split; [done |].
  intros j Hj. rewrite elem_of_cons. destruct (decide (j = i)) as [-> | Hji]; [right; by left |].
  destruct (Hfin j) as [? | ?]; [done | by left | right; by right].
Qed.

Definition mark_all (v : ArchiveValidator) (is_ : list nat) : ArchiveValidator := foldl (fun v i => with_seen i v) v is_.

Lemma runs_complete members fs is_ v :
  ready v -> Forall2 member members fs -> at_positions (e_files (expected v)) is_ fs -> NoDup is_ -> Forall (unseen v) is_ ->
  steps (mjoin members) v = Some (mark_all v is_) /\ ready (mark_all v is_) /\ expected (mark_all v is_) = expected v
    /\ forall j, unseen (mark_all v is_) j <-> unseen v j /\ j ∉ is_.
Proof.
  intros Hr Hm. revert v is_ Hr. induction Hm as [| m f members fs Hmf Hm IH]; intros v is_ Hr Hpos Hnd Hun.
  { inversion Hpos; subst. split; [done | split; [done | split; [done |]]]. intros j. cbn. rewrite elem_of_nil. tauto. }
  inversion Hpos as [| i ? is' ? Hi Hpos']; subst. apply NoDup_cons in Hnd as [Hnin Hnd]. apply Forall_cons in Hun as [Hu Hun].
  pose proof Hr as (Hb & Hs & Hl). assert (i < length (seen v))%nat as Hilt by (rewrite Hl; by eapply lookup_lt_Some).
  destruct (IH (with_seen i v) is') as (Hrun & Hready & Hexp & Hmarks); [by apply ready_seen | done | done | |].
  { apply Forall_forall. intros j Hj. apply unseen_seen; [done |]. rewrite Forall_forall in Hun. split; [by apply Hun | by intros ->]. }
  split; [| split; [exact Hready | split; [exact Hexp |]]].
  - change (mjoin (m :: members)) with (m ++ mjoin members). rewrite steps_app, (member_steps v m f i) by done. exact Hrun.
  - intros j. cbn. change (foldl _ (with_seen i v) is') with (mark_all (with_seen i v) is').
    rewrite Hmarks, (unseen_seen v i) by done. rewrite elem_of_cons. tauto.
Qed.

Lemma closing_steps v n :
  boundary v -> BLOCK_BYTES <= n <= MAX_TAIL_BYTES ->
  steps (replicate (Z.to_nat n) 0) v = Some (with_stage (InEnd n) v).
Proof.
  intros [Hst Hh] Hn. unfold BLOCK_BYTES in Hn.
  replace (Z.to_nat n) with (512 + Z.to_nat (n - 512))%nat by lia. rewrite replicate_add, steps_app.
  rewrite (steps_full (replicate 512 0)) by (done || (rewrite Hh; done)). rewrite Hh. cbn [app].
  unfold accepted, accept_header. cbn [header with_header]. rewrite all_zero_replicate. cbn [mbind option_bind].
  rewrite (steps_end _ _ BLOCK_BYTES) by (by destruct v). rewrite all_zero_replicate, length_replicate.
  rewrite (proj2 (Z.leb_le _ _)) by (unfold BLOCK_BYTES; lia). cbn [andb].
  replace (BLOCK_BYTES + Z.of_nat (Z.to_nat (n - 512))) with n; [destruct v as [e sn h s t fl]; cbn [header] in Hh; by subst |].
  unfold BLOCK_BYTES. lia.
Qed.

(** ** Positions and files *)
Lemma positions_perm files is_ fs :
  at_positions files is_ fs -> is_ ≡ₚ seq 0 (length files) -> fs ≡ₚ files.
Proof.
  intros Hpos Hp. assert (fs = omap (fun i => files !! i) is_) as ->.
  { clear Hp. induction Hpos as [| i f is_ fs Hi Hpos IH]; [done |]. cbn. by rewrite Hi, <- IH. }
  rewrite Hp. clear. assert (forall pre, omap (fun i => (pre ++ files) !! i) (seq (length pre) (length files)) = files) as Haux; [| specialize (Haux []); cbn [length app] in Haux; by rewrite Haux].
  induction files as [| f files IH]; intros pre; [done |]. cbn [length seq omap list_omap].
  rewrite list_lookup_middle by done. f_equal. specialize (IH (pre ++ [f])). rewrite length_app, <- app_assoc in IH. cbn [length app] in IH.
  by rewrite Nat.add_1_r in IH.
Qed.

Lemma perm_positions files fs :
  fs ≡ₚ files -> exists is_, at_positions files is_ fs /\ is_ ≡ₚ seq 0 (length files).
Proof.
  intros Hp. symmetry in Hp. assert (forall files, exists is_, at_positions files is_ files /\ is_ ≡ₚ seq 0 (length files)) as Hid.
  { clear. intros files. exists (seq 0 (length files)). split; [| done]. apply Forall2_same_length_lookup_2; [apply length_seq |].
    intros i j f Hj Hf. apply lookup_seq in Hj as [-> _]. done. }
  apply Permutation_sym in Hp. destruct (Hid files) as (is_ & Hpos & Hperm).
  assert (forall fs fs', fs ≡ₚ fs' -> forall is_, at_positions files is_ fs' -> exists is', at_positions files is' fs /\ is' ≡ₚ is_) as Htrans.
  { clear. induction 1 as [| x l l' Hp IH | x y l | l1 l2 l3 Hp1 IH1 Hp2 IH2]; intros is_ Hpos.
    - inversion Hpos; subst. by exists [].
    - inversion Hpos as [| i ? is' ? Hi Hpos']; subst. destruct (IH _ Hpos') as (is'' & H1 & H2). exists (i :: is''). split; [by constructor | by rewrite H2].
    - inversion Hpos as [| i ? is' ? Hi Hpos']; subst. inversion Hpos' as [| j ? is'' ? Hj Hpos'']; subst.
      exists (j :: i :: is''). split; [by repeat constructor | apply Permutation_swap].
    - destruct (IH2 _ Hpos) as (is2 & H1 & H2). destruct (IH1 _ H1) as (is1 & H3 & H4). exists is1. split; [done | by rewrite H4]. }
  destruct (Htrans fs files Hp is_ Hpos) as (is' & H1 & H2). exists is'. split; [done | by rewrite H2].
Qed.

(** ** Manifests *)
Definition total_payload (files : list ExpectedFile) : Z := foldr (fun f n => f_size f + n) 0 files.

Lemma payload_total_spec files total n :
  Forall (fun f => 0 <= f_size f) files -> total <= MAX_PAYLOAD_BYTES ->
  payload_total total files = Ok n <-> total + total_payload files <= MAX_PAYLOAD_BYTES /\ n = total + total_payload files.
Proof.
  intros Hsz. revert total. induction Hsz as [| f files Hf Hsz IH]; intros total Ht; cbn [payload_total total_payload foldr].
  { rewrite Z.add_0_r. split; [intros [= <-]; done | intros [_ ->]; done]. }
  fold (total_payload files). assert (0 <= total_payload files) as Hpos by (clear IH; induction Hsz; simpl; lia).
  unfold checked_add. destruct (Z.leb_spec (total + f_size f) U64_MAX); cbn [mbind option_bind].
  2:{ split; [done | unfold U64_MAX, MAX_PAYLOAD_BYTES in *; lia]. }
  destruct (Z.leb_spec (total + f_size f) MAX_PAYLOAD_BYTES); cbn [ok_or rbind]; [| split; [done | lia]].
  rewrite IH by done. rewrite !Z.add_assoc. done.
Qed.

Lemma total_payload_perm l k : l ≡ₚ k -> total_payload l = total_payload k.
Proof. unfold total_payload. induction 1; cbn; lia. Qed.

Definition beneath (f g : ExpectedFile) : Prop := exists rest, f_path g = f_path f ++ 47 :: rest.

Lemma under_file_spec files path :
  strict f_path files -> under_file files path = true <-> exists f rest, f ∈ files /\ path = f_path f ++ 47 :: rest.
Proof.
  intros Hs. unfold under_file. rewrite existsb_exists. split.
  - intros (i & _ & Hi). destruct (path !! i) as [b |] eqn:Eb; [| done]. bool_prop.
    match goal with H : is_Some _ |- _ => destruct H as [j Hj] end. apply find_path_spec in Hj as (f & Hf & Hp); [| done].
    exists f, (drop (S i) path). split; [by eapply list_elem_of_lookup_2 |]. subst b.
    rewrite Hp. rewrite <- (take_drop i path) at 1. f_equal. by apply drop_S.
  - intros (f & rest & Hf & ->). exists (length (f_path f)). split.
    + apply in_seq. rewrite length_app. simpl. lia.
    + rewrite list_lookup_middle by done. cbn [Z.eqb Pos.eqb andb]. apply bool_decide_eq_true.
      apply list_elem_of_lookup in Hf as [j Hj]. exists j. apply find_path_spec; [done |]. exists f. split; [done |].
      by rewrite take_app_length.
Qed.

(** A manifest is accepted exactly when it lists between one and 4096
    files of at most 64 MiB together, with distinct paths, none of which is a
    directory above another one; it then holds exactly the listed files, in
    path order. The check is complete although it only probes the prefix
    before each separator. *)
Theorem ExpectedArchive_new_spec files e :
  Forall (fun f => 0 <= f_size f) files ->
  ExpectedArchive_new files = Ok e <->
  files <> [] /\ zlen files <= MAX_FILES /\ total_payload files <= MAX_PAYLOAD_BYTES
  /\ NoDup (f_path <$> files) /\ (forall f g, f ∈ files -> g ∈ files -> ~ beneath f g)
  /\ e = {| e_files := sort_by f_path files; e_payload_bytes := total_payload files |}.
Proof.
  intros Hsz. unfold ExpectedArchive_new.
  assert (windows2_any (fun a b => eqb (f_path a) (f_path b)) (sort_by f_path files) = false <-> NoDup (f_path <$> files)) as Hdup.
  { apply (sorted_distinct f_path files). }
  assert (NoDup (f_path <$> files) -> existsb (fun f => under_file (sort_by f_path files) (f_path f)) (sort_by f_path files) = false
          <-> forall f g, f ∈ files -> g ∈ files -> ~ beneath f g) as Hunder.
  { intros Hnd. pose proof (sort_by_strict f_path files Hnd) as Hs. rewrite existsb_false_Forall, Forall_forall.
    setoid_rewrite elem_of_sort_by. split.
    - intros Hall f g Hf Hg [rest Hr]. specialize (Hall g Hg). apply not_true_iff_false in Hall. apply Hall.
      apply under_file_spec; [done |]. exists f, rest. by rewrite elem_of_sort_by.
    - intros Hno g Hg. apply not_true_iff_false. rewrite (under_file_spec _ _ Hs). intros (f & rest & Hf & Hr).
      apply elem_of_sort_by in Hf. apply (Hno f g Hf Hg). by exists rest. }
  split.
  - intros He. apply fail_if_ok in He as [Hne He]. apply fail_if_ok in He as [Hlen He]. apply rbind_ok in He as (n & Hn & He).
    cbv zeta in He. apply fail_if_ok in He as [Hd He]. apply fail_if_ok in He as [Hu [= <-]]. bool_prop.
    apply payload_total_spec in Hn as [Hmax ->]; [| done | done]. apply Hdup in Hd. pose proof (proj1 (Hunder Hd) Hu). done.
  - intros (Hne & Hlen & Hmax & Hd & Hno & ->). rewrite bool_decide_false by done. rewrite (proj2 (Z.ltb_ge _ _)) by done.
    rewrite (proj2 (payload_total_spec files 0 (total_payload files) Hsz ltac:(done))) by (rewrite Z.add_0_l; done). cbn [rbind]. cbv zeta.
    rewrite (proj2 Hdup Hd), (proj2 (Hunder Hd) Hno). done.
Qed.

(** ** Archives *)
Lemma finish_spec v s :
  failure v = None -> finish v = Ok s <->
  exists n, stage v = InEnd n /\ 2 * BLOCK_BYTES <= n /\ n mod BLOCK_BYTES = 0 /\ existsb negb (seen v) = false
    /\ s = {| sum_files := zlen (e_files (expected v)); sum_payload_bytes := e_payload_bytes (expected v); sum_archive_bytes := total v |}.
Proof.
  intros Hf. unfold finish. rewrite Hf. split.
  - destruct (stage v) as [| | | n]; try done. intros Hs. apply fail_if_ok in Hs as [Hn Hs]. apply fail_if_ok in Hs as [Hseen [= <-]].
    bool_prop. exists n. done.
  - intros (n & -> & Hn & Hm & -> & ->). rewrite (proj2 (Z.leb_le _ _)), Hm by done. done.
Qed.

Lemma all_seen v : length (seen v) = length (e_files (expected v)) ->
  existsb negb (seen v) = false <-> forall i, (i < length (e_files (expected v)))%nat -> ~ unseen v i.
Proof.
  intros Hl. rewrite existsb_false_Forall, Forall_lookup. unfold unseen. split.
  - intros Hall i Hi. rewrite <- Hl in Hi. destruct (lookup_lt_is_Some_2 _ _ Hi) as [b Hb]. rewrite Hb. cbn.
    specialize (Hall i b Hb). by destruct b.
  - intros Hall i b Hb. assert (i < length (e_files (expected v)))%nat as Hi by (rewrite <- Hl; by eapply lookup_lt_Some).
    specialize (Hall i Hi). rewrite Hb in Hall. cbn in Hall. by destruct b.
Qed.

Lemma steps_seen_length l v v' : steps l v = Some v' -> length (seen v') = length (seen v).
Proof.
  revert v. induction l as [| b l IH]; intros v Hs; [by apply some_eq in Hs as <- |]. cbn [steps] in Hs.
  destruct (step v b) as [w |] eqn:E; [| done]. apply IH in Hs as ->. clear IH.
  unfold step in E. destruct (stage v) as [| r p | r | n].
  - cbv zeta in E. destruct (_ =? BLOCK_BYTES); [| by apply some_eq in E as <-]. unfold accepted, accept_header in E.
    cbn [header with_header] in E. destruct (all_zero _); [by apply some_eq in E as <- |].
    destruct (parse _) as [entry |]; [| done]. destruct (find_path _ _) as [i |]; [| done].
    destruct (_ || _); [done |]. apply some_eq in E as <-. destruct (0 <? h_size entry); cbn; by rewrite length_insert.
  - by apply some_eq in E as <-.
  - destruct (b =? 0); [by apply some_eq in E as <- | done].
  - destruct (_ && _); [by apply some_eq in E as <- | done].
Qed.

Lemma new_ready files e : ExpectedArchive_new files = Ok e -> ready (ArchiveValidator_new e) /\ e_files e ≡ₚ files.
Proof.
  unfold ExpectedArchive_new. intros He. apply fail_if_ok in He as [_ He]. apply fail_if_ok in He as [_ He].
  apply rbind_ok in He as (n & _ & He). cbv zeta in He. apply fail_if_ok in He as [Hd He]. apply fail_if_ok in He as [_ [= <-]].
  split; [| apply sort_by_perm]. split; [done | split; [| by apply length_replicate]]. cbn [expected e_files ArchiveValidator_new].
  apply (sort_by_strict f_path). by apply (sorted_distinct f_path files).
Qed.

(** C3: The streaming validator accepts exactly the archives of its manifest,
    whatever the chunks: fed chunks of at most 64 KiB, it succeeds if and only
    if the whole stream is at most 72 MiB and consists of one well-formed
    member for every listed file, each exactly once and with its exact size,
    in any order and zero-padded to blocks, followed by at least two and at
    most 64 zero blocks. The summary reports the manifest's counts and the
    exact number of bytes. *)
Theorem validate_stream_spec files e chunks s :
  ExpectedArchive_new files = Ok e ->
  validate_stream e chunks = Ok s <->
  Forall (fun c => zlen c <= MAX_CHUNK_BYTES) chunks /\ zlen (mjoin chunks) <= MAX_ARCHIVE_BYTES
  /\ (exists fs, fs ≡ₚ files /\ archive_of fs (mjoin chunks))
  /\ s = {| sum_files := zlen files; sum_payload_bytes := e_payload_bytes e; sum_archive_bytes := zlen (mjoin chunks) |}.
Proof.
  intros He. destruct (new_ready files e He) as [Hr Hperm]. set (v0 := ArchiveValidator_new e) in *.
  pose proof (feed_all_steps chunks v0 ltac:(done) ltac:(done) ltac:(done)) as Hfeed. unfold validate_stream. fold v0.
  change (total v0) with 0 in Hfeed. rewrite !Z.add_0_l in Hfeed. set (bytes := mjoin chunks) in *.
  assert (zlen files = zlen (e_files e)) as Hlen by by rewrite Hperm.
  assert (forall i, unseen v0 i) as Hun0.
  { intros i. unfold unseen. cbn. destruct (decide (i < length (e_files e))%nat); [by rewrite lookup_replicate_2 |].
    by rewrite (proj1 (lookup_replicate_None _ _ _)) by lia. }
  destruct (feed_all chunks v0) as [v [[] | err]].
  - destruct Hfeed as (Hch & Htot & Hs). destruct (steps bytes v0) as [w |] eqn:Es; [apply some_eq in Hs as <- | done].
    pose proof (steps_failure _ _ _ Es) as [Hfw Hew]. pose proof (steps_seen_length _ _ _ Es) as Hlw.
    assert (length (seen w) = length (e_files (expected w))) as Hlen_w by (rewrite Hlw, Hew; apply Hr).
    rewrite finish_spec by (by destruct w). split.
    + intros (n & Hst & Hn & Hm & Hseen & ->). split; [done | split; [done |]].
      destruct (runs_sound bytes v0 w n Hr Es) as (ms & fs & is_ & Hb & Hms & Hpos & Hnd & _ & Hnb & Hfin); [by destruct w |].
      split; [| destruct w; cbn in *; by rewrite Hew, Hlen].
      exists fs. rewrite <- Hperm. split; [| exists ms, n; split; [done | split; [done | split; [lia | done]]]].
      eapply positions_perm; [exact Hpos |]. apply NoDup_Permutation; [done | apply NoDup_seq |]. intros i. split.
      * intros Hi. apply elem_of_seq. split; [lia |]. apply list_elem_of_lookup in Hi as [k Hk].
        destruct (Forall2_lookup_l _ _ _ _ _ Hpos Hk) as (f & _ & Hf). by apply lookup_lt_Some in Hf.
      * intros [_ Hi]%elem_of_seq. destruct (Hfin i (Hun0 i)) as [Hw | Hw]; [| done]. exfalso.
        pose proof (proj1 (all_seen w Hlen_w) Hseen) as Hall. rewrite Hew in Hall. by apply (Hall i).
    + intros (_ & _ & (fs & Hfs & ms & n & Hb & Hms & Hn & Hm) & ->). rewrite <- Hperm in Hfs.
      destruct (perm_positions _ _ Hfs) as (is_ & Hpos & His).
      destruct (runs_complete ms fs is_ v0 Hr Hms Hpos) as (Hrun & Hready & Hexp & Hmarks); [rewrite His; apply NoDup_seq | by apply Forall_forall |].
      destruct Hready as (Hbd & _ & _). pose proof (closing_steps (mark_all v0 is_) n Hbd ltac:(unfold BLOCK_BYTES in *; lia)) as Hclose.
      rewrite Hb, steps_app, Hrun in Es. cbn [mbind option_bind] in Es. rewrite Hclose in Es. apply some_eq in Es as <-.
      exists n. split; [done | split; [lia | split; [done |]]]. split.
      * apply (all_seen (with_total (zlen bytes) (with_stage (InEnd n) (mark_all v0 is_)))); [done |].
        intros i Hi Hw. cbn [expected with_total with_stage] in Hi. rewrite Hexp in Hi.
        apply Hmarks in Hw as [_ Hnin]. apply Hnin. rewrite His. apply elem_of_seq. cbn in Hi. lia.
      * cbn [expected with_total with_stage total]. rewrite Hexp, Hlen. done.
  - split; [done |]. intros (Hch & Htot & (fs & Hfs & ms & n & Hb & Hms & Hn & Hm) & _). exfalso. apply Hfeed.
    split; [done | split; [done |]]. rewrite <- Hperm in Hfs. destruct (perm_positions _ _ Hfs) as (is_ & Hpos & His).
    destruct (runs_complete ms fs is_ v0 Hr Hms Hpos) as (Hrun & Hready & _ & _); [rewrite His; apply NoDup_seq | by apply Forall_forall |].
    destruct Hready as (Hbd & _ & _). rewrite Hb, steps_app, Hrun. cbn [mbind option_bind].
    rewrite closing_steps by (done || (unfold BLOCK_BYTES in *; lia)). by eexists.
Qed.

(** A failure is final: once a chunk is refused, the validator returns
    the same error for every later chunk and for [finish], and no summary of
    the stream can be obtained. *)
Theorem archive_failure_latched v chunk e v' :
  feed chunk v = (v', Err e) ->
  finish v' = Err e /\ forall later, feed_all later v' = (v', match later with [] => Ok tt | _ => Err e end).
Proof.
  intros Hf%feed_failure. unfold finish. rewrite Hf. split; [done |]. intros [| c later]; [done |].
  cbn [feed_all]. unfold st_bind. by rewrite (feed_latched c v' e Hf).
Qed.

(** ** A concrete archive *)
Definition pad_to (n : nat) (l : list Z) : list Z := l ++ replicate (n - length l) 0.
Fixpoint octal_text (width : nat) (n : Z) : list Z :=
  match width with
  | O => []
  | S width => octal_text width (n / 8) ++ [48 + n mod 8]
  end.
(** A ustar header as [tar] writes it. *)
Definition demo_header (path : string) (size : Z) : list Z :=
  let before := pad_to 100 (str_bytes path) ++ octal_text 7 420 ++ [0] ++ octal_text 7 0 ++ [0] ++ octal_text 7 0 ++ [0]
                ++ octal_text 11 size ++ [0] ++ octal_text 11 1700000000 ++ [0] in
  let after := [48] ++ replicate 100 0 ++ str_bytes "ustar" ++ [0; 48; 48] ++ pad_to 32 (str_bytes "root") ++ pad_to 32 (str_bytes "root")
               ++ replicate 183 0 in
  let sum := checksum (before ++ replicate 8 32 ++ after) in
  before ++ octal_text 6 sum ++ [0; 32] ++ after.
Definition demo_file : ExpectedFile := {| f_path := str_bytes "etc/config/network"; f_size := 3 |}.
Definition demo_archive : list Z :=
  demo_header "etc/config/network" 3 ++ [97; 98; 99] ++ replicate 509 0 ++ replicate 1024 0.

Lemma ExpectedArchive_new_spec_witness :
  exists e, ExpectedArchive_new [demo_file] = Ok e /\ NoDup (f_path <$> [demo_file]).
Proof.
  eexists. split; [reflexivity |].
  refine (proj1 (proj2 (proj2 (proj2 (proj1 (ExpectedArchive_new_spec [demo_file] _ _) eq_refl))))).
  constructor; [vm_compute; congruence | constructor].
Defined.

Definition demo_manifest : ExpectedArchive := {| e_files := [demo_file]; e_payload_bytes := 3 |}.
Definition demo_chunks : list (list Z) := [take 700 demo_archive; drop 700 demo_archive].

Lemma validate_stream_spec_witness :
  ExpectedArchive_new [demo_file] = Ok demo_manifest /\ exists fs, fs ≡ₚ [demo_file] /\ archive_of fs (mjoin demo_chunks).
Proof.
  assert (ExpectedArchive_new [demo_file] = Ok demo_manifest) as He by (vm_compute; reflexivity). split; [exact He |].
  assert (validate_stream demo_manifest demo_chunks = Ok {| sum_files := 1; sum_payload_bytes := 3; sum_archive_bytes := 2048 |}) as Hv
    by (vm_compute; reflexivity).
  destruct (proj1 (validate_stream_spec [demo_file] demo_manifest demo_chunks _ He) Hv) as (_ & _ & Hfs & _). exact Hfs.
Defined.

Lemma archive_failure_latched_witness :
  let v := ArchiveValidator_new demo_manifest in
  let v' := with_failure InvalidHeader (with_total 512 (with_header (replicate 512 65) v)) in
  feed (replicate 512 65) v = (v', Err InvalidHeader) /\ finish v' = Err InvalidHeader.
Proof.
  cbv zeta. set (v' := with_failure _ _).
  assert (feed (replicate 512 65) (ArchiveValidator_new demo_manifest) = (v', Err InvalidHeader)) as Hf by (vm_compute; reflexivity).
  split; [exact Hf |]. destruct (archive_failure_latched _ _ _ _ Hf) as [Hfin _]. exact Hfin.
Defined.
