(* ===== verification/Gzip.v ===== *)
(** * Bounded loops

    A [loop] whose iterations are a function on its state.  [iterate k] runs up
    to two to the power [k] iterations, so that generous bounds stay cheap to
    evaluate; a decreasing measure shows that the bound is never reached. *)
From S2P Require Import Prelude Order Text Archive.
Open Scope Z_scope.

Inductive round (S R : Type) : Type :=
| Again (s : S)
| Done (r : R).
Arguments Again {S R} s.
Arguments Done {S R} r.

Fixpoint iterate {S R} (k : nat) (body : S -> round S R) (s : S) : round S R :=
  match k with
  | O => body s
  | Datatypes.S k => match iterate k body s with Again s => iterate k body s | Done r => Done r end
  end.

(** A body that stops at once. *)
Lemma iterate_stops {S R} k (body : S -> round S R) s r : body s = Done r -> iterate k body s = Done r.
Proof. intros Hb. induction k as [| k IH]; cbn [iterate]; [done | by rewrite IH]. Qed.

Section iterate.
Context {S R : Type} (body : S -> round S R) (measure : S -> Z) (inv : S -> Prop) (post : R -> Prop).
Hypothesis measure_nonneg : forall s, inv s -> 0 <= measure s.
Hypothesis body_again : forall s s', inv s -> body s = Again s' -> inv s' /\ measure s' < measure s.
Hypothesis body_done : forall s r, inv s -> body s = Done r -> post r.

Lemma iterate_step k s :
  inv s ->
  match iterate k body s with
  | Again s' => inv s' /\ measure s' <= measure s - 2 ^ Z.of_nat k
  | Done r => post r
  end.
Proof.
  revert s. induction k as [| k IH]; intros s Hs; cbn [iterate].
  - destruct (body s) as [s' | r] eqn:E; [| by eapply body_done]. apply body_again in E as [Hi Hm]; [| done].
    split; [done |]. change (2 ^ Z.of_nat 0) with 1. lia.
  - specialize (IH s Hs) as H1. destruct (iterate k body s) as [s1 | r]; [| done]. destruct H1 as [Hi1 Hm1].
    specialize (IH s1 Hi1). destruct (iterate k body s1) as [s2 | r]; [| done]. destruct IH as [Hi2 Hm2].
    split; [done |]. rewrite Nat2Z.inj_succ, Z.pow_succ_r by lia. lia.
Qed.

(** The loop ends, in a result of the postcondition. *)
Lemma iterate_done k s : inv s -> measure s < 2 ^ Z.of_nat k -> exists r, iterate k body s = Done r /\ post r.
Proof.
  intros Hs Hm. pose proof (iterate_step k s Hs) as Hi. destruct (iterate k body s) as [s' | r]; [| by exists r].
  destruct Hi as [Hi Hle]. apply measure_nonneg in Hi. lia.
Qed.
End iterate.

(** * The gzip wrapper

    [crates/device-codec/src/gzip/]: the admission of the member header and the
    bounded loop around the inflate backend.  The backend ([flate2]'s
    [Decompress]) is a parameter: its state, its counters and one call, which
    writes bytes to the output buffer and returns a status or an error. *)

Definition MAX_SOURCE_BYTES : Z := 72 * 1024 * 1024.
Definition MAX_HEADER_BYTES : Z := 4096.
Definition MAX_EXTRA_BYTES : Z := 4084.
Definition MAX_NAME_BYTES : Z := 1024.
Definition MAX_COMMENT_BYTES : Z := 1024.
Definition OUTPUT_BUFFER_BYTES : Z := 4096.
Definition MAX_EXPANSION_RATIO : Z := 128.
Definition EXPANSION_SLACK_BYTES : Z := 1024 * 1024.

Record GzipArchiveSummary : Type := {
  gz_compressed_bytes : Z; gz_files : Z; gz_payload_bytes : Z; gz_archive_bytes : Z
}.

Inductive GzipError : Type :=
| GzInvalidHeader | GzInvalidData | GzLimitExceeded | GzIncompleteStream | GzTrailingData | GzInvalidArchive.
#[export] Instance GzipError_eq_dec : EqDecision GzipError.
Proof. solve_decision. Defined.

Definition gzip_code (e : GzipError) : string :=
  match e with
  | GzInvalidHeader => "invalid_gzip_header"
  | GzInvalidData => "invalid_gzip_data"
  | GzLimitExceeded => "gzip_limit_exceeded"
  | GzIncompleteStream => "incomplete_gzip_stream"
  | GzTrailingData => "trailing_gzip_data"
  | GzInvalidArchive => "invalid_gzip_archive"
  end.

(** [impl From<ArchiveError> for GzipError] *)
Definition from_archive (e : ArchiveError) : GzipError :=
  match e with LimitExceeded => GzLimitExceeded | _ => GzInvalidArchive end.

(** ** The header *)
Inductive HStage : Type :=
| HFixed
| HExtraLength (low : option Z)
| HExtra (remaining : Z)
| HName (bytes : Z)
| HComment (bytes : Z)
| HCrc (remaining : Z)
| HDone.

(** [bytes] with [length]: the bytes stored so far. *)
Record GzHeader : Type := { h_bytes : list Z; h_flags : Z; h_stage : HStage }.
Definition GzHeader_new : GzHeader := {| h_bytes := []; h_flags := 0; h_stage := HFixed |}.
Definition h_complete (h : GzHeader) : bool := match h_stage h with HDone => true | _ => false end.

Definition with_hstage (s : HStage) (h : GzHeader) : GzHeader :=
  {| h_bytes := h_bytes h; h_flags := h_flags h; h_stage := s |}.

(** [self.flags & bit != 0] and [self.flags &= !bit] *)
Definition has_flag (bit flags : Z) : bool := negb (Z.land flags bit =? 0).
Definition clear_flag (bit flags : Z) : Z := Z.ldiff flags bit.

Definition advance (h : GzHeader) : GzHeader :=
  let f := h_flags h in
  if has_flag 4 f then {| h_bytes := h_bytes h; h_flags := clear_flag 4 f; h_stage := HExtraLength None |}
  else if has_flag 8 f then {| h_bytes := h_bytes h; h_flags := clear_flag 8 f; h_stage := HName 0 |}
  else if has_flag 16 f then {| h_bytes := h_bytes h; h_flags := clear_flag 16 f; h_stage := HComment 0 |}
  else if has_flag 2 f then {| h_bytes := h_bytes h; h_flags := clear_flag 2 f; h_stage := HCrc 2 |}
  else with_hstage HDone h.

(** What one stored byte does to the stage. *)
Definition header_byte (h : GzHeader) (byte : Z) : result GzipError GzHeader :=
  match h_stage h with
  | HFixed =>
      if zlen (h_bytes h) =? 10 then
        let flags := default 0 (h_bytes h !! 3%nat) in
        fail_if negb (bool_decide (take 3 (h_bytes h) = [31; 139; 8])) || has_flag 224 flags with GzInvalidHeader in
        Ok (advance {| h_bytes := h_bytes h; h_flags := flags; h_stage := HFixed |})
      else Ok h
  | HExtraLength None => Ok (with_hstage (HExtraLength (Some byte)) h)
  | HExtraLength (Some low) =>
      let remaining := low + 256 * byte in
      fail_if MAX_EXTRA_BYTES <? remaining with GzLimitExceeded in
      Ok (if remaining =? 0 then advance h else with_hstage (HExtra remaining) h)
  | HExtra remaining => Ok (if remaining =? 1 then advance h else with_hstage (HExtra (remaining - 1)) h)
  | HCrc remaining => Ok (if remaining =? 1 then advance h else with_hstage (HCrc (remaining - 1)) h)
  | HName bytes =>
      let bytes := bytes + 1 in
      fail_if MAX_NAME_BYTES <? bytes with GzLimitExceeded in
      Ok (if byte =? 0 then advance h else with_hstage (HName bytes) h)
  | HComment bytes =>
      let bytes := bytes + 1 in
      fail_if MAX_COMMENT_BYTES <? bytes with GzLimitExceeded in
      Ok (if byte =? 0 then advance h else with_hstage (HComment bytes) h)
  | HDone => Err GzInvalidHeader
  end.

Fixpoint header_feed (h : GzHeader) (consumed : Z) (input : list Z) : result GzipError (GzHeader * Z) :=
  match input with
  | [] => Ok (h, consumed)
  | byte :: input =>
      if h_complete h then Ok (h, consumed)
      else
        fail_if zlen (h_bytes h) =? MAX_HEADER_BYTES with GzLimitExceeded in
        let? h := header_byte {| h_bytes := h_bytes h ++ [byte]; h_flags := h_flags h; h_stage := h_stage h |} byte in
        header_feed h (consumed + 1) input
  end.

(** ** The wrapper *)
Inductive Status : Type := StatusOk | BufError | StreamEnd.
#[export] Instance Status_eq_dec : EqDecision Status.
Proof. solve_decision. Defined.

Section wrapper.
Context {D : Type} (new_gzip : D) (total_in total_out : D -> Z) (decompress : D -> list Z -> D * option (Status * list Z)).

Record GzipArchiveValidator : Type := {
  g_header : option GzHeader; g_decoder : option D; g_inner : option ArchiveValidator;
  g_source_bytes : Z; g_header_bytes : Z; g_deflate_bytes : Z; g_complete : bool; g_failure : option GzipError
}.

Definition GzipArchiveValidator_new (e : ExpectedArchive) : GzipArchiveValidator :=
  {| g_header := Some GzHeader_new; g_decoder := None; g_inner := Some (ArchiveValidator_new e);
     g_source_bytes := 0; g_header_bytes := 0; g_deflate_bytes := 0; g_complete := false; g_failure := None |}.

Definition g_set (header : option GzHeader) (decoder : option D) (inner : option ArchiveValidator) (g : GzipArchiveValidator) :=
  {| g_header := header; g_decoder := decoder; g_inner := inner; g_source_bytes := g_source_bytes g;
     g_header_bytes := g_header_bytes g; g_deflate_bytes := g_deflate_bytes g; g_complete := g_complete g; g_failure := g_failure g |}.
Definition g_with_source (n : Z) (g : GzipArchiveValidator) :=
  {| g_header := g_header g; g_decoder := g_decoder g; g_inner := g_inner g; g_source_bytes := n;
     g_header_bytes := g_header_bytes g; g_deflate_bytes := g_deflate_bytes g; g_complete := g_complete g; g_failure := g_failure g |}.
Definition g_with_header_bytes (n : Z) (g : GzipArchiveValidator) :=
  {| g_header := g_header g; g_decoder := g_decoder g; g_inner := g_inner g; g_source_bytes := g_source_bytes g;
     g_header_bytes := n; g_deflate_bytes := g_deflate_bytes g; g_complete := g_complete g; g_failure := g_failure g |}.
Definition g_finished (n : Z) (g : GzipArchiveValidator) :=
  {| g_header := g_header g; g_decoder := None; g_inner := g_inner g; g_source_bytes := g_source_bytes g;
     g_header_bytes := g_header_bytes g; g_deflate_bytes := n; g_complete := true; g_failure := g_failure g |}.
Definition g_failed (e : GzipError) (g : GzipArchiveValidator) :=
  {| g_header := None; g_decoder := None; g_inner := None; g_source_bytes := g_source_bytes g;
     g_header_bytes := g_header_bytes g; g_deflate_bytes := g_deflate_bytes g; g_complete := g_complete g; g_failure := Some e |}.

(** [now.checked_sub(before).filter(|n| *n <= limit)] *)
Definition progress (before now limit : Z) : option Z :=
  n ← checked_sub now before; if n <=? limit then Some n else None.

(** [deflate_bytes] at the end of the stream. *)
Definition deflate_size (total_in header_bytes : Z) : option Z :=
  n ← checked_sub total_in header_bytes; n ← checked_sub n 8; if 0 <? n then Some n else None.

(** [self.output], zero before the call, after the backend wrote [bytes] to it. *)
Definition output_buffer (bytes : list Z) : list Z :=
  take (Z.to_nat OUTPUT_BUFFER_BYTES) (bytes ++ replicate (Z.to_nat OUTPUT_BUFFER_BYTES) 0).

(** One iteration of [decode]'s loop, on the validator and the input left. *)
Definition decode_round (s : GzipArchiveValidator * list Z) :
    round (GzipArchiveValidator * list Z) (GzipArchiveValidator * result GzipError unit) :=
  let '(g, input) := s in
  match g_decoder g with
  | None => Done (g, Err GzInvalidData)
  | Some d =>
      let '(d', call) := decompress d input in
      let g := g_set (g_header g) (Some d') (g_inner g) g in
      match call with
      | None => Done (g, Err GzInvalidData)
      | Some (status, bytes) =>
          match progress (total_in d) (total_in d') (zlen input), progress (total_out d) (total_out d') OUTPUT_BUFFER_BYTES with
          | Some used, Some written =>
              match g_inner g with
              | None => Done (g, Err GzInvalidData)
              | Some inner =>
                  let '(inner, fed) := feed (take (Z.to_nat written) (output_buffer bytes)) inner in
                  let g := g_set (g_header g) (Some d') (Some inner) g in
                  match fed with
                  | Err e => Done (g, Err (from_archive e))
                  | Ok _ =>
                      let input := drop (Z.to_nat used) input in
                      if decide (status = StreamEnd) then
                        match input with
                        | _ :: _ => Done (g, Err GzTrailingData)
                        | [] =>
                            if negb (total_in d' =? g_source_bytes g) then Done (g, Err GzInvalidData)
                            else match deflate_size (total_in d') (g_header_bytes g) with
                                 | None => Done (g, Err GzInvalidData)
                                 | Some n => Done (g_finished n g, Ok tt)
                                 end
                        end
                      else if (used =? 0) && (written =? 0) then
                        match input with [] => Done (g, Ok tt) | _ :: _ => Done (g, Err GzInvalidData) end
                      else if bool_decide (input = []) && (written <? OUTPUT_BUFFER_BYTES) then Done (g, Ok tt)
                      else Again (g, input)
                  end
              end
          | _, _ => Done (g, Err GzInvalidData)
          end
      end
  end.

(** The archive limit bounds the iterations; 2^27 are more than enough. *)
Definition DECODE_ROUNDS : nat := 27.
Definition decode (input : list Z) : ST GzipArchiveValidator GzipError unit := fun g =>
  match iterate DECODE_ROUNDS decode_round (g, input) with
  | Done r => r
  | Again (g, _) => (g, Err GzInvalidData)
  end.

Definition gzip_feed_inner (input : list Z) : ST GzipArchiveValidator GzipError unit := fun g =>
  if MAX_CHUNK_BYTES <? zlen input then (g, Err GzLimitExceeded)
  else
    match (n ← checked_add (g_source_bytes g) (zlen input); if n <=? MAX_SOURCE_BYTES then Some n else None) with
    | None => (g, Err GzLimitExceeded)
    | Some n =>
        let g := g_with_source n g in
        if g_complete g then (g, if bool_decide (input = []) then Ok tt else Err GzTrailingData)
        else
          match g_header g with
          | None => decode input g
          | Some h =>
              match header_feed h 0 input with
              | Err e => (g, Err e)
              | Ok (h, consumed) =>
                  let input := drop (Z.to_nat consumed) input in
                  if negb (h_complete h) then (g_set (Some h) (g_decoder g) (g_inner g) g, Ok tt)
                  else
                    let g := g_with_header_bytes (zlen (h_bytes h)) (g_set None (Some new_gzip) (g_inner g) g) in
                    st_bind (decode (h_bytes h)) (fun _ => decode input) g
              end
          end
    end.

Definition gzip_feed (input : list Z) : ST GzipArchiveValidator GzipError unit := fun g =>
  match g_failure g with
  | Some e => (g, Err e)
  | None =>
      match gzip_feed_inner input g with
      | (g, Err e) => (g_failed e g, Err e)
      | (g, Ok tt) => (g, Ok tt)
      end
  end.

Definition gzip_finish (g : GzipArchiveValidator) : result GzipError GzipArchiveSummary :=
  match g_failure g with
  | Some e => Err e
  | None =>
      fail_if negb (g_complete g) with GzIncompleteStream in
      let? inner := ok_or (g_inner g) GzInvalidData in
      let? summary := map_err from_archive (finish inner) in
      let? allowed := ok_or (n ← checked_mul (g_deflate_bytes g) MAX_EXPANSION_RATIO; checked_add n EXPANSION_SLACK_BYTES) GzLimitExceeded in
      fail_if allowed <? sum_archive_bytes summary with GzLimitExceeded in
      Ok {| gz_compressed_bytes := g_source_bytes g; gz_files := sum_files summary;
            gz_payload_bytes := sum_payload_bytes summary; gz_archive_bytes := sum_archive_bytes summary |}
  end.

Fixpoint gzip_feed_all (chunks : list (list Z)) : ST GzipArchiveValidator GzipError unit :=
  match chunks with
  | [] => st_ret tt
  | chunk :: chunks => st_bind (gzip_feed chunk) (fun _ => gzip_feed_all chunks)
  end.
Definition validate_gzip (e : ExpectedArchive) (chunks : list (list Z)) : result GzipError GzipArchiveSummary :=
  match gzip_feed_all chunks (GzipArchiveValidator_new e) with
  | (g, Ok tt) => gzip_finish g
  | (_, Err e) => Err e
  end.
End wrapper.
