(* ===== verification/Member.v ===== *)
(** * The admitted gzip headers

    The header automaton accepts exactly the member headers of RFC 1952 with
    bounded optional fields, and consumes exactly their bytes. *)
From S2P Require Import Prelude Order Text Archive Gzip.
Open Scope Z_scope.

(** ** The format *)
Definition optional (present : bool) (p : list Z -> Prop) (l : list Z) : Prop := if present then p l else l = [].
Definition extra_field (l : list Z) : Prop :=
  exists low high data, l = low :: high :: data /\ zlen data = low + 256 * high /\ zlen data <= MAX_EXTRA_BYTES.
Definition zero_terminated (maximum : Z) (l : list Z) : Prop :=
  exists s, l = s ++ [0] /\ Forall (fun b => b <> 0) s /\ zlen s + 1 <= maximum.

(** The optional fields the flags announce, in order. *)
Definition fields_of (flags : Z) (l : list Z) : Prop :=
  exists extra name comment crc, l = extra ++ name ++ comment ++ crc
    /\ optional (has_flag 4 flags) extra_field extra
    /\ optional (has_flag 8 flags) (zero_terminated MAX_NAME_BYTES) name
    /\ optional (has_flag 16 flags) (zero_terminated MAX_COMMENT_BYTES) comment
    /\ optional (has_flag 2 flags) (fun l => zlen l = 2) crc.

Definition member_header (l : list Z) : Prop :=
  exists flags rest fields, l = [31; 139; 8; flags] ++ rest ++ fields /\ length rest = 6%nat
    /\ has_flag 224 flags = false /\ fields_of flags fields /\ zlen l <= MAX_HEADER_BYTES.

(** ** Flags *)
Lemma has_flag_testbit i f : 0 <= i -> has_flag (2 ^ i) f = Z.testbit f i.
Proof.
  intros Hi. unfold has_flag. destruct (Z.testbit f i) eqn:E.
  - apply negb_true_iff, Z.eqb_neq. intros Hz. assert (Z.testbit (Z.land f (2 ^ i)) i = true) as Hb.
    { by rewrite Z.land_spec, E, Z.pow2_bits_true. }
    by rewrite Hz, Z.bits_0 in Hb.
  - apply negb_false_iff, Z.eqb_eq, Z.bits_inj'. intros j Hj. rewrite Z.land_spec, Z.bits_0, Z.pow2_bits_eqb by done.
    destruct (Z.eqb_spec i j) as [-> |]; [by rewrite E | by rewrite andb_false_r].
Qed.

Lemma has_flag_clear i j f : 0 <= i -> 0 <= j ->
  has_flag (2 ^ i) (clear_flag (2 ^ j) f) = has_flag (2 ^ i) f && negb (i =? j).
Proof.
  intros Hi Hj. rewrite !has_flag_testbit by done. unfold clear_flag. rewrite Z.ldiff_spec, Z.pow2_bits_eqb by done.
  by rewrite (Z.eqb_sym j i).
Qed.

(** The four field bits, before and after clearing one. *)
Lemma clear_bits f :
  let '(b4, b8, b16, b2) := (has_flag 4 f, has_flag 8 f, has_flag 16 f, has_flag 2 f) in
  (has_flag 4 (clear_flag 4 f) = false /\ has_flag 8 (clear_flag 4 f) = b8 /\ has_flag 16 (clear_flag 4 f) = b16 /\ has_flag 2 (clear_flag 4 f) = b2)
  /\ (has_flag 4 (clear_flag 8 f) = b4 /\ has_flag 8 (clear_flag 8 f) = false /\ has_flag 16 (clear_flag 8 f) = b16 /\ has_flag 2 (clear_flag 8 f) = b2)
  /\ (has_flag 4 (clear_flag 16 f) = b4 /\ has_flag 8 (clear_flag 16 f) = b8 /\ has_flag 16 (clear_flag 16 f) = false /\ has_flag 2 (clear_flag 16 f) = b2)
  /\ (has_flag 4 (clear_flag 2 f) = b4 /\ has_flag 8 (clear_flag 2 f) = b8 /\ has_flag 16 (clear_flag 2 f) = b16 /\ has_flag 2 (clear_flag 2 f) = false).
Proof.
  change 4 with (2 ^ 2). change 8 with (2 ^ 3). change 16 with (2 ^ 4). change (has_flag 2) with (has_flag (2 ^ 1)). change (clear_flag 2) with (clear_flag (2 ^ 1)).
  rewrite !has_flag_clear by done. cbn [Z.eqb Pos.eqb negb]. rewrite !andb_true_r, !andb_false_r. tauto.
Qed.

(** ** Byte steps *)
Definition push (l : list Z) (h : GzHeader) : GzHeader :=
  {| h_bytes := h_bytes h ++ l; h_flags := h_flags h; h_stage := h_stage h |}.

Fixpoint hsteps (h : GzHeader) (l : list Z) : option GzHeader :=
  match l with
  | [] => Some h
  | b :: l =>
      if h_complete h || (zlen (h_bytes h) =? MAX_HEADER_BYTES) then None
      else match header_byte (push [b] h) b with Ok h => hsteps h l | Err _ => None end
  end.

(** The bytes [l] complete the header, no byte more or less. *)
Definition finishes (h : GzHeader) (l : list Z) : Prop := exists h', hsteps h l = Some h' /\ h_complete h' = true.
Definition fits (h : GzHeader) (l : list Z) : Prop := zlen (h_bytes h) + zlen l <= MAX_HEADER_BYTES.

Lemma hsteps_app h l k : hsteps h (l ++ k) = hsteps h l ≫= fun h => hsteps h k.
Proof.
  revert h. induction l as [| b l IH]; intros h; [done |]. cbn [app hsteps].
  destruct (_ || _); [done |]. destruct (header_byte _ b); [apply IH | done].
Qed.

Lemma advance_bytes h : h_bytes (advance h) = h_bytes h.
Proof. unfold advance. by repeat case_match. Qed.

Lemma header_byte_bytes h b h' : header_byte h b = Ok h' -> h_bytes h' = h_bytes h.
Proof.
  unfold header_byte. destruct h as [bs f s]. cbn [h_bytes h_flags h_stage].
  destruct s as [| [low |] | r | n | n | r |]; cbv zeta; intros Hb; repeat (apply fail_if_ok in Hb as [_ Hb]);
    repeat case_match; simplify_eq; by rewrite ?advance_bytes.
Qed.

Lemma hsteps_bytes h l h' : hsteps h l = Some h' -> h_bytes h' = h_bytes h ++ l.
Proof.
  revert h. induction l as [| b l IH]; intros h Hs; cbn [hsteps] in Hs; [by injection Hs as <-; rewrite app_nil_r |].
  destruct (_ || _); [done |]. destruct (header_byte (push [b] h) b) as [w |] eqn:E; [| done].
  apply IH in Hs as ->. apply header_byte_bytes in E as ->. cbn [h_bytes push]. by rewrite <- app_assoc.
Qed.

Lemma finishes_done h l : h_complete h = true -> finishes h l <-> l = [].
Proof.
  intros Hc. unfold finishes. split; [| intros ->; by exists h]. intros (h' & Hs & _). destruct l; [done |].
  cbn [hsteps] in Hs. by rewrite Hc in Hs.
Qed.

(** One byte of an unfinished header. *)
Lemma finishes_cons h b l h1 :
  h_complete h = false -> header_byte (push [b] h) b = Ok h1 ->
  finishes h (b :: l) <-> zlen (h_bytes h) <> MAX_HEADER_BYTES /\ finishes h1 l.
Proof.
  intros Hc Hb. unfold finishes. cbn [hsteps]. rewrite Hc, Hb. cbn [orb].
  destruct (Z.eqb_spec (zlen (h_bytes h)) MAX_HEADER_BYTES); [split; [by intros (? & ? & _) | by intros []] | tauto].
Qed.

Lemma finishes_err h b l e :
  h_complete h = false -> header_byte (push [b] h) b = Err e -> ~ finishes h (b :: l).
Proof. intros Hc Hb (h' & Hs & _). cbn [hsteps] in Hs. rewrite Hc, Hb in Hs. by destruct (false || _). Qed.

Lemma finishes_nil h : h_complete h = false -> ~ finishes h [].
Proof. intros Hc (h' & [= <-] & Hd). congruence. Qed.

(** ** One optional field *)
Definition after (bs : list Z) (f : Z) : GzHeader := advance {| h_bytes := bs; h_flags := f; h_stage := HFixed |}.

Lemma advance_after bs f s : advance {| h_bytes := bs; h_flags := f; h_stage := s |} = after bs f.
Proof. unfold after, advance, with_hstage. cbn [h_bytes h_flags]. by repeat case_match. Qed.

Lemma count_bound (bs : list Z) : zlen bs <= MAX_HEADER_BYTES -> zlen bs <> MAX_HEADER_BYTES <-> zlen bs + 1 <= MAX_HEADER_BYTES.
Proof. lia. Qed.

Section strings.
Context (mk : Z -> HStage) (maximum : Z).
Hypothesis mk_open : forall bs f n, h_complete {| h_bytes := bs; h_flags := f; h_stage := mk n |} = false.
Hypothesis mk_byte : forall bs f n b,
  header_byte {| h_bytes := bs; h_flags := f; h_stage := mk n |} b
  = if maximum <? n + 1 then Err GzLimitExceeded
    else Ok (if b =? 0 then after bs f else {| h_bytes := bs; h_flags := f; h_stage := mk (n + 1) |}).

Lemma string_stage l bs f n : zlen bs <= MAX_HEADER_BYTES ->
  finishes {| h_bytes := bs; h_flags := f; h_stage := mk n |} l <->
  exists s rest, l = (s ++ [0]) ++ rest /\ Forall (fun b => b <> 0) s /\ n + zlen s + 1 <= maximum
    /\ zlen bs + zlen (s ++ [0]) <= MAX_HEADER_BYTES /\ finishes (after (bs ++ s ++ [0]) f) rest.
Proof.
  revert bs n. induction l as [| b l IH]; intros bs n Hbs.
  { split; [intros []%finishes_nil; apply mk_open |]. intros (s & rest & Hnil & _). by destruct s. }
  destruct (Z.ltb_spec maximum (n + 1)) as [Hmax | Hmax].
  { split.
    - intros []%(finishes_err _ _ _ GzLimitExceeded); [apply mk_open |]. unfold push. cbn [h_bytes h_flags h_stage].
      by rewrite mk_byte, (proj2 (Z.ltb_lt _ _)).
    - intros (s & rest & _ & _ & Hn & _). lia. }
  rewrite (finishes_cons _ _ _ (if b =? 0 then after (bs ++ [b]) f else {| h_bytes := bs ++ [b]; h_flags := f; h_stage := mk (n + 1) |})).
  2:{ apply mk_open. }
  2:{ unfold push. cbn [h_bytes h_flags h_stage]. by rewrite mk_byte, (proj2 (Z.ltb_ge _ _)). }
  cbn [h_bytes]. rewrite count_bound by done. destruct (Z.eqb_spec b 0) as [-> | Hb].
  - split.
    + intros [Hl Hf]. exists [], l. split; [done |]. split; [constructor |]. split; [simpl; lia |]. split; [simpl; lia | done].
    + intros (s & rest & Heq & Hs & Hn & Hl & Hf). destruct s as [| c s].
      * injection Heq as <-. split; [simpl in Hl; lia | done].
      * injection Heq as <- _. apply Forall_cons in Hs as [? _]. done.
  - split.
    + intros [Hl Hf]. apply IH in Hf as (s & rest & -> & Hs & Hn & Hl' & Hf); [| rewrite length_app; simpl; lia].
      exists (b :: s), rest. split; [done |]. split; [by constructor |]. rewrite !length_app in *. cbn [length] in *.
      split; [lia |]. split; [lia |]. by rewrite <- app_assoc in Hf.
    + intros (s & rest & Heq & Hs & Hn & Hl & Hf). destruct s as [| c s]; [by injection Heq as ? _ |].
      injection Heq as <- ->. apply Forall_cons in Hs as [_ Hs]. rewrite !length_app in *. cbn [length] in *. split; [lia |].
      apply IH; [rewrite length_app; cbn [length]; lia |]. exists s, rest. rewrite !length_app. cbn [length].
      split; [done |]. split; [done |]. split; [lia |]. split; [lia |]. by rewrite <- app_assoc.
Qed.
End strings.

Lemma name_stage l bs f n : zlen bs <= MAX_HEADER_BYTES ->
  finishes {| h_bytes := bs; h_flags := f; h_stage := HName n |} l <->
  exists s rest, l = (s ++ [0]) ++ rest /\ Forall (fun b => b <> 0) s /\ n + zlen s + 1 <= MAX_NAME_BYTES
    /\ zlen bs + zlen (s ++ [0]) <= MAX_HEADER_BYTES /\ finishes (after (bs ++ s ++ [0]) f) rest.
Proof.
  apply (string_stage HName); [done |]. intros bs' f' n' b. unfold header_byte. cbn [h_stage]. cbv zeta. by rewrite advance_after.
Qed.
Lemma comment_stage l bs f n : zlen bs <= MAX_HEADER_BYTES ->
  finishes {| h_bytes := bs; h_flags := f; h_stage := HComment n |} l <->
  exists s rest, l = (s ++ [0]) ++ rest /\ Forall (fun b => b <> 0) s /\ n + zlen s + 1 <= MAX_COMMENT_BYTES
    /\ zlen bs + zlen (s ++ [0]) <= MAX_HEADER_BYTES /\ finishes (after (bs ++ s ++ [0]) f) rest.
Proof.
  apply (string_stage HComment); [done |]. intros bs' f' n' b. unfold header_byte. cbn [h_stage]. cbv zeta. by rewrite advance_after.
Qed.

Section countdown.
Context (mk : Z -> HStage).
Hypothesis mk_open : forall bs f n, h_complete {| h_bytes := bs; h_flags := f; h_stage := mk n |} = false.
Hypothesis mk_byte : forall bs f n b,
  header_byte {| h_bytes := bs; h_flags := f; h_stage := mk n |} b
  = Ok (if n =? 1 then after bs f else {| h_bytes := bs; h_flags := f; h_stage := mk (n - 1) |}).

Lemma countdown_stage l bs f n : 0 < n -> zlen bs <= MAX_HEADER_BYTES ->
  finishes {| h_bytes := bs; h_flags := f; h_stage := mk n |} l <->
  exists data rest, l = data ++ rest /\ zlen data = n /\ zlen bs + zlen data <= MAX_HEADER_BYTES /\ finishes (after (bs ++ data) f) rest.
Proof.
  revert bs n. induction l as [| b l IH]; intros bs n Hn Hbs.
  { split; [intros []%finishes_nil; apply mk_open |]. intros (data & rest & Hnil & Hd & _). destruct data; [simpl in Hd; lia | done]. }
  rewrite (finishes_cons _ _ _ (if n =? 1 then after (bs ++ [b]) f else {| h_bytes := bs ++ [b]; h_flags := f; h_stage := mk (n - 1) |})).
  2:{ apply mk_open. }
  2:{ unfold push. cbn [h_bytes h_flags h_stage]. by rewrite mk_byte. }
  cbn [h_bytes]. rewrite count_bound by done. destruct (Z.eqb_spec n 1) as [-> | Hne].
  - split.
    + intros [Hl Hf]. exists [b], l. done.
    + intros (data & rest & Heq & Hd & Hl & Hf). destruct data as [| c [| d data]]; [done | | simpl in Hd; lia].
      injection Heq as <- <-. done.
  - split.
    + intros [Hl Hf]. apply IH in Hf as (data & rest & -> & Hd & Hl' & Hf); [| lia | rewrite length_app; cbn [length]; lia].
      exists (b :: data), rest. rewrite length_app in Hl'. cbn [length] in *. split; [done |]. split; [lia |]. split; [lia |].
      by rewrite <- app_assoc in Hf.
    + intros (data & rest & Heq & Hd & Hl & Hf). destruct data as [| c data]; [simpl in Hd; lia |]. injection Heq as <- ->.
      cbn [length] in *. split; [lia |]. apply IH; [lia | rewrite length_app; cbn [length]; lia |].
      exists data, rest. rewrite length_app. cbn [length]. split; [done |]. split; [lia |]. split; [lia |]. by rewrite <- app_assoc.
Qed.
End countdown.

Lemma extra_stage l bs f n : 0 < n -> zlen bs <= MAX_HEADER_BYTES ->
  finishes {| h_bytes := bs; h_flags := f; h_stage := HExtra n |} l <->
  exists data rest, l = data ++ rest /\ zlen data = n /\ zlen bs + zlen data <= MAX_HEADER_BYTES /\ finishes (after (bs ++ data) f) rest.
Proof. apply (countdown_stage HExtra); [done |]. intros bs' f' n' b. unfold header_byte. cbn [h_stage]. by rewrite advance_after. Qed.
Lemma crc_stage l bs f n : 0 < n -> zlen bs <= MAX_HEADER_BYTES ->
  finishes {| h_bytes := bs; h_flags := f; h_stage := HCrc n |} l <->
  exists data rest, l = data ++ rest /\ zlen data = n /\ zlen bs + zlen data <= MAX_HEADER_BYTES /\ finishes (after (bs ++ data) f) rest.
Proof. apply (countdown_stage HCrc); [done |]. intros bs' f' n' b. unfold header_byte. cbn [h_stage]. by rewrite advance_after. Qed.

Lemma extra_length_stage l bs f : zlen bs <= MAX_HEADER_BYTES -> Forall is_byte l ->
  finishes {| h_bytes := bs; h_flags := f; h_stage := HExtraLength None |} l <->
  exists extra rest, l = extra ++ rest /\ extra_field extra /\ zlen bs + zlen extra <= MAX_HEADER_BYTES
    /\ finishes (after (bs ++ extra) f) rest.
Proof.
  intros Hbs Hbytes. destruct l as [| low [| high l]].
  { split; [intros []%finishes_nil; done |]. by intros (e & r & Hnil & (lo & hi & d & -> & _) & _). }
  { split.
    - rewrite (finishes_cons _ _ _ {| h_bytes := bs ++ [low]; h_flags := f; h_stage := HExtraLength (Some low) |}) by done.
      intros [_ []%finishes_nil]. done.
    - by intros (e & r & Heq & (lo & hi & d & -> & _) & _). }
  rewrite (finishes_cons _ _ _ {| h_bytes := bs ++ [low]; h_flags := f; h_stage := HExtraLength (Some low) |}) by done.
  apply Forall_cons in Hbytes as [Hlow Hbytes]. apply Forall_cons in Hbytes as [Hhigh _]. unfold is_byte in *.
  cbn [h_bytes]. rewrite count_bound by done.
  assert (header_byte (push [high] {| h_bytes := bs ++ [low]; h_flags := f; h_stage := HExtraLength (Some low) |}) high
    = if MAX_EXTRA_BYTES <? low + 256 * high then Err GzLimitExceeded
      else Ok (if low + 256 * high =? 0 then after (bs ++ [low; high]) f
               else {| h_bytes := bs ++ [low; high]; h_flags := f; h_stage := HExtra (low + 256 * high) |})) as Hb.
  { unfold header_byte, push, with_hstage. cbn [h_bytes h_flags h_stage]. cbv zeta. by rewrite advance_after, <- app_assoc. }
  destruct (Z.ltb_spec MAX_EXTRA_BYTES (low + 256 * high)) as [Hmax | Hmax].
  { split.
    - intros [_ Hf]. by apply finishes_err with (e := GzLimitExceeded) in Hf.
    - intros (e & r & Heq & (lo & hi & d & -> & Hd & Hm) & _). injection Heq as -> -> _. lia. }
  assert (h_complete {| h_bytes := bs ++ [low]; h_flags := f; h_stage := HExtraLength (Some low) |} = false) as Hop by done.
  rewrite (finishes_cons _ _ _ _ Hop Hb). cbn [h_bytes]. rewrite length_app. cbn [length].
  destruct (Z.eqb_spec (low + 256 * high) 0) as [Hz | Hz].
  - split.
    + intros (Hl1 & Hl2 & Hf). exists [low; high], l. split; [done |]. split; [exists low, high, []; simpl; unfold MAX_EXTRA_BYTES; repeat split; lia |].
      simpl. split; [lia | done].
    + intros (e & r & Heq & (lo & hi & d & -> & Hd & Hm) & Hl & Hf). injection Heq as <- <- ->.
      assert (d = []) as -> by (destruct d; [done | simpl in Hd; lia]). simpl in Hl. split; [lia |]. split; [lia | done].
  - split.
    + intros (Hl1 & Hl2 & Hf). apply extra_stage in Hf as (data & rest & -> & Hd & Hl & Hf); [| lia | rewrite length_app; cbn [length]; lia].
      exists (low :: high :: data), rest. split; [done |]. split; [exists low, high, data; repeat split; lia |].
      rewrite length_app in Hl. cbn [length] in *. split; [lia |]. by rewrite <- app_assoc in Hf.
    + intros (e & r & Heq & (lo & hi & d & -> & Hd & Hm) & Hl & Hf). injection Heq as <- <- ->. cbn [length] in Hl.
      split; [lia |]. split; [lia |]. apply extra_stage; [lia | rewrite length_app; cbn [length]; lia |].
      exists d, r. rewrite length_app. cbn [length]. split; [done |]. split; [lia |]. split; [lia |]. by rewrite <- app_assoc.
Qed.

(** ** All the fields *)

(** [l] starts with a field of format [p] that fits, and continues with [k]. *)
Definition leads (present : bool) (p : list Z -> Prop) (bs l : list Z) (k : list Z -> list Z -> Prop) : Prop :=
  exists a rest, l = a ++ rest /\ optional present p a /\ zlen bs + zlen a <= MAX_HEADER_BYTES /\ k (bs ++ a) rest.

Lemma leads_absent p bs l k : zlen bs <= MAX_HEADER_BYTES -> leads false p bs l k <-> k bs l.
Proof.
  intros Hbs. split.
  - intros (a & rest & -> & Ha & _ & Hk). cbn in Ha. subst a. by rewrite app_nil_r in Hk.
  - intros Hk. exists [], l. rewrite app_nil_r. split; [done |]. split; [done |]. split; [simpl; lia | done].
Qed.

Lemma leads_iff present p bs l (k k' : list Z -> list Z -> Prop) :
  (forall a rest, l = a ++ rest -> zlen (bs ++ a) <= MAX_HEADER_BYTES -> k (bs ++ a) rest <-> k' (bs ++ a) rest) ->
  leads present p bs l k <-> leads present p bs l k'.
Proof.
  intros Hk. unfold leads. split; intros (a & rest & Hl & Ha & Hb & Hr); exists a, rest;
    (split; [done |]; split; [done |]; split; [done |]); apply Hk; rewrite ?length_app; (done || lia).
Qed.

Lemma leads_strings maximum bs l (k : list Z -> list Z -> Prop) :
  (exists s rest, l = (s ++ [0]) ++ rest /\ Forall (fun b => b <> 0) s /\ 0 + zlen s + 1 <= maximum
    /\ zlen bs + zlen (s ++ [0]) <= MAX_HEADER_BYTES /\ k (bs ++ s ++ [0]) rest)
  <-> leads true (zero_terminated maximum) bs l k.
Proof.
  split.
  - intros (s & rest & -> & Hs & Hn & Hl & Hk). exists (s ++ [0]), rest. split; [done |]. split; [exists s; repeat split; [done | lia] | done].
  - intros (a & rest & -> & (s & -> & Hs & Hn) & Hl & Hk). exists s, rest. split; [done |]. split; [done |]. split; [lia | done].
Qed.

Lemma after_crc bs f l :
  has_flag 4 f = false -> has_flag 8 f = false -> has_flag 16 f = false -> zlen bs <= MAX_HEADER_BYTES ->
  finishes (after bs f) l <-> leads (has_flag 2 f) (fun l => zlen l = 2) bs l (fun _ rest => rest = []).
Proof.
  intros H4 H8 H16 Hbs. destruct (clear_bits f) as (_ & _ & _ & C4 & C8 & C16 & C2).
  unfold after at 1, advance. cbn [h_flags]. rewrite H4, H8, H16. destruct (has_flag 2 f).
  - rewrite crc_stage by done. unfold leads, optional. split; intros (a & rest & Hl & Ha & Hb & Hk); exists a, rest;
      (split; [done |]; split; [done |]; split; [done |]); apply finishes_done in Hk || apply finishes_done; try done;
      unfold after, advance; cbn [h_flags]; by rewrite C4, C8, C16, H4, H8, H16, C2.
  - rewrite leads_absent by done. by apply finishes_done.
Qed.

Lemma after_comment bs f l :
  has_flag 4 f = false -> has_flag 8 f = false -> zlen bs <= MAX_HEADER_BYTES ->
  finishes (after bs f) l <-> leads (has_flag 16 f) (zero_terminated MAX_COMMENT_BYTES) bs l
    (fun bs l => leads (has_flag 2 f) (fun l => zlen l = 2) bs l (fun _ rest => rest = [])).
Proof.
  intros H4 H8 Hbs. destruct (clear_bits f) as (_ & _ & (C4 & C8 & C16 & C2) & _). destruct (has_flag 16 f) eqn:H16.
  - unfold after at 1, advance. cbn [h_flags]. rewrite H4, H8, H16, comment_stage by done.
    etransitivity; [apply (leads_strings _ bs l (fun bs l => finishes (after bs (clear_flag 16 f)) l)) |].
    apply leads_iff. intros a rest _ Hb. rewrite after_crc by (done || congruence). by rewrite C2.
  - rewrite leads_absent by done. by apply after_crc.
Qed.

Lemma after_name bs f l :
  has_flag 4 f = false -> zlen bs <= MAX_HEADER_BYTES ->
  finishes (after bs f) l <-> leads (has_flag 8 f) (zero_terminated MAX_NAME_BYTES) bs l
    (fun bs l => leads (has_flag 16 f) (zero_terminated MAX_COMMENT_BYTES) bs l
    (fun bs l => leads (has_flag 2 f) (fun l => zlen l = 2) bs l (fun _ rest => rest = []))).
Proof.
  intros H4 Hbs. destruct (clear_bits f) as (_ & (C4 & C8 & C16 & C2) & _). destruct (has_flag 8 f) eqn:H8.
  - unfold after at 1, advance. cbn [h_flags]. rewrite H4, H8, name_stage by done.
    etransitivity; [apply (leads_strings _ bs l (fun bs l => finishes (after bs (clear_flag 8 f)) l)) |].
    apply leads_iff. intros a rest _ Hb. rewrite after_comment by (done || congruence). by rewrite C2, C16.
  - rewrite leads_absent by done. by apply after_comment.
Qed.

Lemma after_fields bs f l :
  zlen bs <= MAX_HEADER_BYTES -> Forall is_byte l ->
  finishes (after bs f) l <-> fields_of f l /\ zlen bs + zlen l <= MAX_HEADER_BYTES.
Proof.
  intros Hbs Hbytes. destruct (clear_bits f) as ((C4 & C8 & C16 & C2) & _).
  transitivity (leads (has_flag 4 f) extra_field bs l (fun bs l => leads (has_flag 8 f) (zero_terminated MAX_NAME_BYTES) bs l
    (fun bs l => leads (has_flag 16 f) (zero_terminated MAX_COMMENT_BYTES) bs l
    (fun bs l => leads (has_flag 2 f) (fun l => zlen l = 2) bs l (fun _ rest => rest = []))))).
  - destruct (has_flag 4 f) eqn:H4.
    + unfold after at 1, advance. cbn [h_flags]. rewrite H4, extra_length_stage by done.
      apply (leads_iff true extra_field bs l (fun bs l => finishes (after bs (clear_flag 4 f)) l)). intros a rest _ Hb.
      rewrite after_name by (done || congruence). by rewrite C2, C8, C16.
    + rewrite leads_absent by done. by apply after_name.
  - unfold fields_of, leads. split.
    + intros (a & r1 & -> & Ha & _ & b & r2 & -> & Hb & _ & c & r3 & -> & Hc & _ & d & r4 & -> & Hd & Hlen & ->).
      rewrite app_nil_r in *. split; [by exists a, b, c, d |]. rewrite !length_app in *. lia.
    + intros [(a & b & c & d & -> & Ha & Hb & Hc & Hd) Hlen]. rewrite !length_app in Hlen.
      exists a, (b ++ c ++ d). split; [done |]. split; [done |]. split; [lia |].
      exists b, (c ++ d). split; [done |]. split; [done |]. rewrite length_app. split; [lia |].
      exists c, d. split; [done |]. split; [done |]. rewrite !length_app. split; [lia |].
      exists d, []. split; [by rewrite app_nil_r |]. split; [done |]. rewrite ?length_app. split; [lia | done].
Qed.

(** ** The fixed ten bytes *)
Definition fixed_ok (bs : list Z) : bool :=
  bool_decide (take 3 bs = [31; 139; 8]) && negb (has_flag 224 (default 0 (bs !! 3%nat))).

Lemma fixed_stage l bs :
  zlen bs < 10 ->
  finishes {| h_bytes := bs; h_flags := 0; h_stage := HFixed |} l <->
  exists fixed rest, l = fixed ++ rest /\ zlen (bs ++ fixed) = 10 /\ fixed_ok (bs ++ fixed) = true
    /\ finishes (after (bs ++ fixed) (default 0 ((bs ++ fixed) !! 3%nat))) rest.
Proof.
  revert bs. induction l as [| b l IH]; intros bs Hbs.
  { split; [by intros []%finishes_nil |]. intros (fixed & rest & Hnil & Hl & _). destruct fixed; [| done].
    rewrite app_nil_r in Hl. lia. }
  assert (zlen bs <> MAX_HEADER_BYTES) as Hmax by (unfold MAX_HEADER_BYTES; lia).
  assert (h_complete {| h_bytes := bs; h_flags := 0; h_stage := HFixed |} = false) as Hop by done.
  assert (header_byte (push [b] {| h_bytes := bs; h_flags := 0; h_stage := HFixed |}) b
    = if zlen (bs ++ [b]) =? 10 then
        (if fixed_ok (bs ++ [b]) then Ok (after (bs ++ [b]) (default 0 ((bs ++ [b]) !! 3%nat))) else Err GzInvalidHeader)
      else Ok {| h_bytes := bs ++ [b]; h_flags := 0; h_stage := HFixed |}) as Hb.
  { unfold header_byte, push, fixed_ok. cbn [h_bytes h_flags h_stage]. cbv zeta. rewrite advance_after.
    destruct (zlen (bs ++ [b]) =? 10); [| done]. by destruct (bool_decide (take 3 (bs ++ [b]) = _)), (has_flag 224 _). }
  destruct (Z.eqb_spec (zlen (bs ++ [b])) 10) as [H10 | H10].
  - split.
    + intros Hf. destruct (fixed_ok (bs ++ [b])) eqn:Hok; [| by apply (finishes_err _ _ _ _ Hop Hb) in Hf].
      apply (finishes_cons _ _ _ _ Hop Hb) in Hf as [_ Hf]. by exists [b], l.
    + intros (fixed & rest & Heq & Hl & Hok & Hf). rewrite length_app in *. cbn [length] in *.
      destruct fixed as [| c [| d fixed]]; cbn [length] in *; [lia | | lia]. injection Heq as <- <-.
      rewrite Hok in Hb. by apply (finishes_cons _ _ _ _ Hop Hb).
  - rewrite (finishes_cons _ _ _ _ Hop Hb). cbn [h_bytes]. rewrite length_app in H10. cbn [length] in H10. split.
    + intros [_ Hf]. apply IH in Hf as (fixed & rest & -> & Hl & Hok & Hf); [| rewrite length_app; cbn [length]; lia].
      exists (b :: fixed), rest. by rewrite <- !app_assoc in *.
    + intros (fixed & rest & Heq & Hl & Hok & Hf). destruct fixed as [| c fixed]; [rewrite app_nil_r in Hl; lia |].
      injection Heq as <- ->. split; [done |]. apply IH; [rewrite length_app; cbn [length]; lia |].
      exists fixed, rest. by rewrite <- !app_assoc.
Qed.

(** The automaton completes on exactly the member headers. *)
Lemma finishes_member l : Forall is_byte l -> finishes GzHeader_new l <-> member_header l.
Proof.
  intros Hbytes. unfold GzHeader_new. rewrite fixed_stage by done. cbn [app]. unfold member_header. split.
  - intros (fixed & rest & -> & Hl & Hok & Hf). apply Forall_app in Hbytes as [_ Hbytes].
    apply after_fields in Hf as [Hf Hlen]; [| unfold MAX_HEADER_BYTES; lia | done].
    unfold fixed_ok in Hok. apply andb_prop in Hok as [Hmagic Hflags].
    do 4 (destruct fixed as [| ? fixed]; cbn [length] in Hl; [lia |]). apply bool_decide_eq_true in Hmagic.
    injection Hmagic as -> -> ->. cbn [lookup list_lookup default from_option id] in Hf, Hflags.
    exists z2, fixed, rest. cbn [app]. split; [done |]. split; [lia |]. split; [by apply negb_true_iff in Hflags |]. split; [done |].
    cbn [length] in Hlen |- *. rewrite length_app. lia.
  - intros (flags & r & fields & -> & Hr & Hflags & Hf & Hlen). exists ([31; 139; 8; flags] ++ r), fields.
    rewrite app_assoc in *. split; [done |]. rewrite !length_app in *. cbn [length] in *. split; [lia |].
    split; [by unfold fixed_ok; cbn; rewrite Hflags |]. apply Forall_app in Hbytes as [_ Hbytes].
    apply after_fields; [rewrite length_app; cbn [length]; unfold MAX_HEADER_BYTES; lia | done |].
    split; [done |]. rewrite length_app. cbn [length]. lia.
Qed.

(** ** [header_feed] *)
Lemma header_feed_completes h l c h' n :
  header_feed h c l = Ok (h', n) /\ h_complete h' = true <->
  exists header rest, l = header ++ rest /\ hsteps h header = Some h' /\ h_complete h' = true /\ n = c + zlen header.
Proof.
  revert h c. induction l as [| b l IH]; intros h c; cbn [header_feed].
  - split.
    + intros [[= <- <-] Hc]. exists [], []. split; [done |]. split; [done |]. split; [done | simpl; lia].
    + intros (header & rest & Hnil & Hs & Hc & ->). destruct header; [| done]. injection Hs as <-. split; [| done]. simpl. by rewrite Z.add_0_r.
  - destruct (h_complete h) eqn:Hd.
    + split.
      * intros [[= <- <-] Hc]. exists [], (b :: l). split; [done |]. split; [done |]. split; [done | simpl; lia].
      * intros (header & rest & _ & Hs & Hc & ->). destruct header; [injection Hs as <-; simpl; by rewrite Z.add_0_r |].
        cbn [hsteps] in Hs. by rewrite Hd in Hs.
    + unfold push in IH. split.
      * intros [Hf Hc]. apply fail_if_ok in Hf as [Hm Hf]. destruct (header_byte _ b) as [h1 | e] eqn:Hb; [| done]. cbn [rbind] in Hf.
        destruct (proj1 (IH h1 (c + 1)) (conj Hf Hc)) as (header & rest & -> & Hs & _ & ->).
        exists (b :: header), rest. split; [done |]. cbn [hsteps]. unfold push. rewrite Hd, Hm. cbn [orb]. rewrite Hb.
        split; [done |]. split; [done | cbn [length]; lia].
      * intros (header & rest & Heq & Hs & Hc & ->). destruct header as [| a header]; [injection Hs as ->; congruence |].
        injection Heq as <- ->. cbn [hsteps] in Hs. unfold push in Hs. rewrite Hd in Hs. cbn [orb] in Hs.
        destruct (zlen (h_bytes h) =? MAX_HEADER_BYTES); [done |]. destruct (header_byte _ b) as [h1 | e]; [| done]. cbn [rbind].
        apply IH. exists header, rest. split; [done |]. split; [done |]. split; [done | cbn [length]; lia].
Qed.

(** Feeding in two pieces is feeding the concatenation. *)
Lemma header_feed_app h c a b :
  header_feed h c (a ++ b) = rbind (header_feed h c a) (fun '(h, c) => header_feed h c b).
Proof.
  revert h c. induction a as [| x a IH]; intros h c; [done |]. cbn [app header_feed].
  destruct (h_complete h) eqn:Hc.
  - cbn [rbind]. destruct b; cbn [header_feed]; [done | by rewrite Hc].
  - destruct (_ =? MAX_HEADER_BYTES); [done |]. by destruct (header_byte _ x); cbn [rbind].
Qed.

(** The header automaton accepts exactly RFC 1952 member headers within the limits (magic bytes, method 8,
    no reserved flag, then the extra, name, comment and checksum fields the flags announce, in that order
    and each within its bound), it stores and consumes exactly the header's bytes, and how the input is cut
    into chunks does not matter. *)
Theorem header_feed_spec (l : list Z) (n : Z) :
  Forall is_byte l ->
  ((exists h, header_feed GzHeader_new 0 l = Ok (h, n) /\ h_complete h = true /\ h_bytes h = take (Z.to_nat n) l) <->
   exists header rest, l = header ++ rest /\ member_header header /\ n = zlen header)
  /\ (forall a b, l = a ++ b -> header_feed GzHeader_new 0 l = rbind (header_feed GzHeader_new 0 a) (fun '(h, c) => header_feed h c b)).
Proof.
  intros Hbytes. split; [| intros a b ->; apply header_feed_app]. split.
  - intros (h & Hf & Hc & _). destruct (proj1 (header_feed_completes _ _ _ _ _) (conj Hf Hc)) as (header & rest & -> & Hs & _ & ->).
    exists header, rest. split; [done |]. split; [| lia]. apply Forall_app in Hbytes as [Hh _].
    apply finishes_member; [done | by exists h].
  - intros (header & rest & -> & Hm & ->). apply Forall_app in Hbytes as [Hh _].
    apply finishes_member in Hm as (h & Hs & Hc); [| done].
    destruct (proj2 (header_feed_completes GzHeader_new (header ++ rest) 0 h (zlen header))) as [Hf _].
    { exists header, rest. done. }
    exists h. split; [done |]. split; [done |]. apply hsteps_bytes in Hs as ->. cbn [h_bytes GzHeader_new app].
    by rewrite Nat2Z.id, take_app_length.
Qed.

(** A header with a name and a header checksum, followed by two bytes of the deflate stream. *)
Lemma header_feed_spec_witness :
  let l := [31; 139; 8; 10; 0; 0; 0; 0; 0; 3; 111; 119; 0; 17; 34; 75; 4] in
  (exists h, header_feed GzHeader_new 0 l = Ok (h, 15) /\ h_complete h = true /\ h_bytes h = take 15 l)
  /\ exists header rest, l = header ++ rest /\ member_header header /\ 15 = zlen header.
Proof.
  intros l. assert (Forall is_byte l) as Hl by (repeat constructor; unfold is_byte; lia).
  assert (exists h, header_feed GzHeader_new 0 l = Ok (h, 15) /\ h_complete h = true /\ h_bytes h = take 15 l) as He.
  { exists {| h_bytes := take 15 l; h_flags := 0; h_stage := HDone |}.
    split; [vm_compute; reflexivity | split; reflexivity]. }
  split; [exact He |]. exact (proj1 (proj1 (header_feed_spec l 15 Hl)) He).
Defined.
