(* ===== verification/Inflate.v ===== *)
(** * What an accepted gzip member contains

    The wrapper around the inflate backend: every byte it accepts went through
    the backend once and in order, every byte the backend produced went through
    the archive validator, and the drain loop ends, whatever the backend does. *)
From S2P Require Import Prelude Order Text Archive Tar Gzip Member.
Open Scope Z_scope.

(** ** The archive validator behind the backend *)
Definition base_ok (v : ArchiveValidator) : Prop := validator_ok v /\ failure v = None /\ 0 <= total v <= MAX_ARCHIVE_BYTES.
Definition inner_of (v0 : ArchiveValidator) (outs : list (list Z)) (v : ArchiveValidator) : Prop :=
  base_ok v0 /\ feed_all outs v0 = (v, Ok tt).

Lemma new_base_ok e : base_ok (ArchiveValidator_new e).
Proof. done. Qed.
Lemma inner_start v0 : base_ok v0 -> inner_of v0 [] v0.
Proof. done. Qed.

Lemma feed_all_snoc outs out v w v' :
  feed_all outs v = (w, Ok tt) -> feed out w = (v', Ok tt) -> feed_all (outs ++ [out]) v = (v', Ok tt).
Proof.
  revert v. induction outs as [| o outs IH]; intros v; cbn [app feed_all].
  - intros [= <-] Hf. unfold st_bind. by rewrite Hf.
  - unfold st_bind. destruct (feed o v) as [u [[] |]]; [apply IH | done].
Qed.

Lemma inner_steps v0 outs v : inner_of v0 outs v ->
  exists w, steps (mjoin outs) v0 = Some w /\ v = with_total (total v0 + zlen (mjoin outs)) w /\ total v0 + zlen (mjoin outs) <= MAX_ARCHIVE_BYTES.
Proof.
  intros [(Hok & Hf & Ht) Hi]. pose proof (feed_all_steps outs v0 Hok Hf Ht) as Hs. rewrite Hi in Hs. destruct Hs as (_ & Hm & Hs).
  destruct (steps _ _) as [w |]; [| done]. apply some_eq in Hs as <-. by exists w.
Qed.
Lemma inner_total v0 outs v : inner_of v0 outs v -> total v = total v0 + zlen (mjoin outs) /\ total v <= MAX_ARCHIVE_BYTES.
Proof. by intros (w & _ & -> & ?)%inner_steps. Qed.

Lemma inner_base_ok v0 outs v : inner_of v0 outs v -> base_ok v.
Proof.
  intros Hi. pose proof Hi as [(Hok & Hf & Ht) _]. apply inner_steps in Hi as (w & Hs & -> & Hm).
  pose proof (steps_ok _ _ _ Hok Hs) as Hw. pose proof (steps_failure _ _ _ Hs) as [Hfw _].
  split; [by destruct w |]. split; [by destruct w; cbn in *; congruence |]. cbn [total with_total]. lia.
Qed.

Lemma inner_feed v0 outs v out v' : inner_of v0 outs v -> feed out v = (v', Ok tt) ->
  inner_of v0 (outs ++ [out]) v' /\ total v' = total v + zlen out.
Proof.
  intros Hi Hf. assert (inner_of v0 (outs ++ [out]) v') as Hi' by (destruct Hi; split; [done | by eapply feed_all_snoc]). split; [done |].
  apply inner_total in Hi as [-> _]. apply inner_total in Hi' as [-> _].
  rewrite join_app, length_app. cbn. rewrite app_nil_r. lia.
Qed.

(** ** The header, in pieces *)
Lemma header_feed_partial h c l h' n :
  header_feed h c l = Ok (h', n) -> h_complete h' = false -> hsteps h l = Some h'.
Proof.
  revert h c. induction l as [| b l IH]; intros h c Hf Hc; cbn [header_feed] in Hf; [by injection Hf as <- _ |].
  cbn [hsteps]. destruct (h_complete h) eqn:Hd; [injection Hf as <- _; congruence |].
  apply fail_if_ok in Hf as [Hm Hf]. apply rbind_ok in Hf as (h1 & Hb & Hf). rewrite Hm. cbn [orb]. unfold push.
  rewrite Hb. by eapply IH.
Qed.

Lemma hsteps_bound h l h' :
  zlen (h_bytes h) <= MAX_HEADER_BYTES -> hsteps h l = Some h' -> zlen (h_bytes h ++ l) <= MAX_HEADER_BYTES.
Proof.
  revert h. induction l as [| b l IH]; intros h Hh Hs; [by rewrite app_nil_r |]. cbn [hsteps] in Hs.
  destruct (h_complete h); [done |]. cbn [orb] in Hs. destruct (Z.eqb_spec (zlen (h_bytes h)) MAX_HEADER_BYTES); [done |].
  destruct (header_byte _ b) as [h1 |] eqn:E; [| done]. apply header_byte_bytes in E. cbn [push h_bytes] in E.
  apply IH in Hs; rewrite E in *; [by rewrite <- app_assoc in Hs | rewrite length_app; cbn [length]; lia].
Qed.

Section wrapper.
Context {D : Type} (new_gzip : D) (total_in total_out : D -> Z) (decompress : D -> list Z -> D * option (Status * list Z)).
Notation Validator := (GzipArchiveValidator (D := D)).

(** A history of the backend: the bytes it consumed, the outputs it produced
    and its last status, over calls that each saw the next unread bytes. *)
Inductive inflates : list Z -> list (list Z) -> option Status -> D -> Prop :=
| inflates_new : inflates [] [] None new_gzip
| inflates_call src outs st d used rest d' status buffer written :
    inflates src outs st d -> st <> Some StreamEnd ->
    decompress d (used ++ rest) = (d', Some (status, buffer)) ->
    total_in d' = total_in d + zlen used -> total_out d' = total_out d + written -> 0 <= written <= OUTPUT_BUFFER_BYTES ->
    inflates (src ++ used) (outs ++ [take (Z.to_nat written) (output_buffer buffer)]) (Some status) d'.

Definition running (d : D) (v : ArchiveValidator) (g : Validator) : Validator := g_set (g_header g) (Some d) (Some v) g.

(** What is known inside [decode], which was called on [input0] after [src]. *)
Definition decoding (v0 : ArchiveValidator) (g0 : Validator) (src input0 : list Z) (s : Validator * list Z) : Prop :=
  exists used outs st d v, input0 = used ++ s.2 /\ s.1 = running d v g0 /\ inflates (src ++ used) outs st d
    /\ st <> Some StreamEnd /\ inner_of v0 outs v.

Definition decoded (v0 : ArchiveValidator) (g0 : Validator) (src input0 : list Z) (r : Validator * result GzipError unit) : Prop :=
  r.2 = Ok tt ->
  exists outs st d v, inflates (src ++ input0) outs st d /\ inner_of v0 outs v
    /\ ((st <> Some StreamEnd /\ r.1 = running d v g0)
        \/ (st = Some StreamEnd /\ total_in d = g_source_bytes g0
            /\ exists n, deflate_size (total_in d) (g_header_bytes g0) = Some n /\ r.1 = g_finished n (running d v g0))).

Lemma progress_Some before now limit n : progress before now limit = Some n -> now = before + n /\ 0 <= n <= limit.
Proof.
  unfold progress. destruct (checked_sub now before) as [m |] eqn:E; [| done]. apply checked_sub_Some in E as [-> Hle]. cbn.
  destruct (Z.leb_spec (now - before) limit); [intros [= <-]; lia | done].
Qed.

(** What the loop can still do: input to read, output to accept. *)
Definition decode_measure (s : Validator * list Z) : Z :=
  zlen s.2 + match g_inner s.1 with Some v => MAX_ARCHIVE_BYTES - total v | None => 0 end.

Lemma output_written written buffer : 0 <= written <= OUTPUT_BUFFER_BYTES ->
  zlen (take (Z.to_nat written) (output_buffer buffer)) = written.
Proof.
  intros Hw. unfold output_buffer. rewrite !length_take, length_app, length_replicate. unfold OUTPUT_BUFFER_BYTES in *. lia.
Qed.

(** One call of the backend whose progress and output are accepted. *)
Lemma call_accepted v0 g0 src input0 g input d' status buffer used written v v' :
  decoding v0 g0 src input0 (g, input) ->
  forall d, g_decoder g = Some d -> g_inner g = Some v ->
  decompress d input = (d', Some (status, buffer)) ->
  progress (total_in d) (total_in d') (zlen input) = Some used ->
  progress (total_out d) (total_out d') OUTPUT_BUFFER_BYTES = Some written ->
  feed (take (Z.to_nat written) (output_buffer buffer)) v = (v', Ok tt) ->
  exists consumed outs, input0 = consumed ++ drop (Z.to_nat used) input /\ inflates (src ++ consumed) outs (Some status) d'
    /\ inner_of v0 outs v' /\ g_set (g_header g) (Some d') (Some v') g = running d' v' g0
    /\ total v' = total v + written /\ 0 <= written /\ 0 <= used <= zlen input.
Proof.
  intros (c & outs & st & d0 & w0 & Hin & Hg & Hi & Hst & Hv) d Hd Hv1 Hcall Hu Hw Hf. cbn in Hin, Hg. subst g input0.
  injection Hd as <-. injection Hv1 as <-. apply progress_Some in Hu as [Hu Hub]. apply progress_Some in Hw as [Hw Hwb].
  exists (c ++ take (Z.to_nat used) input), (outs ++ [take (Z.to_nat written) (output_buffer buffer)]).
  split; [by rewrite <- app_assoc, take_drop |]. split; [| destruct (inner_feed _ _ _ _ _ Hv Hf) as [Hv' Ht]; rewrite output_written in Ht by done;
    split; [done |]; split; [done |]; split; [done | lia]].
  rewrite app_assoc. eapply inflates_call with (rest := drop (Z.to_nat used) input); [exact Hi | done | by rewrite take_drop | | exact Hw | done].
  rewrite length_take. lia.
Qed.

Lemma decode_round_spec v0 g0 src input0 s :
  decoding v0 g0 src input0 s ->
  match decode_round total_in total_out decompress s with
  | Again s' => decoding v0 g0 src input0 s' /\ decode_measure s' < decode_measure s
  | Done r => decoded v0 g0 src input0 r
  end.
Proof.
  destruct s as [g input]. intros Hdec. pose proof Hdec as (c & outs & st & d & v & _ & Hg & _). cbn in Hg. cbn [decode_round].
  assert (g_decoder g = Some d) as Hd by by subst g. assert (g_inner g = Some v) as Hv by by subst g. rewrite Hd.
  destruct (decompress d input) as [d' [[status bytes] |]] eqn:Hcall; [| done]. cbn [g_set g_header g_decoder g_inner].
  destruct (progress (total_in d) _ _) as [used |] eqn:Hu; [| done].
  destruct (progress (total_out d) _ _) as [written |] eqn:Hw; [| done]. rewrite Hv.
  destruct (feed _ v) as [v' [[] |]] eqn:Hf; [| done]. change (g_set _ _ _ (g_set _ _ _ g)) with (g_set (g_header g) (Some d') (Some v') g).
  destruct (call_accepted _ _ _ _ _ _ _ _ _ _ _ _ _ Hdec _ Hd Hv Hcall Hu Hw Hf) as (k & outs' & Hin & Hi & Hv' & Hrun & Ht & Hw0 & Hu0).
  rewrite Hrun. cbv zeta. destruct (decide (status = StreamEnd)) as [-> | Hst].
  - destruct (drop (Z.to_nat used) input) eqn:Hrest; [| done]. rewrite app_nil_r in Hin. subst k.
    destruct (Z.eqb_spec (total_in d') (g_source_bytes (running d' v' g0))) as [Heq | ?]; cbn [negb]; [| done].
    destruct (deflate_size _ _) as [n |] eqn:Hn; [| done]. intros _. exists outs', (Some StreamEnd), d', v'.
    split; [done |]. split; [done |]. right. split; [done |]. split; [done |]. by exists n.
  - assert (drop (Z.to_nat used) input = [] -> decoded v0 g0 src input0 (running d' v' g0, Ok tt)) as Hend.
    { intros Hrest _. rewrite Hrest, app_nil_r in Hin. subst k. exists outs', (Some status), d', v'.
      split; [done |]. split; [done |]. left. split; [congruence | done]. }
    destruct ((used =? 0) && (written =? 0)) eqn:Hstall; [by destruct (drop _ _); [apply Hend |] |].
    destruct (bool_decide _ && _) eqn:Hdone; [apply Hend; by apply andb_prop in Hdone as [?%bool_decide_eq_true _] |].
    split.
    + exists k, outs', (Some status), d', v'. split; [done |]. split; [done |]. split; [done |]. split; [congruence | done].
    + unfold decode_measure. cbn [fst snd running g_inner g_set]. rewrite Hv, length_drop.
      apply andb_false_iff in Hstall as [?%Z.eqb_neq | ?%Z.eqb_neq]; lia.
Qed.

(** [decode] ends by one of its own returns, whatever the backend does. *)
Lemma decode_returns v0 g src input outs st d v :
  g_decoder g = Some d -> g_inner g = Some v -> inflates src outs st d -> st <> Some StreamEnd -> inner_of v0 outs v ->
  zlen input <= MAX_CHUNK_BYTES ->
  exists r, iterate DECODE_ROUNDS (decode_round total_in total_out decompress) (g, input) = Done r /\ decoded v0 g src input r.
Proof.
  intros Hd Hv Hi Hst Hin Hlen.
  apply (iterate_done _ decode_measure (decoding v0 g src input) (decoded v0 g src input)).
  - intros [g' l] (c & o & s & d' & v' & _ & Hg & _ & _ & Hv'). cbn in Hg. subst g'. unfold decode_measure. cbn.
    apply inner_total in Hv' as [_ ?]. lia.
  - intros s s' Hs Hr. pose proof (decode_round_spec _ _ _ _ _ Hs) as H. by rewrite Hr in H.
  - intros s r Hs Hr. pose proof (decode_round_spec _ _ _ _ _ Hs) as H. by rewrite Hr in H.
  - exists [], outs, st, d, v. split; [done |]. rewrite app_nil_r. split; [| done]. unfold running. destruct g. cbn in *. by subst.
  - unfold decode_measure. cbn [fst snd]. rewrite Hv. apply inner_base_ok in Hin as (_ & _ & Ht).
    change (2 ^ Z.of_nat DECODE_ROUNDS) with 134217728. unfold MAX_ARCHIVE_BYTES, MAX_CHUNK_BYTES in *. lia.
Qed.

Lemma decode_iterate input g r :
  iterate DECODE_ROUNDS (decode_round total_in total_out decompress) (g, input) = Done r ->
  decode total_in total_out decompress input g = r.
Proof. unfold decode. generalize (iterate DECODE_ROUNDS (decode_round total_in total_out decompress) (g, input)). by intros ? ->. Qed.

Lemma decode_ok v0 g src input outs st d v g' :
  g_decoder g = Some d -> g_inner g = Some v -> inflates src outs st d -> st <> Some StreamEnd -> inner_of v0 outs v ->
  zlen input <= MAX_CHUNK_BYTES ->
  decode total_in total_out decompress input g = (g', Ok tt) ->
  decoded v0 g src input (g', Ok tt).
Proof.
  intros Hd Hv Hi Hst Hin Hlen Hdec. destruct (decode_returns v0 g src input outs st d v) as (r & Hr & Hpost); [done.. |].
  rewrite (decode_iterate _ _ _ Hr) in Hdec. by rewrite Hdec in Hpost.
Qed.
Lemma decode_no_decoder input g : g_decoder g = None -> decode total_in total_out decompress input g = (g, Err GzInvalidData).
Proof. intros Hd. apply decode_iterate, iterate_stops. cbn [decode_round]. by rewrite Hd. Qed.

#[local] Opaque decode iterate.

(** ** The states of a validator that has accepted the bytes [src] *)
Inductive gz_state (e : ExpectedArchive) (src : list Z) : Validator -> Prop :=
| in_header h :
    hsteps GzHeader_new src = Some h -> h_complete h = false ->
    gz_state e src {| g_header := Some h; g_decoder := None; g_inner := Some (ArchiveValidator_new e); g_source_bytes := zlen src;
                      g_header_bytes := 0; g_deflate_bytes := 0; g_complete := false; g_failure := None |}
| in_body header body outs st d v :
    src = header ++ body -> finishes GzHeader_new header -> inflates src outs st d -> st <> Some StreamEnd -> inner_of (ArchiveValidator_new e) outs v ->
    gz_state e src {| g_header := None; g_decoder := Some d; g_inner := Some v; g_source_bytes := zlen src;
                      g_header_bytes := zlen header; g_deflate_bytes := 0; g_complete := false; g_failure := None |}
| at_end header body outs d v n :
    src = header ++ body -> finishes GzHeader_new header -> inflates src outs (Some StreamEnd) d -> inner_of (ArchiveValidator_new e) outs v ->
    total_in d = zlen src -> deflate_size (zlen src) (zlen header) = Some n ->
    gz_state e src {| g_header := None; g_decoder := None; g_inner := Some v; g_source_bytes := zlen src;
                      g_header_bytes := zlen header; g_deflate_bytes := n; g_complete := true; g_failure := None |}.

(** Decoding the bytes after [src] in a state that already counts them. *)
Lemma decode_body e header body input outs st d v g' :
  finishes GzHeader_new header -> inflates (header ++ body) outs st d -> st <> Some StreamEnd -> inner_of (ArchiveValidator_new e) outs v ->
  zlen input <= MAX_CHUNK_BYTES ->
  decode total_in total_out decompress input
    {| g_header := None; g_decoder := Some d; g_inner := Some v; g_source_bytes := zlen ((header ++ body) ++ input);
       g_header_bytes := zlen header; g_deflate_bytes := 0; g_complete := false; g_failure := None |} = (g', Ok tt) ->
  gz_state e ((header ++ body) ++ input) g'.
Proof.
  intros Hh Hi Hst Hv Hlen Hdec. eapply decode_ok in Hdec; [| done..]. destruct (Hdec eq_refl) as (o & s & d' & v' & Hi' & Hv' & Hcase).
  cbn [fst g_source_bytes g_header_bytes] in Hcase. destruct Hcase as [[Hs ->] | (-> & Ht & n & Hn & ->)].
  - eapply (in_body e _ header (body ++ input)); [by rewrite app_assoc | done..].
  - rewrite Ht in Hn. eapply (at_end e _ header (body ++ input)); [by rewrite app_assoc | done..].
Qed.

(** The chunk that completes the header. *)
Lemma header_done e src h input h' hp rest g' :
  hsteps GzHeader_new src = Some h -> hsteps h hp = Some h' -> h_complete h' = true -> input = hp ++ rest -> zlen input <= MAX_CHUNK_BYTES ->
  st_bind (decode total_in total_out decompress (h_bytes h')) (fun _ => decode total_in total_out decompress rest)
    {| g_header := None; g_decoder := Some new_gzip; g_inner := Some (ArchiveValidator_new e); g_source_bytes := zlen (src ++ input);
       g_header_bytes := zlen (h_bytes h'); g_deflate_bytes := 0; g_complete := false; g_failure := None |} = (g', Ok tt) ->
  gz_state e (src ++ input) g'.
Proof.
  intros Hs Hp Hc -> Hlen Hdec. assert (hsteps GzHeader_new (src ++ hp) = Some h') as Hh by by rewrite hsteps_app, Hs.
  assert (h_bytes h' = src ++ hp) as Hb by apply (hsteps_bytes _ _ _ Hh). rewrite Hb in Hdec.
  pose proof (hsteps_bound _ _ _ (ltac:(done) : zlen (h_bytes GzHeader_new) <= MAX_HEADER_BYTES) Hh) as Hbound. cbn [h_bytes GzHeader_new app] in Hbound.
  unfold st_bind in Hdec. destruct (decode _ _ _ (src ++ hp) _) as [g1 [[] |]] eqn:H1; [| done].
  eapply (decode_ok (ArchiveValidator_new e) _ [] _ [] None) in H1; [| done | done | constructor | done | done | unfold MAX_HEADER_BYTES, MAX_CHUNK_BYTES in *; lia].
  destruct (H1 eq_refl) as (o & s & d & v & Hi & Hv & Hcase). cbn [fst app] in Hi, Hcase.
  destruct Hcase as [[Hst ->] | (_ & _ & n & _ & ->)]; [| by rewrite decode_no_decoder in Hdec].
  rewrite app_assoc in *. rewrite <- (app_nil_r (src ++ hp)) in Hi |- *.
  eapply (decode_body e (src ++ hp) []); [by exists h' | exact Hi | done | exact Hv | rewrite length_app in Hlen; lia |].
  rewrite app_nil_r. exact Hdec.
Qed.

Notation Feed := (gzip_feed new_gzip total_in total_out decompress).

Lemma gzip_feed_state e src g chunk g' :
  gz_state e src g -> Feed chunk g = (g', Ok tt) ->
  gz_state e (src ++ chunk) g' /\ zlen chunk <= MAX_CHUNK_BYTES /\ zlen (src ++ chunk) <= MAX_SOURCE_BYTES.
Proof.
  intros Hg Hf. unfold gzip_feed in Hf. assert (g_failure g = None) as Hfail by by destruct Hg. rewrite Hfail in Hf.
  destruct (gzip_feed_inner _ _ _ _ chunk g) as [g1 [[] |]] eqn:Hi; [| done]. injection Hf as <-. unfold gzip_feed_inner in Hi.
  destruct (Z.ltb_spec MAX_CHUNK_BYTES (zlen chunk)) as [| Hlen]; [done |].
  assert (g_source_bytes g = zlen src) as Hsrc by by destruct Hg. rewrite Hsrc in Hi.
  destruct (checked_add _ _) as [n |] eqn:En; cbn [mbind option_bind] in Hi; [| done]. apply checked_add_Some in En as [-> _].
  rewrite <- Nat2Z.inj_add, <- length_app in Hi.
  destruct (Z.leb_spec (zlen (src ++ chunk)) MAX_SOURCE_BYTES) as [Hmax |]; [| done]. split; [| done]. cbv zeta in Hi.
  destruct Hg as [h Hs Hc | header body outs st d v -> Hh Hin Hst Hv | header body outs d v n -> Hh Hin Hv Ht Hn]; cbn [g_with_source g_complete g_header] in Hi.
  - destruct (header_feed h 0 chunk) as [[h' used] |] eqn:Hf; [| done]. destruct (h_complete h') eqn:Hc'; cbn [negb] in Hi.
    + destruct (proj1 (header_feed_completes _ _ _ _ _) (conj Hf Hc')) as (hp & rest & -> & Hp & _ & ->).
      rewrite Z.add_0_l, Nat2Z.id, drop_app_length in Hi. by eapply (header_done e src h).
    + injection Hi as <-. apply header_feed_partial in Hf; [| done]. eapply (in_header e _ h'); [by rewrite hsteps_app, Hs | done].
  - by eapply decode_body.
  - cbn in Hi. destruct (bool_decide_reflect (chunk = [])) as [-> |]; [| done]. injection Hi as <-. rewrite !app_nil_r. by eapply at_end.
Qed.

Lemma gzip_feed_all_state e chunks src g g' :
  gz_state e src g -> zlen src <= MAX_SOURCE_BYTES -> gzip_feed_all new_gzip total_in total_out decompress chunks g = (g', Ok tt) ->
  gz_state e (src ++ mjoin chunks) g' /\ zlen (src ++ mjoin chunks) <= MAX_SOURCE_BYTES.
Proof.
  revert src g. induction chunks as [| c chunks IH]; intros src g Hg Hm Hf; cbn [gzip_feed_all] in Hf.
  { injection Hf as <-. cbn. by rewrite app_nil_r. }
  unfold st_bind in Hf. destruct (Feed c g) as [g1 [[] |]] eqn:Hc; [| done].
  apply (gzip_feed_state e src) in Hc as (H1 & _ & H3); [| done]. change (mjoin (c :: chunks)) with (c ++ mjoin chunks). rewrite app_assoc.
  by eapply IH.
Qed.
End wrapper.

(** ** The theorems *)
Section theorems.
Context {D : Type} (new_gzip : D) (total_in total_out : D -> Z) (decompress : D -> list Z -> D * option (Status * list Z)).
Notation Validate := (validate_gzip new_gzip total_in total_out decompress).

Lemma deflate_size_Some total header n : deflate_size total header = Some n -> n = total - header - 8 /\ 0 < n.
Proof.
  unfold deflate_size. destruct (checked_sub total header) as [a |] eqn:Ea; [| done]. cbn. apply checked_sub_Some in Ea as [-> _].
  destruct (checked_sub _ 8) as [b |] eqn:Eb; [| done]. cbn. apply checked_sub_Some in Eb as [-> _].
  destruct (Z.ltb_spec 0 (total - header - 8)); [intros [= <-]; done | done].
Qed.

(** C17: Whatever the inflate backend does, an accepted source is one member: an RFC 1952 header, then at least
    nine bytes, at most 72 MiB in all. Every source byte was consumed by the backend once and in order, the
    backend reported the end exactly at the last byte, and the archive validator accepted exactly what the
    backend wrote. The archive is at most 128 times the deflate data plus 1 MiB, and the summary reports the
    archive's counts and the source's length. *)
Theorem validate_gzip_spec e chunks s :
  Forall is_byte (mjoin chunks) -> Validate e chunks = Ok s ->
  exists header data outs d,
    mjoin chunks = header ++ data /\ member_header header /\ 8 < zlen data /\ zlen (mjoin chunks) <= MAX_SOURCE_BYTES
    /\ inflates new_gzip total_in total_out decompress (mjoin chunks) outs (Some StreamEnd) d /\ total_in d = zlen (mjoin chunks)
    /\ validate_stream e outs = Ok {| sum_files := gz_files s; sum_payload_bytes := gz_payload_bytes s; sum_archive_bytes := gz_archive_bytes s |}
    /\ gz_archive_bytes s <= (zlen data - 8) * MAX_EXPANSION_RATIO + EXPANSION_SLACK_BYTES
    /\ gz_compressed_bytes s = zlen (mjoin chunks).
Proof.
  intros Hbytes Hval. unfold validate_gzip in Hval. destruct (gzip_feed_all _ _ _ _ chunks _) as [g [[] |]] eqn:Hf; [| done].
  eapply (gzip_feed_all_state _ _ _ _ e chunks []) in Hf as [Hg Hmax]; [| by eapply in_header | done]. cbn [app] in Hg, Hmax.
  destruct Hg as [h Hs Hc | header body outs st d v Hsrc Hh Hi Hst Hv | header body outs d v n Hsrc Hh Hi Hv Ht Hn]; [done | done |].
  unfold gzip_finish in Hval. cbn [g_failure g_complete g_inner g_deflate_bytes g_source_bytes negb ok_or rbind] in Hval.
  apply rbind_ok in Hval as (sum & Hsum & Hval). apply map_err_ok in Hsum. apply rbind_ok in Hval as (allowed & Ha & Hval).
  apply ok_or_ok in Ha. destruct (checked_mul n _) as [m |] eqn:Em; [| done]. cbn in Ha. apply checked_mul_Some in Em as [-> _].
  apply checked_add_Some in Ha as [-> _]. apply fail_if_ok in Hval as [Hle%Z.ltb_ge [= <-]].
  apply deflate_size_Some in Hn as [-> Hpos]. rewrite Hsrc in Hbytes. apply Forall_app in Hbytes as [Hhb _].
  assert (zlen (mjoin chunks) - zlen header = zlen body) as Hlen by (rewrite Hsrc, length_app; lia).
  exists header, body, outs, d. split; [done |]. split; [by apply finishes_member |]. split; [lia |]. split; [done |].
  split; [done |]. split; [done |]. cbn [gz_files gz_payload_bytes gz_archive_bytes gz_compressed_bytes].
  split; [| split; [by rewrite <- Hlen | done]]. unfold validate_stream. destruct Hv as [_ Hv]. rewrite Hv, Hsum. by destruct sum.
Qed.

(** C21: The drain loop of the wrapper returns: from any backend state, with the archive validator in any state
    that it reaches by accepting outputs, and on any admissible input, [decode] ends by one of its own
    returns, within the rounds of the model, even if the backend never reports the end of its stream. *)
Theorem decode_terminates (e : ExpectedArchive) (outs : list (list Z)) (d : D) (v : ArchiveValidator) (g : GzipArchiveValidator) (input : list Z) :
  feed_all outs (ArchiveValidator_new e) = (v, Ok tt) -> g_decoder g = Some d -> g_inner g = Some v -> zlen input <= MAX_CHUNK_BYTES ->
  exists r, iterate DECODE_ROUNDS (decode_round total_in total_out decompress) (g, input) = Done r
    /\ decode total_in total_out decompress input g = r.
Proof.
  intros Hv Hd Hi Hlen.
  assert (base_ok v) as Hok by by apply (inner_base_ok (ArchiveValidator_new e) outs).
  destruct (decode_returns d total_in total_out decompress v g [] input [] None d v) as (r & Hr & _); [done | done | constructor | done | by apply inner_start | done |].
  exists r. split; [done | by apply decode_iterate].
Qed.

(** An error is final: the validator drops its header, its backend and the archive validator, keeps the
    error, and every later chunk and the final call report it again. *)
Theorem gzip_failure_latched (g g' : GzipArchiveValidator) (chunk later : list Z) (e : GzipError) :
  gzip_feed new_gzip total_in total_out decompress chunk g = (g', Err e) ->
  g_failure g = None ->
  g_header g' = None /\ g_decoder g' = None /\ g_inner g' = None
  /\ gzip_feed new_gzip total_in total_out decompress later g' = (g', Err e) /\ gzip_finish g' = Err e.
Proof.
  unfold gzip_feed at 1. intros Hf Hn. rewrite Hn in Hf. destruct (gzip_feed_inner _ _ _ _ chunk g) as [g1 [[] | e1]]; [done |].
  injection Hf as <- <-. done.
Qed.
End theorems.

(** ** A concrete backend *)

(** It consumes a member of thirty bytes and then writes the demonstration archive. *)
Definition demo_decompress (d : Z * Z) (input : list Z) : (Z * Z) * option (Status * list Z) :=
  let used := Z.min (zlen input) (30 - fst d) in
  let out := if fst d + used =? 30 then take 4096 (drop (Z.to_nat (snd d)) demo_archive) else [] in
  ((fst d + used, snd d + zlen out),
   Some (if (fst d + used =? 30) && (snd d + zlen out =? zlen demo_archive) then StreamEnd else StatusOk, out)).
Definition demo_member : list (list Z) :=
  [[31; 139; 8; 0; 0; 0]; [0; 0; 0; 3; 1; 2; 3; 4]; [5; 6; 7; 8; 9; 10; 11; 12; 1; 2; 3; 4; 5; 6; 7; 8]].

Lemma validate_gzip_spec_witness :
  validate_gzip (0, 0) fst snd demo_decompress demo_manifest demo_member
    = Ok {| gz_compressed_bytes := 30; gz_files := 1; gz_payload_bytes := 3; gz_archive_bytes := 2048 |}
  /\ exists header data, mjoin demo_member = header ++ data /\ member_header header.
Proof.
  assert (validate_gzip (0, 0) fst snd demo_decompress demo_manifest demo_member
    = Ok {| gz_compressed_bytes := 30; gz_files := 1; gz_payload_bytes := 3; gz_archive_bytes := 2048 |}) as Hv by (vm_compute; reflexivity).
  split; [exact Hv |].
  destruct (validate_gzip_spec (0, 0) fst snd demo_decompress demo_manifest demo_member _
    ltac:(repeat constructor; unfold is_byte; lia) Hv) as (header & data & _ & _ & Hsrc & Hm & _).
  exists header, data. exact (conj Hsrc Hm).
Defined.

(** A backend that writes a full buffer on every call and never ends its stream. *)
Definition endless (d : Z * Z) (input : list Z) : (Z * Z) * option (Status * list Z) :=
  ((fst d, snd d + 4096), Some (StatusOk, replicate 4096 0)).
Lemma decode_terminates_witness :
  let g := g_set None (Some (0, 0)) (Some (ArchiveValidator_new demo_manifest)) (GzipArchiveValidator_new demo_manifest) in
  exists r, iterate DECODE_ROUNDS (decode_round fst snd endless) (g, []) = Done r.
Proof.
  intros g.
  assert (feed_all [] (ArchiveValidator_new demo_manifest) = (ArchiveValidator_new demo_manifest, Ok tt)) as Hf by reflexivity.
  assert (zlen ([] : list Z) <= MAX_CHUNK_BYTES) as Hl by (unfold MAX_CHUNK_BYTES; simpl; lia).
  destruct (decode_terminates fst snd endless demo_manifest [] (0, 0) _ g [] Hf eq_refl eq_refl Hl) as (r & Hr & _).
  exists r. exact Hr.
Defined.

Lemma gzip_failure_latched_witness :
  let g := GzipArchiveValidator_new (D := Z * Z) demo_manifest in
  let g' := g_failed GzInvalidHeader (g_with_source 10 g) in
  gzip_feed (0, 0) fst snd demo_decompress (replicate 10 65) g = (g', Err GzInvalidHeader)
  /\ gzip_feed (0, 0) fst snd demo_decompress [1] g' = (g', Err GzInvalidHeader).
Proof.
  intros g g'. assert (gzip_feed (0, 0) fst snd demo_decompress (replicate 10 65) g = (g', Err GzInvalidHeader)) as Hf by (vm_compute; reflexivity).
  split; [exact Hf |].
  destruct (gzip_failure_latched (0, 0) fst snd demo_decompress g g' (replicate 10 65) [1] GzInvalidHeader Hf eq_refl) as (_ & _ & _ & H & _).
  exact H.
Defined.
