(* ===== verification/Program.v ===== *)
(** * Programs over ports

    Asynchronous code as a tree of calls to its ports (shared state, clock,
    device, audit sink), each continued by the answer.  A run answers the calls
    in any way: whatever other requests, the device or the clock do between two
    calls is an answer, so a fact about every run holds under every
    interleaving.  A run may stop before the end: the future was dropped. *)
From S2P Require Import Prelude.
Open Scope Z_scope.

Section program.
Context {Call : Type} {Answer : Call -> Type}.

Inductive prog (A : Type) : Type :=
| Ret (a : A)
| Vis (c : Call) (k : Answer c -> prog A).
Arguments Ret {A} a.
Arguments Vis {A} c k.

Fixpoint pbind {A B} (p : prog A) (f : A -> prog B) : prog B :=
  match p with
  | Ret a => f a
  | Vis c k => Vis c (fun x => pbind (k x) f)
  end.

Definition call (c : Call) : prog (Answer c) := Vis c Ret.

(** [?] on the result of a call. *)
Definition try_bind {E A B} (p : prog (result E A)) (f : A -> prog (result E B)) : prog (result E B) :=
  pbind p (fun r => match r with Ok a => f a | Err e => Ret (Err e) end).

(** [?] in a block that [timeout_at] may drop at an await: [None] is the
    elapsed deadline. *)
Definition timed_bind {E A B} (p : prog (option (result E A))) (f : A -> prog (option (result E B))) :
    prog (option (result E B)) :=
  pbind p (fun r => match r with Some (Ok a) => f a | Some (Err e) => Ret (Some (Err e)) | None => Ret None end).

(** ** Runs *)
Record event : Type := Event { ev_call : Call; ev_answer : Answer ev_call }.

(** [p] made the calls [t] and returned [Some a], or was dropped ([None]). *)
Fixpoint runs {A} (p : prog A) (t : list event) (r : option A) : Prop :=
  match p with
  | Ret a => t = [] /\ r = Some a
  | Vis c k => (t = [] /\ r = None) \/ exists x t', t = Event c x :: t' /\ runs (k x) t' r
  end.

Lemma runs_bind {A B} (p : prog A) (f : A -> prog B) t r :
  runs (pbind p f) t r <->
  (exists t1 t2 a, t = t1 ++ t2 /\ runs p t1 (Some a) /\ runs (f a) t2 r) \/ (r = None /\ runs p t None).
Proof.
  revert t. induction p as [a | c k IH]; intros t; cbn [pbind runs].
  - split; [intros Hr; left; by exists [], t, a |]. intros [(t1 & t2 & b & -> & [-> [= <-]] & Hr) | [_ [_ Hn]]]; done.
  - split.
    + intros [[-> ->] | (x & t' & -> & Hr)]; [right; split; [done | by left] |].
      apply IH in Hr as [(t1 & t2 & a & -> & H1 & H2) | [-> Hr]].
      * left. exists (Event c x :: t1), t2, a. split; [done |]. split; [right; by exists x, t1 | done].
      * right. split; [done |]. right. by exists x, t'.
    + intros [(t1 & t2 & a & -> & [[_ ?] | (x & t' & -> & H1)] & H2) | [-> [[-> _] | (x & t' & -> & Hr)]]];
        [done | right | by left | right].
      * exists x, (t' ++ t2). split; [done |]. apply IH. left. by exists t', t2, a.
      * exists x, t'. split; [done |]. apply IH. by right.
Qed.

(** The run in which an oracle answers the calls. *)
Fixpoint drive {A} (oracle : forall c, Answer c) (p : prog A) : list event * A :=
  match p with
  | Ret a => ([], a)
  | Vis c k => let '(t, a) := drive oracle (k (oracle c)) in (Event c (oracle c) :: t, a)
  end.
Lemma drive_runs {A} oracle (p : prog A) : runs p (fst (drive oracle p)) (Some (snd (drive oracle p))).
Proof.
  induction p as [a | c k IH]; [done |]. cbn [drive runs]. specialize (IH (oracle c)).
  destruct (drive oracle (k (oracle c))) as [t a]. right. by exists (oracle c), t.
Qed.

(** ** Monitors

    A monitor is an automaton on events; [wp p m Q] says that from the
    monitor's state [m] every call of [p] is admissible, whatever the answers,
    and that [p] can only return in [Q]. *)
Section monitor.
Context {M : Type} (mstep : M -> event -> M) (mok : M -> Call -> Prop).

Fixpoint wp {A} (p : prog A) (m : M) (Q : A -> M -> Prop) : Prop :=
  match p with
  | Ret a => Q a m
  | Vis c k => mok m c /\ forall x, wp (k x) (mstep m (Event c x)) Q
  end.

Lemma wp_mono {A} (p : prog A) m (Q Q' : A -> M -> Prop) :
  wp p m Q -> (forall a m', Q a m' -> Q' a m') -> wp p m Q'.
Proof.
  intros Hp HQ. revert m Hp. induction p as [a | c k IH]; intros m Hp; [by apply HQ |].
  destruct Hp as [Hc Hk]. split; [done |]. intros x. by apply IH.
Qed.

Lemma wp_bind {A B} (p : prog A) (f : A -> prog B) m Q :
  wp p m (fun a m => wp (f a) m Q) <-> wp (pbind p f) m Q.
Proof.
  revert m. induction p as [a | c k IH]; intros m; [done |]. cbn [wp pbind]. by setoid_rewrite IH.
Qed.

Lemma wp_seq {A B} (p : prog A) (f : A -> prog B) m Q :
  wp p m (fun a m => wp (f a) m Q) -> wp (pbind p f) m Q.
Proof. apply wp_bind. Qed.

Lemma wp_call {B} c (f : Answer c -> prog B) m Q :
  mok m c -> (forall x, wp (f x) (mstep m (Event c x)) Q) -> wp (pbind (call c) f) m Q.
Proof. done. Qed.

(** Every call of a run is admissible where it happens. *)
Lemma wp_sound {A} (p : prog A) m Q t r :
  wp p m Q -> runs p t r ->
  (forall t1 e t2, t = t1 ++ e :: t2 -> mok (foldl mstep m t1) (ev_call e))
  /\ (forall a, r = Some a -> Q a (foldl mstep m t)).
Proof.
  revert m t. induction p as [a | c k IH]; intros m t Hp Hr.
  - destruct Hr as [-> ->]. split; [intros [] ? ? [=] | by intros ? [= <-]].
  - destruct Hp as [Hc Hk]. destruct Hr as [[-> ->] | (x & t' & -> & Hr)]; [split; [intros [] ? ? [=] | done] |].
    destruct (IH x _ t' (Hk x) Hr) as [H1 H2]. split; [| exact H2].
    intros [| e0 t1] e t2; intros [= <- Ht]; [exact Hc |]. by apply (H1 t1 e t2).
Qed.
End monitor.
End program.

Arguments prog {Call} Answer A.
Arguments Ret {Call Answer A} a.
Arguments Vis {Call Answer A} c k.
Arguments event {Call} Answer.
Arguments Event {Call Answer} ev_call ev_answer.

Notation "'do!' x ':=' p 'in' k" := (pbind p (fun x => k))
  (at level 10, x pattern, p at level 100, k at level 200, format "'[v' 'do!'  x  ':='  p  'in' '/' k ']'") : rust_scope.
Notation "'do?' x ':=' p 'in' k" := (try_bind p (fun x => k))
  (at level 10, x pattern, p at level 100, k at level 200, format "'[v' 'do?'  x  ':='  p  'in' '/' k ']'") : rust_scope.
Notation "'do@' x ':=' p 'in' k" := (timed_bind p (fun x => k))
  (at level 10, x pattern, p at level 100, k at level 200, format "'[v' 'do@'  x  ':='  p  'in' '/' k ']'") : rust_scope.

(** * Handlers

    Running a program of Program.v: [interp] answers its calls from a state,
    [elaborate] answers each call by a program over other ports.  A Hoare triple
    about [interp] is proved with [holds_bind] and the triples of the calls. *)

Section interp.
Context {Call : Type} {Answer : Call -> Type} {S : Type} (handler : forall c, S -> Answer c * S).

Fixpoint interp {A} (p : prog Answer A) (s : S) : A * S :=
  match p with
  | Ret a => (a, s)
  | Vis c k => let '(x, s) := handler c s in interp (k x) s
  end.

Lemma interp_bind {A B} (p : prog Answer A) (f : A -> prog Answer B) s :
  interp (pbind p f) s = let '(a, s) := interp p s in interp (f a) s.
Proof. revert s. induction p as [a | c k IH]; intros s; cbn [interp pbind]; [done |]. by destruct (handler c s). Qed.

(** A handled run is a run: what monitors prove holds of it. *)
Lemma interp_runs {A} (p : prog Answer A) s : exists t, runs p t (Some (fst (interp p s))).
Proof.
  revert s. induction p as [a | c k IH]; intros s; cbn [interp runs]; [by exists [] |].
  destruct (handler c s) as [x s']. destruct (IH x s') as [t Ht]. exists (Event c x :: t). right. by exists x, t.
Qed.

(** [holds p s Q]: run from [s], [p] returns in [Q]. *)
Definition holds {A} (p : prog Answer A) (s : S) (Q : A -> S -> Prop) : Prop := Q (fst (interp p s)) (snd (interp p s)).

Lemma holds_ret {A} (a : A) s (Q : A -> S -> Prop) : Q a s -> holds (Ret a) s Q.
Proof. done. Qed.
Lemma holds_bind {A B} (p : prog Answer A) (f : A -> prog Answer B) s (Q : B -> S -> Prop) :
  holds p s (fun a s => holds (f a) s Q) -> holds (pbind p f) s Q.
Proof. unfold holds. rewrite interp_bind. by destruct (interp p s). Qed.
Lemma holds_call {B} c (f : Answer c -> prog Answer B) s (Q : B -> S -> Prop) :
  holds (f (fst (handler c s))) (snd (handler c s)) Q -> holds (pbind (Program.call c) f) s Q.
Proof. unfold holds. cbn [interp pbind Program.call]. by destruct (handler c s). Qed.
Lemma holds_mono {A} (p : prog Answer A) s (Q Q' : A -> S -> Prop) :
  holds p s Q -> (forall a s, Q a s -> Q' a s) -> holds p s Q'.
Proof. unfold holds. auto. Qed.

Lemma holds_try {E A B} (p : prog Answer (result E A)) (f : A -> prog Answer (result E B)) s (Q : result E B -> S -> Prop) :
  holds p s (fun r s => match r with Ok a => holds (f a) s Q | Err e => Q (Err e) s end) -> holds (try_bind p f) s Q.
Proof.
  intros Hp. unfold try_bind. apply holds_bind. eapply holds_mono; [exact Hp |]. by intros [a | e] s'.
Qed.
End interp.

Section elaborate.
Context {Call : Type} {Answer : Call -> Type} {Call' : Type} {Answer' : Call' -> Type} {S : Type}.
Context (implement : forall c, S -> prog Answer' (Answer c * S)).

Fixpoint elaborate {A} (p : prog Answer A) (s : S) : prog Answer' (A * S) :=
  match p with
  | Ret a => Ret (a, s)
  | Vis c k => pbind (implement c s) (fun r => elaborate (k (fst r)) (snd r))
  end.

(** What a monitor proves of every run of [p] holds of the elaborated run, when
    the implementation keeps the ports and the monitor related. *)
Context {W : Type} (handler : forall c, W -> Answer' c * W).
Context {M : Type} (mstep : M -> event Answer -> M) (mok : M -> Call -> Prop) (related : M -> S -> W -> Prop).

Lemma holds_elaborate {A} (p : prog Answer A) m s w (Q : A -> M -> Prop) :
  (forall m c s w, mok m c -> related m s w ->
     holds handler (implement c s) w (fun r w' => related (mstep m (Event c (fst r))) (snd r) w')) ->
  wp mstep mok p m Q -> related m s w ->
  holds handler (elaborate p s) w (fun r w' => exists m', Q (fst r) m' /\ related m' (snd r) w').
Proof.
  intros Hstep. revert m s w. induction p as [a | c k IH]; intros m s w Hp Hr; [by exists m |]. destruct Hp as [Hc Hk].
  cbn [elaborate]. apply holds_bind. eapply holds_mono; [by apply (Hstep m) |]. intros [x s'] w' Hr'. by apply (IH x _ _ _ (Hk x)).
Qed.
End elaborate.

(** The same program over other ports, when the implementation has no state. *)
Section translate.
Context {Call : Type} {Answer : Call -> Type} {Call' : Type} {Answer' : Call' -> Type} (embed : forall c, prog Answer' (Answer c)).
Fixpoint translate {A} (p : prog Answer A) : prog Answer' A :=
  match p with Ret a => Ret a | Vis c k => pbind (embed c) (fun x => translate (k x)) end.
End translate.

(** * Awaits that may not complete

    A future under [timeout_at] is dropped when the deadline elapses at one
    of its awaits, and the whole request may be dropped at any await.  Code
    whose drop glue matters (a guard that closes a connection, a child that
    must be killed) sees the three outcomes of an await as a [fate]. *)

Inductive fate (A : Type) : Type := Ready (a : A) | Elapsed | Dropped.
Arguments Ready {A} a.
Arguments Elapsed {A}.
Arguments Dropped {A}.

Section await.
Context {Call : Type} {Answer : Call -> Type}.

(** [fut.await?] inside the block under the deadline. *)
Definition await_bind {E A B} (p : prog Answer (fate (result E A))) (f : A -> prog Answer (fate (result E B))) :
    prog Answer (fate (result E B)) :=
  pbind p (fun r => match r with
                    | Ready (Ok a) => f a
                    | Ready (Err e) => Ret (Ready (Err e))
                    | Elapsed => Ret Elapsed
                    | Dropped => Ret Dropped
                    end).

Definition fate_map {A B} (f : A -> B) (r : fate A) : fate B :=
  match r with Ready a => Ready (f a) | Elapsed => Elapsed | Dropped => Dropped end.

(** [fut.await.map_err(|_| e)?] on a call of the library, and the same on a
    call that does not wait. *)
Definition or_fail {E A} (e : E) (p : prog Answer (fate (option A))) : prog Answer (fate (result E A)) :=
  pbind p (fun r => Ret (fate_map (fun o => ok_or o e) r)).
Definition now_or_fail {E A} (e : E) (p : prog Answer (option A)) : prog Answer (fate (result E A)) :=
  pbind p (fun r => Ret (Ready (ok_or r e))).

(** ** Runs that complete *)
Lemma runs_then {A B} (p : prog Answer A) (f : A -> prog Answer B) t b :
  runs (pbind p f) t (Some b) -> exists t1 t2 a, t = t1 ++ t2 /\ runs p t1 (Some a) /\ runs (f a) t2 (Some b).
Proof. intros H. by apply runs_bind in H as [H | [[=] _]]. Qed.

Lemma runs_await {E A B} (p : prog Answer (fate (result E A))) (f : A -> prog Answer (fate (result E B))) t b :
  runs (await_bind p f) t (Some (Ready (Ok b))) ->
  exists t1 t2 a, t = t1 ++ t2 /\ runs p t1 (Some (Ready (Ok a))) /\ runs (f a) t2 (Some (Ready (Ok b))).
Proof.
  intros (t1 & t2 & r & -> & H1 & H2)%runs_then. destruct r as [[a | e] | |]; try (by destruct H2 as [_ [=]]). by exists t1, t2, a.
Qed.

(** The run in which the [n]th call is answered by the [n]th oracle. *)
Fixpoint replay {A} (oracle : nat -> forall c, Answer c) (n : nat) (p : prog Answer A) : list (event Answer) * A :=
  match p with
  | Ret a => ([], a)
  | Vis c k => let x := oracle n c in let '(t, a) := replay oracle (S n) (k x) in (Event c x :: t, a)
  end.
Lemma replay_runs {A} oracle n (p : prog Answer A) : runs p (fst (replay oracle n p)) (Some (snd (replay oracle n p))).
Proof.
  revert n. induction p as [a | c k IH]; intros n; [done |]. cbn [replay runs]. specialize (IH (oracle n c) (S n)).
  destruct (replay oracle (S n) (k (oracle n c))) as [t a]. right. by exists (oracle n c), t.
Qed.

(** The same where some calls are never answered. *)
Fixpoint follow {A} (oracle : nat -> forall c, option (Answer c)) (n : nat) (p : prog Answer A) : list (event Answer) * option A :=
  match p with
  | Ret a => ([], Some a)
  | Vis c k => match oracle n c with Some x => let '(t, r) := follow oracle (S n) (k x) in (Event c x :: t, r) | None => ([], None) end
  end.
Lemma follow_runs {A} oracle n (p : prog Answer A) : runs p (fst (follow oracle n p)) (snd (follow oracle n p)).
Proof.
  revert n. induction p as [a | c k IH]; intros n; [done |]. cbn [follow runs]. destruct (oracle n c) as [x |]; [| by left].
  specialize (IH x (S n)). destruct (follow oracle (S n) (k x)) as [t r]. right. by exists x, t.
Qed.

Lemma runs_one {B} c (f : Answer c -> prog Answer B) t b :
  runs (pbind (call c) f) t (Some b) -> exists x t', t = Event c x :: t' /\ runs (f x) t' (Some b).
Proof. by intros [[_ [=]] | H]. Qed.

Lemma runs_or_fail {E A} (e : E) (p : prog Answer (fate (option A))) t a :
  runs (or_fail e p) t (Some (Ready (Ok a))) -> runs p t (Some (Ready (Some a))).
Proof.
  intros (t1 & t2 & r & -> & H1 & H2)%runs_then. destruct H2 as [-> [= Hr]]. rewrite app_nil_r. destruct r as [[x |] | |]; try discriminate Hr.
  by injection Hr as <-.
Qed.

Context {M : Type} (mstep : M -> event Answer -> M) (mok : M -> Call -> Prop).

Lemma wp_await {E A B} (p : prog Answer (fate (result E A))) (f : A -> prog Answer (fate (result E B))) m Q :
  wp mstep mok p m (fun r m' => match r with
                                | Ready (Ok a) => wp mstep mok (f a) m' Q
                                | Ready (Err e) => Q (Ready (Err e)) m'
                                | Elapsed => Q Elapsed m'
                                | Dropped => Q Dropped m'
                                end) ->
  wp mstep mok (await_bind p f) m Q.
Proof. intros H. apply wp_seq. eapply wp_mono; [exact H |]. by intros [[a | e] | |] m'. Qed.
End await.

Notation "'do~' x ':=' p 'in' k" := (await_bind p (fun x => k))
  (at level 10, x pattern, p at level 100, k at level 200, format "'[v' 'do~'  x  ':='  p  'in' '/' k ']'") : rust_scope.

(** * What had happened before a call

    [before p ok]: whenever a run of [p] makes a call, what had happened until
    then allows it. *)
Section before.
Context {Call : Type} {Answer : Call -> Type}.

Definition before {A} (p : prog Answer A) (ok : list (event Answer) -> Call -> Prop) : Prop :=
  forall t r, runs p t r -> forall t1 e t2, t = t1 ++ e :: t2 -> ok t1 (ev_call e).

Lemma before_ret {A} (a : A) ok : before (Ret a) ok.
Proof. intros t r [-> _] [| e1 t1] e t2 [=]. Qed.
Lemma before_mono {A} (p : prog Answer A) (ok ok' : list (event Answer) -> Call -> Prop) :
  before p ok -> (forall t c, ok t c -> ok' t c) -> before p ok'.
Proof. intros Hp Hok t r Hr t1 e t2 Ht. eapply Hok, Hp; done. Qed.

(** The calls up to a point are a run that stopped there. *)
Lemma runs_prefix {A} (p : prog Answer A) t r : runs p t r -> forall t1 e t2, t = t1 ++ e :: t2 -> runs p t1 None.
Proof.
  revert t. induction p as [a | c k IH]; intros t Hr t1 e t2 Ht; subst t.
  - by destruct Hr as [Hr%eq_sym%app_cons_not_nil _].
  - destruct Hr as [[Hr%eq_sym%app_cons_not_nil _] | (x & t' & Ht & Hr)]; [done |]. destruct t1 as [| e1 t1]; [by left |].
    pose proof (f_equal head Ht) as [= He]. pose proof (f_equal tail Ht) as Htl. cbn in Htl. subst e1.
    right. exists x, t1. split; [done |]. by apply (IH x t' Hr t1 e t2).
Qed.

Lemma before_seq {A B} (p : prog Answer A) (f : A -> prog Answer B) ok :
  before p ok -> (forall t a, runs p t (Some a) -> before (f a) (fun t' c => ok (t ++ t') c)) -> before (pbind p f) ok.
Proof.
  intros Hp Hf t r Hr t1 e t2 Ht. apply runs_bind in Hr as [(ta & tb & a & -> & Ha & Hb) | [_ Hr]]; [| by apply (Hp t None Hr t1 e t2)].
  destruct (decide (length t1 < length ta)%nat) as [Hl | Hl].
  - pose proof (f_equal (take (length ta)) Ht) as Hta. rewrite take_app_length in Hta. rewrite take_app_ge in Hta by lia.
    destruct (length ta - length t1)%nat as [| n] eqn:En; [lia |]. cbn [take] in Hta. by eapply (Hp ta (Some a) Ha t1 e).
  - pose proof (f_equal (drop (length ta)) Ht) as Htb. rewrite drop_app_length in Htb. rewrite drop_app_le in Htb by lia.
    pose proof (f_equal (take (length ta)) Ht) as Hta. rewrite take_app_length in Hta. rewrite take_app_le in Hta by lia.
    replace t1 with (ta ++ drop (length ta) t1) by (rewrite Hta at 1; apply take_drop). by eapply (Hf ta a Ha tb r Hb).
Qed.
Lemma before_timed {E A B} (p : prog Answer (option (result E A))) (f : A -> prog Answer (option (result E B))) ok :
  before p ok -> (forall t a, runs p t (Some (Some (Ok a))) -> before (f a) (fun t' c => ok (t ++ t') c)) -> before (timed_bind p f) ok.
Proof. intros Hp Hf. apply before_seq; [done |]. intros t [[a | e] |] Ha; [by apply Hf | apply before_ret | apply before_ret]. Qed.
Lemma before_one c : before (call (Answer := Answer) c) (fun t d => t = [] /\ d = c).
Proof.
  intros t r Hr t1 e t2 ->. destruct Hr as [[Hr%eq_sym%app_cons_not_nil _] | (x & t' & Ht & [-> _])]; [done |].
  destruct t1 as [| ? [| ? ?]]; injection Ht as ->; done.
Qed.
Lemma before_call {A} c (k : Answer c -> prog Answer A) ok :
  ok [] c -> (forall x, before (k x) (fun t d => ok (Event c x :: t) d)) -> before (Vis c k) ok.
Proof.
  intros Hc Hf. apply (before_seq (call c) k).
  - eapply before_mono; [apply before_one |]. by intros t d [-> ->].
  - intros t a Hr. destruct Hr as [[_ [=]] | (x & t' & -> & [-> [= ->]])]. apply Hf.
Qed.
End before.

Lemma before_translate {Call : Type} {Answer : Call -> Type} {Call' : Type} {Answer' : Call' -> Type} (embed : forall c, prog Answer' (Answer c)) {A}
    (p : prog Answer A) (P : Call' -> Prop) :
  (forall c, before (embed c) (fun _ => P)) -> before (translate embed p) (fun _ => P).
Proof. intros He. induction p as [a | c k IH]; cbn [translate]; [apply before_ret |]. apply before_seq; [apply He | by intros t x _]. Qed.

(** What holds of every call of a program. *)
Lemma before_always {Call : Type} {Answer : Call -> Type} {A} (p : prog Answer A) (P : Call -> Prop) :
  before p (fun _ => P) -> before p (fun past c => P c /\ runs p past None).
Proof. intros Hp t r Hr t1 e t2 Ht. split; [by apply (Hp t r Hr t1 e t2) | by apply (runs_prefix p t r Hr t1 e t2)]. Qed.
Lemma before_all {Call : Type} {Answer : Call -> Type} {A} (p : prog Answer A) (P : Call -> Prop) t r :
  before p (fun _ => P) -> runs p t r -> Forall (fun e => P (ev_call e)) t.
Proof. intros Hp Hr. apply Forall_forall. intros e (t1 & t2 & Ht)%list_elem_of_split. by apply (Hp t r Hr t1 e t2). Qed.
Lemma before_weaken {Call : Type} {Answer : Call -> Type} {A} (p : prog Answer A) ok (P : Call -> Prop) :
  before p ok -> (forall t c, ok t c -> P c) -> before p (fun _ => P).
Proof. intros Hp Hok. eapply before_mono; [exact Hp | exact Hok]. Qed.

Lemma runs_translate {Call : Type} {Answer : Call -> Type} {Call' : Type} {Answer' : Call' -> Type} (embed : forall c, prog Answer' (Answer c)) {A}
    (p : prog Answer A) t a :
  runs (translate embed p) t (Some a) -> exists t', runs p t' (Some a).
Proof.
  revert t. induction p as [b | c k IH]; intros t Hr; cbn [translate] in Hr.
  - destruct Hr as [_ [= ->]]. by exists [].
  - apply runs_then in Hr as (t1 & t2 & x & _ & _ & (t' & Ht)%IH). exists (Event c x :: t'). right. by exists x, t'.
Qed.

(** ** Runs that return a value, call by call *)
Section returning.
Context {Call : Type} {Answer : Call -> Type}.

Lemma runs_ret {A} (a b : A) (t : list (event Answer)) : runs (Ret a) t (Some b) <-> t = [] /\ a = b.
Proof. split; [by intros [-> [= <-]] | by intros [-> ->]]. Qed.

Lemma runs_called c (x : Answer c) t : runs (call c) t (Some x) <-> t = [Event c x].
Proof.
  split; [intros [[_ [=]] | (y & t' & -> & Hr)]; by apply runs_ret in Hr as [-> ->] |]. intros ->. right. by exists x, [].
Qed.

Lemma runs_try {E A B} (p : prog Answer (result E A)) (f : A -> prog Answer (result E B)) t b :
  runs (try_bind p f) t (Some (Ok b)) <-> exists t1 t2 a, t = t1 ++ t2 /\ runs p t1 (Some (Ok a)) /\ runs (f a) t2 (Some (Ok b)).
Proof.
  unfold try_bind. rewrite runs_bind. split.
  - intros [(t1 & t2 & [a | e] & -> & H1 & H2) | [[=] _]]; [by exists t1, t2, a |]. by apply runs_ret in H2 as [_ [=]].
  - intros (t1 & t2 & a & -> & H1 & H2). left. by exists t1, t2, (Ok a).
Qed.

(** The next thing done, and the rest. *)
Lemma try_ret {E A B} (r : result E A) (f : A -> prog Answer (result E B)) t b :
  runs (try_bind (Ret r) f) t (Some (Ok b)) <-> exists a, r = Ok a /\ runs (f a) t (Some (Ok b)).
Proof.
  rewrite runs_try. split.
  - intros (t1 & t2 & a & -> & H1 & H2). apply runs_ret in H1 as [-> ->]. by exists a.
  - intros (a & -> & H). exists [], t, a. by repeat split.
Qed.
Lemma runs_next {A} c (f : Answer c -> prog Answer A) t b :
  runs (pbind (call c) f) t (Some b) <-> exists x t', t = Event c x :: t' /\ runs (f x) t' (Some b).
Proof. split; [apply runs_one |]. intros H. by right. Qed.
End returning.
