(* ===== verification/Ports.v ===== *)
(** * The runtime's data and ports

    [crates/runtime/src/]: errors ([error.rs]), limits ([backend.rs]), audit
    events ([audit.rs]), and the calls that a request makes: on the state that
    requests share, on the clock, on the device ([Backend]), on the entropy
    source ([SnapshotTokens]) and on the audit sink.  Instants count
    nanoseconds, time stamps milliseconds. *)
From S2P Require Import Prelude Order Text Json Core Budget Packages Schema Evaluate Operation Invocation Catalog Program.
Open Scope Z_scope.

Inductive RuntimeError : Type :=
| InvalidCursor | EntropyUnavailable | CoreErr (error : CoreError) | UnknownOperation | CapabilityUnknown
| CapabilityUnsupported | InvalidConfig | TargetNotConfigured | UnsupportedTarget | HostKeyRejected
| AuthenticationFailed | UnsupportedAuditDestination | Busy | BackendFailed | Timeout | RtOutputLimit
| RtInvalidOutput | AuditUnavailable | CompletionAuditFailed.

Definition runtime_code (e : RuntimeError) : string :=
  match e with
  | InvalidCursor => "invalid_cursor"
  | EntropyUnavailable => "entropy_unavailable"
  | CoreErr error => code error
  | UnknownOperation => "unknown_operation"
  | CapabilityUnknown => "capability_unknown"
  | CapabilityUnsupported => "capability_unsupported"
  | InvalidConfig => "invalid_config"
  | TargetNotConfigured => "target_not_configured"
  | UnsupportedTarget => "unsupported_target"
  | HostKeyRejected => "host_key_rejected"
  | AuthenticationFailed => "authentication_failed"
  | UnsupportedAuditDestination => "unsupported_audit_destination"
  | Busy => "busy"
  | BackendFailed => "backend_failed"
  | Timeout => "timeout"
  | RtOutputLimit => "output_limit"
  | RtInvalidOutput => "invalid_output"
  | AuditUnavailable => "audit_unavailable"
  | CompletionAuditFailed => "audit_completion_failed"
  end.

(** [impl From<CoreError>]: [?] on a [CoreError]. *)
Definition core_err {A} (r : result CoreError A) : result RuntimeError A := map_err CoreErr r.

Record Limits : Type := { timeout_ms : Z; max_output_bytes : Z; max_concurrent : Z }.
Definition Limits_default : Limits := {| timeout_ms := 10000; max_output_bytes := 65536; max_concurrent := 2 |}.
Definition limits_validate (l : Limits) : result RuntimeError unit :=
  fail_if negb (in_range 1 300000 (timeout_ms l)) || negb (in_range 1 16777216 (max_output_bytes l))
       || negb (in_range 1 64 (max_concurrent l)) with InvalidConfig in
  Ok tt.

(** ** Audit events *)
Inductive AuditKind : Type := KInvocation | KCapability.
Inductive AuditPhase : Type := PStart | PFinish | PRejection.
Inductive AuditOutcome : Type :=
| OAttempt | OSuccess | ODenied | OInvalidArguments | OUnknownOperation | OBusy | OFailed.

Record AuditEvent : Type := {
  a_kind : AuditKind; a_timestamp_ms : Z; a_sequence : Z; a_phase : AuditPhase; a_operation : string;
  a_outcome : AuditOutcome; a_duration_ms : option Z
}.

Definition safe_operation_name (name : string) : string :=
  if negb (is_empty name) && (slen name <=? 128)
     && all_bytes (fun b => is_ascii_alphanumeric b || existsb (Z.eqb b) (str_bytes "._-")) name
  then name else "unknown".

(** ** Shared data *)

(** [valid: Arc<AtomicBool>] is a cell shared by every clone. *)
Record Observation : Type := { o_value : CapabilityObservation; o_epoch : option Z; o_started : Z; o_valid : nat }.

Record Snapshot : Type := { s_records : PackageObservation; s_nonce : list Z; s_operation : string; s_epoch : Z; s_started : Z }.

(** ** Calls *)
Inductive Call : Type :=
(* the dispatcher's counters and semaphores *)
| Sequence | TryPermit | ReleasePermit
| LoadFailed | StoreFailed | TryWaiter | ReleaseWaiter | AcquireGate | ReleaseGate
| SpawnRecord (event : AuditEvent) | JoinRecord (worker : nat)
(* the capability cache: its lock, its map, the validity cells *)
| LockEntries | UnlockEntries | ReadEntries | WriteEntries (entries : list (ReviewedObject * Observation))
| NewCell | LoadCell (cell : nat) | Revoke (cell : nat)
(* the package slot *)
| TryLease | ReleaseLease | ReadSlot | WriteSlot (slot : option Snapshot)
(* the clocks *)
| Now | WallClock
(* the device and the entropy source *)
| Epoch | Probe (object : ReviewedObject) | RunAction (action : PreparedAction) | CaptureApk | CaptureOpkg | Nonce.

(** An await that a deadline may cut short answers [None] when it elapses. *)
Definition Answer (c : Call) : Type :=
  match c with
  | Sequence | Now | WallClock => Z
  | TryPermit | LoadFailed | TryWaiter | TryLease | LoadCell _ => bool
  | AcquireGate | LockEntries => option unit
  | SpawnRecord _ | NewCell => nat
  (* the worker's own [None] is a panic *)
  | JoinRecord _ => option (option (result RuntimeError unit))
  | ReadEntries => list (ReviewedObject * Observation)
  | ReadSlot => option Snapshot
  | Epoch => option Z
  | Probe _ => option (result RuntimeError CapabilityObservation)
  | RunAction _ => option (result RuntimeError value)
  | CaptureApk | CaptureOpkg => option (result RuntimeError PackageObservation)
  | Nonce => option (result RuntimeError (list Z))
  | ReleasePermit | StoreFailed | ReleaseWaiter | ReleaseGate | UnlockEntries | WriteEntries _ | Revoke _
  | ReleaseLease | WriteSlot _ => unit
  end.

Notation request := (prog Answer).
Notation call := (Program.call (Answer := Answer)).

Definition NANOS_PER_MS : Z := 1000000.
(** [instant.elapsed()], which saturates at zero. *)
Definition elapsed (started now : Z) : Z := Z.max 0 (now - started).
(** [duration.as_millis().min(u64::MAX as u128) as u64] *)
Definition as_millis (nanos : Z) : Z := Z.min (nanos / NANOS_PER_MS) U64_MAX.

(** [AuditEvent::new(..).with_kind(kind)] *)
Definition AuditEvent_new (sequence : Z) (phase : AuditPhase) (operation : string) (outcome : AuditOutcome)
    (duration_ms : option Z) (kind : AuditKind) : request AuditEvent :=
  do! now := call WallClock in
  Ret {| a_kind := kind; a_timestamp_ms := Z.min now U64_MAX; a_sequence := sequence; a_phase := phase;
         a_operation := safe_operation_name operation; a_outcome := outcome; a_duration_ms := duration_ms |}.
