(* ===== verification/Cache.v ===== *)
(** * The capability cache

    [crates/runtime/src/capability.rs]: private observations of the device,
    bound to a connection epoch, with a lease of thirty seconds, revoked
    through a cell that every clone shares. *)
From S2P Require Import Prelude Order Text Json Core Budget Packages Schema Evaluate Operation Invocation Catalog Program Ports.
Open Scope Z_scope.

Definition TTL : Z := 30 * 1000 * NANOS_PER_MS.

(** [ReviewedObject] is ordered by its declaration. *)
Definition reviewed_index (o : ReviewedObject) : Z :=
  match o with
  | ROSystem => 0 | RONetworkDevice => 1 | RONetworkInterface => 2 | RONetworkInterfaceLan => 3 | RONetworkInterfaceWan => 4
  | ROIwinfo => 5 | ROService => 6 | ROLuci => 7 | ROLuciRpc => 8 | ROUci => 9
  end.
#[export] Instance ReviewedObject_ord : Ord ReviewedObject.
Proof.
  refine {| cmp x y := Z.compare (reviewed_index x) (reviewed_index y) |}.
  - intros x y. rewrite Z.compare_eq_iff. split; [by destruct x, y | by intros ->].
  - intros x y. apply Z.compare_antisym.
  - intros x y z. rewrite !Z.compare_lt_iff. apply Z.lt_trans.
Defined.

Record CapabilityStatus : Type := {
  compatibility : string; reason : string; scope : string; cs_response_contract : option string; remaining_ttl_ms : option Z
}.

Definition Observation_unknown (r : UnknownReason) : request Observation :=
  do! started := call Now in
  do! valid := call NewCell in
  Ret {| o_value := ObservedUnknown r; o_epoch := None; o_started := started; o_valid := valid |}.

Definition fresh (o : Observation) : request bool :=
  match o_epoch o with
  | None => Ret false
  | Some e =>
      do! valid := call (LoadCell (o_valid o)) in
      if negb valid then Ret false
      else
        do! epoch := call Epoch in
        if negb (bool_decide (Some e = epoch)) then Ret false
        else
          do! now := call Now in
          Ret (elapsed (o_started o) now <? TTL)
  end.

Definition revoke (o : Observation) : request unit := call (Revoke (o_valid o)).

Definition verdict (o : Observation) (requirement : CapabilityRequirement) (action : option PreparedAction) : request Verdict :=
  match o_epoch o with
  | Some _ =>
      do! f := fresh o in
      if negb f then Ret (Unknown StaleObservation) else Ret (evaluate requirement (o_value o) action)
  | None => Ret (evaluate requirement (o_value o) action)
  end.

Definition status (o : Observation) (requirement : CapabilityRequirement) : request CapabilityStatus :=
  do! v := verdict o requirement None in
  let '(c, r) := match v with
                 | Compatible => ("compatible", "signature_matched")
                 | Incompatible r => ("incompatible", incompatible_code r)
                 | Unknown r => ("unknown", unknown_code r)
                 end in
  do! f := fresh o in
  do! remaining :=
    (if f then do! now := call Now in Ret (Some (as_millis (Z.max 0 (TTL - elapsed (o_started o) now)))) else Ret None) in
  Ret {| compatibility := c; reason := r; scope := "input_signature_only";
         cs_response_contract := response_contract requirement; remaining_ttl_ms := remaining |}.

(** [entries.retain(..)]: stale entries are revoked and dropped. *)
Fixpoint retain_fresh (entries : list (ReviewedObject * Observation)) : request (list (ReviewedObject * Observation)) :=
  match entries with
  | [] => Ret []
  | entry :: entries =>
      do! f := fresh (snd entry) in
      if f then do! kept := retain_fresh entries in Ret (entry :: kept)
      else do! _ := revoke (snd entry) in retain_fresh entries
  end.

Definition bt_remove {K V} `{Ord K} (k : K) (m : list (K * V)) : list (K * V) := List.filter (fun p => negb (eqb k (fst p))) m.

(** An observation of another object, or an invalid one, is not stored as such. *)
Definition admit_observation (object : ReviewedObject) (value : CapabilityObservation) : CapabilityObservation :=
  match value with
  | ObservedUbus observed =>
      if negb (bool_decide (ob_object observed = object)) || negb (is_ok (observation_validate observed))
      then ObservedUnknown InvalidObservation else value
  | other => other
  end.

(** [observe] after the lock was taken and the entries were found not to serve. *)
Definition probe_entry (object : ReviewedObject) (entries : list (ReviewedObject * Observation)) :
    request (option (result RuntimeError Observation)) :=
  do! started := call Now in
  do! previous_epoch := call Epoch in
  do@ value := call (Probe object) in
  do! epoch := call Epoch in
  match epoch with
  | None => do! o := Observation_unknown ProbeUnavailable in Ret (Some (Ok o))
  | Some epoch =>
      if match previous_epoch with Some previous => negb (previous =? epoch) | None => false end
      then do! o := Observation_unknown StaleObservation in Ret (Some (Ok o))
      else
        do! now := call Now in
        if TTL <=? elapsed started now
        then do! o := Observation_unknown StaleObservation in Ret (Some (Ok o))
        else
          do! valid := call NewCell in
          let entry := {| o_value := admit_observation object value; o_epoch := Some epoch; o_started := started; o_valid := valid |} in
          do! _ := call (WriteEntries (bt_insert object entry entries)) in
          Ret (Some (Ok entry))
  end.

Definition observe_locked (object : ReviewedObject) (refresh : bool) : request (option (result RuntimeError Observation)) :=
  do! entries := call ReadEntries in
  do! entries := retain_fresh entries in
  do! _ := call (WriteEntries entries) in
  match (if refresh then None else bt_get object entries) with
  | Some entry => Ret (Some (Ok entry))
  | None =>
      match bt_get object entries with
      | Some previous =>
          do! _ := call (WriteEntries (bt_remove object entries)) in
          do! _ := revoke previous in
          probe_entry object (bt_remove object entries)
      | None => probe_entry object entries
      end
  end.

Definition observe (requirement : CapabilityRequirement) (refresh : bool) : request (option (result RuntimeError Observation)) :=
  match probe_object requirement with
  | None => do! o := Observation_unknown UnreviewedProbe in Ret (Some (Ok o))
  | Some object =>
      do! locked := call LockEntries in
      match locked with
      | None => Ret None
      | Some _ =>
          do! r := observe_locked object refresh in
          do! _ := call UnlockEntries in
          Ret r
      end
  end.

(** * Package snapshots

    [crates/runtime/src/packages.rs]: one captured inventory at a time, served
    page by page through cursors that carry its nonce.  The lease of the slot
    clears it unless the page was delivered. *)

Definition SNAPSHOT_TTL : Z := 120 * 1000 * NANOS_PER_MS.

Definition lease : request (result RuntimeError unit) :=
  do! free := call TryLease in
  Ret (if free then Ok tt else Err Busy).

(** [impl Drop for PageLease]; the guard is dropped after it. *)
Definition drop_lease (keep : bool) : request unit :=
  do! _ := (if keep then Ret tt else call (WriteSlot None)) in
  call ReleaseLease.

Definition snapshot_stale (s : Snapshot) : request bool :=
  do! now := call Now in
  if SNAPSHOT_TTL <=? elapsed (s_started s) now then Ret true
  else
    do! epoch := call Epoch in
    Ret (negb (bool_decide (epoch = Some (s_epoch s)))).

(** [PageLease::preserve] consumes the lease on every path. *)
Definition preserve : request (result RuntimeError unit) :=
  do! slot := call ReadSlot in
  match slot with
  | None => do! _ := drop_lease false in Ret (Err InvalidCursor)
  | Some snapshot =>
      do! stale := snapshot_stale snapshot in
      if stale then do! _ := drop_lease false in Ret (Err InvalidCursor)
      else do! _ := drop_lease true in Ret (Ok tt)
  end.

(** The branch of [page] that continues a snapshot: the offset. *)
Definition continue_snapshot (operation : string) (profile : PackageProfile) (cursor : string) :
    request (result RuntimeError Z) :=
  do? cursor := Ret (core_err (cursor_parse cursor)) in
  do! slot := call ReadSlot in
  do? snapshot := Ret (ok_or slot InvalidCursor) in
  if negb (bool_decide (nonce_of cursor = s_nonce snapshot))
     || negb (bool_decide (profile = Packages.profile (s_records snapshot)))
     || negb (String.eqb operation (s_operation snapshot))
  then Ret (Err InvalidCursor)
  else
    do! stale := snapshot_stale snapshot in
    if stale then Ret (Err InvalidCursor) else Ret (Ok (offset_of cursor)).

Section page.
Context (has_tokens : bool).

(** The branch of [page] that captures a snapshot. *)
Definition capture_snapshot (operation : string) (profile : PackageProfile) (deadline : Z) :
    request (option (result RuntimeError Z)) :=
  do! _ := call (WriteSlot None) in
  do! started := call Now in
  do@ _ := Ret (Some (if has_tokens then Ok tt else Err EntropyUnavailable)) in
  do@ nonce := call Nonce in
  do! now := call Now in
  if deadline <=? now then Ret (Some (Err Timeout))
  else if bool_decide (nonce = zero_nonce) then Ret (Some (Err EntropyUnavailable))
  else
    do! previous := call Epoch in
    do@ records :=
      (match profile with Apk3_0_5 => call CaptureApk | Opkg38eccbb1RootStatus => call CaptureOpkg end) in
    if negb (bool_decide (Packages.profile records = profile)) then Ret (Some (Err RtInvalidOutput))
    else
      do! epoch := call Epoch in
      do@ epoch := Ret (Some (ok_or epoch CapabilityUnknown)) in
      do! now := call Now in
      if deadline <=? now then Ret (Some (Err Timeout))
      else if match previous with Some old => negb (old =? epoch) | None => false end then Ret (Some (Err InvalidCursor))
      else
        do! now := call Now in
        if SNAPSHOT_TTL <=? elapsed started now then Ret (Some (Err InvalidCursor))
        else
          do! _ := call (WriteSlot (Some {| s_records := records; s_nonce := nonce; s_operation := operation;
                                            s_epoch := epoch; s_started := started |})) in
          Ret (Some (Ok 0)).

Definition snapshot_page (operation : string) (req : PackageProfile * option string) (deadline : Z) :
    request (option (result RuntimeError value)) :=
  let '(profile, cursor) := req in
  do@ offset :=
    (match cursor with
     | Some cursor => do! r := continue_snapshot operation profile cursor in Ret (Some r)
     | None => capture_snapshot operation profile deadline
     end) in
  do! slot := call ReadSlot in
  Ret (Some (
    let? snapshot := ok_or slot InvalidCursor in
    core_err (Packages.page (s_records snapshot) (s_nonce snapshot) offset))).
End page.
