(* ===== verification/Dispatcher.v ===== *)
(** * The dispatcher

    [crates/runtime/src/dispatcher.rs]: the path of a request from the
    authorization of its operation to the audited result.  Guards that the
    code drops at the end of a scope are explicit calls at that end. *)
From S2P Require Import Prelude Order Text Json Core Budget Packages Schema Evaluate Operation Invocation Catalog Program Ports Cache.
Open Scope Z_scope.

(** What a dispatcher owns besides the shared state behind its ports. *)
Record Dispatcher : Type := { d_catalog : Catalog; d_policy : Policy; d_limits : Limits; d_tokens : bool }.

Definition Dispatcher_new (catalog : Catalog) (policy : Policy) (limits : Limits) : result RuntimeError Dispatcher :=
  let? _ := limits_validate limits in
  let? _ := core_err (policy_validate policy catalog) in
  Ok {| d_catalog := catalog; d_policy := policy; d_limits := limits; d_tokens := false |}.

Definition with_snapshot_tokens (d : Dispatcher) : Dispatcher :=
  {| d_catalog := d_catalog d; d_policy := d_policy d; d_limits := d_limits d; d_tokens := true |}.

Definition available_operations (d : Dispatcher) : list Operation :=
  List.filter (fun o => is_ok (authorize (d_policy d) o)) (operations (d_catalog d)).

(** ** Audit *)

(** Under the gate: hand the event to a worker that owns the gate until the
    sink returns, and wait for it. *)
Definition record_gated (event : AuditEvent) : request (option (result RuntimeError unit)) :=
  do! gate := call AcquireGate in
  match gate with
  | None => Ret None
  | Some _ =>
      do! failed := call LoadFailed in
      if failed then do! _ := call ReleaseGate in Ret (Some (Err AuditUnavailable))
      else
        do! worker := call (SpawnRecord event) in
        do! joined := call (JoinRecord worker) in
        Ret (match joined with
             | None => None
             | Some (Some (Ok _)) => Some (Ok tt)
             | Some _ => Some (Err AuditUnavailable)
             end)
  end.

Definition record_audit (event : AuditEvent) : request (result RuntimeError unit) :=
  do! failed := call LoadFailed in
  if failed then Ret (Err AuditUnavailable)
  else
    do! waiting := call TryWaiter in
    if negb waiting then Ret (Err AuditUnavailable)
    else
      do! recorded := record_gated event in
      do! r := (match recorded with
                | Some (Ok _) => Ret (Ok tt)
                | _ => do! _ := call StoreFailed in Ret (Err AuditUnavailable)
                end) in
      do! _ := call ReleaseWaiter in
      Ret r.

Definition reject (sequence : Z) (operation : string) (outcome : AuditOutcome) (kind : AuditKind) :
    request (result RuntimeError unit) :=
  do! event := AuditEvent_new sequence PRejection operation outcome None kind in
  record_audit event.

(** [self.reject(..).await?; return Err(error)] *)
Definition reject_with {A} (sequence : Z) (operation : string) (outcome : AuditOutcome) (kind : AuditKind) (e : RuntimeError) :
    request (result RuntimeError A) :=
  do? _ := reject sequence operation outcome kind in Ret (Err e).

Definition authorize_request (d : Dispatcher) (name : string) (sequence : Z) (kind : AuditKind) :
    request (result RuntimeError Operation) :=
  match Catalog_get (d_catalog d) name with
  | None => reject_with sequence "unknown" OUnknownOperation kind UnknownOperation
  | Some operation =>
      match authorize (d_policy d) operation with
      | Err e => reject_with sequence (op_name operation) ODenied kind (CoreErr e)
      | Ok _ => Ret (Ok operation)
      end
  end.

(** The permit is held when this succeeds. *)
Definition admit_request (operation : Operation) (sequence : Z) (kind : AuditKind) : request (result RuntimeError unit) :=
  do! permit := call TryPermit in
  if negb permit then reject_with sequence (op_name operation) OBusy kind Busy
  else
    do! event := AuditEvent_new sequence PStart (op_name operation) OAttempt None kind in
    do! r := record_audit event in
    match r with
    | Ok _ => Ret (Ok tt)
    | Err e => do! _ := call ReleasePermit in Ret (Err e)
    end.

Definition finish {T} (sequence : Z) (operation : Operation) (kind : AuditKind) (started : Z) (r : result RuntimeError T) :
    request (result RuntimeError T) :=
  let outcome := if is_ok r then OSuccess else OFailed in
  do! now := call Now in
  do! event := AuditEvent_new sequence PFinish (op_name operation) outcome (Some (as_millis (elapsed started now))) kind in
  do! recorded := record_audit event in
  match recorded with
  | Err _ => Ret (Err CompletionAuditFailed)
  | Ok _ => Ret r
  end.

(** ** Deadlines *)
Definition enforce_deadline {T} (deadline : Z) (observation : option Observation) (r : result RuntimeError T) :
    request (result RuntimeError T) :=
  do! now := call Now in
  if deadline <=? now then
    do! _ := (match observation with Some o => revoke o | None => Ret tt end) in
    Ret (Err Timeout)
  else Ret r.

(** [.await.unwrap_or(Err(RuntimeError::Timeout))] *)
Definition unwrap_timeout {T} (r : option (result RuntimeError T)) : result RuntimeError T := default (Err Timeout) r.

(** A step of a timed block that no await interrupts. *)
Definition untimed {T} (p : request (result RuntimeError T)) : request (option (result RuntimeError T)) :=
  do! r := p in Ret (Some r).

(** A timed block that observes and then runs [body]; the observation it
    issued outlives the block. *)
Definition with_observation {T} (requirement : CapabilityRequirement) (refresh : bool)
    (body : Observation -> request (option (result RuntimeError T))) :
    request (option Observation * option (result RuntimeError T)) :=
  do! observed := observe requirement refresh in
  match observed with
  | None => Ret (None, None)
  | Some (Err e) => Ret (None, Some (Err e))
  | Some (Ok observation) => do! r := body observation in Ret (Some observation, r)
  end.

Section dispatcher.
Context (definition_size : Operation -> option Z) (json_pointer : value -> string -> option value).

(** ** [invoke] *)
Definition execute_observed (requirement : CapabilityRequirement) (invocation : PreparedInvocation) (deadline : Z)
    (observation : Observation) : request (option (result RuntimeError value)) :=
  do@ _ := untimed (enforce_deadline deadline (Some observation) (Ok tt)) in
  do! v := verdict observation requirement (Some (inv_action invocation)) in
  match v with
  | Unknown _ => Ret (Some (Err CapabilityUnknown))
  | Incompatible _ => Ret (Some (Err CapabilityUnsupported))
  | Compatible =>
      do@ _ := untimed (enforce_deadline deadline (Some observation) (Ok tt)) in
      do! executed := call (RunAction (inv_action invocation)) in
      match executed with
      | None => Ret None
      | Some r =>
          do@ output := untimed (enforce_deadline deadline (Some observation) r) in
          untimed (enforce_deadline deadline (Some observation) (core_err (invocation_project json_pointer invocation output)))
      end
  end.

Definition invoke_action (operation : Operation) (invocation : PreparedInvocation) (sequence started deadline : Z) :
    request (result RuntimeError value) :=
  do! timed := with_observation (capability operation) false (execute_observed (capability operation) invocation deadline) in
  do! r := enforce_deadline deadline (fst timed) (unwrap_timeout (snd timed)) in
  finish sequence operation KInvocation started r.

Definition invoke_page (d : Dispatcher) (operation : Operation) (req : PackageProfile * option string) (sequence started deadline : Z) :
    request (result RuntimeError value) :=
  do! leased := lease in
  match leased with
  | Err e => finish sequence operation KInvocation started (Err e)
  | Ok _ =>
      do! timed := snapshot_page (d_tokens d) (op_name operation) req deadline in
      do! r := enforce_deadline deadline None (unwrap_timeout timed) in
      do! r := finish sequence operation KInvocation started r in
      if is_ok r then
        do! kept := preserve in
        Ret (let? _ := kept in r)
      else do! _ := drop_lease false in Ret r
  end.

Definition deadline_of (d : Dispatcher) (now : Z) : Z := now + timeout_ms (d_limits d) * NANOS_PER_MS.

Definition invoke_admitted (d : Dispatcher) (operation : Operation) (invocation : PreparedInvocation) (sequence : Z) :
    request (result RuntimeError value) :=
  do! started := call Now in
  do! now := call Now in
  let deadline := deadline_of d now in
  match package_page (inv_action invocation) with
  | Some req => invoke_page d operation req sequence started deadline
  | None => invoke_action operation invocation sequence started deadline
  end.

Definition invoke (d : Dispatcher) (name : string) (arguments : value) : request (result RuntimeError value) :=
  do! sequence := call Sequence in
  do? operation := authorize_request d name sequence KInvocation in
  match prepare_invocation definition_size operation arguments with
  | Err e => reject_with sequence (op_name operation) OInvalidArguments KInvocation (CoreErr e)
  | Ok invocation =>
      do? _ := admit_request operation sequence KInvocation in
      do! r := invoke_admitted d operation invocation sequence in
      do! _ := call ReleasePermit in
      Ret r
  end.

(** ** [capability_status] *)
Definition is_capture (c : CapabilityRequirement) : bool :=
  match c with ApkInstalledQuery | OpkgRootStatusFile => true | _ => false end.

Definition capture_status (c : CapabilityRequirement) : CapabilityStatus :=
  {| compatibility := "unknown"; reason := "capture_required";
     scope := match c with OpkgRootStatusFile => "closed_file_response" | _ => "closed_query_response" end;
     cs_response_contract := response_contract c; remaining_ttl_ms := None |}.

Definition status_admitted (d : Dispatcher) (operation : Operation) (refresh : bool) (sequence : Z) :
    request (result RuntimeError CapabilityStatus) :=
  do! started := call Now in
  if is_capture (capability operation) then finish sequence operation KCapability started (Ok (capture_status (capability operation)))
  else
    do! now := call Now in
    let deadline := deadline_of d now in
    do! timed := with_observation (capability operation) refresh (fun observation =>
      do@ _ := untimed (enforce_deadline deadline (Some observation) (Ok tt)) in
      do! s := status observation (capability operation) in
      untimed (enforce_deadline deadline (Some observation) (Ok s))) in
    do! r := enforce_deadline deadline (fst timed) (unwrap_timeout (snd timed)) in
    finish sequence operation KCapability started r.

Definition status_fields_valid (fields : list (string * value)) : bool :=
  negb (existsb (fun p : string * value => negb (String.eqb (fst p) "operation") && negb (String.eqb (fst p) "refresh")) fields)
  && match bt_get "refresh" fields with Some v => is_some (as_bool v) | None => true end.

Definition capability_status (d : Dispatcher) (arguments : value) : request (result RuntimeError CapabilityStatus) :=
  do! sequence := call Sequence in
  match as_object arguments with
  | None => reject_with sequence "unknown" OInvalidArguments KCapability (CoreErr InvalidArguments)
  | Some fields =>
      match (v ← bt_get "operation" fields; as_str v) with
      | None => reject_with sequence "unknown" OInvalidArguments KCapability (CoreErr InvalidArguments)
      | Some name =>
          do? operation := authorize_request d name sequence KCapability in
          if negb (status_fields_valid fields) then
            reject_with sequence (op_name operation) OInvalidArguments KCapability (CoreErr InvalidArguments)
          else
            let refresh := default false (v ← bt_get "refresh" fields; as_bool v) in
            do? _ := admit_request operation sequence KCapability in
            do! r := status_admitted d operation refresh sequence in
            do! _ := call ReleasePermit in
            Ret r
      end
  end.
End dispatcher.
