(* ===== verification/Protocol.v ===== *)
(** * The protocol of a request

    A monitor follows the calls of one request: which guards it holds, what it
    recorded in the audit sink, and on what evidence it runs an action.  Every
    request obeys it under every behaviour of its environment. *)
From S2P Require Import Prelude Order Text Json Core Budget Packages Schema Evaluate Operation Invocation Catalog Program Ports Cache Dispatcher.
Open Scope Z_scope.

Notation trace := (list (event Answer)).

(** [m_log] lists the events handed to the sink, each with whether the sink's
    success was received. *)
Record Monitor : Type := Mon {
  m_trace : trace; m_permit : bool; m_waiter : bool; m_gate : bool; m_entries : bool; m_lease : bool;
  m_runs : list (PreparedAction * option (result RuntimeError value));
  m_log : list (AuditEvent * bool)
}.
Definition Mon_new : Monitor := Mon [] false false false false false [] [].

Definition set_last (log : list (AuditEvent * bool)) : list (AuditEvent * bool) :=
  match reverse log with
  | [] => []
  | (e, _) :: rest => reverse rest ++ [(e, true)]
  end.

Definition mstep (m : Monitor) (ev : event Answer) : Monitor :=
  let '(Mon tr p w g e l rs log) := m in
  let tr := tr ++ [ev] in
  match ev with
  | Event c x =>
      match c return Answer c -> Monitor with
      | TryPermit => fun b => Mon tr b w g e l rs log
      | ReleasePermit => fun _ => Mon tr false w g e l rs log
      | TryWaiter => fun b => Mon tr p b g e l rs log
      | ReleaseWaiter => fun _ => Mon tr p false g e l rs log
      | AcquireGate => fun o => Mon tr p w (is_some o) e l rs log
      | ReleaseGate => fun _ => Mon tr p w false e l rs log
      | SpawnRecord a => fun _ => Mon tr p w false e l rs (log ++ [(a, false)])
      | JoinRecord _ => fun r => Mon tr p w g e l rs (match r with Some (Some (Ok _)) => set_last log | _ => log end)
      | LockEntries => fun o => Mon tr p w g (is_some o) l rs log
      | RunAction a => fun r => Mon tr p w g e l (rs ++ [(a, r)]) log
      | UnlockEntries => fun _ => Mon tr p w g false l rs log
      | TryLease => fun b => Mon tr p w g e b rs log
      | ReleaseLease => fun _ => Mon tr p w g e false rs log
      | _ => fun _ => Mon tr p w g e l rs log
      end x
  end.

(** The answer of the first call. *)
Definition sequence_of (tr : trace) : option Z :=
  match tr with
  | Event c x :: _ => match c return Answer c -> option Z with Sequence => Some | _ => fun _ => None end x
  | [] => None
  end.

Section protocol.
Context (d : Dispatcher) (name : string) (prepared : Operation -> PreparedAction -> Prop).

(** The audit events a request may hand over: first its start, under its
    permit, or its rejection; then, after a recorded start, its finish. *)
Definition log_allows (m : Monitor) (a : AuditEvent) : Prop :=
  sequence_of (m_trace m) = Some (a_sequence a)
  /\ ((m_log m = [] /\ (a_phase a = PRejection \/ (a_phase a = PStart /\ m_permit m = true)))
      \/ (a_phase a = PFinish /\ m_permit m = true /\ exists s, m_log m = [(s, true)] /\ a_phase s = PStart)).

(** The operation is authorized and its start is recorded under this request's
    sequence number, while the request holds a permit. *)
Definition started (m : Monitor) (op : Operation) : Prop :=
  Catalog_get (d_catalog d) name = Some op /\ authorize (d_policy d) op = Ok tt /\ m_permit m = true
  /\ exists s, m_log m = [(s, true)] /\ a_phase s = PStart /\ a_operation s = safe_operation_name (op_name op)
               /\ sequence_of (m_trace m) = Some (a_sequence s).

(** Where an observation of [object] came from. *)
Definition observed_from (tr : trace) (object : ReviewedObject) (o : Observation) : Prop :=
  (exists entries, Event ReadEntries entries ∈ tr /\ (object, o) ∈ entries)
  \/ (exists v, Event (Probe object) (Some (Ok v)) ∈ tr /\ o_value o = admit_observation object v).

(** The last calls before an action runs: the lease is not revoked, the epoch
    is the observation's, the lease has not expired, nor has the deadline. *)
Definition evidence (op : Operation) (tr : trace) (a : PreparedAction) : Prop :=
  exists object o e pre now later t0,
    probe_object (capability op) = Some object /\ observed_from pre object o /\ o_epoch o = Some e
    /\ evaluate (capability op) (o_value o) (Some a) = Compatible
    /\ tr = pre ++ [Event (LoadCell (o_valid o)) true; Event Epoch (Some e); Event Now now; Event Now later]
    /\ elapsed (o_started o) now < TTL /\ Event Now t0 ∈ pre /\ later < deadline_of d t0.

Definition mok (m : Monitor) (c : Call) : Prop :=
  match c with
  | TryPermit => m_permit m = false
  | ReleasePermit => m_permit m = true
  | TryWaiter => m_waiter m = false
  | ReleaseWaiter => m_waiter m = true
  | AcquireGate => m_gate m = false /\ m_waiter m = true /\ m_entries m = false
  | ReleaseGate => m_gate m = true
  | SpawnRecord a => m_gate m = true /\ m_waiter m = true /\ log_allows m a
      /\ exists pre u, m_trace m = pre ++ [Event AcquireGate (Some u); Event LoadFailed false]
  | JoinRecord w => m_gate m = false /\ m_entries m = false /\ exists a, Event (SpawnRecord a) w ∈ m_trace m
  | LockEntries => m_entries m = false /\ m_gate m = false
  | UnlockEntries | ReadEntries | WriteEntries _ => m_entries m = true
  | TryLease => m_lease m = false
  | ReleaseLease | ReadSlot | WriteSlot _ => m_lease m = true
  | Probe _ => m_entries m = true /\ exists op, started m op
  | CaptureApk | CaptureOpkg | Nonce => m_lease m = true /\ exists op, started m op
  | RunAction a => exists op, started m op /\ prepared op a /\ evidence op (m_trace m) a /\ m_runs m = []
  | _ => True
  end.

Abbreviation Wp := (wp mstep mok).

(** ** Audit *)
Definition recorded (ev : AuditEvent) (log : list (AuditEvent * bool)) (r : result RuntimeError unit) (log' : list (AuditEvent * bool)) : Prop :=
  (r = Ok tt /\ log' = log ++ [(ev, true)]) \/ (r = Err AuditUnavailable /\ (log' = log \/ log' = log ++ [(ev, false)])).

Lemma set_last_snoc log a b : set_last (log ++ [(a, b)]) = log ++ [(a, true)].
Proof. unfold set_last. rewrite reverse_snoc. cbn. by rewrite reverse_involutive. Qed.

Lemma sequence_of_app tr t n : sequence_of tr = Some n -> sequence_of (tr ++ t) = Some n.
Proof. by destruct tr. Qed.

Lemma log_allows_app tr t p w w' g g' e e' l l' rs rs' log a :
  log_allows (Mon tr p w g e l rs log) a -> log_allows (Mon (tr ++ t) p w' g' e' l' rs' log) a.
Proof. unfold log_allows. cbn. intros [Hs Hl]. split; [by apply sequence_of_app | exact Hl]. Qed.

Lemma record_audit_wp ev tr p l rs log (Q : result RuntimeError unit -> Monitor -> Prop) :
  log_allows (Mon tr p false false false l rs log) ev ->
  (forall r t log', recorded ev log r log' -> Q r (Mon (tr ++ t) p false false false l rs log')) ->
  Wp (record_audit ev) (Mon tr p false false false l rs log) Q.
Proof.
  intros Ha HQ. unfold record_audit, record_gated. cbn. split; [done |]. intros [|]; cbn.
  { apply HQ. right. split; [done | by left]. }
  split; [done |]. intros [|]; cbn; [| rewrite <- app_assoc; apply HQ; right; split; [done | by left]].
  split; [done |]. intros [u |]; cbn.
  2:{ do 2 (split; [done |]; intros ?; cbn). rewrite <- !app_assoc. apply HQ. right. split; [done | by left]. }
  split; [done |]. intros [|]; cbn.
  { do 3 (split; [done |]; intros ?; cbn). rewrite <- !app_assoc. apply HQ. right. split; [done | by left]. }
  split.
  { split; [done | split; [done |]]. cbn [m_trace]. split; [rewrite <- !app_assoc; by eapply log_allows_app |].
    exists (tr ++ [Event LoadFailed false; Event TryWaiter true]), u. by rewrite <- !app_assoc. }
  intros worker. cbn. split.
  { split; [done | split; [done |]]. exists ev. apply elem_of_app. right. by left. }
  intros r. rewrite set_last_snoc.
  assert (forall x : unit, recorded ev log (Ok x) (log ++ [(ev, true)])) as Hok by (intros []; by left).
  assert (recorded ev log (Err AuditUnavailable) (log ++ [(ev, false)])) as Herr by (right; split; [done | by right]).
  destruct r as [[[u' |] |] |]; cbn; repeat (split; [done |]; intros ?; cbn); rewrite <- !app_assoc; apply HQ; eauto.
Qed.

(** ** Extending the trace *)
Definition ext (m : Monitor) (t : trace) : Monitor :=
  Mon (m_trace m ++ t) (m_permit m) (m_waiter m) (m_gate m) (m_entries m) (m_lease m) (m_runs m) (m_log m).

Lemma ext_nil m : ext m [] = m.
Proof. destruct m. unfold ext. cbn. by rewrite app_nil_r. Qed.
Lemma ext_ext m t t' : ext (ext m t) t' = ext m (t ++ t').
Proof. unfold ext. cbn. by rewrite app_assoc. Qed.

Lemma started_ext m t op : started m op -> started (ext m t) op.
Proof.
  intros (Hc & Ha & Hp & s & Hl & Hs & Ho & Hq). split; [done |]. split; [done |]. split; [done |].
  exists s. split; [done |]. split; [done |]. split; [done |]. by apply sequence_of_app.
Qed.

(** Calls that only the trace shows. *)
Definition quiet (c : Call) : Prop :=
  match c with Now | WallClock | Epoch | NewCell | LoadCell _ | Revoke _ => True | _ => False end.
Lemma quiet_step {A} c (k : Answer c -> request A) m Q :
  quiet c -> (forall x, Wp (k x) (ext m [Event c x]) Q) -> Wp (Vis c k) m Q.
Proof. destruct m. by destruct c. Qed.

Lemma call_step {A B} c (k : Answer c -> request A) (f : A -> request B) m Q : Wp (Vis c (fun x => pbind (k x) f)) m Q -> Wp (pbind (Vis c k) f) m Q.
Proof. done. Qed.

(** ** Observations *)
Lemma observation_unknown_wp r m (Q : Observation -> Monitor -> Prop) :
  (forall o t, o_epoch o = None -> o_value o = ObservedUnknown r -> Q o (ext m t)) -> Wp (Observation_unknown r) m Q.
Proof.
  intros HQ. apply quiet_step; [done |]. intros now. apply quiet_step; [done |]. intros cell. rewrite ext_ext. by apply HQ.
Qed.

Lemma fresh_wp o m (Q : bool -> Monitor -> Prop) :
  (forall t, Q false (ext m t)) ->
  (forall e now, o_epoch o = Some e -> elapsed (o_started o) now < TTL ->
    Q true (ext m [Event (LoadCell (o_valid o)) true; Event Epoch (Some e); Event Now now])) ->
  Wp (fresh o) m Q.
Proof.
  intros Hf Ht. unfold fresh. destruct (o_epoch o) as [e |] eqn:He; [| rewrite <- (ext_nil m); by apply Hf].
  apply quiet_step; [done |]. intros [|]; cbn [negb pbind]; [| by apply Hf].
  apply quiet_step; [done |]. intros ep. rewrite ext_ext. destruct (bool_decide_reflect (Some e = ep)) as [<- |]; cbn [negb]; [| by apply Hf].
  apply quiet_step; [done |]. intros now. rewrite ext_ext. destruct (Z.ltb_spec (elapsed (o_started o) now) TTL); [by apply Ht | by apply Hf].
Qed.

Lemma retain_fresh_wp entries m (Q : list (ReviewedObject * Observation) -> Monitor -> Prop) :
  (forall kept t, (forall x, x ∈ kept -> x ∈ entries /\ o_epoch (snd x) <> None) -> Q kept (ext m t)) ->
  Wp (retain_fresh entries) m Q.
Proof.
  revert m Q. induction entries as [| x entries IH]; intros m Q HQ; cbn [retain_fresh].
  { rewrite <- (ext_nil m). apply HQ. by intros x ?%elem_of_nil. }
  apply wp_seq, fresh_wp.
  - intros t. apply quiet_step; [done |]. intros u. apply IH. intros kept t' Hk. rewrite !ext_ext. apply HQ.
    intros y Hy. apply Hk in Hy as [? ?]. split; [by right | done].
  - intros e now He Hn. apply wp_seq, IH. intros kept t Hk. rewrite ext_ext. apply HQ.
    intros y [-> | Hy]%elem_of_cons; [split; [by left | by rewrite He] |]. apply Hk in Hy as [? ?]. split; [by right | done].
Qed.

(** What [observe] issues: nothing known, or an observation of the object with an epoch. *)
Definition issued_ok (requirement : CapabilityRequirement) (tr : trace) (o : Observation) : Prop :=
  (o_epoch o = None /\ exists r, o_value o = ObservedUnknown r)
  \/ exists object e, probe_object requirement = Some object /\ o_epoch o = Some e /\ observed_from tr object o.

Lemma issued_ok_app requirement tr t o : issued_ok requirement tr o -> issued_ok requirement (tr ++ t) o.
Proof.
  intros [? | (object & e & Hp & He & Ho)]; [by left | right]. exists object, e. split; [done |]. split; [done |].
  destruct Ho as [(entries & Hr & Hin) | (v & Hv & Ho)]; [left; exists entries | right; exists v]; (split; [apply elem_of_app; by left | done]).
Qed.

Definition observe_post (requirement : CapabilityRequirement) (m : Monitor)
    (Q : option (result RuntimeError Observation) -> Monitor -> Prop) : Prop :=
  forall r t, (forall o, r = Some (Ok o) -> issued_ok requirement (m_trace m ++ t) o) -> Q r (ext m t).

Lemma observe_post_ext requirement m t Q : observe_post requirement m Q -> observe_post requirement (ext m t) Q.
Proof. intros HQ r t' Hr. rewrite ext_ext. apply HQ. intros o Ho. rewrite app_assoc. by apply Hr. Qed.

Lemma unknown_post r requirement m (Q : option (result RuntimeError Observation) -> Monitor -> Prop) :
  observe_post requirement m Q -> Wp (do! o := Observation_unknown r in Ret (Some (Ok o))) m Q.
Proof.
  intros HQ. apply wp_seq, observation_unknown_wp. intros o t He Hv. apply HQ. intros o' [= <-]. left. split; [done | by exists r].
Qed.

(** Calls under a guard that only the trace shows. *)
Definition plain (c : Call) : Prop :=
  match c with
  | ReadEntries | WriteEntries _ | Probe _ | ReadSlot | WriteSlot _ | CaptureApk | CaptureOpkg | Nonce => True
  | _ => False
  end.
Lemma plain_step {A} c (k : Answer c -> request A) m Q :
  plain c -> mok m c -> (forall x, Wp (k x) (ext m [Event c x]) Q) -> Wp (Vis c k) m Q.
Proof. destruct m. by destruct c. Qed.

Lemma mok_ext m t c : plain c -> mok m c -> mok (ext m t) c.
Proof.
  destruct c; intros []; try done; cbn; intros [Hg [op Ho]]; (split; [done | exists op; by apply started_ext]).
Qed.

Section observe.
Context (requirement : CapabilityRequirement) (object : ReviewedObject) (Hobject : probe_object requirement = Some object).

Lemma probe_entry_wp entries m Q :
  mok m (Probe object) -> observe_post requirement m Q -> Wp (probe_entry object entries) m Q.
Proof.
  intros Hok HQ. unfold probe_entry. apply quiet_step; [done |]. intros st. apply quiet_step; [done |]. intros previous. rewrite ext_ext.
  apply plain_step; [done | by apply mok_ext |]. intros value. rewrite ext_ext.
  destruct value as [[v | err] |]; [| by apply HQ | by apply HQ].
  apply quiet_step; [done |]. intros [ep |]; rewrite ext_ext; [| by apply (unknown_post _ requirement), observe_post_ext].
  destruct (match previous with Some p => _ | None => _ end); [by apply (unknown_post _ requirement), observe_post_ext |].
  apply quiet_step; [done |]. intros now. rewrite ext_ext. destruct (_ <=? _); [by apply (unknown_post _ requirement), observe_post_ext |].
  apply quiet_step; [done |]. intros cell. rewrite ext_ext. apply plain_step; [done | |].
  { exact (proj1 Hok). }
  intros u. rewrite ext_ext. apply HQ. intros o [= <-]. right. exists object, ep. split; [done |]. split; [done |].
  right. exists v. split; [| done]. apply elem_of_app. right. apply elem_of_app. left. rewrite !elem_of_app. left. left. left. right. by left.
Qed.

Lemma observe_locked_wp refresh m Q :
  mok m (Probe object) -> observe_post requirement m Q -> Wp (observe_locked object refresh) m Q.
Proof.
  intros Hok HQ. unfold observe_locked. apply plain_step; [done | exact (proj1 Hok) |]. intros entries.
  apply wp_seq, retain_fresh_wp. intros kept t Hkept. rewrite ext_ext.
  apply plain_step; [done | exact (proj1 Hok) |]. intros u. rewrite ext_ext.
  destruct (if refresh then None else bt_get object kept) as [entry |] eqn:Hget.
  - apply HQ. intros o [= <-]. destruct refresh; [done |]. apply bt_get_elem in Hget.
    destruct (Hkept _ Hget) as [Hin He]. cbn in He. destruct (o_epoch entry) as [e |] eqn:Ee; [| done].
    right. exists object, e. split; [done |]. split; [done |]. left. exists entries. split; [| done].
    rewrite !elem_of_app. right. left. left. by left.
  - destruct (bt_get object kept) as [previous |]; [| apply probe_entry_wp; [by apply mok_ext | by apply observe_post_ext]].
    apply plain_step; [done | exact (proj1 Hok) |]. intros u'. apply quiet_step; [done |]. intros u''. rewrite !ext_ext.
    apply probe_entry_wp; [by apply mok_ext | by apply observe_post_ext].
Qed.
End observe.

(** Taking and dropping the lock of the cache. *)
Definition locked (m : Monitor) : Monitor :=
  Mon (m_trace m) (m_permit m) (m_waiter m) (m_gate m) true (m_lease m) (m_runs m) (m_log m).

Lemma observe_wp requirement refresh m op Q :
  m_entries m = false -> m_gate m = false -> started m op -> observe_post requirement m Q -> Wp (observe requirement refresh) m Q.
Proof.
  intros He Hg Hs HQ. unfold observe. destruct (probe_object requirement) as [object |] eqn:Hp; [| by apply (unknown_post _ requirement)].
  cbn [pbind call]. split; [by destruct m |]. intros [u |].
  2:{ cbn [wp]. assert (mstep m (Event LockEntries None) = ext m [Event LockEntries None]) as -> by (destruct m; cbn in *; by subst).
      by apply HQ. }
  assert (mstep m (Event LockEntries (Some u)) = locked (ext m [Event LockEntries (Some u)])) as -> by by destruct m.
  apply wp_seq, (observe_locked_wp requirement object Hp).
  - split; [done |]. exists op. apply (started_ext m [Event LockEntries (Some u)] op Hs).
  - intros r t Hr. cbn [pbind call]. split; [done |]. intros u'.
    assert (mstep (ext (locked (ext m [Event LockEntries (Some u)])) t) (Event UnlockEntries u')
      = ext m ([Event LockEntries (Some u)] ++ t ++ [Event UnlockEntries u'])) as ->.
    { destruct m. unfold ext, locked. cbn in *. subst. by rewrite <- !app_assoc. }
    apply HQ. intros o Ho. apply Hr in Ho. cbn in Ho. rewrite !app_assoc. apply issued_ok_app. by rewrite <- app_assoc in Ho |- *.
Qed.
End protocol.
