(* ===== verification/Requests.v ===== *)
(** * Every request obeys the protocol

    The monitor's obligations, discharged for [invoke] and
    [capability_status], and what their results mean. *)
From S2P Require Import Prelude Order Text Json Core Budget Packages Schema Evaluate Operation Invocation Catalog Program Ports Cache Dispatcher Protocol.
Open Scope Z_scope.

Section requests.
Context (d : Dispatcher) (name : string) (prepared : Operation -> PreparedAction -> Prop).
Abbreviation Wp := (wp mstep (mok d name prepared)).

(** ** The beginning of a request *)
Definition rejections (log : list (AuditEvent * bool)) : Prop :=
  log = [] \/ exists ev b, log = [(ev, b)] /\ a_phase ev = PRejection.

Lemma audit_event_wp sequence phase operation outcome duration kind m (Q : AuditEvent -> Monitor -> Prop) :
  (forall ev t, a_sequence ev = sequence -> a_phase ev = phase -> a_operation ev = safe_operation_name operation ->
    a_outcome ev = outcome -> Q ev (ext m t)) ->
  Wp (AuditEvent_new sequence phase operation outcome duration kind) m Q.
Proof. intros HQ. apply quiet_step; [done |]. intros now. by apply HQ. Qed.

Lemma reject_with_wp {A} sequence operation outcome kind x tr p l rs (Q : result RuntimeError A -> Monitor -> Prop) :
  sequence_of tr = Some sequence ->
  (forall err t log, rejections log -> Q (Err err) (Mon (tr ++ t) p false false false l rs log)) ->
  Wp (reject_with sequence operation outcome kind x) (Mon tr p false false false l rs []) Q.
Proof.
  intros Hs HQ. unfold reject_with, try_bind, reject. apply wp_seq, wp_seq, audit_event_wp. intros ev t Hq Hph _ _.
  apply record_audit_wp.
  - split; [cbn; rewrite Hq; by apply sequence_of_app |]. left. split; [done | by left].
  - intros r t' log Hr. rewrite <- app_assoc. destruct Hr as [[-> ->] | [-> [-> | ->]]]; apply HQ; unfold rejections; eauto.
Qed.

Lemma authorize_wp sequence kind tr l rs (Q : result RuntimeError Operation -> Monitor -> Prop) :
  sequence_of tr = Some sequence ->
  (forall err t log, rejections log -> Q (Err err) (Mon (tr ++ t) false false false false l rs log)) ->
  (forall op, Catalog_get (d_catalog d) name = Some op -> authorize (d_policy d) op = Ok tt -> Q (Ok op) (Mon tr false false false false l rs [])) ->
  Wp (authorize_request d name sequence kind) (Mon tr false false false false l rs []) Q.
Proof.
  intros Hs He HQ. unfold authorize_request. destruct (Catalog_get _ name) as [op |] eqn:Hop; [| by apply reject_with_wp].
  destruct (authorize _ op) as [[] |] eqn:Ha; [by apply HQ | by apply reject_with_wp].
Qed.

(** A request that ended early recorded at most its rejection or an attempted start. *)
Definition attempts (log : list (AuditEvent * bool)) : Prop :=
  rejections log \/ exists ev b, log = [(ev, b)] /\ a_phase ev = PStart.

Lemma admit_wp op sequence kind tr rs (Q : result RuntimeError unit -> Monitor -> Prop) :
  sequence_of tr = Some sequence -> Catalog_get (d_catalog d) name = Some op -> authorize (d_policy d) op = Ok tt ->
  (forall err t log, attempts log -> Q (Err err) (Mon (tr ++ t) false false false false false rs log)) ->
  (forall t s, started d name (Mon (tr ++ t) true false false false false rs [(s, true)]) op ->
    Q (Ok tt) (Mon (tr ++ t) true false false false false rs [(s, true)])) ->
  Wp (admit_request op sequence kind) (Mon tr false false false false false rs []) Q.
Proof.
  intros Hs Hop Ha He HQ. unfold admit_request. cbn [pbind call]. split; [done |]. intros [|]; cbn [mstep negb].
  2:{ apply reject_with_wp; [by apply sequence_of_app |]. intros err t log Hl. rewrite <- app_assoc. apply He. by left. }
  apply wp_seq, audit_event_wp. intros ev t Hq Hph Hn _. apply wp_seq, record_audit_wp.
  - split; [cbn; rewrite Hq, <- app_assoc; by apply sequence_of_app |]. left. split; [done | by right].
  - intros r t' log Hr. cbn [app] in Hr. destruct Hr as [[-> ->] | [-> Hl]].
    + cbn [m_trace]. rewrite <- !app_assoc. apply HQ. split; [done |]. split; [done |]. split; [done |]. exists ev.
      split; [done |]. split; [done |]. split; [done |]. rewrite Hq. by apply sequence_of_app.
    + cbn [pbind call]. split; [done |]. intros u. cbn. rewrite <- !app_assoc. apply He.
      destruct Hl as [-> | ->]; [left; by left | right; by exists ev, false].
Qed.

(** ** The end of a request *)
Definition succeeded (m : Monitor) : Prop :=
  exists s f, m_log m = [(s, true); (f, true)] /\ a_phase s = PStart /\ a_phase f = PFinish /\ a_outcome f = OSuccess
    /\ a_sequence f = a_sequence s /\ a_operation f = a_operation s.

Lemma finish_wp {T} op sequence kind st (r : result RuntimeError T) tr l rs s (Q : result RuntimeError T -> Monitor -> Prop) :
  started d name (Mon tr true false false false l rs [(s, true)]) op -> sequence_of tr = Some sequence ->
  (forall err t log, Q (Err err) (Mon (tr ++ t) true false false false l rs log)) ->
  (forall x t log, r = Ok x -> succeeded (Mon (tr ++ t) true false false false l rs log) -> Q (Ok x) (Mon (tr ++ t) true false false false l rs log)) ->
  Wp (finish sequence op kind st r) (Mon tr true false false false l rs [(s, true)]) Q.
Proof.
  intros (_ & _ & _ & s' & [= <-] & Hs & Hn & Hq) Hseq He HQ. cbn in Hq. unfold finish. apply quiet_step; [done |]. intros now. cbn [ext m_trace].
  apply wp_seq, audit_event_wp. intros ev t Hev Hph Hop Hout. apply wp_seq, record_audit_wp.
  - split; [cbn; rewrite Hev, <- app_assoc; by apply sequence_of_app |]. right. split; [done |]. split; [done |]. by exists s.
  - intros rr t' log Hr. cbn [ext m_trace m_log m_permit m_waiter m_gate m_entries m_lease] in *. rewrite <- !app_assoc. destruct Hr as [[-> ->] | [-> _]]; [| by apply He].
    destruct r as [x | err]; [| by apply He]. apply HQ; [done |]. exists s, ev. cbn in *. split; [done |]. split; [done |]. split; [done |].
    split; [congruence |]. split; congruence.
Qed.

Lemma enforce_deadline_wp {T} deadline o (r : result RuntimeError T) m (Q : result RuntimeError T -> Monitor -> Prop) :
  (forall t, Q (Err Timeout) (ext m t)) -> (forall now, now < deadline -> Q r (ext m [Event Now now])) ->
  Wp (enforce_deadline deadline o r) m Q.
Proof.
  intros He HQ. unfold enforce_deadline. apply quiet_step; [done |]. intros now. destruct (Z.leb_spec deadline now) as [Hd | Hd]; [| by apply HQ].
  destruct o as [o |]; [| by apply He]. apply quiet_step; [done |]. intros u. rewrite ext_ext. by apply He.
Qed.

(** ** Running an action *)
Definition ran (m : Monitor) (t : trace) (rs : list (PreparedAction * option (result RuntimeError value))) : Monitor :=
  Mon (m_trace m ++ t) (m_permit m) (m_waiter m) (m_gate m) (m_entries m) (m_lease m) rs (m_log m).
Lemma ext_ran m t : ext m t = ran m t (m_runs m).
Proof. done. Qed.
Lemma ran_ext m t rs t' : ext (ran m t rs) t' = ran m (t ++ t') rs.
Proof. unfold ext, ran. cbn. by rewrite app_assoc. Qed.

Lemma unknown_not_compatible c r a : evaluate c (ObservedUnknown r) a <> Compatible.
Proof.
  unfold evaluate. destruct c as [| | object method arguments contract |]; try done. destruct (negb _); [done |]. destruct (probe_object _); [| done].
  destruct (transmitted _ _ _ _) as [actual | v] eqn:Ht; [done |]. unfold transmitted in Ht. intros ->. by repeat case_match.
Qed.

Lemma untimed_wp {T} (p : request (result RuntimeError T)) m (Q : option (result RuntimeError T) -> Monitor -> Prop) :
  Wp p m (fun r => Q (Some r)) -> Wp (untimed p) m Q.
Proof. intros Hp. unfold untimed. apply wp_seq. exact Hp. Qed.

Section run.
Context (json_pointer : value -> string -> option value) (op : Operation) (invocation : PreparedInvocation).
Context (Hprepared : prepared op (inv_action invocation)).

(** A result of the timed block: a value is the projection of the output of
    the one action that ran. *)
Definition projected (rs : list (PreparedAction * option (result RuntimeError value))) (v : value) : Prop :=
  exists out, rs = [(inv_action invocation, Some (Ok out))] /\ invocation_project json_pointer invocation out = Ok v.

Lemma run_action_wp deadline o m (Q : option (result RuntimeError value) -> Monitor -> Prop) :
  started d name m op -> m_runs m = [] -> evidence d op (m_trace m) (inv_action invocation) ->
  (forall r t rs, (forall v, r = Some (Ok v) -> projected rs v) -> Q r (ran m t rs)) ->
  Wp (do! executed := call (RunAction (inv_action invocation)) in
      match executed with
      | None => Ret None
      | Some r =>
          do@ output := untimed (enforce_deadline deadline (Some o) r) in
          untimed (enforce_deadline deadline (Some o) (core_err (invocation_project json_pointer invocation output)))
      end) m Q.
Proof.
  intros Hs Hr He HQ. cbn [pbind call]. split; [by exists op |]. intros x.
  assert (mstep m (Event (RunAction (inv_action invocation)) x)
    = ran m [Event (RunAction (inv_action invocation)) x] [(inv_action invocation, x)]) as -> by (destruct m; cbn in *; by subst).
  destruct x as [r |]; [| by apply HQ]. apply wp_seq, untimed_wp, enforce_deadline_wp.
  { intros t. rewrite ran_ext. by apply HQ. }
  intros now _. rewrite ran_ext. destruct r as [out | err]; [| by apply HQ]. apply untimed_wp, enforce_deadline_wp.
  { intros t. rewrite ran_ext. by apply HQ. }
  intros now' _. rewrite ran_ext. apply HQ. intros v [= Hv]. apply map_err_ok in Hv. by exists out.
Qed.

Lemma execute_observed_wp t0 o m (Q : option (result RuntimeError value) -> Monitor -> Prop) :
  started d name m op -> m_runs m = [] -> issued_ok (capability op) (m_trace m) o -> Event Now t0 ∈ m_trace m ->
  (forall r t rs, (forall v, r = Some (Ok v) -> projected rs v) -> Q r (ran m t rs)) ->
  Wp (execute_observed json_pointer (capability op) invocation (deadline_of d t0) o) m Q.
Proof.
  intros Hs Hr Ho Ht0 HQ. unfold execute_observed. apply wp_seq, untimed_wp, enforce_deadline_wp.
  { intros t. rewrite ext_ran. by apply HQ. }
  intros n1 _. apply wp_seq. unfold verdict. destruct Ho as [[He [r Hv]] | (object & e & Hp & He & Hfrom)].
  - rewrite He, Hv. cbn [wp]. pose proof (unknown_not_compatible (capability op) r (Some (inv_action invocation))) as Hn.
    rewrite ext_ran. destruct (evaluate _ _ _); [done | by apply HQ | by apply HQ].
  - rewrite He. apply wp_seq, fresh_wp.
    { intros t. rewrite ext_ext, ext_ran. by apply HQ. }
    intros e' now [= <-]%(eq_trans (eq_sym He)) Hfresh. rewrite ext_ext. cbn [negb wp].
    destruct (evaluate _ _ _) eqn:Hev; [| rewrite ext_ran; by apply HQ | rewrite ext_ran; by apply HQ].
    apply wp_seq, untimed_wp, enforce_deadline_wp.
    { intros t. rewrite ext_ext, ext_ran. by apply HQ. }
    intros later Hl. rewrite ext_ext. apply run_action_wp; [by apply started_ext | done | |].
    + exists object, o, e, (m_trace m ++ [Event Now n1]), now, later, t0. split; [done |].
      split; [destruct Hfrom as [(en & H1 & H2) | (v & H1 & H2)]; [left; exists en | right; exists v]; (split; [apply elem_of_app; by left | done]) |].
      split; [done |]. split; [done |]. cbn. rewrite <- !app_assoc. split; [done |]. split; [done |]. split; [apply elem_of_app; by left | done].
    + intros r t rs Hrs. assert (forall t1, ran (ext m t1) t rs = ran m (t1 ++ t) rs) as -> by (intros t1; unfold ran, ext; cbn; by rewrite app_assoc).
      by apply HQ.
Qed.

Lemma invoke_action_wp sequence st t0 tr s (Q : result RuntimeError value -> Monitor -> Prop) :
  started d name (Mon tr true false false false false [] [(s, true)]) op -> sequence_of tr = Some sequence -> Event Now t0 ∈ tr ->
  (forall r t rs log, (forall v, r = Ok v -> projected rs v /\ succeeded (Mon (tr ++ t) true false false false false rs log)) ->
    Q r (Mon (tr ++ t) true false false false false rs log)) ->
  Wp (invoke_action json_pointer op invocation sequence st (deadline_of d t0)) (Mon tr true false false false false [] [(s, true)]) Q.
Proof.
  intros Hs Hseq Ht0 HQ. unfold invoke_action, with_observation. set (m := Mon tr _ _ _ _ _ _ _) in *.
  assert (forall (r : option (result RuntimeError value)) issued t rs, (forall v, r = Some (Ok v) -> projected rs v) ->
    Wp (do! r := enforce_deadline (deadline_of d t0) issued (unwrap_timeout r) in finish sequence op KInvocation st r) (ran m t rs) Q) as Hend.
  { intros r issued t rs Hr. apply wp_seq.
    assert (forall x t', (forall v, x = Ok v -> projected rs v) -> Wp (finish sequence op KInvocation st x) (ext (ran m t rs) t') Q) as Hfin.
    { intros x t' Hx. rewrite ran_ext. apply finish_wp; [by apply (started_ext d name (Mon tr true false false false false rs [(s, true)]) (t ++ t')) | by apply sequence_of_app | |].
      - intros err t1 log. rewrite <- app_assoc. by apply HQ.
      - intros v t1 log -> Hok. rewrite <- app_assoc in Hok |- *. apply HQ. intros v' [= <-]. split; [by apply Hx | exact Hok]. }
    apply enforce_deadline_wp; [intros t'; by apply Hfin | intros now _; apply Hfin].
    intros v. destruct r as [[v' |] |]; cbn; intros [= <-]. by apply Hr. }
  apply wp_seq, wp_seq, (observe_wp _ _ _ _ _ _ op); [done | done | done |]. intros r t Hr. destruct r as [[o | err] |].
  - apply wp_seq, (execute_observed_wp t0); [by apply started_ext | done | by apply Hr | apply elem_of_app; by left |].
    intros r t' rs Hrs. replace (ran (ext m t) t' rs) with (ran m (t ++ t') rs) by (unfold ran, ext; cbn; by rewrite app_assoc).
    by apply Hend.
  - rewrite ext_ran. by apply Hend.
  - rewrite ext_ran. by apply Hend.
Qed.
End run.

(** ** Pages *)

(** A continued page found its snapshot current. *)
Lemma stale_wp sn m (Q : bool -> Monitor -> Prop) : (forall b t, Q b (ext m t)) -> Wp (snapshot_stale sn) m Q.
Proof.
  intros HQ. apply quiet_step; [done |]. intros now. destruct (_ <=? _); [by apply HQ |].
  apply quiet_step; [done |]. intros e. rewrite ext_ext. by apply HQ.
Qed.

Lemma continue_wp operation profile cursor m (Q : result RuntimeError Z -> Monitor -> Prop) :
  m_lease m = true -> (forall r t, Q r (ext m t)) -> Wp (continue_snapshot operation profile cursor) m Q.
Proof.
  intros Hl HQ. unfold continue_snapshot, try_bind. cbn [pbind].
  destruct (core_err _) as [c | err]; [| rewrite <- (ext_nil m); apply HQ]. apply plain_step; [done | done |]. intros [sn |]; [| by apply HQ].
  cbn [ok_or pbind]. destruct (_ || _ || _); [by apply HQ |]. apply wp_seq, stale_wp. intros [|] t; rewrite ext_ext; by apply HQ.
Qed.

Lemma capture_wp operation profile deadline m (Q : option (result RuntimeError Z) -> Monitor -> Prop) op :
  m_lease m = true -> started d name m op -> (forall r t, Q r (ext m t)) ->
  Wp (capture_snapshot (d_tokens d) operation profile deadline) m Q.
Proof.
  intros Hl Hs HQ.
  assert (forall t c, match c with CaptureApk | CaptureOpkg | Nonce => True | _ => False end -> mok d name prepared (ext m t) c) as Hok.
  { intros t c Hc. destruct c; try done; (split; [done | exists op; by apply started_ext]). }
  unfold capture_snapshot, timed_bind. apply plain_step; [done | done |]. intros u. apply quiet_step; [done |]. intros st. rewrite ext_ext.
  cbn [pbind]. destruct (d_tokens d); [| by apply HQ]. apply plain_step; [done | by apply Hok |]. intros nonce. rewrite ext_ext.
  destruct nonce as [[nonce | err] |]; [| by apply HQ | by apply HQ]. apply quiet_step; [done |]. intros now. rewrite ext_ext.
  destruct (_ <=? _); [by apply HQ |]. destruct (bool_decide _); [by apply HQ |]. apply quiet_step; [done |]. intros previous. rewrite ext_ext.
  apply wp_seq. assert (forall t (K : option (result RuntimeError PackageObservation) -> Monitor -> Prop), (forall r t, K r (ext m t)) ->
    Wp (match profile with Apk3_0_5 => call CaptureApk | Opkg38eccbb1RootStatus => call CaptureOpkg end) (ext m t) K) as Hcap.
  { intros t K HK. destruct profile; (apply plain_step; [done | by apply Hok |]; intros r; rewrite ext_ext; apply HK). }
  apply Hcap. intros r t. destruct r as [[records | err] |]; [| by apply HQ | by apply HQ]. destruct (negb _); [by apply HQ |].
  apply quiet_step; [done |]. intros ep. rewrite ext_ext. cbn [pbind]. destruct ep as [ep |]; cbn [ok_or]; [| by apply HQ].
  apply quiet_step; [done |]. intros now'. rewrite ext_ext. destruct (_ <=? _); [by apply HQ |].
  destruct (match previous with Some old => _ | None => _ end); [by apply HQ |]. apply quiet_step; [done |]. intros now''. rewrite ext_ext.
  destruct (_ <=? _); [by apply HQ |]. apply plain_step; [done | done |]. intros u'. rewrite ext_ext. by apply HQ.
Qed.

(** A page is a page of the snapshot that the slot held when it was made. *)
Definition served (tr : trace) (v : value) : Prop :=
  exists sn offset, Event ReadSlot (Some sn) ∈ tr /\ Packages.page (s_records sn) (s_nonce sn) offset = Ok v.

Lemma served_app tr t v : served tr v -> served (tr ++ t) v.
Proof. intros (sn & offset & Hin & Hp). exists sn, offset. split; [apply elem_of_app; by left | done]. Qed.

Lemma page_wp operation req deadline m (Q : option (result RuntimeError value) -> Monitor -> Prop) op :
  m_lease m = true -> started d name m op ->
  (forall r t, (forall v, r = Some (Ok v) -> served (m_trace m ++ t) v) -> Q r (ext m t)) ->
  Wp (snapshot_page (d_tokens d) operation req deadline) m Q.
Proof.
  intros Hl Hs HQ. unfold snapshot_page. destruct req as [profile cursor].
  assert (forall (r : option (result RuntimeError Z)) t,
    Wp (match r with
        | Some (Ok offset) => do! slot := call ReadSlot in
            Ret (Some (let? snapshot := ok_or slot InvalidCursor in core_err (Packages.page (s_records snapshot) (s_nonce snapshot) offset)))
        | Some (Err e) => Ret (Some (Err e))
        | None => Ret None
        end) (ext m t) Q) as Hend.
  { intros r t. destruct r as [[offset | err] |]; [| by apply HQ | by apply HQ]. apply plain_step; [done | done |]. intros slot. rewrite ext_ext.
    apply HQ. intros v [= Hv]. apply rbind_ok in Hv as (sn & Hsn & Hv). apply ok_or_ok in Hsn as ->. apply map_err_ok in Hv.
    exists sn, offset. split; [| done]. rewrite !elem_of_app. right. right. by left. }
  apply wp_seq. destruct cursor as [cursor |].
  - apply wp_seq, continue_wp; [done |]. intros r t. apply Hend.
  - apply (capture_wp _ _ _ _ _ op); [done | done |]. intros r t. apply Hend.
Qed.

(** ** The lease of the slot *)
Lemma drop_lease_wp keep tr p w g e rs log (Q : unit -> Monitor -> Prop) :
  (forall u t, Q u (Mon (tr ++ t) p w g e false rs log)) -> Wp (drop_lease keep) (Mon tr p w g e true rs log) Q.
Proof.
  intros HQ. destruct keep; cbn [drop_lease pbind]; [split; [done |]; intros u; apply HQ |].
  apply plain_step; [done | done |]. intros u. split; [done |]. intros u'. cbn. rewrite <- app_assoc. apply HQ.
Qed.

Lemma preserve_wp tr p w g e rs log (Q : result RuntimeError unit -> Monitor -> Prop) :
  (forall r t, Q r (Mon (tr ++ t) p w g e false rs log)) -> Wp preserve (Mon tr p w g e true rs log) Q.
Proof.
  intros HQ. unfold preserve. apply plain_step; [done | done |]. intros [sn |]; cbn [ext m_trace].
  - apply wp_seq, stale_wp. intros [|] t; apply wp_seq, drop_lease_wp; intros u t'; cbn [ext m_trace wp]; rewrite <- !app_assoc; apply HQ.
  - apply wp_seq, drop_lease_wp. intros u t. rewrite <- app_assoc. apply HQ.
Qed.

Lemma invoke_page_wp op req sequence st deadline tr s (Q : result RuntimeError value -> Monitor -> Prop) :
  started d name (Mon tr true false false false false [] [(s, true)]) op -> sequence_of tr = Some sequence ->
  (forall r t log, (forall v, r = Ok v -> served (tr ++ t) v /\ succeeded (Mon (tr ++ t) true false false false false [] log)) ->
    Q r (Mon (tr ++ t) true false false false false [] log)) ->
  Wp (invoke_page d op req sequence st deadline) (Mon tr true false false false false [] [(s, true)]) Q.
Proof.
  intros Hs Hseq HQ. unfold invoke_page, lease. cbn [pbind call]. split; [done |]. intros [|]; cbn [mstep pbind].
  2:{ apply finish_wp; [by apply (started_ext d name _ [_] op Hs) | by apply sequence_of_app | |].
      - intros err t log. rewrite <- app_assoc. by apply HQ.
      - intros x t log [=]. }
  set (m := Mon _ true false false false true [] [(s, true)]).
  assert (started d name m op) as Hm by apply (started_ext d name _ [Event TryLease true] op Hs).
  apply wp_seq, (page_wp _ _ _ _ _ op); [done | done |]. intros r t Hr. apply wp_seq.
  assert (forall (x : result RuntimeError value) t', (forall v, x = Ok v -> served (m_trace m ++ t ++ t') v) ->
    Wp (do! r := finish sequence op KInvocation st x in
        if is_ok r then do! kept := preserve in Ret (let? _ := kept in r) else do! _ := drop_lease false in Ret r) (ext m (t ++ t')) Q) as Hend.
  { intros x t' Hx. apply wp_seq, finish_wp; [by apply (started_ext d name m (t ++ t') op) | by do 2 apply sequence_of_app | |].
    - intros err t1 log. apply wp_seq, drop_lease_wp. intros u t2. cbn [m_trace m]. rewrite <- !app_assoc. by apply HQ.
    - intros v t1 log -> Hok. apply wp_seq, preserve_wp. intros [u | err] t2; cbn [rbind]; cbn [m_trace m]; rewrite <- !app_assoc; [| by apply HQ].
      apply HQ. intros v' [= <-]. split; [| exact Hok].
      pose proof (served_app _ (t1 ++ t2) _ (Hx v eq_refl)) as Hsv. cbn [m_trace m] in Hsv. by rewrite <- !app_assoc in Hsv. }
  apply enforce_deadline_wp; [intros t'; rewrite ext_ext; by apply Hend | intros now _; rewrite ext_ext; apply Hend].
  intros v Hv. rewrite app_assoc. apply served_app, Hr. destruct r as [[v' |] |]; cbn in Hv; by simplify_eq.
Qed.
End requests.

(** ** [invoke] *)
Section invoke.
Context (definition_size : Operation -> option Z) (json_pointer : value -> string -> option value).
Context (d : Dispatcher) (name : string) (arguments : value).

(** The action that the arguments prepare. *)
Definition prepared_by (op : Operation) (a : PreparedAction) : Prop :=
  exists invocation, prepare_invocation definition_size op arguments = Ok invocation /\ a = inv_action invocation /\ package_page a = None.

Definition released (m : Monitor) : Prop :=
  m_permit m = false /\ m_waiter m = false /\ m_gate m = false /\ m_entries m = false /\ m_lease m = false.

(** What a returned result means. *)
Definition invoked (r : result RuntimeError value) (m : Monitor) : Prop :=
  released m
  /\ forall v, r = Ok v -> exists op invocation,
       Catalog_get (d_catalog d) name = Some op /\ authorize (d_policy d) op = Ok tt
       /\ prepare_invocation definition_size op arguments = Ok invocation /\ succeeded m
       /\ match package_page (inv_action invocation) with
          | None => projected json_pointer invocation (m_runs m) v
          | Some _ => m_runs m = [] /\ served (m_trace m) v
          end.

Lemma failed_invoked err tr rs log : invoked (Err err) (Mon tr false false false false false rs log).
Proof. split; [done | intros v [=]]. Qed.

Lemma invoke_wp : wp mstep (mok d name prepared_by) (invoke definition_size json_pointer d name arguments) Mon_new invoked.
Proof.
  unfold invoke, try_bind. cbn [pbind call]. split; [done |]. intros sequence. cbn [mstep Mon_new app].
  apply wp_seq, authorize_wp; [done | intros err t log _; apply failed_invoked |]. intros op Hop Ha.
  destruct (prepare_invocation _ op arguments) as [invocation | err] eqn:Hprep; [| apply reject_with_wp; [done | intros err' t log _; apply failed_invoked]].
  apply wp_seq, admit_wp; [done | done | done | intros err t log _; apply failed_invoked |]. intros t s Hs.
  apply wp_seq. unfold invoke_admitted. apply quiet_step; [done |]. intros st. apply quiet_step; [done |]. intros now. rewrite ext_ext.
  cbn [ext m_trace]. set (tr := ([Event Sequence sequence] ++ t) ++ ([Event Now st] ++ [Event Now now])).
  assert (started d name (Mon tr true false false false false [] [(s, true)]) op) as Hs' by exact (started_ext d name _ _ op Hs).
  assert (sequence_of tr = Some sequence) as Hq by done.
  destruct (package_page (inv_action invocation)) as [req |] eqn:Hpage.
  - apply invoke_page_wp; [done | done |]. intros r t' log Hr. split; [done |]. intros u. split; [done |]. intros v ->.
    destruct (Hr v eq_refl) as [Hsv Hok]. exists op, invocation. rewrite Hpage. do 3 (split; [done |]). split; [exact Hok |].
    split; [done |]. by apply served_app.
  - apply invoke_action_wp; [by exists invocation | done | done | rewrite !elem_of_app; right; right; by left |].
    intros r t' rs log Hr. split; [done |]. intros u. split; [done |]. intros v ->.
    destruct (Hr v eq_refl) as [Hv Hok]. exists op, invocation. by rewrite Hpage.
Qed.
End invoke.

(** ** [capability_status] *)
Section status.
Context (d : Dispatcher) (name : string).
Abbreviation Wp := (wp mstep (mok d name (fun _ _ => False))).

Lemma verdict_wp o c a m (Q : Verdict -> Monitor -> Prop) : (forall v t, Q v (ext m t)) -> Wp (verdict o c a) m Q.
Proof.
  intros HQ. unfold verdict. destruct (o_epoch o) eqn:He; [| rewrite <- (ext_nil m); apply HQ].
  apply wp_seq, fresh_wp; [intros t; apply HQ | intros e now _ _; apply HQ].
Qed.

Lemma status_wp o c m (Q : CapabilityStatus -> Monitor -> Prop) : (forall s t, Q s (ext m t)) -> Wp (status o c) m Q.
Proof.
  intros HQ. unfold status. apply wp_seq, verdict_wp. intros v t.
  destruct (match v with Compatible => _ | Incompatible r => _ | Unknown r => _ end) as [c' r'].
  assert (forall b t', Wp (do! remaining := (if b : bool then do! now := call Now in Ret (Some (as_millis (Z.max 0 (TTL - elapsed (o_started o) now)))) else Ret None) in
    Ret {| compatibility := c'; reason := r'; scope := "input_signature_only"; cs_response_contract := response_contract c; remaining_ttl_ms := remaining |})
    (ext m t') Q) as Hend.
  { intros [|] t'; [apply quiet_step; [done |]; intros now; rewrite ext_ext |]; apply HQ. }
  apply wp_seq, fresh_wp; [intros t' | intros e now _ _]; rewrite ext_ext; [apply (Hend false) | apply (Hend true)].
Qed.

Lemma status_admitted_wp op refresh sequence tr s (Q : result RuntimeError CapabilityStatus -> Monitor -> Prop) :
  started d name (Mon tr true false false false false [] [(s, true)]) op -> sequence_of tr = Some sequence ->
  (forall r t log, (forall v, r = Ok v -> succeeded (Mon (tr ++ t) true false false false false [] log)) ->
    Q r (Mon (tr ++ t) true false false false false [] log)) ->
  Wp (status_admitted d op refresh sequence) (Mon tr true false false false false [] [(s, true)]) Q.
Proof.
  intros Hs Hseq HQ. unfold status_admitted. set (m := Mon tr _ _ _ _ _ _ _) in *.
  assert (forall (x : result RuntimeError CapabilityStatus) st t, Wp (finish sequence op KCapability st x) (ext m t) Q) as Hfin.
  { intros x st t. apply finish_wp; [by apply (started_ext d name m t) | by apply sequence_of_app | |].
    - intros err t1 log. rewrite <- app_assoc. by apply HQ.
    - intros v t1 log _ Hok. rewrite <- app_assoc in Hok |- *. apply HQ. intros v' _. exact Hok. }
  apply quiet_step; [done |]. intros st. destruct (is_capture _); [apply Hfin |].
  apply quiet_step; [done |]. intros now. rewrite ext_ext. unfold with_observation.
  assert (forall (r : option (result RuntimeError CapabilityStatus)) issued t,
    Wp (do! r := enforce_deadline (deadline_of d now) issued (unwrap_timeout r) in finish sequence op KCapability st r) (ext m t) Q) as Hend.
  { intros r issued t. apply wp_seq, enforce_deadline_wp; intros; rewrite ext_ext; apply Hfin. }
  apply wp_seq, wp_seq, (observe_wp _ _ _ _ _ _ op); [done | done | by apply started_ext |]. intros r t _. rewrite ext_ext.
  destruct r as [[o | err] |]; [| apply Hend | apply Hend].
  apply wp_seq, wp_seq, untimed_wp, enforce_deadline_wp; [intros t1; rewrite ext_ext; apply Hend |]. intros n1 _. rewrite ext_ext.
  apply wp_seq, status_wp. intros cs t1. rewrite ext_ext. apply untimed_wp, enforce_deadline_wp; intros; rewrite ext_ext; apply Hend.
Qed.
End status.

(** The operation a status request names. *)
Definition status_name (arguments : value) : string :=
  default "" (fields ← as_object arguments; v ← bt_get "operation" fields; as_str v).

Lemma capability_status_wp d arguments :
  wp mstep (mok d (status_name arguments) (fun _ _ => False)) (capability_status d arguments) Mon_new
    (fun r m => released m /\ m_runs m = [] /\ forall v, r = Ok v -> succeeded m).
Proof.
  unfold capability_status, status_name, try_bind. cbn [pbind call]. split; [done |]. intros sequence. cbn [mstep Mon_new app].
  assert (forall err tr log,
    (fun (r : result RuntimeError CapabilityStatus) m => released m /\ m_runs m = [] /\ forall v, r = Ok v -> succeeded m)
      (Err err) (Mon tr false false false false false [] log)) as Herr by (intros err tr log; split; [done | split; [done | intros v [=]]]).
  destruct (as_object arguments) as [fields |]; cbn [mbind option_bind];
    [| apply reject_with_wp; [done | intros err t log _; by apply Herr]].
  destruct (bt_get "operation" fields) as [v |]; [destruct (as_str v) as [name |] eqn:Hname |];
    cbn [mbind option_bind]; rewrite ?Hname; [| apply reject_with_wp; [done | intros err t log _; by apply Herr] ..].
  cbn [default from_option]. apply wp_seq, authorize_wp; [done | intros err t log _; by apply Herr |]. intros op Hop Ha.
  destruct (negb _); [apply reject_with_wp; [done | intros err t log _; by apply Herr] |].
  apply wp_seq, admit_wp; [done | done | done | intros err t log _; by apply Herr |]. intros t s Hs.
  apply wp_seq, status_admitted_wp; [done | done |]. intros r t' log Hr. split; [done |]. intros u. split; [done |]. split; [done | exact Hr].
Qed.
