(* ===== verification/Audited.v ===== *)
(** * Guarantees of the dispatcher

    What every run of [invoke] and [capability_status] satisfies, whatever the
    device, the clock, the sink and the other requests do, and wherever the
    run is dropped. *)
From stdpp Require Import gmap.
From S2P Require Import Prelude Order Text Json Core Budget Packages Schema Evaluate Operation Invocation Catalog Preparation Legacy Program Ports Cache Dispatcher Protocol Requests.
Open Scope Z_scope.

(** The calls that reach the device or the entropy source. *)
Definition device_call (c : Call) : bool :=
  match c with Probe _ | RunAction _ | CaptureApk | CaptureOpkg | Nonce => true | _ => false end.

(** The monitor after the calls of [t]. *)
Definition after (t : trace) : Monitor := foldl mstep Mon_new t.

Lemma after_trace t : m_trace (after t) = t.
Proof.
  unfold after. assert (forall m, m_trace (foldl mstep m t) = m_trace m ++ t) as H; [| apply H].
  induction t as [| [c x] t IH]; intros m; [by rewrite app_nil_r |]. cbn [foldl]. rewrite IH.
  destruct m as [tr p w g e l rs log]. by destruct c; cbn; rewrite <- app_assoc.
Qed.
Lemma after_snoc t e : after (t ++ [e]) = mstep (after t) e.
Proof. unfold after. by rewrite foldl_app. Qed.

Section guarantees.
Context (definition_size : Operation -> option Z) (json_pointer : value -> string -> option value).

Lemma invoke_sound d name arguments t r :
  runs (invoke definition_size json_pointer d name arguments) t r ->
  (forall t1 e t2, t = t1 ++ e :: t2 -> mok d name (prepared_by definition_size arguments) (after t1) (ev_call e))
  /\ (forall a, r = Some a -> invoked definition_size json_pointer d name arguments a (after t)).
Proof. exact (wp_sound _ _ _ _ _ _ _ (invoke_wp definition_size json_pointer d name arguments)). Qed.

Lemma status_sound d arguments t r :
  runs (capability_status d arguments) t r ->
  (forall t1 e t2, t = t1 ++ e :: t2 -> mok d (status_name arguments) (fun _ _ => False) (after t1) (ev_call e))
  /\ (forall a, r = Some a -> released (after t) /\ m_runs (after t) = [] /\ forall v, a = Ok v -> succeeded (after t)).
Proof. exact (wp_sound _ _ _ _ _ _ _ (capability_status_wp d arguments)). Qed.

Lemma device_call_started d name prepared m c :
  device_call c = true -> mok d name prepared m c -> exists op, started d name m op.
Proof. destruct c; intros Hd; try done; cbn; [intros [_ H] | intros (op & Hs & _) | intros [_ H] ..]; by eauto. Qed.

(** C2: No request reaches the device or the entropy source before its start is on record. At every such
    call of an invocation or a capability query, whatever the environment answered before, the named operation
    is in the catalog and authorized by the policy, the request holds a permit, and the sink has confirmed the
    start event with the operation's name and the request's own sequence number. *)
Theorem device_calls_audited d name arguments t r t1 e t2 :
  runs (invoke definition_size json_pointer d name arguments) t r
    \/ (exists s, runs (capability_status d arguments) t s) /\ name = status_name arguments ->
  t = t1 ++ e :: t2 -> device_call (ev_call e) = true -> exists op, started d name (after t1) op.
Proof.
  intros Hr Ht He. destruct Hr as [Hr | [[s Hr] ->]].
  - apply invoke_sound in Hr as [Hok _]. eapply device_call_started; [done | by eapply Hok].
  - apply status_sound in Hr as [Hok _]. eapply device_call_started; [done | by eapply Hok].
Qed.

(** C5: An action runs at most once per request, and only on current evidence. When [invoke] calls the backend,
    the action is the one its validated arguments prepare, no action of the request ran before, and the calls
    just before show that the observation it relies on came from the cache or from this request's probe of the
    operation's object, was not revoked, belongs to the current epoch, was younger than its lease, makes the
    action compatible, and that the deadline had not passed. *)
Theorem action_needs_evidence d name arguments t r t1 a x t2 :
  runs (invoke definition_size json_pointer d name arguments) t r -> t = t1 ++ Event (RunAction a) x :: t2 ->
  exists op invocation,
    Catalog_get (d_catalog d) name = Some op /\ authorize (d_policy d) op = Ok tt
    /\ prepare_invocation definition_size op arguments = Ok invocation /\ a = inv_action invocation /\ package_page a = None
    /\ evidence d op t1 a /\ m_runs (after t1) = [].
Proof.
  intros Hr Ht. apply invoke_sound in Hr as [Hok _]. apply Hok in Ht as (op & Hs & (invocation & Hp & Ha & Hpage) & He & Hruns).
  destruct Hs as (Hop & Hauth & _). exists op, invocation. do 5 (split; [done |]). split; [| done].
  by rewrite after_trace in He.
Qed.

(** C12: A completed invocation has dropped every guard it took: the permit, the audit slot and gate, the cache
    lock and the snapshot lease. When it returns a value, the sink confirmed its start and then its successful
    finish, and the value is the projection of the output of the one action that ran, or a page of the snapshot
    in the slot. *)
Theorem invoke_returns d name arguments t r :
  runs (invoke definition_size json_pointer d name arguments) t (Some r) ->
  invoked definition_size json_pointer d name arguments r (after t).
Proof. intros Hr. by apply invoke_sound in Hr as [_ Hq]; apply Hq. Qed.

(** A completed capability query has dropped every guard, has run no action, and reports a status only when
    the sink confirmed its start and its successful finish. *)
Theorem capability_status_returns d arguments t r :
  runs (capability_status d arguments) t (Some r) ->
  released (after t) /\ m_runs (after t) = [] /\ forall s, r = Ok s -> succeeded (after t).
Proof. intros Hr. by apply status_sound in Hr as [_ Hq]; apply Hq. Qed.

(** The sink sees at most one event before, and one after, the work of a request: an event is handed over
    only under the audit gate and slot, carries the request's sequence number, and is either the first event, a
    rejection or a start under a permit, or the finish that follows a confirmed start. *)
Theorem audit_events_ordered d name arguments t r t1 ev x t2 :
  runs (invoke definition_size json_pointer d name arguments) t r -> t = t1 ++ Event (SpawnRecord ev) x :: t2 ->
  m_gate (after t1) = true /\ m_waiter (after t1) = true /\ log_allows (after t1) ev.
Proof. intros Hr Ht. apply invoke_sound in Hr as [Hok _]. by apply Hok in Ht as (Hg & Hw & Hl & _). Qed.
End guarantees.

(** ** A concrete request *)
Definition demo_dispatcher : Dispatcher :=
  {| d_catalog := {| operations := [demo_call]; index := <["device_status" := 0%nat]> ∅ |};
     d_policy := {| categories := <[Network := {| access := ReadOnly; execute := false |}]> ∅;
                    allow_operations := None; deny_operations := ∅ |};
     d_limits := Limits_default; d_tokens := false |}.

(** A device that describes the object and answers the call, and an idle server. *)
Definition demo_oracle (c : Call) : Answer c :=
  match c return Answer c with
  | Sequence => 1 | Now => 5 | WallClock => 1000
  | TryPermit => true | LoadFailed => false | TryWaiter => true | TryLease => true | LoadCell _ => true
  | AcquireGate => Some tt | LockEntries => Some tt
  | SpawnRecord _ => 0%nat | NewCell => 0%nat
  | JoinRecord _ => Some (Some (Ok tt))
  | ReadEntries => []
  | ReadSlot => None
  | Epoch => Some 7
  | Probe _ => Some (Ok (demo_observed UString))
  | RunAction _ => Some (Ok (VObj [("up", VBool true)]))
  | CaptureApk | CaptureOpkg => Some (Err BackendFailed)
  | Nonce => Some (Err EntropyUnavailable)
  | _ => tt
  end.
Definition demo_request : request (result RuntimeError value) :=
  invoke demo_size pointer_of demo_dispatcher "device_status" demo_input.
Definition demo_trace : trace := fst (drive demo_oracle demo_request).
Definition demo_value : value := VObj [("/up", VBool true)].

Lemma demo_runs : runs demo_request demo_trace (Some (Ok demo_value)).
Proof.
  assert (snd (drive demo_oracle demo_request) = Ok demo_value) as Hv by (vm_compute; reflexivity).
  pose proof (drive_runs demo_oracle demo_request) as Hr. rewrite Hv in Hr. exact Hr.
Qed.

Definition is_device_call (e : event Answer) : bool := device_call (ev_call e).
Definition is_spawn (e : event Answer) : bool := match ev_call e with SpawnRecord _ => true | _ => false end.
Definition is_run (e : event Answer) : bool := match ev_call e with RunAction _ => true | _ => false end.
(** The calls before and after the first one that [p] selects. *)
Fixpoint before_first (p : event Answer -> bool) (t : trace) : trace :=
  match t with [] => [] | e :: t => if p e then [] else e :: before_first p t end.
Definition from_first (p : event Answer -> bool) (t : trace) : trace := drop (length (before_first p t)) t.

Lemma split_first p t e rest : from_first p t = e :: rest -> t = before_first p t ++ e :: rest.
Proof.
  intros Hf. rewrite <- Hf. unfold from_first. clear Hf. induction t as [| x t IH]; [done |]. cbn [before_first].
  destruct (p x); [done |]. cbn [length drop app]. by f_equal.
Qed.


Lemma device_calls_audited_witness :
  exists op, started demo_dispatcher "device_status" (after (before_first is_device_call demo_trace)) op.
Proof.
  assert (from_first is_device_call demo_trace
    = Event (Probe RONetworkDevice) (Some (Ok (demo_observed UString))) :: tail (from_first is_device_call demo_trace)) as Hf
    by (vm_compute; reflexivity).
  exact (device_calls_audited demo_size pointer_of demo_dispatcher "device_status" demo_input demo_trace _ _ _ _
    (or_introl demo_runs) (split_first _ _ _ _ Hf) eq_refl).
Defined.

Lemma action_needs_evidence_witness :
  evidence demo_dispatcher demo_call (before_first is_run demo_trace) demo_prepared
  /\ m_runs (after (before_first is_run demo_trace)) = [].
Proof.
  assert (from_first is_run demo_trace
    = Event (RunAction demo_prepared) (Some (Ok (VObj [("up", VBool true)]))) :: tail (from_first is_run demo_trace)) as Hf
    by (vm_compute; reflexivity).
  destruct (action_needs_evidence demo_size pointer_of demo_dispatcher "device_status" demo_input demo_trace _ _ _ _ _
    demo_runs (split_first _ _ _ _ Hf)) as (op & _ & Hop & _ & _ & _ & _ & He & Hr).
  assert (Catalog_get (d_catalog demo_dispatcher) "device_status" = Some demo_call) as Hget by (vm_compute; reflexivity).
  assert (op = demo_call) as Heq by (rewrite Hop in Hget; by apply (inj Some) in Hget). rewrite Heq in He. split; [exact He | exact Hr].
Defined.

Lemma invoke_returns_witness :
  runs demo_request demo_trace (Some (Ok demo_value)) /\ succeeded (after demo_trace).
Proof.
  split; [exact demo_runs |].
  destruct (invoke_returns demo_size pointer_of demo_dispatcher "device_status" demo_input demo_trace _ demo_runs) as [_ Hv].
  destruct (Hv demo_value eq_refl) as (op & invocation & _ & _ & _ & Hs & _). exact Hs.
Defined.

Definition demo_query : value := VObj [("operation", VStr "device_status")].
Lemma demo_query_runs :
  exists s, runs (capability_status demo_dispatcher demo_query) (fst (drive demo_oracle (capability_status demo_dispatcher demo_query))) (Some (Ok s))
    /\ compatibility s = "compatible" /\ remaining_ttl_ms s = Some 30000.
Proof.
  pose proof (drive_runs demo_oracle (capability_status demo_dispatcher demo_query)) as Hr.
  destruct (snd (drive demo_oracle (capability_status demo_dispatcher demo_query))) as [s |] eqn:Es; [| by vm_compute in Es].
  exists s. split; [exact Hr |]. vm_compute in Es. by injection Es as <-.
Qed.

Lemma capability_status_returns_witness :
  succeeded (after (fst (drive demo_oracle (capability_status demo_dispatcher demo_query)))).
Proof.
  destruct demo_query_runs as (s & Hr & _).
  exact (proj2 (proj2 (capability_status_returns demo_dispatcher demo_query _ _ Hr)) s eq_refl).
Defined.

Lemma audit_events_ordered_witness :
  exists ev, log_allows (after (before_first is_spawn demo_trace)) ev /\ a_operation ev = "device_status"%string.
Proof.
  set (ev := {| a_kind := KInvocation; a_timestamp_ms := 1000; a_sequence := 1; a_phase := PStart; a_operation := "device_status";
                a_outcome := OAttempt; a_duration_ms := None |}).
  assert (from_first is_spawn demo_trace = Event (SpawnRecord ev) 0%nat :: tail (from_first is_spawn demo_trace)) as Hf
    by (vm_compute; reflexivity).
  destruct (audit_events_ordered demo_size pointer_of demo_dispatcher "device_status" demo_input demo_trace _ _ _ _ _
    demo_runs (split_first _ _ _ _ Hf)) as (_ & _ & Hl).
  exists ev. split; [exact Hl | reflexivity].
Defined.

(** ** Continuing a snapshot *)

(** A cursor is honoured only for the snapshot it was made for. When a continuation yields an offset, the cursor
    parsed, the slot held a snapshot with the cursor's nonce, of the requested profile and captured for the same
    operation, which was younger than its lifetime, and the device's epoch was still the snapshot's. *)
Theorem continuation_current operation profile cursor t offset :
  runs (continue_snapshot operation profile cursor) t (Some (Ok offset)) ->
  exists c sn now,
    cursor_parse cursor = Ok c /\ offset = offset_of c
    /\ t = [Event ReadSlot (Some sn); Event Now now; Event Epoch (Some (s_epoch sn))]
    /\ nonce_of c = s_nonce sn /\ Packages.profile (s_records sn) = profile /\ s_operation sn = operation
    /\ elapsed (s_started sn) now < SNAPSHOT_TTL.
Proof.
  unfold continue_snapshot, try_bind, snapshot_stale. cbn [pbind]. destruct (cursor_parse cursor) as [c |]; cbn [core_err map_err]; [| by intros [_ [=]]].
  intros [[_ [=]] | (slot & t1 & -> & Hr)]. cbn [pbind] in Hr. destruct slot as [sn |]; cbn [ok_or] in Hr; [| by destruct Hr as [_ [=]]].
  destruct (negb _ || negb _ || negb _) eqn:Hg; [by destruct Hr as [_ [=]] |].
  apply orb_false_iff in Hg as [Hg H3%negb_false_iff%String.eqb_eq]. apply orb_false_iff in Hg as [H1%negb_false_iff%bool_decide_eq_true H2%negb_false_iff%bool_decide_eq_true].
  destruct Hr as [[_ [=]] | (now & t2 & -> & Hr)]. cbn [pbind] in Hr. destruct (Z.leb_spec SNAPSHOT_TTL (elapsed (s_started sn) now)); [by destruct Hr as [_ [=]] |].
  destruct Hr as [[_ [=]] | (ep & t3 & -> & Hr)]. cbn [pbind] in Hr.
  destruct (bool_decide_reflect (ep = Some (s_epoch sn))) as [-> |]; cbn [negb] in Hr; destruct Hr as [-> [=]]. by exists c, sn, now.
Qed.

Definition demo_snapshot : Snapshot :=
  {| s_records := demo_observation; s_nonce := demo_nonce; s_operation := "packages"; s_epoch := 7; s_started := 0 |}.
Lemma continuation_current_witness :
  exists c sn, cursor_parse (cursor_encode demo_nonce 16) = Ok c /\ 16 = offset_of c /\ nonce_of c = s_nonce sn.
Proof.
  assert (runs (continue_snapshot "packages" Apk3_0_5 (cursor_encode demo_nonce 16))
    [Event ReadSlot (Some demo_snapshot); Event Now 5; Event Epoch (Some 7)] (Some (Ok 16))) as Hr.
  { right. eexists _, _. split; [reflexivity |]. right. eexists _, _. split; [reflexivity |]. right. eexists _, _. split; [reflexivity |].
    vm_compute. split; reflexivity. }
  destruct (continuation_current "packages" Apk3_0_5 (cursor_encode demo_nonce 16) _ 16 Hr) as (c & sn & now & Hc & Ho & Ht & Hn & _).
  exists c, sn. split; [exact Hc | split; [exact Ho | exact Hn]].
Defined.
