(* ===== verification/Serving.v ===== *)
(** * Requests in parallel

    The state that the requests of one dispatcher share, what each call does
    to it, and the interleaving of any number of requests with the blocking
    audit workers.  Calls on the device, the clocks and the entropy source are
    answered by the environment.  A request that is dropped releases what it
    holds; an audit worker is never dropped. *)
From stdpp Require Import gmap.
From S2P Require Import Prelude Order Text Json Core Budget Packages Schema Evaluate Operation Invocation Catalog Preparation Legacy Program Ports Cache Dispatcher Protocol Requests Audited.
Open Scope Z_scope.

(** ** Shared state *)

(** The semaphores and locks, each with its free places. *)
Inductive Resource : Type := Permits | Waiters | Gate | EntriesLock | SlotLock.
#[export] Instance Resource_eq_dec : EqDecision Resource.
Proof. solve_decision. Defined.

(** A worker of [record_audit]: about to write, written, error latched, ended. *)
Inductive Worker : Type :=
| Pending (event : AuditEvent)
| Wrote (r : result RuntimeError unit)
| Latched (r : result RuntimeError unit)
| Ended (r : option (result RuntimeError unit)).

Record Shared : Type := {
  sh_sequence : Z; sh_free : Resource -> nat; sh_failed : bool; sh_entries : list (ReviewedObject * Observation);
  sh_cells : list bool; sh_slot : option Snapshot; sh_workers : gmap nat Worker;
  sh_sink : list (AuditEvent * result RuntimeError unit)
}.

Definition capacity (limits : Limits) (r : Resource) : nat :=
  match r with
  | Permits => Z.to_nat (max_concurrent limits)
  | Waiters => Z.to_nat (max_concurrent limits + 1)
  | _ => 1%nat
  end.

Definition Shared_new (limits : Limits) : Shared :=
  {| sh_sequence := 1; sh_free := capacity limits; sh_failed := false; sh_entries := []; sh_cells := []; sh_slot := None;
     sh_workers := ∅; sh_sink := [] |}.

Definition set_free (r : Resource) (n : nat) (f : Resource -> nat) : Resource -> nat := fun r' => if decide (r' = r) then n else f r'.
Definition with_free (f : Resource -> nat) (σ : Shared) : Shared :=
  {| sh_sequence := sh_sequence σ; sh_free := f; sh_failed := sh_failed σ; sh_entries := sh_entries σ; sh_cells := sh_cells σ;
     sh_slot := sh_slot σ; sh_workers := sh_workers σ; sh_sink := sh_sink σ |}.
Definition take_one (r : Resource) (σ : Shared) : Shared := with_free (set_free r (pred (sh_free σ r)) (sh_free σ)) σ.
Definition put_one (r : Resource) (σ : Shared) : Shared := with_free (set_free r (S (sh_free σ r)) (sh_free σ)) σ.
Definition with_sequence (n : Z) (σ : Shared) : Shared :=
  {| sh_sequence := n; sh_free := sh_free σ; sh_failed := sh_failed σ; sh_entries := sh_entries σ; sh_cells := sh_cells σ;
     sh_slot := sh_slot σ; sh_workers := sh_workers σ; sh_sink := sh_sink σ |}.
Definition latch (σ : Shared) : Shared :=
  {| sh_sequence := sh_sequence σ; sh_free := sh_free σ; sh_failed := true; sh_entries := sh_entries σ; sh_cells := sh_cells σ;
     sh_slot := sh_slot σ; sh_workers := sh_workers σ; sh_sink := sh_sink σ |}.
Definition with_entries (l : list (ReviewedObject * Observation)) (σ : Shared) : Shared :=
  {| sh_sequence := sh_sequence σ; sh_free := sh_free σ; sh_failed := sh_failed σ; sh_entries := l; sh_cells := sh_cells σ;
     sh_slot := sh_slot σ; sh_workers := sh_workers σ; sh_sink := sh_sink σ |}.
Definition with_cells (l : list bool) (σ : Shared) : Shared :=
  {| sh_sequence := sh_sequence σ; sh_free := sh_free σ; sh_failed := sh_failed σ; sh_entries := sh_entries σ; sh_cells := l;
     sh_slot := sh_slot σ; sh_workers := sh_workers σ; sh_sink := sh_sink σ |}.
Definition with_slot (s : option Snapshot) (σ : Shared) : Shared :=
  {| sh_sequence := sh_sequence σ; sh_free := sh_free σ; sh_failed := sh_failed σ; sh_entries := sh_entries σ; sh_cells := sh_cells σ;
     sh_slot := s; sh_workers := sh_workers σ; sh_sink := sh_sink σ |}.
Definition with_worker (w : nat) (x : Worker) (σ : Shared) : Shared :=
  {| sh_sequence := sh_sequence σ; sh_free := sh_free σ; sh_failed := sh_failed σ; sh_entries := sh_entries σ; sh_cells := sh_cells σ;
     sh_slot := sh_slot σ; sh_workers := <[w := x]> (sh_workers σ); sh_sink := sh_sink σ |}.
Definition with_sink (l : list (AuditEvent * result RuntimeError unit)) (σ : Shared) : Shared :=
  {| sh_sequence := sh_sequence σ; sh_free := sh_free σ; sh_failed := sh_failed σ; sh_entries := sh_entries σ; sh_cells := sh_cells σ;
     sh_slot := sh_slot σ; sh_workers := sh_workers σ; sh_sink := l |}.

(** ** What a call does *)

(** [try_acquire] and [try_lock] *)
Definition try_take (r : Resource) (σ : Shared) (b : bool) (σ' : Shared) : Prop :=
  b = (0 <? sh_free σ r)%nat /\ σ' = if b then take_one r σ else σ.
(** [acquire] and [lock] under a deadline *)
Definition await_take (r : Resource) (σ : Shared) (o : option unit) (σ' : Shared) : Prop :=
  match o with None => σ' = σ | Some _ => (0 < sh_free σ r)%nat /\ σ' = take_one r σ end.

Definition exec (σ : Shared) (c : Call) : Answer c -> Shared -> Prop :=
  match c return Answer c -> Shared -> Prop with
  | Sequence => fun n σ' => n = sh_sequence σ /\ σ' = with_sequence ((sh_sequence σ + 1) mod (U64_MAX + 1)) σ
  | TryPermit => try_take Permits σ
  | ReleasePermit => fun _ σ' => σ' = put_one Permits σ
  | LoadFailed => fun b σ' => b = sh_failed σ /\ σ' = σ
  | StoreFailed => fun _ σ' => σ' = latch σ
  | TryWaiter => try_take Waiters σ
  | ReleaseWaiter => fun _ σ' => σ' = put_one Waiters σ
  | AcquireGate => await_take Gate σ
  | ReleaseGate => fun _ σ' => σ' = put_one Gate σ
  | SpawnRecord event => fun w σ' => sh_workers σ !! w = None /\ σ' = with_worker w (Pending event) σ
  | JoinRecord w => fun r σ' => match r with None => True | Some x => sh_workers σ !! w = Some (Ended x) end /\ σ' = σ
  | LockEntries => await_take EntriesLock σ
  | UnlockEntries => fun _ σ' => σ' = put_one EntriesLock σ
  | ReadEntries => fun l σ' => l = sh_entries σ /\ σ' = σ
  | WriteEntries l => fun _ σ' => σ' = with_entries l σ
  | NewCell => fun n σ' => n = length (sh_cells σ) /\ σ' = with_cells (sh_cells σ ++ [true]) σ
  | LoadCell n => fun b σ' => b = default false (sh_cells σ !! n) /\ σ' = σ
  | Revoke n => fun _ σ' => σ' = with_cells (<[n := false]> (sh_cells σ)) σ
  | TryLease => try_take SlotLock σ
  | ReleaseLease => fun _ σ' => σ' = put_one SlotLock σ
  | ReadSlot => fun s σ' => s = sh_slot σ /\ σ' = σ
  | WriteSlot s => fun _ σ' => σ' = with_slot s σ
  | Now | WallClock | Epoch | Probe _ | RunAction _ | CaptureApk | CaptureOpkg | Nonce => fun _ σ' => σ' = σ
  end.

(** ** Audit workers *)
Inductive worker_step (σ : Shared) : Shared -> Prop :=
| worker_writes w event r :
    sh_workers σ !! w = Some (Pending event) ->
    worker_step σ (with_sink (sh_sink σ ++ [(event, r)]) (with_worker w (Wrote r) σ))
| worker_latches w e :
    sh_workers σ !! w = Some (Wrote (Err e)) -> worker_step σ (latch (with_worker w (Latched (Err e)) σ))
| worker_succeeds w u :
    sh_workers σ !! w = Some (Wrote (Ok u)) -> worker_step σ (put_one Gate (with_worker w (Ended (Some (Ok u))) σ))
| worker_ends w r :
    sh_workers σ !! w = Some (Latched r) -> worker_step σ (put_one Gate (with_worker w (Ended (Some r)) σ))
| worker_panics w event :
    sh_workers σ !! w = Some (Pending event) -> worker_step σ (put_one Gate (with_worker w (Ended None) σ)).

(** ** The server *)

(** A request in progress: what is left of it and the calls it made. *)
Record Request : Type := { rq_left : request unit; rq_trace : trace }.

Definition holds (m : Monitor) (r : Resource) : bool :=
  match r with
  | Permits => m_permit m | Waiters => m_waiter m | Gate => m_gate m | EntriesLock => m_entries m | SlotLock => m_lease m
  end.

(** The guards of a dropped request are dropped. *)
Definition drop_guards (m : Monitor) (σ : Shared) : Shared :=
  with_free (fun r => (sh_free σ r + if holds m r then 1 else 0)%nat)
    (if m_lease m then with_slot None σ else σ).

Record Server : Type := { sv_shared : Shared; sv_requests : gmap nat Request }.

Section server.
Context (definition_size : Operation -> option Z) (json_pointer : value -> string -> option value) (d : Dispatcher).

Definition Server_new : Server := {| sv_shared := Shared_new (d_limits d); sv_requests := ∅ |}.

Definition arriving (p : request unit) : Prop :=
  (exists name arguments, p = do! _ := invoke definition_size json_pointer d name arguments in Ret tt)
  \/ exists arguments, p = do! _ := capability_status d arguments in Ret tt.

Inductive server_step (s : Server) : Server -> Prop :=
| request_arrives i p :
    sv_requests s !! i = None -> arriving p ->
    server_step s {| sv_shared := sv_shared s; sv_requests := <[i := {| rq_left := p; rq_trace := [] |}]> (sv_requests s) |}
| request_calls i c k tr x σ :
    sv_requests s !! i = Some {| rq_left := Vis c k; rq_trace := tr |} -> exec (sv_shared s) c x σ ->
    server_step s {| sv_shared := σ; sv_requests := <[i := {| rq_left := k x; rq_trace := tr ++ [Event c x] |}]> (sv_requests s) |}
| request_returns i tr u :
    sv_requests s !! i = Some {| rq_left := Ret u; rq_trace := tr |} ->
    server_step s {| sv_shared := sv_shared s; sv_requests := delete i (sv_requests s) |}
| request_dropped i rq :
    sv_requests s !! i = Some rq ->
    server_step s {| sv_shared := drop_guards (after (rq_trace rq)) (sv_shared s); sv_requests := delete i (sv_requests s) |}
| worker_runs σ :
    worker_step (sv_shared s) σ -> server_step s {| sv_shared := σ; sv_requests := sv_requests s |}.

Inductive reachable : Server -> Prop :=
| reachable_new : reachable Server_new
| reachable_step s s' : reachable s -> server_step s s' -> reachable s'.
End server.

(** * Guarantees under interleaving

    Invariants of every reachable state of the server: each guard is accounted
    for, and a failed audit write is the last one. *)

(** ** Counting in a finite map *)
Definition b2n (b : bool) : nat := if b then 1 else 0.
Definition count {A} (f : A -> bool) (m : gmap nat A) : nat := map_fold (fun _ x n => (b2n (f x) + n)%nat) 0%nat m.

Section count.
Context {A : Type} (f : A -> bool).
Implicit Types m : gmap nat A.
Local Open Scope nat_scope.

Lemma count_delete m i x : m !! i = Some x -> count f m = b2n (f x) + count f (delete i m).
Proof. intros Hi. unfold count. rewrite (map_fold_delete_L _ _ i x); [done | intros; lia | done]. Qed.
Lemma count_insert_new m i x : m !! i = None -> count f (<[i := x]> m) = b2n (f x) + count f m.
Proof. intros Hi. unfold count. rewrite map_fold_insert_L; [done | intros; lia | done]. Qed.
Lemma count_update m i x y : m !! i = Some x -> count f (<[i := y]> m) + b2n (f x) = count f m + b2n (f y).
Proof.
  intros Hi. rewrite (count_delete m i x Hi), <- insert_delete_eq, count_insert_new by apply lookup_delete_eq. lia.
Qed.
Lemma count_pos m i x : m !! i = Some x -> f x = true -> 1 <= count f m.
Proof. intros Hi Hf. rewrite (count_delete m i x Hi), Hf. simpl. lia. Qed.
Lemma count_two m i j x y : m !! i = Some x -> m !! j = Some y -> i <> j -> f x = true -> f y = true -> 2 <= count f m.
Proof.
  intros Hi Hj Hn Hx Hy. rewrite (count_delete m i x Hi), Hx. pose proof (count_pos (delete i m) j y) as Hp.
  rewrite lookup_delete_ne in Hp by done. specialize (Hp Hj Hy). simpl. lia.
Qed.
Lemma count_mono (g : A -> bool) m : (forall i x, m !! i = Some x -> f x = true -> g x = true) -> count f m <= count g m.
Proof.
  induction m as [| i x m Hi IH] using map_ind; intros Hfg; [done |]. rewrite count_insert_new by done.
  unfold count at 2. rewrite map_fold_insert_L by (done || (intros; lia)). fold (count g m).
  assert (count f m <= count g m) by (apply IH; intros j y Hj; apply (Hfg j); by rewrite lookup_insert_ne by congruence).
  specialize (Hfg i x (lookup_insert_eq _ _ _)). destruct (f x), (g x); cbn; try lia.
Qed.
End count.

(** ** The invariant *)
Definition active (w : Worker) : bool := match w with Pending _ | Wrote _ | Latched _ => true | Ended _ => false end.

(** Places of [r] owned by workers. *)
Definition by_workers (σ : Shared) (r : Resource) : nat := if decide (r = Gate) then count active (sh_workers σ) else 0%nat.
Definition by_requests (rqs : gmap nat Request) (r : Resource) : nat := count (fun rq => holds (after (rq_trace rq)) r) rqs.

Definition clean (l : list (AuditEvent * result RuntimeError unit)) : Prop := Forall (fun p => is_ok (snd p) = true) l.

(** Under the gate, the latch was seen open. *)
Definition passed (tr : trace) : Prop := exists pre u, tr = pre ++ [Event AcquireGate (Some u); Event LoadFailed false].

Record sink_inv (σ : Shared) : Prop := {
  failure_last : forall i ev e, sh_sink σ !! i = Some (ev, Err e) -> S i = length (sh_sink σ);
  pending_clean : forall w ev, sh_workers σ !! w = Some (Pending ev) -> clean (sh_sink σ);
  failure_noted : clean (sh_sink σ) \/ sh_failed σ = true \/ exists w e, sh_workers σ !! w = Some (Wrote (Err e))
}.

Section serving.
Context (definition_size : Operation -> option Z) (json_pointer : value -> string -> option value) (d : Dispatcher).

Definition obeys (rq : Request) : Prop :=
  exists name prepared, wp mstep (mok d name prepared) (rq_left rq) (after (rq_trace rq)) (fun _ m => released m).

Record server_inv (s : Server) : Prop := {
  all_obey : forall i rq, sv_requests s !! i = Some rq -> obeys rq;
  all_accounted : forall r, (sh_free (sv_shared s) r + by_requests (sv_requests s) r + by_workers (sv_shared s) r)%nat = capacity (d_limits d) r;
  sink_sound : sink_inv (sv_shared s);
  passed_clean : forall i rq, sv_requests s !! i = Some rq -> passed (rq_trace rq) -> clean (sh_sink (sv_shared s))
}.

Lemma arriving_obeys p : arriving definition_size json_pointer d p -> obeys {| rq_left := p; rq_trace := [] |}.
Proof.
  intros [(name & arguments & ->) | (arguments & ->)].
  - exists name, (prepared_by definition_size arguments). apply wp_seq. eapply wp_mono; [apply invoke_wp |]. by intros r m [Hr _].
  - exists (status_name arguments), (fun _ _ => False). apply wp_seq. eapply wp_mono; [apply capability_status_wp |]. by intros r m [Hr _].
Qed.

(** ** Accounting *)
Lemma set_free_eq r n f : set_free r n f r = n.
Proof. unfold set_free. by rewrite decide_True. Qed.
Lemma set_free_ne r r' n f : r' <> r -> set_free r n f r' = f r'.
Proof. intros Hn. unfold set_free. by rewrite decide_False. Qed.

Lemma accounted_call name prepared σ c x σ' m r :
  exec σ c x σ' -> mok d name prepared m c ->
  (sh_free σ' r + b2n (holds (mstep m (Event c x)) r) + by_workers σ' r = sh_free σ r + b2n (holds m r) + by_workers σ r)%nat.
Proof.
  destruct m as [tr p w g e l rs log]. intros He Hok.
  destruct c; cbn in He, Hok;
    try match type of He with
    | try_take _ _ _ _ => destruct He as [-> ->]; destruct (0 <? _)%nat eqn:E; [apply Nat.ltb_lt in E |]
    | await_take _ _ _ _ => destruct x as [u |]; cbn in He; [destruct He as [Hf ->] | subst σ']
    | _ /\ _ => destruct He as [Ha ->]
    | _ => subst σ'
    end;
    try match type of Hok with
    | (_ = _) /\ _ => let Hh := fresh in destruct Hok as [Hh _]; cbn in Hh
    end;
    subst; unfold by_workers, take_one, put_one, with_free, set_free; cbn [sh_free sh_workers];
    try (destruct r; cbn; repeat case_decide; try done; cbn; lia).
  (* a worker takes the gate over *)
  cbn [sh_free sh_workers with_worker]. rewrite count_insert_new by done. destruct r; cbn; repeat case_decide; try done; cbn; lia.
Qed.

(** ** The gate *)
Lemma snoc_snoc {T} (l : list T) a b : l ++ [a; b] = (l ++ [a]) ++ [b].
Proof. by rewrite <- app_assoc. Qed.
Lemma passed_gate tr : passed tr -> m_gate (after tr) = true.
Proof.
  intros (pre & u & ->). rewrite snoc_snoc, !after_snoc. by destruct (after pre).
Qed.

Lemma holder_alone s i rq : server_inv s -> sv_requests s !! i = Some rq -> m_gate (after (rq_trace rq)) = true ->
  forall w x, sh_workers (sv_shared s) !! w = Some x -> active x = false.
Proof.
  intros Hs Hi Hg w x Hw. destruct (active x) eqn:Ha; [exfalso | done]. pose proof (all_accounted s Hs Gate) as Hc.
  pose proof (count_pos (fun rq => holds (after (rq_trace rq)) Gate) _ _ _ Hi Hg) as H1.
  pose proof (count_pos active _ _ _ Hw Ha) as H2. unfold by_requests, by_workers in Hc.
  rewrite decide_True in Hc by done. change (capacity _ Gate) with 1%nat in Hc. lia.
Qed.

Lemma worker_alone s w x : server_inv s -> sh_workers (sv_shared s) !! w = Some x -> active x = true ->
  (forall w' x', sh_workers (sv_shared s) !! w' = Some x' -> w' <> w -> active x' = false)
  /\ (forall i rq, sv_requests s !! i = Some rq -> ~ passed (rq_trace rq)).
Proof.
  intros Hs Hw Ha. split.
  - intros w' x' Hw' Hne. destruct (active x') eqn:Ha'; [exfalso | done]. pose proof (all_accounted s Hs Gate) as Hc.
    pose proof (count_two active _ _ _ _ _ Hw' Hw Hne Ha' Ha). unfold by_workers in Hc.
    rewrite decide_True in Hc by done. change (capacity _ Gate) with 1%nat in Hc. lia.
  - intros i rq Hi Hp. by rewrite (holder_alone s i rq Hs Hi (passed_gate _ Hp) w x Hw) in Ha.
Qed.

(** ** The sink *)
Definition same_audit (σ σ' : Shared) : Prop :=
  sh_sink σ' = sh_sink σ /\ sh_workers σ' = sh_workers σ /\ (sh_failed σ = true -> sh_failed σ' = true).

Lemma same_audit_inv σ σ' : same_audit σ σ' -> sink_inv σ -> sink_inv σ'.
Proof.
  intros (Hs & Hw & Hf) [H1 H2 H3]. split; rewrite ?Hs, ?Hw; [done | done |]. destruct H3 as [? | [? | ?]]; [by left | right; left; by apply Hf | by right; right].
Qed.

Lemma exec_audit σ c x σ' : exec σ c x σ' ->
  same_audit σ σ' \/ exists ev w, c = SpawnRecord ev /\ sh_workers σ !! w = None /\ σ' = with_worker w (Pending ev) σ.
Proof.
  intros He. destruct c; cbn in He;
    try match type of He with
    | try_take _ _ _ _ => destruct He as [_ ->]; destruct x; by left
    | await_take _ _ _ _ => destruct x; cbn in He; [destruct He as [_ ->] | subst σ']; by left
    end; try (destruct He as [_ ->]; by left); try (subst σ'; by left).
  - destruct He as [Hw ->]. right. by exists event, x.
Qed.

(** The answer that [LoadFailed] got, if the event is that call. *)
Definition latch_seen (e : event Answer) : option bool :=
  match e with Event c x => match c return Answer c -> option bool with LoadFailed => Some | _ => fun _ => None end x end.

Lemma passed_snoc tr c x : passed (tr ++ [Event c x]) ->
  m_gate (after tr) = true /\ c = LoadFailed /\ forall σ σ', exec σ c x σ' -> sh_failed σ = false.
Proof.
  intros (pre & u & Heq). rewrite snoc_snoc in Heq. apply app_inj_tail in Heq as [-> Heq].
  split; [rewrite after_snoc; by destruct (after pre) |].
  assert (latch_seen (Event c x) = Some false) as Hl by by rewrite Heq. destruct c; try done. split; [done |].
  intros σ σ' [Hx _]. cbn in Hl. by simplify_eq.
Qed.

(** ** The steps *)
Lemma call_keeps s i c k tr x σ :
  server_inv s -> sv_requests s !! i = Some {| rq_left := Vis c k; rq_trace := tr |} -> exec (sv_shared s) c x σ ->
  server_inv {| sv_shared := σ; sv_requests := <[i := {| rq_left := k x; rq_trace := tr ++ [Event c x] |}]> (sv_requests s) |}.
Proof.
  intros Hs Hi He. destruct (all_obey s Hs i _ Hi) as (name & prepared & Hok & Hk). cbn [rq_left rq_trace] in Hok, Hk.
  assert (clean (sh_sink (sv_shared s)) \/ forall ev, c <> SpawnRecord ev) as Hspawn.
  { destruct c; try (right; done). left. destruct Hok as (_ & _ & _ & pre & u & Htr). rewrite after_trace in Htr.
    apply (passed_clean s Hs i _ Hi). by exists pre, u. }
  pose proof (exec_audit _ _ _ _ He) as Hsame.
  assert (sh_sink σ = sh_sink (sv_shared s)) as Hsink by (destruct Hsame as [[? _] | (ev & w & _ & _ & ->)]; done).
  split; cbn [sv_shared sv_requests].
  - intros j rq Hj. destruct (decide (j = i)) as [-> | Hn]; [| rewrite lookup_insert_ne in Hj by done; by apply (all_obey s Hs j)].
    rewrite lookup_insert_eq in Hj. injection Hj as <-. exists name, prepared. cbn [rq_left rq_trace]. rewrite after_snoc. apply Hk.
  - intros r. rewrite <- (all_accounted s Hs r). unfold by_requests.
    pose proof (count_update (fun rq => holds (after (rq_trace rq)) r) _ i _ {| rq_left := k x; rq_trace := tr ++ [Event c x] |} Hi) as Hc.
    cbn [rq_trace] in Hc. rewrite after_snoc in Hc. pose proof (accounted_call name prepared _ c x σ _ r He Hok) as Ha. lia.
  - destruct Hsame as [Hsame | (ev & w & -> & Hw & ->)]; [by apply (same_audit_inv (sv_shared s)), Hs |].
    destruct Hspawn as [Hclean | Hn]; [| by destruct (Hn ev)]. destruct (sink_sound s Hs) as [H1 H2 _].
    split; cbn [sh_sink with_worker sh_workers]; [done | done | by left].
  - intros j rq Hj Hp. rewrite Hsink. destruct (decide (j = i)) as [-> | Hn];
      [| rewrite lookup_insert_ne in Hj by done; by apply (passed_clean s Hs j rq)].
    rewrite lookup_insert_eq in Hj. injection Hj as <-. cbn in Hp. apply passed_snoc in Hp as (Hg & -> & Hf).
    pose proof (holder_alone s i _ Hs Hi Hg) as Halone. destruct (failure_noted _ (sink_sound s Hs)) as [? | [Hl | (w & e & Hw)]]; [done | |].
    + by rewrite (Hf _ _ He) in Hl.
    + by specialize (Halone w _ Hw).
Qed.

Lemma request_gone s i rq r : sv_requests s !! i = Some rq ->
  (by_requests (delete i (sv_requests s)) r + b2n (holds (after (rq_trace rq)) r))%nat = by_requests (sv_requests s) r.
Proof. intros Hi. unfold by_requests. rewrite (count_delete _ _ i rq Hi). lia. Qed.

Lemma gone_keeps s i rq σ :
  server_inv s -> sv_requests s !! i = Some rq -> same_audit (sv_shared s) σ ->
  (forall r, sh_free σ r = sh_free (sv_shared s) r + b2n (holds (after (rq_trace rq)) r))%nat ->
  server_inv {| sv_shared := σ; sv_requests := delete i (sv_requests s) |}.
Proof.
  intros Hs Hi Hsame Hf. split; cbn [sv_shared sv_requests].
  - intros j rq' Hj. apply lookup_delete_Some in Hj as [_ Hj]. by apply (all_obey s Hs j).
  - intros r. rewrite <- (all_accounted s Hs r), Hf. pose proof (request_gone s i rq r Hi).
    destruct Hsame as (_ & Hw & _). unfold by_workers. rewrite Hw. lia.
  - apply (same_audit_inv (sv_shared s)); [done | apply Hs].
  - intros j rq' Hj Hp. apply lookup_delete_Some in Hj as [_ Hj]. destruct Hsame as [-> _]. by apply (passed_clean s Hs j rq').
Qed.

Lemma worker_keeps s w x y σ :
  server_inv s -> sh_workers (sv_shared s) !! w = Some x -> active x = true -> sh_workers σ = <[w := y]> (sh_workers (sv_shared s)) ->
  (forall r, sh_free σ r + (if decide (r = Gate) then b2n (active y) else 0) = sh_free (sv_shared s) r + (if decide (r = Gate) then 1 else 0))%nat ->
  sink_inv σ -> server_inv {| sv_shared := σ; sv_requests := sv_requests s |}.
Proof.
  intros Hs Hw Ha Hσ Hf Hsink. destruct (worker_alone s w x Hs Hw Ha) as [_ Hnone]. split; cbn [sv_shared sv_requests].
  - apply Hs.
  - intros r. rewrite <- (all_accounted s Hs r). specialize (Hf r). unfold by_workers. rewrite Hσ.
    pose proof (count_update active _ w x y Hw) as Hc. rewrite Ha in Hc. cbn in Hc. case_decide; lia.
  - done.
  - intros i rq Hi Hp. by destruct (Hnone i rq Hi).
Qed.

Lemma clean_snoc l ev r : clean l -> is_ok r = true -> clean (l ++ [(ev, r)]).
Proof. intros Hl Hr. apply Forall_app. split; [done |]. by apply Forall_singleton. Qed.

Lemma clean_lookup l i ev e : clean l -> l !! i = Some (ev, Err e) -> False.
Proof. intros Hl Hi. by apply (proj1 (Forall_lookup _ _) Hl) in Hi. Qed.

Lemma put_gate_free σ r : (sh_free (put_one Gate σ) r = sh_free σ r + (if decide (r = Gate) then 1 else 0))%nat.
Proof. unfold put_one, with_free, set_free. cbn. case_decide; subst; lia. Qed.

(** A worker that leaves the write phase behind keeps the sink's invariant. *)
Lemma settled_sink σ σ' w x y :
  sink_inv σ -> sh_workers σ !! w = Some x -> sh_sink σ' = sh_sink σ -> sh_workers σ' = <[w := y]> (sh_workers σ) ->
  (forall ev, y <> Pending ev) -> (sh_failed σ' = true \/ sh_failed σ' = sh_failed σ /\ forall e, x <> Wrote (Err e)) -> sink_inv σ'.
Proof.
  intros [H1 H2 H3] Hw Hs Hws Hy Hx. split; rewrite ?Hs, ?Hws; [done | |].
  - intros w' ev [[-> ->] | [Hn Hw']]%lookup_insert_Some; [by destruct (Hy ev) | by apply (H2 w' ev)].
  - destruct H3 as [? | [Hf | (w' & e & Hw')]]; [by left | right; left; destruct Hx as [? | [-> _]]; done |].
    destruct Hx as [? | [_ Hx]]; [by right; left |]. right. right. exists w', e.
    rewrite lookup_insert_ne; [done |]. intros ->. rewrite Hw in Hw'. injection Hw' as ->. by destruct (Hx e).
Qed.

Lemma worker_step_keeps s σ :
  server_inv s -> worker_step (sv_shared s) σ -> server_inv {| sv_shared := σ; sv_requests := sv_requests s |}.
Proof.
  intros Hs Hstep. pose proof (sink_sound s Hs) as Hsink. destruct Hstep as [w ev r Hw | w e Hw | w u Hw | w r Hw | w ev Hw].
  - apply (worker_keeps s w _ (Wrote r) _ Hs Hw); [done | done | intros r'; cbn; by case_decide |].
    destruct (worker_alone s w _ Hs Hw eq_refl) as [Halone _]. pose proof (pending_clean _ Hsink w ev Hw) as Hclean.
    split; cbn [sh_sink with_sink with_worker sh_workers].
    + intros i ev' e Hi. apply lookup_app_Some in Hi as [Hi | [Hi Hi']]; [by destruct (clean_lookup _ _ _ _ Hclean Hi) |].
      apply list_lookup_singleton_Some in Hi' as [Hz _]. rewrite length_app. cbn. lia.
    + intros w' ev' [[-> [=]] | [Hn Hw']]%lookup_insert_Some. by specialize (Halone w' _ Hw' (not_eq_sym Hn)).
    + destruct r as [u | e]; [left; by apply clean_snoc | right; right]. exists w, e. apply lookup_insert_eq.
  - apply (worker_keeps s w _ (Latched (Err e)) _ Hs Hw); [done | done | intros r'; cbn; by case_decide |].
    eapply settled_sink; [exact Hsink | exact Hw | reflexivity | reflexivity | done | by left].
  - apply (worker_keeps s w _ (Ended (Some (Ok u))) _ Hs Hw); [done | done | intros r'; rewrite put_gate_free; cbn; case_decide; lia |].
    eapply settled_sink; [exact Hsink | exact Hw | reflexivity | reflexivity | done | by right].
  - apply (worker_keeps s w _ (Ended (Some r)) _ Hs Hw); [done | done | intros r'; rewrite put_gate_free; cbn; case_decide; lia |].
    eapply settled_sink; [exact Hsink | exact Hw | reflexivity | reflexivity | done | by right].
  - apply (worker_keeps s w _ (Ended None) _ Hs Hw); [done | done | intros r'; rewrite put_gate_free; cbn; case_decide; lia |].
    eapply settled_sink; [exact Hsink | exact Hw | reflexivity | reflexivity | done | by right].
Qed.

Lemma step_keeps s s' : server_inv s -> server_step definition_size json_pointer d s s' -> server_inv s'.
Proof.
  intros Hs Hstep. destruct Hstep as [i p Hi Hp | i c k tr x σ Hi He | i tr u Hi | i rq Hi | σ Hw].
  - split; cbn [sv_shared sv_requests].
    + intros j rq Hj. apply lookup_insert_Some in Hj as [[<- <-] | [_ Hj]]; [by apply arriving_obeys | by apply (all_obey s Hs j)].
    + intros r. rewrite <- (all_accounted s Hs r). unfold by_requests. rewrite count_insert_new by done. by destruct r.
    + apply Hs.
    + intros j rq Hj Hpass. apply lookup_insert_Some in Hj as [[<- <-] | [_ Hj]]; [| by apply (passed_clean s Hs j rq)].
      destruct Hpass as (pre & u & Hpre). by destruct pre as [| ? [|]].
  - by eapply call_keeps.
  - destruct (all_obey s Hs i _ Hi) as (name & prepared & Hrel). cbn [rq_left rq_trace wp] in Hrel.
    apply (gone_keeps s i _ _ Hs Hi); [by split |]. intros r. cbn [rq_trace]. destruct Hrel as (H1 & H2 & H3 & H4 & H5).
    destruct r; cbn [holds]; rewrite ?H1, ?H2, ?H3, ?H4, ?H5; cbn; lia.
  - apply (gone_keeps s i rq _ Hs Hi); [unfold drop_guards; by destruct (m_lease _) |].
    intros r. unfold drop_guards. by destruct (m_lease _).
  - by apply worker_step_keeps.
Qed.

Lemma reachable_inv s : reachable definition_size json_pointer d s -> server_inv s.
Proof.
  induction 1 as [| s s' _ IH Hstep]; [| by eapply step_keeps]. split; cbn.
  - intros i rq Hi. by rewrite lookup_empty in Hi.
  - intros r. unfold by_requests, by_workers. cbn. unfold count. rewrite !map_fold_empty. case_decide; lia.
  - split; cbn; [intros [|] ? ? [=] | intros w ev Hw; by rewrite lookup_empty in Hw | left; constructor].
  - intros i rq Hi. by rewrite lookup_empty in Hi.
Qed.
End serving.
