(* ===== verification/Parallel.v ===== *)
(** * What interleaving cannot break

    Bounds on what runs at once, the finality of an audit failure, and
    progress, in every reachable state of the server. *)
From stdpp Require Import gmap relations.
From S2P Require Import Prelude Order Text Json Core Budget Packages Schema Evaluate Operation Invocation Catalog Preparation Legacy Program Ports Cache Dispatcher Protocol Requests Audited Serving.
Open Scope Z_scope.

(** ** An executable scheduler

    The answer of a call, with waits that give up when they would block; the
    environment answers for the device and the clocks. *)
Definition perform (env : forall c, Answer c) (σ : Shared) (c : Call) : Answer c * Shared :=
  let try r := if (0 <? sh_free σ r)%nat then (true, take_one r σ) else (false, σ) in
  let await r := if (0 <? sh_free σ r)%nat then (Some tt, take_one r σ) else (None, σ) in
  match c return Answer c * Shared with
  | Sequence => (sh_sequence σ, with_sequence ((sh_sequence σ + 1) mod (U64_MAX + 1)) σ)
  | TryPermit => try Permits
  | ReleasePermit => (tt, put_one Permits σ)
  | LoadFailed => (sh_failed σ, σ)
  | StoreFailed => (tt, latch σ)
  | TryWaiter => try Waiters
  | ReleaseWaiter => (tt, put_one Waiters σ)
  | AcquireGate => await Gate
  | ReleaseGate => (tt, put_one Gate σ)
  | SpawnRecord event => let w : nat := base.fresh (dom (sh_workers σ)) in (w, with_worker w (Pending event) σ)
  | JoinRecord w => (match sh_workers σ !! w with Some (Ended x) => Some x | _ => None end, σ)
  | LockEntries => await EntriesLock
  | UnlockEntries => (tt, put_one EntriesLock σ)
  | ReadEntries => (sh_entries σ, σ)
  | WriteEntries l => (tt, with_entries l σ)
  | NewCell => (length (sh_cells σ), with_cells (sh_cells σ ++ [true]) σ)
  | LoadCell n => (default false (sh_cells σ !! n), σ)
  | Revoke n => (tt, with_cells (<[n := false]> (sh_cells σ)) σ)
  | TryLease => try SlotLock
  | ReleaseLease => (tt, put_one SlotLock σ)
  | ReadSlot => (sh_slot σ, σ)
  | WriteSlot s => (tt, with_slot s σ)
  | Now => (env Now, σ) | WallClock => (env WallClock, σ) | Epoch => (env Epoch, σ)
  | Probe o => (env (Probe o), σ) | RunAction a => (env (RunAction a), σ)
  | CaptureApk => (env CaptureApk, σ) | CaptureOpkg => (env CaptureOpkg, σ) | Nonce => (env Nonce, σ)
  end.

Lemma perform_exec env σ c : exec σ c (fst (perform env σ c)) (snd (perform env σ c)).
Proof.
  destruct c; cbn -[Nat.ltb]; try done; unfold try_take, await_take;
    try match goal with |- context [(0 <? sh_free σ ?r)%nat] => destruct (Nat.ltb_spec 0 (sh_free σ r)); done end.
  - split; [| done]. apply not_elem_of_dom. apply is_fresh.
  - split; [| done]. destruct (sh_workers σ !! worker) as [[] |] eqn:E; done.
Qed.

Definition step_request (env : forall c, Answer c) (i : nat) (s : Server) : Server :=
  match sv_requests s !! i with
  | None => s
  | Some rq =>
      match rq_left rq with
      | Ret _ => {| sv_shared := sv_shared s; sv_requests := delete i (sv_requests s) |}
      | Vis c k =>
          let '(x, σ) := perform env (sv_shared s) c in
          {| sv_shared := σ; sv_requests := <[i := {| rq_left := k x; rq_trace := rq_trace rq ++ [Event c x] |}]> (sv_requests s) |}
      end
  end.

(** A request whose next call reaches the device, the entropy source, or the
    state under a lock. *)
Definition next_call (rq : Request) (p : Call -> bool) : bool :=
  match rq_left rq with Vis c _ => p c | Ret _ => false end.
Definition cache_call (c : Call) : bool := match c with ReadEntries | WriteEntries _ | Probe _ => true | _ => false end.
Definition slot_call (c : Call) : bool :=
  match c with ReadSlot | WriteSlot _ | CaptureApk | CaptureOpkg | Nonce => true | _ => false end.

Section parallel.
Context (definition_size : Operation -> option Z) (json_pointer : value -> string -> option value) (d : Dispatcher).
Notation step := (server_step definition_size json_pointer d).

Lemma step_request_reachable env i s :
  reachable definition_size json_pointer d s -> reachable definition_size json_pointer d (step_request env i s).
Proof.
  intros Hs. unfold step_request. destruct (sv_requests s !! i) as [[p tr] |] eqn:Hi; [| done]. cbn [rq_left rq_trace].
  destruct p as [u | c k]; [eapply reachable_step; [done | by eapply request_returns] |].
  pose proof (perform_exec env (sv_shared s) c) as He. destruct (perform env (sv_shared s) c) as [x σ].
  eapply reachable_step; [done | by eapply request_calls].
Qed.

(** Requests at a call that needs a guard are at most as many as its places. *)
Lemma guarded_bound s p r :
  server_inv d s -> (forall name prepared m c, p c = true -> mok d name prepared m c -> holds m r = true) ->
  (count (fun rq => next_call rq p) (sv_requests s) <= capacity (d_limits d) r)%nat.
Proof.
  intros Hs Hp. transitivity (by_requests (sv_requests s) r).
  - apply count_mono. intros i [q tr] Hi Hc. destruct (all_obey d s Hs i _ Hi) as (name & prepared & Hwp). unfold next_call in Hc. cbn [rq_left rq_trace] in Hc, Hwp.
    destruct q as [u | c k]; [done |]. destruct Hwp as [Hok _]. by apply (Hp name prepared _ c).
  - pose proof (all_accounted d s Hs r). lia.
Qed.

(** C15: Concurrency is bounded in every reachable state: at most [max_concurrent] requests are at a call to the
    device or the entropy source, at most one is inside the capability cache, probes included, at most one is
    inside the package slot, captures included, and at most one audit write is under way. *)
Theorem concurrency_bounded s :
  reachable definition_size json_pointer d s ->
  (count (fun rq => next_call rq device_call) (sv_requests s) <= Z.to_nat (max_concurrent (d_limits d)))%nat
  /\ (count (fun rq => next_call rq cache_call) (sv_requests s) <= 1)%nat
  /\ (count (fun rq => next_call rq slot_call) (sv_requests s) <= 1)%nat
  /\ (count active (sh_workers (sv_shared s)) <= 1)%nat.
Proof.
  intros Hs%reachable_inv. split; [| split; [| split]].
  - apply (guarded_bound s device_call Permits Hs). intros name prepared m c Hc Hok.
    destruct (device_call_started d name prepared m c Hc Hok) as (op & _ & _ & Hp & _). exact Hp.
  - apply (guarded_bound s cache_call EntriesLock Hs). intros name prepared m c Hc Hok.
    destruct c; try done; (exact Hok || exact (proj1 Hok)).
  - apply (guarded_bound s slot_call SlotLock Hs). intros name prepared m c Hc Hok.
    destruct c; try done; (exact Hok || exact (proj1 Hok)).
  - pose proof (all_accounted d s Hs Gate) as Hg. unfold by_workers in Hg. rewrite decide_True in Hg by done.
    change (capacity _ Gate) with 1%nat in Hg. lia.
Qed.

(** C9: A failed audit write is the last one. In every reachable state, whatever requests and workers were
    interleaved, timed out or dropped, a sink that reported an error received no event after it. *)
Theorem audit_failure_final s i ev e :
  reachable definition_size json_pointer d s -> sh_sink (sv_shared s) !! i = Some (ev, Err e) ->
  S i = length (sh_sink (sv_shared s)).
Proof. intros Hs%reachable_inv. apply (failure_last _ (sink_sound d s Hs)). Qed.

(** ** Progress *)

(** A step that is no arrival. *)
Definition serves (s s' : Server) : Prop := step s s' /\ dom (sv_requests s') ⊆ dom (sv_requests s).

(** A wait that is not given up. *)
Definition granted (c : Call) : Answer c -> Prop :=
  match c return Answer c -> Prop with
  | AcquireGate | LockEntries => fun o => o = Some tt
  | JoinRecord _ => fun r => r <> None
  | _ => fun _ => True
  end.

(** A step that is no arrival, no drop and no time-out of a wait. *)
Inductive progress (s : Server) : Server -> Prop :=
| progress_calls i c k tr x σ :
    sv_requests s !! i = Some {| rq_left := Vis c k; rq_trace := tr |} -> exec (sv_shared s) c x σ -> granted c x ->
    progress s {| sv_shared := σ; sv_requests := <[i := {| rq_left := k x; rq_trace := tr ++ [Event c x] |}]> (sv_requests s) |}
| progress_returns i tr u :
    sv_requests s !! i = Some {| rq_left := Ret u; rq_trace := tr |} ->
    progress s {| sv_shared := sv_shared s; sv_requests := delete i (sv_requests s) |}
| progress_works σ :
    worker_step (sv_shared s) σ -> progress s {| sv_shared := σ; sv_requests := sv_requests s |}.

(** Nothing is under way and everything is free. *)
Definition settled (s : Server) : Prop :=
  sv_requests s = ∅ /\ (forall w x, sh_workers (sv_shared s) !! w = Some x -> active x = false)
  /\ forall r, sh_free (sv_shared s) r = capacity (d_limits d) r.

Lemma progress_serves s s' : progress s s' -> serves s s'.
Proof.
  destruct 1 as [i c k tr x σ Hi He Hg | i tr u Hi | σ Hw]; cbn; (split; [| cbn; rewrite ?dom_delete_L; try set_solver]).
  - by eapply request_calls.
  - rewrite dom_insert_L. apply elem_of_dom_2 in Hi. set_solver.
  - by eapply request_returns.
  - by apply worker_runs.
Qed.

Lemma progress_reachable s s' : reachable definition_size json_pointer d s -> rtc progress s s' -> reachable definition_size json_pointer d s'.
Proof. intros Hs Hr. induction Hr as [| s s1 s2 Hp _ IH]; [done |]. apply IH. eapply reachable_step; [done |]. by apply progress_serves. Qed.

(** *** Every run ends *)

(** What is left of a program after a call. *)
Inductive subprog : request unit -> request unit -> Prop := subprog_intro c k x : subprog (k x) (Vis c k).
Lemma subprog_inv q p : subprog q p -> match p with Ret _ => False | Vis c k => exists x, q = k x end.
Proof. destruct 1 as [c k x]. by exists x. Qed.
Lemma subprog_wf p : Acc subprog p.
Proof. induction p as [u | c k IH]; constructor; intros q Hq%subprog_inv; [done |]. destruct Hq as [x ->]. apply IH. Qed.

(** One request makes a call or is gone. *)
Inductive shrinks (m : gmap nat Request) : gmap nat Request -> Prop :=
| shrinks_call i rq p tr : m !! i = Some rq -> subprog p (rq_left rq) -> shrinks m (<[i := {| rq_left := p; rq_trace := tr |}]> m)
| shrinks_gone i rq : m !! i = Some rq -> shrinks m (delete i m).
Notation shorter := (fun m2 m1 => shrinks m1 m2).

Lemma insert_shorter i p tr m : m !! i = None -> Acc shorter m -> Acc shorter (<[i := {| rq_left := p; rq_trace := tr |}]> m).
Proof.
  revert tr m. induction (subprog_wf p) as [p _ IHp]. intros tr m Hi Hm. revert Hi.
  induction Hm as [m Hm IHm]. intros Hi. constructor. intros m' Hs.
  remember (<[i := {| rq_left := p; rq_trace := tr |}]> m) as m0 eqn:E. destruct Hs as [j rq q tr' Hj Hq | j rq Hj]; subst m0.
  - destruct (decide (j = i)) as [-> | Hne].
    + rewrite lookup_insert_eq in Hj. injection Hj as <-. rewrite insert_insert_eq. apply IHp; [exact Hq | done | by constructor].
    + rewrite lookup_insert_ne in Hj by done. rewrite insert_insert_ne by done. apply IHm; [by eapply shrinks_call | by rewrite lookup_insert_ne].
  - destruct (decide (j = i)) as [-> | Hne].
    + rewrite delete_insert_eq, delete_id by done. by constructor.
    + rewrite lookup_insert_ne in Hj by done. rewrite delete_insert_ne by done. apply IHm; [by eapply shrinks_gone | by rewrite lookup_delete_ne].
Qed.

Lemma shrinks_finite m : Acc shorter m.
Proof.
  induction m as [| i [p tr] m Hi IH] using map_ind; [| by apply insert_shorter].
  constructor. intros m' Hs. remember (∅ : gmap nat Request) as m0 eqn:E. destruct Hs as [j rq q tr Hj Hq | j rq Hj]; subst m0; by rewrite lookup_empty in Hj.
Qed.

(** The steps that are left to the audit workers. *)
Definition unwritten (w : Worker) : bool := match w with Pending _ => true | _ => false end.
Definition unlatched (w : Worker) : bool := match w with Pending _ | Wrote _ => true | _ => false end.
Definition work_left (σ : Shared) : nat :=
  (count unwritten (sh_workers σ) + count unlatched (sh_workers σ) + count active (sh_workers σ))%nat.

Lemma worker_step_less σ σ' : worker_step σ σ' -> (work_left σ' < work_left σ)%nat.
Proof.
  assert (Hupd : forall w x y, sh_workers σ !! w = Some x -> sh_workers σ' = <[w := y]> (sh_workers σ) ->
    (b2n (unwritten y) + b2n (unlatched y) + b2n (active y) < b2n (unwritten x) + b2n (unlatched x) + b2n (active x))%nat ->
    (work_left σ' < work_left σ)%nat).
  { intros w x y Hx E Hlt. unfold work_left. rewrite E. pose proof (count_update unwritten _ w x y Hx).
    pose proof (count_update unlatched _ w x y Hx). pose proof (count_update active _ w x y Hx). lia. }
  destruct 1 as [w ev r Hw | w e Hw | w u Hw | w r Hw | w ev Hw]; (eapply Hupd; [exact Hw | reflexivity | cbn; lia]).
Qed.

Lemma serves_finite s : Acc (fun s2 s1 => serves s1 s2) s.
Proof.
  destruct s as [σ m]. revert σ. induction (shrinks_finite m) as [m _ IHm]. intros σ.
  induction σ as [σ IHσ] using (induction_ltof1 _ work_left). constructor. intros s' [Hst Hdom].
  inversion Hst as [i p Hi Hp | i c k tr x σ' Hi He | i tr u Hi | i rq Hi | σ' Hw]; subst; cbn in *.
  - rewrite dom_insert_L in Hdom. apply not_elem_of_dom in Hi. set_solver.
  - apply IHm. by eapply shrinks_call; [exact Hi |].
  - apply IHm. by eapply shrinks_gone.
  - apply IHm. by eapply shrinks_gone.
  - apply IHσ. by apply worker_step_less.
Qed.

(** *** No deadlock *)
Lemma count_exists {A} (f : A -> bool) (m : gmap nat A) : (0 < count f m)%nat -> exists i x, m !! i = Some x /\ f x = true.
Proof.
  induction m as [| i x m Hi IH] using map_ind; [unfold count; rewrite map_fold_empty; lia |].
  rewrite count_insert_new by done. destruct (f x) eqn:E; cbn; intros Hlt; [exists i, x; by rewrite lookup_insert_eq |].
  destruct (IH Hlt) as (j & y & Hj & Hy). exists j, y. rewrite lookup_insert_ne by congruence. done.
Qed.

(** The worker that a call handed an event to. *)
Definition handed (e : event Answer) : option nat :=
  match e with Event c x => match c return Answer c -> option nat with SpawnRecord _ => Some | _ => fun _ => None end x end.
Definition workers_known (s : Server) : Prop :=
  forall i rq e w, sv_requests s !! i = Some rq -> e ∈ rq_trace rq -> handed e = Some w -> is_Some (sh_workers (sv_shared s) !! w).

Lemma exec_known σ c x σ' w : exec σ c x σ' -> is_Some (sh_workers σ !! w) -> is_Some (sh_workers σ' !! w).
Proof.
  intros He Hw. destruct (exec_audit _ _ _ _ He) as [(_ & -> & _) | (ev & w' & _ & _ & ->)]; [done |].
  cbn [sh_workers with_worker]. rewrite lookup_insert_is_Some'. by right.
Qed.
Lemma exec_handed σ c x σ' w : exec σ c x σ' -> handed (Event c x) = Some w -> is_Some (sh_workers σ' !! w).
Proof. destruct c; try done. intros [_ ->] [= <-]. cbn. rewrite lookup_insert_eq. by eexists. Qed.

Lemma reachable_known s : reachable definition_size json_pointer d s -> workers_known s.
Proof.
  induction 1 as [| s s' _ IH Hst]; [intros i rq e w Hi; cbn in Hi; by rewrite lookup_empty in Hi |].
  intros i rq e w. destruct Hst as [j p Hj Hp | j c k tr x σ Hj He | j tr u Hj | j rq' Hj | σ Hw]; cbn [sv_shared sv_requests]; intros Hi Hin Hh.
  - apply lookup_insert_Some in Hi as [[<- <-] | [_ Hi]]; [by apply not_elem_of_nil in Hin | by eapply IH].
  - apply lookup_insert_Some in Hi as [[<- <-] | [_ Hi]]; [| eapply exec_known; [exact He | by eapply IH]].
    cbn in Hin. apply elem_of_app in Hin as [Hin | ->%list_elem_of_singleton]; [eapply exec_known; [exact He | by eapply (IH j)] | by eapply exec_handed].
  - apply lookup_delete_Some in Hi as [_ Hi]. by eapply IH.
  - apply lookup_delete_Some in Hi as [_ Hi]. unfold drop_guards. destruct (m_lease _); by eapply (IH i).
  - assert (is_Some (sh_workers (sv_shared s) !! w)) as Hk by by eapply IH.
    destruct Hw; cbn; rewrite lookup_insert_is_Some'; by right.
Qed.

(** A request at a call that does not wait can go on. *)
Definition waits (c : Call) : bool := match c with AcquireGate | LockEntries | JoinRecord _ => true | _ => false end.
Lemma unblocked_progress s i rq : sv_requests s !! i = Some rq -> next_call rq waits = false -> exists s', progress s s'.
Proof.
  destruct rq as [[u | c k] tr]; intros Hi Hw; cbn in Hw; [eexists; by eapply progress_returns |].
  pose proof (perform_exec demo_oracle (sv_shared s) c) as He. destruct (perform demo_oracle (sv_shared s) c) as [x σ]. cbn in He.
  eexists. eapply progress_calls; [exact Hi | exact He |]. by destruct c.
Qed.

(** Who holds the gate or the lock of the cache does not wait. *)
Lemma holder_progress s i rq r : server_inv d s -> sv_requests s !! i = Some rq -> (r = Gate \/ r = EntriesLock) ->
  holds (after (rq_trace rq)) r = true -> exists s', progress s s'.
Proof.
  intros Hs Hi Hr Hh. apply (unblocked_progress s i rq Hi). destruct (all_obey d s Hs i rq Hi) as (name & prepared & Hwp).
  unfold next_call. destruct (rq_left rq) as [u | c k]; [done |]. destruct Hwp as [Hok _].
  destruct Hr as [-> | ->]; cbn in Hh; destruct c; try done; cbn in Hok; destruct Hok as [H1 H2]; rewrite ?Hh in *; try done.
  all: destruct H2 as [H2 H3]; congruence.
Qed.

(** A wait is for something free, or for a request that can go on. *)
Lemma lock_progress s i c k tr x r : server_inv d s -> sv_requests s !! i = Some {| rq_left := Vis c k; rq_trace := tr |} ->
  (r = Gate \/ r = EntriesLock) -> by_workers (sv_shared s) r = 0%nat -> ((0 < sh_free (sv_shared s) r)%nat -> exec (sv_shared s) c x (take_one r (sv_shared s))) ->
  granted c x -> exists s', progress s s'.
Proof.
  intros Hs Hi Hr Hw He Hg. destruct (Nat.eq_0_gt_0_cases (sh_free (sv_shared s) r)) as [Hz | Hp].
  - pose proof (all_accounted d s Hs r) as Ha. assert (capacity (d_limits d) r = 1%nat) as Hc by by destruct Hr as [-> | ->].
    destruct (count_exists (fun rq => holds (after (rq_trace rq)) r) (sv_requests s)) as (j & rq & Hj & Hh); [unfold by_requests in Ha; lia |].
    by eapply holder_progress.
  - eexists. eapply progress_calls; [exact Hi | by apply He | exact Hg].
Qed.

Lemma progress_or_settled s : reachable definition_size json_pointer d s -> (exists s', progress s s') \/ settled s.
Proof.
  intros Hr. pose proof (reachable_inv _ _ _ _ Hr) as Hs. pose proof (reachable_known s Hr) as Hknown.
  destruct (Nat.eq_0_gt_0_cases (count active (sh_workers (sv_shared s)))) as [Hz | Hp].
  2: { left. apply count_exists in Hp as (w & x & Hw & Hx). destruct x as [ev | [u | e] | r | r]; [| | | | done]; eexists; apply progress_works.
       - by apply (worker_writes _ w ev (Ok tt)).
       - by eapply worker_succeeds.
       - by eapply worker_latches.
       - by eapply worker_ends. }
  assert (Hidle : forall w x, sh_workers (sv_shared s) !! w = Some x -> active x = false).
  { intros w x Hw. destruct (active x) eqn:E; [| done]. pose proof (count_pos active _ w x Hw E). lia. }
  assert (Hw : forall r, by_workers (sv_shared s) r = 0%nat) by (intros r; unfold by_workers; by case_decide).
  destruct (decide (sv_requests s = ∅)) as [He | Hne].
  { right. split; [done |]. split; [done |]. intros r. rewrite <- (all_accounted d s Hs r), Hw. unfold by_requests, count. rewrite He, map_fold_empty. lia. }
  left. apply map_choose in Hne as (i & [p tr] & Hi). destruct (next_call {| rq_left := p; rq_trace := tr |} waits) eqn:Hwait; [| by eapply unblocked_progress].
  destruct p as [u | c k]; [done |]. destruct c; try done.
  - apply (lock_progress s i AcquireGate k tr (Some tt) Gate Hs Hi); [by left | done | done | done].
  - destruct (all_obey d s Hs i _ Hi) as (name & prepared & (_ & _ & a & Hin) & _). rewrite after_trace in Hin.
    destruct (Hknown i _ _ worker Hi Hin eq_refl) as [x Hx]. pose proof (Hidle _ _ Hx) as Hx'. destruct x as [| | | r]; try done.
    eexists. apply (progress_calls s i (JoinRecord worker) k tr (Some r) (sv_shared s) Hi); done.
  - apply (lock_progress s i LockEntries k tr (Some tt) EntriesLock Hs Hi); [by right | done | done | done].
Qed.

(** C18: No request waits forever. Take any reachable state, whatever was dropped or timed out before. Every run from it
    without new requests is finite, whatever is dropped or times out. And while nothing is dropped and every wait is
    answered by what it waits for (the gate, the lock of the cache, the end of an audit worker), never by giving up, a
    step is always possible (the device, the clocks and the audit sink answer what they are asked) until every request has returned, no audit worker is under way and every permit, waiter,
    gate and lock is free again: there is no deadlock and no guard leaks. Such a completion exists. *)
Theorem requests_complete s :
  reachable definition_size json_pointer d s ->
  Acc (fun s2 s1 => serves s1 s2) s
  /\ (forall s', rtc progress s s' -> (exists s'', progress s' s'') \/ settled s')
  /\ exists s', rtc progress s s' /\ settled s'.
Proof.
  intros Hs. pose proof (serves_finite s) as Hfin. split; [exact Hfin |]. split.
  - intros s' Hrtc. apply progress_or_settled. by eapply progress_reachable.
  - induction Hfin as [s _ IH]. destruct (progress_or_settled s Hs) as [(s1 & Hp) | Hset]; [| by exists s].
    destruct (IH s1 (progress_serves s s1 Hp)) as (s' & Hrtc & Hset); [eapply reachable_step; [exact Hs | by apply progress_serves] |].
    exists s'. split; [by eapply rtc_l | done].
Qed.
End parallel.

(** ** A concrete server *)
Definition demo_arrival : request unit := do! _ := demo_request in Ret tt.
(** One request, up to the hand-over of its start event. *)
Definition demo_server : Server :=
  Nat.iter 8 (step_request demo_oracle 0)
    {| sv_shared := Shared_new Limits_default; sv_requests := {[0%nat := {| rq_left := demo_arrival; rq_trace := [] |}]} |}.

Lemma demo_reachable : reachable demo_size pointer_of demo_dispatcher demo_server.
Proof.
  unfold demo_server. assert (reachable demo_size pointer_of demo_dispatcher
    {| sv_shared := Shared_new Limits_default; sv_requests := {[0%nat := {| rq_left := demo_arrival; rq_trace := [] |}]} |}) as H0.
  { eapply reachable_step; [apply reachable_new |]. eapply request_arrives; [done |]. left. by exists "device_status"%string, demo_input. }
  revert H0. generalize 8%nat. intros n H0. induction n as [| n IH]; [exact H0 |]. cbn [Nat.iter]. by apply step_request_reachable.
Qed.

Definition demo_start : AuditEvent :=
  {| a_kind := KInvocation; a_timestamp_ms := 1000; a_sequence := 1; a_phase := PStart; a_operation := "device_status";
     a_outcome := OAttempt; a_duration_ms := None |}.
(** The sink refuses the event. *)
Definition demo_refused : Server :=
  {| sv_shared := with_sink (sh_sink (sv_shared demo_server) ++ [(demo_start, Err AuditUnavailable)])
                    (with_worker 0%nat (Wrote (Err AuditUnavailable)) (sv_shared demo_server));
     sv_requests := sv_requests demo_server |}.

Lemma demo_refused_reachable : reachable demo_size pointer_of demo_dispatcher demo_refused.
Proof.
  eapply reachable_step; [exact demo_reachable |]. apply worker_runs, worker_writes. vm_compute. reflexivity.
Qed.

Lemma concurrency_bounded_witness :
  (count (fun rq => next_call rq device_call) (sv_requests demo_server) <= Z.to_nat (max_concurrent (d_limits demo_dispatcher)))%nat
  /\ size (sv_requests demo_server) = 1%nat.
Proof.
  split; [| vm_compute; reflexivity].
  destruct (concurrency_bounded demo_size pointer_of demo_dispatcher demo_server demo_reachable) as [H _]. exact H.
Defined.

Lemma audit_failure_final_witness :
  sh_sink (sv_shared demo_refused) !! 0%nat = Some (demo_start, Err AuditUnavailable) /\ 1%nat = length (sh_sink (sv_shared demo_refused)).
Proof.
  assert (sh_sink (sv_shared demo_refused) !! 0%nat = Some (demo_start, Err AuditUnavailable)) as Hs by (vm_compute; reflexivity).
  split; [exact Hs |]. exact (audit_failure_final demo_size pointer_of demo_dispatcher demo_refused _ _ _ demo_refused_reachable Hs).
Defined.

Lemma requests_complete_witness :
  exists s', rtc progress demo_server s' /\ settled demo_dispatcher s' /\ size (sv_requests demo_server) = 1%nat.
Proof.
  destruct (requests_complete demo_size pointer_of demo_dispatcher demo_server demo_reachable) as (_ & _ & s' & Hrtc & Hset).
  exists s'. split; [exact Hrtc |]. split; [exact Hset | vm_compute; reflexivity].
Defined.
