(* ===== verification/Sealing.v ===== *)
(** * Sealing a backup archive

    [crates/runtime/src/sealing/]: a source stream is checked and encrypted
    into a private stage that is published only at the end.  Source, checker,
    stage and clock are ports; the cipher is a finite strategy that reads and
    writes through the checked streams.  A panic of a port is not modelled. *)
From S2P Require Import Prelude Program.
Open Scope Z_scope.

Definition CHUNK : Z := 65536.

(** ** Data *)
Record SealLimits : Type := { l_source_bytes : Z; l_ciphertext_bytes : Z; l_timeout_ms : Z }.
Definition SealLimits_default : SealLimits :=
  {| l_source_bytes := 67108864; l_ciphertext_bytes := 68157440; l_timeout_ms := 30000 |}.

Inductive SealFailure : Type :=
| InvalidLimits | StageUnsupported | SourceRead | SourceCompletion | Check | Cipher | StageWrite | StageFlush
| SourceLimit | CiphertextLimit | InvalidIoCount | ZeroWrite | IncompleteInput | EmptyStream | CountMismatch
| InvalidSummary | Deadline | ClockReversed | PublicationNotConfirmed.

Definition seal_limits_validate (l : SealLimits) : result SealFailure unit :=
  fail_if (l_source_bytes l =? 0) || (75497472 <? l_source_bytes l) || (l_ciphertext_bytes l =? 0)
       || (76546048 <? l_ciphertext_bytes l) || (l_timeout_ms l =? 0) || (300000 <? l_timeout_ms l) with InvalidLimits in
  Ok tt.

Record CheckCounts : Type := { k_source_bytes : Z; k_expanded_bytes : Z; k_payload_bytes : Z; k_files : Z }.
Definition check_counts_validate (c : CheckCounts) (source : Z) : result SealFailure unit :=
  fail_if negb (k_source_bytes c =? source) with CountMismatch in
  fail_if (k_files c =? 0) || (4096 <? k_files c) || (k_expanded_bytes c =? 0) || (75497472 <? k_expanded_bytes c)
       || (67108864 <? k_payload_bytes c) || (k_expanded_bytes c <? k_payload_bytes c) with InvalidSummary in
  Ok tt.

Record CipherCounts : Type := { input_bytes : Z; output_bytes : Z }.
Record SealedCounts : Type := {
  z_source_bytes : Z; z_ciphertext_bytes : Z; z_expanded_bytes : Z; z_payload_bytes : Z; z_files : Z
}.
Record StageCapabilities : Type := { private_staging : bool; atomic_publication : bool; durability : bool }.
Inductive PublishOutcome : Type := OutPublished | OutNotPublished | OutUnknown.
Inductive Publication : Type := NotAttempted | NotPublished | Published | PublicationUnknown.
Inductive CleanupOutcome : Type := OutCleaned | OutCleanupUnknown.
Inductive Cleanup : Type := NotRequired | Cleaned | CleanupUnknown.
Definition cleanup_of (o : CleanupOutcome) : Cleanup := match o with OutCleaned => Cleaned | OutCleanupUnknown => CleanupUnknown end.
Definition publication_of (o : PublishOutcome) : Publication :=
  match o with OutPublished => Published | OutNotPublished => NotPublished | OutUnknown => PublicationUnknown end.

Record SealFailureReport : Type := {
  cause : SealFailure; publication : Publication; source_cleanup : Cleanup; stage_cleanup : Cleanup
}.

(** ** Ports *)
Inductive SealCall : Type :=
| ClockNow
| SourceBytes (size : Z) | SourceComplete | SourceCancel
| CheckFeed (bytes : list Z) | CheckFinish
| StageCaps | StageBytes (bytes : list Z) | StageSync | StagePublish (counts : SealedCounts) | StageAbort.

(** [None] is the port's error.  A read answers the bytes it put in the buffer;
    more bytes than the buffer stand for a count that is too large. *)
Definition SealAnswer (c : SealCall) : Type :=
  match c with
  | ClockNow => Z
  | SourceBytes _ => option (list Z)
  | SourceComplete => option Z
  | SourceCancel | StageAbort => CleanupOutcome
  | CheckFeed _ | StageSync => option unit
  | CheckFinish => option CheckCounts
  | StageCaps => StageCapabilities
  | StageBytes _ => option nat
  | StagePublish _ => PublishOutcome
  end.
Notation sealing := (prog SealAnswer).
Notation seal_call := (Program.call (Answer := SealAnswer)).

(** What a cipher does next with its reader and its writer. *)
Inductive cipher : Type :=
| CipherDone (r : option CipherCounts)
| CipherRead (size : nat) (k : option (list Z) -> cipher)
| CipherWrite (bytes : list Z) (k : option Z -> cipher)
| CipherFlush (k : option unit -> cipher).

(** ** State: the budget, both streams and the guard *)
Record Seal : Type := {
  b_start : Z; b_last : Z; b_error : option SealFailure;
  in_count : Z; in_eof : bool; out_count : Z;
  source_complete : bool; source_cancelled : bool; stage_aborted : bool;
  g_publication : Publication; g_source_cleanup : Cleanup; g_stage_cleanup : Cleanup
}.

Definition with_budget (last : Z) (error : option SealFailure) (s : Seal) : Seal :=
  {| b_start := b_start s; b_last := last; b_error := error; in_count := in_count s; in_eof := in_eof s; out_count := out_count s;
     source_complete := source_complete s; source_cancelled := source_cancelled s; stage_aborted := stage_aborted s;
     g_publication := g_publication s; g_source_cleanup := g_source_cleanup s; g_stage_cleanup := g_stage_cleanup s |}.
Definition with_input (count : Z) (eof : bool) (s : Seal) : Seal :=
  {| b_start := b_start s; b_last := b_last s; b_error := b_error s; in_count := count; in_eof := eof; out_count := out_count s;
     source_complete := source_complete s; source_cancelled := source_cancelled s; stage_aborted := stage_aborted s;
     g_publication := g_publication s; g_source_cleanup := g_source_cleanup s; g_stage_cleanup := g_stage_cleanup s |}.
Definition with_output (count : Z) (s : Seal) : Seal :=
  {| b_start := b_start s; b_last := b_last s; b_error := b_error s; in_count := in_count s; in_eof := in_eof s; out_count := count;
     source_complete := source_complete s; source_cancelled := source_cancelled s; stage_aborted := stage_aborted s;
     g_publication := g_publication s; g_source_cleanup := g_source_cleanup s; g_stage_cleanup := g_stage_cleanup s |}.
Definition with_completion (complete : bool) (s : Seal) : Seal :=
  {| b_start := b_start s; b_last := b_last s; b_error := b_error s; in_count := in_count s; in_eof := in_eof s; out_count := out_count s;
     source_complete := complete; source_cancelled := source_cancelled s; stage_aborted := stage_aborted s;
     g_publication := g_publication s; g_source_cleanup := g_source_cleanup s; g_stage_cleanup := g_stage_cleanup s |}.
Definition with_publication (p : Publication) (s : Seal) : Seal :=
  {| b_start := b_start s; b_last := b_last s; b_error := b_error s; in_count := in_count s; in_eof := in_eof s; out_count := out_count s;
     source_complete := source_complete s; source_cancelled := source_cancelled s; stage_aborted := stage_aborted s;
     g_publication := p; g_source_cleanup := g_source_cleanup s; g_stage_cleanup := g_stage_cleanup s |}.
Definition with_cancelled (c : Cleanup) (s : Seal) : Seal :=
  {| b_start := b_start s; b_last := b_last s; b_error := b_error s; in_count := in_count s; in_eof := in_eof s; out_count := out_count s;
     source_complete := source_complete s; source_cancelled := true; stage_aborted := stage_aborted s;
     g_publication := g_publication s; g_source_cleanup := c; g_stage_cleanup := g_stage_cleanup s |}.
Definition with_aborted (c : Cleanup) (s : Seal) : Seal :=
  {| b_start := b_start s; b_last := b_last s; b_error := b_error s; in_count := in_count s; in_eof := in_eof s; out_count := out_count s;
     source_complete := source_complete s; source_cancelled := source_cancelled s; stage_aborted := true;
     g_publication := g_publication s; g_source_cleanup := g_source_cleanup s; g_stage_cleanup := c |}.

(** Steps on the state that may fail. *)
Definition SP (A : Type) : Type := Seal -> sealing (Seal * result SealFailure A).
Definition sp_ret {A} (a : A) : SP A := fun s => Ret (s, Ok a).
Definition sp_err {A} (e : SealFailure) : SP A := fun s => Ret (s, Err e).
Definition sp_bind {A B} (m : SP A) (f : A -> SP B) : SP B := fun s =>
  pbind (m s) (fun p => match p with (s, Ok a) => f a s | (s, Err e) => Ret (s, Err e) end).
Definition sp_call (c : SealCall) : SP (SealAnswer c) := fun s => pbind (seal_call c) (fun x => Ret (s, Ok x)).
Definition sp_state (f : Seal -> Seal) : SP unit := fun s => Ret (f s, Ok tt).
Definition sp_get {A} (f : Seal -> A) : SP A := fun s => Ret (s, Ok (f s)).
Notation "'let&' x ':=' p 'in' k" := (sp_bind p (fun x => k))
  (at level 10, x pattern, p at level 100, k at level 200, format "'[v' 'let&'  x  ':='  p  'in' '/' k ']'") : rust_scope.

(** ** The budget *)

(** [fail] keeps the first error. *)
Definition budget_fail {A} (e : SealFailure) : SP A := fun s =>
  let first := default e (b_error s) in Ret (with_budget (b_last s) (Some first) s, Err first).

Section workflow.
Context (limits : SealLimits).

Definition budget_check : SP unit := fun s =>
  match b_error s with
  | Some e => Ret (s, Err e)
  | None =>
      do! now := seal_call ClockNow in
      if now <? b_last s then budget_fail ClockReversed s
      else
        let s := with_budget now (b_error s) s in
        if l_timeout_ms limits <=? now - b_start s then budget_fail Deadline s else Ret (s, Ok tt)
  end.

(** [budget.after(result.map_err(|_| e))] *)
Definition budget_after {A} (e : SealFailure) (r : option A) : SP A :=
  match r with
  | None => budget_fail e
  | Some a => let& _ := budget_check in sp_ret a
  end.

(** ** The checked reader *)
Definition checked_read (size : Z) : SP (list Z) :=
  let& _ := budget_check in
  let& count := sp_get in_count in
  let& eof := sp_get in_eof in
  if (size =? 0) || eof then sp_ret []
  else if count =? l_source_bytes limits then
    let& r := sp_call (SourceBytes 1) in
    let& bytes := budget_after SourceRead r in
    if 1 <? zlen bytes then budget_fail InvalidIoCount
    else if negb (zlen bytes =? 0) then budget_fail SourceLimit
    else let& _ := sp_state (with_input count true) in sp_ret []
  else
    let size := Z.min (Z.min size CHUNK) (l_source_bytes limits - count) in
    let& r := sp_call (SourceBytes size) in
    let& bytes := budget_after SourceRead r in
    if size <? zlen bytes then budget_fail InvalidIoCount
    else if zlen bytes =? 0 then let& _ := sp_state (with_input count true) in sp_ret []
    else
      match checked_add count (zlen bytes) with
      | None => budget_fail SourceLimit
      | Some total =>
          let& fed := sp_call (CheckFeed bytes) in
          let& _ := budget_after Check fed in
          let& _ := sp_state (with_input total false) in
          sp_ret bytes
      end.

(** ** The counted writer *)
Definition counted_write (input : list Z) : SP Z :=
  let& _ := budget_check in
  let& count := sp_get out_count in
  match input with
  | [] => sp_ret 0
  | _ :: _ =>
      if count =? l_ciphertext_bytes limits then budget_fail CiphertextLimit
      else
        let size := Z.min (Z.min (zlen input) CHUNK) (l_ciphertext_bytes limits - count) in
        let& r := sp_call (StageBytes (take (Z.to_nat size) input)) in
        let& written := budget_after StageWrite (Z.of_nat <$> r) in
        if size <? written then budget_fail InvalidIoCount
        else if written =? 0 then budget_fail ZeroWrite
        else
          match checked_add count written with
          | None => budget_fail CiphertextLimit
          | Some total => let& _ := sp_state (with_output total) in sp_ret written
          end
  end.

Definition counted_flush : SP unit :=
  let& _ := budget_check in
  let& r := sp_call StageSync in
  budget_after StageFlush r.

(** The cipher sees an error of its streams as such and goes on. *)
Definition attempt {A} (m : SP A) : SP (option A) := fun s =>
  do! p := m s in
  match p with
  | (s, Ok a) => Ret (s, Ok (Some a))
  | (s, Err _) => Ret (s, Ok None)
  end.

Fixpoint encrypt (c : cipher) : SP (option CipherCounts) :=
  match c with
  | CipherDone r => sp_ret r
  | CipherRead size k => let& r := attempt (checked_read (Z.of_nat size)) in encrypt (k r)
  | CipherWrite bytes k => let& r := attempt (counted_write bytes) in encrypt (k r)
  | CipherFlush k => let& r := attempt counted_flush in encrypt (k r)
  end.

(** ** The workflow *)
Definition fail_when (b : bool) (e : SealFailure) : SP unit := if b then sp_err e else sp_ret tt.
Definition lift {A} (r : result SealFailure A) : SP A := match r with Ok a => sp_ret a | Err e => sp_err e end.

Definition run_cipher (c : cipher) : SP (Z * Z) :=
  let& r := encrypt c in
  let& reported := budget_after Cipher r in
  let& eof := sp_get in_eof in
  let& _ := fail_when (negb eof) IncompleteInput in
  let& input_count := sp_get in_count in
  let& output_count := sp_get out_count in
  let& _ := fail_when ((input_count =? 0) || (output_count =? 0)) EmptyStream in
  let& _ := fail_when (negb (input_bytes reported =? input_count) || negb (output_bytes reported =? output_count)) CountMismatch in
  sp_ret (input_count, output_count).

Definition complete_source (input_count : Z) : SP unit :=
  let& completed := sp_call SourceComplete in
  let& _ := sp_state (with_completion (match completed with Some _ => true | None => false end)) in
  let& completed := budget_after SourceCompletion completed in
  fail_when (negb (completed =? input_count)) CountMismatch.

Definition run (c : cipher) : SP SealedCounts :=
  let& _ := budget_check in
  let& caps := sp_call StageCaps in
  let& _ := budget_check in
  let& _ := fail_when (negb (private_staging caps) || negb (atomic_publication caps) || negb (durability caps)) StageUnsupported in
  let& _ := budget_check in
  let& counted := run_cipher c in
  let '(input_count, output_count) := counted in
  let& _ := budget_check in
  let& checked := sp_call CheckFinish in
  let& summary := budget_after Check checked in
  let& _ := lift (check_counts_validate summary input_count) in
  let& _ := budget_check in
  let& _ := complete_source input_count in
  let& _ := budget_check in
  let& flushed := sp_call StageSync in
  let& _ := budget_after StageFlush flushed in
  let counts := {| z_source_bytes := input_count; z_ciphertext_bytes := output_count; z_expanded_bytes := k_expanded_bytes summary;
                   z_payload_bytes := k_payload_bytes summary; z_files := k_files summary |} in
  let& _ := budget_check in
  let& _ := sp_state (with_publication PublicationUnknown) in
  let& outcome := sp_call (StagePublish counts) in
  let& _ := sp_state (with_publication (publication_of outcome)) in
  let& _ := budget_check in
  let& _ := fail_when (match outcome with OutPublished => false | _ => true end) PublicationNotConfirmed in
  sp_ret counts.

(** [Guard::cleanup], by the workflow and again when the guard is dropped. *)
Definition cleanup (s : Seal) : sealing Seal :=
  do! s := (if negb (source_complete s) && negb (source_cancelled s)
            then do! o := seal_call SourceCancel in Ret (with_cancelled (cleanup_of o) s) else Ret s) in
  if negb (stage_aborted s) && match g_publication s with NotAttempted | NotPublished => true | _ => false end
  then do! o := seal_call StageAbort in Ret (with_aborted (cleanup_of o) s) else Ret s.

Definition Seal_new (start : Z) : Seal :=
  {| b_start := start; b_last := start; b_error := None; in_count := 0; in_eof := false; out_count := 0;
     source_complete := false; source_cancelled := false; stage_aborted := false;
     g_publication := NotAttempted; g_source_cleanup := NotRequired; g_stage_cleanup := NotRequired |}.

Definition seal_with_clock (c : cipher) : sealing (result SealFailureReport SealedCounts) :=
  do! start := seal_call ClockNow in
  do! p := run c (Seal_new start) in
  let '(s, r) := p in
  match r with
  | Ok counts => do! _ := cleanup s in Ret (Ok counts)
  | Err e =>
      do! s := cleanup s in
      let report := {| cause := e; publication := g_publication s; source_cleanup := g_source_cleanup s;
                       stage_cleanup := g_stage_cleanup s |} in
      do! _ := cleanup s in
      Ret (Err report)
  end.
End workflow.

(** [ArchiveSealer::new] *)
Definition ArchiveSealer_new (limits : SealLimits) : result SealFailure SealLimits :=
  let? _ := seal_limits_validate limits in Ok limits.
