(* ===== verification/Sealed.v ===== *)
(** * What sealing guarantees

    A monitor of the sealing ports: bytes reach the stage only after the
    checker accepted everything read so far, publication comes last and once,
    and a failed run is cleaned up exactly as far as that is safe. *)
From S2P Require Import Prelude Json Program Sealing.
Open Scope Z_scope.

Record SMon : Type := SMk {
  sm_read : list Z; sm_fed : list Z; sm_refused : bool; sm_eof : bool; sm_written : list Z; sm_synced : bool;
  sm_caps : option StageCapabilities; sm_summary : option CheckCounts; sm_completed : option Z;
  sm_published : list (SealedCounts * PublishOutcome); sm_cancels : list CleanupOutcome; sm_aborts : list CleanupOutcome
}.
Definition SMon_new : SMon := SMk [] [] false false [] false None None None [] [] [].

Definition sstep (m : SMon) (ev : event SealAnswer) : SMon :=
  let '(SMk rd fd rf eof wr sy caps su co pu ca ab) := m in
  match ev with
  | Event c x =>
      match c return SealAnswer c -> SMon with
      | ClockNow => fun _ => m
      | SourceBytes _ => fun r =>
          match r with
          | Some bytes => SMk (rd ++ bytes) fd rf (eof || bool_decide (bytes = [])) wr sy caps su co pu ca ab
          | None => m
          end
      | SourceComplete => fun r => SMk rd fd rf eof wr sy caps su r pu ca ab
      | SourceCancel => fun o => SMk rd fd rf eof wr sy caps su co pu (ca ++ [o]) ab
      | CheckFeed bytes => fun r =>
          match r with
          | Some _ => SMk rd (fd ++ bytes) rf eof wr sy caps su co pu ca ab
          | None => SMk rd fd true eof wr sy caps su co pu ca ab
          end
      | CheckFinish => fun r => SMk rd fd rf eof wr sy caps r co pu ca ab
      | StageCaps => fun r => SMk rd fd rf eof wr sy (Some r) su co pu ca ab
      | StageBytes bytes => fun r =>
          match r with Some n => SMk rd fd rf eof (wr ++ take n bytes) false caps su co pu ca ab | None => m end
      | StageSync => fun r => SMk rd fd rf eof wr (match r with Some _ => true | None => sy end) caps su co pu ca ab
      | StagePublish counts => fun o => SMk rd fd rf eof wr sy caps su co (pu ++ [(counts, o)]) ca ab
      | StageAbort => fun o => SMk rd fd rf eof wr sy caps su co pu ca (ab ++ [o])
      end x
  end.

(** What a cipher can do with streams that do not fail: read [rd], have [wr]
    accepted and finish with [r]. *)
Inductive ciphered : cipher -> list Z -> list Z -> option CipherCounts -> Prop :=
| ciphered_done r : ciphered (CipherDone r) [] [] r
| ciphered_read size k bytes rd wr r :
    (length bytes <= size)%nat -> ciphered (k (Some bytes)) rd wr r -> ciphered (CipherRead size k) (bytes ++ rd) wr r
| ciphered_write bytes k n rd wr r :
    (n <= length bytes)%nat -> ciphered (k (Some (Z.of_nat n))) rd wr r -> ciphered (CipherWrite bytes k) rd (take n bytes ++ wr) r
| ciphered_flush k rd wr r : ciphered (k (Some tt)) rd wr r -> ciphered (CipherFlush k) rd wr r.

Section sealed.
Context (limits : SealLimits) (encryptor : cipher).

Definition strong (c : option StageCapabilities) : Prop :=
  c = Some {| private_staging := true; atomic_publication := true; durability := true |}.

(** When a published archive is one: read to its end, wholly accepted by the
    checker, completed by its producer, encrypted, synchronized and counted. *)
Definition publishable (m : SMon) (counts : SealedCounts) : Prop :=
  strong (sm_caps m) /\ sm_eof m = true /\ sm_fed m = sm_read m /\ sm_completed m = Some (zlen (sm_read m)) /\ sm_synced m = true
  /\ 0 < zlen (sm_read m) <= l_source_bytes limits /\ 0 < zlen (sm_written m) <= l_ciphertext_bytes limits
  /\ (exists r, ciphered encryptor (sm_read m) (sm_written m) (Some r))
  /\ sm_refused m = false /\ exists summary, sm_summary m = Some summary /\ check_counts_validate summary (zlen (sm_read m)) = Ok tt
       /\ counts = {| z_source_bytes := zlen (sm_read m); z_ciphertext_bytes := zlen (sm_written m);
                      z_expanded_bytes := k_expanded_bytes summary; z_payload_bytes := k_payload_bytes summary; z_files := k_files summary |}.

(** Publication definitely did not happen. *)
Definition unpublished (m : SMon) : Prop := sm_published m = [] \/ exists counts, sm_published m = [(counts, OutNotPublished)].

Definition sok (m : SMon) (c : SealCall) : Prop :=
  match c with
  | SourceBytes size => 0 < size <= CHUNK /\ sm_eof m = false /\ sm_fed m = sm_read m
      /\ zlen (sm_read m) + size <= l_source_bytes limits + 1 /\ sm_published m = []
  | CheckFeed bytes => sm_refused m = false /\ sm_read m = sm_fed m ++ bytes /\ bytes <> [] /\ zlen bytes <= CHUNK
  | StageBytes bytes => sm_fed m = sm_read m /\ bytes <> [] /\ zlen bytes <= CHUNK
      /\ zlen (sm_written m) + zlen bytes <= l_ciphertext_bytes limits /\ strong (sm_caps m) /\ sm_published m = [] /\ sm_aborts m = []
  | StageSync => sm_published m = [] /\ sm_aborts m = []
  | SourceComplete => sm_eof m = true /\ sm_fed m = sm_read m /\ sm_cancels m = [] /\ is_some (sm_summary m) = true
  | CheckFinish => sm_refused m = false /\ sm_eof m = true /\ sm_fed m = sm_read m
  | StagePublish counts => sm_published m = [] /\ sm_aborts m = [] /\ publishable m counts
  | SourceCancel => sm_cancels m = [] /\ sm_completed m = None
  | StageAbort => sm_aborts m = [] /\ unpublished m
  | _ => True
  end.

Abbreviation Wp := (wp sstep sok).

(** ** The budget *)
Lemma sp_bind_wp {A B} (p : SP A) (f : A -> SP B) s m (Q : Seal * result SealFailure B -> SMon -> Prop) :
  Wp (p s) m (fun r m => match r with (s, Ok a) => Wp (f a s) m Q | (s, Err e) => Q (s, Err e) m end) -> Wp (sp_bind p f s) m Q.
Proof. intros Hp. unfold sp_bind. apply wp_seq. eapply wp_mono; [exact Hp |]. by intros [s' [a | e]] m'. Qed.

Lemma with_budget_id s : with_budget (b_last s) (b_error s) s = s.
Proof. by destruct s. Qed.

Lemma budget_check_wp s m (Q : Seal * result SealFailure unit -> SMon -> Prop) :
  (forall l e, Q (with_budget l (Some e) s, Err e) m) -> (forall l, b_error s = None -> Q (with_budget l None s, Ok tt) m) ->
  Wp (budget_check limits s) m Q.
Proof.
  intros He HQ. unfold budget_check. destruct (b_error s) as [e |] eqn:Eb.
  { cbn [wp]. rewrite <- (with_budget_id s), Eb. apply He. }
  cbn [pbind Program.call]. split; [done |]. intros now.
  assert (sstep m (Event ClockNow now) = m) as -> by by destruct m.
  destruct (now <? b_last s); [cbn; rewrite Eb; apply He |].
  destruct (_ <=? _); [cbn; rewrite ?Eb; by apply He | cbn; by apply HQ].
Qed.

Lemma budget_fail_wp {A} e s m (Q : Seal * result SealFailure A -> SMon -> Prop) :
  (forall l e', Q (with_budget l (Some e') s, Err e') m) -> Wp (budget_fail e s) m Q.
Proof. intros HQ. apply HQ. Qed.

Lemma budget_after_wp {A} e (r : option A) s m (Q : Seal * result SealFailure A -> SMon -> Prop) :
  (forall l e', Q (with_budget l (Some e') s, Err e') m) ->
  (forall l a, r = Some a -> b_error s = None -> Q (with_budget l None s, Ok a) m) ->
  Wp (budget_after limits e r s) m Q.
Proof.
  intros He HQ. destruct r as [a |]; cbn [budget_after]; [| by apply budget_fail_wp].
  apply sp_bind_wp, budget_check_wp; [done |]. intros l Hb. by apply HQ.
Qed.

Lemma sp_call_wp c s m (Q : Seal * result SealFailure (SealAnswer c) -> SMon -> Prop) :
  sok m c -> (forall x, Q (s, Ok x) (sstep m (Event c x))) -> Wp (sp_call c s) m Q.
Proof. intros Hc HQ. split; [done | exact HQ]. Qed.

(** ** The streams *)

(** Nothing has been decided yet. *)
Definition undecided (s : Seal) (m : SMon) : Prop :=
  (source_complete s = false /\ source_cancelled s = false /\ stage_aborted s = false /\ g_publication s = NotAttempted
   /\ g_source_cleanup s = NotRequired /\ g_stage_cleanup s = NotRequired)
  /\ sm_completed m = None /\ sm_published m = [] /\ sm_cancels m = [] /\ sm_aborts m = [].

(** The counters are those of the ports. *)
Definition insync (s : Seal) (m : SMon) : Prop :=
  sm_fed m = sm_read m /\ sm_refused m = false /\ in_count s = zlen (sm_read m) /\ in_eof s = sm_eof m /\ out_count s = zlen (sm_written m)
  /\ zlen (sm_read m) <= l_source_bytes limits /\ zlen (sm_written m) <= l_ciphertext_bytes limits /\ strong (sm_caps m).

Definition encrypting (s : Seal) (m : SMon) : Prop := undecided s m /\ (b_error s = None -> insync s m).

Lemma undecided_budget l e s m : undecided s m -> undecided (with_budget l e s) m.
Proof. done. Qed.
Lemma encrypting_error l e s m : undecided s m -> encrypting (with_budget l (Some e) s) m.
Proof. by split. Qed.
Lemma encrypting_budget l s m : encrypting s m -> b_error s = None -> encrypting (with_budget l None s) m.
Proof. intros [Hu Hs] Hb. split; [done |]. intros _. exact (Hs Hb). Qed.

Ltac sstepped := repeat match goal with m : SMon |- _ => destruct m end;
  cbn [sstep sm_read sm_fed sm_refused sm_eof sm_written sm_synced sm_caps sm_summary sm_completed sm_published sm_cancels sm_aborts sok] in *.

(** What the streams gained, unless something failed. *)
Definition grew (s : Seal) (m : SMon) (P : list Z -> list Z -> Prop) (s' : Seal) (m' : SMon) : Prop :=
  b_error s' = None -> b_error s = None
  /\ exists rd wr, sm_read m' = sm_read m ++ rd /\ sm_written m' = sm_written m ++ wr /\ P rd wr.

Lemma grew_error s m P l e s' m' : grew s m P (with_budget l (Some e) s') m'.
Proof. done. Qed.
Lemma grew_same s m (P : list Z -> list Z -> Prop) s' m' :
  b_error s = None -> sm_read m' = sm_read m -> sm_written m' = sm_written m -> P [] [] -> grew s m P s' m'.
Proof. intros Hb E1 E2 HP _. split; [done |]. exists [], []. by rewrite !app_nil_r. Qed.

Definition read_result (size : Z) (r : result SealFailure (list Z)) (rd wr : list Z) : Prop := r = Ok rd /\ zlen rd <= size /\ wr = [].
Definition write_result (input : list Z) (r : result SealFailure Z) (rd wr : list Z) : Prop :=
  rd = [] /\ exists n, r = Ok (Z.of_nat n) /\ (n <= length input)%nat /\ wr = take n input.
Definition flush_result (r : result SealFailure unit) (rd wr : list Z) : Prop := r = Ok tt /\ rd = [] /\ wr = [].

Lemma checked_read_wp size s m (Q : Seal * result SealFailure (list Z) -> SMon -> Prop) :
  encrypting s m -> 0 <= size -> (forall s' r m', encrypting s' m' -> grew s m (read_result size r) s' m' -> Q (s', r) m') ->
  Wp (checked_read limits size s) m Q.
Proof.
  intros He Hsize HQ. assert (Hfail : forall l e s' r m', undecided s' m' -> Q (with_budget l (Some e) s', r) m')
    by (intros; by apply HQ; [apply encrypting_error | apply grew_error]).
  unfold checked_read. apply sp_bind_wp, budget_check_wp; [intros; apply Hfail, He |].
  intros l Hb. cbn [sp_bind sp_get pbind in_count in_eof with_budget].
  pose proof (encrypting_budget l s m He Hb) as He'. destruct He as [Hu Hs]. specialize (Hs Hb) as (Hf & Hrf & Hi & Hy & Ho & Hl & Hw & Hc).
  destruct (_ || _) eqn:E0; [by apply HQ; [| apply grew_same] |]. apply orb_false_iff in E0 as [Hz Hy0].
  destruct (in_count s =? l_source_bytes limits) eqn:E1.
  - apply sp_bind_wp, sp_call_wp.
    { cbn. rewrite Hy in Hy0. unfold CHUNK. destruct Hu as (_ & _ & Hp & _). repeat split; try done; lia. }
    intros r. apply sp_bind_wp, budget_after_wp; [intros; apply Hfail; destruct r; sstepped; apply Hu |].
    intros l' bytes -> _. destruct (1 <? zlen bytes) eqn:E2; [apply Hfail; sstepped; apply Hu |].
    destruct (negb _) eqn:E3; [apply Hfail; sstepped; apply Hu |].
    apply negb_false_iff, Z.eqb_eq in E3. destruct bytes; [| cbn [length] in *; lia].
    cbn [sp_bind sp_state pbind sp_ret wp]. apply HQ; [split; [sstepped; apply Hu |] | apply grew_same; sstepped; by rewrite ?app_nil_r].
    intros _. sstepped. unfold insync. cbn. rewrite app_nil_r, orb_true_r. done.
  - apply sp_bind_wp, sp_call_wp.
    { cbn. rewrite Hy in Hy0. unfold CHUNK. destruct Hu as (_ & _ & Hp & _). repeat split; try done; lia. }
    intros r. apply sp_bind_wp, budget_after_wp; [intros; apply Hfail; destruct r; sstepped; apply Hu |].
    intros l' bytes -> _. destruct (_ <? zlen bytes) eqn:E2; [apply Hfail; sstepped; apply Hu |]. apply Z.ltb_ge in E2.
    destruct (zlen bytes =? 0) eqn:E3.
    { apply Z.eqb_eq in E3. cbn [sp_bind sp_state pbind sp_ret wp]. destruct bytes; [| cbn [length] in *; lia].
      apply HQ; [split; [sstepped; apply Hu |] | apply grew_same; sstepped; by rewrite ?app_nil_r].
      intros _. sstepped. unfold insync. cbn. rewrite app_nil_r, orb_true_r. done. }
    assert (Hne : bytes <> []) by (intros ->; apply Z.eqb_neq in E3; by apply E3).
    destruct (checked_add _ _) as [total |] eqn:Ea; [| apply Hfail; sstepped; apply Hu].
    apply checked_add_Some in Ea as [-> _]. apply sp_bind_wp, sp_call_wp.
    { sstepped. subst. split; [done |]. split; [done |]. split; [done | unfold CHUNK in *; lia]. }
    intros fed. apply sp_bind_wp, budget_after_wp; [intros; apply Hfail; destruct fed; sstepped; apply Hu |].
    intros l2 [] -> _. cbn [sp_bind sp_state pbind sp_ret wp]. apply HQ; [split; [sstepped; apply Hu |] |].
    + intros _. sstepped. unfold insync. cbn. rewrite Hy in Hy0. rewrite length_app, Nat2Z.inj_add, Hf, Hi, Hy0.
      rewrite (bool_decide_false _ Hne). repeat split; first [done | lia].
    + intros _. split; [done |]. exists bytes, []. sstepped. rewrite app_nil_r. split; [done |]. split; [done |].
      split; [done |]. split; [unfold CHUNK in *; lia | done].
Qed.

Lemma counted_write_wp input s m (Q : Seal * result SealFailure Z -> SMon -> Prop) :
  encrypting s m -> (forall s' r m', encrypting s' m' -> grew s m (write_result input r) s' m' -> Q (s', r) m') ->
  Wp (counted_write limits input s) m Q.
Proof.
  intros He HQ. assert (Hfail : forall l e s' r m', undecided s' m' -> Q (with_budget l (Some e) s', r) m')
    by (intros; by apply HQ; [apply encrypting_error | apply grew_error]).
  unfold counted_write. apply sp_bind_wp, budget_check_wp; [intros; apply Hfail, He |].
  intros l Hb. cbn [sp_bind sp_get pbind out_count with_budget].
  pose proof (encrypting_budget l s m He Hb) as He'. destruct He as [Hu Hs]. specialize (Hs Hb) as (Hf & Hrf & Hi & Hy & Ho & Hl & Hw & Hc).
  destruct input as [| x input]; [apply HQ; [done |]; apply grew_same; try done; split; [done | by exists 0%nat] |].
  destruct (out_count s =? _) eqn:E1; [apply Hfail, Hu |]. set (size := Z.min _ _).
  assert (Hsize : 0 < size <= zlen (x :: input) /\ size <= CHUNK /\ zlen (sm_written m) + size <= l_ciphertext_bytes limits).
  { subst size. rewrite Ho in *. apply Z.eqb_neq in E1. unfold CHUNK. cbn [length]. lia. }
  clearbody size. apply sp_bind_wp, sp_call_wp.
  { cbn [sok]. destruct Hu as (_ & _ & Hp & _ & Ha). rewrite length_take.
    repeat split; try done; [| lia | lia]. destruct (Z.to_nat _) eqn:Ez; [lia | done]. }
  intros r. apply sp_bind_wp, budget_after_wp; [intros; apply Hfail; destruct r; sstepped; apply Hu |].
  intros l' w Hr _. destruct r as [n |]; [injection Hr as <- | done].
  destruct (_ <? Z.of_nat n) eqn:E2; [apply Hfail; sstepped; apply Hu |]. apply Z.ltb_ge in E2.
  destruct (Z.of_nat n =? 0) eqn:E3; [apply Hfail; sstepped; apply Hu |].
  destruct (checked_add _ _) as [total |] eqn:Ea; [| apply Hfail; sstepped; apply Hu].
  assert (take n (take (Z.to_nat size) (x :: input)) = take n (x :: input)) as Ht by (rewrite take_take, Nat.min_l by lia; done).
  apply checked_add_Some in Ea as [-> _]. cbn [sp_bind sp_state pbind sp_ret wp]. apply HQ; [split; [sstepped; apply Hu |] |].
  - intros _. sstepped. unfold insync. cbn [with_output with_budget in_count in_eof out_count]. cbn [sm_read sm_fed sm_refused sm_eof sm_written sm_caps].
    subst. rewrite Ht, length_app, length_take. cbn [length] in *. repeat split; first [done | lia].
  - intros _. split; [done |]. exists [], (take n (x :: input)). sstepped. rewrite app_nil_r, Ht. split; [done |]. split; [done |].
    split; [done |]. exists n. split; [done |]. split; [lia | done].
Qed.

Lemma counted_flush_wp s m (Q : Seal * result SealFailure unit -> SMon -> Prop) :
  encrypting s m -> (forall s' r m', encrypting s' m' -> grew s m (flush_result r) s' m' -> Q (s', r) m') -> Wp (counted_flush limits s) m Q.
Proof.
  intros He HQ. assert (Hfail : forall l e s' r m', undecided s' m' -> Q (with_budget l (Some e) s', r) m')
    by (intros; by apply HQ; [apply encrypting_error | apply grew_error]).
  unfold counted_flush. apply sp_bind_wp, budget_check_wp; [intros; apply Hfail, He |].
  intros l Hb. pose proof (encrypting_budget l s m He Hb) as He'. apply sp_bind_wp, sp_call_wp.
  { destruct He as [(_ & _ & Hp & _ & Ha) _]. done. }
  intros r. apply budget_after_wp; [intros; apply Hfail; sstepped; apply He |].
  intros l' [] -> _. apply HQ; [split; [sstepped; apply He |]; intros _; sstepped; by apply He' | by apply grew_same; sstepped].
Qed.

Definition attempted {A} (r : result SealFailure A) : option A := match r with Ok a => Some a | Err _ => None end.

Lemma attempt_wp {A} (p : SP A) s m (P : result SealFailure A -> list Z -> list Z -> Prop) (Q : Seal * result SealFailure (option A) -> SMon -> Prop) :
  (forall Q, (forall s' r m', encrypting s' m' -> grew s m (P r) s' m' -> Q (s', r) m') -> Wp (p s) m Q) ->
  (forall s' r m', encrypting s' m' -> grew s m (P r) s' m' -> Q (s', Ok (attempted r)) m') -> Wp (attempt p s) m Q.
Proof. intros Hp HQ. unfold attempt. apply wp_seq, Hp. intros s' [a | e] m' He Hg; by apply (HQ s' _ m' He Hg). Qed.

(** A step of the cipher, then the rest. *)
Lemma grew_trans s m P s1 m1 P1 s2 m2 P2 : grew s m P s1 m1 -> grew s1 m1 P1 s2 m2 ->
  (forall rd wr rd' wr', P rd wr -> P1 rd' wr' -> P2 (rd ++ rd') (wr ++ wr')) -> grew s m P2 s2 m2.
Proof.
  intros H1 H2 HP Hb. destruct (H2 Hb) as (Hb1 & rd' & wr' & E1 & E2 & HP'). destruct (H1 Hb1) as (Hb0 & rd & wr & E3 & E4 & HP0).
  split; [done |]. exists (rd ++ rd'), (wr ++ wr'). rewrite E1, E2, E3, E4, !(assoc_L (++)). eauto.
Qed.

Lemma encrypt_wp c s m (Q : Seal * result SealFailure (option CipherCounts) -> SMon -> Prop) :
  encrypting s m ->
  (forall s' r m', encrypting s' m' -> grew s m (fun rd wr => ciphered c rd wr r) s' m' -> Q (s', Ok r) m') -> Wp (encrypt limits c s) m Q.
Proof.
  revert s m Q. induction c as [r | size k IH | bytes k IH | k IH]; intros s m Q He HQ; cbn [encrypt].
  { apply HQ; [done |]. intros Hb. by apply (grew_same s m (fun rd wr => ciphered (CipherDone r) rd wr r) s m Hb eq_refl eq_refl (ciphered_done r)). }
  all: apply sp_bind_wp; eapply attempt_wp;
    [intros Q' HQ'; first [by apply (checked_read_wp (Z.of_nat size)); [| lia |] | by apply (counted_write_wp bytes) | by apply counted_flush_wp] |].
  all: intros s1 r1 m1 He1 Hg1; apply IH; [done |]; intros s2 r2 m2 He2 Hg2; apply HQ; [done |]; eapply grew_trans; [exact Hg1 | exact Hg2 |].
  - intros rd wr rd' wr' (-> & Hl & ->) Hc. apply ciphered_read; [lia | done].
  - intros rd wr rd' wr' (-> & n & -> & Hl & ->) Hc. by apply ciphered_write.
  - intros rd wr rd' wr' (-> & -> & ->) Hc. by apply ciphered_flush.
Qed.

(** ** The workflow *)
Definition publication_seen (l : list (SealedCounts * PublishOutcome)) : Publication :=
  match l with [] => NotAttempted | (_, o) :: _ => publication_of o end.
Definition cleanup_seen (l : list CleanupOutcome) : Cleanup :=
  match l with [] => NotRequired | o :: _ => cleanup_of o end.

(** The guard knows what happened, and nothing is cleaned up yet. *)
Definition guarding (s : Seal) (m : SMon) : Prop :=
  source_complete s = is_some (sm_completed m) /\ g_publication s = publication_seen (sm_published m)
  /\ (length (sm_published m) <= 1)%nat
  /\ source_cancelled s = false /\ sm_cancels m = [] /\ g_source_cleanup s = NotRequired
  /\ stage_aborted s = false /\ sm_aborts m = [] /\ g_stage_cleanup s = NotRequired.

Definition ran (p : Seal * result SealFailure SealedCounts) (m : SMon) : Prop :=
  guarding (fst p) m
  /\ match snd p with Ok counts => sm_published m = [(counts, OutPublished)] /\ is_some (sm_completed m) = true | Err _ => True end.

Lemma undecided_guarding s m : undecided s m -> guarding s m.
Proof.
  intros [(E1 & E2 & E3 & E4 & E5 & E6) (Hc & Hp & Hca & Hab)]. unfold guarding. rewrite E1, E2, E3, E4, E5, E6, Hc, Hp, Hca, Hab.
  cbn. repeat split; lia.
Qed.
Lemma ran_error {e} s m : guarding s m -> ran (s, Err e) m.
Proof. by split. Qed.
Lemma guarding_budget l e s m : guarding s m -> guarding (with_budget l e s) m.
Proof. done. Qed.
Local Hint Resolve undecided_guarding ran_error guarding_budget undecided_budget : sealed.

Lemma fail_when_wp b e s m (Q : Seal * result SealFailure unit -> SMon -> Prop) :
  Q (s, Err e) m -> (b = false -> Q (s, Ok tt) m) -> Wp (fail_when b e s) m Q.
Proof. by destruct b; intros ? HQ; [| apply HQ]. Qed.

(** Read to the end and counted. *)
Definition consumed (s : Seal) (m : SMon) (counted : Z * Z) : Prop :=
  undecided s m /\ insync s m /\ sm_eof m = true /\ counted = (zlen (sm_read m), zlen (sm_written m))
  /\ 0 < zlen (sm_read m) /\ 0 < zlen (sm_written m) /\ exists r, ciphered encryptor (sm_read m) (sm_written m) (Some r).

Lemma run_cipher_wp s m (Q : Seal * result SealFailure (Z * Z) -> SMon -> Prop) :
  encrypting s m -> sm_read m = [] -> sm_written m = [] -> (forall s m e, undecided s m -> Q (s, Err e) m) -> (forall s m r, consumed s m r -> Q (s, Ok r) m) ->
  Wp (run_cipher limits encryptor s) m Q.
Proof.
  intros He Hm1 Hm2 Herr HQ. unfold run_cipher. apply sp_bind_wp, encrypt_wp; [done |]. intros s' r m' [Hu Hs] Hg.
  unfold grew in Hg. rewrite Hm1, Hm2 in Hg. rename s into s0, m into m0, s' into s, m' into m.
  apply sp_bind_wp, budget_after_wp; [auto with sealed |]. intros l rep -> Hb. specialize (Hs Hb). destruct (Hg Hb) as (_ & rd & wr & Erd & Ewr & Hc). cbn [app] in Erd, Ewr. subst rd wr.
  cbn [sp_bind sp_get pbind in_eof with_budget]. apply sp_bind_wp, fail_when_wp; [auto with sealed |]. intros Heof%negb_false_iff.
  cbn [sp_bind sp_get pbind in_count out_count with_budget]. apply sp_bind_wp, fail_when_wp; [auto with sealed |].
  intros [Hi Ho]%orb_false_iff. apply sp_bind_wp, fail_when_wp; [auto with sealed |]. intros _. apply HQ.
  pose proof Hs as (Hf & Hrf & Hic & Hie & Hoc & Hl & Hw & _). rewrite Hic, Hoc in *. rewrite Hie in Heof. apply Z.eqb_neq in Hi, Ho.
  split; [exact Hu |]. split; [exact Hs |]. split; [done |]. split; [done |]. split; [lia |]. split; [lia | by exists rep].
Qed.

Lemma complete_source_wp counted s m (Q : Seal * result SealFailure unit -> SMon -> Prop) :
  consumed s m counted -> is_some (sm_summary m) = true ->
  (forall s m e, guarding s m -> Q (s, Err e) m) ->
  (forall s m', sm_completed m' = Some (fst counted) -> guarding s m' ->
    m' = SMk (sm_read m) (sm_fed m) (sm_refused m) (sm_eof m) (sm_written m) (sm_synced m) (sm_caps m) (sm_summary m) (sm_completed m') [] [] [] ->
    Q (s, Ok tt) m') ->
  Wp (complete_source limits (fst counted) s) m Q.
Proof.
  intros (Hu & Hs & He & -> & _) Hsum Herr HQ. unfold complete_source. apply sp_bind_wp, sp_call_wp.
  { pose proof Hu as (_ & _ & _ & Hca & _). by destruct Hs as (Hf & _). }
  intros completed. cbn [sp_bind sp_state pbind]. set (s' := with_completion _ s).
  assert (Hg : guarding s' (sstep m (Event SourceComplete completed))).
  { subst s'. destruct Hu as [(E1 & E2 & E3 & E4 & E5 & E6) (Hc & Hp & Hca & Hab)]. destruct m. cbn in *.
    unfold guarding. cbn. rewrite E2, E3, E4, E5, E6, Hp. cbn. destruct completed; cbn; repeat split; done || lia. }
  apply sp_bind_wp, budget_after_wp; [auto with sealed |]. intros l n -> _. apply fail_when_wp; [auto with sealed |].
  intros Hn%negb_false_iff%Z.eqb_eq. subst n. apply HQ; [by destruct m | done |].
  destruct Hu as [_ (_ & Hp & Hca & Hab)]. destruct m. cbn in *. by subst.
Qed.

Lemma run_wp s m : undecided s m -> m = SMon_new -> in_count s = 0 -> out_count s = 0 -> in_eof s = false ->
  0 < l_source_bytes limits -> 0 < l_ciphertext_bytes limits -> Wp (run limits encryptor s) m ran.
Proof.
  intros Hu -> Hi Ho Hy Hl Hl'. unfold run. apply sp_bind_wp, budget_check_wp; [auto with sealed |]. intros l _.
  apply sp_bind_wp, sp_call_wp; [done |]. intros caps. apply sp_bind_wp, budget_check_wp; [intros; apply ran_error, undecided_guarding, Hu |].
  intros l2 _. apply sp_bind_wp, fail_when_wp; [apply ran_error, undecided_guarding, Hu |].
  intros [[H1%negb_false_iff H2%negb_false_iff]%orb_false_iff H3%negb_false_iff]%orb_false_iff.
  apply sp_bind_wp, budget_check_wp; [intros; apply ran_error, undecided_guarding, Hu |]. intros l3 _.
  apply sp_bind_wp, run_cipher_wp.
  { split; [apply Hu |]. intros _. destruct caps. cbn in *. subst. unfold insync. cbn. rewrite Hi, Ho, Hy. repeat split; lia || done. }
  1-2: done.
  { auto with sealed. }
  clear. intros s m counted Hcon. destruct counted as [ic oc] eqn:Ec. pose proof Hcon as (Hu & Hs & He & [= -> ->] & Hr & Hw & Hcip).
  apply sp_bind_wp, budget_check_wp; [auto with sealed |]. intros l _.
  apply sp_bind_wp, sp_call_wp; [by destruct Hs as (Hf & Hrf & _) |]. intros checked.
  set (m1 := sstep m (Event CheckFinish checked)).
  assert (Hu1 : undecided s m1) by (destruct m; apply Hu).
  apply sp_bind_wp, budget_after_wp; [auto with sealed |]. intros l2 summary -> _.
  destruct (check_counts_validate summary _) as [[] | e] eqn:Ev; cbn [lift]; [| apply ran_error; auto with sealed].
  cbn [sp_bind sp_ret pbind]. apply sp_bind_wp, budget_check_wp; [auto with sealed |]. intros l3 _.
  apply sp_bind_wp, (complete_source_wp (zlen (sm_read m), zlen (sm_written m))); [destruct m; exact Hcon | by destruct m | auto with sealed |].
  destruct Hs as (Hf & Hrf & _ & _ & _ & Hl & Hwl & Hcaps). clear s Hu Hcon Hu1. intros s m2 Hco Hg Em2. apply sp_bind_wp, budget_check_wp; [auto with sealed |]. intros l4 _.
  apply sp_bind_wp, sp_call_wp; [rewrite Em2; done |]. intros flushed.
  set (m3 := sstep m2 (Event StageSync flushed)).
  assert (Hg3 : guarding s m3) by (destruct m2; apply Hg).
  apply sp_bind_wp, budget_after_wp; [auto with sealed |]. intros l5 [] -> _.
  set (counts := {| z_source_bytes := _ |}). apply sp_bind_wp, budget_check_wp; [auto with sealed |]. intros l6 _.
  cbn [sp_bind sp_state pbind]. apply sp_bind_wp, sp_call_wp.
  { subst m3. rewrite Em2. split; [done |]. split; [done |]. cbn [fst] in Hco. destruct m. cbn in *. unfold publishable. cbn.
    repeat split; try done; try lia. by exists summary. }
  intros outcome. cbn [sp_bind sp_state pbind]. set (s' := with_publication _ _).
  assert (Hg' : guarding s' (sstep m3 (Event (StagePublish counts) outcome))).
  { subst m3 s'. rewrite Em2 in *. destruct Hg as (E1 & _ & _ & E2 & E3 & E4 & E5 & E6 & E7). unfold guarding. cbn in *.
    by rewrite E1, E2, E4, E5, E7. }
  assert (Hp : sm_published (sstep m3 (Event (StagePublish counts) outcome)) = [(counts, outcome)]) by (subst m3; by rewrite Em2).
  assert (Hc : is_some (sm_completed (sstep m3 (Event (StagePublish counts) outcome))) = true) by (subst m3; rewrite Em2; by rewrite Hco).
  clearbody s'. clear -Hg' Hp Hc. apply sp_bind_wp, budget_check_wp; [auto with sealed |]. intros l _.
  apply sp_bind_wp, fail_when_wp; [auto with sealed |]. intros Ho. destruct outcome; try done.
Qed.

(** ** Cleaning up *)
Definition settled (s : Seal) (m : SMon) : Prop :=
  source_complete s = is_some (sm_completed m) /\ g_publication s = publication_seen (sm_published m) /\ (length (sm_published m) <= 1)%nat
  /\ g_source_cleanup s = cleanup_seen (sm_cancels m) /\ g_stage_cleanup s = cleanup_seen (sm_aborts m)
  /\ source_cancelled s = negb (is_some (sm_completed m))
  /\ length (sm_cancels m) = (if is_some (sm_completed m) then 0 else 1)%nat
  /\ stage_aborted s = match publication_seen (sm_published m) with NotAttempted | NotPublished => true | _ => false end
  /\ length (sm_aborts m) = (match publication_seen (sm_published m) with NotAttempted | NotPublished => 1 | _ => 0 end)%nat.

Lemma cleanup_wp s m (Q : Seal -> SMon -> Prop) :
  guarding s m -> (forall s m', settled s m' -> sm_published m' = sm_published m -> sm_completed m' = sm_completed m -> Q s m') ->
  Wp (cleanup s) m Q.
Proof.
  intros (E1 & E2 & El & E3 & E4 & E5 & E6 & E7 & E8) HQ. unfold cleanup. apply wp_seq. rewrite E1, E3.
  assert (Hs : forall s' m', source_complete s' = source_complete s -> g_publication s' = g_publication s ->
            g_source_cleanup s' = cleanup_seen (sm_cancels m') -> source_cancelled s' = negb (is_some (sm_completed m)) ->
            length (sm_cancels m') = (if is_some (sm_completed m) then 0 else 1)%nat ->
            stage_aborted s' = false -> g_stage_cleanup s' = NotRequired ->
            sm_published m' = sm_published m -> sm_completed m' = sm_completed m -> sm_aborts m' = [] ->
            Wp (if negb (stage_aborted s') && match g_publication s' with NotAttempted | NotPublished => true | _ => false end
                then do! o := seal_call StageAbort in Ret (with_aborted (cleanup_of o) s') else Ret s') m' Q).
  { intros s' m' F1 F2 F3 F4 F5 F6 F7 F8 F9 F10. rewrite F6, F2, E2. cbn [negb andb].
    destruct (publication_seen (sm_published m)) eqn:Ep; cbn [wp pbind Program.call].
    3-4: apply HQ; [unfold settled; rewrite F1, F2, F3, F4, F5, F6, F7, F8, F9, F10, E1, E2, Ep; done | done | done].
    all: split; [cbn [sok]; split; [done |]; unfold unpublished; rewrite F8;
      destruct (sm_published m) as [| [counts []] []]; cbn in *; try done; try lia; first [by left | right; by eexists] |].
    all: intros o; apply HQ; [| by destruct m' | by destruct m'].
    all: destruct m'; cbn in *; unfold settled; cbn; rewrite F1, F2, F3, F4, F8, F9, F10, E1, E2, Ep; done. }
  destruct (is_some (sm_completed m)) eqn:Ec; cbn [negb andb wp pbind Program.call].
  - apply Hs; try done; by rewrite E4.
  - split; [cbn; split; [done | by destruct (sm_completed m)] |]. intros o. apply Hs; try done; destruct m; cbn in *; by subst.
Qed.

Lemma cleanup_idem s m : settled s m -> cleanup s = Ret s.
Proof.
  intros (E1 & E2 & _ & _ & _ & E3 & _ & E4 & _). unfold cleanup. rewrite E1, E3.
  destruct (is_some _); cbn [negb andb pbind]; rewrite E4, E2; by destruct (publication_seen _).
Qed.

(** What a caller learns is what happened. *)
Definition reported (r : result SealFailureReport SealedCounts) (m : SMon) : Prop :=
  match r with
  | Ok counts => sm_published m = [(counts, OutPublished)] /\ sm_completed m <> None /\ sm_cancels m = [] /\ sm_aborts m = []
  | Err report =>
      publication report = publication_seen (sm_published m)
      /\ source_cleanup report = cleanup_seen (sm_cancels m) /\ stage_cleanup report = cleanup_seen (sm_aborts m)
      /\ length (sm_cancels m) = (if is_some (sm_completed m) then 0 else 1)%nat
      /\ length (sm_aborts m) = (match publication report with NotAttempted | NotPublished => 1 | _ => 0 end)%nat
  end.

Lemma seal_wp : 0 < l_source_bytes limits -> 0 < l_ciphertext_bytes limits ->
  Wp (seal_with_clock limits encryptor) SMon_new reported.
Proof.
  intros Hl Hl'. unfold seal_with_clock. split; [done |]. intros start. cbn [pbind]. apply wp_seq.
  eapply wp_mono; [by apply run_wp |]. intros [s r] m [Hg Hr]. cbn [fst snd] in *. destruct r as [counts | e].
  - destruct Hr as [Hp Hc]. apply wp_seq, cleanup_wp; [done |].
    intros s' m' (_ & _ & _ & _ & _ & _ & Hca & _ & Hab) Hp' Hc'. cbn. rewrite Hp', Hc' in *. rewrite Hp, Hc in *. cbn in *.
    repeat split; [by destruct (sm_completed m) | by destruct (sm_cancels m') | by destruct (sm_aborts m')].
  - apply wp_seq, cleanup_wp; [done |]. intros s' m' Hs _ _. rewrite (cleanup_idem s' m' Hs).
    destruct Hs as (_ & E1 & _ & E2 & E3 & _ & E4 & _ & E5). cbn. rewrite E1. done.
Qed.
End sealed.

Lemma ArchiveSealer_new_positive limits l : ArchiveSealer_new limits = Ok l ->
  l = limits /\ (0 <= l_source_bytes limits -> 0 < l_source_bytes limits) /\ (0 <= l_ciphertext_bytes limits -> 0 < l_ciphertext_bytes limits).
Proof.
  unfold ArchiveSealer_new, seal_limits_validate. destruct (_ || _) eqn:E; [done |]. intros [= <-].
  repeat (apply orb_false_iff in E as [E ?]). rewrite Z.eqb_neq in *. split; [done | lia].
Qed.

(** Whatever the source, the checker, the stage, the clock and the cipher do, every call of a sealing run is
    admissible where it happens: bytes reach the stage only while everything read so far was accepted by the checker,
    reads and writes stay within the limits, and the stage is asked to publish at most once, only an archive that was
    read to its end, accepted, completed with its length, encrypted by the cipher without a fault and synchronized, with
    its true counts, and it is never aborted after a publication that may have happened. *)
Theorem sealing_calls_admissible limits l c t r t1 e t2 :
  ArchiveSealer_new limits = Ok l -> 0 <= l_source_bytes limits -> 0 <= l_ciphertext_bytes limits ->
  runs (seal_with_clock l c) t r -> t = t1 ++ e :: t2 -> sok l c (foldl sstep SMon_new t1) (ev_call e).
Proof.
  intros (-> & H1 & H2)%ArchiveSealer_new_positive Hs Hc Hr Ht.
  by apply (proj1 (wp_sound _ _ _ _ _ _ _ (seal_wp limits c (H1 Hs) (H2 Hc)) Hr) t1 e t2).
Qed.

(** C22: a sealing run answers what happened: its counts exactly when the stage confirmed their publication and the
    source its completion (and then nothing is cancelled or aborted); otherwise a report whose publication and
    cleanups are those observed, the source being cancelled exactly once unless its completion was confirmed and the
    stage aborted exactly once unless its publication was confirmed or is unknown. *)
Theorem sealing_outcome_reported limits l c t r :
  ArchiveSealer_new limits = Ok l -> 0 <= l_source_bytes limits -> 0 <= l_ciphertext_bytes limits ->
  runs (seal_with_clock l c) t (Some r) -> reported r (foldl sstep SMon_new t).
Proof.
  intros (-> & H1 & H2)%ArchiveSealer_new_positive Hs Hc Hr.
  by apply (proj2 (wp_sound _ _ _ _ _ _ _ (seal_wp limits c (H1 Hs) (H2 Hc)) Hr)).
Qed.

(** ** A run *)
Definition demo_cipher : cipher :=
  CipherRead 16 (fun r1 => CipherWrite [7; 8; 9; 10] (fun w => CipherFlush (fun _ =>
    CipherRead 16 (fun r2 =>
      CipherDone (match r1, w, r2 with Some b, Some n, Some [] => Some {| input_bytes := zlen b; output_bytes := n |} | _, _, _ => None end))))).
Definition demo_limits : SealLimits := {| l_source_bytes := 3; l_ciphertext_bytes := 100; l_timeout_ms := 1000 |}.
Definition demo_ports (publish : PublishOutcome) (c : SealCall) : SealAnswer c :=
  match c with
  | ClockNow => 5
  | SourceBytes size => Some (if size =? 3 then [1; 2; 3] else [])
  | SourceComplete => Some 3
  | SourceCancel | StageAbort => OutCleaned
  | CheckFeed _ | StageSync => Some tt
  | CheckFinish => Some {| k_source_bytes := 3; k_expanded_bytes := 20; k_payload_bytes := 10; k_files := 1 |}
  | StageCaps => {| private_staging := true; atomic_publication := true; durability := true |}
  | StageBytes bytes => Some (length bytes)
  | StagePublish _ => publish
  end.
Definition demo_seal (publish : PublishOutcome) := drive (demo_ports publish) (seal_with_clock demo_limits demo_cipher).

Lemma sealing_calls_admissible_witness :
  let t := fst (demo_seal OutPublished) in
  snd (demo_seal OutPublished) = Ok (Build_SealedCounts 3 4 20 10 1)
  /\ forall t1 e t2, t = t1 ++ e :: t2 -> sok demo_limits demo_cipher (foldl sstep SMon_new t1) (ev_call e).
Proof.
  split; [vm_compute; reflexivity |]. intros t1 e t2.
  apply (sealing_calls_admissible demo_limits demo_limits demo_cipher _ (Some (snd (demo_seal OutPublished))));
    [vm_compute; reflexivity | cbn; lia | cbn; lia |]. exact (drive_runs (demo_ports _) (seal_with_clock demo_limits demo_cipher)).
Defined.

Lemma sealing_outcome_reported_witness :
  let m := foldl sstep SMon_new (fst (demo_seal OutNotPublished)) in
  snd (demo_seal OutNotPublished) = Err (Build_SealFailureReport PublicationNotConfirmed NotPublished NotRequired Cleaned)
  /\ reported (snd (demo_seal OutNotPublished)) m.
Proof.
  split; [vm_compute; reflexivity |].
  apply (sealing_outcome_reported demo_limits demo_limits demo_cipher); [vm_compute; reflexivity | cbn; lia | cbn; lia |].
  exact (drive_runs (demo_ports _) (seal_with_clock demo_limits demo_cipher)).
Defined.
