(* ===== verification/Builtins.v ===== *)
(** * The vocabulary of the built-in definitions

    [crates/features/src/definition.rs]: how the category modules assemble the
    reviewed operations.  [None] is the source's [unreachable!]. *)
From S2P Require Import Prelude Order Text Json Core Schema Evaluate Operation Catalog.
Open Scope Z_scope.

Definition U32_MAX : Z := 4294967295.

Definition with_output_mode (m : OutputMode) (o : Operation) : Operation :=
  {| op_name := op_name o; description := description o; requirements := requirements o; parameters := parameters o;
     action := action o; capability := capability o; output_fields := output_fields o; output_mode := m |}.
(** [operation.parameters.insert(name, p)] *)
Definition insert_parameter (name : string) (p : ParamSpec) (o : Operation) : Operation :=
  {| op_name := op_name o; description := description o; requirements := requirements o;
     parameters := bt_insert name p (parameters o); action := action o; capability := capability o;
     output_fields := output_fields o; output_mode := output_mode o |}.
(** [Parameter { kind: String, required: true, allowed_values: vec![] }] *)
Definition string_parameter : ParamSpec := {| p_kind := PString; p_required := true; allowed_values := [] |}.

Definition read (name description : string) (c : Category) (object method response_contract : string)
    (fields : list string) : Operation :=
  {| op_name := name; description := description; requirements := [{| category := c; permission := Read |}];
     parameters := []; action := Ubus object method [];
     capability := UbusMethod object method [] response_contract;
     output_fields := fields; output_mode := Scalars |}.

Definition argument (name : string) (k : ParameterKind) (v : value) (o : Operation) : option Operation :=
  match action o, capability o with
  | Ubus object method arguments, UbusMethod cap_object cap_method required contract =>
      Some {| op_name := op_name o; description := description o; requirements := requirements o; parameters := parameters o;
              action := Ubus object method (bt_insert name v arguments);
              capability := UbusMethod cap_object cap_method (bt_insert name k required) contract;
              output_fields := output_fields o; output_mode := output_mode o |}
  | _, _ => None
  end.

Definition interface_observation (name description : string) (c : Category)
    (collections : list (CollectionField (Collection LeafRecord))) : Operation :=
  let operation := read name description c "network.interface" "dump" (name +:+ ".v1") [] in
  let operation := insert_parameter "interface" string_parameter operation in
  with_output_mode (Typed (ProjectCollection ["/error"]
    (ObjectArray "/interface" 128 "interface"
       {| fields := [ {| name := "interface"; source := "/interface"; presence := Required; kind := Text 256 |};
                      {| name := "up"; source := "/up"; presence := Required; kind := Boolean |} ];
          collections := collections |})
    (ExactOne "interface"))) operation.

Definition uci_read (name : string) (profile : UciReadProfile) (options : list (string * Z)) : option Operation :=
  let operation := read name
    "Read selected non-secret scalar UCI options and section metadata. Sessionless shared-delta, non-atomic view; not committed-only or effective service state. Option values remain text; lists are not coerced. Section names/indices are not durable mutation handles. No configuration changes."
    (uci_category profile) "uci" "get" (name +:+ ".v1") [] in
  operation ← argument "config" PString (VStr (config profile)) operation;
  operation ← argument "type" PString (VStr (section_type profile)) operation;
  let fields :=
    [ {| name := "section_type"; source := "/.type"; presence := Required; kind := TextEnum 16 [section_type profile] |};
      {| name := "anonymous"; source := "/.anonymous"; presence := Required; kind := Boolean |};
      {| name := "index"; source := "/.index"; presence := Required; kind := SafeInteger 0 U32_MAX |} ]
    ++ ((fun p : string * Z => {| name := fst p; source := "/" +:+ fst p; presence := Optional; kind := Text (snd p) |}) <$> options) in
  Some (with_output_mode (Typed (ProjectCollection ["/error"]
    (ObjectEntries "/values" 128 {| id_name := "section"; id_max_bytes := 256 |} {| fields := fields; collections := [] |})
    All)) operation).

(** The rebuilt operation of [uci_read_with_options]. *)
Definition with_uci_options (description : string) (contract : string)
    (collections' : list (CollectionField (Collection LeafRecord))) (o : Operation) : option Operation :=
  match capability o, output_mode o with
  | UbusMethod object method arguments _,
    Typed (ProjectCollection guards (ObjectEntries source max_items key record) selection) =>
      Some {| op_name := op_name o; description := description; requirements := requirements o; parameters := parameters o;
              action := action o; capability := UbusMethod object method arguments contract;
              output_fields := output_fields o;
              output_mode := Typed (ProjectCollection guards
                (ObjectEntries source max_items key
                   {| fields := fields record; collections := collections record ++ collections' |}) selection) |}
  | _, _ => None
  end.

Definition uci_read_with_options (name : string) (response_version : Z) (profile : UciReadProfile)
    (scalars options : list (string * Z)) : option Operation :=
  operation ← uci_read name profile scalars;
  with_uci_options
    "Read selected non-secret UCI scalar and text/list options with section metadata. Sessionless shared-delta, non-atomic view; not committed-only or effective state. Text/list fields preserve representation as kind/values, with shared bounded items and no splitting/coercion. Discloses selected addresses/domains/paths; no file contents or configuration changes."
    (name +:+ ".v" +:+ dec response_version)
    ((fun p : string * Z => {| c_name := fst p; c_presence := Optional; collection := TextOption ("/" +:+ fst p) 128 (snd p) |}) <$> options)
    operation.

(** * The UCI recipes of the categories

    [crates/features/src/categories/*/configuration.rs]: tables of the reviewed
    options of each section type with their size bounds. *)

(** A [vec!] of definitions. *)
Definition operations_of (l : list (option Operation)) : option (list Operation) := mapM id l.

Definition system_configuration : option (list Operation) :=
  operations_of [
    uci_read_with_options "system_timeserver_configuration" 1 UTimeservers
      [("enabled", 8); ("enable_server", 8); ("use_dhcp", 8); ("interface", 256)]
      [("server", 1024); ("dhcp_interface", 256)];
    uci_read_with_options "system_led_configuration" 1 ULeds
      [("name", 256); ("sysfs", 256); ("trigger", 64); ("dev", 256); ("default", 8); ("inverted", 8);
       ("brightness", 32); ("delayon", 32); ("delayoff", 32); ("interval", 32); ("port_state", 32); ("delay", 32);
       ("gpio", 32); ("port_mask", 32); ("speed_mask", 32)]
      [("mode", 256); ("port", 256)];
    uci_read_with_options "system_dropbear_configuration" 1 UDropbear
      [("enable", 8); ("PasswordAuth", 8); ("RootPasswordAuth", 8); ("RootLogin", 8); ("GatewayPorts", 8);
       ("LocalPortForward", 8); ("RemotePortForward", 8); ("Port", 32); ("Interface", 256); ("DirectInterface", 256);
       ("SSHKeepAlive", 32); ("IdleTimeout", 32); ("MaxAuthTries", 32); ("RecvWindowSize", 32); ("mdns", 8)]
      [];
    uci_read_with_options "system_uhttpd_configuration" 1 UUhttpd
      [("redirect_https", 8); ("rfc1918_filter", 8); ("max_requests", 32); ("max_connections", 32);
       ("script_timeout", 32); ("network_timeout", 32); ("http_keepalive", 32); ("tcp_keepalive", 32);
       ("no_symlinks", 8); ("no_dirlists", 8); ("no_ubusauth", 8)]
      [("listen_http", 256); ("listen_https", 256)] ].

Definition network_configuration : option (list Operation) :=
  operations_of [
    uci_read_with_options "network_device_configuration" 1 UNetworkDevices
      [("name", 256); ("type", 64); ("ifname", 256); ("vid", 32); ("mtu", 32); ("mtu6", 32); ("macaddr", 17);
       ("enabled", 8); ("ipv6", 8); ("stp", 8); ("stp_kernel", 8); ("stp_proto", 64); ("forward_delay", 32);
       ("priority", 32); ("ageing_time", 32); ("igmp_snooping", 8); ("multicast_querier", 8); ("bridge_empty", 8);
       ("vlan_filtering", 8)]
      [("ports", 256); ("ingress_qos_mapping", 256); ("egress_qos_mapping", 256)];
    uci_read_with_options "network_bridge_vlan_configuration" 1 UBridgeVlans
      [("device", 256); ("vlan", 32); ("local", 8)]
      [("ports", 256); ("alias", 256)];
    uci_read "network_route_v4_configuration" URoutesV4
      [("interface", 256); ("target", 256); ("netmask", 64); ("gateway", 256); ("metric", 32); ("mtu", 32);
       ("table", 64); ("valid", 32); ("source", 256); ("onlink", 8); ("type", 64); ("proto", 64); ("disabled", 8)];
    uci_read "network_route_v6_configuration" URoutesV6
      [("interface", 256); ("target", 256); ("netmask", 64); ("gateway", 256); ("metric", 32); ("mtu", 32);
       ("table", 64); ("valid", 32); ("source", 256); ("onlink", 8); ("type", 64); ("proto", 64); ("disabled", 8)];
    uci_read "network_rule_v4_configuration" URulesV4
      [("in", 256); ("out", 256); ("invert", 8); ("src", 256); ("dest", 256); ("priority", 32); ("tos", 32);
       ("mark", 64); ("lookup", 64); ("suppress_prefixlength", 32); ("uidrange", 64); ("action", 64); ("goto", 32);
       ("ipproto", 64); ("sport", 64); ("dport", 64); ("disabled", 8)];
    uci_read "network_rule_v6_configuration" URulesV6
      [("in", 256); ("out", 256); ("invert", 8); ("src", 256); ("dest", 256); ("priority", 32); ("tos", 32);
       ("mark", 64); ("lookup", 64); ("suppress_prefixlength", 32); ("uidrange", 64); ("action", 64); ("goto", 32);
       ("ipproto", 64); ("sport", 64); ("dport", 64); ("disabled", 8)] ].

Definition storage_configuration : option (list Operation) :=
  operations_of [
    uci_read "storage_global_configuration" UStorageGlobals
      [("anon_swap", 32); ("anon_mount", 32); ("auto_swap", 32); ("auto_mount", 32); ("delay_root", 32);
       ("check_fs", 32)];
    uci_read "storage_swap_configuration" USwaps
      [("enabled", 8); ("uuid", 256); ("label", 256); ("device", 1024); ("priority", 32)] ].

Definition dhcp_dns_configuration : option (list Operation) :=
  operations_of [
    uci_read_with_options "dhcp_odhcpd_configuration" 1 UOdhcpd
      [("maindhcp", 8); ("loglevel", 32); ("leasefile", 1024); ("hostsdir", 1024); ("hostsfile", 1024);
       ("piodir", 1024); ("piofolder", 1024)]
      [];
    uci_read_with_options "dhcp_pool_configuration" 1 UDhcpPools
      [("interface", 256); ("networkid", 256); ("ignore", 8); ("netmask", 64); ("force", 8); ("start", 32);
       ("limit", 32); ("leasetime", 64); ("dynamicdhcp", 8); ("dynamicdhcpv4", 8); ("dynamicdhcpv6", 8);
       ("dhcpv4", 32); ("dhcpv6", 32); ("ra", 32); ("ra_management", 32); ("ra_preference", 32)]
      [("dns", 1024); ("domain", 1024); ("tag", 256); ("interface_name", 1024)];
    uci_read_with_options "dhcp_host_configuration" 1 UDhcpHosts
      [("name", 256); ("ip", 256); ("hostid", 256); ("leasetime", 64); ("networkid", 256); ("enable", 8); ("dns", 8);
       ("force", 8); ("broadcast", 8)]
      [("mac", 1024); ("duid", 1024); ("tag", 256); ("match_tag", 256)];
    uci_read_with_options "dhcp_domain_configuration" 1 UDnsDomains
      [("ip", 256)]
      [("name", 1024)];
    uci_read_with_options "dhcp_cname_configuration" 1 UDnsCnames
      [("target", 256)]
      [("cname", 1024)] ].

Definition firewall_configuration : option (list Operation) :=
  operations_of [
    uci_read_with_options "firewall_zone_configuration" 1 UFirewallZones
      [("enabled", 8); ("name", 256); ("family", 32); ("input", 32); ("output", 32); ("forward", 32); ("masq", 8);
       ("masq6", 8); ("masq_allow_invalid", 8); ("mtu_fix", 8); ("log", 32); ("log_limit", 64); ("auto_helper", 8);
       ("counter", 8)]
      [("network", 256); ("device", 256); ("subnet", 1024); ("masq_src", 1024); ("masq_dest", 1024); ("helper", 256)];
    uci_read "firewall_forwarding_configuration" UFirewallForwardings
      [("enabled", 8); ("name", 256); ("family", 32); ("src", 256); ("dest", 256)];
    uci_read_with_options "firewall_rule_configuration" 1 UFirewallRules
      [("enabled", 8); ("name", 256); ("family", 32); ("src", 256); ("dest", 256); ("device", 256); ("direction", 32);
       ("ipset", 256); ("helper", 256); ("set_helper", 256); ("limit", 64); ("limit_burst", 32); ("utc_time", 8);
       ("start_date", 32); ("stop_date", 32); ("start_time", 32); ("stop_time", 32); ("weekdays", 128); ("mark", 64);
       ("set_mark", 64); ("set_xmark", 64); ("dscp", 32); ("set_dscp", 32); ("counter", 8); ("log", 256);
       ("log_limit", 64); ("target", 32)]
      [("proto", 256); ("src_ip", 1024); ("src_mac", 1024); ("src_port", 1024); ("dest_ip", 1024);
       ("dest_port", 1024); ("icmp_type", 1024)];
    uci_read_with_options "firewall_redirect_configuration" 1 UFirewallRedirects
      [("enabled", 8); ("name", 256); ("family", 32); ("src", 256); ("dest", 256); ("ipset", 256); ("helper", 256);
       ("src_ip", 1024); ("src_port", 256); ("src_dip", 1024); ("src_dport", 256); ("dest_ip", 1024);
       ("dest_port", 256); ("limit", 64); ("limit_burst", 32); ("utc_time", 8); ("start_date", 32); ("stop_date", 32);
       ("start_time", 32); ("stop_time", 32); ("weekdays", 128); ("mark", 64); ("reflection", 8);
       ("reflection_src", 32); ("counter", 8); ("log", 256); ("log_limit", 64); ("target", 32)]
      [("proto", 256); ("src_mac", 1024); ("reflection_zone", 256)];
    uci_read_with_options "firewall_nat_configuration" 1 UFirewallNats
      [("enabled", 8); ("name", 256); ("family", 32); ("src", 256); ("device", 256); ("src_ip", 1024);
       ("src_port", 256); ("snat_ip", 1024); ("snat_port", 256); ("dest_ip", 1024); ("dest_port", 256); ("limit", 64);
       ("limit_burst", 32); ("connlimit_ports", 8); ("utc_time", 8); ("start_date", 32); ("stop_date", 32);
       ("start_time", 32); ("stop_time", 32); ("weekdays", 128); ("mark", 64); ("counter", 8); ("log", 256);
       ("target", 32)]
      [("proto", 256)] ].

(** * The built-in operations

    [crates/features/src/categories/*.rs] and [lib.rs]: the reviewed reads of
    every category, one definition per function, prefixed with its module. *)

Definition I32_MAX : Z := 2147483647.

(** ** [system.rs] *)
Definition system_operations : option (list Operation) :=
  operations ← operations_of [
    uci_read "system_configuration" USystem [("hostname", 256); ("timezone", 256); ("zonename", 256)];
    Some (read "system_board" "Read selected board and OpenWrt release identifiers." System "system" "board" "system_board.v1"
      ["/kernel"; "/system"; "/model"; "/board_name"; "/release/distribution"; "/release/version"; "/release/revision";
       "/release/target"; "/release/description"]);
    Some (read "system_info" "Read uptime, memory and load counters; load uses OpenWrt's native units." System "system" "info"
      "system_info.v1"
      ["/localtime"; "/uptime"; "/load/0"; "/load/1"; "/load/2"; "/memory/total"; "/memory/free"; "/memory/shared";
       "/memory/buffered"; "/memory/available"; "/swap/total"; "/swap/free"; "/root/total"; "/root/free"]) ];
  configuration ← system_configuration;
  Some (operations ++ configuration).

(** ** [diagnostics.rs] *)
Definition diagnostics_operations : option (list Operation) :=
  operations_of [
    Some (read "diagnostics_watchdog_status"
      "Read watchdog status using an empty-argument query; hardware support is device-dependent."
      Diagnostics "system" "watchdog" "diagnostics_watchdog_status.v1" ["/status"; "/timeout"; "/frequency"; "/magicclose"]) ].

(** ** [firewall.rs] *)
Definition firewall_operations : option (list Operation) :=
  operations ← operations_of [
    uci_read "firewall_defaults_configuration" UFirewallDefaults
      [("input", 32); ("output", 32); ("forward", 32); ("synflood_protect", 8); ("drop_invalid", 8);
       ("flow_offloading", 8); ("flow_offloading_hw", 8); ("disable_ipv6", 8)] ];
  configuration ← firewall_configuration;
  Some (operations ++ configuration).

(** ** [packages.rs] *)
Definition cursor_parameters : list (string * ParamSpec) :=
  [("cursor", {| p_kind := PString; p_required := false; allowed_values := [] |})].
Definition packages_operations : option (list Operation) :=
  Some [
    {| op_name := "packages_apk_installed";
       description := "Capture APK 3.0.5 installed-query observations and read immutable 16-record pages. Omit cursor for a new capture; supply next_cursor to continue within 120 seconds. Non-atomic APK-visible scope, not whole-device completeness or a mutation baseline.";
       requirements := [{| category := Packages; permission := Read |}];
       parameters := cursor_parameters;
       action := ApkInstalledPage; capability := ApkInstalledQuery;
       output_fields := []; output_mode := Scalars |};
    {| op_name := "packages_opkg_status";
       description := "Capture selected root status-file records for reviewed opkg 38eccbb1 and read immutable 16-record pages. Omit cursor to replace any package snapshot; supply next_cursor within 120 seconds. Non-atomic file-only scope, not all installed packages or health; status is recorded text. No configuration initialization, manager fallback or package mutation.";
       requirements := [{| category := Packages; permission := Read |}];
       parameters := cursor_parameters;
       action := OpkgStatusPage; capability := OpkgRootStatusFile;
       output_fields := []; output_mode := Scalars |} ].

(** ** [network.rs] *)
Definition network_interface_projection (selection : Selection) : TypedProjection :=
  let fields :=
    [ {| name := "interface"; source := "/interface"; presence := Required; kind := Text 256 |} ]
    ++ ((fun name => {| name := name; source := "/" +:+ name; presence := Required; kind := Boolean |})
          <$> ["up"; "pending"; "available"; "autostart"; "dynamic"])
    ++ [ {| name := "uptime"; source := "/uptime"; presence := Optional; kind := SafeInteger 0 SAFE_INTEGER_MAX |} ]
    ++ ((fun name => {| name := name; source := "/" +:+ name; presence := Optional; kind := Text 256 |})
          <$> ["proto"; "device"; "l3_device"]) in
  ProjectCollection [] (ObjectArray "/interface" 128 "interface" {| fields := fields; collections := [] |}) selection.

Definition network_interface_status : Operation :=
  let operation := read "network_interface_status"
    "Read one exact logical interface from a bounded dump; v2 returns typed fields including interface identity."
    Network "network.interface" "dump" "network_interface_status.v2" [] in
  let operation := insert_parameter "interface" string_parameter operation in
  with_output_mode (Typed (network_interface_projection (ExactOne "interface"))) operation.

Definition network_interfaces : Operation :=
  let operation := read "network_interfaces"
    "List bounded logical-interface identity and selected state, without addresses, routes or configuration."
    Network "network.interface" "dump" "network_interfaces.v1" [] in
  with_output_mode (Typed (network_interface_projection All)) operation.

(** ** [network/observations.rs] *)
Definition observed_text (name : string) (max_bytes : Z) (p : Presence) : ScalarField :=
  {| name := name; source := "/" +:+ name; presence := p; kind := Text max_bytes |}.
Definition observed_integer (name source : string) (max : Z) (p : Presence) : ScalarField :=
  {| name := name; source := "/" +:+ source; presence := p; kind := SafeInteger 0 max |}.
Definition observed_rows (name source : string) (fields : list ScalarField) : CollectionField (Collection LeafRecord) :=
  {| c_name := name; c_presence := Optional; collection := RowArray source 128 {| leaf_fields := fields |} |}.

Definition network_addresses : Operation :=
  let family '(family, max_bytes, mask) :=
    let fields := [
      observed_text "address" max_bytes Required; observed_integer "mask" "mask" mask Required;
      observed_text "ptpaddress" max_bytes Optional; observed_integer "preferred_seconds" "preferred" U32_MAX Optional;
      observed_integer "valid_seconds" "valid" U32_MAX Optional; observed_text "class" 256 Optional ] in
    [ observed_rows (family +:+ "_addresses") ("/" +:+ family +:+ "-address") fields;
      observed_rows ("inactive_" +:+ family +:+ "_addresses") ("/inactive/" +:+ family +:+ "-address") fields ] in
  interface_observation "network_interface_addresses"
    "Read one interface's bounded netifd-reported active/inactive address rows. Discloses addresses and class; preserves duplicates and omitted lists. Not kernel completeness, delegated prefixes or connectivity proof; no mutation."
    Network (concat (family <$> [("ipv4", 15, 32); ("ipv6", 45, 128)])).

Definition network_routes : Operation :=
  let fields := [
    observed_text "target" 45 Required; observed_integer "mask" "mask" 128 Required;
    observed_text "nexthop" 45 Required; observed_text "source" 49 Required ]
    ++ ((fun name => observed_integer name name U32_MAX Optional) <$> ["type"; "proto"; "mtu"; "metric"; "table"])
    ++ [ observed_integer "valid_seconds" "valid" U32_MAX Optional ] in
  interface_observation "network_interface_routes"
    "Read one interface's bounded netifd-managed active/inactive routes, preserving duplicate rows and omitted lists. Discloses targets, next hops and source prefixes; not complete kernel FIB/policy rules or route-selection proof. No mutation."
    Network [observed_rows "routes" "/route" fields; observed_rows "inactive_routes" "/inactive/route" fields].

Definition network_neighbors : Operation :=
  let fields := [
    observed_text "address" 45 Required; observed_text "mac" 17 Optional;
    observed_integer "proxy" "proxy" U32_MAX Optional; observed_integer "router" "router" U32_MAX Optional ] in
  interface_observation "network_interface_neighbors"
    "Read one interface's bounded netifd-managed active/inactive neighbor entries. Discloses addresses/MACs; preserves duplicates and omission. Not kernel ARP/NDP cache, discovery or connected-client proof. No solicitation or mutation."
    Network [observed_rows "neighbors" "/neighbors" fields; observed_rows "inactive_neighbors" "/inactive/neighbors" fields].

Definition network_device_status : option Operation :=
  let device := read "network_device_status"
    "Read selected link state and traffic counters for a named network device."
    Network "network.device" "status" "network_device_status.v1"
    ["/type"; "/external"; "/present"; "/up"; "/carrier"; "/mtu"; "/mtu6"; "/txqueuelen"; "/speed"; "/duplex";
     "/statistics/rx_bytes"; "/statistics/tx_bytes"; "/statistics/rx_packets"; "/statistics/tx_packets";
     "/statistics/rx_errors"; "/statistics/tx_errors"; "/statistics/rx_dropped"; "/statistics/tx_dropped"] in
  argument "name" PString (VStr "{name}") (insert_parameter "name" string_parameter device).

Definition network_operations : option (list Operation) :=
  let fields := ["/up"; "/pending"; "/available"; "/autostart"; "/dynamic"; "/uptime"; "/proto"; "/device"; "/l3_device"; "/metric"] in
  operations ← operations_of [
    uci_read_with_options "network_interface_configuration" 2 UNetworkInterfaces
      [("proto", 64); ("device", 256); ("mtu", 32); ("metric", 32); ("auto", 8); ("defaultroute", 8); ("peerdns", 8);
       ("delegate", 8); ("ip4table", 64); ("ip6table", 64)]
      [("ipaddr", 1024); ("ip6addr", 1024); ("dns", 1024); ("ifname", 256)];
    network_device_status;
    Some (read "network_lan_status" "Read selected state of the conventional lan interface; unavailable if absent or renamed."
      Network "network.interface.lan" "status" "network_lan_status.v1" fields);
    Some (read "network_wan_status" "Read selected state of the conventional wan interface; unavailable if absent or renamed."
      Network "network.interface.wan" "status" "network_wan_status.v1" fields);
    Some network_interface_status; Some network_interfaces;
    Some network_addresses; Some network_routes; Some network_neighbors ];
  configuration ← network_configuration;
  Some (operations ++ configuration).

(** ** [dhcp_dns.rs] *)
Definition dhcp_interface_dns : Operation :=
  let lists '(name, source, field, max_bytes) :=
    (fun '(prefix, path) =>
       {| c_name := prefix +:+ name; c_presence := Optional;
          collection := ScalarArray (path +:+ source) 128 field (Text max_bytes) false |})
    <$> [("", "/"); ("inactive_", "/inactive/")] in
  interface_observation "dhcp_interface_dns"
    "Read one exact interface's bounded netifd DNS servers/search domains plus interface/up metadata. Discloses addresses/domains; preserves duplicates and omitted lists. Not effective resolver/dnsmasq configuration, cache or reachability. No DNS query or mutation."
    DhcpDns (concat (lists <$> [("servers", "dns-server", "address", 45); ("search_domains", "dns-search", "domain", 256)])).

Definition dhcp_leases (ipv6 : bool) : option Operation :=
  let '(name', source', address, max_address, family) :=
    if ipv6 then ("dhcp_v6_leases", "/dhcp6_leases", "ip6addr", 45, 6)
    else ("dhcp_v4_leases", "/dhcp_leases", "ipaddr", 15, 4) in
  let operation := read name'
    "Read bounded, non-atomic LuCI-visible lease-file rows, preserving duplicates/order. Discloses reported addresses, MAC/DUID/IAID, hostname and interface. expires_seconds is an integer or false (upstream no-expiry sentinel), not connected-client proof. Missing files/lines may be omitted upstream; no DNS lookup or mutation."
    DhcpDns "luci-rpc" "getDHCPLeases" (name' +:+ ".v1") [] in
  operation ← argument "family" PInteger (value_of_i64 family) operation;
  let fields :=
    [ observed_text address max_address Required;
      {| name := "expires_seconds"; source := "/expires"; presence := Required; kind := FalseOrSafeInteger 0 U32_MAX |} ]
    ++ ((fun '(name, max) => observed_text name max Optional)
          <$> [("interface", 256); ("hostname", 512); ("macaddr", 17); ("duid", 512); ("iaid", 64)]) in
  let collections :=
    if ipv6 then
      [ {| c_name := "ip6addrs"; c_presence := Required;
           collection := ScalarArray "/ip6addrs" 10 "address_prefix" (Text 49) false |} ]
    else [] in
  Some (with_output_mode (Typed (ProjectCollection ["/error"]
    (RowArray source' 128 {| fields := fields; collections := collections |}) All)) operation).

Definition dhcp_dns_operations : option (list Operation) :=
  operations ← operations_of [
    dhcp_leases false; dhcp_leases true; Some dhcp_interface_dns;
    uci_read_with_options "dhcp_dnsmasq_configuration" 2 UDnsmasq
      [("domain", 256); ("local", 256); ("port", 32); ("cachesize", 32); ("expandhosts", 8); ("domainneeded", 8);
       ("boguspriv", 8); ("rebind_protection", 8); ("noresolv", 8); ("localservice", 8); ("authoritative", 8);
       ("strictorder", 8); ("logqueries", 8)]
      [("server", 1024); ("address", 1024); ("interface", 256); ("notinterface", 256); ("rebind_domain", 1024);
       ("addnhosts", 1024)] ];
  configuration ← dhcp_dns_configuration;
  Some (operations ++ configuration).

(** ** [services.rs] *)
Definition service_projection (selection : Selection) : TypedProjection :=
  ProjectCollection []
    (ObjectEntries "" 128 {| id_name := "name"; id_max_bytes := 256 |}
      {| fields := [];
         collections := [
           {| c_name := "instances"; c_presence := Optional;
              collection := ObjectEntries "/instances" 128 {| id_name := "name"; id_max_bytes := 256 |}
                {| leaf_fields := [
                     {| name := "running"; source := "/running"; presence := Required; kind := Boolean |};
                     {| name := "pid"; source := "/pid"; presence := Optional; kind := SafeInteger 1 SAFE_INTEGER_MAX |};
                     {| name := "exit_code"; source := "/exit_code"; presence := Optional;
                        kind := SafeInteger 0 SAFE_INTEGER_MAX |} ] |} |} ] |})
    selection.

Definition service_status : option Operation :=
  let operation := read "service_status"
    "Read one exact service's instance names and running/PID/exit metadata, not command lines, configuration or health."
    Services "service" "list" "service_status.v1" [] in
  let operation := insert_parameter "name" string_parameter operation in
  operation ← argument "name" PString (VStr "{name}") operation;
  operation ← argument "verbose" PBoolean (VBool false) operation;
  Some (with_output_mode (Typed (service_projection (ExactOne "name"))) operation).

Definition service_status_list : option Operation :=
  let operation := read "service_status_list"
    "List bounded service and instance names and running/PID/exit metadata across categories, without configuration or command lines."
    Services "service" "list" "service_status_list.v1" [] in
  operation ← argument "verbose" PBoolean (VBool false) operation;
  Some (with_output_mode (Typed (service_projection All)) operation).

Definition services_operations : option (list Operation) :=
  let logd := read "service_logd_status"
    "Read running, pid and exit_code for the standard log/logd instance; a missing instance is unknown."
    Services "service" "list" "service_logd_status.v1"
    ["/log/instances/logd/running"; "/log/instances/logd/pid"; "/log/instances/logd/exit_code"] in
  logd ← argument "name" PString (VStr "log") logd;
  logd ← argument "verbose" PBoolean (VBool false) logd;
  let sysntpd := read "service_sysntpd_status"
    "Read running, pid and exit_code for the standard sysntpd/instance1 instance; a missing instance is unknown."
    Services "service" "list" "service_sysntpd_status.v1"
    ["/sysntpd/instances/instance1/running"; "/sysntpd/instances/instance1/pid"; "/sysntpd/instances/instance1/exit_code"] in
  sysntpd ← argument "name" PString (VStr "sysntpd") sysntpd;
  sysntpd ← argument "verbose" PBoolean (VBool false) sysntpd;
  operations_of [Some logd; Some sysntpd; service_status; service_status_list].

(** ** [storage.rs] *)
Definition storage_text (name source : string) (max_bytes : Z) (p : Presence) : ScalarField :=
  {| name := name; source := source; presence := p; kind := Text max_bytes |}.
Definition storage_bytes (name source : string) : ScalarField :=
  {| name := name; source := source; presence := Required; kind := DecimalCounter JsonInteger |}.

Definition storage_mounts : Operation :=
  with_output_mode (Typed (ProjectCollection ["/error"]
    (ObjectArray "/result" 128 "mount"
       {| fields := [ storage_text "mount" "/mount" 1024 Required; storage_text "device" "/device" 1024 Required;
                      storage_bytes "size_bytes" "/size"; storage_bytes "available_bytes" "/avail";
                      storage_bytes "free_bytes" "/free" ];
          collections := [] |})
    All))
  (read "storage_mounts"
    "Read up to 128 LuCI-visible mount/device paths and decimal-text capacity bytes. Non-atomic; failed/zero-block statvfs entries are omitted upstream, so empty is not proof of absence. May contact remote filesystems; no mount changes or file contents."
    Storage "luci" "getMountPoints" "storage_mounts.v2" []).

Definition storage_block_devices : Operation :=
  with_output_mode (Typed (ProjectCollection ["/error"]
    (ObjectEntries "" 128 {| id_name := "source_key"; id_max_bytes := 1024 |}
       {| fields := [ storage_text "device" "/dev" 1024 Required; storage_bytes "size_bytes" "/size";
                      storage_text "filesystem" "/type" 64 Required; storage_text "uuid" "/uuid" 256 Optional;
                      storage_text "label" "/label" 256 Optional; storage_text "version" "/version" 64 Optional;
                      storage_text "mount" "/mount" 1024 Optional ];
          collections := [] |})
    All))
  (read "storage_block_devices"
    "Read up to 128 LuCI-visible block/swap entries: source key, device path, decimal-text size, filesystem and optional UUID/label/version/mount. Non-atomic; empty/partial upstream results do not prove absence. Signature reads may spin up disks; no activation, repairs or file contents."
    Storage "luci" "getBlockDevices" "storage_block_devices.v2" []).

Definition storage_operations : option (list Operation) :=
  operations ← operations_of [
    Some storage_mounts; Some storage_block_devices;
    uci_read "storage_mount_configuration" UMounts
      [("device", 1024); ("uuid", 256); ("label", 256); ("target", 1024); ("fstype", 64); ("enabled", 8);
       ("enabled_fsck", 8)] ];
  configuration ← storage_configuration;
  Some (operations ++ configuration).

(** ** [wireless/observations.rs] *)
Definition wireless_device_read (name description method : string) : option Operation :=
  let operation := read name description Wireless "iwinfo" method (name +:+ ".v1") [] in
  argument "device" PString (VStr "{device}") (insert_parameter "device" string_parameter operation).
Definition wireless_field (name source : string) (p : Presence) (k : ScalarKind) : ScalarField :=
  {| name := name; source := source; presence := p; kind := k |}.
Definition wireless_text (name : string) (max_bytes : Z) : ScalarField :=
  wireless_field name ("/" +:+ name) Required (Text max_bytes).
Definition wireless_collection (identity : string) (max_items : Z) (fields : list ScalarField) (selection : Selection) :
    OutputMode :=
  Typed (ProjectCollection [] (ObjectArray "/results" max_items identity {| fields := fields; collections := [] |}) selection).

Definition wireless_stations (exact : bool) : option Operation :=
  let '(name, description) :=
    if exact then
      ("wireless_station_status",
       "Read one exact case-sensitive station MAC from a bounded passive association observation; no match is not proof of disconnection.")
    else
      ("wireless_stations",
       "Read bounded station MAC identities and link metrics without scanning; empty RPC results do not prove no clients or a healthy driver.") in
  operation ← wireless_device_read name description "assoclist";
  let '(operation, selection) :=
    if exact then (insert_parameter "mac" string_parameter operation, ExactOne "mac") else (operation, All) in
  let signed_signal := SafeInteger (-128) 127 in
  let fields :=
    [ wireless_text "mac" 17; wireless_field "signal_dbm" "/signal" Required signed_signal;
      wireless_field "noise_dbm" "/noise" Required signed_signal;
      wireless_field "signal_average_dbm" "/signal_avg" Optional signed_signal ]
    ++ ((fun '(name, source) => wireless_field name source Optional (SafeInteger 0 I32_MAX))
          <$> [("inactive_ms", "/inactive"); ("connected_seconds", "/connected_time");
               ("estimated_throughput_kbps", "/thr"); ("rx_rate_kbps", "/rx/rate"); ("rx_bandwidth_mhz", "/rx/mhz");
               ("tx_rate_kbps", "/tx/rate"); ("tx_bandwidth_mhz", "/tx/mhz")])
    ++ ((fun name => wireless_field name ("/" +:+ name) Optional Boolean) <$> ["authorized"; "authenticated"; "wme"; "mfp"])
    ++ ((fun '(name, source) => wireless_field name source Optional (DecimalCounter JsonInteger))
          <$> [("rx_bytes", "/rx/bytes"); ("tx_bytes", "/tx/bytes"); ("rx_dropped", "/rx/drop_misc")]) in
  Some (with_output_mode (wireless_collection "mac" 128 fields selection) operation).

Definition wireless_countries : option Operation :=
  operation ← wireless_device_read "wireless_countries"
    "Read bounded driver-reported country metadata, not regulatory permission; empty RPC results can also reflect driver failure. Does not set a country."
    "countrylist";
  Some (with_output_mode (wireless_collection "iso3166" 256
    [ wireless_text "iso3166" 2; wireless_text "code" 4; wireless_text "country" 256;
      wireless_field "active" "/active" Optional Boolean ] All) operation).

Definition wireless_observations : option (list Operation) :=
  operations_of [wireless_stations false; wireless_stations true; wireless_countries].

(** ** [wireless.rs] *)
Definition wireless_operations : option (list Operation) :=
  let radio := read "wireless_radio_info"
    "Read selected radio statistics without SSID or BSSID; requires rpcd-mod-iwinfo and a supported driver."
    Wireless "iwinfo" "info" "wireless_radio_info.v1"
    ["/phy"; "/mode"; "/country"; "/channel"; "/frequency"; "/txpower"; "/quality"; "/quality_max"; "/signal"; "/noise";
     "/bitrate"; "/encryption/enabled"] in
  radio ← argument "device" PString (VStr "{device}") (insert_parameter "device" string_parameter radio);
  let devices := with_output_mode
    (Typed (ProjectCollection [] (ScalarArray "/devices" 128 "device" (Text 256) true) All))
    (read "wireless_devices"
      "List unique bounded iwinfo-supported device names; an empty result does not prove physical radios are absent."
      Wireless "iwinfo" "devices" "wireless_devices.v1" []) in
  operations ← operations_of [
    Some radio; Some devices;
    uci_read "wireless_radio_configuration" UWirelessRadios
      [("type", 64); ("path", 256); ("macaddr", 17); ("disabled", 8); ("country", 8); ("channel", 32); ("htmode", 32);
       ("band", 16); ("txpower", 32)] ];
  observations ← wireless_observations;
  Some (operations ++ observations).

(** ** [lib.rs] *)
Definition builtins : option (list Operation) :=
  system ← system_operations;
  network ← network_operations;
  wireless ← wireless_operations;
  services ← services_operations;
  diagnostics ← diagnostics_operations;
  packages ← packages_operations;
  storage ← storage_operations;
  dhcp_dns ← dhcp_dns_operations;
  firewall ← firewall_operations;
  Some (system ++ network ++ wireless ++ services ++ diagnostics ++ packages ++ storage ++ dhcp_dns ++ firewall).

(** [None]: building the definitions panicked. *)
Definition catalog (definition_size : Operation -> option Z) (custom : list Operation) : option (result CoreError Catalog) :=
  builtins ← builtins; Some (with_builtins definition_size builtins custom).
