(* ===== verification/Installed.v ===== *)
(** * The derived encoding of a definition

    What [serde_json::to_vec] writes for an [Operation]: the [Serialize]
    implementations that the attributes of [operation.rs], [capability.rs],
    [policy.rs] and [projection.rs] derive.  Fields keep their declared order,
    names are in snake case, and a variant is tagged by its [kind]. *)
From S2P Require Import Prelude Order Text Json Core Packages Schema Evaluate Operation Invocation Catalog Preparation Builtins.
Open Scope Z_scope.

Definition wire_text (s : string) : value := VStr s.
Definition wire_usize (n : Z) : value := VNum (PosInt n).
Definition wire_list {A} (f : A -> value) (l : list A) : value := VArr (f <$> l).
Definition wire_map {A} (f : A -> value) (m : list (string * A)) : value := VObj ((fun p => (fst p, f (snd p))) <$> m).
Definition tagged (kind : string) (fields : list (string * value)) : value := VObj (("kind", VStr kind) :: fields).

Definition wire_category (c : Category) : value :=
  VStr match c with
       | System => "system" | Network => "network" | Wireless => "wireless" | Firewall => "firewall"
       | DhcpDns => "dhcp_dns" | Services => "services" | Packages => "packages" | Storage => "storage" | Vpn => "vpn"
       | Firmware => "firmware" | Diagnostics => "diagnostics" | Extensions => "extensions"
       end.
Definition wire_permission (p : Permission) : value :=
  VStr match p with Read => "read" | Write => "write" | Execute => "execute" end.
Definition wire_requirement (r : Requirement) : value :=
  VObj [("category", wire_category (category r)); ("permission", wire_permission (permission r))].

Definition wire_kind (k : ParameterKind) : value :=
  VStr match k with PString => "string" | PInteger => "integer" | PBoolean => "boolean" end.
Definition wire_parameter (p : ParamSpec) : value :=
  VObj [("kind", wire_kind (p_kind p)); ("required", VBool (p_required p)); ("allowed_values", wire_list wire_text (allowed_values p))].

Definition wire_action (a : Action) : value :=
  match a with
  | ApkInstalledPage => tagged "apk_installed_page" []
  | OpkgStatusPage => tagged "opkg_status_page" []
  | Ubus object method arguments =>
      tagged "ubus" [("object", VStr object); ("method", VStr method); ("arguments", VObj arguments)]
  | Process program args => tagged "process" [("program", VStr program); ("args", wire_list wire_text args)]
  end.
Definition wire_capability (c : CapabilityRequirement) : value :=
  match c with
  | ApkInstalledQuery => tagged "apk_installed_query" []
  | OpkgRootStatusFile => tagged "opkg_root_status_file" []
  | UbusMethod object method arguments contract =>
      tagged "ubus_method" [("object", VStr object); ("method", VStr method); ("arguments", wire_map wire_kind arguments);
                            ("response_contract", VStr contract)]
  | Unverified => tagged "unverified" []
  end.

Definition wire_presence (p : Presence) : value := VStr match p with Required => "required" | Optional => "optional" end.
Definition wire_scalar (k : ScalarKind) : value :=
  match k with
  | Boolean => tagged "boolean" []
  | Text max_bytes => tagged "text" [("max_bytes", wire_usize max_bytes)]
  | TextEnum max_bytes values => tagged "text_enum" [("max_bytes", wire_usize max_bytes); ("values", wire_list wire_text values)]
  | SafeInteger min max => tagged "safe_integer" [("min", value_of_i64 min); ("max", value_of_i64 max)]
  | FalseOrSafeInteger min max => tagged "false_or_safe_integer" [("min", value_of_i64 min); ("max", value_of_i64 max)]
  | DecimalCounter source =>
      tagged "decimal_counter" [("source", VStr match source with JsonInteger => "json_integer" | DecimalText => "decimal_text" end)]
  end.
Definition wire_field (f : ScalarField) : value :=
  VObj [("name", VStr (name f)); ("source", VStr (source f)); ("presence", wire_presence (presence f)); ("value", wire_scalar (kind f))].
Definition wire_identity (t : TextIdentity) : value :=
  VObj [("name", VStr (id_name t)); ("max_bytes", wire_usize (id_max_bytes t))].
Definition wire_leaf (r : LeafRecord) : value := VObj [("fields", wire_list wire_field (leaf_fields r))].

Section record.
Context {R : Type} (wire_record : R -> value).
Definition wire_collection (c : Collection R) : value :=
  match c with
  | TextOption source max_items max_bytes =>
      tagged "text_option" [("source", VStr source); ("max_items", wire_usize max_items); ("max_bytes", wire_usize max_bytes)]
  | RowArray source max_items record =>
      tagged "row_array" [("source", VStr source); ("max_items", wire_usize max_items); ("record", wire_record record)]
  | ObjectArray source max_items identity record =>
      tagged "object_array" [("source", VStr source); ("max_items", wire_usize max_items); ("identity", VStr identity);
                             ("record", wire_record record)]
  | ObjectEntries source max_items key record =>
      tagged "object_entries" [("source", VStr source); ("max_items", wire_usize max_items); ("key", wire_identity key);
                               ("record", wire_record record)]
  | ScalarArray source max_items name k unique =>
      tagged "scalar_array" [("source", VStr source); ("max_items", wire_usize max_items); ("name", VStr name);
                             ("value", wire_scalar k); ("unique", VBool unique)]
  end.
(** A record whose collections have records of type [R]. *)
Definition wire_schema (r : SchemaRecord (Collection R)) : value :=
  VObj [("fields", wire_list wire_field (fields r));
        ("collections", wire_list (fun f => VObj [("name", VStr (c_name f)); ("presence", wire_presence (c_presence f));
                                                  ("collection", wire_collection (collection f))]) (collections r))].
End record.

Definition wire_inner (r : InnerRecord) : value := wire_schema wire_leaf r.
Definition wire_root (r : RootRecord) : value := wire_schema wire_inner r.
Definition wire_selection (s : Selection) : value :=
  match s with All => tagged "all" [] | ExactOne parameter => tagged "exact_one" [("parameter", VStr parameter)] end.
(** [skip_serializing_if = "Vec::is_empty"] *)
Definition wire_guards (guards : list string) : list (string * value) :=
  match guards with [] => [] | _ => [("reject_if_present", wire_list wire_text guards)] end.
Definition wire_projection (p : TypedProjection) : value :=
  match p with
  | ProjectRecord guards record => tagged "record" (wire_guards guards ++ [("record", wire_root record)])
  | ProjectCollection guards collection selection =>
      tagged "collection" (wire_guards guards ++ [("collection", wire_collection wire_inner collection);
                                                  ("selection", wire_selection selection)])
  end.
Definition wire_mode (m : OutputMode) : value :=
  match m with
  | Scalars => VStr "scalars"
  | Structured => VStr "structured"
  | Typed projection => VObj [("typed", wire_projection projection)]
  end.

Definition wire_operation (o : Operation) : value :=
  VObj [("name", VStr (op_name o)); ("description", VStr (description o));
        ("requirements", wire_list wire_requirement (requirements o));
        ("parameters", wire_map wire_parameter (parameters o)); ("action", wire_action (action o));
        ("capability", wire_capability (capability o)); ("output_fields", wire_list wire_text (output_fields o));
        ("output_mode", wire_mode (output_mode o))].
Definition wire_size (o : Operation) : option Z := Some (json_size (wire_operation o)).

(** * The built-in catalog

    What holds of every operation of Builtins.v, checked by computation on the
    definitions and lifted to every caller, and the encoding of a definition
    that instantiates [definition_size]. *)
From Stdlib Require Import Sorting.Sorted.

(** ** Maps of the definitions *)
Definition bt_sorted {V} (m : list (string * V)) : bool := negb (windows2_any (fun x y => leb (fst y) (fst x)) m).

Lemma bt_sorted_wf {V} (m : list (string * V)) : bt_sorted m = true -> bt_wf m.
Proof.
  unfold bt_sorted, bt_wf, strict. rewrite negb_true_iff, windows2_any_false. intros Hw.
  apply Sorted_StronglySorted; [intros x y z; unfold key_lt; apply lt_trans |].
  induction m as [| x [| y m] IH]; [constructor | by repeat constructor |]. constructor.
  - apply IH. intros i. apply (Hw (S i)).
  - constructor. specialize (Hw 0%nat x y eq_refl eq_refl). cbv beta in Hw. unfold key_lt, lt.
    unfold leb in Hw. rewrite (cmp_opp (fst y) (fst x)). by destruct (cmp (fst y) (fst x)).
Qed.

(** ** The calls that were reviewed

    Every object and method that a built-in may call, with the template of its
    arguments: a constant, or the caller's value of a parameter. *)
Definition reviewed_reads : list (string * string * list (string * value)) := [
  ("system", "board", []); ("system", "info", []); ("system", "watchdog", []);
  ("network.device", "status", [("name", VStr "{name}")]);
  ("network.interface.lan", "status", []); ("network.interface.wan", "status", []); ("network.interface", "dump", []);
  ("iwinfo", "info", [("device", VStr "{device}")]); ("iwinfo", "devices", []);
  ("iwinfo", "assoclist", [("device", VStr "{device}")]); ("iwinfo", "countrylist", [("device", VStr "{device}")]);
  ("service", "list", [("name", VStr "log"); ("verbose", VBool false)]);
  ("service", "list", [("name", VStr "sysntpd"); ("verbose", VBool false)]);
  ("service", "list", [("name", VStr "{name}"); ("verbose", VBool false)]);
  ("service", "list", [("verbose", VBool false)]);
  ("luci", "getMountPoints", []); ("luci", "getBlockDevices", []);
  ("luci-rpc", "getDHCPLeases", [("family", value_of_i64 4)]); ("luci-rpc", "getDHCPLeases", [("family", value_of_i64 6)]) ].
Definition uci_template (p : UciReadProfile) : string * string * list (string * value) :=
  ("uci", "get", [("config", VStr (config p)); ("type", VStr (section_type p))]).
Definition reviewed_calls : list (string * string * list (string * value)) :=
  reviewed_reads ++ (uci_template <$> UciReadProfile_ALL).

(** Equality of constants. *)
Definition constant_eqb (v w : value) : bool :=
  match v, w with
  | VStr s, VStr t => String.eqb s t
  | VBool b, VBool c => Bool.eqb b c
  | VNum (PosInt n), VNum (PosInt m) | VNum (NegInt n), VNum (NegInt m) => n =? m
  | _, _ => false
  end.
Lemma constant_eqb_eq v w : constant_eqb v w = true -> v = w.
Proof.
  destruct v as [| b | [] | | |], w as [| b' | [] | | |]; cbn; try done; intros E.
  - by apply Bool.eqb_prop in E as ->.
  - by apply Z.eqb_eq in E as ->.
  - by apply Z.eqb_eq in E as ->.
  - by apply String.eqb_eq in E as ->.
Qed.

Fixpoint template_eqb (l k : list (string * value)) : bool :=
  match l, k with
  | [], [] => true
  | (a, v) :: l, (b, w) :: k => String.eqb a b && constant_eqb v w && template_eqb l k
  | _, _ => false
  end.
Lemma template_eqb_eq l k : template_eqb l k = true -> l = k.
Proof.
  revert k. induction l as [| [a v] l IH]; intros [| [b w] k]; cbn [template_eqb]; try done.
  intros [[Ha Hv]%andb_true_iff Hl]%andb_true_iff. apply String.eqb_eq in Ha as ->.
  apply constant_eqb_eq in Hv as ->. by apply IH in Hl as ->.
Qed.

Definition is_reviewed (a : Action) : bool :=
  match a with
  | Ubus object method template =>
      existsb (fun '(o, m, t) => String.eqb o object && String.eqb m method && template_eqb t template) reviewed_calls
  | Process _ _ => false
  | ApkInstalledPage | OpkgStatusPage => true
  end.
Lemma is_reviewed_spec object method template :
  is_reviewed (Ubus object method template) = true -> (object, method, template) ∈ reviewed_calls.
Proof.
  intros (([o m] & t) & Hin & Hb)%existsb_exists. apply list_elem_of_In in Hin.
  apply andb_true_iff in Hb as [[Ho Hm]%andb_true_iff Ht].
  apply String.eqb_eq in Ho as ->. apply String.eqb_eq in Hm as ->. by apply template_eqb_eq in Ht as ->.
Qed.

(** ** What every built-in satisfies *)
Definition reads_only (o : Operation) : bool :=
  match requirements o with [r] => bool_decide (permission r = Read) | _ => false end.
Definition builtin_ok (o : Operation) : bool :=
  is_ok (validate (fun _ => Some 0) o) && reads_only o && is_reviewed (action o)
  && bt_sorted (parameters o) && match action o with Ubus _ _ arguments => bt_sorted arguments | _ => true end.

Lemma builtins_checked :
  match builtins with
  | Some l => (forallb builtin_ok l && Nat.eqb (length l) 55 && all_distinct (op_name <$> l)
               && negb (existsb (fun o => is_structured (output_mode o)) l)) = true
  | None => False
  end.
Proof. vm_compute. reflexivity. Qed.

Lemma builtins_Some : exists l, builtins = Some l /\ Forall (fun o => builtin_ok o = true) l /\ length l = 55%nat
  /\ NoDup (op_name <$> l) /\ existsb (fun o => is_structured (output_mode o)) l = false.
Proof.
  pose proof builtins_checked as Hb. destruct builtins as [l |]; [| done]. exists l. split; [done |].
  apply andb_true_iff in Hb as [[[Hf Hl]%andb_true_iff Hd]%andb_true_iff Hs%negb_true_iff].
  repeat split; [| by apply Nat.eqb_eq | by apply all_distinct_NoDup | done].
  apply Forall_forall. intros o Ho. apply list_elem_of_In in Ho. exact (proj1 (forallb_forall _ _) Hf o Ho).
Qed.

(** The size of the encoding only matters at the end of [validate]. *)
Lemma validate_size definition_size o n :
  validate (fun _ => Some 0) o = Ok tt -> definition_size o = Some n -> n <= MAX_DEFINITION_BYTES ->
  validate definition_size o = Ok tt.
Proof.
  unfold validate. intros Hv Hs Hn. apply fail_if_ok in Hv as [-> Hv]. apply fail_if_ok in Hv as [-> Hv].
  apply rbind_ok in Hv as (used & -> & Hv). cbn [rbind]. apply rbind_ok in Hv as (used' & -> & Hv). cbn [rbind].
  apply fail_if_ok in Hv as [-> Hv]. apply rbind_ok in Hv as ([] & -> & Hv). cbn [rbind].
  apply rbind_ok in Hv as ([] & -> & _). cbn [rbind]. rewrite Hs. cbn [ok_or rbind].
  by rewrite (proj2 (Z.ltb_ge _ _) Hn).
Qed.

Lemma builtins_validate definition_size l :
  (forall o, o ∈ l -> exists n, definition_size o = Some n /\ n <= MAX_DEFINITION_BYTES) ->
  Forall (fun o => builtin_ok o = true) l -> validate_all definition_size l = Ok tt.
Proof.
  intros Hs Hl. apply validate_all_Forall, Forall_forall. intros o Ho. rewrite Forall_forall in Hl.
  specialize (Hl o Ho). destruct (Hs o Ho) as (n & Hn & Hle). unfold builtin_ok in Hl.
  repeat (apply andb_true_iff in Hl as [Hl _]). apply is_ok_true in Hl as [[] Hv]. by eapply validate_size.
Qed.

(** C23: the built-in catalog installs: building the definitions never reaches an [unreachable!], all 55 have distinct
    names, are well formed and pass the complete validation of their schemas, arguments and capabilities, and the
    catalog of a server without extensions is exactly these operations, each requiring read access to one category and
    nothing else. *)
Theorem builtin_catalog_installed definition_size :
  (forall l o, builtins = Some l -> o ∈ l -> exists n, definition_size o = Some n /\ n <= MAX_DEFINITION_BYTES) ->
  exists l c, builtins = Some l /\ catalog definition_size [] = Some (Ok c) /\ operations c = l /\ length l = 55%nat
    /\ NoDup (op_name <$> l)
    /\ Forall (fun o => operation_wf o /\ validate definition_size o = Ok tt
                        /\ exists c, requirements o = [{| category := c; permission := Read |}]) l.
Proof.
  intros Hs. destruct builtins_Some as (l & Hl & Hok & Hlen & Hnd & Hst).
  pose proof (builtins_validate definition_size l (fun o => Hs l o Hl) Hok) as Hv.
  exists l, {| operations := l; index := index_from 0 ∅ l |}. split; [done |]. split; [| split; [done | split; [done | split; [done |]]]].
  - unfold catalog. rewrite Hl. cbn [mbind option_bind]. unfold with_builtins. cbn [length]. rewrite Hst. cbn [install rbind].
    assert (Nat.eqb (length (remove_dups (op_name <$> l))) (length l) = true) as ->.
    { apply Nat.eqb_eq. rewrite (proj2 (remove_dups_distinct _) Hnd). by rewrite length_fmap. }
    cbn [negb]. by rewrite Hv.
  - apply validate_all_Forall in Hv. apply Forall_forall. intros o Ho. rewrite Forall_forall in Hok, Hv.
    specialize (Hok o Ho). specialize (Hv o Ho). unfold builtin_ok in Hok.
    apply andb_true_iff in Hok as [[[[_ Hr]%andb_true_iff _]%andb_true_iff Hp]%andb_true_iff Ha].
    split; [| split; [done |]].
    + split; [by apply bt_sorted_wf |]. destruct (action o); try done. by apply bt_sorted_wf.
    + unfold reads_only in Hr. destruct (requirements o) as [| [c p] [|]]; try done. exists c.
      apply bool_decide_eq_true in Hr. cbn in Hr. by rewrite Hr.
Qed.

(** A built-in operation can only read: whatever the caller's arguments, a prepared built-in is a package page or
    a ubus call of one of the reviewed read methods whose transmitted arguments are the reviewed constants and the
    caller's validated values of declared parameters (a UCI read always names the config and the section type of its
    recipe, and the watchdog is queried with no arguments); it is never a process. *)
Theorem builtin_calls_reviewed definition_size l o input p :
  builtins = Some l -> o ∈ l -> prepare definition_size o input = Ok p ->
  match p with
  | PreparedApk _ | PreparedOpkg _ => True
  | PreparedUbus object method arguments =>
      exists template values, input = VObj values /\ (object, method, template) ∈ reviewed_calls
        /\ arguments = VObj (omap (resolve values) template)
  | PreparedProcess _ _ => False
  end.
Proof.
  intros Hl Ho Hp. destruct builtins_Some as (l' & Hl' & Hok & _). rewrite Hl in Hl'. injection Hl' as <-.
  rewrite Forall_forall in Hok. specialize (Hok o Ho). unfold builtin_ok in Hok.
  apply andb_true_iff in Hok as [[[_ Hr]%andb_true_iff _]%andb_true_iff Ha].
  pose proof (prepare_ok_parts _ _ _ _ Hp) as (values & -> & _ & _ & _ & Hu & _).
  destruct (action o) as [| | object method template | program args] eqn:Ea.
  - unfold prepare in Hp. rewrite Ea in Hp. by repeat (apply rbind_ok in Hp as (? & _ & Hp) || apply fail_if_ok in Hp as [_ Hp] || injection Hp as <-).
  - unfold prepare in Hp. rewrite Ea in Hp. by repeat (apply rbind_ok in Hp as (? & _ & Hp) || apply fail_if_ok in Hp as [_ Hp] || injection Hp as <-).
  - rewrite (Hu _ _ _ eq_refl). exists template, values. split; [done |]. split; [by apply is_reviewed_spec |].
    by rewrite prepare_arguments_resolve by (try apply Forall_nil_2; by apply bt_sorted_wf).
  - done.
Qed.

(** ** With the derived encoding *)
Lemma wire_sizes_checked :
  match builtins with
  | Some l => forallb (fun o => json_size (wire_operation o) <=? MAX_DEFINITION_BYTES) l = true
  | None => True
  end.
Proof. vm_compute. reflexivity. Qed.

Lemma wire_size_builtins l o : builtins = Some l -> o ∈ l -> exists n, wire_size o = Some n /\ n <= MAX_DEFINITION_BYTES.
Proof.
  intros Hl Ho. exists (json_size (wire_operation o)). split; [done |]. pose proof wire_sizes_checked as Hw. rewrite Hl in Hw.
  apply list_elem_of_In in Ho. by apply Z.leb_le, (proj1 (forallb_forall _ _) Hw).
Qed.

Lemma builtin_catalog_installed_witness :
  exists l c, builtins = Some l /\ catalog wire_size [] = Some (Ok c) /\ operations c = l /\ length l = 55%nat.
Proof.
  destruct (builtin_catalog_installed wire_size wire_size_builtins) as (l & c & H1 & H2 & H3 & H4 & _).
  exists l, c. exact (conj H1 (conj H2 (conj H3 H4))).
Defined.

Definition demo_radio : Operation := default (read "" "" System "" "" "" []) (l ← wireless_operations; head l).
Definition demo_device : value := VObj [("device", VStr "phy0")].

Lemma demo_radio_installed : (l ← builtins; l !! 22%nat) = Some demo_radio.
Proof. vm_compute. reflexivity. Qed.

Lemma builtin_calls_reviewed_witness :
  prepare wire_size demo_radio demo_device = Ok (PreparedUbus "iwinfo" "info" (VObj [("device", VStr "phy0")]))
  /\ exists l, builtins = Some l /\ demo_radio ∈ l
     /\ exists template values, demo_device = VObj values /\ ("iwinfo", "info", template) ∈ reviewed_calls
        /\ VObj [("device", VStr "phy0")] = VObj (omap (resolve values) template).
Proof.
  assert (Hp : prepare wire_size demo_radio demo_device = Ok (PreparedUbus "iwinfo" "info" (VObj [("device", VStr "phy0")])))
    by (vm_compute; reflexivity).
  split; [exact Hp |].
  destruct builtins_Some as (l & Hl & _). assert (Ho : demo_radio ∈ l).
  { apply (list_elem_of_lookup_2 l 22). pose proof demo_radio_installed as Hr. by rewrite Hl in Hr. }
  exists l. split; [exact Hl |]. split; [exact Ho |].
  exact (builtin_calls_reviewed wire_size l demo_radio demo_device _ Hl Ho Hp).
Defined.
