(* ===== verification/Backups.v ===== *)
(** * Backup artifacts and mutation budgets

    [crates/runtime/src/backups/mod.rs] and [mutation_ports/]: the binding of
    an artifact with its 88-byte encoding, captures, the shared work budget,
    and the operator's secrets. *)
From S2P Require Import Prelude Text.
Open Scope Z_scope.

Inductive MutationError : Type :=
| MInvalid | MLimit | MCancelled | MDeadline | MBusy | MUnavailable | MIntegrity | MUnknown.
Inductive BackupError : Type :=
| Invalid | Limit | Cancelled | Deadline | Busy | Unavailable | Integrity | BUnknown.

#[export] Instance BackupError_eq_dec : EqDecision BackupError.
Proof. solve_decision. Defined.

(** [From<MutationError> for BackupError] *)
Definition backup_error (e : MutationError) : BackupError :=
  match e with
  | MCancelled => Cancelled
  | MDeadline => Deadline
  | MBusy => Busy
  | MLimit => Limit
  | MInvalid => Invalid
  | MIntegrity => Integrity
  | MUnknown => BUnknown
  | MUnavailable => Unavailable
  end.

Definition MAX_PLAINTEXT : Z := 131072.
Definition MAX_CIPHERTEXT : Z := 1048576.
Definition MAX_STORE_BYTES : Z := 33562688.
Definition MAX_RECORDS : Z := 32.
Definition BINDING_BYTES : nat := 88.
Definition ID : nat := 16.

Inductive ArchiveFormat : Type := TarFormat | GzipFormat.
#[export] Instance ArchiveFormat_eq_dec : EqDecision ArchiveFormat.
Proof. solve_decision. Defined.

(** ** Bindings *)
Record ArtifactBinding : Type := { encoded : list Z }.
#[export] Instance ArtifactBinding_eq_dec : EqDecision ArtifactBinding.
Proof. solve_decision. Defined.

Definition zero_id : list Z := repeat 0 ID.
Definition SYSTEM_TAG : list Z := str_bytes "SYSv001".

Definition format_byte (f : ArchiveFormat) : Z := match f with TarFormat => 0 | GzipFormat => 1 end.

(** [ArtifactBinding::system]; the identifiers are arrays of 16 bytes. *)
Definition binding_system (store target boot job : list Z) (file_bytes source_bytes : Z) (format : ArchiveFormat) :
    result BackupError ArtifactBinding :=
  fail_if existsb (fun id => bool_decide (id = zero_id)) [store; target; boot; job]
       || (65536 <? file_bytes) || (source_bytes =? 0) || (MAX_PLAINTEXT <? source_bytes) with Invalid in
  Ok {| encoded := store ++ target ++ boot ++ job ++ to_be 8 file_bytes ++ to_be 8 source_bytes
                   ++ [format_byte format] ++ SYSTEM_TAG |}.

Definition binding_decode (bytes : list Z) : result BackupError ArtifactBinding :=
  fail_if negb (Nat.eqb (length bytes) BINDING_BYTES) || negb (bool_decide (drop 81 bytes = SYSTEM_TAG)) with Integrity in
  let id start := slice start ID bytes in
  let number start := be_value (slice start 8 bytes) in
  let? format :=
    match bytes !! 80%nat with
    | Some 0 => Ok TarFormat
    | Some 1 => Ok GzipFormat
    | _ => Err Integrity
    end in
  binding_system (id 0%nat) (id 16%nat) (id 32%nat) (id 48%nat) (number 64%nat) (number 72%nat) format.

Definition b_store (b : ArtifactBinding) : list Z := slice 0 ID (encoded b).
Definition b_target (b : ArtifactBinding) : list Z := slice 16 ID (encoded b).
Definition b_job (b : ArtifactBinding) : list Z := slice 48 ID (encoded b).
Definition b_file_bytes (b : ArtifactBinding) : Z := be_value (slice 64 8 (encoded b)).
Definition b_source_bytes (b : ArtifactBinding) : Z := be_value (slice 72 8 (encoded b)).
Definition b_format (b : ArtifactBinding) : ArchiveFormat :=
  if bool_decide (encoded b !! 80%nat = Some 0) then TarFormat else GzipFormat.

(** ** Captures *)
Record CapturedArchive : Type := { c_binding : ArtifactBinding; c_bytes : list Z }.
Definition captured_completed (binding : ArtifactBinding) (bytes : list Z) (producer_bytes : Z) :
    result BackupError CapturedArchive :=
  fail_if negb (zlen bytes =? b_source_bytes binding) || negb (producer_bytes =? b_source_bytes binding)
       || (MAX_PLAINTEXT <? zlen bytes) with Integrity in
  Ok {| c_binding := binding; c_bytes := bytes |}.

Inductive MacPurpose : Type := StoreHeader | ArtifactRecord.
#[export] Instance MacPurpose_eq_dec : EqDecision MacPurpose.
Proof. solve_decision. Defined.

Record BackupInspection : Type := { i_source_bytes : Z; i_payload_bytes : Z; i_files : Z }.
Inductive RecordPublication : Type := Durable | NotRecorded | RecordUnknown.

(** ** The work budget *)

(** [WorkBudget::check] on the flag and the clock it reads. *)
Definition work_check (deadline : Z) (cancelled : bool) (now : Z) : result MutationError unit :=
  if cancelled then Err MCancelled
  else if deadline <=? now then Err MDeadline
  else Ok tt.

(** [WorkBudget::new]: the deadline, in nanoseconds. *)
Definition work_new (timeout now : Z) : result MutationError Z :=
  fail_if (timeout =? 0) || (30000000000 <? timeout) with MInvalid in Ok (now + timeout).

(** ** Secrets *)
Inductive SecretPurpose : Type := WirelessPassword | WireGuardPrivateKey | ServiceToken.
#[export] Instance SecretPurpose_eq_dec : EqDecision SecretPurpose.
Proof. solve_decision. Defined.

Definition secret_reference (alias : string) : result MutationError string :=
  fail_if is_empty alias || (64 <? slen alias)
       || negb (all_bytes (fun b => is_ascii_alphanumeric b || byte_in "_-" b) alias) with MInvalid in
  Ok alias.

Record SecretValue : Type := { secret_bytes : list Z; secret_purpose : SecretPurpose }.
Definition secret_value (bytes : list Z) (purpose : SecretPurpose) : result MutationError SecretValue :=
  fail_if Nat.eqb (length bytes) 0 || (65536 <? zlen bytes) with MLimit in
  Ok {| secret_bytes := bytes; secret_purpose := purpose |}.
Definition expose_for (v : SecretValue) (purpose : SecretPurpose) : result MutationError (list Z) :=
  fail_if negb (bool_decide (secret_purpose v = purpose)) with MInvalid in
  Ok (secret_bytes v).

(** ** The encoding of a binding *)
Lemma Ok_encoded l (b : ArtifactBinding) : @Ok BackupError _ {| encoded := l |} = Ok b -> encoded b = l.
Proof. by intros [=]; subst. Qed.

Lemma fixed_parts {A} (bytes : list A) : length bytes = 88%nat ->
  bytes = slice 0 16 bytes ++ slice 16 16 bytes ++ slice 32 16 bytes ++ slice 48 16 bytes ++ slice 64 8 bytes
          ++ slice 72 8 bytes ++ slice 80 1 bytes ++ drop 81 bytes.
Proof.
  intros Hl. rewrite <- (drop_slice 80 1), <- (drop_slice 72 8), <- (drop_slice 64 8), <- (drop_slice 48 16), <- (drop_slice 32 16),
    <- (drop_slice 16 16). by rewrite <- (drop_slice 0 16).
Qed.

Lemma slice_bytes (P : Z -> Prop) start len l : Forall P l -> Forall P (slice start len l).
Proof. intros Hl. unfold slice. by apply Forall_take, Forall_drop. Qed.

Lemma slice_one (l : list Z) i x : l !! i = Some x -> slice i 1 l = [x].
Proof. intros Hi. unfold slice. by rewrite (drop_S l x i Hi). Qed.

(** Decoding accepts only encodings: nothing of the bytes is lost. *)
Lemma binding_decode_encoded bytes b : Forall is_byte bytes -> binding_decode bytes = Ok b -> encoded b = bytes.
Proof.
  unfold binding_decode, binding_system. intros Hb Hd. apply fail_if_ok in Hd as [Hl Hd].
  apply orb_false_iff in Hl as [Hl%negb_false_iff%Nat.eqb_eq Ht%negb_false_iff%bool_decide_eq_true].
  apply rbind_ok in Hd as (format & Hf & Hd). apply fail_if_ok in Hd as [_ ->%Ok_encoded].
  assert (Hn : forall start, (start + 8 <= 88)%nat -> to_be 8 (be_value (slice start 8 bytes)) = slice start 8 bytes).
  { intros start Hs. rewrite <- (to_be_be_value (slice start 8 bytes)) at 2 by by apply slice_bytes.
    by rewrite length_slice by (unfold BINDING_BYTES in Hl; lia). }
  cbv beta zeta. rewrite !Hn by lia. rewrite <- Ht. unfold ID.
  assert ([format_byte format] = slice 80 1 bytes) as ->; [| symmetry; by apply fixed_parts].
  destruct (bytes !! 80%nat) as [[| [] |] |] eqn:E; try done; injection Hf as <-; symmetry; by apply slice_one.
Qed.

Definition id_ok (id : list Z) : Prop := length id = ID /\ Forall is_byte id.

(** What a binding was made from. *)
Lemma binding_system_parts store target boot job file_bytes source_bytes format b :
  id_ok store -> id_ok target -> id_ok boot -> id_ok job -> 0 <= file_bytes -> 0 <= source_bytes ->
  binding_system store target boot job file_bytes source_bytes format = Ok b ->
  Forall is_byte (encoded b) /\ length (encoded b) = BINDING_BYTES /\ drop 81 (encoded b) = SYSTEM_TAG
  /\ b_store b = store /\ b_target b = target /\ slice 32 ID (encoded b) = boot /\ b_job b = job
  /\ b_file_bytes b = file_bytes /\ b_source_bytes b = source_bytes /\ encoded b !! 80%nat = Some (format_byte format).
Proof.
  intros [L1 B1] [L2 B2] [L3 B3] [L4 B4] Hf Hs Hb. unfold binding_system in Hb. apply fail_if_ok in Hb as [Hc Hb%Ok_encoded].
  apply orb_false_iff in Hc as [[[_ Hc1%Z.ltb_ge]%orb_false_iff _]%orb_false_iff Hc2%Z.ltb_ge]. unfold MAX_PLAINTEXT in Hc2.
  unfold b_store, b_target, b_job, b_file_bytes, b_source_bytes. rewrite Hb. clear Hb. unfold ID in *.
  pose proof (length_to_be 8 file_bytes) as Lf. pose proof (length_to_be 8 source_bytes) as Ls.
  split; [| split; [rewrite !length_app; unfold SYSTEM_TAG; cbn [length str_bytes]; rewrite L1, L2, L3, L4, Lf, Ls; reflexivity |]].
  { rewrite !Forall_app. repeat split; try done; try apply to_be_bytes.
    - repeat constructor; by destruct format; unfold is_byte; cbn.
    - by repeat constructor; unfold is_byte. }
  assert (Hd : forall (l1 l2 l3 l4 l5 l6 l7 l8 : list Z), length l1 = 16%nat -> length l2 = 16%nat -> length l3 = 16%nat ->
    length l4 = 16%nat -> length l5 = 8%nat -> length l6 = 8%nat -> length l7 = 1%nat ->
    let l := l1 ++ l2 ++ l3 ++ l4 ++ l5 ++ l6 ++ l7 ++ l8 in
    drop 81 l = l8 /\ slice 0 16 l = l1 /\ slice 16 16 l = l2 /\ slice 32 16 l = l3 /\ slice 48 16 l = l4 /\ slice 64 8 l = l5
    /\ slice 72 8 l = l6 /\ slice 80 1 l = l7).
  { intros l1 l2 l3 l4 l5 l6 l7 l8 E1 E2 E3 E4 E5 E6 E7 l. subst l. unfold slice.
    repeat split; rewrite ?drop_app, ?E1, ?E2, ?E3, ?E4, ?E5, ?E6, ?E7; cbn [Nat.sub drop];
      rewrite ?(drop_ge l1), ?(drop_ge l2), ?(drop_ge l3), ?(drop_ge l4), ?(drop_ge l5), ?(drop_ge l6), ?(drop_ge l7) by lia;
      cbn [app drop]; rewrite ?drop_0; rewrite ?take_app_le by lia; try (by apply take_ge; lia); done. }
  destruct (Hd store target boot job (to_be 8 file_bytes) (to_be 8 source_bytes) [format_byte format] SYSTEM_TAG)
    as (D & S1 & S2 & S3 & S4 & S5 & S6 & S7); try done.
  rewrite D, S1, S2, S3, S4, S5, S6. rewrite !be_value_to_be by (cbn; lia). repeat split; try done.
  unfold slice in S7. destruct (_ !! 80%nat) eqn:E in |- *.
  - rewrite (drop_S _ _ _ E) in S7. by injection S7 as ->.
  - apply lookup_ge_None in E. by rewrite drop_ge in S7.
Qed.

Lemma binding_roundtrip store target boot job file_bytes source_bytes format b :
  id_ok store -> id_ok target -> id_ok boot -> id_ok job -> 0 <= file_bytes -> 0 <= source_bytes ->
  binding_system store target boot job file_bytes source_bytes format = Ok b -> binding_decode (encoded b) = Ok b.
Proof.
  intros H1 H2 H3 H4 Hf Hs Hb. pose proof (binding_system_parts _ _ _ _ _ _ _ b H1 H2 H3 H4 Hf Hs Hb) as (_ & Hl & Ht & E1 & E2 & E3 & E4 & E5 & E6 & E7).
  unfold binding_decode. rewrite Hl, Ht, Nat.eqb_refl, bool_decide_true by done. cbn [negb orb]. rewrite E7.
  unfold b_store, b_target, b_job, b_file_bytes, b_source_bytes in *. rewrite E1, E2, E3, E4, E5, E6.
  by destruct format.
Qed.
