(* ===== verification/Ciphertext.v ===== *)
(** * The locked ciphertext file

    [crates/host-platform/src/ciphertext/mod.rs]: an append-only file whose
    length is checked around every write, over the operations of
    [std::fs::File].  [LockedCiphertextFile] is its [failed] flag; opening is
    path and lock I/O and not modelled. *)
From S2P Require Import Prelude Program.
Open Scope Z_scope.

Inductive HostError : Type :=
| HInvalidPath | HUnsupported | HUnavailable | HInsecure | HLimit.

Definition host_code (e : HostError) : string :=
  match e with
  | HInvalidPath => "host_invalid_path"
  | HUnsupported => "host_unsupported"
  | HUnavailable => "host_unavailable"
  | HInsecure => "host_insecure"
  | HLimit => "host_limit"
  end.

Definition MAX_BYTES : Z := 33562688.
Definition CHUNK : Z := 65536.

(** [slice.chunks(CHUNK)] *)
Fixpoint chunks_loop (fuel : nat) (l : list Z) : list (list Z) :=
  match fuel, l with
  | S fuel, _ :: _ => take (Z.to_nat CHUNK) l :: chunks_loop fuel (drop (Z.to_nat CHUNK) l)
  | _, _ => []
  end.
Definition chunks (l : list Z) : list (list Z) := chunks_loop (length l) l.

Lemma concat_chunks_loop fuel l : (length l <= fuel)%nat -> concat (chunks_loop fuel l) = l.
Proof.
  revert l. induction fuel as [| fuel IH]; intros [| x l] Hl; cbn [chunks_loop concat length] in *; try done; [lia |].
  assert (exists n, Z.to_nat CHUNK = S n) as [n ->] by (unfold CHUNK; exists (Z.to_nat 65535); lia).
  cbn [take drop]. rewrite IH by (rewrite length_drop; lia). cbn [app]. by rewrite take_drop.
Qed.
Lemma concat_chunks l : concat (chunks l) = l.
Proof. by apply concat_chunks_loop. Qed.

Definition chunk_ok (l : list Z) : Prop := l <> [] /\ zlen l <= CHUNK.

(** The operating system's answers; [None] is an I/O error. *)
Inductive FileCall : Type :=
| Metadata
| SeekReadExact (offset len : Z)
| SeekEndWriteAll (bytes : list Z)
| SyncAll.
Definition FileAnswer (c : FileCall) : Type :=
  match c with
  | Metadata => option Z
  | SeekReadExact _ _ => option (list Z)
  | SeekEndWriteAll _ | SyncAll => option unit
  end.
Notation file_call := (Program.call (Answer := FileAnswer)).

Definition file_size (failed : bool) : prog FileAnswer (result HostError Z) :=
  if failed then Ret (Err HUnavailable)
  else
    do! size := file_call Metadata in
    Ret (match size with
         | None => Err HUnavailable
         | Some size => if MAX_BYTES <? size then Err HLimit else Ok size
         end).

Definition file_read_at (failed : bool) (offset len : Z) : prog FileAnswer (result HostError (list Z)) :=
  if CHUNK <? len then Ret (Err HLimit)
  else
    match checked_add offset len with
    | None => Ret (Err HLimit)
    | Some last =>
        do! size := file_size failed in
        if match size with Ok n => n | Err _ => 0 end <? last then Ret (Err HLimit)
        else do! r := file_call (SeekReadExact offset len) in Ret (ok_or r HUnavailable)
    end.

(** The new flag and the result. *)
Definition file_append (failed : bool) (expected_size : Z) (bytes : list Z) : prog FileAnswer (bool * result HostError unit) :=
  if Nat.eqb (length bytes) 0 || (CHUNK <? zlen bytes) then Ret (failed, Err HLimit)
  else
    do! size := file_size failed in
    match size with
    | Err e => Ret (failed, Err e)
    | Ok size =>
        if negb (size =? expected_size)
           || match checked_add expected_size (zlen bytes) with Some n => MAX_BYTES <? n | None => true end
        then Ret (failed, Err HLimit)
        else
          do! written := file_call (SeekEndWriteAll bytes) in
          match written with
          | None => Ret (true, Err HUnavailable)
          | Some _ =>
              do! after := file_call Metadata in
              match after with
              | None => Ret (true, Err HUnavailable)
              | Some after => if negb (after =? expected_size + zlen bytes) then Ret (true, Err HUnavailable) else Ret (false, Ok tt)
              end
          end
    end.

Definition file_synchronize (failed : bool) : prog FileAnswer (bool * result HostError unit) :=
  if failed then Ret (failed, Err HUnavailable)
  else
    do! r := file_call SyncAll in
    match r with
    | None => Ret (true, Err HUnavailable)
    | Some _ => Ret (false, Ok tt)
    end.
