(* ===== verification/Store.v ===== *)
(** * The record store

    [crates/adapters/src/backups/store.rs]: an authenticated append-only file of
    sealed artifacts.  [RecordStore] is a program over the work budget, the
    record I/O and the record authenticator; [native] implements the record I/O
    by the locked file of Ciphertext.v. *)
From S2P Require Import Prelude Text Program Backups Ciphertext.
Open Scope Z_scope.

Definition HEADER : Z := 64.
Definition RECORD_HEADER : Z := 104.
Definition TAG : Z := 32.

Definition STORE_MAGIC : list Z := str_bytes "OMCPST01".
Definition STORE_VERSION : list Z := str_bytes "recd0001".
Definition RECORD_MAGIC : list Z := str_bytes "OMCPBK01".
Definition AGE_MAGIC : list Z := str_bytes "age-encryption.org/v1" ++ [10].

(** ** Ports: [WorkBudget], [CiphertextRecordIo], [RecordAuthenticator] *)
Inductive StoreCall : Type :=
| BudgetLoad
| IoSize
| IoReadAt (offset len : Z)
| IoAppend (expected_size : Z) (bytes : list Z)
| IoSynchronize
| AuthTag (purpose : MacPurpose) (parts : list (list Z))
| AuthVerify (purpose : MacPurpose) (parts : list (list Z)) (tag : list Z).

(** The budget answers its flag and the clock. *)
Definition StoreAnswer (c : StoreCall) : Type :=
  match c with
  | BudgetLoad => bool * Z
  | IoSize => result BackupError Z
  | IoReadAt _ _ => result BackupError (list Z)
  | IoAppend _ _ | IoSynchronize => result BackupError unit
  | AuthTag _ _ => result BackupError (list Z)
  | AuthVerify _ _ _ => result BackupError unit
  end.
Notation storing := (prog StoreAnswer).
Notation store_call := (Program.call (Answer := StoreAnswer)).

(** A fixed-length array holds exactly [n] bytes. *)
Definition fit (n : nat) (l : list Z) : list Z := take n (l ++ repeat 0 n).

(** [provisioning_header] *)
Definition provisioning_header (store : list Z) : storing (result BackupError (list Z)) :=
  if bool_decide (store = zero_id) then Ret (Err Invalid)
  else
    let header := STORE_MAGIC ++ store ++ STORE_VERSION in
    do? tag := store_call (AuthTag StoreHeader [header]) in
    Ret (Ok (header ++ fit 32 tag)).

Record RecordStore : Type := { store : list Z; uncertain : bool }.
Record Scan : Type := { scan_size : Z; scan_count : Z; matched : option (list Z) }.

Section store.
Context (deadline : Z).

Definition budget_check : storing (result BackupError unit) :=
  do! b := store_call BudgetLoad in Ret (map_err backup_error (work_check deadline (fst b) (snd b))).

(** [RecordStore::read]: the fuel is one more than the number of chunks. *)
Fixpoint read_loop (fuel : nat) (offset n : Z) : storing (result BackupError (list Z)) :=
  match fuel with
  | O => Ret (Ok [])
  | S fuel =>
      if n <=? 0 then Ret (Ok [])
      else
        let size := Z.min n CHUNK in
        do? _ := budget_check in
        do? bytes := store_call (IoReadAt offset size) in
        do? _ := budget_check in
        do? rest := read_loop fuel (offset + size) (n - size) in
        Ret (Ok (fit (Z.to_nat size) bytes ++ rest))
  end.
Definition read (offset n : Z) : storing (result BackupError (list Z)) := read_loop (Z.to_nat (n / CHUNK) + 2) offset n.

(** The loop over the records; the count of jobs bounds its rounds. *)
Fixpoint scan_loop (fuel : nat) (id : list Z) (size : Z) (expected : option ArtifactBinding)
    (position : Z) (jobs : list (list Z)) (found : option (list Z)) : storing (result BackupError (list (list Z) * option (list Z))) :=
  match fuel with
  | O => Ret (Err Integrity)
  | S fuel =>
      if size <=? position then Ret (Ok (jobs, found))
      else if (MAX_RECORDS <=? zlen jobs) || (size - position <? RECORD_HEADER + TAG) then Ret (Err Integrity)
      else
        do? header := read position RECORD_HEADER in
        if negb (bool_decide (slice 0 8 header = RECORD_MAGIC)) then Ret (Err Integrity)
        else
          match binding_decode (slice 8 BINDING_BYTES header) with
          | Err e => Ret (Err e)
          | Ok binding =>
              let count := be_value (drop (8 + BINDING_BYTES) header) in
              if negb (bool_decide (b_store binding = id)) || bool_decide (b_job binding ∈ jobs)
                 || negb ((1 <=? count) && (count <=? MAX_CIPHERTEXT))
                 || (size - position <? count + (RECORD_HEADER + TAG))
              then Ret (Err Integrity)
              else
                do? ciphertext := read (position + RECORD_HEADER) count in
                do? tag := read (position + RECORD_HEADER + count) TAG in
                do? _ := store_call (AuthVerify ArtifactRecord [header; ciphertext] tag) in
                do? _ := budget_check in
                let next := scan_loop fuel id size expected (position + (RECORD_HEADER + TAG) + count) (jobs ++ [b_job binding]) in
                match expected with
                | Some e =>
                    if bool_decide (b_job e = b_job binding)
                    then if bool_decide (e = binding) then next (Some ciphertext) else Ret (Err Integrity)
                    else next found
                | None => next found
                end
          end
  end.

Definition scan (s : RecordStore) (expected : option ArtifactBinding) : storing (result BackupError Scan) :=
  do? _ := budget_check in
  do? size := store_call IoSize in
  if negb ((HEADER <=? size) && (size <=? MAX_STORE_BYTES)) then Ret (Err Integrity)
  else if match expected with Some e => negb (bool_decide (b_store e = store s)) | None => false end then Ret (Err Integrity)
  else
    do? header := read 0 HEADER in
    if negb (bool_decide (slice 0 8 header = STORE_MAGIC)) || negb (bool_decide (slice 8 ID header = store s))
       || negb (bool_decide (slice 24 8 header = STORE_VERSION)) || bool_decide (store s = zero_id)
    then Ret (Err Integrity)
    else
      do? _ := store_call (AuthVerify StoreHeader [slice 0 32 header] (drop 32 header)) in
      do? _ := budget_check in
      do? r := scan_loop (S (Z.to_nat MAX_RECORDS)) (store s) size expected HEADER [] None in
      do? last := store_call IoSize in
      if negb (last =? size) then Ret (Err Integrity)
      else
        do? _ := budget_check in
        Ret (Ok {| scan_size := size; scan_count := zlen (fst r); matched := snd r |}).

(** [RecordStore::from_io] *)
Definition from_io (id : list Z) : storing (result BackupError RecordStore) :=
  let s := {| store := id; uncertain := false |} in
  do? _ := scan s None in Ret (Ok s).

(** The position after the chunks, or [None]: a call failed. *)
Fixpoint append_all (position : Z) (l : list (list Z)) : storing (option Z) :=
  match l with
  | [] => Ret (Some position)
  | chunk :: l =>
      do! before := budget_check in
      if negb (is_ok before) then Ret None
      else
        do! r := store_call (IoAppend position chunk) in
        if negb (is_ok r) then Ret None
        else
          do! after := budget_check in
          if negb (is_ok after) then Ret None else append_all (position + zlen chunk) l
  end.

Definition set_uncertain (b : bool) (s : RecordStore) : RecordStore := {| store := store s; uncertain := b |}.

Definition record_header (binding : ArtifactBinding) (ciphertext : list Z) : list Z :=
  RECORD_MAGIC ++ encoded binding ++ to_be 8 (zlen ciphertext).

(** The part of [publish] after the first append may have happened. *)
Definition publish_append (s : RecordStore) (size : Z) (header ciphertext tag : list Z) : storing (RecordStore * RecordPublication) :=
  do! position := append_all size (chunks header ++ chunks ciphertext ++ chunks tag) in
  match position with
  | None => Ret (set_uncertain true s, RecordUnknown)
  | Some position =>
      do! size := store_call IoSize in
      if negb (match size with Ok n => n =? position | Err _ => false end) then Ret (set_uncertain true s, RecordUnknown)
      else
        do! synced := store_call IoSynchronize in
        if negb (is_ok synced) then Ret (set_uncertain true s, RecordUnknown)
        else
          do! checked := budget_check in
          if negb (is_ok checked) then Ret (set_uncertain true s, RecordUnknown)
          else Ret (set_uncertain false s, Durable)
  end.

Definition publish (s : RecordStore) (binding : ArtifactBinding) (ciphertext : list Z) :
    storing (RecordStore * RecordPublication) :=
  if uncertain s then Ret (s, RecordUnknown)
  else
    do! scanned := scan s (Some binding) in
    match scanned with
    | Err _ => Ret (set_uncertain true s, RecordUnknown)
    | Ok scanned =>
        if match matched scanned with Some _ => true | None => false end || (MAX_RECORDS <=? scan_count scanned)
           || Nat.eqb (length ciphertext) 0 || (MAX_CIPHERTEXT <? zlen ciphertext)
           || negb (bool_decide (take (length AGE_MAGIC) ciphertext = AGE_MAGIC))
        then Ret (s, NotRecorded)
        else
          let header := record_header binding ciphertext in
          do! tag := store_call (AuthTag ArtifactRecord [header; ciphertext]) in
          match tag with
          | Err _ => Ret (s, NotRecorded)
          | Ok tag =>
              do! checked := budget_check in
              if negb (is_ok checked) then Ret (s, NotRecorded)
              else publish_append s (scan_size scanned) header ciphertext (fit 32 tag)
          end
    end.

Definition reconcile (s : RecordStore) (binding : ArtifactBinding) : storing (RecordStore * RecordPublication) :=
  do! scanned := scan s (Some binding) in
  match scanned with
  | Err _ => Ret (s, RecordUnknown)
  | Ok scanned =>
      if match matched scanned with Some _ => false | None => true end then Ret (s, RecordUnknown)
      else
        do! checked := budget_check in
        if negb (is_ok checked) then Ret (s, RecordUnknown)
        else
          do! synced := store_call IoSynchronize in
          if negb (is_ok synced) then Ret (s, RecordUnknown)
          else
            do! checked := budget_check in
            if negb (is_ok checked) then Ret (s, RecordUnknown)
            else Ret (set_uncertain false s, Durable)
  end.

Definition authenticated_bytes (s : RecordStore) (binding : ArtifactBinding) : storing (result BackupError (list Z)) :=
  do? scanned := scan s (Some binding) in
  Ret (ok_or (matched scanned) BUnknown).
End store.

(** ** [NativeRecordIo]: the record I/O of a locked file *)
Section native.
Context {World : Type} (file_world : forall c, World -> FileAnswer c * World).

(** The flag of the locked file beside the world. *)
Definition native_size (s : bool * World) : result BackupError Z * (bool * World) :=
  let '(r, w) := interp file_world (file_size (fst s)) (snd s) in (map_err (fun _ => Unavailable) r, (fst s, w)).
Definition native_read_at (offset len : Z) (s : bool * World) : result BackupError (list Z) * (bool * World) :=
  let '(r, w) := interp file_world (file_read_at (fst s) offset len) (snd s) in (map_err (fun _ => Unavailable) r, (fst s, w)).
Definition native_append (expected_size : Z) (bytes : list Z) (s : bool * World) : result BackupError unit * (bool * World) :=
  let '((f, r), w) := interp file_world (file_append (fst s) expected_size bytes) (snd s) in (map_err (fun _ => BUnknown) r, (f, w)).
Definition native_synchronize (s : bool * World) : result BackupError unit * (bool * World) :=
  let '((f, r), w) := interp file_world (file_synchronize (fst s)) (snd s) in (map_err (fun _ => BUnknown) r, (f, w)).
End native.

(** * A disk that may fail

    The world the record store is run in: a file whose operations fail where a
    script says so (a failing write lands any prefix of its bytes, a failing
    budget check was a cancellation), and an authenticator.  [yields] relates a
    program to the value it has when nothing fails. *)

(** What the store is promised by its authenticator. *)
Class Authenticator : Type := {
  auth_tag : MacPurpose -> list (list Z) -> result BackupError (list Z);
  auth_verify : MacPurpose -> list (list Z) -> list Z -> result BackupError unit;
  auth_tag_length p parts t : auth_tag p parts = Ok t -> length t = 32%nat;
  auth_verify_ok p parts t : auth_verify p parts t = Ok tt <-> auth_tag p parts = Ok t
}.

(** What was written may be in a cache: of [contents] the first [stable] bytes
    are known to be on the medium, and only [SyncAll] makes that all of it. *)
Record Disk : Type := { contents : list Z; stable : nat; script : list (option nat) }.

(** The next entry of the script: a failure, or [None]. *)
Definition next_fault (d : Disk) : option nat * list (option nat) :=
  match script d with [] => (None, []) | f :: l => (f, l) end.

Definition disk (c : FileCall) (d : Disk) : FileAnswer c * Disk :=
  let '(f, rest) := next_fault d in
  let d' := {| contents := contents d; stable := stable d; script := rest |} in
  match c return FileAnswer c * Disk with
  | Metadata => (match f with Some _ => None | None => Some (zlen (contents d)) end, d')
  | SeekReadExact offset len =>
      (match f with
       | Some _ => None
       | None => if offset + len <=? zlen (contents d) then Some (slice (Z.to_nat offset) (Z.to_nat len) (contents d)) else None
       end, d')
  | SeekEndWriteAll bytes =>
      match f with
      | Some k => (None, {| contents := contents d ++ take k bytes; stable := stable d; script := rest |})
      | None => (Some tt, {| contents := contents d ++ bytes; stable := stable d; script := rest |})
      end
  | SyncAll =>
      match f with
      | Some _ => (None, d')
      | None => (Some tt, {| contents := contents d; stable := Nat.max (stable d) (length (contents d)); script := rest |})
      end
  end.

Section world.
Context `{Authenticator} (deadline : Z).

Definition World : Type := bool * Disk.

Definition world (c : StoreCall) (w : World) : StoreAnswer c * World :=
  match c return StoreAnswer c * World with
  | BudgetLoad =>
      let '(f, rest) := next_fault (snd w) in
      ((match f with Some _ => true | None => false end, 0), (fst w, {| contents := contents (snd w); stable := stable (snd w); script := rest |}))
  | IoSize => native_size disk w
  | IoReadAt offset len => native_read_at disk offset len w
  | IoAppend expected bytes => native_append disk expected bytes w
  | IoSynchronize => native_synchronize disk w
  | AuthTag p parts => (auth_tag p parts, w)
  | AuthVerify p parts t => (auth_verify p parts t, w)
  end.

Definition file (w : World) : list Z := contents (snd w).
Definition quiet (w : World) : Prop := script (snd w) = [].

(** All of the file is on the medium. *)
Definition synced (w : World) : Prop := (length (file w) <= stable (snd w))%nat.

(** What a loss of power may leave of the file: the bytes that are on the medium
    are there, and of the others anything up to the file's length. *)
Definition survives (w : World) (c : list Z) : Prop :=
  take (stable (snd w)) c = take (stable (snd w)) (file w) /\ (stable (snd w) `min` length (file w) <= length c <= length (file w))%nat.

Lemma survives_synced w c : synced w -> survives w c -> c = file w.
Proof.
  intros Hs [Ht [Hl Hu]]. unfold synced in Hs. by rewrite !take_ge in Ht by lia.
Qed.

(** Nothing was written, nothing was synchronized and no failure was added. *)
Definition same (w w' : World) : Prop :=
  fst w' = fst w /\ file w' = file w /\ (quiet w -> quiet w') /\ stable (snd w') = stable (snd w).

Lemma same_refl w : same w w.
Proof. done. Qed.
Lemma same_trans w1 w2 w3 : same w1 w2 -> same w2 w3 -> same w1 w3.
Proof. intros (E1 & E2 & E3 & E4) (F1 & F2 & F3 & F4). unfold same. rewrite F1, F2, F4. repeat split; auto. Qed.

(** The program writes nothing and returns [v], or fails because the world did. *)
Definition yields {A} (w : World) (p : storing (result BackupError A)) (v : result BackupError A) : Prop :=
  holds world p w (fun r w' => same w w' /\ (r = v \/ (~ quiet w /\ exists e, r = Err e))).

Lemma yields_ret {A} w (v : result BackupError A) : yields w (Ret v) v.
Proof. split; [apply same_refl | by left]. Qed.

Lemma yields_elim {A} w (p : storing (result BackupError A)) v (Q : result BackupError A -> World -> Prop) :
  yields w p v -> (forall r w', same w w' -> r = v \/ (~ quiet w /\ exists e, r = Err e) -> Q r w') -> holds world p w Q.
Proof. unfold yields, holds. intros [Hs Hr] HQ. by apply HQ. Qed.

Lemma yields_try {A B} w (p : storing (result BackupError A)) (f : A -> storing (result BackupError B)) v v' :
  yields w p v -> (forall a w', v = Ok a -> same w w' -> yields w' (f a) v') -> (forall e, v = Err e -> v' = Err e) ->
  yields w (try_bind p f) v'.
Proof.
  intros Hp Hf He. apply holds_try. apply (yields_elim w p v); [done |]. intros r w' Hs Hr. destruct r as [a | e].
  - destruct Hr as [Hv | [Hq [e [=]]]]. apply (yields_elim w' (f a) v'); [by apply Hf |].
    intros r2 w2 Hs2 Hr2. split; [by eapply same_trans |]. destruct Hr2 as [-> | [Hq2 He2]]; [by left | right].
    split; [| done]. intros Hq. apply Hq2. by apply Hs.
  - split; [done |]. destruct Hr as [<- | [Hq _]]; [left; symmetry; by apply He | right; split; [done | by exists e]].
Qed.

(** [?] on a step that only checks. *)
Lemma yields_seq {A B} w (p : storing (result BackupError A)) (f : A -> storing (result BackupError B)) a v :
  yields w p (Ok a) -> (forall w', same w w' -> yields w' (f a) v) -> yields w (try_bind p f) v.
Proof. intros Hp Hf. eapply yields_try; [exact Hp | | done]. intros a' w' [= <-] Hs. by apply Hf. Qed.

(** ** The calls *)
Hypothesis deadline_future : 0 < deadline.

Lemma budget_yields w : yields w (budget_check deadline) (Ok tt).
Proof.
  unfold yields, budget_check. apply holds_call. apply holds_ret. destruct w as [f [c n [| [k |] s]]]; cbn.
  - rewrite (proj2 (Z.leb_gt _ _)) by lia. split; [by repeat split | by left].
  - split; [done |]. right. split; [done |]. by eexists.
  - rewrite (proj2 (Z.leb_gt _ _)) by lia. split; [by repeat split | by left].
Qed.

Lemma size_holds w (Q : result BackupError Z -> World -> Prop) :
  (forall r w', same w w' -> (r = Ok (zlen (file w)) \/ ((fst w = true \/ MAX_BYTES < zlen (file w) \/ ~ quiet w) /\ exists e, r = Err e)) -> Q r w') ->
  holds world (store_call IoSize) w Q.
Proof.
  intros HQ. unfold holds. cbn [interp world Program.call]. unfold native_size. destruct w as [f [c n s]]. cbn [fst snd file contents] in *.
  unfold file_size. destruct f.
  { cbn. apply HQ; [done |]. right. split; [by left | by eexists]. }
  cbn [pbind Program.call interp]. unfold disk, next_fault. cbn [contents script stable].
  destruct s as [| [k |] s]; cbn [interp].
  2: { apply HQ; [by repeat split; intros ? |]. right. split; [right; by right | by eexists]. }
  all: destruct (Z.ltb_spec MAX_BYTES (zlen c)); cbn [map_err fst snd]; apply HQ; try by repeat split.
  1,3: right; split; [right; by left | by eexists].
  all: by left.
Qed.

(** The file of a healthy world. *)
Definition healthy (w : World) : Prop := fst w = false /\ zlen (file w) <= MAX_BYTES.
Lemma healthy_same w w' : same w w' -> healthy w -> healthy w'.
Proof. intros (E1 & E2 & _ & _) [H1 H2]. unfold healthy. by rewrite E1, E2. Qed.

Lemma size_yields w : healthy w -> yields w (store_call IoSize) (Ok (zlen (file w))).
Proof.
  intros [Hf Hm]. apply size_holds. intros r w' Hs Hr. split; [done |].
  destruct Hr as [-> | [[Ht | [Hl | Hq]] He]]; [by left | by rewrite Hf in Ht | lia | by right].
Qed.

Lemma read_at_yields w offset len :
  healthy w -> 0 <= offset -> 0 < len <= CHUNK -> offset + len <= zlen (file w) ->
  yields w (store_call (IoReadAt offset len)) (Ok (slice (Z.to_nat offset) (Z.to_nat len) (file w))).
Proof.
  intros [Hf Hm] Ho Hl Hb. unfold yields, holds. cbn [interp world Program.call]. unfold native_read_at, file_read_at.
  rewrite (proj2 (Z.ltb_ge CHUNK len)) by lia.
  assert (checked_add offset len = Some (offset + len)) as -> by (apply checked_add_Some; unfold MAX_BYTES, U64_MAX in *; lia).
  destruct w as [f [c n s]]. cbn [fst snd file contents] in *. subst f. unfold file_size. cbn [pbind Program.call interp].
  destruct s as [| [k |] [| [k' |] s]]; cbn [interp disk next_fault contents stable script pbind Program.call map_err ok_or fst snd];
    rewrite ?(proj2 (Z.ltb_ge MAX_BYTES (zlen c))), ?(proj2 (Z.ltb_ge (zlen c) (offset + len))), ?(proj2 (Z.ltb_lt 0 (offset + len))) by lia;
    cbn [interp disk next_fault contents stable script pbind Program.call map_err ok_or fst snd].
  all: rewrite ?(proj2 (Z.leb_le (offset + len) (zlen c))) by lia; cbn [interp disk next_fault contents stable script pbind Program.call map_err ok_or fst snd].
  all: split; [unfold same, quiet, file; cbn; intuition congruence | first [by left | right; split; [done | by eexists]]].
Qed.

Lemma verify_yields w p parts t : yields w (store_call (AuthVerify p parts t)) (auth_verify p parts t).
Proof. split; [apply same_refl | by left]. Qed.

(** ** Reading *)
Lemma fit_exact n (l : list Z) : length l = n -> fit n l = l.
Proof. intros <-. unfold fit. by rewrite take_app_length. Qed.

Lemma read_loop_yields fuel w offset n :
  healthy w -> 0 <= offset -> offset + n <= zlen (file w) -> n <= CHUNK * (Z.of_nat fuel - 1) -> (0 < fuel)%nat ->
  yields w (read_loop deadline fuel offset n) (Ok (slice (Z.to_nat offset) (Z.to_nat n) (file w))).
Proof.
  revert w offset n. induction fuel as [| fuel IH]; intros w offset n Hh Ho Hb Hn Hfuel; [lia |]. cbn [read_loop].
  destruct (Z.leb_spec n 0) as [Hz | Hz].
  { assert (Z.to_nat n = 0%nat) as -> by lia. unfold slice. cbn [take]. apply yields_ret. }
  assert (Hs : 0 < Z.min n CHUNK <= CHUNK) by (unfold CHUNK; lia).
  apply (yields_seq w _ _ tt); [apply budget_yields |]. intros w1 H1.
  pose proof (healthy_same _ _ H1 Hh) as Hh1. assert (file w1 = file w) as E1 by apply H1.
  eapply yields_seq; [apply read_at_yields; [done | lia | done | rewrite E1; lia] |]. intros w2 H2.
  apply (yields_seq w2 _ _ tt); [apply budget_yields |]. intros w3 H3.
  pose proof (healthy_same _ _ H2 Hh1) as Hh2. pose proof (healthy_same _ _ H3 Hh2) as Hh3.
  assert (file w3 = file w) as E3 by (destruct H2 as (_ & E2 & _), H3 as (_ & -> & _); by rewrite E2).
  eapply yields_seq; [apply IH; [done | lia | rewrite E3; lia | unfold CHUNK in *; lia | unfold CHUNK in *; lia] |].
  intros w4 H4. rewrite fit_exact.
  - rewrite E1, E3. replace (Z.to_nat (offset + Z.min n CHUNK)) with (Z.to_nat offset + Z.to_nat (Z.min n CHUNK))%nat by lia.
    replace (Z.to_nat (n - Z.min n CHUNK)) with (Z.to_nat n - Z.to_nat (Z.min n CHUNK))%nat by lia.
    assert (slice (Z.to_nat offset) (Z.to_nat n) (file w)
            = slice (Z.to_nat offset) (Z.to_nat (Z.min n CHUNK)) (file w)
              ++ slice (Z.to_nat offset + Z.to_nat (Z.min n CHUNK)) (Z.to_nat n - Z.to_nat (Z.min n CHUNK)) (file w)) as ->;
      [| apply yields_ret].
    unfold slice. rewrite <- drop_drop. set (l := drop (Z.to_nat offset) (file w)).
    rewrite <- (take_drop (Z.to_nat (Z.min n CHUNK)) (take (Z.to_nat n) l)). rewrite take_take, Nat.min_l by lia. f_equal.
    by rewrite take_drop_commute, Nat.add_sub_assoc, Nat.add_comm, Nat.add_sub by lia.
  - rewrite E1. apply length_slice. lia.
Qed.

Lemma read_yields w offset n :
  healthy w -> 0 <= offset -> 0 <= n -> offset + n <= zlen (file w) ->
  yields w (read deadline offset n) (Ok (slice (Z.to_nat offset) (Z.to_nat n) (file w))).
Proof.
  intros Hh Ho Hn Hb. unfold read. apply read_loop_yields; [done | done | done | | lia].
  pose proof (Z.mul_succ_div_gt n CHUNK). unfold CHUNK in *. lia.
Qed.
End world.
