(* ===== verification/Image.v ===== *)
(** * The format of a record store

    [parse_store] reads a whole file as [scan] does, with no I/O; [image] is the
    file of a list of records.  The parser accepts exactly the images of valid
    record lists, and the program of Store.v computes it. *)
From S2P Require Import Prelude Text Program Backups Ciphertext Store.
Open Scope Z_scope.

Section image.
Context `{Authenticator}.

(** ** The parser *)
Fixpoint parse_records (fuel : nat) (id : list Z) (expected : option ArtifactBinding) (rest : list Z)
    (jobs : list (list Z)) (found : option (list Z)) : result BackupError (list (list Z) * option (list Z)) :=
  match fuel with
  | O => Err Integrity
  | S fuel =>
      if Nat.eqb (length rest) 0 then Ok (jobs, found)
      else
        fail_if (MAX_RECORDS <=? zlen jobs) || (zlen rest <? RECORD_HEADER + TAG) with Integrity in
        let header := slice 0 104 rest in
        fail_if negb (bool_decide (slice 0 8 header = RECORD_MAGIC)) with Integrity in
        let? binding := binding_decode (slice 8 BINDING_BYTES header) in
        let count := be_value (drop (8 + BINDING_BYTES) header) in
        fail_if negb (bool_decide (b_store binding = id)) || bool_decide (b_job binding ∈ jobs)
             || negb ((1 <=? count) && (count <=? MAX_CIPHERTEXT)) || (zlen rest <? count + (RECORD_HEADER + TAG)) with Integrity in
        let ciphertext := slice 104 (Z.to_nat count) rest in
        let tag := slice (104 + Z.to_nat count) 32 rest in
        let? _ := auth_verify ArtifactRecord [header; ciphertext] tag in
        let next := parse_records fuel id expected (drop (136 + Z.to_nat count) rest) (jobs ++ [b_job binding]) in
        match expected with
        | Some e =>
            if bool_decide (b_job e = b_job binding)
            then if bool_decide (e = binding) then next (Some ciphertext) else Err Integrity
            else next found
        | None => next found
        end
  end.

Definition parse_store (id : list Z) (expected : option ArtifactBinding) (file : list Z) : result BackupError Scan :=
  fail_if negb ((HEADER <=? zlen file) && (zlen file <=? MAX_STORE_BYTES)) with Integrity in
  fail_if match expected with Some e => negb (bool_decide (b_store e = id)) | None => false end with Integrity in
  let header := slice 0 64 file in
  fail_if negb (bool_decide (slice 0 8 header = STORE_MAGIC)) || negb (bool_decide (slice 8 ID header = id))
       || negb (bool_decide (slice 24 8 header = STORE_VERSION)) || bool_decide (id = zero_id) with Integrity in
  let? _ := auth_verify StoreHeader [slice 0 32 header] (drop 32 header) in
  let? r := parse_records (S (Z.to_nat MAX_RECORDS)) id expected (drop 64 file) [] None in
  Ok {| scan_size := zlen file; scan_count := zlen (fst r); matched := snd r |}.

(** ** The program computes the parser *)
Context (deadline : Z).
Hypothesis deadline_future : 0 < deadline.

Lemma slice_of_drop {A} p s n (l : list A) : slice s n (drop p l) = slice (p + s) n l.
Proof. unfold slice. by rewrite drop_drop. Qed.

Lemma scan_loop_yields fuel w id expected position jobs found :
  healthy w -> 0 <= position <= zlen (file w) ->
  yields w (scan_loop deadline fuel id (zlen (file w)) expected position jobs found)
    (parse_records fuel id expected (drop (Z.to_nat position) (file w)) jobs found).
Proof.
  revert w position jobs found. induction fuel as [| fuel IH]; intros w position jobs found Hh Hp; cbn [scan_loop parse_records];
    [apply yields_ret |].
  assert (Hrest : zlen (drop (Z.to_nat position) (file w)) = zlen (file w) - position) by (rewrite length_drop; lia).
  destruct (Nat.eqb_spec (length (drop (Z.to_nat position) (file w))) 0) as [E0 | E0].
  { rewrite (proj2 (Z.leb_le _ _)) by lia. apply yields_ret. }
  rewrite (proj2 (Z.leb_gt _ _)) by lia. rewrite Hrest. destruct (_ || _) eqn:E1; [apply yields_ret |].
  apply orb_false_iff in E1 as [_ E1%Z.ltb_ge]. unfold RECORD_HEADER, TAG in *.
  eapply yields_seq; [apply read_yields; [done | done | lia | lia | lia] |]. intros w1 H1.
  change (Z.to_nat 104) with 104%nat. rewrite !slice_of_drop, Nat.add_0_r. set (header := slice (Z.to_nat position) 104 (file w)).
  destruct (negb _); [apply yields_ret |].
  destruct (binding_decode _) as [binding | e]; cbn [rbind]; [| apply yields_ret].
  set (count := be_value (drop (8 + BINDING_BYTES) header)). destruct (_ || _) eqn:E2; [apply yields_ret |].
  apply orb_false_iff in E2 as [[_ [Hc1%Z.leb_le Hc2]%negb_false_iff%andb_true_iff]%orb_false_iff E2%Z.ltb_ge].
  pose proof (healthy_same _ _ H1 Hh) as Hh1. assert (F1 : file w1 = file w) by apply H1.
  eapply yields_seq; [apply read_yields; [done | done | lia | lia | rewrite F1; lia] |]. intros w2 H2.
  pose proof (healthy_same _ _ H2 Hh1) as Hh2. assert (F2 : file w2 = file w) by (rewrite <- F1; apply H2).
  eapply yields_seq; [apply read_yields; [done | done | lia | lia | rewrite F2; lia] |]. intros w3 H3.
  pose proof (healthy_same _ _ H3 Hh2) as Hh3. assert (F3 : file w3 = file w) by (rewrite <- F2; apply H3).
  rewrite F1, F2. replace (Z.to_nat (position + 104)) with (Z.to_nat position + 104)%nat by lia.
  replace (Z.to_nat (position + 104 + count)) with (Z.to_nat position + (104 + Z.to_nat count))%nat by lia.
  change (Z.to_nat 32) with 32%nat.
  eapply yields_try; [apply verify_yields | | by intros e ->]. intros [] w4 -> H4. cbn [rbind].
  pose proof (healthy_same _ _ H4 Hh3) as Hh4. assert (F4 : file w4 = file w) by (rewrite <- F3; apply H4).
  apply (yields_seq w4 _ _ tt); [by apply budget_yields |]. intros w5 H5.
  pose proof (healthy_same _ _ H5 Hh4) as Hh5. assert (F5 : file w5 = file w) by (rewrite <- F4; apply H5).
  assert (Hnext : forall found, yields w5
    (scan_loop deadline fuel id (zlen (file w)) expected (position + (104 + 32) + count) (jobs ++ [b_job binding]) found)
    (parse_records fuel id expected (drop (136 + Z.to_nat count) (drop (Z.to_nat position) (file w))) (jobs ++ [b_job binding]) found)).
  { intros found'. specialize (IH w5 (position + (104 + 32) + count) (jobs ++ [b_job binding]) found' Hh5). rewrite F5 in IH.
    rewrite drop_drop. replace (Z.to_nat position + (136 + Z.to_nat count))%nat with (Z.to_nat (position + (104 + 32) + count)) by lia.
    apply IH. lia. }
  destruct expected as [e |]; [| apply Hnext]. destruct (bool_decide (b_job e = _)); [| apply Hnext].
  destruct (bool_decide _); [apply Hnext | apply yields_ret].
Qed.

Lemma scan_yields w s expected : healthy w -> yields w (scan deadline s expected) (parse_store (store s) expected (file w)).
Proof.
  intros Hh. unfold scan, parse_store. apply (yields_seq w _ _ tt); [by apply budget_yields |]. intros w1 H1.
  pose proof (healthy_same _ _ H1 Hh) as Hh1. assert (F1 : file w1 = file w) by apply H1.
  eapply yields_seq; [by apply size_yields |]. intros w2 H2. rewrite F1.
  pose proof (healthy_same _ _ H2 Hh1) as Hh2. assert (F2 : file w2 = file w) by (rewrite <- F1; apply H2).
  destruct (negb _) eqn:E1; [apply yields_ret |]. destruct (match expected with Some _ => _ | None => _ end); [apply yields_ret |].
  apply negb_false_iff, andb_true_iff in E1 as [E1%Z.leb_le _]. unfold HEADER in E1.
  eapply yields_seq; [apply read_yields; [done | done | lia | unfold HEADER; lia | rewrite F2; unfold HEADER; lia] |]. intros w3 H3.
  pose proof (healthy_same _ _ H3 Hh2) as Hh3. assert (F3 : file w3 = file w) by (rewrite <- F2; apply H3).
  rewrite F2. change (Z.to_nat 0) with 0%nat. change (Z.to_nat HEADER) with 64%nat. destruct (_ || _); [apply yields_ret |].
  eapply yields_try; [apply verify_yields | | by intros e ->]. intros [] w4 -> H4. cbn [rbind].
  pose proof (healthy_same _ _ H4 Hh3) as Hh4. assert (F4 : file w4 = file w) by (rewrite <- F3; apply H4).
  apply (yields_seq w4 _ _ tt); [by apply budget_yields |]. intros w5 H5.
  pose proof (healthy_same _ _ H5 Hh4) as Hh5. assert (F5 : file w5 = file w) by (rewrite <- F4; apply H5).
  eapply yields_try; [rewrite <- F5; apply scan_loop_yields; [done | rewrite F5; unfold HEADER; lia] | |].
  2: { rewrite F5. change (Z.to_nat HEADER) with 64%nat. by intros e ->. }
  rewrite F5. change (Z.to_nat HEADER) with 64%nat. intros r w6 -> H6. cbn [rbind].
  pose proof (healthy_same _ _ H6 Hh5) as Hh6. assert (F6 : file w6 = file w) by (rewrite <- F5; apply H6).
  eapply yields_seq; [by apply size_yields |]. intros w7 H7. rewrite F6, Z.eqb_refl. cbn [negb].
  apply (yields_seq w7 _ _ tt); [by apply budget_yields |]. intros w8 H8. apply yields_ret.
Qed.

(** ** Images *)
Record StoreEntry : Type := { e_binding : ArtifactBinding; e_ciphertext : list Z; e_tag : list Z }.

Definition entry_bytes (e : StoreEntry) : list Z := record_header (e_binding e) (e_ciphertext e) ++ e_ciphertext e ++ e_tag e.
Definition jobs_of (l : list StoreEntry) : list (list Z) := (fun e => b_job (e_binding e)) <$> l.

Definition binding_ok (b : ArtifactBinding) : Prop := Forall is_byte (encoded b) /\ binding_decode (encoded b) = Ok b.

Definition entry_ok (id : list Z) (e : StoreEntry) : Prop :=
  binding_ok (e_binding e) /\ b_store (e_binding e) = id /\ 1 <= zlen (e_ciphertext e) <= MAX_CIPHERTEXT
  /\ Forall is_byte (e_ciphertext e)
  /\ auth_tag ArtifactRecord [record_header (e_binding e) (e_ciphertext e); e_ciphertext e] = Ok (e_tag e).

Definition store_header (id : list Z) : list Z := STORE_MAGIC ++ id ++ STORE_VERSION.
Definition image (id tag : list Z) (l : list StoreEntry) : list Z := store_header id ++ tag ++ concat (entry_bytes <$> l).

Definition store_ok (id tag : list Z) (l : list StoreEntry) : Prop :=
  length id = ID /\ id <> zero_id /\ auth_tag StoreHeader [store_header id] = Ok tag
  /\ Forall (entry_ok id) l /\ NoDup (jobs_of l) /\ zlen l <= MAX_RECORDS.

(** The abstract store: what is recorded for a binding. *)
Fixpoint lookup_entry (b : ArtifactBinding) (l : list StoreEntry) : result BackupError (option (list Z)) :=
  match l with
  | [] => Ok None
  | e :: l =>
      if bool_decide (b_job b = b_job (e_binding e))
      then if bool_decide (b = e_binding e) then Ok (Some (e_ciphertext e)) else Err Integrity
      else lookup_entry b l
  end.
Definition lookup_expected (expected : option ArtifactBinding) (l : list StoreEntry) : result BackupError (option (list Z)) :=
  match expected with Some b => lookup_entry b l | None => Ok None end.

Lemma lookup_entry_absent b l : b_job b ∉ jobs_of l -> lookup_entry b l = Ok None.
Proof.
  induction l as [| e l IH]; cbn [lookup_entry]; [done |]. unfold jobs_of. rewrite fmap_cons, not_elem_of_cons.
  intros [Hne Hl]. rewrite bool_decide_false by done. by apply IH.
Qed.

Lemma length_encoded b : binding_ok b -> length (encoded b) = BINDING_BYTES.
Proof.
  intros [_ Hd]. unfold binding_decode in Hd. apply fail_if_ok in Hd as [Hl _].
  by apply orb_false_iff in Hl as [Hl%negb_false_iff%Nat.eqb_eq _].
Qed.

Lemma length_record_header b ct : binding_ok b -> length (record_header b ct) = 104%nat.
Proof. intros Hb. unfold record_header. by rewrite !length_app, length_encoded, length_to_be. Qed.

Lemma length_entry_bytes id e : entry_ok id e -> length (entry_bytes e) = (136 + length (e_ciphertext e))%nat.
Proof.
  intros (Hb & _ & _ & _ & Ht). unfold entry_bytes. rewrite !length_app, length_record_header by done.
  rewrite (auth_tag_length _ _ _ Ht). lia.
Qed.

Lemma record_header_parts b ct rest : binding_ok b -> zlen ct <= MAX_CIPHERTEXT ->
  slice 0 8 (record_header b ct) = RECORD_MAGIC /\ slice 8 BINDING_BYTES (record_header b ct) = encoded b
  /\ be_value (drop (8 + BINDING_BYTES) (record_header b ct)) = zlen ct
  /\ slice 0 104 (record_header b ct ++ ct ++ rest) = record_header b ct
  /\ slice 104 (length ct) (record_header b ct ++ ct ++ rest) = ct.
Proof.
  intros Hb Hc. pose proof (length_encoded b Hb) as Hl. pose proof (length_record_header b ct Hb) as Hh.
  split; [| split; [| split; [| split]]].
  - by apply slice_app_l.
  - unfold record_header. rewrite slice_app_r by (cbn; lia). cbn [length Nat.sub RECORD_MAGIC str_bytes]. by apply slice_app_l.
  - unfold record_header. rewrite app_assoc, drop_app_length' by (rewrite length_app, Hl; done).
    apply be_value_to_be. unfold MAX_CIPHERTEXT in Hc. cbn. lia.
  - by apply slice_app_l.
  - rewrite slice_app_r by lia. rewrite Hh, Nat.sub_diag. by apply slice_app_l.
Qed.

Lemma parse_records_image fuel id expected l jobs found :
  Forall (entry_ok id) l -> NoDup (jobs ++ jobs_of l) -> zlen jobs + zlen l <= MAX_RECORDS -> (length l < fuel)%nat ->
  parse_records fuel id expected (concat (entry_bytes <$> l)) jobs found
  = let? r := lookup_expected expected l in Ok (jobs ++ jobs_of l, match r with Some c => Some c | None => found end).
Proof.
  revert jobs found l. induction fuel as [| fuel IH]; intros jobs found l Hok Hnd Hlen Hfuel; [lia |].
  destruct l as [| e l]; cbn [parse_records].
  { cbn [fmap list_fmap concat length Nat.eqb jobs_of]. rewrite app_nil_r. by destruct expected. }
  apply Forall_cons in Hok as [He Hok]. pose proof (length_entry_bytes id e He) as Hel.
  destruct He as (Hb & Hid & Hc & Hcb & Ht). rewrite fmap_cons. cbn [concat].
  assert (Ht' : zlen (entry_bytes e ++ concat (entry_bytes <$> l)) = 136 + zlen (e_ciphertext e) + zlen (concat (entry_bytes <$> l)))
    by (rewrite length_app, Hel; lia).
  destruct (Nat.eqb_spec (length (entry_bytes e ++ concat (entry_bytes <$> l))) 0) as [E | _]; [lia |].
  cbn [length] in Hlen, Hfuel. rewrite (proj2 (Z.leb_gt MAX_RECORDS (zlen jobs))) by lia.
  rewrite (proj2 (Z.ltb_ge _ (RECORD_HEADER + TAG))) by (unfold RECORD_HEADER, TAG; lia). cbn [orb].
  assert (Eb : entry_bytes e ++ concat (entry_bytes <$> l) = record_header (e_binding e) (e_ciphertext e) ++ e_ciphertext e ++ e_tag e ++ concat (entry_bytes <$> l))
    by (unfold entry_bytes; by rewrite <- !app_assoc).
  destruct (record_header_parts (e_binding e) (e_ciphertext e) (e_tag e ++ concat (entry_bytes <$> l)) Hb (proj2 Hc)) as (P1 & P2 & P3 & P4 & P5).
  pose proof (auth_tag_length _ _ _ Ht) as Hlt. pose proof (length_record_header (e_binding e) (e_ciphertext e) Hb) as Hlh.
  rewrite <- Eb in P4, P5. cbv zeta. rewrite P4, P1, P2, P3, bool_decide_true by done. cbn [negb]. rewrite (proj2 Hb). cbn [rbind].
  rewrite Hid, bool_decide_true by done.
  assert (Hnj : b_job (e_binding e) ∉ jobs /\ b_job (e_binding e) ∉ jobs_of l).
  { unfold jobs_of in Hnd. rewrite fmap_cons in Hnd. apply NoDup_app in Hnd as (_ & Hd & Hn). apply NoDup_cons in Hn as [Hn _].
    split; [intros Hin; apply (Hd _ Hin); left | done]. }
  rewrite bool_decide_false by apply Hnj. rewrite !(proj2 (Z.leb_le _ _)) by lia. cbn [negb andb orb].
  rewrite (proj2 (Z.ltb_ge _ _)) by (unfold RECORD_HEADER, TAG; lia). rewrite Nat2Z.id, P5.
  assert (slice (104 + length (e_ciphertext e)) 32 (entry_bytes e ++ concat (entry_bytes <$> l)) = e_tag e) as ->.
  { rewrite Eb, app_assoc, slice_app_r by (rewrite length_app, Hlh; lia). rewrite length_app, Hlh, Nat.sub_diag. by apply slice_app_l. }
  rewrite (proj2 (auth_verify_ok _ _ _) Ht). cbn [rbind].
  assert (Hdrop : drop (136 + length (e_ciphertext e)) (entry_bytes e ++ concat (entry_bytes <$> l)) = concat (entry_bytes <$> l))
    by (by apply drop_app_length').
  rewrite Hdrop.
  assert (Hjobs : jobs ++ jobs_of (e :: l) = (jobs ++ [b_job (e_binding e)]) ++ jobs_of l) by (by rewrite <- app_assoc).
  assert (Hnext : forall found, parse_records fuel id expected (concat (entry_bytes <$> l)) (jobs ++ [b_job (e_binding e)]) found
    = let? r := lookup_expected expected l in Ok (jobs ++ jobs_of (e :: l), match r with Some c => Some c | None => found end)).
  { intros found'. rewrite IH; [by rewrite Hjobs | done | by rewrite <- Hjobs | rewrite length_app; cbn [length]; lia | lia]. }
  rewrite !Hnext. destruct expected as [b |]; [| done]. cbn [lookup_expected lookup_entry].
  destruct (bool_decide (b_job b = b_job (e_binding e))) eqn:Ej; [| done].
  destruct (bool_decide (b = e_binding e)); [| done]. apply bool_decide_eq_true in Ej.
  by rewrite lookup_entry_absent by (rewrite Ej; apply Hnj).
Qed.

(** ** The parser accepts images only *)
Lemma parse_records_sound fuel id expected rest jobs found r :
  parse_records fuel id expected rest jobs found = Ok r -> Forall is_byte rest -> NoDup jobs -> zlen jobs <= MAX_RECORDS ->
  exists l, rest = concat (entry_bytes <$> l) /\ Forall (entry_ok id) l /\ NoDup (jobs ++ jobs_of l) /\ zlen jobs + zlen l <= MAX_RECORDS.
Proof.
  revert rest jobs found. induction fuel as [| fuel IH]; intros rest jobs found Hp Hb Hnd Hj; cbn [parse_records] in Hp; [done |].
  destruct (Nat.eqb_spec (length rest) 0) as [E0 | E0].
  { apply length_zero_iff_nil in E0 as ->. exists []. cbn. rewrite app_nil_r. repeat split; [constructor | done | lia]. }
  apply fail_if_ok in Hp as [E1 Hp]. apply orb_false_iff in E1 as [E1%Z.leb_gt E2%Z.ltb_ge]. unfold RECORD_HEADER, TAG in E2.
  cbv zeta in Hp. set (header := slice 0 104 rest) in *. apply fail_if_ok in Hp as [Em%negb_false_iff%bool_decide_eq_true Hp].
  apply rbind_ok in Hp as (b & Hd & Hp). set (count := be_value (drop (8 + BINDING_BYTES) header)) in *.
  apply fail_if_ok in Hp as [E3 Hp].
  apply orb_false_iff in E3 as [[[Ei%negb_false_iff%bool_decide_eq_true Ej%bool_decide_eq_false]%orb_false_iff
    [Ec1%Z.leb_le Ec2%Z.leb_le]%negb_false_iff%andb_true_iff]%orb_false_iff E4%Z.ltb_ge]. unfold RECORD_HEADER, TAG in E4.
  apply rbind_ok in Hp as ([] & Hv & Hp). apply auth_verify_ok in Hv.
  set (ct := slice 104 (Z.to_nat count) rest) in *. set (tag := slice (104 + Z.to_nat count) 32 rest) in *.
  assert (Hlh : length header = 104%nat) by (apply length_slice; lia).
  assert (Hlc : length ct = Z.to_nat count) by (apply length_slice; lia).
  assert (Hbh : Forall is_byte header) by by apply slice_bytes.
  pose proof (binding_decode_encoded _ _ (slice_bytes _ _ _ _ Hbh) Hd) as He.
  assert (Hh : header = record_header b ct).
  { unfold record_header. rewrite He, <- Em. rewrite Hlc, Z2Nat.id by lia.
    assert (to_be 8 count = drop (8 + BINDING_BYTES) header) as ->.
    { unfold count. rewrite <- (to_be_be_value (drop (8 + BINDING_BYTES) header)) at 2 by by apply Forall_drop.
      by rewrite length_drop, Hlh. }
    rewrite <- (drop_slice 8 BINDING_BYTES). by rewrite <- (drop_slice 0 8). }
  set (e := {| e_binding := b; e_ciphertext := ct; e_tag := tag |}).
  assert (Heok : entry_ok id e).
  { repeat split; try done.
    - cbn. rewrite He. by apply slice_bytes.
    - cbn. by rewrite He.
    - cbn. lia.
    - cbn. unfold MAX_CIPHERTEXT in *. lia.
    - cbn. by apply slice_bytes.
    - cbn [e e_binding e_ciphertext e_tag]. by rewrite <- Hh. }
  assert (Hr : rest = entry_bytes e ++ drop (136 + Z.to_nat count) rest).
  { unfold entry_bytes, e. cbn [e_binding e_ciphertext e_tag]. rewrite <- Hh, <- !app_assoc. unfold tag, ct, header.
    replace (136 + Z.to_nat count)%nat with (104 + Z.to_nat count + 32)%nat by lia.
    rewrite <- drop_slice, <- drop_slice. by rewrite <- (drop_slice 0 104). }
  assert (Hnext : exists found, parse_records fuel id expected (drop (136 + Z.to_nat count) rest) (jobs ++ [b_job b]) found = Ok r).
  { destruct expected as [x |]; [| by eexists]. destruct (bool_decide _); [| by eexists]. destruct (bool_decide _); [by eexists | done]. }
  destruct Hnext as [found' Hn]. apply IH in Hn as (l & Hl & Hok & Hnd' & Hle).
  - exists (e :: l). rewrite fmap_cons. cbn [concat]. rewrite <- Hl. split; [done |]. split; [by constructor |].
    unfold jobs_of. rewrite fmap_cons. rewrite <- app_assoc in Hnd'. split; [done |].
    rewrite length_app in Hle. cbn [length] in *. lia.
  - by apply Forall_drop.
  - apply NoDup_app. split; [done |]. split; [| apply NoDup_singleton]. by intros x Hx ->%list_elem_of_singleton.
  - rewrite length_app. cbn [length]. lia.
Qed.

Lemma length_store_header id : length id = ID -> length (store_header id) = 32%nat.
Proof. intros Hi. unfold store_header. by rewrite !length_app, Hi. Qed.

Lemma length_entries id l : Forall (entry_ok id) l -> zlen (concat (entry_bytes <$> l)) <= 1048712 * zlen l.
Proof.
  induction 1 as [| e l He Hl IH]; [done |]. rewrite fmap_cons. cbn [concat length]. rewrite length_app, (length_entry_bytes id e He).
  destruct He as (_ & _ & Hc & _). unfold MAX_CIPHERTEXT in Hc. lia.
Qed.

Lemma zlen_image id tag l : store_ok id tag l -> HEADER <= zlen (image id tag l) <= MAX_STORE_BYTES.
Proof.
  intros (Hi & _ & Ht & Hl & _ & Hn). unfold image. rewrite !length_app, (length_store_header id Hi), (auth_tag_length _ _ _ Ht).
  pose proof (length_entries id l Hl). unfold HEADER, MAX_STORE_BYTES, MAX_RECORDS in *. lia.
Qed.

Lemma parse_store_image id tag l expected :
  store_ok id tag l -> match expected with Some b => b_store b = id | None => True end ->
  parse_store id expected (image id tag l)
  = let? r := lookup_expected expected l in
    Ok {| scan_size := zlen (image id tag l); scan_count := zlen l; matched := r |}.
Proof.
  intros Hs He. pose proof (zlen_image id tag l Hs) as [Hz1 Hz2]. destruct Hs as (Hi & Hz & Ht & Hl & Hnd & Hn).
  unfold parse_store. rewrite !(proj2 (Z.leb_le _ _)) by done. cbn [negb andb].
  assert (match expected with Some e => negb (bool_decide (b_store e = id)) | None => false end = false) as ->.
  { destruct expected; [| done]. by rewrite bool_decide_true. }
  pose proof (length_store_header id Hi) as Lh. pose proof (auth_tag_length _ _ _ Ht) as Lt.
  assert (slice 0 64 (image id tag l) = store_header id ++ tag) as ->.
  { unfold image. rewrite app_assoc. apply slice_app_l. rewrite length_app. lia. }
  assert (drop 64 (image id tag l) = concat (entry_bytes <$> l)) as ->.
  { unfold image. rewrite app_assoc. apply drop_app_length'. rewrite length_app. lia. }
  cbv zeta. rewrite (slice_app_l 32 (store_header id) tag Lh), (drop_app_length' (store_header id) tag 32) by done. rewrite (proj2 (auth_verify_ok _ _ _) Ht). cbn [rbind].
  assert (slice 0 8 (store_header id ++ tag) = STORE_MAGIC /\ slice 8 ID (store_header id ++ tag) = id
    /\ slice 24 8 (store_header id ++ tag) = STORE_VERSION) as (-> & -> & ->).
  { unfold store_header. rewrite <- !app_assoc. split; [by apply slice_app_l |]. split.
    - rewrite slice_app_r by (cbn; lia). by apply slice_app_l.
    - assert (length (STORE_MAGIC ++ id) = 24%nat) as L24 by (by rewrite length_app, Hi).
      rewrite app_assoc, slice_app_r by lia. rewrite L24, Nat.sub_diag. by apply slice_app_l. }
  rewrite !bool_decide_true, bool_decide_false by done. cbn [negb orb].
  rewrite (parse_records_image _ id expected l [] None); [| done | done | cbn; unfold MAX_RECORDS in *; lia | unfold MAX_RECORDS in *; lia].
  destruct (lookup_expected expected l) as [r |]; cbn [rbind fst snd app]; [| done].
  unfold jobs_of. rewrite length_fmap. by destruct r.
Qed.

Lemma parse_store_sound id expected bytes r :
  parse_store id expected bytes = Ok r -> Forall is_byte bytes -> length id = ID ->
  exists tag l, store_ok id tag l /\ bytes = image id tag l.
Proof.
  unfold parse_store. intros Hp Hb Hi. apply fail_if_ok in Hp as [Hz%negb_false_iff%andb_true_iff Hp].
  destruct Hz as [Hz1%Z.leb_le Hz2%Z.leb_le]. unfold HEADER in Hz1. apply fail_if_ok in Hp as [_ Hp]. cbv zeta in Hp.
  apply fail_if_ok in Hp as [Hh Hp]. apply rbind_ok in Hp as ([] & Hv & Hp). apply auth_verify_ok in Hv.
  apply rbind_ok in Hp as (x & Hr & _).
  apply parse_records_sound in Hr as (l & Hl & Hok & Hnd & Hle); [| by apply Forall_drop | constructor | done].
  apply orb_false_iff in Hh as [[[H1%negb_false_iff%bool_decide_eq_true H2%negb_false_iff%bool_decide_eq_true]%orb_false_iff
    H3%negb_false_iff%bool_decide_eq_true]%orb_false_iff H4%bool_decide_eq_false].
  set (h := slice 0 64 bytes) in *. assert (Lh : length h = 64%nat) by (apply length_slice; lia).
  assert (Hsh : slice 0 32 h = store_header id).
  { unfold store_header. rewrite <- H1, <- H2, <- H3. rewrite (slice_cat 0 8 24), (slice_cat (0 + 8) 16 8). done. }
  exists (drop 32 h), l. rewrite Hsh in Hv. split; [by repeat split |].
  unfold image. rewrite <- Hl, <- Hsh. rewrite app_assoc. rewrite <- (slice_split 32 h). apply slice_split.
Qed.
End image.
