(* ===== verification/Vault.v ===== *)
(** * Record authentication

    [crates/crypto-age/src/provenance/mod.rs]: HMAC-SHA-256 over a purpose and
    length-prefixed parts.  The [hmac] and [sha2] libraries are the parameter
    [hmac_sha256], a function of the key and the message to 32 bytes. *)
From S2P Require Import Prelude Text Program Backups Ciphertext Store Image.
Open Scope Z_scope.

Definition domain (p : MacPurpose) : list Z :=
  match p with
  | StoreHeader => str_bytes "openwrt-mcp/store-header/v1" ++ [0]
  | ArtifactRecord => str_bytes "openwrt-mcp/artifact-record/v1" ++ [0]
  end.

(** What the MAC is computed over. *)
Definition mac_message (p : MacPurpose) (parts : list (list Z)) : list Z :=
  domain p ++ concat ((fun part => to_be 8 (zlen part) ++ part) <$> parts).

Definition hmac_new (material : list Z) : result BackupError (list Z) :=
  fail_if negb (Nat.eqb (length material) 32) with Invalid in Ok material.

Section mac.
Context (hmac_sha256 : list Z -> list Z -> list Z).
Context (key : list Z).

Definition mac (p : MacPurpose) (parts : list (list Z)) : result BackupError (list Z) :=
  fail_if (4 <? zlen parts) || existsb (fun part => 1048576 <? zlen part) parts with Limit in
  Ok (hmac_sha256 key (mac_message p parts)).

Definition hmac_tag (p : MacPurpose) (parts : list (list Z)) : result BackupError (list Z) := mac p parts.
Definition hmac_verify (p : MacPurpose) (parts : list (list Z)) (tag : list Z) : result BackupError unit :=
  let? expected := mac p parts in
  if bool_decide (expected = tag) then Ok tt else Err Integrity.

Hypothesis hmac_length : forall m, length (hmac_sha256 key m) = 32%nat.

Program Definition HmacSha256 : Authenticator := {| auth_tag := hmac_tag; auth_verify := hmac_verify |}.
Next Obligation.
  intros p parts t Ht. unfold hmac_tag, mac in Ht. by apply fail_if_ok in Ht as [_ [= <-]].
Qed.
Next Obligation.
  intros p parts t. unfold hmac_verify, hmac_tag. destruct (mac p parts) as [m |]; cbn [rbind]; [| done].
  case_bool_decide; split; congruence.
Qed.
End mac.

(** ** The framing is unambiguous *)
Definition part_ok (l : list Z) : Prop := zlen l <= 1048576.

Lemma framed_inj parts parts' :
  Forall part_ok parts -> Forall part_ok parts' ->
  concat ((fun part => to_be 8 (zlen part) ++ part) <$> parts) = concat ((fun part => to_be 8 (zlen part) ++ part) <$> parts') ->
  parts = parts'.
Proof.
  intros Hp. revert parts'. induction Hp as [| a parts Ha Hp IH]; intros parts' Hp' He; destruct Hp' as [| b parts' Hb Hp']; [done | | |].
  - apply (f_equal length) in He. rewrite fmap_cons in He. cbn [concat] in He. rewrite !length_app, length_to_be in He. cbn in He. lia.
  - apply (f_equal length) in He. rewrite fmap_cons in He. cbn [concat] in He. rewrite !length_app, length_to_be in He. cbn in He. lia.
  - rewrite !fmap_cons in He. cbn [concat] in He. rewrite <- !app_assoc in He.
    apply app_inj_1 in He as [Hl He]; [| by rewrite !length_to_be].
    apply (f_equal be_value) in Hl. unfold part_ok in *. rewrite !be_value_to_be in Hl by (cbn; lia).
    apply app_inj_1 in He as [-> He]; [| lia]. f_equal. by apply IH.
Qed.

Lemma mac_message_inj p parts p' parts' :
  Forall part_ok parts -> Forall part_ok parts' -> mac_message p parts = mac_message p' parts' -> p = p' /\ parts = parts'.
Proof.
  intros Hp Hp' He. unfold mac_message in He.
  destruct p, p'.
  - split; [done |]. apply app_inv_head in He. by apply framed_inj.
  - apply (f_equal (take 20)) in He. by rewrite !take_app_le in He by (vm_compute; lia).
  - apply (f_equal (take 20)) in He. by rewrite !take_app_le in He by (vm_compute; lia).
  - split; [done |]. apply app_inv_head in He. by apply framed_inj.
Qed.

(** * What the record store guarantees

    Publication against a disk that may fail at every operation: the file is
    always the image before the publication followed by a prefix of the new
    record, an answer never claims more than that, and a torn record is never
    accepted. *)

(** ** Chunks *)
Lemma chunks_ok l : Forall chunk_ok (chunks l).
Proof.
  unfold chunks. generalize (length l) as fuel. intros fuel. revert l.
  induction fuel as [| fuel IH]; intros [| x l]; cbn [chunks_loop]; try constructor; [| apply IH].
  split; [| rewrite length_take; unfold CHUNK; lia].
  assert (exists n, Z.to_nat CHUNK = S n) as [n ->] by (unfold CHUNK; exists (Z.to_nat 65535); lia). done.
Qed.

Section vault.
Context `{Authenticator} (deadline : Z).
Hypothesis deadline_future : 0 < deadline.

(** ** Writing *)
(** No failure was added, and what was on the medium is on it still. *)
Definition fault_free (w w' : World) : Prop := (quiet w -> quiet w') /\ (stable (snd w) <= stable (snd w'))%nat.

Lemma fault_free_same w w' : same w w' -> fault_free w w'.
Proof. intros (_ & _ & Hq & Hs). split; [done | lia]. Qed.
Lemma fault_free_trans w1 w2 w3 : fault_free w1 w2 -> fault_free w2 w3 -> fault_free w1 w3.
Proof. intros [Q1 S1] [Q2 S2]. split; [auto | lia]. Qed.

(** Steps that keep what is on the medium compose. *)
Ltac keeps := solve [unfold fault_free in *; split; [auto 8 | lia]].

Lemma append_holds w bytes (Q : result BackupError unit -> World -> Prop) :
  fst w = false -> chunk_ok bytes -> zlen (file w) + zlen bytes <= MAX_BYTES ->
  (forall r w', fault_free w w' -> (exists k, file w' = file w ++ take k bytes) ->
     match r with Ok _ => file w' = file w ++ bytes /\ fst w' = false | Err _ => ~ quiet w end -> Q r w') ->
  holds world (store_call (IoAppend (zlen (file w)) bytes)) w Q.
Proof.
  intros Hf [Hne Hc] Hb HQ. unfold holds. cbn [interp world Program.call]. unfold native_append, file_append.
  assert (Nat.eqb (length bytes) 0 = false) as -> by (apply Nat.eqb_neq; by intros ?%length_zero_iff_nil).
  rewrite (proj2 (Z.ltb_ge CHUNK (zlen bytes))) by done. cbn [orb].
  destruct w as [f [c n s]]. cbn [fst snd file contents] in *. subst f. unfold file_size. cbn [pbind Program.call interp].
  destruct s as [| [k |] s]; cbn [interp disk next_fault contents stable script pbind fst snd].
  2: { apply HQ; [done | exists 0%nat; by rewrite app_nil_r | done]. }
  all: rewrite (proj2 (Z.ltb_ge MAX_BYTES (zlen c))) by lia; rewrite Z.eqb_refl.
  all: assert (checked_add (zlen c) (zlen bytes) = Some (zlen c + zlen bytes)) as ->
    by (apply checked_add_Some; unfold MAX_BYTES, U64_MAX in *; lia).
  all: rewrite (proj2 (Z.ltb_ge MAX_BYTES (zlen c + zlen bytes))) by lia; cbn [negb orb].
  all: try destruct s as [| [k |] s]; cbn [interp disk next_fault contents stable script pbind Program.call fst snd].
  3: { apply HQ; [done | by exists k | done]. }
  all: try destruct s as [| [k |] s]; cbn [interp disk next_fault contents stable script pbind Program.call fst snd].
  4: { apply HQ; [done | exists (length bytes); by rewrite firstn_all | done]. }
  all: rewrite length_app, Nat2Z.inj_add, Z.eqb_refl; cbn [negb interp fst snd map_err].
  all: apply HQ; [done | exists (length bytes); by rewrite firstn_all | done].
Qed.

Lemma budget_holds w (Q : result BackupError unit -> World -> Prop) :
  (forall r w', same w w' -> (is_ok r = false -> ~ quiet w) -> Q r w') -> holds world (budget_check deadline) w Q.
Proof.
  intros HQ. apply (yields_elim w _ (Ok tt)); [by apply budget_yields |]. intros r w' Hs Hr. apply HQ; [done |].
  by destruct Hr as [-> | [Hq _]].
Qed.

Lemma append_all_holds l w (Q : option Z -> World -> Prop) :
  fst w = false -> Forall chunk_ok l -> zlen (file w) + zlen (concat l) <= MAX_BYTES ->
  (forall r w', fault_free w w' -> (exists k, file w' = file w ++ take k (concat l)) ->
     match r with
     | Some position => file w' = file w ++ concat l /\ position = zlen (file w') /\ fst w' = false
     | None => ~ quiet w
     end -> Q r w') ->
  holds world (append_all deadline (zlen (file w)) l) w Q.
Proof.
  intros Hf Hl. revert w Hf Q. induction Hl as [| bytes l Hb Hl IH]; intros w Hf Q Hsz HQ; cbn [append_all].
  { apply holds_ret, HQ; [keeps | exists 0%nat; cbn; by rewrite app_nil_r | cbn; by rewrite app_nil_r]. }
  cbn [concat] in Hsz, HQ. rewrite length_app, Nat2Z.inj_add in Hsz. apply holds_bind, budget_holds. intros r1 w1 (F1 & E1 & Q1 & S1) Hr1.
  destruct (is_ok r1) eqn:O1; cbn [negb].
  2: { apply holds_ret, HQ; [keeps | exists 0%nat; by rewrite E1, app_nil_r | by apply Hr1]. }
  apply holds_bind. rewrite <- E1. apply append_holds; [by rewrite F1 | done | rewrite E1; lia |].
  intros r2 w2 [Q2 S2] [k2 E2] Hr2. rewrite E1 in E2, Hr2. destruct r2 as [[] | e]; cbn [is_ok negb].
  2: { apply holds_ret, HQ; [keeps | | intros ?; by apply Hr2, Q1].
       exists (k2 `min` length bytes)%nat. rewrite take_app_le by lia. rewrite E2. f_equal.
       destruct (Nat.le_gt_cases k2 (length bytes)); [by rewrite Nat.min_l | rewrite Nat.min_r, firstn_all by lia; by rewrite take_ge by lia]. }
  destruct Hr2 as [E2' F2]. clear k2 E2. apply holds_bind, budget_holds. intros r3 w3 (F3 & E3 & Q3 & S3) Hr3.
  destruct (is_ok r3) eqn:O3; cbn [negb].
  2: { apply holds_ret, HQ; [keeps | | intros ?; by apply Hr3, Q2, Q1].
       exists (length bytes). rewrite take_app_length. by rewrite E3. }
  assert (zlen (file w) + zlen bytes = zlen (file w3)) as Hz by (rewrite E3, E2', length_app; lia).
  rewrite E1, Hz. apply IH; [by rewrite F3 | rewrite <- Hz; lia |]. intros r4 w4 [Q4 S4] [k4 E4] Hr4. rewrite E3, E2', <- app_assoc in E4.
  apply HQ; [keeps | |].
  - exists (length bytes + k4)%nat. by rewrite take_app_add.
  - destruct r4 as [position |]; [| intros ?; by apply Hr4, Q3, Q2, Q1].
    destruct Hr4 as (E5 & -> & F5). rewrite E3, E2', <- app_assoc in E5. done.
Qed.

Lemma sync_holds w (Q : result BackupError unit -> World -> Prop) :
  (forall r w', fault_free w w' -> file w' = file w -> match r with Ok _ => fst w = false /\ fst w' = false /\ synced w' | Err _ => fst w = true \/ ~ quiet w end -> Q r w') ->
  holds world (store_call IoSynchronize) w Q.
Proof.
  intros HQ. unfold holds. cbn [interp world Program.call]. unfold native_synchronize, file_synchronize.
  destruct w as [f [c n s]]. cbn [fst snd file contents] in *. destruct f.
  { cbn. apply HQ; [by split | done | by left]. }
  cbn [pbind Program.call interp]. destruct s as [| [k |] s]; cbn [interp disk next_fault contents stable script fst snd map_err];
    apply HQ; try done; try (split; [done | cbn; lia]); try by right.
  all: split; [done |]; split; [done | unfold synced, file; cbn; lia].
Qed.

(** ** Publication *)
Lemma entry_bytes_parts b ct t :
  concat (chunks (record_header b ct) ++ chunks ct ++ chunks t)
  = entry_bytes {| e_binding := b; e_ciphertext := ct; e_tag := t |}.
Proof. by rewrite !concat_app, !concat_chunks. Qed.

Lemma publish_append_holds w s b ct t size (Q : RecordStore * RecordPublication -> World -> Prop) :
  fst w = false -> size = zlen (file w) ->
  zlen (file w) + zlen (entry_bytes {| e_binding := b; e_ciphertext := ct; e_tag := t |}) <= MAX_BYTES ->
  (forall s' p w', fault_free w w' -> (exists k, file w' = file w ++ take k (entry_bytes {| e_binding := b; e_ciphertext := ct; e_tag := t |})) ->
     (p = RecordUnknown /\ s' = set_uncertain true s /\ ~ quiet w)
     \/ (p = Durable /\ s' = set_uncertain false s /\ fst w' = false /\ synced w'
         /\ file w' = file w ++ entry_bytes {| e_binding := b; e_ciphertext := ct; e_tag := t |}) -> Q (s', p) w') ->
  holds world (publish_append deadline s size (record_header b ct) ct t) w Q.
Proof.
  intros Hf -> Hsz HQ. unfold publish_append. apply holds_bind.
  apply append_all_holds; [done | | by rewrite entry_bytes_parts |].
  { rewrite !Forall_app. repeat split; apply chunks_ok. }
  rewrite entry_bytes_parts. intros r1 w1 [Q1 S1] Hk Hr1. destruct r1 as [position |].
  2: { apply holds_ret, HQ; [keeps | done | by left]. }
  destruct Hr1 as (E1 & -> & F1). apply holds_bind, size_holds. intros r2 w2 (F2 & E2 & Q2 & S2) Hr2.
  assert (Hmax : zlen (file w1) <= MAX_BYTES) by (rewrite E1, length_app; lia).
  destruct (negb _) eqn:O2.
  { apply holds_ret, HQ; [keeps | by rewrite E2 | left; split; [done | split; [done |]]].
    intros Hq. destruct Hr2 as [-> | [[Ht | [Hl | Hn]] _]]; [by rewrite Z.eqb_refl in O2 | by rewrite F1 in Ht | lia | by apply Hn, Q1]. }
  apply holds_bind, sync_holds. intros r3 w3 [Q3 S3] E3 Hr3. destruct r3 as [[] | e]; cbn [is_ok negb].
  2: { apply holds_ret, HQ; [keeps | by rewrite E3, E2 | left; split; [done | split; [done |]]].
       intros Hq. destruct Hr3 as [Ht | Hn]; [by rewrite F2, F1 in Ht | by apply Hn, Q2, Q1]. }
  destruct Hr3 as (_ & F3 & M3). apply holds_bind, budget_holds. intros r4 w4 (F4 & E4 & Q4 & S4) Hr4.
  destruct (is_ok r4) eqn:O4; cbn [negb]; apply holds_ret, HQ; try keeps; rewrite ?E4, ?E3, ?E2; try done.
  - right. split; [done |]. split; [done |]. split; [by rewrite F4 |]. split; [unfold synced in *; by rewrite E4, S4 | done].
  - left. split; [done |]. split; [done |]. intros Hq. by apply Hr4, Q3, Q2, Q1.
Qed.

(** ** Records are a prefix code *)
Lemma entry_prefix id e1 e2 r1 r2 : entry_ok id e1 -> entry_ok id e2 ->
  entry_bytes e1 ++ r1 = entry_bytes e2 ++ r2 -> e1 = e2 /\ r1 = r2.
Proof.
  intros (B1 & _ & C1 & _ & T1) (B2 & _ & C2 & _ & T2) He. unfold entry_bytes in He. rewrite <- !app_assoc in He.
  pose proof (length_record_header _ (e_ciphertext e1) B1) as L1. pose proof (length_record_header _ (e_ciphertext e2) B2) as L2.
  apply app_inj_1 in He as [Hh He]; [| by rewrite L1, L2].
  destruct (record_header_parts _ (e_ciphertext e1) [] B1 (proj2 C1)) as (_ & E1 & N1 & _).
  destruct (record_header_parts _ (e_ciphertext e2) [] B2 (proj2 C2)) as (_ & E2 & N2 & _).
  rewrite Hh in E1, N1. rewrite E1 in E2. rewrite N1 in N2. apply app_inj_1 in He as [Hc He]; [| lia].
  apply app_inj_1 in He as [Ht Hr]; [| by rewrite (auth_tag_length _ _ _ T1), (auth_tag_length _ _ _ T2)].
  split; [| done]. destruct e1 as [b1 c1 t1], e2 as [b2 c2 t2]. cbn [e_binding e_ciphertext e_tag] in *.
  assert (b1 = b2) as <- by (destruct b1, b2; simpl in E2; by rewrite E2). by rewrite Hc, Ht.
Qed.

Lemma entry_bytes_nonempty id e r : entry_ok id e -> entry_bytes e ++ r <> [].
Proof. intros He Hn. apply (f_equal length) in Hn. rewrite length_app, (length_entry_bytes id e He) in Hn. cbn [length] in Hn. lia. Qed.

Lemma entries_prefix id l l' r : Forall (entry_ok id) l -> Forall (entry_ok id) l' ->
  concat (entry_bytes <$> l) ++ r = concat (entry_bytes <$> l') -> exists l2, l' = l ++ l2 /\ r = concat (entry_bytes <$> l2).
Proof.
  intros Hl. revert l'. induction Hl as [| e l He Hl IH]; intros l' Hl' Hc; [by exists l' |].
  rewrite fmap_cons in Hc. cbn [concat] in Hc. rewrite <- app_assoc in Hc.
  destruct Hl' as [| e' l' He' Hl']; [by apply (entry_bytes_nonempty id e) in Hc |].
  rewrite fmap_cons in Hc. cbn [concat] in Hc. apply (entry_prefix id) in Hc as [<- Hc]; [| done | done].
  destruct (IH l' Hl' Hc) as (l2 & -> & ->). by exists l2.
Qed.

Lemma image_snoc id tag l e : image id tag (l ++ [e]) = image id tag l ++ entry_bytes e.
Proof. unfold image. rewrite fmap_app, concat_app. cbn [fmap list_fmap concat]. by rewrite app_nil_r, <- !app_assoc. Qed.

(** A file that ends in part of a record is not accepted. *)
Lemma torn_record_rejected id tag l e k expected r :
  store_ok id tag l -> entry_ok id e -> Forall is_byte (image id tag l ++ take k (entry_bytes e)) ->
  parse_store id expected (image id tag l ++ take k (entry_bytes e)) = Ok r ->
  take k (entry_bytes e) = [] \/ take k (entry_bytes e) = entry_bytes e.
Proof.
  intros (Hi & _ & Ht & Hl & _) He Hb Hp. apply parse_store_sound in Hp as (tag' & l' & (_ & _ & Ht' & Hl' & _) & Him); [| done | done].
  rewrite Ht in Ht'. injection Ht' as <-. unfold image in Him. rewrite <- !app_assoc in Him. do 2 apply app_inv_head in Him.
  apply (entries_prefix id) in Him as (l2 & -> & Hk); [| done | done]. apply Forall_app in Hl' as [_ Hl2].
  destruct Hl2 as [| e2 l2 He2 Hl2]; [by left | right]. rewrite fmap_cons in Hk. cbn [concat] in Hk.
  assert (entry_bytes e2 ++ concat (entry_bytes <$> l2) ++ drop k (entry_bytes e) = entry_bytes e ++ []) as Heq.
  { by rewrite app_assoc, <- Hk, take_drop, app_nil_r. }
  apply (entry_prefix id) in Heq as [-> Heq]; [| done | done]. apply app_nil in Heq as [_ Hd].
  by rewrite <- (take_drop k (entry_bytes e)) at 2; rewrite Hd, app_nil_r.
Qed.

(** ** The abstract store *)
Lemma lookup_entry_None b l : lookup_entry b l = Ok None -> b_job b ∉ jobs_of l.
Proof.
  induction l as [| e l IH]; cbn [lookup_entry]; [intros _; apply not_elem_of_nil |]. unfold jobs_of. rewrite fmap_cons, not_elem_of_cons.
  destruct (bool_decide (b_job b = b_job (e_binding e))) eqn:E; [destruct (bool_decide (b = _)); intros [=] |].
  intros Hl. split; [by apply bool_decide_eq_false in E | by apply IH].
Qed.

(** Whether the age file may be recorded for a job without a record. *)
Definition recordable (l : list StoreEntry) (ct : list Z) : bool :=
  negb ((MAX_RECORDS <=? zlen l) || Nat.eqb (length ct) 0 || (MAX_CIPHERTEXT <? zlen ct)
        || negb (bool_decide (take (length AGE_MAGIC) ct = AGE_MAGIC))).

(** What publishing promises when nothing fails. *)
Definition publish_spec (id : list Z) (l : list StoreEntry) (b : ArtifactBinding) (ct : list Z) : RecordPublication :=
  if bool_decide (b_store b = id) then
    match lookup_entry b l with
    | Err _ => RecordUnknown
    | Ok (Some _) => NotRecorded
    | Ok None =>
        if recordable l ct && is_ok (auth_tag ArtifactRecord [record_header b ct; ct]) then Durable else NotRecorded
    end
  else RecordUnknown.

Lemma store_ok_snoc id tag l b ct t :
  store_ok id tag l -> binding_ok b -> Forall is_byte ct -> b_store b = id -> lookup_entry b l = Ok None -> recordable l ct = true ->
  auth_tag ArtifactRecord [record_header b ct; ct] = Ok t ->
  let e := {| e_binding := b; e_ciphertext := ct; e_tag := t |} in entry_ok id e /\ store_ok id tag (l ++ [e]).
Proof.
  intros (Hi & Hz & Ht & Hl & Hnd & Hn) Hb Hct Hid Hlk Hr Htag e. unfold recordable in Hr.
  apply negb_true_iff, orb_false_iff in Hr as [[[Hr1%Z.leb_gt Hr2%Nat.eqb_neq]%orb_false_iff Hr3%Z.ltb_ge]%orb_false_iff _].
  assert (He : entry_ok id e).
  { split; [done |]. split; [done |]. split; [| done]. cbn [e e_ciphertext]. lia. }
  split; [done |]. repeat split; try done.
  - apply Forall_app. split; [done | by apply Forall_singleton].
  - unfold jobs_of. rewrite fmap_app. apply NoDup_app. split; [done |]. split; [| apply NoDup_singleton].
    intros x Hx ->%list_elem_of_singleton. by apply (lookup_entry_None b l).
  - rewrite length_app. cbn [length]. lia.
Qed.

(** How a publication may end, the file holding the image of [l] before. *)
Definition published (id tag : list Z) (l : list StoreEntry) (b : ArtifactBinding) (ct : list Z)
    (r : RecordStore * RecordPublication) (w' : World) : Prop :=
  match snd r with
  | Durable => uncertain (fst r) = false
      /\ exists t, let l' := l ++ [{| e_binding := b; e_ciphertext := ct; e_tag := t |}] in store_ok id tag l' /\ file w' = image id tag l' /\ synced w'
  | NotRecorded => uncertain (fst r) = false /\ file w' = image id tag l
  | RecordUnknown => uncertain (fst r) = true
      /\ (file w' = image id tag l
          \/ exists t k, let e := {| e_binding := b; e_ciphertext := ct; e_tag := t |} in
               store_ok id tag (l ++ [e]) /\ file w' = image id tag l ++ take k (entry_bytes e))
  end.

Lemma publish_holds w id tag l b ct :
  store_ok id tag l -> file w = image id tag l -> fst w = false -> binding_ok b -> Forall is_byte ct ->
  holds world (publish deadline {| store := id; uncertain := false |} b ct) w (fun r w' =>
    (store (fst r) = id /\ fault_free w w') /\ published id tag l b ct r w' /\ (quiet w -> snd r = publish_spec id l b ct)).
Proof.
  intros Hs Hw Hf Hb Hct. unfold publish. cbn [uncertain]. pose proof (zlen_image id tag l Hs) as Hz.
  assert (Hh : healthy w) by (split; [done | rewrite Hw; apply Hz]). apply holds_bind.
  apply (yields_elim w _ (parse_store id (Some b) (file w))); [by apply (scan_yields deadline deadline_future w {| store := id; uncertain := false |}) |].
  intros r w1 (F1 & E1 & Q1 & S1) Hr. rewrite Hw in Hr, E1. unfold publish_spec.
  destruct (decide (b_store b = id)) as [Hid | Hid].
  2: { rewrite (bool_decide_eq_false_2 (b_store b = id)) by done.
       assert (parse_store id (Some b) (image id tag l) = Err Integrity) as Hpe.
       { unfold parse_store. rewrite (bool_decide_eq_false_2 (b_store b = id)) by done. destruct ((HEADER <=? _) && _); reflexivity. }
       rewrite Hpe in Hr. assert (exists e, r = Err e) as [e ->] by (destruct Hr as [-> | [_ ?]]; [by eexists | done]).
       apply holds_ret. split; [split; [done | keeps] |]. split; [split; [done | by left] | done]. }
  rewrite (bool_decide_eq_true_2 (b_store b = id)) by done.
  rewrite (parse_store_image id tag l (Some b) Hs Hid) in Hr. cbn [lookup_expected] in Hr.
  destruct r as [sc | e].
  2: { apply holds_ret. split; [split; [done | keeps] |]. split; [split; [done | by left] |]. intros Hq. destruct Hr as [Hr | [Hn _]]; [| done].
       by destruct (lookup_entry b l). }
  assert (Hsc : exists m, lookup_entry b l = Ok m /\ sc = {| scan_size := zlen (image id tag l); scan_count := zlen l; matched := m |}).
  { destruct Hr as [Hr | [_ [? [=]]]]. destruct (lookup_entry b l) as [m |]; [| done]. exists m. by injection Hr. }
  destruct Hsc as (m & Hm & ->). cbn [matched scan_count scan_size]. rewrite Hm. clear Hr.
  destruct m as [c |].
  { cbn [orb]. apply holds_ret. split; [split; [done | keeps] |]. split; [done |]. done. }
  cbn [orb]. destruct (recordable l ct) eqn:Hrec; unfold recordable in Hrec.
  2: { apply negb_false_iff in Hrec. rewrite Hrec. apply holds_ret. split; [split; [done | keeps] |]. done. }
  apply negb_true_iff in Hrec. rewrite Hrec. apply negb_true_iff in Hrec. fold (recordable l ct) in Hrec.
  apply holds_call. cbn [world fst snd]. destruct (auth_tag ArtifactRecord [record_header b ct; ct]) as [t | e] eqn:Ht.
  2: { apply holds_ret. split; [split; [done | keeps] |]. done. }
  apply holds_bind, budget_holds. intros r2 w2 (F2 & E2 & Q2 & S2) Hr2. cbn [is_ok andb].
  destruct (is_ok r2); cbn [negb]; [| apply holds_ret; split; [split; [done | keeps] |]; split; [split; [done | by rewrite E2] |]; intros Hq; by destruct Hr2; [| apply Q1]].
  destruct (store_ok_snoc id tag l b ct t Hs Hb Hct Hid Hm Hrec Ht) as [He Hs'].
  rewrite (fit_exact 32 t) by by apply auth_tag_length in Ht.
  apply (publish_append_holds w2 _ b ct t); [by rewrite F2, F1 | by rewrite E2, E1 | |].
  { rewrite E2, E1. pose proof (zlen_image _ _ _ Hs') as Hz'. rewrite image_snoc, length_app in Hz'. unfold MAX_STORE_BYTES, MAX_BYTES in *. lia. }
  rewrite E2, E1. intros s' p w3 [Q3 S3] [k Hk] Hout.
  destruct Hout as [(-> & -> & Hn) | (-> & -> & Hf3 & M3 & Hfile)].
  - split; [split; [done | keeps] |]. split; [| by intros ?; destruct Hn; apply Q2, Q1]. split; [done |]. right. by exists t, k.
  - split; [split; [done | keeps] |]. split; [| done]. split; [done |]. exists t. split; [done |]. split; [by rewrite image_snoc | done].
Qed.

(** ** A loss of power *)
Lemma image_prefix id tag l tag' l' tail : store_ok id tag l -> store_ok id tag' l' ->
  image id tag l ++ tail = image id tag' l' -> tag' = tag /\ exists l2, l' = l ++ l2.
Proof.
  intros (_ & _ & Ht & Hl & _) (_ & _ & Ht' & Hl' & _) Him. rewrite Ht in Ht'. injection Ht' as <-. split; [done |].
  unfold image in Him. rewrite <- !app_assoc in Him. do 2 apply app_inv_head in Him.
  apply (entries_prefix id) in Him as (l2 & -> & _); [by exists l2 | done | done].
Qed.

Lemma published_extends id tag l b ct r w : published id tag l b ct r w -> exists tail, file w = image id tag l ++ tail.
Proof.
  unfold published. destruct (snd r).
  - intros (_ & t & _ & -> & _). rewrite image_snoc. by eexists.
  - intros (_ & ->). exists []. by rewrite app_nil_r.
  - intros (_ & [-> | (t & k & _ & ->)]); [exists []; by rewrite app_nil_r | by eexists].
Qed.

(** What was synchronized before survives whatever the publication did. *)
Lemma crash_keeps id tag l b ct r w w' c : published id tag l b ct r w' -> file w = image id tag l -> synced w ->
  fault_free w w' -> survives w' c -> exists tail, c = image id tag l ++ tail.
Proof.
  intros Hp Hw Hs [_ Hm] [Ht [Hl _]]. destruct (published_extends _ _ _ _ _ _ _ Hp) as [tail Hf]. unfold synced in Hs.
  assert (length (image id tag l) <= length (file w'))%nat by (rewrite Hf, length_app; lia). rewrite Hw in Hs.
  exists (drop (length (image id tag l)) c). rewrite <- (take_drop (length (image id tag l)) c) at 1. f_equal.
  apply (f_equal (take (length (image id tag l)))) in Ht. rewrite !take_take, !Nat.min_l in Ht by lia.
  rewrite Ht, Hf. apply take_app_length.
Qed.

(** ** Opening, reading and reconciling *)
Lemma from_io_holds w id :
  healthy w -> holds world (from_io deadline id) w (fun r w' =>
    file w' = file w /\ ((is_ok r = true /\ r = Ok {| store := id; uncertain := false |} /\ is_ok (parse_store id None (file w)) = true)
      \/ (is_ok r = false /\ (is_ok (parse_store id None (file w)) = false \/ ~ quiet w)))).
Proof.
  intros Hh. unfold from_io. apply holds_try.
  apply (yields_elim w _ (parse_store id None (file w))); [by apply (scan_yields deadline deadline_future w {| store := id; uncertain := false |}) |].
  intros r w' (F & E & Q & _) Hr. destruct r as [sc | e].
  - apply holds_ret. split; [done |]. left. destruct Hr as [<- | [_ [? [=]]]]. done.
  - split; [done |]. right. split; [done |]. destruct Hr as [<- | [Hn _]]; [by left | by right].
Qed.

Lemma authenticated_bytes_holds w s id tag l b :
  store_ok id tag l -> file w = image id tag l -> fst w = false -> store s = id -> b_store b = id ->
  holds world (authenticated_bytes deadline s b) w (fun r w' =>
    file w' = file w /\ (forall ct, r = Ok ct -> lookup_entry b l = Ok (Some ct))
    /\ (quiet w -> forall ct, lookup_entry b l = Ok (Some ct) -> r = Ok ct)).
Proof.
  intros Hs Hw Hf <- Hid. unfold authenticated_bytes. pose proof (zlen_image _ tag l Hs) as Hz.
  assert (Hh : healthy w) by (split; [done | rewrite Hw; apply Hz]). apply holds_try.
  apply (yields_elim w _ (parse_store (store s) (Some b) (file w))); [by apply scan_yields |].
  intros r w' (F & E & Q & _) Hr. rewrite Hw, (parse_store_image _ tag l (Some b) Hs Hid) in Hr. cbn [lookup_expected] in Hr.
  destruct r as [sc | e].
  - apply holds_ret. split; [done |]. destruct Hr as [Hr | [_ [? [=]]]]. destruct (lookup_entry b l) as [m |]; [| done].
    injection Hr as ->. cbn [matched]. destruct m as [c |]; cbn [ok_or]; split; try done; naive_solver.
  - split; [done |]. split; [done |]. intros Hq ct Hl. rewrite Hl in Hr. by destruct Hr as [Hr | [Hn _]].
Qed.

Lemma reconcile_holds w s b :
  healthy w -> holds world (reconcile deadline s b) w (fun r w' =>
    file w' = file w
    /\ ((snd r = Durable /\ fst r = set_uncertain false s
         /\ exists sc, parse_store (store s) (Some b) (file w) = Ok sc /\ is_Some (matched sc))
        \/ (snd r = RecordUnknown /\ fst r = s
            /\ ((forall sc, parse_store (store s) (Some b) (file w) = Ok sc -> matched sc = None) \/ ~ quiet w)))).
Proof.
  intros Hh. unfold reconcile. apply holds_bind.
  apply (yields_elim w _ (parse_store (store s) (Some b) (file w))); [by apply scan_yields |].
  intros r w1 (F1 & E1 & Q1 & S1) Hr. destruct r as [sc | e].
  2: { apply holds_ret. split; [done |]. right. split; [done |]. split; [done |]. destruct Hr as [<- | [Hn _]]; [by left | by right]. }
  destruct Hr as [Hr | [_ [? [=]]]]. destruct (matched sc) as [c |] eqn:Em; cbn iota.
  2: { apply holds_ret. split; [done |]. right. split; [done |]. split; [done |]. left. intros sc'. rewrite <- Hr. by intros [= <-]. }
  apply holds_bind, budget_holds. intros r2 w2 (F2 & E2 & Q2 & S2) Hr2. destruct (is_ok r2); cbn [negb].
  2: { apply holds_ret. split; [by rewrite E2 |]. right. split; [done |]. split; [done |]. right. intros Hq. by destruct Hr2; [| apply Q1]. }
  apply holds_bind, sync_holds. intros r3 w3 [Q3 S3] E3 Hr3. destruct r3 as [[] | e]; cbn [is_ok negb].
  2: { apply holds_ret. split; [by rewrite E3, E2 |]. right. split; [done |]. split; [done |]. right. intros Hq.
       destruct Hr3 as [Ht | Hn]; [destruct Hh as [Hf _]; by rewrite F2, F1, Hf in Ht | by apply Hn, Q2, Q1]. }
  apply holds_bind, budget_holds. intros r4 w4 (F4 & E4 & Q4 & S4) Hr4. destruct (is_ok r4); cbn [negb]; apply holds_ret;
    (split; [by rewrite E4, E3, E2 |]).
  - left. split; [done |]. split; [done |]. exists sc. by rewrite Em.
  - right. split; [done |]. split; [done |]. right. intros Hq. by destruct Hr4; [| apply Q3, Q2, Q1].
Qed.

Lemma lookup_entry_snoc b l e : b_job (e_binding e) ∉ jobs_of l -> e_binding e = b -> lookup_entry b (l ++ [e]) = Ok (Some (e_ciphertext e)).
Proof.
  intros Hl <-. induction l as [| x l IH]; cbn [lookup_entry app].
  - by rewrite !bool_decide_true.
  - unfold jobs_of in Hl. rewrite fmap_cons, not_elem_of_cons in Hl. destruct Hl as [Hn Hl].
    rewrite (bool_decide_eq_false_2 (b_job (e_binding e) = b_job (e_binding x))) by done. by apply IH.
Qed.

Lemma lookup_entry_elem l e : NoDup (jobs_of l) -> e ∈ l -> lookup_entry (e_binding e) l = Ok (Some (e_ciphertext e)).
Proof.
  intros Hnd Hin. induction l as [| x l IH]; [by apply not_elem_of_nil in Hin |]. cbn [lookup_entry].
  unfold jobs_of in Hnd. rewrite fmap_cons in Hnd. apply NoDup_cons in Hnd as [Hx Hnd].
  apply elem_of_cons in Hin as [-> | Hin]; [by rewrite !bool_decide_true |].
  rewrite bool_decide_eq_false_2; [by apply IH |]. intros Hj. apply Hx. unfold jobs_of. rewrite <- Hj.
  by apply (list_elem_of_fmap_2 (fun e => b_job (e_binding e))).
Qed.
End vault.

(** C6: publishing is crash safe: against a disk that fails anywhere (a failing write lands any prefix of its bytes),
    the file afterwards is the old image, or the old image followed by a prefix of one valid record; a durable answer
    means that the whole record is there and on the medium, so that a loss of power leaves exactly the new image, a
    refusal that nothing was written, and an unknown answer latches the store; a file with part of a record is rejected
    by every later scan, and when nothing fails the answer is the one that the abstract store of records prescribes.
    The records that were on the medium before are never lost: what a loss of power leaves after any answer (the
    unsynchronized end of the file is then cut anywhere and holds any bytes) has the old image at its front, and if it
    opens it holds the old records in their order. *)
Theorem publish_crash_safe `{Authenticator} deadline w id tag l b ct :
  0 < deadline -> store_ok id tag l -> file w = image id tag l -> fst w = false -> binding_ok b -> Forall is_byte ct ->
  Forall is_byte (image id tag l) ->
  let '(r, w') := interp world (publish deadline {| store := id; uncertain := false |} b ct) w in
  published id tag l b ct r w' /\ (quiet w -> snd r = publish_spec id l b ct)
  /\ (snd r = RecordUnknown -> forall expected sc, Forall is_byte (file w') -> parse_store id expected (file w') = Ok sc ->
       file w' = image id tag l
       \/ exists t, file w' = image id tag (l ++ [{| e_binding := b; e_ciphertext := ct; e_tag := t |}]))
  /\ (snd r = Durable -> forall c, survives w' c ->
       exists t, c = image id tag (l ++ [{| e_binding := b; e_ciphertext := ct; e_tag := t |}]))
  /\ (synced w -> forall c, survives w' c ->
       (exists tail, c = image id tag l ++ tail)
       /\ forall expected sc, Forall is_byte c -> parse_store id expected c = Ok sc ->
            exists l2, store_ok id tag (l ++ l2) /\ c = image id tag (l ++ l2)).
Proof.
  intros Hd Hs Hw Hf Hb Hct Hbytes. pose proof (publish_holds deadline Hd w id tag l b ct Hs Hw Hf Hb Hct) as Hp.
  unfold holds in Hp. destruct (interp world _ w) as [r w']. cbn [fst snd] in Hp. destruct Hp as ([_ Hkept] & Hp & Hq).
  split; [done |]. split; [done |]. split; [| split].
  2: { intros Hr c Hc. unfold published in Hp. rewrite Hr in Hp. destruct Hp as (_ & t & _ & Hf' & Hsy). exists t.
       rewrite <- Hf'. by apply survives_synced. }
  2: { intros Hsy c Hc. destruct (crash_keeps _ _ _ _ _ _ _ _ _ Hp Hw Hsy Hkept Hc) as [tail ->]. split; [by exists tail |].
       intros expected sc Hb' Hparse. apply parse_store_sound in Hparse as (tag' & l' & Hs' & He); [| done | by destruct Hs].
       destruct (image_prefix _ _ _ _ _ _ Hs Hs' He) as [-> [l2 ->]]. by exists l2. }
  intros Hu expected sc Hb' Hparse. unfold published in Hp. rewrite Hu in Hp.
  destruct Hp as [_ [Hp | (t & k & Hs' & Hk)]]; [by left |]. rewrite Hk in *.
  assert (He : entry_ok id {| e_binding := b; e_ciphertext := ct; e_tag := t |}).
  { destruct Hs' as (_ & _ & _ & Hl & _). apply Forall_app in Hl as [_ Hl]. by apply (Forall_singleton (entry_ok id)). }
  destruct (torn_record_rejected id tag l _ k expected sc Hs He Hb' Hparse) as [-> | ->].
  - left. by rewrite app_nil_r.
  - right. exists t. by rewrite image_snoc.
Qed.

(** ** A store on a disk *)
Definition demo_mac (key message : list Z) : list Z := repeat (foldl (fun a b => (7 * a + b) mod 256) 1 (key ++ message)) 32.
Lemma demo_mac_length key m : length (demo_mac key m) = 32%nat.
Proof. by unfold demo_mac; rewrite repeat_length. Qed.
Definition demo_key : list Z := repeat 3 32.
Definition demo_authenticator : Authenticator := HmacSha256 demo_mac demo_key (demo_mac_length demo_key).

Definition demo_id : list Z := repeat 9 16.
Definition demo_binding : ArtifactBinding :=
  match binding_system demo_id (repeat 1 16) (repeat 2 16) (repeat 4 16) 5 2048 TarFormat with Ok b => b | Err _ => {| encoded := [] |} end.
Definition demo_ciphertext : list Z := AGE_MAGIC ++ [1; 2; 3].
Definition demo_store_tag : list Z := demo_mac demo_key (mac_message StoreHeader [store_header demo_id]).
Definition demo_record_tag : list Z :=
  demo_mac demo_key (mac_message ArtifactRecord [record_header demo_binding demo_ciphertext; demo_ciphertext]).
Definition demo_entry : StoreEntry := {| e_binding := demo_binding; e_ciphertext := demo_ciphertext; e_tag := demo_record_tag |}.

Lemma demo_binding_ok : binding_ok demo_binding.
Proof. split; [apply bytes_checked; vm_compute; reflexivity | vm_compute; reflexivity]. Qed.

Lemma demo_store_ok : @store_ok demo_authenticator demo_id demo_store_tag [].
Proof. repeat split; try done; try constructor. Qed.

(** The second write fails after four bytes. *)
Definition demo_script : list (option nat) := repeat None 17 ++ [Some 4%nat].
Definition demo_world (script : list (option nat)) : World := (false, {| contents := image demo_id demo_store_tag []; stable := length (image demo_id demo_store_tag []); script := script |}).
Definition demo_publish (script : list (option nat)) :=
  interp (@world demo_authenticator) (publish 5 {| store := demo_id; uncertain := false |} demo_binding demo_ciphertext) (demo_world script).

Lemma publish_crash_safe_witness :
  (let '(r, w') := demo_publish [] in
     snd r = Durable /\ file w' = image demo_id demo_store_tag [demo_entry] /\ snd r = @publish_spec demo_authenticator demo_id [] demo_binding demo_ciphertext)
  /\ (let '(r, w') := demo_publish demo_script in
     snd r = RecordUnknown /\ file w' = image demo_id demo_store_tag [] ++ take 108 (entry_bytes demo_entry)
     /\ (forall c, survives w' c -> exists tail, c = image demo_id demo_store_tag [] ++ tail)
     /\ @published demo_authenticator demo_id demo_store_tag [] demo_binding demo_ciphertext r w').
Proof.
  assert (forall script, let '(r, w') := demo_publish script in
    @published demo_authenticator demo_id demo_store_tag [] demo_binding demo_ciphertext r w'
    /\ (quiet (demo_world script) -> snd r = @publish_spec demo_authenticator demo_id [] demo_binding demo_ciphertext)
    /\ (forall c, survives w' c -> exists tail, c = image demo_id demo_store_tag [] ++ tail)) as Hp.
  { intros script.
    pose proof (@publish_crash_safe demo_authenticator 5 (demo_world script) demo_id demo_store_tag [] demo_binding demo_ciphertext
      ltac:(lia) demo_store_ok eq_refl eq_refl demo_binding_ok (bytes_checked demo_ciphertext eq_refl)
      (bytes_checked (image demo_id demo_store_tag []) ltac:(vm_compute; reflexivity))) as Hs.
    fold (demo_publish script) in Hs. destruct (demo_publish script) as [r w']. split; [exact (proj1 Hs) |]. split; [exact (proj1 (proj2 Hs)) |].
    intros c Hc. refine (proj1 (proj2 (proj2 (proj2 (proj2 Hs))) _ c Hc)). apply Nat.le_refl. }
  split.
  - specialize (Hp []). assert (snd (fst (demo_publish [])) = Durable /\ file (snd (demo_publish [])) = image demo_id demo_store_tag [demo_entry]) as Hr
      by (split; vm_compute; reflexivity).
    destruct (demo_publish []) as [r w']. exact (conj (proj1 Hr) (conj (proj2 Hr) (proj1 (proj2 Hp) eq_refl))).
  - specialize (Hp demo_script). assert (snd (fst (demo_publish demo_script)) = RecordUnknown
      /\ file (snd (demo_publish demo_script)) = image demo_id demo_store_tag [] ++ take 108 (entry_bytes demo_entry)) as Hr
      by (split; vm_compute; reflexivity).
    destruct (demo_publish demo_script) as [r w']. exact (conj (proj1 Hr) (conj (proj2 Hr) (conj (proj2 (proj2 Hp)) (proj1 Hp)))).
Defined.

(** C14: opening accepts exactly the images: a file that can be read opens as the store [id] if and only if it is the
    image of some list of at most 32 records that are all of that store, authentic, within the size bounds and of
    distinct jobs, and opening never writes. *)
Theorem store_opens_images `{Authenticator} deadline w id :
  0 < deadline -> quiet w -> fst w = false -> zlen (file w) <= MAX_BYTES -> Forall is_byte (file w) -> length id = ID ->
  let '(r, w') := interp world (from_io deadline id) w in
  file w' = file w /\ (is_ok r = true <-> exists tag l, store_ok id tag l /\ file w = image id tag l).
Proof.
  intros Hd Hq Hf Hz Hb Hi. pose proof (from_io_holds deadline Hd w id ltac:(by split)) as Hh. unfold holds in Hh.
  destruct (interp world _ w) as [r w']. cbn [fst snd] in Hh. destruct Hh as [E Hr]. split; [done |]. split.
  - intros Hok. destruct Hr as [(_ & _ & Hp) | (Hn & _)]; [| by rewrite Hok in Hn].
    destruct (parse_store id None (file w)) as [sc |] eqn:Ep; [| done]. by apply (parse_store_sound id None _ sc).
  - intros (tag & l & Hs & Hw). destruct Hr as [(-> & _) | (_ & [Hn | Hn])]; [done | | done].
    by rewrite Hw, (parse_store_image id tag l None Hs I) in Hn.
Qed.

Lemma store_opens_images_witness :
  let w := demo_world [] in
  fst (interp (@world demo_authenticator) (from_io 5 demo_id) w) = Ok {| store := demo_id; uncertain := false |}
  /\ exists tag l, @store_ok demo_authenticator demo_id tag l /\ file w = image demo_id tag l.
Proof.
  pose proof (@store_opens_images demo_authenticator 5 (demo_world []) demo_id ltac:(lia) eq_refl eq_refl ltac:(vm_compute; discriminate)
    (bytes_checked (image demo_id demo_store_tag []) ltac:(vm_compute; reflexivity)) eq_refl) as Hs.
  assert (fst (interp (@world demo_authenticator) (from_io 5 demo_id) (demo_world [])) = Ok {| store := demo_id; uncertain := false |}) as Hr
    by (vm_compute; reflexivity).
  cbv zeta. destruct (interp _ (from_io 5 demo_id) (demo_world [])) as [r w']. cbn [fst snd] in Hr. split; [exact Hr |].
  rewrite Hr in Hs. exact (proj1 (proj2 Hs) eq_refl).
Defined.
