(* ===== verification/Protection.v ===== *)
(** * Key material and protection limits

    [crates/runtime/src/protection/]: fixed error codes, the operator's limits
    with their strict mapping deserializer, owned key material, and the
    sessions that bind a key source to a provider. *)
From S2P Require Import Prelude Text Archive Program Sealing.
Open Scope Z_scope.

Inductive ProtectionError : Type :=
| InvalidConfig | InvalidMaterial | SourceUnavailable | InteractionRequired | UnsupportedProtection | UnsupportedContainer
| InvalidContainer | ResourceLimit | EncryptionFailed | DecryptionFailed | StreamFailed | DeadlineExceeded.

#[export] Instance ProtectionError_eq_dec : EqDecision ProtectionError.
Proof. solve_decision. Defined.

Definition protection_code (e : ProtectionError) : string :=
  match e with
  | InvalidConfig => "protection_config_invalid"
  | InvalidMaterial => "key_material_invalid"
  | SourceUnavailable => "key_source_unavailable"
  | InteractionRequired => "key_source_interaction_required"
  | UnsupportedProtection => "key_source_protection_unsupported"
  | UnsupportedContainer => "key_container_unsupported"
  | InvalidContainer => "key_container_invalid"
  | ResourceLimit => "protection_resource_limit"
  | EncryptionFailed => "encryption_failed"
  | DecryptionFailed => "decryption_failed"
  | StreamFailed => "protection_stream_failed"
  | DeadlineExceeded => "protection_deadline_exceeded"
  end.

(** ** Limits *)
Record KeyLimits : Type := {
  max_key_bytes : Z; max_container_bytes : Z; max_entries : Z; max_directory_bytes : Z; max_expansion_ratio : Z
}.
Definition KeyLimits_default : KeyLimits :=
  {| max_key_bytes := 64 * 1024; max_container_bytes := 4 * 1024 * 1024; max_entries := 128;
     max_directory_bytes := 256 * 1024; max_expansion_ratio := 100 |}.

Definition key_limits_validate (l : KeyLimits) : result ProtectionError unit :=
  let fields := [(max_key_bytes l, 1024 * 1024); (max_container_bytes l, 16 * 1024 * 1024); (max_entries l, 4096);
                 (max_directory_bytes l, 1024 * 1024); (max_expansion_ratio l, 1000)] in
  fail_if existsb (fun '(value, cap) => (value =? 0) || (cap <? value)) fields
       || (max_container_bytes l <? max_directory_bytes l) with InvalidConfig in
  Ok tt.

Record CryptoLimits : Type := { max_input_bytes : Z; max_output_bytes : Z; timeout_ms : Z; max_recipients : Z }.
Definition CryptoLimits_default : CryptoLimits :=
  {| max_input_bytes := 64 * 1024 * 1024; max_output_bytes := 65 * 1024 * 1024; timeout_ms := 30000; max_recipients := 16 |}.

Definition crypto_limits_validate (l : CryptoLimits) : result ProtectionError unit :=
  fail_if negb (in_range 1 (1024 * 1024 * 1024) (max_input_bytes l)) || negb (in_range 1 (1024 * 1024 * 1024) (max_output_bytes l))
       || negb (in_range 1 300000 (timeout_ms l)) || negb (in_range 1 64 (max_recipients l)) with InvalidConfig in
  Ok tt.

(** ** Deserialization

    A mapping is the list of its fields in order; [None] is a value that does
    not deserialize to the field's integer type.  [seen] is a bit mask. *)
Definition set_once {L} (set : Z -> L -> L) (field : Z) (value : option Z) (s : L * Z) : option (L * Z) :=
  let '(limits, seen) := s in
  if negb (Z.land seen field =? 0) then None
  else v ← value; Some (set v limits, Z.lor seen field).

Definition key_field (name : string) : option (Z * (Z -> KeyLimits -> KeyLimits)) :=
  if String.eqb name "max_key_bytes" then
    Some (1, fun v l => {| max_key_bytes := v; max_container_bytes := max_container_bytes l; max_entries := max_entries l;
                           max_directory_bytes := max_directory_bytes l; max_expansion_ratio := max_expansion_ratio l |})
  else if String.eqb name "max_container_bytes" then
    Some (2, fun v l => {| max_key_bytes := max_key_bytes l; max_container_bytes := v; max_entries := max_entries l;
                           max_directory_bytes := max_directory_bytes l; max_expansion_ratio := max_expansion_ratio l |})
  else if String.eqb name "max_entries" then
    Some (4, fun v l => {| max_key_bytes := max_key_bytes l; max_container_bytes := max_container_bytes l; max_entries := v;
                           max_directory_bytes := max_directory_bytes l; max_expansion_ratio := max_expansion_ratio l |})
  else if String.eqb name "max_directory_bytes" then
    Some (8, fun v l => {| max_key_bytes := max_key_bytes l; max_container_bytes := max_container_bytes l; max_entries := max_entries l;
                           max_directory_bytes := v; max_expansion_ratio := max_expansion_ratio l |})
  else if String.eqb name "max_expansion_ratio" then
    Some (16, fun v l => {| max_key_bytes := max_key_bytes l; max_container_bytes := max_container_bytes l; max_entries := max_entries l;
                            max_directory_bytes := max_directory_bytes l; max_expansion_ratio := v |})
  else None.

Definition crypto_field (name : string) : option (Z * (Z -> CryptoLimits -> CryptoLimits)) :=
  if String.eqb name "max_input_bytes" then
    Some (1, fun v l => {| max_input_bytes := v; max_output_bytes := max_output_bytes l; timeout_ms := timeout_ms l; max_recipients := max_recipients l |})
  else if String.eqb name "max_output_bytes" then
    Some (2, fun v l => {| max_input_bytes := max_input_bytes l; max_output_bytes := v; timeout_ms := timeout_ms l; max_recipients := max_recipients l |})
  else if String.eqb name "timeout_ms" then
    Some (4, fun v l => {| max_input_bytes := max_input_bytes l; max_output_bytes := max_output_bytes l; timeout_ms := v; max_recipients := max_recipients l |})
  else if String.eqb name "max_recipients" then
    Some (8, fun v l => {| max_input_bytes := max_input_bytes l; max_output_bytes := max_output_bytes l; timeout_ms := timeout_ms l; max_recipients := v |})
  else None.

Section visit.
Context {L : Type} (field : string -> option (Z * (Z -> L -> L))).
Fixpoint visit_limits (s : L * Z) (map : list (string * option Z)) : option L :=
  match map with
  | [] => Some (fst s)
  | (name, value) :: map =>
      '(bit, set) ← field name;
      s ← set_once set bit value s;
      visit_limits s map
  end.
End visit.
Definition key_limits_visit_map (map : list (string * option Z)) : option KeyLimits := visit_limits key_field (KeyLimits_default, 0) map.
Definition crypto_limits_visit_map (map : list (string * option Z)) : option CryptoLimits :=
  visit_limits crypto_field (CryptoLimits_default, 0) map.

(** ** Material *)
Definition MAX_MATERIAL_BYTES : Z := 16 * 1024 * 1024.

(** [KeyMaterial::from_zeroizing] *)
Definition key_material (bytes : list Z) (max_bytes : Z) : result ProtectionError (list Z) :=
  fail_if (max_bytes =? 0) || (MAX_MATERIAL_BYTES <? max_bytes) with InvalidConfig in
  fail_if max_bytes <? zlen bytes with ResourceLimit in
  fail_if Nat.eqb (length bytes) 0 with InvalidMaterial in
  Ok bytes.

(** ** Sessions

    The source is any implementation of the key source's interface; the
    provider is a cipher for its material.  Both sessions have this shape. *)
Record Session (Source : Type) : Type := { s_source : Source; s_provider : list Z -> CryptoLimits -> cipher; s_keys : KeyLimits; s_crypto : CryptoLimits }.
Arguments s_source {Source} s.
Arguments s_provider {Source} s.
Arguments s_keys {Source} s.
Arguments s_crypto {Source} s.

Definition session_new {Source : Type} (source : Source) (provider : list Z -> CryptoLimits -> cipher) (keys : KeyLimits)
    (crypto : CryptoLimits) : result ProtectionError (Session Source) :=
  let? _ := key_limits_validate keys in
  let? _ := crypto_limits_validate crypto in
  Ok {| s_source := source; s_provider := provider; s_keys := keys; s_crypto := crypto |}.

(** [EncryptionSession::encrypt] and [DecryptionSession::decrypt_to_staging]
    behind the ports that forget the error's code, with a source that answers
    its material at once. *)
Definition session_cipher (s : Session (Z -> result ProtectionError (list Z))) : cipher :=
  match s_source s (max_key_bytes (s_keys s)) with
  | Err _ => CipherDone None
  | Ok material =>
      if max_key_bytes (s_keys s) <? zlen material then CipherDone None else s_provider s material (s_crypto s)
  end.

(** * Key source locations

    [crates/key-sources/src/config.rs]: the names an operator's configuration
    may use.  Texts are their bytes; paths are those of a Unix host, whose
    [Path::components] drops empty and ["."] components of an absolute path. *)

Inductive ContainerFormat : Type := ZipFormat.
Inductive SourceConfig : Type :=
| RestrictedFile (path : list Z)
| PersonalVaultFile (path : list Z)
| Environment (variable : list Z)
| ArchiveEntry (source : list Z) (format : ContainerFormat) (entry : list Z).

Definition identifier (value : list Z) : bool :=
  negb (bool_decide (value = [])) && (zlen value <=? 64) && forallb (fun b => is_ascii_alphanumeric b || byte_in "_-" b) value.

Definition environment_name (value : list Z) : bool :=
  identifier value && forallb (fun b => is_ascii_alphanumeric b || byte_in "_" b) value
  && match value with b :: _ => is_ascii_alphabetic b | [] => false end.

(** [path.components()] after the root of an absolute path. *)
Definition path_components (path : list Z) : list (list Z) :=
  filter (fun c => c <> [] /\ c <> str_bytes ".") (split_bytes 47 path).
Definition is_absolute (path : list Z) : bool := match path with 47 :: _ => true | _ => false end.
Definition file_name (path : list Z) : option (list Z) :=
  match last (path_components path) with
  | Some c => if bool_decide (c = str_bytes "..") then None else Some c
  | None => None
  end.

Definition file_path (path : list Z) : result ProtectionError unit :=
  fail_if negb (is_absolute path) || (4096 <? zlen path) || existsb (Z.eqb 0) path
       || existsb (fun c => bool_decide (c = str_bytes "..")) (path_components path)
       || match file_name path with Some _ => false | None => true end with InvalidConfig in
  Ok tt.

(** [value.strip_suffix('/').unwrap_or(value)] *)
Definition strip_slash (value : list Z) : list Z :=
  match last value with Some 47 => removelast value | _ => value end.

Definition entry_name (value : list Z) (directory : bool) : bool :=
  if bool_decide (value = []) || (1024 <? zlen value) || existsb (fun b => existsb (Z.eqb b) [92; 58; 0]) value then false
  else
    let name := if directory then strip_slash value else value in
    negb (bool_decide (name = []))
    && forallb (fun c => negb (bool_decide (c = [])) && negb (bool_decide (c = str_bytes ".")) && negb (bool_decide (c = str_bytes "..")))
         (split_bytes 47 name).
