(* ===== verification/Workflow.v ===== *)
(** * Sealing and inspecting backups

    [crates/adapters/src/backups/workflow.rs] and [archive.rs]: a completed
    capture is sealed into the record store through the sealing workflow, whose
    ports are implemented here over the store's, and a recorded artifact is
    decrypted and inspected.  The gzip backend is a parameter. *)
From S2P Require Import Prelude Text Archive Gzip Program Sealing Ciphertext Backups Store Protection.
Open Scope Z_scope.

Record BackupFailure : Type := { bf_cause : BackupError; bf_publication : RecordPublication }.

Section workflow.
Context {D : Type} (new_gzip : D) (total_in total_out : D -> Z) (decompress : D -> list Z -> D * option (Status * list Z)).
Context (deadline : Z).

(** ** [archive.rs]: the checker *)
Inductive Validator : Type :=
| VTar (v : ArchiveValidator)
| VGzip (v : @GzipArchiveValidator D).

Definition SYSTEM_PATH : string := "etc/config/system".

Definition check_new (binding : ArtifactBinding) : storing (result BackupError Validator) :=
  do? _ := budget_check deadline in
  Ret (let? file := map_err (fun _ => Invalid) (ExpectedFile_new SYSTEM_PATH (b_file_bytes binding)) in
       let? expected := map_err (fun _ => Invalid) (ExpectedArchive_new [file]) in
       Ok match b_format binding with
          | TarFormat => VTar (ArchiveValidator_new expected)
          | GzipFormat => VGzip (GzipArchiveValidator_new expected)
          end).

(** The validator's own [feed] and [finish]. *)
Definition validator_feed (bytes : list Z) (v : Validator) : Validator * bool :=
  match v with
  | VTar v => let '(v, r) := feed bytes v in (VTar v, is_ok r)
  | VGzip g => let '(g, r) := gzip_feed new_gzip total_in total_out decompress bytes g in (VGzip g, is_ok r)
  end.
Definition validator_finish (v : Validator) : option CheckCounts :=
  match v with
  | VTar v =>
      match finish v with
      | Ok s => Some {| k_source_bytes := sum_archive_bytes s; k_expanded_bytes := sum_archive_bytes s;
                        k_payload_bytes := sum_payload_bytes s; k_files := sum_files s |}
      | Err _ => None
      end
  | VGzip g =>
      match gzip_finish g with
      | Ok s => Some {| k_source_bytes := gz_compressed_bytes s; k_expanded_bytes := gz_archive_bytes s;
                        k_payload_bytes := gz_payload_bytes s; k_files := gz_files s |}
      | Err _ => None
      end
  end.

Definition check_feed (bytes : list Z) (v : Validator) : storing (option unit * Validator) :=
  do! before := budget_check deadline in
  if negb (is_ok before) then Ret (None, v)
  else
    let '(v, fed) := validator_feed bytes v in
    if negb fed then Ret (None, v)
    else
      do! after := budget_check deadline in
      Ret (if is_ok after then Some tt else None, v).

Definition check_finish (v : Validator) : storing (option CheckCounts) :=
  do! before := budget_check deadline in
  if negb (is_ok before) then Ret None
  else
    match validator_finish v with
    | None => Ret None
    | Some counts =>
        do! after := budget_check deadline in
        Ret (if is_ok after then Some counts else None)
    end.

(** ** Streams *)

(** [Memory::write] *)
Definition memory_write (maximum : Z) (bytes memory : list Z) : storing (option nat * list Z) :=
  do! checked := budget_check deadline in
  if negb (is_ok checked) then Ret (None, memory)
  else if (65536 <? zlen bytes) || (maximum - zlen memory <? zlen bytes) then Ret (None, memory)
  else Ret (Some (length bytes), memory ++ bytes).
(** [Memory::flush] *)
Definition memory_flush : storing (option unit) :=
  do! checked := budget_check deadline in Ret (if is_ok checked then Some tt else None).

(** The source, the checker and the stage of one sealing. *)
Record Work : Type := {
  w_data : list Z; w_position : nat; w_check : Validator; w_memory : list Z; w_store : RecordStore
}.
Definition set_position (n : nat) (w : Work) : Work :=
  {| w_data := w_data w; w_position := n; w_check := w_check w; w_memory := w_memory w; w_store := w_store w |}.
Definition set_data (l : list Z) (w : Work) : Work :=
  {| w_data := l; w_position := w_position w; w_check := w_check w; w_memory := w_memory w; w_store := w_store w |}.
Definition set_check (v : Validator) (w : Work) : Work :=
  {| w_data := w_data w; w_position := w_position w; w_check := v; w_memory := w_memory w; w_store := w_store w |}.
Definition set_memory (l : list Z) (w : Work) : Work :=
  {| w_data := w_data w; w_position := w_position w; w_check := w_check w; w_memory := l; w_store := w_store w |}.
Definition set_store (s : RecordStore) (w : Work) : Work :=
  {| w_data := w_data w; w_position := w_position w; w_check := w_check w; w_memory := w_memory w; w_store := s |}.

(** [Stage::publish] *)
Definition stage_publish (binding : ArtifactBinding) (counts : SealedCounts) (w : Work) : storing (PublishOutcome * Work) :=
  if negb (z_source_bytes counts =? b_source_bytes binding) || negb (z_payload_bytes counts =? b_file_bytes binding)
     || negb (z_files counts =? 1) || negb (z_ciphertext_bytes counts =? zlen (w_memory w))
  then Ret (OutNotPublished, w)
  else
    do! r := publish deadline (w_store w) binding (w_memory w) in
    Ret (match snd r with Durable => OutPublished | NotRecorded => OutNotPublished | RecordUnknown => OutUnknown end,
         set_store (fst r) w).

(** The sealing ports; [start] is when the sealer's clock was created. *)
Definition seal_port (start : Z) (binding : ArtifactBinding) (c : SealCall) : Work -> storing (SealAnswer c * Work) :=
  match c return Work -> storing (SealAnswer c * Work) with
  | ClockNow => fun w => do! b := store_call BudgetLoad in Ret (Z.min ((snd b - start) / 1000000) U64_MAX, w)
  | SourceBytes size => fun w =>
      do! checked := budget_check deadline in
      if negb (is_ok checked) then Ret (None, w)
      else
        let bytes := take (Z.to_nat size) (drop (w_position w) (w_data w)) in
        Ret (Some bytes, set_position (w_position w + length bytes) w)
  | SourceComplete => fun w =>
      do! checked := budget_check deadline in Ret (if is_ok checked then Some (zlen (w_data w)) else None, w)
  | SourceCancel => fun w => Ret (OutCleaned, set_data [] w)
  | CheckFeed bytes => fun w => do! r := check_feed bytes (w_check w) in Ret (fst r, set_check (snd r) w)
  | CheckFinish => fun w => do! r := check_finish (w_check w) in Ret (r, w)
  | StageCaps => fun w => Ret ({| private_staging := true; atomic_publication := true; durability := true |}, w)
  | StageBytes bytes => fun w =>
      do! r := memory_write MAX_CIPHERTEXT bytes (w_memory w) in Ret (fst r, set_memory (snd r) w)
  | StageSync => fun w => do! r := memory_flush in Ret (r, w)
  | StagePublish counts => fun w => stage_publish binding counts w
  | StageAbort => fun w => Ret (OutCleaned, set_memory [] w)
  end.

Definition capture_limits : SealLimits := {| l_source_bytes := MAX_PLAINTEXT; l_ciphertext_bytes := MAX_CIPHERTEXT; l_timeout_ms := 30000 |}.

Definition record_publication (p : Publication) : RecordPublication :=
  match p with
  | Published => Durable
  | PublicationUnknown => RecordUnknown
  | NotAttempted | NotPublished => NotRecorded
  end.

(** ** [seal_capture] *)
Definition before (e : BackupError) : BackupFailure := {| bf_cause := e; bf_publication := NotRecorded |}.
Definition inspection (counts : SealedCounts) : BackupInspection :=
  {| i_source_bytes := z_source_bytes counts; i_payload_bytes := z_payload_bytes counts; i_files := z_files counts |}.

Definition seal_capture (capture : CapturedArchive) (c : cipher) (s : RecordStore) :
    storing (RecordStore * result BackupFailure BackupInspection) :=
  do! checked := budget_check deadline in
  match checked with
  | Err e => Ret (s, Err (before e))
  | Ok _ =>
      let binding := c_binding capture in
      do! check := check_new binding in
      match check with
      | Err e => Ret (s, Err (before e))
      | Ok check =>
          let w := {| w_data := c_bytes capture; w_position := 0; w_check := check; w_memory := []; w_store := s |} in
          match ArchiveSealer_new capture_limits with
          | Err _ => Ret (s, Err (before Invalid))
          | Ok limits =>
              do! b := store_call BudgetLoad in
              do! r := elaborate (seal_port (snd b) binding) (seal_with_clock limits c) w in
              match fst r with
              | Ok counts => Ret (w_store (snd r), Ok (inspection counts))
              | Err report =>
                  do! checked := budget_check deadline in
                  Ret (w_store (snd r),
                       Err {| bf_cause := match checked with Err e => e | Ok _ => Integrity end;
                              bf_publication := record_publication (publication report) |})
              end
          end
      end
  end.

(** ** [restore_inspect] *)

(** The decryptor over the ciphertext's cursor and the staging memory. *)
Fixpoint decrypt (maximum : Z) (ciphertext : list Z) (c : cipher) (position : nat) (staging : list Z) :
    storing (option CipherCounts * (nat * list Z)) :=
  match c with
  | CipherDone r => Ret (r, (position, staging))
  | CipherRead size k =>
      let bytes := take size (drop position ciphertext) in
      decrypt maximum ciphertext (k (Some bytes)) (position + length bytes) staging
  | CipherWrite bytes k =>
      do! r := memory_write maximum bytes staging in
      decrypt maximum ciphertext (k (Z.of_nat <$> fst r)) position (snd r)
  | CipherFlush k =>
      do! r := memory_flush in
      decrypt maximum ciphertext (k r) position staging
  end.

Fixpoint check_chunks (v : Validator) (l : list (list Z)) : storing (option Validator) :=
  match l with
  | [] => Ret (Some v)
  | chunk :: l =>
      do! r := check_feed chunk v in
      match fst r with
      | None => Ret None
      | Some _ => check_chunks (snd r) l
      end
  end.

Definition restore_inspect (s : RecordStore) (binding : ArtifactBinding) (decryptor : cipher) :
    storing (result BackupError BackupInspection) :=
  do? _ := budget_check deadline in
  do? ciphertext := authenticated_bytes deadline s binding in
  do! decrypted := decrypt (b_source_bytes binding) ciphertext decryptor 0 [] in
  match fst decrypted with
  | None => Ret (Err Integrity)
  | Some report =>
      do? _ := budget_check deadline in
      let '(position, staging) := snd decrypted in
      if negb (Nat.eqb position (length ciphertext)) || negb (input_bytes report =? zlen ciphertext)
         || negb (output_bytes report =? b_source_bytes binding) || negb (zlen staging =? b_source_bytes binding)
      then Ret (Err Integrity)
      else
        do? check := check_new binding in
        do! fed := check_chunks check (chunks staging) in
        match fed with
        | None => Ret (Err Integrity)
        | Some check =>
            do! counts := check_finish check in
            match counts with
            | None => Ret (Err Integrity)
            | Some counts =>
                do? _ := budget_check deadline in
                Ret (Ok {| i_source_bytes := k_source_bytes counts; i_payload_bytes := k_payload_bytes counts; i_files := k_files counts |})
            end
        end
  end.
End workflow.
