(* ===== verification/Custody.v ===== *)
(** * From a capture to a record

    Sealing a capture runs the workflow of Sealing.v over the ports of
    Workflow.v.  What the monitor of Sealed.v proves of every run is combined
    here with what Vault.v proves of the store: an answered capture was wholly
    accepted by the archive checker and its ciphertext is recorded. *)
From S2P Require Import Prelude Text Json Archive Tar Gzip Program Sealing Sealed Backups Ciphertext Store Image Vault Protection Workflow.
Open Scope Z_scope.

Section custody.
Context `{Authenticator} {D : Type}.
Context (new_gzip : D) (total_in total_out : D -> Z) (decompress : D -> list Z -> D * option (Status * list Z)).
Context (deadline : Z) (deadline_future : 0 < deadline).

Abbreviation feeds := (validator_feed new_gzip total_in total_out decompress).
Abbreviation ports := (seal_port new_gzip total_in total_out decompress deadline).

(** What the checker accepts, in any cutting of its input. *)
Fixpoint feed_chunks (l : list (list Z)) (v : @Validator D) : option Validator :=
  match l with
  | [] => Some v
  | chunk :: l => let '(v, ok) := feeds chunk v in if ok then feed_chunks l v else None
  end.
Definition accepted (check : Validator) (data : list Z) (k : CheckCounts) : Prop :=
  exists l v, concat l = data /\ feed_chunks l check = Some v /\ validator_finish v = Some k.

Lemma feed_chunks_app l l' v : feed_chunks (l ++ l') v = feed_chunks l v ≫= feed_chunks l'.
Proof. revert v. induction l as [| chunk l IH]; intros v; cbn [feed_chunks app]; [done |]. by destruct (feeds chunk v) as [v' []]. Qed.

(** A cipher that writes bytes. *)
Fixpoint writes_bytes (c : cipher) : Prop :=
  match c with
  | CipherDone _ => True
  | CipherRead _ k => forall r, writes_bytes (k r)
  | CipherWrite bytes k => Forall is_byte bytes /\ forall r, writes_bytes (k r)
  | CipherFlush k => forall r, writes_bytes (k r)
  end.
Lemma ciphered_bytes c rd wr r : ciphered c rd wr r -> writes_bytes c -> Forall is_byte wr.
Proof.
  induction 1 as [| ? ? ? ? ? ? ? ? IH | bytes k n rd wr r Hn Hc IH | ? ? ? ? ? IH]; cbn [writes_bytes]; intros Hw; [constructor | by apply IH | | by apply IH].
  destruct Hw as [Hb Hw]. apply Forall_app. split; [by apply Forall_take | by apply IH].
Qed.

(** ** The ports and the monitor *)
Context (encryptor : cipher) (Hbytes : writes_bytes encryptor).
Context (b : ArtifactBinding) (data : list Z) (check : @Validator D) (start : Z).
Context (id tag : list Z) (l : list StoreEntry) (Hstore : store_ok id tag l) (Hb : binding_ok b).

Definition outcome_of (p : RecordPublication) : PublishOutcome :=
  match p with Durable => OutPublished | NotRecorded => OutNotPublished | RecordUnknown => OutUnknown end.

(** What is true of an archive that the stage offered to the store. *)
Definition offered (ct : list Z) (counts : SealedCounts) : Prop :=
  (exists r, ciphered encryptor data ct (Some r))
  /\ exists k, accepted check data k /\ k_files k = 1
     /\ counts = {| z_source_bytes := zlen data; z_ciphertext_bytes := zlen ct; z_expanded_bytes := k_expanded_bytes k;
                    z_payload_bytes := b_file_bytes b; z_files := 1 |}
     /\ k_payload_bytes k = b_file_bytes b /\ zlen data = b_source_bytes b.

Definition kept (m : SMon) (s : RecordStore) (w : World) : Prop :=
  match sm_published m with
  | [] => s = {| store := id; uncertain := false |} /\ file w = image id tag l /\ fst w = false
  | (counts, o) :: _ => exists p ct, o = outcome_of p /\ published id tag l b ct (s, p) w /\ (p = Durable -> offered ct counts)
  end.

Record related (m : SMon) (s : Work) (w : World) : Prop := {
  rel_source : sm_cancels m = [] -> w_data s = data /\ sm_read m = take (w_position s) data /\ w_position s = length (sm_read m);
  rel_completed n : sm_completed m = Some n -> sm_cancels m = [] /\ n = zlen data;
  rel_check : sm_refused m = false -> exists l, concat l = sm_fed m /\ feed_chunks l check = Some (w_check s);
  rel_summary k : sm_summary m = Some k -> sm_eof m = true /\ sm_fed m = sm_read m /\ accepted check (sm_fed m) k;
  rel_memory : sm_aborts m = [] -> w_memory s = sm_written m;
  rel_kept : kept m (w_store s) w
}.

Lemma published_same ct r w w' : same w w' -> published id tag l b ct r w -> published id tag l b ct r w'.
Proof. intros (_ & E & _ & M). unfold published, synced. by rewrite E, M. Qed.
Lemma kept_same m s w w' : same w w' -> kept m s w -> kept m s w'.
Proof.
  intros Hs. unfold kept. destruct (sm_published m) as [| [counts o] t].
  - by destruct Hs as (-> & -> & _).
  - intros (p & ct & Ho & Hp & Hd). exists p, ct. split; [done |]. split; [by eapply published_same | done].
Qed.

(** A call that only looks at the budget before it answers. *)
Lemma related_same m s w w' : same w w' -> related m s w -> related m s w'.
Proof. intros Hs []. by constructor; try done; eapply kept_same. Qed.

Lemma checked_holds {A} (f : result BackupError unit -> storing A) w (Q : A -> World -> Prop) :
  (forall r w', same w w' -> holds world (f r) w' Q) -> holds world (pbind (budget_check deadline) f) w Q.
Proof. intros HQ. apply holds_bind, budget_holds; [done |]. intros r w' Hs _. by apply HQ. Qed.

Definition answers (c : SealCall) (m : SMon) (s : Work) (w : World) : Prop :=
  holds world (ports start b c s) w (fun r w' => related (sstep m (Event c (fst r))) (snd r) w').

Lemma budget_load_same w : same w (snd (world BudgetLoad w)).
Proof. destruct w as [f [c n [| [k |] t]]]; cbn; by repeat split; intros ?. Qed.

Ltac call := unfold answers; cbn [seal_port].
Ltac monitored := repeat match goal with m : SMon |- _ => destruct m end;
  cbn [sstep fst snd sm_read sm_fed sm_refused sm_eof sm_written sm_caps sm_summary sm_completed sm_published sm_cancels sm_aborts sok
       set_position set_data set_check set_memory set_store w_data w_position w_check w_memory w_store kept] in *.

Lemma clock_answers m s w : related m s w -> answers ClockNow m s w.
Proof.
  intros Hr. call. apply holds_call, holds_ret. cbn [fst snd]. assert (sstep m (Event ClockNow (Z.min ((snd (fst (world BudgetLoad w)) - start) / 1000000) U64_MAX)) = m) as -> by by destruct m.
  eapply related_same; [apply budget_load_same | done].
Qed.

Lemma take_read (p n : nat) (k : list Z) : take p k ++ take n (drop p k) = take (p + length (take n (drop p k))) k.
Proof.
  rewrite take_take_drop. destruct (Nat.le_gt_cases n (length (drop p k))) as [Hle | Hgt].
  - by rewrite length_take, Nat.min_l.
  - rewrite (take_ge (drop p k)) by lia. rewrite length_drop in *. rewrite !take_ge by lia. done.
Qed.

Lemma source_bytes_answers size m s w : sok capture_limits encryptor m (SourceBytes size) -> related m s w -> answers (SourceBytes size) m s w.
Proof.
  intros (_ & Heof & _) Hr. call. apply checked_holds. intros r w' Hs. apply (related_same _ _ _ _ Hs) in Hr.
  destruct (is_ok r); cbn [negb]; [| apply holds_ret; by destruct m].
  apply holds_ret. destruct Hr as [Rs Rc Rv Rk Rm Rp]. constructor; monitored; try done.
  - intros Hc. destruct (Rs Hc) as (-> & Hread & Hpos). split; [done |]. rewrite Hread at 1. rewrite length_app, <- Hpos. split; [apply take_read | done].
  - intros k Hk. destruct (Rk k Hk) as (He & _). by rewrite Heof in He.
Qed.

Lemma source_complete_answers m s w : sok capture_limits encryptor m SourceComplete -> related m s w -> answers SourceComplete m s w.
Proof.
  intros (_ & _ & Hc & _) Hr. call. apply checked_holds. intros r w' Hs. apply (related_same _ _ _ _ Hs) in Hr. apply holds_ret.
  destruct Hr as [Rs Rc Rv Rk Rm Rp]. destruct (Rs Hc) as (Hd & _). constructor; monitored; try done.
  intros n Hn. split; [done |]. destruct (is_ok r); [| done]. injection Hn as <-. by rewrite Hd.
Qed.

Lemma source_cancel_answers m s w : sok capture_limits encryptor m SourceCancel -> related m s w -> answers SourceCancel m s w.
Proof.
  intros (_ & Hc) Hr. call. apply holds_ret. destruct Hr as [Rs Rc Rv Rk Rm Rp]. constructor; monitored; try done.
  - intros Hn. by apply app_nil in Hn as [_ ?].
  - intros n Hn. by rewrite Hc in Hn.
Qed.

Lemma check_feed_answers bytes m s w : sok capture_limits encryptor m (CheckFeed bytes) -> related m s w -> answers (CheckFeed bytes) m s w.
Proof.
  intros (Hrf & Hread & Hne & _) Hr. call. unfold check_feed. apply holds_bind.
  destruct Hr as [Rs Rc Rv Rk Rm Rp]. destruct (Rv Hrf) as (chunks & Hc & Hv).
  assert (Hno : sm_summary m = None).
  { destruct (sm_summary m) as [k |]; [| done]. destruct (Rk k eq_refl) as (_ & Hfd & _). rewrite Hread in Hfd.
    apply (f_equal length) in Hfd. rewrite length_app in Hfd. destruct bytes; [done |]. cbn in Hfd. lia. }
  assert (Hrefused : forall v w', same w w' -> related (sstep m (Event (CheckFeed bytes) None)) (set_check v s) w').
  { intros v w' Hs. apply (kept_same _ _ _ _ Hs) in Rp. by constructor; monitored. }
  apply checked_holds. intros r w' Hs. destruct (is_ok r); cbn [negb]; [| apply holds_ret, holds_ret; by apply Hrefused].
  destruct (feeds bytes (w_check s)) as [v ok] eqn:Ef. destruct ok; cbn [negb]; [| apply holds_ret, holds_ret; by apply Hrefused].
  apply checked_holds. intros r' w2 Hs2. assert (Hs' : same w w2) by (by eapply same_trans). apply holds_ret, holds_ret. cbn [fst snd].
  destruct (is_ok r'); [| by apply Hrefused]. apply (kept_same _ _ _ _ Hs') in Rp. constructor; monitored; try done.
  - intros _. exists (chunks ++ [bytes]). rewrite concat_app, Hc. cbn [concat]. rewrite app_nil_r. split; [done |].
    rewrite feed_chunks_app, Hv. cbn [mbind option_bind feed_chunks]. by rewrite Ef.
  - by rewrite Hno.
Qed.

Lemma check_finish_answers m s w : sok capture_limits encryptor m CheckFinish -> related m s w -> answers CheckFinish m s w.
Proof.
  intros (Hrf & Heof & Hfd) Hr. call. unfold check_finish. apply holds_bind.
  destruct Hr as [Rs Rc Rv Rk Rm Rp]. destruct (Rv Hrf) as (chunks & Hc & Hv).
  assert (Hanswer : forall o w', same w w' -> (forall k, o = Some k -> accepted check (sm_fed m) k) ->
            related (sstep m (Event CheckFinish o)) s w').
  { intros o w' Hs Ho. apply (kept_same _ _ _ _ Hs) in Rp. constructor; monitored; try done. intros k ->. by auto. }
  apply checked_holds. intros r w' Hs. destruct (is_ok r); cbn [negb]; [| by apply holds_ret, holds_ret, Hanswer].
  destruct (validator_finish (w_check s)) as [k |] eqn:Ek; [| by apply holds_ret, holds_ret, Hanswer].
  apply checked_holds. intros r' w2 Hs2. apply holds_ret, holds_ret, Hanswer; [by eapply same_trans |].
  destruct (is_ok r'); [| done]. intros k' [= <-]. by exists chunks, (w_check s).
Qed.

Lemma stage_bytes_answers bytes m s w : sok capture_limits encryptor m (StageBytes bytes) -> related m s w -> answers (StageBytes bytes) m s w.
Proof.
  intros (_ & _ & _ & _ & _ & _ & Ha) Hr. call. unfold memory_write. apply holds_bind.
  assert (Hno : forall w', same w w' -> related (sstep m (Event (StageBytes bytes) None)) (set_memory (w_memory s) s) w').
  { intros w' Hs. apply (related_same _ _ _ _ Hs) in Hr. destruct s. by destruct m. }
  apply checked_holds. intros r w' Hs. destruct (is_ok r); cbn [negb]; [| by apply holds_ret, holds_ret, Hno].
  destruct (_ || _); [by apply holds_ret, holds_ret, Hno |]. apply holds_ret, holds_ret. apply (related_same _ _ _ _ Hs) in Hr.
  destruct Hr as [Rs Rc Rv Rk Rm Rp]. constructor; monitored; try done. intros _. by rewrite Rm, firstn_all.
Qed.

Lemma stage_sync_answers m s w : related m s w -> answers StageSync m s w.
Proof.
  intros Hr. call. unfold memory_flush. apply holds_bind, checked_holds. intros r w' Hs. apply holds_ret, holds_ret.
  apply (related_same _ _ _ _ Hs) in Hr. destruct Hr as [Rs Rc Rv Rk Rm Rp]. by constructor; monitored.
Qed.

Lemma stage_caps_answers m s w : related m s w -> answers StageCaps m s w.
Proof. intros Hr. call. apply holds_ret. destruct Hr as [Rs Rc Rv Rk Rm Rp]. by constructor; monitored. Qed.

Lemma stage_abort_answers m s w : sok capture_limits encryptor m StageAbort -> related m s w -> answers StageAbort m s w.
Proof.
  intros (Ha & _) Hr. call. apply holds_ret. destruct Hr as [Rs Rc Rv Rk Rm Rp]. constructor; monitored; try done.
  intros Hn. by apply app_nil in Hn as [_ ?].
Qed.

Lemma stage_publish_answers counts m s w : sok capture_limits encryptor m (StagePublish counts) -> related m s w ->
  answers (StagePublish counts) m s w.
Proof.
  intros (Hp & Ha & Hpub) Hr. call. unfold stage_publish. destruct Hpub as (_ & Heof & Hfd & Hco & _ & _ & _ & [rc Hc] & Hrf & k & Hk & Hval & ->).
  destruct Hr as [Rs Rc Rv Rk Rm Rp]. destruct (Rc _ Hco) as [Hca Hlen]. destruct (Rs Hca) as (Hd & Hread & Hpos).
  assert (Hall : sm_read m = data). { rewrite Hread. apply take_ge. lia. }
  destruct (Rk k Hk) as (_ & _ & Hacc). rewrite Hfd, Hall in Hacc. rewrite Hall in *. specialize (Rm Ha). unfold kept in Rp. rewrite Hp in Rp.
  destruct Rp as (Hst & Hfile & Hpoison).
  assert (Hput : forall p s' w', w_data s' = w_data s -> w_position s' = w_position s -> w_check s' = w_check s -> w_memory s' = w_memory s ->
    (exists ct, published id tag l b ct (w_store s', p) w' /\ (p = Durable -> offered ct (Build_SealedCounts (zlen data) (zlen (sm_written m)) (k_expanded_bytes k) (k_payload_bytes k) (k_files k)))) ->
    related (sstep m (Event (StagePublish (Build_SealedCounts (zlen data) (zlen (sm_written m)) (k_expanded_bytes k) (k_payload_bytes k) (k_files k))) (outcome_of p))) s' w').
  { intros p s' w' E1 E2 E3 E4 (ct & Hpb & Hof). constructor; monitored; rewrite ?E1, ?E2, ?E3, ?E4; try done.
    all: rewrite ?Hall; try done. unfold kept. cbn [Sealed.sm_published]. rewrite Hp. by exists p, ct. }
  cbn [z_source_bytes z_payload_bytes z_files z_ciphertext_bytes]. destruct (_ || _) eqn:E.
  { apply holds_ret; cbn [fst snd]; apply (Hput NotRecorded); try done. exists []. split; [split; [by rewrite Hst | done] | done]. }
  apply orb_false_iff in E as [[[E1%negb_false_iff%Z.eqb_eq E2%negb_false_iff%Z.eqb_eq]%orb_false_iff E3%negb_false_iff%Z.eqb_eq]%orb_false_iff _].
  rewrite Hst, Rm. apply holds_bind. eapply holds_mono; [apply (publish_holds deadline deadline_future w id tag l b (sm_written m)); try done; by eapply ciphered_bytes |].
  intros [s2 p] w2 (_ & Hpb & _). apply holds_ret. cbn [fst snd]. replace (match p with Durable => OutPublished | NotRecorded => OutNotPublished | RecordUnknown => OutUnknown end) with (outcome_of p) by by destruct p.
  apply Hput; try done. exists (sm_written m). split; [done |]. intros _. split; [by exists rc |].
  exists k. split; [done |]. split; [done |]. split; [by rewrite E2, E3 | done].
Qed.

Lemma port_answers c m s w : sok capture_limits encryptor m c -> related m s w -> answers c m s w.
Proof.
  destruct c; intros Hc Hr; [by apply clock_answers | by apply source_bytes_answers | by apply source_complete_answers | by apply source_cancel_answers
    | by apply check_feed_answers | by apply check_finish_answers | by apply stage_caps_answers | by apply stage_bytes_answers
    | by apply stage_sync_answers | by apply stage_publish_answers | by apply stage_abort_answers].
Qed.
End custody.

(** ** Sealing a capture *)
Section sealing.
Context `{Authenticator} {D : Type}.
Context (new_gzip : D) (total_in total_out : D -> Z) (decompress : D -> list Z -> D * option (Status * list Z)).
Context (deadline : Z) (deadline_future : 0 < deadline).

Definition tar_counts (s : ArchiveSummary) : CheckCounts :=
  {| k_source_bytes := sum_archive_bytes s; k_expanded_bytes := sum_archive_bytes s; k_payload_bytes := sum_payload_bytes s; k_files := sum_files s |}.
Definition gzip_counts (s : GzipArchiveSummary) : CheckCounts :=
  {| k_source_bytes := gz_compressed_bytes s; k_expanded_bytes := gz_archive_bytes s; k_payload_bytes := gz_payload_bytes s; k_files := gz_files s |}.

(** The data is an archive in the binding's format of the one expected file. *)
Definition validated (b : ArtifactBinding) (data : list Z) (k : CheckCounts) : Prop :=
  exists f e l, ExpectedFile_new SYSTEM_PATH (b_file_bytes b) = Ok f /\ ExpectedArchive_new [f] = Ok e /\ concat l = data
  /\ match b_format b with
     | TarFormat => exists s, validate_stream e l = Ok s /\ k = tar_counts s
     | GzipFormat => exists s, validate_gzip new_gzip total_in total_out decompress e l = Ok s /\ k = gzip_counts s
     end.

Abbreviation feeding := (feed_chunks new_gzip total_in total_out decompress).

Lemma feed_tar l v w : feeding l (VTar v) = Some w -> exists v', w = VTar v' /\ feed_all l v = (v', Ok tt).
Proof.
  revert v. induction l as [| chunk l IH]; intros v; cbn [feed_chunks feed_all]; [intros [= <-]; by exists v |].
  unfold validator_feed, st_bind. destruct (feed chunk v) as [v' [[] | e]]; cbn [is_ok]; [apply IH | done].
Qed.
Lemma feed_gzip l v w : feeding l (VGzip v) = Some w ->
  exists v', w = VGzip v' /\ gzip_feed_all new_gzip total_in total_out decompress l v = (v', Ok tt).
Proof.
  revert v. induction l as [| chunk l IH]; intros v; cbn [feed_chunks gzip_feed_all]; [intros [= <-]; by exists v |].
  unfold validator_feed, st_bind. destruct (gzip_feed _ _ _ _ chunk v) as [v' [[] | e]]; cbn [is_ok]; [apply IH | done].
Qed.

(** The checker of a binding. *)
Definition checker (b : ArtifactBinding) (v : @Validator D) : Prop :=
  exists f e, ExpectedFile_new SYSTEM_PATH (b_file_bytes b) = Ok f /\ ExpectedArchive_new [f] = Ok e
  /\ v = match b_format b with TarFormat => VTar (ArchiveValidator_new e) | GzipFormat => VGzip (GzipArchiveValidator_new e) end.

Lemma checker_validates b v data k : checker b v -> accepted new_gzip total_in total_out decompress v data k -> validated b data k.
Proof.
  intros (f & e & Hf & He & ->) (l & w & Hl & Hw & Hk). exists f, e, l. split; [done |]. split; [done |]. split; [done |].
  destruct (b_format b).
  - apply feed_tar in Hw as (v' & -> & Hv). cbn [validator_finish] in Hk. unfold validate_stream. rewrite Hv.
    destruct (finish v') as [s |]; [| done]. injection Hk as <-. by exists s.
  - apply feed_gzip in Hw as (v' & -> & Hv). cbn [validator_finish] in Hk. unfold validate_gzip. rewrite Hv.
    destruct (gzip_finish v') as [s |]; [| done]. injection Hk as <-. by exists s.
Qed.

Lemma check_new_holds b w (Q : result BackupError (@Validator D) -> World -> Prop) :
  (forall r w', same w w' -> (forall v, r = Ok v -> checker b v) -> Q r w') -> holds world (check_new deadline b) w Q.
Proof.
  intros HQ. unfold check_new. apply holds_try, budget_holds; [done |]. intros [[] | e] w' Hs _; [| by apply HQ].
  apply holds_ret, HQ; [done |]. intros v Hv. apply rbind_ok in Hv as (f & Hf & Hv). apply rbind_ok in Hv as (e & He & [= <-]).
  exists f, e. destruct (ExpectedFile_new _ _); [| done]. injection Hf as ->. destruct (ExpectedArchive_new _); [| done]. by injection He as ->.
Qed.

(** How sealing a capture may end. *)
Definition captured (c : cipher) (id tag : list Z) (l : list StoreEntry) (b : ArtifactBinding) (data : list Z)
    (r : RecordStore * result BackupFailure BackupInspection) (w : World) : Prop :=
  match snd r with
  | Ok i =>
      exists ct k n, published id tag l b ct (fst r, Durable) w /\ validated b data k /\ ciphered c data ct (Some n)
        /\ zlen data = b_source_bytes b
        /\ i = {| i_source_bytes := b_source_bytes b; i_payload_bytes := b_file_bytes b; i_files := 1 |}
  | Err f => exists ct, published id tag l b ct (fst r, bf_publication f) w
  end.

Lemma untouched c id tag l b data e w : file w = image id tag l ->
  captured c id tag l b data ({| store := id; uncertain := false |}, Err (before e)) w.
Proof. intros Hw. by exists []. Qed.

Lemma seal_capture_holds w capture c id tag l :
  store_ok id tag l -> file w = image id tag l -> fst w = false -> binding_ok (c_binding capture) -> writes_bytes c ->
  holds world (seal_capture new_gzip total_in total_out decompress deadline capture c {| store := id; uncertain := false |}) w
    (captured c id tag l (c_binding capture) (c_bytes capture)).
Proof.
  intros Hs Hw Hf Hb Hc. unfold seal_capture. set (b := c_binding capture) in *. apply holds_bind, budget_holds; [done |].
  intros r w1 (F1 & E1 & _) _. destruct r as [[] | e]; [| apply holds_ret, untouched; by rewrite E1].
  apply holds_bind, check_new_holds. intros r w2 (F2 & E2 & _) Hcheck.
  destruct r as [check | e]; [| apply holds_ret, untouched; by rewrite E2, E1]. specialize (Hcheck check eq_refl).
  change (ArchiveSealer_new capture_limits) with (@Ok SealFailure _ capture_limits). apply holds_call. cbn iota.
  destruct (budget_load_same w2) as (F3 & E3 & _). set (w3 := snd (world BudgetLoad w2)) in *. apply holds_bind. eapply holds_mono.
  { apply (holds_elaborate (seal_port new_gzip total_in total_out decompress deadline (snd (fst (world BudgetLoad w2))) b) world sstep (sok capture_limits c)
             (related new_gzip total_in total_out decompress c b (c_bytes capture) check id tag l)
             (seal_with_clock capture_limits c) SMon_new _ w3 reported).
    - intros m call s w4. by apply port_answers.
    - by apply seal_wp.
    - constructor; try done; [intros _; by exists [] |]. split; [done |]. cbn. by rewrite E3, E2, E1, F3, F2, F1. }
  intros [r s] w4 (m & Hr & Hm). cbn [fst snd] in *. destruct Hm as [_ _ _ _ _ Hk]. unfold kept in Hk. destruct r as [counts | report].
  - destruct Hr as (Hp & _). rewrite Hp in Hk. destruct Hk as (p & ct & Ho & Hpub & Hof). destruct p; try done.
    destruct (Hof eq_refl) as ([n Hn] & k & Hacc & Hfiles & -> & Hpay & Hlen). apply holds_ret. exists ct, k, n.
    split; [done |]. split; [by apply (checker_validates b check) |]. split; [done |]. split; [done |].
    unfold inspection. cbn [z_source_bytes z_payload_bytes z_files]. by rewrite Hlen.
  - destruct Hr as (Hp & _). apply holds_bind, budget_holds; [done |]. intros r w5 Hsame _. apply holds_ret. unfold captured. cbn [fst snd bf_publication].
    rewrite Hp. destruct (sm_published m) as [| [counts o] rest]; cbn [publication_seen].
    + destruct Hk as (-> & Hfile & _). exists []. split; [done |]. destruct Hsame as (_ & -> & _). done.
    + destruct Hk as (p & ct & -> & Hpub & _). exists ct. destruct p; by eapply published_same.
Qed.
End sealing.

(** ** Inspecting a record *)
Section inspecting.
Context `{Authenticator} {D : Type}.
Context (new_gzip : D) (total_in total_out : D -> Z) (decompress : D -> list Z -> D * option (Status * list Z)).
Context (deadline : Z) (deadline_future : 0 < deadline).

Abbreviation validated_as := (validated new_gzip total_in total_out decompress).
Abbreviation feeding := (feed_chunks new_gzip total_in total_out decompress).

(** Streams that may fail: what a cipher read and what was accepted of it. *)
Inductive streamed : cipher -> list Z -> list Z -> option CipherCounts -> Prop :=
| streamed_done r : streamed (CipherDone r) [] [] r
| streamed_read size k bytes rd wr r : (length bytes <= size)%nat -> streamed (k (Some bytes)) rd wr r -> streamed (CipherRead size k) (bytes ++ rd) wr r
| streamed_write bytes k rd wr r : streamed (k (Some (zlen bytes))) rd wr r -> streamed (CipherWrite bytes k) rd (bytes ++ wr) r
| streamed_refused bytes k rd wr r : streamed (k None) rd wr r -> streamed (CipherWrite bytes k) rd wr r
| streamed_flush k u rd wr r : streamed (k u) rd wr r -> streamed (CipherFlush k) rd wr r.

Lemma memory_write_holds maximum bytes memory w (Q : option nat * list Z -> World -> Prop) :
  (forall w', same w w' -> Q (None, memory) w') -> (forall w', same w w' -> Q (Some (length bytes), memory ++ bytes) w') ->
  holds world (memory_write deadline maximum bytes memory) w Q.
Proof.
  intros Hn Hs. unfold memory_write. apply checked_holds; [done |]. intros r w' Hw. destruct (is_ok r); cbn [negb]; [| by apply holds_ret, Hn].
  destruct (_ || _); [by apply holds_ret, Hn | by apply holds_ret, Hs].
Qed.

Lemma drop_read (n : nat) (l : list Z) : l = take n l ++ drop (length (take n l)) l.
Proof.
  destruct (Nat.le_gt_cases n (length l)) as [Hle | Hgt].
  - by rewrite length_take, Nat.min_l, take_drop.
  - by rewrite (take_ge l) by lia; rewrite drop_all, app_nil_r.
Qed.

Lemma decrypt_holds maximum ct c position staging w (Q : option CipherCounts * (nat * list Z) -> World -> Prop) :
  (forall w' r rd wr, same w w' -> streamed c rd wr r -> drop position ct = rd ++ drop (position + length rd) ct ->
     Q (r, ((position + length rd)%nat, staging ++ wr)) w') ->
  holds world (decrypt deadline maximum ct c position staging) w Q.
Proof.
  revert position staging w Q. induction c as [r | size k IH | bytes k IH | k IH]; intros position staging w Q HQ; cbn [decrypt].
  - apply holds_ret. specialize (HQ w r [] []). rewrite Nat.add_0_r, app_nil_r in HQ. apply HQ; [apply same_refl | constructor | done].
  - apply IH. intros w' r rd wr Hs Hr Hrd. specialize (HQ w' r (take size (drop position ct) ++ rd) wr). rewrite length_app, Nat.add_assoc in HQ.
    apply HQ; [done | apply streamed_read; [rewrite length_take; lia | done] |].
    rewrite <- app_assoc, <- Hrd, <- drop_drop. apply drop_read.
  - apply holds_bind, memory_write_holds; intros w1 H1; cbn [fst snd fmap option_fmap option_map]; apply IH; intros w' r rd wr Hs Hr Hrd;
      [| rewrite <- app_assoc]; (apply HQ; [by eapply same_trans | by constructor | done]).
  - unfold memory_flush. apply holds_bind, checked_holds; [done |]. intros u w1 H1. apply holds_ret, IH. intros w' r rd wr Hs Hr Hrd.
    apply HQ; [by eapply same_trans | by eapply streamed_flush | done].
Qed.

Lemma check_feed_holds chunk v w (Q : option unit * Validator -> World -> Prop) :
  (forall r w', same w w' -> (fst r <> None -> feeding [chunk] v = Some (snd r)) -> Q r w') ->
  holds world (check_feed new_gzip total_in total_out decompress deadline chunk v) w Q.
Proof.
  intros HQ. unfold check_feed. apply checked_holds; [done |]. intros r w1 H1. destruct (is_ok r); cbn [negb]; [| by apply holds_ret, HQ].
  destruct (validator_feed _ _ _ _ chunk v) as [v' []] eqn:Ef; cbn [negb]; [| by apply holds_ret, HQ].
  apply checked_holds; [done |]. intros r' w2 H2. apply holds_ret, HQ; [by eapply same_trans |]. intros _. cbn [feed_chunks]. by rewrite Ef.
Qed.

Lemma check_chunks_holds l v w (Q : option Validator -> World -> Prop) :
  (forall r w', same w w' -> (forall v', r = Some v' -> feeding l v = Some v') -> Q r w') ->
  holds world (check_chunks new_gzip total_in total_out decompress deadline v l) w Q.
Proof.
  revert v w Q. induction l as [| chunk l IH]; intros v w Q HQ; cbn [check_chunks].
  { apply holds_ret, HQ; [apply same_refl |]. by intros v' [= <-]. }
  apply holds_bind, check_feed_holds. intros [[u |] v1] w1 H1 Hf; cbn [fst snd] in *; [| by apply holds_ret, HQ].
  apply IH. intros r w2 H2 Hr. apply HQ; [by eapply same_trans |]. intros v' ->. specialize (Hr v' eq_refl). specialize (Hf ltac:(done)).
  cbn [feed_chunks] in Hf |- *. destruct (validator_feed _ _ _ _ chunk v) as [v2 []]; [| done]. by injection Hf as ->.
Qed.

Lemma check_finish_holds v w (Q : option CheckCounts -> World -> Prop) :
  (forall r w', same w w' -> (forall k, r = Some k -> validator_finish v = Some k) -> Q r w') ->
  holds world (check_finish (D := D) deadline v) w Q.
Proof.
  intros HQ. unfold check_finish. apply checked_holds; [done |]. intros r w1 H1. destruct (is_ok r); cbn [negb]; [| by apply holds_ret, HQ].
  destruct (validator_finish v) as [k |] eqn:Ek; [| by apply holds_ret, HQ].
  apply checked_holds; [done |]. intros r' w2 H2. apply holds_ret, HQ; [by eapply same_trans |]. by destruct (is_ok r').
Qed.

(** What an inspection that succeeds has established. *)
Definition inspected (l : list StoreEntry) (b : ArtifactBinding) (c : cipher) (i : BackupInspection) : Prop :=
  exists ct data k n, lookup_entry b l = Ok (Some ct) /\ streamed c ct data (Some n)
    /\ n = {| input_bytes := zlen ct; output_bytes := zlen data |} /\ zlen data = b_source_bytes b /\ validated_as b data k
    /\ i = {| i_source_bytes := k_source_bytes k; i_payload_bytes := k_payload_bytes k; i_files := k_files k |}.

Lemma restore_inspect_holds w s id tag l b c :
  store_ok id tag l -> file w = image id tag l -> fst w = false -> store s = id -> b_store b = id ->
  holds world (restore_inspect new_gzip total_in total_out decompress deadline s b c) w (fun r w' =>
    file w' = file w /\ forall i, r = Ok i -> inspected l b c i).
Proof.
  intros Hs Hw Hf Hid Hb. unfold restore_inspect. apply holds_try, budget_holds; [done |]. intros r w1 (F1 & E1 & _) _. destruct r as [[] | e]; [| done].
  apply holds_try. eapply holds_mono; [apply (authenticated_bytes_holds deadline deadline_future w1 s id tag l b); try done; by rewrite ?E1, ?F1 |].
  intros r w2 (E2 & Hct & _). destruct r as [ct | e]; [| by rewrite E2, E1]. specialize (Hct ct eq_refl). rewrite E1 in E2.
  apply holds_bind, decrypt_holds. intros w3 r rd wr (_ & E3 & _) Hstream Hrd. cbn [fst snd]. rewrite drop_0, Nat.add_0_l in *.
  destruct r as [report |]; [| apply holds_ret; by rewrite E3, E2]. apply holds_try, budget_holds; [done |]. intros r w4 (_ & E4 & _) _.
  destruct r as [[] | e]; [| by rewrite E4, E3, E2]. cbn [app]. destruct (_ || _) eqn:E; [apply holds_ret; by rewrite E4, E3, E2 |].
  apply orb_false_iff in E as [[[P1%negb_false_iff%Nat.eqb_eq P2%negb_false_iff%Z.eqb_eq]%orb_false_iff P3%negb_false_iff%Z.eqb_eq]%orb_false_iff P4%negb_false_iff%Z.eqb_eq].
  rewrite P1, drop_all, app_nil_r in Hrd. subst rd.
  apply holds_try, check_new_holds; [done |]. intros r w5 (_ & E5 & _) Hcheck. destruct r as [v | e]; [| by rewrite E5, E4, E3, E2].
  apply holds_bind, check_chunks_holds. intros r w6 (_ & E6 & _) Hfeed. destruct r as [v' |]; [| apply holds_ret; by rewrite E6, E5, E4, E3, E2].
  apply holds_bind, check_finish_holds. intros r w7 (_ & E7 & _) Hfin. destruct r as [k |]; [| apply holds_ret; by rewrite E7, E6, E5, E4, E3, E2].
  apply holds_try, budget_holds; [done |]. intros r w8 (_ & E8 & _) _. destruct r as [[] | e]; [| by rewrite E8, E7, E6, E5, E4, E3, E2].
  apply holds_ret. split; [by rewrite E8, E7, E6, E5, E4, E3, E2 |]. intros i [= <-]. exists ct, wr, k, report. split; [done |]. split; [done |].
  split; [destruct report; cbn in *; by rewrite P2, P3, P4 |]. split; [done |]. split; [| done].
  apply (checker_validates new_gzip total_in total_out decompress b v); [by apply Hcheck |]. exists (chunks wr), v'. split; [apply concat_chunks |]. split; [by apply Hfeed | by apply Hfin].
Qed.
End inspecting.

(** C4: sealing a capture is truthful end to end, wherever the disk or the budget fails: an answer means that
    the captured bytes, all of them, are an archive of the one expected file as the archive checker validates it, that
    the cipher read exactly them and wrote exactly the ciphertext that is now recorded, whole and on the medium (a loss of power
    leaves just that image), under
    the capture's binding after the records that were there, and that the answer's counts are the binding's; a failure
    says of the store what is so: unrecorded means that no byte was written, unknown that at most a part of one valid
    record was, and the store is then latched. *)
Theorem seal_capture_truthful `{Authenticator} {D : Type} (new_gzip : D) (total_in total_out : D -> Z)
    (decompress : D -> list Z -> D * option (Status * list Z)) deadline w capture c id tag l :
  0 < deadline -> store_ok id tag l -> file w = image id tag l -> fst w = false -> binding_ok (c_binding capture) -> writes_bytes c ->
  let '(r, w') := interp world (seal_capture new_gzip total_in total_out decompress deadline capture c {| store := id; uncertain := false |}) w in
  captured new_gzip total_in total_out decompress c id tag l (c_binding capture) (c_bytes capture) r w'
  /\ (is_ok (snd r) = true -> forall after, survives w' after -> after = file w').
Proof.
  intros Hd Hs Hw Hf Hb Hc.
  pose proof (seal_capture_holds new_gzip total_in total_out decompress deadline Hd w capture c id tag l Hs Hw Hf Hb Hc) as Hh.
  unfold holds in Hh. destruct (interp world _ w) as [[s [i | f]] w']; (split; [exact Hh |]); [| done].
  intros _ after Hafter. destruct Hh as (ct & k & n & (_ & t & _ & _ & Hsy) & _). by apply survives_synced.
Qed.

(** ** A capture of the system configuration *)
Definition demo_capture : CapturedArchive :=
  {| c_binding := demo_binding; c_bytes := demo_header SYSTEM_PATH 5 ++ [97; 98; 99; 100; 10] ++ replicate 507 0 ++ replicate 1024 0 |}.
Definition demo_encryptor : cipher :=
  CipherRead 4096 (fun r1 => CipherWrite demo_ciphertext (fun n => CipherFlush (fun _ => CipherRead 4096 (fun r2 =>
    CipherDone (match r1, n, r2 with Some b, Some n, Some [] => Some {| input_bytes := zlen b; output_bytes := n |} | _, _, _ => None end))))).
Definition no_gzip (_ : unit) : Z := 0.
Definition no_decompress (d : unit) (_ : list Z) : unit * option (Status * list Z) := (d, None).

Definition demo_seal_capture (script : list (option nat)) :=
  interp (@world demo_authenticator)
    (seal_capture tt no_gzip no_gzip no_decompress 5 demo_capture demo_encryptor {| store := demo_id; uncertain := false |}) (demo_world script).

Lemma demo_encryptor_bytes : writes_bytes demo_encryptor.
Proof. intros r1. split; [apply bytes_checked; reflexivity | done]. Qed.

Lemma seal_capture_truthful_witness :
  (let '(r, w') := demo_seal_capture [] in
     snd r = Ok {| i_source_bytes := 2048; i_payload_bytes := 5; i_files := 1 |} /\ file w' = image demo_id demo_store_tag [demo_entry]
     /\ @captured demo_authenticator unit tt no_gzip no_gzip no_decompress demo_encryptor demo_id demo_store_tag [] demo_binding (c_bytes demo_capture) r w')
  /\ (let '(r, w') := demo_seal_capture (repeat None 60 ++ [Some 4%nat]) in
     is_ok (snd r) = false
     /\ @captured demo_authenticator unit tt no_gzip no_gzip no_decompress demo_encryptor demo_id demo_store_tag [] demo_binding (c_bytes demo_capture) r w').
Proof.
  assert (forall script, let '(r, w') := demo_seal_capture script in
    @captured demo_authenticator unit tt no_gzip no_gzip no_decompress demo_encryptor demo_id demo_store_tag [] demo_binding (c_bytes demo_capture) r w') as Hp.
  { intros script.
    pose proof (@seal_capture_truthful demo_authenticator unit tt no_gzip no_gzip no_decompress 5 (demo_world script) demo_capture demo_encryptor
      demo_id demo_store_tag [] ltac:(lia) demo_store_ok eq_refl eq_refl demo_binding_ok demo_encryptor_bytes) as Hs.
    fold (demo_seal_capture script) in Hs. destruct (demo_seal_capture script) as [r w']. exact (proj1 Hs). }
  split.
  - specialize (Hp []). assert (snd (fst (demo_seal_capture [])) = Ok {| i_source_bytes := 2048; i_payload_bytes := 5; i_files := 1 |}
      /\ file (snd (demo_seal_capture [])) = image demo_id demo_store_tag [demo_entry]) as Hr by (split; vm_compute; reflexivity).
    destruct (demo_seal_capture []) as [r w']. exact (conj (proj1 Hr) (conj (proj2 Hr) Hp)).
  - specialize (Hp (repeat None 60 ++ [Some 4%nat])).
    assert (is_ok (snd (fst (demo_seal_capture (repeat None 60 ++ [Some 4%nat])))) = false) as Hr by (vm_compute; reflexivity).
    destruct (demo_seal_capture (repeat None 60 ++ [Some 4%nat])) as [r w']. exact (conj Hr Hp).
Defined.

(** C13: inspecting a record is sound, wherever the disk or the budget fails: the store is left as it was, and an answer
    means that the decryptor read exactly the ciphertext that the store's records hold for that binding, that it wrote
    data of the binding's length which the archive checker accepted whole only after the decryption had ended, and that
    the answer is the checker's counts. *)
Theorem restore_inspect_sound `{Authenticator} {D : Type} (new_gzip : D) (total_in total_out : D -> Z)
    (decompress : D -> list Z -> D * option (Status * list Z)) deadline w s id tag l b c :
  0 < deadline -> store_ok id tag l -> file w = image id tag l -> fst w = false -> store s = id -> b_store b = id ->
  let '(r, w') := interp world (restore_inspect new_gzip total_in total_out decompress deadline s b c) w in
  file w' = file w /\ forall i, r = Ok i -> inspected new_gzip total_in total_out decompress l b c i.
Proof.
  intros Hd Hs Hw Hf Hid Hb.
  pose proof (restore_inspect_holds new_gzip total_in total_out decompress deadline Hd w s id tag l b c Hs Hw Hf Hid Hb) as Hh.
  unfold holds in Hh. by destruct (interp world _ w).
Qed.

Definition demo_decryptor : cipher :=
  CipherRead 4096 (fun r1 => CipherWrite (c_bytes demo_capture) (fun n => CipherRead 4096 (fun r2 =>
    CipherDone (match r1, n, r2 with Some b, Some n, Some [] => Some {| input_bytes := zlen b; output_bytes := n |} | _, _, _ => None end)))).
Definition demo_sealed : @World := (false, {| contents := image demo_id demo_store_tag [demo_entry]; stable := 0; script := [] |}).

Lemma demo_sealed_ok : @store_ok demo_authenticator demo_id demo_store_tag [demo_entry].
Proof.
  split; [reflexivity |]. split; [vm_compute; discriminate |]. split; [vm_compute; reflexivity |].
  split; [| split; [unfold jobs_of; apply NoDup_singleton | vm_compute; discriminate]]. constructor; [| constructor].
  split; [apply demo_binding_ok |]. split; [vm_compute; reflexivity |]. split; [vm_compute; split; discriminate |].
  split; [apply bytes_checked; reflexivity | vm_compute; reflexivity].
Qed.

Lemma restore_inspect_sound_witness :
  let '(r, w') := interp (@world demo_authenticator)
      (restore_inspect tt no_gzip no_gzip no_decompress 5 {| store := demo_id; uncertain := false |} demo_binding demo_decryptor) demo_sealed in
  r = Ok {| i_source_bytes := 2048; i_payload_bytes := 5; i_files := 1 |} /\ file w' = file demo_sealed
  /\ forall i, r = Ok i -> inspected tt no_gzip no_gzip no_decompress [demo_entry] demo_binding demo_decryptor i.
Proof.
  pose proof (@restore_inspect_sound demo_authenticator unit tt no_gzip no_gzip no_decompress 5 demo_sealed {| store := demo_id; uncertain := false |}
    demo_id demo_store_tag [demo_entry] demo_binding demo_decryptor ltac:(lia) demo_sealed_ok eq_refl eq_refl eq_refl ltac:(vm_compute; reflexivity)) as Hs.
  assert (fst (interp (@world demo_authenticator)
      (restore_inspect tt no_gzip no_gzip no_decompress 5 {| store := demo_id; uncertain := false |} demo_binding demo_decryptor) demo_sealed)
      = Ok {| i_source_bytes := 2048; i_payload_bytes := 5; i_files := 1 |}) as Hr by (vm_compute; reflexivity).
  destruct (interp _ _ demo_sealed) as [r w']. exact (conj Hr Hs).
Defined.
