(* ===== verification/Zip.v ===== *)
(** * The ZIP key container

    [crates/key-sources/src/archive.rs]: a preflight over the raw bytes bounds
    the directory and refuses every ambiguity before the general ZIP library,
    a parameter here, is given the container.  [usize] is 64 bits wide. *)
From Stdlib Require Import Sorted.
From S2P Require Import Prelude Order Text Archive Protection.
Open Scope Z_scope.

Definition END_RECORD : list Z := str_bytes "PK" ++ [5; 6].
Definition CENTRAL_HEADER : list Z := str_bytes "PK" ++ [1; 2].
Definition LOCAL_HEADER : list Z := str_bytes "PK" ++ [3; 4].
Definition DESCRIPTOR : list Z := str_bytes "PK" ++ [7; 8].
Definition U32_MAX : Z := 4294967295.

(** [bytes.get(start..stop)] *)
Definition get_range (start stop : Z) (bytes : list Z) : option (list Z) :=
  if (start <=? stop) && (stop <=? zlen bytes) then Some (slice (Z.to_nat start) (Z.to_nat (stop - start)) bytes) else None.

Definition span (bytes : list Z) (start len : Z) : result ProtectionError (list Z) :=
  let? stop := ok_or (checked_add start len) InvalidContainer in
  ok_or (get_range start stop bytes) InvalidContainer.
Definition number16 (bytes : list Z) (offset : Z) : result ProtectionError Z :=
  let? two := span bytes offset 2 in Ok (le_value two).
Definition number32 (bytes : list Z) (offset : Z) : result ProtectionError Z :=
  let? four := span bytes offset 4 in Ok (le_value four).

(** [bytes.windows(4).any(|value| value == w)] *)
Fixpoint has_window (w bytes : list Z) : bool :=
  match bytes with
  | [] => false
  | _ :: tail => bool_decide (take (length w) bytes = w) || has_window w tail
  end.

(** The last position whose end record has a comment that ends the file. *)
Definition is_end (bytes : list Z) (p : Z) : bool :=
  bool_decide (get_range p (p + 4) bytes = Some END_RECORD)
  && match number16 bytes (p + 20) with Ok len => p + 22 + len =? zlen bytes | Err _ => false end.
Fixpoint find_end (bytes : list Z) (n : nat) (p : Z) : option Z :=
  match n with
  | O => None
  | S n => if is_end bytes p then Some p else find_end bytes n (p - 1)
  end.

Fixpoint extra_loop (fuel : nat) (bytes : list Z) (position : Z) : result ProtectionError unit :=
  match fuel with
  | O => Err InvalidContainer
  | S fuel =>
      if zlen bytes <=? position then Ok tt
      else
        let? tag := number16 bytes position in
        let? len := number16 bytes (position + 2) in
        fail_if existsb (Z.eqb tag) [1; 39169; 28789] with UnsupportedContainer in
        let? next := ok_or (checked_add position (4 + len)) InvalidContainer in
        fail_if zlen bytes <? next with InvalidContainer in
        extra_loop fuel bytes next
  end.
(** Every round consumes at least four bytes. *)
Definition validate_extra (bytes : list Z) : result ProtectionError unit := extra_loop (S (length bytes)) bytes 0.

Record ExpectedEntry : Type := {
  x_name : list Z; x_flags : Z; x_method : Z; x_crc : Z; x_compressed : Z; x_inflated : Z
}.

(** The sizes after the data, when the local header need not have them. *)
Fixpoint local_values (bytes : list Z) (local : Z) (fields : list (Z * Z)) : result ProtectionError unit :=
  match fields with
  | [] => Ok tt
  | (offset, value) :: fields =>
      let? local_value := number32 bytes (local + offset) in
      fail_if negb (local_value =? 0) && negb (local_value =? value) with InvalidContainer in
      local_values bytes local fields
  end.

Definition validate_local (bytes : list Z) (local : Z) (expected : ExpectedEntry) (directory_start : Z) : result ProtectionError (Z * Z) :=
  let? signature := span bytes local 4 in
  fail_if negb (bool_decide (signature = LOCAL_HEADER)) || (directory_start <? local + 30) with InvalidContainer in
  let? name_len := number16 bytes (local + 26) in
  let? extra_len := number16 bytes (local + 28) in
  let? flags := number16 bytes (local + 6) in
  fail_if negb (flags =? x_flags expected) with InvalidContainer in
  let? method := number16 bytes (local + 8) in
  fail_if negb (method =? x_method expected) with InvalidContainer in
  let? name := span bytes (local + 30) name_len in
  fail_if negb (bool_decide (name = x_name expected)) with InvalidContainer in
  let? extra := span bytes (local + 30 + name_len) extra_len in
  let? _ := validate_extra extra in
  let? data := ok_or (checked_add local (30 + name_len + extra_len)) InvalidContainer in
  let? stop := ok_or (checked_add data (x_compressed expected)) InvalidContainer in
  let? stop :=
    (if Z.land (x_flags expected) 8 =? 0 then
       let? crc := number32 bytes (local + 14) in
       fail_if negb (crc =? x_crc expected) with InvalidContainer in
       let? compressed := number32 bytes (local + 18) in
       fail_if negb (compressed =? x_compressed expected) with InvalidContainer in
       let? inflated := number32 bytes (local + 22) in
       fail_if negb (inflated =? x_inflated expected) with InvalidContainer in
       Ok stop
     else
       let? _ := local_values bytes local [(14, x_crc expected); (18, x_compressed expected); (22, x_inflated expected)] in
       let? signature := span bytes stop 4 in
       let descriptor := if bool_decide (signature = DESCRIPTOR) then stop + 4 else stop in
       let? crc := number32 bytes descriptor in
       fail_if negb (crc =? x_crc expected) with InvalidContainer in
       let? compressed := number32 bytes (descriptor + 4) in
       fail_if negb (compressed =? x_compressed expected) with InvalidContainer in
       let? inflated := number32 bytes (descriptor + 8) in
       fail_if negb (inflated =? x_inflated expected) with InvalidContainer in
       ok_or (checked_add descriptor 12) InvalidContainer) in
  fail_if directory_start <? stop with InvalidContainer in
  Ok (local, stop).

(** [name.trim_end_matches('/')] *)
Fixpoint trim_slashes_from (l : list Z) : list Z :=
  match l with
  | 47 :: l => trim_slashes_from l
  | _ => l
  end.
Definition trim_slashes (name : list Z) : list Z := reverse (trim_slashes_from (reverse name)).

Section preflight.
Context (bytes requested : list Z) (limits : KeyLimits).

(** The fields of a central directory header, and what follows them. *)
Record Central : Type := {
  c_entry : ExpectedEntry; c_external : Z; c_local : Z; c_extra : list Z; c_next : Z
}.
Definition c_directory (c : Central) : bool := bool_decide (last (x_name (c_entry c)) = Some 47).

(** The part of the loop's body that reads and judges the header alone. *)
Definition central_header (stop position : Z) (names : list (list Z)) : result ProtectionError Central :=
  let? signature := span bytes position 4 in
  fail_if negb (bool_decide (signature = CENTRAL_HEADER)) || (stop <? position + 46) with InvalidContainer in
  let? flags := number16 bytes (position + 8) in
  let? method := number16 bytes (position + 10) in
  let? crc := number32 bytes (position + 16) in
  let? compressed := number32 bytes (position + 20) in
  let? inflated := number32 bytes (position + 24) in
  let? name_len := number16 bytes (position + 28) in
  let? extra_len := number16 bytes (position + 30) in
  let? comment_len := number16 bytes (position + 32) in
  let? external := number32 bytes (position + 38) in
  let? local := number32 bytes (position + 42) in
  fail_if negb (Z.ldiff flags (Z.lor 2048 8) =? 0) || negb (existsb (Z.eqb method) [0; 8]) with UnsupportedContainer in
  let? disk := number16 bytes (position + 34) in
  fail_if negb (disk =? 0) || (compressed =? U32_MAX) || (inflated =? U32_MAX) || (local =? U32_MAX) with UnsupportedContainer in
  let? name := span bytes (position + 46) name_len in
  fail_if negb (valid_utf8 name) with InvalidContainer in
  let directory := bool_decide (last name = Some 47) in
  let file_type := Z.land (Z.shiftr external 16) 61440 in
  fail_if negb (entry_name name directory) || bool_decide (trim_slashes name ∈ names)
       || negb (existsb (Z.eqb file_type) [0; 32768; 16384]) || ((file_type =? 16384) && negb directory)
       || (directory && negb (inflated =? 0)) with InvalidContainer in
  let? next := ok_or (checked_add position (46 + name_len + extra_len + comment_len)) InvalidContainer in
  fail_if stop <? next with InvalidContainer in
  let? extra := span bytes (position + 46 + name_len) extra_len in
  Ok {| c_entry := {| x_name := name; x_flags := flags; x_method := method; x_crc := crc; x_compressed := compressed; x_inflated := inflated |};
        c_external := external; c_local := local; c_extra := extra; c_next := next |}.

(** What the requested entry must satisfy besides. *)
Definition requested_entry (c : Central) : result ProtectionError unit :=
  let e := c_entry c in
  fail_if c_directory c with InvalidContainer in
  fail_if (max_key_bytes limits <? x_inflated e) || (saturating_mul (x_compressed e) (max_expansion_ratio limits) <? x_inflated e)
       || ((x_method e =? 0) && negb (x_inflated e =? x_compressed e)) with ResourceLimit in
  Ok tt.

Fixpoint entries_loop (count : nat) (index : nat) (stop directory_start position : Z) (names : list (list Z)) (ranges : list (Z * Z))
    (selected : option nat) : result ProtectionError (Z * list (Z * Z) * option nat) :=
  match count with
  | O => Ok (position, ranges, selected)
  | S count =>
      let? c := central_header stop position names in
      let? _ := validate_extra (c_extra c) in
      let is_requested := bool_decide (x_name (c_entry c) = requested) in
      let? _ := (if is_requested then requested_entry c else Ok tt) in
      let? region := validate_local bytes (c_local c) (c_entry c) directory_start in
      entries_loop count (S index) stop directory_start (c_next c) (names ++ [trim_slashes (x_name (c_entry c))]) (ranges ++ [region])
        (if is_requested then Some index else selected)
  end.

Definition preflight : result ProtectionError nat :=
  fail_if zlen bytes <? 22 with InvalidContainer in
  let start := Z.max 0 (zlen bytes - 65557) in
  let? stop := ok_or (find_end bytes (Z.to_nat (zlen bytes - 22 - start + 1)) (zlen bytes - 22)) InvalidContainer in
  fail_if has_window END_RECORD (drop (Z.to_nat (stop + 22)) bytes) with InvalidContainer in
  let? count := number16 bytes (stop + 10) in
  let? directory_size := number32 bytes (stop + 12) in
  let? directory_start := number32 bytes (stop + 16) in
  let? disk := number16 bytes (stop + 4) in
  fail_if negb (disk =? 0) with UnsupportedContainer in
  let? directory_disk := number16 bytes (stop + 6) in
  fail_if negb (directory_disk =? 0) with UnsupportedContainer in
  let? disk_count := number16 bytes (stop + 8) in
  fail_if negb (disk_count =? count) || (count =? 65535) || (directory_size =? U32_MAX) || (directory_start =? U32_MAX)
    with UnsupportedContainer in
  fail_if (max_entries limits <? count) || (max_directory_bytes limits <? directory_size) with ResourceLimit in
  fail_if negb (bool_decide (checked_add directory_start directory_size = Some stop)) with InvalidContainer in
  let? r := entries_loop (Z.to_nat count) 0 stop directory_start directory_start [] [] None in
  let '(position, ranges, selected) := r in
  fail_if negb (position =? stop) with InvalidContainer in
  fail_if windows2_any (fun a b => fst b <? snd a) (sort_by (fun r => r) ranges) with InvalidContainer in
  ok_or selected SourceUnavailable.
End preflight.

(** ** [ZipContainer::read_entry]

    What the library says of the file with an index; [zf_read n] is what
    reading at most [n] bytes of it to the end gives. *)
Record ZipFile : Type := {
  zf_name : list Z; zf_is_file : bool; zf_is_symlink : bool; zf_encrypted : bool;
  zf_compressed_size : Z; zf_size : Z; zf_read : Z -> option (list Z)
}.

Section container.
Context (zip_open : list Z -> option (nat -> option ZipFile)).

Definition starts_with_bytes (p l : list Z) : bool := bool_decide (take (length p) l = p).
Definition saturating_add (a b : Z) : Z := Z.min (a + b) U64_MAX.

Definition read_entry (container entry : list Z) (limits : KeyLimits) : result ProtectionError (list Z) :=
  let? _ := key_limits_validate limits in
  fail_if negb (entry_name entry false) with InvalidConfig in
  fail_if max_container_bytes limits <? zlen container with ResourceLimit in
  let? selected := preflight container entry limits in
  let? archive := ok_or (zip_open container) InvalidContainer in
  let? file := ok_or (archive selected) InvalidContainer in
  fail_if negb (bool_decide (zf_name file = entry)) || negb (zf_is_file file) || zf_is_symlink file || zf_encrypted file with InvalidContainer in
  let actual_limit := Z.min (max_key_bytes limits) (saturating_mul (zf_compressed_size file) (max_expansion_ratio limits)) in
  let? output := ok_or (zf_read file (saturating_add actual_limit 1)) InvalidContainer in
  fail_if actual_limit <? zlen output with ResourceLimit in
  fail_if negb (zlen output =? zf_size file) with InvalidContainer in
  fail_if starts_with_bytes LOCAL_HEADER output || starts_with_bytes END_RECORD output with UnsupportedContainer in
  key_material output (max_key_bytes limits).
End container.

(** * What the ZIP preflight guarantees

    An accepted container is read in one way only: its end record is the last
    one, its directory is tiled by headers with distinct safe names, the
    regions of its members are disjoint and lie before the directory, and the
    requested member is the one that was bounded. *)

(** [l] is what the bytes have at [p]. *)
Definition reads (bytes : list Z) (p : Z) (l : list Z) : Prop :=
  0 <= p /\ p + zlen l <= zlen bytes /\ slice (Z.to_nat p) (length l) bytes = l.

(** [v] is the little-endian number in the [n] bytes at [p]. *)
Definition field (n : nat) (bytes : list Z) (p v : Z) : Prop :=
  exists l, length l = n /\ reads bytes p l /\ le_value l = v.

(** Extra data is a sequence of blocks of a tag, a length and as many bytes,
    none of them ZIP64, AES or an alternate name. *)
Inductive plain_extra : list Z -> Prop :=
| extra_end : plain_extra []
| extra_block tag len data rest :
    length tag = 2%nat -> length len = 2%nat -> le_value len = zlen data -> le_value tag ∉ [1; 39169; 28789] ->
    plain_extra rest -> plain_extra (tag ++ len ++ data ++ rest).

(** The format: what a header of the central directory at [p] says. *)
Record central_at (bytes : list Z) (p : Z) (c : Central) : Prop := {
  ce_signature : reads bytes p CENTRAL_HEADER;
  ce_flags : field 2 bytes (p + 8) (x_flags (c_entry c));
  ce_method : field 2 bytes (p + 10) (x_method (c_entry c));
  ce_crc : field 4 bytes (p + 16) (x_crc (c_entry c));
  ce_compressed : field 4 bytes (p + 20) (x_compressed (c_entry c));
  ce_inflated : field 4 bytes (p + 24) (x_inflated (c_entry c));
  ce_name_length : field 2 bytes (p + 28) (zlen (x_name (c_entry c)));
  ce_extra_length : field 2 bytes (p + 30) (zlen (c_extra c));
  ce_comment : field 2 bytes (p + 32) (c_next c - (p + 46 + zlen (x_name (c_entry c)) + zlen (c_extra c)));
  ce_disk : field 2 bytes (p + 34) 0;
  ce_external : field 4 bytes (p + 38) (c_external c);
  ce_local : field 4 bytes (p + 42) (c_local c);
  ce_name : reads bytes (p + 46) (x_name (c_entry c));
  ce_extra : reads bytes (p + 46 + zlen (x_name (c_entry c))) (c_extra c)
}.

(** The local header, data and descriptor of a member: every field that the
    central directory has too is the same; one that a descriptor repeats may be
    zero in the header. *)
Record local_at (bytes : list Z) (e : ExpectedEntry) (r : Z * Z) : Prop := {
  lo_signature : reads bytes (fst r) LOCAL_HEADER;
  lo_flags : field 2 bytes (fst r + 6) (x_flags e);
  lo_method : field 2 bytes (fst r + 8) (x_method e);
  lo_name_length : field 2 bytes (fst r + 26) (zlen (x_name e));
  lo_name : reads bytes (fst r + 30) (x_name e);
  lo_data : exists extra,
    field 2 bytes (fst r + 28) (zlen extra) /\ reads bytes (fst r + 30 + zlen (x_name e)) extra /\ plain_extra extra
    /\ let stop := fst r + 30 + zlen (x_name e) + zlen extra + x_compressed e in
       if Z.land (x_flags e) 8 =? 0 then
         field 4 bytes (fst r + 14) (x_crc e) /\ field 4 bytes (fst r + 18) (x_compressed e)
         /\ field 4 bytes (fst r + 22) (x_inflated e) /\ snd r = stop
       else
         Forall (fun '(offset, value) => exists n, field 4 bytes (fst r + offset) n /\ (n = 0 \/ n = value))
           [(14, x_crc e); (18, x_compressed e); (22, x_inflated e)]
         /\ exists d, (reads bytes stop DESCRIPTOR /\ d = stop + 4 \/ ~ reads bytes stop DESCRIPTOR /\ d = stop)
            /\ field 4 bytes d (x_crc e) /\ field 4 bytes (d + 4) (x_compressed e) /\ field 4 bytes (d + 8) (x_inflated e)
            /\ snd r = d + 12
}.

Record Member : Type := { m_at : Z; m_header : Central; m_region : Z * Z }.
Definition m_name (m : Member) : list Z := x_name (c_entry (m_header m)).

(** A member is what the bytes say at its place in the directory and at the
    offset which is recorded there. *)
Definition member_at (bytes : list Z) (m : Member) : Prop :=
  central_at bytes (m_at m) (m_header m) /\ fst (m_region m) = c_local (m_header m)
  /\ local_at bytes (c_entry (m_header m)) (m_region m).

(** The headers follow each other from [start] to [stop]. *)
Fixpoint tiles (start : Z) (ms : list Member) (stop : Z) : Prop :=
  match ms with
  | [] => start = stop
  | m :: ms => m_at m = start /\ start + 46 + zlen (m_name m) <= c_next (m_header m) /\ tiles (c_next (m_header m)) ms stop
  end.

(** A comment that ends the file follows the end record at [p]. *)
Definition end_at (bytes : list Z) (p : Z) : Prop := reads bytes p END_RECORD /\ field 2 bytes (p + 20) (zlen bytes - (p + 22)).

(** A reading of a container: its last end record says where the directory is
    and how many headers it has; they say what the members are. *)
Record reading (bytes : list Z) (stop directory : Z) (ms : list Member) : Prop := {
  rd_end : end_at bytes stop;
  rd_last : forall p, stop < p -> ~ end_at bytes p;
  rd_disks : field 2 bytes (stop + 4) 0 /\ field 2 bytes (stop + 6) 0;
  rd_counts : field 2 bytes (stop + 8) (zlen ms) /\ field 2 bytes (stop + 10) (zlen ms);
  rd_size : field 4 bytes (stop + 12) (stop - directory);
  rd_start : field 4 bytes (stop + 16) directory;
  rd_tiles : tiles directory ms stop;
  rd_members : Forall (member_at bytes) ms
}.

(** What an accepted member satisfies besides. *)
Record member_ok (directory : Z) (m : Member) : Prop := {
  ok_flags : Z.ldiff (x_flags (c_entry (m_header m))) (Z.lor 2048 8) = 0;
  ok_method : x_method (c_entry (m_header m)) ∈ [0; 8];
  ok_sizes : x_compressed (c_entry (m_header m)) <> U32_MAX /\ x_inflated (c_entry (m_header m)) <> U32_MAX
             /\ c_local (m_header m) <> U32_MAX;
  ok_utf8 : valid_utf8 (m_name m) = true;
  ok_safe : entry_name (m_name m) (c_directory (m_header m)) = true;
  ok_type : let file_type := Z.land (Z.shiftr (c_external (m_header m)) 16) 61440 in
            file_type ∈ [0; 32768; 16384] /\ (file_type = 16384 -> c_directory (m_header m) = true);
  ok_empty : c_directory (m_header m) = true -> x_inflated (c_entry (m_header m)) = 0;
  ok_extra : plain_extra (c_extra (m_header m));
  ok_data : fst (m_region m) + 30 + zlen (m_name m) + x_compressed (c_entry (m_header m)) <= snd (m_region m) <= directory;
  ok_compressed : 0 <= x_compressed (c_entry (m_header m))
}.

Definition chosen (requested : list Z) (limits : KeyLimits) (m : Member) : Prop :=
  let e := c_entry (m_header m) in
  m_name m = requested /\ c_directory (m_header m) = false /\ x_inflated e <= max_key_bytes limits
  /\ x_inflated e <= x_compressed e * max_expansion_ratio limits /\ (x_method e = 0 -> x_inflated e = x_compressed e).

Definition disjoint (r s : Z * Z) : Prop := snd r <= fst s \/ snd s <= fst r.

(** ** Reading *)
Lemma span_reads bytes p n l : 0 <= p -> 0 <= n -> span bytes p n = Ok l -> reads bytes p l /\ zlen l = n.
Proof.
  intros Hp Hn Hs. unfold span in Hs. apply rbind_ok in Hs as (stop & Ha & Hs).
  apply ok_or_ok, checked_add_Some in Ha as [-> _]. apply ok_or_ok in Hs. unfold get_range in Hs.
  destruct (_ && _) eqn:E; [| done]. apply andb_true_iff in E as [E1%Z.leb_le E2%Z.leb_le]. injection Hs as <-.
  replace (p + n - p) with n by lia. assert (length (slice (Z.to_nat p) (Z.to_nat n) bytes) = Z.to_nat n) as Hl by (apply length_slice; lia).
  split; [| lia]. split; [done |]. split; [lia | by rewrite Hl].
Qed.

Lemma le_value_bytes l : Forall is_byte l -> 0 <= le_value l.
Proof. intros Hl. unfold le_value. apply be_value_range. by apply Forall_reverse. Qed.

Lemma span_bytes bytes p n l : Forall is_byte bytes -> span bytes p n = Ok l -> Forall is_byte l.
Proof.
  intros Hb Hs. unfold span in Hs. apply rbind_ok in Hs as (stop & _ & Hs). apply ok_or_ok in Hs. unfold get_range in Hs.
  destruct (_ && _); [| done]. injection Hs as <-. unfold slice. by apply Forall_take, Forall_drop.
Qed.
Lemma number16_nonneg bytes p n : Forall is_byte bytes -> number16 bytes p = Ok n -> 0 <= n.
Proof. intros Hb Hn. apply rbind_ok in Hn as (l & Hl & [= <-]). by eapply le_value_bytes, span_bytes. Qed.
Lemma number32_nonneg bytes p n : Forall is_byte bytes -> number32 bytes p = Ok n -> 0 <= n.
Proof. intros Hb Hn. apply rbind_ok in Hn as (l & Hl & [= <-]). by eapply le_value_bytes, span_bytes. Qed.

Lemma number16_field bytes p v : 0 <= p -> number16 bytes p = Ok v -> field 2 bytes p v.
Proof. intros Hp Hv. apply rbind_ok in Hv as (l & Hl & [= <-]). apply span_reads in Hl as [Hl Hn]; [| lia..]. exists l. split; [lia | done]. Qed.
Lemma number32_field bytes p v : 0 <= p -> number32 bytes p = Ok v -> field 4 bytes p v.
Proof. intros Hp Hv. apply rbind_ok in Hv as (l & Hl & [= <-]). apply span_reads in Hl as [Hl Hn]; [| lia..]. exists l. split; [lia | done]. Qed.

Lemma reads_fun bytes p l k : reads bytes p l -> reads bytes p k -> length l = length k -> l = k.
Proof. intros (_ & _ & Hl) (_ & _ & Hk) He. rewrite He in Hl. congruence. Qed.
Lemma field_fun n bytes p v w : field n bytes p v -> field n bytes p w -> v = w.
Proof. intros (l & Hl & Hr & <-) (k & Hk & Hs & <-). f_equal. apply (reads_fun bytes p); congruence. Qed.

(** What [validate_extra] accepts is plain. *)
Lemma extra_loop_plain fuel bytes position : 0 <= position -> position <= zlen bytes -> Forall is_byte bytes ->
  extra_loop fuel bytes position = Ok tt -> plain_extra (drop (Z.to_nat position) bytes).
Proof.
  revert position. induction fuel as [| fuel IH]; intros position Hp Hle Hb He; cbn [extra_loop] in He; [done |].
  destruct (Z.leb_spec (zlen bytes) position) as [Hz | Hz]; [rewrite drop_ge by lia; constructor |].
  apply rbind_ok in He as (tag & Ht%number16_field & He); [| done]. apply rbind_ok in He as (len & Hl & He).
  pose proof (number16_nonneg _ _ _ Hb Hl) as Hn. apply number16_field in Hl; [| lia].
  apply fail_if_ok in He as [Htag He]. apply rbind_ok in He as (next & Hx & He). apply ok_or_ok, checked_add_Some in Hx as [-> _].
  apply fail_if_ok in He as [Hend%Z.ltb_ge He]. apply IH in He; [| lia..| done].
  destruct Ht as (two & T1 & (_ & _ & T2) & <-), Hl as (two' & L1 & (_ & _ & L2) & <-). rewrite T1 in T2. rewrite L1 in L2. unfold slice in T2, L2.
  replace (Z.to_nat (position + 2)) with (Z.to_nat position + 2)%nat in L2 by lia.
  set (n := le_value two') in *. replace (Z.to_nat (position + (4 + n))) with (Z.to_nat position + 2 + 2 + Z.to_nat n)%nat in He by lia.
  set (rest := drop (Z.to_nat position) bytes) in *.
  assert (Hcut : rest = two ++ two' ++ take (Z.to_nat n) (drop 2 (drop 2 rest)) ++ drop (Z.to_nat position + 2 + 2 + Z.to_nat n) bytes).
  { rewrite <- !drop_drop. fold rest. rewrite take_drop. rewrite <- (take_drop 2 rest) at 1. rewrite T2. f_equal.
    rewrite <- (take_drop 2 (drop 2 rest)) at 1. f_equal. unfold rest. by rewrite drop_drop. }
  rewrite Hcut. apply extra_block; [done | done | | | exact He].
  - fold n. rewrite length_take, !length_drop. unfold rest. rewrite length_drop. lia.
  - intros Hin. apply not_true_iff_false in Htag. apply Htag. apply existsb_exists. exists (le_value two).
    apply list_elem_of_In in Hin. split; [done | apply Z.eqb_refl].
Qed.
Lemma validate_extra_plain bytes : Forall is_byte bytes -> validate_extra bytes = Ok tt -> plain_extra bytes.
Proof. intros Hb He. apply extra_loop_plain in He; [by rewrite drop_0 in He | lia | lia | done]. Qed.

Lemma local_values_fields bytes local fields : 0 <= local -> Forall (fun '(offset, _) => 0 <= offset) fields ->
  local_values bytes local fields = Ok tt ->
  Forall (fun '(offset, value) => exists n, field 4 bytes (local + offset) n /\ (n = 0 \/ n = value)) fields.
Proof.
  intros Hl Hf. induction Hf as [| [offset value] fields Ho Hf IH]; intros Hv; [constructor |]. cbn [local_values] in Hv.
  apply rbind_ok in Hv as (n & Hn%number32_field & Hv); [| lia]. apply fail_if_ok in Hv as [E Hv]. constructor; [| by apply IH].
  exists n. split; [done |]. apply andb_false_iff in E as [E%negb_false_iff%Z.eqb_eq | E%negb_false_iff%Z.eqb_eq]; [by left | by right].
Qed.

Lemma span_not_reads bytes p l k : 0 <= p -> span bytes p (zlen k) = Ok l -> l <> k -> ~ reads bytes p k.
Proof. intros Hp Hs Hne Hr. apply span_reads in Hs as [Hs Hn]; [| lia..]. apply Hne, (reads_fun bytes p); [done | done | lia]. Qed.

(** Reading a number that must be the expected one. *)
Ltac same_number H F := apply rbind_ok in H as (? & F & H); apply fail_if_ok in H as [?E%negb_false_iff%Z.eqb_eq H]; subst;
  first [apply number16_field in F | apply number32_field in F]; [| lia].

Lemma local_region bytes local e directory r :
  Forall is_byte bytes -> 0 <= local -> 0 <= x_compressed e -> validate_local bytes local e directory = Ok r ->
  fst r = local /\ local_at bytes e r /\ local + 30 + zlen (x_name e) + x_compressed e <= snd r <= directory.
Proof.
  intros Hb Hl Hc Hv. unfold validate_local in Hv. apply rbind_ok in Hv as (sig & Hsig & Hv). apply fail_if_ok in Hv as [E Hv].
  apply orb_false_iff in E as [E%negb_false_iff%bool_decide_eq_true _]. subst sig. apply span_reads in Hsig as [Hsig _]; [| lia..].
  apply rbind_ok in Hv as (name_len & Hnl & Hv). apply rbind_ok in Hv as (extra_len & Hel & Hv).
  pose proof (number16_nonneg _ _ _ Hb Hnl) as Zn. pose proof (number16_nonneg _ _ _ Hb Hel) as Ze.
  apply number16_field in Hnl; [| lia]. apply number16_field in Hel; [| lia].
  same_number Hv Hflags. same_number Hv Hmethod.
  apply rbind_ok in Hv as (name & Hn & Hv). apply fail_if_ok in Hv as [E%negb_false_iff%bool_decide_eq_true Hv]. subst name.
  apply span_reads in Hn as [Hn Hlen]; [| lia..]. apply rbind_ok in Hv as (extra & Hx & Hv). pose proof (span_bytes _ _ _ _ Hb Hx) as Hxb.
  apply span_reads in Hx as [Hx Hxlen]; [| lia..]. apply rbind_ok in Hv as ([] & Hplain%validate_extra_plain & Hv); [| done].
  apply rbind_ok in Hv as (data & Hd & Hv). apply ok_or_ok, checked_add_Some in Hd as [-> _].
  apply rbind_ok in Hv as (stop & Hs & Hv). apply ok_or_ok, checked_add_Some in Hs as [-> _].
  apply rbind_ok in Hv as (stop & Hs & Hv). apply fail_if_ok in Hv as [E%Z.ltb_ge [= <-]]. subst name_len extra_len.
  replace (local + (30 + zlen (x_name e) + zlen extra) + x_compressed e) with (local + 30 + zlen (x_name e) + zlen extra + x_compressed e) in Hs by lia.
  split; [done |]. assert (Hrest : local_at bytes e (local, stop) /\ local + 30 + zlen (x_name e) + x_compressed e <= stop); [| cbn [fst snd]; intuition lia].
  destruct (Z.land (x_flags e) 8 =? 0) eqn:E8.
  - same_number Hs Hcrc. same_number Hs Hcom. same_number Hs Hinf. injection Hs as <-. split; [| lia].
    constructor; cbn [fst snd]; try done. exists extra. rewrite E8. by split_and!.
  - apply rbind_ok in Hs as ([] & Hvalues & Hs). apply local_values_fields in Hvalues; [| done | repeat constructor; lia].
    apply rbind_ok in Hs as (sig & Hsg & Hs). set (end_ := local + 30 + zlen (x_name e) + zlen extra + x_compressed e) in *.
    set (d := if bool_decide (sig = DESCRIPTOR) then end_ + 4 else end_) in *. assert (Hd0 : end_ <= d) by (unfold d; destruct (bool_decide _); lia).
    same_number Hs Hcrc. same_number Hs Hcom. same_number Hs Hinf. apply ok_or_ok, checked_add_Some in Hs as [-> _]. split; [| lia].
    constructor; cbn [fst snd]; try done. exists extra. rewrite E8. split; [done |]. split; [done |]. split; [done |]. split; [done |].
    exists d. split; [| by split_and!]. unfold d. case_bool_decide as Hsd; [left | right]; (split; [| done]).
    + subst sig. by apply span_reads in Hsg as [Hsg _]; [| lia..].
    + apply (span_not_reads _ _ sig); [lia | exact Hsg | done].
Qed.

Lemma central_fields bytes stop position names c :
  Forall is_byte bytes -> 0 <= position -> central_header bytes stop position names = Ok c ->
  validate_extra (c_extra c) = Ok tt ->
  central_at bytes position c /\ trim_slashes (x_name (c_entry c)) ∉ names
  /\ 0 <= c_local c /\ 0 <= x_compressed (c_entry c) /\ position + 46 + zlen (x_name (c_entry c)) <= c_next c
  /\ forall directory region, fst region + 30 + zlen (x_name (c_entry c)) + x_compressed (c_entry c) <= snd region <= directory ->
     member_ok directory {| m_at := position; m_header := c; m_region := region |}.
Proof.
  intros Hb Hp Hc Hex. unfold central_header in Hc. apply rbind_ok in Hc as (sig & Hsig & Hc). apply fail_if_ok in Hc as [E Hc].
  apply orb_false_iff in E as [E%negb_false_iff%bool_decide_eq_true _]. subst sig. apply span_reads in Hsig as [Hsig _]; [| lia..].
  apply rbind_ok in Hc as (flags & Hflags%number16_field & Hc); [| lia]. apply rbind_ok in Hc as (method & Hmethod%number16_field & Hc); [| lia].
  apply rbind_ok in Hc as (crc & Hcrc%number32_field & Hc); [| lia].
  apply rbind_ok in Hc as (compressed & Hcomp & Hc). pose proof (number32_nonneg _ _ _ Hb Hcomp). apply number32_field in Hcomp; [| lia].
  apply rbind_ok in Hc as (inflated & Hinf%number32_field & Hc); [| lia].
  apply rbind_ok in Hc as (name_len & Hnl & Hc). pose proof (number16_nonneg _ _ _ Hb Hnl). apply number16_field in Hnl; [| lia].
  apply rbind_ok in Hc as (extra_len & Hel & Hc). pose proof (number16_nonneg _ _ _ Hb Hel). apply number16_field in Hel; [| lia].
  apply rbind_ok in Hc as (comment_len & Hcl & Hc). pose proof (number16_nonneg _ _ _ Hb Hcl). apply number16_field in Hcl; [| lia].
  apply rbind_ok in Hc as (external & Hext%number32_field & Hc); [| lia].
  apply rbind_ok in Hc as (local & Hlo & Hc). pose proof (number32_nonneg _ _ _ Hb Hlo). apply number32_field in Hlo; [| lia].
  apply fail_if_ok in Hc as [E Hc]. apply orb_false_iff in E as [Ef%negb_false_iff%Z.eqb_eq Em%negb_false_iff].
  apply rbind_ok in Hc as (disk & Hdisk%number16_field & Hc); [| lia]. apply fail_if_ok in Hc as [E Hc].
  apply orb_false_iff in E as [[[Ed%negb_false_iff%Z.eqb_eq Ec%Z.eqb_neq]%orb_false_iff Ei%Z.eqb_neq]%orb_false_iff El%Z.eqb_neq]. subst disk.
  apply rbind_ok in Hc as (name & Hn & Hc). apply span_reads in Hn as [Hn <-]; [| lia..]. apply fail_if_ok in Hc as [Hu%negb_false_iff Hc].
  cbv zeta in Hc. apply fail_if_ok in Hc as [E Hc].
  apply orb_false_iff in E as [[[[E1%negb_false_iff E2%bool_decide_eq_false]%orb_false_iff E3%negb_false_iff]%orb_false_iff E4]%orb_false_iff E5].
  apply rbind_ok in Hc as (next & Hx & Hc). apply ok_or_ok, checked_add_Some in Hx as [-> _]. apply fail_if_ok in Hc as [_ Hc].
  apply rbind_ok in Hc as (extra & Hxtra & [= <-]). pose proof (span_bytes _ _ _ _ Hb Hxtra) as Hxb. apply span_reads in Hxtra as [Hxtra <-]; [| lia..].
  cbn [c_extra] in Hex. apply validate_extra_plain in Hex; [| done]. apply existsb_exists in Em as (mm & Hmm & ->%Z.eqb_eq). apply existsb_exists in E3 as (ft & Hft & E3%Z.eqb_eq).
  split; [| split; [done |]; split; [done |]; split; [done |]; split; [cbn; lia |]].
  - constructor; cbn [c_entry x_name x_flags x_method x_crc x_compressed x_inflated c_extra c_external c_local c_next]; try done.
    by replace (_ - _) with comment_len by lia.
  - intros directory region Hregion. constructor; unfold m_name, c_directory; cbn [m_header m_region c_entry x_name x_flags x_method x_crc x_compressed x_inflated c_extra c_external c_local]; try done.
    + by apply list_elem_of_In.
    + rewrite E3. split; [by apply list_elem_of_In |]. intros ->. rewrite E3 in E4. cbn [Z.eqb] in E4. by apply negb_false_iff.
    + intros Hd. rewrite Hd in E5. cbn [andb] in E5. by apply negb_false_iff, Z.eqb_eq in E5.
Qed.

(** ** The loop *)
Section loop.
Context (bytes requested : list Z) (limits : KeyLimits) (Hb : Forall is_byte bytes).

Lemma requested_chosen c : requested_entry limits c = Ok tt -> 0 <= x_compressed (c_entry c) ->
  forall at_ r, x_name (c_entry c) = requested -> chosen requested limits {| m_at := at_; m_header := c; m_region := r |}.
Proof.
  intros Hr Hc at_ r Hn. unfold requested_entry in Hr. apply fail_if_ok in Hr as [Hd Hr]. apply fail_if_ok in Hr as [E _].
  apply orb_false_iff in E as [[E1%Z.ltb_ge E2%Z.ltb_ge]%orb_false_iff E3]. unfold saturating_mul in E2.
  split; [done |]. split; [done |]. split; [done |]. split; [cbn; lia |]. cbn. intros Hm. rewrite Hm in E3. by apply negb_false_iff, Z.eqb_eq in E3.
Qed.

Lemma loop_sound count index stop directory position names ranges selected r :
  0 <= position -> NoDup names -> entries_loop bytes requested limits count index stop directory position names ranges selected = Ok r ->
  exists ms, length ms = count /\ tiles position ms (fst (fst r)) /\ Forall (member_at bytes) ms /\ Forall (member_ok directory) ms
    /\ snd (fst r) = ranges ++ (m_region <$> ms) /\ NoDup (names ++ (trim_slashes ∘ m_name <$> ms))
    /\ (snd r = selected \/ exists j m, snd r = Some (index + j)%nat /\ ms !! j = Some m /\ chosen requested limits m).
Proof.
  revert index position names ranges selected. induction count as [| count IH]; intros index position names ranges selected Hp Hnd Hr; cbn [entries_loop] in Hr.
  { injection Hr as <-. exists []. cbn. rewrite !app_nil_r. repeat split; try done; by left. }
  apply rbind_ok in Hr as (c & Hc & Hr). apply rbind_ok in Hr as ([] & Hex & Hr).
  destruct (central_fields bytes stop position names c Hb Hp Hc Hex) as (C1 & C2 & C3 & C4 & C5 & C6).
  apply rbind_ok in Hr as ([] & Hreq & Hr). apply rbind_ok in Hr as (region & Hl & Hr).
  destruct (local_region _ _ _ _ _ Hb C3 C4 Hl) as (L1 & L2 & L3).
  set (m := {| m_at := position; m_header := c; m_region := region |}).
  assert (Hat : member_at bytes m) by done. assert (Hm : member_ok directory m) by (apply C6; by rewrite L1).
  apply IH in Hr as (ms & E1 & E2 & E2' & E3 & E4 & E5 & E6); [| lia |].
  2: { apply NoDup_app. split; [done |]. split; [by intros x Hx ->%list_elem_of_singleton | apply NoDup_singleton]. }
  exists (m :: ms). split; [cbn; by rewrite E1 |]. split; [by repeat split |]. split; [by constructor |]. split; [by constructor |].
  split; [rewrite E4; cbn; by rewrite <- app_assoc |]. split; [cbn; by rewrite <- app_assoc in E5 |].
  destruct E6 as [E6 | (j & m' & E6 & E7 & E8)].
  - destruct (bool_decide _) eqn:En; [| by left]. apply bool_decide_eq_true in En. right. exists 0%nat, m. rewrite Nat.add_0_r.
    split; [done |]. split; [done |]. by apply requested_chosen.
  - right. exists (S j), m'. rewrite Nat.add_succ_r. by rewrite Nat.add_succ_l in E6.
Qed.
End loop.

(** ** Regions *)
Lemma sorted_disjoint (l : list (Z * Z)) :
  Forall (fun r => fst r < snd r) l -> windows2_any (fun a b => fst b <? snd a) (sort_by (fun r => r) l) = false ->
  forall i j r s, i <> j -> l !! i = Some r -> l !! j = Some s -> disjoint r s.
Proof.
  intros Hl Hw. set (k := sort_by (fun r => r) l) in *. assert (Hperm : k ≡ₚ l) by apply sort_by_perm.
  assert (Hk : Forall (fun r => fst r < snd r) k) by by rewrite Hperm.
  assert (Hord : forall d i r s, k !! i = Some r -> k !! (S (i + d)) = Some s -> snd r <= fst s).
  { induction d as [| d IH]; intros i r s Hr Hs.
    - rewrite Nat.add_0_r in Hs. pose proof (proj1 (windows2_any_false _ k) Hw i r s Hr Hs) as Hlt. by apply Z.ltb_ge in Hlt.
    - assert (is_Some (k !! S (i + d))) as [t Ht]. { apply lookup_lt_is_Some. apply lookup_lt_Some in Hs. lia. }
      pose proof (IH i r t Hr Ht) as H1. pose proof (proj1 (windows2_any_false _ k) Hw (S (i + d)) t s Ht ltac:(by rewrite Nat.add_succ_r in Hs)) as H2%Z.ltb_ge.
      pose proof (Forall_lookup_1 _ _ _ _ Hk Ht) as H3. cbn in H3. lia. }
  symmetry in Hperm. apply Permutation_inj in Hperm as (Hlen & f & Hf & Hperm). intros i j r s Hij Hr Hs.
  rewrite Hperm in Hr, Hs. assert (f i <> f j) as Hne by (intros He; by apply Hf in He).
  destruct (Nat.lt_total (f i) (f j)) as [Hlt | [? | Hlt]]; [| done |].
  - left. apply (Hord (f j - S (f i))%nat (f i)); [done |]. by replace (S (f i + (f j - S (f i)))) with (f j) by lia.
  - right. apply (Hord (f i - S (f j))%nat (f j)); [done |]. by replace (S (f j + (f i - S (f j)))) with (f i) by lia.
Qed.

(** ** The end record *)
Lemma find_end_spec bytes n p stop : find_end bytes n p = Some stop ->
  is_end bytes stop = true /\ p - Z.of_nat n < stop <= p /\ forall q, stop < q <= p -> is_end bytes q = false.
Proof.
  revert p. induction n as [| n IH]; intros p; cbn [find_end]; [done |]. destruct (is_end bytes p) eqn:E.
  - intros [= <-]. split; [done |]. split; [lia |]. intros q Hq. lia.
  - intros Hf. apply IH in Hf as (Hf & Hr & Hq). split; [done |]. split; [lia |]. intros q Hq'.
    destruct (Z.eq_dec q p) as [-> | Hne]; [done | apply Hq; lia].
Qed.

Lemma reads_span bytes p l : zlen bytes <= U64_MAX -> reads bytes p l -> span bytes p (zlen l) = Ok l.
Proof.
  intros Hz (Hp & Hl & Hs). unfold span. assert (checked_add p (zlen l) = Some (p + zlen l)) as -> by (apply checked_add_Some; lia).
  cbn [ok_or rbind]. unfold get_range. rewrite !(proj2 (Z.leb_le _ _)) by lia. cbn [andb ok_or].
  replace (Z.to_nat (p + zlen l - p)) with (length l) by lia. by rewrite Hs.
Qed.

Lemma is_end_spec bytes p : zlen bytes <= U64_MAX -> 0 <= p -> is_end bytes p = true <-> end_at bytes p.
Proof.
  intros Hz Hp. unfold is_end. rewrite andb_true_iff, bool_decide_eq_true. split.
  - intros [E1 E2]. destruct (number16 bytes (p + 20)) as [v |] eqn:En; [| done]. apply Z.eqb_eq in E2. apply number16_field in En; [| lia].
    split; [| by replace (zlen bytes - (p + 22)) with v by lia]. unfold get_range in E1. destruct (_ && _) eqn:E; [| done].
    apply andb_true_iff in E as [_ E%Z.leb_le]. injection E1 as E1. split; [done |]. split; [done |].
    by replace (Z.to_nat (p + 4 - p)) with 4%nat in E1 by lia.
  - intros [Hr (two & H2 & Hl & Hv)]. pose proof (reads_span _ _ _ Hz Hl) as Hs. replace (zlen two) with 2 in Hs by lia.
    unfold number16. rewrite Hs. cbn [rbind]. split; [| rewrite Hv; apply Z.eqb_eq; lia].
    destruct Hr as (_ & Hr & Hr'). change (zlen END_RECORD) with 4 in Hr. unfold get_range. rewrite !(proj2 (Z.leb_le _ _)) by lia. cbn [andb].
    replace (Z.to_nat (p + 4 - p)) with 4%nat by lia. f_equal. exact Hr'.
Qed.

(** ** There is one reading *)
Lemma local_at_fun bytes e r r' : local_at bytes e r -> local_at bytes e r' -> fst r = fst r' -> r = r'.
Proof.
  intros [_ _ _ _ _ (x & Lx & Rx & _ & Hx)] [_ _ _ _ _ (y & Ly & Ry & _ & Hy)] Hf. destruct r as [local stop], r' as [? stop'].
  cbn [fst snd] in *. subst. f_equal. pose proof (field_fun _ _ _ _ _ Lx Ly) as Hlen. rewrite Hlen in Hx. cbv zeta in Hx, Hy.
  destruct (Z.land (x_flags e) 8 =? 0); [by destruct Hx as (_ & _ & _ & ->), Hy as (_ & _ & _ & ->) |].
  destruct Hx as (_ & d & Hd & _ & _ & _ & ->), Hy as (_ & d' & Hd' & _ & _ & _ & ->). f_equal. naive_solver.
Qed.

Lemma central_at_fun bytes p c c' : central_at bytes p c -> central_at bytes p c' -> c = c'.
Proof.
  intros [_ F1 F2 F3 F4 F5 F6 F7 F8 _ F9 F10 F11 F12] [_ G1 G2 G3 G4 G5 G6 G7 G8 _ G9 G10 G11 G12].
  pose proof (field_fun _ _ _ _ _ F6 G6) as En. pose proof (reads_fun _ _ _ _ F11 G11 ltac:(lia)) as Ename.
  rewrite Ename in F8, F12. pose proof (field_fun _ _ _ _ _ F7 G7) as Ex. pose proof (reads_fun _ _ _ _ F12 G12 ltac:(lia)) as Eextra.
  rewrite Eextra in F8. pose proof (field_fun _ _ _ _ _ F8 G8) as Enext.
  destruct c as [[] ? ? ? ?], c' as [[] ? ? ? ?]. cbn [c_entry x_name x_flags x_method x_crc x_compressed x_inflated c_extra c_external c_local c_next] in *.
  f_equal; [f_equal | ..]; try done; try (eapply field_fun; eassumption). lia.
Qed.

Lemma tiles_fun bytes ms ms' start stop stop' : length ms = length ms' -> tiles start ms stop -> tiles start ms' stop' ->
  Forall (member_at bytes) ms -> Forall (member_at bytes) ms' -> ms = ms'.
Proof.
  revert ms' start. induction ms as [| m ms IH]; intros [| m' ms'] start Hl Ht Ht' Hm Hm'; try done. cbn [tiles] in Ht, Ht'.
  destruct Ht as (A & _ & Ht), Ht' as (A' & _ & Ht'). apply Forall_cons in Hm as [(C & L & R) Hm]. apply Forall_cons in Hm' as [(C' & L' & R') Hm'].
  rewrite A in C. rewrite A' in C'. pose proof (central_at_fun _ _ _ _ C C') as Hc. rewrite <- Hc in *.
  pose proof (local_at_fun _ _ _ _ R R' ltac:(congruence)) as Hr.
  f_equal; [destruct m, m'; cbn [m_at m_header m_region] in *; congruence |]. by apply (IH ms' (c_next (m_header m))); [injection Hl | ..].
Qed.

Lemma reading_unique bytes stop directory ms stop' directory' ms' :
  reading bytes stop directory ms -> reading bytes stop' directory' ms' -> stop' = stop /\ directory' = directory /\ ms' = ms.
Proof.
  intros [E L _ [_ C] _ S T M] [E' L' _ [_ C'] _ S' T' M'].
  assert (stop' = stop) as ->.
  { destruct (Z.lt_total stop stop') as [Hlt | [He | Hgt]]; [by destruct (L stop') | done | by destruct (L' stop)]. }
  assert (directory' = directory) as -> by by eapply field_fun. split; [done |]. split; [done |].
  apply (tiles_fun bytes _ _ directory stop stop); try done. pose proof (field_fun _ _ _ _ _ C C'). lia.
Qed.

Lemma has_window_spec w bytes : w <> [] -> has_window w bytes = false -> forall p, slice p (length w) bytes <> w.
Proof.
  intros Hw Hb p. revert p. induction bytes as [| b bytes IH]; intros p; cbn [has_window] in Hb.
  - unfold slice. rewrite drop_nil, take_nil. by intros <-.
  - apply orb_false_iff in Hb as [E%bool_decide_eq_false Hb]. destruct p as [| p]; [exact E | by apply IH].
Qed.

(** The one reading of an accepted container; [i] is the index of the member
    that was asked for. *)
Definition unambiguous (bytes requested : list Z) (limits : KeyLimits) (i : nat) : Prop :=
  exists stop directory ms,
    reading bytes stop directory ms
    /\ (forall stop' directory' ms', reading bytes stop' directory' ms' -> stop' = stop /\ directory' = directory /\ ms' = ms)
    /\ (forall p, stop + 22 <= p -> ~ reads bytes p END_RECORD)
    /\ 0 <= directory <= stop /\ stop - directory <= max_directory_bytes limits /\ zlen ms <= max_entries limits
    /\ Forall (member_ok directory) ms /\ NoDup (trim_slashes ∘ m_name <$> ms)
    /\ (forall j k m n, j <> k -> ms !! j = Some m -> ms !! k = Some n -> disjoint (m_region m) (m_region n))
    /\ exists m, ms !! i = Some m /\ chosen requested limits m.

Lemma preflight_members bytes requested limits i :
  Forall is_byte bytes -> zlen bytes <= U64_MAX -> preflight bytes requested limits = Ok i -> unambiguous bytes requested limits i.
Proof.
  intros Hb Hmax Hp. unfold preflight in Hp. apply fail_if_ok in Hp as [Hz%Z.ltb_ge Hp]. cbv zeta in Hp.
  apply rbind_ok in Hp as (stop & Hstop & Hp). apply ok_or_ok, find_end_spec in Hstop as (Hend & Hrange & Hlast).
  assert (Hs0 : 0 <= stop) by lia. clear Hrange. apply is_end_spec in Hend; [| done | done].
  apply fail_if_ok in Hp as [Hw Hp]. apply rbind_ok in Hp as (count & Hcount & Hp). pose proof (number16_nonneg _ _ _ Hb Hcount) as Zc.
  apply rbind_ok in Hp as (size & Hsize & Hp). pose proof (number32_nonneg _ _ _ Hb Hsize) as Zs.
  apply rbind_ok in Hp as (directory & Hdir & Hp). pose proof (number32_nonneg _ _ _ Hb Hdir) as Zd.
  apply number16_field in Hcount; [| lia]. apply number32_field in Hsize; [| lia]. apply number32_field in Hdir; [| lia].
  same_number Hp Hdisk1. same_number Hp Hdisk2.
  apply rbind_ok in Hp as (disk_count & Hdisks%number16_field & Hp); [| lia]. apply fail_if_ok in Hp as [E Hp].
  apply orb_false_iff in E as [[[->%negb_false_iff%Z.eqb_eq _]%orb_false_iff _]%orb_false_iff _].
  apply fail_if_ok in Hp as [[E1%Z.ltb_ge E2%Z.ltb_ge]%orb_false_iff Hp]. apply fail_if_ok in Hp as [E3%negb_false_iff%bool_decide_eq_true Hp].
  apply checked_add_Some in E3 as [E3 _]. apply rbind_ok in Hp as ([[position ranges] selected] & Hl & Hp).
  apply loop_sound in Hl as (ms & L1 & L2 & L2' & L3 & L4 & L5 & L6); [| done | done | constructor]. cbn [fst snd app] in L2, L4, L5, L6.
  apply fail_if_ok in Hp as [E4%negb_false_iff%Z.eqb_eq Hp]. subst position. apply fail_if_ok in Hp as [Hdis Hp]. apply ok_or_ok in Hp.
  assert (Hread : reading bytes stop directory ms).
  { constructor; try done.
    - intros p Hlt Hat. assert (Hp22 : p <= zlen bytes - 22) by (destruct Hat as [_ (two & H2 & (_ & Hle & _) & _)]; lia).
      apply is_end_spec in Hat; [| done | lia]. by rewrite Hlast in Hat by lia.
    - rewrite L1, Z2Nat.id by done. done.
    - by replace (stop - directory) with size by lia. }
  exists stop, directory, ms. split; [done |]. split; [intros ???; by apply reading_unique |]. split.
  { intros p Hge (_ & _ & Hr). apply (has_window_spec END_RECORD _ ltac:(done) Hw (Z.to_nat (p - (stop + 22)))).
    rewrite <- Hr at 2. unfold slice. rewrite drop_drop. by replace (Z.to_nat (stop + 22) + Z.to_nat (p - (stop + 22)))%nat with (Z.to_nat p) by lia. }
  split; [lia |]. split; [lia |]. split; [lia |]. split; [done |]. split; [done |]. split.
  { intros j k m n Hjk Hm Hn. subst ranges.
    apply (sorted_disjoint (m_region <$> ms)) with (i := j) (j := k); [| done | done | by rewrite list_lookup_fmap, Hm | by rewrite list_lookup_fmap, Hn].
    apply Forall_fmap. eapply Forall_impl; [exact L3 |]. intros mem [_ _ _ _ _ _ _ _ Hd Hcomp]. cbn. lia. }
  destruct L6 as [L6 | (j & m & L6 & L7 & L8)]; [by rewrite L6 in Hp |]. rewrite L6 in Hp. injection Hp as <-. by exists m.
Qed.

Lemma key_limits_bound limits : key_limits_validate limits = Ok tt -> max_container_bytes limits <= 16 * 1024 * 1024.
Proof.
  intros Hl. apply fail_if_ok in Hl as [[E _]%orb_false_iff _]. cbn [existsb] in E.
  by apply orb_false_iff in E as [_ [[_ E%Z.ltb_ge]%orb_false_iff _]%orb_false_iff].
Qed.

(** C24: key material from a ZIP container is what it seems: a container that yields an entry has exactly one reading.
    Its last end record, whose comment ends the file and hides no second record, fixes the directory and its count; each
    header's flags, method, CRC, sizes, name, extra data and offset are what the bytes have at the header's place, and
    the local header and the descriptor of a member say the same (a header that is followed by a descriptor may leave
    CRC and sizes zero). All members are plain files or directories without unsupported flags or methods and with
    distinct safe UTF-8 names, their regions are pairwise disjoint and end before the directory, and all sizes and counts
    are within the limits; the material is the member of that name in that reading, not empty, within the key limit and
    the expansion ratio, of the recorded size, and not itself a ZIP. *)
Theorem read_entry_unambiguous (zip_open : list Z -> option (nat -> option ZipFile)) container entry limits material :
  Forall is_byte container -> read_entry zip_open container entry limits = Ok material ->
  exists i archive file,
    unambiguous container entry limits i /\ zip_open container = Some archive /\ archive i = Some file
    /\ zf_name file = entry /\ zf_is_file file = true /\ zf_is_symlink file = false /\ zf_encrypted file = false
    /\ (exists n, zf_read file n = Some material) /\ 0 < zlen material <= max_key_bytes limits
    /\ zlen material <= zf_compressed_size file * max_expansion_ratio limits /\ zlen material = zf_size file
    /\ zlen container <= max_container_bytes limits
    /\ take 4 material <> LOCAL_HEADER /\ take 4 material <> END_RECORD.
Proof.
  intros Hb Hr. unfold read_entry in Hr. apply rbind_ok in Hr as ([] & Hlimits & Hr). apply fail_if_ok in Hr as [_ Hr].
  apply fail_if_ok in Hr as [Hc%Z.ltb_ge Hr]. apply rbind_ok in Hr as (i & Hi & Hr). apply rbind_ok in Hr as (archive & Ha%ok_or_ok & Hr).
  apply rbind_ok in Hr as (file & Hf%ok_or_ok & Hr). apply fail_if_ok in Hr as [E Hr].
  apply orb_false_iff in E as [[[E1%negb_false_iff%bool_decide_eq_true E2%negb_false_iff]%orb_false_iff E3]%orb_false_iff E4].
  cbv zeta in Hr. apply rbind_ok in Hr as (output & Ho%ok_or_ok & Hr). apply fail_if_ok in Hr as [Hlim%Z.ltb_ge Hr].
  apply fail_if_ok in Hr as [Hsize%negb_false_iff%Z.eqb_eq Hr]. apply fail_if_ok in Hr as [E Hr]. unfold starts_with_bytes in E.
  apply orb_false_iff in E as [E5%bool_decide_eq_false E6%bool_decide_eq_false]. unfold key_material in Hr.
  apply fail_if_ok in Hr as [_ Hr]. apply fail_if_ok in Hr as [_ Hr]. apply fail_if_ok in Hr as [Hne%Nat.eqb_neq [= <-]].
  unfold saturating_mul in Hlim. exists i, archive, file. repeat split; try done; try lia; [| by eexists].
  apply preflight_members; [done | | done]. apply key_limits_bound in Hlimits. unfold U64_MAX. lia.
Qed.

(** ** A container with one stored entry *)
Definition demo_entry_name : list Z := str_bytes "keys/identity.txt".
Definition demo_secret : list Z := str_bytes "AGE-SECRET-KEY".
Definition demo_sizes : list Z := to_le 4 305419896 ++ to_le 4 14 ++ to_le 4 14 ++ to_le 2 17.
Definition demo_zip : list Z :=
  LOCAL_HEADER ++ to_le 2 20 ++ to_le 2 0 ++ to_le 2 0 ++ to_le 4 0 ++ demo_sizes ++ to_le 2 0 ++ demo_entry_name ++ demo_secret
  ++ CENTRAL_HEADER ++ to_le 2 20 ++ to_le 2 20 ++ to_le 2 0 ++ to_le 2 0 ++ to_le 4 0 ++ demo_sizes ++ to_le 2 0 ++ to_le 2 0 ++ to_le 2 0
     ++ to_le 2 0 ++ to_le 4 2176057344 ++ to_le 4 0 ++ demo_entry_name
  ++ END_RECORD ++ to_le 2 0 ++ to_le 2 0 ++ to_le 2 1 ++ to_le 2 1 ++ to_le 4 63 ++ to_le 4 61 ++ to_le 2 0.
Definition demo_zip_file : ZipFile :=
  {| zf_name := demo_entry_name; zf_is_file := true; zf_is_symlink := false; zf_encrypted := false; zf_compressed_size := 14; zf_size := 14;
     zf_read := fun n => Some (take (Z.to_nat n) demo_secret) |}.
Definition demo_zip_open (_ : list Z) : option (nat -> option ZipFile) :=
  Some (fun i => match i with O => Some demo_zip_file | S _ => None end).

Lemma read_entry_unambiguous_witness :
  read_entry demo_zip_open demo_zip demo_entry_name KeyLimits_default = Ok demo_secret
  /\ preflight (demo_zip ++ [0]) demo_entry_name KeyLimits_default = Err InvalidContainer
  /\ exists i, unambiguous demo_zip demo_entry_name KeyLimits_default i.
Proof.
  assert (read_entry demo_zip_open demo_zip demo_entry_name KeyLimits_default = Ok demo_secret) as Hr by (vm_compute; reflexivity).
  split; [exact Hr |]. split; [vm_compute; reflexivity |].
  destruct (read_entry_unambiguous demo_zip_open demo_zip demo_entry_name KeyLimits_default demo_secret (bytes_checked demo_zip eq_refl) Hr)
    as (i & archive & file & Hi & _). exists i. exact Hi.
Defined.
