(* ===== verification/Registry.v ===== *)
(** * Key sources

    [crates/key-sources/src/registry.rs], [file.rs] and [secrets/mod.rs]: the
    operator's aliases resolve to sources without touching a key; a source is
    a program over the host's protected files and environment. *)
From S2P Require Import Prelude Order Text Program Backups Ciphertext Protection Zip.
Open Scope Z_scope.

Inductive FileProtection : Type := Restricted | PersonalVault.
#[export] Instance FileProtection_eq_dec : EqDecision FileProtection.
Proof. solve_decision. Defined.

(** [host_platform::read_secret], [std::env::var_os], and the flag and the
    clock that a work budget reads. *)
Inductive KeyCall : Type :=
| ReadSecret (path : list Z) (max_bytes : Z)
| VarOs (variable : list Z)
| WorkLoad.
Definition KeyAnswer (c : KeyCall) : Type :=
  match c with
  | ReadSecret _ _ => result HostError (list Z)
  | VarOs _ => option (list Z)
  | WorkLoad => bool * Z
  end.
Notation keying := (prog KeyAnswer).
Notation key_call := (Program.call (Answer := KeyAnswer)).

(** [host_platform::read_secret] bounds its request before the platform. *)
Definition read_secret (path : list Z) (max_bytes : Z) : keying (result HostError (list Z)) :=
  if (max_bytes =? 0) || (16 * 1024 * 1024 <? max_bytes) then Ret (Err HLimit) else key_call (ReadSecret path max_bytes).

Definition from_host (e : HostError) : ProtectionError :=
  match e with
  | HInvalidPath => InvalidConfig
  | HUnsupported | HInsecure => UnsupportedProtection
  | HUnavailable => SourceUnavailable
  | HLimit => ResourceLimit
  end.

(** [NativeFileAccess::read] *)
Definition native_file_read (path : list Z) (protection : FileProtection) (max_bytes : Z) : keying (result ProtectionError (list Z)) :=
  match protection with
  | PersonalVault => Ret (Err UnsupportedProtection)
  | Restricted =>
      do! bytes := read_secret path max_bytes in
      Ret (let? bytes := map_err from_host bytes in key_material bytes max_bytes)
  end.

(** [KeySource] *)
Definition KeySource : Type := Z -> keying (result ProtectionError (list Z)).

Section registry.
Context (files : list Z -> FileProtection -> Z -> keying (result ProtectionError (list Z))).
Context (zip_open : list Z -> option (nat -> option ZipFile)).

(** [configs] is a [BTreeMap] of aliases. *)
Record SourceRegistry : Type := { r_configs : list (list Z * SourceConfig); r_limits : KeyLimits }.

Definition check_config (configs : list (list Z * SourceConfig)) (config : SourceConfig) : result ProtectionError unit :=
  match config with
  | RestrictedFile path | PersonalVaultFile path => file_path path
  | Environment variable => fail_if negb (environment_name variable) with InvalidConfig in Ok tt
  | ArchiveEntry source _ entry =>
      fail_if negb (identifier source) || negb (entry_name entry false) with InvalidConfig in
      match bt_get source configs with
      | Some (ArchiveEntry _ _ _) | None => Err InvalidConfig
      | Some _ => Ok tt
      end
  end.

Fixpoint check_configs (configs : list (list Z * SourceConfig)) (l : list (list Z * SourceConfig)) : result ProtectionError unit :=
  match l with
  | [] => Ok tt
  | (alias, config) :: l =>
      fail_if negb (identifier alias) with InvalidConfig in
      let? _ := check_config configs config in
      check_configs configs l
  end.

Definition with_file_access (configs : list (list Z * SourceConfig)) (limits : KeyLimits) : result ProtectionError SourceRegistry :=
  let? _ := key_limits_validate limits in
  fail_if 128 <? zlen configs with ResourceLimit in
  let? _ := check_configs configs configs in
  Ok {| r_configs := configs; r_limits := limits |}.

(** ** Sources *)
Definition bounded_read (read : KeySource) (cap : Z) : KeySource := fun max_bytes =>
  let limit := Z.min max_bytes cap in
  if limit =? 0 then Ret (Err ResourceLimit)
  else
    do? material := read limit in
    Ret (fail_if limit <? zlen material with ResourceLimit in Ok material).

(** [FileSource::read] *)
Definition file_source (path : list Z) (protection : FileProtection) (cap : Z) : KeySource := bounded_read (files path protection) cap.
(** [EnvironmentSource::read] *)
Definition environment_source (variable : list Z) (cap : Z) : KeySource := fun max_bytes =>
  let limit := Z.min max_bytes cap in
  if limit =? 0 then Ret (Err ResourceLimit)
  else
    do! value := key_call (VarOs variable) in
    Ret (let? value := ok_or value SourceUnavailable in key_material value limit).
(** [PurposeSource::read] *)
Definition purpose_source (source : KeySource) (cap : Z) : KeySource := bounded_read source cap.

Definition with_max_key_bytes (n : Z) (l : KeyLimits) : KeyLimits :=
  {| max_key_bytes := n; max_container_bytes := max_container_bytes l; max_entries := max_entries l;
     max_directory_bytes := max_directory_bytes l; max_expansion_ratio := max_expansion_ratio l |}.
(** [ArchiveSource::read] *)
Definition archive_source (source : KeySource) (entry : list Z) (limits : KeyLimits) : KeySource := fun max_bytes =>
  let limits := with_max_key_bytes (Z.min (max_key_bytes limits) max_bytes) limits in
  match key_limits_validate limits with
  | Err e => Ret (Err e)
  | Ok _ =>
      do? container := source (max_container_bytes limits) in
      Ret (read_entry zip_open container entry limits)
  end.

(** [SourceRegistry::resolve]; the fuel bounds the chain of containers. *)
Fixpoint resolve (fuel : nat) (r : SourceRegistry) (name : list Z) : result ProtectionError KeySource :=
  match fuel with
  | O => Err InvalidConfig
  | S fuel =>
      let? config := ok_or (bt_get name (r_configs r)) InvalidConfig in
      match config with
      | RestrictedFile path => Ok (file_source path Restricted (max_container_bytes (r_limits r)))
      | PersonalVaultFile path => Ok (file_source path PersonalVault (max_container_bytes (r_limits r)))
      | Environment variable => Ok (environment_source variable (max_container_bytes (r_limits r)))
      | ArchiveEntry source _ entry =>
          let? source := resolve fuel r source in Ok (archive_source source entry (r_limits r))
      end
  end.
Definition RESOLVE_FUEL : nat := 2.

Definition resolve_key (r : SourceRegistry) (name : list Z) : result ProtectionError KeySource :=
  let? source := resolve RESOLVE_FUEL r name in Ok (purpose_source source (max_key_bytes (r_limits r))).

(** ** [ServiceSecrets] *)
Definition ServiceSecrets : Type := list (string * (SecretPurpose * KeySource)).

Fixpoint bind_secrets (r : SourceRegistry) (bindings : list (string * SecretPurpose * list Z)) (sources : ServiceSecrets) :
    result MutationError ServiceSecrets :=
  match bindings with
  | [] => Ok sources
  | (reference, purpose, source) :: bindings =>
      let? source := map_err (fun _ => MInvalid) (resolve RESOLVE_FUEL r source) in
      fail_if bt_contains reference sources with MInvalid in
      bind_secrets r bindings (bt_insert reference (purpose, source) sources)
  end.
Definition service_secrets_new (r : SourceRegistry) (bindings : list (string * SecretPurpose * list Z)) : result MutationError ServiceSecrets :=
  fail_if 128 <? zlen bindings with MLimit in bind_secrets r bindings [].

Definition work_budget_check (deadline : Z) : keying (result MutationError unit) :=
  do! b := key_call WorkLoad in Ret (work_check deadline (fst b) (snd b)).

(** [SecretSource::resolve] *)
Definition service_resolve (s : ServiceSecrets) (reference : string) (purpose : SecretPurpose) (deadline : Z) :
    keying (result MutationError SecretValue) :=
  do? _ := work_budget_check deadline in
  match bt_get reference s with
  | None => Ret (Err MInvalid)
  | Some (expected, source) =>
      if negb (bool_decide (expected = purpose)) then Ret (Err MInvalid)
      else
        do! material := source 65536 in
        match material with
        | Err _ => Ret (Err MUnavailable)
        | Ok material =>
            do? _ := work_budget_check deadline in
            Ret (fail_if 65536 <? zlen material with MLimit in secret_value material purpose)
        end
  end.
End registry.

(** * What a key source may touch

    A monitor of the host: reading a resolved source makes at most one access,
    to the one place the operator configured for its alias, and what it yields
    is bounded. *)

Lemma check_configs_get all l name config : check_configs all l = Ok tt -> bt_get name l = Some config -> check_config all config = Ok tt.
Proof.
  induction l as [| [alias c] l IH]; cbn [bt_get check_configs]; [done |]. intros Hc Hg.
  apply fail_if_ok in Hc as [_ Hc]. apply rbind_ok in Hc as ([] & Hc1 & Hc2).
  destruct (eqb name alias); [by injection Hg as -> | by apply IH].
Qed.

Lemma key_material_length bytes n m : key_material bytes n = Ok m -> 0 < zlen m <= n.
Proof.
  unfold key_material. intros Hk. apply fail_if_ok in Hk as [_ Hk]. apply fail_if_ok in Hk as [Hl%Z.ltb_ge Hk].
  apply fail_if_ok in Hk as [Hn%Nat.eqb_neq [= <-]]. lia.
Qed.

Lemma read_entry_length zip_open container entry limits m :
  read_entry zip_open container entry limits = Ok m -> 0 < zlen m <= max_key_bytes limits.
Proof.
  unfold read_entry. intros Hr. repeat first [exact (key_material_length _ _ _ Hr) | apply rbind_ok in Hr as (? & _ & Hr) | apply fail_if_ok in Hr as [_ Hr]].
Qed.

Section keyring.
Context (zip_open : list Z -> option (nat -> option ZipFile)).
Context (configs : list (list Z * SourceConfig)) (limits : KeyLimits) (r : SourceRegistry).
Context (Hr : with_file_access configs limits = Ok r).

Abbreviation resolved := (resolve native_file_read zip_open).

(** Where an alias's bytes come from. *)
Definition location (name : list Z) : option SourceConfig :=
  match bt_get name configs with
  | Some (ArchiveEntry source _ _) => bt_get source configs
  | c => c
  end.

(** The accesses that a location allows. *)
Definition permitted (config : option SourceConfig) (c : KeyCall) : Prop :=
  match c with
  | ReadSecret path n => config = Some (RestrictedFile path) /\ 0 < n <= max_container_bytes limits
  | VarOs variable => config = Some (Environment variable)
  | WorkLoad => False
  end.

Abbreviation Wk config := (wp (fun n (_ : event KeyAnswer) => S n) (fun n c => n = 0%nat /\ permitted config c)).

Definition yields_material (max_bytes : Z) (x : result ProtectionError (list Z)) (n : nat) : Prop :=
  (n <= 1)%nat /\ forall m, x = Ok m -> 0 < zlen m <= max_bytes.

Lemma registry_fields : r_configs r = configs /\ r_limits r = limits /\ check_configs configs configs = Ok tt /\ key_limits_validate limits = Ok tt.
Proof.
  unfold with_file_access in Hr. apply rbind_ok in Hr as ([] & Hv & H1). apply fail_if_ok in H1 as [_ H1].
  apply rbind_ok in H1 as ([] & Hc & [= <-]). done.
Qed.

Lemma limits_positive : 0 <= max_key_bytes limits -> 0 <= max_container_bytes limits ->
  0 < max_key_bytes limits /\ 0 < max_container_bytes limits <= 16 * 1024 * 1024.
Proof.
  destruct registry_fields as (_ & _ & _ & Hv). unfold key_limits_validate in Hv. apply fail_if_ok in Hv as [E _].
  apply orb_false_iff in E as [E _]. rewrite existsb_false_Forall in E. rewrite !Forall_cons in E. destruct E as (E1 & E2 & _).
  apply orb_false_iff in E1 as [E1%Z.eqb_neq _], E2 as [E2%Z.eqb_neq E2'%Z.ltb_ge]. lia.
Qed.

(** ** Sources *)
Definition reads_from (config : option SourceConfig) (source : KeySource) : Prop :=
  forall max_bytes, 0 <= max_bytes -> Wk config (source max_bytes) 0%nat (yields_material max_bytes).

Lemma bounded_wp config (read : KeySource) cap max_bytes :
  0 < cap -> 0 <= max_bytes ->
  (forall n, 0 < n <= cap -> n <= max_bytes -> Wk config (read n) 0%nat (yields_material n)) ->
  Wk config (bounded_read read cap max_bytes) 0%nat (yields_material max_bytes).
Proof.
  intros Hc Hm Hread. unfold bounded_read. cbv zeta. destruct (Z.eqb_spec (Z.min max_bytes cap) 0) as [Hz | Hz].
  { split; [lia | done]. }
  unfold try_bind. apply wp_seq. eapply wp_mono; [apply Hread; lia |]. intros [m | e] n [Hn Hy]; cbn [wp].
  - split; [done |]. intros m' Hm'. apply fail_if_ok in Hm' as [_ [= <-]]. specialize (Hy m eq_refl). lia.
  - by split.
Qed.

Lemma file_reads path : 0 < max_container_bytes limits <= 16 * 1024 * 1024 ->
  reads_from (Some (RestrictedFile path)) (file_source native_file_read path Restricted (max_container_bytes limits)).
Proof.
  intros Hc max_bytes Hm. unfold file_source. apply bounded_wp; [lia | done |]. intros n Hn _. unfold native_file_read, read_secret.
  destruct (_ || _) eqn:E.
  - apply orb_true_iff in E as [E%Z.eqb_eq | E%Z.ltb_lt]; lia.
  - split; [by repeat split; lia |]. intros x. cbn [pbind wp]. split; [done |]. intros m Hk. apply rbind_ok in Hk as (b & _ & Hk). by apply key_material_length in Hk.
Qed.

Lemma vault_reads path : 0 < max_container_bytes limits ->
  reads_from (Some (PersonalVaultFile path)) (file_source native_file_read path PersonalVault (max_container_bytes limits)).
Proof. intros Hc max_bytes Hm. unfold file_source. apply bounded_wp; [lia | done |]. intros n _ _. cbn. split; [lia | done]. Qed.

Lemma environment_reads variable : 0 < max_container_bytes limits ->
  reads_from (Some (Environment variable)) (environment_source variable (max_container_bytes limits)).
Proof.
  intros Hc max_bytes Hm. unfold environment_source. cbv zeta. destruct (Z.eqb_spec (Z.min max_bytes (max_container_bytes limits)) 0) as [Hz | Hz].
  { split; [lia | done]. }
  split; [done |]. intros x. cbn [pbind wp]. split; [done |]. intros m Hk. apply rbind_ok in Hk as (b & _ & Hk). apply key_material_length in Hk. lia.
Qed.

Lemma archive_reads config source entry : 0 <= max_container_bytes limits -> reads_from config source ->
  reads_from config (archive_source zip_open source entry limits).
Proof.
  intros Hc Hs max_bytes Hm. unfold archive_source. cbv zeta. destruct (key_limits_validate _); [| split; [lia | done]].
  cbn [with_max_key_bytes max_container_bytes]. unfold try_bind. apply wp_seq. eapply wp_mono; [by apply Hs |].
  intros [container | e] n [Hn _]; cbn [wp]; [| by split]. split; [done |]. intros m Hk. apply read_entry_length in Hk.
  cbn [max_key_bytes with_max_key_bytes] in Hk. lia.
Qed.

Lemma resolved_reads name source : 0 <= max_key_bytes limits -> 0 <= max_container_bytes limits ->
  resolved RESOLVE_FUEL r name = Ok source -> reads_from (location name) source.
Proof.
  intros Hk Hc Hs. destruct registry_fields as (E1 & E2 & Hall & _). pose proof (limits_positive Hk Hc) as [_ Hpos].
  unfold RESOLVE_FUEL in Hs. cbn [resolve] in Hs. rewrite E1, E2 in Hs. unfold location.
  apply rbind_ok in Hs as (config & Hg%ok_or_ok & Hs). rewrite Hg. pose proof (check_configs_get _ _ _ _ Hall Hg) as Hconf.
  destruct config as [path | path | variable | inner format entry].
  - injection Hs as <-. by apply file_reads.
  - injection Hs as <-. apply vault_reads; lia.
  - injection Hs as <-. apply environment_reads; lia.
  - apply rbind_ok in Hs as (source' & Hs' & [= <-]). apply archive_reads; [lia |]. apply rbind_ok in Hs' as (config & Hg'%ok_or_ok & Hs').
    rewrite Hg'. destruct config as [path | path | variable | ? ? ?].
    + injection Hs' as <-. by apply file_reads.
    + injection Hs' as <-. apply vault_reads; lia.
    + injection Hs' as <-. apply environment_reads; lia.
    + cbn [check_config] in Hconf. apply fail_if_ok in Hconf as [_ Hconf]. by rewrite Hg' in Hconf.
Qed.

(** An alias resolves exactly when it is configured. *)
Lemma resolve_configured name : is_ok (resolve_key native_file_read zip_open r name) = true <-> is_Some (bt_get name configs).
Proof.
  destruct registry_fields as (E1 & E2 & Hall & _). unfold resolve_key, RESOLVE_FUEL. cbn [resolve]. rewrite E1, E2.
  destruct (bt_get name configs) as [config |] eqn:Hg; cbn [ok_or rbind is_ok]; [| split; [done | by intros []]].
  split; [by eexists |]. intros _. pose proof (check_configs_get _ _ _ _ Hall Hg) as Hconf. destruct config as [| | | inner ? ?]; try done.
  cbn [check_config] in Hconf. apply fail_if_ok in Hconf as [_ Hconf]. by destruct (bt_get inner configs) as [[] |].
Qed.

Lemma key_source_wp name source max_bytes : 0 <= max_key_bytes limits -> 0 <= max_container_bytes limits -> 0 <= max_bytes ->
  resolve_key native_file_read zip_open r name = Ok source ->
  Wk (location name) (source max_bytes) 0%nat (yields_material (Z.min max_bytes (max_key_bytes limits))).
Proof.
  intros Hk Hc Hm Hs. destruct registry_fields as (_ & E2 & _ & _). pose proof (limits_positive Hk Hc) as [Hpos _].
  apply rbind_ok in Hs as (inner & Hi & [= <-]). rewrite E2. unfold purpose_source, bounded_read. cbv zeta.
  destruct (Z.eqb_spec (Z.min max_bytes (max_key_bytes limits)) 0) as [Hz | Hz]; [split; [lia | done] |].
  unfold try_bind. apply wp_seq. eapply wp_mono; [apply (resolved_reads name inner Hk Hc Hi); lia |]. intros [m | e] n [Hn Hy]; cbn [wp]; [| by split].
  split; [done |]. intros m' Hm'. apply fail_if_ok in Hm' as [_ [= <-]]. by apply Hy.
Qed.
End keyring.

Lemma accesses_counted (t : list (event KeyAnswer)) n : foldl (fun n _ => S n) n t = (n + length t)%nat.
Proof. revert n. induction t as [| e t IH]; intros n; cbn [foldl length]; [lia |]. rewrite IH. lia. Qed.

(** Key access is closed: in a registry that was accepted, exactly the configured aliases resolve, and resolving
    reads nothing; reading a resolved key makes at most one access to the host, to the file or variable configured for
    the alias or for its container and for no more than the container limit, with no fallback, and material comes back
    not empty and within both the caller's and the registry's key limit. *)
Theorem key_access_closed zip_open configs limits r name max_bytes :
  with_file_access configs limits = Ok r -> 0 <= max_key_bytes limits -> 0 <= max_container_bytes limits -> 0 <= max_bytes ->
  (is_ok (resolve_key native_file_read zip_open r name) = true <-> is_Some (bt_get name configs))
  /\ forall source t x, resolve_key native_file_read zip_open r name = Ok source -> runs (source max_bytes) t x ->
       (length t <= 1)%nat /\ Forall (fun e => permitted limits (location configs name) (ev_call e)) t
       /\ forall m, x = Some (Ok m) -> 0 < zlen m <= Z.min max_bytes (max_key_bytes limits).
Proof.
  intros Hr Hk Hc Hm. split; [by apply (resolve_configured zip_open configs limits r Hr) |]. intros source t x Hs Hrun.
  pose proof (key_source_wp zip_open configs limits r Hr name source max_bytes Hk Hc Hm Hs) as Hwp.
  destruct (wp_sound _ _ _ _ _ _ _ Hwp Hrun) as [Hcalls Hpost]. split; [| split].
  - destruct (decide (length t <= 1)%nat) as [? | Hn]; [done |]. destruct t as [| e1 [| e2 t]]; cbn [length] in *; try lia.
    destruct (Hcalls [e1] e2 t eq_refl) as [Hz _]. done.
  - apply Forall_forall. intros e (t1 & t2 & ->)%list_elem_of_split. by destruct (Hcalls t1 e t2 eq_refl).
  - intros m ->. destruct (Hpost _ eq_refl) as [_ Hy]. by apply Hy.
Qed.

(** ** A registry *)
Definition demo_alias : list Z := str_bytes "vault".
Definition demo_key_alias : list Z := str_bytes "backup-key".
Definition demo_configs : list (list Z * SourceConfig) :=
  [(demo_key_alias, ArchiveEntry demo_alias ZipFormat (str_bytes "keys/identity.txt"));
   (demo_alias, RestrictedFile (str_bytes "/etc/openwrt-mcp/keys.zip"))].
Definition demo_registry : SourceRegistry := {| r_configs := demo_configs; r_limits := KeyLimits_default |}.
Definition demo_host (container : list Z) (c : KeyCall) : KeyAnswer c :=
  match c with ReadSecret _ _ => Ok container | VarOs _ => None | WorkLoad => (false, 0) end.
Definition demo_key_source : KeySource :=
  match resolve_key native_file_read demo_zip_open demo_registry demo_key_alias with Ok s => s | Err _ => fun _ => Ret (Err InvalidConfig) end.
Definition demo_key_read := drive (demo_host demo_zip) (demo_key_source 4096).

Lemma key_access_closed_witness :
  with_file_access demo_configs KeyLimits_default = Ok demo_registry /\ snd demo_key_read = Ok demo_secret
  /\ Forall (fun e => permitted KeyLimits_default (Some (RestrictedFile (str_bytes "/etc/openwrt-mcp/keys.zip"))) (ev_call e)) (fst demo_key_read).
Proof.
  assert (with_file_access demo_configs KeyLimits_default = Ok demo_registry) as Hr by (vm_compute; reflexivity).
  split; [exact Hr |]. split; [vm_compute; reflexivity |].
  destruct (key_access_closed demo_zip_open demo_configs KeyLimits_default demo_registry demo_key_alias 4096 Hr
    ltac:(cbn; lia) ltac:(cbn; lia) ltac:(lia)) as [_ Ha].
  destruct (Ha demo_key_source (fst demo_key_read) (Some (snd demo_key_read)) eq_refl (drive_runs (demo_host demo_zip) (demo_key_source 4096))) as (_ & Hp & _).
  exact Hp.
Defined.
