(* ===== verification/Policy.v ===== *)
(** * The Windows path and security-descriptor policy

    [crates/host-platform/src/windows/policy.rs]: validation of a DOS path and
    of a self-relative security descriptor, over the bytes the operating
    system supplied.  Texts are their UTF-8 bytes; rights are bit masks. *)
From S2P Require Import Prelude Text Archive Ciphertext.
Open Scope Z_scope.

Definition MAX_PATH : Z := 4096.
Definition MAX_DESCRIPTOR : Z := 65536.

(** ** Paths *)
Definition strip_prefix_bytes (p l : list Z) : option (list Z) :=
  if bool_decide (take (length p) l = p) then Some (drop (length p) l) else None.

Definition volume_mapping (mapping : list Z) : result HostError unit :=
  let? suffix := ok_or (strip_prefix_bytes (str_bytes "\Device\HarddiskVolume") mapping) HUnsupported in
  fail_if bool_decide (suffix = []) || (10 <? zlen suffix) || negb (forallb is_ascii_digit suffix) with HUnsupported in
  Ok tt.

Definition ascii_lower (b : Z) : Z := if is_ascii_upper b then b + 32 else b.
Definition ascii_upper (b : Z) : Z := if is_ascii_lower b then b - 32 else b.

Definition same_path (expected observed : list Z) : result HostError unit :=
  if bool_decide (ascii_lower <$> expected = ascii_lower <$> observed) then Ok tt else Err HInsecure.

Record DosPath : Type := { drive : Z; components : list (list Z) }.

(** [value.encode_utf16().count()]: a lead byte per scalar, two units for the
    scalars that take four bytes. *)
Definition utf16_count (value : list Z) : Z :=
  foldr (fun b n => n + (if in_range 128 191 b then 0 else if 240 <=? b then 2 else 1)) 0 value.

Definition DEVICES : list (list Z) := str_bytes <$> ["CON"; "PRN"; "AUX"; "NUL"; "CONIN$"; "CONOUT$"]%string.
(** The digits, and the superscripts one, two and three. *)
Definition PORT_NUMBERS : list (list Z) := ((fun d => [48 + d]) <$> seqZ 0 10) ++ [[194; 185]; [194; 178]; [194; 179]].

(** [part.split('.').next()] in upper case *)
Definition stem (part : list Z) : list Z := ascii_upper <$> default [] (head (split_bytes 46 part)).
Definition numbered (stem : list Z) : option (list Z) :=
  match strip_prefix_bytes (str_bytes "COM") stem with
  | Some n => Some n
  | None => strip_prefix_bytes (str_bytes "LPT") stem
  end.

Definition bad_component (part : list Z) : bool :=
  bool_decide (part = []) || existsb (Z.eqb 58) part || match last part with Some b => (b =? 46) || (b =? 32) | None => false end
  || (255 <? utf16_count part) || bool_decide (stem part ∈ DEVICES)
  || match numbered (stem part) with Some n => bool_decide (n ∈ PORT_NUMBERS) | None => false end.

Definition path (value : list Z) : result HostError DosPath :=
  fail_if (MAX_PATH <? utf16_count value) || (zlen value <? 4) || negb (is_ascii_alphabetic (default 0 (head value)))
       || negb (bool_decide (slice 1 2 value = str_bytes ":\")) || control_bytes value
       || existsb (fun b => byte_in "/*?<>|" b || (b =? 34)) value with HInvalidPath in
  let components := split_bytes 92 (drop 3 value) in
  fail_if 128 <? zlen components with HInvalidPath in
  fail_if existsb bad_component components with HInvalidPath in
  Ok {| drive := ascii_upper (default 0 (head value)); components := components |}.

(** ** Security identifiers *)
Definition sid (bytes : list Z) : result HostError (list Z) :=
  fail_if (zlen bytes <? 8) || negb (default 0 (bytes !! 0%nat) =? 1) || negb (in_range 1 15 (default 0 (bytes !! 1%nat))) with HInsecure in
  let len := 8 + default 0 (bytes !! 1%nat) * 4 in
  fail_if zlen bytes <? len with HInsecure in
  Ok (take (Z.to_nat len) bytes).

Definition is_sid (bytes : list Z) (subauthorities : list Z) : bool :=
  bool_decide (bytes = [1; zlen subauthorities; 0; 0; 0; 0; 0; 5] ++ concat (to_le 4 <$> subauthorities)).

(** The user, SYSTEM, the administrators, and for a volume's root the
    TrustedInstaller service. *)
Definition trusted (bytes user : list Z) (root : bool) : bool :=
  bool_decide (bytes = user) || is_sid bytes [18] || is_sid bytes [32; 544]
  || (root && is_sid bytes [80; 956008885; 3418522649; 1831038044; 1853292631; 2271478464]).

(** ** Descriptors *)
Definition u16_at (bytes : list Z) (at_ : Z) : result HostError Z :=
  fail_if zlen bytes <? at_ + 2 with HInsecure in Ok (le_value (slice (Z.to_nat at_) 2 bytes)).
Definition u32_at (bytes : list Z) (at_ : Z) : result HostError Z :=
  fail_if zlen bytes <? at_ + 4 with HInsecure in Ok (le_value (slice (Z.to_nat at_) 4 bytes)).
Definition offset (bytes : list Z) (at_ : Z) : result HostError Z :=
  let? value := u32_at bytes at_ in
  fail_if (value <? 20) || negb (value mod 4 =? 0) || (zlen bytes <=? value) with HInsecure in
  Ok value.

Definition with_right (mask bit rights mapped : Z) : Z := if negb (Z.land mask bit =? 0) then Z.lor mapped rights else mapped.
Definition generic (mask : Z) : Z :=
  with_right mask 268435456 2032127
    (with_right mask 536870912 1179808
       (with_right mask 1073741824 1179926
          (with_right mask 2147483648 1179785 (Z.land mask 268435455)))).

Definition FILE_ALL_ACCESS : Z := 2032127.
(** What others may be granted. *)
Definition allowed_rights (directory root secret : bool) : Z :=
  Z.lor (if secret && negb directory then 1179776 else 1179817) (if root then 4 else 0).

Section descriptor.
Context (user : list Z) (directory root secret : bool).

(** One entry of the list: what is left of it. *)
Definition check_ace (acl : list Z) (cursor : Z) : result HostError Z :=
  let? size := u16_at acl (cursor + 2) in
  fail_if zlen acl <? cursor + size with HInsecure in
  let ace := slice (Z.to_nat cursor) (Z.to_nat size) acl in
  let kind := default 0 (ace !! 0%nat) in
  let flags := default 0 (ace !! 1%nat) in
  fail_if (size <? 20) || negb (size mod 4 =? 0) || negb (existsb (Z.eqb kind) [0; 1]) || negb (Z.ldiff flags 31 =? 0) with HInsecure in
  let? trustee := sid (drop 8 ace) in
  fail_if negb (zlen trustee + 8 =? zlen ace) with HInsecure in
  let? mask := u32_at ace 4 in
  let mask := generic mask in
  fail_if negb (Z.ldiff mask FILE_ALL_ACCESS =? 0) with HInsecure in
  fail_if (kind =? 0) && (Z.land flags 8 =? 0) && negb (trusted trustee user root)
       && negb (Z.ldiff mask (allowed_rights directory root secret) =? 0) with HInsecure in
  Ok (cursor + size).

Fixpoint check_aces (count : nat) (acl : list Z) (cursor : Z) : result HostError unit :=
  match count with
  | O => Ok tt
  | S count => let? cursor := check_ace acl cursor in check_aces count acl cursor
  end.

Definition descriptor (bytes : list Z) : result HostError unit :=
  fail_if (zlen bytes <? 20) || (MAX_DESCRIPTOR <? zlen bytes) || negb (bool_decide (take 2 bytes = [1; 0])) with HInsecure in
  let? control := u16_at bytes 2 in
  fail_if negb (Z.land control 32772 =? 32772) with HInsecure in
  let? sacl := u32_at bytes 12 in
  fail_if negb (sacl =? 0) with HInsecure in
  let? user_sid := sid user in
  fail_if negb (bool_decide (user_sid = user)) with HInsecure in
  let? owner_at := offset bytes 4 in
  let? owner := sid (drop (Z.to_nat owner_at) bytes) in
  fail_if negb (trusted owner user root) with HInsecure in
  let? acl_at := offset bytes 16 in
  let? acl_size := u16_at bytes (acl_at + 2) in
  fail_if zlen bytes <? acl_at + acl_size with HInsecure in
  let acl := slice (Z.to_nat acl_at) (Z.to_nat acl_size) bytes in
  fail_if (zlen acl <? 8) || negb (zlen acl mod 4 =? 0) || negb (existsb (Z.eqb (default 0 (acl !! 0%nat))) [2; 4])
       || negb (default 0 (acl !! 1%nat) =? 0) || negb (bool_decide (slice 6 2 acl = [0; 0])) with HInsecure in
  let overlaps_acl at_ size := (at_ <? acl_at + acl_size) && (acl_at <? at_ + size) in
  fail_if overlaps_acl owner_at (zlen owner) with HInsecure in
  let? group_at := u32_at bytes 8 in
  let? _ := (if group_at =? 0 then Ok tt
             else
               let? at_ := offset bytes 8 in
               let? group := sid (drop (Z.to_nat at_) bytes) in
               fail_if overlaps_acl at_ (zlen group)
                    || (negb (at_ =? owner_at) && (at_ <? owner_at + zlen owner) && (owner_at <? at_ + zlen group)) with HInsecure in
               Ok tt) in
  let? count := u16_at acl 4 in
  fail_if 4096 <? count with HInsecure in
  check_aces (Z.to_nat count) acl 8.
End descriptor.

(** [log_descriptor]: the double words of a descriptor that grants the user
    alone. *)
Definition log_bytes (user : list Z) : list Z :=
  [1; 0] ++ to_le 2 36868 ++ to_le 4 20 ++ repeat 0 8 ++ to_le 4 (20 + zlen user) ++ user
  ++ [2; 0] ++ to_le 2 (16 + zlen user) ++ [1; 0; 0; 0] ++ [0; 0] ++ to_le 2 (8 + zlen user) ++ to_le 4 FILE_ALL_ACCESS ++ user.
Fixpoint words (bytes : list Z) : list Z :=
  match bytes with
  | a :: b :: c :: d :: bytes => le_value [a; b; c; d] :: words bytes
  | _ => []
  end.
Definition log_descriptor (user : list Z) : result HostError (list Z) :=
  let? user_sid := sid user in
  fail_if negb (bool_decide (user_sid = user)) with HInsecure in
  let bytes := log_bytes user in
  let? _ := descriptor user false false true bytes in
  Ok (words bytes).

(** * Who an accepted descriptor admits

    [grants] is the access check of the operating system over the entries of
    an access list: in order, for the groups of a token, what a first entry
    denied is not granted by a later one.  An accepted descriptor grants no
    more than the policy allows to a token without a trusted group. *)

Record Ace : Type := { a_kind : Z; a_flags : Z; a_mask : Z; a_trustee : list Z }.

Fixpoint decode_aces (count : nat) (acl : list Z) (cursor : Z) : list Ace :=
  match count with
  | O => []
  | S count =>
      let size := le_value (slice (Z.to_nat (cursor + 2)) 2 acl) in
      let ace := slice (Z.to_nat cursor) (Z.to_nat size) acl in
      {| a_kind := default 0 (ace !! 0%nat); a_flags := default 0 (ace !! 1%nat); a_mask := le_value (slice 4 4 ace); a_trustee := drop 8 ace |}
      :: decode_aces count acl (cursor + size)
  end.

Definition owner_at (bytes : list Z) : Z := le_value (slice 4 4 bytes).
Definition acl_at (bytes : list Z) : Z := le_value (slice 16 4 bytes).
Definition acl_of (bytes : list Z) : list Z :=
  slice (Z.to_nat (acl_at bytes)) (Z.to_nat (le_value (slice (Z.to_nat (acl_at bytes + 2)) 2 bytes))) bytes.
Definition aces_of (bytes : list Z) : list Ace := decode_aces (Z.to_nat (le_value (slice 4 2 (acl_of bytes)))) (acl_of bytes) 8.

Fixpoint grants (token : list Z -> bool) (granted denied : Z) (l : list Ace) : Z :=
  match l with
  | [] => granted
  | a :: l =>
      if negb (Z.land (a_flags a) 8 =? 0) || negb (token (a_trustee a)) then grants token granted denied l
      else if a_kind a =? 0 then grants token (Z.lor granted (Z.ldiff (generic (a_mask a)) denied)) denied l
      else grants token granted (Z.lor denied (Z.ldiff (generic (a_mask a)) granted)) l
  end.
Definition access (token : list Z -> bool) (bytes : list Z) : Z := grants token 0 0 (aces_of bytes).

Definition within (mask rights : Z) : Prop := Z.ldiff mask rights = 0.

Lemma within_lor a b c : within a c -> within b c -> within (Z.lor a b) c.
Proof.
  unfold within. intros Ha Hb. apply Z.bits_inj'. intros n Hn. apply (f_equal (fun x => Z.testbit x n)) in Ha, Hb.
  rewrite Z.ldiff_spec, Z.bits_0 in *. rewrite Z.lor_spec. by destruct (Z.testbit a n), (Z.testbit b n), (Z.testbit c n).
Qed.
Lemma within_ldiff a b c : within a c -> within (Z.ldiff a b) c.
Proof.
  unfold within. intros Ha. apply Z.bits_inj'. intros n Hn. apply (f_equal (fun x => Z.testbit x n)) in Ha.
  rewrite !Z.ldiff_spec, Z.bits_0 in *. by destruct (Z.testbit a n), (Z.testbit b n), (Z.testbit c n).
Qed.

(** What the policy demands of an entry. *)
Definition ace_ok (user : list Z) (directory root secret : bool) (a : Ace) : Prop :=
  within (generic (a_mask a)) FILE_ALL_ACCESS
  /\ (a_kind a = 0 -> Z.land (a_flags a) 8 = 0 -> trusted (a_trustee a) user root = false ->
      within (generic (a_mask a)) (allowed_rights directory root secret)).

Lemma sid_whole bytes s : sid bytes = Ok s -> zlen s = zlen bytes -> s = bytes.
Proof.
  unfold sid. intros Hs Hl. apply fail_if_ok in Hs as [_ Hs]. cbv zeta in Hs. apply fail_if_ok in Hs as [Hn%Z.ltb_ge [= <-]].
  apply take_ge. rewrite length_take in Hl. lia.
Qed.

Lemma u16_at_value bytes p n : u16_at bytes p = Ok n -> p + 2 <= zlen bytes /\ n = le_value (slice (Z.to_nat p) 2 bytes).
Proof. unfold u16_at. intros Hn. apply fail_if_ok in Hn as [Hl%Z.ltb_ge [= <-]]. split; [lia | done]. Qed.
Lemma u32_at_value bytes p n : u32_at bytes p = Ok n -> p + 4 <= zlen bytes /\ n = le_value (slice (Z.to_nat p) 4 bytes).
Proof. unfold u32_at. intros Hn. apply fail_if_ok in Hn as [Hl%Z.ltb_ge [= <-]]. split; [lia | done]. Qed.

Lemma le_value_nonneg l : Forall is_byte l -> 0 <= le_value l.
Proof. intros Hl. unfold le_value. apply be_value_range. by apply Forall_reverse. Qed.

Section descriptor_facts.
Context (user : list Z) (directory root secret : bool).

Lemma check_aces_ok count acl cursor :
  Forall is_byte acl -> 0 <= cursor -> check_aces user directory root secret count acl cursor = Ok tt ->
  Forall (ace_ok user directory root secret) (decode_aces count acl cursor).
Proof.
  intros Hb. revert cursor. induction count as [| count IH]; intros cursor Hc Ha; cbn [check_aces decode_aces] in *; [constructor |].
  apply rbind_ok in Ha as (next & Hn & Ha). unfold check_ace in Hn. apply rbind_ok in Hn as (size & Hsize & Hn).
  apply u16_at_value in Hsize as [_ Hsize]. rewrite <- Hsize.
  assert (Hpos : 0 <= size) by (rewrite Hsize; apply le_value_nonneg; unfold slice; by apply Forall_take, Forall_drop).
  apply fail_if_ok in Hn as [Hfit%Z.ltb_ge Hn]. cbv zeta in *. set (ace := slice (Z.to_nat cursor) (Z.to_nat size) acl) in *.
  assert (Hace : zlen ace = size) by (unfold ace; rewrite length_slice; lia).
  apply fail_if_ok in Hn as [_ Hn]. apply rbind_ok in Hn as (trustee & Ht & Hn). apply fail_if_ok in Hn as [Hlen%negb_false_iff%Z.eqb_eq Hn].
  apply rbind_ok in Hn as (mask & Hm & Hn). apply u32_at_value in Hm as [Hm4 Hm]. change (Z.to_nat 4) with 4%nat in Hm.
  apply fail_if_ok in Hn as [Hall%negb_false_iff%Z.eqb_eq Hn]. apply fail_if_ok in Hn as [Hallow [= <-]].
  assert (trustee = drop 8 ace) as ->.
  { apply (sid_whole _ _ Ht). rewrite length_drop. lia. }
  constructor; [| apply IH; [lia | exact Ha]]. split; cbn [a_mask a_kind a_flags a_trustee]; rewrite <- Hm; [exact Hall |].
  intros Hk Hf Htr. rewrite Hk, Hf, Htr in Hallow. cbn [Z.eqb negb andb] in Hallow. by apply negb_false_iff, Z.eqb_eq in Hallow.
Qed.

Lemma grants_within token rights granted denied l :
  within granted rights ->
  Forall (fun a => a_kind a = 0 -> Z.land (a_flags a) 8 = 0 -> token (a_trustee a) = true -> within (generic (a_mask a)) rights) l ->
  within (grants token granted denied l) rights.
Proof.
  intros Hg Hl. revert granted denied Hg. induction Hl as [| a l Ha Hl IH]; intros granted denied Hg; cbn [grants]; [done |].
  destruct (_ || _) eqn:E; [by apply IH |]. apply orb_false_iff in E as [E1%negb_false_iff%Z.eqb_eq E2%negb_false_iff].
  destruct (Z.eqb_spec (a_kind a) 0); [| by apply IH]. apply IH, within_lor; [done |]. by apply within_ldiff, Ha.
Qed.

Lemma descriptor_parts bytes : Forall is_byte bytes -> descriptor user directory root secret bytes = Ok tt ->
  (exists owner, sid (drop (Z.to_nat (owner_at bytes)) bytes) = Ok owner /\ trusted owner user root = true)
  /\ Forall (ace_ok user directory root secret) (aces_of bytes).
Proof.
  intros Hb Hd. unfold descriptor in Hd. apply fail_if_ok in Hd as [_ Hd]. apply rbind_ok in Hd as (? & _ & Hd). apply fail_if_ok in Hd as [_ Hd].
  apply rbind_ok in Hd as (? & _ & Hd). apply fail_if_ok in Hd as [_ Hd]. apply rbind_ok in Hd as (? & _ & Hd). apply fail_if_ok in Hd as [_ Hd].
  apply rbind_ok in Hd as (at_ & Hat & Hd). apply rbind_ok in Hat as (v & Hv & Hat). apply u32_at_value in Hv as [_ ->]. apply fail_if_ok in Hat as [_ [= <-]].
  apply rbind_ok in Hd as (owner & Ho & Hd). apply fail_if_ok in Hd as [Htr%negb_false_iff Hd].
  apply rbind_ok in Hd as (acl_pos & Hacl & Hd). apply rbind_ok in Hacl as (v & Hv & Hacl). apply u32_at_value in Hv as [_ ->]. apply fail_if_ok in Hacl as [_ [= <-]].
  apply rbind_ok in Hd as (size & Hsize & Hd). apply u16_at_value in Hsize as [_ ->]. apply fail_if_ok in Hd as [_ Hd]. cbv zeta in Hd.
  apply fail_if_ok in Hd as [_ Hd]. apply fail_if_ok in Hd as [_ Hd]. apply rbind_ok in Hd as (? & _ & Hd). apply rbind_ok in Hd as ([] & _ & Hd).
  apply rbind_ok in Hd as (count & Hcount & Hd). apply u16_at_value in Hcount as [_ ->]. apply fail_if_ok in Hd as [_ Hd].
  split; [by exists owner |]. apply check_aces_ok in Hd; [exact Hd | | lia]. unfold slice. by apply Forall_take, Forall_drop.
Qed.
End descriptor_facts.

(** C25: an accepted descriptor admits no stranger: its owner is trusted, and whatever groups a token has, as long as
    none of them is trusted, the access check over all entries of the list, denials, inheritance flags and generic
    rights included, grants it no right but those the policy allows; for a secret file these do not include reading or
    writing its data, deleting it, or changing its list or its owner. *)
Theorem descriptor_admits_no_stranger user directory root secret bytes :
  Forall is_byte bytes -> descriptor user directory root secret bytes = Ok tt ->
  (exists owner, sid (drop (Z.to_nat (owner_at bytes)) bytes) = Ok owner /\ trusted owner user root = true)
  /\ forall token, (forall s, token s = true -> trusted s user root = false) ->
       within (access token bytes) (allowed_rights directory root secret)
       /\ (secret = true -> directory = false -> root = false ->
           Forall (fun right => Z.testbit (access token bytes) right = false) [0; 1; 2; 16; 18; 19]).
Proof.
  intros Hb Hd. destruct (descriptor_parts user directory root secret bytes Hb Hd) as [Ho Ha]. split; [done |]. intros token Ht.
  assert (Hw : within (access token bytes) (allowed_rights directory root secret)).
  { apply grants_within; [done |]. eapply Forall_impl; [exact Ha |]. intros a [_ Hok] Hk Hf Htok. by apply Hok, Ht. }
  split; [done |]. intros -> -> ->. unfold within in Hw.
  assert (Hbit : forall n, 0 <= n -> Z.testbit (allowed_rights false false true) n = false -> Z.testbit (access token bytes) n = false).
  { intros n Hn Hz. apply (f_equal (fun x => Z.testbit x n)) in Hw. rewrite Z.ldiff_spec, Hz, Z.bits_0 in Hw. by rewrite andb_true_r in Hw. }
  repeat constructor; apply Hbit; done.
Qed.

(** The user's file, with one entry for everyone. *)
Definition demo_user : list Z := [1; 1; 0; 0; 0; 0; 0; 5; 42; 0; 0; 0].
Definition demo_world_sid : list Z := [1; 1; 0; 0; 0; 0; 0; 1; 0; 0; 0; 0].
Definition demo_descriptor (mask : Z) : list Z :=
  [1; 0] ++ to_le 2 32772 ++ to_le 4 20 ++ to_le 4 0 ++ to_le 4 0 ++ to_le 4 32 ++ demo_user
  ++ [2; 0] ++ to_le 2 28 ++ to_le 2 1 ++ [0; 0] ++ [0; 0] ++ to_le 2 20 ++ to_le 4 mask ++ demo_world_sid.

Lemma descriptor_admits_no_stranger_witness :
  descriptor demo_user false false true (demo_descriptor 1179776) = Ok tt /\ descriptor demo_user false false true (demo_descriptor 1) = Err HInsecure
  /\ access (fun s => bool_decide (s = demo_world_sid)) (demo_descriptor 1179776) = 1179776
  /\ within (access (fun s => bool_decide (s = demo_world_sid)) (demo_descriptor 1179776)) (allowed_rights false false true).
Proof.
  assert (descriptor demo_user false false true (demo_descriptor 1179776) = Ok tt) as Hd by (vm_compute; reflexivity).
  split; [exact Hd |]. split; [vm_compute; reflexivity |]. split; [vm_compute; reflexivity |].
  refine (proj1 (proj2 (descriptor_admits_no_stranger demo_user false false true _ (bytes_checked _ _) Hd) _ _)); [vm_compute; reflexivity |].
  intros s Hs. apply bool_decide_eq_true in Hs. rewrite Hs. vm_compute. reflexivity.
Defined.

(** ** The descriptor of a new log *)
Lemma le_value_to_le w n : 0 <= n < 256 ^ Z.of_nat w -> le_value (to_le w n) = n.
Proof. intros Hn. exact (be_value_to_be w n Hn). Qed.
Lemma slice_inside {A} p n (l k : list A) : (p + n <= length l)%nat -> slice p n (l ++ k) = slice p n l.
Proof. intros Hl. unfold slice. rewrite drop_app_le by lia. by rewrite take_app_le by (rewrite length_drop; lia). Qed.

Lemma words_to_le l : Forall is_byte l -> zlen l mod 4 = 0 -> concat (to_le 4 <$> words l) = l.
Proof.
  remember (length l) as n eqn:Hn. revert l Hn. induction n as [n IH] using lt_wf_ind. intros l Hn Hb Hm.
  destruct l as [| a [| b [| c [| d l]]]]; cbn [length] in Hn; subst n; [done | done | done | done |].
  apply Forall_cons in Hb as [Ha Hb]. apply Forall_cons in Hb as [Hb0 Hb]. apply Forall_cons in Hb as [Hc Hb]. apply Forall_cons in Hb as [Hd Hb].
  cbn [words]. rewrite fmap_cons. cbn [concat]. rewrite (IH (length l)); [| lia | done | done |].
  - assert (to_le 4 (le_value [a; b; c; d]) = [a; b; c; d]) as ->; [| done].
    pose proof (to_be_be_value [d; c; b; a] ltac:(by rewrite !Forall_cons)) as Ht. unfold to_be in Ht. cbn [length] in Ht.
    apply (f_equal reverse) in Ht. rewrite reverse_involutive in Ht. exact Ht.
  - replace (Z.of_nat (S (S (S (S (length l)))))) with (zlen l + 1 * 4) in Hm by lia. by rewrite Z_mod_plus_full in Hm.
Qed.

Section log.
Context (user : list Z) (Hb : Forall is_byte user) (Hs : sid user = Ok user).

Lemma user_length : exists k, zlen user = 8 + 4 * k /\ 1 <= k <= 15.
Proof.
  unfold sid in Hs. apply fail_if_ok in Hs as [E Hs']. cbv zeta in Hs'. apply fail_if_ok in Hs' as [Hl%Z.ltb_ge Hs']. injection Hs' as Ht.
  apply orb_false_iff in E as [_ E%negb_false_iff]. unfold in_range in E. apply andb_true_iff in E as [E1%Z.leb_le E2%Z.leb_le].
  exists (default 0 (user !! 1%nat)). apply (f_equal length) in Ht. rewrite length_take in Ht. lia.
Qed.

Definition log_head : list Z := [1; 0] ++ to_le 2 36868 ++ to_le 4 20 ++ repeat 0 8 ++ to_le 4 (20 + zlen user).
Definition log_acl : list Z :=
  [2; 0] ++ to_le 2 (16 + zlen user) ++ [1; 0; 0; 0] ++ [0; 0] ++ to_le 2 (8 + zlen user) ++ to_le 4 FILE_ALL_ACCESS.

Lemma log_bytes_parts : log_bytes user = log_head ++ user ++ log_acl ++ user.
Proof. unfold log_bytes, log_head, log_acl. by rewrite <- !app_assoc. Qed.
Lemma length_log_bytes : zlen (log_bytes user) = 36 + 2 * zlen user.
Proof. rewrite log_bytes_parts, !length_app. change (length log_head) with 20%nat. change (length log_acl) with 16%nat. lia. Qed.

Lemma log_in_head p n : (p + n <= 20)%nat -> slice p n (log_bytes user) = slice p n log_head.
Proof. intros Hp. rewrite log_bytes_parts. by apply slice_inside. Qed.
Lemma log_acl_slice n : n = (16 + length user)%nat -> slice (20 + length user) n (log_bytes user) = log_acl ++ user.
Proof.
  intros ->. rewrite log_bytes_parts, app_assoc. rewrite slice_app_r by (rewrite length_app; change (length log_head) with 20%nat; lia).
  rewrite length_app. change (length log_head) with 20%nat. rewrite Nat.sub_diag. unfold slice. rewrite drop_0. apply take_ge.
  rewrite length_app. change (length log_acl) with 16%nat. lia.
Qed.

Lemma log_acl_size : slice (Z.to_nat (20 + zlen user + 2)) 2 (log_bytes user) = to_le 2 (16 + zlen user).
Proof.
  rewrite log_bytes_parts, app_assoc. rewrite slice_app_r by (rewrite length_app; change (length log_head) with 20%nat; lia).
  rewrite length_app. change (length log_head) with 20%nat. replace (Z.to_nat (20 + zlen user + 2) - (20 + length user))%nat with 2%nat by lia. reflexivity.
Qed.

Lemma u16_at_slice bytes p n : p + 2 <= zlen bytes -> le_value (slice (Z.to_nat p) 2 bytes) = n -> u16_at bytes p = Ok n.
Proof. intros Hl <-. unfold u16_at. by rewrite (proj2 (Z.ltb_ge _ _)) by lia. Qed.
Lemma u32_at_slice bytes p n : p + 4 <= zlen bytes -> le_value (slice (Z.to_nat p) 4 bytes) = n -> u32_at bytes p = Ok n.
Proof. intros Hl <-. unfold u32_at. by rewrite (proj2 (Z.ltb_ge _ _)) by lia. Qed.

Lemma sid_prefix rest : sid (user ++ rest) = Ok user.
Proof.
  pose proof user_length as (k & Hk & Hr). unfold sid in *. apply fail_if_ok in Hs as [E Hs']. cbv zeta in Hs'. apply fail_if_ok in Hs' as [Hl%Z.ltb_ge Hs'].
  injection Hs' as Ht. rewrite !lookup_app_l by lia. apply orb_false_iff in E as [E1 E2]. apply orb_false_iff in E1 as [_ E1].
  rewrite E1, E2, length_app. rewrite (proj2 (Z.ltb_ge _ _)) by lia. cbn [orb]. cbv zeta. rewrite (proj2 (Z.ltb_ge _ _)) by lia.
  f_equal. rewrite take_app_le by lia. exact Ht.
Qed.

Lemma log_ace_slice : slice (Z.to_nat 8) (Z.to_nat (8 + zlen user)) (log_acl ++ user) = slice 8 8 log_acl ++ user.
Proof.
  replace (Z.to_nat (8 + zlen user)) with (8 + length user)%nat by lia. rewrite (slice_cat _ 8). rewrite slice_inside by (change (length log_acl) with 16%nat; lia).
  f_equal. rewrite slice_app_r by (change (length log_acl) with 16%nat; lia). unfold slice. change (Z.to_nat 8 + 8 - length log_acl)%nat with 0%nat.
  rewrite drop_0. by apply take_ge.
Qed.

Lemma log_ace_accepted : check_ace user false false true (log_acl ++ user) 8 = Ok (16 + zlen user).
Proof.
  pose proof user_length as (k & Hk & Hr). assert (Hl : zlen (log_acl ++ user) = 16 + zlen user) by (rewrite length_app; change (length log_acl) with 16%nat; lia).
  unfold check_ace. rewrite (u16_at_slice _ (8 + 2) (8 + zlen user)); [| lia |].
  2: { rewrite slice_inside by (change (length log_acl) with 16%nat; lia). change (slice (Z.to_nat (8 + 2)) 2 log_acl) with (to_le 2 (8 + zlen user)). apply le_value_to_le. lia. }
  cbn [rbind]. rewrite (proj2 (Z.ltb_ge _ _)) by lia. cbv zeta.
  rewrite log_ace_slice.
  change (default 0 ((slice 8 8 log_acl ++ user) !! 0%nat)) with 0. change (default 0 ((slice 8 8 log_acl ++ user) !! 1%nat)) with 0.
  change (drop 8 (slice 8 8 log_acl ++ user)) with user. rewrite Hs. cbn [rbind existsb Z.eqb orb negb].
  rewrite (proj2 (Z.ltb_ge (8 + zlen user) 20)) by lia.
  assert ((8 + zlen user) mod 4 = 0) as -> by (rewrite Hk; replace (8 + (8 + 4 * k)) with (0 + (4 + k) * 4) by lia; by rewrite Z_mod_plus_full).
  change (Z.ldiff 0 31) with 0. cbn [Z.eqb negb orb].
  assert (zlen (slice 8 8 log_acl ++ user) = zlen user + 8) as -> by (rewrite length_app; change (length (slice 8 8 log_acl)) with 8%nat; lia).
  rewrite Z.eqb_refl. cbn [negb]. rewrite (u32_at_slice _ 4 FILE_ALL_ACCESS); [| rewrite length_app; change (length (slice 8 8 log_acl)) with 8%nat; lia |].
  2: { rewrite slice_inside by (change (length (slice 8 8 log_acl)) with 8%nat; lia). reflexivity. }
  cbn [rbind]. change (Z.ldiff (generic FILE_ALL_ACCESS) FILE_ALL_ACCESS) with 0. cbn [Z.eqb negb].
  unfold trusted. rewrite bool_decide_true by done. cbn [orb negb andb Z.eqb]. f_equal. lia.
Qed.

Lemma log_descriptor_accepted : descriptor user false false true (log_bytes user) = Ok tt.
Proof.
  pose proof user_length as (k & Hk & Hr). pose proof length_log_bytes as Hl. unfold descriptor.
  rewrite (proj2 (Z.ltb_ge _ 20)), (proj2 (Z.ltb_ge MAX_DESCRIPTOR _)) by (unfold MAX_DESCRIPTOR; lia).
  assert (take 2 (log_bytes user) = [1; 0]) as -> by reflexivity. cbn [orb negb bool_decide]. rewrite bool_decide_true by done. cbn [negb].
  rewrite (u16_at_slice _ 2 36868); [| lia | by rewrite log_in_head by (cbn; lia)]. cbn [rbind]. change (Z.land 36868 32772 =? 32772) with true. cbn [negb].
  rewrite (u32_at_slice _ 12 0); [| lia | by rewrite log_in_head by (cbn; lia)]. cbn [rbind Z.eqb negb]. rewrite Hs. cbn [rbind].
  rewrite bool_decide_true by done. cbn [negb].
  unfold offset. rewrite (u32_at_slice _ 4 20); [| lia | by rewrite log_in_head by (cbn; lia)]. cbn [rbind].
  rewrite (proj2 (Z.leb_gt _ 20)) by lia. change ((20 <? 20) || negb (20 mod 4 =? 0) || false) with false. cbn iota. cbn [rbind].
  assert (sid (drop (Z.to_nat 20) (log_bytes user)) = Ok user) as ->.
  { rewrite log_bytes_parts. change (drop (Z.to_nat 20) (log_head ++ user ++ log_acl ++ user)) with (user ++ log_acl ++ user). apply sid_prefix. }
  cbn [rbind]. unfold trusted at 1. rewrite bool_decide_true by done. cbn [orb negb].
  assert (Hacl : u32_at (log_bytes user) 16 = Ok (20 + zlen user)).
  { apply u32_at_slice; [lia |]. rewrite log_in_head by (cbn; lia). change (slice (Z.to_nat 16) 4 log_head) with (to_le 4 (20 + zlen user)). apply le_value_to_le. cbn. lia. }
  rewrite Hacl. cbn [rbind]. rewrite (proj2 (Z.ltb_ge _ 20)), (proj2 (Z.leb_gt (zlen (log_bytes user)) _)) by lia.
  assert ((20 + zlen user) mod 4 = 0) as -> by (rewrite Hk; replace (20 + (8 + 4 * k)) with (0 + (7 + k) * 4) by lia; by rewrite Z_mod_plus_full).
  cbn [Z.eqb negb orb rbind].
  rewrite (u16_at_slice _ (20 + zlen user + 2) (16 + zlen user)); [| lia | rewrite log_acl_size; apply le_value_to_le; lia].
  cbn [rbind]. rewrite (proj2 (Z.ltb_ge _ (20 + zlen user + (16 + zlen user)))) by lia. cbv zeta.
  replace (Z.to_nat (20 + zlen user)) with (20 + length user)%nat by lia. rewrite log_acl_slice by lia.
  assert (Hla : zlen (log_acl ++ user) = 16 + zlen user) by (rewrite length_app; change (length log_acl) with 16%nat; lia). rewrite Hla.
  rewrite (proj2 (Z.ltb_ge _ 8)) by lia.
  assert ((16 + zlen user) mod 4 = 0) as -> by (rewrite Hk; replace (16 + (8 + 4 * k)) with (0 + (6 + k) * 4) by lia; by rewrite Z_mod_plus_full).
  change (default 0 ((log_acl ++ user) !! 0%nat)) with 2. change (default 0 ((log_acl ++ user) !! 1%nat)) with 0.
  rewrite slice_inside by (change (length log_acl) with 16%nat; lia). change (slice 6 2 log_acl) with [0; 0]. rewrite bool_decide_true by done.
  cbn [existsb Z.eqb Pos.eqb orb negb]. rewrite (proj2 (Z.ltb_ge _ (20 + zlen user))) by lia. rewrite andb_false_r.
  rewrite (u32_at_slice _ 8 0); [| lia | by rewrite log_in_head by (cbn; lia)]. cbn [rbind Z.eqb].
  rewrite (u16_at_slice _ 4 1); [| lia | by rewrite slice_inside by (change (length log_acl) with 16%nat; lia)]. cbn [rbind].
  change (4096 <? 1) with false. cbn iota. change (Z.to_nat 1) with 1%nat. cbn [check_aces]. by rewrite log_ace_accepted.
Qed.

Lemma log_aces : aces_of (log_bytes user) = [{| a_kind := 0; a_flags := 0; a_mask := FILE_ALL_ACCESS; a_trustee := user |}].
Proof.
  pose proof user_length as (k & Hk & Hr). unfold aces_of.
  assert (acl_of (log_bytes user) = log_acl ++ user) as ->.
  { unfold acl_of, acl_at. rewrite (log_in_head 16 4) by lia. change (slice 16 4 log_head) with (to_le 4 (20 + zlen user)).
    rewrite le_value_to_le by (cbn; lia). rewrite log_acl_size, le_value_to_le by lia. replace (Z.to_nat (20 + zlen user)) with (20 + length user)%nat by lia. apply log_acl_slice. lia. }
  rewrite slice_inside by (change (length log_acl) with 16%nat; lia). change (Z.to_nat (le_value (slice 4 2 log_acl))) with 1%nat. cbn [decode_aces].
  rewrite (slice_inside (Z.to_nat (8 + 2))) by (change (length log_acl) with 16%nat; lia).
  change (slice (Z.to_nat (8 + 2)) 2 log_acl) with (to_le 2 (8 + zlen user)). rewrite le_value_to_le by lia.
  rewrite log_ace_slice.
  rewrite (slice_inside 4 4) by (change (length (slice 8 8 log_acl)) with 8%nat; lia). reflexivity.
Qed.
End log.

Lemma log_bytes_bytes user : Forall is_byte user -> Forall is_byte (log_bytes user).
Proof.
  intros Hb. unfold log_bytes. rewrite !Forall_app. assert (Hle : forall w n, Forall is_byte (to_le w n)).
  { intros w n. rewrite <- (reverse_involutive (to_le w n)). apply Forall_reverse, to_be_bytes. }
  repeat split; try done; try apply Hle; try (by apply bytes_checked; vm_compute).
Qed.

(** A new private log is the user's alone: the descriptor for its creation exists exactly for well-formed user
    identifiers (the policy's own check of it never fails), its double words are its bytes, it is protected against
    inheritance, owned by the user, and grants everything to a token of the user and nothing to any other. *)
Theorem log_descriptor_private user ws :
  Forall is_byte user ->
  log_descriptor user = Ok ws <->
  sid user = Ok user /\ ws = words (log_bytes user) /\ concat (to_le 4 <$> ws) = log_bytes user
  /\ Z.testbit (le_value (slice 2 2 (log_bytes user))) 12 = true
  /\ sid (drop (Z.to_nat (owner_at (log_bytes user))) (log_bytes user)) = Ok user
  /\ forall token, access token (log_bytes user) = if token user then FILE_ALL_ACCESS else 0.
Proof.
  intros Hb. unfold log_descriptor. split.
  - intros Hl. apply rbind_ok in Hl as (s & Hs & Hl). apply fail_if_ok in Hl as [->%negb_false_iff%bool_decide_eq_true Hl].
    cbv zeta in Hl. apply rbind_ok in Hl as (_ & _ & Hl). assert (ws = words (log_bytes user)) as -> by congruence. split; [done |]. split; [done |].
    destruct (user_length user Hs) as (k & Hk & Hr). split.
    { apply words_to_le; [by apply log_bytes_bytes |]. rewrite length_log_bytes, Hk.
      replace (36 + 2 * (8 + 4 * k)) with (0 + (13 + 2 * k) * 4) by lia. by rewrite Z_mod_plus_full. }
    split; [by rewrite (log_in_head user 2 2) by lia |]. split.
    { unfold owner_at. rewrite (log_in_head user 4 4) by lia. change (Z.to_nat (le_value (slice 4 4 (log_head user)))) with 20%nat.
      rewrite log_bytes_parts. change (drop 20 (log_head user ++ user ++ log_acl user ++ user)) with (user ++ log_acl user ++ user). by apply sid_prefix. }
    intros token. unfold access. rewrite log_aces by done. cbn [grants a_flags a_trustee a_kind a_mask]. change (Z.land 0 8 =? 0) with true.
    by destruct (token user).
  - intros (Hs & -> & _). rewrite Hs. cbn [rbind]. rewrite bool_decide_true by done. cbn [negb]. cbv zeta. by rewrite log_descriptor_accepted.
Qed.

Lemma log_descriptor_private_witness :
  log_descriptor demo_user = Ok (words (log_bytes demo_user))
  /\ access (fun s => bool_decide (s = demo_world_sid)) (log_bytes demo_user) = 0
  /\ access (fun s => bool_decide (s = demo_user)) (log_bytes demo_user) = FILE_ALL_ACCESS.
Proof.
  assert (log_descriptor demo_user = Ok (words (log_bytes demo_user))) as Hl by (vm_compute; reflexivity). split; [exact Hl |].
  destruct (proj1 (log_descriptor_private demo_user _ (bytes_checked demo_user eq_refl)) Hl) as (_ & _ & _ & _ & _ & Ha).
  split; [exact (Ha (fun s => bool_decide (s = demo_world_sid))) | exact (Ha (fun s => bool_decide (s = demo_user)))].
Defined.
