(* ===== verification/Runner.v ===== *)
(** * Operations over a command runner

    Both device backends ([crates/backend-ssh/src/lib.rs] over SSH and
    [crates/adapters/src/backend.rs] over a local process) implement the
    port of the runtime by the same four operations over their own private
    [run].  The class says what a runner promises: the operations are defined
    and proved against it, and each backend supplies its instance. *)
From S2P Require Import Prelude Text Json Core Packages Operation Codec Response Device Program Ports.
Open Scope Z_scope.

Section runner.
Context {Call : Type} {Answer : Call -> Type}.

(** [completed command maximum t bytes]: in the calls [t] the command ran to
    completion, without failure, and [bytes] is all it wrote to its output. *)
Class CommandRunner : Type := {
  run : CommandSpec -> Z -> Z -> prog Answer (fate (result RuntimeError (list Z)));
  now : prog Answer Z;
  completed : CommandSpec -> Z -> list (event Answer) -> list Z -> Prop;
  run_completed : forall command maximum deadline t bytes, 0 <= maximum ->
    runs (run command maximum deadline) t (Some (Ready (Ok bytes))) -> completed command maximum t bytes;
  completed_bounded : forall command maximum t bytes, completed command maximum t bytes -> zlen bytes <= maximum
}.

Context `{CommandRunner} (scan : list Z -> syntax * bool).

Definition ready {A} (a : A) : prog Answer (fate A) := Ret (Ready a).

Definition response_error (e : CodecError) : RuntimeError :=
  match e with CodecOutputLimit => RtOutputLimit | _ => RtInvalidOutput end.

Definition started (limits : Limits) : prog Answer Z := do! t := now in Ret (t + timeout_ms limits * NANOS_PER_MS).

Definition backend_execute (action : PreparedAction) (limits : Limits) : prog Answer (fate (result RuntimeError value)) :=
  do~ _ := ready (limits_validate limits) in
  do! deadline := started limits in
  do~ command := ready (map_err (fun _ => BackendFailed) (compile_action action)) in
  do~ stdout := run command (max_output_bytes limits) deadline in
  ready (map_err response_error (parse_action_response scan stdout (max_output_bytes limits))).

Definition backend_probe (object : ReviewedObject) (limits : Limits) : prog Answer (fate (result RuntimeError CapabilityObservation)) :=
  do~ _ := ready (limits_validate limits) in
  do! deadline := started limits in
  let maximum := Z.min (max_output_bytes limits) MAX_PROBE_BYTES in
  do~ stdout := run (compile_probe object) maximum deadline in
  ready (Ok match parse_ubus_describe scan object stdout maximum with
            | Ok observation => observation
            | Err _ => ObservedUnknown Operation.InvalidObservation
            end).

(** The two captures differ in their commands and parsers only. *)
Definition capture (version_command source_command : CommandSpec) (version_bytes : Z)
    (validate_version : list Z -> result CodecError unit) (parse : list Z -> Z -> result CodecError PackageObservation)
    (limits : Limits) : prog Answer (fate (result RuntimeError PackageObservation)) :=
  do~ _ := ready (limits_validate limits) in
  do! deadline := started limits in
  let maximum := Z.min (max_output_bytes limits) MAX_PACKAGE_SOURCE_BYTES in
  do~ version := run version_command (Z.min maximum version_bytes) deadline in
  do~ _ := ready (map_err (fun _ => CapabilityUnsupported) (validate_version version)) in
  do! t := now in
  if deadline <=? t then ready (Err Timeout)
  else
    do~ bytes := run source_command maximum deadline in
    let observed := map_err response_error (parse bytes maximum) in
    do! t := now in
    if deadline <=? t then ready (Err Timeout) else ready observed.

Definition capture_opkg_status : Limits -> prog Answer (fate (result RuntimeError PackageObservation)) :=
  capture opkg_version_command opkg_status_command MAX_OPKG_VERSION_BYTES validate_opkg_version parse_opkg_status.
Definition capture_apk_installed : Limits -> prog Answer (fate (result RuntimeError PackageObservation)) :=
  capture apk_version_command apk_installed_command MAX_APK_VERSION_BYTES validate_apk_version (parse_apk_installed scan).
End runner.
Arguments CommandRunner {Call} Answer.
