(* ===== verification/Session.v ===== *)
(** * One pinned SSH session

    [crates/backend-ssh/src/options.rs] and [session.rs]: the operator's
    endpoint, the shared control cell, the guard that invalidates it, the
    single connection and one command on one channel.  The russh library, the
    sockets and the key source are called; what the library reports to the
    handler is part of the answer. *)
From S2P Require Import Prelude Text Json Core Packages Operation Codec Response Device Program Ports Runner.
Open Scope Z_scope.

Definition MAX_IDENTITY_BYTES : Z := 65536.

(** ** [host.parse::<IpAddr>().is_ok()]

    The parser of [core::net]; only what it leaves unread matters. *)
Fixpoint span_bytes (p : Z -> bool) (l : list Z) : list Z * list Z :=
  match l with
  | b :: t => if p b then let '(d, r) := span_bytes p t in (b :: d, r) else ([], l)
  | [] => ([], [])
  end.

Definition decimal_value (l : list Z) : Z := foldl (fun n b => n * 10 + (b - 48)) 0 l.
(** [read_number(10, Some(3), false)] into a [u8] *)
Definition read_octet (l : list Z) : option (list Z) :=
  let '(digits, rest) := span_bytes is_ascii_digit l in
  if bool_decide (digits = []) || (3 <? zlen digits) || (bool_decide (head digits = Some 48) && (1 <? zlen digits))
     || (255 <? decimal_value digits) then None
  else Some rest.
(** [read_number(16, Some(4), true)] into a [u16] *)
Definition read_hextet (l : list Z) : option (list Z) :=
  let '(digits, rest) := span_bytes is_ascii_hexdigit l in
  if bool_decide (digits = []) || (4 <? zlen digits) then None else Some rest.

Definition given_byte (b : Z) (l : list Z) : option (list Z) :=
  match l with c :: t => if b =? c then Some t else None | [] => None end.
Definition read_separator (b : Z) (index : nat) (read : list Z -> option (list Z)) (l : list Z) : option (list Z) :=
  match index with O => read l | S _ => given_byte b l ≫= read end.

Definition read_ipv4 (l : list Z) : option (list Z) :=
  l ← read_separator 46 0 read_octet l; l ← read_separator 46 1 read_octet l; l ← read_separator 46 2 read_octet l;
  read_separator 46 3 read_octet l.

(** [read_groups], for the groups from [index] on: their number so far,
    whether the last two were an IPv4 address, and the rest. *)
Fixpoint read_groups (slots index : nat) (l : list Z) : nat * bool * list Z :=
  match slots with
  | O => (index, false, l)
  | S slots =>
      match (match slots with O => None | S _ => read_separator 58 index read_ipv4 l end) with
      | Some rest => ((index + 2)%nat, true, rest)
      | None =>
          match read_separator 58 index read_hextet l with
          | Some rest => read_groups slots (S index) rest
          | None => (index, false, l)
          end
      end
  end.

Definition read_ipv6 (l : list Z) : option (list Z) :=
  let '(size, ipv4, rest) := read_groups 8 0 l in
  if (size =? 8)%nat then Some rest
  else if ipv4 then None
  else
    rest ← given_byte 58 rest; rest ← given_byte 58 rest;
    Some (snd (read_groups (8 - (size + 1)) 0 rest)).

Definition ip_addr (l : list Z) : bool :=
  match read_ipv4 l with
  | Some rest => bool_decide (rest = [])
  | None => bool_decide (read_ipv6 l = Some [])
  end.

(** ** The endpoint *)
Record SshOptions : Type := { host : string; port : Z; username : string; host_key_sha256 : string }.

Definition host_label (label : string) : bool :=
  negb (is_empty label) && (slen label <=? 63) && first_byte is_ascii_alphanumeric label
  && bool_decide (is_ascii_alphanumeric <$> last (str_bytes label) = Some true)
  && all_bytes (fun b => is_ascii_alphanumeric b || (b =? 45)) label.
Definition hostname (h : string) : bool :=
  negb (is_empty h) && (slen h <=? 253) && (ip_addr (str_bytes h) || forallb host_label (split_on "." h)).

Section options.
(** [Fingerprint]'s parser followed by its [Display]. *)
Context (fingerprint_text : string -> option string).

Definition options_validate (o : SshOptions) : result RuntimeError unit :=
  fail_if negb (hostname (host o)) || (port o =? 0) || is_empty (username o) || (64 <? slen (username o))
       || negb (all_bytes (fun b => is_ascii_alphanumeric b || byte_in "_.-" b) (username o))
       || negb (starts_with "SHA256:" (host_key_sha256 o)) || negb (slen (host_key_sha256 o) =? 50) with InvalidConfig in
  let? pin := ok_or (fingerprint_text (host_key_sha256 o)) InvalidConfig in
  fail_if negb (String.eqb pin (host_key_sha256 o)) with InvalidConfig in Ok tt.
End options.

(** ** The library's side *)

(** A key as [check_server_key] sees it: is it Ed25519, and its SHA-256 fingerprint. *)
Inductive Presented : Type :=
| PublicKey (ed25519 : bool) (fingerprint : string)
| Certificate.

(** [PinnedHost::check_server_key]; a key that is not accepted sets [rejected]. *)
Definition check_server_key (pin : string) (presented : Presented) : bool :=
  match presented with
  | PublicKey ed25519 fingerprint => ed25519 && String.eqb fingerprint pin
  | Certificate => false
  end.

Record PrivateKey : Type := { is_encrypted : bool; is_ed25519 : bool }.

Inductive ChannelMsg : Type :=
| WindowAdjusted | MsgSuccess | MsgData (data : list Z) | ExtendedData (data : list Z) (ext : Z)
| ExitStatus (code : Z) | MsgEof | MsgClose | OtherMsg.

Definition is_flow_control (m : ChannelMsg) : bool := match m with WindowAdjusted => true | _ => false end.

Inductive SocketStep : Type := Nodelay | IntoStd | TryClone | FromStd.

Inductive SshCall : Type :=
(* [Control]: its two atomics and its socket *)
| LoadFailed | StoreFailed | LoadAuthenticated | StoreAuthenticated (b : bool) | InstallSocket | ShutdownSocket
(* the mutex around [State], and the two options in it *)
| TryState | ReleaseState | TakeIdentity | HasHandle | SetHandle
(* the key source, the network and the library *)
| ReadIdentity (max_bytes : Z) | TcpConnect (host : string) (port : Z) | Socket (step : SocketStep)
| ConnectStream | AuthenticateKey (username : string) | HandleClosed
| OpenSession | ExecCommand (command : string) | SendEof | WaitMessage | CloseChannel
| RequestSubsystem (name : string) | SendData (data : list Z) | WaitBriefly
(* the clock; the flag and the clock that a work budget reads *)
| InstantNow | WorkLoad.

Definition SshAnswer (c : SshCall) : Type :=
  match c with
  | LoadFailed | LoadAuthenticated | TryState | TakeIdentity | HasHandle | HandleClosed => bool
  | StoreFailed | StoreAuthenticated _ | InstallSocket | ShutdownSocket | ReleaseState | SetHandle => unit
  (* [None]: the library's error *)
  | ReadIdentity _ => fate (option (list Z))
  | TcpConnect _ _ | OpenSession | ExecCommand _ | SendEof | CloseChannel | RequestSubsystem _ | SendData _ => fate (option unit)
  | Socket _ => option unit
  (* the keys that the server presented, and whether the session is up *)
  | ConnectStream => fate (list Presented * bool)
  | AuthenticateKey _ => fate (option bool)
  (* [Elapsed]: the deadline, or the 20 ms of a brief wait *)
  | WaitMessage | WaitBriefly => fate (option ChannelMsg)
  | InstantNow => Z
  | WorkLoad => bool * Z
  end.
Notation tunnel := (prog SshAnswer).
Notation ssh_call := (Program.call (Answer := SshAnswer)).

(** ** [Control] *)
Definition control_epoch : tunnel (option Z) :=
  do! failed := ssh_call LoadFailed in
  if failed then Ret None
  else do! authenticated := ssh_call LoadAuthenticated in Ret (if authenticated then Some 1 else None).

Definition control_check : tunnel (result RuntimeError unit) :=
  do! failed := ssh_call LoadFailed in Ret (if failed then Err BackendFailed else Ok tt).

Definition invalidate : tunnel unit :=
  do! _ := ssh_call StoreFailed in
  do! _ := ssh_call (StoreAuthenticated false) in
  ssh_call ShutdownSocket.

(** Dropping a [FailureGuard]. *)
Definition guard_drop (armed : bool) : tunnel unit := if armed then invalidate else Ret tt.

(** ** [State] *)
Section state.
Context (from_openssh : list Z -> option PrivateKey) (options : SshOptions).

Definition connect : tunnel (fate (result RuntimeError unit)) :=
  do! connected := ssh_call HasHandle in
  if connected then
    do! closed := ssh_call HandleClosed in Ret (Ready (if closed then Err BackendFailed else Ok tt))
  else
    do! source := ssh_call TakeIdentity in
    if negb source then Ret (Ready (Err BackendFailed))
    else
      do~ material := or_fail AuthenticationFailed (ssh_call (ReadIdentity MAX_IDENTITY_BYTES)) in
      if MAX_IDENTITY_BYTES <? zlen material then Ret (Ready (Err AuthenticationFailed))
      else
        do~ key := Ret (Ready (ok_or (from_openssh material) AuthenticationFailed)) in
        if is_encrypted key || negb (is_ed25519 key) then Ret (Ready (Err AuthenticationFailed))
        else
          do~ _ := or_fail BackendFailed (ssh_call (TcpConnect (host options) (port options))) in
          do~ _ := now_or_fail BackendFailed (ssh_call (Socket Nodelay)) in
          do~ _ := now_or_fail BackendFailed (ssh_call (Socket IntoStd)) in
          do~ _ := now_or_fail BackendFailed (ssh_call (Socket TryClone)) in
          do! _ := ssh_call InstallSocket in
          do~ _ := now_or_fail BackendFailed (ssh_call (Socket FromStd)) in
          do! connected := ssh_call ConnectStream in
          do~ _ := Ret (fate_map (fun '(presented, up) =>
                     let rejected := negb (forallb (check_server_key (host_key_sha256 options)) presented) in
                     if up : bool then Ok tt else Err (if rejected then HostKeyRejected else BackendFailed)) connected) in
          do~ authenticated := or_fail AuthenticationFailed (ssh_call (AuthenticateKey (username options))) in
          if negb authenticated then Ret (Ready (Err AuthenticationFailed))
          else
            do! _ := ssh_call (StoreAuthenticated true) in
            do! closed := ssh_call HandleClosed in
            if closed then do! _ := invalidate in Ret (Ready (Err BackendFailed))
            else do! _ := ssh_call SetHandle in Ret (Ready (Ok tt)).

(** What has arrived on the channel. *)
Record Received : Type := {
  stdout : list Z; stderr_count : Z; exit_status : option Z; accepted : bool; eof : bool
}.
Definition received_nothing : Received :=
  {| stdout := []; stderr_count := 0; exit_status := None; accepted := false; eof := false |}.

(** One message: the state goes on, or the channel is complete with a status. *)
Definition receive (maximum : Z) (r : Received) (m : ChannelMsg) : result RuntimeError (Received * option Z) :=
  if is_flow_control m then Ok (r, None)
  else
    match m with
    | MsgSuccess =>
        fail_if accepted r with BackendFailed in
        Ok ({| stdout := stdout r; stderr_count := stderr_count r; exit_status := exit_status r; accepted := true; eof := eof r |}, None)
    | MsgData data =>
        fail_if eof r with BackendFailed in
        fail_if maximum - zlen (stdout r) <? zlen data with RtOutputLimit in
        Ok ({| stdout := stdout r ++ data; stderr_count := stderr_count r; exit_status := exit_status r; accepted := accepted r; eof := eof r |}, None)
    | ExtendedData data ext =>
        fail_if negb (ext =? 1) || eof r with BackendFailed in
        fail_if maximum - stderr_count r <? zlen data with RtOutputLimit in
        Ok ({| stdout := stdout r; stderr_count := stderr_count r + zlen data; exit_status := exit_status r; accepted := accepted r; eof := eof r |}, None)
    | ExitStatus code =>
        fail_if bool_decide (is_Some (exit_status r)) with BackendFailed in
        Ok ({| stdout := stdout r; stderr_count := stderr_count r; exit_status := Some code; accepted := accepted r; eof := eof r |}, None)
    | MsgEof =>
        fail_if eof r with BackendFailed in
        Ok ({| stdout := stdout r; stderr_count := stderr_count r; exit_status := exit_status r; accepted := accepted r; eof := true |}, None)
    | MsgClose =>
        fail_if negb (accepted r) with BackendFailed in
        let? status := ok_or (exit_status r) BackendFailed in
        Ok (r, Some status)
    | WindowAdjusted | OtherMsg => Err BackendFailed
    end.

(** The loop of [State::execute].  The fuel is the number of messages that
    can arrive before the deadline cuts the loop short. *)
Fixpoint execute_loop (fuel : nat) (maximum : Z) (r : Received) : tunnel (fate (result RuntimeError (result RuntimeError (list Z)))) :=
  match fuel with
  | O => Ret Elapsed
  | S fuel =>
      do! message := ssh_call WaitMessage in
      match message with
      | Elapsed => Ret Elapsed
      | Dropped => Ret Dropped
      | Ready None => Ret (Ready (Err BackendFailed))
      | Ready (Some message) =>
          match receive maximum r message with
          | Err e => Ret (Ready (Err e))
          | Ok (r, None) => execute_loop fuel maximum r
          | Ok (r, Some status) =>
              do~ _ := or_fail BackendFailed (ssh_call CloseChannel) in
              Ret (Ready (Ok (if negb (status =? 0) then Err BackendFailed else Ok (stdout r))))
          end
      end
  end.

Definition session_execute (fuel : nat) (command : string) (maximum : Z) :
    tunnel (fate (result RuntimeError (result RuntimeError (list Z)))) :=
  do! connected := ssh_call HasHandle in
  if negb connected then Ret (Ready (Err BackendFailed))
  else
    do~ _ := or_fail BackendFailed (ssh_call OpenSession) in
    do~ _ := or_fail BackendFailed (ssh_call (ExecCommand command)) in
    do~ _ := or_fail BackendFailed (ssh_call SendEof) in
    execute_loop fuel maximum received_nothing.
End state.

(** * When a remote command is complete

    The message loop of [State::execute] against a declarative reading of the
    messages: what has to arrive, how often and in which order. *)

(** ** The messages of a channel *)
Definition output_of (m : ChannelMsg) : list Z := match m with MsgData data => data | _ => [] end.
Definition errors_of (m : ChannelMsg) : Z := match m with ExtendedData data _ => zlen data | _ => 0 end.
Definition status_of (m : ChannelMsg) : list Z := match m with ExitStatus code => [code] | _ => [] end.
Definition is_success (m : ChannelMsg) : bool := match m with MsgSuccess => true | _ => false end.
Definition is_eof (m : ChannelMsg) : bool := match m with MsgEof => true | _ => false end.
Definition carries (m : ChannelMsg) : bool := match m with MsgData _ | ExtendedData _ _ | MsgEof => true | _ => false end.
Definition expected_kind (m : ChannelMsg) : bool :=
  match m with ExtendedData _ ext => ext =? 1 | MsgClose | OtherMsg => false | _ => true end.

Definition output (ms : list ChannelMsg) : list Z := concat (output_of <$> ms).
Definition errors (ms : list ChannelMsg) : Z := foldr (fun m n => errors_of m + n) 0 ms.
Definition statuses (ms : list ChannelMsg) : list Z := concat (status_of <$> ms).
Definition successes (ms : list ChannelMsg) : Z := foldr (fun m n => (if is_success m then 1 else 0) + n) 0 ms.

(** [ms] brings a command to its successful end with the output [out]. *)
Record complete (maximum : Z) (ms : list ChannelMsg) (out : list Z) : Prop := {
  complete_kinds : Forall (fun m => expected_kind m = true) ms;
  complete_accepted : successes ms = 1;
  complete_status : statuses ms = [0];
  complete_eof : forall before after, ms = before ++ MsgEof :: after -> Forall (fun m => carries m = false) after;
  complete_output : output ms = out;
  complete_bounded : zlen out <= maximum /\ errors ms <= maximum
}.

(** ** The loop's state after the messages *)
Fixpoint receive_all (maximum : Z) (r : Received) (ms : list ChannelMsg) : result RuntimeError Received :=
  match ms with
  | [] => Ok r
  | m :: ms =>
      match receive maximum r m with
      | Ok (r, None) => receive_all maximum r ms
      | Ok (_, Some _) => Err BackendFailed
      | Err e => Err e
      end
  end.

(** Nothing is carried once the end of the output was announced. *)
Fixpoint quiet_after (ended : bool) (ms : list ChannelMsg) : bool :=
  match ms with
  | [] => true
  | m :: ms => negb (ended && carries m) && quiet_after (ended || is_eof m) ms
  end.

Lemma quiet_ended ms : quiet_after true ms = true <-> Forall (fun m => carries m = false) ms.
Proof.
  induction ms as [| m ms IH]; [done |]. cbn [quiet_after andb orb]. rewrite andb_true_iff, negb_true_iff, Forall_cons, IH. done.
Qed.

Lemma quiet_spec ms :
  quiet_after false ms = true <-> forall before after, ms = before ++ MsgEof :: after -> Forall (fun m => carries m = false) after.
Proof.
  induction ms as [| m ms IH]; [split; [by intros _ [| ? ?] after | done] |]. cbn [quiet_after andb orb negb].
  destruct (is_eof m) eqn:E.
  - destruct m; try discriminate E. rewrite quiet_ended. split.
    + intros Hq [| m' before] after Hm; [by injection Hm as <- |]. injection Hm as <- Hm. rewrite Hm in Hq. apply Forall_app in Hq as [_ Hq].
      by apply Forall_cons in Hq as [_ Hq].
    + intros H. by apply (H []).
  - rewrite IH. split.
    + intros Hq [| m' before] after Hm; [by injection Hm as -> -> |]. injection Hm as <- Hm. by apply (Hq before).
    + intros Hq before after ->. by apply (Hq (m :: before)).
Qed.

Lemma output_cons m ms : output (m :: ms) = output_of m ++ output ms.
Proof. done. Qed.
Lemma errors_cons m ms : errors (m :: ms) = errors_of m + errors ms.
Proof. done. Qed.
Lemma statuses_cons m ms : statuses (m :: ms) = status_of m ++ statuses ms.
Proof. done. Qed.
Lemma successes_cons m ms : successes (m :: ms) = (if is_success m then 1 else 0) + successes ms.
Proof. done. Qed.

Lemma successes_nonneg ms : 0 <= successes ms.
Proof. induction ms as [| m ms IH]; [done |]. rewrite successes_cons. destruct (is_success m); lia. Qed.
Lemma successes_none ms : successes ms = 0 <-> existsb is_success ms = false.
Proof.
  induction ms as [| m ms IH]; [done |]. rewrite successes_cons. cbn [existsb]. pose proof (successes_nonneg ms).
  destruct (is_success m); cbn [orb]; [split; [intros ?; exfalso; lia | done] |]. by rewrite Z.add_0_l.
Qed.
Lemma errors_nonneg ms : 0 <= errors ms.
Proof. induction ms as [| m ms IH]; [done |]. rewrite errors_cons. destruct m; unfold errors_of; lia. Qed.

(** ** One message *)
Definition after_message (r : Received) (m : ChannelMsg) : Received :=
  {| stdout := stdout r ++ output_of m; stderr_count := stderr_count r + errors_of m;
     exit_status := match status_of m with [] => exit_status r | code :: _ => Some code end;
     accepted := accepted r || is_success m; eof := eof r || is_eof m |}.

Definition fine (maximum : Z) (r : Received) (m : ChannelMsg) : Prop :=
  expected_kind m = true /\ accepted r && is_success m = false /\ eof r && carries m = false
  /\ (exit_status r = None \/ status_of m = [])
  /\ zlen (stdout r) + zlen (output_of m) <= maximum /\ stderr_count r + errors_of m <= maximum.

Definition within_limits (maximum : Z) (r : Received) : Prop := zlen (stdout r) <= maximum /\ stderr_count r <= maximum.

Lemma received_eq r r' :
  stdout r = stdout r' -> stderr_count r = stderr_count r' -> exit_status r = exit_status r' -> accepted r = accepted r' ->
  eof r = eof r' -> r = r'.
Proof. destruct r, r'. cbn. by intros -> -> -> -> ->. Qed.

Lemma receive_step maximum r m r' :
  within_limits maximum r -> receive maximum r m = Ok (r', None) <-> fine maximum r m /\ r' = after_message r m.
Proof.
  intros [Ho He]. destruct r as [out errs status acc ended]. unfold fine, after_message. cbn [stdout stderr_count exit_status accepted eof] in *.
  destruct m; unfold receive; cbn [is_flow_control stdout stderr_count exit_status accepted eof expected_kind is_success carries status_of output_of errors_of is_eof].
  all: rewrite ?app_nil_r, ?Z.add_0_r, ?andb_false_r, ?andb_true_r, ?orb_false_r, ?orb_true_r.
  - split; [intros [= <-]; repeat split; try done; cbn; try lia; by right | by intros [_ ->]].
  - destruct acc; [split; [done | by intros [(_ & ? & _) _]] |].
    split; [intros [= <-]; repeat split; try done; cbn; try lia; by right | by intros [_ ->]].
  - destruct ended; [split; [done | by intros [(_ & _ & ? & _) _]] |].
    destruct (Z.ltb_spec (maximum - zlen out) (zlen data)); (split; [| intros [(_ & _ & _ & _ & Hout & _) ->]; try lia; done]); [done |].
    intros [= <-]; repeat split; try done; try lia; by right.
  - destruct (ext =? 1); [| split; [done | by intros [(? & _) _]]]. cbn [negb orb].
    destruct ended; [split; [done | by intros [(_ & _ & ? & _) _]] |].
    destruct (Z.ltb_spec (maximum - errs) (zlen data)); (split; [| intros [(_ & _ & _ & _ & _ & Herr) ->]; try lia; done]); [done |].
    intros [= <-]; repeat split; try done; try lia; by right.
  - destruct status as [code' |]; [rewrite bool_decide_true by done; split; [done | by intros [(_ & _ & _ & [? | ?] & _) _]] |].
    rewrite bool_decide_false by (by intros [? ?]). split; [intros [= <-]; repeat split; try done; cbn; try lia; by left | by intros [_ ->]].
  - destruct ended; [split; [done | by intros [(_ & _ & ? & _) _]] |].
    split; [intros [= <-]; repeat split; try done; cbn; try lia; by right | by intros [_ ->]].
  - split; [| by intros [(? & _) _]]. destruct acc; [| done]. by destruct status.
  - split; [done | by intros [(? & _) _]].
Qed.

Lemma receive_close maximum r m r' code :
  receive maximum r m = Ok (r', Some code) <-> m = MsgClose /\ r' = r /\ accepted r = true /\ exit_status r = Some code.
Proof.
  split.
  - destruct m; unfold receive; cbn [is_flow_control]; intros H; try discriminate H.
    1-5: repeat match type of H with (if ?c then _ else _) = _ => destruct c; [discriminate H |] end; discriminate H.
    apply fail_if_ok in H as [Ha%negb_false_iff H]. apply rbind_ok in H as (status & Hs%ok_or_ok & [= <- <-]). done.
  - intros (-> & -> & Ha & Hs). unfold receive. cbn [is_flow_control]. by rewrite Ha, Hs.
Qed.

(** ** Many messages *)
Definition after_messages (r : Received) (ms : list ChannelMsg) : Received := foldl after_message r ms.

Fixpoint goes_on (maximum : Z) (r : Received) (ms : list ChannelMsg) : Prop :=
  match ms with
  | [] => True
  | m :: ms => fine maximum r m /\ goes_on maximum (after_message r m) ms
  end.

Lemma fine_within maximum r m : fine maximum r m -> within_limits maximum (after_message r m).
Proof. intros (_ & _ & _ & _ & Ho & He). split; cbn [stdout stderr_count after_message]; [rewrite length_app |]; lia. Qed.

(** The first message that the loop does not go on from. *)
Lemma messages_fine maximum r ms :
  within_limits maximum r ->
  goes_on maximum r ms <->
  Forall (fun m => expected_kind m = true) ms /\ (if accepted r then 1 else 0) + successes ms <= 1
  /\ (length (option_list (exit_status r)) + length (statuses ms) <= 1)%nat /\ quiet_after (eof r) ms = true
  /\ zlen (stdout r) + zlen (output ms) <= maximum /\ stderr_count r + errors ms <= maximum.
Proof.
  revert r. induction ms as [| m ms IH]; intros r Hr.
  { destruct Hr as [Ho He]. split; [| done]. intros _. split; [done |]. change (successes []) with 0. change (errors []) with 0.
    change (output []) with (@nil Z). cbn [statuses concat fmap list_fmap length quiet_after].
    split; [destruct (accepted r); lia |]. split; [destruct (exit_status r); cbn; lia |]. split; [done |]. rewrite Z.add_0_r. by rewrite Z.add_0_r. }
  cbn [goes_on]. rewrite output_cons, errors_cons, statuses_cons, successes_cons, Forall_cons, !length_app. cbn [quiet_after].
  pose proof (successes_nonneg ms) as Hs. pose proof (errors_nonneg ms) as He.
  rewrite andb_true_iff, negb_true_iff.
  split.
  - intros [Hf Hg]. apply (IH _ (fine_within _ _ _ Hf)) in Hg as (Hk & Ha & Hst & Hq & Hout & Herr).
    destruct Hf as (Hk1 & Ha1 & Hq1 & Hs1 & Ho1 & He1). cbn [accepted exit_status eof stdout stderr_count after_message] in *.
    rewrite length_app in Hout. repeat split; try done; try lia.
    + destruct (accepted r), (is_success m); cbn [orb andb] in *; try discriminate; lia.
    + destruct Hs1 as [Hs1 | Hs1]; rewrite Hs1 in Hst |- *; [| cbn [length]; lia]. destruct (status_of m) as [| c [| ? ?]] eqn:Em; cbn in *; try lia.
      destruct m; discriminate Em.
  - intros ((Hk1 & Hk) & Ha & Hst & (Hq1 & Hq) & Hout & Herr).
    assert (Hf : fine maximum r m).
    { repeat split; try done; try lia.
      - destruct (accepted r), (is_success m); cbn [andb]; try done. lia.
      - destruct (exit_status r); [right | by left]. destruct (status_of m); [done |]. cbn in Hst. lia. }
    split; [done |]. apply (IH _ (fine_within _ _ _ Hf)). cbn [accepted exit_status eof stdout stderr_count after_message].
    rewrite length_app. repeat split; try done; try lia.
    + destruct (accepted r), (is_success m); cbn [orb]; lia.
    + destruct (status_of m) as [| c [| ? ?]] eqn:Em; cbn in *; lia.
Qed.

Lemma after_stdout r ms : stdout (after_messages r ms) = stdout r ++ output ms.
Proof.
  revert r. induction ms as [| m ms IH]; intros r; [by rewrite app_nil_r |]. cbn [after_messages foldl]. fold (after_messages (after_message r m) ms).
  rewrite IH, output_cons. cbn [stdout after_message]. by rewrite <- app_assoc.
Qed.
Lemma after_accepted r ms : accepted (after_messages r ms) = accepted r || existsb is_success ms.
Proof.
  revert r. induction ms as [| m ms IH]; intros r; [by rewrite orb_false_r |]. cbn [after_messages foldl existsb]. fold (after_messages (after_message r m) ms).
  rewrite IH. cbn [accepted after_message]. by rewrite <- orb_assoc.
Qed.
Lemma after_status maximum r ms :
  goes_on maximum r ms -> option_list (exit_status (after_messages r ms)) = option_list (exit_status r) ++ statuses ms.
Proof.
  revert r. induction ms as [| m ms IH]; intros r; [by rewrite app_nil_r |]. cbn [after_messages foldl goes_on]. fold (after_messages (after_message r m) ms).
  intros [(_ & _ & _ & Hs & _) Hg]. rewrite (IH _ Hg), statuses_cons, app_assoc. f_equal. cbn [exit_status after_message].
  destruct Hs as [Hs | Hs]; rewrite Hs; [by destruct m | by rewrite app_nil_r].
Qed.

(** ** The loop *)
Definition heard (m : ChannelMsg) : event SshAnswer := Event WaitMessage (Ready (Some m)).
Definition closed_channel : event SshAnswer := Event CloseChannel (Ready (Some tt)).

Lemma loop_exact fuel maximum r t out :
  within_limits maximum r ->
  runs (execute_loop fuel maximum r) t (Some (Ready (Ok (Ok out)))) <->
  exists ms, (length ms < fuel)%nat /\ goes_on maximum r ms /\ accepted (after_messages r ms) = true
    /\ exit_status (after_messages r ms) = Some 0 /\ stdout (after_messages r ms) = out
    /\ t = (heard <$> ms) ++ [heard MsgClose; closed_channel].
Proof.
  revert r t. induction fuel as [| fuel IH]; intros r t Hr.
  { split; [intros [_ [=]] | intros (ms & ? & _); lia]. }
  cbn [execute_loop]. split.
  - intros [[_ [=]] | (x & t' & -> & H)]. destruct x as [[m |] | |]; cbn in H; try (by destruct H as [_ [=]]).
    destruct (receive maximum r m) as [[r' [status |]] | e] eqn:Hm; cbn in H; [| | by destruct H as [_ [=]]].
    + apply receive_close in Hm as (-> & -> & Ha & Hs).
      destruct H as [[_ [=]] | (x & t'' & -> & H)]. destruct x as [[[] |] | |]; cbn in H; destruct H as [-> Hout]; try discriminate Hout.
      destruct (Z.eqb_spec status 0) as [Hz | ?]; cbn [negb] in Hout; [| discriminate Hout]. exists []. repeat split; try done; [cbn; lia | cbn; congruence | cbn; congruence].
    + apply (receive_step _ _ _ _ Hr) in Hm as [Hf ->]. apply (IH _ _ (fine_within _ _ _ Hf)) in H as (ms & Hl & Hg & Ha & Hs & Ho & ->).
      exists (m :: ms). refine (conj _ (conj (conj Hf Hg) (conj Ha (conj Hs (conj Ho eq_refl))))). cbn [length]. lia.
  - intros ([| m ms] & Hl & Hg & Ha & Hs & Ho & ->); right.
    + exists (Ready (Some MsgClose)), [closed_channel]. split; [done |].
      cbn in Ha, Hs, Ho |- *. rewrite Ha, Hs. cbn.
      right. exists (Ready (Some tt)), []. split; [done |]. by rewrite <- Ho.
    + destruct Hg as [Hf Hg]. exists (Ready (Some m)), ((heard <$> ms) ++ [heard MsgClose; closed_channel]). split; [done |].
      assert (Hm : receive maximum r m = Ok (after_message r m, None)) by by apply (receive_step _ _ _ _ Hr). cbn. rewrite Hm.
      apply (IH _ _ (fine_within _ _ _ Hf)). exists ms. repeat split; try done. cbn [length] in Hl. lia.
Qed.

Lemma loop_complete fuel maximum t out :
  0 <= maximum ->
  runs (execute_loop fuel maximum received_nothing) t (Some (Ready (Ok (Ok out)))) <->
  exists ms, (length ms < fuel)%nat /\ complete maximum ms out /\ t = (heard <$> ms) ++ [heard MsgClose; closed_channel].
Proof.
  intros Hmax. assert (Hr : within_limits maximum received_nothing) by by split.
  rewrite (loop_exact _ _ _ _ _ Hr). apply exist_proper. intros ms. apply and_iff_compat_l.
  rewrite after_stdout, after_accepted. change (stdout received_nothing) with (@nil Z). cbn [app accepted received_nothing orb].
  pose proof (successes_nonneg ms) as Hn. pose proof (successes_none ms) as Hz. split.
  - intros (Hg & Ha & Hs & Ho & ->). split; [| done]. pose proof (after_status _ _ _ Hg) as Hst. rewrite Hs in Hst.
    apply (messages_fine _ _ _ Hr) in Hg as (Hk & Hacc & _ & Hq & Hout & Herr).
    cbn [accepted received_nothing eof stderr_count stdout exit_status option_list option_rect app length] in *.
    split; try done; [| by apply quiet_spec | subst; lia].
    destruct (decide (successes ms = 0)) as [Hs0 | Hs0]; [| lia]. apply Hz in Hs0. congruence.
  - intros [[Hk Ha Hs Hq Ho [Hb He]] ->].
    assert (Hg : goes_on maximum received_nothing ms).
    { apply (messages_fine _ _ _ Hr). cbn [accepted received_nothing eof stderr_count stdout exit_status option_list option_rect app length].
      rewrite Hs. repeat split; try done; [lia | by apply quiet_spec | subst; cbn [length]; lia]. }
    split; [done |]. split; [apply not_false_iff_true; intros E%Hz; lia |]. split; [| done].
    pose proof (after_status _ _ _ Hg) as Hst. rewrite Hs in Hst. destruct (exit_status (after_messages received_nothing ms)) as [c |]; cbn in Hst; congruence.
Qed.

(** * The SSH backend

    [crates/backend-ssh/src/lib.rs]: one command at a time on the pinned
    session, the guard around everything whose completion is uncertain, and
    the operations of the port.  The deadline shows as an [Elapsed] await. *)

Section remote.
Context (from_openssh : list Z -> option PrivateKey) (options : SshOptions) (messages : nat).

(** [SshBackend::run]; [try_lock] answers whether the mutex was free. *)
Definition ssh_run (command : CommandSpec) (maximum deadline : Z) : tunnel (fate (result RuntimeError (list Z))) :=
  do~ _ := pbind control_check ready in
  do! locked := ssh_call TryState in
  if negb locked then ready (Err Busy)
  else
    do! answer := (
      do~ _ := pbind control_check ready in
      do~ command := ready (map_err (fun _ => BackendFailed) (encode_remote command)) in
      do! outcome := (do~ _ := connect from_openssh options in session_execute messages command maximum) in
      do! _ := guard_drop (match outcome with Ready (Ok _) => false | _ => true end) in
      Ret (match outcome with
           | Ready (Ok completed) => Ready completed
           | Ready (Err e) => Ready (Err e)
           | Elapsed => Ready (Err Timeout)
           | Dropped => Dropped
           end)) in
    do! _ := ssh_call ReleaseState in
    Ret answer.

(** ** The runner *)

(** What a command that ran to its end does on the network. *)
Definition conversation (encoded : string) (ms : list ChannelMsg) : list (event SshAnswer) :=
  [Event OpenSession (Ready (Some tt)); Event (ExecCommand encoded) (Ready (Some tt)); Event SendEof (Ready (Some tt))]
  ++ (heard <$> ms) ++ [heard MsgClose; closed_channel].

Definition ssh_completed (command : CommandSpec) (maximum : Z) (t : list (event SshAnswer)) (bytes : list Z) : Prop :=
  exists encoded ms before after, encode_remote command = Ok encoded /\ complete maximum ms bytes
    /\ t = before ++ conversation encoded ms ++ after.

Lemma session_conversation encoded maximum t bytes :
  0 <= maximum -> runs (session_execute messages encoded maximum) t (Some (Ready (Ok (Ok bytes)))) ->
  exists ms, complete maximum ms bytes /\ t = Event HasHandle true :: conversation encoded ms.
Proof.
  intros Hmax H. unfold session_execute in H. apply runs_one in H as (connected & t1 & -> & H).
  destruct connected; [| by destruct H as [_ [=]]]. cbn [negb] in H.
  apply runs_await in H as (t2 & t3 & [] & -> & H2%runs_or_fail & H). apply runs_await in H as (t4 & t5 & [] & -> & H4%runs_or_fail & H).
  apply runs_await in H as (t6 & t7 & [] & -> & H6%runs_or_fail & H).
  apply (loop_complete _ _ _ _ Hmax) in H as (ms & _ & Hc & ->).
  destruct H2 as [[_ [=]] | (? & ? & -> & -> & [= <-])]. destruct H4 as [[_ [=]] | (? & ? & -> & -> & [= <-])].
  destruct H6 as [[_ [=]] | (? & ? & -> & -> & [= <-])]. by exists ms.
Qed.

Lemma ssh_run_completed command maximum deadline t bytes :
  0 <= maximum -> runs (ssh_run command maximum deadline) t (Some (Ready (Ok bytes))) -> ssh_completed command maximum t bytes.
Proof.
  intros Hmax H. unfold ssh_run in H. apply runs_await in H as (t1 & t2 & [] & -> & _ & H).
  apply runs_one in H as (locked & t3 & -> & H). destruct locked; [| by destruct H as [_ [=]]]. cbn [negb] in H.
  apply runs_then in H as (t4 & t5 & answer & -> & H & Hrel). apply runs_one in Hrel as (? & t6 & -> & Hret). destruct Hret as [-> [= <-]].
  apply runs_await in H as (t7 & t8 & [] & -> & _ & H). apply runs_await in H as (t9 & t10 & encoded & -> & He & H).
  destruct He as [-> [= He]]. destruct (encode_remote command) as [encoded' |] eqn:Henc; [| discriminate He]. injection He as ->.
  apply runs_then in H as (t11 & t12 & outcome & -> & H & Hg). apply runs_then in Hg as (t13 & t14 & ? & -> & _ & Hret). destruct Hret as [-> [= Hret]].
  destruct outcome as [[completed | e] | |]; try discriminate Hret. injection Hret as <-.
  apply runs_await in H as (t15 & t16 & [] & -> & _ & H). apply (session_conversation _ _ _ _ Hmax) in H as (ms & Hc & ->).
  exists encoded', ms, (t1 ++ Event TryState true :: t7 ++ t15 ++ [Event HasHandle true]), (t13 ++ [Event ReleaseState x]).
  split; [done |]. split; [done |]. rewrite app_nil_r. cbn [app]. rewrite <- !app_assoc. cbn [app]. by rewrite <- !app_assoc.
Qed.

Lemma ssh_completed_bounded command maximum t bytes : ssh_completed command maximum t bytes -> zlen bytes <= maximum.
Proof. by intros (encoded & ms & before & after & _ & [_ _ _ _ _ [Hb _]] & _). Qed.

#[export] Instance ssh_runner : CommandRunner SshAnswer := {|
  run := ssh_run; now := ssh_call InstantNow; completed := ssh_completed;
  run_completed := ssh_run_completed; completed_bounded := ssh_completed_bounded
|}.

(** ** The port *)
Context (scan : list Z -> syntax * bool).
Definition ssh_execute : PreparedAction -> Limits -> tunnel (fate (result RuntimeError value)) := backend_execute scan.
Definition ssh_probe : ReviewedObject -> Limits -> tunnel (fate (result RuntimeError CapabilityObservation)) := backend_probe scan.
Definition ssh_capture_opkg_status : Limits -> tunnel (fate (result RuntimeError PackageObservation)) := capture_opkg_status.
Definition ssh_capture_apk_installed : Limits -> tunnel (fate (result RuntimeError PackageObservation)) := capture_apk_installed scan.
(** [Drop for SshBackend] *)
Definition ssh_drop : tunnel unit := invalidate.
(** [capability_epoch] *)
Definition ssh_capability_epoch : tunnel (option Z) := control_epoch.
End remote.

(** [SshBackend::new]: the options are checked before anything else happens. *)
Definition ssh_new (fingerprint_text : string -> option string) (o : SshOptions) : result RuntimeError SshOptions :=
  let? _ := options_validate fingerprint_text o in Ok o.
