(* ===== verification/Local.v ===== *)
(** * The local process backend

    [crates/adapters/src/backend.rs]: a command as a child process with a
    fixed environment, both pipes read while it runs, everything cut off at
    the deadline, and the child killed and reaped on every failure. *)
From S2P Require Import Prelude Text Json Core Packages Operation Codec Response Device Program Ports Runner.
Open Scope Z_scope.

Inductive ChildEvent : Type :=
(* a read of up to 4096 bytes, empty at the end; [None] is an error *)
| OutRead (r : option (list Z)) | ErrRead (r : option (list Z))
(* the child ended, and whether it succeeded *)
| Exited (r : option bool).

Inductive LocalCall : Type :=
| VerifyOpenwrtLocal
| Spawn (command : CommandSpec) (environment : list (string * string))
| TakeStdout | TakeStderr
(* what happens next to one of the three joined futures *)
| NextEvent
| StartKill | Reap | KillOnDrop
| LocalNow.
Definition LocalAnswer (c : LocalCall) : Type :=
  match c with
  | VerifyOpenwrtLocal | Spawn _ _ | TakeStdout | TakeStderr => option unit
  | NextEvent => fate ChildEvent
  | StartKill | KillOnDrop => unit
  (* [None]: the request was dropped meanwhile *)
  | Reap => option unit
  | LocalNow => Z
  end.
Notation process := (prog LocalAnswer).
Notation local_call := (Program.call (Answer := LocalAnswer)).

(** [LocalBackend::new] *)
Definition local_new : process (result RuntimeError unit) :=
  do! verified := local_call VerifyOpenwrtLocal in Ret (ok_or verified UnsupportedTarget).

Definition ENVIRONMENT : list (string * string) := [("PATH", "/usr/sbin:/usr/bin:/sbin:/bin"); ("LANG", "C")]%string.

(** [read_bounded]: one stream. *)
Record Pipe : Type := { p_output : list Z; p_total : Z; p_ended : bool }.
Definition pipe_new : Pipe := {| p_output := []; p_total := 0; p_ended := false |}.

Definition read_bounded (max_bytes : Z) (retain : bool) (r : option (list Z)) (p : Pipe) : result RuntimeError Pipe :=
  let? chunk := ok_or r BackendFailed in
  if bool_decide (chunk = []) then Ok {| p_output := p_output p; p_total := p_total p; p_ended := true |}
  else
    let? total := ok_or (checked_add (p_total p) (zlen chunk)) RtOutputLimit in
    fail_if max_bytes <? total with RtOutputLimit in
    Ok {| p_output := if retain then p_output p ++ chunk else p_output p; p_total := total; p_ended := false |}.

(** The three futures of [try_join!]; one that has ended is not polled again. *)
Record Joined : Type := { j_out : Pipe; j_err : Pipe; j_status : option bool }.
Definition joined_new : Joined := {| j_out := pipe_new; j_err := pipe_new; j_status := None |}.

Definition poll (maximum : Z) (j : Joined) (e : ChildEvent) : result RuntimeError Joined :=
  match e with
  | OutRead r =>
      if p_ended (j_out j) then Ok j
      else let? p := read_bounded maximum true r (j_out j) in Ok {| j_out := p; j_err := j_err j; j_status := j_status j |}
  | ErrRead r =>
      if p_ended (j_err j) then Ok j
      else let? p := read_bounded maximum false r (j_err j) in Ok {| j_out := j_out j; j_err := p; j_status := j_status j |}
  | Exited r =>
      match j_status j with
      | Some _ => Ok j
      | None => let? success := ok_or r BackendFailed in Ok {| j_out := j_out j; j_err := j_err j; j_status := Some success |}
      end
  end.

(** The join under the deadline; the fuel is the number of events before it. *)
Fixpoint join_loop (fuel : nat) (maximum : Z) (j : Joined) : process (fate (result RuntimeError (list Z * bool))) :=
  match p_ended (j_out j), p_ended (j_err j), j_status j with
  | true, true, Some success => Ret (Ready (Ok (p_output (j_out j), success)))
  | _, _, _ =>
      match fuel with
      | O => Ret Elapsed
      | S fuel =>
          do! event := local_call NextEvent in
          match event with
          | Elapsed => Ret Elapsed
          | Dropped => Ret Dropped
          | Ready event =>
              match poll maximum j event with
              | Err e => Ret (Ready (Err e))
              | Ok j => join_loop fuel maximum j
              end
          end
      end
  end.

(** [run] *)
Definition local_run (events : nat) (command : CommandSpec) (maximum deadline : Z) : process (fate (result RuntimeError (list Z))) :=
  do! spawned := local_call (Spawn command ENVIRONMENT) in
  match spawned with
  | None => Ret (Ready (Err BackendFailed))
  | Some _ =>
      do! stdout := local_call TakeStdout in
      do! stderr := (match stdout with None => Ret None | Some _ => local_call TakeStderr end) in
      match stderr with
      | None => do! _ := local_call KillOnDrop in Ret (Ready (Err BackendFailed))
      | Some _ =>
          do! completion := join_loop events maximum joined_new in
          match completion with
          | Ready (Ok (stdout, success)) => Ret (Ready (if negb success then Err BackendFailed else Ok stdout))
          | Dropped => do! _ := local_call KillOnDrop in Ret Dropped
          | failed =>
              do! _ := local_call StartKill in
              do! reaped := local_call Reap in
              match reaped with
              | None => do! _ := local_call KillOnDrop in Ret Dropped
              | Some _ => Ret (Ready (Err (match failed with Ready (Err error) => error | _ => Timeout end)))
              end
          end
      end
  end.

(** [UnconfiguredBackend] *)
Definition unconfigured_execute (action : PreparedAction) (limits : Limits) : result RuntimeError value := Err TargetNotConfigured.
Definition unconfigured_probe (object : ReviewedObject) (limits : Limits) : result RuntimeError CapabilityObservation :=
  let? _ := limits_validate limits in Err TargetNotConfigured.

(** ** What the events must be *)
Definition outs (es : list ChildEvent) : list (list Z) := omap (fun e => match e with OutRead r => r | _ => None end) es.
Definition errs (es : list ChildEvent) : list (list Z) := omap (fun e => match e with ErrRead r => r | _ => None end) es.
Definition exits (es : list ChildEvent) : list bool := omap (fun e => match e with Exited r => r | _ => None end) es.
Fixpoint up_to_end (chunks : list (list Z)) : list Z :=
  match chunks with [] => [] | [] :: _ => [] | chunk :: chunks => chunk ++ up_to_end chunks end.

(** The child wrote [out] and no more to its output, ended both streams and succeeded. *)
Record child_complete (maximum : Z) (es : list ChildEvent) (out : list Z) : Prop := {
  child_out : up_to_end (outs es) = out /\ [] ∈ outs es;
  child_err : [] ∈ errs es /\ zlen (up_to_end (errs es)) <= maximum;
  child_success : head (exits es) = Some true;
  child_bounded : zlen out <= maximum
}.

Definition seen (e : ChildEvent) : event LocalAnswer := Event NextEvent (Ready e).
Definition child_run (command : CommandSpec) (es : list ChildEvent) : list (event LocalAnswer) :=
  [Event (Spawn command ENVIRONMENT) (Some tt); Event TakeStdout (Some tt); Event TakeStderr (Some tt)] ++ (seen <$> es).
Definition local_completed (command : CommandSpec) (maximum : Z) (t : list (event LocalAnswer)) (bytes : list Z) : Prop :=
  exists es, t = child_run command es /\ child_complete maximum es bytes.

(** ** The join *)
Record pipe_reads (maximum : Z) (retain : bool) (p : Pipe) (chunks : list (list Z)) (p' : Pipe) : Prop := {
  pr_output : p_output p' = p_output p ++ (if retain && negb (p_ended p) then up_to_end chunks else []);
  pr_total : p_total p' = p_total p + (if p_ended p then 0 else zlen (up_to_end chunks));
  pr_ended : p_ended p' = true -> p_ended p = true \/ [] ∈ chunks;
  pr_bounded : p_total p <= maximum -> p_total p' <= maximum
}.

Lemma pipe_reads_nil maximum retain p : pipe_reads maximum retain p [] p.
Proof. split; [destruct (retain && negb (p_ended p)); by rewrite app_nil_r | destruct (p_ended p); cbn; lia | by left | done]. Qed.

Lemma pipe_step maximum retain r p p1 chunks p' :
  read_bounded maximum retain r p = Ok p1 -> p_ended p = false -> pipe_reads maximum retain p1 chunks p' ->
  exists chunk, r = Some chunk /\ pipe_reads maximum retain p (chunk :: chunks) p'.
Proof.
  intros Hr He [Ho Ht Hd Hb]. apply rbind_ok in Hr as (chunk & ->%ok_or_ok & Hr). exists chunk. split; [done |]. case_bool_decide as Hc.
  - injection Hr as <-. subst chunk. cbn [p_output p_total p_ended negb] in *. rewrite andb_false_r in Ho.
    split; cbn [up_to_end]; rewrite ?He; [by destruct (retain && negb false) | done | by right; left | done].
  - apply rbind_ok in Hr as (total & Ha%ok_or_ok & Hr). apply fail_if_ok in Hr as [Hl%Z.ltb_ge Hr]. injection Hr as <-.
    cbn [p_output p_total p_ended negb] in *. unfold checked_add in Ha. destruct (p_total p + zlen chunk <=? U64_MAX); [| discriminate Ha]. injection Ha as <-.
    assert (Hu : up_to_end (chunk :: chunks) = chunk ++ up_to_end chunks) by by destruct chunk.
    split; rewrite ?He, ?Hu; [| rewrite Ht, length_app; lia | | lia].
    + rewrite Ho. destruct retain; cbn; [by rewrite <- app_assoc | done].
    + intros [? | Hin]%Hd; [done |]. right. by right.
Qed.

(** The events between two states of the join. *)
Record joins (maximum : Z) (j : Joined) (es : list ChildEvent) (j' : Joined) : Prop := {
  jn_out : pipe_reads maximum true (j_out j) (outs es) (j_out j');
  jn_err : pipe_reads maximum false (j_err j) (errs es) (j_err j');
  jn_status : j_status j' = match j_status j with Some s => Some s | None => head (exits es) end
}.

Lemma pipe_reads_more maximum retain p chunks chunk p' :
  p_ended p = true -> pipe_reads maximum retain p chunks p' -> pipe_reads maximum retain p (chunk :: chunks) p'.
Proof.
  intros He [Ho Ht Hd Hb]. split; rewrite ?He in *; [| done | by left | done]. by rewrite Ho, !andb_false_r.
Qed.

Lemma poll_joins maximum j e j1 es j' : poll maximum j e = Ok j1 -> joins maximum j1 es j' -> joins maximum j (e :: es) j'.
Proof.
  intros Hp [Ho He Hs]. destruct e as [r | r | r]; cbn [poll] in Hp.
  - destruct (p_ended (j_out j)) eqn:Hend.
    + injection Hp as <-. split; [| done | done]. unfold outs. cbn [omap list_omap]. destruct r; [by apply pipe_reads_more | done].
    + apply rbind_ok in Hp as (p & Hr & Hp). injection Hp as <-. cbn [j_out j_err j_status] in *.
      destruct (pipe_step _ _ _ _ _ _ _ Hr Hend Ho) as (chunk & -> & Hpipe). by split.
  - destruct (p_ended (j_err j)) eqn:Hend.
    + injection Hp as <-. split; [done | | done]. unfold errs. cbn [omap list_omap]. destruct r; [by apply pipe_reads_more | done].
    + apply rbind_ok in Hp as (p & Hr & Hp). injection Hp as <-. cbn [j_out j_err j_status] in *.
      destruct (pipe_step _ _ _ _ _ _ _ Hr Hend He) as (chunk & -> & Hpipe). by split.
  - destruct (j_status j) as [s |] eqn:Hst.
    + injection Hp as <-. split; [done | done |]. by rewrite Hs, Hst.
    + apply rbind_ok in Hp as (s & ->%ok_or_ok & Hp). injection Hp as <-. cbn [j_out j_err j_status] in *. split; [done | done |].
      by rewrite Hs, Hst.
Qed.

Lemma join_loop_sound fuel maximum j t out success :
  runs (join_loop fuel maximum j) t (Some (Ready (Ok (out, success)))) ->
  exists es j', t = seen <$> es /\ joins maximum j es j' /\ p_ended (j_out j') = true /\ p_ended (j_err j') = true
    /\ j_status j' = Some success /\ p_output (j_out j') = out.
Proof.
  assert (Hstop : forall j t, p_ended (j_out j) = true -> p_ended (j_err j) = true -> j_status j = Some success ->
    t = [] -> p_output (j_out j) = out -> exists es j', t = seen <$> es /\ joins maximum j es j' /\ p_ended (j_out j') = true
      /\ p_ended (j_err j') = true /\ j_status j' = Some success /\ p_output (j_out j') = out).
  { intros j0 t0 H1 H2 H3 -> H4. exists [], j0. split; [done |]. split; [| done].
    split; [apply pipe_reads_nil | apply pipe_reads_nil | by rewrite H3]. }
  revert j t. induction fuel as [| fuel IH]; intros j t Hr.
  - cbn [join_loop] in Hr. destruct (p_ended (j_out j)) eqn:H1; [| by destruct Hr as [_ [=]]].
    destruct (p_ended (j_err j)) eqn:H2; [| by destruct Hr as [_ [=]]]. destruct (j_status j) as [s |] eqn:H3; [| by destruct Hr as [_ [=]]].
    destruct Hr as [-> [= Hout Hs]]. subst. by eapply Hstop.
  - cbn [join_loop] in Hr.
    assert (Hgo : (exists s, p_ended (j_out j) = true /\ p_ended (j_err j) = true /\ j_status j = Some s /\ t = [] /\ p_output (j_out j) = out /\ s = success)
      \/ exists e j1 t', t = seen e :: t' /\ poll maximum j e = Ok j1 /\ runs (join_loop fuel maximum j1) t' (Some (Ready (Ok (out, success))))).
    { destruct (p_ended (j_out j)) eqn:H1, (p_ended (j_err j)) eqn:H2, (j_status j) as [s |] eqn:H3.
      1: { destruct Hr as [-> [= Hout Hs]]. subst. left. by exists s. }
      all: right; apply runs_one in Hr as (x & t' & -> & Hr); destruct x as [e | |]; [| by destruct Hr as [_ [=]] ..].
      all: destruct (poll maximum j e) as [j1 | err] eqn:Hp; [| by destruct Hr as [_ [=]]]; by exists e, j1, t'. }
    destruct Hgo as [(s & H1 & H2 & H3 & Ht & Ho & ->) | (e & j1 & t' & -> & Hp & Hj)]; [by eapply Hstop |].
    destruct (IH _ _ Hj) as (es & j' & -> & Hjs & Hrest). exists (e :: es), j'. split; [done |]. split; [by eapply poll_joins | done].
Qed.

Section runner.
Context (events : nat).

Lemma local_run_completed command maximum deadline t bytes :
  0 <= maximum -> runs (local_run events command maximum deadline) t (Some (Ready (Ok bytes))) -> local_completed command maximum t bytes.
Proof.
  intros Hm Hr. apply runs_one in Hr as ([[] |] & t1 & -> & Hr); [| by destruct Hr as [_ [=]]].
  apply runs_one in Hr as (x & t2 & -> & Hr). destruct x as [[] |].
  2: { cbn in Hr. destruct Hr as [[_ [=]] | (? & ? & -> & _ & [=])]. }
  apply runs_then in Hr as (t3 & t4 & y & -> & Hy & Hr). destruct Hy as [[_ [=]] | (y' & ? & -> & -> & [= <-])].
  destruct y as [[] |]; [| cbn in Hr; destruct Hr as [[_ [=]] | (? & ? & -> & _ & [=])]].
  apply runs_then in Hr as (t5 & t6 & completion & -> & Hj & Hr).
  destruct completion as [[[out success] | e] | |].
  - destruct Hr as [-> [= Hr]]. destruct success; [| discriminate Hr]. injection Hr as ->.
    apply join_loop_sound in Hj as (es & j' & -> & [Hout Herr Hst] & Eo & Ee & Es & Hb). exists es. split; [by rewrite app_nil_r |].
    destruct Hout as [Ho1 Ho2 Ho3 Ho4], Herr as [He1 He2 He3 He4]. cbn [joined_new j_out j_err j_status pipe_new p_output p_total p_ended negb andb] in *.
    split; [split | split | by rewrite <- Hst |].
    + by rewrite <- Hb, Ho1.
    + by destruct (Ho3 Eo).
    + by destruct (He3 Ee).
    + specialize (He4 Hm). lia.
    + specialize (Ho4 Hm). rewrite <- Hb, Ho1. cbn [app]. lia.
  - apply runs_one in Hr as (? & ? & -> & Hr). apply runs_one in Hr as (z & ? & -> & Hr). destruct z as [? |]; cbn in Hr;
      try (by destruct Hr as [_ [=]]). by destruct Hr as [[_ [=]] | (? & ? & _ & _ & [=])].
  - apply runs_one in Hr as (? & ? & -> & Hr). apply runs_one in Hr as (z & ? & -> & Hr). destruct z as [? |]; cbn in Hr;
      try (by destruct Hr as [_ [=]]). by destruct Hr as [[_ [=]] | (? & ? & _ & _ & [=])].
  - cbn in Hr. by destruct Hr as [[_ [=]] | (? & ? & _ & _ & [=])].
Qed.

Lemma local_completed_bounded command maximum t bytes : local_completed command maximum t bytes -> zlen bytes <= maximum.
Proof. by intros (es & _ & [_ _ _ Hb]). Qed.

#[export] Instance local_runner : CommandRunner LocalAnswer := {|
  run := local_run events; now := local_call LocalNow; completed := local_completed;
  run_completed := local_run_completed; completed_bounded := local_completed_bounded
|}.

(** ** The port *)
Context (scan : list Z -> syntax * bool).
Definition local_execute : PreparedAction -> Limits -> process (fate (result RuntimeError value)) := backend_execute scan.
Definition local_probe : ReviewedObject -> Limits -> process (fate (result RuntimeError CapabilityObservation)) := backend_probe scan.
Definition local_capture_opkg_status : Limits -> process (fate (result RuntimeError PackageObservation)) := capture_opkg_status.
Definition local_capture_apk_installed : Limits -> process (fate (result RuntimeError PackageObservation)) := capture_apk_installed scan.
Definition local_capability_epoch : option Z := Some 1.
End runner.
