(* ===== verification/Answers.v ===== *)
(** * What the backends answer

    The operations of both backends against the promise of their runner, and
    the fate of the child processes of the local one. *)
From S2P Require Import Prelude Text Json Core Packages Operation Codec Response Device Program Ports Runner Session Local.
Open Scope Z_scope.

(** ** Against the interface *)
Section answers.
Context {Call : Type} {Answer : Call -> Type} `{CommandRunner Call Answer} (scan : list Z -> syntax * bool).

(** The calls [t'] happen in [t], in one piece. *)
Definition within (t' t : list (event Answer)) : Prop := exists before after, t = before ++ t' ++ after.

Lemma within_here (t' after : list (event Answer)) : within t' (t' ++ after).
Proof. by exists [], after. Qed.
Lemma within_app (t' t1 t2 : list (event Answer)) : within t' t2 -> within t' (t1 ++ t2).
Proof. intros (before & after & ->). exists (t1 ++ before), after. by rewrite <- app_assoc. Qed.

Lemma ready_runs {A} (a b : A) (t : list (event Answer)) : runs (ready a) t (Some (Ready b)) -> t = [] /\ a = b.
Proof. by intros [-> [= ->]]. Qed.

Lemma limits_give_output limits : limits_validate limits = Ok tt -> 0 < max_output_bytes limits.
Proof.
  intros Hl. apply fail_if_ok in Hl as [Hl _]. apply orb_false_iff in Hl as [[_ Hl]%orb_false_iff _]. apply negb_false_iff in Hl.
  unfold in_range in Hl. apply andb_true_iff in Hl as [Hl _]. apply Z.leb_le in Hl. lia.
Qed.

(** The common opening: limits, then the clock. *)
Lemma opening {A} limits (f : Z -> prog Answer (fate (result RuntimeError A))) t a :
  runs (do~ _ := ready (limits_validate limits) in do! deadline := started limits in f deadline) t (Some (Ready (Ok a))) ->
  exists t1 t2 deadline, t = t1 ++ t2 /\ 0 < max_output_bytes limits /\ runs (f deadline) t2 (Some (Ready (Ok a))).
Proof.
  intros (t1 & t2 & [] & -> & [-> Hl]%ready_runs & Hr)%runs_await. apply runs_then in Hr as (t3 & t4 & deadline & -> & _ & Hr).
  exists t3, t4, deadline. split; [done |]. split; [by apply limits_give_output | done].
Qed.

Lemma execute_answers action limits t v :
  runs (backend_execute scan action limits) t (Some (Ready (Ok v))) ->
  exists command bytes t', compile_action action = Ok command /\ within t' t /\ completed command (max_output_bytes limits) t' bytes
    /\ parse_action_response scan bytes (max_output_bytes limits) = Ok v.
Proof.
  intros (t1 & t2 & deadline & -> & Hpos & Hr)%opening. apply runs_await in Hr as (t3 & t4 & command & -> & [-> Hc]%ready_runs & Hr).
  apply runs_await in Hr as (t5 & t6 & bytes & -> & Hrun & [-> Hp]%ready_runs).
  apply run_completed in Hrun; [| lia]. exists command, bytes, t5.
  destruct (compile_action action); [| discriminate Hc]. injection Hc as ->.
  destruct (parse_action_response scan bytes (max_output_bytes limits)); [| discriminate Hp]. injection Hp as ->.
  split; [done |]. split; [by exists t1, [] | done].
Qed.

Lemma probe_answers object limits t o :
  runs (backend_probe scan object limits) t (Some (Ready (Ok o))) ->
  let maximum := Z.min (max_output_bytes limits) MAX_PROBE_BYTES in
  exists bytes t', within t' t /\ completed (compile_probe object) maximum t' bytes
    /\ (parse_ubus_describe scan object bytes maximum = Ok o
        \/ (is_ok (parse_ubus_describe scan object bytes maximum) = false /\ o = ObservedUnknown Operation.InvalidObservation)).
Proof.
  intros (t1 & t2 & deadline & -> & Hpos & Hr)%opening. apply runs_await in Hr as (t5 & t6 & bytes & -> & Hrun & [-> Hp]%ready_runs).
  apply run_completed in Hrun; [| unfold MAX_PROBE_BYTES; lia]. exists bytes, t5. split; [by exists t1, [] |]. split; [done |].
  destruct (parse_ubus_describe scan object bytes _) eqn:E in Hp; injection Hp as <-; [by left | right; by rewrite E].
Qed.

(** A capture reads the version, accepts it, and reads the source after it. *)
Definition captured (version_command source_command : CommandSpec) (version_bytes : Z)
    (validate_version : list Z -> result CodecError unit) (parse : list Z -> Z -> result CodecError PackageObservation)
    (limits : Limits) (t : list (event Answer)) (o : PackageObservation) : Prop :=
  let maximum := Z.min (max_output_bytes limits) MAX_PACKAGE_SOURCE_BYTES in
  exists version bytes t1 t2 t3 t4 t5, t = t1 ++ t2 ++ t3 ++ t4 ++ t5
    /\ completed version_command (Z.min maximum version_bytes) t2 version /\ validate_version version = Ok tt
    /\ completed source_command maximum t4 bytes /\ parse bytes maximum = Ok o.

Lemma capture_answers a b n v parse limits t o :
  0 <= n -> runs (capture a b n v parse limits) t (Some (Ready (Ok o))) -> captured a b n v parse limits t o.
Proof.
  intros Hn (t1 & t2 & deadline & -> & Hpos & Hr)%opening.
  assert (Hmax : 0 <= Z.min (max_output_bytes limits) MAX_PACKAGE_SOURCE_BYTES) by (unfold MAX_PACKAGE_SOURCE_BYTES; lia).
  apply runs_await in Hr as (t3 & t4 & version & -> & Hrun1 & Hr). apply run_completed in Hrun1; [| lia].
  apply runs_await in Hr as (t5 & t6 & [] & -> & [-> Hv]%ready_runs & Hr). apply runs_then in Hr as (t7 & t8 & now1 & -> & _ & Hr).
  destruct (deadline <=? now1); [by apply ready_runs in Hr as [_ [=]] |].
  apply runs_await in Hr as (t9 & t10 & bytes & -> & Hrun2 & Hr). apply run_completed in Hrun2; [| lia].
  apply runs_then in Hr as (t11 & t12 & now2 & -> & _ & Hr). destruct (deadline <=? now2); [by apply ready_runs in Hr as [_ [=]] |].
  apply ready_runs in Hr as [-> Hp]. exists version, bytes, t1, t3, t7, t9, (t11 ++ []).
  split; [done |]. split; [done |]. split; [by destruct (v version) as [[] |]; [| discriminate Hv] |]. split; [done |].
  destruct (parse bytes _); [by injection Hp as -> | discriminate Hp].
Qed.
End answers.

(** C27: what a device backend answers comes from a command that ran to its end: over any runner that keeps its promise,
    an action answers the parse of the complete output of the compiled action; a probe answers what the complete listing
    of the object describes, or that it could not be understood; and a package capture answers only after the version
    command's complete output was the reviewed one, from the complete output of the source command that ran after it, all
    within the limits. *)
Theorem backend_answers_complete {Call} {Answer : Call -> Type} (R : CommandRunner Answer) scan limits t :
  (forall action v, runs (backend_execute scan action limits) t (Some (Ready (Ok v))) ->
     exists command bytes t', compile_action action = Ok command /\ within t' t
       /\ completed command (max_output_bytes limits) t' bytes /\ zlen bytes <= max_output_bytes limits
       /\ parse_action_response scan bytes (max_output_bytes limits) = Ok v)
  /\ (forall object o, runs (backend_probe scan object limits) t (Some (Ready (Ok o))) ->
     let maximum := Z.min (max_output_bytes limits) MAX_PROBE_BYTES in
     exists bytes t', within t' t /\ completed (compile_probe object) maximum t' bytes
       /\ (parse_ubus_describe scan object bytes maximum = Ok o
           \/ (is_ok (parse_ubus_describe scan object bytes maximum) = false /\ o = ObservedUnknown Operation.InvalidObservation)))
  /\ (forall o, runs (capture_opkg_status limits) t (Some (Ready (Ok o))) ->
     captured opkg_version_command opkg_status_command MAX_OPKG_VERSION_BYTES validate_opkg_version parse_opkg_status limits t o)
  /\ (forall o, runs (capture_apk_installed scan limits) t (Some (Ready (Ok o))) ->
     captured apk_version_command apk_installed_command MAX_APK_VERSION_BYTES validate_apk_version (parse_apk_installed scan) limits t o).
Proof.
  split; [| split; [intros object o; apply probe_answers | split; intros o; by apply capture_answers]].
  intros action v (command & bytes & t' & Hc & Hw & Hd & Hp)%execute_answers. exists command, bytes, t'.
  repeat (split; [done |]). split; [by eapply completed_bounded | done].
Qed.

(** ** The children of the local backend *)
Inductive Child : Type := NoChild | Running | Ended.
Definition child_step (c : Child) (e : event LocalAnswer) : Child :=
  match ev_call e as call return LocalAnswer call -> Child with
  | Spawn _ _ => fun x => match x with Some _ => Running | None => c end
  | NextEvent => fun x => match x with Ready (Exited (Some _)) => Ended | _ => c end
  | Reap => fun x => match x with Some _ => Ended | None => c end
  | KillOnDrop => fun _ => Ended
  | _ => fun _ => c
  end (ev_answer e).
Definition child (t : list (event LocalAnswer)) : Child := foldl child_step NoChild t.
Definition child_may (c : Child) (call : LocalCall) : Prop := match call with Spawn _ _ => c = NoChild | _ => True end.

Lemma poll_status maximum j e j' :
  poll maximum j e = Ok j' -> j_status j' <> None -> j_status j <> None \/ exists b, e = Exited (Some b).
Proof.
  intros Hp Hs. destruct e as [r | r | r]; cbn [poll] in Hp.
  1,2: left; destruct (p_ended _); [by injection Hp as <- | apply rbind_ok in Hp as (p & _ & Hp); by injection Hp as <-].
  destruct (j_status j); [by left |]. apply rbind_ok in Hp as (b & ->%ok_or_ok & _). right. by exists b.
Qed.

(** While the join runs, its child runs or has been reaped; a status is a child reaped. *)
Lemma join_loop_child fuel maximum j c :
  c <> NoChild -> (j_status j <> None -> c = Ended) ->
  wp child_step child_may (join_loop fuel maximum j) c
    (fun r c => c <> NoChild /\ match r with Ready (Ok _) => c = Ended | _ => True end).
Proof.
  revert j c. induction fuel as [| fuel IH]; intros j c Hc Hs; cbn [join_loop].
  all: destruct (p_ended (j_out j)), (p_ended (j_err j)), (j_status j) as [s |] eqn:Hj; try (by split; [done | auto]).
  all: split; [done |]; intros [e | |]; cbn [child_step ev_call ev_answer pbind]; [| done..].
  all: assert (Hc' : match e with Exited (Some _) => Ended | _ => c end <> NoChild) by by destruct e as [? | ? | [?|]].
  all: destruct (poll maximum j e) as [j1 |] eqn:Hp; [| by split]; apply IH; [done |]; intros Hs1.
  all: destruct (poll_status _ _ _ _ Hp Hs1) as [Hs2 | (b & ->)]; [| done]; rewrite Hj in Hs2; try done.
  all: rewrite (Hs ltac:(done)); by destruct e as [? | ? | [?|]].
Qed.

(** Only the first call spawns. *)
Definition first_spawn (command : CommandSpec) (n : nat) (c : LocalCall) : Prop :=
  match c with Spawn c environment => n = 0%nat /\ c = command /\ environment = ENVIRONMENT | _ => True end.
Definition count (n : nat) (_ : event LocalAnswer) : nat := S n.

Lemma join_loop_spawns command fuel maximum j n : wp count (first_spawn command) (join_loop fuel maximum j) n (fun _ _ => True).
Proof.
  revert j n. induction fuel as [| fuel IH]; intros j n; cbn [join_loop].
  all: destruct (p_ended (j_out j)), (p_ended (j_err j)), (j_status j); try done.
  all: split; [done |]; intros [e | |]; cbn [pbind]; [| done..]; by destruct (poll maximum j e).
Qed.

Lemma local_run_spawns events command maximum deadline :
  wp count (first_spawn command) (local_run events command maximum deadline) 0%nat (fun _ _ => True).
Proof.
  apply wp_call; [done |]. intros [[] |]; [| done]. apply wp_call; [done |]. intros [[] |]; [| apply wp_call; [done |]; by intros ?].
  apply wp_call; [done |]. intros [[] |]; [| apply wp_call; [done |]; by intros ?].
  apply wp_seq. eapply wp_mono; [apply join_loop_spawns |]. intros completion n _.
  destruct completion as [[[out success] | e] | |]; [done | | | apply wp_call; [done |]; by intros ?].
  all: apply wp_call; [done |]; intros []; apply wp_call; [done |]; intros [[] |]; try done.
  all: apply wp_call; [done |]; by intros ?.
Qed.

(** C28: the local backend leaves no child behind: on every way out, success, failure, limit, deadline or a dropped
    request, the child it spawned has been reaped or was killed by its drop; it spawns at most one child, by its path,
    with the fixed environment. *)
Theorem local_child_ended events command maximum deadline t r :
  runs (local_run events command maximum deadline) t (Some r) ->
  child t <> Running
  /\ (forall t1 c environment x t2, t = t1 ++ Event (Spawn c environment) x :: t2 -> t1 = [] /\ c = command /\ environment = ENVIRONMENT).
Proof.
  intros Hr.
  assert (Hwp : wp child_step child_may (local_run events command maximum deadline) NoChild (fun _ c => c <> Running)).
  { apply wp_call; [done |]. intros [[] |]; [| done]. cbn [child_step ev_call ev_answer]. apply wp_call; [done |]. intros [[] |].
    2: { apply wp_call; [done |]. by intros ?. }
    apply wp_call; [done |]. intros [[] |]; [| apply wp_call; [done |]; by intros ?]. cbn [child_step ev_call ev_answer].
    apply wp_seq. eapply wp_mono; [by apply join_loop_child |]. intros completion c [Hc Hok].
    destruct completion as [[[out success] | e] | |]; [by subst c | | | apply wp_call; [done |]; by intros ?].
    all: apply wp_call; [done |]; intros []; apply wp_call; [done |]; intros [[] |]; try done.
    all: apply wp_call; [done |]; by intros ?. }
  destruct (wp_sound _ _ _ _ _ _ _ Hwp Hr) as [_ Hpost]. split; [by apply (Hpost r) |].
  intros t1 c environment x t2 Ht. destruct (wp_sound _ _ _ _ _ _ _ (local_run_spawns events command maximum deadline) Hr) as [Hcalls _].
  destruct (Hcalls t1 _ t2 Ht) as (Hn & Hc & He). split; [| done].
  assert (Hlen : forall l n, foldl count n l = (n + length l)%nat).
  { intros l. induction l as [| e l IH]; intros n; cbn [foldl length]; [lia |]. rewrite IH. unfold count. lia. }
  rewrite Hlen in Hn. by destruct t1.
Qed.

(** ** A command that answers *)
Definition demo_events : list ChildEvent := [OutRead (Some [110; 117]); ErrRead (Some []); OutRead (Some [108; 108; 10]); Exited (Some true); OutRead (Some [])].
Definition demo_local (n : nat) (c : LocalCall) : LocalAnswer c :=
  match c return LocalAnswer c with
  | VerifyOpenwrtLocal | Spawn _ _ | TakeStdout | TakeStderr => Some tt
  | NextEvent => match demo_events !! (n - 4)%nat with Some e => Ready e | None => Dropped end
  | StartKill | KillOnDrop => tt
  | Reap => Some tt
  | LocalNow => 0
  end.
Definition demo_scan (bytes : list Z) : syntax * bool := (SNull, true).
Definition demo_action : PreparedAction := PreparedUbus "system" "board" (VObj []).
Definition demo_run : list (event LocalAnswer) * fate (result RuntimeError value) :=
  replay demo_local 0 (local_execute 10 demo_scan demo_action Limits_default).

Lemma backend_answers_complete_witness :
  snd demo_run = Ready (Ok VNull)
  /\ exists command bytes t', compile_action demo_action = Ok command /\ within t' (fst demo_run)
       /\ local_completed command 65536 t' bytes /\ zlen bytes <= 65536 /\ parse_action_response demo_scan bytes 65536 = Ok VNull.
Proof.
  split; [vm_compute; reflexivity |].
  apply (proj1 (backend_answers_complete (local_runner 10) demo_scan Limits_default (fst demo_run)) demo_action VNull).
  replace (Ready (Ok VNull)) with (snd demo_run) by (vm_compute; reflexivity). exact (replay_runs demo_local 0 _).
Defined.

Definition demo_child : list (event LocalAnswer) * fate (result RuntimeError (list Z)) :=
  replay (fun n => demo_local (S n)) 0 (local_run 10 apk_version_command 4 0).

Lemma local_child_ended_witness :
  snd demo_child = Ready (Err RtOutputLimit) /\ child (fst demo_child) <> Running.
Proof.
  split; [vm_compute; reflexivity |].
  exact (proj1 (local_child_ended 10 apk_version_command 4 0 (fst demo_child) (snd demo_child) (replay_runs _ 0 _))).
Defined.
