(* ===== verification/Capture.v ===== *)
(** * Capturing an archive over SSH

    [crates/backend-ssh/src/transactions/mod.rs]: the fixed subsystem on the
    connection that is already authenticated, and the binary stream that
    starts with the binding it answers. *)
From S2P Require Import Prelude Text Program Ports Backups Session.
Open Scope Z_scope.

(** [new_for_capture], over the target of an [SshBackend]. *)
Definition new_for_capture (fingerprint_text : string -> option string) (o : SshOptions) (target : list Z) :
    result RuntimeError (list Z) :=
  fail_if bool_decide (target = zero_id) with BackendFailed in
  let? _ := options_validate fingerprint_text o in Ok target.

Definition budget_check (deadline : Z) : tunnel (result BackupError unit) :=
  do! b := ssh_call WorkLoad in Ret (map_err backup_error (work_check deadline (fst b) (snd b))).
Definition budget (deadline : Z) : tunnel (fate (result BackupError unit)) := do! r := budget_check deadline in Ret (Ready r).

(** [timeout_at(deadline, ..).await.map_err(Deadline)?.map_err(Unavailable)?] *)
Definition by_deadline {A} (p : tunnel (fate (result BackupError A))) : tunnel (fate (result BackupError A)) :=
  do! r := p in Ret (match r with Elapsed => Ready (Err Deadline) | _ => r end).

(** [State::capture_channel] *)
Definition capture_channel : tunnel (fate (result BackupError unit)) :=
  do! connected := ssh_call HasHandle in
  if negb connected then Ret (Ready (Err Unavailable)) else or_fail Unavailable (ssh_call OpenSession).

Record Captured : Type := {
  cap_prefix : list Z; cap_bytes : list Z; cap_accepted : bool; cap_eof : bool; cap_status : option Z; cap_stderr : Z
}.
Definition captured_nothing : Captured :=
  {| cap_prefix := []; cap_bytes := []; cap_accepted := false; cap_eof := false; cap_status := None; cap_stderr := 0 |}.

Section capture.
Context (target : option (list Z)) (binding : ArtifactBinding) (deadline : Z).

Definition maximum : Z := b_source_bytes binding + Z.of_nat BINDING_BYTES.

(** One message; [true] says that the stream is complete. *)
Definition capture_message (c : Captured) (m : ChannelMsg) : result BackupError (Captured * bool) :=
  match m with
  | WindowAdjusted => Ok (c, false)
  | MsgSuccess =>
      fail_if cap_accepted c with Integrity in
      Ok ({| cap_prefix := cap_prefix c; cap_bytes := cap_bytes c; cap_accepted := true; cap_eof := cap_eof c;
             cap_status := cap_status c; cap_stderr := cap_stderr c |}, false)
  | MsgData data =>
      fail_if negb (cap_accepted c) || cap_eof c with Integrity in
      fail_if (65536 <? zlen data) || (maximum - zlen (cap_prefix c) - zlen (cap_bytes c) <? zlen data) with Limit in
      let count := Nat.min (BINDING_BYTES - length (cap_prefix c)) (length data) in
      let prefix := cap_prefix c ++ take count data in
      fail_if (length prefix =? BINDING_BYTES)%nat && negb (bool_decide (prefix = encoded binding)) with Integrity in
      Ok ({| cap_prefix := prefix; cap_bytes := cap_bytes c ++ drop count data; cap_accepted := cap_accepted c; cap_eof := cap_eof c;
             cap_status := cap_status c; cap_stderr := cap_stderr c |}, false)
  | ExtendedData data ext =>
      fail_if negb (ext =? 1) || negb (cap_accepted c) || cap_eof c with Integrity in
      fail_if 16384 - cap_stderr c <? zlen data with Limit in
      Ok ({| cap_prefix := cap_prefix c; cap_bytes := cap_bytes c; cap_accepted := cap_accepted c; cap_eof := cap_eof c;
             cap_status := cap_status c; cap_stderr := cap_stderr c + zlen data |}, false)
  | ExitStatus code =>
      fail_if bool_decide (is_Some (cap_status c)) with Integrity in
      Ok ({| cap_prefix := cap_prefix c; cap_bytes := cap_bytes c; cap_accepted := cap_accepted c; cap_eof := cap_eof c;
             cap_status := Some code; cap_stderr := cap_stderr c |}, false)
  | MsgEof =>
      fail_if negb (cap_accepted c) || cap_eof c with Integrity in
      Ok ({| cap_prefix := cap_prefix c; cap_bytes := cap_bytes c; cap_accepted := cap_accepted c; cap_eof := true;
             cap_status := cap_status c; cap_stderr := cap_stderr c |}, false)
  | MsgClose =>
      fail_if negb (cap_accepted c && cap_eof c && bool_decide (cap_status c = Some 0)
                    && (zlen (cap_prefix c) + zlen (cap_bytes c) =? maximum)) with Integrity in
      Ok (c, true)
  | OtherMsg => Err Integrity
  end.

(** The loop; its fuel is the number of rounds that the budget allows. *)
Fixpoint capture_loop (fuel : nat) (c : Captured) : tunnel (fate (result BackupError CapturedArchive)) :=
  match fuel with
  | O => Ret (Ready (Err Deadline))
  | S fuel =>
      do~ _ := budget deadline in
      do! message := ssh_call WaitBriefly in
      match message with
      | Dropped => Ret Dropped
      | Ready None => Ret (Ready (Err Unavailable))
      | Elapsed => capture_loop fuel c
      | Ready (Some message) =>
          do~ _ := budget deadline in
          match capture_message c message with
          | Err e => Ret (Ready (Err e))
          | Ok (c, false) => capture_loop fuel c
          | Ok (c, true) =>
              do~ _ := by_deadline (or_fail Unavailable (ssh_call CloseChannel)) in
              do~ _ := budget deadline in
              Ret (Ready (captured_completed binding (cap_bytes c) (zlen (cap_bytes c))))
          end
      end
  end.

(** What the guard of [capture_archive] protects. *)
Definition capture_stream (fuel : nat) : tunnel (fate (result BackupError CapturedArchive)) :=
  do~ _ := by_deadline capture_channel in
  do~ _ := by_deadline (
    do~ _ := or_fail Unavailable (ssh_call (RequestSubsystem "openwrt-mcp-capture-v1")) in
    do~ _ := or_fail Unavailable (ssh_call (SendData (encoded binding))) in
    or_fail Unavailable (ssh_call SendEof)) in
  if MAX_PLAINTEXT + Z.of_nat BINDING_BYTES <? maximum then Ret (Ready (Err Limit))
  else capture_loop fuel captured_nothing.

Definition capture_archive (fuel : nat) : tunnel (fate (result BackupError CapturedArchive)) :=
  do~ _ := budget deadline in
  if negb (bool_decide (target = Some (b_target binding))) then Ret (Ready (Err Invalid))
  else
    do! epoch := control_epoch in
    if bool_decide (epoch = None) then Ret (Ready (Err Invalid))
    else
      do! locked := ssh_call TryState in
      if negb locked then Ret (Ready (Err Backups.Busy))
      else
        do! answer := (
          do! failed := ssh_call LoadFailed in
          if failed then Ret (Ready (Err Unavailable))
          else
            do! outcome := capture_stream fuel in
            do! _ := guard_drop (match outcome with Ready (Ok _) => false | _ => true end) in
            Ret outcome) in
        do! _ := ssh_call ReleaseState in
        Ret answer.
End capture.

(** * What a capture over SSH proves

    The message loop of [capture_archive]: a capture that succeeds is the
    complete answer of the fixed subsystem to the binding it was sent. *)

Section streamed.
Context (binding : ArtifactBinding).

(** What the loop knows after the messages [ms]. *)
Record caught (c : Captured) (ms : list ChannelMsg) : Prop := {
  ct_kinds : Forall (fun m => expected_kind m = true) ms;
  ct_output : cap_prefix c ++ cap_bytes c = output ms;
  ct_split : (length (cap_prefix c) < BINDING_BYTES)%nat /\ cap_bytes c = []
             \/ length (cap_prefix c) = BINDING_BYTES /\ cap_prefix c = encoded binding;
  ct_accepted : successes ms = if cap_accepted c then 1 else 0;
  ct_first : forall before m after, ms = before ++ m :: after -> carries m = true -> successes before = 1;
  ct_status : statuses ms = option_list (cap_status c);
  ct_eof : if cap_eof c then exists before after, ms = before ++ MsgEof :: after /\ Forall (fun m => carries m = false) after
           else Forall (fun m => is_eof m = false) ms;
  ct_errors : errors ms = cap_stderr c;
  ct_bounded : errors ms <= 16384
}.

Lemma caught_nothing : caught captured_nothing [].
Proof.
  split; try done; try (by intros []).
  - left. split; [by apply Nat.ltb_lt | done].
  - constructor.
Qed.
Lemma output_snoc ms m : output (ms ++ [m]) = output ms ++ output_of m.
Proof. unfold output. rewrite fmap_app, concat_app. cbn. by rewrite app_nil_r. Qed.
Lemma statuses_snoc ms m : statuses (ms ++ [m]) = statuses ms ++ status_of m.
Proof. unfold statuses. rewrite fmap_app, concat_app. cbn. by rewrite app_nil_r. Qed.
Lemma successes_snoc ms m : successes (ms ++ [m]) = successes ms + (if is_success m then 1 else 0).
Proof. induction ms as [| m' ms IH]; [cbn [app]; rewrite successes_cons; change (successes []) with 0; lia |]. cbn [app]. rewrite !successes_cons, IH. lia. Qed.
Lemma errors_snoc ms m : errors (ms ++ [m]) = errors ms + errors_of m.
Proof. induction ms as [| m' ms IH]; [cbn [app]; rewrite errors_cons; change (errors []) with 0; lia |]. cbn [app]. rewrite !errors_cons, IH. lia. Qed.

Lemma first_snoc ms m :
  (forall before m' after, ms = before ++ m' :: after -> carries m' = true -> successes before = 1) ->
  (carries m = true -> successes ms = 1) ->
  forall before m' after, ms ++ [m] = before ++ m' :: after -> carries m' = true -> successes before = 1.
Proof.
  intros Hf Hm before m' after Heq Hc. destruct (decide (after = [])) as [-> | Hn].
  - apply app_inj_tail in Heq as [-> ->]. by apply Hm.
  - destruct (exists_last Hn) as (after' & m2 & ->). rewrite app_comm_cons, app_assoc in Heq. apply app_inj_tail in Heq as [-> _]. by eapply Hf.
Qed.

Lemma eof_snoc (e : bool) ms m :
  (if e then exists before after, ms = before ++ MsgEof :: after /\ Forall (fun m => carries m = false) after
   else Forall (fun m => is_eof m = false) ms) -> carries m = false ->
  if e then exists before after, ms ++ [m] = before ++ MsgEof :: after /\ Forall (fun m => carries m = false) after
   else Forall (fun m => is_eof m = false) (ms ++ [m]).
Proof.
  intros He Hm. destruct e.
  - destruct He as (before & after & -> & Ha). exists before, (after ++ [m]). split; [by rewrite <- app_assoc |]. apply Forall_app. by split; [| apply Forall_singleton].
  - apply Forall_app. split; [done |]. apply Forall_singleton. by destruct m.
Qed.

(** The fields that a message leaves alone, one by one. *)
Ltac snoc :=
  split; rewrite ?output_snoc, ?successes_snoc, ?statuses_snoc, ?errors_snoc;
  cbn [cap_prefix cap_bytes cap_accepted cap_eof cap_status cap_stderr output_of status_of is_success errors_of];
  rewrite ?app_nil_r, ?Z.add_0_r; try done; try (by apply first_snoc); try (by apply eof_snoc);
  try (apply Forall_app; by split; [| apply Forall_singleton]).

Lemma prefix_split (prefix bytes data : list Z) :
  ((length prefix < BINDING_BYTES)%nat /\ bytes = []) \/ (length prefix = BINDING_BYTES /\ prefix = encoded binding) ->
  let count := Nat.min (BINDING_BYTES - length prefix) (length data) in
  (length (prefix ++ take count data) =? BINDING_BYTES)%nat && negb (bool_decide (prefix ++ take count data = encoded binding)) = false ->
  (prefix ++ take count data) ++ bytes ++ drop count data = (prefix ++ bytes) ++ data
  /\ (((length (prefix ++ take count data) < BINDING_BYTES)%nat /\ bytes ++ drop count data = [])
      \/ (length (prefix ++ take count data) = BINDING_BYTES /\ prefix ++ take count data = encoded binding)).
Proof.
  intros Hsp count Hp. unfold count in *. clear count. destruct Hsp as [[Hlt ->] | [Hfull He]].
  - rewrite app_nil_r. cbn [app]. split; [by rewrite <- app_assoc, take_drop |]. rewrite length_app, length_take in Hp |- *.
    destruct (Nat.eqb_spec (length prefix + (Nat.min (BINDING_BYTES - length prefix) (length data) `min` length data)) BINDING_BYTES) as [E | E].
    + right. split; [done |]. cbn [andb] in Hp. by apply negb_false_iff, bool_decide_eq_true in Hp.
    + left. split; [lia |]. apply drop_ge. lia.
  - rewrite Hfull, Nat.sub_diag. cbn [Nat.min take drop]. rewrite app_nil_r. split; [by rewrite app_assoc | by right].
Qed.

Lemma caught_step c ms m c' : caught c ms -> capture_message binding c m = Ok (c', false) -> caught c' (ms ++ [m]).
Proof.
  intros [Hk Ho Hsp Ha Hf Hs He Her Hb] Hm. destruct m; cbn [capture_message] in Hm.
  - injection Hm as <-. by snoc.
  - apply fail_if_ok in Hm as [Hacc Hm]. injection Hm as <-. snoc. by rewrite Ha, Hacc.
  - apply fail_if_ok in Hm as [[Hacc%negb_false_iff Hend]%orb_false_iff Hm]. apply fail_if_ok in Hm as [[Hl1%Z.ltb_ge Hl2%Z.ltb_ge]%orb_false_iff Hm].
    cbv zeta in Hm. apply fail_if_ok in Hm as [Hpre Hm]. injection Hm as <-.
    destruct (prefix_split _ _ data Hsp Hpre) as [Hjoin Hsplit]. snoc.
    + by rewrite Hjoin, Ho.
    + apply first_snoc; [done |]. intros _. by rewrite Ha, Hacc.
    + rewrite Hend in He |- *. apply Forall_app. by split; [| apply Forall_singleton].
  - apply fail_if_ok in Hm as [[[Hext%negb_false_iff Hacc%negb_false_iff]%orb_false_iff Hend]%orb_false_iff Hm].
    apply fail_if_ok in Hm as [Hl%Z.ltb_ge Hm]. injection Hm as <-. snoc.
    + apply first_snoc; [done |]. intros _. by rewrite Ha, Hacc.
    + rewrite Hend in He |- *. apply Forall_app. by split; [| apply Forall_singleton].
    + by rewrite Her.
    + rewrite Her. lia.
  - apply fail_if_ok in Hm as [Hst%bool_decide_eq_false Hm]. injection Hm as <-. snoc.
    rewrite Hs. destruct (cap_status c) eqn:E; [by destruct Hst | done].
  - apply fail_if_ok in Hm as [[Hacc%negb_false_iff Hend]%orb_false_iff Hm]. injection Hm as <-. snoc.
    + apply first_snoc; [done |]. intros _. by rewrite Ha, Hacc.
    + by exists ms, [].
  - apply fail_if_ok in Hm as [_ Hm]. discriminate Hm.
  - done.
Qed.

(** ** The loop *)
Definition streamed_message (e : event SshAnswer) : option ChannelMsg :=
  match ev_call e as c return SshAnswer c -> option ChannelMsg with
  | WaitBriefly => fun x => match x with Ready (Some m) => Some m | _ => None end
  | _ => fun _ => None
  end (ev_answer e).
Definition messages (t : list (event SshAnswer)) : list ChannelMsg := omap streamed_message t.

Lemma messages_app t1 t2 : messages (t1 ++ t2) = messages t1 ++ messages t2.
Proof. apply omap_app. Qed.

Lemma budget_runs deadline t : runs (budget deadline) t (Some (Ready (Ok tt))) -> messages t = [].
Proof.
  intros (t1 & t2 & r & -> & H1 & H2)%runs_then. destruct H2 as [-> _]. apply runs_one in H1 as (x & t' & -> & Hr).
  by destruct Hr as [-> _].
Qed.

Lemma close_step c m c' : capture_message binding c m = Ok (c', true) ->
  m = MsgClose /\ c' = c /\ cap_accepted c = true /\ cap_eof c = true /\ cap_status c = Some 0
  /\ zlen (cap_prefix c) + zlen (cap_bytes c) = maximum binding.
Proof.
  intros Hm. destruct m; cbn [capture_message] in Hm; try (by repeat (apply fail_if_ok in Hm as [_ Hm]); discriminate Hm).
  apply fail_if_ok in Hm as [Hc%negb_false_iff Hm]. injection Hm as <-.
  apply andb_true_iff in Hc as [[[Ha He]%andb_true_iff Hs%bool_decide_eq_true]%andb_true_iff Hl%Z.eqb_eq]. done.
Qed.

Lemma loop_streamed deadline fuel c t a ms :
  caught c ms -> runs (capture_loop binding deadline fuel c) t (Some (Ready (Ok a))) ->
  exists ms' c', messages t = ms' ++ [MsgClose] /\ caught c' (ms ++ ms') /\ cap_accepted c' = true /\ cap_eof c' = true
    /\ cap_status c' = Some 0 /\ zlen (cap_prefix c') + zlen (cap_bytes c') = maximum binding
    /\ captured_completed binding (cap_bytes c') (zlen (cap_bytes c')) = Ok a.
Proof.
  revert c t ms. induction fuel as [| fuel IH]; intros c t ms Hc Hr; [by destruct Hr as [_ [=]] |]. cbn [capture_loop] in Hr.
  apply runs_await in Hr as (t1 & t2 & [] & -> & Hb1%budget_runs & Hr). apply runs_one in Hr as (x & t3 & -> & Hr). rewrite messages_app, Hb1.
  destruct x as [[m |] | |]; try (by destruct Hr as [_ [=]]); [| by apply (IH _ _ _ Hc) in Hr].
  apply runs_await in Hr as (t4 & t5 & [] & -> & Hb2%budget_runs & Hr).
  change (messages (Event WaitBriefly (Ready (Some m)) :: t4 ++ t5)) with (m :: messages (t4 ++ t5)). rewrite messages_app, Hb2.
  destruct (capture_message binding c m) as [[c1 []] | e] eqn:Hm; [| | by destruct Hr as [_ [=]]].
  - apply close_step in Hm as (-> & -> & Ha & He & Hs & Hl).
    apply runs_await in Hr as (t6 & t7 & [] & -> & Hclose & Hr). apply runs_await in Hr as (t8 & t9 & [] & -> & Hb3%budget_runs & Hr).
    destruct Hr as [-> [= Hr]]. exists [], c. rewrite !app_nil_r, messages_app, Hb3, !app_nil_r. cbn [app].
    apply runs_then in Hclose as (t10 & t11 & r & -> & Hclose & [-> [= Hr']]). rewrite app_nil_r.
    apply runs_then in Hclose as (t12 & t13 & r' & -> & Hclose & [-> [= Hr'']]). rewrite app_nil_r.
    destruct Hclose as [[_ [=]] | (y & t14 & -> & -> & _)]. done.
  - destruct (IH c1 t5 (ms ++ [m]) (caught_step _ _ _ _ Hc Hm) Hr) as (ms' & c' & Hms & Hc' & Hrest). exists (m :: ms'), c'.
    rewrite Hms. split; [done |]. by rewrite <- app_assoc in Hc'.
Qed.
End streamed.

Definition subsystem_opened (binding : ArtifactBinding) : list (event SshAnswer) :=
  [Event OpenSession (Ready (Some tt)); Event (RequestSubsystem "openwrt-mcp-capture-v1") (Ready (Some tt));
   Event (SendData (encoded binding)) (Ready (Some tt)); Event SendEof (Ready (Some tt))].

Lemma by_deadline_runs {A} (p : tunnel (fate (result BackupError A))) t a :
  runs (by_deadline p) t (Some (Ready (Ok a))) -> runs p t (Some (Ready (Ok a))).
Proof.
  intros (t1 & t2 & r & -> & Hp & [-> [= Hr]])%runs_then. rewrite app_nil_r. destruct r as [? | |]; [by rewrite Hr | discriminate Hr..].
Qed.
Lemma stream_runs binding deadline fuel t a :
  runs (capture_stream binding deadline fuel) t (Some (Ready (Ok a))) ->
  exists t', t = Event HasHandle true :: subsystem_opened binding ++ t' /\ runs (capture_loop binding deadline fuel captured_nothing) t' (Some (Ready (Ok a))).
Proof.
  intros (t1 & t2 & [] & -> & Hopen%by_deadline_runs & Hr)%runs_await. apply runs_await in Hr as (t3 & t4 & [] & -> & Hsub%by_deadline_runs & Hr).
  apply runs_one in Hopen as (connected & t5 & -> & Hopen). destruct connected; [| by destruct Hopen as [_ [=]]]. apply runs_or_fail in Hopen.
  destruct Hopen as [[_ [=]] | (? & ? & -> & -> & [= <-])].
  apply runs_await in Hsub as (t6 & t7 & [] & -> & H1%runs_or_fail & Hsub). apply runs_await in Hsub as (t8 & t9 & [] & -> & H2%runs_or_fail & H3%runs_or_fail).
  destruct H1 as [[_ [=]] | (? & ? & -> & -> & [= <-])]. destruct H2 as [[_ [=]] | (? & ? & -> & -> & [= <-])].
  destruct H3 as [[_ [=]] | (? & ? & -> & -> & [= <-])].
  destruct (MAX_PLAINTEXT + Z.of_nat BINDING_BYTES <? maximum binding); [by destruct Hr as [_ [=]] |]. by exists t4.
Qed.

(** C29: a capture over SSH is what the device streamed for it: when it succeeds, the binding is for the target the backend
    was made for, and on one fresh channel the fixed subsystem was requested and sent the binding and the end of input;
    what came back until the close was accepted once before anything else, ended once with nothing after it, reported
    status zero once, and carried exactly the binding followed by the captured bytes, as many as the binding declares;
    and the channel was closed on both sides. *)
Theorem capture_archive_truthful target binding deadline fuel t a :
  runs (capture_archive target binding deadline fuel) t (Some (Ready (Ok a))) ->
  target = Some (b_target binding) /\ c_binding a = binding /\ zlen (c_bytes a) = b_source_bytes binding /\ zlen (c_bytes a) <= MAX_PLAINTEXT
  /\ exists before after ms,
       t = before ++ subsystem_opened binding ++ after /\ messages before = [] /\ messages after = ms ++ [MsgClose]
       /\ output ms = encoded binding ++ c_bytes a
       /\ Forall (fun m => expected_kind m = true) ms /\ successes ms = 1 /\ statuses ms = [0] /\ errors ms <= 16384
       /\ (forall ms1 m ms2, ms = ms1 ++ m :: ms2 -> carries m = true -> successes ms1 = 1)
       /\ exists ms1 ms2, ms = ms1 ++ MsgEof :: ms2 /\ Forall (fun m => carries m = false) ms2.
Proof.
  intros (t1 & t2 & [] & -> & Hb%budget_runs & Hr)%runs_await. destruct (bool_decide (target = Some (b_target binding))) eqn:Ht; [| by destruct Hr as [_ [=]]].
  apply bool_decide_eq_true in Ht. cbn [negb] in Hr. apply runs_then in Hr as (t3 & t4 & epoch & -> & He & Hr).
  assert (Hm3 : messages t3 = []).
  { apply runs_one in He as (b & t' & -> & He). destruct b; [by destruct He as [-> _] |]. apply runs_one in He as (b' & t'' & -> & He). by destruct He as [-> _]. }
  destruct (bool_decide (epoch = None)); [by destruct Hr as [_ [=]] |]. apply runs_one in Hr as (locked & t5 & -> & Hr).
  destruct locked; [| by destruct Hr as [_ [=]]]. cbn [negb] in Hr. apply runs_then in Hr as (t6 & t7 & answer & -> & Hr & Hrel).
  apply runs_one in Hrel as (u & t8 & -> & [-> [= <-]]). apply runs_one in Hr as (failed & t9 & -> & Hr). destruct failed; [by destruct Hr as [_ [=]] |].
  apply runs_then in Hr as (t10 & t11 & outcome & -> & Hs & Hr). apply runs_then in Hr as (t12 & t13 & v & -> & Hg & [-> [= <-]]).
  destruct Hg as [-> _]. apply stream_runs in Hs as (t14 & -> & Hloop).
  apply (loop_streamed _ _ _ _ _ _ _ (caught_nothing binding)) in Hloop as (ms & c & Hms & [Hk Ho Hsp Ha Hf Hst Heof Her Hbd] & Hacc & Hend & Hstat & Hlen & Hdone).
  cbn [app] in *. apply fail_if_ok in Hdone as [[[Hz%negb_false_iff%Z.eqb_eq _]%orb_false_iff Hmax%Z.ltb_ge]%orb_false_iff Hdone]. injection Hdone as <-.
  cbn [c_binding c_bytes]. split; [done |]. split; [done |]. split; [done |]. split; [done |].
  exists (t1 ++ t3 ++ [Event TryState true; Event LoadFailed false; Event HasHandle true]), (t14 ++ [Event ReleaseState u]), ms.
  split; [repeat (rewrite ?app_nil_r, <- ?app_assoc; cbn [app]); by rewrite <- ?app_assoc |]. split; [by rewrite !messages_app, Hb, Hm3 |].
  split; [by rewrite messages_app, Hms, app_nil_r |].
  assert (Hpre : cap_prefix c = encoded binding).
  { destruct Hsp as [[Hlt Hnil] | [_ ?]]; [| done]. exfalso. unfold maximum in Hlen. lia. }
  rewrite Hend in Heof. rewrite Hstat in Hst. rewrite Hacc in Ha. rewrite <- Ho, Hpre. repeat (split; [done |]). done.
Qed.

(** ** A capture *)
Definition demo_id (n : Z) : list Z := repeat n ID.
Definition demo_binding : ArtifactBinding :=
  match binding_system (demo_id 1) (demo_id 2) (demo_id 3) (demo_id 4) 10 2 TarFormat with Ok b => b | Err _ => {| encoded := [] |} end.
Definition demo_stream : list ChannelMsg :=
  [MsgSuccess; MsgData (take 50 (encoded demo_binding)); ExtendedData [33] 1; MsgData (drop 50 (encoded demo_binding) ++ [7]); MsgData [8];
   MsgEof; ExitStatus 0; MsgClose].
Definition demo_device (n : nat) (c : SshCall) : SshAnswer c :=
  match c return SshAnswer c with
  | LoadAuthenticated | TryState | TakeIdentity | HasHandle => true
  | LoadFailed | HandleClosed => false
  | StoreFailed | StoreAuthenticated _ | InstallSocket | ShutdownSocket | ReleaseState | SetHandle => tt
  | ReadIdentity _ => Ready None
  | TcpConnect _ _ | OpenSession | ExecCommand _ | SendEof | CloseChannel | RequestSubsystem _ | SendData _ => Ready (Some tt)
  | Socket _ => Some tt
  | ConnectStream => Ready ([], false)
  | AuthenticateKey _ => Ready None
  | WaitMessage | WaitBriefly => if (n =? 11)%nat then Elapsed else Ready (demo_stream !! ((n - 13) / 3)%nat)
  | InstantNow => 0
  | WorkLoad => (false, 0)
  end.
Definition demo_capture : list (event SshAnswer) * fate (result BackupError CapturedArchive) :=
  replay demo_device 0 (capture_archive (Some (demo_id 2)) demo_binding 1 12).
Definition demo_archive : CapturedArchive := {| c_binding := demo_binding; c_bytes := [7; 8] |}.

Lemma capture_archive_truthful_witness :
  snd demo_capture = Ready (Ok demo_archive)
  /\ exists before after ms, fst demo_capture = before ++ subsystem_opened demo_binding ++ after
       /\ messages after = ms ++ [MsgClose] /\ output ms = encoded demo_binding ++ [7; 8].
Proof.
  assert (Hd : snd demo_capture = Ready (Ok demo_archive)) by (vm_compute; reflexivity). split; [exact Hd |].
  assert (Hr : runs (capture_archive (Some (demo_id 2)) demo_binding 1 12) (fst demo_capture) (Some (Ready (Ok demo_archive)))).
  { rewrite <- Hd. exact (replay_runs demo_device 0 _). }
  destruct (capture_archive_truthful _ _ _ _ _ _ Hr) as (_ & _ & _ & _ & before & after & ms & Ht & _ & Hms & Ho & _).
  exists before, after, ms. split; [exact Ht |]. split; [exact Hms | exact Ho].
Defined.
