(* ===== verification/Tunnel.v ===== *)
(** * Requests over one session

    What the requests of one SSH backend share, what each call does to it, and
    any interleaving of any number of requests with the connection's driver,
    which may end the login at any time.  One automaton describes the whole
    network traffic; the requests are proved to follow it together. *)
From stdpp Require Import gmap.
From S2P Require Import Prelude Text Json Core Packages Operation Codec Response Device Program Ports Backups Runner Session Capture.
Open Scope Z_scope.

(** ** The automaton of a session *)
Inductive Phase : Type :=
| Fresh | Loaded | Dialed | Pinned | Idle | Opened | Requested | Asked | Listening | Closing | Broken.
#[export] Instance Phase_eq_dec : EqDecision Phase.
Proof. solve_decision. Defined.

(** When a call may happen; what is not on the network may happen always. *)
Definition may (ph : Phase) (c : SshCall) : bool :=
  match c with
  | ReadIdentity _ => bool_decide (ph = Fresh)
  | TcpConnect _ _ => bool_decide (ph = Loaded)
  | Socket _ | ConnectStream => bool_decide (ph = Dialed)
  | AuthenticateKey _ => bool_decide (ph = Pinned)
  | OpenSession => bool_decide (ph = Idle)
  | ExecCommand _ | RequestSubsystem _ => bool_decide (ph = Opened)
  | SendData _ => bool_decide (ph = Requested)
  | SendEof => bool_decide (ph = Asked)
  | WaitMessage | WaitBriefly => bool_decide (ph = Listening)
  | CloseChannel => bool_decide (ph = Closing)
  | _ => true
  end.

Definition on_success {A} (x : fate (option A)) (ph : Phase) : Phase := match x with Ready (Some _) => ph | _ => Broken end.
Definition on_message (m : ChannelMsg) : Phase := match m with MsgClose => Closing | _ => Listening end.

Definition phase_step (ph : Phase) (c : SshCall) : SshAnswer c -> Phase :=
  match c return SshAnswer c -> Phase with
  | ReadIdentity _ => fun x => on_success x Loaded
  | TcpConnect _ _ => fun x => on_success x Dialed
  | Socket _ => fun x => match x with Some _ => ph | None => Broken end
  | ConnectStream => fun x => match x with Ready (_, true) => Pinned | _ => Broken end
  | AuthenticateKey _ => fun x => match x with Ready (Some true) => Idle | _ => Broken end
  | OpenSession => fun x => on_success x Opened
  | ExecCommand _ => fun x => on_success x Asked
  | RequestSubsystem _ => fun x => on_success x Requested
  | SendData _ => fun x => on_success x Asked
  | SendEof => fun x => on_success x Listening
  | WaitMessage => fun x => match x with Ready (Some m) => on_message m | _ => Broken end
  | WaitBriefly => fun x => match x with Ready (Some m) => on_message m | Elapsed => ph | _ => Broken end
  | CloseChannel => fun x => on_success x Idle
  | StoreFailed => fun _ => Broken
  | _ => fun _ => ph
  end.
Definition phase_after (ph : Phase) (e : event SshAnswer) : Phase := phase_step ph (ev_call e) (ev_answer e).
Definition phase (t : list (event SshAnswer)) : Phase := foldl phase_after Fresh t.

(** ** What the requests share *)
Record Link : Type := {
  k_failed : bool; k_authenticated : bool; k_socket : bool; k_identity : bool; k_handle : bool; k_locked : bool
}.
Definition Link_new : Link :=
  {| k_failed := false; k_authenticated := false; k_socket := false; k_identity := true; k_handle := false; k_locked := false |}.

Definition with_failed (w : Link) : Link :=
  {| k_failed := true; k_authenticated := k_authenticated w; k_socket := k_socket w; k_identity := k_identity w; k_handle := k_handle w; k_locked := k_locked w |}.
Definition with_authenticated (b : bool) (w : Link) : Link :=
  {| k_failed := k_failed w; k_authenticated := b; k_socket := k_socket w; k_identity := k_identity w; k_handle := k_handle w; k_locked := k_locked w |}.
Definition with_socket (b : bool) (w : Link) : Link :=
  {| k_failed := k_failed w; k_authenticated := k_authenticated w; k_socket := b; k_identity := k_identity w; k_handle := k_handle w; k_locked := k_locked w |}.
Definition without_identity (w : Link) : Link :=
  {| k_failed := k_failed w; k_authenticated := k_authenticated w; k_socket := k_socket w; k_identity := false; k_handle := k_handle w; k_locked := k_locked w |}.
Definition with_handle (w : Link) : Link :=
  {| k_failed := k_failed w; k_authenticated := k_authenticated w; k_socket := k_socket w; k_identity := k_identity w; k_handle := true; k_locked := k_locked w |}.
Definition with_lock (b : bool) (w : Link) : Link :=
  {| k_failed := k_failed w; k_authenticated := k_authenticated w; k_socket := k_socket w; k_identity := k_identity w; k_handle := k_handle w; k_locked := b |}.

Section tunnel.
Context (from_openssh : list Z -> option PrivateKey) (options : SshOptions) (target : option (list Z)).
Context (scan : list Z -> syntax * bool).

(** What a call does; the network answers what it likes, but the library
    brings a session up only when the handler accepted what the server
    presented. *)
Definition exec (w : Link) (c : SshCall) : SshAnswer c -> Link -> Prop :=
  match c return SshAnswer c -> Link -> Prop with
  | LoadFailed => fun b w' => b = k_failed w /\ w' = w
  | StoreFailed => fun _ w' => w' = with_failed w
  | LoadAuthenticated => fun b w' => b = k_authenticated w /\ w' = w
  | StoreAuthenticated b => fun _ w' => w' = with_authenticated b w
  | InstallSocket => fun _ w' => w' = with_socket true w
  | ShutdownSocket => fun _ w' => w' = with_socket false w
  | TryState => fun b w' => b = negb (k_locked w) /\ w' = with_lock true w
  | ReleaseState => fun _ w' => w' = with_lock false w
  | TakeIdentity => fun b w' => b = k_identity w /\ w' = without_identity w
  | HasHandle => fun b w' => b = k_handle w /\ w' = w
  | SetHandle => fun _ w' => w' = with_handle w
  | ConnectStream => fun x w' =>
      (forall presented, x = Ready (presented, true) ->
         presented <> [] /\ Forall (fun k => check_server_key (host_key_sha256 options) k = true) presented) /\ w' = w
  | _ => fun _ w' => w' = w
  end.

(** ** The requests of a backend *)
Definition arriving (p : tunnel unit) : Prop :=
  exists messages,
    (exists action limits, p = do! _ := ssh_execute from_openssh options messages scan action limits in Ret tt)
    \/ (exists object limits, p = do! _ := ssh_probe from_openssh options messages scan object limits in Ret tt)
    \/ (exists limits, p = do! _ := ssh_capture_opkg_status from_openssh options messages limits in Ret tt)
    \/ (exists limits, p = do! _ := ssh_capture_apk_installed from_openssh options messages scan limits in Ret tt)
    \/ (exists binding deadline, p = do! _ := capture_archive target binding deadline messages in Ret tt)
    \/ p = do! _ := ssh_capability_epoch in Ret tt.

Record Pool : Type := { pl_link : Link; pl_requests : gmap nat (tunnel unit) }.

(** [reaches s t]: the state [s] after the calls [t] of all requests. *)
Inductive reaches : Pool -> list (event SshAnswer) -> Prop :=
| reaches_new : reaches {| pl_link := Link_new; pl_requests := ∅ |} []
| reaches_arrives s t i p :
    reaches s t -> pl_requests s !! i = None -> arriving p ->
    reaches {| pl_link := pl_link s; pl_requests := <[i := p]> (pl_requests s) |} t
| reaches_calls s t i c k x w :
    reaches s t -> pl_requests s !! i = Some (Vis c k) -> exec (pl_link s) c x w ->
    reaches {| pl_link := w; pl_requests := <[i := k x]> (pl_requests s) |} (t ++ [Event c x])
| reaches_returns s t i :
    reaches s t -> pl_requests s !! i = Some (Ret tt) ->
    reaches {| pl_link := pl_link s; pl_requests := delete i (pl_requests s) |} t
| reaches_revoked s t :
    reaches s t ->
    reaches {| pl_link := with_authenticated false (pl_link s); pl_requests := pl_requests s |} t.

(** ** One request, outside and inside the lock *)

(** The session at rest. *)
Definition at_rest (w : Link) (ph : Phase) : Prop :=
  (k_failed w = true /\ k_authenticated w = false /\ k_socket w = false /\ ph = Broken)
  \/ (k_failed w = false /\ k_authenticated w = false /\ k_identity w = true /\ k_handle w = false /\ ph = Fresh)
  \/ (k_failed w = false /\ k_identity w = false /\ k_handle w = true /\ ph = Idle).

(** Calls that leave everything as it is. *)
Definition is_look (c : SshCall) : bool :=
  match c with LoadFailed | LoadAuthenticated | InstantNow | WorkLoad => true | _ => false end.
Definition takes (c : SshCall) : SshAnswer c -> bool :=
  match c return SshAnswer c -> bool with TryState => fun b => b | _ => fun _ => false end.
Definition is_try (c : SshCall) : bool := match c with TryState => true | _ => false end.
Definition is_release (c : SshCall) : bool := match c with ReleaseState => true | _ => false end.

Definition rely (w w' : Link) : Prop := w' = w \/ w' = with_authenticated false w.

(** The request's view: nothing, or the link and the phase while it holds the lock. *)
Definition View : Type := option (Link * Phase).

Fixpoint good {A} (p : tunnel A) (v : View) (Q : A -> View -> Prop) : Prop :=
  match p with
  | Ret a => Q a v
  | Vis c k =>
      match v with
      | None =>
          is_look c || is_try c = true /\
          forall x, (takes c x = false -> good (k x) None Q)
            /\ (takes c x = true -> forall w ph, at_rest w ph -> good (k x) (Some (with_lock true w, ph)) Q)
      | Some (w, ph) =>
          may ph c = true /\ is_try c = false /\
          forall x w', exec w c x w' ->
            if is_release c then at_rest w' ph /\ good (k x) None Q
            else forall w'', rely w' w'' -> good (k x) (Some (w'', phase_step ph c x)) Q
      end
  end.

Lemma good_mono {A} (p : tunnel A) v (Q Q' : A -> View -> Prop) :
  good p v Q -> (forall a v, Q a v -> Q' a v) -> good p v Q'.
Proof.
  intros Hp HQ. revert v Hp. induction p as [a | c k IH]; intros v Hp; [by apply HQ |]. destruct v as [[w ph] |]; cbn [good] in Hp |- *.
  - destruct Hp as (Hm & Ht & Hk). split; [done |]. split; [done |]. intros x w' Hx. specialize (Hk x w' Hx).
    destruct (is_release c); [destruct Hk; split; [done | by apply IH] |]. intros w'' Hr. by apply IH, Hk.
  - destruct Hp as [Hc Hk]. split; [done |]. intros x. destruct (Hk x) as [H1 H2]. split; [intros Hx; by apply IH, H1 |].
    intros Hx w ph Hw. by apply IH, H2.
Qed.

Lemma good_bind {A B} (p : tunnel A) (f : A -> tunnel B) v Q :
  good p v (fun a v => good (f a) v Q) -> good (pbind p f) v Q.
Proof.
  revert v. induction p as [a | c k IH]; intros v Hp; [done |]. destruct v as [[w ph] |]; cbn [good pbind] in Hp |- *.
  - destruct Hp as (Hm & Ht & Hk). split; [done |]. split; [done |]. intros x w' Hx. specialize (Hk x w' Hx).
    destruct (is_release c); [destruct Hk; split; [done | by apply IH] |]. intros w'' Hr. by apply IH, Hk.
  - destruct Hp as [Hc Hk]. split; [done |]. intros x. destruct (Hk x) as [H1 H2]. split; [intros Hx; by apply IH, H1 |].
    intros Hx w ph Hw. by apply IH, H2.
Qed.

Lemma good_await {E A B} (p : tunnel (fate (result E A))) (f : A -> tunnel (fate (result E B))) v Q :
  good p v (fun r v' => match r with
                        | Ready (Ok a) => good (f a) v' Q
                        | Ready (Err e) => Q (Ready (Err e)) v'
                        | Elapsed => Q Elapsed v'
                        | Dropped => Q Dropped v'
                        end) ->
  good (await_bind p f) v Q.
Proof. intros H. apply good_bind. eapply good_mono; [exact H |]. by intros [[a | e] | |] v'. Qed.
End tunnel.
