(* ===== verification/Traffic.v ===== *)
(** * All traffic follows one session

    Every request of the SSH backend is good outside and inside the lock, so
    any interleaving of requests keeps the session's automaton, never touches
    the network after a failure and never reconnects. *)
From stdpp Require Import gmap.
From S2P Require Import Prelude Text Json Core Packages Operation Codec Response Device Program Ports Backups Runner Session Capture Tunnel.
Open Scope Z_scope.

Section traffic.
Context (from_openssh : list Z -> option PrivateKey) (options : SshOptions) (target : option (list Z)).
Context (scan : list Z -> syntax * bool).
Notation good := (good options).
Notation exec := (exec options).

(** ** A live session under the lock *)
Definition live (handle identity : bool) (w : Link) : Prop :=
  k_failed w = false /\ k_handle w = handle /\ k_identity w = identity.
Definition dead (w : Link) : Prop := k_failed w = true /\ k_authenticated w = false /\ k_socket w = false.

Definition handle_after (c : SshCall) (h : bool) : bool := match c with SetHandle => true | _ => h end.
Definition identity_after (c : SshCall) (i : bool) : bool := match c with TakeIdentity => false | _ => i end.
Definition answered (c : SshCall) (h i : bool) : SshAnswer c -> Prop :=
  match c return SshAnswer c -> Prop with
  | HasHandle => fun b => b = h
  | TakeIdentity => fun b => b = i
  | LoadFailed => fun b => b = false
  | _ => fun _ => True
  end.
Definition plain (c : SshCall) : bool := match c with TryState | ReleaseState | StoreFailed => false | _ => true end.

Lemma live_step h i c x w w' w'' :
  plain c = true -> live h i w -> exec w c x w' -> rely w' w'' ->
  answered c h i x /\ live (handle_after c h) (identity_after c i) w''.
Proof.
  intros Hc (Hf & Hh & Hi) Hx Hr. destruct c; try discriminate Hc; cbn in Hx |- *.
  all: repeat match goal with H : _ /\ _ |- _ => destruct H end; subst.
  all: destruct Hr as [-> | ->]; repeat split; done.
Qed.

Lemma good_live {B} c (f : SshAnswer c -> tunnel B) h i w ph Q :
  plain c = true -> may ph c = true -> live h i w ->
  (forall x w', answered c h i x -> live (handle_after c h) (identity_after c i) w' -> good (f x) (Some (w', phase_step ph c x)) Q) ->
  good (pbind (ssh_call c) f) (Some (w, ph)) Q.
Proof.
  intros Hc Hm Hw Hk. split; [done |]. split; [by destruct c |]. intros x w' Hx. replace (is_release c) with false by by destruct c.
  intros w'' Hr. destruct (live_step _ _ _ _ _ _ _ Hc Hw Hx Hr). by apply Hk.
Qed.

(** What a guarded block may leave: an idle session, or whatever the guard then invalidates. *)
Definition settled {A E} (r : fate (result E A)) (v : View) : Prop :=
  match v with
  | None => False
  | Some (w, ph) => match r with Ready (Ok _) => live true false w /\ ph = Idle | _ => True end
  end.

Lemma good_or_fail {A B E} (e : E) (p : tunnel (fate (option A))) (f : A -> tunnel (fate (result E B))) v Q :
  good p v (fun r v' => match r with
                        | Ready (Some a) => good (f a) v' Q
                        | Ready None => Q (Ready (Err e)) v'
                        | Elapsed => Q Elapsed v'
                        | Dropped => Q Dropped v'
                        end) ->
  good (await_bind (or_fail e p) f) v Q.
Proof. intros H. apply good_await, good_bind. eapply good_mono; [exact H |]. by intros [[a |] | |] v'. Qed.

Lemma good_now_or_fail {A B E} (e : E) (p : tunnel (option A)) (f : A -> tunnel (fate (result E B))) v Q :
  good p v (fun r v' => match r with Some a => good (f a) v' Q | None => Q (Ready (Err e)) v' end) ->
  good (await_bind (now_or_fail e p) f) v Q.
Proof. intros H. apply good_await, good_bind. eapply good_mono; [exact H |]. by intros [a |] v'. Qed.

Lemma good_one c h i w ph Q :
  plain c = true -> may ph c = true -> live h i w ->
  (forall x w', answered c h i x -> live (handle_after c h) (identity_after c i) w' -> Q x (Some (w', phase_step ph c x))) ->
  good (ssh_call c) (Some (w, ph)) Q.
Proof. intros Hc Hm Hw HQ. by apply (good_live c Ret h i). Qed.

(** ** Invalidation *)
Lemma dead_stable w w' : dead w -> rely w w' -> dead w'.
Proof. by intros (? & ? & ?) [-> | ->]. Qed.

Lemma invalidate_good w ph : good invalidate (Some (w, ph)) (fun _ v => exists w', v = Some (w', Broken) /\ dead w').
Proof.
  split; [done |]. split; [done |]. intros [] w1 -> w2 H2. split; [done |]. split; [done |]. intros [] w3 -> w4 H4.
  split; [done |]. split; [done |]. intros [] w5 -> w6 H6. exists w6. split; [done |]. eapply dead_stable; [| exact H6].
  destruct H2 as [-> | ->], H4 as [-> | ->]; done.
Qed.

(** After the guard the session is at rest again. *)
Lemma guard_settles {A E} (r : fate (result E A)) (v : View) :
  settled r v ->
  good (guard_drop (match r with Ready (Ok _) => false | _ => true end)) v
    (fun _ v => exists w ph, v = Some (w, ph) /\ ((live true false w /\ ph = Idle) \/ (dead w /\ ph = Broken))).
Proof.
  destruct v as [[w ph] |]; [| done]. intros Hs. destruct r as [[a | e] | |]; cbn [guard_drop].
  { exists w, ph. split; [done | by left]. }
  all: eapply good_mono; [apply invalidate_good |]; intros _ v (w' & -> & Hd); exists w', Broken; split; [done | by right].
Qed.

(** Releasing the lock from there. *)
Lemma release_good {A} (a : A) w ph (Q : A -> View -> Prop) :
  (live true false w /\ ph = Idle) \/ (dead w /\ ph = Broken) -> Q a None ->
  good (do! _ := ssh_call ReleaseState in Ret a) (Some (w, ph)) Q.
Proof.
  intros Hw HQ. split; [done |]. split; [done |]. intros [] w' ->. split; [| done].
  destruct Hw as [[(? & ? & ?) ->] | [(? & ? & ?) ->]]; [right; right | left]; done.
Qed.

(** ** Connecting and executing *)
Ltac attempt :=
  match goal with
  | |- Tunnel.good _ (@await_bind _ _ ?E ?A ?B (or_fail ?e ?p) ?f) _ _ => apply (@good_or_fail A B E e p f)
  | |- Tunnel.good _ (@await_bind _ _ ?E ?A ?B (now_or_fail ?e ?p) ?f) _ _ => apply (@good_now_or_fail A B E e p f)
  end.
Ltac network h i :=
  attempt; match goal with |- Tunnel.good _ (Program.call ?c) (Some (?w, ?ph)) ?Q => apply (good_one c h i w ph Q) end; [done | done | done |]; let x := fresh "x" in let w := fresh "w" in let Hw := fresh "Hw" in
  intros x w _ Hw; cbn [phase_step on_success handle_after identity_after] in Hw |- *.

Lemma at_rest_live w ph : at_rest w ph -> k_failed w = false -> (live false true w /\ ph = Fresh) \/ (live true false w /\ ph = Idle).
Proof. intros [(? & _) | [(? & ? & ? & ? & ->) | (? & ? & ? & ->)]] Hf; [congruence | left | right]; done. Qed.

Lemma connect_good w ph :
  (live false true w /\ ph = Fresh) \/ (live true false w /\ ph = Idle) ->
  good (connect from_openssh options) (Some (w, ph)) settled.
Proof.
  intros [[Hw ->] | [Hw ->]]; unfold connect.
  - apply (good_live _ _ false true); [done | done | done |]. intros b w1 -> Hw1. cbn [handle_after identity_after] in Hw1.
    apply (good_live _ _ false true); [done | done | done |]. intros b w2 -> Hw2. cbn [handle_after identity_after] in Hw2. cbn [negb].
    network false false. destruct x as [[material |] | |]; [| done..].
    destruct (MAX_IDENTITY_BYTES <? zlen material); [done |]. apply good_await. cbn [Tunnel.good].
    destruct (from_openssh material) as [key |]; [| done]. cbn [ok_or]. destruct (is_encrypted key || negb (is_ed25519 key)); [done |].
    network false false. destruct x as [[[] |] | |]; [| done..].
    do 3 (network false false; destruct x as [[] |]; [| done]).
    apply (good_live _ _ false false); [done | done | done |]. intros [] w13 _ Hw13. cbn [handle_after identity_after phase_step] in Hw13 |- *.
    network false false. destruct x as [[] |]; [| done].
    apply (good_live _ _ false false); [done | done | done |]. intros x w14 _ Hw14. cbn [handle_after identity_after phase_step] in Hw14 |- *.
    apply good_await. cbn [Tunnel.good]. destruct x as [[presented []] | |]; [| done..]. cbn [fate_map].
    network false false. destruct x as [[[] |] | |]; [| done..]. cbn [negb].
    apply (good_live _ _ false false); [done | done | done |]. intros [] w15 _ Hw15. cbn [handle_after identity_after phase_step] in Hw15 |- *.
    apply (good_live _ _ false false); [done | done | done |]. intros [] w16 _ Hw16; cbn [handle_after identity_after phase_step] in Hw16 |- *.
    + apply good_bind. eapply good_mono; [apply invalidate_good |]. by intros _ v (w' & -> & _).
    + apply (good_live _ _ false false); [done | done | done |]. by intros [] w17 _ Hw17.
  - apply (good_live _ _ true false); [done | done | done |]. intros b w1 -> Hw1. cbn [handle_after identity_after] in Hw1.
    apply (good_live _ _ true false); [done | done | done |]. by intros [] w2 _ Hw2.
Qed.

Lemma execute_loop_good fuel maximum r w :
  live true false w -> good (execute_loop fuel maximum r) (Some (w, Listening)) settled.
Proof.
  revert r w. induction fuel as [| fuel IH]; intros r w Hw; [done |]. cbn [execute_loop].
  apply (good_live _ _ true false); [done | done | done |]. intros x w1 _ Hw1. cbn [handle_after identity_after phase_step] in Hw1 |- *.
  destruct x as [[m |] | |]; try done. destruct (receive maximum r m) as [[r' [status |]] | e] eqn:Hm; [| | done].
  - apply receive_close in Hm as (-> & _). cbn [on_message]. network true false. by destruct x as [[[] |] | |].
  - replace (on_message m) with Listening; [by apply IH |]. destruct m; try done. unfold receive in Hm. cbn [is_flow_control] in Hm.
    destruct (negb (accepted r)); [done |]. by destruct (exit_status r).
Qed.

Lemma session_execute_good fuel command maximum w :
  live true false w -> good (session_execute fuel command maximum) (Some (w, Idle)) settled.
Proof.
  intros Hw. unfold session_execute. apply (good_live _ _ true false); [done | done | done |]. intros b w1 -> Hw1. cbn [negb].
  cbn [handle_after identity_after] in Hw1.
  do 3 (network true false; destruct x as [[[] |] | |]; [| done..]). by apply execute_loop_good.
Qed.

(** ** Whole requests *)
Definition outside {A} (p : tunnel A) : Prop := good p None (fun _ v => v = None).

Lemma outside_bind {A B} (p : tunnel A) (f : A -> tunnel B) : outside p -> (forall a, outside (f a)) -> outside (pbind p f).
Proof. intros Hp Hf. apply good_bind. eapply good_mono; [exact Hp |]. intros a v ->. apply Hf. Qed.
Lemma outside_await {E A B} (p : tunnel (fate (result E A))) (f : A -> tunnel (fate (result E B))) :
  outside p -> (forall a, outside (f a)) -> outside (await_bind p f).
Proof. intros Hp Hf. apply outside_bind; [done |]. intros [[a | e] | |]; [apply Hf | done..]. Qed.
Lemma outside_look {B} c (f : SshAnswer c -> tunnel B) : is_look c = true -> (forall x, outside (f x)) -> outside (pbind (ssh_call c) f).
Proof. intros Hc Hf. split; [by rewrite Hc |]. intros x. split; [intros _; apply Hf | by destruct c]. Qed.
Lemma outside_ret {A} (a : A) : outside (Ret a).
Proof. done. Qed.

(** Taking the lock, working under it, releasing it. *)
Lemma outside_locked {A} (p : tunnel A) (busy : A) :
  (forall w ph, at_rest w ph -> good p (Some (with_lock true w, ph))
     (fun _ v => exists w ph, v = Some (w, ph) /\ at_rest (with_lock false w) ph)) ->
  outside (do! locked := ssh_call TryState in
           if negb locked then Ret busy else do! answer := p in do! _ := ssh_call ReleaseState in Ret answer).
Proof.
  intros Hp. split; [done |]. intros [|]; (split; [done |]); [intros _ w ph Hw | done]. cbn [pbind negb].
  apply good_bind. eapply good_mono; [exact (Hp w ph Hw) |]. intros a v (w' & ph' & -> & Hr).
  split; [done |]. split; [done |]. by intros [] w'' ->.
Qed.

Lemma rest_after w ph : (live true false w /\ ph = Idle) \/ (dead w /\ ph = Broken) -> at_rest (with_lock false w) ph.
Proof. intros [[(? & ? & ?) ->] | [(? & ? & ?) ->]]; [right; right | left]; done. Qed.

Lemma rest_stable w w' ph : at_rest w ph -> rely w w' -> at_rest w' ph.
Proof. intros Hw [-> | ->]; [done |]. destruct Hw as [(? & ? & ? & ->) | [(? & ? & ? & ? & ->) | (? & ? & ? & ->)]]; [left | right; left | right; right]; done. Qed.
Lemma rest_lock w ph b : at_rest w ph <-> at_rest (with_lock b w) ph.
Proof. done. Qed.

(** Under the lock, with the failure read first. *)
Lemma checked_good {A} (p : bool -> tunnel A) w ph (Q : A -> View -> Prop) :
  at_rest w ph ->
  (forall w, at_rest w ph -> good (p true) (Some (w, ph)) Q) ->
  (forall w, at_rest w ph -> (live false true w /\ ph = Fresh) \/ (live true false w /\ ph = Idle) -> good (p false) (Some (w, ph)) Q) ->
  good (do! failed := ssh_call LoadFailed in p failed) (Some (w, ph)) Q.
Proof.
  intros Hw Ht Hf. split; [done |]. split; [done |]. intros b w' [-> ->] w'' Hr. cbn [phase_step].
  assert (Hk : k_failed w'' = k_failed w) by by destruct Hr as [-> | ->]. pose proof (rest_stable _ _ _ Hw Hr) as Hw''.
  destruct (k_failed w); [by apply Ht | by apply Hf, at_rest_live].
Qed.


(** A guarded block between the check and the release. *)
Lemma guarded_good {E A B} (p : tunnel (fate (result E A))) (f : fate (result E A) -> B) w ph :
  good p (Some (w, ph)) settled ->
  good (do! outcome := p in
        do! _ := guard_drop (match outcome with Ready (Ok _) => false | _ => true end) in Ret (f outcome))
    (Some (w, ph)) (fun _ v => exists w ph, v = Some (w, ph) /\ at_rest (with_lock false w) ph).
Proof.
  intros Hp. apply good_bind. eapply good_mono; [exact Hp |]. intros r v Hr. apply good_bind.
  eapply good_mono; [exact (guard_settles r v Hr) |]. intros _ v' (w' & ph' & -> & Hw'). exists w', ph'. split; [done |]. by apply rest_after.
Qed.

Lemma ssh_run_outside messages command maximum deadline : outside (ssh_run from_openssh options messages command maximum deadline).
Proof.
  apply outside_await; [apply outside_bind; [apply outside_look; [done |]; by intros [] | by intros []] |]. intros [].
  apply outside_locked. intros w ph Hw. apply good_await, good_bind, good_bind, checked_good; [by apply rest_lock | |]; clear w Hw; intros w Hw; cbn [Tunnel.good].
  { exists w, ph. split; [done |]. by apply rest_lock. }
  intros Hl. apply good_await. cbn [Tunnel.good ready]. destruct (encode_remote command) as [encoded |]; cbn [map_err].
  2: { exists w, ph. split; [done |]. by apply rest_lock. }
  apply (guarded_good (do~ _ := connect from_openssh options in session_execute messages encoded maximum)
           (fun outcome => match outcome with
                           | Ready (Ok completed) => Ready completed | Ready (Err e) => Ready (Err e)
                           | Elapsed => Ready (Err Timeout) | Dropped => Dropped
                           end)).
  apply good_await. eapply good_mono; [by apply connect_good |]. intros r [[w' ph'] |] Hr; [| done].
  destruct r as [[[] | e] | |]; [| done..]. destruct Hr as [Hw' ->]. by apply session_execute_good.
Qed.

(** ** Captures *)
Lemma budget_good deadline w ph (Q : fate (result BackupError unit) -> View -> Prop) :
  live true false w -> (forall r w, live true false w -> r = Ready (Ok tt) \/ (exists e, r = Ready (Err e)) -> Q r (Some (w, ph))) ->
  good (budget deadline) (Some (w, ph)) Q.
Proof.
  intros Hw HQ. split; [by destruct ph |]. split; [done |]. intros b w' -> w'' Hr. cbn [Tunnel.good phase_step Tunnel.is_release].
  apply HQ; [by destruct Hr as [-> | ->] |]. destruct (work_check deadline (fst b) (snd b)) as [[] | e]; [by left | right; by eexists].
Qed.

Lemma good_budget {B} deadline w ph (f : unit -> tunnel (fate (result BackupError B))) :
  live true false w -> (forall w, live true false w -> good (f tt) (Some (w, ph)) settled) ->
  good (await_bind (budget deadline) f) (Some (w, ph)) settled.
Proof.
  intros Hw Hf. apply good_await, budget_good; [done |]. intros r w' Hw' [-> | (e & ->)]; [by apply Hf | done].
Qed.

(** [by_deadline] changes an elapsed deadline to an error: nothing the guard sees. *)
Lemma good_by_deadline {A B} (p : tunnel (fate (result BackupError A))) (f : A -> tunnel (fate (result BackupError B))) v :
  good (await_bind p f) v settled -> good (await_bind (by_deadline p) f) v settled.
Proof.
  intros Hp. apply good_bind. unfold by_deadline. apply good_bind. unfold await_bind in Hp. revert v Hp.
  induction p as [r | c k IH]; intros v Hp; cbn [Tunnel.good pbind] in Hp |- *.
  - by destruct r as [[a | e] | |].
  - destruct v as [[w ph] |].
    + destruct Hp as (? & ? & Hk). split; [done |]. split; [done |]. intros x w' Hx. specialize (Hk x w' Hx).
      destruct (is_release c); [destruct Hk; split; [done | by apply IH] |]. intros w'' Hr. by apply IH, Hk.
    + destruct Hp as [? Hk]. split; [done |]. intros x. destruct (Hk x) as [H1 H2]. split; [intros Hx; by apply IH, H1 |].
      intros Hx w ph Hw. by apply IH, H2.
Qed.

Lemma capture_loop_good binding deadline fuel c w :
  live true false w -> good (capture_loop binding deadline fuel c) (Some (w, Listening)) settled.
Proof.
  revert c w. induction fuel as [| fuel IH]; intros c w Hw; [done |]. cbn [capture_loop].
  apply good_budget; [done |]. clear w Hw. intros w Hw.
  apply (good_live _ _ true false); [done | done | done |]. intros x w1 _ Hw1. cbn [handle_after identity_after phase_step] in Hw1 |- *.
  destruct x as [[m |] | |]; [| done | by apply IH | done].
  apply good_budget; [done |]. clear w Hw w1 Hw1. intros w Hw.
  destruct (capture_message binding c m) as [[c' []] | e] eqn:Hm; [| | done].
  - assert (m = MsgClose) as ->.
    { destruct m; cbn in Hm; try done; repeat match type of Hm with (if ?b then _ else _) = _ => destruct b; [discriminate Hm |] end; discriminate Hm. }
    cbn [on_message]. apply good_by_deadline. network true false. destruct x as [[[] |] | |]; [| done..].
    apply good_budget; [done |]. intros w' Hw'. cbn [Tunnel.good]. unfold settled.
    by destruct (captured_completed binding (cap_bytes c') (zlen (cap_bytes c'))).
  - replace (on_message m) with Listening; [by apply IH |]. destruct m; try done. cbn in Hm.
    by match type of Hm with (if ?b then _ else _) = _ => destruct b end.
Qed.

Lemma capture_stream_good binding deadline fuel w ph :
  (live false true w /\ ph = Fresh) \/ (live true false w /\ ph = Idle) ->
  good (capture_stream binding deadline fuel) (Some (w, ph)) settled.
Proof.
  intros Hl. apply good_by_deadline. apply good_await. unfold capture_channel.
  destruct Hl as [[Hw ->] | [Hw ->]].
  { apply (good_live _ _ false true); [done | done | done |]. by intros b w1 -> Hw1. }
  apply (good_live _ _ true false); [done | done | done |]. intros b w1 -> Hw1. cbn [negb handle_after identity_after phase_step] in Hw1 |- *.
  apply good_bind, (good_one OpenSession true false); [done | done | done |]. intros x w2 _ Hw2. cbn [handle_after identity_after phase_step Tunnel.good] in Hw2 |- *.
  destruct x as [[[] |] | |]; [| done..]. cbn [fate_map ok_or on_success].
  apply good_by_deadline, good_await. do 2 (network true false; destruct x as [[[] |] | |]; [| done..]).
  apply good_bind, (good_one SendEof true false); [done | done | done |]. intros x w5 _ Hw5. cbn [handle_after identity_after phase_step Tunnel.good] in Hw5 |- *.
  destruct x as [[[] |] | |]; [| done..]. cbn [fate_map ok_or on_success].
  destruct (MAX_PLAINTEXT + Z.of_nat BINDING_BYTES <? maximum binding); [done |]. by apply capture_loop_good.
Qed.

Lemma capture_archive_outside binding deadline fuel : outside (capture_archive target binding deadline fuel).
Proof.
  apply outside_await; [apply outside_bind; [| by intros ?]; apply outside_look; [done | by intros ?] |]. intros [].
  destruct (negb (bool_decide (target = Some (b_target binding)))); [done |].
  apply outside_bind.
  { apply outside_look; [done |]. intros []; [done |]. apply outside_look; [done |]. by intros []. }
  intros epoch. case_bool_decide; [done |].
  apply outside_locked. intros w ph Hw. apply checked_good; [by apply rest_lock | |]; clear w Hw; intros w Hw.
  - cbn [Tunnel.good]. exists w, ph. split; [done |]. by apply rest_lock.
  - intros Hl. by apply (guarded_good (capture_stream binding deadline fuel) (fun x => x)), capture_stream_good.
Qed.

(** ** Every request *)
Lemma backend_capture_outside messages a b n (v : list Z -> result CodecError unit) parse limits :
  outside (@capture _ _ (ssh_runner from_openssh options messages) a b n v parse limits).
Proof.
  apply outside_await; [done |]. intros []. apply outside_bind; [by apply outside_look |]. intros t0.
  apply outside_await; [apply ssh_run_outside |]. intros version. apply outside_await; [done |]. intros [].
  apply outside_look; [done |]. intros t1. destruct (t0 <=? t1); [done |].
  apply outside_await; [apply ssh_run_outside |]. intros bytes. apply outside_look; [done |]. intros t2. by destruct (t0 <=? t2).
Qed.

Lemma arriving_outside p : arriving from_openssh options target scan p -> outside p.
Proof.
  intros (messages & [(action & limits & ->) | [(object & limits & ->) | [(limits & ->) | [(limits & ->) | [(binding & deadline & ->) | ->]]]]]).
  all: apply outside_bind; [| by intros ?].
  - apply outside_await; [done |]. intros []. apply outside_bind; [by apply outside_look |]. intros t0. apply outside_await; [done |]. intros command.
    apply outside_await; [apply ssh_run_outside | done].
  - apply outside_await; [done |]. intros []. apply outside_bind; [by apply outside_look |]. intros t0.
    apply outside_await; [apply ssh_run_outside | done].
  - exact (backend_capture_outside messages opkg_version_command opkg_status_command MAX_OPKG_VERSION_BYTES validate_opkg_version parse_opkg_status limits).
  - exact (backend_capture_outside messages apk_version_command apk_installed_command MAX_APK_VERSION_BYTES validate_apk_version (parse_apk_installed scan) limits).
  - apply capture_archive_outside.
  - apply outside_look; [done |]. intros []; [done |]. apply outside_look; [done |]. by intros [].
Qed.

(** ** The invariant of the pool *)
Definition follows (t : list (event SshAnswer)) : Prop := forall t1 e t2, t = t1 ++ e :: t2 -> may (phase t1) (ev_call e) = true.

Definition done_outside {A} (_ : A) (v : View) : Prop := v = None.

Definition pool_ok (s : Pool) (t : list (event SshAnswer)) : Prop :=
  follows t /\
  ((k_locked (pl_link s) = false /\ at_rest (pl_link s) (phase t) /\ map_Forall (fun _ p => outside p) (pl_requests s))
   \/ (k_locked (pl_link s) = true /\ exists i p, pl_requests s !! i = Some p
         /\ (forall w, rely (pl_link s) w -> good p (Some (w, phase t)) (fun _ v => v = None))
         /\ forall j q, j <> i -> pl_requests s !! j = Some q -> outside q)).

Lemma phase_snoc t e : phase (t ++ [e]) = phase_after (phase t) e.
Proof. unfold phase. by rewrite foldl_app. Qed.

Lemma follows_snoc t e : follows t -> may (phase t) (ev_call e) = true -> follows (t ++ [e]).
Proof.
  intros Ht He t1 e' t2 Heq. destruct (decide (t2 = [])) as [-> | Hn].
  - apply app_inj_tail in Heq as [-> ->]. done.
  - destruct (exists_last Hn) as (t2' & e2 & ->). rewrite app_comm_cons, app_assoc in Heq. apply app_inj_tail in Heq as [-> _]. by eapply Ht.
Qed.

(** A look changes nothing; nor does trying a lock that is taken. *)
Lemma look_exec w c x w' ph : is_look c = true -> exec w c x w' -> w' = w /\ phase_step ph c x = ph /\ may ph c = true /\ takes c x = false.
Proof. intros Hc Hx. destruct c; try discriminate Hc; cbn in Hx |- *; try destruct Hx as [_ Hx]; by repeat split. Qed.
Lemma try_exec w x w' ph : exec w TryState x w' -> x = negb (k_locked w) /\ w' = with_lock true w /\ phase_step ph TryState x = ph.
Proof. by intros [-> ->]. Qed.

Lemma exec_locked w c x w' : is_try c = false -> is_release c = false -> exec w c x w' -> k_locked w' = k_locked w.
Proof.
  intros Ht Hr Hx. destruct c; try discriminate Ht; try discriminate Hr; cbn in Hx.
  all: repeat match goal with H : _ /\ _ |- _ => destruct H end; by subst.
Qed.
Lemma lock_again w : k_locked w = true -> with_lock true w = w.
Proof. destruct w. cbn. by intros ->. Qed.

(** A call of a request that does not hold the lock, while another does or nobody does. *)
Lemma unlocked_call s t i c k x w :
  k_locked (pl_link s) = false -> at_rest (pl_link s) (phase t) -> map_Forall (fun _ p => outside p) (pl_requests s) -> follows t ->
  pl_requests s !! i = Some (Vis c k) -> exec (pl_link s) c x w ->
  pool_ok {| pl_link := w; pl_requests := <[i := k x]> (pl_requests s) |} (t ++ [Event c x]).
Proof.
  intros Hl Hr Hall Ht Hi Hx. destruct (Hall i _ Hi) as [Hc Hk]. destruct (Hk x) as [Hfree Htake]. apply orb_true_iff in Hc as [Hc | Hc].
  - destruct (look_exec _ _ _ _ (phase t) Hc Hx) as (-> & Hph & Hm & Hn). split; [by apply follows_snoc |]. left.
    cbn [pl_link pl_requests]. rewrite phase_snoc. unfold phase_after. cbn [ev_call ev_answer]. rewrite Hph.
    split; [done |]. split; [done |]. apply map_Forall_insert_2; [by apply Hfree | done].
  - destruct c; try discriminate Hc. destruct (try_exec _ _ _ (phase t) Hx) as (-> & -> & Hph). rewrite Hl in *.
    split; [by apply follows_snoc |]. right. cbn [pl_link pl_requests negb]. rewrite phase_snoc. unfold phase_after. cbn [ev_call ev_answer]. split; [done |].
    exists i, (k true). rewrite lookup_insert_eq. split; [done |]. split.
    { intros w [-> | ->]; [by apply Htake |]. apply (Htake eq_refl (with_authenticated false (pl_link s))). eapply rest_stable; [exact Hr | by right]. }
    intros j q Hj Hq. rewrite lookup_insert_ne in Hq by done. by apply (Hall j).
Qed.

Lemma locked_call s t i p j c k x w :
  k_locked (pl_link s) = true -> pl_requests s !! i = Some p -> (forall w, rely (pl_link s) w -> good p (Some (w, phase t)) (fun _ v => v = None)) ->
  (forall j q, j <> i -> pl_requests s !! j = Some q -> outside q) -> follows t ->
  pl_requests s !! j = Some (Vis c k) -> exec (pl_link s) c x w ->
  pool_ok {| pl_link := w; pl_requests := <[j := k x]> (pl_requests s) |} (t ++ [Event c x]).
Proof.
  intros Hl Hi Hp Hall Ht Hj Hx. destruct (decide (j = i)) as [-> | Hn].
  - rewrite Hi in Hj. injection Hj as ->. destruct (Hp (pl_link s) (or_introl eq_refl)) as (Hm & Htry & Hk). specialize (Hk x w Hx). split; [by apply follows_snoc |].
    cbn [pl_link pl_requests]. rewrite phase_snoc. unfold phase_after. cbn [ev_call ev_answer]. destruct (is_release c) eqn:Hc.
    + destruct c; try discriminate Hc. destruct Hk as [Hr Hk]. cbn in Hx. subst w. left. split; [done |]. split; [done |].
      intros j q. destruct (decide (j = i)) as [-> | Hn]; [rewrite lookup_insert_eq; by intros [= <-] |].
      rewrite lookup_insert_ne by done. by apply Hall.
    + right. split; [by rewrite (exec_locked _ _ _ _ Htry Hc Hx) |]. exists i, (k x). rewrite lookup_insert_eq. split; [done |].
      split; [done |]. intros j q Hn. rewrite lookup_insert_ne by done. by apply Hall.
  - destruct (Hall j _ Hn Hj) as [Hc Hk]. destruct (Hk x) as [Hfree _].
    assert (Hsame : w = pl_link s /\ phase_step (phase t) c x = phase t /\ may (phase t) c = true /\ takes c x = false).
    { apply orb_true_iff in Hc as [Hc | Hc]; [by apply (look_exec _ _ _ _ (phase t)) in Hx |].
      destruct c; try discriminate Hc. apply (try_exec _ _ _ (phase t)) in Hx as (-> & -> & Hph). rewrite Hl, lock_again by done. done. }
    destruct Hsame as (-> & Hph & Hm & Hn'). split; [by apply follows_snoc |]. right. cbn [pl_link pl_requests].
    rewrite phase_snoc. unfold phase_after. cbn [ev_call ev_answer]. rewrite Hph. split; [done |].
    exists i, p. rewrite lookup_insert_ne by done. split; [done |]. split; [done |].
    intros j' q Hj'. destruct (decide (j' = j)) as [-> | Hjj]; [rewrite lookup_insert_eq; intros [= <-]; by apply Hfree |].
    rewrite lookup_insert_ne by done. by apply Hall.
Qed.

Lemma reaches_ok s t : reaches from_openssh options target scan s t -> pool_ok s t.
Proof.
  induction 1 as [| s t i p _ IH Hi Hp | s t i c k x w _ IH Hi Hx | s t i _ IH Hi | s t _ IH].
  - split; [by intros [] |]. left. split; [done |]. split; [right; left; by repeat split | apply map_Forall_empty].
  - apply arriving_outside in Hp. destruct IH as [Ht [(Hl & Hr & Hall) | (Hl & j & q & Hj & Hq & Hall)]]; (split; [done |]); [left | right].
    + split; [done |]. split; [done |]. by apply map_Forall_insert_2.
    + split; [done |]. exists j, q. assert (j <> i) by congruence. cbn [pl_requests]. rewrite lookup_insert_ne by done. split; [done |].
      split; [done |]. intros j' q' Hj'. destruct (decide (j' = i)) as [-> | Hn]; [rewrite lookup_insert_eq; by intros [= <-] |].
      rewrite lookup_insert_ne by done. by apply Hall.
  - destruct IH as [Ht [(Hl & Hr & Hall) | (Hl & j & q & Hj & Hq & Hall)]]; [by apply unlocked_call | by eapply locked_call].
  - destruct IH as [Ht [(Hl & Hr & Hall) | (Hl & j & q & Hj & Hq & Hall)]]; (split; [done |]); [left | right].
    + split; [done |]. split; [done |]. by apply map_Forall_delete.
    + split; [done |]. exists j, q. assert (j <> i) as Hn.
      { intros ->. rewrite Hi in Hj. injection Hj as <-. by specialize (Hq _ (or_introl eq_refl)). }
      cbn [pl_requests]. rewrite lookup_delete_ne by done. split; [done |]. split; [done |].
      intros j' q' Hj' Hl'. apply lookup_delete_Some in Hl' as [_ Hl']. by apply (Hall j').
  - destruct IH as [Ht [(Hl & Hr & Hall) | (Hl & j & q & Hj & Hq & Hall)]]; (split; [done |]); [left | right].
    + split; [done |]. split; [eapply rest_stable; [exact Hr | by right] | done].
    + split; [done |]. exists j, q. split; [done |]. split; [| done]. intros w Hw. apply Hq. right. cbn [pl_link] in Hw. by destruct Hw as [-> | ->].
Qed.

(** ** What the automaton implies *)
Definition network (c : SshCall) : bool := negb (may Broken c).
Definition rank (ph : Phase) : nat :=
  match ph with Fresh => 0 | Loaded => 1 | Dialed => 2 | Pinned => 3 | Broken => 5 | _ => 4 end.

Lemma rank_step ph c x : may ph c = true -> (rank ph <= rank (phase_step ph c x))%nat.
Proof.
  intros Hm. assert (Hb : forall A (y : fate (option A)) ph', (rank ph <= rank ph')%nat -> (rank ph <= rank (on_success y ph'))%nat).
  { intros A [[a |] | |] ph' Hr; cbn [on_success]; [done | by destruct ph; cbn; lia ..]. }
  destruct c; cbn [may] in Hm; try apply bool_decide_eq_true in Hm; cbn [phase_step]; try subst ph; try (apply Hb; cbn; lia); try lia.
  all: repeat match goal with |- context [match ?y with _ => _ end] => destruct y; cbn; try lia end.
  all: try (by destruct ph; cbn; lia).
  all: match goal with |- context [on_message ?m] => by destruct m; cbn; lia end.
Qed.

Lemma follows_split t1 t2 : follows (t1 ++ t2) -> follows t1.
Proof. intros Hf t e t' ->. apply (Hf t e (t' ++ t2)). by rewrite <- app_assoc. Qed.

Lemma rank_after t1 t2 : follows (t1 ++ t2) -> (rank (phase t1) <= rank (phase (t1 ++ t2)))%nat.
Proof.
  induction t2 as [| e t2 IH] using rev_ind; intros Hf; [by rewrite app_nil_r |]. rewrite app_assoc in Hf |- *.
  rewrite phase_snoc. etrans; [apply IH; by eapply follows_split |]. apply rank_step. by apply (Hf (t1 ++ t2) e []).
Qed.

Lemma broken_stays t1 t2 : follows (t1 ++ t2) -> phase t1 = Broken -> Forall (fun e => network (ev_call e) = false) t2.
Proof.
  intros Hf Hb. apply Forall_forall. intros e (l1 & l2 & ->)%list_elem_of_split. unfold network. apply negb_false_iff.
  rewrite app_assoc in Hf. pose proof (Hf (t1 ++ l1) e l2 eq_refl) as Hm. pose proof (rank_after t1 l1 (follows_split _ _ Hf)) as Hr.
  rewrite Hb in Hr. destruct (phase (t1 ++ l1)); cbn in Hr; try lia. done.
Qed.

(** Calls that only the phase [ph] allows, which they leave for good. *)
Lemma only_once n (p : SshCall -> bool) t :
  follows t ->
  (forall ph c x, p c = true -> may ph c = true -> rank ph = n /\ (n < rank (phase_step ph c x))%nat) ->
  (length (filter (fun e => p (ev_call e) = true) t) <= 1)%nat.
Proof.
  intros Hf Hp. destruct (decide (length (filter (fun e => p (ev_call e) = true) t) <= 1)%nat) as [? | Hn]; [done | exfalso].
  destruct (filter (fun e => p (ev_call e) = true) t) as [| e1 [| e2 l]] eqn:E; cbn [length] in Hn; try lia.
  assert (Hs : exists a b c, t = a ++ e1 :: b ++ e2 :: c /\ p (ev_call e1) = true /\ p (ev_call e2) = true).
  { clear Hf Hp Hn. revert E. induction t as [| e t IH]; intros E; [done |]. rewrite filter_cons in E. destruct (decide (p (ev_call e) = true)) as [He | He].
    - injection E as <- E. assert (Hin : e2 ∈ filter (fun e => p (ev_call e) = true) t) by (rewrite E; left).
      apply list_elem_of_filter in Hin as [H2 (b & c & ->)%list_elem_of_split]. by exists [], b, c.
    - destruct (IH E) as (a & b & c & -> & H1 & H2). by exists (e :: a), b, c. }
  destruct Hs as (a & b & c & -> & H1 & H2).
  pose proof (Hf a e1 (b ++ e2 :: c) eq_refl) as M1. destruct (Hp _ _ (ev_answer e1) H1 M1) as [_ R1].
  rewrite app_comm_cons, app_assoc in Hf. pose proof (Hf (a ++ e1 :: b) e2 c eq_refl) as M2. destruct (Hp _ _ (ev_answer e2) H2 M2) as [R2 _].
  assert (R3 : (rank (phase (a ++ [e1])) <= rank (phase (a ++ e1 :: b)))%nat).
  { pose proof (rank_after (a ++ [e1]) b) as H. rewrite <- app_assoc in H. apply H. by eapply follows_split. }
  rewrite phase_snoc in R3. unfold phase_after in R3. lia.
Qed.

Definition pinned_event (e : event SshAnswer) : Prop :=
  match ev_call e as c return SshAnswer c -> Prop with
  | ConnectStream => fun x => forall presented, x = Ready (presented, true) ->
      presented <> [] /\ Forall (fun k => check_server_key (host_key_sha256 options) k = true) presented
  | _ => fun _ => True
  end (ev_answer e).

Lemma reaches_pinned s t : reaches from_openssh options target scan s t -> Forall pinned_event t.
Proof.
  induction 1 as [| | s t i c k x w _ IH _ Hx | |]; try done. apply Forall_app. split; [done |]. apply Forall_singleton.
  unfold pinned_event. cbn [ev_call ev_answer]. destruct c; try done. by destruct Hx.
Qed.

(** How far the session got. *)
Definition host_accepted (t : list (event SshAnswer)) : Prop :=
  exists presented, Event ConnectStream (Ready (presented, true)) ∈ t /\ presented <> []
    /\ Forall (fun k => check_server_key (host_key_sha256 options) k = true) presented.
Definition logged_in (t : list (event SshAnswer)) : Prop := exists user, Event (AuthenticateKey user) (Ready (Some true)) ∈ t.

Lemma host_accepted_more t e : host_accepted t -> host_accepted (t ++ [e]).
Proof. intros (presented & Hin & ?). exists presented. split; [apply elem_of_app; by left | done]. Qed.
Lemma logged_in_more t e : logged_in t -> logged_in (t ++ [e]).
Proof. intros (user & Hin). exists user. apply elem_of_app. by left. Qed.

Lemma phase_reached t :
  follows t -> Forall pinned_event t ->
  ((3 <= rank (phase t) <= 4)%nat -> host_accepted t) /\ (rank (phase t) = 4%nat -> logged_in t).
Proof.
  induction t as [| e t IH] using rev_ind; intros Hf Hp; [split; cbn; lia |]. rewrite Forall_app, Forall_singleton in Hp. destruct Hp as [Hp He].
  destruct (IH (follows_split _ _ Hf) Hp) as [IH1 IH2]. clear IH Hp.
  pose proof (Hf t e [] eq_refl) as Hm. clear Hf. rewrite phase_snoc. pose proof (rank_step _ _ (ev_answer e) Hm) as Hr. unfold phase_after in *.
  destruct (decide (rank (phase_step (phase t) (ev_call e) (ev_answer e)) = rank (phase t))) as [Heq | Hne].
  { rewrite Heq. split; intros ?; [apply host_accepted_more | apply logged_in_more]; auto. }
  destruct e as [c x]. cbn [ev_call ev_answer] in *.
  assert (Hup : (rank (phase t) < rank (phase_step (phase t) c x))%nat) by lia. clear Hne Hr.
  assert (Hb : forall ph, rank ph <> 3%nat -> rank ph <> 4%nat ->
    ((3 <= rank ph <= 4)%nat -> host_accepted (t ++ [Event c x])) /\ (rank ph = 4%nat -> logged_in (t ++ [Event c x]))) by (intros; split; lia).
  destruct c; cbn [may] in Hm; try apply bool_decide_eq_true in Hm; cbn [phase_step] in Hup |- *; try (rewrite Hm in Hup, IH1, IH2); try lia.
  all: try (destruct x as [[?|]| |]; cbn [on_success rank] in Hup; cbn [on_success]; try lia; by apply Hb).
  - by apply Hb.
  - destruct x; [cbn in Hup; lia | by apply Hb].
  - destruct x as [[presented []] | |]; [| by apply Hb..]. split; [| cbn; lia]. intros _.
    destruct (He presented eq_refl). exists presented. split; [apply elem_of_app; right; left | done].
  - destruct x as [[[] |] | |]; [| by apply Hb..]. split.
    + intros _. apply host_accepted_more, IH1. cbn. lia.
    + intros _. exists username. apply elem_of_app. right. left.
Qed.

Definition is_read (c : SshCall) : bool := match c with ReadIdentity _ => true | _ => false end.
Definition is_dial (c : SshCall) : bool := match c with TcpConnect _ _ => true | _ => false end.
Definition is_login (c : SshCall) : bool := match c with AuthenticateKey _ => true | _ => false end.
Definition is_work (c : SshCall) : bool := match c with ExecCommand _ | RequestSubsystem _ | SendData _ => true | _ => false end.
Definition times (p : SshCall -> bool) (t : list (event SshAnswer)) : nat := length (filter (fun e => p (ev_call e) = true) t).

Lemma work_phase ph c : is_work c = true -> may ph c = true -> rank ph = 4%nat.
Proof. by destruct c; intros Hc Hm; try discriminate Hc; apply bool_decide_eq_true in Hm as ->. Qed.

Lemma once_each t : follows t -> (times is_read t <= 1)%nat /\ (times is_dial t <= 1)%nat /\ (times is_login t <= 1)%nat.
Proof.
  intros Hf. split; [| split].
  1: apply (only_once 0); [done |]. 2: apply (only_once 1); [done |]. 3: apply (only_once 3); [done |].
  all: intros ph c x Hc Hm; destruct c; try discriminate Hc; apply bool_decide_eq_true in Hm as ->; split; [done |].
  - destruct x as [[?|] | |]; cbn; lia.
  - destruct x as [[?|] | |]; cbn; lia.
  - destruct x as [[[]|] | |]; cbn; lia.
Qed.

(** C26: any number of SSH requests, interleaved in any way with each other and with the end of the connection, share one
    session: the whole traffic follows the session's automaton (one channel at a time, each command sent, ended and read
    to its close before the next); the key is read, the host dialled and the login tried at most once; nothing is sent
    after the first invalidation; every command goes to a host whose presented keys all carry the operator's pin, after
    a successful login; and when no request holds the session, a failed one is closed and offers no epoch, while an epoch
    is offered only by a logged-in, idle session. *)
Theorem ssh_session_single s t :
  reaches from_openssh options target scan s t ->
  follows t
  /\ (times is_read t <= 1)%nat /\ (times is_dial t <= 1)%nat /\ (times is_login t <= 1)%nat
  /\ (forall t1 u t2, t = t1 ++ Event StoreFailed u :: t2 -> Forall (fun e => network (ev_call e) = false) t2)
  /\ (forall t1 e t2, t = t1 ++ e :: t2 -> is_work (ev_call e) = true -> host_accepted t1 /\ logged_in t1)
  /\ (k_locked (pl_link s) = false ->
      (k_failed (pl_link s) = true -> k_socket (pl_link s) = false /\ k_authenticated (pl_link s) = false)
      /\ (k_authenticated (pl_link s) = true -> k_failed (pl_link s) = false /\ phase t = Idle /\ logged_in t)).
Proof.
  intros Hr. pose proof (reaches_pinned s t Hr) as Hpin. destruct (reaches_ok s t Hr) as [Hf Hrest].
  split; [done |]. destruct (once_each t Hf) as (H1 & H2 & H3). do 3 (split; [done |]). split; [| split].
  - intros t1 u t2 ->. rewrite (cons_middle (Event StoreFailed u) t1 t2), app_assoc in Hf. apply (broken_stays (t1 ++ [Event StoreFailed u])); [done |].
    by rewrite phase_snoc.
  - intros t1 e t2 -> Hw. pose proof (work_phase _ _ Hw (Hf t1 e t2 eq_refl)) as H4. apply Forall_app in Hpin as [Hpin _].
    destruct (phase_reached t1 (follows_split _ _ Hf) Hpin) as [Ha Hl]. split; [apply Ha; lia | by apply Hl].
  - intros Hl. destruct Hrest as [(_ & Hw & _) | (Hl' & _)]; [| congruence]. destruct (phase_reached t Hf Hpin) as [_ Hlog].
    destruct Hw as [(? & Ha & ? & _) | [(? & Ha & ? & ? & _) | (? & ? & ? & Hph)]]; (split; [by intros ?; split; congruence |]); intros Hau; try congruence.
    split; [done |]. split; [done |]. apply Hlog. by rewrite Hph.
Qed.
End traffic.

(** ** A session *)
Definition demo_pin : string := "SHA256:kLBz1tQfQGNJAQKbLyQ0BvkQxJ3tB0gXbq0JY0xWvSs".
Definition demo_options : SshOptions := {| host := "192.168.1.1"; port := 22; username := "root"; host_key_sha256 := demo_pin |}.
Definition demo_openssh (bytes : list Z) : option PrivateKey :=
  if bool_decide (bytes = str_bytes "key") then Some {| is_encrypted := false; is_ed25519 := true |} else None.
Definition demo_scan (bytes : list Z) : syntax * bool := (SBad, false).
Definition demo_messages : list ChannelMsg := [WindowAdjusted; MsgSuccess; MsgData [10]; ExitStatus 0; MsgEof; MsgClose].

(** A server and a host that answer well; [n] messages were heard before. *)
Definition demo_answer (n : nat) (w : Link) (c : SshCall) : SshAnswer c :=
  match c return SshAnswer c with
  | LoadFailed => k_failed w | LoadAuthenticated => k_authenticated w | TryState => negb (k_locked w)
  | TakeIdentity => k_identity w | HasHandle => k_handle w | HandleClosed => false
  | StoreFailed | StoreAuthenticated _ | InstallSocket | ShutdownSocket | ReleaseState | SetHandle => tt
  | ReadIdentity _ => Ready (Some (str_bytes "key"))
  | TcpConnect _ _ | OpenSession | ExecCommand _ | SendEof | CloseChannel | RequestSubsystem _ | SendData _ => Ready (Some tt)
  | Socket _ => Some tt
  | ConnectStream => Ready ([PublicKey true demo_pin], true)
  | AuthenticateKey _ => Ready (Some true)
  | WaitMessage | WaitBriefly => Ready (demo_messages !! n)
  | InstantNow => 0
  | WorkLoad => (false, 0)
  end.
Definition demo_effect (w : Link) (c : SshCall) : Link :=
  match c with
  | StoreFailed => with_failed w | StoreAuthenticated b => with_authenticated b w | InstallSocket => with_socket true w
  | ShutdownSocket => with_socket false w | TryState => with_lock true w | ReleaseState => with_lock false w
  | TakeIdentity => without_identity w | SetHandle => with_handle w | _ => w
  end.
Lemma demo_exec n w c : exec demo_options w c (demo_answer n w c) (demo_effect w c).
Proof. destruct c; try done; cbn. split; [| done]. intros presented [= <-]. split; [done |]. by repeat constructor. Qed.

Definition heard_before (t : list (event SshAnswer)) : nat := length (filter (fun e => match ev_call e with WaitMessage => true | _ => false end = true) t).

Fixpoint demo_play (p : tunnel unit) (w : Link) (t : list (event SshAnswer)) : Link * list (event SshAnswer) :=
  match p with
  | Ret _ => (w, t)
  | Vis c k => let x := demo_answer (heard_before t) w c in demo_play (k x) (demo_effect w c) (t ++ [Event c x])
  end.

Lemma demo_reaches p w t m :
  reaches demo_openssh demo_options None demo_scan {| pl_link := w; pl_requests := <[0%nat := p]> m |} t ->
  exists u, reaches demo_openssh demo_options None demo_scan
    {| pl_link := (demo_play p w t).1; pl_requests := <[0%nat := Ret u]> m |} (demo_play p w t).2.
Proof.
  revert w t. induction p as [u | c k IH]; intros w t Hr; [by exists u |]. cbn [demo_play]. apply IH.
  eapply (reaches_calls _ _ _ _ _ t 0 c k _ (demo_effect w c)) in Hr; [| apply lookup_insert_eq | apply (demo_exec (heard_before t))].
  cbn [pl_requests] in Hr. by rewrite insert_insert_eq in Hr.
Qed.

Definition demo_request : tunnel unit := do! _ := ssh_probe demo_openssh demo_options 10 demo_scan ROSystem Limits_default in Ret tt.
Definition demo_traffic : list (event SshAnswer) := (demo_play demo_request Link_new []).2.

Lemma ssh_session_single_witness :
  times is_work demo_traffic = 1%nat /\ times is_login demo_traffic = 1%nat /\ follows demo_traffic.
Proof.
  split; [vm_compute; reflexivity |]. split; [vm_compute; reflexivity |].
  assert (Ha : arriving demo_openssh demo_options None demo_scan demo_request).
  { exists 10%nat. right. left. by exists ROSystem, Limits_default. }
  destruct (demo_reaches demo_request Link_new [] ∅) as [u Hr].
  { exact (reaches_arrives _ _ _ _ _ [] 0 demo_request (reaches_new _ _ _ _) eq_refl Ha). }
  exact (proj1 (ssh_session_single demo_openssh demo_options None demo_scan _ _ Hr)).
Defined.
