(* ===== verification/Linux.v ===== *)
(** * Protected files and logs on Linux

    [crates/host-platform/src/linux.rs] and the limits of [lib.rs]: paths are
    walked from the root, one handle after the other and never through a link,
    every handle is checked, and the private log rotates inside the directory
    it was opened in. *)
From stdpp Require Import gmap.
From S2P Require Import Prelude Text Archive Program Ciphertext Protection.
Open Scope Z_scope.

Notation Fd := nat (only parsing).
Record Stat : Type := { st_mode : Z; st_uid : Z; st_nlink : Z; st_size : Z; st_ino : Z; st_dev : Z }.
Inductive Statted : Type := Found (s : Stat) | NotFound | StatFailed.

Inductive LinuxCall : Type :=
| CurrentDir
(* [O_DIRECTORY | O_NOFOLLOW], [O_RDONLY | O_NOFOLLOW], [O_WRONLY | O_APPEND | O_CREAT | O_NOFOLLOW] with mode 0600 *)
| OpenRoot | OpenDirAt (parent : Fd) (name : list Z) | OpenReadAt (parent : Fd) (name : list Z) | OpenAppendAt (parent : Fd) (name : list Z)
| Fstat (fd : Fd) | StatAt (parent : Fd) (name : list Z) | FchmodPrivate (fd : Fd) | MetadataLen (fd : Fd)
| ReadUpTo (fd : Fd) (limit : Z) | WriteAll (fd : Fd) (bytes : list Z)
| UnlinkAt (parent : Fd) (name : list Z) | RenameAt (parent : Fd) (old new : list Z) | CloseFile (fd : Fd)
| SocketUnbound | SocketConnect (path : list Z) | SocketNonblocking | SocketSend (bytes : list Z).
Definition LinuxAnswer (c : LinuxCall) : Type :=
  match c with
  | CurrentDir => option (list Z)
  | OpenRoot | OpenDirAt _ _ | OpenReadAt _ _ | OpenAppendAt _ _ => option Fd
  | Fstat _ => option Stat
  | StatAt _ _ => Statted
  | MetadataLen _ | SocketSend _ => option Z
  | ReadUpTo _ _ => option (list Z)
  | FchmodPrivate _ | WriteAll _ _ | UnlinkAt _ _ | RenameAt _ _ _ | SocketUnbound | SocketConnect _ | SocketNonblocking => option unit
  | CloseFile _ => unit
  end.
Notation linux := (prog LinuxAnswer).
Notation linux_call := (Program.call (Answer := LinuxAnswer)).

(** [call(..).map_err(|_| Unavailable)?] *)
Definition available {A} (p : linux (option A)) : linux (result HostError A) := do! r := p in Ret (ok_or r HUnavailable).

Inductive Ownership : Type := Operator | Root.

Section host.
(** The effective user of the process. *)
Context (euid : Z).

Definition trusted_owner (stat : Stat) (owner : Ownership) : bool :=
  (st_uid stat =? 0) || match owner with Operator => st_uid stat =? euid | Root => false end.

(** ** Paths *)
Definition parent_dir (c : list Z) : bool := bool_decide (c = str_bytes "..").

(** The components after the root; the normalized path is never longer than
    its text, a slash and a name for each of them. *)
Definition normalized_len (components : list (list Z)) : Z := Z.max 1 (foldr (fun c n => 1 + zlen c + n) 0 components).

Definition validate_path (path : list Z) (relative : bool) : linux (result HostError (list (list Z))) :=
  if bool_decide (path = []) || (4096 <? zlen path) || existsb (Z.eqb 0) path || existsb parent_dir (path_components path)
  then Ret (Err HInvalidPath)
  else
    do? joined := (
      if is_absolute path then Ret (Ok path)
      else if relative then do? cwd := available (linux_call CurrentDir) in Ret (Ok (cwd ++ [47] ++ path))
      else Ret (Err HInvalidPath)) in
    Ret (fail_if negb (is_absolute joined) || negb (is_ok (ok_or (file_name joined) HInvalidPath))
              || (4096 <? normalized_len (path_components joined)) with HInvalidPath in
         Ok (path_components joined)).

(** ** Checks on a handle *)
Definition is_directory (stat : Stat) : bool := Z.land (st_mode stat) 61440 =? 16384.
Definition is_regular (stat : Stat) : bool := Z.land (st_mode stat) 61440 =? 32768.

Definition directory_ok (stat : Stat) (owner : Ownership) (sticky_allowed : bool) : result HostError unit :=
  fail_if negb (is_directory stat) || negb (trusted_owner stat owner) with HInsecure in
  let trusted_sticky := sticky_allowed && (st_uid stat =? 0) && negb (Z.land (st_mode stat) 512 =? 0) in
  fail_if negb (Z.land (st_mode stat) 18 =? 0) && negb trusted_sticky with HInsecure in Ok tt.
Definition validate_directory (fd : Fd) (owner : Ownership) (sticky_allowed : bool) : linux (result HostError unit) :=
  do? stat := available (linux_call (Fstat fd)) in Ret (directory_ok stat owner sticky_allowed).

Definition validate_file (stat : Stat) (owner : Ownership) (private : bool) : result HostError unit :=
  fail_if negb (is_regular stat) || negb (st_nlink stat =? 1) || negb (trusted_owner stat owner)
       || negb (Z.land (st_mode stat) (if private then 63 else 18) =? 0) || (st_size stat <? 0) with HInsecure in Ok tt.

(** [parent_handle], below the handle of the root *)
Fixpoint walk (parent : Fd) (names : list (list Z)) (owner : Ownership) : linux (result HostError Fd) :=
  match names with
  | [] => Ret (Ok parent)
  | name :: names =>
      if parent_dir name then Ret (Err HInvalidPath)
      else
        do? parent := available (linux_call (OpenDirAt parent name)) in
        do? _ := validate_directory parent owner true in
        walk parent names owner
  end.

Definition parent_handle (components : list (list Z)) (owner : Ownership) (private_parent : bool) :
    linux (result HostError (Fd * list Z)) :=
  do? root := available (linux_call OpenRoot) in
  do? _ := validate_directory root owner false in
  do? parent := walk root (removelast components) owner in
  do? _ := (if private_parent then validate_directory parent owner false else Ret (Ok tt)) in
  Ret (let? name := ok_or (last components) HInvalidPath in
       fail_if parent_dir name with HInvalidPath in Ok (parent, name)).

(** ** Reading *)
Definition read_protected (components : list (list Z)) (max_bytes : Z) (private : bool) (owner : Ownership) :
    linux (result HostError (list Z)) :=
  do? handle := parent_handle components owner false in
  let '(parent, name) := handle in
  do? fd := available (linux_call (OpenReadAt parent name)) in
  do? stat := available (linux_call (Fstat fd)) in
  do? _ := Ret (validate_file stat owner private) in
  if max_bytes <? st_size stat then Ret (Err HLimit)
  else
    do? buffer := available (linux_call (ReadUpTo fd (max_bytes + 1))) in
    Ret (fail_if max_bytes <? zlen buffer with HLimit in Ok buffer).

Definition linux_read_config (path : list Z) (max_bytes : Z) : linux (result HostError (list Z)) :=
  do? components := validate_path path true in read_protected components max_bytes false Operator.
Definition linux_read_secret (path : list Z) (max_bytes : Z) : linux (result HostError (list Z)) :=
  do? components := validate_path path false in read_protected components max_bytes true Operator.

(** [read_config] and [read_secret] of [lib.rs] *)
Definition host_read_config (path : list Z) (max_bytes : Z) : linux (result HostError (list Z)) :=
  if (max_bytes =? 0) || (1024 * 1024 <? max_bytes) then Ret (Err HLimit) else linux_read_config path max_bytes.
Definition host_read_secret (path : list Z) (max_bytes : Z) : linux (result HostError (list Z)) :=
  if (max_bytes =? 0) || (16 * 1024 * 1024 <? max_bytes) then Ret (Err HLimit) else linux_read_secret path max_bytes.

Definition openwrt_marker (bytes : list Z) : bool :=
  match from_utf8 bytes with
  | None => false
  | Some text =>
      bool_decide (filter (fun line => starts_with "DISTRIB_ID=" line = true) (trim <$> lines text) = ["DISTRIB_ID='OpenWrt'"%string])
  end.
Definition verify_openwrt_local : linux (result HostError unit) :=
  do? bytes := read_protected [str_bytes "etc"; str_bytes "openwrt_release"] (16 * 1024) false Root in
  Ret (if openwrt_marker bytes then Ok tt else Err HUnsupported).

(** ** The private log *)
Definition file_at (parent : Fd) (name : list Z) : linux (result HostError (option Stat)) :=
  do! found := linux_call (StatAt parent name) in
  Ret (match found with
       | Found stat => let? _ := validate_file stat Operator true in Ok (Some stat)
       | NotFound => Ok None
       | StatFailed => Err HUnavailable
       end).

Definition append_file (parent : Fd) (name : list Z) : linux (result HostError Fd) :=
  do? fd := available (linux_call (OpenAppendAt parent name)) in
  do? stat := available (linux_call (Fstat fd)) in
  do? _ := Ret (validate_file stat Operator false) in
  do? _ := available (linux_call (FchmodPrivate fd)) in
  do? stat := available (linux_call (Fstat fd)) in
  do? _ := Ret (validate_file stat Operator true) in
  Ret (Ok fd).

Record PrivateLog : Type := {
  g_parent : Fd; g_name : list Z; g_file : option Fd; g_size : Z; g_max_bytes : Z; g_retained : nat
}.
Definition set_file (file : option Fd) (g : PrivateLog) : PrivateLog :=
  {| g_parent := g_parent g; g_name := g_name g; g_file := file; g_size := g_size g; g_max_bytes := g_max_bytes g; g_retained := g_retained g |}.
Definition set_size (size : Z) (g : PrivateLog) : PrivateLog :=
  {| g_parent := g_parent g; g_name := g_name g; g_file := g_file g; g_size := size; g_max_bytes := g_max_bytes g; g_retained := g_retained g |}.

Definition linux_log_open (path : list Z) (max_bytes : Z) (retained : nat) : linux (result HostError PrivateLog) :=
  do? components := validate_path path false in
  do? handle := parent_handle components Operator true in
  do? file := append_file (fst handle) (snd handle) in
  do? size := available (linux_call (MetadataLen file)) in
  Ret (Ok {| g_parent := fst handle; g_name := snd handle; g_file := Some file; g_size := size; g_max_bytes := max_bytes; g_retained := retained |}).

(** [PrivateLog::open] of [lib.rs] *)
Definition log_open (path : list Z) (max_bytes : Z) (retained : nat) : linux (result HostError PrivateLog) :=
  if (max_bytes =? 0) || (1073741824 <? max_bytes) || negb (in_range 1 100 (Z.of_nat retained)) then Ret (Err HLimit)
  else linux_log_open path max_bytes retained.

Definition generation (name : list Z) (index : nat) : list Z := name ++ [46] ++ str_bytes (dec (Z.of_nat index)).

(** A method on [&mut self] that fails leaves the log as it is by then. *)
Definition logging (A : Type) : Type := linux (PrivateLog * result HostError A).
Definition log_bind {A B} (p : logging A) (f : PrivateLog -> A -> logging B) : logging B :=
  do! r := p in match snd r with Ok a => f (fst r) a | Err e => Ret (fst r, Err e) end.
Definition keep {A} (g : PrivateLog) (p : linux (result HostError A)) : logging A := do! r := p in Ret (g, r).

Definition validate_active (g : PrivateLog) : linux (result HostError unit) :=
  match g_file g with
  | None => Ret (Err HUnavailable)
  | Some file =>
      do? opened := available (linux_call (Fstat file)) in
      do? _ := Ret (validate_file opened Operator true) in
      do? named := file_at (g_parent g) (g_name g) in
      do? named := Ret (ok_or named HInsecure) in
      Ret (fail_if negb (st_ino named =? st_ino opened) || negb (st_dev named =? st_dev opened)
                || negb (st_size opened mod (U64_MAX + 1) =? g_size g) with HInsecure in Ok tt)
  end.

(** The checks [1..=retained] of [rotate]. *)
Fixpoint check_generations (g : PrivateLog) (indices : list nat) : linux (result HostError unit) :=
  match indices with
  | [] => Ret (Ok tt)
  | index :: indices => do? _ := file_at (g_parent g) (generation (g_name g) index) in check_generations g indices
  end.
(** The renames of [(1..retained).rev()]. *)
Fixpoint shift_generations (g : PrivateLog) (indices : list nat) : linux (result HostError unit) :=
  match indices with
  | [] => Ret (Ok tt)
  | index :: indices =>
      do? source := file_at (g_parent g) (generation (g_name g) index) in
      do? _ := (match source with
                | Some _ => available (linux_call (RenameAt (g_parent g) (generation (g_name g) index) (generation (g_name g) (index + 1))))
                | None => Ret (Ok tt)
                end) in
      shift_generations g indices
  end.

Definition rotate_closed (g : PrivateLog) : linux (result HostError Fd) :=
  let oldest := generation (g_name g) (g_retained g) in
  do? found := file_at (g_parent g) oldest in
  do? _ := (match found with Some _ => available (linux_call (UnlinkAt (g_parent g) oldest)) | None => Ret (Ok tt) end) in
  do? _ := shift_generations g (reverse (seq 1 (g_retained g - 1))) in
  do? _ := available (linux_call (RenameAt (g_parent g) (g_name g) (generation (g_name g) 1))) in
  append_file (g_parent g) (g_name g).

(** [self.file.take()] *)
Definition take_file (g : PrivateLog) : linux PrivateLog :=
  do! _ := (match g_file g with Some fd => linux_call (CloseFile fd) | None => Ret tt end) in Ret (set_file None g).

Definition rotate (g : PrivateLog) : logging unit :=
  log_bind (keep g (check_generations g (seq 1 (g_retained g)))) (fun g _ =>
  do! g := take_file g in
  log_bind (keep g (rotate_closed g)) (fun g file => Ret (set_size 0 (set_file (Some file) g), Ok tt))).

Definition write_inner (g : PrivateLog) (bytes : list Z) : logging unit :=
  match g_file g with
  | None => Ret (g, Err HUnavailable)
  | Some _ =>
      if g_max_bytes g <? zlen bytes then Ret (g, Err HLimit)
      else
        log_bind (keep g (validate_directory (g_parent g) Operator false)) (fun g _ =>
        log_bind (keep g (validate_active g)) (fun g _ =>
        log_bind (if g_max_bytes g <? Z.min (g_size g + zlen bytes) U64_MAX then rotate g else Ret (g, Ok tt)) (fun g _ =>
        match g_file g with
        | None => Ret (g, Err HUnavailable)
        | Some file =>
            log_bind (keep g (available (linux_call (WriteAll file bytes)))) (fun g _ =>
            Ret (set_size (Z.min (g_size g + zlen bytes) U64_MAX) g, Ok tt))
        end)))
  end.

Definition log_write (g : PrivateLog) (bytes : list Z) : logging unit :=
  do! r := write_inner g bytes in
  match snd r with
  | Ok _ => Ret r
  | Err e => do! g := take_file (fst r) in Ret (g, Err e)
  end.

(** ** The system log *)
Definition system_log_open : linux (result HostError unit) :=
  do? _ := available (linux_call SocketUnbound) in
  do? _ := available (linux_call (SocketConnect (str_bytes "/dev/log"))) in
  available (linux_call SocketNonblocking).
Definition system_log_send (bytes : list Z) : linux (result HostError unit) :=
  do! sent := linux_call (SocketSend bytes) in
  Ret (match sent with Some count => if count =? zlen bytes then Ok tt else Err HUnavailable | None => Err HUnavailable end).
End host.

(** * A directory that may fail

    The world the private log is run in: the directory it holds open, whose
    operations do what POSIX says unless a script makes them fail (a failing
    write lands any prefix of its bytes).  A file handle is named by its inode;
    zero is the directory itself.  Every file is the process's own. *)

Record Dir : Type := {
  d_entries : gmap (list Z) nat; d_data : gmap nat (list Z); d_next : nat; d_faults : list (option nat)
}.

Section posix.
Context (euid : Z).

Definition dir_stat : Stat := {| st_mode := 16832; st_uid := euid; st_nlink := 2; st_size := 0; st_ino := 0; st_dev := 0 |}.
Definition file_stat (ino : nat) (data : list Z) : Stat :=
  {| st_mode := 33152; st_uid := euid; st_nlink := 1; st_size := zlen data; st_ino := Z.of_nat ino; st_dev := 0 |}.

Definition set_faults (l : list (option nat)) (w : Dir) : Dir :=
  {| d_entries := d_entries w; d_data := d_data w; d_next := d_next w; d_faults := l |}.
Definition set_entries (m : gmap (list Z) nat) (w : Dir) : Dir :=
  {| d_entries := m; d_data := d_data w; d_next := d_next w; d_faults := d_faults w |}.
Definition set_data (m : gmap nat (list Z)) (w : Dir) : Dir :=
  {| d_entries := d_entries w; d_data := m; d_next := d_next w; d_faults := d_faults w |}.

(** The fault of this call, and the world after it was drawn. *)
Definition draw (w : Dir) : option nat * Dir :=
  match d_faults w with [] => (None, w) | f :: l => (f, set_faults l w) end.

Definition created (name : list Z) (w : Dir) : nat * Dir :=
  match d_entries w !! name with
  | Some ino => (ino, w)
  | None =>
      (d_next w, {| d_entries := <[name := d_next w]> (d_entries w); d_data := <[d_next w := []]> (d_data w);
                    d_next := S (d_next w); d_faults := d_faults w |})
  end.
Definition appended (fd : nat) (bytes : list Z) (w : Dir) : Dir :=
  match d_data w !! fd with Some data => set_data (<[fd := data ++ bytes]> (d_data w)) w | None => w end.
Definition renamed (old new : list Z) (w : Dir) : Dir :=
  match d_entries w !! old with Some ino => set_entries (<[new := ino]> (delete old (d_entries w))) w | None => w end.

Definition fail_or {A} (f : option nat) (ok : option A * Dir) (w : Dir) : option A * Dir :=
  match f with Some _ => (None, w) | None => ok end.

Definition posix (c : LinuxCall) (w : Dir) : LinuxAnswer c * Dir :=
  let '(f, w) := draw w in
  match c return LinuxAnswer c * Dir with
  | OpenAppendAt _ name => fail_or f (let '(ino, w) := created name w in (Some ino, w)) w
  | Fstat fd =>
      fail_or f (if (fd =? 0)%nat then (Some dir_stat, w)
                 else match d_data w !! fd with Some data => (Some (file_stat fd data), w) | None => (None, w) end) w
  | StatAt _ name =>
      match f with
      | Some _ => (StatFailed, w)
      | None =>
          match d_entries w !! name with
          | Some ino => (match d_data w !! ino with Some data => Found (file_stat ino data) | None => StatFailed end, w)
          | None => (NotFound, w)
          end
      end
  | FchmodPrivate _ => fail_or f (Some tt, w) w
  | MetadataLen fd => fail_or f (match d_data w !! fd with Some data => (Some (zlen data), w) | None => (None, w) end) w
  | WriteAll fd bytes => match f with Some k => (None, appended fd (take k bytes) w) | None => (Some tt, appended fd bytes w) end
  | UnlinkAt _ name => fail_or f (Some tt, set_entries (delete name (d_entries w)) w) w
  | RenameAt _ old new => fail_or f (match d_entries w !! old with Some _ => (Some tt, renamed old new w) | None => (None, w) end) w
  | CloseFile _ => (tt, w)
  (* not called by an open log *)
  | CurrentDir => (None, w)
  | OpenRoot | OpenDirAt _ _ | OpenReadAt _ _ => (None, w)
  | ReadUpTo _ _ => (None, w)
  | SocketUnbound | SocketConnect _ | SocketNonblocking => (None, w)
  | SocketSend _ => (None, w)
  end.
End posix.

(** What a directory of the log always satisfies: no two names for one file,
    and no name without its file. *)
Record sound (w : Dir) : Prop := {
  sound_inj : forall a b ino, d_entries w !! a = Some ino -> d_entries w !! b = Some ino -> a = b;
  sound_data : forall a ino, d_entries w !! a = Some ino -> is_Some (d_data w !! ino);
  sound_next : forall ino, is_Some (d_data w !! ino) -> (0 < ino < d_next w)%nat;
  sound_root : (0 < d_next w)%nat
}.

Definition content (w : Dir) (name : list Z) : option (list Z) := d_entries w !! name ≫= fun ino => d_data w !! ino.

Lemma content_some w name ino data : d_entries w !! name = Some ino -> d_data w !! ino = Some data -> content w name = Some data.
Proof. unfold content. by intros -> Hd. Qed.

Lemma content_entry w name : sound w -> (content w name = None <-> d_entries w !! name = None).
Proof.
  intros Hw. unfold content. destruct (d_entries w !! name) as [ino |] eqn:E; [| done]. cbn [mbind option_bind].
  destruct (sound_data w Hw name ino E) as [data ->]. done.
Qed.

(** ** What each change does to the contents *)
Lemma content_sound w name data : content w name = Some data -> exists ino, d_entries w !! name = Some ino /\ d_data w !! ino = Some data.
Proof. unfold content. intros Hc. apply bind_Some in Hc as (ino & He & Hd). by exists ino. Qed.

Lemma created_content name w ino w' :
  sound w -> created name w = (ino, w') ->
  sound w' /\ d_entries w' !! name = Some ino /\ d_faults w' = d_faults w
  /\ forall a, content w' a = if decide (a = name) then Some (default [] (content w name)) else content w a.
Proof.
  intros Hw Hc. unfold created in Hc. destruct (d_entries w !! name) as [i |] eqn:E; injection Hc as <- <-.
  - split; [done |]. split; [done |]. split; [done |]. intros a. case_decide as Ha; [| done]. subst a.
    destruct (sound_data w Hw name i E) as [data Hd]. by rewrite (content_some w name i data E Hd).
  - destruct Hw as [Hinj Hdata Hnext Hpos].
    assert (Hfresh : forall a i, d_entries w !! a = Some i -> i <> d_next w) by (intros a i Ha; apply Hdata in Ha; apply Hnext in Ha; lia).
    split; [| split; [apply lookup_insert_eq | split; [done |]]].
    + split; cbn [d_entries d_data d_next].
      * intros a b i Ha Hb. destruct (decide (a = name)) as [-> | Hna], (decide (b = name)) as [-> | Hnb]; [done | | |].
        -- rewrite lookup_insert_eq in Ha. injection Ha as <-. rewrite lookup_insert_ne in Hb by done. by destruct (Hfresh _ _ Hb).
        -- rewrite lookup_insert_eq in Hb. injection Hb as <-. rewrite lookup_insert_ne in Ha by done. by destruct (Hfresh _ _ Ha).
        -- rewrite lookup_insert_ne in Ha, Hb by done. by eapply Hinj.
      * intros a i Ha. destruct (decide (i = d_next w)) as [-> | Hi]; [by rewrite lookup_insert_eq |]. rewrite lookup_insert_ne by done.
        destruct (decide (a = name)) as [-> | Hna]; [rewrite lookup_insert_eq in Ha; by injection Ha as <- |].
        rewrite lookup_insert_ne in Ha by done. by eapply Hdata.
      * intros i Hi. destruct (decide (i = d_next w)) as [-> | Hn]; [lia |]. rewrite lookup_insert_ne in Hi by done. apply Hnext in Hi. lia.
      * lia.
    + intros a. unfold content. cbn [d_entries d_data]. case_decide as Ha.
      * subst a. rewrite lookup_insert_eq, E. cbn. by rewrite lookup_insert_eq.
      * rewrite lookup_insert_ne by done. destruct (d_entries w !! a) as [i |] eqn:Ea; [| done]. cbn [mbind option_bind].
        rewrite lookup_insert_ne; [done |]. by apply not_eq_sym, (Hfresh a).
Qed.

Lemma appended_content name w ino data bytes :
  sound w -> d_entries w !! name = Some ino -> d_data w !! ino = Some data ->
  let w' := appended ino bytes w in
  sound w' /\ d_entries w' = d_entries w /\ d_data w' !! ino = Some (data ++ bytes)
  /\ forall a, content w' a = if decide (a = name) then Some (data ++ bytes) else content w a.
Proof.
  intros [Hinj Hdata Hnext Hpos] He Hd w'. unfold w', appended. rewrite Hd. cbn [d_entries d_data set_data].
  split; [| split; [done | split; [apply lookup_insert_eq |]]].
  - split; cbn [d_entries d_data d_next set_data]; [done | | |].
    + intros a i Ha. destruct (decide (i = ino)) as [-> | Hi]; [by rewrite lookup_insert_eq | rewrite lookup_insert_ne by done; by eapply Hdata].
    + intros i Hi. apply Hnext. destruct (decide (i = ino)) as [-> | Hn]; [by eexists | by rewrite lookup_insert_ne in Hi].
    + done.
  - intros a. unfold content. cbn [d_entries d_data set_data]. case_decide as Ha; [subst a; rewrite He; cbn; by rewrite lookup_insert_eq |].
    destruct (d_entries w !! a) as [i |] eqn:Ea; [| done]. cbn [mbind option_bind]. rewrite lookup_insert_ne; [done |].
    intros ->. by apply Ha, (Hinj a name i).
Qed.

Lemma renamed_content old new w data :
  sound w -> old <> new -> content w old = Some data ->
  let w' := renamed old new w in
  sound w' /\ d_data w' = d_data w
  /\ forall a, content w' a = if decide (a = new) then Some data else if decide (a = old) then None else content w a.
Proof.
  intros [Hinj Hdata Hnext Hpos] Hne Hc w'. apply content_sound in Hc as (ino & He & Hd). unfold w', renamed. rewrite He. cbn [d_data set_entries].
  split; [| split; [done |]].
  - split; cbn [d_entries d_data d_next set_entries]; [| | done | done].
    + intros a b i Ha Hb. destruct (decide (a = new)) as [-> | Hna], (decide (b = new)) as [-> | Hnb]; [done | | |].
      * rewrite lookup_insert_eq in Ha. injection Ha as <-. rewrite lookup_insert_ne in Hb by done. apply lookup_delete_Some in Hb as [Hob Hb].
        destruct Hob. by apply (Hinj old b ino).
      * rewrite lookup_insert_eq in Hb. injection Hb as <-. rewrite lookup_insert_ne in Ha by done. apply lookup_delete_Some in Ha as [Hoa Ha].
        destruct Hoa. by apply (Hinj old a ino).
      * rewrite lookup_insert_ne in Ha, Hb by done. apply lookup_delete_Some in Ha as [_ Ha]. apply lookup_delete_Some in Hb as [_ Hb]. by eapply Hinj.
    + intros a i Ha. destruct (decide (a = new)) as [-> | Hna]; [rewrite lookup_insert_eq in Ha; injection Ha as <-; by eexists |].
      rewrite lookup_insert_ne in Ha by done. apply lookup_delete_Some in Ha as [_ Ha]. by eapply Hdata.
  - intros a. unfold content. cbn [d_entries d_data set_entries]. case_decide as Ha; [subst a; by rewrite lookup_insert_eq |].
    rewrite lookup_insert_ne by done. case_decide as Ho; [subst a; by rewrite lookup_delete_eq | by rewrite lookup_delete_ne].
Qed.

Lemma unlinked_content name w :
  sound w -> let w' := set_entries (delete name (d_entries w)) w in
  sound w' /\ d_data w' = d_data w /\ forall a, content w' a = if decide (a = name) then None else content w a.
Proof.
  intros [Hinj Hdata Hnext Hpos] w'. unfold w'. split; [| split; [done |]].
  - split; cbn [d_entries d_data d_next set_entries]; [| | done | done].
    + intros a b i Ha Hb. apply lookup_delete_Some in Ha as [_ Ha]. apply lookup_delete_Some in Hb as [_ Hb]. by eapply Hinj.
    + intros a i Ha. apply lookup_delete_Some in Ha as [_ Ha]. by eapply Hdata.
  - intros a. unfold content. cbn [d_entries d_data set_entries]. case_decide as Ha; [subst a; by rewrite lookup_delete_eq | by rewrite lookup_delete_ne].
Qed.
