(* ===== verification/Rotation.v ===== *)
(** * The private log and its rotation

    Run in a directory that may fail, the log is what it looks like: a
    bounded list of files that hold the most recent records, whole and in
    order.  File 0 is the active file, file [i] the generation [i]. *)
From stdpp Require Import gmap.
From S2P Require Import Prelude Text Program Ciphertext Linux.
Open Scope Z_scope.

Section rotation.
Context (euid : Z).
Notation holds := (holds (posix euid)).

(** ** Files by their index *)
Definition file (name : list Z) (i : nat) : list Z := match i with O => name | S _ => generation name i end.

Lemma file_inj name i j : Z.of_nat i <= U64_MAX -> Z.of_nat j <= U64_MAX -> file name i = file name j -> i = j.
Proof.
  intros Hi Hj Heq.
  assert (Hlen : forall k, file name (S k) <> name).
  { intros k Hk. apply (f_equal length) in Hk. unfold file, generation in Hk. rewrite !length_app in Hk. cbn [length] in Hk. lia. }
  destruct i as [| i], j as [| j]; [done | by destruct (Hlen j) | by destruct (Hlen i) |].
  unfold file, generation in Heq. apply app_inv_head in Heq. injection Heq as Heq.
  apply (f_equal bytes_str) in Heq. rewrite !bytes_str_bytes in Heq.
  pose proof (parse_dec (Z.of_nat (S i)) ltac:(lia)) as Pi. pose proof (parse_dec (Z.of_nat (S j)) ltac:(lia)) as Pj.
  rewrite Heq, Pj in Pi. injection Pi as Pi. lia.
Qed.

(** ** The same directory, some faults later *)
Definition like (w w' : Dir) : Prop := d_entries w' = d_entries w /\ d_data w' = d_data w /\ d_next w' = d_next w.

Lemma like_refl w : like w w.
Proof. done. Qed.
Lemma like_trans w1 w2 w3 : like w1 w2 -> like w2 w3 -> like w1 w3.
Proof. intros (E1 & D1 & N1) (E2 & D2 & N2). split; [by rewrite E2 | split; [by rewrite D2 | by rewrite N2]]. Qed.
Lemma like_sound w w' : like w w' -> sound w -> sound w'.
Proof. intros (E & D & N) [H1 H2 H3 H4]. split; rewrite ?E, ?D, ?N; auto. Qed.
Lemma like_content w w' a : like w w' -> content w' a = content w a.
Proof. intros (E & D & N). unfold content. by rewrite E, D. Qed.

Lemma draw_like w : like w (snd (draw w)).
Proof. unfold draw. by destruct (d_faults w). Qed.

(** ** The calls *)

Lemma call_holds c w (Q : LinuxAnswer c -> Dir -> Prop) :
  Q (fst (posix euid c w)) (snd (posix euid c w)) -> holds (linux_call c) w Q.
Proof. unfold Program.holds. cbn [interp Program.call]. by destruct (posix euid c w). Qed.

Lemma available_holds {A} (p : linux (option A)) w (Q : result HostError A -> Dir -> Prop) :
  holds p w (fun r w' => Q (ok_or r HUnavailable) w') -> holds (available p) w Q.
Proof. intros Hp. unfold available. apply holds_bind. eapply holds_mono; [exact Hp |]. by intros r w' H. Qed.

Lemma fstat_holds fd data w (Q : result HostError Stat -> Dir -> Prop) :
  d_data w !! fd = Some data -> (0 < fd)%nat ->
  (forall w', like w w' -> Q (Err HUnavailable) w') -> (forall w', like w w' -> Q (Ok (file_stat euid fd data)) w') ->
  holds (available (linux_call (Fstat fd))) w Q.
Proof.
  intros Hd Hfd He Hk. apply available_holds, (call_holds (Fstat fd)). pose proof (draw_like w) as Hl. unfold posix. destruct (draw w) as [f w']. cbn [snd] in Hl. cbv beta iota.
  replace (fd =? 0)%nat with false by (symmetry; apply Nat.eqb_neq; lia). destruct Hl as (HE & HD & HN). rewrite HD, Hd.
  destruct f; cbn [fail_or fst snd]; [by apply He | by apply Hk].
Qed.

Lemma dir_holds w (Q : result HostError unit -> Dir -> Prop) :
  (forall w', like w w' -> Q (Err HUnavailable) w') -> (forall w', like w w' -> Q (Ok tt) w') ->
  holds (validate_directory euid 0 Operator false) w Q.
Proof.
  intros He Hk. unfold validate_directory. apply holds_try, available_holds, (call_holds (Fstat 0)). pose proof (draw_like w) as Hl. unfold posix.
  destruct (draw w) as [f w']. cbn [snd] in Hl. cbv beta iota. destruct f; cbn [fail_or fst snd Nat.eqb ok_or]; [by apply He |].
  apply holds_ret. unfold directory_ok, trusted_owner. cbn [st_uid dir_stat is_directory st_mode]. rewrite (Z.eqb_refl euid), orb_true_r. by apply Hk.
Qed.

Lemma own_file_ok ino data private : validate_file euid (file_stat euid ino data) Operator private = Ok tt.
Proof.
  unfold validate_file, trusted_owner. cbn [st_uid st_mode st_nlink st_size is_regular file_stat]. rewrite (Z.eqb_refl euid), orb_true_r.
  replace (zlen data <? 0) with false by (symmetry; apply Z.ltb_ge; lia). by destruct private.
Qed.

Lemma stat_at_holds name w (Q : result HostError (option Stat) -> Dir -> Prop) :
  sound w ->
  (forall w', like w w' -> Q (Err HUnavailable) w') ->
  (forall w', like w w' -> content w name = None -> Q (Ok None) w') ->
  (forall w' ino data, like w w' -> d_entries w !! name = Some ino -> d_data w !! ino = Some data -> Q (Ok (Some (file_stat euid ino data))) w') ->
  holds (file_at euid 0 name) w Q.
Proof.
  intros Hw He Hn Hs. unfold file_at. apply holds_call. pose proof (draw_like w) as Hl. unfold posix. destruct (draw w) as [f w']. cbn [snd] in Hl. cbv beta iota.
  pose proof Hl as (HE & HD & HN). destruct f; cbn [fst snd]; [apply holds_ret; by apply He |]. rewrite HE.
  destruct (d_entries w !! name) as [ino |] eqn:E; cbn [fst snd]; apply holds_ret.
  - rewrite HD. destruct (sound_data w Hw name ino E) as [data Hd]. rewrite Hd. rewrite own_file_ok. by apply Hs.
  - apply Hn; [done |]. by apply content_entry.
Qed.

(** ** The files of one log *)
Context (name : list Z) (retained : nat).
Context (Hretained : (1 <= retained <= 100)%nat).

(** What the active file (0) and the generations hold. *)
Definition shows (w : Dir) (files : nat -> option (list Z)) : Prop :=
  sound w /\ forall i, (i <= retained)%nat -> content w (file name i) = files i.
Definition put (i : nat) (v : option (list Z)) (files : nat -> option (list Z)) (j : nat) : option (list Z) :=
  if decide (j = i) then v else files j.

(** Everything the files hold, the oldest first. *)
Fixpoint chronicle (files : nat -> option (list Z)) (oldest : nat) : list Z :=
  match oldest with O => default [] (files O) | S i => default [] (files (S i)) ++ chronicle files i end.

Lemma file_eq i j : (i <= retained)%nat -> (j <= retained)%nat -> file name i = file name j <-> i = j.
Proof. intros Hi Hj. split; [| by intros ->]. apply file_inj; unfold U64_MAX; lia. Qed.

Lemma file_above i : (i <= retained)%nat -> i <> 0%nat -> file name i <> name.
Proof. intros Hi H0 He. apply H0, (file_eq i 0); [done | lia | exact He]. Qed.

Lemma shows_like w w' files : like w w' -> shows w files -> shows w' files.
Proof. intros Hl [Hs Hc]. split; [by eapply like_sound |]. intros i Hi. rewrite (like_content w w') by done. by apply Hc. Qed.
Lemma shows_ext w files files' : (forall i, (i <= retained)%nat -> files i = files' i) -> shows w files -> shows w files'.
Proof. intros He [Hs Hc]. split; [done |]. intros i Hi. rewrite <- He by done. by apply Hc. Qed.

Lemma chronicle_ext files files' m : (forall i, (i <= m)%nat -> files i = files' i) -> chronicle files m = chronicle files' m.
Proof. induction m as [| m IH]; intros He; cbn [chronicle]; [by rewrite He | rewrite He by lia; f_equal; apply IH; auto with lia]. Qed.

(** Moving a file up into a free place changes nothing of what is held. *)
Lemma chronicle_move files i m :
  (i < m)%nat -> files (S i) = None -> chronicle (put (S i) (files i) (put i None files)) m = chronicle files m.
Proof.
  intros Hi Hfree. induction m as [| m IH]; [lia |]. cbn [chronicle]. destruct (decide (m = i)) as [-> | Hne].
  - rewrite Hfree. unfold put at 1. rewrite decide_True by done. destruct i as [| i]; cbn [chronicle]; unfold put at 1.
    + rewrite decide_False by lia. unfold put. rewrite decide_True by done. cbn. by rewrite app_nil_r.
    + rewrite decide_False by lia. unfold put at 1. rewrite decide_True by done. cbn [default from_option app]. f_equal.
      apply chronicle_ext. intros j Hj. unfold put. by rewrite !decide_False by lia.
  - unfold put at 1 2. rewrite !decide_False by lia. f_equal. apply IH. lia.
Qed.

Lemma chronicle_lost files m : (0 < m)%nat -> default [] (files m) ++ chronicle (put m None files) m = chronicle files m.
Proof.
  destruct m as [| m]; [lia |]. intros _. cbn [chronicle]. unfold put at 1. rewrite decide_True by done. cbn [default from_option app]. f_equal.
  apply chronicle_ext. intros j Hj. unfold put. by rewrite decide_False by lia.
Qed.

(** ** The steps of a rotation *)
Notation at_ i := (file_at euid 0 (file name i)).

Lemma at_holds i w files (Q : result HostError (option Stat) -> Dir -> Prop) :
  shows w files -> (i <= retained)%nat ->
  (forall w' e, shows w' files -> Q (Err e) w') ->
  (forall w', shows w' files -> files i = None -> Q (Ok None) w') ->
  (forall w' s data, shows w' files -> files i = Some data -> Q (Ok (Some s)) w') ->
  holds (at_ i) w Q.
Proof.
  intros Hw Hi He Hn Hs. pose proof Hw as [Hsound Hc]. apply stat_at_holds; [done | | |].
  - intros w' Hl. apply He. by eapply shows_like.
  - intros w' Hl Hz. apply Hn; [by eapply shows_like | by rewrite <- Hc].
  - intros w' ino data Hl He' Hd. apply (Hs w' _ data); [by eapply shows_like |]. rewrite <- Hc by done. by eapply content_some.
Qed.

Lemma rename_holds i j data w files (Q : result HostError unit -> Dir -> Prop) :
  shows w files -> (i <= retained)%nat -> (j <= retained)%nat -> i <> j -> files i = Some data ->
  (forall w', shows w' files -> Q (Err HUnavailable) w') ->
  (forall w', shows w' (put j (files i) (put i None files)) -> Q (Ok tt) w') ->
  holds (available (linux_call (RenameAt 0 (file name i) (file name j)))) w Q.
Proof.
  intros Hw Hi Hj Hne Hdata He Hk. apply available_holds, (call_holds (RenameAt _ _ _)). pose proof (draw_like w) as Hl. unfold posix.
  destruct (draw w) as [f w']. cbn [snd] in Hl. cbv beta iota. pose proof (shows_like _ _ _ Hl Hw) as Hw'. destruct Hw' as [Hsound Hc].
  pose proof (Hc i Hi) as Hci. rewrite Hdata in Hci. pose proof (content_sound _ _ _ Hci) as (ino & Hino & _). rewrite Hino.
  destruct f; cbn [fail_or fst snd ok_or]; [by apply He |]. apply Hk.
  destruct (renamed_content (file name i) (file name j) w' data) as (Hs' & _ & Hc'); [done | by rewrite file_eq | done |].
  split; [done |]. intros k Hkr. rewrite Hc'. unfold put. destruct (decide (k = j)) as [-> | Hkj].
  - by rewrite decide_True, Hdata by done.
  - rewrite decide_False by (rewrite file_eq by done; done). destruct (decide (k = i)) as [-> | Hki]; [by rewrite decide_True |].
    rewrite decide_False by (rewrite file_eq by done; done). by apply Hc.
Qed.

Lemma unlink_holds i w files (Q : result HostError unit -> Dir -> Prop) :
  shows w files -> (i <= retained)%nat ->
  (forall w', shows w' files -> Q (Err HUnavailable) w') ->
  (forall w', shows w' (put i None files) -> Q (Ok tt) w') ->
  holds (available (linux_call (UnlinkAt 0 (file name i)))) w Q.
Proof.
  intros Hw Hi He Hk. apply available_holds, (call_holds (UnlinkAt _ _)). pose proof (draw_like w) as Hl. unfold posix.
  destruct (draw w) as [f w']. cbn [snd] in Hl. cbv beta iota. pose proof (shows_like _ _ _ Hl Hw) as [Hsound Hc].
  destruct f; cbn [fail_or fst snd ok_or]; [by apply He |]. apply Hk.
  destruct (unlinked_content (file name i) w' Hsound) as (Hs' & _ & Hc'). split; [done |]. intros k Hkr. rewrite Hc'. unfold put.
  destruct (decide (k = i)) as [-> | Hki]; [by rewrite decide_True |]. rewrite decide_False by (rewrite file_eq by done; done). by apply Hc.
Qed.

(** The log holds the active file open, and knows how long it is. *)
Definition opened (w : Dir) (fd : nat) (data : list Z) : Prop :=
  d_entries w !! name = Some fd /\ d_data w !! fd = Some data /\ (0 < fd)%nat.

Lemma opened_like w w' fd data : like w w' -> opened w fd data -> opened w' fd data.
Proof. intros (E & D & N) (He & Hd & Hfd). split; [by rewrite E | split; [by rewrite D | done]]. Qed.

Lemma chmod_holds fd w (Q : result HostError unit -> Dir -> Prop) :
  (forall w', like w w' -> Q (Err HUnavailable) w') -> (forall w', like w w' -> Q (Ok tt) w') ->
  holds (available (linux_call (FchmodPrivate fd))) w Q.
Proof.
  intros He Hk. apply available_holds, (call_holds (FchmodPrivate _)). pose proof (draw_like w) as Hl. unfold posix.
  destruct (draw w) as [f w']. destruct f; [by apply He | by apply Hk].
Qed.

(** A new active file is empty. *)
Lemma append_file_holds w files (Q : result HostError nat -> Dir -> Prop) :
  shows w files -> files 0%nat = None ->
  (forall w' e, shows w' files \/ shows w' (put 0 (Some []) files) -> Q (Err e) w') ->
  (forall w' fd, shows w' (put 0 (Some []) files) -> opened w' fd [] -> Q (Ok fd) w') ->
  holds (append_file euid 0 name) w Q.
Proof.
  intros Hw H0 He Hk. unfold append_file. apply holds_try, available_holds, (call_holds (OpenAppendAt _ _)). pose proof (draw_like w) as Hl.
  unfold posix. destruct (draw w) as [f w0]. cbn [snd] in Hl. cbv beta iota. pose proof (shows_like _ _ _ Hl Hw) as Hw0. clear w Hl Hw.
  destruct f; cbn [fail_or fst snd ok_or]; [by apply He; left |]. destruct Hw0 as [Hs Hc]. destruct (created name w0) as [fd w1] eqn:Hcr. cbn [fst snd ok_or].
  destruct (created_content name w0 fd w1 Hs Hcr) as (Hs1 & He1 & _ & Hc1).
  assert (Hn : content w0 name = None) by (rewrite <- H0; by apply (Hc 0%nat); lia). rewrite Hn in Hc1. cbn [default from_option] in Hc1.
  assert (Hw1 : shows w1 (put 0 (Some []) files)).
  { split; [done |]. intros k Hk'. rewrite Hc1. unfold put. destruct (decide (k = 0%nat)) as [-> | Hk0]; [by rewrite decide_True |].
    rewrite decide_False by (by apply file_above). by apply Hc. }
  assert (Ho : opened w1 fd []).
  { pose proof (Hc1 name) as Hcn. rewrite decide_True in Hcn by done. apply content_sound in Hcn as (i & Hi & Hd). rewrite He1 in Hi. injection Hi as <-.
    split; [done |]. split; [done |]. by apply (sound_next w1 Hs1). }
  clear Hc Hcr He1 Hc1 Hn w0 Hs Hs1. pose proof Ho as (_ & Hd & Hfd).
  apply holds_try, (fstat_holds fd []); [done | done | |]; intros w2 Hl2; [apply He; right; by eapply shows_like |].
  apply holds_try, holds_ret. rewrite own_file_ok.
  apply holds_try, chmod_holds; intros w3 Hl3; pose proof (like_trans _ _ _ Hl2 Hl3) as Hl13; [apply He; right; by eapply shows_like |].
  pose proof (opened_like _ _ _ _ Hl13 Ho) as (_ & Hd3 & _).
  apply holds_try, (fstat_holds fd []); [done | done | |]; intros w4 Hl4; pose proof (like_trans _ _ _ Hl13 Hl4) as Hl14;
    [apply He; right; by eapply shows_like |].
  apply holds_try, holds_ret. rewrite own_file_ok. apply holds_ret. apply Hk; [by eapply shows_like | by eapply opened_like].
Qed.

(** [write_all] lands all of the bytes, or a prefix of them. *)
Lemma write_all_holds fd data bytes w files (Q : result HostError unit -> Dir -> Prop) :
  shows w files -> opened w fd data ->
  (forall w' k, shows w' (put 0 (Some (data ++ take k bytes)) files) -> Q (Err HUnavailable) w') ->
  (forall w', shows w' (put 0 (Some (data ++ bytes)) files) -> opened w' fd (data ++ bytes) -> Q (Ok tt) w') ->
  holds (available (linux_call (WriteAll fd bytes))) w Q.
Proof.
  intros Hw Ho He Hk. apply available_holds, (call_holds (WriteAll _ _)). pose proof (draw_like w) as Hl.
  unfold posix. destruct (draw w) as [f w0]. cbn [snd] in Hl. cbv beta iota. pose proof (shows_like _ _ _ Hl Hw) as [Hs Hc].
  pose proof (opened_like _ _ _ _ Hl Ho) as (Hen & Hd & Hfd). clear w Hl Hw Ho.
  assert (Hap : forall more, shows (appended fd more w0) (put 0 (Some (data ++ more)) files) /\ opened (appended fd more w0) fd (data ++ more)).
  { intros more. destruct (appended_content name w0 fd data more Hs Hen Hd) as (Hs' & Hen' & Hd' & Hc'). split.
    - split; [done |]. intros k Hkr. rewrite Hc'. unfold put. destruct (decide (k = 0%nat)) as [-> | Hk0]; [by rewrite decide_True |].
      rewrite decide_False by (by apply file_above). by apply Hc.
    - split; [by rewrite Hen' | done]. }
  destruct f as [k |]; cbn [fst snd ok_or]; [apply (He _ k) | apply Hk]; apply Hap.
Qed.

(** ** Rotating *)
Lemma check_generations_holds g ks w files (Q : result HostError unit -> Dir -> Prop) :
  g_parent g = 0%nat -> g_name g = name -> (forall i, i ∈ ks -> (1 <= i <= retained)%nat) -> shows w files ->
  (forall w' e, shows w' files -> Q (Err e) w') -> (forall w', shows w' files -> Q (Ok tt) w') ->
  holds (check_generations euid g ks) w Q.
Proof.
  intros Hp Hn Hks Hw He Hk. revert w Hw. induction ks as [| i ks IH]; intros w Hw; cbn [check_generations]; [by apply holds_ret, Hk |].
  pose proof (Hks i ltac:(by left)) as Hi. rewrite Hp, Hn. replace (generation name i) with (file name i) by (destruct i; [lia | done]).
  apply holds_try, (at_holds i w files); [done | lia | | |]; intros; [by apply He | |]; (apply IH; [| done]; intros; apply Hks; by right).
Qed.

(** Files 1 to [k] move up by one; what ks held stays. *)
Definition shifted (k : nat) (files : nat -> option (list Z)) (j : nat) : option (list Z) :=
  if decide (2 <= j <= S k)%nat then files (pred j) else if decide (j = 1%nat /\ k <> 0%nat) then None else files j.

(** A place that is free moves up as well. *)
Lemma shifted_gap k files i : files (S k) = None -> files (S (S k)) = None -> shifted k files i = shifted (S k) files i.
Proof.
  intros Hnone Hfree. unfold shifted. destruct (decide (i = S (S k))) as [-> | Hi].
  - rewrite decide_False by lia. rewrite decide_False by lia. rewrite decide_True by lia. cbn [pred]. by rewrite Hnone.
  - destruct (decide (i = 1%nat)) as [-> | H1]; [| repeat case_decide; done || lia].
    rewrite (decide_False (P := (2 <= 1 <= S k)%nat)), (decide_False (P := (2 <= 1 <= S (S k))%nat)) by lia.
    rewrite (decide_True (P := _ = _ /\ S k <> _)) by lia. case_decide as Hc; [done |]. replace (S k) with 1%nat in Hnone by lia. done.
Qed.

Lemma shift_holds g k w files (Q : result HostError unit -> Dir -> Prop) :
  g_parent g = 0%nat -> g_name g = name -> (k < retained)%nat -> shows w files -> files (S k) = None ->
  (forall w' e files', shows w' files' -> chronicle files' retained = chronicle files retained -> Q (Err e) w') ->
  (forall w', shows w' (shifted k files) -> chronicle (shifted k files) retained = chronicle files retained -> Q (Ok tt) w') ->
  holds (shift_generations euid g (reverse (seq 1 k))) w Q.
Proof.
  intros Hp Hn. revert w files. induction k as [| k IH]; intros w files Hkr Hw Hfree He Hk.
  { apply holds_ret, Hk; [| apply chronicle_ext; intros i Hi];
      [eapply shows_ext; [| exact Hw]; intros i Hi |]; unfold shifted; rewrite !decide_False by lia; done. }
  rewrite seq_S, reverse_snoc. cbn [shift_generations]. rewrite Hp, Hn.
  replace (1 + k)%nat with (S k) by lia. replace (S k + 1)%nat with (S (S k)) by lia.
  change (generation name (S k)) with (file name (S k)). change (generation name (S (S k))) with (file name (S (S k))).
  apply holds_try, (at_holds (S k) w files); [done | lia | by intros; eapply He | |].
  - intros w' Hw' Hnone. apply holds_try, holds_ret. apply (IH w' files); [lia | done | done | done |].
    intros w2 Hw2 Hch.
    assert (Heq : forall i, shifted k files i = shifted (S k) files i) by (intros i; by apply shifted_gap).
    apply Hk; [eapply shows_ext; [intros; apply Heq | done] | rewrite <- Hch; by apply chronicle_ext].
  - intros w' _ data Hw' Hdata. apply holds_try, (rename_holds (S k) (S (S k)) data w' files); [done | lia | lia | lia | done | |].
    + intros w2 Hw2. by eapply He.
    + intros w2 Hw2. set (files' := put _ _ _) in Hw2. assert (Hch' : chronicle files' retained = chronicle files retained) by (by apply chronicle_move).
      apply (IH w2 files'); [lia | done | unfold files', put; by rewrite decide_False, decide_True by lia | |].
      * intros w3 e f3 Hw3 Hc3. apply (He w3 e f3 Hw3). by rewrite Hc3.
      * intros w3 Hw3 Hc3. rewrite Hch' in Hc3.
        assert (Heq : forall i, shifted k files' i = shifted (S k) files i).
        { intros i. unfold shifted, files', put. repeat case_decide; try lia; try done; f_equal; lia. }
        apply Hk; [eapply shows_ext; [intros; apply Heq | done] | rewrite <- Hc3; apply chronicle_ext; intros; by rewrite Heq].
Qed.

(** All that a rotation gives up is the oldest file. *)
Definition forgets (files files' : nat -> option (list Z)) (more : list Z) : Prop :=
  exists lost, (lost = [] \/ lost = default [] (files retained))
    /\ lost ++ chronicle files' retained = chronicle files retained ++ more.
Definition rotated (files : nat -> option (list Z)) (j : nat) : option (list Z) :=
  match j with O => Some [] | S i => files i end.

Lemma forgets_nothing files : forgets files files [].
Proof. exists []. split; [by left |]. by rewrite app_nil_r. Qed.
Lemma forgets_chronicle files files1 files2 :
  forgets files files1 [] -> chronicle files2 retained = chronicle files1 retained -> forgets files files2 [].
Proof. intros (lost & Hl & He) Hc. exists lost. by rewrite Hc. Qed.
Lemma forgets_oldest files : forgets files (put retained None files) [].
Proof. exists (default [] (files retained)). split; [by right |]. rewrite app_nil_r. apply chronicle_lost. lia. Qed.

(** What a new, empty active file adds. *)
Lemma chronicle_fresh files m : files 0%nat = None -> chronicle (put 0 (Some []) files) m = chronicle files m.
Proof.
  intros H0. induction m as [| m IH]; cbn [chronicle]; [unfold put; by rewrite decide_True, H0 by done |].
  by rewrite IH.
Qed.
(** What is appended to the active file is the newest of all. *)
Lemma chronicle_append files data more m :
  files 0%nat = Some data -> chronicle (put 0 (Some (data ++ more)) files) m = chronicle files m ++ more.
Proof.
  intros H0. induction m as [| m IH]; cbn [chronicle]; [unfold put; by rewrite decide_True, H0 by done |].
  by rewrite IH, app_assoc.
Qed.

(** What the files are once the generations moved up, the active file became
    the first of them and a new one was created. *)
Lemma shifted_active files k : shifted k files 0 = files 0%nat.
Proof. unfold shifted. by rewrite !decide_False by lia. Qed.
Lemma shifted_first files : files retained = None -> shifted (retained - 1) files 1 = None.
Proof.
  intros Hfree. unfold shifted. rewrite decide_False by lia. destruct (decide (retained = 1%nat)) as [Hr | Hr]; [rewrite decide_False by lia; by rewrite <- Hr |].
  by rewrite decide_True by lia.
Qed.
Definition moved_first (files : nat -> option (list Z)) : nat -> option (list Z) := put 1 (files 0%nat) (put 0 None files).
Lemma moved_first_active files : moved_first files 0 = None.
Proof. unfold moved_first, put. by rewrite decide_False, decide_True by lia. Qed.
Lemma moved_first_chronicle files : files 1%nat = None -> chronicle (moved_first files) retained = chronicle files retained.
Proof. intros H1. apply chronicle_move; [lia | done]. Qed.
Lemma rotated_steps files i :
  (i <= retained)%nat -> put 0 (Some []) (moved_first (shifted (retained - 1) files)) i = rotated files i.
Proof.
  intros Hi. unfold moved_first, put, shifted, rotated. destruct i as [| i]; [by rewrite decide_True |]. rewrite (decide_False (P := S i = 0%nat)) by done.
  destruct i as [| i]; [rewrite decide_True by done; by rewrite !decide_False by lia |].
  rewrite decide_False by lia. rewrite decide_False by lia. rewrite decide_True by lia. done.
Qed.
Lemma rotated_put files i : rotated (put retained None files) i = if decide (i = S retained) then None else rotated files i.
Proof. unfold rotated, put. destruct i as [| i]; [by rewrite decide_False by lia |]. repeat case_decide; try lia; done. Qed.

Context (g : PrivateLog).
Context (Hparent : g_parent g = 0%nat) (Hname : g_name g = name) (Hkeep : g_retained g = retained).

(** With the oldest place free, everything moves up by one. *)
Lemma shift_all_holds w files data (Q : result HostError nat -> Dir -> Prop) :
  shows w files -> files 0%nat = Some data -> files retained = None ->
  (forall w' e files', shows w' files' -> chronicle files' retained = chronicle files retained -> Q (Err e) w') ->
  (forall w' fd, shows w' (rotated files) -> opened w' fd [] -> Q (Ok fd) w') ->
  holds (do? _ := shift_generations euid g (reverse (seq 1 (retained - 1))) in
         do? _ := available (linux_call (RenameAt 0 (file name 0) (file name 1))) in append_file euid 0 name) w Q.
Proof.
  intros Hw H0 Hfree He Hk. apply holds_try, (shift_holds g (retained - 1) w files); [done | done | lia | done | by replace (S (retained - 1)) with retained by lia | |].
  { intros w' e files' Hw' Hc. by eapply He. }
  intros w1 Hw1 Hc1. set (files1 := shifted (retained - 1) files) in *. pose proof (shifted_first files Hfree) as H11.
  pose proof (shifted_active files (retained - 1)) as H01. rewrite H0 in H01.
  apply holds_try, (rename_holds 0 1 data w1 files1); [done | lia | lia | done | done | |].
  { intros w2 Hw2. by apply (He w2 _ files1). }
  intros w2 Hw2. pose proof (moved_first_chronicle files1 H11) as Hc2. rewrite Hc1 in Hc2.
  apply (append_file_holds w2 (moved_first files1)); [done | by apply moved_first_active | |].
  - intros w3 e [Hw3 | Hw3]; eapply He; [exact Hw3 | done | exact Hw3 | by rewrite chronicle_fresh by apply moved_first_active].
  - intros w3 fd Hw3 Ho. apply Hk; [| done]. eapply shows_ext; [| exact Hw3]. intros i Hi. by apply rotated_steps.
Qed.

Lemma rotate_closed_holds w files data (Q : result HostError nat -> Dir -> Prop) :
  shows w files -> files 0%nat = Some data ->
  (forall w' e files', shows w' files' -> forgets files files' [] -> Q (Err e) w') ->
  (forall w' fd, shows w' (rotated files) -> opened w' fd [] -> Q (Ok fd) w') ->
  holds (rotate_closed euid g) w Q.
Proof.
  intros Hw H0 He Hk. unfold rotate_closed. cbv zeta. rewrite Hparent, Hname, Hkeep.
  replace (generation name retained) with (file name retained) by (destruct retained; [lia | done]).
  change (generation name 1) with (file name 1).
  apply holds_try, (at_holds retained w files); [done | lia | | |].
  - intros w' e Hw'. apply (He w' e files Hw'), forgets_nothing.
  - intros w' Hw' Hnone. apply holds_try, holds_ret. apply (shift_all_holds w' files data); [done | done | done | | done].
    intros w2 e files' Hw2 Hc. apply (He w2 e files' Hw2). eapply forgets_chronicle; [apply forgets_nothing | done].
  - intros w' _ oldest Hw' Hold. apply holds_try, (unlink_holds retained w' files); [done | lia | |].
    { intros w2 Hw2. apply (He w2 _ files Hw2), forgets_nothing. }
    intros w2 Hw2. apply (shift_all_holds w2 (put retained None files) data); [done | | unfold put; by rewrite decide_True | |].
    + unfold put. by rewrite decide_False by lia.
    + intros w3 e files' Hw3 Hc. apply (He w3 e files' Hw3). eapply forgets_chronicle; [apply forgets_oldest | done].
    + intros w3 fd Hw3 Ho. apply Hk; [| done]. eapply shows_ext; [| exact Hw3]. intros i Hi. unfold rotated, put. destruct i as [| i]; [done |].
      by rewrite decide_False by lia.
Qed.
End rotation.

(** * What a private log keeps

    The abstract log is a list of files: a record goes to the active one, or
    to a new one when it would not fit, and the oldest is given up.  The
    private log, in a directory that may fail, is that list until a write is
    refused, and keeps the newest records then. *)

Record Files : Type := { active : list Z; generations : list (option (list Z)) }.

Definition spec_write (max_bytes : Z) (s : Files) (bytes : list Z) : Files :=
  if max_bytes <? zlen (active s) + zlen bytes
  then {| active := bytes; generations := take (length (generations s)) (Some (active s) :: generations s) |}
  else {| active := active s ++ bytes; generations := generations s |}.
Definition files_of (s : Files) (i : nat) : option (list Z) :=
  match i with O => Some (active s) | S i => mjoin (generations s !! i) end.

(** Writing records until one is refused: the answers, and the log. *)
Fixpoint write_all (euid : Z) (g : PrivateLog) (records : list (list Z)) : linux (PrivateLog * list bool) :=
  match records with
  | [] => Ret (g, [])
  | bytes :: records =>
      do! r := log_write euid g bytes in
      do! rest := write_all euid (fst r) records in
      Ret (fst rest, is_ok (snd r) :: snd rest)
  end.

Section kept.
Context (euid : Z) (name : list Z) (retained : nat) (Hretained : (1 <= retained <= 100)%nat).
Notation holds := (holds (posix euid)).
Notation shows := (shows name retained).
Notation forgets := (forgets retained).

Record keeps (max_bytes : Z) (w : Dir) (g : PrivateLog) (s : Files) : Prop := {
  k_parent : g_parent g = 0%nat; k_name : g_name g = name; k_retained : g_retained g = retained;
  k_max : g_max_bytes g = max_bytes; k_size : g_size g = zlen (active s); k_width : zlen (active s) <= U64_MAX;
  k_gens : length (generations s) = retained;
  k_open : exists fd, g_file g = Some fd /\ opened name w fd (active s);
  k_files : shows w (files_of s)
}.

(** Closed for good, and how the files changed since [s]. *)
Definition failed (w : Dir) (g : PrivateLog) (s : Files) (bytes : list Z) : Prop :=
  g_file g = None /\ exists files k, shows w files /\ forgets (files_of s) files (take k bytes).

Lemma rotated_spec max_bytes s bytes i :
  length (generations s) = retained -> (i <= retained)%nat -> max_bytes < zlen (active s) + zlen bytes ->
  put 0 (Some bytes) (rotated (files_of s)) i = files_of (spec_write max_bytes s bytes) i.
Proof.
  intros Hlen Hi Hbig. unfold spec_write. rewrite (proj2 (Z.ltb_lt _ _) Hbig). destruct i as [| i]; [done |].
  unfold put. rewrite decide_False by lia. cbn [rotated files_of active generations]. rewrite lookup_take_lt by lia. by destruct i as [| i].
Qed.

Lemma appended_spec max_bytes s bytes i :
  zlen (active s) + zlen bytes <= max_bytes ->
  put 0 (Some (active s ++ bytes)) (files_of s) i = files_of (spec_write max_bytes s bytes) i.
Proof. intros Hfit. unfold spec_write. rewrite (proj2 (Z.ltb_ge _ _) Hfit). by destruct i as [| i]. Qed.

Lemma log_bind_holds {A B} (p : logging A) (f : PrivateLog -> A -> logging B) w (Q : PrivateLog * result HostError B -> Dir -> Prop) :
  holds p w (fun r w => match snd r with Ok a => holds (f (fst r) a) w Q | Err e => Q (fst r, Err e) w end) -> holds (log_bind p f) w Q.
Proof. intros Hp. unfold log_bind. apply holds_bind. eapply holds_mono; [exact Hp |]. by intros [g [a | e]] w'. Qed.

Lemma keep_holds {A} g (p : linux (result HostError A)) w (Q : PrivateLog * result HostError A -> Dir -> Prop) :
  holds p w (fun r w => Q (g, r) w) -> holds (keep g p) w Q.
Proof. intros Hp. unfold keep. by apply holds_bind. Qed.

Lemma like_keeps max_bytes w w' g s : like w w' -> keeps max_bytes w g s -> keeps max_bytes w' g s.
Proof.
  intros Hl [? ? ? ? ? ? ? (fd & Hf & Ho) ?]. split; try done; [exists fd; split; [done |]; by eapply opened_like | by eapply shows_like].
Qed.

Lemma take_file_holds g w (Q : PrivateLog -> Dir -> Prop) :
  (forall w', like w w' -> Q (set_file None g) w') -> holds (take_file g) w Q.
Proof.
  intros Hq. unfold take_file. apply holds_bind. destruct (g_file g) as [fd |]; [| by apply holds_ret, holds_ret, Hq, like_refl].
  apply (call_holds euid (CloseFile fd)). pose proof (draw_like w) as Hl. unfold posix. destruct (draw w) as [f w']. by apply holds_ret, Hq.
Qed.

Lemma chronicle_rotated files m : chronicle (rotated files) (S m) = chronicle files m.
Proof. induction m as [| m IH]; cbn [chronicle rotated default from_option]; [apply app_nil_r |]. f_equal. exact IH. Qed.
Lemma forgets_rotated files data more :
  retained <> 0%nat -> files 0%nat = Some data -> forgets files (put 0 (Some more) (rotated files)) more.
Proof.
  intros Hr H0. exists (default [] (files retained)). split; [by right |].
  pose proof (chronicle_append (rotated files) [] more retained ltac:(done)) as Hc. cbn [app] in Hc. rewrite Hc, app_assoc. f_equal.
  destruct retained as [| m]; [done |]. rewrite chronicle_rotated. done.
Qed.
Lemma forgets_append files data more : files 0%nat = Some data -> forgets files (put 0 (Some (data ++ more)) files) more.
Proof. intros H0. exists []. split; [by left |]. by apply chronicle_append. Qed.

(** ** Writing one record *)
Lemma validate_active_holds max_bytes w g s (Q : result HostError unit -> Dir -> Prop) :
  keeps max_bytes w g s -> (forall w' e, keeps max_bytes w' g s -> Q (Err e) w') -> (forall w', keeps max_bytes w' g s -> Q (Ok tt) w') ->
  holds (validate_active euid g) w Q.
Proof.
  intros Hk He Hq. unfold validate_active. pose proof (k_open _ _ _ _ Hk) as (fd & -> & Ho). pose proof Ho as (_ & Hd & Hfd).
  apply holds_try, (fstat_holds euid fd (active s)); [done | done | |]; intros w1 Hl1; pose proof (like_keeps _ _ _ _ _ Hl1 Hk) as Hk1; [by apply He |].
  apply holds_try, holds_ret. rewrite own_file_ok. rewrite (k_parent _ _ _ _ Hk), (k_name _ _ _ _ Hk).
  pose proof (k_files _ _ _ _ Hk1) as [Hs1 Hc1]. pose proof (opened_like name _ _ _ _ Hl1 Ho) as (He1 & Hd1 & _).
  apply holds_try, stat_at_holds; [done | | |].
  - intros w2 Hl2. by apply He, (like_keeps _ _ _ _ _ Hl2).
  - intros w2 Hl2 Hn. apply (content_entry _ _ Hs1) in Hn. by rewrite He1 in Hn.
  - intros w2 ino data Hl2 Hen Hda. rewrite He1 in Hen. injection Hen as <-. rewrite Hd1 in Hda. injection Hda as <-.
    apply holds_try, holds_ret. cbn [ok_or]. apply holds_ret. cbn [st_ino st_dev st_size file_stat]. rewrite (Z.eqb_refl (Z.of_nat fd)).
    rewrite Z.mod_small by (pose proof (k_width _ _ _ _ Hk); lia). rewrite (k_size _ _ _ _ Hk), (Z.eqb_refl (zlen (active s))). by apply Hq, (like_keeps _ _ _ _ _ Hl2).
Qed.

Lemma rotate_holds max_bytes w g s (Q : PrivateLog * result HostError unit -> Dir -> Prop) :
  keeps max_bytes w g s ->
  (forall w' g' e files, shows w' files -> forgets (files_of s) files [] -> Q (g', Err e) w') ->
  (forall w' fd, shows w' (rotated (files_of s)) -> opened name w' fd [] -> Q (set_size 0 (set_file (Some fd) (set_file None g)), Ok tt) w') ->
  holds (rotate euid g) w Q.
Proof.
  intros Hk He Hq. pose proof Hk as [Hp Hn Hr _ _ _ _ _ Hw]. unfold rotate. rewrite Hr.
  apply log_bind_holds, keep_holds, (check_generations_holds euid name retained Hretained g _ w (files_of s)); [done | done | | done | |].
  { intros i Hi. apply elem_of_seq in Hi. lia. }
  { intros w' e Hw'. apply (He w' g e _ Hw'), forgets_nothing. }
  intros w1 Hw1. cbn [fst snd]. apply holds_bind, take_file_holds. intros w2 Hl2.
  apply log_bind_holds, keep_holds, (rotate_closed_holds euid name retained Hretained (set_file None g) Hp Hn Hr w2 (files_of s) (active s));
    [by eapply shows_like | done | |].
  - intros w3 e files Hw3 Hf. by apply (He w3 _ e files).
  - intros w3 fd Hw3 Ho. by apply holds_ret, Hq.
Qed.

(** Putting the bytes into the open file. *)
Lemma land_holds max_bytes w g fd data bytes files s :
  g_parent g = 0%nat -> g_name g = name -> g_retained g = retained -> g_max_bytes g = max_bytes ->
  g_size g = zlen data -> g_file g = Some fd -> opened name w fd data -> shows w files ->
  max_bytes < U64_MAX -> zlen data + zlen bytes <= max_bytes -> active s = data ++ bytes -> length (generations s) = retained ->
  (forall i, (i <= retained)%nat -> put 0 (Some (data ++ bytes)) files i = files_of s i) ->
  holds (match g_file g with
         | None => Ret (g, Err HUnavailable)
         | Some file =>
             log_bind (keep g (available (linux_call (WriteAll file bytes)))) (fun g _ =>
             Ret (set_size (Z.min (g_size g + zlen bytes) U64_MAX) g, Ok tt))
         end) w
    (fun r w' => match snd r with
                 | Ok _ => keeps max_bytes w' (fst r) s
                 | Err _ => exists k, shows w' (put 0 (Some (data ++ take k bytes)) files)
                 end).
Proof.
  intros Hp Hn Hr Hm Hsize Hfile Ho Hw Hwidth Hfit Ha Hg Hs. rewrite Hfile.
  apply log_bind_holds, keep_holds, (write_all_holds euid name retained Hretained fd data bytes w files); [done | done | |]; intros w'.
  { intros k Hw'. by exists k. }
  intros Hw' Ho'. apply holds_ret. cbn [snd fst]. split; cbn [set_size g_parent g_name g_retained g_max_bytes g_size g_file]; try done.
  - rewrite Hsize, Ha, length_app. lia.
  - rewrite Ha, length_app. lia.
  - exists fd. by rewrite Ha.
  - by eapply shows_ext.
Qed.

Lemma write_inner_holds max_bytes w g s bytes :
  keeps max_bytes w g s -> max_bytes < U64_MAX ->
  holds (write_inner euid g bytes) w (fun r w' =>
    match snd r with
    | Ok _ => zlen bytes <= max_bytes /\ keeps max_bytes w' (fst r) (spec_write max_bytes s bytes)
    | Err _ => exists files k, shows w' files /\ forgets (files_of s) files (take k bytes)
    end).
Proof.
  intros Hk Hwidth. assert (Hsame : forall w', shows w' (files_of s) -> exists files k, shows w' files /\ forgets (files_of s) files (take k bytes)).
  { intros w' Hw'. exists (files_of s), 0%nat. split; [done | apply forgets_nothing]. }
  unfold write_inner. pose proof (k_open _ _ _ _ Hk) as (fd & Hfile & _). rewrite Hfile, (k_max _ _ _ _ Hk).
  destruct (Z.ltb_spec max_bytes (zlen bytes)) as [Hbig | Hbytes]; [apply holds_ret; apply Hsame, (k_files _ _ _ _ Hk) |].
  rewrite (k_parent _ _ _ _ Hk). apply log_bind_holds, keep_holds, dir_holds; intros w1 Hl1; pose proof (like_keeps _ _ _ _ _ Hl1 Hk) as Hk1;
    cbn [fst snd]; [apply Hsame, (k_files _ _ _ _ Hk1) |].
  apply log_bind_holds, keep_holds, (validate_active_holds max_bytes w1 g s); [done | |]; intros w2; [intros e |]; intros Hk2; cbn [fst snd];
    [apply Hsame, (k_files _ _ _ _ Hk2) |]. clear w Hk w1 Hl1 Hk1 fd Hfile. pose proof Hk2 as [Hp Hn Hr Hm Hsize Hw Hg (fd & Hfile & Ho) Hfiles].
  rewrite Hsize, Hm. apply log_bind_holds. destruct (Z.ltb_spec max_bytes (Z.min (zlen (active s) + zlen bytes) U64_MAX)) as [Hover | Hfit].
  - apply (rotate_holds max_bytes w2 g s); [done | |].
    + intros w3 g' e files Hw3 Hf. exists files, 0%nat. by split.
    + intros w3 fd' Hw3 Ho3. cbn [fst snd].
      eapply holds_mono; [apply (land_holds max_bytes w3 _ fd' [] bytes (rotated (files_of s)) (spec_write max_bytes s bytes)); try done; try lia |].
      * unfold spec_write. by rewrite (proj2 (Z.ltb_lt _ _)) by lia.
      * unfold spec_write. rewrite (proj2 (Z.ltb_lt _ _)) by lia. cbn [generations]. rewrite length_take. cbn [length]. lia.
      * intros i Hi. apply rotated_spec; [done | done | lia].
      * intros [g' [[] | e]] w4; cbn [fst snd]; [by split |]. intros (k & Hw4). exists (put 0 (Some (take k bytes)) (rotated (files_of s))), k.
        split; [done |]. by apply (forgets_rotated _ (active s)); [lia |].
  - apply holds_ret. cbn [fst snd].
    eapply holds_mono; [apply (land_holds max_bytes w2 g fd (active s) bytes (files_of s) (spec_write max_bytes s bytes)); try done; try lia |].
    + unfold spec_write. by rewrite (proj2 (Z.ltb_ge _ _)) by lia.
    + unfold spec_write. by rewrite (proj2 (Z.ltb_ge _ _)) by lia.
    + intros i Hi. apply appended_spec. lia.
    + intros [g' [[] | e]] w4; cbn [fst snd]; [by split |]. intros (k & Hw4). exists (put 0 (Some (active s ++ take k bytes)) (files_of s)), k.
      split; [done |]. by apply forgets_append.
Qed.

Lemma log_write_holds max_bytes w g s bytes :
  keeps max_bytes w g s -> max_bytes < U64_MAX ->
  holds (log_write euid g bytes) w (fun r w' =>
    match snd r with
    | Ok _ => zlen bytes <= max_bytes /\ keeps max_bytes w' (fst r) (spec_write max_bytes s bytes)
    | Err _ => failed w' (fst r) s bytes
    end).
Proof.
  intros Hk Hwidth. unfold log_write. apply holds_bind. eapply holds_mono; [by apply (write_inner_holds max_bytes w g s bytes) |].
  intros [g' [[] | e]] w' Hq; cbn [fst snd] in *; [by apply holds_ret |]. apply holds_bind, take_file_holds. intros w2 Hl2. apply holds_ret. cbn [fst snd].
  destruct Hq as (files & k & Hw' & Hf). split; [done |]. exists files, k. split; [by eapply shows_like | done].
Qed.

(** A closed log refuses everything. *)
Lemma closed_write w g bytes :
  g_file g = None -> holds (log_write euid g bytes) w (fun r w' => snd r = Err HUnavailable /\ g_file (fst r) = None /\ like w w').
Proof.
  intros Hg. unfold log_write, write_inner. rewrite Hg. apply holds_bind, holds_ret. cbn [snd fst].
  apply holds_bind, take_file_holds. intros w' Hl. by apply holds_ret.
Qed.

Lemma write_all_closed w g records :
  g_file g = None ->
  holds (write_all euid g records) w (fun r w' => snd r = replicate (length records) false /\ g_file (fst r) = None /\ like w w').
Proof.
  revert w g. induction records as [| bytes records IH]; intros w g Hg; cbn [write_all]; [by apply holds_ret |].
  apply holds_bind. eapply holds_mono; [by apply closed_write |]. intros [g1 r1] w1 (Hr1 & Hg1 & Hl1). cbn [fst snd] in *.
  apply holds_bind. eapply holds_mono; [by apply IH |]. intros [g2 l] w2 (Hl & Hg2 & Hl2). apply holds_ret. cbn [fst snd] in *.
  split; [by rewrite Hr1, Hl |]. split; [done |]. by eapply like_trans.
Qed.

(** How the log ends: everything was written, or it was closed at a record. *)
Definition ended (max_bytes : Z) (s : Files) (records : list (list Z)) (r : PrivateLog * list bool) (w : Dir) : Prop :=
  exists written, (written <= length records)%nat
    /\ snd r = replicate written true ++ replicate (length records - written) false
    /\ Forall (fun bytes => zlen bytes <= max_bytes) (take written records)
    /\ let s' := foldl (spec_write max_bytes) s (take written records) in
       match records !! written with
       | None => keeps max_bytes w (fst r) s'
       | Some bytes => failed w (fst r) s' bytes
       end.

Lemma write_all_holds' max_bytes w g s records :
  keeps max_bytes w g s -> max_bytes < U64_MAX -> holds (write_all euid g records) w (ended max_bytes s records).
Proof.
  intros Hk Hwidth. revert w g s Hk. induction records as [| bytes records IH]; intros w g s Hk; cbn [write_all].
  { apply holds_ret. exists 0%nat. cbn. split; [lia |]. split; [done |]. by split; [constructor |]. }
  apply holds_bind. eapply holds_mono; [by apply log_write_holds |]. intros [g1 [[] | e]] w1; cbn [fst snd is_ok].
  - intros [Hb Hk1]. apply holds_bind. eapply holds_mono; [by apply IH |]. intros [g2 l] w2 (n & Hn & Hl & Hf & He). apply holds_ret. cbn [fst snd] in *.
    exists (S n). cbn [length take lookup list_lookup foldl fst snd replicate Nat.sub app]. split; [lia |]. split; [by rewrite Hl |]. split; [by constructor | done].
  - intros [Hg1 Hf]. apply holds_bind. eapply holds_mono; [by apply write_all_closed |]. intros [g2 l] w2 (Hl & Hg2 & Hl2). apply holds_ret. cbn [fst snd] in *.
    exists 0%nat. cbn [take lookup list_lookup foldl fst snd replicate app]. split; [lia |]. split; [by rewrite Hl |]. split; [by constructor |].
    split; [done |]. destruct Hf as (files & k & Hs & Hc). exists files, k. split; [by eapply shows_like | done].
Qed.
End kept.

(** C30: the private log, run in a directory whose operations may fail at any
    point (a failing write landing any prefix of its bytes), is the abstract
    list of files: it acknowledges a prefix of the records it is given, each
    no longer than the limit, after which the active file and the generations
    are exactly those of the abstract log; if one is refused the log is closed
    for good and refuses the rest, and what the files then hold, oldest first,
    is what the abstract log held, less at most its oldest file, and at most
    a prefix of the refused record: no rotation reorders or loses a record. *)
Theorem private_log_keeps_newest (euid : Z) (name : list Z) (retained : nat) (max_bytes : Z) (w : Dir) (g : PrivateLog) (s : Files)
    (records : list (list Z)) :
  (1 <= retained <= 100)%nat -> max_bytes <= 1073741824 -> keeps name retained max_bytes w g s ->
  holds (posix euid) (write_all euid g records) w (ended name retained max_bytes s records).
Proof. intros Hr Hm Hk. apply write_all_holds'; [done | done | unfold U64_MAX; lia]. Qed.

(** ** A new log, whose every call may fail *)
Definition fresh_log (name : list Z) (max_bytes : Z) (retained : nat) : PrivateLog :=
  {| g_parent := 0%nat; g_name := name; g_file := Some 1%nat; g_size := 0; g_max_bytes := max_bytes; g_retained := retained |}.
Definition fresh_dir (name : list Z) (faults : list (option nat)) : Dir :=
  {| d_entries := {[ name := 1%nat ]}; d_data := {[ 1%nat := [] ]}; d_next := 2%nat; d_faults := faults |}.
Definition fresh_files (retained : nat) : Files := {| active := []; generations := replicate retained None |}.

Lemma fresh_keeps name max_bytes retained faults :
  (retained <= 100)%nat -> keeps name retained max_bytes (fresh_dir name faults) (fresh_log name max_bytes retained) (fresh_files retained).
Proof.
  intros Hr. assert (Hs : sound (fresh_dir name faults)).
  { split; cbn [d_entries d_data d_next fresh_dir].
    - intros a b ino Ha Hb. apply lookup_singleton_Some in Ha as [<- _]. by apply lookup_singleton_Some in Hb as [<- _].
    - intros a ino Ha. apply lookup_singleton_Some in Ha as [_ <-]. rewrite lookup_singleton_eq. by eexists.
    - intros ino [x Hx]. apply lookup_singleton_Some in Hx as [<- _]. lia.
    - lia. }
  split; try done; [apply length_replicate | exists 1%nat; split; [done |]; split; [apply lookup_singleton_eq |]; split; [apply lookup_singleton_eq | lia] |].
  split; [done |]. intros i Hi. destruct i as [| i]; cbn [files_of].
  - eapply content_some; apply lookup_singleton_eq.
  - unfold content. cbn [d_entries fresh_dir]. rewrite lookup_singleton_ne by (by apply not_eq_sym, (file_above name 100 ltac:(lia)); lia).
    cbn [generations fresh_files]. destruct (replicate retained None !! i) as [g |] eqn:E; [| done]. by apply lookup_replicate in E as [-> _].
Qed.

Lemma private_log_keeps_newest_witness :
  let name := str_bytes "audit.log" in
  let records := [[1; 2]; [3; 4]; [5]; [6; 7; 8; 9]; [10]; [11; 12]; [13]] in
  let w := fresh_dir name (replicate 36 None ++ [Some 1%nat]) in
  ended name 2 4 (fresh_files 2) records
    (fst (interp (posix 0) (write_all 0 (fresh_log name 4 2) records) w)) (snd (interp (posix 0) (write_all 0 (fresh_log name 4 2) records) w)).
Proof.
  intros name records w.
  exact (private_log_keeps_newest 0 name 2 4 w (fresh_log name 4 2) (fresh_files 2) records ltac:(lia) ltac:(lia)
           (fresh_keeps name 4 2 (replicate 36 None ++ [Some 1%nat]) ltac:(lia))).
Defined.

(** What this run leaves: three records acknowledged, the fourth cut short
    after its file was rotated in. *)
Example private_log_run :
  let name := str_bytes "audit.log" in
  let r := interp (posix 0) (write_all 0 (fresh_log name 4 2) [[1; 2]; [3; 4]; [5]; [6; 7; 8; 9]; [10]; [11; 12]; [13]])
             (fresh_dir name (replicate 36 None ++ [Some 1%nat])) in
  (snd (fst r), content (snd r) <$> [name; generation name 1; generation name 2])
  = ([true; true; true; false; false; false; false], [Some [6]; Some [5]; Some [1; 2; 3; 4]]).
Proof. vm_compute. reflexivity. Qed.
