(* ===== verification/Reading.v ===== *)
(** * Reading a protected file

    What a successful read did, call by call: the root, then one directory
    after the other, each checked through its own handle, then the file. *)
From S2P Require Import Prelude Text Archive Program Ciphertext Protection Linux.
Open Scope Z_scope.

(** ** Runs that return a value *)
#[local] Notation runs_called := (Program.runs_called (Answer := LinuxAnswer)).
Lemma runs_available {A} (p : linux (option A)) t a : runs (available p) t (Some (Ok a)) <-> runs p t (Some (Some a)).
Proof.
  unfold available. rewrite runs_bind. split.
  - intros [(t1 & t2 & [x |] & -> & H1 & H2) | [[=] _]]; apply runs_ret in H2 as [-> [=]]. subst x. by rewrite app_nil_r.
  - intros H. left. exists t, [], (Some a). by rewrite app_nil_r.
Qed.

(** ** The checks *)
Lemma land_clear m k : Z.land m k = 0 <-> forall i, 0 <= i -> Z.testbit k i = true -> Z.testbit m i = false.
Proof.
  split.
  - intros H i Hi Hk. pose proof (Z.land_spec m k i) as Hb. rewrite H, Z.bits_0, Hk, andb_true_r in Hb. done.
  - intros H. apply Z.bits_inj'. intros i Hi. rewrite Z.land_spec, Z.bits_0. specialize (H i Hi). destruct (Z.testbit k i); [by rewrite H | apply andb_false_r].
Qed.

Definition S_IFMT : Z := 61440.
Definition S_IFDIR : Z := 16384.
Definition S_IFREG : Z := 32768.
(** Bits 0 to 8 of a mode: execute, write and read for others, the group and
    the owner; bit 9 is the sticky bit. *)
Definition trusted_directory (euid : Z) (root : bool) (stat : Stat) : Prop :=
  Z.land (st_mode stat) S_IFMT = S_IFDIR /\ (st_uid stat = 0 \/ st_uid stat = euid)
  /\ (Z.testbit (st_mode stat) 1 = false /\ Z.testbit (st_mode stat) 4 = false
      \/ root = false /\ st_uid stat = 0 /\ Z.testbit (st_mode stat) 9 = true).
Definition private_file (euid : Z) (stat : Stat) : Prop :=
  Z.land (st_mode stat) S_IFMT = S_IFREG /\ st_nlink stat = 1 /\ (st_uid stat = 0 \/ st_uid stat = euid)
  /\ (forall bit, 0 <= bit < 6 -> Z.testbit (st_mode stat) bit = false) /\ 0 <= st_size stat.

Lemma write_bits m : Z.land m 18 = 0 <-> Z.testbit m 1 = false /\ Z.testbit m 4 = false.
Proof.
  rewrite land_clear. split; [intros H; split; by apply H |]. intros [H1 H4] i Hi Hb.
  assert (Hc : i = 1 \/ i = 4 \/ i = 0 \/ i = 2 \/ i = 3 \/ 5 <= i) by lia.
  destruct Hc as [-> | [-> | [-> | [-> | [-> | Hc]]]]]; try done. rewrite Z.bits_above_log2 in Hb; [done | lia |]. cbn. lia.
Qed.
Lemma shared_bits m : Z.land m 63 = 0 <-> forall bit, 0 <= bit < 6 -> Z.testbit m bit = false.
Proof.
  rewrite land_clear. change 63 with (Z.ones 6). split; intros H i Hi.
  - apply H; [lia |]. by apply Z.ones_spec_low.
  - intros Hb. apply H. destruct (Z.ltb_spec i 6); [lia |]. by rewrite Z.ones_spec_high in Hb.
Qed.
Lemma sticky_bit m : Z.land m 512 <> 0 <-> Z.testbit m 9 = true.
Proof.
  rewrite land_clear. split; [| by intros H Hn; rewrite (Hn 9) in H].
  intros H. destruct (Z.testbit m 9) eqn:E; [done |]. destruct H. intros i Hi Hb. change 512 with (2 ^ 9) in Hb.
  rewrite Z.pow2_bits_eqb in Hb by lia. apply Z.eqb_eq in Hb as <-. exact E.
Qed.

Lemma owner_spec euid stat : trusted_owner euid stat Operator = true <-> st_uid stat = 0 \/ st_uid stat = euid.
Proof. unfold trusted_owner. by rewrite orb_true_iff, !Z.eqb_eq. Qed.

Lemma directory_ok_spec euid root stat : directory_ok euid stat Operator (negb root) = Ok tt <-> trusted_directory euid root stat.
Proof.
  unfold directory_ok, trusted_directory. rewrite <- owner_spec, <- sticky_bit, <- write_bits. unfold is_directory, S_IFMT, S_IFDIR.
  destruct (Z.eqb_spec (Z.land (st_mode stat) 61440) 16384), (trusted_owner euid stat Operator), (Z.eqb_spec (Z.land (st_mode stat) 18) 0),
    (Z.eqb_spec (st_uid stat) 0), (Z.eqb_spec (Z.land (st_mode stat) 512) 0), root; cbn; naive_solver.
Qed.

Lemma validate_private_spec euid stat : validate_file euid stat Operator true = Ok tt <-> private_file euid stat.
Proof.
  unfold validate_file, private_file. rewrite <- owner_spec, <- shared_bits. unfold is_regular, S_IFMT, S_IFREG.
  destruct (Z.eqb_spec (Z.land (st_mode stat) 61440) 32768), (trusted_owner euid stat Operator), (Z.eqb_spec (Z.land (st_mode stat) 63) 0),
    (Z.eqb_spec (st_nlink stat) 1), (Z.ltb_spec (st_size stat) 0); cbn; naive_solver lia.
Qed.

(** ** Paths *)
(** An absolute path of at most 4096 bytes that names a file and never goes up. *)
Definition plain_path (path : list Z) : Prop :=
  is_absolute path = true /\ zlen path <= 4096 /\ 0 ∉ path /\ str_bytes ".." ∉ path_components path /\ path_components path <> [].

Definition text_size (parts : list (list Z)) : Z := foldr (fun c n => 1 + zlen c + n) 0 parts.
Lemma text_size_split sep l : text_size (split_bytes sep l) = 1 + zlen l.
Proof.
  induction l as [| b l IH]; [done |]. cbn [split_bytes]. destruct (split_bytes sep l) as [| part parts] eqn:E.
  { unfold text_size in IH. cbn in IH. lia. }
  destruct (b =? sep); unfold text_size in *; cbn [foldr length] in *; lia.
Qed.
Lemma text_size_filter (P : list Z -> Prop) `{!forall x, Decision (P x)} parts : text_size (filter P parts) <= text_size parts.
Proof.
  induction parts as [| c parts IH]; [done |]. rewrite filter_cons. unfold text_size in *. case_decide; cbn [foldr] in *; [lia |].
  pose proof (Zle_0_nat (length c)). lia.
Qed.

(** The normalized path is no longer than the path. *)
Lemma normalized_short path : is_absolute path = true -> normalized_len (path_components path) <= zlen path.
Proof.
  intros Ha. destruct path as [| b path]; [done |]. cbn in Ha. assert (b = 47) as -> by (destruct b as [| p | p]; try done; do 6 (destruct p as [p | p |]; try done)).
  unfold normalized_len. fold (text_size (path_components (47 :: path))). unfold path_components. cbn [split_bytes].
  pose proof (text_size_split 47 path) as Hs. destruct (split_bytes 47 path) as [| part parts]; [unfold text_size in Hs; cbn in Hs; lia |].
  rewrite Z.eqb_refl, filter_cons, decide_False by tauto. pose proof (text_size_filter (fun c => c <> [] /\ c <> str_bytes ".") (part :: parts)).
  cbn [length]. lia.
Qed.

Lemma existsb_elem (x : Z) l : existsb (Z.eqb x) l = false <-> x ∉ l.
Proof.
  rewrite <- not_true_iff_false, existsb_exists, list_elem_of_In. split; intros H Hx; apply H; [by exists x; rewrite Z.eqb_refl |].
  destruct Hx as (y & Hy & ->%Z.eqb_eq). done.
Qed.
Lemma existsb_parent l : existsb parent_dir l = false <-> str_bytes ".." ∉ l.
Proof.
  rewrite <- not_true_iff_false, existsb_exists. setoid_rewrite list_elem_of_In. unfold parent_dir. split; intros H Hx; apply H.
  - exists (str_bytes ".."). split; [done | by apply bool_decide_eq_true].
  - destruct Hx as (y & Hy & ->%bool_decide_eq_true). done.
Qed.

Lemma named_file path : str_bytes ".." ∉ path_components path -> is_ok (ok_or (file_name path) HInvalidPath) = true <-> path_components path <> [].
Proof.
  intros Hup. unfold file_name. destruct (last (path_components path)) as [c |] eqn:E.
  - apply last_Some in E as [l E]. rewrite E in Hup |- *. rewrite bool_decide_eq_false_2 by (intros ->; apply Hup, elem_of_app; right; by left). split; [by destruct l | done].
  - apply last_None in E. by rewrite E.
Qed.

Lemma validate_path_spec path components :
  validate_path path false = Ret (Ok components) <-> plain_path path /\ components = path_components path.
Proof.
  unfold validate_path, plain_path. rewrite <- existsb_elem, <- existsb_parent.
  destruct (bool_decide_reflect (path = [])) as [-> | Hne]; [cbn; naive_solver |]. cbn [orb].
  destruct (Z.ltb_spec 4096 (zlen path)); [cbn; naive_solver lia |]. cbn [orb].
  destruct (existsb (Z.eqb 0) path) eqn:E0; [cbn; naive_solver |]. cbn [orb].
  destruct (existsb parent_dir (path_components path)) eqn:Eup; [cbn; naive_solver |].
  destruct (is_absolute path) eqn:Eabs; [| cbn; naive_solver]. cbn [try_bind pbind]. rewrite Eabs.
  apply existsb_parent in Eup. pose proof (named_file path Eup) as Hnamed. pose proof (normalized_short path Eabs).
  rewrite (proj2 (Z.ltb_ge _ _)) by lia. destruct (is_ok (ok_or (file_name path) HInvalidPath)); cbn; naive_solver.
Qed.

(** ** The walk *)
Inductive walked (euid : Z) : nat -> list (list Z) -> nat -> list (event LinuxAnswer) -> Prop :=
| walked_here dir : walked euid dir [] dir []
| walked_into dir name fd stat names dir' t :
    name <> str_bytes ".." -> trusted_directory euid false stat -> walked euid fd names dir' t ->
    walked euid dir (name :: names) dir' (Event (OpenDirAt dir name) (Some fd) :: Event (Fstat fd) (Some stat) :: t).

Lemma runs_directory euid fd root t :
  runs (validate_directory euid fd Operator (negb root)) t (Some (Ok tt)) <->
  exists stat, t = [Event (Fstat fd) (Some stat)] /\ trusted_directory euid root stat.
Proof.
  unfold validate_directory. rewrite runs_try. setoid_rewrite runs_available. setoid_rewrite (runs_called (Fstat fd)). setoid_rewrite runs_ret.
  setoid_rewrite <- directory_ok_spec. split.
  - intros (t1 & t2 & stat & -> & -> & -> & H). by exists stat.
  - intros (stat & -> & H). by exists [Event (Fstat fd) (Some stat)], [], stat.
Qed.

Lemma runs_walk euid dir names t dir' :
  runs (walk euid dir names Operator) t (Some (Ok dir')) <-> walked euid dir names dir' t.
Proof.
  revert dir t. induction names as [| name names IH]; intros dir t; cbn [walk].
  { rewrite runs_ret. split; [intros [-> [= ->]]; constructor | by inversion 1]. }
  unfold parent_dir. destruct (bool_decide_reflect (name = str_bytes "..")) as [-> | Hup].
  { rewrite runs_ret. split; [by intros [_ [=]] | by inversion 1]. }
  rewrite runs_try. setoid_rewrite runs_available. setoid_rewrite (runs_called (OpenDirAt dir name)). setoid_rewrite runs_try.
  setoid_rewrite IH. split.
  - intros (t1 & t2 & fd & -> & -> & t3 & t4 & [] & -> & (stat & -> & Hd)%(runs_directory euid fd false) & Hw). by constructor.
  - inversion 1 as [| ? ? fd stat ? ? t' Hn Hd Hw]; subst. exists [Event (OpenDirAt dir name) (Some fd)], (Event (Fstat fd) (Some stat) :: t'), fd.
    split; [done |]. split; [done |]. exists [Event (Fstat fd) (Some stat)], t', tt. split; [done |]. split; [| done].
    apply (runs_directory euid fd false). by exists stat.
Qed.

Lemma runs_plain {B} path (f : list (list Z) -> linux (result HostError B)) t b :
  runs (do? components := validate_path path false in f components) t (Some (Ok b))
  <-> plain_path path /\ runs (f (path_components path)) t (Some (Ok b)).
Proof.
  assert (Hret : exists r, validate_path path false = Ret r).
  { unfold validate_path. destruct (bool_decide _ || _ || _ || _); [by eexists |]. destruct (is_absolute path); by eexists. }
  destruct Hret as [r Hr]. pose proof (validate_path_spec path) as Hspec. rewrite Hr in Hspec |- *. rewrite try_ret. split.
  - intros (a & -> & H). by destruct (proj1 (Hspec a) eq_refl) as [Hp ->].
  - intros [Hp H]. exists (path_components path). split; [| done]. pose proof (proj2 (Hspec _) (conj Hp eq_refl)) as He. by injection He.
Qed.

(** The read of the file itself. *)
Definition file_read (euid : Z) (parent : nat) (name : list Z) (max_bytes : Z) (t : list (event LinuxAnswer)) (bytes : list Z) : Prop :=
  exists fd stat, t = [Event (OpenReadAt parent name) (Some fd); Event (Fstat fd) (Some stat); Event (ReadUpTo fd (max_bytes + 1)) (Some bytes)]
    /\ private_file euid stat /\ st_size stat <= max_bytes /\ zlen bytes <= max_bytes.

Lemma runs_file_read euid parent name max_bytes t bytes :
  runs (do? fd := available (linux_call (OpenReadAt parent name)) in
        do? stat := available (linux_call (Fstat fd)) in
        do? _ := Ret (validate_file euid stat Operator true) in
        if max_bytes <? st_size stat then Ret (Err HLimit)
        else
          do? buffer := available (linux_call (ReadUpTo fd (max_bytes + 1))) in
          Ret (fail_if max_bytes <? zlen buffer with HLimit in Ok buffer)) t (Some (Ok bytes))
  <-> file_read euid parent name max_bytes t bytes.
Proof.
  rewrite runs_try. setoid_rewrite runs_available. setoid_rewrite (runs_called (OpenReadAt parent name)). setoid_rewrite runs_try.
  setoid_rewrite runs_available. unfold file_read. split.
  - intros (t1 & t2 & fd & -> & -> & t3 & t4 & stat & -> & H3 & H4). apply (runs_called (Fstat fd)) in H3 as ->.
    apply try_ret in H4 as ([] & Hf & H4). apply validate_private_spec in Hf. destruct (Z.ltb_spec max_bytes (st_size stat)) as [_ | Hsize]; [by apply runs_ret in H4 as [_ [=]] |].
    apply runs_try in H4 as (t5 & t6 & buffer & -> & H5 & H6). apply runs_available, (runs_called (ReadUpTo fd (max_bytes + 1))) in H5 as ->.
    destruct (Z.ltb_spec max_bytes (zlen buffer)); apply runs_ret in H6 as [-> [=]]. subst buffer. by exists fd, stat.
  - intros (fd & stat & -> & Hf & Hsize & Hbytes). apply validate_private_spec in Hf.
    exists [Event (OpenReadAt parent name) (Some fd)], [Event (Fstat fd) (Some stat); Event (ReadUpTo fd (max_bytes + 1)) (Some bytes)], fd.
    split; [done |]. split; [done |]. exists [Event (Fstat fd) (Some stat)], [Event (ReadUpTo fd (max_bytes + 1)) (Some bytes)], stat.
    split; [done |]. split; [by apply (runs_called (Fstat fd)) |]. apply try_ret. exists tt. split; [done |]. rewrite (proj2 (Z.ltb_ge _ _)) by done.
    apply runs_try. exists [Event (ReadUpTo fd (max_bytes + 1)) (Some bytes)], [], bytes. split; [done |].
    split; [by apply runs_available, (runs_called (ReadUpTo fd (max_bytes + 1))) |]. by rewrite (proj2 (Z.ltb_ge _ _)) by done.
Qed.

#[local] Opaque validate_directory.
Lemma runs_parent euid components t parent name :
  str_bytes ".." ∉ components ->
  runs (parent_handle euid components Operator false) t (Some (Ok (parent, name))) <->
  exists names root stat steps, components = names ++ [name] /\ trusted_directory euid true stat /\ walked euid root names parent steps
    /\ t = Event OpenRoot (Some root) :: Event (Fstat root) (Some stat) :: steps.
Proof.
  intros Hup. unfold parent_handle. rewrite runs_try. setoid_rewrite runs_available. setoid_rewrite (runs_called OpenRoot). setoid_rewrite runs_try.
  setoid_rewrite runs_try. setoid_rewrite runs_walk. setoid_rewrite try_ret. setoid_rewrite runs_ret. split.
  - intros (t1 & t2 & root & -> & -> & t3 & t4 & [] & -> & (stat & -> & Hd)%(runs_directory euid root true) & t5 & t6 & dir & -> & Hw & [] & _ & -> & Hr).
    destruct (last components) as [c |] eqn:El; [| done]. cbn in Hr. destruct (parent_dir c); [done |]. injection Hr as -> ->.
    apply last_Some in El as [l ->]. rewrite removelast_last in Hw. exists l, root, stat, t5. by rewrite app_nil_r.
  - intros (names & root & stat & steps & -> & Hd & Hw & ->).
    exists [Event OpenRoot (Some root)], (Event (Fstat root) (Some stat) :: steps), root. split; [done |]. split; [done |].
    exists [Event (Fstat root) (Some stat)], steps, tt. split; [done |]. split; [by apply (runs_directory euid root true); exists stat |].
    exists steps, [], parent. rewrite app_nil_r, removelast_last. split; [done |]. split; [done |]. exists tt. split; [done |]. split; [done |].
    rewrite last_snoc. cbn. replace (parent_dir name) with false; [done |]. symmetry. apply bool_decide_eq_false_2. intros ->. apply Hup, elem_of_app. right. by left.
Qed.

(** C31: a secret is read exactly so: its path is absolute, at most 4096
    bytes, free of NUL and of [..]; the root is opened, then each directory
    below it from the handle of the one above and never through a link, and
    each is, by its own handle, a directory of root or of the process that
    nobody else can write (below the root, or a sticky one of root); the file
    is opened in the last of them and is, by its own handle, a regular file of
    one name, of root or of the process, with no permission for anyone else
    and within the limit; the bytes are what the one read from that handle
    gave, within the limit, and no other call is made. *)
Theorem secret_read_exact (euid : Z) (path : list Z) (max_bytes : Z) (t : list (event LinuxAnswer)) (bytes : list Z) :
  runs (host_read_secret euid path max_bytes) t (Some (Ok bytes)) <->
  max_bytes <> 0 /\ max_bytes <= 16 * 1024 * 1024 /\ plain_path path
  /\ exists names name root stat parent steps read,
       path_components path = names ++ [name] /\ trusted_directory euid true stat /\ walked euid root names parent steps
       /\ file_read euid parent name max_bytes read bytes
       /\ t = Event OpenRoot (Some root) :: Event (Fstat root) (Some stat) :: steps ++ read.
Proof.
  unfold host_read_secret. destruct (Z.eqb_spec max_bytes 0) as [-> | Hz]; [cbn [orb]; rewrite runs_ret; naive_solver |]. cbn [orb].
  destruct (Z.ltb_spec (16 * 1024 * 1024) max_bytes); [cbv iota; rewrite runs_ret; naive_solver lia |].
  unfold linux_read_secret. rewrite runs_plain. split.
  - intros [Hp (t1 & t2 & [parent name] & -> & H1 & H2)%runs_try]. split; [done |]. split; [done |]. split; [done |].
    apply runs_parent in H1 as (names & root & stat & steps & Hn & Hd & Hw & ->); [| apply Hp]. apply runs_file_read in H2.
    by exists names, name, root, stat, parent, steps, t2.
  - intros (_ & _ & Hp & names & name & root & stat & parent & steps & read & Hn & Hd & Hw & Hr & ->). split; [done |].
    apply runs_try. exists (Event OpenRoot (Some root) :: Event (Fstat root) (Some stat) :: steps), read, (parent, name). split; [done |].
    split; [apply runs_parent; [apply Hp | by exists names, root, stat, steps] | by apply runs_file_read].
Qed.
