(* ===== verification/Framing.v ===== *)
(** * Bounded frames

    [crates/mcp/src/framing.rs]: the input of the protocol is read through a
    guard that refuses a line before it grows past the limit. *)
From S2P Require Import Prelude Text Program.
Open Scope Z_scope.

Definition MAX_FRAME_BYTES : Z := 65536.

Record BoundedInput : Type := { line_bytes : Z; bi_failed : bool }.
Definition BoundedInput_new : BoundedInput := {| line_bytes := 0; bi_failed := false |}.

(** [Poll<IoResult<()>>], with the bytes that were put. *)
Inductive Polled : Type := Pending | Failure | FrameTooLarge | Filled (bytes : list Z).

(** The reader below; a [ReadBuf] never holds more than its capacity. *)
Inductive InputCall : Type := PollInner (capacity : Z).
Definition InputAnswer (c : InputCall) : Type := option (option (list Z)).
Notation input := (prog InputAnswer).
Notation poll_inner n := (Program.call (Answer := InputAnswer) (PollInner n)).

(** The loop over [read.filled()]: [None] is the early return. *)
Fixpoint count_line (line : Z) (filled : list Z) : option Z :=
  match filled with
  | [] => Some line
  | byte :: filled =>
      if byte =? 10 then count_line 0 filled
      else if MAX_FRAME_BYTES <? line + 1 then None else count_line (line + 1) filled
  end.

Definition poll_read (b : BoundedInput) (remaining : Z) : input (BoundedInput * Polled) :=
  if bi_failed b then Ret (b, FrameTooLarge)
  else if remaining =? 0 then Ret (b, Filled [])
  else
    do! polled := poll_inner (Z.min remaining 4096) in
    Ret (match polled with
         | None => (b, Pending)
         | Some None => (b, Failure)
         | Some (Some filled) =>
             match count_line (line_bytes b) filled with
             | Some line => ({| line_bytes := line; bi_failed := false |}, Filled filled)
             | None => ({| line_bytes := MAX_FRAME_BYTES + 1; bi_failed := true |}, FrameTooLarge)
             end
         end).

(** A client polling with the room it has each time. *)
Fixpoint poll_all (b : BoundedInput) (rooms : list Z) : input (list Polled) :=
  match rooms with
  | [] => Ret []
  | remaining :: rooms =>
      do! r := poll_read b remaining in
      do! rest := poll_all (fst r) rooms in
      Ret (snd r :: rest)
  end.

(** ** Lines *)
(** No line, complete or not, is longer than the limit. *)
Definition lines_bounded (bytes : list Z) : Prop :=
  forall before line after, bytes = before ++ line ++ after -> 10 ∉ line -> zlen line <= MAX_FRAME_BYTES.

Lemma lines_bounded_prefix l k : lines_bounded (l ++ k) -> lines_bounded l.
Proof. intros Hl b ln a -> Hn. apply (Hl b ln (a ++ k)); [by rewrite !app_assoc | done]. Qed.

(** What has been read ends in a line of [line] bytes. *)
Definition ends_in (read : list Z) (line : Z) : Prop :=
  exists before last, read = before ++ last /\ zlen last = line /\ 10 ∉ last /\ (before = [] \/ exists b, before = b ++ [10]).

Lemma ends_in_longest read line before last :
  ends_in read line -> read = before ++ last -> 10 ∉ last -> zlen last <= line.
Proof.
  intros (b & l & -> & <- & Hl & Hb) Heq Hlast. destruct (Z.le_gt_cases (zlen last) (zlen l)) as [| Hlong]; [done | exfalso].
  destruct Hb as [-> | [b' ->]].
  - apply (f_equal length) in Heq. rewrite !length_app in Heq. cbn in Heq. lia.
  - rewrite <- app_assoc in Heq. apply app_eq_inv in Heq as [(k & _ & ->) | (k & _ & Hk)].
    + apply Hlast, elem_of_app. right. by left.
    + destruct k as [| c k]; cbn in Hk; [subst last; apply Hlast; by left |].
      injection Hk as _ ->. rewrite length_app in Hlong. lia.
Qed.

Lemma ends_in_newline read : ends_in (read ++ [10]) 0.
Proof. exists (read ++ [10]), []. rewrite app_nil_r. split; [done |]. split; [done |]. split; [by apply not_elem_of_nil |]. right. by exists read. Qed.
Lemma ends_in_more read line byte : ends_in read line -> byte <> 10 -> ends_in (read ++ [byte]) (line + 1).
Proof.
  intros (b & l & -> & <- & Hl & Hb) Hne. exists b, (l ++ [byte]). rewrite app_assoc. split; [done |]. split; [rewrite length_app; cbn; lia |].
  split; [| done]. rewrite not_elem_of_app. split; [done |]. intros He%list_elem_of_singleton; congruence.
Qed.

Lemma bounded_step read line byte :
  lines_bounded read -> ends_in read line -> line <= MAX_FRAME_BYTES ->
  lines_bounded (read ++ [byte]) <-> byte = 10 \/ line + 1 <= MAX_FRAME_BYTES.
Proof.
  intros Hb He Hline. split.
  - intros Hnew. destruct (decide (byte = 10)) as [| Hne]; [by left | right]. destruct (ends_in_more read line byte He Hne) as (b & l & Heq & <- & Hl & _).
    apply (Hnew b l []); [by rewrite app_nil_r | done].
  - intros Hok before l after Heq Hl. destruct after as [| c after] using rev_ind.
    + rewrite app_nil_r in Heq. destruct l as [| c l] using rev_ind; [cbn; unfold MAX_FRAME_BYTES; lia |].
      rewrite app_assoc in Heq. apply app_inj_tail in Heq as [-> ->]. rewrite not_elem_of_app in Hl. destruct Hl as [Hl Hc].
      pose proof (ends_in_longest _ line before l He eq_refl Hl). rewrite length_app. cbn. destruct Hok as [-> | Hok]; [destruct Hc; by left | lia].
    + rewrite !app_assoc in Heq. apply app_inj_tail in Heq as [-> _]. rewrite <- app_assoc in Hb. by apply (Hb before l after).
Qed.

(** The loop accepts a chunk just when every line is still within the limit. *)
Lemma count_line_spec read line filled :
  lines_bounded read -> ends_in read line -> line <= MAX_FRAME_BYTES ->
  match count_line line filled with
  | Some line' => lines_bounded (read ++ filled) /\ ends_in (read ++ filled) line' /\ line' <= MAX_FRAME_BYTES
  | None => ~ lines_bounded (read ++ filled)
  end.
Proof.
  revert read line. induction filled as [| byte filled IH]; intros read line Hb He Hline; cbn [count_line]; [by rewrite app_nil_r |].
  pose proof (bounded_step read line byte Hb He Hline) as Hstep. replace (read ++ byte :: filled) with ((read ++ [byte]) ++ filled) by (by rewrite <- app_assoc).
  destruct (Z.eqb_spec byte 10) as [-> | Hne].
  - apply IH; [apply Hstep; by left | apply ends_in_newline | unfold MAX_FRAME_BYTES; lia].
  - destruct (Z.ltb_spec MAX_FRAME_BYTES (line + 1)) as [Hlong | Hshort].
    + intros Hall. apply lines_bounded_prefix in Hall. apply Hstep in Hall. lia.
    + apply IH; [apply Hstep; by right | by apply ends_in_more | done].
Qed.

(** ** Sessions *)
(** What the reader below gave, chunk by chunk. *)
Definition chunk (e : event InputAnswer) : option (list Z) :=
  match ev_call e as c return InputAnswer c -> option (list Z) with PollInner _ => fun x => mjoin x end (ev_answer e).
Definition chunks (t : list (event InputAnswer)) : list (list Z) := omap (M := list) chunk t.
Definition delivered (outs : list Polled) : list Z :=
  concat (omap (M := list) (fun o => match o with Filled bytes => Some bytes | _ => None end) outs).

(** Everything was within the limit and passed on. *)
Definition passes (read : list Z) (t : list (event InputAnswer)) (outs : list Polled) : Prop :=
  lines_bounded (read ++ concat (chunks t)) /\ FrameTooLarge ∉ outs /\ delivered outs = concat (chunks t).
(** The last chunk made a line too long: it and all after it are refused. *)
Definition refuses (read : list Z) (t : list (event InputAnswer)) (outs : list Polled) : Prop :=
  exists good over firsts k,
    chunks t = good ++ [over] /\ lines_bounded (read ++ concat good) /\ ~ lines_bounded (read ++ concat good ++ over)
    /\ outs = firsts ++ replicate (S k) FrameTooLarge /\ FrameTooLarge ∉ firsts /\ delivered firsts = concat good.

Lemma poll_all_failed b rooms t outs :
  bi_failed b = true -> runs (poll_all b rooms) t (Some outs) -> t = [] /\ outs = replicate (length rooms) FrameTooLarge.
Proof.
  intros Hb. revert t outs. induction rooms as [| room rooms IH]; intros t outs; cbn [poll_all].
  { by intros [-> [= ->]]. }
  unfold poll_read. rewrite Hb. cbn [pbind fst snd]. intros [(t1 & t2 & rest & -> & H1 & [-> [= ->]]) | [[=] _]]%runs_bind.
  apply IH in H1 as [-> ->]. done.
Qed.

Lemma poll_all_spec b read rooms t outs :
  bi_failed b = false -> lines_bounded read -> ends_in read (line_bytes b) -> line_bytes b <= MAX_FRAME_BYTES ->
  runs (poll_all b rooms) t (Some outs) -> passes read t outs \/ refuses read t outs.
Proof.
  revert b read t outs. induction rooms as [| room rooms IH]; intros b read t outs Hf Hb He Hl; cbn [poll_all].
  { intros [-> [= ->]]. left. split; [cbn; by rewrite app_nil_r |]. split; [apply not_elem_of_nil | done]. }
  unfold poll_read. rewrite Hf. destruct (room =? 0).
  { cbn [pbind fst snd]. intros [(t1 & t2 & rest & -> & H1 & [-> [= ->]]) | [[=] _]]%runs_bind. rewrite app_nil_r.
    apply (IH b read) in H1 as [(H1 & H2 & H3) | (good & over & firsts & k & H1 & H2 & H3 & -> & H4 & H5)]; try done; [left | right].
    - split; [done |]. split; [| done]. by intros [|]%elem_of_cons.
    - exists good, over, (Filled [] :: firsts), k. do 4 (split; [done |]). split; [| done]. by intros [|]%elem_of_cons. }
  intros [(t1 & t2 & [b' o] & -> & Hp & Hrest) | [[=] _]]%runs_bind.
  destruct Hp as [[_ [=]] | (x & t' & -> & Hp)]. destruct Hp as [-> [= Hbo]].
  apply runs_bind in Hrest as [(t3 & t4 & rest & -> & H3 & [-> [= ->]]) | [[=] _]]. rewrite app_nil_r. cbn [fst snd app] in *.
  assert (Hquiet : forall b', bi_failed b' = false -> line_bytes b' = line_bytes b -> runs (poll_all b' rooms) t3 (Some rest) -> 
    passes read t3 rest \/ refuses read t3 rest) by (intros b2 Hb2 Hb3 H; apply (IH b2 read); congruence || done).
  destruct x as [[filled |] |].
  - revert Hbo. pose proof (count_line_spec read (line_bytes b) filled Hb He Hl) as Hc. destruct (count_line (line_bytes b) filled) as [line |]; intros [= -> ->].
    + destruct Hc as (Hb' & He' & Hl'). apply (IH _ (read ++ filled)) in H3 as [(H1 & H2 & H4) | (good & over & firsts & k & H1 & H2 & H4 & -> & H5 & H6)];
        try done; [left | right].
      * split; [change (lines_bounded (read ++ filled ++ concat (chunks t3))); by rewrite app_assoc |]. split; [by intros [|]%elem_of_cons |]. cbn. by f_equal.
      * exists (filled :: good), over, (Filled filled :: firsts), k. cbn [concat app]. rewrite <- app_assoc in H2. rewrite <- !app_assoc in H4.
        split; [cbn; by f_equal |]. split; [done |]. split; [by rewrite <- app_assoc |]. split; [done |]. split; [by intros [|]%elem_of_cons |]. cbn. by f_equal.
    + apply poll_all_failed in H3 as [-> ->]; [| done]. right. exists [], filled, [], (length rooms). cbn [concat app]. rewrite app_nil_r.
      do 4 (split; [done |]). split; [apply not_elem_of_nil | done].
  - injection Hbo as -> ->. destruct (Hquiet b Hf eq_refl H3) as [(H1 & H2 & H4) | (good & over & firsts & k & H1 & H2 & H4 & -> & H5 & H6)]; [left | right].
    + split; [done |]. split; [| done]. by intros [|]%elem_of_cons.
    + exists good, over, (Failure :: firsts), k. do 4 (split; [done |]). split; [| done]. by intros [|]%elem_of_cons.
  - injection Hbo as -> ->. destruct (Hquiet b Hf eq_refl H3) as [(H1 & H2 & H4) | (good & over & firsts & k & H1 & H2 & H4 & -> & H5 & H6)]; [left | right].
    + split; [done |]. split; [| done]. by intros [|]%elem_of_cons.
    + exists good, over, (Pending :: firsts), k. do 4 (split; [done |]). split; [| done]. by intros [|]%elem_of_cons.
Qed.

(** C33: the protocol's input is the input below, until a line is longer than
    65536 bytes: whatever room the client gives and however the reader below
    cuts its bytes, waits or fails, either no line it gave so far, finished or
    not, is too long, and the client got exactly those bytes; or the last
    chunk made one too long, and the client got exactly the chunks before it,
    then only the error, and nothing more was read. *)
Theorem framing_exact (rooms : list Z) (t : list (event InputAnswer)) (outs : list Polled) :
  runs (poll_all BoundedInput_new rooms) t (Some outs) -> passes [] t outs \/ refuses [] t outs.
Proof.
  apply poll_all_spec; [done | | | done].
  - intros b l a Heq _. destruct b, l, a; try done.
  - exists [], []. split; [done |]. split; [done |]. split; [apply not_elem_of_nil | by left].
Qed.

Lemma framing_exact_witness :
  let oracle n (c : InputCall) : InputAnswer c :=
    match c with PollInner _ => match n with 0%nat => Some (Some [123; 125; 10]) | 1%nat => None | _ => Some (Some [91]) end end in
  let s := replay oracle 0 (poll_all BoundedInput_new [8192; 8192; 0; 16]) in
  snd s = [Filled [123; 125; 10]; Pending; Filled []; Filled [91]] /\ (passes [] (fst s) (snd s) \/ refuses [] (fst s) (snd s)).
Proof.
  intros oracle s. split; [vm_compute; reflexivity |].
  exact (framing_exact [8192; 8192; 0; 16] (fst s) (snd s) (replay_runs oracle 0 (poll_all BoundedInput_new [8192; 8192; 0; 16]))).
Defined.
