(* ===== verification/Mcp.v ===== *)
(** * The protocol server

    [crates/mcp/src/result.rs] and [protocol.rs]: the tools that are listed,
    the routing of a call to the dispatcher, and the bounded results.  The
    messages themselves are read and written by the rmcp library. *)
From stdpp Require Import gmap strings.
From S2P Require Import Prelude Order Text Json Core Budget Packages Schema Evaluate Operation Invocation Catalog Preparation Program Ports Cache Dispatcher Builtins Installed.
Open Scope Z_scope.

Definition MAX_CALL_RESULT_BYTES : Z := 262144.

(** ** Results *)
Record CallToolResult : Type := { content : list string; structured_content : option value; is_error : option bool }.
Definition CallToolResult_success (content : list string) : CallToolResult :=
  {| content := content; structured_content := None; is_error := Some false |}.
Definition CallToolResult_error (content : list string) : CallToolResult :=
  {| content := content; structured_content := None; is_error := Some true |}.

(** [Counter::write]: what remains, or the end of the encoding. *)
Definition counter_write (remaining : Z) (bytes : string) : option Z :=
  if remaining <? slen bytes then None else Some (remaining - slen bytes).
Fixpoint counter_writes (remaining : Z) (writes : list string) : option Z :=
  match writes with [] => Some remaining | bytes :: writes => r ← counter_write remaining bytes; counter_writes r writes end.
Definition fits (limit : Z) (writes : list string) : bool := is_some (counter_writes limit writes).

Definition failure (code : string) : CallToolResult := CallToolResult_error [json_text (VObj [("error", VStr code)])].

(** ** Tools *)
Record Tool : Type := {
  t_name : string; t_description : string; t_schema : list (string * value);
  t_read_only : bool; t_destructive : bool; t_idempotent : bool; t_open_world : bool
}.

(** [serde_json::from_str] of an allowed number. *)
Definition tool (from_str : string -> option value) (o : Operation) : Tool :=
  let schema := default [] (as_object (input_schema from_str o)) in
  let read_only := forallb (fun r => bool_decide (permission r = Read)) (requirements o) in
  let idempotent := read_only && negb (is_some (package_profile (action o))) in
  {| t_name := op_name o; t_description := description o; t_schema := schema;
     t_read_only := read_only; t_destructive := negb read_only; t_idempotent := idempotent; t_open_world := false |}.

Definition capability_tool : Tool :=
  {| t_name := CAPABILITY_TOOL_NAME;
     t_description := "Check compatibility metadata for an authorized operation. Ubus uses input signatures; closed package queries report capture_required without capturing. Does not prove response/hardware support. Refresh discards cached ubus evidence.";
     t_schema :=
       bt_of_list [("type", VStr "object");
         ("properties", obj_of [("operation", obj_of [("type", VStr "string"); ("maxLength", num 64)]);
                                ("refresh", obj_of [("type", VStr "boolean"); ("default", VBool false)])]);
         ("required", VArr [VStr "operation"]); ("additionalProperties", VBool false)];
     t_read_only := true; t_destructive := false; t_idempotent := true; t_open_world := false |}.

Definition list_tools (from_str : string -> option value) (d : Dispatcher) (cursor : option string) : result string (list Tool) :=
  fail_if is_some cursor with "invalid_cursor"%string in
  let tools := tool from_str <$> available_operations d in
  Ok (if Nat.eqb (length tools) 0 then tools else tools ++ [capability_tool]).

(** ** Calls *)
(** [json!(status)] *)
Definition status_value (s : CapabilityStatus) : value :=
  obj_of [("compatibility", VStr (compatibility s)); ("reason", VStr (reason s)); ("scope", VStr (scope s));
          ("response_contract", match cs_response_contract s with Some c => VStr c | None => VNull end);
          ("remaining_ttl_ms", match remaining_ttl_ms s with Some n => VNum (PosInt n) | None => VNull end)].

Section server.
Context (definition_size : Operation -> option Z) (json_pointer : value -> string -> option value).
(** What [serde_json::to_writer] writes for a value and for a result. *)
Context (write_value : value -> list string) (write_result : CallToolResult -> list string).

Definition success (v : value) : CallToolResult :=
  if negb (fits MAX_NORMALIZED_BYTES (write_value v)) then failure "output_limit"
  else
    let result := {| content := [json_text v]; structured_content := Some v; is_error := Some false |} in
    if negb (fits MAX_CALL_RESULT_BYTES (write_result result)) then failure "output_limit" else result.

Definition call_tool (d : Dispatcher) (name : string) (arguments : option (list (string * value))) : request CallToolResult :=
  let arguments := VObj (default [] arguments) in
  do! outcome := (if String.eqb name CAPABILITY_TOOL_NAME
                  then do! status := capability_status d arguments in Ret (let? s := status in Ok (status_value s))
                  else invoke definition_size json_pointer d name arguments) in
  Ret (match outcome with
       | Ok v => success v
       | Err e => failure (runtime_code e)
       end).
End server.

(** * What the tools promise

    A listed tool can be called, and one that is advertised as read-only can
    only read, whatever extensions the operator added. *)

Lemma tool_read_only from_str o : t_read_only (tool from_str o) = true <-> Forall (fun r => permission r = Read) (requirements o).
Proof.
  cbn [tool t_read_only]. rewrite <- Is_true_true, forallb_True. apply Forall_iff. intros r. by rewrite bool_decide_spec.
Qed.

(** A read-only operation of the catalog is built in. *)
Lemma read_only_builtin definition_size l custom c from_str o :
  builtins = Some l -> catalog definition_size custom = Some (Ok c) -> o ∈ operations c -> t_read_only (tool from_str o) = true -> o ∈ l.
Proof.
  intros Hl Hc Ho Hr. unfold catalog in Hc. rewrite Hl in Hc. injection Hc as Hc. apply with_builtins_ok in Hc as (Hops & _).
  rewrite Hops in Ho. apply elem_of_app in Ho as [Ho | (o' & -> & Ho')%list_elem_of_fmap]; [done | exfalso].
  apply tool_read_only in Hr. rewrite Forall_forall in Hr. destruct (inject_spec o') as (_ & _ & _ & Hspec).
  specialize (Hr {| category := Extensions; permission := Write |} (proj2 (Hspec _) (or_introl eq_refl))). done.
Qed.

Lemma validate_not_capability definition_size o : validate definition_size o = Ok tt -> op_name o <> CAPABILITY_TOOL_NAME.
Proof. unfold validate. intros Hv. apply fail_if_ok in Hv as [Hv _]. intros He. rewrite He, String.eqb_refl, orb_true_r in Hv. done. Qed.

(** A page is prepared by a page operation. *)
Lemma page_profile_prepared definition_size o input p :
  prepare definition_size o input = Ok p -> is_some (package_page p) = true -> is_some (package_profile (action o)) = true.
Proof.
  intros Hp Hpage. destruct (action o) as [| | object method template | program args] eqn:Ea; [done | done | |];
    apply prepare_ok_parts in Hp as (values & _ & _ & _ & _ & Hu & Hq).
  - by rewrite (Hu _ _ _ Ea) in Hpage.
  - destruct (Hq _ _ Ea) as (args' & _ & ->). done.
Qed.

Lemma available_iff d o : o ∈ available_operations d <-> o ∈ operations (d_catalog d) /\ authorize (d_policy d) o = Ok tt.
Proof.
  unfold available_operations. rewrite !list_elem_of_In, filter_In, is_ok_true. split.
  - by intros [Ho [[] Ha]].
  - intros [Ho Ha]. split; [done | by exists tt].
Qed.

Lemma available_sublist d : sublist (available_operations d) (operations (d_catalog d)).
Proof.
  unfold available_operations. induction (operations (d_catalog d)) as [| o l IH]; cbn [List.filter]; [constructor |].
  destruct (is_ok _); by constructor.
Qed.

(** What a read-only tool may prepare. *)
Definition read_prepared (from_str : string -> option value) (o : Operation) (input : value) (p : PreparedAction) : Prop :=
  match p with
  | PreparedApk _ | PreparedOpkg _ => t_idempotent (tool from_str o) = false
  | PreparedUbus object method arguments =>
      exists template values, input = VObj values /\ (object, method, template) ∈ reviewed_calls
        /\ arguments = VObj (omap (resolve values) template)
  | PreparedProcess _ _ => False
  end.

Lemma reviewed_read_prepared definition_size from_str o input p :
  prepare definition_size o input = Ok p ->
  match p with
  | PreparedApk _ | PreparedOpkg _ => True
  | PreparedUbus object method arguments =>
      exists template values, input = VObj values /\ (object, method, template) ∈ reviewed_calls
        /\ arguments = VObj (omap (resolve values) template)
  | PreparedProcess _ _ => False
  end -> read_prepared from_str o input p.
Proof.
  intros Hp Hrev. destruct p; try exact Hrev; cbn [read_prepared tool t_idempotent]; apply andb_false_iff; right;
    by rewrite (page_profile_prepared definition_size o input _ Hp eq_refl).
Qed.

Lemma read_only_prepared definition_size l custom c from_str o input p :
  builtins = Some l -> catalog definition_size custom = Some (Ok c) -> o ∈ operations c -> t_read_only (tool from_str o) = true ->
  prepare definition_size o input = Ok p -> read_prepared from_str o input p.
Proof.
  intros Hl Hc Ho Hr Hp. eapply reviewed_read_prepared; [exact Hp |].
  eapply builtin_calls_reviewed; [exact Hl | by eapply read_only_builtin | exact Hp].
Qed.

Lemma list_tools_names from_str d tools :
  list_tools from_str d None = Ok tools ->
  t_name <$> tools = (op_name <$> available_operations d) ++ (if decide (available_operations d = []) then [] else [CAPABILITY_TOOL_NAME]).
Proof.
  unfold list_tools. intros Ht. injection Ht as <-. rewrite length_fmap. destruct (available_operations d) as [| o os]; [done |].
  rewrite decide_False by done. cbn [length Nat.eqb]. rewrite fmap_app, <- list_fmap_compose. done.
Qed.

Lemma list_tools_elem from_str d tools t :
  list_tools from_str d None = Ok tools -> t ∈ tools -> t_name t <> CAPABILITY_TOOL_NAME ->
  exists o, o ∈ available_operations d /\ t = tool from_str o.
Proof.
  unfold list_tools. intros Ht Hin Hname. injection Ht as <-.
  destruct (Nat.eqb _ _); [by apply list_elem_of_fmap in Hin as (o & -> & Ho); exists o |].
  apply elem_of_app in Hin as [Hin | Hin]; [by apply list_elem_of_fmap in Hin as (o & -> & Ho); exists o |].
  by apply list_elem_of_singleton in Hin as ->.
Qed.

(** For a server of the reviewed operations and any extensions, the
    list of tools is exactly the operations the policy authorizes, in catalog
    order and under distinct names, followed, unless there is none, by the
    capability query, whose name no operation has; calling a listed name
    reaches that operation; and a tool advertised as read-only, even if it is
    an extension's, prepares for every input only a package page or one of the
    reviewed read calls, never a process, and, if also advertised as
    idempotent, no page. *)
Theorem tools_truthful definition_size from_str custom c d tools :
  catalog definition_size custom = Some (Ok c) -> d_catalog d = c -> list_tools from_str d None = Ok tools ->
  t_name <$> tools = (op_name <$> available_operations d) ++ (if decide (available_operations d = []) then [] else [CAPABILITY_TOOL_NAME])
  /\ NoDup (t_name <$> tools)
  /\ (forall o, o ∈ available_operations d <-> o ∈ operations c /\ authorize (d_policy d) o = Ok tt)
  /\ forall t, t ∈ tools -> t_name t <> CAPABILITY_TOOL_NAME ->
       exists o, t = tool from_str o /\ Catalog_get c (t_name t) = Some o /\ authorize (d_policy d) o = Ok tt
         /\ (t_read_only t = true -> forall input p, prepare definition_size o input = Ok p -> read_prepared from_str o input p).
Proof.
  intros Hc Hd Ht. destruct builtins_Some as (l & Hl & _).
  assert (Hread : forall o, o ∈ operations c -> t_read_only (tool from_str o) = true -> forall input p, prepare definition_size o input = Ok p -> read_prepared from_str o input p).
  { intros o Ho Hr input p. apply (read_only_prepared definition_size l custom c); done. }
  unfold catalog in Hc. rewrite Hl in Hc. injection Hc as Hc. clear Hl. pose proof (catalog_get_iff _ _ _ _ Hc) as Hget.
  apply with_builtins_ok in Hc as (_ & _ & Hnd & Hv & _). pose proof (list_tools_names from_str d tools Ht) as Hnames.
  split; [done |]. split; [| split; [intros o; rewrite <- Hd; apply available_iff |]].
  - rewrite Hnames. apply NoDup_app. split; [| split].
    + eapply sublist_NoDup; [exact Hnd |]. apply fmap_sublist. rewrite <- Hd. apply available_sublist.
    + intros x (o & -> & Ho)%list_elem_of_fmap Hx. apply available_iff in Ho as [Ho _]. rewrite Hd in Ho. rewrite Forall_forall in Hv.
      specialize (Hv o Ho). destruct (decide _); [by apply not_elem_of_nil in Hx |]. apply list_elem_of_singleton in Hx. by apply (validate_not_capability definition_size o).
    + destruct (decide _); [constructor | apply NoDup_singleton].
  - intros t Hin Hname. destruct (list_tools_elem from_str d tools t Ht Hin Hname) as (o & Ho & ->).
    apply available_iff in Ho as [Ho Ha]. rewrite Hd in Ho. exists o. split; [done |]. split; [by apply Hget |]. split; [done |]. by apply Hread.
Qed.

(** ** A server with one extension, for a reader of the system category *)
Definition demo_server_catalog : Catalog :=
  match catalog wire_size [demo_process] with Some (Ok c) => c | _ => {| operations := []; index := ∅ |} end.
Definition demo_reader : Policy :=
  {| categories := {[ System := {| access := ReadOnly; execute := false |} ]}; allow_operations := None; deny_operations := ∅ |}.
Definition demo_server : Dispatcher :=
  {| d_catalog := demo_server_catalog; d_policy := demo_reader; d_limits := Limits_default; d_tokens := false |}.

Lemma demo_server_lists from_str : exists tools, list_tools from_str demo_server None = Ok tools.
Proof. unfold list_tools. cbn [is_some]. by eexists. Qed.

Lemma demo_server_built : d_catalog demo_server = demo_server_catalog.
Proof. unfold demo_server. cbn [d_catalog]. reflexivity. Qed.
(** What the reader is shown: the reads of the system category. *)
Lemma demo_server_shows : op_name <$> available_operations demo_server =
  ["system_configuration"; "system_board"; "system_info"; "system_timeserver_configuration"; "system_led_configuration";
   "system_dropbear_configuration"; "system_uhttpd_configuration"].
Proof. vm_compute. reflexivity. Qed.

Lemma demo_server_installs : match catalog wire_size [demo_process] with Some (Ok _) => true | _ => false end = true.
Proof. vm_compute. reflexivity. Qed.
Lemma demo_server_catalog_ok : catalog wire_size [demo_process] = Some (Ok demo_server_catalog).
Proof. pose proof demo_server_installs as H. unfold demo_server_catalog. by destruct (catalog wire_size [demo_process]) as [[c | e] |]. Qed.

Lemma tools_truthful_witness :
  exists tools, list_tools (fun _ => None) demo_server None = Ok tools
    /\ t_name <$> tools = (op_name <$> available_operations demo_server) ++ [CAPABILITY_TOOL_NAME] /\ NoDup (t_name <$> tools).
Proof.
  destruct (demo_server_lists (fun _ => None)) as [tools Ht]. exists tools. split; [exact Ht |].
  destruct (tools_truthful wire_size (fun _ => None) [demo_process] demo_server_catalog demo_server _ demo_server_catalog_ok demo_server_built Ht) as (Hn & Hd & _).
  split; [| exact Hd]. rewrite Hn, decide_False; [reflexivity |]. intros He. pose proof demo_server_shows as Hs. rewrite He in Hs. discriminate Hs.
Defined.
