(* ===== verification/Printable.v ===== *)
(** * Encodings without control characters

    The compact encoding of a JSON value holds no control character, so that
    encoding it once more, as a string of another message, at most doubles it. *)
From S2P Require Import Prelude Order Text Json Core Budget Packages Schema Evaluate Conform Operation Invocation Legacy.
Open Scope Z_scope.

Definition plain_text (s : string) : Prop := Forall (fun b => 32 <= b) (str_bytes s).

(** Every float in the value is printed without control characters. *)
Fixpoint printable (v : value) : Prop :=
  match v with
  | VNum (Float t) => plain_text t
  | VArr l => foldr (fun v P => printable v /\ P) True l
  | VObj m => foldr (fun p P => printable p.2 /\ P) True m
  | _ => True
  end.

Lemma printable_arr l : printable (VArr l) <-> Forall printable l.
Proof. cbn [printable]. induction l as [| v l IH]; cbn [foldr]; [by split |]. by rewrite IH, Forall_cons. Qed.
Lemma printable_obj m : printable (VObj m) <-> Forall (fun p => printable (snd p)) m.
Proof. cbn [printable]. induction m as [| v m IH]; cbn [foldr]; [by split |]. by rewrite IH, Forall_cons. Qed.

Lemma wf_printable v : value_wf v -> printable v.
Proof.
  induction v as [| b | n | s | l IH | m IH] using value_nested_ind; try done.
  - destruct n as [n | n | t]; [done | done |]. by intros [_ Ht].
  - intros Hwf%value_wf_all. apply printable_arr. rewrite Forall_forall in IH, Hwf |- *. auto.
  - intros [_ Hwf]%value_wf_obj. apply printable_obj. rewrite Forall_forall in IH, Hwf |- *. auto.
Qed.

(** ** The text *)
Lemma plain_app s t : plain_text (s +:+ t) <-> plain_text s /\ plain_text t.
Proof. unfold plain_text. by rewrite str_bytes_app, Forall_app. Qed.
Lemma plain_cons a s : plain_text (String a s) <-> 32 <= byte_of a /\ plain_text s.
Proof. unfold plain_text. by rewrite str_bytes_cons, Forall_cons. Qed.
Lemma plain_nil : plain_text EmptyString.
Proof. apply Forall_nil_2. Qed.
Lemma plain_check s : forallb (Z.leb 32) (str_bytes s) = true -> plain_text s.
Proof. intros H. apply Forall_forall. intros b Hb. apply list_elem_of_In in Hb. by apply Z.leb_le, (proj1 (forallb_forall _ _) H). Qed.

Lemma hex_digit_plain d : 0 <= d < 16 -> 32 <= byte_of (hex_digit d).
Proof. intros Hd. unfold hex_digit. rewrite byte_of_ascii_of; [destruct (d <? 10); lia |]. unfold is_byte. destruct (Z.ltb_spec d 10); lia. Qed.

Lemma escape_byte_plain a : plain_text (escape_byte a).
Proof.
  pose proof (byte_of_range a) as Ha. unfold is_byte in Ha. unfold escape_byte.
  destruct (Z.eqb_spec (byte_of a) 34) as [E | _]; [apply plain_cons; split; [done |]; apply plain_cons; split; [lia | apply plain_nil] |].
  destruct (Z.eqb_spec (byte_of a) 92) as [E | _]; [apply plain_cons; split; [done |]; apply plain_cons; split; [lia | apply plain_nil] |]. cbn [orb].
  repeat (destruct (Z.eqb _ _); [by apply plain_check |]).
  destruct (Z.ltb_spec (byte_of a) 32); [| apply plain_cons; split; [done | apply plain_nil]].
  apply plain_cons. split; [done |]. apply plain_app. split; [by apply plain_check |].
  apply plain_cons. split; [apply hex_digit_plain; split; [apply Z.div_pos; lia | apply Z.div_lt_upper_bound; lia] |].
  apply plain_cons. split; [apply hex_digit_plain, Z.mod_pos_bound; lia | apply plain_nil].
Qed.

Lemma quote_plain s : plain_text (quote s).
Proof.
  unfold quote. apply plain_cons. split; [done |]. apply plain_app. split; [| by apply plain_check].
  induction s as [| a s IH]; [apply plain_nil |]. cbn [escape]. apply plain_app. split; [apply escape_byte_plain | done].
Qed.

Lemma dec_go_plain fuel n acc : plain_text acc -> plain_text (dec_go fuel n acc).
Proof.
  revert n acc. induction fuel as [| fuel IH]; intros n acc Ha; [done |]. cbn [dec_go]. cbv zeta.
  assert (plain_text (String (digit_char (n mod 10)) acc)) as Hc.
  { apply plain_cons. split; [| done]. pose proof (Z.mod_pos_bound n 10 ltac:(lia)). unfold digit_char. rewrite byte_of_ascii_of; unfold is_byte; lia. }
  destruct (_ =? 0); [done | by apply IH].
Qed.
Lemma dec_plain n : plain_text (dec n).
Proof. apply dec_go_plain, plain_nil. Qed.
Lemma dec_signed_plain n : plain_text (dec_signed n).
Proof. unfold dec_signed. destruct (n <? 0); [apply plain_cons; split; [done |] |]; apply dec_plain. Qed.

Lemma join_plain sep l : plain_text sep -> Forall plain_text l -> plain_text (join sep l).
Proof.
  intros Hs. induction 1 as [| x l Hx Hl IH]; [apply plain_nil |]. destruct l as [| y l]; [done |].
  change (join sep (x :: y :: l)) with (x +:+ sep +:+ join sep (y :: l)). rewrite !plain_app. by split.
Qed.

Lemma json_text_plain v : printable v -> plain_text (json_text v).
Proof.
  induction v as [| [] | n | s | l IH | m IH] using value_nested_ind; intros Hp; try (by apply plain_check).
  - destruct n as [n | n | t]; [apply dec_plain | apply dec_signed_plain | done].
  - apply quote_plain.
  - apply printable_arr in Hp. cbn [json_text]. rewrite !plain_app. split; [by apply plain_check |]. split; [| by apply plain_check].
    apply join_plain; [by apply plain_check |]. apply Forall_fmap. rewrite Forall_forall in IH, Hp |- *. unfold compose. auto.
  - apply printable_obj in Hp. cbn [json_text]. rewrite !plain_app. split; [by apply plain_check |]. split; [| by apply plain_check].
    apply join_plain; [by apply plain_check |]. apply Forall_fmap. rewrite Forall_forall in IH, Hp |- *. unfold compose. intros q Hq.
    rewrite !plain_app. split; [apply quote_plain |]. split; [by apply plain_check | auto].
Qed.

(** Encoded as a string, plain text at most doubles. *)
Lemma quote_plain_size s : plain_text s -> quote_size s <= 2 + 2 * slen s.
Proof.
  intros Hs. rewrite quote_size_sum, slen_bytes. unfold plain_text in Hs. induction Hs as [| b l Hb Hl IH]; cbn [foldr length]; [done |].
  assert (escape_cost b <= 2) by (unfold escape_cost; destruct (Z.leb_spec b 31); [lia | by destruct (_ || _)]). lia.
Qed.
Lemma json_quoted_size v : printable v -> quote_size (json_text v) <= 2 + 2 * json_size v.
Proof. intros Hp. by apply quote_plain_size, json_text_plain. Qed.

(** ** Maps *)
Lemma insert_printable k v m :
  printable v -> Forall (fun p => printable (snd p)) m -> Forall (fun p => printable (snd p)) (bt_insert k v m).
Proof. intros Hv Hm. apply Forall_forall. intros p [-> | Hp]%bt_insert_elem; [done |]. rewrite Forall_forall in Hm. auto. Qed.
Lemma of_list_printable l : Forall (fun p : string * value => printable (snd p)) l -> printable (VObj (bt_of_list l)).
Proof.
  intros Hl. apply printable_obj. unfold bt_of_list.
  assert (forall m, Forall (fun p : string * value => printable (snd p)) m ->
    Forall (fun p => printable (snd p)) (foldl (fun m p => bt_insert (fst p) (snd p) m) m l)) as H; [| by apply (H []); constructor].
  induction Hl as [| p l Hp Hl IH]; intros m Hm; [done |]. cbn [foldl]. by apply IH, insert_printable.
Qed.

(** ** What the program returns *)
Lemma integer_printable n : printable (value_of_i64 n).
Proof. unfold value_of_i64. by destruct (n <? 0). Qed.

Lemma kind_printable k v : kind_conforms k v -> printable v.
Proof.
  destruct k; cbn [kind_conforms]; [by intros [b ->] | by intros (t & -> & _) | by intros (t & -> & _) | | | by intros (n & -> & _)].
  - intros (n & -> & _). apply integer_printable.
  - intros [-> | (n & -> & _)]; [done | apply integer_printable].
Qed.

Lemma object_printable {C} fields (collections : list (CollectionField C)) col k v :
  (forall c v, col c v -> printable v) -> object_conforms fields collections col k v -> printable v.
Proof.
  intros Hcol (m & -> & _ & Hm & _). apply printable_obj. eapply Forall_impl; [exact Hm |].
  intros [key w] [(i & s & _ & [= -> ->]) | [(f & _ & _ & Hk) | (f & _ & _ & Hk)]]; cbn [snd] in *; [done | by eapply kind_printable | by eapply Hcol].
Qed.

Lemma redact_printable v : printable v -> printable (redact v).
Proof.
  induction v as [| b | n | s | l IH | m IH] using value_nested_ind; intros Hp; try done.
  - rewrite redact_arr. apply printable_arr in Hp. apply printable_arr, Forall_fmap. rewrite Forall_forall in IH, Hp |- *. unfold compose. auto.
  - rewrite redact_obj. apply printable_obj in Hp. apply printable_obj. induction IH as [| [k v] m Hv Hm IHm]; [constructor |].
    apply Forall_cons in Hp as [Hpv Hpm]. cbn [redact_fields]. specialize (IHm Hpm). destruct (sensitive_key k); [done |]. constructor; [by apply Hv | done].
Qed.

Definition records_printable (R : Type) `{RecordConform R} : Prop :=
  forall (r : R) k v, record_conforms r k v -> printable v.

Lemma collection_printable `{RecordConform R} (c : Collection R) v :
  records_printable R -> collection_conforms c v -> printable v.
Proof.
  intros HR. assert (Hall : forall l, Forall printable l -> printable (VArr l)) by (intros l; apply printable_arr).
  destruct c; cbn [collection_conforms].
  - intros (k & ts & -> & _ & _ & Hts). split; [done |]. split; [| done]. apply Hall. eapply Forall_impl; [exact Hts |]. intros; by eapply kind_printable.
  - intros (vs & -> & _ & Hvs). apply Hall. eapply Forall_impl; [exact Hvs |]. intros w Hw. by eapply HR.
  - intros (ids & vs & -> & _ & _ & Hvs). apply Hall. clear -Hvs HR. induction Hvs as [| id w ids vs [Hw _] Hvs IH]; [constructor |]. constructor; [by eapply HR | done].
  - intros (ids & vs & -> & _ & _ & Hvs). apply Hall. clear -Hvs HR. induction Hvs as [| id w ids vs [Hw _] Hvs IH]; [constructor |]. constructor; [by eapply HR | done].
  - intros (vs & -> & _ & Hvs). apply Hall, Forall_fmap. eapply Forall_impl; [exact Hvs |]. intros w Hw. split; [| done]. by eapply kind_printable.
Qed.

Lemma leaf_printable : records_printable LeafRecord.
Proof. intros r k v Hv. cbn [record_conforms LeafRecord_conform] in Hv. eapply object_printable; [| exact Hv]. done. Qed.
Lemma schema_printable `{RecordConform R} : records_printable R -> records_printable (SchemaRecord (Collection R)).
Proof. intros HR r k v Hv. eapply object_printable; [| exact Hv]. intros c w. by apply collection_printable. Qed.

Lemma projection_printable definition selector v : projection_conforms definition selector v -> printable v.
Proof.
  assert (Hr : records_printable (SchemaRecord (Collection (SchemaRecord (Collection LeafRecord))))) by apply schema_printable, schema_printable, leaf_printable.
  assert (Hs : records_printable (SchemaRecord (Collection LeafRecord))) by apply schema_printable, leaf_printable.
  destruct definition as [guards r | guards c selection], selector as [s |]; cbn [projection_conforms];
    [intros Hv; by eapply Hr | intros Hv; by eapply Hr | destruct c; try done; intros [Hv _]; by eapply Hs |].
  intros (w & -> & Hc). split; [| done]. exact (collection_printable c w Hs Hc).
Qed.

Lemma project_fields_printable json_pointer o src out l :
  (forall v p w, value_wf v -> json_pointer v p = Some w -> value_wf w) -> value_wf src ->
  Forall (fun p => printable (snd p)) out -> Forall (fun p => printable (snd p)) (project_fields json_pointer o src out l).
Proof.
  intros Hj Hs. revert out. induction l as [| p l IH]; intros out Ho; cbn [project_fields]; [done |].
  destruct (_ || _); [by apply IH |]. destruct (json_pointer src p) as [w |] eqn:Ep; [| by apply IH].
  destruct (legacy_skips o w); [by apply IH |]. apply IH, insert_printable; [| done]. apply redact_printable, wf_printable. by eapply Hj.
Qed.

Lemma operation_project_printable json_pointer o src :
  (forall v p w, value_wf v -> json_pointer v p = Some w -> value_wf w) -> value_wf src -> printable (operation_project json_pointer o src).
Proof.
  intros Hj Hs. unfold operation_project. destruct (output_mode o); try done; destruct (negb _); try done;
    apply printable_obj, project_fields_printable; done || constructor.
Qed.

Lemma page_printable o nonce offset v : page o nonce offset = Ok v -> printable v.
Proof.
  unfold page. intros Hp. apply fail_if_ok in Hp as [_ Hp].
  assert (Hitems : forall {A} (f : A -> value) l, (forall x, printable (f x)) -> printable (VArr (f <$> l))).
  { intros A f l Hf. apply printable_arr, Forall_fmap, Forall_forall. intros x _. apply Hf. }
  assert (Hrows : (forall r, printable (apk_json r)) /\ forall r, printable (opkg_json r)).
  { split; intros r; apply of_list_printable; by repeat constructor. }
  assert (Hbase : forall source scope count, Forall (fun p => printable (snd p)) (bt_of_list
    [("source"%string, VStr source); ("scope"%string, VStr scope); ("consistency"%string, VStr "non_atomic_observation"); ("whole_device_complete"%string, VBool false);
     ("captured_count"%string, VNum (PosInt count)); ("offset"%string, VNum (PosInt offset))])).
  { intros. apply printable_obj, of_list_printable. by repeat constructor. }
  assert (Hdone : forall m, Ok (E := CoreError) (VObj m) = Ok v -> Forall (fun p => printable (snd p)) m -> printable v).
  { intros m [= <-] Hm. by apply printable_obj. }
  destruct (records o) as [rows | rows]; cbv zeta in Hp; apply rbind_ok in Hp as ([] & _ & Hp); refine (Hdone _ Hp _);
    (destruct (_ <? _); [apply insert_printable; [done |] |]); apply insert_printable; try apply Hbase; apply Hitems; apply Hrows.
Qed.
