(* ===== verification/Delivered.v ===== *)
(** * What a call delivers

    The limits of the protocol never take away a result that the runtime
    accepted: a normalized value fits, and so does the message that carries it
    twice, as text and as data. *)
From stdpp Require Import gmap strings.
From S2P Require Import Prelude Order Text Json Core Budget Packages Schema Evaluate Operation Invocation Catalog Preparation Charge Projection Legacy Conform.
From S2P Require Import Program Ports Cache Dispatcher Protocol Requests Audited Mcp Printable.
Open Scope Z_scope.

Definition written (writes : list string) : Z := foldr (fun s n => slen s + n) 0 writes.

(** The counter admits an encoding by its length, however it is cut. *)
Lemma fits_iff limit writes : 0 <= limit -> fits limit writes = true <-> written writes <= limit.
Proof.
  unfold fits. revert limit. induction writes as [| bytes writes IH]; intros limit Hl; cbn [counter_writes written foldr]; [done |].
  assert (Hpos : 0 <= written writes) by (clear; induction writes as [| s w IH]; cbn [written foldr]; [done |]; fold (written w); unfold slen; lia).
  fold (written writes). unfold counter_write. destruct (Z.ltb_spec limit (slen bytes)); cbn [mbind option_bind].
  - split; [done | lia].
  - rewrite IH by lia. lia.
Qed.

Lemma written_concat writes s : foldr String.append EmptyString writes = s -> written writes = slen s.
Proof.
  intros <-. induction writes as [| b w IH]; [done |]. cbn [written foldr]. fold (written w). by rewrite IH, slen_app.
Qed.

Lemma run_answered (t : trace) a r : (a, r) ∈ m_runs (after t) -> Event (RunAction a) r ∈ t.
Proof.
  induction t as [| e t IH] using rev_ind; [by intros ?%not_elem_of_nil |]. rewrite after_snoc, elem_of_app. intros Hin.
  destruct (after t) as [tr p w g en l rs log]. destruct e as [c x]. cbn [m_runs] in IH.
  destruct c; cbn [mstep m_runs ev_call ev_answer] in Hin; try (left; by apply IH).
  apply elem_of_app in Hin as [Hin | Hin]; [left; by apply IH | right]. apply list_elem_of_singleton in Hin. injection Hin as -> ->. by left.
Qed.

Lemma checked_size v : check_normalized_result v = Ok tt -> json_size v <= MAX_NORMALIZED_BYTES.
Proof. rewrite check_normalized_eq. unfold normalized. intros H. destruct (json_size v <=? MAX_NORMALIZED_BYTES) eqn:E; [by apply Z.leb_le |]. by rewrite ?andb_false_r in H. Qed.

Lemma page_checked o nonce offset v : page o nonce offset = Ok v -> check_normalized_result v = Ok tt.
Proof.
  unfold page. intros Hp. apply fail_if_ok in Hp as [_ Hp].
  assert (Hdone : forall m, (let? _ := check_normalized_result (VObj m) in Ok (VObj m)) = Ok v -> check_normalized_result v = Ok tt).
  { intros m Hm. apply rbind_ok in Hm as ([] & Hc & [= <-]). exact Hc. }
  destruct (records o) as [rows | rows]; cbv zeta in Hp; exact (Hdone _ Hp).
Qed.

(** The outputs of the device, as they were decoded. *)
Definition output_of (e : event Answer) : option value :=
  match ev_call e as c return Answer c -> option value with
  | RunAction _ => fun x => match x with Some (Ok out) => Some out | _ => None end
  | _ => fun _ => None
  end (ev_answer e).
Definition outputs_wf (t : trace) : Prop := Forall value_wf (omap (M := list) output_of t).

Lemma outputs_wf_elem t a out : outputs_wf t -> Event (RunAction a) (Some (Ok out)) ∈ t -> value_wf out.
Proof.
  unfold outputs_wf. rewrite Forall_forall. intros Hwf Hin. apply Hwf, list_elem_of_omap. by exists (Event (RunAction a) (Some (Ok out))).
Qed.

Section delivered.
Context (definition_size : Operation -> option Z) (json_pointer : value -> string -> option value).
Context (json_pointer_wf : forall v p w, value_wf v -> json_pointer v p = Some w -> value_wf w).

Lemma validate_disjoint o :
  validate definition_size o = Ok tt ->
  disjoint_output_fields (output_fields o) = true /\ (forall p, output_mode o = Typed p -> validate_projection p (parameters o) = Ok tt).
Proof.
  unfold validate. intros Hv. apply fail_if_ok in Hv as [Hb Hv]. split.
  - destruct (disjoint_output_fields (output_fields o)); [done |]. by rewrite !orb_true_r in Hb.
  - intros p Hp. apply fail_if_ok in Hv as [_ Hv]. rewrite Hp in Hv. apply rbind_ok in Hv as (used & Hu & _).
    apply fail_if_ok in Hu as [_ Hu]. by apply rbind_ok in Hu as ([] & Hu & _).
Qed.

(** What a prepared invocation makes of a well-formed output fits. *)
Lemma projected_fits o input invocation out v :
  prepare_invocation definition_size o input = Ok invocation -> value_wf out ->
  invocation_project json_pointer invocation out = Ok v -> printable v /\ check_normalized_result v = Ok tt.
Proof.
  intros Hprep Hwf Hp. unfold prepare_invocation in Hprep. apply rbind_ok in Hprep as (a & Ha & Hprep).
  apply prepare_ok_parts in Ha as (values & _ & Hv & _). apply validate_disjoint in Hv as [Hd Ht].
  apply rbind_ok in Hprep as (proj & Hproj & [= <-]). unfold invocation_project in Hp. apply fail_if_ok in Hp as [_ Hp]. cbn [inv_projection] in Hp.
  destruct (output_mode o) as [| | definition] eqn:Em.
  1-2: injection Hproj as <-; destruct (legacy_project_ok json_pointer o out v json_pointer_wf Hd Hwf) as (-> & Hc & _); [by rewrite Em | done |];
    split; [by apply operation_project_printable | done].
  apply rbind_ok in Hproj as (selector & _ & [= <-]). specialize (Ht definition eq_refl). split.
  - destruct (project_ok_reference _ _ _ _ _ Ht Hwf Hp) as (n & Hr & _). apply (projection_printable definition selector).
    by apply reference_conforms in Hr as [? _]; [| eapply validate_projection_accepted |].
  - by apply (project_passes_normalized_check definition (parameters o) selector out v).
Qed.


Lemma invoke_fits d name arguments t v :
  runs (invoke definition_size json_pointer d name arguments) t (Some (Ok v)) -> outputs_wf t ->
  printable v /\ json_size v <= MAX_NORMALIZED_BYTES.
Proof.
  intros Hr Hwf. apply invoke_sound in Hr as [_ Hr]. destruct (Hr _ eq_refl) as [_ Hi].
  destruct (Hi v eq_refl) as (o & invocation & _ & _ & Hprep & _ & Hres). destruct (package_page (inv_action invocation)).
  - destruct Hres as (_ & sn & offset & _ & Hp). split; [by eapply page_printable | by eapply checked_size, page_checked].
  - destruct Hres as (out & Hruns & Hp). destruct (projected_fits o arguments invocation out v Hprep) as [H1 H2]; [| done |].
    + apply (outputs_wf_elem t (inv_action invocation)); [done |]. apply run_answered. rewrite Hruns. by left.
    + split; [done | by apply checked_size].
Qed.

Context (write_value : value -> list string) (write_result : CallToolResult -> list string).
Context (write_value_text : forall v, foldr String.append EmptyString (write_value v) = json_text v).
Context (write_result_size : forall text v,
  written (write_result {| content := [text]; structured_content := Some v; is_error := Some false |}) <= quote_size text + json_size v + 256).

Definition delivered (v : value) : CallToolResult := {| content := [json_text v]; structured_content := Some v; is_error := Some false |}.

Lemma delivered_size v : printable v -> json_size v <= MAX_NORMALIZED_BYTES -> written (write_result (delivered v)) <= MAX_CALL_RESULT_BYTES.
Proof.
  intros Hp Hs. pose proof (write_result_size (json_text v) v) as Hw. pose proof (json_quoted_size v Hp) as Hq.
  unfold MAX_NORMALIZED_BYTES, MAX_CALL_RESULT_BYTES in *. unfold delivered. lia.
Qed.

Lemma success_delivers v : printable v -> json_size v <= MAX_NORMALIZED_BYTES -> success write_value write_result v = delivered v.
Proof.
  intros Hp Hs. unfold success.
  rewrite (proj2 (fits_iff MAX_NORMALIZED_BYTES (write_value v) ltac:(done))) by (rewrite (written_concat _ _ (write_value_text v)); exact Hs).
  cbv zeta. cbn [negb]. fold (delivered v).
  by rewrite (proj2 (fits_iff MAX_CALL_RESULT_BYTES (write_result (delivered v)) ltac:(done))) by (by apply delivered_size).
Qed.

Lemma call_delivers d name arguments t r :
  name <> CAPABILITY_TOOL_NAME ->
  runs (call_tool definition_size json_pointer write_value write_result d name arguments) t (Some r) -> outputs_wf t ->
  exists outcome, runs (invoke definition_size json_pointer d name (VObj (default [] arguments))) t (Some outcome)
    /\ match outcome with
       | Ok v => r = delivered v /\ json_size v <= MAX_NORMALIZED_BYTES /\ written (write_result r) <= MAX_CALL_RESULT_BYTES
       | Err e => r = failure (runtime_code e)
       end.
Proof.
  intros Hname Hr Hwf. unfold call_tool in Hr. rewrite (proj2 (String.eqb_neq _ _) Hname) in Hr. cbv zeta in Hr.
  apply runs_bind in Hr as [(t1 & t2 & outcome & -> & H1 & H2) | [[=] _]]. destruct H2 as [-> [= ->]]. rewrite app_nil_r in Hwf |- *.
  exists outcome. split; [done |]. destruct outcome as [v | e]; [| done].
  destruct (invoke_fits d name _ _ v H1 Hwf) as [Hp Hs]. split; [by apply success_delivers |]. split; [done |].
  rewrite success_delivers by done. by apply delivered_size.
Qed.
End delivered.

(** C32: the protocol never takes away what the runtime returned: for any call
    of an operation, whatever the environment answers, the tool's result is
    exactly the outcome of the dispatcher's run, a value being carried as the
    text of its encoding and as data, an error by its code; the two guards on
    the size of the value and of the message never fire, because a value the
    runtime returns encodes to at most 65536 bytes without control
    characters, so that the message that carries it twice stays within 262144. *)
Theorem call_tool_delivers definition_size json_pointer write_value write_result d name arguments t r :
  (forall v p w, value_wf v -> json_pointer v p = Some w -> value_wf w) ->
  (forall v, foldr String.append EmptyString (write_value v) = json_text v) ->
  (forall text v, written (write_result {| content := [text]; structured_content := Some v; is_error := Some false |})
                  <= quote_size text + json_size v + 256) ->
  name <> CAPABILITY_TOOL_NAME ->
  runs (call_tool definition_size json_pointer write_value write_result d name arguments) t (Some r) -> outputs_wf t ->
  exists outcome, runs (invoke definition_size json_pointer d name (VObj (default [] arguments))) t (Some outcome)
    /\ match outcome with
       | Ok v => r = delivered v /\ json_size v <= MAX_NORMALIZED_BYTES /\ written (write_result r) <= MAX_CALL_RESULT_BYTES
       | Err e => r = failure (runtime_code e)
       end.
Proof. intros Hj Hv Hw. by apply call_delivers. Qed.

(** ** A concrete call *)
Definition demo_write_value (v : value) : list string := [json_text v].
Definition demo_write_result (r : CallToolResult) : list string :=
  ["{"; quote "content"; ":[{"; quote "type"; ":"; quote "text"; ","; quote "text"; ":"] ++ (quote <$> content r) ++ ["}],"]
  ++ match structured_content r with Some v => [quote "structuredContent"; ":"; json_text v; ","] | None => [] end
  ++ [quote "isError"; ":"; match is_error r with Some true => "true" | _ => "false" end; "}"].
Lemma demo_write_result_size text v :
  written (demo_write_result {| content := [text]; structured_content := Some v; is_error := Some false |}) <= quote_size text + json_size v + 256.
Proof.
  unfold demo_write_result, json_size, quote_size. cbn [content structured_content is_error fmap list_fmap app written foldr].
  repeat match goal with |- context [slen ?s] => lazymatch s with quote text => fail | json_text v => fail | _ => let n := eval vm_compute in (slen s) in change (slen s) with n end end.
  lia.
Qed.
Lemma demo_write_value_text v : foldr String.append EmptyString (demo_write_value v) = json_text v.
Proof. cbn [demo_write_value foldr]. generalize (json_text v) as s. induction s as [| a s IH]; [done |]. change (String a (s +:+ EmptyString) = String a s). by rewrite IH. Qed.

Definition demo_call_tool : request CallToolResult :=
  call_tool demo_size pointer_of demo_write_value demo_write_result demo_dispatcher "device_status" (Some [("device", VStr "br-lan")]).

Lemma demo_call_runs : runs demo_call_tool (fst (drive demo_oracle demo_call_tool)) (Some (delivered demo_value)).
Proof.
  pose proof (drive_runs demo_oracle demo_call_tool) as Hr. assert (snd (drive demo_oracle demo_call_tool) = delivered demo_value) as Hv by (vm_compute; reflexivity).
  by rewrite Hv in Hr.
Qed.

Lemma call_tool_delivers_witness :
  exists outcome, runs demo_request (fst (drive demo_oracle demo_call_tool)) (Some outcome)
    /\ match outcome with
       | Ok v => delivered demo_value = delivered v /\ json_size v <= MAX_NORMALIZED_BYTES
                 /\ written (demo_write_result (delivered demo_value)) <= MAX_CALL_RESULT_BYTES
       | Err e => delivered demo_value = failure (runtime_code e)
       end.
Proof.
  assert (Hwf : outputs_wf (fst (drive demo_oracle demo_call_tool))).
  { assert (Ho : omap (M := list) output_of (fst (drive demo_oracle demo_call_tool)) = [VObj [("up", VBool true)]]) by (vm_compute; reflexivity).
    unfold outputs_wf. rewrite Ho. repeat constructor. }
  exact (call_tool_delivers demo_size pointer_of demo_write_value demo_write_result demo_dispatcher "device_status" (Some [("device", VStr "br-lan")])
    _ _ pointer_of_wf demo_write_value_text demo_write_result_size ltac:(discriminate) demo_call_runs Hwf).
Defined.
