(* ===== verification/Age.v ===== *)
(** * Bounded streams around the age library

    [crates/crypto-age/src/stream.rs], [keys.rs] and [lib.rs].  The age
    library is a parameter: programs that call the bounded streams it was
    handed.  A retry loop is followed for [attempts] interruptions; the call
    [Spinning], which nothing answers, stands for the rest of a longer one. *)
From S2P Require Import Prelude Text Program Protection.
Open Scope Z_scope.

(** [std::io::Read] and [Write] of the caller.  A count is the length it
    claims; [started.elapsed()] is in nanoseconds. *)
Inductive Transfer (A : Type) : Type := Done (a : A) | Interrupted | Broken.
Arguments Done {A} a.
Arguments Interrupted {A}.
Arguments Broken {A}.
Inductive StreamCall : Type := Elapsed | ReadInner (capacity : Z) | WriteInner (bytes : list Z) | FlushInner | Spinning.
Definition StreamAnswer (c : StreamCall) : Type :=
  match c with
  | Elapsed => Z
  | ReadInner _ => Transfer (list Z)
  | WriteInner _ => Transfer Z
  | FlushInner => bool
  | Spinning => Empty_set
  end.
Notation stream := (prog StreamAnswer).
Notation stream_call := (Program.call (Answer := StreamAnswer)).
Definition spinning {A} : stream A := Vis Spinning (fun x : StreamAnswer Spinning => match x : Empty_set with end).

(** ** The budget *)
Inductive Fault : Type := FLimit | FStream | FDeadline.
Record Budget : Type := { failure : option Fault; header_maximum : option Z }.
Definition Budget_new : Budget := {| failure := None; header_maximum := None |}.
Definition begin_header (maximum : Z) (b : Budget) : Budget := {| failure := failure b; header_maximum := Some maximum |}.
Definition finish_header (b : Budget) : Budget := {| failure := failure b; header_maximum := None |}.

Definition budget_error (fallback : ProtectionError) (b : Budget) : ProtectionError :=
  match failure b with
  | Some FLimit => ResourceLimit
  | Some FStream => StreamFailed
  | Some FDeadline => DeadlineExceeded
  | None => fallback
  end.
(** The first fault is kept. *)
Definition budget_fail (f : Fault) (b : Budget) : Budget :=
  match failure b with None => {| failure := Some f; header_maximum := header_maximum b |} | Some _ => b end.

(** A program on the budget; [IoResult] is [result unit]. *)
Definition budgeted (A : Type) : Type := Budget -> stream (A * Budget).

Section age.
Context (attempts : nat) (timeout : Z).

Definition check : budgeted (result ProtectionError unit) := fun b =>
  do! elapsed := stream_call Elapsed in
  let b := if timeout * 1000000 <=? elapsed then budget_fail FDeadline b else b in
  Ret (match failure b with Some _ => Err (budget_error StreamFailed b) | None => Ok tt end, b).
Definition check_io : budgeted (result unit unit) := fun b =>
  do! r := check b in Ret (map_err (fun _ => tt) (fst r), snd r).

(** [self.budget.check_io()?; ..; self.budget.check_io()?;] around a call *)
Definition checked {A B} (io : stream A) (k : A -> budgeted (result unit B)) : budgeted (result unit B) := fun b =>
  do! r := check_io b in
  match fst r with
  | Err e => Ret (Err e, snd r)
  | Ok _ =>
      do! a := io in
      do! r := check_io (snd r) in
      match fst r with Err e => Ret (Err e, snd r) | Ok _ => k a (snd r) end
  end.

(** ** Reading *)
Fixpoint read_inner (fuel : nat) (capacity : Z) : budgeted (result unit (list Z)) :=
  match fuel with
  | O => fun _ => spinning
  | S fuel =>
      checked (stream_call (ReadInner capacity)) (fun result b =>
        match result with
        | Done bytes => if zlen bytes <=? capacity then Ret (Ok bytes, b) else Ret (Err tt, budget_fail FStream b)
        | Interrupted => read_inner fuel capacity b
        | Broken => Ret (Err tt, budget_fail FStream b)
        end)
  end.

(** The counts of [BoundedRead] and [BoundedWrite], with the budget they share. *)
Record Streams : Type := { s_budget : Budget; r_count : Z; w_count : Z }.
Definition set_budget (b : Budget) (s : Streams) : Streams := {| s_budget := b; r_count := r_count s; w_count := w_count s |}.
Definition add_read (n : Z) (s : Streams) : Streams := {| s_budget := s_budget s; r_count := r_count s + n; w_count := w_count s |}.
Definition add_written (n : Z) (s : Streams) : Streams := {| s_budget := s_budget s; r_count := r_count s; w_count := w_count s + n |}.
Definition streaming (A : Type) : Type := Streams -> stream (A * Streams).
Definition with_budget {A} (p : budgeted A) : streaming A := fun s => do! r := p (s_budget s) in Ret (fst r, set_budget (snd r) s).
(** [let a = p?; k(a)] *)
Definition io_try {E A B} (p : streaming (result E A)) (k : A -> streaming (result E B)) : streaming (result E B) := fun s =>
  do! r := p s in match fst r with Ok a => k a (snd r) | Err e => Ret (Err e, snd r) end.

Context (max_input max_output : Z).

Definition bounded_read (capacity : Z) : streaming (result unit (list Z)) :=
  io_try (with_budget check_io) (fun _ s =>
    if capacity =? 0 then Ret (Ok [], s)
    else
      let maximum := match header_maximum (s_budget s) with Some header => Z.min header max_input | None => max_input end in
      let remaining := maximum - r_count s in
      if remaining =? 0 then
        io_try (with_budget (read_inner attempts 1)) (fun probe s =>
          if zlen probe =? 0 then Ret (Ok [], s) else Ret (Err tt, set_budget (budget_fail FLimit (s_budget s)) s)) s
      else
        io_try (with_budget (read_inner attempts (Z.min remaining capacity))) (fun bytes s => Ret (Ok bytes, add_read (zlen bytes) s)) s).

(** ** Writing *)
(** The loop of [BoundedWrite::write], from [buffer[offset..]]. *)
Fixpoint write_rest (fuel : nat) (buffer : list Z) : streaming (result unit unit) := fun s =>
  match buffer with
  | [] => Ret (Ok tt, s)
  | _ =>
      match fuel with
      | O => spinning
      | S fuel =>
          do! r := checked (stream_call (WriteInner buffer)) (fun result b => Ret (Ok result, b)) (s_budget s) in
          let s := set_budget (snd r) s in
          match fst r with
          | Err e => Ret (Err e, s)
          | Ok (Done count) =>
              if (0 <? count) && (count <=? zlen buffer) then write_rest fuel (drop (Z.to_nat count) buffer) (add_written count s)
              else Ret (Err tt, set_budget (budget_fail FStream (s_budget s)) s)
          | Ok Interrupted => write_rest fuel buffer s
          | Ok Broken => Ret (Err tt, set_budget (budget_fail FStream (s_budget s)) s)
          end
      end
  end.

Definition bounded_write (buffer : list Z) : streaming (result unit unit) :=
  io_try (with_budget check_io) (fun _ s =>
    if max_output - w_count s <? zlen buffer then Ret (Err tt, set_budget (budget_fail FLimit (s_budget s)) s)
    else write_rest (length buffer + attempts) buffer s).

Definition bounded_flush : streaming (result unit unit) := with_budget (
  checked (stream_call FlushInner) (fun ok b => if (ok : bool) then Ret (Ok tt, b) else Ret (Err tt, budget_fail FStream b))).

(** ** Keys *)
Definition MAX_NATIVE_KEY_LINE_BYTES : Z := 128.
Definition key_lines (bytes : list Z) : result ProtectionError (list string) :=
  let? document := ok_or (from_utf8 bytes) InvalidMaterial in
  Ok (filter (fun line => is_empty line = false /\ starts_with "#" line = false) (trim <$> lines document)).

Fixpoint parse_keys {K} (parse : string -> option K) (maximum : Z) (keys : list K) (l : list string) : budgeted (result ProtectionError (list K)) :=
  match l with
  | [] => fun b => Ret (Ok keys, b)
  | line :: l => fun b =>
      do! r := check b in
      match fst r with
      | Err e => Ret (Err e, snd r)
      | Ok _ =>
          if maximum <=? zlen keys then Ret (Err ResourceLimit, snd r)
          else if MAX_NATIVE_KEY_LINE_BYTES <? slen line then Ret (Err InvalidMaterial, snd r)
          else match parse line with
               | None => Ret (Err InvalidMaterial, snd r)
               | Some key => parse_keys parse maximum (keys ++ [key]) l (snd r)
               end
      end
  end.
Definition native_keys {K} (parse : string -> option K) (bytes : list Z) (maximum : Z) : budgeted (result ProtectionError (list K)) := fun b =>
  match key_lines bytes with
  | Err e => Ret (Err e, b)
  | Ok l =>
      do! r := parse_keys parse maximum [] l b in
      match fst r with
      | Err e => Ret (Err e, snd r)
      | Ok keys =>
          if Nat.eqb (length keys) 0 then Ret (Err InvalidMaterial, snd r)
          else
            do! c := check (snd r) in
            Ret (let? _ := fst c in Ok keys, snd c)
      end
  end.

(** ** Copying

    [x] is the state of the age stream at one end. *)
Fixpoint copy {X} (read : X -> streaming (option (list Z) * X)) (write : X -> list Z -> streaming (option unit * X))
    (fallback : ProtectionError) (fuel : nat) (x : X) : streaming (result ProtectionError unit * X) :=
  match fuel with
  | O => fun _ => spinning
  | S fuel => fun s =>
      do! r := with_budget check s in
      match fst r with
      | Err e => Ret (Err e, x, snd r)
      | Ok _ =>
          do! r := read x (snd r) in
          let '(bytes, x, s) := r in
          match bytes with
          | None => Ret (Err (budget_error fallback (s_budget s)), x, s)
          | Some bytes =>
              do! r := with_budget check s in
              match fst r with
              | Err e => Ret (Err e, x, snd r)
              | Ok _ =>
                  if zlen bytes =? 0 then Ret (Ok tt, x, snd r)
                  else
                    do! r := write x bytes (snd r) in
                    let '(ok, x, s) := r in
                    match ok with
                    | None => Ret (Err (budget_error fallback (s_budget s)), x, s)
                    | Some _ => copy read write fallback fuel x s
                    end
              end
          end
      end
  end.
(** [input.read(..)] and [output.write_all(..)] of a bounded stream, beside
    the library's stream at the other end. *)
Definition read_plaintext {W} (w : W) : streaming (option (list Z) * W) := fun s =>
  do! r := bounded_read 8192 s in Ret (match fst r with Ok bytes => Some bytes | Err _ => None end, w, snd r).
Definition write_plaintext {X} (x : X) (bytes : list Z) : streaming (option unit * X) := fun s =>
  do! r := bounded_write bytes s in Ret (match fst r with Ok _ => Some tt | Err _ => None end, x, snd r).
End age.

(** ** The age library

    What it calls of the streams it was handed: a write of a whole buffer and
    a flush, or a read. *)
Inductive OutputCall : Type := OWrite (buffer : list Z) | OFlush.
Definition OutputAnswer (c : OutputCall) : Type := result unit unit.
Inductive InputCall : Type := IRead (capacity : nat).
Definition InputAnswer (c : InputCall) : Type := result unit (list Z).

Record AgeLibrary : Type := {
  Recipient : Type; Encryptor : Type; Writer : Type;
  parse_recipient : string -> option Recipient;
  with_recipients : list Recipient -> option Encryptor;
  wrap_output : Encryptor -> prog OutputAnswer (option Writer);
  write_all : Writer -> list Z -> prog OutputAnswer (option unit * Writer);
  finish_writer : Writer -> prog OutputAnswer (option unit);
  Identity : Type; Decryptor : Type; Reader : Type;
  parse_identity : string -> option Identity;
  new_buffered : prog InputAnswer (option Decryptor);
  is_scrypt : Decryptor -> bool;
  decrypt_with : Decryptor -> list Identity -> prog InputAnswer (option Reader);
  read_plain : Reader -> Z -> prog InputAnswer (option (list Z) * Reader)
}.

Definition MAX_HEADER_READ_BYTES : Z := 256 * 1024.
Record CryptoReport : Type := { input_bytes : Z; output_bytes : Z }.

Section provider.
Context (attempts : nat) (age : AgeLibrary) (limits : CryptoLimits).
Notation timeout := (timeout_ms limits).

Definition output_call (c : OutputCall) : streaming (OutputAnswer c) :=
  match c return streaming (OutputAnswer c) with
  | OWrite buffer => bounded_write attempts timeout (max_output_bytes limits) buffer
  | OFlush => bounded_flush timeout
  end.
Definition input_call (c : InputCall) : streaming (InputAnswer c) :=
  match c with IRead capacity => bounded_read attempts timeout (max_input_bytes limits) (Z.of_nat capacity) end.
Definition writing {A} (p : prog OutputAnswer A) : streaming A := fun s => elaborate output_call p s.
Definition reading {A} (p : prog InputAnswer A) : streaming A := fun s => elaborate input_call p s.

(** [.map_err(|_| budget.error(fallback))?] *)
Definition library {A B} (fallback : ProtectionError) (p : streaming (option A)) (k : A -> streaming (result ProtectionError B)) :
    streaming (result ProtectionError B) := fun s =>
  do! r := p s in
  match fst r with Some a => k a (snd r) | None => Ret (Err (budget_error fallback (s_budget (snd r))), snd r) end.

Definition native_recipients : list Z -> Z -> budgeted (result ProtectionError (list (Recipient age))) := native_keys timeout (parse_recipient age).
Definition native_identities : list Z -> Z -> budgeted (result ProtectionError (list (Identity age))) := native_keys timeout (parse_identity age).

Definition Streams_new (b : Budget) : Streams := {| s_budget := b; r_count := 0; w_count := 0 |}.

(** [output.flush(..)?; budget.check()?; Ok(report)] *)
Definition close_output : streaming (result ProtectionError CryptoReport) := fun s =>
  do! r := bounded_flush timeout s in
  match fst r with
  | Err _ => Ret (Err (budget_error StreamFailed (s_budget (snd r))), snd r)
  | Ok _ =>
      io_try (with_budget (check timeout)) (fun _ s => Ret (Ok {| input_bytes := r_count s; output_bytes := w_count s |}, s)) (snd r)
  end.

(** Every copy but the last moves a byte that is counted. *)
Definition copies (maximum : Z) : nat := S (S (Z.to_nat maximum)).

Definition encrypt_streams (encryptor : Encryptor age) : streaming (result ProtectionError CryptoReport) :=
  library EncryptionFailed (writing (wrap_output age encryptor)) (fun writer s =>
    do! r := copy timeout
      (read_plaintext attempts timeout (max_input_bytes limits))
      (fun w bytes s => do! r := writing (write_all age w bytes) s in Ret (fst (fst r), snd (fst r), snd r))
      EncryptionFailed (copies (max_input_bytes limits)) writer s in
    let '(copied, writer, s) := r in
    match copied with
    | Err e => Ret (Err e, s)
    | Ok _ => library EncryptionFailed (writing (finish_writer age writer)) (fun _ => close_output) s
    end).

Definition encrypt (recipients : list Z) : stream (result ProtectionError CryptoReport) :=
  match crypto_limits_validate limits with
  | Err e => Ret (Err e)
  | Ok _ =>
      do! r := native_recipients recipients (max_recipients limits) Budget_new in
      match fst r with
      | Err e => Ret (Err e)
      | Ok recipients =>
          match with_recipients age recipients with
          | None => Ret (Err (budget_error EncryptionFailed (snd r)))
          | Some encryptor =>
              do! r := io_try (with_budget (check timeout)) (fun _ => encrypt_streams encryptor) (Streams_new (snd r)) in Ret (fst r)
          end
      end
  end.

Definition decrypt_streams (identities : list (Identity age)) : streaming (result ProtectionError CryptoReport) := fun s =>
  let s := set_budget (begin_header MAX_HEADER_READ_BYTES (s_budget s)) s in
  library DecryptionFailed (reading (new_buffered age)) (fun decryptor s =>
    let s := set_budget (finish_header (s_budget s)) s in
    io_try (with_budget (check timeout)) (fun _ s =>
      if is_scrypt age decryptor then Ret (Err UnsupportedProtection, s)
      else
        library DecryptionFailed (reading (decrypt_with age decryptor identities)) (fun reader s =>
          do! r := copy timeout
            (fun x s => do! r := reading (read_plain age x 8192) s in Ret (fst (fst r), snd (fst r), snd r))
            (write_plaintext attempts timeout (max_output_bytes limits))
            DecryptionFailed (copies (max_output_bytes limits)) reader s in
          let '(copied, _, s) := r in
          match copied with Err e => Ret (Err e, s) | Ok _ => close_output s end) s) s) s.

Definition decrypt_to_staging (identity : list Z) : stream (result ProtectionError CryptoReport) :=
  match crypto_limits_validate limits with
  | Err e => Ret (Err e)
  | Ok _ =>
      do! r := native_identities identity (max_recipients limits) Budget_new in
      match fst r with
      | Err e => Ret (Err e)
      | Ok identities => do! r := decrypt_streams identities (Streams_new (snd r)) in Ret (fst r)
      end
  end.
End provider.
