(* ===== verification/Provider.v ===== *)
(** * What encryption and decryption may consume

    A meter watches the caller's streams.  Whatever the age library does with
    the bounded streams, the reports are what the meter shows, nothing passes
    the limits, and no fault is forgotten. *)
From S2P Require Import Prelude Text Program Protection Age.
Open Scope Z_scope.

(** [m_bad]: a stream failed or a reading of the clock was past the deadline.
    [m_fault]: the first fault that a reading of the clock followed or was; a
    failure is taken note of after that reading.  [m_fresh]: the last event is a
    reading of the clock before the deadline.  [m_idle]: just before the last
    reading of the clock that could find the first fault there was such a
    reading, and no call of a stream. *)
Record Meter : Type := {
  m_in : list Z; m_out : list Z; m_eof : bool; m_flushed : bool; m_bad : bool; m_interrupts : nat;
  m_fault : option Fault; m_fresh : bool; m_idle : bool
}.
Definition Meter_new : Meter :=
  {| m_in := []; m_out := []; m_eof := false; m_flushed := false; m_bad := false; m_interrupts := 0; m_fault := None; m_fresh := false; m_idle := false |}.
Definition worse (bad : bool) (m : Meter) : Meter :=
  {| m_in := m_in m; m_out := m_out m; m_eof := m_eof m; m_flushed := m_flushed m; m_bad := m_bad m || bad; m_interrupts := m_interrupts m;
     m_fault := m_fault m; m_fresh := false; m_idle := m_idle m |}.
Definition interrupted (m : Meter) : Meter :=
  {| m_in := m_in m; m_out := m_out m; m_eof := m_eof m; m_flushed := m_flushed m; m_bad := m_bad m; m_interrupts := S (m_interrupts m);
     m_fault := m_fault m; m_fresh := false; m_idle := m_idle m |}.
(** A reading of the clock. *)
Definition timed (late : bool) (m : Meter) : Meter :=
  {| m_in := m_in m; m_out := m_out m; m_eof := m_eof m; m_flushed := m_flushed m; m_bad := m_bad m || late; m_interrupts := m_interrupts m;
     m_fault := match m_fault m with Some f => Some f | None => if late then Some FDeadline else if m_bad m then Some FStream else None end;
     m_fresh := negb late;
     m_idle := match m_fault m with Some _ => m_idle m | None => m_fresh m end |}.

Section meter.
Context (attempts : nat) (timeout max_input max_output : Z).

Definition meter (m : Meter) (e : event StreamAnswer) : Meter :=
  let '(Event c x) := e in
  match c return StreamAnswer c -> Meter with
  | Elapsed => fun x => timed (timeout * 1000000 <=? x) m
  | ReadInner capacity => fun x =>
      match x with
      | Done bytes =>
          {| m_in := m_in m ++ bytes; m_out := m_out m; m_eof := zlen bytes =? 0; m_flushed := m_flushed m;
             m_bad := m_bad m || (capacity <? zlen bytes); m_interrupts := m_interrupts m;
             m_fault := m_fault m; m_fresh := false; m_idle := m_idle m |}
      | Interrupted => interrupted m
      | Broken => worse true m
      end
  | WriteInner bytes => fun x =>
      match x with
      | Done count =>
          {| m_in := m_in m; m_out := m_out m ++ take (Z.to_nat count) bytes; m_eof := m_eof m; m_flushed := false;
             m_bad := m_bad m || negb ((0 <? count) && (count <=? zlen bytes)); m_interrupts := m_interrupts m;
             m_fault := m_fault m; m_fresh := false; m_idle := m_idle m |}
      | Interrupted => interrupted m
      | Broken => worse true m
      end
  | FlushInner => fun ok : bool =>
      {| m_in := m_in m; m_out := m_out m; m_eof := m_eof m; m_flushed := ok; m_bad := m_bad m || negb ok; m_interrupts := m_interrupts m;
         m_fault := m_fault m; m_fresh := false; m_idle := m_idle m |}
  | Spinning => fun _ => m
  end x.

(** A stream is called directly after a reading of the clock before the
    deadline, and only while nothing has failed. *)
Definition in_time (m : Meter) : Prop := m_fresh m = true /\ m_fault m = None /\ m_bad m = false.

(** What the caller's streams may be asked. *)
Definition within (m : Meter) (c : StreamCall) : Prop :=
  match c with
  | ReadInner capacity => in_time m /\ 0 < capacity /\ zlen (m_in m) + capacity <= max_input + 1
  | WriteInner bytes => in_time m /\ zlen (m_out m) + zlen bytes <= max_output
  | FlushInner => in_time m
  | Spinning => (attempts <= m_interrupts m)%nat
  | Elapsed => True
  end.
Notation Wp := (wp meter within).

Definition alive (b : Budget) : Prop := failure b = None.
Definition in_bound (b : Budget) : Z := match header_maximum b with Some h => Z.min h max_input | None => max_input end.
Definition counted (s : Streams) (m : Meter) : Prop :=
  m_bad m = false /\ r_count s = zlen (m_in m) /\ w_count s = zlen (m_out m) /\ r_count s <= in_bound (s_budget s).
(** The fault on record is the first that was noticed; that a limit is
    exceeded shows in no call. *)
Definition steady (b : Budget) (m : Meter) : Prop :=
  match failure b with
  | None => m_fault m = None
  | Some FStream => m_fault m = Some FStream
  | Some FDeadline => m_fault m = Some FDeadline
  | Some FLimit => in_time m \/ (m_fault m = Some FDeadline /\ m_idle m = true)
  end.
(** The counts are exact and nothing went wrong, unless a fault is on record. *)
Definition inv (s : Streams) (m : Meter) : Prop :=
  zlen (m_out m) <= max_output /\ steady (s_budget s) m /\ (alive (s_budget s) -> counted s m).

(** ** The budget *)
Definition moved (m m' : Meter) : Prop :=
  m_in m' = m_in m /\ m_out m' = m_out m /\ m_eof m' = m_eof m /\ m_flushed m' = m_flushed m /\ (m_interrupts m <= m_interrupts m')%nat.
(** After a check: the same, or a fault on record. *)
Definition checked_from (b b' : Budget) (m m' : Meter) : Prop :=
  header_maximum b' = header_maximum b /\ moved m m' /\ (alive b' -> alive b /\ b' = b /\ m_bad m' = m_bad m).

(** What a check that finds nothing leaves on the meter. *)
Definition noticed (m m' : Meter) : Prop := m_fresh m' = true /\ m_fault m' = if m_bad m then Some FStream else None.

Lemma check_wp b m (Q : result ProtectionError unit * Budget -> Meter -> Prop) :
  steady b m ->
  (forall m', alive b -> checked_from b b m m' -> noticed m m' -> Q (Ok tt, b) m') ->
  (forall b' m', checked_from b b' m m' -> ~ alive b' -> steady b' m' -> Q (Err (budget_error StreamFailed b'), b') m') ->
  Wp (check timeout b) m Q.
Proof.
  intros Hst Hok Herr. unfold check. apply wp_call; [done |]. intros elapsed. cbn [wp meter]. unfold steady, alive, checked_from, noticed, budget_fail in *.
  destruct (failure b) as [f |] eqn:Ef.
  - assert ((if timeout * 1000000 <=? elapsed then b else b) = b) as -> by by destruct (_ <=? _). rewrite Ef.
    apply Herr; rewrite ?Ef; [| done |].
    + split; [done |]. split; [by repeat split |]. intros Hn. unfold alive in *. congruence.
    + cbn [timed m_fault m_bad]. destruct f.
      * destruct Hst as [(Hf & Hn & Hb) | [Hn Hi]]; [| right; cbn [timed m_fault m_idle]; by rewrite Hn].
        unfold in_time. destruct (_ <=? _); cbn [timed m_fault m_idle m_fresh m_bad negb]; rewrite Hn, Hb; [by right | by left].
      * by rewrite Hst.
      * by rewrite Hst.
  - destruct (_ <=? elapsed); cbn [failure].
    + apply Herr; cbn [failure header_maximum]; [| done |].
      * split; [done |]. split; [by repeat split |]. by intros [=].
      * cbn [timed m_fault]. by rewrite Hst.
    + rewrite Ef. apply Hok; [done | |].
      * split; [done |]. split; [by repeat split |]. intros _. cbn [timed m_bad]. by rewrite orb_false_r.
      * cbn [timed m_fault m_fresh]. rewrite Hst. by split.
Qed.

Lemma check_io_wp b m (Q : result unit unit * Budget -> Meter -> Prop) :
  steady b m ->
  (forall m', alive b -> checked_from b b m m' -> noticed m m' -> Q (Ok tt, b) m') ->
  (forall b' m', checked_from b b' m m' -> ~ alive b' -> steady b' m' -> Q (Err tt, b') m') ->
  Wp (check_io timeout b) m Q.
Proof.
  intros Hst Hok Herr. unfold check_io. apply wp_seq, check_wp; [done | |]; intros; cbn [wp fst snd map_err]; [by apply Hok | by apply Herr].
Qed.

Lemma checked_refl b m : checked_from b b m m.
Proof. by repeat split. Qed.
Lemma checked_trans b1 b2 b3 m1 m2 m3 : checked_from b1 b2 m1 m2 -> checked_from b2 b3 m2 m3 -> checked_from b1 b3 m1 m3.
Proof.
  intros (H1 & (A1 & A2 & A3 & A4 & A5) & H2) (H3 & (B1 & B2 & B3 & B4 & B5) & H4). split; [congruence |]. split.
  - repeat split; try congruence. lia.
  - intros Ha. destruct (H4 Ha) as (Ha2 & -> & Hb2). destruct (H2 Ha2) as (Ha1 & -> & Hb1). split; [done |]. split; [done |]. congruence.
Qed.

Lemma noticed_time b m m' : alive b -> checked_from b b m m' -> noticed m m' -> m_bad m = false -> in_time m' /\ steady b m'.
Proof.
  intros Ha (_ & _ & Hal) [Hf Hn] Hb. destruct (Hal Ha) as (_ & _ & Hb'). rewrite Hb in Hn, Hb'. unfold steady. rewrite Ha. by repeat split.
Qed.

Lemma budget_fail_dead f b : ~ alive (budget_fail f b).
Proof. unfold alive, budget_fail. destruct (failure b) eqn:E; [by rewrite E | done]. Qed.

(** A failure that a check has followed is put on record. *)
Lemma fail_steady b m m' : alive b -> noticed m m' -> m_bad m = true -> steady (budget_fail FStream b) m'.
Proof. intros Ha [_ Hn] Hb. rewrite Hb in Hn. unfold steady, budget_fail. unfold alive in Ha. rewrite Ha. exact Hn. Qed.
Lemma limit_steady b m : alive b -> in_time m -> steady (budget_fail FLimit b) m.
Proof. intros Ha Ht. unfold steady, budget_fail. unfold alive in Ha. rewrite Ha. by left. Qed.

(** A call between two checks is made only while nothing is on record. *)
Lemma checked_wp {A B} (io : stream A) (k : A -> budgeted (result unit B)) b m (Q : result unit B * Budget -> Meter -> Prop) :
  steady b m -> (alive b -> m_bad m = false) ->
  (forall b' m', checked_from b b' m m' -> ~ alive b' -> steady b' m' -> Q (Err tt, b') m') ->
  (forall m1, alive b -> checked_from b b m m1 -> in_time m1 ->
     Wp io m1 (fun a m2 => m_fault m2 = None
                           /\ (forall m3, checked_from b b m2 m3 -> noticed m2 m3 -> Wp (k a b) m3 Q)
                           /\ (forall b' m3, checked_from b b' m2 m3 -> ~ alive b' -> steady b' m3 -> Q (Err tt, b') m3))) ->
  Wp (checked timeout io k b) m Q.
Proof.
  intros Hst Hbad Herr Hio. unfold checked. apply wp_seq, check_io_wp; [done | | by apply Herr]. intros m1 Ha Hc1 Hn1. cbn [fst snd].
  destruct (noticed_time _ _ _ Ha Hc1 Hn1 (Hbad Ha)) as [Ht _]. apply wp_seq. eapply wp_mono; [by apply (Hio m1) |].
  intros a m2 (Hf & Hk & He). apply wp_seq, check_io_wp; [unfold steady; by rewrite Ha | |]; cbn [fst snd].
  - intros m3 _ Hc3 Hn3. by apply Hk.
  - intros b' m3 Hc3 Hd Hs3. by apply He.
Qed.

(** ** The streams *)
Lemma read_inner_wp fuel capacity b m (Q : result unit (list Z) * Budget -> Meter -> Prop) :
  0 < capacity -> zlen (m_in m) + capacity <= max_input + 1 -> (attempts <= fuel + m_interrupts m)%nat ->
  steady b m -> (alive b -> m_bad m = false) ->
  (forall b' m', ~ alive b' -> steady b' m' -> m_out m' = m_out m -> Q (Err tt, b') m') ->
  (forall bytes m', alive b -> zlen bytes <= capacity -> m_in m' = m_in m ++ bytes -> m_out m' = m_out m -> m_flushed m' = m_flushed m ->
     m_bad m' = m_bad m -> in_time m' -> m_eof m' = (zlen bytes =? 0) -> Q (Ok bytes, b) m') ->
  Wp (read_inner timeout fuel capacity b) m Q.
Proof.
  revert m. induction fuel as [| fuel IH]; intros m Hcap Hin Hatt Hst Hbad Herr Hok; cbn [read_inner].
  { split; [cbn [within]; lia | by intros []]. }
  apply checked_wp; [done | done | intros b' m' (_ & (_ & Ho & _) & _) Ha Hs'; by apply Herr |].
  intros m1 Ha (_ & (I1 & O1 & E1 & F1 & N1) & Hb1) Ht. destruct (Hb1 Ha) as (_ & _ & Hbad1). clear Hb1. specialize (Hbad Ha).
  split; [cbn [within]; rewrite I1; split; [done | lia] |]. intros x. destruct Ht as (_ & Hf1 & _). cbn [wp]. split; [by destruct x | split].
  - intros m3 Hc3 Hn3. pose proof Hc3 as (_ & (I3 & O3 & E3 & F3 & N3) & Hb3). destruct (Hb3 Ha) as (_ & _ & Hbad3). pose proof Hn3 as [_ Hf3].
    assert (Hfail : m_bad (meter m1 (Event (ReadInner capacity) x)) = true -> steady (budget_fail FStream b) m3) by by apply fail_steady.
    cbn [meter] in *. destruct x as [bytes | |].
    + cbn [m_in m_out m_eof m_flushed m_bad] in *. destruct (Z.leb_spec (zlen bytes) capacity) as [Hle | Hgt]; cbn [wp].
      * rewrite (proj2 (Z.ltb_ge _ _) Hle), orb_false_r in *. apply Hok; try done; try congruence. split; [apply Hn3 |]. rewrite Hf3, Hbad1, Hbad. split; [done | congruence].
      * apply Herr; [apply budget_fail_dead | | congruence]. apply Hfail. by rewrite (proj2 (Z.ltb_lt _ _) Hgt), orb_true_r.
    + cbn [interrupted m_in m_out m_eof m_flushed m_bad m_interrupts] in *. apply IH; [done | rewrite I3, I1; lia | lia | | congruence | |].
      * unfold steady. by rewrite Ha, Hf3, Hbad1, Hbad.
      * intros b' m' Hd Hs Ho. apply Herr; [done | done | congruence].
      * intros bytes m' _ Hl I' O' F' B' Fa' E'. apply Hok; try done; congruence.
    + cbn [worse m_out m_bad] in *. apply Herr; [apply budget_fail_dead | | congruence]. apply Hfail, orb_true_r.
  - intros b' m3 (_ & (_ & O3 & _) & _) Hd Hs. apply Herr; [done | done |]. rewrite O3. cbn [meter]. destruct x; cbn [m_out interrupted worse]; done.
Qed.

(** What an operation on the streams leaves, whoever calls it. *)
Definition read_post (s : Streams) (m : Meter) (capacity : Z) (r : result unit (list Z) * Streams) (m' : Meter) : Prop :=
  inv (snd r) m' /\ m_out m' = m_out m /\
  match fst r with
  | Err _ => ~ alive (s_budget (snd r))
  | Ok bytes => alive (s_budget s) /\ s_budget (snd r) = s_budget s /\ m_in m' = m_in m ++ bytes /\ m_flushed m' = m_flushed m
                /\ zlen bytes <= capacity /\ (0 < capacity -> m_eof m' = (zlen bytes =? 0))
  end.

Lemma inv_dead s m : ~ alive (s_budget s) -> zlen (m_out m) <= max_output -> steady (s_budget s) m -> inv s m.
Proof. intros Hd Ho Hs. split; [done |]. split; [done | by intros Ha]. Qed.
Lemma inv_bad s m : inv s m -> alive (s_budget s) -> m_bad m = false.
Proof. intros (_ & _ & Hc) Ha. by destruct (Hc Ha). Qed.

(** A check that finds nothing leaves the invariant. *)
Lemma inv_checked s m m' : inv s m -> alive (s_budget s) -> checked_from (s_budget s) (s_budget s) m m' -> noticed m m' -> inv s m'.
Proof.
  intros Hinv Ha Hc Hn. destruct (noticed_time _ _ _ Ha Hc Hn (inv_bad _ _ Hinv Ha)) as [_ Hs].
  destruct Hinv as (Ho & _ & Hcount). destruct (Hcount Ha) as (H1 & H2 & H3 & H4). destruct Hc as (_ & (I & O & _) & Hal). destruct (Hal Ha) as (_ & _ & Hb).
  split; [by rewrite O |]. split; [done |]. intros _. split; [congruence |]. rewrite I, O. by repeat split.
Qed.

(** [let _ = check_io()?; k] *)
Lemma io_check_wp {B} (k : unit -> streaming (result unit B)) s m (Q : result unit B * Streams -> Meter -> Prop) :
  inv s m ->
  (forall s' m', ~ alive (s_budget s') -> inv s' m' -> moved m m' -> Q (Err tt, s') m') ->
  (forall m', alive (s_budget s) -> moved m m' -> inv s m' -> in_time m' -> Wp (k tt s) m' Q) ->
  Wp (io_try (with_budget (check_io timeout)) k s) m Q.
Proof.
  intros Hinv Herr Hok. unfold io_try, with_budget. apply wp_seq, wp_seq, check_io_wp; [apply Hinv | |]; cbn [wp fst snd].
  - intros m' Ha Hc Hn. replace (set_budget (s_budget s) s) with s by (by destruct s). apply Hok; [done | apply Hc | by eapply inv_checked |].
    apply (noticed_time _ _ _ Ha Hc Hn). by apply (inv_bad s).
  - intros b' m' (_ & Hm & _) Ha Hs. apply Herr; [done | apply inv_dead; [done | rewrite (proj1 (proj2 Hm)); apply Hinv | done] | done].
Qed.

Lemma read_data_wp capacity s m (k : list Z -> streaming (result unit (list Z))) (Q : result unit (list Z) * Streams -> Meter -> Prop) :
  0 < capacity -> zlen (m_in m) + capacity <= max_input + 1 -> inv s m ->
  (forall s' m', ~ alive (s_budget s') -> inv s' m' -> m_out m' = m_out m -> Q (Err tt, s') m') ->
  (forall bytes m', alive (s_budget s) -> zlen bytes <= capacity -> m_in m' = m_in m ++ bytes -> m_out m' = m_out m -> m_flushed m' = m_flushed m ->
     m_bad m' = m_bad m -> in_time m' -> m_eof m' = (zlen bytes =? 0) -> Wp (k bytes s) m' Q) ->
  Wp (io_try (with_budget (read_inner timeout attempts capacity)) k s) m Q.
Proof.
  intros Hcap Hin Hinv Herr Hok. unfold io_try, with_budget. apply wp_seq, wp_seq, read_inner_wp; [done | done | lia | apply Hinv | by apply inv_bad | |]; cbn [wp fst snd].
  - intros b' m' Hd Hs Ho. apply Herr; [done | apply inv_dead; [done | rewrite Ho; apply Hinv | done] | done].
  - intros bytes m' Ha Hl I O F B Fa E. replace (set_budget (s_budget s) s) with s by (by destruct s). by apply Hok.
Qed.

Lemma in_bound_max b : in_bound b <= max_input.
Proof. unfold in_bound. destruct (header_maximum b); lia. Qed.

Lemma bounded_read_wp capacity s m : 0 <= capacity -> inv s m -> Wp (bounded_read attempts timeout max_input capacity s) m (read_post s m capacity).
Proof.
  intros Hcap Hinv. unfold bounded_read. apply io_check_wp; [done | intros s' m' Hd Hi (_ & Ho & _); by split |].
  intros m1 Ha Hm1 Hinv1 _. pose proof Hm1 as (I1 & O1 & E1 & F1 & N1). pose proof Hinv1 as (Hout & Hst & Hc). destruct (Hc Ha) as (B1 & R1 & W1 & X1).
  destruct (Z.eqb_spec capacity 0) as [-> | Hne].
  { split; [done |]. split; [done |]. cbn [fst snd]. split; [done |]. split; [done |]. rewrite app_nil_r. by repeat split. }
  pose proof (in_bound_max (s_budget s)) as Hb. fold (in_bound (s_budget s)). cbv zeta.
  assert (Hdead : forall s' m', ~ alive (s_budget s') -> inv s' m' -> m_out m' = m_out m1 -> read_post s m capacity (Err tt, s') m').
  { intros s' m' Hd Hi Ho. split; [done |]. split; [congruence | done]. }
  assert (Hsteady : forall m', in_time m' -> steady (s_budget s) m') by (intros m' Hn; unfold steady; rewrite Ha; apply Hn).
  destruct (Z.eqb_spec (in_bound (s_budget s) - r_count s) 0) as [Hz | Hnz].
  - apply read_data_wp; [done | lia | done | done |]. intros bytes m' _ Hl I O F B Fa E.
    destruct (Z.eqb_spec (zlen bytes) 0) as [Hl0 | Hl0].
    + assert (bytes = []) as -> by (destruct bytes; [done | cbn in Hl0; lia]). rewrite app_nil_r in I.
      split; [split; [by rewrite O |]; split; [by apply Hsteady |]; intros _; split; [congruence |]; rewrite I, O; by repeat split |].
      split; [congruence |]. cbn [fst snd]. rewrite app_nil_r. by repeat split; try congruence.
    + apply Hdead; [apply budget_fail_dead | | done]. apply inv_dead; [apply budget_fail_dead | by rewrite O |].
      by apply limit_steady.
  - apply read_data_wp; [lia | lia | done | done |]. intros bytes m' _ Hl I O F B Fa E. cbn [wp].
    split; [split; [by rewrite O |]; split; [by apply Hsteady |]; intros _; split; [congruence |]; cbn [snd add_read r_count w_count s_budget]; rewrite I, O, length_app; repeat split; lia |].
    split; [congruence |]. cbn [fst snd add_read s_budget]. split; [done |]. split; [done |]. split; [congruence |]. split; [congruence |]. split; [lia | congruence].
Qed.

Definition write_post (s : Streams) (m : Meter) (buffer : list Z) (r : result unit unit * Streams) (m' : Meter) : Prop :=
  inv (snd r) m' /\ m_in m' = m_in m /\ m_eof m' = m_eof m /\
  match fst r with
  | Err _ => ~ alive (s_budget (snd r))
  | Ok _ => alive (s_budget s) /\ s_budget (snd r) = s_budget s /\ m_out m' = m_out m ++ buffer
  end.

Lemma write_dead s m b m' s' buffer :
  ~ alive b -> s_budget s' = b -> steady b m' -> zlen (m_out m') <= max_output -> m_in m' = m_in m -> m_eof m' = m_eof m ->
  write_post s m buffer (Err tt, s') m'.
Proof. intros Hd <- Hs Ho I E. split; [by apply inv_dead |]. by repeat split. Qed.

Lemma write_rest_wp fuel s m buffer :
  inv s m -> alive (s_budget s) -> zlen (m_out m) + zlen buffer <= max_output -> (length buffer + attempts <= fuel + m_interrupts m)%nat ->
  Wp (write_rest timeout fuel buffer s) m (write_post s m buffer).
Proof.
  revert s m buffer. induction fuel as [| fuel IH]; intros s m buffer Hinv Ha Hroom Hfuel.
  { destruct buffer as [| c buffer]; cbn [write_rest].
    - cbn [wp]. split; [done |]. cbn [fst snd]. rewrite app_nil_r. by repeat split.
    - split; [cbn [within]; cbn [length] in Hfuel; lia | by intros []]. }
  destruct buffer as [| c buffer]; cbn [write_rest]; [cbn [wp]; split; [done |]; cbn [fst snd]; rewrite app_nil_r; by repeat split |].
  set (buf := c :: buffer) in *. pose proof Hinv as (Hout & Hst & Hc). destruct (Hc Ha) as (B & R & W & X).
  apply wp_seq, checked_wp; [done | by apply inv_bad | |].
  { intros b' m' (_ & (I & O & E & F & N) & _) Hd Hs. cbn [fst snd]. apply (write_dead s m b'); [done | done | done | by rewrite O | done | done]. }
  intros m1 _ (_ & (I1 & O1 & E1 & F1 & N1) & Hb1) Ht. destruct (Hb1 Ha) as (_ & _ & Hbad1). clear Hb1.
  split; [cbn [within]; split; [done | by rewrite O1] |]. intros x. destruct Ht as (_ & Hf1 & _). cbn [wp]. split; [by destruct x | split].
  - intros m3 Hc3 Hn3. pose proof Hc3 as (_ & (I3 & O3 & E3 & F3 & N3) & Hb3). destruct (Hb3 Ha) as (_ & _ & Hbad3). pose proof Hn3 as [_ Hf3].
    assert (Hfail : m_bad (meter m1 (Event (WriteInner buf) x)) = true -> steady (budget_fail FStream (s_budget s)) m3) by by apply fail_steady.
    cbn [wp fst snd]. cbn [meter] in *.
    replace (set_budget (s_budget s) s) with s by (by destruct s). destruct x as [count | |]; cbn [interrupted worse m_in m_out m_eof m_bad m_interrupts] in *.
    + assert (Hlen : zlen (take (Z.to_nat count) buf) <= zlen buf) by (rewrite length_take; lia).
      destruct (Z.ltb_spec 0 count) as [Hpos | Hneg]; cbn [andb negb] in *;
        [destruct (Z.leb_spec count (zlen buf)) as [Hle | Hgt]; cbn [negb] in * |]; rewrite ?orb_true_r, ?orb_false_r in *.
      * assert (Hcount : zlen (take (Z.to_nat count) buf) = count) by (rewrite length_take; lia).
        eapply wp_mono; [apply (IH (add_written count s)) |].
        -- split; [rewrite O3, O1, length_app; lia |]. split; [unfold steady; cbn [add_written s_budget]; by rewrite Ha, Hf3, Hbad1, B |]. intros _.
           split; [congruence |]. rewrite I3, I1, O3, O1, length_app. cbn [add_written r_count w_count s_budget]. split; [exact R |]. split; [lia | exact X].
        -- done.
        -- rewrite O3, O1, length_app, length_drop. lia.
        -- rewrite length_drop. lia.
        -- intros [r s'] m' (Hi & I' & E' & Hr). split; [done |]. split; [congruence |]. split; [congruence |]. cbn [fst snd add_written s_budget] in *.
           destruct r as [[] | e]; [| done]. destruct Hr as (_ & Hb & Ho). split; [done |]. split; [done |]. rewrite Ho, O3, O1, <- app_assoc. by rewrite take_drop.
      * apply (write_dead s m (budget_fail FStream (s_budget s))); [apply budget_fail_dead | done | by apply Hfail | rewrite O3, O1, length_app; lia | congruence | congruence].
      * apply (write_dead s m (budget_fail FStream (s_budget s))); [apply budget_fail_dead | done | by apply Hfail | rewrite O3, O1, length_app; lia | congruence | congruence].
    + eapply wp_mono; [apply (IH s) |]; try done.
      * split; [congruence |]. split; [unfold steady; by rewrite Ha, Hf3, Hbad1, B |]. intros _. split; [congruence |]. by rewrite I3, I1, O3, O1.
      * rewrite O3, O1. done.
      * lia.
      * intros [r s'] m' (Hi & I' & E' & Hr). split; [done |]. split; [congruence |]. split; [congruence |].
        destruct r as [[] | e]; [| done]. destruct Hr as (Ha' & Hb & Ho). split; [done |]. split; [done |]. cbn [fst snd] in *. congruence.
    + apply (write_dead s m (budget_fail FStream (s_budget s))); [apply budget_fail_dead | done | by apply Hfail, orb_true_r | congruence | congruence | congruence].
  - intros b' m3 (_ & (I3 & O3 & E3 & _) & _) Hd Hs. cbn [fst snd]. cbn [meter] in *.
    apply (write_dead s m b'); [done | done | done | | |]; destruct x as [count | |]; cbn [interrupted worse m_in m_out m_eof] in *; try congruence.
    rewrite O3, O1, length_app, length_take. lia.
Qed.

Lemma bounded_write_wp buffer s m : inv s m -> Wp (bounded_write attempts timeout max_output buffer s) m (write_post s m buffer).
Proof.
  intros Hinv. unfold bounded_write. apply io_check_wp; [done | |].
  - intros s' m' Hd Hi (I & O & E & _). split; [done |]. by repeat split.
  - intros m1 Ha (I1 & O1 & E1 & F1 & N1) Hinv1 Htime. pose proof Hinv1 as (Hout & Hst & Hc). destruct (Hc Ha) as (B1 & R1 & W1 & X1).
    destruct (Z.ltb_spec (max_output - w_count s) (zlen buffer)) as [Hbig | Hfit].
    + cbn [wp]. apply (write_dead s m (budget_fail FLimit (s_budget s))); [apply budget_fail_dead | done | | done | done | done].
      by apply limit_steady.
    + eapply wp_mono; [apply write_rest_wp; [done | done | lia | lia] |]. intros [r s'] m' (Hi & I' & E' & Hr). split; [done |]. split; [congruence |].
      split; [congruence |]. destruct r as [[] | e]; [| done]. destruct Hr as (Ha' & Hb & Ho). split; [done |]. split; [done |]. congruence.
Qed.

Lemma bounded_flush_wp s m :
  inv s m ->
  Wp (bounded_flush timeout s) m (fun r m' =>
    inv (snd r) m' /\ m_in m' = m_in m /\ m_out m' = m_out m /\ m_eof m' = m_eof m
    /\ match fst r with
       | Err _ => ~ alive (s_budget (snd r))
       | Ok _ => alive (s_budget s) /\ s_budget (snd r) = s_budget s /\ m_flushed m' = true
       end).
Proof.
  intros Hinv. pose proof Hinv as (Hout & Hst & Hc). unfold bounded_flush, with_budget. apply wp_seq, checked_wp; [done | by apply inv_bad | |].
  { intros b' m' (_ & (I & O & E & _) & _) Hd Hs. cbn [wp fst snd]. split; [apply inv_dead; [done | by rewrite O | done] |]. by repeat split. }
  intros m1 Ha (_ & (I1 & O1 & E1 & F1 & N1) & Hb1) Ht. destruct (Hb1 Ha) as (_ & _ & Hbad1). clear Hb1. destruct (Hc Ha) as (B & R & W & X).
  split; [done |]. intros ok. destruct Ht as (_ & Hf1 & _). cbn [wp]. split; [done | split].
  - intros m3 Hc3 Hn3. pose proof Hc3 as (_ & (I3 & O3 & E3 & F3 & N3) & Hb3). destruct (Hb3 Ha) as (_ & _ & Hbad3). pose proof Hn3 as [_ Hf3].
    assert (Hfail : m_bad (meter m1 (Event FlushInner ok)) = true -> steady (budget_fail FStream (s_budget s)) m3) by by apply fail_steady.
    cbn [meter m_in m_out m_eof m_flushed m_bad] in *.
    destruct ok; cbn [wp fst snd negb] in *; replace (set_budget (s_budget s) s) with s by (by destruct s); rewrite ?orb_true_r, ?orb_false_r in *.
    + split; [split; [congruence |]; split; [unfold steady; by rewrite Ha, Hf3, Hbad1, B |]; intros _; split; [congruence |]; rewrite I3, I1, O3, O1; by repeat split |].
      split; [congruence |]. split; [congruence |]. split; [congruence |]. done.
    + split; [apply inv_dead; [apply budget_fail_dead | congruence | by apply Hfail] |]. split; [congruence |]. split; [congruence |]. split; [congruence |]. apply budget_fail_dead.
  - intros b' m3 (_ & (I3 & O3 & E3 & F3 & N3) & _) Hd Hs. cbn [wp fst snd meter m_in m_out m_eof] in *.
    split; [apply inv_dead; [done | congruence | done] |]. split; [congruence |]. split; [congruence |]. by split; [congruence |].
Qed.

(** ** Whatever the library does *)
Lemma elaborate_wp {Call : Type} {Answer : Call -> Type} (implement : forall c, Streams -> stream (Answer c * Streams))
    (R : Streams -> Meter -> Streams -> Meter -> Prop) :
  (forall s m, R s m s m) -> (forall s1 m1 s2 m2 s3 m3, R s1 m1 s2 m2 -> R s2 m2 s3 m3 -> R s1 m1 s3 m3) ->
  (forall c s m, inv s m -> Wp (implement c s) m (fun r m' => inv (snd r) m' /\ R s m (snd r) m')) ->
  forall A (p : prog Answer A) s m, inv s m -> Wp (elaborate implement p s) m (fun r m' => inv (snd r) m' /\ R s m (snd r) m').
Proof.
  intros Hrefl Htrans Himp A p. induction p as [a | c k IH]; intros s m Hinv; cbn [elaborate]; [cbn [wp]; by split |].
  apply wp_seq. eapply wp_mono; [by apply Himp |]. intros [x s'] m' [Hi Hr]. eapply wp_mono; [by apply IH |].
  intros [a s2] m2 [Hi2 Hr2]. split; [done |]. by eapply Htrans.
Qed.

(** Only output, or only input; a fault is not forgotten. *)
Definition outputs (s : Streams) (m : Meter) (s' : Streams) (m' : Meter) : Prop :=
  m_in m' = m_in m /\ m_eof m' = m_eof m /\ (alive (s_budget s') -> s_budget s' = s_budget s).
Definition inputs (s : Streams) (m : Meter) (s' : Streams) (m' : Meter) : Prop :=
  m_out m' = m_out m /\ (alive (s_budget s') -> s_budget s' = s_budget s).

Lemma bounded_read_inputs capacity s m :
  0 <= capacity -> inv s m -> Wp (bounded_read attempts timeout max_input capacity s) m (fun r m' => inv (snd r) m' /\ inputs s m (snd r) m').
Proof.
  intros Hcap Hinv. eapply wp_mono; [by apply bounded_read_wp |].
  intros [[bytes | e] s'] m' (Hi & Ho & Hr); split; try done; split; try done; cbn [fst snd] in *. by destruct Hr as (_ & -> & _).
Qed.
Lemma bounded_write_outputs buffer s m :
  inv s m -> Wp (bounded_write attempts timeout max_output buffer s) m (fun r m' => inv (snd r) m' /\ outputs s m (snd r) m').
Proof.
  intros Hinv. eapply wp_mono; [by apply bounded_write_wp |]. intros [[[] | e] s'] m' (Hi & I & E & Hr); split; try done; cbn [fst snd] in *.
  split; [done |]. split; [done |]. by destruct Hr as (_ & -> & _).
Qed.
Lemma bounded_flush_outputs s m : inv s m -> Wp (bounded_flush timeout s) m (fun r m' => inv (snd r) m' /\ outputs s m (snd r) m').
Proof.
  intros Hinv. eapply wp_mono; [by apply bounded_flush_wp |]. intros [[[] | e] s'] m' (Hi & I & O & E & Hr); split; try done; cbn [fst snd] in *.
  split; [done |]. split; [done |]. by destruct Hr as (_ & -> & _).
Qed.

(** An error that no fault on record has. *)
Definition plain (e : ProtectionError) : Prop := e <> StreamFailed /\ e <> DeadlineExceeded.
(** A fault on record is what the caller is told, and only then. *)
Definition told (e : ProtectionError) (b : Budget) : Prop :=
  match failure b with None => plain e | Some _ => e = budget_error StreamFailed b end.
Lemma told_error fallback b : plain fallback -> told (budget_error fallback b) b.
Proof. unfold told, budget_error. by destruct (failure b) as [[] |]. Qed.
Lemma told_dead fallback b : ~ alive b -> told (budget_error fallback b) b.
Proof. unfold told, alive, budget_error. by destruct (failure b) as [[] |]. Qed.
Lemma told_alive e b : alive b -> plain e -> told e b.
Proof. unfold told, alive. by intros ->. Qed.
Definition told_by {A} (r : result ProtectionError A) (b : Budget) : Prop := match r with Ok _ => alive b | Err e => told e b end.

(** Reading keys only looks at the clock. *)
Lemma parse_keys_wp {K} (parse : string -> option K) maximum keys l b m (Q : result ProtectionError (list K) * Budget -> Meter -> Prop) :
  alive b -> steady b m -> m_bad m = false ->
  (forall r b' m', checked_from b b' m m' -> steady b' m' -> told_by r b' -> Q (r, b') m') -> Wp (parse_keys timeout parse maximum keys l b) m Q.
Proof.
  revert keys b m. induction l as [| line l IH]; intros keys b m Hal Hst Hb HQ; cbn [parse_keys]; [cbn [wp]; apply HQ; [apply checked_refl | done | done] |].
  apply wp_seq, check_wp; [done | | intros b1 m1 Hc Hd Hs; cbn [fst snd]; apply HQ; [done | done | by apply told_dead]].
  intros m1 _ Hc Hn. cbn [fst snd]. destruct (noticed_time _ _ _ Hal Hc Hn Hb) as [(_ & _ & Hb1) Hs1].
  assert (Hplain : forall e, plain e -> Q (Err e, b) m1) by (intros e He; by apply HQ, told_alive).
  destruct (maximum <=? zlen keys); [by apply Hplain |]. destruct (MAX_NATIVE_KEY_LINE_BYTES <? slen line); [by apply Hplain |].
  destruct (parse line) as [key |]; [| by apply Hplain]. apply IH; [done | done | done |]. intros r b2 m2 Hc2. apply HQ. by eapply checked_trans.
Qed.
Lemma native_keys_wp {K} (parse : string -> option K) bytes maximum b m (Q : result ProtectionError (list K) * Budget -> Meter -> Prop) :
  alive b -> steady b m -> m_bad m = false ->
  (forall r b' m', checked_from b b' m m' -> steady b' m' -> told_by r b' -> Q (r, b') m') -> Wp (native_keys timeout parse bytes maximum b) m Q.
Proof.
  intros Hal Hst Hb HQ. unfold native_keys. destruct (key_lines bytes) as [l | e] eqn:El.
  2: { cbn [wp]. apply HQ; [apply checked_refl | done |]. apply told_alive; [done |]. unfold key_lines in El. by destruct (from_utf8 bytes); [| injection El as <-]. }
  apply wp_seq, parse_keys_wp; [done | done | done |]. intros [keys | e] b1 m1 Hc1 Hs1 Ht; cbn [fst snd]; [| by apply HQ].
  destruct (Nat.eqb (length keys) 0); [by apply HQ, told_alive |].
  apply wp_seq, check_wp; [done | |]; cbn [wp fst snd rbind].
  - intros m2 _ Hc2 Hn2. pose proof Hc1 as (_ & _ & Hal1). destruct (Hal1 Ht) as (_ & -> & Hb1).
    destruct (noticed_time _ _ _ Hal Hc2 Hn2 ltac:(congruence)) as [_ Hs2]. apply HQ; [by eapply checked_trans | done | done].
  - intros b2 m2 Hc2 Hd Hs2. apply HQ; [by eapply checked_trans | done | by apply told_dead].
Qed.

(** ** Copying *)
Definition enough (maximum : Z) (so_far : list Z) (b : Budget) (fuel : nat) : Prop :=
  (1 <= fuel)%nat /\ (alive b -> zlen so_far <= maximum -> (Z.to_nat (maximum - zlen so_far) + 2 <= fuel)%nat).

Definition copied (s : Streams) (r : result ProtectionError unit) (s' : Streams) (m' : Meter) : Prop :=
  inv s' m' /\ (alive (s_budget s') -> s_budget s' = s_budget s) /\ told_by r (s_budget s').

Lemma alive_bound s m : inv s m -> alive (s_budget s) -> zlen (m_in m) <= max_input.
Proof. intros (_ & _ & Hc) Ha. destruct (Hc Ha) as (_ & <- & _ & Hb). pose proof (in_bound_max (s_budget s)). lia. Qed.

Lemma with_check_wp s m (Q : result ProtectionError unit * Streams -> Meter -> Prop) :
  inv s m ->
  (forall m', alive (s_budget s) -> moved m m' -> inv s m' -> m_fresh m' = true -> Q (Ok tt, s) m') ->
  (forall s' m', ~ alive (s_budget s') -> inv s' m' -> moved m m' -> Q (Err (budget_error StreamFailed (s_budget s')), s') m') ->
  Wp (with_budget (check timeout) s) m Q.
Proof.
  intros Hinv Hok Herr. unfold with_budget. apply wp_seq, check_wp; [apply Hinv | |]; cbn [wp fst snd].
  - intros m' Ha Hc Hn. replace (set_budget (s_budget s) s) with s by (by destruct s). apply Hok; [done | apply Hc | by eapply inv_checked | apply Hn].
  - intros b' m' (_ & Hm & _) Ha Hs. apply (Herr (set_budget b' s)); [done | | done].
    apply inv_dead; [done | rewrite (proj1 (proj2 Hm)); apply Hinv | done].
Qed.

Lemma encrypt_copy_wp {W} (write : W -> list Z -> streaming (option unit * W)) fallback fuel w s m :
  plain fallback ->
  (forall w bytes s m, inv s m -> Wp (write w bytes s) m (fun r m' => inv (snd r) m' /\ outputs s m (snd r) m')) ->
  inv s m -> enough max_input (m_in m) (s_budget s) fuel ->
  Wp (copy timeout (read_plaintext attempts timeout max_input) write fallback fuel w s) m (fun r m' =>
    copied s (fst (fst r)) (snd r) m' /\ (fst (fst r) = Ok tt -> m_eof m' = true)).
Proof.
  intros Hplain Hwrite. revert w s m. induction fuel as [| fuel IH]; intros w s m Hinv [Hf Hfuel]; [lia |]. cbn [copy].
  apply wp_seq, with_check_wp; [done | | intros s' m' Hd Hi _; cbn [wp fst snd]; split; [split; [done | split; [done | by apply told_dead]] | done]].
  intros m1 Ha1 (I1 & O1 & _) Hinv1 _. cbn [fst snd]. specialize (Hfuel Ha1). rewrite <- I1 in Hfuel. specialize (Hfuel (alive_bound _ _ Hinv1 Ha1)).
  apply wp_seq. unfold read_plaintext at 1. apply wp_seq. eapply wp_mono; [apply bounded_read_wp; [lia | done] |].
  intros [[bytes | e] s2] m2 (Hinv2 & O2 & Hr); cbn [wp fst snd] in *; [| split; [split; [done | split; [done | by apply told_error]] | done]].
  destruct Hr as (_ & Hb2 & I2 & F2 & _ & E2). apply wp_seq, with_check_wp; [done | | intros s' m' Hd Hi _; cbn [wp fst snd]; split; [split; [done | split; [done | by apply told_dead]] | done]].
  intros m3 Ha3 (I3 & O3 & E3 & _) Hinv3 _. cbn [fst snd]. destruct (Z.eqb_spec (zlen bytes) 0) as [Hz | Hnz].
  - cbn [wp fst snd]. split; [split; [done | split; [intros _; exact Hb2 | exact Ha3]] |]. intros _. rewrite E3. by apply E2.
  - apply wp_seq. eapply wp_mono; [by apply Hwrite |]. intros [[ok w'] s4] m4 (Hinv4 & I4 & E4 & Hb4); cbn [fst snd] in *.
    assert (Hsame : alive (s_budget s4) -> s_budget s4 = s_budget s) by (intros Ha; by rewrite (Hb4 Ha), Hb2).
    destruct ok as [[] |]; [| cbn [wp fst snd]; split; [split; [done | split; [done | by apply told_error]] | done]].
    eapply wp_mono; [apply IH; [done |] |].
    + split; [lia |]. intros Ha Hin. rewrite I4, I3, I2, length_app in *. lia.
    + intros [[r w2] s5] m5 [(Hi5 & Hb5 & Ht5) He5]. split; [| done]. split; [done |]. split; [| done]. cbn [fst snd] in *. intros Ha. rewrite (Hb5 Ha).
      apply Hsame. by rewrite <- (Hb5 Ha).
Qed.

Lemma decrypt_copy_wp {X} (read : X -> streaming (option (list Z) * X)) fallback fuel x s m :
  plain fallback ->
  (forall x s m, inv s m -> Wp (read x s) m (fun r m' => inv (snd r) m' /\ inputs s m (snd r) m')) ->
  inv s m -> enough max_output (m_out m) (s_budget s) fuel ->
  Wp (copy timeout read (write_plaintext attempts timeout max_output) fallback fuel x s) m (fun r m' => copied s (fst (fst r)) (snd r) m').
Proof.
  intros Hplain Hread. revert x s m. induction fuel as [| fuel IH]; intros x s m Hinv [Hf Hfuel]; [lia |]. cbn [copy].
  apply wp_seq, with_check_wp; [done | | intros s' m' Hd Hi _; cbn [wp fst snd]; split; [done | split; [done | by apply told_dead]]].
  intros m1 Ha1 (I1 & O1 & _) Hinv1 _. cbn [fst snd]. specialize (Hfuel Ha1). rewrite <- O1 in Hfuel. specialize (Hfuel (proj1 Hinv1)).
  apply wp_seq. eapply wp_mono; [by apply Hread |]. intros [[bytes x'] s2] m2 (Hinv2 & O2 & Hb2); cbn [fst snd] in *.
  destruct bytes as [bytes |]; [| cbn [wp fst snd]; split; [done | split; [done | by apply told_error]]].
  apply wp_seq, with_check_wp; [done | | intros s' m' Hd Hi _; cbn [wp fst snd]; split; [done | split; [done | by apply told_dead]]].
  intros m3 Ha3 (I3 & O3 & E3 & _) Hinv3 _. cbn [fst snd]. destruct (Z.eqb_spec (zlen bytes) 0) as [Hz | Hnz]; [cbn [wp fst snd]; split; [done | by split] |].
  apply wp_seq. unfold write_plaintext at 1. apply wp_seq. eapply wp_mono; [by apply bounded_write_wp |].
  intros [[[] | e] s4] m4 (Hinv4 & I4 & E4 & Hr); cbn [wp fst snd] in *; [| split; [done | split; [done | by apply told_error]]].
  destruct Hr as (_ & Hb4 & O4). eapply wp_mono; [apply IH; [done |] |].
  - split; [lia |]. intros Ha Hin. rewrite O4, O3, O2, length_app in *. lia.
  - intros [[r w2] s5] m5 (Hi5 & Hb5 & Ht5). split; [done |]. split; [| done]. cbn [fst snd] in *. intros Ha. by rewrite (Hb5 Ha), Hb4, (Hb2 Ha3).
Qed.
End meter.

(** ** The provider *)
Section provider.
Context (attempts : nat) (age : AgeLibrary) (limits : CryptoLimits).
Notation timeout := (timeout_ms limits).
Notation max_input := (max_input_bytes limits).
Notation max_output := (max_output_bytes limits).
Notation Wp := (wp (meter timeout) (within attempts max_input max_output)).
Notation inv := (inv max_input max_output).

Lemma writing_wp {A} (p : prog OutputAnswer A) s m :
  inv s m -> Wp (writing attempts limits p s) m (fun r m' => inv (snd r) m' /\ outputs s m (snd r) m').
Proof.
  apply elaborate_wp; [by intros | |].
  - intros s1 m1 s2 m2 s3 m3 (I1 & E1 & B1) (I2 & E2 & B2). split; [congruence |]. split; [congruence |]. intros Ha. rewrite (B2 Ha). apply B1. by rewrite <- (B2 Ha).
  - intros [buffer |] s0 m0 Hinv; [by apply bounded_write_outputs | by apply bounded_flush_outputs].
Qed.
Lemma reading_wp {A} (p : prog InputAnswer A) s m :
  inv s m -> Wp (reading attempts limits p s) m (fun r m' => inv (snd r) m' /\ inputs s m (snd r) m').
Proof.
  apply elaborate_wp; [by intros | |].
  - intros s1 m1 s2 m2 s3 m3 (O1 & B1) (O2 & B2). split; [congruence |]. intros Ha. rewrite (B2 Ha). apply B1. by rewrite <- (B2 Ha).
  - intros [capacity] s0 m0 Hinv. apply bounded_read_inputs; [lia | done].
Qed.

(** What a successful report says. *)
Definition reported (report : CryptoReport) (m : Meter) : Prop :=
  in_time m /\ m_flushed m = true /\ input_bytes report = zlen (m_in m) /\ output_bytes report = zlen (m_out m)
  /\ zlen (m_in m) <= max_input /\ zlen (m_out m) <= max_output.
(** The first fault of a stream or the clock is what the caller is told, unless
    a limit had been exceeded before the clock ran out; without a fault neither
    is blamed. *)
Definition blamed (e : ProtectionError) (m : Meter) : Prop :=
  match m_fault m with
  | None => m_bad m = false /\ plain e
  | Some FStream => e = StreamFailed
  | Some FDeadline => e = DeadlineExceeded \/ (e = ResourceLimit /\ m_idle m = true)
  | Some FLimit => False
  end.

Lemma told_blamed e s m : inv s m -> told e (s_budget s) -> blamed e m.
Proof.
  intros (_ & Hs & Hc) Ht. unfold told, steady, blamed, budget_error, alive, counted in *. destruct (failure (s_budget s)) as [[] |].
  - destruct Hs as [(_ & -> & ->) | [-> ->]]; subst e; [by split | by right].
  - by rewrite Hs, Ht.
  - rewrite Hs, Ht. by left.
  - rewrite Hs. by destruct (Hc eq_refl) as (-> & _).
Qed.

Lemma close_output_wp s m :
  inv s m ->
  Wp (close_output limits s) m (fun r m' => m_eof m' = m_eof m /\ match fst r with Ok report => reported report m' | Err e => blamed e m' end).
Proof.
  intros Hinv. unfold close_output. apply wp_seq. eapply wp_mono; [by apply bounded_flush_wp |].
  intros [[[] | e] s1] m1 (Hinv1 & I1 & O1 & E1 & Hr); cbn [fst snd] in *; [| cbn [wp fst snd]; split; [done |]; by eapply told_blamed, told_dead].
  destruct Hr as (Ha & Hb & F1). unfold io_try. apply wp_seq. apply with_check_wp; [done | |]; cbn [wp fst snd].
  - intros m2 Ha2 (I2 & O2 & E2 & F2 & _) Hinv2 Hfresh. split; [congruence |]. pose proof Hinv2 as (Hout & Hs & Hc). destruct (Hc Ha2) as (B & R & W & X).
    unfold steady in Hs. rewrite Ha2 in Hs. split; [by repeat split |]. split; [congruence |]. split; [done |]. split; [done |]. split; [by eapply alive_bound | done].
  - intros s' m' Hd Hi (_ & _ & E2 & _). split; [congruence |]. by eapply told_blamed, told_dead.
Qed.
End provider.

(** * The age provider is metered

    Encryption and decryption of Age.v, whatever the age library does. *)

Section provider.
Context (attempts : nat) (age : AgeLibrary) (limits : CryptoLimits).
Notation timeout := (timeout_ms limits).
Notation max_input := (max_input_bytes limits).
Notation max_output := (max_output_bytes limits).
Notation Wp := (wp (meter timeout) (within attempts max_input max_output)).
Notation inv := (inv max_input max_output).

Definition ended (eof : bool) (r : result ProtectionError CryptoReport) (m : Meter) : Prop :=
  match r with Ok report => reported limits report m /\ (eof = true -> m_eof m = true) | Err e => blamed e m end.

Lemma library_wp {A} fallback (p : streaming (option A)) (k : A -> streaming (result ProtectionError CryptoReport)) s m (R : Streams -> Meter -> Prop) eof :
  plain fallback ->
  Wp (p s) m (fun r m' => inv (snd r) m' /\ R (snd r) m') ->
  (forall a s' m', inv s' m' -> R s' m' -> Wp (k a s') m' (fun r m' => ended eof (fst r) m')) ->
  Wp (library fallback p k s) m (fun r m' => ended eof (fst r) m').
Proof.
  intros Hplain Hp Hk. unfold library. apply wp_seq. eapply wp_mono; [exact Hp |]. intros [[a |] s'] m' [Hi Hr]; cbn [fst snd]; [by apply Hk |].
  cbn [wp fst ended]. eapply told_blamed; [exact Hi | by apply told_error].
Qed.

Lemma enough_new maximum so_far b : 0 <= maximum -> enough maximum so_far b (copies maximum).
Proof. intros Hm. unfold enough, copies. split; [lia |]. intros _ Hs. lia. Qed.

Lemma encrypt_streams_wp encryptor s m :
  0 <= max_input -> inv s m -> Wp (encrypt_streams attempts age limits encryptor s) m (fun r m' => ended true (fst r) m').
Proof.
  intros Hmax Hinv. unfold encrypt_streams. apply (library_wp _ _ _ _ _ (fun _ _ => True)); [done | |].
  { eapply wp_mono; [by apply writing_wp |]. intros [a s'] m' [Hi _]. by split. }
  intros writer s1 m1 Hinv1 _. apply wp_seq. eapply wp_mono.
  { apply encrypt_copy_wp; [done | | exact Hinv1 | by apply enough_new]. intros w bytes s2 m2 Hinv2. apply wp_seq.
    eapply wp_mono; [by apply writing_wp |]. intros [[ok w'] s3] m3 Hr. exact Hr. }
  intros [[copied_ writer'] s2] m2 [(Hinv2 & _ & Htold) Heof]; cbn [fst snd] in *.
  destruct copied_ as [[] | e]; [| cbn [wp fst ended]; by eapply told_blamed]. specialize (Heof eq_refl).
  apply (library_wp _ _ _ _ _ (fun _ m => m_eof m = true)); [done | |].
  { eapply wp_mono; [by apply writing_wp |]. intros [a s'] m' [Hi (_ & He & _)]. split; [done |]. congruence. }
  intros _ s3 m3 Hinv3 He. eapply wp_mono; [by apply close_output_wp |]. intros [r s4] m4 [E4 Hr]. cbn [fst] in *.
  destruct r as [report | e]; [| done]. split; [done |]. intros _. congruence.
Qed.

Lemma Streams_new_inv b m :
  moved Meter_new m -> 0 <= max_output -> 0 <= in_bound max_input b -> steady b m -> (alive b -> m_bad m = false) -> inv (Streams_new b) m.
Proof.
  intros (I & O & _) Ho Hi Hs Hb. split; [rewrite O; done |]. split; [done |]. intros Ha. split; [by apply Hb |]. rewrite I, O. by repeat split.
Qed.

Lemma crypto_limits_positive : crypto_limits_validate limits = Ok tt -> 0 < max_input /\ 0 < max_output.
Proof. unfold crypto_limits_validate, in_range. intros Hl. apply fail_if_ok in Hl as [Hl _]. bool_prop. lia. Qed.

Lemma age_encrypt_wp recipients : Wp (encrypt attempts age limits recipients) Meter_new (ended true).
Proof.
  unfold encrypt. destruct (crypto_limits_validate limits) as [[] | e] eqn:El; [| cbn [wp ended]; split; [done |]; unfold crypto_limits_validate in El; by destruct (_ || _) in El; [injection El as <- |]].
  destruct (crypto_limits_positive El) as [Hi Ho]. unfold native_recipients, native_identities. apply wp_seq, native_keys_wp; [done | done | done |]. intros r b m (Hh & Hm & Hal) Hs Ht. cbn [fst snd].
  assert (Hb : alive b -> m_bad m = false) by (intros Ha; by destruct (Hal Ha) as (_ & _ & ->)).
  assert (Hinv : inv (Streams_new b) m) by (apply Streams_new_inv; [done | lia | unfold in_bound; rewrite Hh; cbn; lia | done | done]).
  destruct r as [keys | e]; [| cbn [wp ended]; by eapply (told_blamed limits e (Streams_new b))].
  destruct (with_recipients age keys) as [encryptor |]; [| cbn [wp ended]; by eapply (told_blamed limits _ (Streams_new b)), told_error].
  apply wp_seq. unfold io_try. apply wp_seq, with_check_wp; [done | |]; cbn [fst snd wp].
  - intros m' _ _ Hinv' _. eapply wp_mono; [apply encrypt_streams_wp; [lia | done] |]. by intros [r s'] m2.
  - intros s' m' Hd Hinv' _. by eapply told_blamed, told_dead.
Qed.

Lemma begin_header_inv s m : inv s m -> 0 <= max_input -> r_count s = 0 -> inv (set_budget (begin_header MAX_HEADER_READ_BYTES (s_budget s)) s) m.
Proof.
  intros (Hout & Hs & Hc) Hm Hz. split; [done |]. split; [done |]. intros Ha. destruct (Hc Ha) as (B & R & W & X). split; [done |]. cbn [set_budget r_count w_count s_budget].
  split; [done |]. split; [done |]. unfold in_bound. cbn [begin_header header_maximum]. unfold MAX_HEADER_READ_BYTES. lia.
Qed.
Lemma finish_header_inv s m : inv s m -> inv (set_budget (finish_header (s_budget s)) s) m.
Proof.
  intros (Hout & Hs & Hc). split; [done |]. split; [done |]. intros Ha. destruct (Hc Ha) as (B & R & W & X). split; [done |]. cbn [set_budget r_count w_count s_budget].
  split; [done |]. split; [done |]. pose proof (in_bound_max max_input (s_budget s)). unfold in_bound at 1. cbn [finish_header header_maximum]. lia.
Qed.

Lemma decrypt_streams_wp identities s m :
  0 <= max_input -> 0 <= max_output -> r_count s = 0 -> inv s m ->
  Wp (decrypt_streams attempts age limits identities s) m (fun r m' => ended false (fst r) m').
Proof.
  intros Hmi Hmo Hz Hinv. unfold decrypt_streams. cbv zeta. apply (library_wp _ _ _ _ _ (fun _ _ => True)); [done | |].
  { eapply wp_mono; [by apply reading_wp, begin_header_inv |]. intros [a s'] m' [Hi _]. by split. }
  intros decryptor s1 m1 Hinv1 _. unfold io_try. apply wp_seq, with_check_wp; [by apply finish_header_inv | |]; cbn [fst snd];
    [| intros s' m' Hd Hi _; cbn [wp fst ended]; by eapply told_blamed, told_dead].
  intros m2 Ha2 _ Hinv2 _. destruct (is_scrypt age decryptor).
  { cbn [wp fst ended]. eapply told_blamed; [exact Hinv2 | by apply told_alive]. }
  apply (library_wp _ _ _ _ _ (fun _ _ => True)); [done | |].
  { eapply wp_mono; [by apply reading_wp |]. intros [a s'] m' [Hi _]. by split. }
  intros reader s3 m3 Hinv3 _. apply wp_seq. eapply wp_mono.
  { apply decrypt_copy_wp; [done | | exact Hinv3 | by apply enough_new]. intros x s4 m4 Hinv4. apply wp_seq.
    eapply wp_mono; [by apply reading_wp |]. intros [[bytes x'] s5] m5 Hr. exact Hr. }
  intros [[copied_ x] s4] m4 (Hinv4 & _ & Htold); cbn [fst snd] in *. destruct copied_ as [[] | e]; [| cbn [wp fst ended]; by eapply told_blamed].
  eapply wp_mono; [by apply close_output_wp |]. intros [r s5] m5 [_ Hr]. cbn [fst] in *. by destruct r.
Qed.

Lemma age_decrypt_wp identity : Wp (decrypt_to_staging attempts age limits identity) Meter_new (ended false).
Proof.
  unfold decrypt_to_staging. destruct (crypto_limits_validate limits) as [[] | e] eqn:El; [| cbn [wp ended]; split; [done |]; unfold crypto_limits_validate in El; by destruct (_ || _) in El; [injection El as <- |]].
  destruct (crypto_limits_positive El) as [Hi Ho]. unfold native_recipients, native_identities. apply wp_seq, native_keys_wp; [done | done | done |]. intros r b m (Hh & Hm & Hal) Hs Ht. cbn [fst snd].
  assert (Hb : alive b -> m_bad m = false) by (intros Ha; by destruct (Hal Ha) as (_ & _ & ->)).
  assert (Hinv : inv (Streams_new b) m) by (apply Streams_new_inv; [done | lia | unfold in_bound; rewrite Hh; cbn; lia | done | done]).
  destruct r as [keys | e]; [| cbn [wp ended]; by eapply (told_blamed limits e (Streams_new b))].
  apply wp_seq. eapply wp_mono; [apply decrypt_streams_wp; [lia | lia | done | exact Hinv] |]. by intros [r s'] m2.
Qed.
End provider.

(** ** The guarantees *)
(** The meter after the calls of [t]. *)
Definition metered (limits : CryptoLimits) (t : list (event StreamAnswer)) : Meter := foldl (meter (timeout_ms limits)) Meter_new t.

(** C34: the age provider keeps its limits whatever the age library does with
    the streams it is handed: a stream of the caller is called only directly
    after a reading of the clock that is before the deadline, and while
    nothing has failed; every read it asks for keeps the input within its
    limit, but for the one byte that tells the end from an excess, every write
    keeps the output within its limit, and a loop goes on only while the
    caller's streams interrupt it.  A report is given only if no stream failed
    and no reading of the clock found the deadline passed, the last call being
    such a reading and the output having been flushed before it, and its counts
    are exactly what was read and written; an encryption has then read the
    input to its end.  Whenever a stream failed or the deadline passed, even if
    the library hid it, the call fails, and the error names the first of these
    faults (a failure counts from the reading of the clock that follows it, so
    that a failure which took too long is a passed deadline): a stream's
    failure always, a passed deadline unless a limit of size had been exceeded
    before (which no call shows, but only between two readings of the clock
    without a call between them); neither is blamed when neither happened. *)
Theorem age_streams_metered (attempts : nat) (age : AgeLibrary) (limits : CryptoLimits) (keys : list Z) (encrypting : bool)
    (t : list (event StreamAnswer)) (r : option (result ProtectionError CryptoReport)) :
  runs (if encrypting then encrypt attempts age limits keys else decrypt_to_staging attempts age limits keys) t r ->
  (forall t1 e t2, t = t1 ++ e :: t2 -> within attempts (max_input_bytes limits) (max_output_bytes limits) (metered limits t1) (ev_call e))
  /\ (forall report, r = Some (Ok report) -> reported limits report (metered limits t) /\ (encrypting = true -> m_eof (metered limits t) = true))
  /\ (forall e, r = Some (Err e) -> blamed e (metered limits t)).
Proof.
  intros Hr.
  assert (Hw : wp (meter (timeout_ms limits)) (within attempts (max_input_bytes limits) (max_output_bytes limits))
                 (if encrypting then encrypt attempts age limits keys else decrypt_to_staging attempts age limits keys) Meter_new (ended limits encrypting)).
  { destruct encrypting; [apply age_encrypt_wp | apply age_decrypt_wp]. }
  destruct (wp_sound _ _ _ _ _ _ _ Hw Hr) as [Hcalls Hret]. split; [exact Hcalls |].
  split; intros x ->; by apply (Hret _ eq_refl).
Qed.

(** ** A toy library: one byte before and one after the plaintext *)
Definition toy_age : AgeLibrary := {|
  Recipient := string; Encryptor := unit; Writer := unit;
  parse_recipient line := if starts_with "age1" line then Some line else None;
  with_recipients _ := Some tt;
  wrap_output _ := do! r := Program.call (Answer := OutputAnswer) (OWrite [1]) in Ret (if is_ok r then Some tt else None);
  write_all w bytes := do! r := Program.call (Answer := OutputAnswer) (OWrite bytes) in Ret (if is_ok r then Some tt else None, w);
  finish_writer _ := do! r := Program.call (Answer := OutputAnswer) (OWrite [2]) in Ret (if is_ok r then Some tt else None);
  Identity := string; Decryptor := unit; Reader := unit;
  parse_identity line := Some line;
  new_buffered := do! r := Program.call (Answer := InputAnswer) (IRead 1) in Ret (match r with Ok [1] => Some tt | _ => None end);
  is_scrypt _ := false;
  decrypt_with _ _ := Ret (Some tt);
  read_plain x n := do! r := Program.call (Answer := InputAnswer) (IRead (Z.to_nat n)) in Ret (match r with Ok bytes => Some (filter (fun b => b <> 2) bytes) | Err _ => None end, x)
|}.
Definition toy_limits : CryptoLimits := {| max_input_bytes := 4; max_output_bytes := 6; timeout_ms := 10; max_recipients := 1 |}.

(** A caller whose input is three bytes at one read and no more, the write
    of which is interrupted once and cut short once. *)
Definition toy_caller (n : nat) (c : StreamCall) : option (StreamAnswer c) :=
  match c with
  | Elapsed => Some 1000
  | ReadInner _ => Some (if Nat.ltb n 20 then Done [65; 66; 67] else Done [])
  | WriteInner bytes => Some (if Nat.eqb n 15 then Interrupted else if Nat.eqb n 18 then Done 1 else Done (zlen bytes))
  | FlushInner => Some true
  | Spinning => None
  end.

Definition toy_run := follow toy_caller 0 (encrypt 8 toy_age toy_limits (str_bytes "age1key")).

Lemma age_streams_metered_witness :
  snd toy_run = Some (Ok {| input_bytes := 3; output_bytes := 5 |})
  /\ m_out (metered toy_limits (fst toy_run)) = [1; 65; 66; 67; 2] /\ m_interrupts (metered toy_limits (fst toy_run)) = 1%nat
  /\ (forall report, snd toy_run = Some (Ok report) -> reported toy_limits report (metered toy_limits (fst toy_run))
      /\ (true = true -> m_eof (metered toy_limits (fst toy_run)) = true)).
Proof.
  split; [vm_compute; reflexivity |]. split; [vm_compute; reflexivity |]. split; [vm_compute; reflexivity |].
  exact (proj1 (proj2 (age_streams_metered 8 toy_age toy_limits (str_bytes "age1key") true (fst toy_run) (snd toy_run)
    (follow_runs toy_caller 0 (encrypt 8 toy_age toy_limits (str_bytes "age1key")))))).
Defined.
