(* ===== verification/Trail.v ===== *)
(** * The audit writer

    [crates/adapters/src/audit.rs]: one line for each event, to the private
    log, the system log or the standard error of the process. *)
From stdpp Require Import gmap.
From S2P Require Import Prelude Order Text Json Printable Program Protection Ports Ciphertext Linux Rotation.
Open Scope Z_scope.

Inductive AuditFormat : Type := FJson | FText.
Inductive AuditDestination : Type := ToStderr | ToFile | ToSyslog.
Record AuditConfig : Type := {
  enabled : bool; au_format : AuditFormat; au_destination : AuditDestination; au_path : option (list Z);
  au_max_bytes : Z; retained_files : Z
}.
Definition AuditConfig_default : AuditConfig :=
  {| enabled := true; au_format := FJson; au_destination := ToStderr; au_path := None;
     au_max_bytes := 10 * 1024 * 1024; retained_files := 5 |}.

(** [private_log_supported()] and [system_log_supported()] of the host. *)
Record HostSupport : Type := { private_log_supported : bool; system_log_supported : bool }.
Definition linux_support : HostSupport := {| private_log_supported := true; system_log_supported := true |}.

Definition audit_config_validate (host : HostSupport) (config : AuditConfig) : result RuntimeError unit :=
  fail_if negb (in_range 1024 1073741824 (au_max_bytes config)) || negb (in_range 1 100 (retained_files config)) with InvalidConfig in
  let? _ :=
    match au_destination config with
    | ToFile =>
        let? path := ok_or (au_path config) InvalidConfig in
        fail_if negb (is_absolute path) || negb (is_ok (ok_or (file_name path) InvalidConfig)) with InvalidConfig in
        fail_if enabled config && negb (private_log_supported host) with UnsupportedAuditDestination in
        Ok tt
    | ToStderr | ToSyslog => fail_if is_some (au_path config) with InvalidConfig in Ok tt
    end in
  fail_if enabled config && match au_destination config with ToSyslog => true | _ => false end && negb (system_log_supported host)
    with UnsupportedAuditDestination in
  Ok tt.

(** ** The writer *)
Inductive DestinationState : Type := Disabled | Stderr | File (log : PrivateLog) | Syslog.
Record AuditWriter : Type := { config : AuditConfig; destination : DestinationState }.

Inductive AuditCall : Type := Host (c : LinuxCall) | LockDestination | WriteStderr (line : list Z).
Definition AuditAnswer (c : AuditCall) : Type :=
  match c with Host c => LinuxAnswer c | LockDestination => option unit | WriteStderr _ => option unit end.
Notation audit := (prog AuditAnswer).
Notation audit_call := (Program.call (Answer := AuditAnswer)).
Fixpoint host {A} (p : linux A) : audit A :=
  match p with Ret a => Ret a | Vis c k => Vis (Host c : AuditCall) (fun x => host (k x)) end.

Definition audit_err {A} (r : result HostError A) : result RuntimeError A := map_err (fun _ => AuditUnavailable) r.

Section writer.
Context (euid : Z).

Definition AuditWriter_new (support : HostSupport) (config : AuditConfig) : audit (result RuntimeError AuditWriter) :=
  do? _ := Ret (audit_config_validate support config) in
  do? destination := (
    if negb (enabled config) then Ret (Ok Disabled)
    else match au_destination config with
         | ToStderr => Ret (Ok Stderr)
         | ToFile =>
             match au_path config with
             | None => Ret (Err InvalidConfig)
             | Some path =>
                 do! log := host (log_open euid path (au_max_bytes config) (Z.to_nat (retained_files config))) in
                 Ret (let? log := audit_err log in Ok (File log))
             end
         | ToSyslog => do! log := host system_log_open in Ret (let? _ := audit_err log in Ok Syslog)
         end) in
  Ret (Ok {| config := config; destination := destination |}).

(** ** Rendering *)
Definition kind_name (k : AuditKind) : string := match k with KInvocation => "invocation" | KCapability => "capability" end.
Definition phase_name (p : AuditPhase) : string := match p with PStart => "start" | PFinish => "finish" | PRejection => "rejection" end.
Definition outcome_name (o : AuditOutcome) : string :=
  match o with
  | OAttempt => "attempt" | OSuccess => "success" | ODenied => "denied" | OInvalidArguments => "invalid_arguments"
  | OUnknownOperation => "unknown_operation" | OBusy => "busy" | OFailed => "failed"
  end.
(** [{:?}] *)
Definition kind_debug (k : AuditKind) : string := match k with KInvocation => "Invocation" | KCapability => "Capability" end.
Definition phase_debug (p : AuditPhase) : string := match p with PStart => "Start" | PFinish => "Finish" | PRejection => "Rejection" end.
Definition outcome_debug (o : AuditOutcome) : string :=
  match o with
  | OAttempt => "Attempt" | OSuccess => "Success" | ODenied => "Denied" | OInvalidArguments => "InvalidArguments"
  | OUnknownOperation => "UnknownOperation" | OBusy => "Busy" | OFailed => "Failed"
  end.

(** The derived serialization, in declaration order. *)
Definition event_value (event : AuditEvent) : value :=
  VObj [("kind", VStr (kind_name (a_kind event))); ("timestamp_ms", VNum (PosInt (a_timestamp_ms event)));
        ("request_sequence", VNum (PosInt (a_sequence event))); ("phase", VStr (phase_name (a_phase event)));
        ("operation", VStr (a_operation event)); ("outcome", VStr (outcome_name (a_outcome event)));
        ("duration_ms", match a_duration_ms event with Some n => VNum (PosInt n) | None => VNull end)].

Definition event_text (event : AuditEvent) : string :=
  "timestamp_ms=" +:+ dec (a_timestamp_ms event) +:+ " request_sequence=" +:+ dec (a_sequence event)
  +:+ " kind=" +:+ kind_debug (a_kind event) +:+ " phase=" +:+ phase_debug (a_phase event)
  +:+ " operation=" +:+ a_operation event +:+ " outcome=" +:+ outcome_debug (a_outcome event)
  +:+ " duration_ms=" +:+ match a_duration_ms event with Some n => dec n | None => "-" end +:+ " ".

Definition render (config : AuditConfig) (event : AuditEvent) : list Z :=
  let safe := {| a_kind := a_kind event; a_timestamp_ms := a_timestamp_ms event; a_sequence := a_sequence event; a_phase := a_phase event;
                 a_operation := safe_operation_name (a_operation event); a_outcome := a_outcome event; a_duration_ms := a_duration_ms event |} in
  let line := match au_format config with FJson => str_bytes (json_text (event_value safe)) | FText => str_bytes (event_text safe) end in
  line ++ [10].

(** ** Recording *)
Definition set_destination (d : DestinationState) (w : AuditWriter) : AuditWriter := {| config := config w; destination := d |}.

Definition record (w : AuditWriter) (event : AuditEvent) : audit (AuditWriter * result RuntimeError unit) :=
  if negb (enabled (config w)) then Ret (w, Ok tt)
  else
    let line := render (config w) event in
    do! locked := audit_call LockDestination in
    match locked with
    | None => Ret (w, Err AuditUnavailable)
    | Some _ =>
        match destination w with
        | Disabled => Ret (w, Ok tt)
        | Stderr => do! written := audit_call (WriteStderr line) in Ret (w, ok_or written AuditUnavailable)
        | File log =>
            do! r := host (log_write euid log line) in
            Ret (set_destination (File (fst r)) w, audit_err (snd r))
        | Syslog =>
            do! r := host (system_log_send (str_bytes "<14>openwrt-mcp: " ++ line)) in Ret (w, audit_err r)
        end
    end.
End writer.

(** * The audit trail

    An event is one line, whatever its operation is called, and the files of
    the trail hold whole lines. *)

(** ** Lines *)
Definition is_line (bytes : list Z) : Prop := exists body, bytes = body ++ [10] /\ Forall (fun b => 32 <= b) body.
Definition whole_lines (bytes : list Z) : Prop := exists ls, Forall is_line ls /\ bytes = concat ls.

Lemma safe_name_plain name : plain_text (safe_operation_name name).
Proof.
  unfold safe_operation_name. destruct (_ && _) eqn:E; [| by apply plain_check]. apply andb_true_iff in E as [_ E].
  unfold all_bytes in E. apply Forall_forall. intros b Hb. apply list_elem_of_In in Hb. pose proof (proj1 (forallb_forall _ _) E b Hb) as Hs. cbv beta in Hs.
  apply orb_true_iff in Hs as [Ha | Hd].
  - unfold is_ascii_alphanumeric, is_ascii_digit, is_ascii_alphabetic, is_ascii_lower, is_ascii_upper, in_range in Ha. repeat (apply orb_true_iff in Ha as [Ha | Ha] || (apply andb_true_iff in Ha as [Ha _])); lia.
  - apply existsb_exists in Hd as (x & Hx & He). apply Z.eqb_eq in He as <-. vm_compute in Hx. intuition lia.
Qed.

Ltac plain := repeat (apply plain_app; split); first [apply dec_plain | apply safe_name_plain | by apply plain_check | idtac].

Lemma render_line config event : is_line (render config event).
Proof.
  unfold render. cbv zeta. eexists. split; [reflexivity |]. destruct (au_format config).
  - apply json_text_plain. apply printable_obj. repeat constructor. cbn [snd]. by destruct (a_duration_ms event).
  - unfold event_text. cbn [a_kind a_timestamp_ms a_sequence a_phase a_operation a_outcome a_duration_ms]. plain.
    + by destruct (a_kind event); apply plain_check.
    + by destruct (a_phase event); apply plain_check.
    + by destruct (a_outcome event); apply plain_check.
    + destruct (a_duration_ms event); [apply dec_plain | by apply plain_check].
Qed.

Lemma whole_line l : is_line l -> whole_lines l.
Proof. intros Hl. exists [l]. split; [by constructor | cbn; by rewrite app_nil_r]. Qed.
Lemma whole_app a b : whole_lines a -> whole_lines b -> whole_lines (a ++ b).
Proof. intros (la & Ha & ->) (lb & Hb & ->). exists (la ++ lb). split; [by apply Forall_app | by rewrite concat_app]. Qed.

(** Every file holds whole lines. *)
Definition trail (s : Files) : Prop := whole_lines (active s) /\ Forall (fun g => forall bytes, g = Some bytes -> whole_lines bytes) (generations s).

Lemma spec_write_trail max_bytes s line : is_line line -> trail s -> trail (spec_write max_bytes s line).
Proof.
  intros Hl [Ha Hg]. unfold spec_write. destruct (_ <? _); split; cbn [active generations]; try done.
  - by apply whole_line.
  - apply Forall_take. constructor; [by intros bytes [= <-] | done].
  - by apply whole_app, whole_line.
Qed.
Lemma spec_writes_trail max_bytes s lines : Forall is_line lines -> trail s -> trail (foldl (spec_write max_bytes) s lines).
Proof. intros Hl. revert s. induction Hl as [| l ls Hl _ IH]; intros s Hs; [done |]. cbn [foldl]. by apply IH, spec_write_trail. Qed.

(** ** A writer in a directory *)
Section trail.
Context (euid : Z).

Definition trail_world (c : AuditCall) (w : Dir) : AuditAnswer c * Dir :=
  match c return AuditAnswer c * Dir with
  | Host c => posix euid c w
  | LockDestination | WriteStderr _ => (Some tt, w)
  end.

Lemma host_interp {A} (p : linux A) w : interp trail_world (host p) w = interp (posix euid) p w.
Proof. revert w. induction p as [a | c k IH]; intros w; [done |]. cbn [host interp trail_world]. destruct (posix euid c w). apply IH. Qed.

Fixpoint record_all (w : AuditWriter) (events : list AuditEvent) : audit (AuditWriter * list bool) :=
  match events with
  | [] => Ret (w, [])
  | event :: events =>
      do! r := record euid w event in
      do! rest := record_all (fst r) events in
      Ret (fst rest, is_ok (snd r) :: snd rest)
  end.

Lemma record_all_interp w log events d :
  enabled (config w) = true -> destination w = File log ->
  interp trail_world (record_all w events) d =
    (let '(r, d') := interp (posix euid) (write_all euid log (render (config w) <$> events)) d in
     ((if decide (events = []) then w else set_destination (File (fst r)) w, snd r), d')).
Proof.
  intros He. revert w log d He. induction events as [| event events IH]; intros w log d He Hd; [done |].
  cbn [record_all fmap list_fmap write_all]. rewrite !interp_bind. unfold record at 1. rewrite He, Hd. cbn [negb]. rewrite interp_bind. cbn [interp Program.call trail_world].
  rewrite interp_bind, host_interp. destruct (interp (posix euid) (log_write euid log (render (config w) event)) d) as [[g r] d1]. cbn [interp fst snd].
  rewrite !interp_bind, (IH _ g) by done. cbn [set_destination config]. 
  destruct (interp (posix euid) (write_all euid g (render (config w) <$> events)) d1) as [[g2 l] d2] eqn:E2. cbn [interp fst snd].
  rewrite (decide_False (P := event :: events = [])) by done. f_equal. f_equal.
  - destruct events as [| e events]; [| by rewrite decide_False by done]. rewrite decide_True by done. cbn in E2. by injection E2 as <- _ _.
  - f_equal. by destruct r.
Qed.
End trail.

(** C35: the audit trail of a File destination is made of whole lines: each
    event is rendered as one line without control characters, so that no
    operation name can forge another record; recording events in a directory
    that may fail at any point acknowledges a prefix of them, after which the
    files are those of the abstract log of their lines, every one holding
    whole lines only; and once an event is refused every later one is, the
    files then holding all of that but at most the oldest, and at most a part
    of the refused line. *)
Theorem audit_trail_lines (euid : Z) (name : list Z) (retained : nat) (max_bytes : Z) (d : Dir) (w : AuditWriter) (log : PrivateLog) (s : Files)
    (events : list AuditEvent) :
  (1 <= retained <= 100)%nat -> max_bytes <= 1073741824 -> enabled (config w) = true -> destination w = File log ->
  keeps name retained max_bytes d log s -> trail s ->
  Forall (fun event => is_line (render (config w) event)) events
  /\ holds (trail_world euid) (record_all euid w events) d (fun r d' =>
       exists acknowledged, (acknowledged <= length events)%nat
         /\ snd r = replicate acknowledged true ++ replicate (length events - acknowledged) false
         /\ let s' := foldl (spec_write max_bytes) s (render (config w) <$> take acknowledged events) in
            trail s' /\
            match events !! acknowledged with
            | None => shows name retained d' (files_of s')
            | Some event => exists files k, shows name retained d' files /\ forgets retained (files_of s') files (take k (render (config w) event))
            end).
Proof.
  intros Hr Hm He Hd Hk Hs. split; [apply Forall_forall; intros event _; apply render_line |].
  pose proof (write_all_holds' euid name retained Hr max_bytes d log s (render (config w) <$> events) Hk ltac:(unfold U64_MAX; lia)) as Hw.
  unfold holds in *. rewrite (record_all_interp euid w log events d He Hd).
  destruct (interp (posix euid) (write_all euid log (render (config w) <$> events)) d) as [r d']. cbn [fst snd] in *.
  destruct Hw as (n & Hn & Hl & _ & Hend). rewrite length_fmap in Hn, Hl. exists n. split; [done |]. split; [exact Hl |]. cbv zeta in *.
  rewrite <- fmap_take in Hend. split; [apply spec_writes_trail; [| done]; apply Forall_fmap, Forall_forall; intros event _; apply render_line |].
  rewrite list_lookup_fmap in Hend. destruct (events !! n) as [event |]; cbn [fmap option_fmap option_map] in Hend; [exact (proj2 Hend) | by apply k_files in Hend].
Qed.

(** ** Three events, one with a hostile name, the third cut short *)
Definition demo_event (sequence : Z) (operation : string) : AuditEvent :=
  {| a_kind := KInvocation; a_timestamp_ms := 1000; a_sequence := sequence; a_phase := PStart; a_operation := operation; a_outcome := OAttempt;
     a_duration_ms := None |}.
Definition demo_events : list AuditEvent :=
  [demo_event 1 "system_board"; demo_event 2 (bytes_str [97; 10; 123; 125]); demo_event 3 "system_info"].
Definition demo_audit : AuditConfig :=
  {| enabled := true; au_format := FText; au_destination := ToFile; au_path := Some (str_bytes "/var/log/audit.log"); au_max_bytes := 1024; retained_files := 2 |}.
Definition demo_writer : AuditWriter :=
  {| config := demo_audit; destination := File (fresh_log (str_bytes "audit.log") 1024 2) |}.

Lemma audit_trail_lines_witness :
  let d := fresh_dir (str_bytes "audit.log") (replicate 11 None ++ [Some 7%nat]) in
  snd (fst (interp (trail_world 0) (record_all 0 demo_writer demo_events) d)) = [true; true; false]
  /\ Forall (fun event => is_line (render demo_audit event)) demo_events.
Proof.
  intros d. split; [vm_compute; reflexivity |].
  assert (Hs : trail (fresh_files 2)).
  { split; [exists []; split; [constructor | reflexivity] | repeat constructor; discriminate]. }
  exact (proj1 (audit_trail_lines 0 (str_bytes "audit.log") 2 1024 d demo_writer _ (fresh_files 2) demo_events ltac:(lia) ltac:(lia) eq_refl eq_refl
    (fresh_keeps (str_bytes "audit.log") 1024 2 _ ltac:(lia)) Hs)).
Defined.

(** The hostile name is replaced, and the last line is cut off. *)
Example demo_trail :
  content (snd (interp (trail_world 0) (record_all 0 demo_writer demo_events) (fresh_dir (str_bytes "audit.log") (replicate 11 None ++ [Some 7%nat]))))
    (str_bytes "audit.log")
  = Some (render demo_audit (demo_event 1 "system_board") ++ render demo_audit (demo_event 2 "unknown") ++ str_bytes "timesta").
Proof. vm_compute. reflexivity. Qed.
