(* ===== verification/Worker.v ===== *)
(** * The backup worker and the token source

    [crates/adapters/src/backups/worker.rs]: one background thread at a time,
    guarded by a flag that a worker holds until its thread has ended.  Every
    atomic action is a step, so that any number of callers and threads
    interleave.  [tokens.rs] guards its thread by a permit in the same way. *)
From stdpp Require Import gmap.
From S2P Require Import Prelude Ports Backups.
Open Scope Z_scope.

Section worker.
Context {T : Type}.

(** What the thread has done: nothing yet, passed its first check, or ended,
    [None] being a panic. *)
Inductive Thread : Type := Started | Working | Ended (result : option (result BackupError T)).
(** The caller's side: the handle is there, taken by a join that waits, or the
    join has returned and the slot was given back. *)
Inductive Handle : Type := Held | Joining | Released.
Record BackupWorker : Type := { thread : Thread; handle : Handle; cancelled : bool }.

(** [ACTIVE], the spawns between the exchange and the thread, the workers. *)
Record Slot : Type := { ACTIVE : bool; reserved : nat; workers : gmap nat BackupWorker; next : nat }.
Definition Slot_new : Slot := {| ACTIVE := false; reserved := 0; workers := ∅; next := 0 |}.

(** [WorkBudget::check], [expired] being what the clock says. *)
Definition budget_check (cancelled expired : bool) : result BackupError unit :=
  if cancelled then Err Cancelled else if expired then Err Deadline else Ok tt.

Definition set_active (b : bool) (s : Slot) : Slot := {| ACTIVE := b; reserved := reserved s; workers := workers s; next := next s |}.
Definition set_worker (i : nat) (w : BackupWorker) (s : Slot) : Slot :=
  {| ACTIVE := ACTIVE s; reserved := reserved s; workers := <[i := w]> (workers s); next := next s |}.

(** [budget.check()?; ACTIVE.compare_exchange(false, true, ..)] *)
Definition spawn_reserve (cancelled expired : bool) (s : Slot) : Slot * result BackupError unit :=
  match budget_check cancelled expired with
  | Err e => (s, Err e)
  | Ok _ =>
      if ACTIVE s then (s, Err Busy)
      else ({| ACTIVE := true; reserved := S (reserved s); workers := workers s; next := next s |}, Ok tt)
  end.
(** [thread::Builder::spawn(..)] and the rest of [spawn] *)
Definition spawn_thread (started : bool) (s : Slot) : Slot * result BackupError nat :=
  if started then
    ({| ACTIVE := ACTIVE s; reserved := pred (reserved s);
        workers := <[next s := {| thread := Started; handle := Held; cancelled := false |}]> (workers s); next := S (next s) |}, Ok (next s))
  else ({| ACTIVE := false; reserved := pred (reserved s); workers := workers s; next := next s |}, Err Unavailable).

(** The body of the thread: [inner.check()?], then [work] and the second check. *)
Definition thread_begin (expired : bool) (w : BackupWorker) : BackupWorker :=
  {| thread := match budget_check (cancelled w) expired with Err e => Ended (Some (Err e)) | Ok _ => Working end;
     handle := handle w; cancelled := cancelled w |}.
Definition thread_end (outcome : option (result BackupError T)) (expired : bool) (w : BackupWorker) : BackupWorker :=
  {| thread := Ended (result ← outcome; Some (let? _ := budget_check (cancelled w) expired in result));
     handle := handle w; cancelled := cancelled w |}.

Definition cancel (w : BackupWorker) : BackupWorker := {| thread := thread w; handle := handle w; cancelled := true |}.
(** [self.handle.take()] *)
Definition take_handle (w : BackupWorker) : BackupWorker := {| thread := thread w; handle := Joining; cancelled := cancelled w |}.
(** [Drop::drop] up to the join: nothing when the handle was taken. *)
Definition drop_worker (w : BackupWorker) : BackupWorker :=
  match handle w with Held => take_handle (cancel w) | _ => w end.
(** [handle.join()], once the thread has ended, and [ACTIVE.store(false, ..)] *)
Definition join_finish (i : nat) (w : BackupWorker) (s : Slot) : option (Slot * result BackupError T) :=
  match thread w with
  | Ended result =>
      Some (set_active false (set_worker i {| thread := thread w; handle := Released; cancelled := cancelled w |} s),
            match result with Some r => r | None => Err Unavailable end)
  | _ => None
  end.

Inductive step : Slot -> Slot -> Prop :=
| step_reserve cancelled expired s : step s (fst (spawn_reserve cancelled expired s))
| step_thread started s : (0 < reserved s)%nat -> step s (fst (spawn_thread started s))
| step_begin i w expired s : workers s !! i = Some w -> thread w = Started -> step s (set_worker i (thread_begin expired w) s)
| step_end i w outcome expired s : workers s !! i = Some w -> thread w = Working -> step s (set_worker i (thread_end outcome expired w) s)
| step_cancel i w s : workers s !! i = Some w -> step s (set_worker i (cancel w) s)
| step_join i w s : workers s !! i = Some w -> handle w = Held -> step s (set_worker i (take_handle w) s)
| step_drop i w s : workers s !! i = Some w -> step s (set_worker i (drop_worker w) s)
| step_joined i w s s' r : workers s !! i = Some w -> handle w = Joining -> join_finish i w s = Some (s', r) -> step s s'.
End worker.
Arguments Thread : clear implicits.
Arguments BackupWorker : clear implicits.
Arguments Slot : clear implicits.

(** ** The token source *)
(** The permits of the semaphore, and the threads that own one. *)
Record RandomSnapshotTokens : Type := { permits : nat; filling : nat }.
Definition tokens_default : RandomSnapshotTokens := {| permits := 1; filling := 0 |}.

(** [try_acquire_owned] and [spawn_blocking], the permit moving to the thread *)
Definition nonce_begin (t : RandomSnapshotTokens) : RandomSnapshotTokens * result RuntimeError unit :=
  match permits t with
  | O => (t, Err EntropyUnavailable)
  | S n => ({| permits := n; filling := S (filling t) |}, Ok tt)
  end.
(** The thread: [getrandom::fill], then the permit is dropped. *)
Definition nonce_thread (filled : option (list Z)) (t : RandomSnapshotTokens) : RandomSnapshotTokens * result RuntimeError (list Z) :=
  ({| permits := S (permits t); filling := pred (filling t) |}, ok_or filled EntropyUnavailable).
(** [.await.map_err(..)?] on the thread *)
Definition nonce_join (joined : option (result RuntimeError (list Z))) : result RuntimeError (list Z) :=
  let? r := ok_or joined EntropyUnavailable in r.

(** The source never has two threads, whoever stops waiting for one. *)
Lemma nonce_single t :
  (permits t + filling t = 1)%nat ->
  (permits (fst (nonce_begin t)) + filling (fst (nonce_begin t)) = 1)%nat
  /\ (forall filled, filling t <> 0%nat -> (permits (fst (nonce_thread filled t)) + filling (fst (nonce_thread filled t)) = 1)%nat)
  /\ (filling t <> 0%nat -> nonce_begin t = (t, Err EntropyUnavailable)).
Proof.
  destruct t as [p f]. cbn. intros Hp. unfold nonce_begin. cbn. destruct p as [| p]; cbn; (split; [lia |]); (split; [intros; lia |]); [done | lia].
Qed.

(** ** The slot *)
Section slot.
Context {T : Type}.
Implicit Types (s : Slot T) (w : BackupWorker T).

Inductive reachable : Slot T -> Prop :=
| reachable_new : reachable Slot_new
| reachable_step s s' : reachable s -> step s s' -> reachable s'.

Definition ended w : Prop := exists r, thread w = Ended r.
Definition all_released s : Prop := forall i w, workers s !! i = Some w -> handle w = Released.
Definition held_by (i : nat) s : Prop :=
  exists w, workers s !! i = Some w /\ handle w <> Released /\ forall j w', workers s !! j = Some w' -> handle w' <> Released -> j = i.
(** Who has the slot. *)
Definition owned s : Prop :=
  if ACTIVE s then (reserved s = 1%nat /\ all_released s) \/ (reserved s = 0%nat /\ exists i, held_by i s)
  else reserved s = 0%nat /\ all_released s.

Record slot_inv s : Prop := {
  slot_owned : owned s;
  slot_ended : forall i w, workers s !! i = Some w -> handle w = Released -> ended w;
  slot_next : forall i w, workers s !! i = Some w -> (i < next s)%nat
}.

(** A change of a worker that leaves its handle unreleased leaves the slot. *)
Lemma set_worker_inv i w w' s :
  slot_inv s -> workers s !! i = Some w -> (handle w' = Released <-> handle w = Released) -> (handle w = Released -> thread w' = thread w) ->
  slot_inv (set_worker i w' s).
Proof.
  intros [Ho He Hn] Hi Hh Ht. assert (Hlook : forall j v, workers (set_worker i w' s) !! j = Some v -> exists u, workers s !! j = Some u /\ (handle v = Released <-> handle u = Released)).
  { intros j v. cbn [set_worker workers]. destruct (decide (j = i)) as [-> | Hne].
    - rewrite lookup_insert_eq. intros [= <-]. by exists w.
    - rewrite lookup_insert_ne by done. intros Hv. by exists v. }
  assert (Hall : all_released s -> all_released (set_worker i w' s)).
  { intros Ha j v Hv. destruct (Hlook j v Hv) as (u & Hu & ->). by apply (Ha j). }
  split.
  - unfold owned in *. change (ACTIVE (set_worker i w' s)) with (ACTIVE s). change (reserved (set_worker i w' s)) with (reserved s).
    destruct (ACTIVE s); [| destruct Ho; auto]. destruct Ho as [[H1 H2] | [H1 (k & u & Hu & Hnr & Huniq)]]; [left; auto | right]. split; [done |].
    exists k. destruct (decide (k = i)) as [-> | Hne].
    + exists w'. split; [apply lookup_insert_eq |]. rewrite Hi in Hu. injection Hu as ->. split; [by rewrite Hh |].
      intros j v Hv Hvr. destruct (Hlook j v Hv) as (x & Hx & Hxr). apply (Huniq j x); [done | by rewrite <- Hxr].
    + exists u. split; [cbn; by rewrite lookup_insert_ne |]. split; [done |].
      intros j v Hv Hvr. destruct (Hlook j v Hv) as (x & Hx & Hxr). apply (Huniq j x); [done | by rewrite <- Hxr].
  - intros j v. cbn [set_worker workers]. destruct (decide (j = i)) as [-> | Hne].
    + rewrite lookup_insert_eq. intros [= <-] Hr. rewrite Hh in Hr. destruct (He i w Hi Hr) as [r Hr']. exists r. by rewrite Ht.
    + rewrite lookup_insert_ne by done. apply He.
  - intros j v. cbn [set_worker workers next]. destruct (decide (j = i)) as [-> | Hne]; [intros _; by eapply Hn | rewrite lookup_insert_ne by done; apply Hn].
Qed.

Lemma spawn_reserve_inv cancelled expired s : slot_inv s -> slot_inv (fst (spawn_reserve cancelled expired s)).
Proof.
  intros [Ho He Hn]. unfold spawn_reserve. destruct (budget_check _ _); [| done]. destruct (ACTIVE s) eqn:Ea; [done |].
  unfold owned in Ho. rewrite Ea in Ho. destruct Ho as [Hr Ha]. split; [left; cbn; split; [by rewrite Hr | done] | done | done].
Qed.

Lemma spawn_thread_inv started s : (0 < reserved s)%nat -> slot_inv s -> slot_inv (fst (spawn_thread started s)).
Proof.
  intros Hr [Ho He Hn]. unfold owned in Ho. destruct (ACTIVE s) eqn:Ea; [| lia]. destruct Ho as [[H1 H2] | [H1 _]]; [| lia].
  assert (Hfresh : workers s !! next s = None) by (destruct (workers s !! next s) eqn:E; [apply Hn in E; lia | done]).
  unfold spawn_thread. destruct started; cbn [fst]; split; cbn [workers next]; try done.
  - unfold owned. cbn [ACTIVE reserved]. rewrite Ea. right. split; [lia |]. exists (next s). eexists. split; [apply lookup_insert_eq |]. split; [done |].
    intros j w'. cbn [workers]. destruct (decide (j = next s)) as [-> | Hne]; [done |]. rewrite lookup_insert_ne by done. intros Hw Hnr. by destruct Hnr; apply (H2 j).
  - intros i w. destruct (decide (i = next s)) as [-> | Hne]; [rewrite lookup_insert_eq; by intros [= <-] | rewrite lookup_insert_ne by done; apply He].
  - intros i w. destruct (decide (i = next s)) as [-> | Hne]; [lia |]. rewrite lookup_insert_ne by done. intros Hw. apply Hn in Hw. lia.
  - unfold owned. cbn [ACTIVE reserved]. split; [lia | exact H2].
Qed.

Lemma join_finish_inv i w s s' r :
  slot_inv s -> workers s !! i = Some w -> handle w = Joining -> join_finish i w s = Some (s', r) -> slot_inv s'.
Proof.
  intros [Ho He Hn] Hi Hh Hj. unfold join_finish in Hj. destruct (thread w) as [| | res] eqn:Et; [done | done |]. injection Hj as <- _.
  assert (Hrel : handle w <> Released) by congruence. unfold owned in Ho.
  assert (Hown : reserved s = 0%nat /\ forall j w', workers s !! j = Some w' -> handle w' <> Released -> j = i).
  { destruct (ACTIVE s); [destruct Ho as [[_ Ha] | [H1 (k & u & Hu & Hnr & Huniq)]] | destruct Ho as [_ Ha]].
    - by destruct Hrel; apply (Ha i).
    - split; [done |]. intros j w' Hw' Hr'. rewrite (Huniq j w' Hw' Hr'). symmetry. by eapply Huniq.
    - by destruct Hrel; apply (Ha i). }
  destruct Hown as [Hr Huniq]. split; cbn [set_active set_worker workers next].
  - unfold owned. cbn [ACTIVE reserved set_active set_worker]. split; [done |]. intros j w'. cbn [workers set_active set_worker].
    destruct (decide (j = i)) as [-> | Hne]; [rewrite lookup_insert_eq; by intros [= <-] |]. rewrite lookup_insert_ne by done. intros Hw.
    destruct (handle w') eqn:E; [| | done]; exfalso; apply Hne, (Huniq j w' Hw); congruence.
  - intros j w'. destruct (decide (j = i)) as [-> | Hne]; [rewrite lookup_insert_eq; intros [= <-] _; by exists res | rewrite lookup_insert_ne by done; apply He].
  - intros j w'. destruct (decide (j = i)) as [-> | Hne]; [intros _; by eapply Hn | rewrite lookup_insert_ne by done; apply Hn].
Qed.

Lemma step_inv s s' : slot_inv s -> step s s' -> slot_inv s'.
Proof.
  intros Hinv Hs. destruct Hs as [c e s | st s Hr | i w e s Hi Ht | i w o e s Hi Ht | i w s Hi | i w s Hi Hh | i w s Hi | i w s s' r Hi Hh Hj].
  - by apply spawn_reserve_inv.
  - by apply spawn_thread_inv.
  - apply (set_worker_inv i w); try done. intros Hr. destruct (slot_ended _ Hinv i w Hi Hr) as [r Hr']. congruence.
  - apply (set_worker_inv i w); try done. intros Hr. destruct (slot_ended _ Hinv i w Hi Hr) as [r Hr']. congruence.
  - by apply (set_worker_inv i w).
  - apply (set_worker_inv i w); try done. cbn. rewrite Hh. by split.
  - apply (set_worker_inv i w); try done; unfold drop_worker; destruct (handle w) eqn:Eh; cbn; rewrite ?Eh; by split.
  - by eapply join_finish_inv.
Qed.

Lemma slot_reachable_inv s : reachable s -> slot_inv s.
Proof.
  induction 1 as [| s s' _ IH Hs]; [| by eapply step_inv]. split; [split; [done |] | |]; intros i w Hw; cbn [workers Slot_new] in Hw; by rewrite lookup_empty in Hw.
Qed.

(** C36: the backup slot admits one worker and never lets one go: however
    spawns, threads, cancellations, joins and drops interleave, at most one
    thread has not ended; a thread that has not ended still has its handle, or
    a join that waits for it, so that no background task is detached; the flag
    is clear exactly when nobody is between taking it and giving it back, and
    then a spawn with a live budget takes it; and a join returns only after
    the thread has ended, with the thread's result, a panic being reported as
    unavailable. *)
Theorem worker_slot_single s :
  reachable s ->
  (forall i j w v, workers s !! i = Some w -> workers s !! j = Some v -> ~ ended w -> ~ ended v -> i = j)
  /\ (forall i w, workers s !! i = Some w -> ~ ended w -> ACTIVE s = true /\ (handle w = Held \/ handle w = Joining))
  /\ (ACTIVE s = false <-> reserved s = 0%nat /\ all_released s)
  /\ (ACTIVE s = false -> snd (spawn_reserve false false s) = Ok tt)
  /\ (ACTIVE s = true -> forall cancelled expired, exists e, snd (spawn_reserve cancelled expired s) = Err e)
  /\ (forall i w s' r, workers s !! i = Some w -> join_finish i w s = Some (s', r) ->
       exists result, thread w = Ended result /\ r = match result with Some r => r | None => Err Unavailable end).
Proof.
  intros Hr. pose proof (slot_reachable_inv s Hr) as [Ho He Hn].
  assert (Hnr : forall i w, workers s !! i = Some w -> ~ ended w -> handle w <> Released) by (intros i w Hi Hne Hrel; by apply Hne, (He i)).
  assert (Hact : forall i w, workers s !! i = Some w -> handle w <> Released -> ACTIVE s = true /\ held_by i s).
  { intros i w Hi Hrel. unfold owned in Ho. destruct (ACTIVE s); [destruct Ho as [[_ Ha] | [_ (k & u & Hu & Hur & Huniq)]] | destruct Ho as [_ Ha]].
    - by destruct Hrel; apply (Ha i).
    - split; [done |]. rewrite (Huniq i w Hi Hrel). by exists u.
    - by destruct Hrel; apply (Ha i). }
  split; [| split; [| split; [| split; [| split]]]].
  - intros i j w v Hi Hj Hw Hv. destruct (Hact j v Hj (Hnr j v Hj Hv)) as [_ (u & _ & _ & Huniq)]. by apply (Huniq i w Hi), (Hnr i w Hi).
  - intros i w Hi Hw. destruct (Hact i w Hi (Hnr i w Hi Hw)) as [Ha _]. split; [done |]. pose proof (Hnr i w Hi Hw). destruct (handle w); [by left | by right | done].
  - unfold owned in Ho. split; [intros Ha; by rewrite Ha in Ho |]. intros [H1 H2]. destruct (ACTIVE s); [| done].
    destruct Ho as [[Hc _] | [_ (k & u & Hu & Hur & _)]]; [congruence | destruct Hur; by apply (H2 k)].
  - intros Ha. unfold spawn_reserve. cbn. by rewrite Ha.
  - intros Ha c e. unfold spawn_reserve. destruct (budget_check c e); [rewrite Ha |]; by eexists.
  - intros i w s' r Hi Hj. unfold join_finish in Hj. destruct (thread w) as [| | res]; [done | done |]. injection Hj as _ <-. by exists res.
Qed.
End slot.

(** ** A worker dropped while it runs *)
Definition demo_worker (t : Thread nat) (h : Handle) (c : bool) : BackupWorker nat := {| thread := t; handle := h; cancelled := c |}.
Definition demo_slot (w : BackupWorker nat) : Slot nat := {| ACTIVE := true; reserved := 0; workers := {[ 0%nat := w ]}; next := 1 |}.

Lemma worker_slot_single_witness :
  reachable (demo_slot (demo_worker Working Joining true))
  /\ snd (spawn_reserve false false (demo_slot (demo_worker Working Joining true))) = Err Busy
  /\ (ACTIVE (demo_slot (demo_worker Working Joining true)) = true).
Proof.
  assert (H0 : reachable (demo_slot (demo_worker Started Held false))).
  { apply (reachable_step (fst (spawn_reserve false false Slot_new))).
    - apply (reachable_step Slot_new); [constructor | apply step_reserve].
    - exact (step_thread true (fst (spawn_reserve false false (Slot_new (T := nat)))) (le_n 1)). }
  assert (H1 : reachable (demo_slot (demo_worker Working Held false))).
  { eapply reachable_step; [exact H0 |].
    exact (step_begin 0 (demo_worker Started Held false) false (demo_slot (demo_worker Started Held false)) (lookup_singleton_eq 0%nat _) eq_refl). }
  assert (H2 : reachable (demo_slot (demo_worker Working Joining true))).
  { eapply reachable_step; [exact H1 |].
    exact (step_drop 0 (demo_worker Working Held false) (demo_slot (demo_worker Working Held false)) (lookup_singleton_eq 0%nat _)). }
  split; [exact H2 |]. split; [reflexivity |].
  exact (proj1 (proj1 (proj2 (worker_slot_single _ H2)) 0%nat (demo_worker Working Joining true) (lookup_singleton_eq 0%nat _)
    (fun He => match He with ex_intro _ r Hr => ltac:(discriminate Hr) end))).
Defined.
