(* ===== verification/Config.v ===== *)
(** * The operator's configuration

    [crates/server/src/config.rs], [protection.rs] and [target.rs]: loading the
    one explicit configuration, its validation without touching a key, a
    marker or the network, and the authorities that are made from it. *)
From S2P Require Import Prelude Order Text Json Core Budget Packages Schema Evaluate Operation Invocation Catalog Builtins Program Sealing Protection Zip Registry Ports Ciphertext Linux Runner Session Local Rotation Trail.
Open Scope Z_scope.

Definition MAX_CONFIG_BYTES : Z := 1048576.

(** ** Protection *)
Inductive Cipher : Type := Age.
Record ProtectionConfig : Type := {
  p_cipher : Cipher; recipient_source : list Z; p_identity_source : option (list Z);
  p_sources : list (list Z * SourceConfig); p_key_limits : KeyLimits; p_crypto_limits : CryptoLimits
}.

Section authority.
(** [AgeX25519] as the two providers, and the zip library. *)
Context (age_encryption age_decryption : list Z -> CryptoLimits -> cipher).
Context (zip_open : list Z -> option (nat -> option ZipFile)).

Abbreviation SourceRegistry_new := with_file_access.
Abbreviation resolve_source := (resolve native_file_read zip_open RESOLVE_FUEL).

Definition registry (p : ProtectionConfig) : result ProtectionError SourceRegistry :=
  let? _ := crypto_limits_validate (p_crypto_limits p) in
  let? registry := SourceRegistry_new (p_sources p) (p_key_limits p) in
  let? _ := resolve_source registry (recipient_source p) in
  match p_identity_source p with
  | Some identity =>
      fail_if bool_decide (identity = recipient_source p) with Protection.InvalidConfig in
      let? _ := resolve_source registry identity in Ok registry
  | None => Ok registry
  end.

Definition protection_validate (p : ProtectionConfig) : result ProtectionError unit := let? _ := registry p in Ok tt.

Definition encryption (p : ProtectionConfig) : result ProtectionError (Protection.Session KeySource) :=
  let? registry := registry p in
  let? source := resolve_source registry (recipient_source p) in
  match p_cipher p with Age => session_new source age_encryption (p_key_limits p) (p_crypto_limits p) end.

Definition decryption (p : ProtectionConfig) : result ProtectionError (option (Protection.Session KeySource)) :=
  let? registry := registry p in
  match p_identity_source p with
  | None => Ok None
  | Some identity =>
      let? source := resolve_source registry identity in
      match p_cipher p with
      | Age => let? s := session_new source age_decryption (p_key_limits p) (p_crypto_limits p) in Ok (Some s)
      end
  end.

(** ** The target *)
Inductive TargetConfig : Type :=
| Unconfigured
| OpenwrtLocal
| Ssh (options : SshOptions) (identity_source : list Z) (sources : list (list Z * SourceConfig)) (key_limits : KeyLimits).

Context (fingerprint_text : string -> option string).

Definition resolve_identity (identity_source : list Z) (sources : list (list Z * SourceConfig)) (key_limits : KeyLimits) :
    result RuntimeError KeySource :=
  map_err (fun _ => InvalidConfig)
    (let? registry := SourceRegistry_new sources key_limits in resolve_key native_file_read zip_open registry identity_source).

Definition target_validate (t : TargetConfig) : result RuntimeError unit :=
  match t with
  | Ssh options identity_source sources key_limits =>
      let? _ := options_validate fingerprint_text options in
      let? _ := resolve_identity identity_source sources key_limits in Ok tt
  | _ => Ok tt
  end.

(** The implementations of the backend's port. *)
Inductive TargetBackend : Type :=
| UnconfiguredBackend
| LocalBackend
| SshBackend (options : SshOptions) (identity : KeySource).

Definition target_backend (t : TargetConfig) : process (result RuntimeError TargetBackend) :=
  do? _ := Ret (target_validate t) in
  match t with
  | Unconfigured => Ret (Ok UnconfiguredBackend)
  | OpenwrtLocal => do? _ := local_new in Ret (Ok LocalBackend)
  | Ssh options identity_source sources key_limits =>
      Ret (let? source := resolve_identity identity_source sources key_limits in
           let? options := ssh_new fingerprint_text options in Ok (SshBackend options source))
  end.

(** ** Logging *)
Inductive LogLevel : Type := LOff | LError | LWarn | LInfo | LDebug | LTrace.
Inductive LogFormat : Type := LJson | LText.
Record Logging : Type := { level : LogLevel; format : LogFormat }.
Definition Logging_default : Logging := {| level := LInfo; format := LJson |}.

(** The derived order is the order of declaration. *)
Definition level_rank (l : LogLevel) : Z :=
  match l with LOff => 0 | LError => 1 | LWarn => 2 | LInfo => 3 | LDebug => 4 | LTrace => 5 end.
Definition level_name (l : LogLevel) : string :=
  match l with LOff => "off" | LError => "error" | LWarn => "warn" | LInfo => "info" | LDebug => "debug" | LTrace => "trace" end.

(** ** The configuration *)
Record Config : Type := {
  c_policy : Policy; c_limits : Limits; c_audit : AuditConfig; c_logging : Logging; c_actions : list Operation;
  c_protection : option ProtectionConfig; c_target : TargetConfig
}.

(** The derived deserializer behind [toml::from_str], and the size that
    [serde_json] writes a definition in. *)
Context (toml_from_str : string -> option Config) (definition_size : Operation -> option Z).

Definition parse (contents : list Z) : result string Config :=
  fail_if MAX_CONFIG_BYTES <? zlen contents with "config_too_large"%string in
  let? contents := ok_or (from_utf8 contents) "config_invalid"%string in
  ok_or (toml_from_str contents) "config_invalid"%string.

Definition config_error (e : HostError) : string :=
  match e with
  | HUnsupported => "config_protection_unsupported"
  | HLimit => "config_too_large"
  | HInsecure => "config_insecure"
  | HInvalidPath => "config_path_invalid"
  | HUnavailable => "config_unreadable"
  end.

Definition load (euid : Z) (path : list Z) : linux (result string Config) :=
  do! contents := host_read_config euid path MAX_CONFIG_BYTES in
  Ret (let? contents := map_err config_error contents in parse contents).

Definition variable_name (variable : list Z) : bool :=
  negb (bool_decide (variable = [])) && (zlen variable <=? 128)
  && forallb (fun '(index, byte) => is_ascii_alphabetic byte || (byte =? 95) || ((0 <? index) && is_ascii_digit byte))
       (imap (fun i b => (Z.of_nat i, b)) variable).

(** [std::env::var_os] is one call. *)
Definition load_from_environment (variable : list Z) : keying (result string Config) :=
  if negb (variable_name variable) then Ret (Err "config_environment_invalid"%string)
  else
    do! value := key_call (VarOs variable) in
    Ret (let? value := ok_or value "config_unreadable"%string in
         fail_if negb (valid_utf8 value) with "config_invalid"%string in parse value).

(** [None]: building the definitions panicked. *)
Definition config_catalog (host : HostSupport) (c : Config) : option (result string Catalog) :=
  catalog ← Builtins.catalog definition_size (c_actions c);
  Some (let? catalog := map_err (fun _ => "catalog_invalid"%string) catalog in
        let? _ := map_err (fun _ => "policy_invalid"%string) (policy_validate (c_policy c) catalog) in
        let? _ := map_err (fun _ => "limits_invalid"%string) (limits_validate (c_limits c)) in
        let? _ := map_err (fun _ => "audit_config_invalid"%string) (audit_config_validate host (c_audit c)) in
        let? _ := map_err (fun _ => "target_config_invalid"%string) (target_validate (c_target c)) in
        let? _ := match c_protection c with
                  | Some protection => map_err (fun _ => "protection_config_invalid"%string) (protection_validate protection)
                  | None => Ok tt
                  end in
        Ok catalog).
End authority.
