(* ===== verification/Startup.v ===== *)
(** * The process entry point

    [crates/server/src/main.rs] and [Logging::event]: the arguments, the three
    commands, and the order in which serving brings the parts together. *)
From stdpp Require Import gmap.
From S2P Require Import Prelude Order Text Json Core Budget Packages Schema Evaluate Operation Invocation Catalog Installed Program Sealing Protection Zip Registry Ports Dispatcher Ciphertext Linux Runner Session Local Rotation Trail Config.
Open Scope Z_scope.

(** The terminal, the host through the parts that reach it, and the server
    that takes over ([McpServer::run] on a bounded input). *)
Inductive ServerCall : Type :=
| BuildRuntime | ShutdownRuntime
| ReadConfig (c : LinuxCall) | ReadVariable (c : KeyCall)
| Target (c : LocalCall) | Auditing (c : AuditCall)
| LogClock | LogWrite (line : list Z)
| PrintText (text : list Z)
| Serve (d : Dispatcher) (backend : TargetBackend) (audit : AuditWriter).
Definition ServerAnswer (c : ServerCall) : Type :=
  match c with
  | BuildRuntime => bool
  | ShutdownRuntime => unit
  | ReadConfig c => LinuxAnswer c
  | ReadVariable c => KeyAnswer c
  | Target c => LocalAnswer c
  | Auditing c => AuditAnswer c
  | LogClock => Z
  (* the second elapsed; the blocking task failed; the write failed *)
  | LogWrite _ => option (option (option unit))
  (* [None]: the write failed, and the macro panics *)
  | PrintText _ => option unit
  | Serve _ _ _ => result string unit
  end.
Notation server := (prog ServerAnswer).
Notation server_call := (Program.call (Answer := ServerAnswer)).

(** A future that completes, where [None] is a panic. *)
Definition completes {A} (p : server A) : server (option A) := do! a := p in Ret (Some a).
Definition failing {E A} (code : string) (p : server (result E A)) : server (option (result string A)) :=
  do! r := p in Ret (Some (map_err (fun _ => code) r)).

(** ** Logging *)
Definition u64_value (n : Z) : option value := if (0 <=? n) && (n <=? 18446744073709551615) then Some (VNum (PosInt n)) else None.

Definition log_line (l : Logging) (event_level : LogLevel) (code : string) (timestamp_ms : Z) : option (list Z) :=
  match format l with
  | LJson =>
      (* [json!] panics on a number that JSON cannot hold *)
      timestamp ← u64_value timestamp_ms;
      Some (str_bytes (json_text (obj_of [("timestamp_ms", timestamp); ("level", VStr (level_name event_level)); ("event", VStr code)])) ++ [10])
  | LText => Some (str_bytes ("timestamp_ms=" +:+ dec timestamp_ms +:+ " " +:+ level_name event_level +:+ " " +:+ code) ++ [10])
  end.

(** [Logging::event] *)
Definition log_event (l : Logging) (event_level : LogLevel) (code : string) : server (option (result string unit)) :=
  if (level_rank event_level =? 0) || (level_rank (level l) <? level_rank event_level) then Ret (Some (Ok tt))
  else
    do! timestamp_ms := server_call LogClock in
    match log_line l event_level code timestamp_ms with
    | None => Ret None
    | Some line =>
        do! written := server_call (LogWrite line) in
        Ret (Some match written with Some (Some (Some _)) => Ok tt | _ => Err "logging_unavailable"%string end)
    end.

(** [print!] *)
Definition print_text (text : list Z) : server (option (result string unit)) :=
  do! printed := server_call (PrintText text) in Ret (option_map Ok printed).

(** ** Arguments *)
Definition HELP : list Z := str_bytes "OpenWrt MCP
Usage: openwrt-mcp <check|catalog|serve> <--config <path>|--config-env <variable>>

check    Validate policy, catalog and limits without contacting a router
catalog  Print authorized operation schemas without contacting a router
serve    Run stdio MCP against the operator-selected OpenWrt target

Windows/Linux/macOS hosts use explicit SSH targets; OpenWrt-local is opt-in.
No network listener or remote-to-local fallback is opened.
Configuration is operator authority. Native protected files may be unsupported.
".
Definition VERSION : string := "0.1.0".

Inductive ConfigSource : Type := FromFile (path : list Z) | FromEnvironment (variable : list Z).
Inductive Command : Type := CheckConfig | ListCatalog | RunServer.

Definition is_arg (a : list Z) (s : string) : bool := bool_decide (a = str_bytes s).
Definition command_of (a : list Z) : result string Command :=
  fail_if negb (valid_utf8 a) with "invalid_cli_arguments"%string in
  if is_arg a "check" then Ok CheckConfig
  else if is_arg a "catalog" then Ok ListCatalog
  else if is_arg a "serve" then Ok RunServer
  else Err "invalid_cli_command"%string.
Definition source_of (flag place : list Z) : result string ConfigSource :=
  if is_arg flag "--config" then Ok (FromFile place)
  else if is_arg flag "--config-env" then
    fail_if negb (valid_utf8 place) with "invalid_cli_arguments"%string in Ok (FromEnvironment place)
  else Err "invalid_cli_arguments"%string.

(** [args] are the arguments after the program's name. *)
Definition arguments (args : list (list Z)) : server (option (result string (option (Command * ConfigSource)))) :=
  match args with
  | [] => do@ _ := print_text HELP in Ret (Some (Ok None))
  | [a] =>
      if is_arg a "--help" || is_arg a "-h" then do@ _ := print_text HELP in Ret (Some (Ok None))
      else if is_arg a "--version" then
        do@ _ := print_text (str_bytes ("openwrt-mcp " +:+ VERSION) ++ [10]) in Ret (Some (Ok None))
      else Ret (Some (Err "invalid_cli_arguments"%string))
  | [a; flag; place] =>
      Ret (Some (let? command := command_of a in let? source := source_of flag place in Ok (Some (command, source))))
  | _ => Ret (Some (Err "invalid_cli_arguments"%string))
  end.

(** ** The commands *)
Section startup.
Context (euid : Z) (support : HostSupport).
Context (zip_open : list Z -> option (nat -> option ZipFile)) (fingerprint_text : string -> option string).
Context (toml_from_str : string -> option Config) (definition_size : Operation -> option Z) (from_str : string -> option value).

Definition load_config (source : ConfigSource) : server (option (result string Config)) :=
  completes
    match source with
    | FromFile path => translate (fun c => server_call (ReadConfig c)) (load toml_from_str euid path)
    | FromEnvironment variable => translate (fun c => server_call (ReadVariable c)) (load_from_environment toml_from_str variable)
    end.

Definition authorized (config : Config) (catalog : Catalog) : list Operation :=
  List.filter (fun op => is_ok (authorize (c_policy config) op)) (operations catalog).

Definition check_report (config : Config) (catalog : Catalog) : list Z :=
  str_bytes ("configuration valid; " +:+ dec (zlen (authorized config catalog)) +:+ " authorized operations") ++ [10].

Definition catalog_entry (op : Operation) : value :=
  obj_of [("name", VStr (op_name op)); ("description", VStr (description op));
          ("requirements", VArr (wire_requirement <$> requirements op)); ("input_schema", input_schema from_str op)].
Definition catalog_report (config : Config) (catalog : Catalog) : list Z :=
  str_bytes (json_text (obj_of [("operations", VArr (catalog_entry <$> authorized config catalog))])) ++ [10].

Definition make_backend (config : Config) : server (option (result string TargetBackend)) :=
  do! backend := translate (fun c => server_call (Target c)) (target_backend zip_open fingerprint_text (c_target config)) in
  Ret (Some (map_err runtime_code backend)).
Definition make_audit (config : Config) : server (option (result string AuditWriter)) :=
  failing "audit_initialization_failed" (translate (fun c => server_call (Auditing c)) (AuditWriter_new euid support (c_audit config))).
Definition make_dispatcher (config : Config) (catalog : Catalog) : result string Dispatcher :=
  let? d := map_err (fun _ => "dispatcher_initialization_failed"%string) (Dispatcher_new catalog (c_policy config) (c_limits config)) in
  Ok (with_snapshot_tokens d).

Definition serve (config : Config) (catalog : Catalog) : server (option (result string unit)) :=
  do@ backend := make_backend config in
  do@ audit := make_audit config in
  do@ dispatcher := Ret (Some (make_dispatcher config catalog)) in
  do@ _ := log_event (c_logging config) LInfo "server_starting" in
  do@ _ := completes (server_call (Serve dispatcher backend audit)) in
  log_event (c_logging config) LInfo "server_stopped".

Definition run (args : list (list Z)) : server (option (result string unit)) :=
  do@ requested := arguments args in
  match requested with
  | None => Ret (Some (Ok tt))
  | Some (command, source) =>
      do@ config := load_config source in
      do@ catalog := Ret (config_catalog zip_open fingerprint_text definition_size support config) in
      match command with
      | CheckConfig => print_text (check_report config catalog)
      | ListCatalog => print_text (catalog_report config catalog)
      | RunServer => serve config catalog
      end
  end.

(** The exit status: whether it is a success; [None] is a panic. *)
Definition main (args : list (list Z)) : server (option bool) :=
  do! built := server_call BuildRuntime in
  if negb built then Ret (Some false)
  else
    do! outcome := run args in
    match outcome with
    | None => Ret None
    | Some outcome =>
        do! exit := (match outcome with
                     | Ok _ => Ret (Some true)
                     | Err code => do! logged := log_event Logging_default LError code in Ret (match logged with None => None | Some _ => Some false end)
                     end) in
        match exit with
        | None => Ret None
        | Some exit => do! _ := server_call ShutdownRuntime in Ret (Some exit)
        end
    end.
End startup.

(** * Nothing happens before the configuration is valid

    What each command may do, and what had been established when it does it. *)
#[local] Opaque Builtins.catalog.
Section order.
Context (euid : Z) (support : HostSupport).
Context (zip_open : list Z -> option (nat -> option ZipFile)) (fingerprint_text : string -> option string).
Context (toml_from_str : string -> option Config) (definition_size : Operation -> option Z) (from_str : string -> option value).
Context (args : list (list Z)).

Abbreviation load_config := (load_config euid toml_from_str).
Abbreviation make_backend := (make_backend zip_open fingerprint_text).
Abbreviation make_audit := (make_audit euid support).
Abbreviation done_with a := (Some (Some (Ok a))).

(** What [check] checks. *)
Record valid_config (config : Config) (catalog : Catalog) : Prop := {
  v_catalog : Builtins.catalog definition_size (c_actions config) = Some (Ok catalog);
  v_policy : policy_validate (c_policy config) catalog = Ok tt;
  v_limits : limits_validate (c_limits config) = Ok tt;
  v_audit : audit_config_validate support (c_audit config) = Ok tt;
  v_target : target_validate zip_open fingerprint_text (c_target config) = Ok tt;
  v_protection : forall p, c_protection config = Some p -> protection_validate zip_open p = Ok tt
}.

(** The calls [past] loaded a valid configuration from the place that the
    arguments name; [rest] is what happened since. *)
Record configured (command : Command) (past rest : list (event ServerAnswer)) (config : Config) (catalog : Catalog) : Prop := {
  k_source : ConfigSource;
  k_asked : runs (arguments args) [] (done_with (Some (command, k_source)));
  k_loaded : exists loading, past = loading ++ rest /\ runs (load_config k_source) loading (done_with config);
  k_valid : valid_config config catalog
}.

(** The backend is the one that the operator selected, with no fallback: a
    local one only on a device that was verified to be one. *)
Definition selected (target : TargetConfig) (rest : list (event ServerAnswer)) (backend : TargetBackend) : Prop :=
  match target with
  | Unconfigured => backend = UnconfiguredBackend
  | OpenwrtLocal => backend = LocalBackend /\ Event (Target VerifyOpenwrtLocal : ServerCall) (Some tt) ∈ rest
  | Ssh options identity_source sources key_limits =>
      exists identity registry, backend = SshBackend options identity /\ options_validate fingerprint_text options = Ok tt
        /\ with_file_access sources key_limits = Ok registry
        /\ resolve_key native_file_read zip_open registry identity_source = Ok identity
  end.

Definition announced (l : Logging) (rest : list (event ServerAnswer)) : Prop :=
  level_rank (level l) < level_rank LInfo
  \/ exists n line, log_line l LInfo "server_starting" n = Some line
       /\ Event (LogWrite line : ServerCall) (Some (Some (Some tt))) ∈ rest.

Definition is_serve (c : ServerCall) : Prop := match c with Serve _ _ _ => True | _ => False end.

Definition entitled (past : list (event ServerAnswer)) (c : ServerCall) : Prop :=
  match c with
  | BuildRuntime | ShutdownRuntime => False
  | PrintText text =>
      (past = [] /\ forall command source, ~ runs (arguments args) [] (done_with (Some (command, source))))
      \/ (exists config catalog, configured CheckConfig past [] config catalog /\ text = check_report config catalog)
      \/ exists config catalog, configured ListCatalog past [] config catalog /\ text = catalog_report from_str config catalog
  | ReadConfig _ | ReadVariable _ =>
      exists command source, runs (arguments args) [] (done_with (Some (command, source))) /\ runs (load_config source) past None
  | Target call =>
      exists config catalog, configured RunServer past [] config catalog /\ c_target config = OpenwrtLocal /\ call = VerifyOpenwrtLocal
  | Auditing _ =>
      exists config catalog rest, configured RunServer past rest config catalog
        /\ exists t1 t2 backend, rest = t1 ++ t2 /\ runs (make_backend config) t1 (done_with backend) /\ runs (make_audit config) t2 None
  | LogClock | LogWrite _ => exists config catalog rest, configured RunServer past rest config catalog
  | Serve d backend audit =>
      exists config catalog rest, configured RunServer past rest config catalog
        /\ d = {| d_catalog := catalog; d_policy := c_policy config; d_limits := c_limits config; d_tokens := true |}
        /\ selected (c_target config) rest backend
        /\ Trail.config audit = c_audit config
        /\ announced (c_logging config) rest
        /\ Forall (fun e => ~ is_serve (ev_call e)) past
  end.

Lemma arguments_silent t x : runs (arguments args) t (done_with (Some x)) -> t = [].
Proof.
  intros Hr. destruct args as [| a [| flag [| place [| ? ?]]]]; cbn [arguments] in Hr; [| | by destruct Hr as [-> _] ..].
  - apply runs_then in Hr as (? & ? & [[|] |] & _ & _ & [_ [=]]).
  - repeat case_match; [| | by destruct Hr as [-> _]]; apply runs_then in Hr as (? & ? & [[|] |] & _ & _ & [_ [=]]).
Qed.

Lemma print_before text : before (print_text text) (fun t c => t = [] /\ c = PrintText text).
Proof. apply before_call; [done |]. intros x. apply before_ret. Qed.

Lemma arguments_before : before (arguments args) (fun t c =>
  (exists text, c = PrintText text) /\ t = [] /\ forall command source, ~ runs (arguments args) [] (done_with (Some (command, source)))).
Proof.
  assert (forall text, (forall t x, ~ runs (arguments args) t (done_with (Some x))) ->
    before (do@ _ := print_text text in Ret (Some (Ok (@None (Command * ConfigSource))))) (fun t c =>
    (exists text, c = PrintText text) /\ t = [] /\ forall command source, ~ runs (arguments args) [] (done_with (Some (command, source))))) as Hp.
  { intros text Hn. apply before_timed.
    - eapply before_mono; [apply print_before |]. intros t c [-> ->]. split; [by eexists |]. split; [done |]. intros command source. apply Hn.
    - intros. apply before_ret. }
  assert (forall text t x, ~ runs (do@ _ := print_text text in Ret (Some (Ok (@None (Command * ConfigSource))))) t (done_with (Some x))) as Hn.
  { intros text t x Hr. by apply runs_then in Hr as (? & ? & [[|] |] & _ & _ & [_ [=]]). }
  destruct args as [| a [| flag [| place [| ? ?]]]]; cbn [arguments] in *; try apply before_ret.
  - apply Hp, Hn.
  - repeat case_match; [| | apply before_ret]; apply Hp, Hn.
Qed.

Lemma config_catalog_valid config catalog :
  config_catalog zip_open fingerprint_text definition_size support config = Some (Ok catalog) -> valid_config config catalog.
Proof.
  unfold config_catalog. intros Hc. destruct (Builtins.catalog definition_size (c_actions config)) as [built |] eqn:Eb; [| done].
  cbn in Hc. injection Hc as Hc. apply rbind_ok in Hc as (built' & Hb & Hc).
  apply rbind_ok in Hc as ([] & Hp & Hc). apply rbind_ok in Hc as ([] & Hl & Hc). apply rbind_ok in Hc as ([] & Ha & Hc).
  apply rbind_ok in Hc as ([] & Ht & Hc). apply rbind_ok in Hc as ([] & Hpr & [= ->]).
  apply map_err_ok in Hb, Hp, Hl, Ha, Ht. subst built. constructor; try done. intros p Ep. rewrite Ep in Hpr. by apply map_err_ok in Hpr.
Qed.
(** ** The parts of serving *)
Lemma load_before source : before (load_config source) (fun _ c => match c with ReadConfig _ | ReadVariable _ => True | _ => False end).
Proof.
  apply before_seq; [| intros; apply before_ret]. destruct source; apply before_translate; intros c.
  all: eapply before_mono; [apply before_one |]; by intros t d [_ ->].
Qed.

Lemma backend_before config :
  before (make_backend config) (fun t c => t = [] /\ c_target config = OpenwrtLocal /\ c = Target VerifyOpenwrtLocal).
Proof.
  apply before_seq; [| intros; apply before_ret]. unfold target_backend. cbn [try_bind pbind].
  destruct (target_validate _ _ _) as [[] | e]; [| apply before_ret]. destruct (c_target config); try apply before_ret.
  cbn. apply before_call; [done |]. intros [[] |]; apply before_ret.
Qed.

Lemma backend_selected config t backend : runs (make_backend config) t (done_with backend) -> selected (c_target config) t backend.
Proof.
  intros Hr. apply runs_then in Hr as (t1 & t2 & b & -> & Hb & [-> [= Hr]]). symmetry in Hr. apply map_err_ok in Hr as ->. rewrite app_nil_r.
  unfold target_backend in Hb. cbn [try_bind pbind] in Hb. destruct (target_validate _ _ _) as [[] | e] eqn:Ev; [| by destruct Hb as [_ [=]]].
  destruct (c_target config) as [| | options identity sources limits]; cbn [selected].
  - by destruct Hb as [_ [= ->]].
  - cbn in Hb. destruct Hb as [[_ [=]] | (x & t' & -> & Hb)]. destruct x as [[] |]; cbn in Hb; destruct Hb as [-> [= ->]].
    split; [done | by left].
  - destruct Hb as [-> [= Hb]]. symmetry in Hb. apply rbind_ok in Hb as (source & Hs & Hb). apply rbind_ok in Hb as (o & Ho & [= <-]).
    apply rbind_ok in Ho as ([] & Ho & [= <-]). apply map_err_ok in Hs. apply rbind_ok in Hs as (registry & Hg & Hs).
    by exists source, registry.
Qed.

Lemma audit_before config : before (make_audit config) (fun _ c => match c with Auditing _ => True | _ => False end).
Proof.
  apply before_seq; [| intros; apply before_ret]. apply before_translate. intros c. eapply before_mono; [apply before_one |]. by intros t d [_ ->].
Qed.
Lemma audit_configured config t audit : runs (make_audit config) t (done_with audit) -> Trail.config audit = c_audit config.
Proof.
  intros Hr. apply runs_then in Hr as (t1 & t2 & r & -> & Hw & [-> [= Hr]]). symmetry in Hr. apply map_err_ok in Hr as ->.
  apply runs_translate in Hw as (t' & Hw). unfold AuditWriter_new in Hw. cbn [try_bind pbind] in Hw.
  destruct (audit_config_validate _ _) as [[] | e]; [| by destruct Hw as [_ [=]]].
  apply runs_then in Hw as (? & ? & [destination | e] & _ & _ & Hw); by destruct Hw as [_ [= ->]].
Qed.

Lemma log_before l event_level code : before (log_event l event_level code) (fun _ c => match c with LogClock | LogWrite _ => True | _ => False end).
Proof.
  unfold log_event. destruct (_ || _); [apply before_ret |]. apply before_call; [done |]. intros n.
  destruct (log_line _ _ _ _) as [line |]; [| apply before_ret]. apply before_call; [done |]. intros x. apply before_ret.
Qed.
Lemma log_announced l t u : runs (log_event l LInfo "server_starting") t (done_with u) -> announced l t.
Proof.
  unfold log_event, announced. cbn [level_rank]. destruct (3 =? 0) eqn:E3; [done |]. cbn [orb]. destruct (Z.ltb_spec (level_rank (level l)) 3) as [Hl | Hl]; [by left |].
  intros (n & t' & -> & Hr)%runs_one. right. destruct (log_line l LInfo "server_starting" n) as [line |] eqn:El; [| by destruct Hr as [_ [=]]].
  apply runs_one in Hr as (x & t'' & -> & [-> [= Hr]]). destruct x as [[[[] |] |] |]; try discriminate Hr.
  exists n, line. split; [done |]. right. by left.
Qed.

Lemma make_dispatcher_ok config catalog d : make_dispatcher config catalog = Ok d ->
  d = {| d_catalog := catalog; d_policy := c_policy config; d_limits := c_limits config; d_tokens := true |}.
Proof.
  intros (d' & Hd%map_err_ok & [= <-])%rbind_ok. apply rbind_ok in Hd as ([] & _ & Hd). by apply rbind_ok in Hd as ([] & _ & [= <-]).
Qed.

Lemma selected_app target t1 t2 backend : selected target t1 backend -> selected target (t1 ++ t2) backend.
Proof. destruct target; cbn [selected]; [done | | done]. intros [-> He]. split; [done |]. apply elem_of_app. by left. Qed.
Lemma announced_app l t1 t2 : announced l t2 -> announced l (t1 ++ t2).
Proof.
  intros [Hl | (n & line & Hl & He)]; [by left | right]. exists n, line. split; [done |]. apply elem_of_app. by right.
Qed.

Lemma no_serve {A} (p : server A) (P : ServerCall -> Prop) t r : before p (fun _ => P) -> (forall c, P c -> ~ is_serve c) -> runs p t r -> Forall (fun e => ~ is_serve (ev_call e)) t.
Proof. intros Hp Hs Hr. eapply Forall_impl; [by apply (before_all p P t r Hp Hr) |]. intros e. apply Hs. Qed.

(** ** Serving *)
Lemma serve_before source loading config catalog :
  runs (arguments args) [] (done_with (Some (RunServer, source))) -> runs (load_config source) loading (done_with config) ->
  config_catalog zip_open fingerprint_text definition_size support config = Some (Ok catalog) ->
  before (serve euid support zip_open fingerprint_text config catalog) (fun t c => entitled (loading ++ t) c).
Proof.
  intros Ha Hl Hc. apply config_catalog_valid in Hc.
  assert (forall rest, configured RunServer (loading ++ rest) rest config catalog) as Hk.
  { intros rest. exists source; [done | by exists loading | done]. }
  assert (forall t c, match c with LogClock | LogWrite _ => True | _ => False end -> entitled (loading ++ t) c) as Hlog.
  { intros t [] Hc'; try done; by exists config, catalog, t. }
  assert (Forall (fun e => ~ is_serve (ev_call e)) loading) as Nl by (eapply no_serve; [apply load_before | intros [] Hs Hv; done | exact Hl]).
  apply before_timed.
  { eapply before_mono; [apply backend_before |]. intros t c (-> & Ht & ->). exists config, catalog. split; [apply Hk | done]. }
  intros tb backend Hb.
  assert (Forall (fun e => ~ is_serve (ev_call e)) tb) as Nb.
  { eapply (no_serve _ (fun c => c = Target VerifyOpenwrtLocal)); [| by intros c -> [] | exact Hb]. eapply before_weaken; [apply backend_before |]. by intros t c (_ & _ & ->). }
  pose proof (backend_selected _ _ _ Hb) as Hsel. apply before_timed.
  { eapply before_mono; [apply before_always, audit_before |]. intros t [] [Hs Hr]; try done. exists config, catalog, (tb ++ t). split; [apply Hk |].
    by exists tb, t, backend. }
  intros ta audit Hau. assert (Forall (fun e => ~ is_serve (ev_call e)) ta) as Na by (eapply no_serve; [apply audit_before | intros [] Hs Hv; done | exact Hau]).
  apply audit_configured in Hau. apply before_timed; [apply before_ret |]. intros t0 d [-> [= Hd]]. symmetry in Hd. apply make_dispatcher_ok in Hd.
  apply before_timed; [eapply before_mono; [apply log_before |]; intros t c; apply Hlog |].
  intros tl u Hlg. assert (Forall (fun e => ~ is_serve (ev_call e)) tl) as Ng by (eapply no_serve; [apply log_before | intros [] Hs Hv; done | exact Hlg]).
  apply log_announced in Hlg. apply before_timed.
  - apply before_call; [| intros x; apply before_ret]. exists config, catalog, (tb ++ ta ++ [] ++ tl ++ []). split; [apply Hk |]. split; [exact Hd |].
    rewrite !app_nil_r, app_nil_l. split; [by apply selected_app |]. split; [exact Hau |]. split; [by rewrite app_assoc; apply announced_app |].
    rewrite !Forall_app. done.
  - intros ts v _. eapply before_mono; [apply log_before |]. intros t c. apply Hlog.
Qed.

(** ** The commands *)
Lemma run_before : before (run euid support zip_open fingerprint_text toml_from_str definition_size from_str args) entitled.
Proof.
  apply before_timed.
  { eapply before_mono; [apply arguments_before |]. intros t c ([text ->] & -> & Hn). by left. }
  intros ta [[command source] |] Ha; [| apply before_ret]. pose proof (arguments_silent _ _ Ha) as ->.
  apply before_timed.
  { eapply before_mono; [apply before_always, load_before |]. intros t [] [Hs Hr]; try done; by exists command, source. }
  intros tl config Hl. apply before_timed; [apply before_ret |]. intros t0 catalog [-> Hc]. apply (inj Some) in Hc. symmetry in Hc.
  destruct command; [| | exact (serve_before source tl config catalog Ha Hl Hc)].
  all: eapply before_mono; [apply print_before |]; intros t c [-> ->]; right; cbn [app]; rewrite app_nil_r; apply config_catalog_valid in Hc.
  - left. exists config, catalog. split; [| done]. exists source; [done | | done]. exists tl. by rewrite app_nil_r.
  - right. exists config, catalog. split; [| done]. exists source; [done | | done]. exists tl. by rewrite app_nil_r.
Qed.
End order.

(** C37: nothing happens before the configuration is valid, and only what its command may do.  Up to any point where
    the program stops, every call it made was entitled: it reads the one configuration that the arguments name; [check]
    and [catalog] then only print their report of a valid configuration, and contact neither the target nor the audit
    destination; [serve] looks for the marker of a local target only when that target is selected, opens the audit
    destination after the backend, and hands over to the server once, with the validated catalog, policy and limits, the
    configured audit writer and the selected backend with no fallback, after its start was logged. *)
Theorem startup_ordered euid support zip_open fingerprint_text toml_from_str definition_size from_str args t r t1 e t2 :
  runs (run euid support zip_open fingerprint_text toml_from_str definition_size from_str args) t r -> t = t1 ++ e :: t2 ->
  entitled euid support zip_open fingerprint_text toml_from_str definition_size from_str args t1 (ev_call e).
Proof. intros Hr Ht. by eapply run_before. Qed.

(** ** A server on the device itself *)
Definition demo_config : Config :=
  {| c_policy := {| categories := ∅; allow_operations := None; deny_operations := ∅ |};
     c_limits := Limits_default; c_audit := AuditConfig_default; c_logging := Logging_default; c_actions := []; c_protection := None;
     c_target := OpenwrtLocal |}.
Definition demo_args : list (list Z) := str_bytes <$> ["serve"; "--config-env"; "OPENWRT_MCP_CONFIG"]%string.
Definition demo_answer (n : nat) (c : ServerCall) : option (ServerAnswer c) :=
  match c with
  | ReadVariable (VarOs v) => Some (if is_arg v "OPENWRT_MCP_CONFIG" then Some (str_bytes "target.kind = 'openwrt_local'") else None)
  | Target VerifyOpenwrtLocal => Some (Some tt)
  | LogClock => Some 1700000000000
  | LogWrite _ => Some (Some (Some (Some tt)))
  | Serve _ _ _ => Some (Ok tt)
  | _ => None
  end.
Definition demo_toml (text : string) : option Config := if starts_with "target" text then Some demo_config else None.
Definition demo_run (args : list (list Z)) :=
  follow demo_answer 0 (run 0 linux_support (fun _ => None) (fun _ => None) demo_toml wire_size (fun _ => None) args).
Definition demo_serves (e : event ServerAnswer) : bool := match ev_call e with Serve _ LocalBackend _ => true | _ => false end.

Lemma demo_serves_fifth : match fst (demo_run demo_args) !! 4%nat with Some e => demo_serves e | None => false end = true.
Proof. vm_compute. reflexivity. Qed.

Lemma startup_ordered_witness :
  exists e, fst (demo_run demo_args) !! 4%nat = Some e /\ demo_serves e = true
    /\ entitled 0 linux_support (fun _ => None) (fun _ => None) demo_toml wire_size (fun _ => None) demo_args (take 4 (fst (demo_run demo_args))) (ev_call e).
Proof.
  pose proof demo_serves_fifth as Hs. destruct (fst (demo_run demo_args) !! 4%nat) as [e |] eqn:He; [| discriminate Hs].
  exists e. split; [reflexivity |]. split; [exact Hs |].
  exact (startup_ordered 0 linux_support (fun _ => None) (fun _ => None) demo_toml wire_size (fun _ => None) demo_args (fst (demo_run demo_args))
    (snd (demo_run demo_args)) (take 4 (fst (demo_run demo_args))) e (drop 5 (fst (demo_run demo_args))) (follow_runs demo_answer 0 _)
    (eq_sym (take_drop_middle _ _ _ He))).
Defined.
