(* ===== verification/Windows.v ===== *)
(** * Protected files and logs on Windows

    [crates/host-platform/src/windows/native.rs], [log.rs] and [windows.rs]: a
    path is walked one component at a time through handles that are not
    traversed through reparse points, and every handle is inspected; a private
    log holds its directories open and rotates by renaming handles.  The calls
    are the operating system's, with the rights, sharing and options that the
    code asks for; their constants are constructors.  A name is the text that
    its wide buffer encodes, what the system answers is wide.  Handles that
    end with their scope are not calls; those that are dropped on purpose are. *)
From S2P Require Import Prelude Text Archive Program Ciphertext Policy.
Open Scope Z_scope.

(** ** The operating system *)
Notation Handle := nat.

Inductive Right := ReadControl | ReadAttributes | Synchronize | TraverseDirectory | ReadData | AppendData | DeleteObject.
Inductive Share := ShareRead | ShareWrite.
Inductive Disposition := OpenExisting | OpenOrCreate | CreateNew.
Inductive CreateOption := OpenReparsePoint | SynchronousIo | DirectoryFile | NonDirectoryFile.
Inductive FileAttribute := ReparsePoint | Offline | RecallOnOpen | RecallOnDataAccess | OtherAttribute.
#[export] Instance FileAttribute_eq_dec : EqDecision FileAttribute.
Proof. solve_decision. Defined.
Inductive PathKind := VolumeGuid | VolumeNt.

Record CreateFile : Type := {
  cf_root : option Handle; cf_name : list Z; cf_access : list Right; cf_descriptor : option (list Z); cf_share : list Share;
  cf_disposition : Disposition; cf_options : list CreateOption
}.
(** A status, with the raw handle: [None] is null or invalid. *)
Inductive NtStatus : Type := NtSuccess (raw : option Handle) | NtNameNotFound | NtFailure.

Record StandardInfo : Type := { si_directory : bool; si_delete_pending : bool; si_links : Z; si_end_of_file : Z }.
(** [TOKEN_USER] in a buffer: how much was needed, where the SID is relative
    to the buffer, and the buffer. *)
Record TokenUser : Type := { tu_needed : Z; tu_sid : Z; tu_buffer : list Z }.

Inductive WinCall : Type :=
| NtCreateFile (file : CreateFile)
| CloseHandle (h : Handle)
| OpenThreadToken | LastErrorIsNoToken | OpenProcessToken | GetTokenInformation (h : Handle) (size : Z)
| GetKernelObjectSecurity (h : Handle) (size : Z)
| GetFinalPathName (h : Handle) (size : Z) (kind : PathKind)
| QueryDosDevice (name : list Z) (size : Z)
| GetVolumeInformation (h : Handle) (size : Z)
| FileTypeIsDisk (h : Handle) | GetAttributeTag (h : Handle) | GetStandardInfo (h : Handle)
| ReadToEnd (h : Handle) (limit : Z) | WriteAllTo (h : Handle) (bytes : list Z)
(* never replacing an existing name *)
| RenameTo (h root : Handle) (name : list Z)
| DeleteOnClose (h : Handle).

Definition WinAnswer (c : WinCall) : Type :=
  match c with
  | NtCreateFile _ => NtStatus
  | CloseHandle _ => unit
  | OpenThreadToken | OpenProcessToken => option (option Handle)
  | LastErrorIsNoToken | FileTypeIsDisk _ => bool
  | GetTokenInformation _ _ => option TokenUser
  | GetKernelObjectSecurity _ _ => option (Z * list Z)
  (* the number of units, and the buffer *)
  | GetFinalPathName _ _ _ | QueryDosDevice _ _ => Z * list Z
  | GetVolumeInformation _ _ => option (Z * list Z)
  | GetAttributeTag _ => option (list FileAttribute * Z)
  | GetStandardInfo _ => option StandardInfo
  | ReadToEnd _ _ => option (list Z)
  | WriteAllTo _ _ | RenameTo _ _ _ | DeleteOnClose _ => option unit
  end.
Notation windows := (prog WinAnswer).
Notation win_call := (Program.call (Answer := WinAnswer)).

(** ** Wide strings *)
Definition char_utf8 (c : Z) : list Z :=
  if c <? 128 then [c]
  else if c <? 2048 then [192 + c / 64; 128 + c mod 64]
  else if c <? 65536 then [224 + c / 4096; 128 + c / 64 mod 64; 128 + c mod 64]
  else [240 + c / 262144; 128 + c / 4096 mod 64; 128 + c / 64 mod 64; 128 + c mod 64].

(** [String::from_utf16] *)
Fixpoint from_utf16 (units : list Z) : option (list Z) :=
  match units with
  | [] => Some []
  | u :: rest =>
      if in_range 55296 56319 u then
        match rest with
        | v :: rest =>
            if in_range 56320 57343 v then text ← from_utf16 rest; Some (char_utf8 (65536 + (u - 55296) * 1024 + (v - 56320)) ++ text)
            else None
        | [] => None
        end
      else if in_range 56320 57343 u then None
      else text ← from_utf16 rest; Some (char_utf8 u ++ text)
  end.

(** ** Opening and inspecting *)
Definition owned (raw : option Handle) : result HostError Handle := ok_or raw HUnavailable.

Definition open (parent : option Handle) (name : list Z) (directory : bool) : windows (result HostError Handle) :=
  if 65535 <? 2 * utf16_count name then Ret (Err HInvalidPath)
  else
    do! status := win_call (NtCreateFile {|
      cf_root := parent; cf_name := name;
      cf_access := [ReadControl; ReadAttributes; Synchronize; if directory then TraverseDirectory else ReadData];
      cf_descriptor := None;
      cf_share := if directory then [ShareRead; ShareWrite] else [ShareRead];
      cf_disposition := OpenExisting;
      cf_options := [OpenReparsePoint; SynchronousIo; if directory then DirectoryFile else NonDirectoryFile] |}) in
    Ret (match status with NtSuccess raw => owned raw | NtNameNotFound | NtFailure => Err HUnavailable end).

(** [size_of::<TOKEN_USER>()] where pointers have eight bytes. *)
Definition TOKEN_USER_SIZE : Z := 16.

Definition token_user : windows (result HostError (list Z)) :=
  do! thread := win_call OpenThreadToken in
  match thread with
  | Some raw =>
      do? handle := Ret (owned raw) in
      do! _ := win_call (CloseHandle handle) in
      Ret (Err HInsecure)
  | None =>
      do! no_token := win_call LastErrorIsNoToken in
      if negb no_token then Ret (Err HInsecure)
      else
        do! process := win_call OpenProcessToken in
        match process with
        | None => Ret (Err HUnavailable)
        | Some raw =>
            do? handle := Ret (owned raw) in
            do! info := win_call (GetTokenInformation handle 4096) in
            Ret (let? info := ok_or info HUnavailable in
                 fail_if (tu_needed info <? TOKEN_USER_SIZE) || (4096 <? tu_needed info) with HUnavailable in
                 fail_if (tu_sid info <? 0) with HInsecure in
                 fail_if (tu_sid info <? TOKEN_USER_SIZE) || (tu_needed info <=? tu_sid info) with HInsecure in
                 sid (drop (Z.to_nat (tu_sid info)) (take (Z.to_nat (tu_needed info)) (tu_buffer info))))
        end
  end.

Definition security (handle : Handle) : windows (result HostError (list Z)) :=
  do! answer := win_call (GetKernelObjectSecurity handle MAX_DESCRIPTOR) in
  Ret (match answer with
       | Some (needed, buffer) => fail_if (needed <? 20) || (MAX_DESCRIPTOR <? needed) with HInsecure in Ok (take (Z.to_nat needed) buffer)
       | None => Err HInsecure
       end).

Definition named_path (handle : Handle) (kind : PathKind) : windows (result HostError (list Z)) :=
  do! answer := win_call (GetFinalPathName handle (MAX_PATH + 64) kind) in
  Ret (let '(count, wide) := answer in
       fail_if (count =? 0) || (MAX_PATH + 64 <=? count) with HUnsupported in
       ok_or (from_utf16 (take (Z.to_nat count) wide)) HInvalidPath).
Definition final_path (handle : Handle) : windows (result HostError (list Z)) := named_path handle VolumeGuid.

Fixpoint until_nul (units : list Z) : option (list Z) :=
  match units with [] => None | 0 :: _ => Some [] | u :: units => l ← until_nul units; Some (u :: l) end.

Definition is_hex_digit (b : Z) : bool := is_ascii_digit b || in_range 97 102 b || in_range 65 70 b.
(** [path.strip_prefix(..).and_then(|p| p.strip_suffix(..))] *)
Definition volume_guid (path : list Z) : option (list Z) :=
  rest ← strip_prefix_bytes (str_bytes "\\?\Volume{") path;
  reverse <$> strip_prefix_bytes (reverse (str_bytes "}\")) (reverse rest).
Definition guid_ok (guid : list Z) : bool :=
  (zlen guid =? 36)
  && forallb (fun '(i, b) => if existsb (Nat.eqb i) [8; 13; 18; 23]%nat then b =? 45 else is_hex_digit b) (imap pair guid).

Definition volume (handle : Handle) (drive : Z) : windows (result HostError (list Z)) :=
  do! mapping := win_call (QueryDosDevice [drive; 58; 0] 1024) in
  let '(count, mapping) := mapping in
  do? current := Ret (fail_if (count =? 0) || (1024 <? count) with HUnsupported in
                      let? current := ok_or (until_nul (take (Z.to_nat count) mapping)) HUnsupported in
                      let? current := ok_or (from_utf16 current) HUnsupported in
                      let? _ := volume_mapping current in Ok current) in
  do? observed := named_path handle VolumeNt in
  do? _ := Ret (same_path (current ++ str_bytes "\") observed) in
  do! information := win_call (GetVolumeInformation handle 32) in
  do? _ := Ret (match information with
                | Some (flags, filesystem) =>
                    fail_if negb (bool_decide (take 5 filesystem = [78; 84; 70; 83; 0])) || (Z.land flags 8 =? 0) with HUnsupported in Ok tt
                | None => Err HUnsupported
                end) in
  do? path := final_path handle in
  Ret (let? guid := ok_or (volume_guid path) HUnsupported in
       fail_if negb (guid_ok guid) with HUnsupported in Ok path).

Definition placeholder (a : FileAttribute) : bool := bool_decide (a ∈ [ReparsePoint; Offline; RecallOnOpen; RecallOnDataAccess]).

(** What is checked of a handle; the answer is the length of a file. *)
Definition inspect (handle : Handle) (user : list Z) (directory root secret : bool) (max : Z) : windows (result HostError Z) :=
  do! disk := win_call (FileTypeIsDisk handle) in
  if negb disk then Ret (Err HInsecure)
  else
    do! attributes := win_call (GetAttributeTag handle) in
    do? attributes := Ret (ok_or attributes HInsecure) in
    do! standard := win_call (GetStandardInfo handle) in
    do? standard := Ret (ok_or standard HInsecure) in
    do? _ := Ret (fail_if existsb placeholder (fst attributes) || negb (snd attributes =? 0)
                       || negb (Bool.eqb (si_directory standard) directory) || si_delete_pending standard
                       || negb directory && negb (si_links standard =? 1) with HInsecure in Ok tt) in
    do? bytes := security handle in
    Ret (let? _ := descriptor user directory root secret bytes in
         fail_if negb directory && ((si_end_of_file standard <? 0) || (max <? si_end_of_file standard)) with HLimit in
         Ok (if directory then 0 else si_end_of_file standard)).

(** [Path::to_str] *)
Definition to_str (path : list Z) : result HostError (list Z) := fail_if negb (valid_utf8 path) with HInvalidPath in Ok path.
Definition dos_root (drive : Z) : list Z := str_bytes "\??\" ++ [drive] ++ str_bytes ":\".

(** ** Reading *)
Section read.
Context (user : list Z) (max_bytes : Z) (secret : bool).

(** [file.take(max_bytes + 1).read_to_end(..)] between two inspections. *)
Definition read_file (handle : Handle) (length_ : Z) : windows (result HostError (list Z)) :=
  do! bytes := win_call (ReadToEnd handle (max_bytes + 1)) in
  do? bytes := Ret (ok_or bytes HUnavailable) in
  do? after := inspect handle user false false secret max_bytes in
  Ret (fail_if max_bytes <? zlen bytes with HLimit in
       fail_if negb (zlen bytes =? length_) || negb (after =? length_) with HInsecure in
       Ok bytes).

(** The components that are left, below [parent] whose path is [expected]. *)
Fixpoint read_components (parent : Handle) (expected : list Z) (parts : list (list Z)) : windows (result HostError (list Z)) :=
  match parts with
  | [] => Ret (Err HInvalidPath)
  | part :: parts =>
      let directory := negb (Nat.eqb (length parts) 0) in
      do? handle := open (Some parent) part directory in
      do? length_ := inspect handle user directory false secret max_bytes in
      let expected := expected ++ part in
      do? observed := final_path handle in
      do? _ := Ret (same_path expected observed) in
      if directory then read_components handle (expected ++ str_bytes "\") parts else read_file handle length_
  end.
End read.

Definition native_read (path : list Z) (max_bytes : Z) (secret : bool) : windows (result HostError (list Z)) :=
  do? parsed := Ret (let? text := to_str path in Policy.path text) in
  do? user := token_user in
  do? root := open None (dos_root (drive parsed)) true in
  do? expected := volume root (drive parsed) in
  do? _ := inspect root user true true false 0 in
  read_components user max_bytes secret root expected (components parsed).

(** [read_config] and [read_secret] of [lib.rs] on this platform. *)
Definition windows_read_config (path : list Z) (max_bytes : Z) : windows (result HostError (list Z)) :=
  if (max_bytes =? 0) || (1024 * 1024 <? max_bytes) then Ret (Err HLimit) else native_read path max_bytes false.
Definition windows_read_secret (path : list Z) (max_bytes : Z) : windows (result HostError (list Z)) :=
  if (max_bytes =? 0) || (16 * 1024 * 1024 <? max_bytes) then Ret (Err HLimit) else native_read path max_bytes true.

(** ** Private logs *)
Definition LOG_HARD_BYTES : Z := 1073741824.

Inductive LogOpen : Type := ExistingGeneration | InitialActive | NewActive.
Definition log_disposition (mode : LogOpen) : Disposition :=
  match mode with ExistingGeneration => OpenExisting | InitialActive => OpenOrCreate | NewActive => CreateNew end.
Definition is_existing (mode : LogOpen) : bool := match mode with ExistingGeneration => true | _ => false end.

Definition log_name_ok (name : list Z) : bool := negb (utf16_count name =? 0) && (utf16_count name <=? 255).

Definition log_child (parent : Handle) (name user : list Z) (mode : LogOpen) : windows (result HostError (option Handle)) :=
  if negb (log_name_ok name) then Ret (Err HInvalidPath)
  else
    do? descriptor := Ret (if is_existing mode then Ok None else let? words := log_descriptor user in Ok (Some words)) in
    do! status := win_call (NtCreateFile {|
      cf_root := Some parent; cf_name := name;
      cf_access := [ReadControl; ReadAttributes; Synchronize; DeleteObject] ++ (if is_existing mode then [] else [AppendData]);
      cf_descriptor := descriptor; cf_share := [ShareRead]; cf_disposition := log_disposition mode;
      cf_options := [NonDirectoryFile; OpenReparsePoint; SynchronousIo] |}) in
    Ret (match status with
         | NtSuccess raw => let? handle := owned raw in Ok (Some handle)
         | NtNameNotFound => if is_existing mode then Ok None else Err HUnavailable
         | NtFailure => Err HUnavailable
         end).

Definition rename_log (handle parent : Handle) (name : list Z) : windows (result HostError unit) :=
  if negb (log_name_ok name) then Ret (Err HInvalidPath)
  else do! r := win_call (RenameTo handle parent name) in Ret (ok_or r HUnavailable).
Definition delete_log (handle : Handle) : windows (result HostError unit) :=
  do! r := win_call (DeleteOnClose handle) in Ret (ok_or r HUnavailable).

(** [NativeLog]; the last of [n_parents] is the directory of the log. *)
Record NativeLog : Type := {
  n_parents : list Handle; n_components : list (list Z); n_user : list Z; n_drive : Z; n_volume_root : list Z; n_prefix : list Z;
  n_name : list Z; n_file : Handle; n_size : Z; n_max_bytes : Z; n_retained : nat
}.
Definition set_active (file : Handle) (size : Z) (g : NativeLog) : NativeLog :=
  {| n_parents := n_parents g; n_components := n_components g; n_user := n_user g; n_drive := n_drive g; n_volume_root := n_volume_root g;
     n_prefix := n_prefix g; n_name := n_name g; n_file := file; n_size := size; n_max_bytes := n_max_bytes g; n_retained := n_retained g |}.

Definition log_parent (g : NativeLog) : result HostError Handle := ok_or (last (n_parents g)) HInsecure.

Definition check_file (g : NativeLog) (handle : Handle) (name : list Z) : windows (result HostError Z) :=
  do? length_ := inspect handle (n_user g) false false true LOG_HARD_BYTES in
  do? observed := final_path handle in
  Ret (let? _ := same_path (n_prefix g ++ name) observed in Ok length_).

(** The directories below the root, with the components that name them; the
    code indexes the components, of which there is one for each directory. *)
Fixpoint validate_parents (user expected : list Z) (parents : list Handle) (components : list (list Z)) : windows (result HostError unit) :=
  match parents, components with
  | handle :: parents, component :: components =>
      do? _ := inspect handle user true false false 0 in
      let expected := expected ++ component in
      do? observed := final_path handle in
      do? _ := Ret (same_path expected observed) in
      validate_parents user (expected ++ str_bytes "\") parents components
  | _, _ => Ret (Ok tt)
  end.

Definition validate_log (g : NativeLog) : windows (result HostError unit) :=
  do? user := token_user in
  if negb (bool_decide (user = n_user g)) then Ret (Err HInsecure)
  else
    do? root := Ret (ok_or (head (n_parents g)) HInsecure) in
    do? observed := volume root (n_drive g) in
    do? _ := Ret (same_path (n_volume_root g) observed) in
    do? _ := inspect root (n_user g) true true false 0 in
    do? _ := validate_parents (n_user g) (n_volume_root g) (tail (n_parents g)) (n_components g) in
    do? length_ := check_file g (n_file g) (n_name g) in
    Ret (fail_if negb (length_ =? n_size g) with HInsecure in Ok tt).

Definition log_generation (g : NativeLog) (index : nat) : list Z := n_name g ++ [46] ++ str_bytes (dec (Z.of_nat index)).

(** Every existing generation is held, in the order [1..=retained]. *)
Fixpoint hold_generations (g : NativeLog) (parent : Handle) (indices : list nat) : windows (result HostError (list (option Handle))) :=
  match indices with
  | [] => Ret (Ok [])
  | index :: indices =>
      do? handle := log_child parent (log_generation g index) (n_user g) ExistingGeneration in
      do? _ := (match handle with
                | Some handle => do? _ := check_file g handle (log_generation g index) in Ret (Ok tt)
                | None => Ret (Ok tt)
                end) in
      do? held := hold_generations g parent indices in Ret (Ok (handle :: held))
  end.

(** Renaming one handle, checked on both sides. *)
Definition move_log (g : NativeLog) (parent handle : Handle) (old new : list Z) : windows (result HostError unit) :=
  do? _ := check_file g handle old in
  do? _ := rename_log handle parent new in
  do? _ := check_file g handle new in
  Ret (Ok tt).

(** The renames of [(1..retained).rev()]. *)
Fixpoint shift_held (g : NativeLog) (parent : Handle) (held : list (option Handle)) (indices : list nat) : windows (result HostError unit) :=
  match indices with
  | [] => Ret (Ok tt)
  | index :: indices =>
      do? _ := (match held !! (index - 1)%nat with
                | Some (Some handle) => move_log g parent handle (log_generation g index) (log_generation g (index + 1))
                | _ => Ret (Ok tt)
                end) in
      shift_held g parent held indices
  end.

Definition rotate_log (g : NativeLog) : windows (result HostError NativeLog) :=
  do? parent := Ret (log_parent g) in
  do? held := hold_generations g parent (seq 1 (n_retained g)) in
  do? _ := validate_log g in
  do? _ := (match last held with
            | Some (Some oldest) =>
                do? _ := delete_log oldest in
                do! _ := win_call (CloseHandle oldest) in Ret (Ok tt)
            | _ => Ret (Ok tt)
            end) in
  do? _ := shift_held g parent held (reverse (seq 1 (n_retained g - 1))) in
  do? _ := rename_log (n_file g) parent (log_generation g 1) in
  do? _ := check_file g (n_file g) (log_generation g 1) in
  do? handle := log_child parent (n_name g) (n_user g) NewActive in
  do? handle := Ret (ok_or handle HUnavailable) in
  do? length_ := check_file g handle (n_name g) in
  if negb (length_ =? 0) then Ret (Err HInsecure) else Ret (Ok (set_active handle 0 g)).

Fixpoint write_parts (handle : Handle) (parts : list (list Z)) : windows (result HostError unit) :=
  match parts with
  | [] => Ret (Ok tt)
  | part :: parts => do! r := win_call (WriteAllTo handle part) in do? _ := Ret (ok_or r HUnavailable) in write_parts handle parts
  end.

Definition checked_size (size more : Z) : result HostError Z := fail_if U64_MAX <? size + more with HLimit in Ok (size + more).

(** [LogWriter::write] of [NativeLog] *)
Definition native_write (g : NativeLog) (bytes : list Z) : windows (result HostError NativeLog) :=
  if n_max_bytes g <? zlen bytes then Ret (Err HLimit)
  else
    do? _ := validate_log g in
    if bool_decide (bytes = []) then Ret (Ok g)
    else
      do? total := Ret (checked_size (n_size g) (zlen bytes)) in
      do? g := (if n_max_bytes g <? total then rotate_log g else Ret (Ok g)) in
      do? _ := write_parts (n_file g) (chunks bytes) in
      do? size := Ret (checked_size (n_size g) (zlen bytes)) in
      let g := set_active (n_file g) size g in
      do? _ := validate_log g in
      Ret (Ok g).

(** The directories of a log, each below the one before. *)
Fixpoint open_parents (user : list Z) (parent : Handle) (prefix : list Z) (parts : list (list Z)) : windows (result HostError (list Handle * list Z)) :=
  match parts with
  | [] => Ret (Ok ([], prefix))
  | part :: parts =>
      do? handle := open (Some parent) part true in
      do? _ := inspect handle user true false false 0 in
      let prefix := prefix ++ part in
      do? observed := final_path handle in
      do? _ := Ret (same_path prefix observed) in
      do? rest := open_parents user handle (prefix ++ str_bytes "\") parts in
      Ret (Ok (handle :: fst rest, snd rest))
  end.

Definition log_limits_ok (max_bytes : Z) (retained : nat) : bool :=
  negb (max_bytes =? 0) && (max_bytes <=? LOG_HARD_BYTES) && in_range 1 100 (Z.of_nat retained).
Fixpoint derived_names_ok (text : list Z) (indices : list nat) : result HostError unit :=
  match indices with
  | [] => Ok tt
  | index :: indices => let? _ := Policy.path (text ++ [46] ++ str_bytes (dec (Z.of_nat index))) in derived_names_ok text indices
  end.

Definition open_log (path : list Z) (max_bytes : Z) (retained : nat) : windows (result HostError NativeLog) :=
  if negb (log_limits_ok max_bytes retained) then Ret (Err HLimit)
  else
    do? text := Ret (to_str path) in
    do? parsed := Ret (Policy.path text) in
    do? _ := Ret (derived_names_ok text (seq 1 retained)) in
    do? name := Ret (ok_or (last (components parsed)) HInvalidPath) in
    do? user := token_user in
    do? root := open None (dos_root (drive parsed)) true in
    do? volume_root := volume root (drive parsed) in
    do? _ := inspect root user true true false 0 in
    do? parents := open_parents user root volume_root (removelast (components parsed)) in
    let '(below, prefix) := parents in
    do? parent := Ret (ok_or (last (root :: below)) HInsecure) in
    do? handle := log_child parent name user InitialActive in
    do? handle := Ret (ok_or handle HUnavailable) in
    do? size := inspect handle user false false true LOG_HARD_BYTES in
    do? observed := final_path handle in
    do? _ := Ret (same_path (prefix ++ name) observed) in
    Ret (Ok {| n_parents := root :: below; n_components := removelast (components parsed); n_user := user; n_drive := drive parsed;
               n_volume_root := volume_root; n_prefix := prefix; n_name := name; n_file := handle; n_size := size;
               n_max_bytes := max_bytes; n_retained := retained |}).

(** [PrivateLog] of [log.rs]: any failure drops the writer for good. *)
Record WindowsLog : Type := { w_writer : option NativeLog; w_max_bytes : Z }.
Definition windows_log_open (path : list Z) (max_bytes : Z) (retained : nat) : windows (result HostError WindowsLog) :=
  if negb (log_limits_ok max_bytes retained) then Ret (Err HLimit)
  else do? writer := open_log path max_bytes retained in Ret (Ok {| w_writer := Some writer; w_max_bytes := max_bytes |}).
Definition windows_log_write (g : WindowsLog) (bytes : list Z) : windows (WindowsLog * result HostError unit) :=
  match w_writer g with
  | None => Ret (g, Err HUnavailable)
  | Some writer =>
      do! r := (if w_max_bytes g <? zlen bytes then Ret (Err HLimit) else native_write writer bytes) in
      Ret (match r with
           | Ok writer => ({| w_writer := Some writer; w_max_bytes := w_max_bytes g |}, Ok tt)
           | Err e => ({| w_writer := None; w_max_bytes := w_max_bytes g |}, Err e)
           end)
  end.
