(* ===== verification/Ntfs.v ===== *)
(** * The Windows log keeps the newest records

    The private log of Windows.v, run in a directory that may fail, is the same
    abstract list of files as the Linux log (Rotation.v), whatever the system
    answers to the checks of its handles. *)
From stdpp Require Import gmap.
From S2P Require Import Prelude Text Program Ciphertext Linux Rotation Policy Windows.
Open Scope Z_scope.

(** ** The volume

    The directory of the log with its fault script, as in Linux.v; a handle is
    named by its file.  A file whose deletion was asked for goes when its
    handle is closed; a rename never replaces; every other call is a check,
    which [observe] answers in any way. *)
Record Ntfs : Type := { v_dir : Dir; v_doomed : option Handle; v_clock : nat }.

Section ntfs.
Context (observe : Ntfs -> forall c, WinAnswer c).

Definition set_dir (d : Dir) (w : Ntfs) : Ntfs := {| v_dir := d; v_doomed := v_doomed w; v_clock := v_clock w |}.
Definition set_doomed (h : option Handle) (w : Ntfs) : Ntfs := {| v_dir := v_dir w; v_doomed := h; v_clock := v_clock w |}.
Definition tick (w : Ntfs) : Ntfs := {| v_dir := v_dir w; v_doomed := v_doomed w; v_clock := S (v_clock w) |}.

Definition name_of (h : Handle) (d : Dir) : option (list Z) := fst <$> head (List.filter (fun p => Nat.eqb (snd p) h) (map_to_list (d_entries d))).
Definition remove (h : Handle) (d : Dir) : Dir :=
  match name_of h d with Some name => set_entries (delete name (d_entries d)) d | None => d end.

Definition created_file (file : CreateFile) (d : Dir) : NtStatus * Dir :=
  match d_entries d !! cf_name file, cf_disposition file with
  | Some h, (OpenExisting | OpenOrCreate) => (NtSuccess (Some h), d)
  | None, OpenExisting => (NtNameNotFound, d)
  | Some _, CreateNew => (NtFailure, d)
  | None, _ => let '(h, d) := created (cf_name file) d in (NtSuccess (Some h), d)
  end.
Definition renamed_to (h : Handle) (new : list Z) (d : Dir) : option unit * Dir :=
  match name_of h d, d_entries d !! new with Some old, None => (Some tt, renamed old new d) | _, _ => (None, d) end.

Definition is_check (c : WinCall) : bool :=
  match c with NtCreateFile _ | CloseHandle _ | WriteAllTo _ _ | RenameTo _ _ _ | DeleteOnClose _ => false | _ => true end.

Definition ntfs (c : WinCall) (w : Ntfs) : WinAnswer c * Ntfs :=
  let '(f, d) := draw (v_dir w) in
  match c return WinAnswer c * Ntfs with
  | NtCreateFile file =>
      match f with Some _ => (NtFailure, set_dir d w) | None => let '(r, d) := created_file file d in (r, set_dir d w) end
  | RenameTo h _ new => match f with Some _ => (None, set_dir d w) | None => let '(r, d) := renamed_to h new d in (r, set_dir d w) end
  | WriteAllTo h bytes =>
      match f with Some k => (None, set_dir (appended h (take k bytes) d) w) | None => (Some tt, set_dir (appended h bytes d) w) end
  | DeleteOnClose h => match f with Some _ => (None, set_dir d w) | None => (Some tt, set_doomed (Some h) (set_dir d w)) end
  | CloseHandle h =>
      (tt, if bool_decide (v_doomed w = Some h) then set_doomed None (set_dir (remove h (v_dir w)) w) else w)
  | c => (observe w c, tick w)
  end.
Notation holds := (holds ntfs).

(** ** Checks change nothing *)
Fixpoint checks {A} (p : windows A) : Prop :=
  match p with Ret _ => True | Vis c k => (is_check c = true \/ exists h, c = CloseHandle h) /\ forall x, checks (k x) end.

Lemma checks_bind {A B} (p : windows A) (f : A -> windows B) : checks p -> (forall a, checks (f a)) -> checks (pbind p f).
Proof. induction p as [a | c k IH]; intros Hp Hf; cbn [pbind checks] in *; [apply Hf |]. destruct Hp as [Hc Hk]. split; [done |]. intros x. by apply IH. Qed.
Lemma checks_try {A B} (p : windows (result HostError A)) (f : A -> windows (result HostError B)) :
  checks p -> (forall a, checks (f a)) -> checks (try_bind p f).
Proof. intros Hp Hf. apply checks_bind; [done |]. by intros [a | e]. Qed.
Lemma checks_call c : is_check c = true -> checks (win_call c).
Proof. intros Hc. split; [by left |]. by intros x. Qed.
Lemma checks_ret {A} (a : A) : checks (Ret a).
Proof. done. Qed.

Lemma security_checks h : checks (security h).
Proof. apply checks_bind; [by apply checks_call | done]. Qed.
Lemma named_path_checks h kind : checks (named_path h kind).
Proof. apply checks_bind; [by apply checks_call | done]. Qed.
Lemma inspect_checks h user directory root secret max : checks (inspect h user directory root secret max).
Proof.
  apply checks_bind; [by apply checks_call |]. intros [|]; cbn [negb]; [| done]. apply checks_bind; [by apply checks_call |]. intros attributes.
  apply checks_try; [done |]. intros a. apply checks_bind; [by apply checks_call |]. intros standard. apply checks_try; [done |]. intros s.
  apply checks_try; [done |]. intros _. apply checks_try; [apply security_checks | done].
Qed.
Lemma check_file_checks g h name : checks (check_file g h name).
Proof. apply checks_try; [apply inspect_checks |]. intros n. by apply checks_try; [apply named_path_checks |]. Qed.
Lemma token_user_checks : checks token_user.
Proof.
  apply checks_bind; [by apply checks_call |]. intros [raw |].
  - apply checks_try; [done |]. intros h. apply checks_bind; [| done]. split; [right; by exists h | done].
  - apply checks_bind; [by apply checks_call |]. intros [|]; cbn [negb]; [| done]. apply checks_bind; [by apply checks_call |].
    intros [raw |]; [| done]. apply checks_try; [done |]. intros h. by apply checks_bind; [apply checks_call |].
Qed.
Lemma volume_checks h drive : checks (volume h drive).
Proof.
  apply checks_bind; [by apply checks_call |]. intros [count mapping]. apply checks_try; [done |]. intros current.
  apply checks_try; [apply named_path_checks |]. intros observed. apply checks_try; [done |]. intros _.
  apply checks_bind; [by apply checks_call |]. intros information. apply checks_try; [by destruct information as [[? ?] |] |]. intros _.
  by apply checks_try; [apply named_path_checks |].
Qed.
Lemma validate_parents_checks user expected parents components : checks (validate_parents user expected parents components).
Proof.
  revert expected components. induction parents as [| h parents IH]; intros expected [| component components]; cbn [validate_parents]; try done.
  apply checks_try; [apply inspect_checks |]. intros _. apply checks_try; [apply named_path_checks |]. intros observed.
  apply checks_try; [done |]. intros _. apply IH.
Qed.
Lemma validate_log_checks g : checks (validate_log g).
Proof.
  apply checks_try; [apply token_user_checks |]. intros user. destruct (negb _); [done |]. apply checks_try; [done |]. intros root.
  apply checks_try; [apply volume_checks |]. intros observed. apply checks_try; [done |]. intros _. apply checks_try; [apply inspect_checks |]. intros _.
  apply checks_try; [apply validate_parents_checks |]. intros _. by apply checks_try; [apply check_file_checks |].
Qed.

(** Nothing is about to be deleted. *)
Definition same (w w' : Ntfs) : Prop := v_dir w' = v_dir w /\ v_doomed w' = None.

Lemma checks_hold {A} (p : windows A) w (Q : A -> Ntfs -> Prop) :
  checks p -> v_doomed w = None -> (forall a w', same w w' -> Q a w') -> holds p w Q.
Proof.
  revert w. induction p as [a | c k IH]; intros w Hp Hd HQ; [by apply HQ |]. destruct Hp as [Hc Hk].
  unfold Program.holds. cbn [interp]. destruct (ntfs c w) as [x w'] eqn:E.
  assert (Hw : same w w').
  { destruct Hc as [Hc | [h ->]].
    - unfold ntfs in E. destruct (draw (v_dir w)). destruct c; try discriminate Hc; by injection E as _ <-.
    - unfold ntfs in E. destruct (draw (v_dir w)). rewrite Hd in E. by injection E as _ <-. }
  apply (IH x w' (Hk x)); [apply Hw |]. intros a w2 [H1 H2]. apply HQ. split; [| done]. rewrite H1. apply Hw.
Qed.

(** ** The files of one log *)
Context (name : list Z) (retained : nat) (Hretained : (1 <= retained <= 100)%nat).
Notation shows := (shows name retained).
Notation file := (file name).
Notation forgets := (forgets retained).

(** The same files, some faults later. *)
Definition later (w w' : Ntfs) : Prop := like (v_dir w) (v_dir w') /\ v_doomed w' = None.
Lemma same_later w w' : same w w' -> later w w'.
Proof. intros [E D]. split; [rewrite E; apply like_refl | done]. Qed.
Lemma later_refl w : v_doomed w = None -> later w w.
Proof. split; [apply like_refl | done]. Qed.
Lemma later_trans w1 w2 w3 : later w1 w2 -> later w2 w3 -> later w1 w3.
Proof. intros [H1 _] [H2 D]. split; [by eapply like_trans | done]. Qed.
Lemma later_shows w w' files : later w w' -> shows (v_dir w) files -> shows (v_dir w') files.
Proof. intros [H _]. by apply shows_like. Qed.
Lemma later_draw w d : v_doomed w = None -> like (v_dir w) d -> later w (set_dir d w).
Proof. by split. Qed.
Lemma later_entries w w' a : later w w' -> d_entries (v_dir w') !! a = d_entries (v_dir w) !! a.
Proof. intros [(E & _) _]. by rewrite E. Qed.

Lemma check_holds {A} (p : windows A) w (Q : A -> Ntfs -> Prop) :
  checks p -> v_doomed w = None -> (forall a w', later w w' -> Q a w') -> holds p w Q.
Proof. intros Hp Hd HQ. apply checks_hold; [done | done |]. intros a w' Hs. by apply HQ, same_later. Qed.
(** A check in front: it fails, or the rest goes on from the same files. *)
Lemma check_first {A B} (p : windows (result HostError A)) (f : A -> windows (result HostError B)) w (Q : result HostError B -> Ntfs -> Prop) :
  checks p -> v_doomed w = None -> (forall w' e, later w w' -> Q (Err e) w') -> (forall w' a, later w w' -> holds (f a) w' Q) ->
  holds (try_bind p f) w Q.
Proof. intros Hp Hd He Hf. apply holds_try, check_holds; [done | done |]. intros [a | e] w' Hl; [by apply Hf | by apply He]. Qed.

Lemma call_ntfs c w (Q : WinAnswer c -> Ntfs -> Prop) : Q (fst (ntfs c w)) (snd (ntfs c w)) -> holds (win_call c) w Q.
Proof. unfold Program.holds. cbn [interp Program.call]. by destruct (ntfs c w). Qed.

Lemma name_of_spec h d a : sound d -> d_entries d !! a = Some h -> name_of h d = Some a.
Proof.
  intros Hs Ha. unfold name_of. destruct (List.filter _ (map_to_list (d_entries d))) as [| [b h'] l] eqn:E.
  - assert (Hin : In (a, h) (List.filter (fun p => Nat.eqb (snd p) h) (map_to_list (d_entries d)))).
    { apply filter_In. cbn [snd]. rewrite Nat.eqb_refl. split; [| done]. by apply list_elem_of_In, elem_of_map_to_list. }
    by rewrite E in Hin.
  - assert (Hin : In (b, h') (List.filter (fun p => Nat.eqb (snd p) h) (map_to_list (d_entries d)))) by (rewrite E; by left).
    apply filter_In in Hin as [Hin Hh%Nat.eqb_eq]. cbn [snd] in Hh. subst h'. apply list_elem_of_In, elem_of_map_to_list in Hin.
    cbn. f_equal. by apply (sound_inj d Hs b a h).
Qed.

(** ** Holding the generations *)
Lemma existing_holds g i w (Q : result HostError (option Handle) -> Ntfs -> Prop) parent :
  v_doomed w = None -> (forall w' e, later w w' -> Q (Err e) w') ->
  (forall w', later w w' -> Q (Ok (d_entries (v_dir w) !! file i)) w') ->
  holds (log_child parent (file i) (n_user g) ExistingGeneration) w Q.
Proof.
  intros Hd He Hk. unfold log_child. destruct (negb _); [by apply holds_ret, He, later_refl |]. cbn [is_existing try_bind pbind].
  apply holds_bind, (call_ntfs (NtCreateFile _)). pose proof (draw_like (v_dir w)) as Hl. unfold ntfs. destruct (draw (v_dir w)) as [f d].
  cbn [snd] in Hl. pose proof Hl as (HE & _). pose proof (later_draw w d Hd Hl) as Hlat.
  destruct f; cbn [fst snd]; [by apply holds_ret, He |]. unfold created_file. cbn [cf_name cf_disposition log_disposition]. rewrite HE.
  specialize (Hk _ Hlat). destruct (d_entries (v_dir w) !! file i) as [h |]; cbn [fst snd]; by apply holds_ret.
Qed.

(** What [hold_generations] holds. *)
Lemma hold_generations_holds g parent ks w (Q : result HostError (list (option Handle)) -> Ntfs -> Prop) :
  n_name g = name -> (forall i, i ∈ ks -> (1 <= i)%nat) -> v_doomed w = None ->
  (forall w' e, later w w' -> Q (Err e) w') ->
  (forall w', later w w' -> Q (Ok ((fun i => d_entries (v_dir w) !! file i) <$> ks)) w') ->
  holds (hold_generations g parent ks) w Q.
Proof.
  intros Hn Hks Hd He Hk. revert w Q Hd He Hk. induction ks as [| i ks IH]; intros w Q Hd He Hk; cbn [hold_generations].
  { by apply holds_ret, Hk, later_refl. }
  pose proof (Hks i ltac:(by left)) as Hi. unfold log_generation. rewrite Hn. change (name ++ [46] ++ str_bytes (dec (Z.of_nat i))) with (generation name i).
  replace (generation name i) with (file i) by (destruct i; [lia | done]).
  apply holds_try, existing_holds; [done | by apply He |]. intros w1 Hl1.
  assert (Hrest : forall w2, later w w2 -> holds (do? held := hold_generations g parent ks in Ret (Ok ((d_entries (v_dir w) !! file i) :: held))) w2 Q).
  { intros w2 Hl2. apply holds_try, IH; [intros j Hj; apply Hks; by right | apply Hl2 | |].
    - intros w3 e Hl3. eapply He, later_trans; done.
    - intros w3 Hl3. apply holds_ret. assert (Heq : (fun i => d_entries (v_dir w2) !! file i) <$> ks = (fun i => d_entries (v_dir w) !! file i) <$> ks).
      { apply list_fmap_ext. intros _ j _. by apply later_entries. }
      rewrite Heq. apply Hk. by eapply later_trans. }
  destruct (d_entries (v_dir w) !! file i) as [h |].
  - apply check_first; [| apply Hl1 | |].
    + apply checks_try; [apply check_file_checks | done].
    + intros w2 e Hl2. eapply He, later_trans; done.
    + intros w2 [] Hl2. apply Hrest. by eapply later_trans.
  - apply holds_try, holds_ret. by apply Hrest.
Qed.

(** ** The steps of a rotation *)
Lemma entry_of i w files data : shows (v_dir w) files -> (i <= retained)%nat -> files i = Some data -> exists h, d_entries (v_dir w) !! file i = Some h.
Proof. intros [_ Hc] Hi Hf. rewrite <- Hc in Hf by done. apply content_sound in Hf as (h & Hh & _). by exists h. Qed.
Lemma entry_none i w files : shows (v_dir w) files -> (i <= retained)%nat -> d_entries (v_dir w) !! file i = None <-> files i = None.
Proof. intros [Hs Hc] Hi. rewrite <- Hc by done. symmetry. by apply content_entry. Qed.
Lemma entry_some i h w files : shows (v_dir w) files -> (i <= retained)%nat -> d_entries (v_dir w) !! file i = Some h -> is_Some (files i).
Proof. intros Hw Hi He. destruct (files i) as [data |] eqn:Hf; [by eexists |]. pose proof (proj2 (entry_none i w files Hw Hi) Hf) as Hn. by rewrite He in Hn. Qed.

(** Only the named files have changed. *)
Definition apart (names : list (list Z)) (w w' : Ntfs) : Prop :=
  v_doomed w' = None /\ forall a, a ∉ names -> d_entries (v_dir w') !! a = d_entries (v_dir w) !! a.

Lemma delete_holds h i w files (Q : result HostError unit -> Ntfs -> Prop) :
  v_doomed w = None -> shows (v_dir w) files -> (i <= retained)%nat -> d_entries (v_dir w) !! file i = Some h ->
  (forall w' e, later w w' -> Q (Err e) w') ->
  (forall w', apart [file i] w w' -> shows (v_dir w') (put i None files) -> Q (Ok tt) w') ->
  holds (do? _ := delete_log h in do! _ := win_call (CloseHandle h) in Ret (Ok tt)) w Q.
Proof.
  intros Hd Hw Hi Hh He Hk. apply holds_try. unfold delete_log. apply holds_bind, (call_ntfs (DeleteOnClose h)).
  destruct (ntfs (DeleteOnClose h) w) as [r w1] eqn:E1. pose proof (draw_like (v_dir w)) as Hl. unfold ntfs in E1. destruct (draw (v_dir w)) as [f d]. cbn [snd] in Hl.
  destruct f; injection E1 as <- <-; cbn [fst snd ok_or]; apply holds_ret; [by apply He, later_draw |]. apply holds_bind, (call_ntfs (CloseHandle h)).
  destruct (ntfs (CloseHandle h) _) as [r w2] eqn:E2. unfold ntfs in E2. cbn [v_dir v_doomed set_doomed set_dir] in E2. destruct (draw d) as [f d'].
  rewrite bool_decide_eq_true_2 in E2 by done. injection E2 as <- <-. cbn [fst snd]. apply holds_ret.
  pose proof (shows_like name retained _ _ _ Hl Hw) as [Hs Hc]. pose proof Hl as (HE & _). rewrite <- HE in Hh.
  unfold remove. rewrite (name_of_spec h d (file i) Hs Hh). destruct (unlinked_content (file i) d Hs) as (Hs' & _ & Hc'). apply Hk.
  - split; [done |]. intros a Ha. cbn [v_dir set_doomed set_dir d_entries set_entries]. rewrite lookup_delete_ne; [by rewrite HE |]. intros <-. apply Ha. by left.
  - split; [done |]. intros j Hj. cbn [v_dir set_doomed set_dir]. rewrite Hc'. unfold put. destruct (decide (j = i)) as [-> | Hji]; [by rewrite decide_True |].
    rewrite decide_False by (rewrite (file_eq name retained) by done; done). by apply Hc.
Qed.

Lemma rename_log_holds h i j data parent w files (Q : result HostError unit -> Ntfs -> Prop) :
  v_doomed w = None -> shows (v_dir w) files -> (i <= retained)%nat -> (j <= retained)%nat -> i <> j ->
  d_entries (v_dir w) !! file i = Some h -> files i = Some data -> files j = None ->
  (forall w' e, later w w' -> Q (Err e) w') ->
  (forall w', apart [file i; file j] w w' -> shows (v_dir w') (put j (files i) (put i None files)) -> Q (Ok tt) w') ->
  holds (rename_log h parent (file j)) w Q.
Proof.
  intros Hd Hw Hi Hj Hij Hh Hdata Hfree He Hk. unfold rename_log. destruct (negb _); [by apply holds_ret, He, later_refl |].
  apply holds_bind, (call_ntfs (RenameTo _ _ _)). pose proof (draw_like (v_dir w)) as Hl. unfold ntfs. destruct (draw (v_dir w)) as [f d]. cbn [snd] in Hl.
  destruct f; cbn [fst snd ok_or]; [by apply holds_ret, He, later_draw |]. pose proof (shows_like name retained _ _ _ Hl Hw) as [Hs Hc]. pose proof Hl as (HE & _).
  rewrite <- HE in Hh. unfold renamed_to. rewrite (name_of_spec h d (file i) Hs Hh).
  pose proof (Hc j Hj) as Hcj. rewrite Hfree in Hcj. apply (content_entry d _ Hs) in Hcj. rewrite Hcj. cbn [fst snd ok_or]. apply holds_ret, Hk.
  - split; [done |]. intros a Ha. cbn [v_dir set_dir]. unfold renamed. rewrite Hh. cbn [d_entries set_entries].
    rewrite lookup_insert_ne, lookup_delete_ne; [by rewrite HE | |]; intros <-; apply Ha; [by left | by right; left].
  - pose proof (Hc i Hi) as Hci. rewrite Hdata in Hci.
    destruct (renamed_content (file i) (file j) d data) as (Hs' & _ & Hc'); [done | by rewrite (file_eq name retained) | done |].
    split; [done |]. intros k Hkr. cbn [v_dir set_dir]. rewrite Hc'. unfold put. destruct (decide (k = j)) as [-> | Hkj]; [by rewrite decide_True, Hdata |].
    rewrite decide_False by (rewrite (file_eq name retained) by done; done). destruct (decide (k = i)) as [-> | Hki]; [by rewrite decide_True |].
    rewrite decide_False by (rewrite (file_eq name retained) by done; done). by apply Hc.
Qed.

Lemma apart_trans l1 l2 w1 w2 w3 : apart l1 w1 w2 -> apart l2 w2 w3 -> apart (l1 ++ l2) w1 w3.
Proof. intros [_ H1] [D H2]. split; [done |]. intros a Ha. rewrite elem_of_app in Ha. rewrite H2 by tauto. apply H1. tauto. Qed.
Lemma later_apart l w1 w2 w3 : later w1 w2 -> apart l w2 w3 -> apart l w1 w3.
Proof. intros H1 [D H2]. split; [done |]. intros a Ha. rewrite H2 by done. by apply later_entries. Qed.
Lemma apart_later l w1 w2 w3 : apart l w1 w2 -> later w2 w3 -> apart l w1 w3.
Proof. intros [D H1] H2. split; [apply H2 |]. intros a Ha. rewrite (later_entries w2 w3) by done. by apply H1. Qed.

Lemma move_log_holds g h i j data parent w files (Q : result HostError unit -> Ntfs -> Prop) :
  v_doomed w = None -> shows (v_dir w) files -> (i <= retained)%nat -> (j <= retained)%nat -> i <> j ->
  d_entries (v_dir w) !! file i = Some h -> files i = Some data -> files j = None ->
  (forall w' e, shows (v_dir w') files \/ shows (v_dir w') (put j (files i) (put i None files)) -> Q (Err e) w') ->
  (forall w', apart [file i; file j] w w' -> shows (v_dir w') (put j (files i) (put i None files)) -> Q (Ok tt) w') ->
  holds (move_log g parent h (file i) (file j)) w Q.
Proof.
  intros Hd Hw Hi Hj Hij Hh Hdata Hfree He Hk. unfold move_log. apply check_first; [apply check_file_checks | done | |].
  { intros w1 e Hl1. apply He. left. by eapply later_shows. }
  intros w1 _ Hl1. pose proof (later_shows _ _ _ Hl1 Hw) as Hw1.
  apply holds_try, (rename_log_holds h i j data parent w1 files); [apply Hl1 | done | done | done | done | by rewrite (later_entries w w1) | done | done | |].
  { intros w2 e Hl2. apply He. left. by eapply later_shows. }
  intros w2 Ha2 Hw2. apply check_first; [apply check_file_checks | apply Ha2 | |].
  { intros w3 e Hl3. apply He. right. by eapply later_shows. }
  intros w3 _ Hl3. apply holds_ret, Hk; [| by eapply later_shows]. by eapply apart_later, Hl3; eapply later_apart.
Qed.

(** The handles that are held are those of the generations still to move. *)
Definition held_of (w : Ntfs) (held : list (option Handle)) (k : nat) : Prop :=
  forall i, (1 <= i <= k)%nat -> held !! (i - 1)%nat = Some (d_entries (v_dir w) !! file i).

Lemma held_apart w w' held k l :
  apart l w w' -> held_of w held k -> (forall i, (1 <= i <= k)%nat -> file i ∉ l) -> held_of w' held k.
Proof. intros [_ Ha] Hh Hl i Hi. rewrite (Hh i Hi). f_equal. symmetry. by apply Ha, Hl. Qed.
Lemma file_not_in (i j k : nat) : (i <= retained)%nat -> (j <= retained)%nat -> (k <= retained)%nat -> k <> i -> k <> j -> file k ∉ [file i; file j].
Proof.
  intros Hi Hj Hk Hki Hkj Hin. apply list_elem_of_In in Hin. destruct Hin as [He | [He | []]];
    [apply Hki | apply Hkj]; symmetry; by apply (file_eq name retained Hretained).
Qed.

Lemma shift_held_holds g parent held k w files (Q : result HostError unit -> Ntfs -> Prop) :
  n_name g = name -> (k < retained)%nat -> v_doomed w = None -> shows (v_dir w) files -> files (S k) = None -> held_of w held k ->
  (forall w' e files', shows (v_dir w') files' -> chronicle files' retained = chronicle files retained -> Q (Err e) w') ->
  (forall w', v_doomed w' = None -> d_entries (v_dir w') !! name = d_entries (v_dir w) !! name ->
     shows (v_dir w') (shifted k files) -> chronicle (shifted k files) retained = chronicle files retained -> Q (Ok tt) w') ->
  holds (shift_held g parent held (reverse (seq 1 k))) w Q.
Proof.
  intros Hn. revert w files Q. induction k as [| k IH]; intros w files Q Hkr Hd Hw Hfree Hheld He Hk.
  { apply holds_ret, Hk; [done | done | |]; [eapply shows_ext; [| exact Hw] | apply (chronicle_ext retained Hretained)]; intros i Hi; unfold shifted; by rewrite !decide_False by lia. }
  rewrite seq_S, reverse_snoc. cbn [shift_held]. unfold log_generation. rewrite Hn.
  replace (1 + k)%nat with (S k) by lia. replace (S k + 1)%nat with (S (S k)) by lia.
  change (name ++ [46] ++ str_bytes (dec (Z.of_nat (S k)))) with (file (S k)). change (name ++ [46] ++ str_bytes (dec (Z.of_nat (S (S k))))) with (file (S (S k))).
  rewrite (Hheld (S k) ltac:(lia)). destruct (d_entries (v_dir w) !! file (S k)) as [h |] eqn:Eh.
  - destruct (entry_some (S k) h w files Hw ltac:(lia) Eh) as [data Hdata].
    apply holds_try, (move_log_holds g h (S k) (S (S k)) data parent w files); [done | done | lia | lia | lia | done | done | done | |].
    + intros w1 e [Hw1 | Hw1]; [by apply (He w1 e files Hw1) |]. apply (He w1 e _ Hw1). by apply (chronicle_move retained Hretained).
    + intros w1 Ha1 Hw1. set (files' := put _ _ _) in Hw1. assert (Hch' : chronicle files' retained = chronicle files retained) by (by apply (chronicle_move retained Hretained)).
      apply (IH w1 files'); [lia | apply Ha1 | done | unfold files', put; by rewrite decide_False, decide_True by lia | | |].
      * eapply held_apart; [exact Ha1 | intros i Hi; apply Hheld; lia |]. intros i Hi. apply (file_not_in (S k) (S (S k)) i); lia.
      * intros w3 e f3 Hw3 Hc3. apply (He w3 e f3 Hw3). by rewrite Hc3.
      * intros w3 Hd3 He3 Hw3 Hc3. rewrite Hch' in Hc3.
        assert (Heq : forall i, shifted k files' i = shifted (S k) files i).
        { intros i. unfold shifted, files', put. repeat case_decide; try lia; try done; f_equal; lia. }
        apply Hk; [done | | eapply shows_ext; [intros; apply Heq | done] | rewrite <- Hc3; apply (chronicle_ext retained Hretained); intros; by rewrite Heq].
        rewrite He3. apply Ha1. change name with (file 0). apply (file_not_in (S k) (S (S k)) 0); lia.
  - apply (entry_none (S k) w files Hw ltac:(lia)) in Eh. apply holds_try, holds_ret.
    apply (IH w files); [lia | done | done | done | intros i Hi; apply Hheld; lia | done |].
    intros w2 Hd2 He2 Hw2 Hch.
    assert (Heq : forall i, shifted k files i = shifted (S k) files i) by (intros i; by apply (shifted_gap retained Hretained)).
    apply Hk; [done | done | eapply shows_ext; [intros; apply Heq | done] | rewrite <- Hch; by apply (chronicle_ext retained Hretained)].
Qed.

(** A new active file is empty. *)
Lemma new_active_holds g parent w files (Q : result HostError (option Handle) -> Ntfs -> Prop) :
  n_name g = name -> v_doomed w = None -> shows (v_dir w) files -> files 0%nat = None ->
  (forall w' e, shows (v_dir w') files -> Q (Err e) w') ->
  (forall w' h, v_doomed w' = None -> shows (v_dir w') (put 0 (Some []) files) -> opened name (v_dir w') h [] -> Q (Ok (Some h)) w') ->
  holds (log_child parent (n_name g) (n_user g) NewActive) w Q.
Proof.
  intros Hn Hd Hw H0 He Hk. rewrite Hn. unfold log_child. destruct (negb _); [by apply holds_ret, He |]. cbn [is_existing].
  apply holds_try, holds_ret. destruct (rbind _ _) as [descriptor | e]; [| by apply He]. apply holds_bind, (call_ntfs (NtCreateFile _)).
  pose proof (draw_like (v_dir w)) as Hl. unfold ntfs. destruct (draw (v_dir w)) as [f d]. cbn [snd] in Hl.
  pose proof (shows_like name retained _ _ _ Hl Hw) as Hwd. destruct f; cbn [fst snd]; [by apply holds_ret, He |].
  pose proof Hwd as [Hs Hc]. assert (Hnone : content d name = None) by (rewrite <- H0; by apply (Hc 0%nat); lia).
  pose proof Hnone as Hent. apply (content_entry d _ Hs) in Hent. unfold created_file. cbn [cf_name cf_disposition log_disposition]. rewrite Hent.
  destruct (created name d) as [h d1] eqn:Hcr. cbn [fst snd owned ok_or rbind]. apply holds_ret.
  destruct (created_content name d h d1 Hs Hcr) as (Hs1 & He1 & _ & Hc1). rewrite Hnone in Hc1. cbn [default from_option] in Hc1. apply Hk; [done | |].
  - split; [done |]. intros k Hk'. cbn [v_dir set_dir]. rewrite Hc1. unfold put. destruct (decide (k = 0%nat)) as [-> | Hk0]; [by rewrite decide_True |].
    rewrite decide_False by (by apply (file_above name retained Hretained)). by apply Hc.
  - pose proof (Hc1 name) as Hcn. rewrite decide_True in Hcn by done. apply content_sound in Hcn as (i & Hi & Hdi). rewrite He1 in Hi. injection Hi as <-.
    split; [done |]. split; [done |]. by apply (sound_next d1 Hs1).
Qed.

(** ** Rotating *)
Lemma log_generation_file g i : n_name g = name -> (1 <= i)%nat -> log_generation g i = file i.
Proof. intros Hn Hi. unfold log_generation. rewrite Hn. by destruct i as [| i]; [lia |]. Qed.

Lemma rotate_rest_holds g parent held w files data (Q : result HostError NativeLog -> Ntfs -> Prop) :
  n_name g = name -> v_doomed w = None -> shows (v_dir w) files -> files 0%nat = Some data -> files retained = None ->
  d_entries (v_dir w) !! name = Some (n_file g) -> held_of w held (retained - 1) ->
  (forall w' e files', shows (v_dir w') files' -> chronicle files' retained = chronicle files retained -> Q (Err e) w') ->
  (forall w' h, v_doomed w' = None -> shows (v_dir w') (rotated files) -> opened name (v_dir w') h [] -> Q (Ok (set_active h 0 g)) w') ->
  holds (do? _ := shift_held g parent held (reverse (seq 1 (retained - 1))) in
         do? _ := rename_log (n_file g) parent (log_generation g 1) in
         do? _ := check_file g (n_file g) (log_generation g 1) in
         do? handle := log_child parent (n_name g) (n_user g) NewActive in
         do? handle := Ret (ok_or handle HUnavailable) in
         do? length_ := check_file g handle (n_name g) in
         if negb (length_ =? 0) then Ret (Err HInsecure) else Ret (Ok (set_active handle 0 g))) w Q.
Proof.
  intros Hn Hd Hw H0 Hfree Hfile Hheld He Hk. rewrite (log_generation_file g 1 Hn) by lia.
  apply holds_try, (shift_held_holds g parent held (retained - 1) w files); [done | lia | done | done | by replace (S (retained - 1)) with retained by lia | done | done |].
  intros w1 Hd1 He1 Hw1 Hc1. set (files1 := shifted (retained - 1) files) in *. pose proof (shifted_first retained Hretained files Hfree) as H11.
  pose proof (shifted_active retained Hretained files (retained - 1)) as H01. rewrite H0 in H01. fold files1 in H11, H01.
  apply holds_try, (rename_log_holds (n_file g) 0 1 data parent w1 files1); [done | done | lia | lia | lia | by change (file 0) with name; rewrite He1 | done | done | |].
  { intros w2 e Hl2. apply (He w2 e files1); [by eapply later_shows | done]. }
  intros w2 [Hd2 _] Hw2. pose proof (moved_first_chronicle retained Hretained files1 H11) as Hc2. rewrite Hc1 in Hc2.
  apply check_first; [apply check_file_checks | done | |].
  { intros w3 e Hl3. apply (He w3 e (moved_first files1)); [by eapply later_shows | done]. }
  intros w3 _ Hl3. pose proof (later_shows _ _ _ Hl3 Hw2) as Hw3. pose proof (moved_first_active retained Hretained files1) as H02.
  apply holds_try, (new_active_holds g parent w3 (moved_first files1)); [done | apply Hl3 | done | done | |].
  { intros w4 e Hw4. by apply (He w4 e (moved_first files1)). }
  intros w4 h Hd4 Hw4 Ho4. apply holds_try, holds_ret. cbn [ok_or].
  assert (Hc4 : chronicle (put 0 (Some []) (moved_first files1)) retained = chronicle files retained) by (by rewrite chronicle_fresh).
  apply check_first; [apply check_file_checks | done | |].
  { intros w5 e Hl5. apply (He w5 e _ (later_shows _ _ _ Hl5 Hw4)). done. }
  intros w5 n Hl5. pose proof (later_shows _ _ _ Hl5 Hw4) as Hw5. destruct (negb (n =? 0)); [by apply holds_ret, (He w5 _ _ Hw5) |].
  apply holds_ret, Hk; [apply Hl5 | | eapply opened_like; [apply Hl5 | done]].
  eapply shows_ext; [| exact Hw5]. intros i Hi. by apply (rotated_steps retained Hretained).
Qed.

(** The log holds its active file open, and knows how long it is. *)
Record wkeeps (max_bytes : Z) (w : Ntfs) (g : NativeLog) (s : Files) : Prop := {
  wk_name : n_name g = name; wk_retained : n_retained g = retained; wk_max : n_max_bytes g = max_bytes;
  wk_size : n_size g = zlen (active s); wk_gens : length (generations s) = retained;
  wk_open : opened name (v_dir w) (n_file g) (active s); wk_files : shows (v_dir w) (files_of s); wk_doomed : v_doomed w = None
}.
Lemma wkeeps_later max_bytes w w' g s : later w w' -> wkeeps max_bytes w g s -> wkeeps max_bytes w' g s.
Proof.
  intros Hl [? ? ? ? ? Ho Hw Hd]. split; try done; [eapply opened_like; [apply Hl | done] | by eapply later_shows | apply Hl].
Qed.

Lemma rotate_log_holds max_bytes g w s (Q : result HostError NativeLog -> Ntfs -> Prop) :
  wkeeps max_bytes w g s ->
  (forall w' e files, shows (v_dir w') files -> forgets (files_of s) files [] -> Q (Err e) w') ->
  (forall w' h, v_doomed w' = None -> shows (v_dir w') (rotated (files_of s)) -> opened name (v_dir w') h [] -> Q (Ok (set_active h 0 g)) w') ->
  holds (rotate_log g) w Q.
Proof.
  intros Hkeep He Hk. pose proof Hkeep as [Hn Hr _ _ _ Ho Hw Hd]. set (files := files_of s) in *.
  assert (Hsame : forall w' e, later w w' -> Q (Err e) w').
  { intros w' e Hl. apply (He w' e files); [by eapply later_shows | apply forgets_nothing]. }
  unfold rotate_log. apply holds_try, holds_ret. destruct (log_parent g) as [parent | e]; [| by apply Hsame, later_refl].
  rewrite Hr. apply holds_try, hold_generations_holds; [done | intros i Hi; apply elem_of_seq in Hi; lia | done | done |]. intros w1 Hl1.
  apply check_first; [apply validate_log_checks | apply Hl1 | intros w2 e Hl2; eapply Hsame, later_trans; done |].
  intros w2 _ Hl2. pose proof (later_trans _ _ _ Hl1 Hl2) as Hl. pose proof (later_shows _ _ _ Hl Hw) as Hw2.
  set (held := (fun i => d_entries (v_dir w) !! file i) <$> seq 1 retained).
  assert (Hheld : held_of w2 held retained).
  { intros i Hi. unfold held. rewrite list_lookup_fmap, lookup_seq_lt by lia. cbn [option_map fmap option_fmap]. replace (1 + (i - 1))%nat with i by lia. by rewrite (later_entries w w2). }
  assert (Hfile : d_entries (v_dir w2) !! name = Some (n_file g)) by (rewrite (later_entries w w2) by done; apply Ho).
  assert (Hlast : last held = Some (d_entries (v_dir w2) !! file retained)).
  { unfold held. rewrite last_lookup, length_fmap, length_seq. replace (pred retained) with (retained - 1)%nat by lia. apply Hheld. lia. }
  rewrite Hlast. destruct (d_entries (v_dir w2) !! file retained) as [h |] eqn:Eh.
  - apply holds_try, (delete_holds h retained w2 files); [apply Hl | done | lia | done | |].
    { intros w3 e Hl3. eapply Hsame, later_trans; done. }
    intros w3 Ha3 Hw3.
    apply (rotate_rest_holds g parent held w3 (put retained None files) (active s)); [done | apply Ha3 | done | | by unfold put; rewrite decide_True | | | |].
    + unfold put. by rewrite decide_False by lia.
    + rewrite <- Hfile. apply Ha3. intros [Hin | []]%list_elem_of_In. exact (file_above name retained Hretained retained ltac:(lia) ltac:(lia) Hin).
    + eapply held_apart; [exact Ha3 | intros i Hi; apply Hheld; lia |]. intros i Hi [Hin | []]%list_elem_of_In.
      apply (file_eq name retained Hretained) in Hin; lia.
    + intros w4 e files' Hw4 Hc. apply (He w4 e files' Hw4). eapply forgets_chronicle; [apply (forgets_oldest retained Hretained) | done].
    + intros w4 h' Hd4 Hw4 Ho4. apply Hk; [done | | done]. eapply shows_ext; [| exact Hw4]. intros i Hi.
      rewrite (rotated_put retained Hretained). by rewrite decide_False by lia.
  - apply (entry_none retained w2 files Hw2 ltac:(lia)) in Eh. apply holds_try, holds_ret.
    apply (rotate_rest_holds g parent held w2 files (active s)); [done | apply Hl | done | done | done | done | intros i Hi; apply Hheld; lia | | done].
    intros w3 e files' Hw3 Hc. apply (He w3 e files' Hw3). eapply forgets_chronicle; [apply forgets_nothing | done].
Qed.

(** ** Writing *)
Lemma part_holds h data part w files (Q : option unit -> Ntfs -> Prop) :
  v_doomed w = None -> shows (v_dir w) files -> opened name (v_dir w) h data ->
  (forall w' k, shows (v_dir w') (put 0 (Some (data ++ take k part)) files) -> Q None w') ->
  (forall w', v_doomed w' = None -> shows (v_dir w') (put 0 (Some (data ++ part)) files) -> opened name (v_dir w') h (data ++ part) -> Q (Some tt) w') ->
  holds (win_call (WriteAllTo h part)) w Q.
Proof.
  intros Hd Hw Ho He Hk. apply (call_ntfs (WriteAllTo h part)). pose proof (draw_like (v_dir w)) as Hl.
  unfold ntfs. destruct (draw (v_dir w)) as [f d]. cbn [snd] in Hl. pose proof (shows_like name retained _ _ _ Hl Hw) as [Hs Hc].
  pose proof (opened_like _ _ _ _ _ Hl Ho) as (Hen & Hda & Hh).
  assert (Hap : forall more, shows (appended h more d) (put 0 (Some (data ++ more)) files) /\ opened name (appended h more d) h (data ++ more)).
  { intros more. destruct (appended_content name d h data more Hs Hen Hda) as (Hs' & Hen' & Hd' & Hc'). split.
    - split; [done |]. intros k Hkr. rewrite Hc'. unfold put. destruct (decide (k = 0%nat)) as [-> | Hk0]; [by rewrite decide_True |].
      rewrite decide_False by (by apply (file_above name retained Hretained)). by apply Hc.
    - split; [by rewrite Hen' | done]. }
  destruct f as [k |]; cbn [fst snd]; [apply (He _ k); apply Hap | apply Hk; [done | |]; apply Hap].
Qed.

Lemma put_put v v' files i : put 0 v (put 0 v' files) i = put 0 v files i.
Proof. unfold put. by case_decide. Qed.

Lemma write_parts_holds h parts data w files (Q : result HostError unit -> Ntfs -> Prop) :
  v_doomed w = None -> shows (v_dir w) (put 0 (Some data) files) -> opened name (v_dir w) h data ->
  (forall w' e k, shows (v_dir w') (put 0 (Some (data ++ take k (concat parts))) files) -> Q (Err e) w') ->
  (forall w', v_doomed w' = None -> shows (v_dir w') (put 0 (Some (data ++ concat parts)) files) -> opened name (v_dir w') h (data ++ concat parts) ->
     Q (Ok tt) w') ->
  holds (write_parts h parts) w Q.
Proof.
  revert data w Q. induction parts as [| part parts IH]; intros data w Q Hd Hw Ho He Hk; cbn [write_parts concat].
  { apply holds_ret, Hk; cbn [concat]; by rewrite ?app_nil_r. }
  apply holds_bind, (part_holds h data part w (put 0 (Some data) files)); [done | done | done | |].
  { intros w1 k Hw1. apply holds_try, holds_ret. cbn [ok_or]. apply (He w1 _ (Nat.min k (length part))).
    eapply shows_ext; [| exact Hw1]. intros i Hi. rewrite put_put. cbn [concat]. rewrite take_app.
    replace (Nat.min k (length part) - length part)%nat with 0%nat by lia. rewrite take_0, app_nil_r.
    destruct (Nat.min_spec k (length part)) as [[Hlt ->] | [Hge ->]]; [done |]. by rewrite !take_ge by lia. }
  intros w1 Hd1 Hw1 Ho1. apply holds_try, holds_ret. cbn [ok_or].
  apply (IH (data ++ part) w1); [done | | done | |].
  - eapply shows_ext; [| exact Hw1]. intros i Hi. apply put_put.
  - intros w2 e k Hw2. apply (He w2 e (length part + k)%nat). eapply shows_ext; [| exact Hw2]. intros i Hi. cbn [concat].
    rewrite take_app_add, <- app_assoc. done.
  - intros w2 Hd2 Hw2 Ho2. cbn [concat] in Hk. rewrite <- app_assoc in Hw2, Ho2. by apply Hk.
Qed.

(** Putting the bytes into the open file. *)
Lemma native_land_holds max_bytes g data bytes w files s :
  n_name g = name -> n_retained g = retained -> n_max_bytes g = max_bytes -> n_size g = zlen data ->
  v_doomed w = None -> shows (v_dir w) (put 0 (Some data) files) -> opened name (v_dir w) (n_file g) data ->
  active s = data ++ bytes -> length (generations s) = retained ->
  (forall i, (i <= retained)%nat -> put 0 (Some (data ++ bytes)) files i = files_of s i) ->
  holds (do? _ := write_parts (n_file g) (chunks bytes) in
         do? size := Ret (checked_size (n_size g) (zlen bytes)) in
         do? _ := validate_log (set_active (n_file g) size g) in
         Ret (Ok (set_active (n_file g) size g))) w
    (fun r w' => match r with
                 | Ok g' => wkeeps max_bytes w' g' s
                 | Err _ => exists k, shows (v_dir w') (put 0 (Some (data ++ take k bytes)) files)
                 end).
Proof.
  intros Hn Hr Hm Hsize Hd Hw Ho Ha Hg Hs. apply holds_try, (write_parts_holds (n_file g) (chunks bytes) data w files); [done | done | done | |]; rewrite concat_chunks.
  { intros w1 e k Hw1. by exists k. }
  intros w1 Hd1 Hw1 Ho1.
  assert (Hall : forall w', later w1 w' -> exists k, shows (v_dir w') (put 0 (Some (data ++ take k bytes)) files)).
  { intros w' Hl. exists (length bytes). rewrite firstn_all. by eapply later_shows. }
  apply holds_try, holds_ret. unfold checked_size. destruct (U64_MAX <? n_size g + zlen bytes); [by apply Hall, later_refl |].
  apply check_first; [apply validate_log_checks | done | by intros w2 e Hl2; apply Hall |]. intros w2 _ Hl2. apply holds_ret.
  split; cbn [set_active n_name n_retained n_max_bytes n_size n_file]; try done.
  - rewrite Hsize, Ha, length_app. lia.
  - rewrite Ha. eapply opened_like; [apply Hl2 | done].
  - eapply shows_ext; [exact Hs |]. by eapply later_shows.
  - apply Hl2.
Qed.

Lemma native_write_holds max_bytes g w s bytes :
  wkeeps max_bytes w g s -> max_bytes < U64_MAX -> bytes <> [] ->
  holds (native_write g bytes) w (fun r w' =>
    match r with
    | Ok g' => zlen bytes <= max_bytes /\ wkeeps max_bytes w' g' (spec_write max_bytes s bytes)
    | Err _ => exists files k, shows (v_dir w') files /\ forgets (files_of s) files (take k bytes)
    end).
Proof.
  intros Hkeep Hwidth Hne. pose proof Hkeep as [Hn Hr Hm Hsize Hg Ho Hw Hd].
  assert (Hsame : forall w', later w w' -> exists files k, shows (v_dir w') files /\ forgets (files_of s) files (take k bytes)).
  { intros w' Hl. exists (files_of s), 0%nat. split; [by eapply later_shows | apply forgets_nothing]. }
  unfold native_write. rewrite Hm. destruct (Z.ltb_spec max_bytes (zlen bytes)) as [Hbig | Hbytes]; [by apply holds_ret, Hsame, later_refl |].
  apply check_first; [apply validate_log_checks | done | by intros w1 e Hl1; apply Hsame |]. intros w1 _ Hl1. rewrite bool_decide_eq_false_2 by done.
  pose proof (wkeeps_later _ _ _ _ _ Hl1 Hkeep) as Hkeep1. rewrite Hsize. unfold checked_size at 1.
  apply holds_try, holds_ret. destruct (Z.ltb_spec U64_MAX (zlen (active s) + zlen bytes)) as [Hover | Htotal]; [by apply Hsame |].
  destruct (Z.ltb_spec max_bytes (zlen (active s) + zlen bytes)) as [Hrot | Hfit].
  - apply holds_try, (rotate_log_holds max_bytes g w1 s); [done | |].
    { intros w2 e files Hw2 Hf. exists files, 0%nat. by split. }
    intros w2 h Hd2 Hw2 Ho2. eapply holds_mono.
    + apply (native_land_holds max_bytes (set_active h 0 g) [] bytes w2 (rotated (files_of s)) (spec_write max_bytes s bytes)); try done.
      * eapply shows_ext; [| exact Hw2]. intros i Hi. unfold put. by case_decide as Hi0; [rewrite Hi0 |].
      * unfold spec_write. by rewrite (proj2 (Z.ltb_lt _ _)) by lia.
      * unfold spec_write. rewrite (proj2 (Z.ltb_lt _ _)) by lia. cbn [generations]. rewrite length_take. cbn [length]. lia.
      * intros i Hi. by apply (rotated_spec retained Hretained).
    + intros [g' | e] w3; [by split |]. intros [k Hw3]. exists (put 0 (Some (take k bytes)) (rotated (files_of s))), k.
      split; [done |]. by apply (forgets_rotated retained Hretained _ (active s)); [lia |].
  - apply holds_try, holds_ret. eapply holds_mono.
    + apply (native_land_holds max_bytes g (active s) bytes w1 (files_of s) (spec_write max_bytes s bytes)); try done; try apply Hkeep1.
      * eapply shows_ext; [| apply Hkeep1]. intros i Hi. unfold put. by case_decide as Hi0; [rewrite Hi0 |].
      * unfold spec_write. by rewrite (proj2 (Z.ltb_ge _ _)) by lia.
      * unfold spec_write. by rewrite (proj2 (Z.ltb_ge _ _)) by lia.
      * intros i Hi. apply appended_spec. lia.
    + intros [g' | e] w3; [by split |]. intros [k Hw3]. exists (put 0 (Some (active s ++ take k bytes)) (files_of s)), k.
      split; [done |]. by apply forgets_append.
Qed.

(** ** A sequence of records *)
Fixpoint write_records (g : WindowsLog) (records : list (list Z)) : windows (WindowsLog * list bool) :=
  match records with
  | [] => Ret (g, [])
  | bytes :: records =>
      do! r := windows_log_write g bytes in
      do! rest := write_records (fst r) records in
      Ret (fst rest, is_ok (snd r) :: snd rest)
  end.

(** How the log ends: everything was written, or it was closed at a record. *)
Definition log_ended (max_bytes : Z) (s : Files) (records : list (list Z)) (r : WindowsLog * list bool) (w : Ntfs) : Prop :=
  exists written, (written <= length records)%nat
    /\ snd r = replicate written true ++ replicate (length records - written) false
    /\ Forall (fun bytes => zlen bytes <= max_bytes) (take written records)
    /\ let s' := foldl (spec_write max_bytes) s (take written records) in
       match records !! written with
       | None => exists g, w_writer (fst r) = Some g /\ wkeeps max_bytes w g s'
       | Some bytes => w_writer (fst r) = None /\ exists files k, shows (v_dir w) files /\ forgets (files_of s') files (take k bytes)
       end.

Lemma dropped_records g records w :
  w_writer g = None -> holds (write_records g records) w (fun r w' => snd r = replicate (length records) false /\ w_writer (fst r) = None /\ w' = w).
Proof.
  intros Hg. induction records as [| bytes records IH]; cbn [write_records]; [by apply holds_ret |].
  unfold windows_log_write at 1. rewrite Hg. apply holds_bind, holds_ret. cbn [fst snd is_ok]. apply holds_bind. eapply holds_mono; [exact IH |].
  intros [g2 l] w2 (Hl & Hg2 & ->). apply holds_ret. cbn [fst snd] in *. by rewrite Hl.
Qed.

Lemma write_records_holds max_bytes g w s records :
  w_max_bytes g = max_bytes -> max_bytes < U64_MAX -> Forall (fun bytes => bytes <> []) records ->
  (exists writer, w_writer g = Some writer /\ wkeeps max_bytes w writer s) ->
  holds (write_records g records) w (log_ended max_bytes s records).
Proof.
  intros Hm Hwidth Hne. revert g w s Hm. induction Hne as [| bytes records Hb _ IH]; intros g w s Hm Hk; cbn [write_records].
  { apply holds_ret. exists 0%nat. cbn. split; [lia |]. split; [done |]. by split; [constructor |]. }
  destruct Hk as (writer & Hwr & Hk). unfold windows_log_write at 1. rewrite Hwr, Hm.
  assert (Hwrite : holds (if max_bytes <? zlen bytes then Ret (Err HLimit) else native_write writer bytes) w (fun r w' =>
    match r with
    | Ok g' => zlen bytes <= max_bytes /\ wkeeps max_bytes w' g' (spec_write max_bytes s bytes)
    | Err _ => exists files k, shows (v_dir w') files /\ forgets (files_of s) files (take k bytes)
    end)).
  { destruct (Z.ltb_spec max_bytes (zlen bytes)); [| by apply native_write_holds]. apply holds_ret. exists (files_of s), 0%nat.
    split; [apply Hk | apply forgets_nothing]. }
  apply holds_bind, holds_bind. eapply holds_mono; [exact Hwrite |]. intros [writer' | e] w1; apply holds_ret || (intros H; apply holds_ret; revert H); cbn [fst snd is_ok].
  - intros [Hbm Hk1]. apply holds_bind. eapply holds_mono; [apply (IH _ w1 (spec_write max_bytes s bytes)); [done | by exists writer'] |].
    intros [g2 l] w2 (n & Hn & Hl & Hf & He). apply holds_ret. cbn [fst snd] in *.
    exists (S n). cbn [length take lookup list_lookup foldl fst snd replicate Nat.sub app]. split; [lia |]. split; [by rewrite Hl |]. split; [by constructor | done].
  - intros Hf. apply holds_bind. eapply holds_mono; [by apply dropped_records |]. intros [g2 l] w2 (Hl & Hg2 & ->). apply holds_ret. cbn [fst snd] in *.
    exists 0%nat. cbn [take lookup list_lookup foldl fst snd replicate app]. split; [lia |]. split; [by rewrite Hl |]. split; [by constructor | done].
Qed.
End ntfs.

(** C38: the Windows log is the same abstract log as the Linux one.  Run in a directory whose creations, renames,
    deletions and writes may fail at any point (a failing write landing any prefix of its part), and whatever the system
    answers to the checks of handles, it acknowledges a prefix of the records it is given, each within the limit, after
    which its files are exactly those of the abstract log; if one is refused the writer is dropped for good and the rest
    are refused, and what the files then hold, oldest first, is what the abstract log held, less at most its oldest file,
    and at most a prefix of the refused record: no rename ever replaces a file. *)
Theorem windows_log_keeps_newest (observe : Ntfs -> forall c, WinAnswer c) (name : list Z) (retained : nat) (max_bytes : Z)
    (w : Ntfs) (g : WindowsLog) (writer : NativeLog) (s : Files) (records : list (list Z)) :
  (1 <= retained <= 100)%nat -> max_bytes <= 1073741824 -> w_max_bytes g = max_bytes -> w_writer g = Some writer ->
  wkeeps name retained max_bytes w writer s -> Forall (fun bytes => bytes <> []) records ->
  holds (ntfs observe) (write_records g records) w (log_ended name retained max_bytes s records).
Proof.
  intros Hr Hm Hg Hw Hk Hne. apply write_records_holds; [done | done | unfold U64_MAX; lia | done | by exists writer].
Qed.

(** ** A log on an honest volume *)
Definition demo_sid : list Z := [1; 1; 0; 0; 0; 0; 0; 5; 42; 0; 0; 0].
Definition demo_root : Handle := 1000%nat.
Definition demo_device : list Z := str_bytes "\Device\HarddiskVolume1".
Definition demo_volume : list Z := str_bytes "\\?\Volume{01234567-89ab-cdef-0123-456789abcdef}\".
Definition demo_observe (w : Ntfs) (c : WinCall) : WinAnswer c :=
  match c return WinAnswer c with
  | NtCreateFile _ => NtFailure
  | CloseHandle _ => tt
  | OpenThreadToken => None
  | LastErrorIsNoToken => true
  | OpenProcessToken => Some (Some 999%nat)
  | GetTokenInformation _ _ => Some {| tu_needed := 28; tu_sid := 16; tu_buffer := repeat 0 16 ++ demo_sid |}
  | GetKernelObjectSecurity _ _ => Some (zlen (log_bytes demo_sid), log_bytes demo_sid)
  | GetFinalPathName h _ kind =>
      let path := match kind with
                  | VolumeNt => demo_device ++ str_bytes "\"
                  | VolumeGuid => if Nat.eqb h demo_root then demo_volume else demo_volume ++ default [] (name_of h (v_dir w))
                  end in
      (zlen path, path)
  | QueryDosDevice _ _ => (zlen demo_device + 1, demo_device ++ [0])
  | GetVolumeInformation _ _ => Some (8, [78; 84; 70; 83; 0])
  | FileTypeIsDisk _ => true
  | GetAttributeTag _ => Some ([], 0)
  | GetStandardInfo h =>
      Some {| si_directory := Nat.eqb h demo_root; si_delete_pending := false; si_links := 1;
              si_end_of_file := zlen (default [] (d_data (v_dir w) !! h)) |}
  | ReadToEnd _ _ => None
  | WriteAllTo _ _ | RenameTo _ _ _ | DeleteOnClose _ => None
  end.
Definition demo_name : list Z := str_bytes "audit.log".
Definition demo_writer : NativeLog :=
  {| n_parents := [demo_root]; n_components := []; n_user := demo_sid; n_drive := 67; n_volume_root := demo_volume; n_prefix := demo_volume;
     n_name := demo_name; n_file := 1%nat; n_size := 0; n_max_bytes := 4; n_retained := 2 |}.
Definition demo_log : WindowsLog := {| w_writer := Some demo_writer; w_max_bytes := 4 |}.
Definition demo_ntfs (faults : list (option nat)) : Ntfs := {| v_dir := fresh_dir demo_name faults; v_doomed := None; v_clock := 0 |}.
Definition demo_records : list (list Z) := [[1; 2]; [3; 4]; [5]; [6; 7; 8; 9]; [10]; [11; 12]; [13]].
Definition demo_written (faults : list (option nat)) := interp (ntfs demo_observe) (write_records demo_log demo_records) (demo_ntfs faults).

Lemma demo_wkeeps faults : wkeeps demo_name 2 4 (demo_ntfs faults) demo_writer (fresh_files 2).
Proof.
  pose proof (fresh_keeps demo_name 4 2 faults ltac:(lia)) as [_ _ _ _ _ _ Hg (fd & Hfd & Ho) Hf]. injection Hfd as <-. by split.
Qed.

(** All seven records are written through three rotations; a fault at the
    thirteenth change stops the log. *)
Lemma windows_log_keeps_newest_witness :
  snd (fst (demo_written [])) = [true; true; true; true; true; true; true]
  /\ snd (fst (demo_written (replicate 12 None ++ [Some 2%nat]))) = [true; true; true; false; false; false; false]
  /\ log_ended demo_name 2 4 (fresh_files 2) demo_records (fst (demo_written (replicate 12 None ++ [Some 2%nat])))
       (snd (demo_written (replicate 12 None ++ [Some 2%nat]))).
Proof.
  split; [vm_compute; reflexivity |]. split; [vm_compute; reflexivity |].
  exact (windows_log_keeps_newest demo_observe demo_name 2 4 (demo_ntfs (replicate 12 None ++ [Some 2%nat])) demo_log demo_writer (fresh_files 2) demo_records
    ltac:(lia) ltac:(lia) eq_refl eq_refl (demo_wkeeps _) ltac:(repeat constructor; discriminate)).
Defined.
