(* ===== verification/Spec.v ===== *)
(** * The architecture contract

    The data of the repository checks in [tools/xtask/src/]: the contract that
    [architecture/spec.toml] declares ([spec.rs] and the declarations of the
    other files), the reviewed values that its sections must keep, and the
    ownership of source files.  A contract is what [toml] deserialized; a
    reviewed value is what it deserialized from the constant of the code. *)
From stdpp Require Import gmap strings.
From S2P Require Import Prelude Text Core Order.
Open Scope Z_scope.

(** An error is its message; indexing a missing key panics. *)
Inductive Refusal : Type := Message (text : string) | Panicked.
Coercion Message : string >-> Refusal.
Notation CheckResult := (result Refusal).

(** [PackageContract] of [packages.rs] *)
Record PackageContract : Type := {
  pk_domain_owner : string; pk_workflow_owner : string; pk_codec_owner : string; pk_entropy_owner : string; pk_profile : string;
  pk_admission : string; pk_permission : string; pk_snapshot : string; pk_continuation : string; pk_refresh : string; pk_capability_status : string;
  pk_whole_device_complete : bool; pk_max_source_bytes : Z; pk_max_records : Z; pk_max_retained_bytes : Z; pk_page_records : Z; pk_ttl_seconds : Z;
  pk_nonce_bytes : Z; pk_max_name_bytes : Z; pk_max_version_bytes : Z; pk_max_arch_bytes : Z; pk_required_tests : list string
}.
#[export] Instance PackageContract_eq_dec : EqDecision PackageContract.
Proof. solve_decision. Defined.
Definition EXPECTED_Package : PackageContract := {|
  pk_domain_owner := "openwrt-mcp-core"; pk_workflow_owner := "openwrt-mcp-runtime"; pk_codec_owner := "openwrt-mcp-device-codec";
  pk_entropy_owner := "openwrt-mcp-adapters"; pk_profile := "apk_3_0_5_visible_v1"; pk_admission := "same_backend_version_and_complete_query";
  pk_permission := "packages_read"; pk_snapshot := "single_private_immutable"; pk_continuation := "nonce_operation_epoch_absolute_ttl";
  pk_refresh := "invalidate_before_attempt"; pk_capability_status := "unknown_capture_required"; pk_whole_device_complete := false;
  pk_max_source_bytes := 4194304; pk_max_records := 4096; pk_max_retained_bytes := 2097152; pk_page_records := 16; pk_ttl_seconds := 120;
  pk_nonce_bytes := 16; pk_max_name_bytes := 256; pk_max_version_bytes := 256; pk_max_arch_bytes := 64;
  pk_required_tests := ["crates/core/tests/packages.rs"; "crates/features/tests/packages.rs"; "crates/runtime/tests/packages.rs"; "crates/device-codec/tests/packages.rs"; "crates/mcp/tests/packages.rs"]
|}.

(** [OpkgStatusContract] of [opkg_status.rs] *)
Record OpkgStatusContract : Type := {
  op_profile : string; op_admission : string; op_commands : string; op_parser : string; op_projection : string; op_read_effects : string;
  op_snapshot : string; op_max_line_bytes : Z; op_max_fields_per_stanza : Z; op_max_field_name_bytes : Z; op_max_status_bytes : Z;
  op_required_tests : list string
}.
#[export] Instance OpkgStatusContract_eq_dec : EqDecision OpkgStatusContract.
Proof. solve_decision. Defined.
Definition EXPECTED_OpkgStatus : OpkgStatusContract := {|
  op_profile := "opkg_38eccbb1_root_status_v1"; op_admission := "same_backend_exact_version_then_fixed_root_status_read";
  op_commands := "env_i_fixed_opkg_version_and_cat_root_status"; op_parser := "bounded_utf8_lf_stanzas_unique_case_insensitive_fields";
  op_projection := "name_version_arch_status_no_layer_no_filter"; op_read_effects := "no_opkg_init_no_config_no_scripts";
  op_snapshot := "shared_with_apk_profile_operation_epoch_nonce_absolute_ttl"; op_max_line_bytes := 8192; op_max_fields_per_stanza := 64;
  op_max_field_name_bytes := 64; op_max_status_bytes := 128;
  op_required_tests := ["crates/core/tests/packages.rs"; "crates/features/tests/packages.rs"; "crates/runtime/tests/packages.rs"; "crates/device-codec/tests/packages.rs"; "crates/mcp/tests/packages.rs"; "crates/backend-ssh/tests/remote.rs"]
|}.

(** [UciReadContract] of [uci_reads.rs] *)
Record UciReadContract : Type := {
  uc_option_collections : option string; uc_domain_owner : string; uc_definitions_owner : string; uc_invocation : string; uc_profiles : list string;
  uc_actions : string; uc_custom_uci : string; uc_requirement : string; uc_projection : string; uc_view : string; uc_required_tests : list string
}.
#[export] Instance UciReadContract_eq_dec : EqDecision UciReadContract.
Proof. solve_decision. Defined.

(** [ProjectionContract] of [projection.rs] *)
Record ProjectionContract : Type := {
  pr_text_options : option string; pr_text_option_output : option string; pr_text_option_budget : option string; pr_max_text_option_items : option Z;
  pr_text_enums : option string; pr_max_text_enum_values : option Z; pr_observation_rows : option string; pr_scalar_union : option string;
  pr_root_guards : option string; pr_max_root_guards : option Z; pr_owner : string; pr_profile : string; pr_prepared_invocation : string;
  pr_node_forms : list string; pr_finite_schema : string; pr_root_selection : string; pr_map_keys : string; pr_builtin_raw_subtrees : string;
  pr_invalid_shape : string; pr_overflow : string; pr_max_collection_depth : Z; pr_max_collection_nodes : Z; pr_max_total_items : Z;
  pr_max_emitted_items : Z; pr_max_items_per_collection : Z; pr_max_fields_per_record : Z; pr_max_schema_depth : Z; pr_max_pointer_depth : Z;
  pr_max_pointer_bytes : Z; pr_max_output_name_bytes : Z; pr_max_string_bytes : Z; pr_max_normalized_bytes : Z; pr_required_tests : list string
}.
#[export] Instance ProjectionContract_eq_dec : EqDecision ProjectionContract.
Proof. solve_decision. Defined.

(** [ActionResponseContract] of [projection.rs] *)
Record ActionResponseContract : Type := {
  ar_owner : string; ar_profile : string; ar_consumers : list string; ar_duplicate_keys : string; ar_max_depth : Z; ar_max_nodes : Z;
  ar_max_bytes : Z; ar_required_tests : list string
}.
#[export] Instance ActionResponseContract_eq_dec : EqDecision ActionResponseContract.
Proof. solve_decision. Defined.

(** [McpResultContract] of [projection.rs] *)
Record McpResultContract : Type := {
  mr_owner : string; mr_normalized_owner : string; mr_normalized_phase : string; mr_max_serialized_bytes : Z; mr_serialized_scope : string;
  mr_required_tests : list string
}.
#[export] Instance McpResultContract_eq_dec : EqDecision McpResultContract.
Proof. solve_decision. Defined.

(** [CapabilityContract] of [capability.rs] *)
Record CapabilityContract : Type := {
  cp_probe_profile : option string; cp_probe_registry : string; cp_evidence_manifest : string; cp_required_tests : list string
}.
#[export] Instance CapabilityContract_eq_dec : EqDecision CapabilityContract.
Proof. solve_decision. Defined.

(** [WindowsReadContract] of [windows_reads.rs] *)
Record WindowsReadContract : Type := {
  wr_owner : string; wr_native_file : string; wr_policy_file : string; wr_profile : string; wr_paths : string; wr_ancestors : string;
  wr_leaf : string; wr_descriptor : string; wr_trusted : string; wr_vault : string; wr_unsafe_scope : string; wr_sdk : string;
  wr_capabilities : string; wr_max_path_units : Z; wr_max_components : Z; wr_max_descriptor_bytes : Z; wr_max_token_bytes : Z;
  wr_required_test : string
}.
#[export] Instance WindowsReadContract_eq_dec : EqDecision WindowsReadContract.
Proof. solve_decision. Defined.
Definition EXPECTED_WindowsRead : WindowsReadContract := {|
  wr_owner := "openwrt-mcp-host-platform"; wr_native_file := "crates/host-platform/src/windows/native.rs";
  wr_policy_file := "crates/host-platform/src/windows/policy.rs"; wr_profile := "local_ntfs_handle_walk_v1";
  wr_paths := "absolute_dos_no_alias_stream_or_reparse"; wr_ancestors := "held_no_delete_share_trusted_owner_dacl";
  wr_leaf := "single_link_read_only_share"; wr_descriptor := "bounded_self_relative_conservative_allow_aces";
  wr_trusted := "process_user_system_administrators_root_trustedinstaller"; wr_vault := "unsupported_no_fallback";
  wr_unsafe_scope := "expressions_in_native_file_only"; wr_sdk := "windows-sys_0.61.2_windows_only";
  wr_capabilities := "separate_protected_reads_and_private_log"; wr_max_path_units := 4096; wr_max_components := 128;
  wr_max_descriptor_bytes := 65536; wr_max_token_bytes := 4096; wr_required_test := "crates/host-platform/tests/windows.rs"
|}.

(** [WindowsLogContract] of [windows_logs.rs] *)
Record WindowsLogContract : Type := {
  wl_owner : string; wl_facade : string; wl_native_file : string; wl_profile : string; wl_port : string; wl_entry : string; wl_creation : string;
  wl_append : string; wl_rotation : string; wl_validation : string; wl_failure : string; wl_capabilities : string; wl_durability : string;
  wl_max_bytes : Z; wl_max_retained : Z; wl_max_chunk_bytes : Z; wl_max_path_units : Z; wl_max_component_units : Z; wl_max_components : Z;
  wl_max_descriptor_bytes : Z; wl_required_test : string
}.
#[export] Instance WindowsLogContract_eq_dec : EqDecision WindowsLogContract.
Proof. solve_decision. Defined.
Definition EXPECTED_WindowsLog : WindowsLogContract := {|
  wl_owner := "openwrt-mcp-host-platform"; wl_facade := "crates/host-platform/src/windows/log.rs";
  wl_native_file := "crates/host-platform/src/windows/native.rs"; wl_profile := "local_ntfs_private_audit_v1";
  wl_port := "opaque_parent_send_write_only_no_native_types"; wl_entry := "open_log_exact_parent_box_log_writer";
  wl_creation := "current_user_protected_dacl_noinherit_create_nooverwrite"; wl_append := "only_append_no_write_data_no_delete_share";
  wl_rotation := "preflight_held_generations_oldest_delete_descending_no_replace_create_new";
  wl_validation := "held_ancestors_owner_dacl_single_link_name_size_before_after"; wl_failure := "terminal_latch_no_reopen_no_cleanup_unvalidated";
  wl_capabilities := "private_log_only_not_vault_syslog_or_ciphertext_store"; wl_durability := "no_fsync_no_atomic_rotation_no_hard_cancellation";
  wl_max_bytes := 1073741824; wl_max_retained := 100; wl_max_chunk_bytes := 65536; wl_max_path_units := 4096; wl_max_component_units := 255;
  wl_max_components := 128; wl_max_descriptor_bytes := 65536; wl_required_test := "crates/host-platform/tests/windows.rs"
|}.

(** [SealingContract] of [sealing.rs] *)
Record SealingContract : Type := {
  se_owner : string; se_module : string; se_profile : string; se_inputs : string; se_completion : string; se_cipher : string; se_stage : string;
  se_publication : string; se_late_ack : string; se_cleanup : string; se_unwind : string; se_deadline : string; se_failure : string;
  se_memory : string; se_effects : string; se_consumers : string; se_fixture_owner : string; se_fixture_dependency : string; se_max_chunk_bytes : Z;
  se_default_source_bytes : Z; se_default_ciphertext_bytes : Z; se_max_source_bytes : Z; se_max_ciphertext_bytes : Z; se_default_timeout_ms : Z;
  se_max_timeout_ms : Z; se_max_files : Z; se_max_payload_bytes : Z; se_max_expanded_bytes : Z; se_required_tests : list string
}.
#[export] Instance SealingContract_eq_dec : EqDecision SealingContract.
Proof. solve_decision. Defined.
Definition EXPECTED_Sealing : SealingContract := {|
  se_owner := "openwrt-mcp-runtime"; se_module := "crates/runtime/src/sealing"; se_profile := "provided_stream_sealing_v1";
  se_inputs := "trusted_prebound_source_checker_cipher_private_stage"; se_completion := "true_eof_independent_counts_archive_and_producer_complete";
  se_cipher := "public_recipient_encryption_session_bridge_no_identity"; se_stage := "required_private_atomic_durable_declared_by_trusted_port";
  se_publication := "one_attempt_not_attempted_not_published_published_unknown"; se_late_ack := "known_published_error_no_abort_or_retry";
  se_cleanup := "once_unfinished_source_and_unpublished_stage_preserve_uncertainty";
  se_unwind := "best_effort_before_publish_unknown_before_callback"; se_deadline := "monotonic_before_after_callbacks_cooperative_not_cancellation";
  se_failure := "shared_first_stream_error_latch_no_raw_errors"; se_memory := "counters_and_one_byte_zeroizing_probe_no_whole_stream";
  se_effects := "no_handles_target_policy_decryption_or_mcp"; se_consumers := "none_until_authorized_workflow_checkpoint";
  se_fixture_owner := "openwrt-mcp"; se_fixture_dependency := "device_codec_development_only"; se_max_chunk_bytes := 65536;
  se_default_source_bytes := 67108864; se_default_ciphertext_bytes := 68157440; se_max_source_bytes := 75497472; se_max_ciphertext_bytes := 76546048;
  se_default_timeout_ms := 30000; se_max_timeout_ms := 300000; se_max_files := 4096; se_max_payload_bytes := 67108864;
  se_max_expanded_bytes := 75497472; se_required_tests := ["crates/runtime/tests/protection.rs"; "crates/server/tests/protection_composition.rs"]
|}.

(** [GzipArchiveContract] of [gzip_archives.rs] *)
Record GzipArchiveContract : Type := {
  gz_owner : string; gz_module : string; gz_profile : string; gz_input : string; gz_header : string; gz_integrity : string; gz_completion : string;
  gz_inner : string; gz_failure : string; gz_result : string; gz_memory : string; gz_effects : string; gz_consumers : string; gz_backend : string;
  gz_max_chunk_bytes : Z; gz_max_source_bytes : Z; gz_max_header_bytes : Z; gz_max_extra_bytes : Z; gz_max_name_bytes : Z; gz_max_comment_bytes : Z;
  gz_output_buffer_bytes : Z; gz_max_expansion_ratio : Z; gz_expansion_slack_bytes : Z; gz_expansion_check : string; gz_required_tests : list string
}.
#[export] Instance GzipArchiveContract_eq_dec : EqDecision GzipArchiveContract.
Proof. solve_decision. Defined.
Definition EXPECTED_GzipArchive : GzipArchiveContract := {|
  gz_owner := "openwrt-mcp-device-codec"; gz_module := "crates/device-codec/src/gzip"; gz_profile := "single_gzip_regular_tar_v1";
  gz_input := "bounded_incremental_supplied_gzip_bytes"; gz_header := "exact_deflate_reserved_zero_bounded_optional_metadata";
  gz_integrity := "backend_checked_header_crc_payload_crc32_and_isize"; gz_completion := "one_member_exact_end_no_suffix_or_concatenation";
  gz_inner := "owned_regular_tar_manifest_validator_no_early_summary"; gz_failure := "latched_first_error_no_reset_or_fallback";
  gz_result := "count_only_structure_and_corruption_check_not_authenticity";
  gz_memory := "zeroizing_owned_buffers_bounded_backend_window_not_scrub_guaranteed"; gz_effects := "no_io_keys_crypto_extraction_or_authorization";
  gz_consumers := "none_until_separate_workflow_integration"; gz_backend := "flate2_1.1.10_zlib_rs_only_low_level"; gz_max_chunk_bytes := 65536;
  gz_max_source_bytes := 75497472; gz_max_header_bytes := 4096; gz_max_extra_bytes := 4084; gz_max_name_bytes := 1024; gz_max_comment_bytes := 1024;
  gz_output_buffer_bytes := 4096; gz_max_expansion_ratio := 128; gz_expansion_slack_bytes := 1048576;
  gz_expansion_check := "final_complete_deflate_bytes_excluding_header_trailer";
  gz_required_tests := ["crates/device-codec/tests/action_response.rs"]
|}.

(** [BackupArchiveContract] of [backup_archives.rs] *)
Record BackupArchiveContract : Type := {
  ba_owner : string; ba_module : string; ba_profile : string; ba_formats : string; ba_input : string; ba_manifest : string; ba_paths : string;
  ba_entries : string; ba_numbers : string; ba_completion : string; ba_failure : string; ba_memory : string; ba_result : string; ba_effects : string;
  ba_consumers : string; ba_max_chunk_bytes : Z; ba_max_archive_bytes : Z; ba_max_payload_bytes : Z; ba_max_file_bytes : Z; ba_max_files : Z;
  ba_max_path_bytes : Z; ba_max_path_components : Z; ba_max_component_bytes : Z; ba_max_tail_bytes : Z; ba_required_tests : list string
}.
#[export] Instance BackupArchiveContract_eq_dec : EqDecision BackupArchiveContract.
Proof. solve_decision. Defined.
Definition EXPECTED_BackupArchive : BackupArchiveContract := {|
  ba_owner := "openwrt-mcp-device-codec"; ba_module := "crates/device-codec/src/archive"; ba_profile := "regular_tar_manifest_v1";
  ba_formats := "exact_ustar_or_gnu_without_extensions"; ba_input := "incremental_supplied_uncompressed_bytes";
  ba_manifest := "nonempty_exact_paths_and_sizes_all_once_no_file_ancestors"; ba_paths := "bounded_relative_ascii_no_normalization";
  ba_entries := "regular_only_no_links_directories_extensions_or_special"; ba_numbers := "unsigned_octal_no_base256_or_embedded_terminators";
  ba_completion := "two_zero_blocks_bounded_aligned_zero_tail_and_full_manifest"; ba_failure := "latched_first_error_no_reset";
  ba_memory := "zeroizing_headers_paths_no_payload_retention"; ba_result := "count_only_structure_not_provenance_or_producer_success";
  ba_effects := "no_io_crypto_actions_extraction_or_authorization"; ba_consumers := "none_until_separate_integration_checkpoint";
  ba_max_chunk_bytes := 65536; ba_max_archive_bytes := 75497472; ba_max_payload_bytes := 67108864; ba_max_file_bytes := 8388608;
  ba_max_files := 4096; ba_max_path_bytes := 256; ba_max_path_components := 32; ba_max_component_bytes := 100; ba_max_tail_bytes := 32768;
  ba_required_tests := ["crates/device-codec/tests/action_response.rs"]
|}.

(** [ManagementEffectContract] of [management_effects.rs] *)
Record ManagementEffectContract : Type := {
  me_domain_owner : string; me_module : string; me_profile : string; me_purpose : string; me_identity : string; me_edges : string;
  me_history : string; me_completeness : string; me_protected : string; me_global : string; me_result : string; me_effects : string;
  me_serialization : string; me_consumers : string; me_max_nodes : Z; me_max_edges : Z; me_max_roots : Z; me_max_protected : Z;
  me_max_identity_bytes : Z; me_required_tests : list string
}.
#[export] Instance ManagementEffectContract_eq_dec : EqDecision ManagementEffectContract.
Proof. solve_decision. Defined.
Definition EXPECTED_ManagementEffect : ManagementEffectContract := {|
  me_domain_owner := "openwrt-mcp-core"; me_module := "crates/core/src/management"; me_profile := "bounded_influence_graph_v1";
  me_purpose := "non_authorizing_supplied_graph_predicate"; me_identity := "typed_exact_ascii_no_alias_resolution";
  me_edges := "directed_change_influences_dependent"; me_history := "conservative_before_after_union"; me_completeness := "reachable_unknown_denies";
  me_protected := "nonempty_present_in_both_graphs"; me_global := "deny_with_protected_resources";
  me_result := "count_only_no_known_protected_impact"; me_effects := "no_device_io_actions_or_policy"; me_serialization := "no_serde_no_json";
  me_consumers := "none_until_separate_integration_checkpoint"; me_max_nodes := 4096; me_max_edges := 8192; me_max_roots := 256;
  me_max_protected := 128; me_max_identity_bytes := 128; me_required_tests := ["crates/core/tests/security.rs"]
|}.
(** The constants of [capability.rs] *)
Definition OBJECTS : list string := [
  "system"; "network.device"; "network.interface"; "network.interface.lan"; "network.interface.wan"; "iwinfo"; "service"].
Definition CAPABILITY_SUITES : list string := [
  "crates/features/tests/capability_contracts.rs"; "crates/runtime/tests/capabilities.rs"; "crates/device-codec/tests/ubus_describe.rs"].
Definition LEVELS : list string := [
  "source"; "synthetic"; "native"; "emulated"; "exact_device"].

(** The constants of [uci_reads.rs] and [projection.rs] *)
Definition INITIAL_PROFILES : list string := [
  "system:system"; "network:interface"; "wireless:wifi-device"; "firewall:defaults"; "dhcp:dnsmasq"; "fstab:mount"].
Definition BASE_PROFILES : list string := [
  "system:system"; "network:interface"; "wireless:wifi-device"; "firewall:defaults"; "dhcp:dnsmasq"; "fstab:mount"; "system:timeserver";
  "network:device"; "network:bridge-vlan"; "network:route"; "network:route6"; "network:rule"; "network:rule6"; "firewall:zone";
  "firewall:forwarding"; "firewall:rule"; "firewall:redirect"; "firewall:nat"; "dhcp:dhcp"; "dhcp:host"; "dhcp:domain"; "dhcp:cname"; "fstab:global";
  "fstab:swap"].
Definition SYSTEM_SERVICE_PROFILES : list string := [
  "system:led"; "dropbear:dropbear"; "uhttpd:uhttpd"; "dhcp:odhcpd"].
Definition UCI_SUITES : list string := [
  "crates/core/tests/capabilities.rs"; "crates/core/tests/collection_projection.rs"; "crates/features/tests/collection_contracts.rs";
  "crates/runtime/tests/collection_projection.rs"; "crates/mcp/tests/read_contracts.rs"].
Definition PROJECTION_SUITES : list string := [
  "crates/core/tests/collection_projection.rs"; "crates/features/tests/collection_contracts.rs"; "crates/runtime/tests/collection_projection.rs"].

(** The constants of [ciphertext_foundations.rs] *)
Definition CIPHERTEXT_RULES : list (string * string) := [
  ("profile", "authenticated_preprovisioned_record_store_v1"); ("design", "docs/ciphertext-foundations.md");
  ("scope", "provided_admitted_system_tar_or_single_gzip_no_hooks_no_mutation_authority");
  ("capture", "same_pinned_ssh_fixed_guardian_subsystem_binary_eof_exit_count_no_json"); ("stage", "private_bounded_memory_only_no_plaintext_files");
  ("store", "preexisting_authenticated_file_exclusive_lock_append_only_no_namespace_mutation");
  ("publication", "complete_authenticated_record_visibility_then_sync_all_or_unknown");
  ("provenance", "hmac_sha256_separate_32_byte_key_store_target_boot_job_scope_format_counts_ciphertext");
  ("restore", "verify_expected_binding_and_mac_then_full_age_auth_before_inspection");
  ("worker", "one_process_wide_joinable_thread_no_queue_cancel_on_drop_join_before_release");
  ("limitations", "operator_provisioned_durable_name_local_filesystem_no_acl_or_root_isolation_claim"); ("max_plaintext_bytes", "131072");
  ("max_ciphertext_bytes", "1048576"); ("max_store_records", "32"); ("max_store_bytes", "33562688"); ("max_transfer_bytes", "65536");
  ("max_timeout_ms", "30000"); ("dependencies", "crypto-age:hmac=0.12.1,sha2=0.10.9;adapters:zeroize;backend-ssh:zeroize;key-sources:async-trait");
  ("tests", "tools/xtask/tests/ciphertext_foundations.rs;crates/server/tests/protection_composition.rs;crates/backend-ssh/tests/remote.rs")].
Definition NAMESPACES : list string := [
  "openwrt_mcp_runtime::backups"; "openwrt_mcp_host_platform::ciphertext"].
Definition CIPHERTEXT_EDGES : list (string * string) := [
  ("crates/adapters/src/backups/", "openwrt_mcp_runtime::backups"); ("crates/backend-ssh/src/transactions/", "openwrt_mcp_runtime::backups");
  ("crates/crypto-age/src/provenance/", "openwrt_mcp_runtime::backups"); ("crates/server/src/transactions/", "openwrt_mcp_runtime::backups");
  ("crates/adapters/src/backups/", "openwrt_mcp_host_platform::ciphertext")].

(** The constants of [guarded_mutations.rs] *)
Definition GUARDED_RULES : list (string * string) := [
  ("profile", "guarded_hostname_v1"); ("design", "docs/guarded-mutation-contracts.md"); ("delivery", "architecture_only_no_mutation_tool");
  ("entry", "same_dispatcher_authorize_all_requirements_audit_each_request"); ("intent", "one_existing_system_section_hostname_ascii_label_1_to_63");
  ("effects", "persistent_hostname_and_kernel_hostname_no_system_reload");
  ("protected_resources", "operator_owned_nonempty_before_after_closure_lan3_preserved");
  ("baseline", "private_exact_committed_bytes_pending_effects_target_boot_profile_policy");
  ("admission", "authenticated_device_single_owner_exclusive_operator_window");
  ("concurrency", "external_root_not_isolated_detected_drift_denies_no_blind_restore");
  ("recovery", "durable_ciphertext_journal_dedicated_device_identity_no_archival_identity");
  ("restart", "unconfirmed_job_recovers_before_new_admission_no_deadline_extension");
  ("confirmation", "owner_bound_fresh_verify_durable_compare_and_swap_before_expiry");
  ("uncertainty", "retain_recovery_authority_reconcile_status_never_resubmit");
  ("audit", "before_effect_fail_closed_after_effect_preserve_recovery");
  ("channels", "bounded_control_binary_capture_secret_and_job_status_separate");
  ("storage", "private_no_replace_atomic_visibility_durable_receipt_or_unknown");
  ("restore", "fully_authenticated_bounded_private_memory_no_plaintext_backup_files");
  ("secrets", "purpose_bound_zeroizing_non_debug_non_serde_no_paths_in_mcp");
  ("worker", "one_joinable_bounded_worker_abort_before_apply_not_detached");
  ("publication", "operator_provisioned_no_auto_install_or_key_generation")].
Definition GUARDED_LIMITS : list (string * Z) := [
  ("max_jobs_per_device", 1); ("max_plans_per_host", 8); ("max_workers_per_host", 1); ("max_queued_jobs", 0); ("plan_ttl_seconds", 60);
  ("admission_timeout_seconds", 30); ("apply_timeout_seconds", 10); ("confirm_timeout_seconds", 120); ("recovery_timeout_seconds", 60);
  ("max_control_bytes", 16384); ("max_frame_bytes", 65536); ("max_secret_bytes", 65536); ("max_hostname_bytes", 63);
  ("max_system_file_bytes", 65536); ("max_recovery_plaintext_bytes", 131072); ("max_recovery_ciphertext_bytes", 1048576);
  ("max_journal_bytes", 1048576); ("max_retained_jobs", 32); ("retention_seconds", 604800); ("guardian_binary_mib", 10);
  ("guardian_idle_rss_mib", 16); ("guardian_peak_rss_mib", 32); ("guardian_idle_cpu_percent", 1)].
Definition REQUIREMENTS : list string := [
  "plan:system.read"; "status:system.read+job_owner"; "apply:system.read_write+execute+effects+backup"; "confirm:original_union+job_owner";
  "recover:original_union+job_owner"; "automatic_recovery:admitted_obligation_not_new_client_authority"].
Definition STATES : list string := [
  "planned"; "admitted"; "backup_complete"; "recovery_armed"; "applying"; "awaiting_confirmation"; "confirmed"; "recovering"; "recovered";
  "cancelled"; "recovery_failed"; "outcome_unknown"].
Definition TRANSITIONS : list string := [
  "planned|admit|admitted|fresh_owner_policy_audit_baseline_effects_capacity";
  "admitted|seal|backup_complete|complete_capture_manifest_cipher_durable_receipt";
  "backup_complete|arm|recovery_armed|device_recovery_ciphertext_key_and_journal_durable";
  "recovery_armed|apply|applying|recheck_all_then_durable_intent_before_first_write";
  "applying|verify|awaiting_confirmation|fresh_committed_and_kernel_postconditions";
  "awaiting_confirmation|confirm|confirmed|owner_reauthorize_fresh_verify_unexpired_durable_cas"; "planned|cancel|cancelled|no_device_effect";
  "admitted|cancel|cancelled|prove_no_write_release_owner"; "backup_complete|cancel|cancelled|prove_no_write_preserve_published_backup";
  "recovery_armed|cancel|cancelled|durable_disarm_only_if_no_apply_intent"; "applying|failure_or_expiry|recovering|durable_recovery_obligation";
  "awaiting_confirmation|failure_or_expiry|recovering|durable_recovery_obligation";
  "recovering|verify_recovery|recovered|fresh_preimage_postconditions_and_durable_terminal";
  "recovering|failure|recovery_failed|retain_ciphertext_and_admission_block"; "applying|lost_evidence|outcome_unknown|retain_owner_journal_no_retry";
  "awaiting_confirmation|lost_evidence|outcome_unknown|retain_owner_journal_no_retry";
  "recovering|lost_evidence|outcome_unknown|retain_owner_journal_no_retry";
  "outcome_unknown|reconcile|recovering|authenticated_journal_unconfirmed_apply_intent";
  "outcome_unknown|reconcile_confirmed|confirmed|authenticated_durable_confirm_record";
  "outcome_unknown|reconcile_recovered|recovered|authenticated_terminal_and_fresh_preimage";
  "outcome_unknown|reconcile_failed|recovery_failed|authenticated_failure_preserve_artifacts"].
Definition PORTS : list string := [
  "trait MutationObservation: Send + Sync { async fn observe(&self, binding: &TargetBinding, budget: WorkBudget) -> Result<PrivateBaseline, MutationError>; }";
  "trait DeviceAdmission: Send + Sync { async fn admit(&self, plan: &ValidatedPlan, owner: &OwnerBinding, budget: WorkBudget) -> Result<Admission, MutationError>; }";
  "trait BackupCapture: Send + Sync { async fn capture(&self, admission: &Admission, budget: WorkBudget) -> Result<CaptureLease, MutationError>; }";
  "trait CiphertextStore: Send + Sync { async fn stage(&self, artifact: &ArtifactBinding, budget: WorkBudget) -> Result<StageLease, MutationError>; async fn reconcile(&self, artifact: &ArtifactBinding) -> Result<PublicationState, MutationError>; }";
  "trait SecretSource: Send + Sync { async fn resolve(&self, reference: &SecretReference, purpose: SecretPurpose, budget: WorkBudget) -> Result<SecretValue, MutationError>; }";
  "trait DeviceJobControl: Send + Sync { async fn arm(&self, admission: &Admission, backup: &DurableBackup, budget: WorkBudget) -> Result<ArmedJob, MutationError>; async fn apply_once(&self, job: &ArmedJob, budget: WorkBudget) -> Result<JobReceipt, MutationError>; async fn status(&self, job: &OwnedJob, budget: WorkBudget) -> Result<PrivateJobStatus, MutationError>; async fn confirm(&self, job: &VerifiedJob, budget: WorkBudget) -> Result<JobReceipt, MutationError>; async fn recover(&self, job: &OwnedJob, budget: WorkBudget) -> Result<JobReceipt, MutationError>; }"].
Definition GUARDED_EDGES : list string := [
  "crates/runtime/src/transactions/ -> openwrt_mcp_core::management"; "crates/runtime/src/transactions/ -> openwrt_mcp_core::transactions";
  "crates/runtime/src/mutation_ports/ -> openwrt_mcp_core::transactions"; "crates/device-codec/src/transactions/ -> openwrt_mcp_core::transactions";
  "crates/adapters/src/backups/ -> openwrt_mcp_runtime::sealing"; "crates/crypto-age/src/sealing/ -> openwrt_mcp_runtime::sealing";
  "crates/adapters/src/backups/ -> openwrt_mcp_device_codec::gzip"; "crates/adapters/src/backups/ -> openwrt_mcp_device_codec::archive";
  "crates/adapters/src/backups/ -> openwrt_mcp_runtime::mutation_ports"; "crates/adapters/src/guardian/ -> openwrt_mcp_runtime::mutation_ports";
  "crates/backend-ssh/src/transactions/ -> openwrt_mcp_runtime::mutation_ports";
  "crates/key-sources/src/secrets/ -> openwrt_mcp_runtime::mutation_ports"; "crates/server/src/transactions/ -> openwrt_mcp_runtime::mutation_ports";
  "crates/adapters/src/guardian/ -> openwrt_mcp_device_codec::transactions";
  "crates/backend-ssh/src/transactions/ -> openwrt_mcp_device_codec::transactions"].
Definition PRIVATE_NAMESPACES : list string := [
  "openwrt_mcp_core::transactions"; "openwrt_mcp_runtime::mutation_ports"; "openwrt_mcp_runtime::transactions";
  "openwrt_mcp_device_codec::transactions"; "openwrt_mcp_runtime::backups"; "openwrt_mcp_host_platform::ciphertext"].
Definition GUARDED_TESTS : list string := [
  "tools/xtask/tests/guarded_mutations.rs"; "tools/xtask/tests/end_to_end.rs"].

(** ** The contract *)
Inductive DeclarationValue : Type := DText (text : string) | DLimit (n : Z) | DList (l : list string).
#[export] Instance DeclarationValue_eq_dec : EqDecision DeclarationValue.
Proof. solve_decision. Defined.

Record CrateRule : Type := {
  r_name : string; r_path : string; r_layer : string; r_dependencies : list string; r_dev_dependencies : list string;
  r_build_dependencies : list string; r_forbidden_paths : list string; r_allowed_macros : list string
}.
#[export] Instance CrateRule_eq_dec : EqDecision CrateRule.
Proof. solve_decision. Defined.

Record Contract : Type := {
  ciphertext_foundation_contract : option (list (string * string));
  guarded_mutation_contract : option (list (string * DeclarationValue));
  windows_log_contract : option WindowsLogContract; archive_sealing_contract : option SealingContract;
  gzip_archive_contract : option GzipArchiveContract; backup_archive_contract : option BackupArchiveContract;
  management_effect_contract : option ManagementEffectContract; opkg_status_contract : option OpkgStatusContract;
  uci_read_contract : option UciReadContract; windows_read_contract : option WindowsReadContract;
  version : Z; decision : string; requirements : string; architecture_document : string; required_hosts : list string;
  portable_crates : list string; required_portable_tests : list string; native_ci : string;
  capability_contract : option CapabilityContract; projection_contract : option ProjectionContract;
  action_response_contract : option ActionResponseContract; mcp_result_contract : option McpResultContract;
  package_contract : option PackageContract; crates : list CrateRule
}.
#[export] Instance Contract_eq_dec : EqDecision Contract.
Proof. solve_decision. Defined.

(** ** Paths and ownership *)
Inductive Component : Type := RootDir | CurDir | ParentDir | Normal (part : string).
#[export] Instance Component_eq_dec : EqDecision Component.
Proof. solve_decision. Defined.
Definition is_normal (c : Component) : bool := match c with Normal _ => true | _ => false end.

(** [Path::components] where the separator is a slash: a root, [.] only at the
    front, and no empty component. *)
Definition part_of (first : bool) (part : string) : list Component :=
  if is_empty part then []
  else if String.eqb part "." then (if first then [CurDir] else [])
  else if String.eqb part ".." then [ParentDir] else [Normal part].
Definition components (value : string) : list Component :=
  match split_on "/" value with
  | [] => []
  | first :: rest =>
      (if starts_with "/" value then [RootDir] else part_of true first) ++ concat (part_of false <$> rest)
  end.

Definition safe_path (value : string) : bool :=
  negb (is_empty value) && negb (contains_sub "\" value) && forallb is_normal (components value).

(** The directory of a crate, as the prefix of its files. *)
Definition directory (rule : CrateRule) : string := r_path rule +:+ "/".

(** The loop of [owner]: the first rule whose directory holds the file. *)
Fixpoint find_owner (file : string) (rules : list CrateRule) : CheckResult (CrateRule * bool) :=
  match rules with
  | [] => Err (Message ("unowned Rust source: " +:+ file))
  | rule :: rules =>
      match strip_prefix (directory rule) file with
      | Some local =>
          if starts_with "src/" local then Ok (rule, String.eqb (r_layer rule) "development")
          else if starts_with "tests/" local || starts_with "examples/" local then Ok (rule, true)
          else Err (Message ("Rust source outside standard owned directories: " +:+ file))
      | None => find_owner file rules
      end
  end.
Definition owner (c : Contract) (file : string) : CheckResult (CrateRule * bool) :=
  fail_if negb (safe_path file) with Message "unsafe source path" in find_owner file (crates c).

(** [exact], [exact_strings]: the same values without repetition, in any order. *)
Definition exact (actual expected : list string) : bool :=
  Nat.eqb (length actual) (length expected) && bool_decide (list_to_set actual =@{gset string} list_to_set expected).

Definition mem (x : string) (l : list string) : bool := bool_decide (x ∈ l).
(** [iter.find(..)] *)
Definition find_rule (p : CrateRule -> bool) (c : Contract) : option CrateRule := List.find p (crates c).
Definition named (name : string) (rule : CrateRule) : bool := String.eqb (r_name rule) name.

(** [s.split_once(p)] for a nonempty pattern, [s.replace(a, b)] on characters. *)
Fixpoint split_once_at (p s : string) : option (string * string) :=
  match strip_prefix p s with
  | Some rest => Some (EmptyString, rest)
  | None => match s with EmptyString => None | String a s => '(l, r) ← split_once_at p s; Some (String a l, r) end
  end.
Definition replace_char (a b : ascii) (s : string) : string := filter_map_str (fun x => Some (if Ascii.eqb x a then b else x)) s.

