(* ===== verification/Syntax.v ===== *)
(** * Syntax trees of source files

    What the checks of [tools/xtask/src/] read of Rust sources: token trees of
    proc_macro2 and the tree that syn parses, as its traversals ([syn::visit])
    go through it, with the traversals that collect names.  Parsing and
    printing are syn's and the operations of a record. *)
From stdpp Require Import gmap strings.
From S2P Require Import Prelude Text Core Order Json Spec.
Open Scope Z_scope.

(** ** Tokens and names *)
Inductive TokenTree : Type := Group (stream : list TokenTree) | Ident (name : string) | Punct (char : ascii) | Literal.

(** [trim_start_matches("r#")] *)
Fixpoint ident_text (ident : string) : string :=
  match ident with String "r" (String "#" rest) => ident_text rest | _ => ident end.
(** [syn::Path]: plain when it has no leading separator and no arguments. *)
Record SynPath : Type := { p_plain : bool; p_idents : list string }.
Definition path_text (p : SynPath) : string := join "::" (ident_text <$> p_idents p).
(** [Path::is_ident] *)
Definition is_ident (p : SynPath) (name : string) : bool := p_plain p && match p_idents p with [ident] => String.eqb ident name | _ => false end.
(** The identifiers anywhere in a stream. *)
Fixpoint token_idents (token : TokenTree) : list string :=
  match token with Ident name => [name] | Group stream => concat (map token_idents stream) | _ => [] end.
Definition stream_idents (stream : list TokenTree) : list string := token_idents (Group stream).

(** ** Attributes *)
(** The value of [name = value]: a string literal with the path it parses to. *)
Inductive Value : Type := StringPath (path : option SynPath) | OtherLiteral | OtherExpression.
Inductive Meta : Type := MetaPath | MetaList (tokens : list TokenTree) | MetaNameValue.
(** An attribute, and what its arguments parse to: as one path, as one meta
    (printed), as a list of metas and as a list of paths. *)
Record Attr : Type := {
  a_path : SynPath; a_meta : Meta; a_printed : string;
  a_cfg : option SynPath; a_condition : option string;
  a_metas : option (list (SynPath * option Value)); a_derives : option (list SynPath)
}.

(** ** Items *)
Inductive UseTree : Type :=
| UsePath (ident : string) (tree : UseTree) | UseName (ident : string) | UseRename (ident rename : string) | UseGlob | UseGroup (items : list UseTree).
Inductive Visibility : Type := Inherited | Public | Restricted (printed : string).
(** A trait printed whole; without its visibility, its attributes and the last
    commas of its parameter lists; and without its attributes and those of its
    methods. *)
Record Declaration : Type := { d_ident : string; d_printed : string; d_bare : string; d_plain : string }.
Inductive ItemKind : Type :=
| Use (tree : UseTree) | ExternCrate (ident : string) (rename : option string) | Mod (ident : string) (inline : bool)
| Fn (unsafety abi : bool) (signature : string) (empty : bool) | Impl (unsafety : bool) | Trait (unsafety : bool) (declaration : Declaration)
| ForeignMod | TypeAlias | Struct | Enum | Const | Static | Union | OtherItem.

(** ** Trees

    The children of a node are what the default traversal visits below it: of
    an item its attributes, visibility and parts, of an attribute the value it
    has.  An attribute also keeps, out of the default traversal, each of its
    arguments as an attribute of its own. *)
Inductive Tag : Type :=
| TFile | TItem (kind : ItemKind) (visibility : Visibility) | TAttribute (a : Attr) | TArgument (index : nat)
| TMethod (unsafety abi : bool) | TField (visibility : Visibility) | TType | TSignature | TUnsafe
| TPath (path : SynPath) | TMacro (path : SynPath) (body : list TokenTree) | TIdent (ident : string) | TPart.
Inductive Tree : Type := Branch (tag : Tag) (children : list Tree).

Definition tag_of (t : Tree) : Tag := let '(Branch tag _) := t in tag.
Definition children_of (t : Tree) : list Tree := let '(Branch _ children) := t in children.
Definition visited (t : Tree) : bool := match tag_of t with TArgument _ => false | _ => true end.
Definition is_item (t : Tree) : bool := match tag_of t with TItem _ _ => true | _ => false end.
Definition is_attribute (t : Tree) : bool := match tag_of t with TAttribute _ => true | _ => false end.
Definition is_type (t : Tree) : bool := match tag_of t with TType => true | _ => false end.
Definition is_signature (t : Tree) : bool := match tag_of t with TSignature => true | _ => false end.
(** The attributes of an item are among its children. *)
Definition item_attributes (children : list Tree) : list Attr := omap (fun t => match tag_of t with TAttribute a => Some a | _ => None end) children.

(** What syn does with texts: [syn::parse_file], parsing what a tree prints as,
    [syn::parse_str] for a trait, and for a signature that is printed again. *)
Record Syn : Type := {
  parse_file : string -> option Tree;
  parse_again : Tree -> option Tree;
  parse_trait : string -> option Declaration;
  parse_signature : string -> option string
}.

(** ** Names that a file imports *)
(** [s.strip_suffix(p)] *)
Definition strip_suffix (suffix s : string) : option string :=
  if ends_with suffix s then Some (String.substring 0 (String.length s - String.length suffix) s) else None.
(** [trim_end_matches("::")] *)
Fixpoint trim_separators (fuel : nat) (path : string) : string :=
  match fuel with
  | O => path
  | S fuel => match strip_suffix "::" path with Some path => trim_separators fuel path | None => path end
  end.
Definition trim_end_separators (path : string) : string := trim_separators (String.length path) path.
(** [path.rsplit("::").next()] *)
Definition leaf (path : string) : string := match rsplit_once "::" path with Some (_, tail) => tail | None => path end.

(** The local names that a tree imports, with their paths. *)
Fixpoint uses (tree : UseTree) (prefix : string) : list (string * string) :=
  match tree with
  | UsePath ident tree => uses tree (prefix +:+ ident_text ident +:+ "::")
  | UseName ident =>
      let name := ident_text ident in
      let path := if String.eqb name "self" then trim_end_separators prefix else prefix +:+ name in
      [(leaf path, path)]
  | UseRename ident rename =>
      [(ident_text rename, if String.eqb ident "self" then trim_end_separators prefix else prefix +:+ ident_text ident)]
  | UseGlob => [("*", trim_end_separators prefix)]
  | UseGroup items => concat ((fun item => uses item prefix) <$> items)
  end.
Fixpoint use_idents (tree : UseTree) : list string :=
  match tree with
  | UsePath ident tree => ident :: use_idents tree
  | UseName ident => [ident]
  | UseRename ident rename => [ident; rename]
  | UseGlob => []
  | UseGroup items => concat (map use_idents items)
  end.

Definition cfg_test (a : Attr) : bool :=
  is_ident (a_path a) "cfg" && match a_cfg a with Some path => is_ident path "test" | None => false end.
Definition test_attribute (a : Attr) : bool :=
  is_ident (a_path a) "test" || String.eqb (path_text (a_path a)) "tokio::test" || cfg_test a.
Definition test_only (attributes : list Attr) : bool := existsb test_attribute attributes.

(** [Imports]: the names that the file imports, tests left out. *)
Definition use_names (tree : UseTree) : list (string * string) := List.filter (fun p => negb (String.eqb (fst p) "*")) (uses tree "").
Fixpoint imports (t : Tree) : list (string * string) :=
  let '(Branch tag children) := t in
  let visit := concat (map (fun c => if visited c then imports c else []) children) in
  match tag with
  | TItem kind _ =>
      if test_only (item_attributes children) then []
      else match kind with
           | Use tree => use_names tree ++ visit
           | ExternCrate ident rename => [(ident_text (default ident rename), ident_text ident)]
           | _ => visit
           end
  | _ => visit
  end.

(** [PublicSurface]: the paths that a file exposes.  The state is whether the
    visitor is inside of something public, and the paths found so far. *)
Definition add_path (path : SynPath) (s : bool * list string) : bool * list string := if fst s then (true, snd s ++ [path_text path]) else s.
Fixpoint surface (t : Tree) (s : bool * list string) : bool * list string :=
  let '(Branch tag children) := t in
  let visit (select : Tree -> bool) (s : bool * list string) := fold_left (fun s c => if select c then surface c s else s) children s in
  match tag with
  | TItem kind visibility =>
      if test_only (item_attributes children) then s
      else match kind, visibility with
           | Use tree, Public => (fst s, snd s ++ (snd <$> uses tree ""))
           | TypeAlias, Public => (false, snd (visit is_type (true, snd s)))
           | Fn _ _ _ _, Public => (false, snd (visit is_signature (true, snd s)))
           | _, _ => visit visited s
           end
  | TField Public => (false, snd (visit is_type (true, snd s)))
  | TField _ => s
  | TPath path | TMacro path _ => visit visited (add_path path s)
  | TAttribute a => visit visited (add_path (a_path a) s)
  | _ => visit visited s
  end.
Definition public_paths (file : Tree) : list string := snd (surface file (false, [])).

(** ** Identifiers

    The traversals that look only for reserved identifiers. *)
Inductive Visitor : Type :=
| Identifiers          (* of the file and of the bodies of its macros *)
| MacroPaths           (* of the paths of its macros too *)
| OutsideModules       (* but not the names of modules *)
| Attributes           (* and of the lists of its attributes *)
| AttributeTokens.     (* of the file and of attributes, not of macros *)

Definition macro_idents (visitor : Visitor) (path : SynPath) (body : list TokenTree) : list string :=
  match visitor with
  | Identifiers => stream_idents body
  | AttributeTokens => p_idents path
  | _ => stream_idents body ++ p_idents path
  end.
Definition attribute_idents (visitor : Visitor) (a : Attr) : list string :=
  match visitor, a_meta a with
  | (Attributes | AttributeTokens), MetaList tokens => stream_idents tokens
  | _, _ => []
  end.
Fixpoint identifiers (visitor : Visitor) (t : Tree) : list string :=
  let '(Branch tag children) := t in
  let visit (select : Tree -> bool) := concat (map (fun c => if select c then identifiers visitor c else []) children) in
  match tag with
  | TIdent ident => [ident]
  | TPath path => p_idents path ++ visit visited
  | TMacro path body => macro_idents visitor path body
  | TAttribute a => attribute_idents visitor a ++ p_idents (a_path a) ++ visit visited
  | TItem (Mod ident _) _ => match visitor with OutsideModules => visit is_item | _ => ident :: visit visited end
  | TItem (Use tree) _ => use_idents tree ++ visit visited
  | TItem (ExternCrate ident rename) _ => ident :: option_list rename ++ visit visited
  | TItem (Trait _ d) _ => d_ident d :: visit visited
  | _ => visit visited
  end.

(** The traits of a file. *)
Fixpoint declarations (t : Tree) : list Declaration :=
  let '(Branch tag children) := t in
  let visit := concat (map (fun c => if visited c then declarations c else []) children) in
  match tag with TItem (Trait _ d) _ => d :: visit | _ => visit end.

(** A parser that finds the same file in every text. *)
Definition demo_syn (file : Tree) : Syn :=
  {| parse_file := fun _ => Some file; parse_again := fun file => Some file; parse_trait := fun _ => None; parse_signature := fun text => Some text |}.
