(* ===== verification/Portable.v ===== *)
(** * Portable targets and the native workflow

    [tools/xtask/src/portability.rs]: what portable sources and suites may not
    contain, the command that runs a required suite, what a manifest may say of
    it, and the shape of the workflow that runs all of them on every host.
    Reading and parsing are parameters. *)
From stdpp Require Import gmap strings.
From S2P Require Import Prelude Text Core Order Json Spec Syntax.
Open Scope Z_scope.

(** ** Values *)
(** [value["k"]] of serde_json *)
Definition field (k : string) (v : value) : value :=
  match v with VObj m => match bt_get k m with Some v => v | None => VNull end | _ => VNull end.
Definition is_null (v : value) : bool := match v with VNull => true | _ => false end.

Definition is_zero (text : string) : bool := String.eqb text "0.0" || String.eqb text "-0.0".
Definition number_eqb (a b : number) : bool :=
  match a, b with
  | PosInt m, PosInt n | NegInt m, NegInt n => m =? n
  | Float s, Float t => String.eqb s t || is_zero s && is_zero t
  | _, _ => false
  end.
(** [==] of [serde_json::Value] *)
Fixpoint value_eqb (v w : value) : bool :=
  match v, w with
  | VNull, VNull => true
  | VBool a, VBool b => Bool.eqb a b
  | VNum a, VNum b => number_eqb a b
  | VStr a, VStr b => String.eqb a b
  | VArr l, VArr k =>
      (fix go l k := match l, k with [], [] => true | v :: l, w :: k => value_eqb v w && go l k | _, _ => false end) l k
  | VObj l, VObj k =>
      (fix go l k := match l, k with
                     | [], [] => true
                     | (a, v) :: l, (b, w) :: k => String.eqb a b && value_eqb v w && go l k
                     | _, _ => false
                     end) l k
  | _, _ => false
  end.
Definition is_str (s : string) (v : value) : bool := value_eqb v (VStr s).

(** [toml::Value]; tables are ordered, and the rest is never looked into. *)
Inductive Toml : Type :=
| TString (s : string) | TBoolean (b : bool) | TArray (items : list Toml) | TTable (entries : list (string * Toml)) | TOther.
Definition toml_get (k : string) (t : Toml) : option Toml := match t with TTable m => bt_get k m | _ => None end.
Definition toml_str (t : Toml) : option string := match t with TString s => Some s | _ => None end.
Definition toml_bool (t : Toml) : option bool := match t with TBoolean b => Some b | _ => None end.
Definition toml_array (t : Toml) : option (list Toml) := match t with TArray l => Some l | _ => None end.

(** ** Portable sources

    [PortableCheck]: production code may not branch on the host, and a required
    suite may not be switched off or empty. *)
Definition os_names : list string := ["unix"; "windows"; "target_os"; "target_family"; "target_env"; "target_vendor"].
Definition os_predicate (tokens : list TokenTree) : bool := existsb (fun ident => mem (ident_text ident) os_names) (stream_idents tokens).
Definition is_test (attributes : list Attr) : bool := existsb (fun a => mem (path_text (a_path a)) ["test"; "tokio::test"]) attributes.
Definition test_module (kind : ItemKind) (attributes : list Attr) : bool :=
  match kind with Mod _ _ => existsb cfg_test attributes | Fn _ _ _ _ => is_test attributes | _ => false end.
Definition last_segment (p : SynPath) : string := match last (p_idents p) with Some ident => ident_text ident | None => EmptyString end.

Section portable.
Context (suite : bool).
Notation errors := (gset string).

Definition configuration (name : string) (tokens : list TokenTree) (e : errors) : errors :=
  if suite && mem name ["cfg"; "cfg_attr"; "ignore"]
  then {["required portable suites cannot use cfg/cfg_attr/ignore attributes"]} ∪ e
  else if mem name ["cfg"; "cfg_attr"] && os_predicate tokens then {["portable production cannot branch on host OS cfg"]} ∪ e
  else e.

(** The group that follows an identifier, also after a [!]. *)
Definition arguments_after (rest : list TokenTree) : option (list TokenTree) :=
  match rest with
  | Group stream :: _ => Some stream
  | Punct char :: Group stream :: _ => if Ascii.eqb char "!" then Some stream else None
  | _ => None
  end.
Definition check_name (ident : string) (rest : list TokenTree) (e : errors) : errors :=
  match arguments_after rest with
  | Some stream => if mem (ident_text ident) ["cfg"; "cfg_attr"; "ignore"] then configuration (ident_text ident) stream e else e
  | None => e
  end.
Definition portable_stream (visit : TokenTree -> errors -> errors) : list TokenTree -> errors -> errors :=
  fix go (stream : list TokenTree) (e : errors) : errors :=
    match stream with
    | [] => e
    | token :: rest => go rest (match token with Ident ident => check_name ident rest e | _ => visit token e end)
    end.
Fixpoint portable_token (token : TokenTree) (e : errors) : errors :=
  match token with Group stream => portable_stream portable_token stream e | _ => e end.
Definition portable_tokens (stream : list TokenTree) (e : errors) : errors := portable_token (Group stream) e.

(** [tests] and [errors] *)
Notation state := (nat * errors)%type.
Definition failing (f : errors -> errors) (s : state) : state := (fst s, f (snd s)).
Definition count_test (empty : bool) (s : state) : state :=
  (S (fst s), if empty then {["required portable test bodies cannot be empty"]} ∪ snd s else snd s).
Definition list_tokens (a : Attr) : list TokenTree := match a_meta a with MetaList tokens => tokens | _ => [] end.
Definition check_attribute (a : Attr) (e : errors) : errors :=
  portable_tokens (list_tokens a) (configuration (last_segment (a_path a)) (list_tokens a) e).
Definition check_macro (path : SynPath) (body : list TokenTree) (e : errors) : errors :=
  portable_tokens body (if String.eqb (last_segment path) "cfg" && os_predicate body
                        then {["portable code cannot branch on host OS cfg!"]} ∪ e else e).

Fixpoint portable_visit (t : Tree) (s : state) : state :=
  let '(Branch tag children) := t in
  let visit (s : state) := fold_left (fun s c => if visited c then portable_visit c s else s) children s in
  match tag with
  | TItem kind _ =>
      let attributes := item_attributes children in
      if negb suite && test_module kind attributes then s
      else visit (match kind with Fn _ _ _ empty => if suite && is_test attributes then count_test empty s else s | _ => s end)
  | TAttribute a => visit (failing (check_attribute a) s)
  | TMacro path body => failing (check_macro path body) s
  | _ => visit s
  end.

Definition portable_errors (file : Tree) : errors :=
  let '(tests, e) := portable_visit file (O, ∅) in
  if suite && Nat.eqb tests 0 then {["required portable suite has no executable tests"]} ∪ e else e.
End portable.

(** A [BTreeSet] of errors, joined. *)
Definition report (e : gset string) : CheckResult unit :=
  if bool_decide (e = ∅) then Ok tt else Err (Message (join "; " (sort_by (fun s => s) (elements e)))).
Definition check_tree (suite : bool) (file : option Tree) : CheckResult unit :=
  let? file := ok_or file (Message "invalid portable Rust source") in report (portable_errors suite file).
Definition check_portable (syn : Syn) (suite : bool) (source : string) : CheckResult unit := check_tree suite (parse_file syn source).

(** [check_windows_suite]: the suite without the guard that it must have. *)
Definition is_guard (t : Tree) : bool := match tag_of t with TAttribute a => is_ident (a_path a) "cfg" | _ => false end.
Definition guard_of (t : Tree) : option string := match tag_of t with TAttribute a => a_condition a | _ => None end.
Definition without_guards (file : Tree) : Tree := let '(Branch tag children) := file in Branch tag (List.filter (fun c => negb (is_guard c)) children).
Definition check_windows_suite (syn : Syn) (source : string) : CheckResult unit :=
  let? file := ok_or (parse_file syn source) (Message "invalid native suite") in
  fail_if match List.filter is_guard (children_of file) with
          | [guard] => negb (bool_decide (guard_of guard = Some ("target_os = " +:+ quote "windows")))
          | _ => true
          end
  with Message "native suite must have exactly the Windows file guard" in
  check_tree true (parse_again syn (without_guards file)).

(** ** Required suites *)
Definition target_name_ok (name : string) : bool :=
  negb (is_empty name) && negb (contains_sub "/" name) && all_bytes (fun b => is_ascii_alphanumeric b || (b =? 95)) name.

Definition portable_test_command (c : Contract) (file : string) : CheckResult string :=
  let? (rule, _) := owner c file in
  let? name := ok_or (local ← strip_prefix (r_path rule +:+ "/tests/") file;
                      name ← strip_suffix ".rs" local;
                      if target_name_ok name then Some name else None)
                     (Message "required portable suites must be standard integration-test targets") in
  Ok ("cargo test --locked -p " +:+ r_name rule +:+ " --test " +:+ name).

(** [Path::file_stem] *)
Definition file_stem (file : string) : option string :=
  match last (components file) with
  | Some (Normal name) => Some (match rsplit_once "." name with Some (stem, _) => if is_empty stem then name else stem | None => name end)
  | _ => None
  end.

Definition is_just {A} `{EqDecision A} (a : A) (o : option A) : bool := bool_decide (o = Some a).

(** The loop over [[test]] tables; the answer is whether one names the target. *)
Fixpoint check_targets (name local : string) (explicit : bool) (targets : list Toml) : CheckResult bool :=
  match targets with
  | [] => Ok explicit
  | target :: targets =>
      let text k := toml_get k target ≫= toml_str in
      let flag k := toml_get k target ≫= toml_bool in
      if is_just name (text "name") || is_just local (text "path") then
        fail_if explicit || negb (is_just name (text "name"))
             || match text "path" with Some path => negb (String.eqb path local) | None => false end
             || is_just false (flag "harness") || is_just false (flag "test")
             || match toml_get "required-features" target ≫= toml_array with Some (_ :: _) => true | _ => false end
        with Message "required portable target cannot disable its harness or require features" in
        check_targets name local true targets
      else check_targets name local explicit targets
  end.

Section repository.
Context (read_to_string : string -> option string) (parse_toml : string -> option Toml) (parse_json : string -> option value).

Definition manifest_of (path : string) (missing invalid : string) : CheckResult Toml :=
  let? text := ok_or (read_to_string path) (Message missing) in ok_or (parse_toml text) (Message invalid).

Definition validate_portable_target (c : Contract) (file : string) : CheckResult unit :=
  let? (rule, _) := owner c file in
  let? local := ok_or (strip_prefix (directory rule) file) (Message "unowned portable target") in
  let? name := ok_or (file_stem file) (Message "invalid portable target name") in
  let? manifest := manifest_of (r_path rule +:+ "/Cargo.toml") "portable target manifest is missing" "invalid portable target manifest" in
  let? explicit := match toml_get "test" manifest ≫= toml_array with Some targets => check_targets name local false targets | None => Ok false end in
  fail_if negb explicit && is_just false (package ← toml_get "package" manifest; flag ← toml_get "autotests" package; toml_bool flag)
  with Message "required portable target cannot be hidden by autotests=false" in
  Ok tt.

(** ** The workflow *)
Definition HOSTS : list string := ["windows"; "linux"; "macos"].
Definition RUNNERS : list string := ["windows-latest"; "ubuntu-latest"; "macos-latest"].
Definition GATE : string := "./tools/Test-Repository.ps1 -BaseRef $env:ARCHITECTURE_BASE".
Definition WINDOWS_SUITE : string := "cargo test --locked -p openwrt-mcp-host-platform --test windows".

Definition keys_are (v : value) (allowed : list string) : bool :=
  match as_object v with Some m => forallb (fun p => mem (fst p) allowed) m | None => false end.

Definition unconditional (event : value) : bool := is_null event || match as_object event with Some [] => true | _ => false end.
Definition events_ok (events : list (string * value)) : bool :=
  Nat.eqb (length events) 2 && bt_contains "push" events && bt_contains "pull_request" events
  && forallb (fun p => unconditional (snd p)) events.

(** The commands that the workflow must run. *)
Fixpoint suite_commands (c : Contract) (files : list string) : CheckResult (list string) :=
  match files with
  | [] => Ok []
  | file :: files =>
      let? command := portable_test_command c file in
      let? commands := suite_commands c files in Ok (command :: commands)
  end.
Definition expected_commands (c : Contract) : CheckResult (gset string) :=
  let? commands := suite_commands c (required_portable_tests c) in
  Ok (list_to_set (GATE :: (if 8 <=? version c then [WINDOWS_SUITE] else []) ++ commands)).

Definition GATE_ENV : value := VObj [("ARCHITECTURE_BASE", VStr "${{ github.event.pull_request.base.sha || github.event.before }}")].

(** One step: the commands found so far, and whether the gate was among them. *)
Definition check_step (expected : gset string) (step : value) (found : gset string) (gate_seen : bool) : CheckResult (gset string * bool) :=
  fail_if negb (keys_are step ["name"; "uses"; "with"; "shell"; "run"; "env"])
  with Message "native CI steps cannot be conditional or continue on error" in
  match as_str (field "run" step) with
  | None => Ok (found, gate_seen)
  | Some run =>
      fail_if contains_sub "UseWsl" run || contains_sub "wsl" run with Message "native CI cannot substitute WSL for a native host" in
      if bool_decide (run ∉ expected) then Ok (found, gate_seen)
      else
        let gate := String.eqb run GATE in
        fail_if negb (is_str "pwsh" (field "shell" step)) || negb (is_null (field "uses" step)) || negb (is_null (field "with" step))
             || negb gate && negb (is_null (field "env" step))
        with Message "native CI required commands must run directly in PowerShell" in
        let? gate_seen :=
          (if gate then
             fail_if negb (value_eqb (field "env" step) GATE_ENV) with Message "native CI must use the reviewed architecture baseline" in Ok true
           else fail_if negb gate_seen with Message "native CI must run the full gate before portable suites" in Ok gate_seen) in
        fail_if bool_decide (run ∈ found) with Message "native CI repeats a required command" in
        Ok ({[run]} ∪ found, gate_seen)
  end.
Fixpoint check_steps (expected : gset string) (steps : list value) (found : gset string) (gate_seen : bool) : CheckResult (gset string) :=
  match steps with
  | [] => Ok found
  | step :: steps => let? (found, gate_seen) := check_step expected step found gate_seen in check_steps expected steps found gate_seen
  end.

Definition runners_of (matrix : value) : option (list string) := values ← as_array (field "os" matrix); mapM as_str values.

Definition check_native_ci (c : Contract) (source : string) : CheckResult unit :=
  let? ci := ok_or (parse_json source) (Message "native CI must use checked JSON syntax") in
  fail_if negb (keys_are ci ["name"; "on"; "permissions"; "jobs"])
       || match as_object (field "on" ci) with Some events => negb (events_ok events) | None => true end
  with Message "native CI must run unconditionally on pushes and pull requests" in
  let job := field "rust" (field "jobs" ci) in
  let strategy := field "strategy" job in
  let matrix := field "matrix" strategy in
  let? runners := ok_or (runners_of matrix) (Message "native CI must declare an OS matrix") in
  fail_if negb (exact runners RUNNERS) || negb (is_str "${{ matrix.os }}" (field "runs-on" job))
       || negb (keys_are job ["runs-on"; "strategy"; "steps"]) || negb (keys_are strategy ["fail-fast"; "matrix"])
       || negb (value_eqb (field "fail-fast" strategy) (VBool false)) || negb (keys_are matrix ["os"])
  with Message "native CI requires all three native runners without exclusions or allowed failure" in
  let? steps := ok_or (as_array (field "steps" job)) (Message "native CI steps are missing") in
  let? expected := expected_commands c in
  let? found := check_steps expected steps ∅ false in
  fail_if negb (bool_decide (found = expected))
  with Message "native CI is missing the full gate or an explicit required portable suite" in
  Ok tt.
End repository.

(** ** What an accepted workflow runs *)
(** A step that cannot be skipped and runs a command in PowerShell. *)
Record runs_directly (step : value) (run : string) : Prop := {
  direct_command : as_str (field "run" step) = Some run;
  direct_keys : keys_are step ["name"; "uses"; "with"; "shell"; "run"; "env"]%string = true;
  direct_shell : is_str "pwsh" (field "shell" step) = true;
  direct_action : is_null (field "uses" step) = true /\ is_null (field "with" step) = true;
  direct_native : contains_sub "wsl" run = false
}.

Lemma check_step_ok expected step found seen found' seen' :
  check_step expected step found seen = Ok (found', seen') ->
  found' = found /\ seen' = seen
  \/ exists run, run ∈ expected /\ runs_directly step run /\ found' = {[run]} ∪ found /\ run ∉ found /\ seen' = true /\ (run = GATE \/ seen = true).
Proof.
  unfold check_step. intros H. apply fail_if_ok in H as [Hk H]. apply negb_false_iff in Hk.
  destruct (as_str (field "run" step)) as [run |] eqn:Hr; [| injection H as <- <-; by left].
  apply fail_if_ok in H as [Hw H]. apply orb_false_iff in Hw as [_ Hw]. case_bool_decide as Hin; [injection H as <- <-; by left |].
  cbv zeta in H. apply fail_if_ok in H as [Hd H]. rewrite !orb_false_iff, !negb_false_iff in Hd. destruct Hd as [[[Hsh Hu] Hwi] _].
  apply rbind_ok in H as (gate & Hg & H). apply fail_if_ok in H as [Hf H]. injection H as <- <-. apply bool_decide_eq_false in Hf.
  right. exists run. split; [done |]. split; [by split |]. split; [done |]. split; [done |].
  destruct (String.eqb_spec run GATE) as [-> | _]; apply fail_if_ok in Hg as [Hs [= <-]]; [split; [done | by left] |].
  apply negb_false_iff in Hs as ->. split; [done | by right].
Qed.

(** Of the steps, each command that was found is run by one of them, which
    follows the gate unless it is the gate. *)
Lemma check_steps_ok expected steps found seen all :
  check_steps expected steps found seen = Ok all ->
  forall run, run ∈ all -> run ∈ found \/ exists before step after,
    steps = before ++ step :: after /\ runs_directly step run /\ (run = GATE \/ seen = true \/ exists gate, gate ∈ before /\ runs_directly gate GATE).
Proof.
  revert found seen. induction steps as [| step steps IH]; intros found seen H run Hrun; [injection H as <-; by left |].
  cbn [check_steps] in H. apply rbind_ok in H as ([found' seen'] & Hs & H). apply check_step_ok in Hs. destruct (IH _ _ H _ Hrun) as [Hold | Hnew]; clear IH.
  - destruct Hs as [[-> ->] | (r & _ & Hd & -> & _ & _ & Hg)]; [by left |]. apply elem_of_union in Hold as [->%elem_of_singleton | ?]; [| by left].
    right. exists [], step, steps. split; [done |]. split; [done |]. destruct Hg as [-> | ->]; [by left | right; by left].
  - right. destruct Hnew as (before & s & after & -> & Hd & Hg). exists (step :: before), s, after. split; [done |]. split; [done |].
    destruct Hg as [? | [Hseen | (g & Hg & ?)]]; [by left | | right; right; exists g; split; [by right | done]].
    destruct Hs as [[-> ->] | (r & _ & Hr & _ & _ & _ & [-> | ->])]; [right; by left | | right; by left].
    right; right. exists step. split; [left | done].
Qed.

(** The whole gate and every required suite run on every native host: an
    accepted workflow has a job on the three runners that nothing but a step's
    failure can stop, with a step for each command, run directly after the gate. *)
Theorem workflow_runs_suites parse_json (c : Contract) (source : string) :
  check_native_ci parse_json c source = Ok tt ->
  exists ci steps runners expected,
    parse_json source = Some ci
    /\ as_array (field "steps" (field "rust" (field "jobs" ci))) = Some steps
    /\ runners_of (field "matrix" (field "strategy" (field "rust" (field "jobs" ci)))) = Some runners /\ exact runners RUNNERS = true
    /\ expected_commands c = Ok expected /\ GATE ∈ expected
    /\ (forall run, run ∈ expected -> exists before step after,
          steps = before ++ step :: after /\ runs_directly step run /\ (run = GATE \/ exists gate, gate ∈ before /\ runs_directly gate GATE)).
Proof.
  unfold check_native_ci. intros H. apply rbind_ok in H as (ci & Hci & H). apply ok_or_ok in Hci. apply fail_if_ok in H as [_ H]. cbv zeta in H.
  apply rbind_ok in H as (runners & Hr & H). apply ok_or_ok in Hr. apply fail_if_ok in H as [He H]. rewrite !orb_false_iff, !negb_false_iff in He.
  destruct He as [[[[[He _] _] _] _] _]. apply rbind_ok in H as (steps & Hs & H). apply ok_or_ok in Hs.
  apply rbind_ok in H as (expected & Hx & H). apply rbind_ok in H as (found & Hf & H). apply fail_if_ok in H as [Heq _].
  apply negb_false_iff, bool_decide_eq_true in Heq as ->. exists ci, steps, runners, expected.
  refine (conj Hci (conj Hs (conj Hr (conj He (conj Hx (conj _ _)))))).
  - unfold expected_commands in Hx. apply rbind_ok in Hx as (commands & _ & [= <-]). cbn [list_to_set]. set_solver.
  - intros run Hrun. destruct (check_steps_ok _ _ _ _ _ Hf _ Hrun) as [Hn | (before & step & after & ? & ? & Hg)]; [set_solver |].
    exists before, step, after. split; [done |]. split; [done |]. destruct Hg as [? | [? | ?]]; [by left | done | by right].
Qed.
