(* ===== verification/Evidence.v ===== *)
(** * Capability probes and compatibility evidence

    [tools/xtask/src/capability.rs]: the registry of probes must be exactly the
    reviewed one, and a compatibility claim must name the artifacts, the target
    and the host that support it.  The file system and toml are parameters. *)
From stdpp Require Import gmap strings.
From S2P Require Import Prelude Text Core Order Spec.
Open Scope Z_scope.

(** ** Artifacts

    What the file system answers about the paths below the root, named by the
    components that were pushed: whether one is a symbolic link, and the file
    it resolves to. *)
Record Artifact : Type := { a_inside : bool; a_file : bool; a_len : Z; a_text : option string }.
Record FileSystem : Type := {
  fs_root : bool; fs_symlink : list string -> option bool; fs_canonical : list string -> option (option Artifact)
}.

Section artifacts.
Context (fs : FileSystem).

Fixpoint check_links (pushed parts : list string) : CheckResult unit :=
  match parts with
  | [] => Ok tt
  | part :: parts =>
      let? link := ok_or (fs_symlink fs (pushed ++ [part])) (Message "missing evidence/registry artifact") in
      fail_if link with Message "evidence/registry artifact cannot use symlinks" in check_links (pushed ++ [part]) parts
  end.

Definition read_artifact (value : string) : CheckResult string :=
  fail_if negb (safe_path value) || contains_sub ":" value || has_control value
  with Message "evidence/registry paths must be safe repository-relative paths" in
  fail_if negb (fs_root fs) with Message "missing evidence root" in
  let? _ := check_links [] (split_on "/" value) in
  let? resolved := ok_or (fs_canonical fs (split_on "/" value)) (Message "missing evidence/registry artifact") in
  let? metadata := ok_or resolved (Message "unreadable evidence/registry artifact") in
  fail_if negb (a_inside metadata) || negb (a_file metadata) || (2 * 1024 * 1024 <? a_len metadata)
  with Message "evidence/registry artifact is outside scope or exceeds its bound" in
  ok_or (a_text metadata) (Message "evidence/registry artifact must be readable UTF-8").

Fixpoint nonempty_artifacts (paths : list string) : CheckResult unit :=
  match paths with
  | [] => Ok tt
  | path :: paths =>
      let? text := read_artifact path in
      fail_if trimmed_empty text with Message "evidence artifact cannot be empty" in nonempty_artifacts paths
  end.
Definition artifacts (paths : list string) : CheckResult unit :=
  fail_if Nat.eqb (length paths) 0 || (64 <? zlen paths) || negb (all_distinct paths)
  with Message "evidence requires nonempty unique bounded artifact paths" in nonempty_artifacts paths.
End artifacts.

(** ** The registry of probes *)
Record RuntimeContract : Type := {
  rt_backend_ownership : string; rt_cache_ownership : string; rt_epoch_binding : string; rt_ttl_seconds : Z; rt_unknown_behavior : string;
  rt_audit_order : string; rt_offline_surfaces : list string; rt_operation_metadata : string; rt_process_capability : string;
  rt_metadata_use_case : string; rt_metadata_tool : string; rt_metadata_audit_kind : string; rt_device_deadline : string
}.
Record Probe : Type := { p_id : string; p_object : string; p_program : string; p_arguments : list string; p_effect : string }.
Record Registry : Type := { schema_version : Z; runtime : RuntimeContract; probes : list Probe }.

Definition runtime_ok (r : RuntimeContract) : bool :=
  String.eqb (rt_backend_ownership r) "same_immutable_backend" && String.eqb (rt_cache_ownership r) "private_dispatcher"
  && String.eqb (rt_epoch_binding r) "opaque_backend_epoch" && (rt_ttl_seconds r =? 30) && String.eqb (rt_unknown_behavior r) "fail_closed"
  && String.eqb (rt_audit_order r) "start_before_cache_probe_execute" && exact (rt_offline_surfaces r) ["check"; "catalog"; "tools_list"]
  && String.eqb (rt_operation_metadata r) "required_ubus_method_signature_response_contract"
  && String.eqb (rt_process_capability r) "unverified_blocked" && String.eqb (rt_metadata_use_case r) "capability_status"
  && String.eqb (rt_metadata_tool r) "operation_capability" && String.eqb (rt_metadata_audit_kind r) "capability"
  && String.eqb (rt_device_deadline r) "shared_probe_execute".

(** The objects that a schema may probe at an architecture version. *)
Definition expected_objects (schema architecture_version : Z) : CheckResult (list string) :=
  if schema =? 1 then Ok OBJECTS
  else if (schema =? 2) && (9 <=? architecture_version) then Ok (OBJECTS ++ ["luci"; "luci-rpc"])
  else if (schema =? 3) && (11 <=? architecture_version) then Ok (OBJECTS ++ ["luci"; "luci-rpc"; "uci"])
  else Err (Message "capability registry profile requires reviewed architecture evolution").

(** The loop over the probes; the answer is the objects they name. *)
Fixpoint check_probes (expected objects : list string) (probes : list Probe) : CheckResult (list string) :=
  match probes with
  | [] => Ok objects
  | probe :: probes =>
      fail_if negb (mem (p_object probe) expected) || mem (p_object probe) objects
           || negb (String.eqb (p_id probe) ("ubus." +:+ p_object probe)) || negb (String.eqb (p_program probe) "/bin/ubus")
           || negb (bool_decide (p_arguments probe = ["-v"; "list"; p_object probe])) || negb (String.eqb (p_effect probe) "read")
      with Message "capability probe must be exact reviewed read-only ubus -v list" in
      check_probes expected (p_object probe :: objects) probes
  end.

Definition check_registry (registry : Registry) (architecture_version : Z) : CheckResult unit :=
  let? expected := expected_objects (schema_version registry) architecture_version in
  fail_if negb (runtime_ok (runtime registry)) with Message "capability registry weakens the reviewed runtime lifecycle" in
  let? objects := check_probes expected [] (probes registry) in
  fail_if negb (bool_decide (list_to_set objects =@{gset string} list_to_set expected))
  with Message "capability registry is missing reviewed object probes" in
  Ok tt.

(** ** Evidence *)
Record Target : Type := {
  t_id : string; t_kind : string; t_release : string; t_revision : string; t_kernel : string; t_target : string; t_board : string;
  t_observed_at : string; t_inventory_observed_at : string; t_inventory_only : bool; t_sources : list string; t_packages : list (string * string)
}.
Record EvidenceRecord : Type := {
  e_id : string; e_level : string; e_target : string; e_operations : list string; e_artifacts : list string; e_observed_at : string;
  e_host : option string; e_environment : option string
}.
Record Evidence : Type := { ev_schema_version : Z; ev_allowed_levels : list string; ev_targets : list Target; ev_records : list EvidenceRecord }.
(** What a parsed date and time has: [toml::value::Datetime]. *)
Record Datetime : Type := { dt_date : bool; dt_time : bool; dt_offset_z : bool }.

Definition REFERENCE : string := "bpi-r4-openwrt-25.12.5-reference".
Definition identifier (value : string) : bool :=
  negb (is_empty value) && (slen value <=? 128) && all_bytes (fun b => is_ascii_alphanumeric b || byte_in "_-." b) value.
Definition bounded_label (value : string) : bool := negb (is_empty value) && (slen value <=? 256) && all_bytes is_ascii_graphic value.

(** Where a record was executed: on a native host, or at all. *)
Definition native_host (record : EvidenceRecord) : bool :=
  match e_host record, e_environment record with
  | Some host, Some environment => mem host ["windows"; "linux"; "macos"] && String.eqb environment "native"
  | _, _ => false
  end.
Definition executed (record : EvidenceRecord) : bool :=
  native_host record || bool_decide (e_host record = Some "linux" /\ e_environment record = Some "wsl").
Definition unhosted (record : EvidenceRecord) : bool := bool_decide (e_host record = None /\ e_environment record = None).

Definition host_ok (record : EvidenceRecord) : CheckResult unit :=
  let level := e_level record in
  fail_if String.eqb level "source" && negb (unhosted record) with Message "source review is not host execution evidence" in
  fail_if String.eqb level "synthetic" && negb (unhosted record) && negb (executed record)
  with Message "synthetic execution needs a valid host/environment pair" in
  fail_if String.eqb level "native" && negb (native_host record)
  with Message "native evidence needs an actual native host; WSL is Linux only" in
  fail_if (String.eqb level "exact_device" || String.eqb level "emulated") && negb (executed record)
  with Message "target acceptance needs a valid host/environment pair" in
  Ok tt.

Section evidence.
Context (fs : FileSystem) (parse_datetime : string -> option Datetime).

Definition timestamp (value : string) : bool :=
  match parse_datetime value with Some v => dt_date v && dt_time v && dt_offset_z v | None => false end.

Definition has_package (target : Target) (name : string) : bool := mem name (fst <$> t_packages target).
Definition target_ok (seen : list string) (target : Target) : bool :=
  identifier (t_id target) && mem (t_kind target) ["physical"; "emulated"] && negb (mem (t_id target) seen)
  && forallb bounded_label [t_release target; t_revision target; t_kernel target; t_target target; t_board target]
  && timestamp (t_observed_at target) && timestamp (t_inventory_observed_at target) && (zlen (t_packages target) <=? 128)
  && forallb (fun p => identifier (fst p) && bounded_label (snd p)) (t_packages target)
  && forallb (has_package target) ["ubus"; "rpcd"; "netifd"; "procd"]
  && negb (Bool.eqb (has_package target "apk") (has_package target "opkg")).
Fixpoint check_evidence_targets (seen : list string) (targets : list Target) : CheckResult unit :=
  match targets with
  | [] => Ok tt
  | target :: targets =>
      fail_if negb (target_ok seen target)
      with Message "compatibility target needs unique identity, timestamps and package fingerprints" in
      let? _ := artifacts fs (t_sources target) in
      check_evidence_targets (t_id target :: seen) targets
  end.

(** What a record on a target claims is supported; the answer is whether it
    accepts the operations on that target. *)
Definition accepts (target : Target) (record : EvidenceRecord) : CheckResult bool :=
  if String.eqb (e_level record) "exact_device" || String.eqb (e_level record) "emulated" then
    fail_if t_inventory_only target with Message "inventory-only target is not target operation acceptance" in
    fail_if String.eqb (e_level record) "exact_device" && negb (String.eqb (t_kind target) "physical")
         || String.eqb (e_level record) "emulated" && negb (String.eqb (t_kind target) "emulated")
    with Message "emulated userspace evidence is not exact physical-device acceptance" in
    fail_if existsb (fun path => mem path (t_sources target)) (e_artifacts record)
    with Message "inventory provenance cannot substitute for operation acceptance artifacts" in
    Ok true
  else Ok false.

Definition find_target (targets : list Target) (id : string) : option Target := List.find (fun t => String.eqb (t_id t) id) targets.
Definition record_ok (ids : list string) (record : EvidenceRecord) : bool :=
  identifier (e_id record) && negb (mem (e_id record) ids) && mem (e_level record) LEVELS && timestamp (e_observed_at record)
  && negb (Nat.eqb (length (e_operations record)) 0) && all_distinct (e_operations record) && forallb identifier (e_operations record).

(** The loop over the records; the answer is the targets that were accepted. *)
Fixpoint check_records (targets : list Target) (ids accepted : list string) (records : list EvidenceRecord) : CheckResult (list string) :=
  match records with
  | [] => Ok accepted
  | record :: records =>
      let? target := ok_or (find_target targets (e_target record)) (Message "compatibility record references an unknown target") in
      fail_if negb (record_ok ids record) with Message "compatibility record has invalid level, identity or operation scope" in
      let? _ := artifacts fs (e_artifacts record) in
      let? accepting := accepts target record in
      let? _ := host_ok record in
      check_records targets (e_id record :: ids) (if accepting then t_id target :: accepted else accepted) records
  end.

Definition check_evidence (evidence : Evidence) : CheckResult unit :=
  fail_if negb (ev_schema_version evidence =? 1) || negb (exact (ev_allowed_levels evidence) LEVELS)
  with Message "compatibility evidence must distinguish all reviewed validation levels" in
  let? _ := check_evidence_targets [] (ev_targets evidence) in
  fail_if match find_target (ev_targets evidence) REFERENCE with Some target => negb (String.eqb (t_kind target) "physical") | None => true end
  with Message "compatibility evidence is missing the initial reference scope" in
  let? accepted := check_records (ev_targets evidence) [] [] (ev_records evidence) in
  fail_if existsb (fun target => negb (t_inventory_only target) && negb (mem (t_id target) accepted)) (ev_targets evidence)
  with Message "non-inventory target requires scoped target acceptance evidence" in
  Ok tt.

(** Text that was read, parsed by toml. *)
Context (parse_registry : string -> option Registry) (parse_evidence : string -> option Evidence).
Definition check_capability_registry_for_version (source : string) (architecture_version : Z) : CheckResult unit :=
  let? registry := ok_or (parse_registry source) (Message "invalid capability probe registry or unknown field") in
  check_registry registry architecture_version.
Definition check_compatibility_evidence (source : string) : CheckResult unit :=
  let? evidence := ok_or (parse_evidence source) (Message "invalid compatibility evidence or unknown field") in
  check_evidence evidence.
End evidence.

(** ** Claims are supported *)
Section supported.
Context (fs : FileSystem) (parse_datetime : string -> option Datetime).

(** What an accepting record says of its target. *)
Record supports (target : Target) (record : EvidenceRecord) : Prop := {
  supports_target : e_target record = t_id target;
  supports_kind : e_level record = "exact_device"%string /\ t_kind target = "physical"%string
                  \/ e_level record = "emulated"%string /\ t_kind target = "emulated"%string;
  supports_host : executed record = true;
  supports_operations : e_operations record <> [] /\ NoDup (e_operations record);
  supports_artifacts path :
    path ∈ e_artifacts record -> path ∉ t_sources target /\ exists text, read_artifact fs path = Ok text /\ trimmed_empty text = false
}.

Lemma nonempty_artifacts_ok paths path :
  nonempty_artifacts fs paths = Ok tt -> path ∈ paths -> exists text, read_artifact fs path = Ok text /\ trimmed_empty text = false.
Proof.
  induction paths as [| p paths IH]; intros H Hin; [by apply elem_of_nil in Hin |]. cbn [nonempty_artifacts] in H.
  apply rbind_ok in H as (text & Hr & H). apply fail_if_ok in H as [Ht H]. apply elem_of_cons in Hin as [-> | Hin]; [by exists text | by apply IH].
Qed.

Lemma accepts_supports target record :
  accepts target record = Ok true -> host_ok record = Ok tt -> artifacts fs (e_artifacts record) = Ok tt ->
  record_ok parse_datetime [] record = true -> e_target record = t_id target -> supports target record.
Proof.
  unfold accepts, host_ok, artifacts, record_ok. intros Ha Hh Hs Hr Ht. destruct (_ || _) eqn:El in Ha; [| done].
  apply fail_if_ok in Ha as [_ Ha]. apply fail_if_ok in Ha as [Hk Ha]. apply fail_if_ok in Ha as [Hp _].
  do 3 apply fail_if_ok in Hh as [_ Hh]. apply fail_if_ok in Hh as [Hx _]. rewrite El in Hx. apply negb_false_iff in Hx.
  apply fail_if_ok in Hs as [_ Hs]. rewrite !andb_true_iff in Hr. destruct Hr as [[[_ Ho1] Ho2] _]. split.
  - exact Ht.
  - apply orb_false_iff in Hk as [Hk1 Hk2]. apply orb_true_iff in El. rewrite !String.eqb_eq in El.
    destruct El as [El | El]; [left | right]; (split; [done |]).
    + rewrite El in Hk1. cbn in Hk1. by apply negb_false_iff, String.eqb_eq in Hk1.
    + rewrite El in Hk2. cbn in Hk2. by apply negb_false_iff, String.eqb_eq in Hk2.
  - exact Hx.
  - split; [| by apply all_distinct_NoDup]. intros E. by rewrite E in Ho1.
  - intros path Hin. split; [| by eapply nonempty_artifacts_ok]. rewrite existsb_false_Forall, Forall_forall in Hp.
    specialize (Hp _ Hin). by apply bool_decide_eq_false in Hp.
Qed.

Lemma find_target_ok targets id target : find_target targets id = Some target -> target ∈ targets /\ t_id target = id.
Proof. intros [H1 H2]%find_some. split; [by apply list_elem_of_In | by apply String.eqb_eq]. Qed.

Lemma record_ok_fresh ids record : record_ok parse_datetime ids record = true -> record_ok parse_datetime [] record = true.
Proof. unfold record_ok. rewrite !andb_true_iff. intros [[[[[[? _] ?] ?] ?] ?] ?]. done. Qed.

Lemma check_records_ok targets ids accepted records all :
  check_records fs parse_datetime targets ids accepted records = Ok all ->
  forall id, id ∈ all -> id ∈ accepted \/ exists target record, target ∈ targets /\ record ∈ records /\ t_id target = id /\ supports target record.
Proof.
  revert ids accepted. induction records as [| record records IH]; intros ids accepted H id Hin; [injection H as <-; by left |].
  cbn [check_records] in H. apply rbind_ok in H as (target & Ht & H). apply ok_or_ok, find_target_ok in Ht as [Hin' Hid].
  apply fail_if_ok in H as [Hr H]. apply negb_false_iff, record_ok_fresh in Hr. apply rbind_ok in H as ([] & Hs & H).
  apply rbind_ok in H as (accepting & Ha & H). apply rbind_ok in H as ([] & Hh & H).
  destruct (IH _ _ H id Hin) as [Hold | (t & r & ? & ? & ? & ?)]; [| right; exists t, r; refine (conj _ (conj _ (conj _ _))); [done | by right | done..]].
  destruct accepting; [| by left]. apply elem_of_cons in Hold as [-> | Hold]; [| by left]. right. exists target, record.
  refine (conj _ (conj _ (conj _ _))); [done | left | done |]. by apply accepts_supports.
Qed.

Lemma check_targets_distinct seen targets :
  check_evidence_targets fs parse_datetime seen targets = Ok tt -> NoDup (t_id <$> targets) /\ (forall t, t ∈ targets -> t_id t ∉ seen).
Proof.
  revert seen. induction targets as [| target targets IH]; intros seen H; [split; [constructor | by intros t ?%elem_of_nil] |].
  cbn [check_evidence_targets] in H. apply fail_if_ok in H as [Ht H]. apply rbind_ok in H as ([] & _ & H). apply IH in H as [Hn Hs].
  apply negb_false_iff in Ht. unfold target_ok in Ht. rewrite !andb_true_iff in Ht. destruct Ht as [[[[[[[[[_ _] Hf] _] _] _] _] _] _] _].
  apply negb_true_iff, bool_decide_eq_false in Hf. rewrite fmap_cons, NoDup_cons. split; [split; [| done] |].
  - intros (t & He & Hin)%list_elem_of_fmap. apply (Hs t Hin). rewrite <- He. left.
  - intros t [-> | Hin]%elem_of_cons; [done |]. intros He. apply (Hs t Hin). by right.
Qed.

(** Compatibility is claimed only with evidence: of accepted evidence, every
    target that is not only inventoried has a record of its own kind, executed
    on an admissible host, for operations it names once each, whose artifacts
    are nonempty files of the repository and none of them the provenance of the
    inventory. *)
Theorem claims_supported (evidence : Evidence) (target : Target) :
  check_evidence fs parse_datetime evidence = Ok tt -> target ∈ ev_targets evidence -> t_inventory_only target = false ->
  exists record, record ∈ ev_records evidence /\ supports target record.
Proof.
  unfold check_evidence. intros H Hin Hi. apply fail_if_ok in H as [_ H]. apply rbind_ok in H as ([] & [Hd _]%check_targets_distinct & H).
  apply fail_if_ok in H as [_ H]. apply rbind_ok in H as (accepted & Hr & H). apply fail_if_ok in H as [H _]. rewrite existsb_false_Forall, Forall_forall in H.
  specialize (H _ Hin). rewrite Hi in H. apply negb_false_iff, bool_decide_eq_true in H.
  destruct (check_records_ok _ _ _ _ _ Hr _ H) as [Hn | (other & record & Ho & ? & He & ?)]; [by apply elem_of_nil in Hn |].
  exists record. split; [done |]. by rewrite <- (fmap_inj_in t_id (ev_targets evidence) other target Hd Ho Hin He).
Qed.
End supported.
