(* ===== verification/Contract.v ===== *)
(** * Validation of the architecture contract

    [Contract::validate] and the sections it composes, one definition per file
    of [tools/xtask/src/], and [validate_evolution] of [change.rs].  What the
    repository holds, toml, serde_json and syn are parameters. *)
From stdpp Require Import gmap strings.
From S2P Require Import Prelude Text Core Order Json Spec Syntax Portable Evidence.
Open Scope Z_scope.

Definition check (c : bool) (message : string) : CheckResult unit := fail_if c with Message message in Ok tt.
Fixpoint each {A} (f : A -> CheckResult unit) (l : list A) : CheckResult unit :=
  match l with [] => Ok tt | x :: l => let? _ := f x in each f l end.

Definition CODEC : string := "openwrt-mcp-device-codec".
Definition depends (name : string) (rule : CrateRule) : bool := mem name (r_dependencies rule).
Definition production (rule : CrateRule) : bool := negb (String.eqb (r_layer rule) "development").
(** A production consumer of [name] that may use [namespace]. *)
Definition unbanned_consumer (name namespace : string) (rule : CrateRule) : bool :=
  production rule && depends name rule && negb (mem namespace (r_forbidden_paths rule)).
Definition suites_missing (c : Contract) (suites : list string) : bool := existsb (fun suite => negb (mem suite (required_portable_tests c))) suites.
(** [v.sort()] on strings *)
Definition sorted (l : list string) : list string := sort_by (fun s => s) l.

(** ** Crates and their directories *)
Definition LAYERS : list string := ["domain"; "features"; "application"; "infrastructure"; "transport"; "composition"; "development"].
Fixpoint check_rules (names paths : list string) (rules : list CrateRule) : CheckResult (list string) :=
  match rules with
  | [] => Ok paths
  | rule :: rules =>
      fail_if mem (r_name rule) names || mem (r_path rule) paths || negb (safe_path (r_path rule)) || negb (mem (r_layer rule) LAYERS)
      with Message "duplicate or invalid crate ownership" in
      fail_if negb (all_distinct (r_dependencies rule)) || negb (all_distinct (r_dev_dependencies rule)) || negb (all_distinct (r_build_dependencies rule))
      with Message "duplicate allowed dependency" in
      check_rules (r_name rule :: names) (r_path rule :: paths) rules
  end.
Definition overlapping (paths : list string) : bool :=
  existsb (fun first => existsb (fun second => negb (String.eqb first second) && starts_with (first +:+ "/") second) paths) paths.
Definition validate_crates (c : Contract) : CheckResult unit :=
  fail_if (version c =? 0) || Nat.eqb (length (crates c)) 0 with Message "empty/versionless contract" in
  let? paths := check_rules [] [] (crates c) in
  check (overlapping paths) "overlapping crate ownership".

(** ** Declarations without the repository *)
Definition validate_packages (c : Contract) : CheckResult unit :=
  let? actual := ok_or (package_contract c) (Message "v7 requires package contract") in
  fail_if negb (bool_decide (actual = EXPECTED_Package)) with Message "package contract must retain the reviewed bounded closed profile" in
  fail_if suites_missing c (pk_required_tests actual) with Message "package suites must run on all required native hosts" in
  let? entropy := ok_or (find_rule (named (pk_entropy_owner actual)) c) (Message "missing entropy owner") in
  check (negb (String.eqb (r_path entropy) "crates/adapters") || negb (String.eqb (r_layer entropy) "infrastructure")
         || negb (depends "getrandom" entropy)
         || existsb (fun rule => negb (named (pk_entropy_owner actual) rule) && depends "getrandom" rule) (crates c))
        "OS entropy belongs exclusively to adapters".

Definition validate_opkg_status (c : Contract) : CheckResult unit :=
  if version c <? 14 then check (is_some (opkg_status_contract c)) "opkg status expansion requires architecture v14"
  else
    let? actual := ok_or (opkg_status_contract c) (Message "v14 requires closed opkg status contract") in
    fail_if negb (bool_decide (actual = EXPECTED_OpkgStatus)) with Message "opkg status must retain the reviewed closed bounded contract" in
    fail_if suites_missing c (op_required_tests actual) with Message "opkg status suites must run on every required native host" in
    validate_packages c.

Definition uci_profiles (version : Z) : list string :=
  if 20 <=? version then BASE_PROFILES ++ SYSTEM_SERVICE_PROFILES else if 13 <=? version then BASE_PROFILES else INITIAL_PROFILES.
(** A crate that keeps its path, its name and its portability. *)
Definition portable_owner (c : Contract) (layer : option string) (path name : string) : bool :=
  existsb (fun rule => String.eqb (r_path rule) path && named name rule && match layer with Some l => String.eqb (r_layer rule) l | None => true end) (crates c)
  && mem name (portable_crates c).

Definition validate_uci_reads (c : Contract) : CheckResult unit :=
  if version c <? 11 then check (is_some (uci_read_contract c)) "closed UCI reads require architecture v11"
  else
    let? uci := ok_or (uci_read_contract c) (Message "v11 requires a closed UCI read contract") in
    let? _ := (if 12 <=? version c
               then check (negb (is_just "text_option_only" (uc_option_collections uci))) "v12 UCI nested collections require only bounded text options"
               else check (is_some (uc_option_collections uci)) "nested UCI options require architecture v12") in
    fail_if negb (exact (uc_profiles uci) (uci_profiles (version c)))
    with Message "closed UCI profiles require the exact versioned recipe set; base family expansion requires architecture v13; system-service expansion requires architecture v20" in
    fail_if negb (String.eqb (uc_domain_owner uci) "openwrt-mcp-core") || negb (String.eqb (uc_definitions_owner uci) "openwrt-mcp-features")
         || negb (String.eqb (uc_invocation uci) "existing_authorized_audited_dispatcher")
         || negb (String.eqb (uc_actions uci) "fixed_uci_get_config_type_no_parameters") || negb (String.eqb (uc_custom_uci uci) "deny")
         || negb (String.eqb (uc_requirement uci) "profile_category_read")
         || negb (String.eqb (uc_projection uci) "typed_values_map_error_guard_exact_section_type")
         || negb (String.eqb (uc_view uci) "rpcd_sessionless_shared_delta_non_atomic")
         || negb (exact (uc_required_tests uci) UCI_SUITES) || suites_missing c UCI_SUITES
    with Message "closed UCI reads require exact owners recipes denial projection and source scope" in
    check (negb (forallb (fun p => portable_owner c None (fst p) (snd p))
                   [("crates/core", "openwrt-mcp-core"); ("crates/features", "openwrt-mcp-features"); ("crates/runtime", "openwrt-mcp-runtime");
                    ("crates/device-codec", "openwrt-mcp-device-codec"); ("crates/mcp", "openwrt-mcp-transport")]))
          "UCI observations retain existing portable owners".

Definition validate_management_effects (c : Contract) : CheckResult unit :=
  if version c <? 15 then check (is_some (management_effect_contract c)) "management effect model requires architecture v15"
  else
    let? actual := ok_or (management_effect_contract c) (Message "v15 requires bounded management effect contract") in
    fail_if negb (bool_decide (actual = EXPECTED_ManagementEffect)) with Message "management effects must retain the non-authorizing bounded model" in
    fail_if suites_missing c (me_required_tests actual) with Message "management effects require the native core security suite" in
    let? core := ok_or (find_rule (named "openwrt-mcp-core") c) (Message "missing effect domain owner") in
    fail_if negb (String.eqb (r_path core) "crates/core") || negb (String.eqb (r_layer core) "domain")
    with Message "management effects must stay in the pure core owner" in
    check (existsb (unbanned_consumer "openwrt-mcp-core" "openwrt_mcp_core::management") (crates c))
          "management effects cannot enter production consumers before integration review".

Definition expected_archive (version : Z) : BackupArchiveContract :=
  if 17 <=? version then
    {| ba_owner := ba_owner EXPECTED_BackupArchive; ba_module := ba_module EXPECTED_BackupArchive; ba_profile := ba_profile EXPECTED_BackupArchive;
       ba_formats := ba_formats EXPECTED_BackupArchive; ba_input := ba_input EXPECTED_BackupArchive; ba_manifest := ba_manifest EXPECTED_BackupArchive;
       ba_paths := ba_paths EXPECTED_BackupArchive; ba_entries := ba_entries EXPECTED_BackupArchive; ba_numbers := ba_numbers EXPECTED_BackupArchive;
       ba_completion := ba_completion EXPECTED_BackupArchive; ba_failure := ba_failure EXPECTED_BackupArchive; ba_memory := ba_memory EXPECTED_BackupArchive;
       ba_result := ba_result EXPECTED_BackupArchive; ba_effects := ba_effects EXPECTED_BackupArchive;
       ba_consumers := "gzip_wrapper_only_no_external_consumers"; ba_max_chunk_bytes := ba_max_chunk_bytes EXPECTED_BackupArchive;
       ba_max_archive_bytes := ba_max_archive_bytes EXPECTED_BackupArchive; ba_max_payload_bytes := ba_max_payload_bytes EXPECTED_BackupArchive;
       ba_max_file_bytes := ba_max_file_bytes EXPECTED_BackupArchive; ba_max_files := ba_max_files EXPECTED_BackupArchive;
       ba_max_path_bytes := ba_max_path_bytes EXPECTED_BackupArchive; ba_max_path_components := ba_max_path_components EXPECTED_BackupArchive;
       ba_max_component_bytes := ba_max_component_bytes EXPECTED_BackupArchive; ba_max_tail_bytes := ba_max_tail_bytes EXPECTED_BackupArchive;
       ba_required_tests := ba_required_tests EXPECTED_BackupArchive |}
  else EXPECTED_BackupArchive.
Definition validate_backup_archives (c : Contract) : CheckResult unit :=
  if version c <? 16 then check (is_some (backup_archive_contract c)) "backup archive validation requires architecture v16"
  else
    let? actual := ok_or (backup_archive_contract c) (Message "v16 requires bounded backup archive contract") in
    fail_if negb (bool_decide (actual = expected_archive (version c)))
    with Message "archive codec must retain its exact bounded non-authorizing profile" in
    fail_if suites_missing c (ba_required_tests actual) with Message "archive codec requires its native response suite" in
    let? codec := ok_or (find_rule (named CODEC) c) (Message "missing archive codec owner") in
    fail_if negb (String.eqb (r_path codec) "crates/device-codec") || negb (String.eqb (r_layer codec) "infrastructure")
         || negb (mem (r_name codec) (portable_crates c))
         || negb (bool_decide (sorted (r_dependencies codec)
                    = (if 17 <=? version c then ["flate2"] else []) ++ ["openwrt-mcp-core"; "serde"; "serde_json"; "zeroize"]))
         || negb (Nat.eqb (length (r_dev_dependencies codec)) 0) || negb (Nat.eqb (length (r_build_dependencies codec)) 0)
    with Message "archive codec requires its pure portable owner and reviewed dependencies" in
    check (existsb (unbanned_consumer (r_name codec) "openwrt_mcp_device_codec::archive") (crates c))
          "archive codec has no production consumers before integration review".

Definition validate_gzip_archives (c : Contract) : CheckResult unit :=
  if version c <? 17 then check (is_some (gzip_archive_contract c)) "gzip archive validation requires architecture v17"
  else
    let? actual := ok_or (gzip_archive_contract c) (Message "v17 requires bounded gzip contract") in
    fail_if negb (bool_decide (actual = EXPECTED_GzipArchive)) with Message "gzip requires its exact bounded single-member profile" in
    fail_if suites_missing c (gz_required_tests actual) with Message "gzip requires the mandatory native response suite" in
    check (existsb (unbanned_consumer CODEC "openwrt_mcp_device_codec::gzip") (crates c))
          "gzip has no external production consumer before integration".

Definition validate_sealing (c : Contract) : CheckResult unit :=
  if version c <? 18 then
    fail_if is_some (archive_sealing_contract c) with Message "archive sealing requires architecture v18" in
    check (existsb (fun rule => named "openwrt-mcp" rule && mem CODEC (r_dev_dependencies rule)) (crates c))
          "sealing fixture codec edge requires architecture v18"
  else
    let? actual := ok_or (archive_sealing_contract c) (Message "v18 requires archive sealing contract") in
    fail_if negb (bool_decide (actual = EXPECTED_Sealing)) with Message "sealing requires exact bounded supplied-stream profile" in
    fail_if suites_missing c (se_required_tests actual) with Message "sealing requires both mandatory native suites" in
    let? rule := ok_or (find_rule (named (se_owner actual)) c) (Message "missing sealing owner") in
    fail_if negb (String.eqb (r_path rule) "crates/runtime") || negb (String.eqb (r_layer rule) "application")
         || negb (mem (r_name rule) (portable_crates c))
         || negb (bool_decide (sorted (r_dependencies rule)
                    = ["async-trait"; "openwrt-mcp-core"; "serde"; "serde_json"; "thiserror"; "tokio"; "zeroize"]))
         || negb (Nat.eqb (length (r_dev_dependencies rule)) 0) || negb (Nat.eqb (length (r_build_dependencies rule)) 0)
    with Message "sealing must retain the portable application owner and existing dependencies" in
    fail_if existsb (unbanned_consumer (r_name rule) "openwrt_mcp_runtime::sealing") (crates c)
    with Message "sealing has no external production consumer" in
    let? fixture := ok_or (find_rule (named (se_fixture_owner actual)) c) (Message "missing sealing composition fixture") in
    check (negb (bool_decide (sorted (r_dev_dependencies fixture) = ["age"; "async-trait"; CODEC; "rmcp"; "russh"; "zip"]))
           || mem CODEC (r_dependencies fixture ++ r_build_dependencies fixture))
          "sealing codec composition edge must be development-only".

(** The version may declare what it introduces, and no earlier one may. *)
Definition v12_text_options (c : Contract) (p : ProjectionContract) : CheckResult unit :=
  if 12 <=? version c then
    check (negb (is_just "nested_string_or_list_no_selection" (pr_text_options p))
           || negb (is_just "kind_and_values_preserve_representation" (pr_text_option_output p))
           || negb (is_just "shared_scan_emit_bytes" (pr_text_option_budget p)) || negb (is_just 128 (pr_max_text_option_items p)))
          "v12 requires bounded nested representation-preserving text options"
  else check (is_some (pr_text_options p) || is_some (pr_text_option_output p) || is_some (pr_text_option_budget p) || is_some (pr_max_text_option_items p))
             "text option expansion requires architecture v12".
Definition v11_text_enums (c : Contract) (p : ProjectionContract) : CheckResult unit :=
  if 11 <=? version c then
    check (negb (is_just "exact_finite_no_coercion" (pr_text_enums p)) || negb (is_just 16 (pr_max_text_enum_values p)))
          "v11 requires bounded exact text enums"
  else check (is_some (pr_text_enums p) || is_some (pr_max_text_enum_values p)) "text enum expansion requires architecture v11".
Definition v10_profile (c : Contract) (p : ProjectionContract) : CheckResult (string * list string) :=
  let forms := ["Record"; "ObjectArray"; "ObjectEntries"; "ScalarArray"] in
  if 10 <=? version c then
    fail_if negb (is_just "ordered_duplicates_preserved_no_selection" (pr_observation_rows p))
         || negb (is_just "false_or_safe_integer_no_coercion" (pr_scalar_union p))
         || negb (is_just "absent_pointers_before_projection" (pr_root_guards p)) || negb (is_just 4 (pr_max_root_guards p))
    with Message "v10 requires bounded observation rows, scalar union and root guards" in
    Ok (if 12 <=? version c then "typed_collections_v4" else if 11 <=? version c then "typed_collections_v3" else "typed_collections_v2",
        forms ++ ["RowArray"] ++ (if 12 <=? version c then ["TextOption"] else []))
  else
    fail_if is_some (pr_observation_rows p) || is_some (pr_scalar_union p) || is_some (pr_root_guards p) || is_some (pr_max_root_guards p)
    with Message "observation response expansion requires architecture v10" in
    Ok ("typed_collections_v1", forms).
Definition ceilings_ok (p : ProjectionContract) : bool :=
  (pr_max_collection_depth p =? 2) && (pr_max_collection_nodes p =? 8) && (pr_max_total_items p =? 256) && (pr_max_emitted_items p =? 256)
  && (pr_max_items_per_collection p =? 256) && (pr_max_fields_per_record p =? 64) && (pr_max_schema_depth p =? 8) && (pr_max_pointer_depth p =? 8)
  && (pr_max_pointer_bytes p =? 512) && (pr_max_output_name_bytes p =? 64) && (pr_max_string_bytes p =? 1024) && (pr_max_normalized_bytes p =? 65536).

Definition validate_projection (c : Contract) : CheckResult unit :=
  let? p := ok_or (projection_contract c) (Message "v6 requires a projection contract") in
  let? response := ok_or (action_response_contract c) (Message "v6 requires a strict action response contract") in
  let? mcp := ok_or (mcp_result_contract c) (Message "v6 requires a bounded MCP result contract") in
  let? _ := v12_text_options c p in
  let? _ := v11_text_enums c p in
  let? (profile, forms) := v10_profile c p in
  fail_if negb (String.eqb (pr_owner p) "openwrt-mcp-core") || negb (String.eqb (pr_profile p) profile)
       || negb (String.eqb (pr_prepared_invocation p) "private_core") || negb (String.eqb (pr_finite_schema p) "two_collection_levels")
       || negb (exact (pr_node_forms p) forms) || negb (String.eqb (pr_root_selection p) "exact_parameter_equality")
       || negb (String.eqb (pr_map_keys p) "explicit_bounded_field") || negb (String.eqb (pr_builtin_raw_subtrees p) "forbidden")
       || negb (String.eqb (pr_invalid_shape p) "reject") || negb (String.eqb (pr_overflow p) "reject")
  with Message "projection requires the reviewed finite pure-core profile" in
  fail_if negb (ceilings_ok p) with Message "projection hard ceilings must match the reviewed bounded profile" in
  fail_if negb (String.eqb (ar_owner response) CODEC) || negb (String.eqb (ar_profile response) "strict_json_v1")
       || negb (exact (ar_consumers response) ["openwrt-mcp-adapters"; "openwrt-mcp-backend-ssh"])
       || negb (String.eqb (ar_duplicate_keys response) "reject") || negb (ar_max_depth response =? 32)
       || negb (ar_max_nodes response =? 65536) || negb (ar_max_bytes response =? 16777216)
  with Message "action responses require one bounded strict shared codec" in
  fail_if negb (String.eqb (mr_owner mcp) "openwrt-mcp-transport") || negb (String.eqb (mr_normalized_owner mcp) "openwrt-mcp-runtime")
       || negb (String.eqb (mr_normalized_phase mcp) "before_finish_audit") || negb (String.eqb (mr_serialized_scope mcp) "entire_call_tool_result")
       || negb (mr_max_serialized_bytes mcp =? 262144)
  with Message "MCP results require complete serialization and pre-audit normalization bounds" in
  fail_if negb (forallb (fun '(name, path, layer) => portable_owner c (Some layer) path name)
                  [("openwrt-mcp-core", "crates/core", "domain"); ("openwrt-mcp-features", "crates/features", "features");
                   ("openwrt-mcp-runtime", "crates/runtime", "application"); (CODEC, "crates/device-codec", "infrastructure");
                   ("openwrt-mcp-transport", "crates/mcp", "transport")])
  with Message "v6 response owners must keep their portable architecture boundaries" in
  each (fun '(actual, expected) => check (negb (exact actual expected) || suites_missing c actual)
                                         "v6 requires all five owned portable response suites")
       [(pr_required_tests p, PROJECTION_SUITES); (ar_required_tests response, ["crates/device-codec/tests/action_response.rs"]);
        (mr_required_tests mcp, ["crates/mcp/tests/bounded_results.rs"])].

(** ** Declarations about the repository *)
Section repository.
Context (is_file : string -> bool) (read_to_string : string -> option string) (fs : FileSystem).
Context (parse_toml : string -> option Toml) (parse_json : string -> option value) (parse_datetime : string -> option Datetime)
        (parse_registry : string -> option Registry) (parse_evidence : string -> option Evidence).
Context (syn : Syn).

Definition in_file (file : string) (r : CheckResult unit) : CheckResult unit :=
  map_err (fun e => match e with Message text => Message (file +:+ ": " +:+ text) | Panicked => Panicked end) r.

Definition core_layer (rule : CrateRule) : bool := mem (r_layer rule) ["domain"; "features"; "application"; "transport"].
Definition validate_portability (c : Contract) : CheckResult unit :=
  fail_if negb (exact (required_hosts c) HOSTS) with Message "portability requires exactly Windows, Linux and macOS hosts" in
  fail_if negb (all_distinct (portable_crates c)) || Nat.eqb (length (portable_crates c)) 0
       || existsb (fun name => negb (existsb (named name) (crates c))) (portable_crates c)
  with Message "portable crate classification is missing, duplicate or unowned" in
  fail_if existsb (fun rule => core_layer rule && negb (mem (r_name rule) (portable_crates c))) (crates c)
  with Message "core architectural layers must remain portable" in
  fail_if Nat.eqb (length (required_portable_tests c)) 0 || negb (all_distinct (required_portable_tests c))
  with Message "required portable suites must be nonempty and unique" in
  let? _ := each (fun file =>
    let? _ := portable_test_command c file in
    let? _ := validate_portable_target read_to_string parse_toml c file in
    let? source := ok_or (read_to_string file) (Message ("missing required portable suite: " +:+ file)) in
    in_file file (check_portable syn true source)) (required_portable_tests c) in
  fail_if negb (safe_path (native_ci c)) || negb (starts_with ".github/workflows/" (native_ci c)) || negb (ends_with ".yml" (native_ci c))
  with Message "native CI must name a reviewed workflow path" in
  let? workflow := ok_or (read_to_string (native_ci c)) (Message "missing native CI workflow") in
  check_native_ci parse_json c workflow.

Definition CODEC_BANS : list string :=
  ["std::fs"; "std::io::stdin"; "std::io::stdout"; "std::io::stderr"; "std::io::pipe"; "std::net"; "std::os"; "std::process"; "std::thread";
   "std::env"; "tokio"].
Definition codec_dependencies (version : Z) : list string :=
  ["openwrt-mcp-core"; "serde"; "serde_json"] ++ (if 16 <=? version then ["zeroize"] else []) ++ (if 17 <=? version then ["flate2"] else []).
Definition TARGET_ADAPTERS : list string := ["openwrt-mcp-adapters"; "openwrt-mcp-backend-ssh"].

Definition validate_capabilities (c : Contract) : CheckResult unit :=
  let? capability := ok_or (capability_contract c) (Message "v5 requires a capability contract") in
  let profile := if 11 <=? version c then "base_luci_uci_v3" else "base_luci_v2" in
  fail_if (9 <=? version c) && negb (is_just profile (cp_probe_profile capability)) || (version c <? 9) && is_some (cp_probe_profile capability)
  with Message "capability probe profile requires its reviewed architecture version" in
  fail_if negb (String.eqb (cp_probe_registry capability) "architecture/capability-probes.toml")
       || negb (String.eqb (cp_evidence_manifest capability) "compatibility/evidence.toml")
       || negb (exact (cp_required_tests capability) CAPABILITY_SUITES) || suites_missing c (cp_required_tests capability)
  with Message "capability contract requires reviewed registries and all portable suites" in
  let? codec := ok_or (find_rule (named CODEC) c) (Message "capability codec boundary is missing") in
  fail_if negb (String.eqb (r_path codec) "crates/device-codec") || negb (String.eqb (r_layer codec) "infrastructure")
       || negb (mem CODEC (portable_crates c)) || negb (exact (r_dependencies codec) (codec_dependencies (version c)))
       || negb (Nat.eqb (length (r_dev_dependencies codec)) 0) || negb (Nat.eqb (length (r_build_dependencies codec)) 0)
  with Message "capability codec must remain portable and core-only with reviewed parsers" in
  fail_if existsb (fun path => negb (mem path (r_forbidden_paths codec))) CODEC_BANS with Message "capability codec cannot acquire concrete I/O" in
  fail_if existsb (fun rule => depends CODEC rule && negb (mem (r_name rule) TARGET_ADAPTERS)) (crates c)
  with Message "only target infrastructure may consume the capability codec" in
  fail_if existsb (fun name => negb (existsb (fun rule => named name rule && depends CODEC rule) (crates c))) TARGET_ADAPTERS
  with Message "both target adapters require the shared codec boundary" in
  let? registry := read_artifact fs (cp_probe_registry capability) in
  let? _ := check_capability_registry_for_version parse_registry registry (version c) in
  let? evidence := read_artifact fs (cp_evidence_manifest capability) in
  check_compatibility_evidence fs parse_datetime parse_evidence evidence.

Definition WINDOWS_OWNER : string := "openwrt-mcp-host-platform".
(** A manifest whose lints are exactly the reviewed ones. *)
Definition check_windows_lints (owner : string) (manifest : Toml) : CheckResult unit :=
  check (negb (match toml_get "lints" manifest with
               | Some (TTable [(k, TTable [(l, TString level)])]) =>
                   String.eqb owner WINDOWS_OWNER && String.eqb k "rust" && String.eqb l "unsafe_code" && String.eqb level "deny"
               | Some (TTable [(k, TBoolean true)]) => negb (String.eqb owner WINDOWS_OWNER) && String.eqb k "workspace"
               | _ => false
               end)) "production lint boundary must remain exact".

Definition index (k : string) (t : Toml) : CheckResult Toml := ok_or (toml_get k t) Panicked.
Definition validate_windows_reads (c : Contract) : CheckResult unit :=
  let? actual := ok_or (windows_read_contract c) (Message "v8 requires Windows read contract") in
  fail_if negb (bool_decide (actual = EXPECTED_WindowsRead)) with Message "Windows read contract must retain the reviewed closed profile" in
  let? _ := each (fun file =>
    let? (rule, _) := owner c file in
    check (negb (named WINDOWS_OWNER rule) || negb (is_file file)) "missing or unowned Windows read boundary/suite")
    [wr_native_file actual; wr_policy_file actual; wr_required_test actual] in
  fail_if existsb (fun rule => negb (named WINDOWS_OWNER rule) && depends "windows-sys" rule) (crates c)
       || negb (existsb (fun rule => named WINDOWS_OWNER rule && depends "windows-sys" rule) (crates c))
  with Message "Windows SDK belongs exclusively to host-platform" in
  let? _ := each (fun rule =>
    let? manifest := manifest_of read_to_string parse_toml (r_path rule +:+ "/Cargo.toml") "missing manifest" "invalid manifest" in
    check_windows_lints (r_name rule) manifest) (List.filter production (crates c)) in
  let? workspace := manifest_of read_to_string parse_toml "Cargo.toml" "missing workspace" "invalid workspace" in
  let? workspace := index "workspace" workspace in
  let? lints := index "lints" workspace in
  let? rust := index "rust" lints in
  let? level := index "unsafe_code" rust in
  fail_if negb (is_just "forbid" (toml_str level)) with Message "workspace unsafe forbid must remain" in
  let? suite := ok_or (read_to_string (wr_required_test actual)) (Message "missing Windows suite") in
  let? _ := check_windows_suite syn suite in
  validate_portable_target read_to_string parse_toml c (wr_required_test actual).

Definition validate_windows_logs (c : Contract) : CheckResult unit :=
  if version c <? 19 then check (is_some (windows_log_contract c)) "Windows private logs require architecture v19"
  else
    let? actual := ok_or (windows_log_contract c) (Message "v19 requires Windows log contract") in
    fail_if negb (bool_decide (actual = EXPECTED_WindowsLog)) with Message "Windows log contract must retain exact bounded NTFS profile" in
    let? _ := each (fun file =>
      let? (rule, _) := owner c file in
      check (negb (named (wl_owner actual) rule) || negb (String.eqb (r_layer rule) "infrastructure")) "Windows log files remain owned by host-platform")
      [wl_facade actual; wl_native_file actual; wl_required_test actual] in
    let? suite := ok_or (read_to_string (wl_required_test actual)) (Message "missing Windows log suite") in
    let? _ := check_windows_suite syn suite in
    validate_portable_target read_to_string parse_toml c (wl_required_test actual).

Definition expected_declarations : list (string * DeclarationValue) :=
  bt_of_list (((fun p => (fst p, DText (snd p))) <$> GUARDED_RULES) ++ ((fun p => (fst p, DLimit (snd p))) <$> GUARDED_LIMITS)
              ++ [("requirements", DList REQUIREMENTS); ("states", DList STATES); ("transitions", DList TRANSITIONS); ("ports", DList PORTS);
                  ("edges", DList GUARDED_EDGES); ("required_tests", DList GUARDED_TESTS)]).
Definition check_design (path : string) : CheckResult unit :=
  fail_if negb (is_file path) with Message "guarded mutation design and regression suites must exist" in
  if ends_with ".rs" path then
    let? source := ok_or (read_to_string path) (Message "cannot read guarded mutation regression suite") in check_portable syn true source
  else Ok tt.
(** The directory and the namespace of an edge, and the crates of both. *)
Definition check_edge (c : Contract) (edge : string) : CheckResult unit :=
  let? (directory, namespace) := ok_or (split_once_at " -> " edge) (Message "invalid reviewed edge") in
  let? (rule, development) := owner c (directory +:+ "mod.rs") in
  let? package := ok_or (rest ← strip_prefix "crates/" directory; head (split_on "/" rest)) (Message "invalid mutation owner") in
  let expected_owner := if String.eqb package "server" then "openwrt-mcp" else "openwrt-mcp-" +:+ package in
  let dependency := replace_char "_" "-" (match split_once_at "::" namespace with Some (crate, _) => crate | None => namespace end) in
  check (development || negb (named expected_owner rule) || negb (depends dependency rule))
        "mutation consumers must retain production ownership".
Definition validate_guarded_mutations (c : Contract) : CheckResult unit :=
  if version c <? 21 then check (is_some (guarded_mutation_contract c)) "guarded mutation declarations require architecture v21"
  else
    let? actual := ok_or (guarded_mutation_contract c) (Message "v21 requires guarded mutation declarations") in
    fail_if negb (bool_decide (actual = expected_declarations))
    with Message "guarded mutation requires exact reviewed boundaries, ports, transitions and budgets" in
    let? _ := each check_design (GUARDED_TESTS ++ ["docs/guarded-mutation-contracts.md"]) in
    let? _ := each (check_edge c) GUARDED_EDGES in
    each (fun port => check (negb (is_some (parse_trait syn port))) "invalid reviewed port syntax") PORTS.

Definition validate_ciphertext_foundations (c : Contract) : CheckResult unit :=
  if version c <? 22 then check (is_some (ciphertext_foundation_contract c)) "ciphertext foundations require architecture v22"
  else
    let? actual := ok_or (ciphertext_foundation_contract c) (Message "v22 requires ciphertext foundations") in
    fail_if negb (bool_decide (actual = bt_of_list CIPHERTEXT_RULES)) with Message "ciphertext foundations require exact reviewed declarations" in
    each (fun path =>
      let? text := ok_or (read_to_string path) (Message "missing ciphertext contract evidence") in
      if ends_with ".rs" path then check_portable syn true text else Ok tt)
      ["docs/ciphertext-foundations.md"; "tools/xtask/tests/ciphertext_foundations.rs"].

(** ** [Contract::validate] *)
Definition since (v : Z) (c : Contract) (f : CheckResult unit) : CheckResult unit := if v <=? version c then f else Ok tt.
Definition validate (c : Contract) : CheckResult unit :=
  let? _ := validate_crates c in
  let? _ := each (fun document => check (negb (safe_path document) || negb (is_file document))
                                        "architecture contract references a missing/unsafe document")
                 [decision c; requirements c; architecture_document c] in
  let? _ := since 4 c (validate_portability c) in
  let? _ := since 5 c (validate_capabilities c) in
  let? _ := since 6 c (validate_projection c) in
  let? _ := since 7 c (validate_packages c) in
  let? _ := since 8 c (validate_windows_reads c) in
  let? _ := validate_uci_reads c in
  let? _ := validate_opkg_status c in
  let? _ := validate_management_effects c in
  let? _ := validate_backup_archives c in
  let? _ := validate_gzip_archives c in
  let? _ := validate_sealing c in
  let? _ := validate_windows_logs c in
  let? _ := validate_guarded_mutations c in
  validate_ciphertext_foundations c.
End repository.

(** ** Evolution

    [validate_evolution]: a changed contract needs a new version, a new
    decision, and changes of its documents and of the checks. *)
Section evolution.
Context (parse : string -> option Contract).
Definition parse_contract (text : string) : CheckResult Contract := ok_or (parse text) (Message "invalid architecture contract or unknown field").

Definition changed_under (prefix : string) (changed : gset string) : bool :=
  existsb (fun path => starts_with prefix path && ends_with ".rs" path) (elements changed).
Definition check_change (prior : option Contract) (current : Contract) (changed : gset string) : CheckResult unit :=
  fail_if match prior with Some prior => version current <=? version prior | None => false end
  with Message "architecture changes require an increased contract version" in
  fail_if match prior with Some prior => String.eqb (decision current) (decision prior) | None => false end
  with Message "architecture changes require a new ADR path" in
  let? _ := each (fun evidence => check (bool_decide (evidence ∉ changed)) ("architecture evolution lacks changed evidence: " +:+ evidence))
                 ["architecture/spec.toml"; decision current; requirements current; architecture_document current] in
  fail_if negb (starts_with "docs/adr/" (decision current)) || negb (ends_with ".md" (decision current))
  with Message "architecture decision must be an ADR document" in
  fail_if negb (changed_under "tools/xtask/tests/" changed) with Message "architecture changes require a harness regression test change" in
  check (negb (changed_under "tools/xtask/src/" changed)) "architecture changes require a harness implementation change".

Definition validate_evolution (previous : option string) (current : string) (changed : gset string) : CheckResult unit :=
  let? current := parse_contract current in
  let? prior := match previous with Some text => let? prior := parse_contract text in Ok (Some prior) | None => Ok None end in
  if bool_decide (prior = Some current) then Ok tt else check_change prior current changed.
End evolution.

(** ** Ownership is unambiguous *)
Lemma app_slash p s : str_bytes (p +:+ "/" +:+ s) = str_bytes p ++ 47 :: str_bytes s.
Proof. by rewrite !str_bytes_app. Qed.

Lemma under_directory p q : starts_with (p +:+ "/") q = true <-> str_bytes p ++ [47] `prefix_of` str_bytes q.
Proof.
  rewrite starts_with_spec. split.
  - intros [t ->]. exists (str_bytes t). by rewrite string_app_assoc, app_slash, <- app_assoc.
  - intros [l Hl]. exists (bytes_str l). apply str_bytes_inj. rewrite string_app_assoc, app_slash, Hl, <- app_assoc.
    rewrite str_bytes_bytes; [done |]. pose proof (str_bytes_is_byte q) as Hb. rewrite Hl in Hb. by apply Forall_app in Hb as [_ ?].
Qed.

Lemma longer_directory (p q l m k : list Z) : p ++ 47 :: l = q ++ 47 :: m -> q = p ++ k -> k = [] \/ p ++ [47] `prefix_of` q.
Proof.
  intros He ->. rewrite <- app_assoc in He. apply (inj (p ++.)) in He. destruct k as [| z k]; [by left | right].
  injection He as <- _. exists k. by rewrite <- app_assoc.
Qed.

(** Directories that hold the same file are the same, or one is in the other. *)
Lemma directories_of_file p q s t :
  p +:+ "/" +:+ s = q +:+ "/" +:+ t -> p = q \/ starts_with (p +:+ "/") q = true \/ starts_with (q +:+ "/") p = true.
Proof.
  intros He. rewrite !under_directory. apply (f_equal str_bytes) in He. rewrite !app_slash in He.
  destruct (app_eq_inv _ _ _ _ He) as [(k & Hk & _) | (k & Hk & _)].
  - destruct (longer_directory _ _ _ _ k (eq_sym He) Hk) as [-> | ?]; [left | by right; right]. apply str_bytes_inj. by rewrite Hk, app_nil_r.
  - destruct (longer_directory _ _ _ _ k He Hk) as [-> | ?]; [left | by right; left]. apply str_bytes_inj. by rewrite Hk, app_nil_r.
Qed.

Lemma check_rules_ok names paths rules all :
  check_rules names paths rules = Ok all ->
  all = reverse (r_path <$> rules) ++ paths /\ NoDup (r_path <$> rules) /\ (forall r, r ∈ rules -> r_path r ∉ paths)
  /\ NoDup (r_name <$> rules) /\ (forall r, r ∈ rules -> r_name r ∉ names).
Proof.
  revert names paths. induction rules as [| rule rules IH]; intros names paths; cbn [check_rules].
  - intros [= <-]. repeat split; try constructor; by intros r ?%elem_of_nil.
  - intros H. apply fail_if_ok in H as [H1 H]. apply fail_if_ok in H as [_ H]. apply IH in H as (-> & Hp & Hps & Hn & Hns). clear IH.
    rewrite !orb_false_iff in H1. destruct H1 as [[[Hname Hpath] _] _]. unfold mem in Hname, Hpath.
    apply bool_decide_eq_false in Hname, Hpath. split; [by rewrite fmap_cons, reverse_cons, <- app_assoc |].
    rewrite !fmap_cons, !NoDup_cons. repeat split; try done.
    + intros (r & Hr & Hin)%list_elem_of_fmap. apply (Hps r Hin). rewrite <- Hr. left.
    + intros r [-> | Hin]%elem_of_cons; [done |]. intros Hr. apply (Hps r Hin). by right.
    + intros (r & Hr & Hin)%list_elem_of_fmap. apply (Hns r Hin). rewrite <- Hr. left.
    + intros r [-> | Hin]%elem_of_cons; [done |]. intros Hr. apply (Hns r Hin). by right.
Qed.

(** What validation establishes of the declared crates. *)
Record separate (rules : list CrateRule) : Prop := {
  separate_names : NoDup (r_name <$> rules);
  separate_paths : NoDup (r_path <$> rules);
  separate_nested r s : r ∈ rules -> s ∈ rules -> r_path r <> r_path s -> starts_with (directory r) (r_path s) = false
}.

Lemma validate_crates_separate c : validate_crates c = Ok tt -> separate (crates c).
Proof.
  unfold validate_crates. intros H. apply fail_if_ok in H as [_ H]. apply rbind_ok in H as (paths & Hr & H).
  apply check_rules_ok in Hr as (-> & Hp & _ & Hn & _). unfold check in H. apply fail_if_ok in H as [H _]. split; [done | done |].
  intros r s Hin Hin' Hne. rewrite app_nil_r in H. unfold overlapping in H. rewrite existsb_false_Forall, Forall_forall in H.
  assert (Hpath : forall r, r ∈ crates c -> r_path r ∈ reverse (r_path <$> crates c)).
  { intros r' Hr'. apply elem_of_reverse, list_elem_of_fmap. by exists r'. }
  specialize (H _ (Hpath r Hin)). cbn beta in H. rewrite existsb_false_Forall, Forall_forall in H. specialize (H _ (Hpath s Hin')). cbn beta in H.
  apply andb_false_iff in H as [H | H]; [| exact H]. apply negb_false_iff, String.eqb_eq in H. by rewrite H in Hne.
Qed.

Lemma one_directory rules r s t u :
  separate rules -> r ∈ rules -> s ∈ rules -> directory r +:+ t = directory s +:+ u -> r = s.
Proof.
  intros [_ Hp Hn] Hr Hs He. unfold directory in He, Hn. rewrite !string_app_assoc in He. apply (fmap_inj_in r_path rules); [done.. |].
  destruct (decide (r_path r = r_path s)) as [| Hne]; [done |]. destruct (directories_of_file _ _ _ _ He) as [? | [H | H]]; [done | |].
  - by rewrite (Hn r s Hr Hs Hne) in H.
  - by rewrite (Hn s r Hs Hr (not_eq_sym Hne)) in H.
Qed.

(** Where a file may be in its crate, and whether that is development. *)
Definition placed (rule : CrateRule) (local : string) (development : bool) : Prop :=
  starts_with "src/" local = true /\ development = String.eqb (r_layer rule) "development"
  \/ starts_with "src/" local = false /\ (starts_with "tests/" local = true \/ starts_with "examples/" local = true) /\ development = true.

Lemma find_owner_ok file rules rule development :
  find_owner file rules = Ok (rule, development) -> exists local, rule ∈ rules /\ file = directory rule +:+ local /\ placed rule local development.
Proof.
  induction rules as [| first rules IH]; cbn [find_owner]; [done |]. destruct (strip_prefix (directory first) file) as [local |] eqn:E.
  - apply strip_prefix_spec in E. unfold placed. destruct (starts_with "src/" local) eqn:Es.
    + intros [= <- <-]. exists local. split; [left |]. split; [done | by left].
    + destruct (starts_with "tests/" local || starts_with "examples/" local) eqn:Et; [| done].
      intros [= <- <-]. exists local. split; [left |]. split; [done | right]. by apply orb_true_iff in Et.
  - intros (local & Hin & H)%IH. exists local. split; [by right | done].
Qed.

Lemma find_owner_placed file rules rule local development :
  separate rules -> rule ∈ rules -> file = directory rule +:+ local -> placed rule local development ->
  find_owner file rules = Ok (rule, development).
Proof.
  intros Hs Hin Hf Hl. assert (Hone : forall s, s ∈ rules -> forall t, file = directory s +:+ t -> s = rule).
  { intros s Hin' t Ht. symmetry. apply (one_directory rules rule s local t); [done.. | congruence]. }
  clear Hs. induction rules as [| first rules IH]; [by apply elem_of_nil in Hin |]. cbn [find_owner].
  destruct (strip_prefix (directory first) file) as [t |] eqn:E.
  - apply strip_prefix_spec in E. assert (first = rule) as -> by (apply (Hone first ltac:(left) t E)).
    assert (t = local) as ->. { apply str_bytes_inj. rewrite E in Hf. apply (f_equal str_bytes) in Hf. rewrite !str_bytes_app in Hf. by simplify_list_eq. }
    destruct Hl as [[-> ->] | (-> & [-> | ->] & ->)]; rewrite ?orb_true_r; done.
  - apply elem_of_cons in Hin as [-> | Hin]; [| apply IH; [done |]; intros s ?; apply Hone; by right].
    assert (strip_prefix (directory first) file = Some local) by (by apply strip_prefix_spec). congruence.
Qed.

(** Ownership of source files is unambiguous.  In a contract that was accepted, a safe path has an owner exactly when
    some declared crate's directory contains it, in its sources, tests or examples: the owner is that crate, whatever the
    order of the declarations, no other crate's directory contains the file, and the file counts as development exactly
    when it is a test, an example or a source of a development crate. *)
Theorem owner_exact is_file read_to_string fs parse_toml parse_json parse_datetime parse_registry parse_evidence (syn : Syn)
    (c : Contract) (file : string) :
  validate is_file read_to_string fs parse_toml parse_json parse_datetime parse_registry parse_evidence syn c = Ok tt ->
  safe_path file = true ->
  (forall rule development,
     owner c file = Ok (rule, development)
     <-> exists local, rule ∈ crates c /\ file = directory rule +:+ local /\ placed rule local development)
  /\ (forall rule rule' local local', rule ∈ crates c -> rule' ∈ crates c ->
        file = directory rule +:+ local -> file = directory rule' +:+ local' -> rule' = rule).
Proof.
  intros Hv Hs. unfold validate in Hv. apply rbind_ok in Hv as ([] & Hv & _). apply validate_crates_separate in Hv.
  split.
  - intros rule development. unfold owner. rewrite Hs. cbn [negb]. split; [apply find_owner_ok |].
    intros (local & Hin & Hf & Hl). by apply (find_owner_placed _ _ _ local).
  - intros rule rule' local local' Hin Hin' -> He. symmetry. by apply (one_directory (crates c) rule rule' local local').
Qed.

(** ** A small contract *)
Definition demo_rule (name path layer : string) (dependencies : list string) : CrateRule :=
  {| r_name := name; r_path := path; r_layer := layer; r_dependencies := dependencies; r_dev_dependencies := []; r_build_dependencies := [];
     r_forbidden_paths := ["std::fs"]; r_allowed_macros := [] |}.
Definition demo_contract (v : Z) (adr : string) : Contract :=
  {| ciphertext_foundation_contract := None; guarded_mutation_contract := None; windows_log_contract := None; archive_sealing_contract := None;
     gzip_archive_contract := None; backup_archive_contract := None; management_effect_contract := None; opkg_status_contract := None;
     uci_read_contract := None; windows_read_contract := None; version := v; decision := adr; requirements := "docs/requirements.md";
     architecture_document := "docs/architecture.md"; required_hosts := []; portable_crates := []; required_portable_tests := []; native_ci := "ci.yml";
     capability_contract := None; projection_contract := None; action_response_contract := None; mcp_result_contract := None; package_contract := None;
     crates := [demo_rule "core" "crates/core" "domain" []; demo_rule "core-extra" "crates/core-extra" "features" ["core"];
                demo_rule "xtask" "tools/xtask" "development" []] |}.
Definition demo_validate (c : Contract) : CheckResult unit :=
  validate (fun _ => true) (fun _ => None) {| fs_root := true; fs_symlink := fun _ => None; fs_canonical := fun _ => None |}
    (fun _ => None) (fun _ => None) (fun _ => None) (fun _ => None) (fun _ => None) (demo_syn (Branch TFile [])) c.

Lemma demo_accepted : demo_validate (demo_contract 1 "docs/adr/0001.md") = Ok tt.
Proof. vm_compute. reflexivity. Qed.

Lemma owner_exact_witness :
  owner (demo_contract 1 "docs/adr/0001.md") "crates/core-extra/src/lib.rs" = Ok (demo_rule "core-extra" "crates/core-extra" "features" ["core"], false)
  /\ (exists local, demo_rule "core-extra" "crates/core-extra" "features" ["core"] ∈ crates (demo_contract 1 "docs/adr/0001.md")
        /\ "crates/core-extra/src/lib.rs" = directory (demo_rule "core-extra" "crates/core-extra" "features" ["core"]) +:+ local
        /\ placed (demo_rule "core-extra" "crates/core-extra" "features" ["core"]) local false)%string.
Proof.
  split; [vm_compute; reflexivity |].
  exact (proj1 (proj1 (owner_exact _ _ _ _ _ _ _ _ _ _ "crates/core-extra/src/lib.rs" demo_accepted eq_refl) _ _) eq_refl).
Defined.

(** ** Evolution is evidenced *)
Lemma check_ok c message : check c message = Ok tt <-> c = false.
Proof. unfold check. destruct c; by split. Qed.

Lemma each_ok {A} (f : A -> CheckResult unit) l : each f l = Ok tt <-> Forall (fun x => f x = Ok tt) l.
Proof.
  induction l as [| x l IH]; cbn [each]; [by split; [intros _; constructor |] |]. rewrite Forall_cons, rbind_ok. rewrite <- IH.
  split; [by intros ([] & H1 & H2) | intros [H1 H2]; by exists tt].
Qed.

(** What a change of the contract needs. *)
Record evidenced (prior : option Contract) (current : Contract) (changed : gset string) : Prop := {
  evidenced_version : forall p, prior = Some p -> version p < version current;
  evidenced_decision : forall p, prior = Some p -> decision current <> decision p;
  evidenced_documents :
    {["architecture/spec.toml"%string; decision current; requirements current; architecture_document current]} ⊆ changed;
  evidenced_adr : starts_with "docs/adr/" (decision current) = true /\ ends_with ".md" (decision current) = true;
  evidenced_checks :
    forall area, area = "tools/xtask/tests/"%string \/ area = "tools/xtask/src/"%string ->
      exists path, path ∈ changed /\ starts_with area path = true /\ ends_with ".rs" path = true
}.

Lemma changed_under_true area changed :
  changed_under area changed = true <-> exists path, path ∈ changed /\ starts_with area path = true /\ ends_with ".rs" path = true.
Proof.
  unfold changed_under. rewrite existsb_exists. setoid_rewrite <- list_elem_of_In. setoid_rewrite elem_of_elements. by setoid_rewrite andb_true_iff.
Qed.

Lemma check_change_ok prior current changed : check_change prior current changed = Ok tt <-> evidenced prior current changed.
Proof.
  unfold check_change. rewrite !fail_if_ok, rbind_ok. split.
  - intros (Hv & Hd & [] & He & H). rewrite !fail_if_ok, check_ok, !negb_false_iff, orb_false_iff, !negb_false_iff in H. destruct H as (Ha & Ht & Hi).
    rewrite each_ok, !Forall_cons in He. destruct He as (E1 & E2 & E3 & E4 & _). rewrite check_ok, bool_decide_eq_false in E1, E2, E3, E4.
    apply dec_stable in E1, E2, E3, E4. rewrite changed_under_true in Ht, Hi. split.
    + intros p ->. apply Z.leb_gt in Hv. lia.
    + intros p -> E. by rewrite E, String.eqb_refl in Hd.
    + set_solver.
    + exact Ha.
    + intros area [-> | ->]; done.
  - intros [Hv Hd He [Ha1 Ha2] Hc]. split; [destruct prior as [p |]; [apply Z.leb_gt, (Hv p eq_refl) | done] |].
    split; [destruct prior as [p |]; [apply String.eqb_neq, (Hd p eq_refl) | done] |]. exists tt. split.
    + apply each_ok. rewrite !Forall_cons. rewrite !check_ok, !bool_decide_eq_false. repeat split; try constructor; set_solver.
    + rewrite fail_if_ok, Ha1, Ha2. split; [done |]. rewrite fail_if_ok, check_ok, !negb_false_iff, !changed_under_true.
      split; apply Hc; [by left | by right].
Qed.

(** A change of the contract is evidenced.  Against a baseline, the current contract is accepted exactly when both
    parse and it is the contract of the baseline, or its version is greater, its decision is another document under
    docs/adr/, that document, the requirements, the architecture document and the contract itself have all changed, and so
    have a test and an implementation file of the checks. *)
Theorem evolution_evidenced (parse : string -> option Contract) (previous : option string) (current : string) (changed : gset string) :
  validate_evolution parse previous current changed = Ok tt
  <-> exists c prior, parse current = Some c /\ (previous ≫= parse) = prior /\ (is_Some previous -> is_Some prior)
        /\ (prior = Some c \/ prior <> Some c /\ evidenced prior c changed).
Proof.
  unfold validate_evolution, parse_contract. rewrite rbind_ok. setoid_rewrite ok_or_ok. setoid_rewrite rbind_ok. split.
  - intros (c & Hc & prior & Hp & H). exists c, prior. split; [done |].
    assert ((previous ≫= parse) = prior /\ (is_Some previous -> is_Some prior)) as [E1 E2].
    { destruct previous as [text |]; cbn [mbind option_bind]; [| injection Hp as <-; split; [done | by intros []]].
      apply rbind_ok in Hp as (p & Hp & [= <-]). apply ok_or_ok in Hp. split; [done | by eexists]. }
    split; [done |]. split; [done |]. case_bool_decide as E; [by left | right]. split; [done | by apply check_change_ok].
  - intros (c & prior & Hc & Hp & Hs & H). exists c. split; [done |]. exists prior. split.
    + destruct previous as [text |]; cbn [mbind option_bind] in Hp; [| by rewrite <- Hp]. destruct (Hs (mk_is_Some _ _ eq_refl)) as [p Hp'].
      rewrite Hp'. apply rbind_ok. exists p. split; [apply ok_or_ok; congruence | done].
    + case_bool_decide as E; [done |]. destruct H as [H | [_ H]]; [done | by apply check_change_ok].
Qed.
