(* ===== verification/Sources.v ===== *)
(** * Names in source files

    The checks of [tools/xtask/src/source.rs] on names: the aliases of a file,
    the expansion of a path through them, the tokens of macro bodies, and the
    traversal of a file; and the overlays that the other files add for reserved
    namespaces. *)
From stdpp Require Import gmap strings.
From S2P Require Import Prelude Text Core Order Json Spec Syntax Portable Contract.
Open Scope Z_scope.

(** ** Aliases *)
(** [BTreeMap<String, BTreeSet<String>>]; a set is its ordered elements. *)
Notation Aliases := (list (string * list string)).
(** [aliases.entry(local).or_default().insert(original)] *)
Definition set_insert (x : string) (l : list string) : list string := if mem x l then l else insert_by (fun s => s) x l.
Definition add_alias (local original : string) (aliases : Aliases) : Aliases :=
  bt_insert local (set_insert original (default [] (bt_get local aliases))) aliases.
Definition add_all (names : list (string * string)) (aliases : Aliases) : Aliases :=
  foldl (fun aliases p => add_alias (fst p) (snd p) aliases) aliases names.
(** The imports of a file, then the renamed dependencies of its crate. *)
Definition aliases_of (file : Tree) (dependency_aliases : list (string * string)) : Aliases :=
  add_all dependency_aliases (add_all (imports file) []).

(** ** Expansion *)
Definition head_tail (path : string) : string * string :=
  match split_once_at "::" path with Some (head, tail) => (head, "::" +:+ tail) | None => (path, EmptyString) end.
(** The paths that one alias makes of a path. *)
Definition candidates (aliases : Aliases) (path : string) : list string :=
  let '(head, tail) := head_tail path in
  List.filter (fun candidate => slen candidate <=? 1024)
    ((fun target => target +:+ tail) <$> List.filter (fun target => negb (String.eqb target head)) (default [] (bt_get head aliases))).

(** [while let Some(path) = pending.pop()]; the stack has its top first, and
    nothing is pushed once 1024 paths were seen. *)
Fixpoint expand_loop (fuel : nat) (aliases : Aliases) (seen : gset string) (pending : list string) : option (gset string) :=
  match fuel with
  | O => None
  | S fuel =>
      match pending with
      | [] => Some seen
      | path :: pending =>
          if bool_decide (path ∈ seen) then expand_loop fuel aliases seen pending
          else
            let seen := {[path]} ∪ seen in
            expand_loop fuel aliases seen (if (size seen <? 1024)%nat then reverse (candidates aliases path) ++ pending else pending)
      end
  end.
(** Enough for every push of the first 1023 paths. *)
Definition all_targets (aliases : Aliases) : nat := length (concat (snd <$> aliases)).
Definition expand_fuel (aliases : Aliases) : nat := 2 + 1024 * all_targets aliases.
Definition expands (path : string) (aliases : Aliases) : gset string := default ∅ (expand_loop (expand_fuel aliases) aliases ∅ [path]).

(** [prefix]: the path is the boundary, or below it. *)
Definition below (path boundary : string) : bool :=
  String.eqb path boundary || match strip_prefix boundary path with Some suffix => starts_with "::" suffix | None => false end.

(** ** The checker *)
Section checker.
Context (rule : CrateRule) (aliases : Aliases) (development native_expressions : bool).
Notation errors := (gset string).

Definition forbidden (glob : bool) (expanded : string) : bool :=
  existsb (fun ban => below expanded ban || glob && below ban expanded) (r_forbidden_paths rule).
Definition check_path (path : string) (glob : bool) (e : errors) : errors :=
  if development then e
  else list_to_set ((fun expanded => "forbidden API " +:+ expanded) <$> List.filter (forbidden glob) (elements (expands path aliases))) ∪ e.

Definition RESERVED_MACROS : list string := ["include"; "include_str"; "include_bytes"; "macro_rules"; "asm"; "global_asm"].
Definition unreviewed_macro (expanded : string) : bool := mem (leaf expanded) RESERVED_MACROS || negb (mem (leaf expanded) (r_allowed_macros rule)).
Definition macro_name (name : string) (e : errors) : errors :=
  if development then e
  else
    let names := expands name aliases in
    let resolved := List.filter (fun expanded => negb (String.eqb expanded name && (1 <? size names)%nat)) (elements names) in
    list_to_set ((fun expanded => "unreviewed macro " +:+ expanded) <$> List.filter unreviewed_macro resolved) ∪ check_path name false e.

Definition is_colon (char : ascii) : bool := Ascii.eqb char ":".
(** The rest of a path after its first identifier: the path, the number of
    tokens it takes, and the token that follows. *)
Fixpoint collect (path : string) (tokens : list TokenTree) : string * nat * option TokenTree :=
  match tokens with
  | Punct first :: Punct second :: Ident next :: rest =>
      if is_colon first && is_colon second then
        let '(path, n, after) := collect (path +:+ "::" +:+ ident_text next) rest in (path, 3 + n, after)%nat
      else (path, O, Some (Punct first))
  | token :: _ => (path, O, Some token)
  | [] => (path, O, None)
  end.
Definition is_bang (token : option TokenTree) : bool := match token with Some (Punct char) => Ascii.eqb char "!" | _ => false end.
Definition check_ident (ident : string) (rest : list TokenTree) (e : errors) : errors :=
  let name := ident_text ident in
  let e := if negb development && mem name ["use"; "extern"]
           then {["imports inside macro bodies require an explicit reviewed adapter"]} ∪ e else e in
  let e := if negb development && negb native_expressions && String.eqb name "unsafe"
           then {["unsafe macro tokens require a reviewed native boundary"]} ∪ e else e in
  let '(path, _, after) := collect name rest in
  let e := check_path path false e in
  if is_bang after then macro_name path e else e.

(** A stream, [skip] tokens of which a path has taken. *)
Definition token_stream (visit : TokenTree -> errors -> errors) : nat -> list TokenTree -> errors -> errors :=
  fix go (skip : nat) (stream : list TokenTree) (e : errors) : errors :=
    match stream with
    | [] => e
    | token :: rest =>
        match skip with
        | S skip => go skip rest e
        | O =>
            match token with
            | Ident ident => let '(_, n, _) := collect (ident_text ident) rest in go n rest (check_ident ident rest e)
            | _ => go O rest (visit token e)
            end
        end
    end.
Fixpoint token_tree (tree : TokenTree) (e : errors) : errors :=
  match tree with Group stream => token_stream token_tree O stream e | _ => e end.
Definition tokens (stream : list TokenTree) (e : errors) : errors := token_tree (Group stream) e.
End checker.

(** ** A whole file

    What the traversal of a file meets, in order, each with whether that is in
    development code: paths (with whether a boundary above them counts), macros
    with their tokens, and what is rejected by itself. *)
Inductive Mention : Type := MPath (path : string) (glob : bool) | MMacro (name : string) (body : list TokenTree) | MTokens (stream : list TokenTree) | MRejected (error : string).

Definition unsafe_or_ffi (kind : ItemKind) : bool :=
  match kind with
  | ForeignMod => true
  | Fn unsafety abi _ _ => unsafety || abi
  | Impl unsafety | Trait unsafety _ => unsafety
  | _ => false
  end.

Definition SERDE_PATHS : list string :=
  ["default"; "with"; "serialize_with"; "deserialize_with"; "skip_serializing_if"; "getter"; "remote"; "from"; "try_from"; "into"; "crate"].
Definition ATTRIBUTES : list string :=
  ["derive"; "default"; "cfg"; "cfg_attr"; "doc"; "allow"; "warn"; "deny"; "forbid"; "expect"; "inline"; "cold"; "must_use"; "repr"; "non_exhaustive";
   "deprecated"; "serde"; "error"; "from"; "source"; "backtrace"; "async_trait"; "async_trait::async_trait"].
Definition DERIVES : list string :=
  ["Clone"; "Copy"; "Debug"; "Default"; "PartialEq"; "Eq"; "PartialOrd"; "Ord"; "Hash"; "Deserialize"; "Serialize"; "Error"].

Definition serde_value (value : Value) : Mention :=
  match value with
  | StringPath (Some path) => MPath (path_text path) false
  | StringPath None => MRejected "unparsed serde callback/type path requires review"
  | OtherLiteral => MRejected "serde callback/type path must be a string"
  | OtherExpression => MRejected "unparsed serde callback expression requires review"
  end.
Definition serde_mentions (a : Attr) : list Mention :=
  match a_metas a with
  | None => [MRejected "unparsed serde attribute requires review"]
  | Some metas =>
      omap (fun meta => match snd meta with
                        | Some value => if mem (path_text (fst meta)) SERDE_PATHS then Some (serde_value value) else None
                        | None => None
                        end) metas
  end.
Definition derive_mentions (a : Attr) : list Mention :=
  match a_derives a with
  | None => [MRejected "unparsed derives"]
  | Some derives =>
      concat ((fun path => let name := path_text path in
                           (if mem (leaf name) DERIVES then [] else [MRejected ("unreviewed derive " +:+ name)]) ++ [MPath name false]) <$> derives)
  end.
Definition reject (c : bool) (error : string) : list Mention := if c then [MRejected error] else [].
(** What an attribute in production code mentions, apart from its value. *)
Definition production_attribute (native : bool) (a : Attr) : list Mention :=
  let path := path_text (a_path a) in
  reject (mem path ["allow"; "warn"; "expect"] && negb native && contains_sub "unsafe_code" (a_printed a))
         "unsafe lint allowance outside reviewed native file"
  ++ match a_meta a with MetaList tokens => [MTokens tokens] | _ => [] end
  ++ (if String.eqb path "serde" then serde_mentions a else [])
  ++ reject (negb (mem path ATTRIBUTES)) ("unreviewed attribute " +:+ path)
  ++ (if String.eqb path "derive" then derive_mentions a else []).

(** The traversal of [Checker]. *)
Definition after_first (t : Tree) : bool := match tag_of t with TArgument index => (1 <=? index)%nat | _ => false end.
Fixpoint mentions (native development : bool) (t : Tree) : list (bool * Mention) :=
  let '(Branch tag children) := t in
  let visit (d : bool) (select : Tree -> bool) := concat (map (fun c => if select c then mentions native d c else []) children) in
  let here (l : list Mention) := pair development <$> l in
  match tag with
  | TItem kind _ =>
      let d := development || test_only (item_attributes children) in
      (pair d <$> reject (negb d && unsafe_or_ffi kind) "unsafe/FFI items require a new architecture")
      ++ match kind with
         | Use tree => ((fun p => (d, MPath (snd p) true)) <$> uses tree "") ++ visit d is_attribute
         | ExternCrate ident _ => [(d, MPath (ident_text ident) true)]
         | _ => visit d visited
         end
  | TMethod unsafety abi =>
      here (reject (negb development && (unsafety || abi)) "unsafe/FFI methods require a new architecture") ++ visit development visited
  | TUnsafe => here (reject (negb development && negb native) "unsafe expressions require a new architecture") ++ visit development visited
  | TPath path => (development, MPath (path_text path) false) :: visit development visited
  | TMacro path body => [(development, MMacro (path_text path) body)]
  | TAttribute a =>
      let path := path_text (a_path a) in
      here (reject (String.eqb path "path") "#[path] module remapping is forbidden")
      ++ (if String.eqb path "cfg_attr"
          then match a_metas a with Some _ => visit development after_first | None => here [MRejected "unparsed cfg_attr"] end
          else [])
      ++ (if development then []
          else here (production_attribute native a)
               ++ match a_meta a with MetaNameValue => visit development visited | _ => [] end)
  | _ => visit development visited
  end.

Definition check_mention (rule : CrateRule) (aliases : Aliases) (native : bool) (e : gset string) (m : bool * Mention) : gset string :=
  let '(development, m) := m in
  match m with
  | MPath path glob => check_path rule aliases development path glob e
  | MMacro name body => tokens rule aliases development native body (macro_name rule aliases development name e)
  | MTokens stream => tokens rule aliases development native stream e
  | MRejected error => {[error]} ∪ e
  end.
Definition check_mentions (rule : CrateRule) (aliases : Aliases) (native : bool) (l : list (bool * Mention)) : gset string :=
  foldl (check_mention rule aliases native) ∅ l.

Section sources.
Context (syn : Syn).

Definition check_source_profile (rule : CrateRule) (source : string) (development : bool) (dependency_aliases : list (string * string)) (native : bool) :
    CheckResult unit :=
  let? file := ok_or (parse_file syn source) (Message "invalid Rust source") in
  report (check_mentions rule (aliases_of file dependency_aliases) native (mentions native development file)).
Definition check_source_with_aliases (rule : CrateRule) (source : string) (development : bool) (dependency_aliases : list (string * string)) :=
  check_source_profile rule source development dependency_aliases false.

(** *** Rules with the bans of reserved namespaces *)
Definition ban (paths : list string) (rule : CrateRule) : CrateRule :=
  {| r_name := r_name rule; r_path := r_path rule; r_layer := r_layer rule; r_dependencies := r_dependencies rule;
     r_dev_dependencies := r_dev_dependencies rule; r_build_dependencies := r_build_dependencies rule;
     r_forbidden_paths := r_forbidden_paths rule ++ paths; r_allowed_macros := r_allowed_macros rule |}.
Definition unban (path : string) (rule : CrateRule) : CrateRule :=
  {| r_name := r_name rule; r_path := r_path rule; r_layer := r_layer rule; r_dependencies := r_dependencies rule;
     r_dev_dependencies := r_dev_dependencies rule; r_build_dependencies := r_build_dependencies rule;
     r_forbidden_paths := List.filter (fun p => negb (String.eqb p path)) (r_forbidden_paths rule); r_allowed_macros := r_allowed_macros rule |}.
Definition without_macros (macros : list string) (rule : CrateRule) : CrateRule :=
  {| r_name := r_name rule; r_path := r_path rule; r_layer := r_layer rule; r_dependencies := r_dependencies rule;
     r_dev_dependencies := r_dev_dependencies rule; r_build_dependencies := r_build_dependencies rule;
     r_forbidden_paths := r_forbidden_paths rule; r_allowed_macros := List.filter (fun m => negb (mem m macros)) (r_allowed_macros rule) |}.
Definition open_edges (file : string) (edges : list (string * string)) (rule : CrateRule) : CrateRule :=
  foldl (fun rule p => if starts_with (fst p) file then unban (snd p) rule else rule) rule edges.

(** [scope] of [ciphertext_foundations.rs] *)
Definition scope (c : Contract) (file : string) (rule : CrateRule) : CrateRule :=
  let rule := ban NAMESPACES rule in
  let rule := if (22 <=? version c) && is_some (ciphertext_foundation_contract c) then open_edges file CIPHERTEXT_EDGES rule else rule in
  if negb (starts_with "crates/crypto-age/src/provenance/" file) || (version c <? 22) then ban ["hmac"; "sha2"] rule else rule.
(** [scoped_rule] of [guarded_mutations.rs]; its edges are all well formed. *)
Definition guarded_edges : list (string * string) := omap (split_once_at " -> ") GUARDED_EDGES.
Definition scoped_rule (c : Contract) (file : string) (rule : CrateRule) : CrateRule :=
  let rule := ban PRIVATE_NAMESPACES rule in
  let rule := if (21 <=? version c) && is_some (guarded_mutation_contract c) then open_edges file guarded_edges rule else rule in
  scope c file rule.

(** *** Reserved identifiers *)
Definition refuses (visitor : Visitor) (reserved : string -> bool) (source : string) (invalid rejected : string) : CheckResult unit :=
  let? file := ok_or (parse_file syn source) (Message invalid) in
  check (existsb reserved (identifiers visitor file)) rejected.

Definition check_management_source (c : Contract) (file source : string) (aliases : list (string * string)) : CheckResult unit :=
  fail_if String.eqb file "crates/core/src/management.rs" with Message "management effects use the reviewed module directory" in
  if negb (starts_with "crates/core/src/management/" file) then Ok tt
  else
    fail_if version c <? 15 with Message "management effect source requires architecture v15" in
    let? (rule, development) := owner c file in
    let? _ := check_source_with_aliases (without_macros ["json"] (ban ["serde"; "serde_json"] rule)) source development aliases in
    refuses Identifiers (fun name => mem name ["Action"; "PreparedAction"; "PreparedInvocation"; "Operation"; "Catalog"; "Policy"; "Requirement";
                                               "Grant"; "Permission"; "policy"; "operation"; "catalog"])
      source "invalid effect source" "management predicate cannot acquire action or policy authority".

Definition check_archive_source (c : Contract) (file source : string) (aliases : list (string * string)) : CheckResult unit :=
  fail_if String.eqb file "crates/device-codec/src/archive.rs" with Message "archive codec uses the reviewed module directory" in
  if negb (starts_with "crates/device-codec/src/archive/" file) then Ok tt
  else
    fail_if version c <? 16 with Message "archive codec source requires architecture v16" in
    let? (rule, development) := owner c file in
    let rule := without_macros ["json"] (ban ["serde"; "serde_json"; "openwrt_mcp_core"; "std::io"; "std::path"] rule) in
    let? _ := check_source_with_aliases rule source development aliases in
    refuses Identifiers (fun name => mem name ["command"; "describe"; "packages"; "response"; "CommandSpec"; "compile_action"; "compile_probe";
                                               "encode_remote"; "parse_action_response"; "parse_ubus_describe"; "Action"; "PreparedAction"; "Policy";
                                               "Operation"])
      source "invalid archive source" "archive predicate cannot acquire command or action authority".

Definition GZIP_RESERVED : list string :=
  ["command"; "describe"; "packages"; "response"; "CommandSpec"; "compile_action"; "compile_probe"; "encode_remote"; "Action"; "PreparedAction";
   "Policy"; "Operation"; "reset"; "set_dictionary"; "decompress_uninit"; "decompress_vec"].
Definition check_gzip_inside (rule : CrateRule) (source : string) (development : bool) (aliases : list (string * string)) : CheckResult unit :=
  let rule := without_macros ["json"] (ban ["serde"; "serde_json"; "openwrt_mcp_core"; "std::io"; "std::path"; "flate2::read"; "flate2::write";
                                             "flate2::bufread"; "flate2::Compress"; "flate2::Compression"] rule) in
  let? _ := check_source_with_aliases rule source development aliases in
  refuses Identifiers (fun name => mem (ident_text name) GZIP_RESERVED) source "invalid gzip source" "gzip cannot acquire action or decoder escape APIs".
Definition check_gzip_source (c : Contract) (file source : string) (aliases : list (string * string)) : CheckResult unit :=
  fail_if String.eqb file "crates/device-codec/src/gzip.rs" with Message "gzip uses its reviewed module directory" in
  if negb (starts_with "crates/device-codec/src/" file) then Ok tt
  else
    let inside := starts_with "crates/device-codec/src/gzip/" file in
    fail_if inside && (version c <? 17) with Message "gzip source requires architecture v17" in
    let? (rule, development) := owner c file in
    if inside then check_gzip_inside rule source development aliases
    else
      let archive := negb (starts_with "crates/device-codec/src/archive/" file) in
      let? _ := refuses OutsideModules (fun name => String.eqb (ident_text name) "gzip" || archive && String.eqb (ident_text name) "archive")
                  source "invalid codec source" "gzip admits no sibling archive consumer" in
      check_source_with_aliases (ban ["flate2"] rule) source development aliases.

Definition SEALING_RESERVED : list string :=
  ["Backend"; "Dispatcher"; "PreparedAction"; "Operation"; "Policy"; "Action"; "backend"; "dispatcher"; "capability"; "packages"; "audit";
   "KeySource"; "KeyMaterial"; "RecipientMaterial"; "IdentityMaterial"; "DecryptionSession"; "DecryptionProvider"; "read_to_end"; "read_to_string";
   "to_vec"; "Vec"].
Definition check_sealing_source (c : Contract) (file source : string) (aliases : list (string * string)) : CheckResult unit :=
  fail_if String.eqb file "crates/runtime/src/sealing.rs" with Message "sealing uses its reviewed module directory" in
  let inside := starts_with "crates/runtime/src/sealing/" file in
  if negb (starts_with "crates/runtime/src/" file) then Ok tt
  else
    fail_if inside && (version c <? 18) with Message "sealing source requires architecture v18" in
    if negb inside && (version c <? 18) then Ok tt
    else
      let? (rule, development) := owner c file in
      let rule := scoped_rule c file rule in
      let rule := if inside then without_macros ["json"; "vec"] (ban ["serde"; "serde_json"; "openwrt_mcp_core"; "tokio"; "std::thread"; "std::path";
                                                                        "std::io::copy"; "std::panic"] rule) else rule in
      let? _ := check_source_with_aliases rule source development aliases in
      let visitor := if inside then MacroPaths else OutsideModules in
      let reserved name := if inside then mem (ident_text name) SEALING_RESERVED else String.eqb (ident_text name) "sealing" in
      let? tree := ok_or (parse_file syn source) (Message "invalid sealing source") in
      if negb inside && (21 <=? version c) && is_some (guarded_mutation_contract c) && starts_with "crates/runtime/src/transactions/" file then Ok tt
      else check (existsb reserved (identifiers visitor tree)) "sealing cannot acquire key/action/whole-stream or sibling authority".

(** *** Guarded mutations and ciphertext *)
Definition without_slash (directory : string) : string := default directory (strip_suffix "/" directory).
(** A trait must be the port of its name, and only in the directory of ports. *)
Definition foreign_port (inside : bool) (traits : list Declaration) : CheckResult bool :=
  if Nat.eqb (length traits) 0 then Ok false
  else
    let? approved := ok_or (mapM (parse_trait syn) PORTS) Panicked in
    Ok (existsb (fun d => match List.find (fun p => String.eqb (d_ident p) (d_ident d)) approved with
                          | Some p => negb inside || negb (String.eqb (d_printed p) (d_bare d))
                          | None => inside
                          end) traits).
Definition PRIVATE_DATA : list string :=
  ["Serialize"; "Deserialize"; "serde"; "serde_json"; "json"; "PreparedAction"; "Action"; "Command"; "Backend"].
Definition check_guarded_mutation_source (c : Contract) (file source : string) : CheckResult unit :=
  let? (_, development) := owner c file in
  if development then Ok tt
  else
    let? _ := each (fun directory =>
      fail_if String.eqb file (without_slash directory +:+ ".rs") with Message "guarded mutation uses reviewed module directories" in
      check (starts_with directory file && (version c <? 21)) "guarded mutation source requires architecture v21")
      ["crates/core/src/transactions/"; "crates/runtime/src/transactions/"; "crates/runtime/src/mutation_ports/";
       "crates/device-codec/src/transactions/"] in
    let private_data := starts_with "crates/core/src/transactions/" file || starts_with "crates/runtime/src/mutation_ports/" file in
    let workflow := starts_with "crates/runtime/src/transactions/" file in
    let inside := starts_with "crates/runtime/src/mutation_ports/" file in
    let? tree := ok_or (parse_file syn source) (Message "invalid mutation source") in
    let? foreign := foreign_port inside (declarations tree) in
    fail_if foreign with Message "mutation port declarations must retain exact owned signatures" in
    let? _ := (if starts_with "crates/runtime/src/mutation_ports/secrets/" file then
                 refuses AttributeTokens (fun name => mem (ident_text name) ["Debug"; "Display"; "Clone"; "Serialize"; "Deserialize"])
                   source "invalid mutation source" "secret values cannot acquire printing serialization or implicit copies"
               else Ok tt) in
    check (existsb (fun name => private_data && mem (ident_text name) PRIVATE_DATA
                                || workflow && mem (ident_text name) ["PreparedAction"; "Command"; "spawn_blocking"])
                   (identifiers Attributes tree))
          "guarded mutation private data/action/worker boundary violated".

Definition CIPHERTEXT_PRIVATE : list string :=
  ["Serialize"; "Deserialize"; "serde"; "serde_json"; "json"; "PreparedAction"; "Command"; "Dispatcher"; "Admission"; "ValidatedPlan"; "DurableBackup"].
Definition NAMESPACE_WRITES : list string :=
  ["create"; "create_new"; "truncate"; "set_len"; "rename"; "hard_link"; "remove_file"; "remove_dir"; "remove_dir_all"; "set_permissions"; "chmod"].
Definition check_ciphertext_source (c : Contract) (file source : string) : CheckResult unit :=
  let? (_, development) := owner c file in
  if development then Ok tt
  else
    let owned := ["crates/runtime/src/backups/"; "crates/host-platform/src/ciphertext/"; "crates/crypto-age/src/provenance/"] in
    fail_if existsb (fun directory => String.eqb file (without_slash directory +:+ ".rs")) owned
    with Message "ciphertext foundations require owned directories" in
    fail_if existsb (fun directory => starts_with directory file) owned && (version c <? 22)
    with Message "ciphertext sources require architecture v22" in
    let private := starts_with "crates/runtime/src/backups/" file in
    let storage := starts_with "crates/host-platform/src/ciphertext/" file in
    refuses Attributes (fun name => private && mem (ident_text name) CIPHERTEXT_PRIVATE || storage && mem (ident_text name) NAMESPACE_WRITES)
      source "invalid ciphertext source" "ciphertext authority/serialization/namespace-write escape".
End sources.

(** ** Expansion terminates and is exact *)
Lemma filter_le {A} (f : A -> bool) l : (length (List.filter f l) <= length l)%nat.
Proof. induction l as [| x l IH]; cbn; [lia |]. destruct (f x); cbn; lia. Qed.

Lemma targets_le aliases head targets : bt_get head aliases = Some targets -> (length targets <= all_targets aliases)%nat.
Proof.
  intros Hg%bt_get_elem. apply list_elem_of_split in Hg as (l1 & l2 & ->). unfold all_targets.
  rewrite fmap_app, fmap_cons, concat_app. cbn. rewrite !length_app. lia.
Qed.

Lemma candidates_le aliases path : (length (candidates aliases path) <= all_targets aliases)%nat.
Proof.
  unfold candidates. destruct (head_tail path) as [head tail]. etrans; [apply filter_le |]. rewrite length_fmap. etrans; [apply filter_le |].
  destruct (bt_get head aliases) as [targets |] eqn:E; [by eapply targets_le | cbn; lia].
Qed.

(** The candidates of a path, one alias away. *)
Definition step (aliases : Aliases) (p q : string) : Prop := q ∈ candidates aliases p.

(** What is left to do: the stack, and the pushes of the paths to be seen. *)
Definition work (aliases : Aliases) (seen : gset string) (pending : list string) : nat :=
  S (length pending) + (1024 - size seen) * all_targets aliases.

Lemma work_step aliases seen path pending :
  path ∉ seen ->
  (work aliases ({[path]} ∪ seen) (if (size ({[path]} ∪ seen) <? 1024)%nat then reverse (candidates aliases path) ++ pending else pending)
   < work aliases seen (path :: pending))%nat.
Proof.
  intros Hp. unfold work. rewrite size_union, size_singleton by set_solver. pose proof (candidates_le aliases path) as Hc.
  destruct (1 + size seen <? 1024)%nat eqn:E; [apply Nat.ltb_lt in E | apply Nat.ltb_ge in E]; rewrite ?length_app, ?length_reverse; cbn [length].
  - replace (1024 - size seen)%nat with (S (1024 - (1 + size seen))) by lia. nia.
  - replace (1024 - (1 + size seen))%nat with 0%nat by lia. nia.
Qed.

Section expansion.
Context (aliases : Aliases).

Lemma expand_loop_total fuel seen pending : (work aliases seen pending <= fuel)%nat -> is_Some (expand_loop fuel aliases seen pending).
Proof.
  revert seen pending. induction fuel as [| fuel IH]; intros seen pending Hw; [by apply Nat.le_0_r in Hw |]. cbn [expand_loop].
  destruct pending as [| path pending]; [by eexists |]. case_bool_decide as Hp; apply IH.
  - unfold work in *. cbn [length] in Hw. lia.
  - pose proof (work_step aliases seen path pending Hp). lia.
Qed.

Lemma expand_loop_mono fuel seen pending r : expand_loop fuel aliases seen pending = Some r -> seen ∪ list_to_set pending ⊆ r.
Proof.
  revert seen pending. induction fuel as [| fuel IH]; intros seen pending; [done |]. cbn [expand_loop].
  destruct pending as [| path pending]; [intros [= <-]; set_solver |]. case_bool_decide as Hp; intros H%IH; [set_solver |].
  destruct (_ <? _)%nat; [rewrite list_to_set_app in H |]; set_solver.
Qed.

Lemma expand_loop_sound fuel seen pending r (P : string -> Prop) :
  (forall p q, P p -> step aliases p q -> P q) -> set_Forall P seen -> Forall P pending ->
  expand_loop fuel aliases seen pending = Some r -> set_Forall P r.
Proof.
  intros HP. revert seen pending. induction fuel as [| fuel IH]; intros seen pending Hs Hp; [done |]. cbn [expand_loop].
  destruct pending as [| path pending]; [by intros [= <-] |]. apply Forall_cons in Hp as [Hpath Hp]. case_bool_decide as Hin; apply IH; try done.
  - by apply set_Forall_union; [apply set_Forall_singleton |].
  - destruct (_ <? _)%nat; [| done]. apply Forall_app. split; [| done]. apply Forall_reverse, Forall_forall. intros q Hq. by apply (HP path).
Qed.

(** Below the limit nothing is left out: what was seen is closed. *)
Definition closed (seen : gset string) (pending : list string) : Prop :=
  forall p q, p ∈ seen -> step aliases p q -> q ∈ seen \/ q ∈ pending.

Lemma expand_loop_closed fuel seen pending r :
  closed seen pending -> expand_loop fuel aliases seen pending = Some r -> (size r < 1024)%nat -> closed r [].
Proof.
  intros Hc H Hr. revert seen pending Hc H. induction fuel as [| fuel IH]; intros seen pending Hc; [done |]. cbn [expand_loop].
  destruct pending as [| path pending]; [by intros [= <-] |]. case_bool_decide as Hin; intros H.
  - apply (IH _ _) in H; [done |]. intros p q Hp Hq. destruct (Hc p q Hp Hq) as [? | [-> | ?]%elem_of_cons]; auto.
  - pose proof (expand_loop_mono _ _ _ _ H) as Hm. assert (size ({[path]} ∪ seen) <= size r)%nat by (apply subseteq_size; set_solver).
    assert ((size ({[path]} ∪ seen) <? 1024)%nat = true) as E by (apply Nat.ltb_lt; lia). rewrite E in H. apply (IH _ _) in H; [done |].
    intros p q [->%elem_of_singleton | Hp]%elem_of_union Hq.
    + right. apply elem_of_app. left. by apply elem_of_reverse.
    + destruct (Hc p q Hp Hq) as [? | [-> | ?]%elem_of_cons]; [left; set_solver | left; set_solver | right; apply elem_of_app; by right].
Qed.

Lemma expand_returns path : exists r, expand_loop (expand_fuel aliases) aliases ∅ [path] = Some r /\ expands path aliases = r.
Proof.
  destruct (expand_loop_total (expand_fuel aliases) ∅ [path]) as [r Hr]; [unfold work, expand_fuel; rewrite size_empty, Nat.sub_0_r; cbn [length]; lia |].
  exists r. split; [done |]. unfold expands. by rewrite Hr.
Qed.

Lemma expands_reachable path q : q ∈ expands path aliases -> rtc (step aliases) path q.
Proof.
  destruct (expand_returns path) as (r & Hr & ->). intros Hq.
  refine (expand_loop_sound _ _ _ r (rtc (step aliases) path) _ _ _ Hr q Hq).
  - intros p p' Hp Hs. by eapply rtc_r.
  - apply set_Forall_empty.
  - by repeat constructor.
Qed.

Lemma expands_complete path q : (size (expands path aliases) < 1024)%nat -> rtc (step aliases) path q -> q ∈ expands path aliases.
Proof.
  destruct (expand_returns path) as (r & Hr & ->). intros Hs Hq. pose proof (expand_loop_mono _ _ _ _ Hr) as Hm.
  assert (closed r []) as Hc by (apply (expand_loop_closed _ _ _ _ (fun p q Hp => False_ind _ (not_elem_of_empty p Hp)) Hr Hs)).
  assert (path ∈ r) as Hp by set_solver. clear -Hq Hc Hp. induction Hq as [p | p p' q Hs _ IH]; [done |]. apply IH.
  destruct (Hc p p' Hp Hs) as [? | Hn]; [done | by apply elem_of_nil in Hn].
Qed.
End expansion.

Lemma check_path_spec rule aliases path glob e error :
  error ∈ check_path rule aliases false path glob e
  <-> error ∈ e \/ exists q, q ∈ expands path aliases /\ forbidden rule glob q = true /\ error = ("forbidden API " +:+ q)%string.
Proof.
  unfold check_path. rewrite elem_of_union, elem_of_list_to_set, list_elem_of_fmap. setoid_rewrite list_elem_of_In.
  setoid_rewrite filter_In. setoid_rewrite <- list_elem_of_In. setoid_rewrite elem_of_elements. naive_solver.
Qed.

(** *** A check never withdraws an error *)
Section monotone.
Context (rule : CrateRule) (aliases : Aliases) (native : bool).

Lemma check_path_mono development path glob e : e ⊆ check_path rule aliases development path glob e.
Proof. unfold check_path. destruct development; set_solver. Qed.
Lemma macro_name_mono development name e : e ⊆ macro_name rule aliases development name e.
Proof. unfold macro_name. pose proof (check_path_mono development name false e). destruct development; set_solver. Qed.

Lemma check_ident_mono development ident rest e : e ⊆ check_ident rule aliases development native ident rest e.
Proof.
  unfold check_ident. destruct (collect (ident_text ident) rest) as [[path n] after]. cbv zeta.
  set (e1 := if negb development && mem _ _ then _ else e). set (e2 := if negb development && negb native && _ then _ else e1).
  assert (e ⊆ e1) by (subst e1; destruct (negb development && mem _ _); set_solver).
  assert (e1 ⊆ e2) by (subst e2; destruct (negb development && negb native && _); set_solver).
  pose proof (check_path_mono development path false e2). pose proof (macro_name_mono development path (check_path rule aliases development path false e2)).
  destruct (is_bang after); set_solver.
Qed.

Lemma token_tree_mono development tree : forall e, e ⊆ token_tree rule aliases development native tree e.
Proof.
  revert tree. fix IH 1. intros [stream | name | char |] e; [| done..]. cbn [token_tree].
  enough (forall skip, e ⊆ token_stream rule aliases development native (token_tree rule aliases development native) skip stream e) by done.
  revert e. induction stream as [| token rest IHs]; intros e skip; [done |]. destruct skip as [| skip]; [| apply IHs].
  pose proof (IH token e) as Ht. destruct token as [inner | ident | char |]; [by etrans; [exact Ht | apply IHs] | | by etrans; [exact Ht | apply IHs]..].
  cbn. destruct (collect (ident_text ident) rest) as [[path n] after]. etrans; [apply check_ident_mono | apply IHs].
Qed.

Lemma check_mention_mono m e : e ⊆ check_mention rule aliases native e m.
Proof.
  destruct m as [d [path glob | name body | stream | error]]; cbn [check_mention].
  - apply check_path_mono.
  - etrans; [apply macro_name_mono | apply token_tree_mono].
  - apply token_tree_mono.
  - set_solver.
Qed.

Lemma check_mentions_mono l e : e ⊆ foldl (check_mention rule aliases native) e l.
Proof. revert e. induction l as [| m l IH]; intros e; [done |]. cbn [foldl]. etrans; [apply check_mention_mono | apply IH]. Qed.
End monotone.

Lemma report_ok e : report e = Ok tt <-> e = ∅.
Proof. unfold report. case_bool_decide; by split. Qed.

(** *** The names of production code

    [meets file path glob]: outside tests and development code the file names
    the path, in an expression, a type, a macro call, a derive or the value of
    an attribute, or ([glob]) imports it. *)
Definition passes (tag : Tag) (children : list Tree) : bool :=
  match tag with
  | TItem (Use _ | ExternCrate _ _) _ | TMacro _ _ => false
  | TItem _ _ => negb (test_only (item_attributes children))
  | TAttribute a => match a_meta a with MetaNameValue => true | _ => false end
  | _ => true
  end.
Inductive meets : Tree -> string -> bool -> Prop :=
| meets_path path children : meets (Branch (TPath path) children) (path_text path) false
| meets_macro path body children : meets (Branch (TMacro path body) children) (path_text path) false
| meets_derive a derives path children :
    path_text (a_path a) = "derive"%string -> a_derives a = Some derives -> path ∈ derives ->
    meets (Branch (TAttribute a) children) (path_text path) false
| meets_use tree visibility local path children :
    test_only (item_attributes children) = false -> (local, path) ∈ uses tree "" -> meets (Branch (TItem (Use tree) visibility) children) path true
| meets_crate ident rename visibility children :
    test_only (item_attributes children) = false -> meets (Branch (TItem (ExternCrate ident rename) visibility) children) (ident_text ident) true
| meets_below tag child children path glob :
    passes tag children = true -> child ∈ children -> visited child = true -> meets child path glob -> meets (Branch tag children) path glob.

(** The mention of a path, or of a macro by its path. *)
Definition mention_of (m : Mention) (path : string) (glob : bool) : Prop :=
  match m with MPath p g => p = path /\ g = glob | MMacro p _ => p = path /\ glob = false | _ => False end.

Lemma in_children {A} (f : Tree -> list A) (select : Tree -> bool) child children x :
  child ∈ children -> select child = true -> x ∈ f child -> x ∈ concat (map (fun c => if select c then f c else []) children).
Proof.
  intros Hc Hs Hx. apply list_elem_of_In, in_concat. exists (f child). split; [| by apply list_elem_of_In].
  apply in_map_iff. exists child. rewrite Hs. split; [done | by apply list_elem_of_In].
Qed.

Lemma passed_on native tag child children x :
  passes tag children = true -> child ∈ children -> visited child = true -> x ∈ mentions native false child ->
  x ∈ mentions native false (Branch tag children).
Proof.
  intros Hp Hc Hv Hx. pose proof (in_children (mentions native false) visited child children x Hc Hv Hx) as Hin.
  destruct tag as [| kind visibility | a | index | unsafety abi | visibility | | | | path | path body | ident |];
    cbn [passes] in Hp; cbn [mentions]; cbv zeta; try done; rewrite ?elem_of_app, ?elem_of_cons; try by right.
  - destruct kind; try done; apply negb_true_iff in Hp; rewrite Hp; by right.
  - destruct (a_meta a); try done. by do 3 right.
Qed.

Lemma derive_mentioned native a derives path :
  path_text (a_path a) = "derive"%string -> a_derives a = Some derives -> path ∈ derives -> MPath (path_text path) false ∈ production_attribute native a.
Proof.
  intros Hd Hs Hin. unfold production_attribute. rewrite Hd, !elem_of_app. do 4 right. cbn [String.eqb Ascii.eqb Bool.eqb]. unfold derive_mentions.
  rewrite Hs. apply list_elem_of_In, in_concat. eexists. split; [by apply list_elem_of_In, list_elem_of_fmap; exists path |].
  apply in_or_app. right. by left.
Qed.

Lemma meets_mentioned native t path glob : meets t path glob -> exists m, (false, m) ∈ mentions native false t /\ mention_of m path glob.
Proof.
  induction 1 as [path children | path body children | a derives path children Hd Hs Hin | tree visibility local path children Ht Hin
                 | ident rename visibility children Ht | tag child children path glob Hp Hc Hv _ (m & Hm & Hof)].
  - eexists (MPath _ _). split; [left | done].
  - eexists (MMacro _ _). split; [left | done].
  - exists (MPath (path_text path) false). split; [| done]. cbn [mentions]. cbv zeta. rewrite !elem_of_app. right. right. left.
    apply list_elem_of_fmap. exists (MPath (path_text path) false). split; [done |]. by apply (derive_mentioned _ _ derives).
  - exists (MPath path true). split; [| done]. cbn [mentions]. rewrite Ht. cbn [orb]. apply elem_of_app. right. apply elem_of_app. left.
    apply list_elem_of_fmap. by exists (local, path).
  - exists (MPath (ident_text ident) true). split; [| done]. cbn [mentions]. rewrite Ht. apply elem_of_app. right. left.
  - exists m. split; [by apply (passed_on _ _ child) | done].
Qed.

Lemma mention_reported rule aliases native m path glob q l :
  (false, m) ∈ l -> mention_of m path glob -> q ∈ expands path aliases -> forbidden rule glob q = true ->
  ("forbidden API " +:+ q)%string ∈ check_mentions rule aliases native l.
Proof.
  intros Hin Hof Hq Hf. unfold check_mentions. apply list_elem_of_split in Hin as (l1 & l2 & ->). rewrite foldl_app. cbn [foldl].
  apply check_mentions_mono. destruct m as [p g | p body | stream | error]; cbn [mention_of] in Hof; try done; destruct Hof as [-> ->]; cbn [check_mention].
  - apply check_path_spec. right. by exists q.
  - apply token_tree_mono. unfold macro_name. apply elem_of_union. right. apply check_path_spec. right. by exists q.
Qed.

Lemma check_source_keeps (syn : Syn) rule source file dependencies native :
  parse_file syn source = Some file -> check_source_profile syn rule source false dependencies native = Ok tt ->
  forall path glob q, meets file path glob -> q ∈ expands path (aliases_of file dependencies) -> forbidden rule glob q = false.
Proof.
  intros Hp H path glob q Hin Hq. unfold check_source_profile in H. rewrite Hp in H. cbn [ok_or rbind] in H. apply report_ok in H.
  destruct (forbidden rule glob q) eqn:Hf; [| done]. apply (meets_mentioned native) in Hin as (m & Hm & Hof).
  pose proof (mention_reported rule _ native m path glob q _ Hm Hof Hq Hf) as Hr. rewrite H in Hr. set_solver.
Qed.

(** C39: no alias hides a forbidden name.  The expansion of a path through the aliases of a file always returns; the paths
    it finds are reachable by replacing heads of paths with what they are aliases of, and below the limit of 1024 paths
    they are all of those (each candidate within 1024 bytes).  So in production code a path is reported exactly for each
    reachable path at or below a banned one (for an import, also above one), and a file is refused, whatever else is in
    it, in which production code meets a path that reaches a banned one: in an expression or a type, as a macro, in a
    derive or the value of an attribute, at any depth outside of test items, or in an import. *)
Theorem aliases_hide_nothing (syn : Syn) (rule : CrateRule) (source : string) (file : Tree)
    (dependencies : list (string * string)) (native : bool) (path : string) (glob : bool) (e : gset string) :
  let aliases := aliases_of file dependencies in
  parse_file syn source = Some file ->
  (exists found, expand_loop (expand_fuel aliases) aliases ∅ [path] = Some found /\ expands path aliases = found)
  /\ (forall q, q ∈ expands path aliases -> rtc (step aliases) path q)
  /\ ((size (expands path aliases) < 1024)%nat ->
        (forall q, rtc (step aliases) path q -> q ∈ expands path aliases)
        /\ (forall error, error ∈ check_path rule aliases false path glob e
              <-> error ∈ e \/ exists q, rtc (step aliases) path q /\ forbidden rule glob q = true /\ error = ("forbidden API " +:+ q)%string)
        /\ (meets file path glob -> (exists q, rtc (step aliases) path q /\ forbidden rule glob q = true) ->
              check_source_profile syn rule source false dependencies native <> Ok tt)).
Proof.
  intros aliases Hparse. split; [apply expand_returns |]. split; [apply expands_reachable |]. intros Hs.
  assert (forall q, q ∈ expands path aliases <-> rtc (step aliases) path q) as Hq.
  { intros q. split; [apply expands_reachable | by apply expands_complete]. }
  split; [intros q; apply Hq |]. split; [intros error; rewrite check_path_spec; by setoid_rewrite Hq |].
  intros Hin (q & Hr & Hf) H. pose proof (check_source_keeps _ _ _ _ _ _ Hparse H path glob q Hin (proj2 (Hq q) Hr)). congruence.
Qed.

(** A file that renames [std], imports its files under another name, and reads
    one in a function; and again in a test. *)
Definition ident_path (idents : list string) : SynPath := {| p_plain := true; p_idents := idents |}.
Definition attribute_named (name : string) : Attr :=
  {| a_path := ident_path [name]; a_meta := MetaPath; a_printed := "#[" +:+ name +:+ "]"; a_cfg := None; a_condition := None; a_metas := None;
     a_derives := None |}.
Definition demo_import (tree : UseTree) : Tree := Branch (TItem (Use tree) Inherited) [].
Definition demo_function (attributes : list Attr) (path : list string) : Tree :=
  Branch (TItem (Fn false false "fn f ( )" false) Inherited)
    (((fun a => Branch (TAttribute a) []) <$> attributes) ++ [Branch (TIdent "f") []; Branch TPart [Branch (TPath (ident_path path)) []]]).
Definition demo_file : Tree :=
  Branch TFile [demo_import (UseRename "std" "s"); demo_import (UsePath "s" (UseGroup [UseRename "fs" "io"; UseName "fmt"]));
                demo_function [attribute_named "inline"] ["io"; "read"]; demo_function [attribute_named "test"] ["io"; "write"]].
Definition demo_core : CrateRule := demo_rule "core" "crates/core" "domain" [].

Lemma aliases_hide_nothing_witness :
  aliases_of demo_file [] = [("fmt", ["s::fmt"]); ("io", ["s::fs"]); ("s", ["std"])]%string
  /\ expands "io::read" (aliases_of demo_file []) = {["io::read"; "s::fs::read"; "std::fs::read"]}%string
  /\ check_source_profile (demo_syn demo_file) demo_core "lib.rs" false [] false
     = Err (Message "forbidden API std; forbidden API std::fs; forbidden API std::fs::read")
  /\ check_source_profile (demo_syn demo_file) demo_core "lib.rs" false [] false <> Ok tt.
Proof.
  split; [vm_compute; reflexivity |]. split; [apply (bool_decide_unpack _); vm_compute; exact I |].
  split; [vm_compute; reflexivity |].
  refine (proj2 (proj2 (proj2 (proj2 (aliases_hide_nothing (demo_syn demo_file) demo_core "lib.rs" demo_file [] false "io::read" false ∅ eq_refl)) _)) _ _).
  - apply Nat.ltb_lt. vm_compute. reflexivity.
  - apply (meets_below TFile (demo_function [attribute_named "inline"] ["io"; "read"]%string)); [done | apply list_elem_of_In; cbn; tauto | done |].
    apply (meets_below _ (Branch TPart [Branch (TPath (ident_path ["io"; "read"]%string)) []])); [done | apply list_elem_of_In; cbn; tauto | done |].
    apply (meets_below _ (Branch (TPath (ident_path ["io"; "read"]%string)) [])); [done | apply list_elem_of_In; cbn; tauto | done |].
    apply (meets_path (ident_path ["io"; "read"]%string)).
  - exists "std::fs::read"%string. split; [| vm_compute; reflexivity]. apply expands_reachable. apply elem_of_elements.
    apply list_elem_of_In. vm_compute. tauto.
Defined.
