(* ===== verification/Workspace.v ===== *)
(** * The workspace against its contract

    [tools/xtask/src/metadata.rs] and [lib.rs]: what Cargo resolved (its JSON)
    is what the contract owns, every file below the root is owned and checked,
    and the contract evolved from the one of the baseline.  The programs that
    are run, the files and the parser are parameters. *)
From stdpp Require Import gmap strings.
From S2P Require Import Prelude Text Core Order Json Spec Syntax Portable Evidence Contract Sources.
Open Scope Z_scope.

(** ** Values of the metadata *)
Definition text (k : string) (v : value) : option string := as_str (field k v).
(** [as_str()] with slashes: [replace('\\', "/")] *)
Definition slashed (s : string) : string := replace_char "\" "/" s.
Definition path_text (k : string) (v : value) : option string := slashed <$> text k v.
Definition require {A} (o : option A) (message : string) : CheckResult A := ok_or o (Message message).

(** [split_whitespace().collect::<String>()] *)
Fixpoint without_white (l : list Z) : list Z :=
  match l with
  | [] => []
  | b :: l1 =>
      if in_range 9 13 b || (b =? 32) then without_white l1
      else match l1 with
           | [] => [b]
           | c :: l2 =>
               if (b =? 194) && ((c =? 133) || (c =? 160)) then without_white l2
               else match l2 with
                    | [] => b :: without_white l1
                    | d :: l3 =>
                        if ((b =? 225) && (c =? 154) && (d =? 128))
                           || ((b =? 226) && (c =? 128) && (in_range 128 138 d || in_range 168 169 d || (d =? 175)))
                           || ((b =? 226) && (c =? 129) && (d =? 159))
                           || ((b =? 227) && (c =? 128) && (d =? 128))
                        then without_white l3 else b :: without_white l1
                    end
           end
  end.

(** ** Dependencies with reviewed profiles *)
Definition check_ciphertext_dependency (c : Contract) (owner : string) (dependency : value) : CheckResult unit :=
  let name := default EmptyString (text "name" dependency) in
  let profile version :=
    check ((Spec.version c <? 22) || negb (String.eqb owner "openwrt-mcp-crypto-age") || negb (is_just version (text "req" dependency))
           || negb (is_null (field "kind" dependency)) || negb (is_null (field "target" dependency))
           || negb (is_just false (as_bool (field "uses_default_features" dependency)))
           || match as_array (field "features" dependency) with Some [] => false | _ => true end)
          "ciphertext authentication dependencies require exact reviewed owner/version/features" in
  if String.eqb name "hmac" then profile "=0.12.1" else if String.eqb name "sha2" then profile "=0.10.9" else Ok tt.

Definition check_gzip_dependency (owner : string) (dependency : value) : CheckResult unit :=
  check (negb (String.eqb owner CODEC) || negb (is_str "=1.1.10" (field "req" dependency))
         || negb (value_eqb (field "uses_default_features" dependency) (VBool false))
         || negb (value_eqb (field "features" dependency) (VArr [VStr "zlib-rs"])) || negb (value_eqb (field "optional" dependency) (VBool false))
         || negb (is_null (field "kind" dependency)) || negb (is_null (field "target" dependency)) || negb (is_null (field "path" dependency))
         || negb (is_str "registry+https://github.com/rust-lang/crates.io-index" (field "source" dependency)))
        "gzip dependency must be pinned flate2 with only the reviewed Rust backend".

Definition WINDOWS_FEATURES : list string :=
  ["Wdk_Foundation"; "Wdk_Storage_FileSystem"; "Win32_Foundation"; "Win32_Security"; "Win32_Storage_FileSystem"; "Win32_System_IO";
   "Win32_System_Threading"].
Definition check_windows_dependency (owner : string) (dependency : value) : CheckResult unit :=
  let? features := require (as_array (field "features" dependency)) "missing SDK features" in
  check (negb (String.eqb owner WINDOWS_OWNER) || negb (is_just ("cfg(target_os = " +:+ quote "windows" +:+ ")") (text "target" dependency))
         || negb (is_just "=0.61.2" (text "req" dependency)) || negb (is_just false (as_bool (field "uses_default_features" dependency)))
         || negb (bool_decide (sorted ((fun v => default EmptyString (as_str v)) <$> features) = sorted WINDOWS_FEATURES))
         || negb (is_null (field "path" dependency)) || is_just "build" (text "kind" dependency))
        "Windows SDK must retain exact owner/target/version/features".

(** ** [check_metadata] *)
Definition kind_of (dependency : value) : string := default "normal" (text "kind" dependency).
Definition allowed (rule : CrateRule) (kind original : string) : bool :=
  if String.eqb kind "normal" then mem original (r_dependencies rule)
  else if String.eqb kind "dev" then mem original (r_dependencies rule ++ r_dev_dependencies rule)
  else if String.eqb kind "build" then mem original (r_build_dependencies rule)
  else false.
Definition platform_target_ok (dependency : value) : bool :=
  mem (bytes_str (without_white (str_bytes (default EmptyString (text "target" dependency))))) ["cfg(unix)"; "cfg(target_os=" +:+ quote "linux" +:+ ")"].

Definition check_dependency (c : Contract) (root name : string) (rule : CrateRule) (dependency : value) : CheckResult unit :=
  let? original := require (text "name" dependency) "missing dependency package name" in
  let kind := kind_of dependency in
  let? _ := check_ciphertext_dependency c name dependency in
  fail_if String.eqb name "openwrt-mcp" && String.eqb original CODEC && ((version c <? 18) || negb (String.eqb kind "dev"))
  with Message "sealing fixture codec requires v18 development-only dependency" in
  let? _ := (if (17 <=? version c) && String.eqb original "flate2" then check_gzip_dependency name dependency else Ok tt) in
  let? _ := (if (8 <=? version c) && String.eqb original "windows-sys" then check_windows_dependency name dependency else Ok tt) in
  fail_if negb (allowed rule kind original)
  with Message (name +:+ ": forbidden " +:+ kind +:+ " dependency " +:+ original +:+ " (all aliases/targets checked)") in
  fail_if (4 <=? version c) && mem original ["rustix"; "libc"] && negb (platform_target_ok dependency)
  with Message (name +:+ ": platform dependency " +:+ original +:+ " must retain its reviewed Unix/Linux target condition") in
  match find_rule (named original) c with
  | Some owner =>
      check (negb (String.eqb (default EmptyString (path_text "path" dependency)) (root +:+ "/" +:+ r_path owner)))
            (name +:+ ": dependency does not use owned workspace package " +:+ original)
  | None => check (negb (is_null (field "path" dependency))) (name +:+ ": unowned path dependency " +:+ original)
  end.

Definition target_directory (kind : value) : option string :=
  kind ← as_str kind;
  if mem kind ["lib"; "rlib"; "dylib"; "cdylib"; "staticlib"; "bin"] then Some "src"
  else if String.eqb kind "test" then Some "tests" else if String.eqb kind "example" then Some "examples" else None.
Definition check_target (c : Contract) (root name : string) (rule : CrateRule) (target : value) : CheckResult unit :=
  let? kinds := require (as_array (field "kind" target)) "missing target kind" in
  fail_if existsb (fun kind => is_str "custom-build" kind || is_str "proc-macro" kind) kinds
  with Message (name +:+ ": build scripts and workspace procedural macros require a new architecture") in
  let? source := require (path_text "src_path" target) "missing target source" in
  let? relative := require (strip_prefix (root +:+ "/") source) "target source escaped workspace" in
  let? (owner, _) := owner c relative in
  fail_if negb (named name owner) with Message "target source belongs to another package" in
  fail_if Nat.eqb (length kinds) 0 with Message "target has no reviewed kind" in
  each (fun kind =>
    let? directory := require (target_directory kind) "target kind is not covered by the architecture" in
    check (negb (starts_with (r_path rule +:+ "/" +:+ directory +:+ "/") relative))
          (name +:+ ": target kind must use its standard " +:+ directory +:+ "/ directory")) kinds.

Definition find_package (packages : list value) (id : value) : option value := List.find (fun package => value_eqb (field "id" package) id) packages.
(** One member; the answer is the name of its package. *)
Definition check_member (c : Contract) (root : string) (packages : list value) (seen : list string) (id : value) : CheckResult string :=
  let? package := require (find_package packages id) "missing workspace package" in
  let? name := require (text "name" package) "missing package name" in
  let? rule := require (find_rule (named name) c) ("unowned workspace package: " +:+ name) in
  fail_if mem name seen with Message "duplicate workspace package" in
  let? manifest := require (path_text "manifest_path" package) "missing manifest path" in
  fail_if negb (String.eqb manifest (root +:+ "/" +:+ r_path rule +:+ "/Cargo.toml")) with Message ("wrong owner path for " +:+ name) in
  let? dependencies := require (as_array (field "dependencies" package)) "missing dependencies" in
  let? _ := each (check_dependency c root name rule) dependencies in
  let? targets := require (as_array (field "targets" package)) "missing targets" in
  let? _ := each (check_target c root name rule) targets in
  Ok name.
Fixpoint check_members (c : Contract) (root : string) (packages : list value) (seen : list string) (ids : list value) : CheckResult (list string) :=
  match ids with
  | [] => Ok seen
  | id :: ids => let? name := check_member c root packages seen id in check_members c root packages (name :: seen) ids
  end.
Definition check_metadata (c : Contract) (metadata : value) : CheckResult unit :=
  let? packages := require (as_array (field "packages" metadata)) "missing Cargo packages" in
  let? members := require (as_array (field "workspace_members" metadata)) "missing workspace members" in
  let? root := require (path_text "workspace_root" metadata) "missing workspace root" in
  let? seen := check_members c root packages [] members in
  check (negb (Nat.eqb (length seen) (length (crates c)))) "contract contains missing workspace package".

(** ** Names of dependencies and roots of targets *)
Definition underscored (s : string) : string := replace_char "-" "_" s.
Fixpoint collect_aliases (aliases : list (string * string)) (dependencies : list value) : CheckResult (list (string * string)) :=
  match dependencies with
  | [] => Ok aliases
  | dependency :: dependencies =>
      let? name := require (text "name" dependency) "missing dependency name" in
      let original := underscored name in
      let renamed := underscored (default original (text "rename" dependency)) in
      fail_if match bt_get renamed aliases with Some existing => negb (String.eqb existing original) | None => false end
      with Message "target-dependent crate rename is ambiguous to the source checker" in
      collect_aliases (bt_insert renamed original aliases) dependencies
  end.
Definition dependency_aliases (metadata : value) (name : string) : CheckResult (list (string * string)) :=
  let? packages := require (as_array (field "packages" metadata)) "missing packages" in
  let? package := require (List.find (fun package => is_str name (field "name" package)) packages) "missing source owner" in
  let? dependencies := require (as_array (field "dependencies" package)) "missing dependencies" in
  collect_aliases [] dependencies.

Fixpoint package_roots (workspace : string) (targets : list value) : CheckResult (list string) :=
  match targets with
  | [] => Ok []
  | target :: targets =>
      let? source := require (path_text "src_path" target) "missing target source" in
      let? relative := require (strip_prefix (workspace +:+ "/") source) "target source escaped workspace" in
      let? roots := package_roots workspace targets in Ok (relative :: roots)
  end.
Fixpoint roots_of (workspace : string) (members packages : list value) : CheckResult (list string) :=
  match packages with
  | [] => Ok []
  | package :: packages =>
      if existsb (value_eqb (field "id" package)) members then
        let? targets := require (as_array (field "targets" package)) "missing targets" in
        let? roots := package_roots workspace targets in
        let? rest := roots_of workspace members packages in Ok (roots ++ rest)
      else roots_of workspace members packages
  end.
Definition target_roots (metadata : value) : CheckResult (list string) :=
  let? workspace := require (path_text "workspace_root" metadata) "missing workspace root" in
  let? members := require (as_array (field "workspace_members" metadata)) "missing workspace members" in
  let? packages := require (as_array (field "packages" metadata)) "missing packages" in
  roots_of workspace members packages.

(** ** The files of the workspace

    A directory as it is listed: entries with their names, in the order of the
    listing; what cannot be listed or inspected is kept. *)
Inductive Node : Type := Directory (listing : option (list Entry)) | Regular | Symlink | Special | Unknown
with Entry : Type := Named (name : string) (node : Node) | Broken.

Definition join_path (directory name : string) : string := if is_empty directory then name else directory +:+ "/" +:+ name.
(** [walk]: the regular files below, [.git] and [target] of the root left out. *)
Fixpoint walk_node (top : bool) (path : string) (node : Node) : CheckResult (list string) :=
  match node with
  | Directory (Some entries) =>
      (fix go entries := match entries with
                         | [] => Ok []
                         | entry :: entries =>
                             let? files := walk_entry top path entry in
                             let? rest := go entries in Ok (files ++ rest)
                         end) entries
  | Directory None => Err (Message "cannot inventory workspace")
  | Regular => Ok [slashed path]
  | Symlink => Err (Message ("symlink is not an owned source: " +:+ slashed path))
  | Special => Ok []
  | Unknown => Err (Message "cannot inspect source path")
  end
with walk_entry (top : bool) (path : string) (entry : Entry) : CheckResult (list string) :=
  match entry with
  | Broken => Err (Message "cannot inventory directory entry")
  | Named name node => if top && mem name [".git"; "target"] then Ok [] else walk_node false (join_path path name) node
  end.
Definition walk (tree : Node) : CheckResult (list string) := walk_node true EmptyString tree.

(** ** Modules

    [validate_modules]: each external module of a file, also within inline ones,
    resolves to one file. *)
Definition parent_of (file : string) : string := match rsplit_once "/" file with Some (directory, _) => directory | None => EmptyString end.
Definition base_of (file : string) : string := match rsplit_once "/" file with Some (_, name) => name | None => file end.
Definition module_directory (crate_root : bool) (file : string) : CheckResult string :=
  if crate_root || String.eqb (base_of file) "mod.rs" then Ok (parent_of file)
  else let? stem := require (file_stem file) "module has no stem" in Ok (join_path (parent_of file) stem).

Section repository.
Context (is_file : string -> bool).

Fixpoint check_module (directory : string) (item : Tree) : CheckResult unit :=
  match item with
  | Branch (TItem (Mod name true) _) items =>
      (fix go items := match items with [] => Ok tt | item :: items => let? _ := check_module (join_path directory name) item in go items end) items
  | Branch (TItem (Mod name false) _) _ =>
      check (Bool.eqb (is_file (join_path directory (name +:+ ".rs"))) (is_file (join_path (join_path directory name) "mod.rs")))
            "external module must resolve to exactly one owned Rust file"
  | _ => Ok tt
  end.
Context (syn : Syn).
Definition validate_modules (file source : string) (crate_root : bool) : CheckResult unit :=
  let? tree := require (parse_file syn source) "invalid Rust source" in
  let? directory := module_directory crate_root file in
  each (check_module directory) (children_of tree).

(** ** Public surfaces

    [check_public_reexports]: the paths that a file exposes, resolved and made
    relative to the crate, are not below a protected namespace. *)
Fixpoint strip_relative (fuel : nat) (path : string) : string :=
  match fuel with
  | O => path
  | S fuel =>
      match union (strip_prefix "crate::" path) (union (strip_prefix "self::" path) (strip_prefix "super::" path)) with
      | Some rest => strip_relative fuel rest
      | None => path
      end
  end.
Definition local_path (crate_prefix expanded : string) : string :=
  let path := default expanded (strip_prefix crate_prefix expanded) in strip_relative (String.length path) path.
Definition exposed (aliases : Aliases) (crate_prefix : string) (protected : list string) (path : string) : list string :=
  List.filter (fun local => existsb (below local) protected) (local_path crate_prefix <$> elements (expands path aliases)).
Definition check_public_reexports (source : string) (protected : list string) (crate_prefix : string) : CheckResult unit :=
  if Nat.eqb (length protected) 0 then Ok tt
  else
    let? file := require (parse_file syn source) "invalid Rust source" in
    let aliases := aliases_of file [] in
    report (list_to_set ((fun local => "public surface flattens protected namespace " +:+ local)
                           <$> concat (exposed aliases crate_prefix protected <$> public_paths file))).

Definition namespace_prefix (rule : CrateRule) : string := underscored (r_name rule) +:+ "::".
Definition protected_namespaces (c : Contract) (rule : CrateRule) : list string :=
  omap (strip_prefix (namespace_prefix rule)) (concat (r_forbidden_paths <$> crates c) ++ PRIVATE_NAMESPACES).

(** ** [architecture] *)
Context (read_to_string : string -> option string) (tree : Node) (parse : string -> option Contract) (validated : Contract -> CheckResult unit)
        (parse_json : string -> option value).
(* whether a program succeeded, and its standard output *)
Context (root_exists : bool) (output : string -> list string -> option (bool * list Z)).

Definition command (program : string) (args : list string) : CheckResult string :=
  let? (success, stdout) := require (output program args) ("could not run " +:+ program) in
  fail_if negb success with Message (program +:+ " failed while checking architecture") in
  require (from_utf8 stdout) "non-UTF-8 tool output".

Definition NATIVE : string := "crates/host-platform/src/windows/native.rs".
(** What the native file may declare: nothing visible but the two functions of
    its parent, and no modules. *)
Definition hidden (visibility : Visibility) : bool := match visibility with Inherited => true | _ => false end.
Definition printed (visibility : Visibility) : string := match visibility with Inherited => "" | Public => "pub" | Restricted text => text end.
Definition READ_PROFILE : string := "fn read(path: &Path, max_bytes: usize, secret: bool) -> Result<Zeroizing<Vec<u8>>, HostError>".
Definition LOG_PROFILE : string :=
  "fn open_log(path: &Path, max_bytes: u64, retained: usize) -> Result<Box<dyn super::log::LogWriter>, HostError>".
Definition check_native_function (c : Contract) (visibility : Visibility) (signature : string) : CheckResult unit :=
  let? approved := require (parse_signature syn READ_PROFILE) "invalid native interface profile" in
  let? log := require (parse_signature syn LOG_PROFILE) "invalid log interface profile" in
  check (negb (String.eqb signature approved) && ((version c <? 19) || negb (String.eqb signature log))
         || negb (String.eqb (printed visibility) "pub (super)"))
        "native boundary only exposes exact reviewed parent functions".
Definition check_native_item (c : Contract) (item : Tree) : CheckResult unit :=
  match tag_of item with
  | TItem (Mod _ _) _ => Err (Message "native boundary cannot extend unsafe scope into child modules")
  | TItem kind visibility =>
      if hidden visibility then Ok tt
      else match kind with
           | Use _ => Err (Message "native SDK re-exports forbidden")
           | Fn _ _ signature _ => check_native_function c visibility signature
           | Struct | Enum | TypeAlias => Err (Message "native types cannot be exported")
           | Const | Static => Err (Message "native values cannot be exported")
           | Trait _ _ => Err (Message "native traits cannot be exported")
           | Union => Err (Message "native unions cannot be exported")
           | _ => Ok tt
           end
  | _ => Ok tt
  end.
Definition check_native_items (c : Contract) (source : string) : CheckResult unit :=
  let? tree := require (parse_file syn source) "invalid native source" in
  each (check_native_item c) (children_of tree).
Definition check_owned_source (c : Contract) (file source : string) (aliases : list (string * string)) : CheckResult unit :=
  let? (rule, development) := owner c file in
  let native := (8 <=? version c) && named WINDOWS_OWNER rule && String.eqb file NATIVE in
  let rule := scoped_rule c file rule in
  let? _ := (if native then check_native_items c source else Ok tt) in
  check_source_profile syn (if native then rule else ban ["windows_sys"] rule) source development aliases native.

Definition FACADE : string := "crates/host-platform/src/windows/log.rs".
(** The one trait that the log facade declares, and how many it declares. *)
Definition LOG_PORT : string := "pub(super) trait LogWriter: Send { fn write(&mut self, bytes: &[u8]) -> Result<(), HostError>; }".
Definition undocumented (children : list Tree) : bool := existsb (fun a => negb (is_ident (a_path a) "doc")) (item_attributes children).
Definition is_method (t : Tree) : bool := match tag_of t with TMethod _ _ => true | _ => false end.
Fixpoint count_ports (approved : Declaration) (items : list Tree) (found : nat) : CheckResult nat :=
  match items with
  | [] => Ok found
  | Branch (TItem (Trait _ port) _) children :: items =>
      fail_if undocumented children with Message "log port cannot be conditional or attribute-transformed" in
      let? _ := each (fun method => check (undocumented (children_of method)) "log method cannot be conditional or attribute-transformed")
                     (List.filter is_method children) in
      fail_if negb (String.eqb (d_plain port) (d_printed approved)) with Message "log facade exposes only the exact opaque write port" in
      count_ports approved items (S found)
  | _ :: items => count_ports approved items found
  end.
Definition check_log_port (source : string) : CheckResult unit :=
  let? tree := require (parse_file syn source) "invalid log facade" in
  let? approved := require (parse_trait syn LOG_PORT) "invalid log port profile" in
  let? found := count_ports approved (children_of tree) O in
  check (negb (Nat.eqb found 1)) "log facade requires one exact parent-only Send write port".
Definition check_windows_log_source (c : Contract) (file source : string) (aliases : list (string * string)) : CheckResult unit :=
  if negb (String.eqb file FACADE) then Ok tt
  else
    fail_if version c <? 19 with Message "Windows log facade requires v19" in
    let? (rule, development) := owner c file in
    let rule := ban ["windows_sys"; "std::fs"; "std::io"; "std::os"; "std::env"; "std::net"; "std::process"; "std::thread"; "tokio"] rule in
    let? _ := check_source_with_aliases syn rule source development aliases in
    check_log_port source.

Definition check_reexports (c : Contract) (rule : CrateRule) (source : string) : CheckResult unit :=
  check_public_reexports source (protected_namespaces c rule) (namespace_prefix rule).
(** One file of the inventory. *)
Definition check_file (c : Contract) (metadata : value) (roots : list string) (file : string) : CheckResult unit :=
  fail_if ends_with "Cargo.toml" file && negb (String.eqb file "Cargo.toml")
       && negb (existsb (fun rule => String.eqb file (r_path rule +:+ "/Cargo.toml")) (crates c))
  with Message ("unowned Cargo manifest: " +:+ file) in
  if negb (ends_with ".rs" file) then Ok tt
  else
    let? (rule, development) := owner c file in
    let? source := require (read_to_string file) "cannot read Rust source" in
    let? _ := (if negb development && mem (r_name rule) (portable_crates c) then in_file file (check_portable syn false source) else Ok tt) in
    let? aliases := dependency_aliases metadata (r_name rule) in
    let? _ := in_file file (check_owned_source c file source aliases) in
    let? _ := in_file file (check_windows_log_source c file source aliases) in
    let? _ := in_file file (check_management_source syn c file source aliases) in
    let? _ := in_file file (check_archive_source syn c file source aliases) in
    let? _ := in_file file (check_sealing_source syn c file source aliases) in
    let? _ := in_file file (check_ciphertext_source syn c file source) in
    let? _ := in_file file (check_guarded_mutation_source syn c file source) in
    let? _ := (if (17 <=? version c) || starts_with "crates/device-codec/src/gzip" file
               then in_file file (check_gzip_source syn c file source aliases) else Ok tt) in
    let? _ := (if development then Ok tt else in_file file (check_reexports c rule source)) in
    in_file file (validate_modules file source (mem file roots)).

(** The paths that git says have changed since a revision, or are new. *)
Definition changed_paths (revision : string) : CheckResult (gset string) :=
  let? diff := command "git" ["diff"; "--name-only"; revision; "--"] in
  let? untracked := command "git" ["ls-files"; "--others"; "--exclude-standard"] in
  Ok (list_to_set (lines diff ++ lines untracked)).

Definition architecture (baseline : option string) : CheckResult unit :=
  fail_if negb root_exists with Message "workspace does not exist" in
  let? source := require (read_to_string "architecture/spec.toml") "architecture/spec.toml is required" in
  let? c := parse_contract parse source in
  let? _ := validated c in
  let? answer := command "cargo" ["metadata"; "--format-version"; "1"; "--no-deps"; "--locked"] in
  let? metadata := require (parse_json answer) "invalid Cargo metadata" in
  let? _ := check_metadata c metadata in
  let? roots := target_roots metadata in
  let? files := walk tree in
  let? _ := each (check_file c metadata roots) files in
  let? revision := command "git" ["rev-parse"; "--verify"; default "HEAD" baseline +:+ "^{commit}"] in
  let revision := trim revision in
  let prior := match command "git" ["show"; revision +:+ ":architecture/spec.toml"] with Ok text => Some text | Err _ => None end in
  let? changed := changed_paths revision in
  validate_evolution parse prior source changed.
End repository.

(** ** The metadata conforms *)
(** How a crate may depend on a package. *)
Definition declared (rule : CrateRule) (kind original : string) : Prop :=
  kind = "normal"%string /\ original ∈ r_dependencies rule
  \/ kind = "dev"%string /\ (original ∈ r_dependencies rule \/ original ∈ r_dev_dependencies rule)
  \/ kind = "build"%string /\ original ∈ r_build_dependencies rule.
(** A dependency is declared, and a workspace package is used from its own
    directory, anything else from nowhere in the file system. *)
Definition dependency_conforms (c : Contract) (root : string) (rule : CrateRule) (dependency : value) : Prop :=
  exists original, text "name" dependency = Some original /\ declared rule (kind_of dependency) original
    /\ match find_rule (named original) c with
       | Some owner => path_text "path" dependency = Some (root +:+ "/" +:+ r_path owner)
       | None => is_null (field "path" dependency) = true
       end.
(** A target is a source file of its own crate; there are no build scripts. *)
Definition target_conforms (c : Contract) (root : string) (rule : CrateRule) (target : value) : Prop :=
  exists kinds relative development,
    as_array (field "kind" target) = Some kinds /\ kinds <> [] /\ path_text "src_path" target = Some (root +:+ "/" +:+ relative)
    /\ owner c relative = Ok (rule, development)
    /\ Forall (fun kind => exists directory, target_directory kind = Some directory
                             /\ starts_with (r_path rule +:+ "/" +:+ directory +:+ "/") relative = true) kinds.

Record package_conforms (c : Contract) (root : string) (package : value) (rule : CrateRule) : Prop := {
  package_rule : rule ∈ crates c;
  package_name : text "name" package = Some (r_name rule);
  package_manifest : path_text "manifest_path" package = Some (root +:+ "/" +:+ r_path rule +:+ "/Cargo.toml");
  package_dependencies : exists l, as_array (field "dependencies" package) = Some l /\ Forall (dependency_conforms c root rule) l;
  package_targets : exists l, as_array (field "targets" package) = Some l /\ Forall (target_conforms c root rule) l
}.

Lemma allowed_declared rule kind original : allowed rule kind original = true -> declared rule kind original.
Proof.
  unfold allowed, declared. destruct (String.eqb_spec kind "normal") as [-> | _]; [intros ?%bool_decide_eq_true; by left |].
  destruct (String.eqb_spec kind "dev") as [-> | _]; [intros Hin%bool_decide_eq_true; apply elem_of_app in Hin; right; by left |].
  destruct (String.eqb_spec kind "build") as [-> | _]; [intros ?%bool_decide_eq_true; right; by right | done].
Qed.

Lemma slash_not_empty s t : String.eqb EmptyString (s +:+ "/" +:+ t) = false.
Proof. apply String.eqb_neq. intros H. apply (f_equal str_bytes) in H. rewrite !str_bytes_app in H. by destruct (str_bytes s). Qed.

Lemma check_dependency_conforms c root name rule dependency :
  check_dependency c root name rule dependency = Ok tt -> dependency_conforms c root rule dependency.
Proof.
  unfold check_dependency. intros H. apply rbind_ok in H as (original & Ho & H). apply ok_or_ok in Ho.
  apply rbind_ok in H as ([] & _ & H). apply fail_if_ok in H as [_ H]. do 2 apply rbind_ok in H as ([] & _ & H).
  apply fail_if_ok in H as [Ha H]. apply fail_if_ok in H as [_ H]. exists original. split; [done |].
  split; [by apply allowed_declared, negb_false_iff |]. destruct (find_rule (named original) c) as [owner |]; apply check_ok, negb_false_iff in H; [| done].
  apply String.eqb_eq in H. destruct (path_text "path" dependency) as [path |]; cbn in H; [by rewrite H |].
  by apply String.eqb_eq in H; rewrite slash_not_empty in H.
Qed.

Lemma find_rule_named name c rule : find_rule (named name) c = Some rule -> rule ∈ crates c /\ r_name rule = name.
Proof. unfold find_rule. intros [Hin Hn]%find_some. split; [by apply list_elem_of_In | by apply String.eqb_eq]. Qed.

Lemma check_target_conforms c root rule target :
  separate (crates c) -> rule ∈ crates c -> check_target c root (r_name rule) rule target = Ok tt -> target_conforms c root rule target.
Proof.
  intros Hs Hin H. unfold check_target in H. apply rbind_ok in H as (kinds & Hk & H). apply ok_or_ok in Hk. apply fail_if_ok in H as [_ H].
  apply rbind_ok in H as (source & Hsrc & H). apply ok_or_ok in Hsrc. apply rbind_ok in H as (relative & Hr & H).
  apply ok_or_ok, strip_prefix_spec in Hr. apply rbind_ok in H as ([found development] & Ho & H). apply fail_if_ok in H as [Hn H].
  apply fail_if_ok in H as [Hl H]. apply negb_false_iff, String.eqb_eq in Hn.
  assert (found = rule) as ->.
  { apply (fmap_inj_in r_name (crates c)); [apply Hs | | done..]. unfold owner in Ho. apply fail_if_ok in Ho as [_ Ho].
    by apply find_owner_ok in Ho as (? & ? & _). }
  exists kinds, relative, development. split; [done |]. split; [by intros -> |]. split; [by rewrite Hsrc, Hr, string_app_assoc |]. split; [done |].
  apply each_ok in H. eapply Forall_impl; [exact H |]. intros kind Hd. apply rbind_ok in Hd as (directory & Hd & Hc). apply ok_or_ok in Hd.
  apply check_ok, negb_false_iff in Hc. by exists directory.
Qed.

Lemma check_member_conforms c root packages seen id name :
  separate (crates c) -> check_member c root packages seen id = Ok name ->
  name ∉ seen /\ exists package rule, package ∈ packages /\ value_eqb (field "id" package) id = true /\ package_conforms c root package rule /\ r_name rule = name.
Proof.
  intros Hs H. unfold check_member in H. apply rbind_ok in H as (package & Hp & H). apply ok_or_ok, find_some in Hp as [Hp Hid].
  apply rbind_ok in H as (name' & Hn & H). apply ok_or_ok in Hn. apply rbind_ok in H as (rule & Hr & H). apply ok_or_ok, find_rule_named in Hr as [Hr <-].
  apply fail_if_ok in H as [Hnew H]. apply rbind_ok in H as (manifest & Hm & H). apply ok_or_ok in Hm. apply fail_if_ok in H as [Hpath H].
  apply negb_false_iff, String.eqb_eq in Hpath as ->. apply rbind_ok in H as (dependencies & Hd & H). apply ok_or_ok in Hd.
  apply rbind_ok in H as ([] & Hdeps & H). apply rbind_ok in H as (targets & Ht & H). apply ok_or_ok in Ht. apply rbind_ok in H as ([] & Htgts & [= <-]).
  split; [by apply bool_decide_eq_false in Hnew |]. exists package, rule. split; [by apply list_elem_of_In |]. split; [done |]. split; [| done].
  apply each_ok in Hdeps, Htgts. split; [done | done | done | |].
  - exists dependencies. split; [done |]. eapply Forall_impl; [exact Hdeps |]. intros d. apply check_dependency_conforms.
  - exists targets. split; [done |]. eapply Forall_impl; [exact Htgts |]. intros t. by apply check_target_conforms.
Qed.

(** A member is the package that has its id, and conforms to a rule. *)
Definition member_conforms (c : Contract) (root : string) (packages : list value) (id : value) (rule : CrateRule) : Prop :=
  exists package, package ∈ packages /\ value_eqb (field "id" package) id = true /\ package_conforms c root package rule.

Lemma check_members_conform c root packages seen ids all :
  separate (crates c) -> check_members c root packages seen ids = Ok all -> NoDup seen ->
  exists rules, Forall2 (member_conforms c root packages) ids rules /\ NoDup all /\ all ≡ₚ (r_name <$> rules) ++ seen.
Proof.
  intros Hs. revert seen. induction ids as [| id ids IH]; intros seen; cbn [check_members]; [intros [= <-] Hn; by exists [] |].
  intros H Hn. apply rbind_ok in H as (name & Hm & H). apply check_member_conforms in Hm as (Hnew & package & rule & Hp & Hid & Hc & <-); [| done].
  apply IH in H as (rules & Hf & Ha & Hperm); [| by constructor]. exists (rule :: rules). split; [constructor; [by exists package | done] |].
  split; [done |]. rewrite Hperm. cbn. symmetry. apply Permutation_middle.
Qed.

(** The members of the workspace are the declared crates, each exactly once,
    with their reviewed dependencies and targets. *)
Record metadata_conforms (c : Contract) (metadata : value) (root : string) (packages members : list value) : Prop := {
  metadata_packages : as_array (field "packages" metadata) = Some packages;
  metadata_members : as_array (field "workspace_members" metadata) = Some members;
  metadata_root : path_text "workspace_root" metadata = Some root;
  metadata_exact : NoDup (r_name <$> crates c) /\ exists rules, Forall2 (member_conforms c root packages) members rules /\ rules ≡ₚ crates c
}.

Lemma check_metadata_conforms c metadata :
  separate (crates c) -> check_metadata c metadata = Ok tt -> exists root packages members, metadata_conforms c metadata root packages members.
Proof.
  intros Hs H. unfold check_metadata in H. apply rbind_ok in H as (packages & Hp & H). apply ok_or_ok in Hp. apply rbind_ok in H as (members & Hm & H).
  apply ok_or_ok in Hm. apply rbind_ok in H as (root & Hr & H). apply ok_or_ok in Hr. apply rbind_ok in H as (seen & Hc & H).
  apply check_ok, negb_false_iff, Nat.eqb_eq in H. apply check_members_conform in Hc as (rules & Hf & Hn & Hperm); [| done | constructor].
  rewrite app_nil_r in Hperm. exists root, packages, members. split; [done | done | done |]. split; [apply Hs |]. exists rules. split; [done |].
  assert (Hlen : length rules = length (crates c)) by (rewrite <- H, Hperm, length_fmap; done).
  apply submseteq_length_Permutation; [| lia]. apply NoDup_submseteq; [rewrite Hperm in Hn; by apply NoDup_fmap_1 in Hn |].
  intros rule Hin. apply list_elem_of_lookup in Hin as [i Hi]. destruct (Forall2_lookup_r _ _ _ _ _ Hf Hi) as (id & _ & package & _ & _ & Hpc). apply Hpc.
Qed.

(** ** The inventory is complete *)
(** Where a node is, below a node at a path; the directories that the walk
    leaves out of the root hold nothing. *)
Inductive located : bool -> string -> Node -> string -> Node -> Prop :=
| located_here top path node : located top path node path node
| located_below top path entries name node below_path below_node :
    In (Named name node) entries -> top && mem name [".git"%string; "target"%string] = false ->
    located false (join_path path name) node below_path below_node ->
    located top path (Directory (Some entries)) below_path below_node.

Definition walk_entries (top : bool) (path : string) : list Entry -> CheckResult (list string) :=
  fix go entries := match entries with
                    | [] => Ok []
                    | entry :: entries =>
                        let? files := walk_entry top path entry in
                        let? rest := go entries in Ok (files ++ rest)
                    end.
Lemma walk_directory top path entries : walk_node top path (Directory (Some entries)) = walk_entries top path entries.
Proof. done. Qed.

Lemma walk_entries_in top path entries entry files :
  walk_entries top path entries = Ok files -> In entry entries -> exists some, walk_entry top path entry = Ok some /\ some ⊆ files.
Proof.
  revert files. induction entries as [| first entries IH]; intros files H Hin; [done |]. cbn in H.
  apply rbind_ok in H as (some & Hs & H). apply rbind_ok in H as (rest & Hr & [= <-]). destruct Hin as [-> | Hin].
  - exists some. split; [done | set_solver].
  - destruct (IH _ Hr Hin) as (found & ? & ?). exists found. split; [done | set_solver].
Qed.

(** A completed walk met no symbolic link and nothing it could not list, and
    has every regular file. *)
Lemma walk_located top path node found_path found :
  located top path node found_path found -> forall files, walk_node top path node = Ok files ->
  exists flag some, walk_node flag found_path found = Ok some /\ some ⊆ files.
Proof.
  induction 1 as [top path node | top path entries name node below_path below_node Hin Htop Hl IH]; intros files Hw; [by exists top, files |].
  rewrite walk_directory in Hw. destruct (walk_entries_in _ _ _ _ _ Hw Hin) as (some & Hs & Hsub).
  cbn [walk_entry] in Hs. rewrite Htop in Hs. destruct (IH some Hs) as (flag & found & Hf & Hi). exists flag, found. split; [done | set_solver].
Qed.

Lemma walk_complete tree files path :
  walk tree = Ok files -> located true EmptyString tree path Regular -> slashed path ∈ files.
Proof. intros Hw Hl. destruct (walk_located _ _ _ _ _ Hl _ Hw) as (flag & some & [= <-] & Hi). apply Hi. left. Qed.
Lemma walk_no_links tree files path : walk tree = Ok files -> ~ located true EmptyString tree path Symlink.
Proof. intros Hw Hl. by destruct (walk_located _ _ _ _ _ Hl _ Hw) as (flag & some & Hs & _). Qed.

(** ** An accepted workspace *)
Section accepted.
Context (is_file : string -> bool) (syn : Syn) (read_to_string : string -> option string) (tree : Node) (parse : string -> option Contract)
        (fs : FileSystem) (parse_toml : string -> option Toml) (parse_json : string -> option value) (parse_datetime : string -> option Datetime)
        (parse_registry : string -> option Registry) (parse_evidence : string -> option Evidence)
        (root_exists : bool) (output : string -> list string -> option (bool * list Z)).

(** What a production file may not reach: what its crate's rule bans there, and
    except in the native file the Windows SDK. *)
Definition banned (c : Contract) (name : string) (rule : CrateRule) : CrateRule :=
  if String.eqb name NATIVE then scoped_rule c name rule else ban ["windows_sys"%string] (scoped_rule c name rule).
Definition keeps_bans (c : Contract) (name : string) (rule : CrateRule) (aliases : Aliases) (file : Tree) : Prop :=
  forall path glob q, meets file path glob -> (size (expands path aliases) < 1024)%nat ->
    rtc (step aliases) path q -> forbidden (banned c name rule) glob q = false.

Lemma forbidden_ban paths rule glob q : forbidden (ban paths rule) glob q = false -> forbidden rule glob q = false.
Proof. unfold forbidden, ban. cbn [r_forbidden_paths]. rewrite existsb_app. by intros [? _]%orb_false_iff. Qed.

Lemma check_owned_keeps c name source dependencies rule development :
  owner c name = Ok (rule, development) -> check_owned_source syn c name source dependencies = Ok tt ->
  exists file, parse_file syn source = Some file /\ (development = false -> keeps_bans c name rule (aliases_of file dependencies) file).
Proof.
  intros Ho H. unfold check_owned_source in H. rewrite Ho in H. cbn [rbind] in H. apply rbind_ok in H as ([] & _ & H).
  destruct (parse_file syn source) as [file |] eqn:Hp; [| by unfold check_source_profile in H; rewrite Hp in H].
  exists file. split; [done |]. intros -> path glob q Hin Hs Hr. unfold banned.
  pose proof (check_source_keeps _ _ source _ _ _ Hp H path glob q Hin (expands_complete _ _ _ Hs Hr)) as Hq.
  destruct (_ && _) eqn:E in Hq.
  - apply andb_true_iff in E as [_ ->]. exact Hq.
  - destruct (String.eqb name NATIVE); [by eapply forbidden_ban | done].
Qed.

Lemma in_file_ok file r : in_file file r = Ok tt <-> r = Ok tt.
Proof. unfold in_file. apply map_err_ok. Qed.

End accepted.

(** ** A small workspace *)
Definition demo_package (name path : string) (dependencies : list value) : value :=
  VObj [("dependencies", VArr dependencies); ("id", VStr ("path+file:///w/" +:+ path)); ("manifest_path", VStr ("/w/" +:+ path +:+ "/Cargo.toml"));
        ("name", VStr name);
        ("targets", VArr [VObj [("kind", VArr [VStr "lib"]); ("src_path", VStr ("/w/" +:+ path +:+ "/src/lib.rs"))]])].
Definition demo_dependency (name path : string) : value := VObj [("kind", VNull); ("name", VStr name); ("path", VStr ("/w/" +:+ path))].
Definition demo_metadata : value :=
  VObj [("packages", VArr [demo_package "core" "crates/core" []; demo_package "core-extra" "crates/core-extra" [demo_dependency "core" "crates/core"];
                           demo_package "xtask" "tools/xtask" []]);
        ("workspace_members", VArr (VStr <$> ["path+file:///w/crates/core"; "path+file:///w/crates/core-extra"; "path+file:///w/tools/xtask"]));
        ("workspace_root", VStr "/w")].
Definition demo_dir (entries : list (string * Node)) : Node := Directory (Some ((fun p => Named (fst p) (snd p)) <$> entries)).
Definition demo_src : Node := demo_dir [("Cargo.toml", Regular); ("src", demo_dir [("lib.rs", Regular)])].
Definition demo_tree : Node :=
  demo_dir [(".git", demo_dir [("HEAD", Symlink)]); ("Cargo.toml", Regular); ("crates", demo_dir [("core", demo_src); ("core-extra", demo_src)]);
            ("tools", demo_dir [("xtask", demo_src)])]%string.
Definition demo_uses (body : Tree) : Tree :=
  Branch TFile [demo_import (UsePath "std" (UseRename "fmt" "f")); Branch (TItem (Fn false false "fn f ( )" false) Inherited) [body]].
Definition demo_plain : Tree := demo_uses (Branch (TPath (ident_path ["f"; "Display"])) []).
Definition demo_macro : Tree := demo_uses (Branch (TMacro (ident_path ["f"; "write"]) []) []).
Definition demo_escape : Tree := demo_uses (Branch (TPath (ident_path ["std"; "fs"; "read"])) []).
Definition demo_architecture (file : Tree) : CheckResult unit :=
  architecture (fun _ => true) (demo_syn file) (fun _ => Some "fn"%string) demo_tree (fun _ => Some (demo_contract 1 "docs/adr/0001.md"))
    (validate (fun _ => true) (fun _ => Some "fn"%string) {| fs_root := true; fs_symlink := fun _ => None; fs_canonical := fun _ => None |}
       (fun _ => None) (fun _ => Some demo_metadata) (fun _ => None) (fun _ => None) (fun _ => None) (demo_syn file))
    (fun _ => Some demo_metadata) true (fun _ _ => Some (true, [])) None.

Lemma demo_passes : demo_architecture demo_plain = Ok tt.
Proof. vm_compute. reflexivity. Qed.

